(* ===== verification/_CoqProject ===== *)
-Q . S2P
Prelude.v
Utf8.v
Paths.v
Sort.v
StageWitness.v
Findings.v
Hints.v
Quota.v
Interval.v
Snapshot.v
Streams.v
Ir.v
Layout.v
ByteFields.v
ZipFields.v
ZipRecords.v
Zip32.v
Zip64.v
ZipSearch.v
ZipValues.v
ZipLayout.v
ZipGrammar.v
ZipRefine.v
TarFields.v
Tar.v
TarWrite.v
TarRefine.v
TarGnu.v
TarGnuRefine.v
TarPax.v
TarPaxRecords.v
TarPaxProvenance.v
Evidence.v
Identity.v
PrefixFree.v
IdentityTar.v
IdentityRoots.v
Crc.v
Covering.v
AuditHeaders.v
CoveringTar.v
CoveringGnu.v
CoveringGnuAgree.v
CoveringZip.v
CoveringZip64.v
CoveringPax.v
Policy.v
Protocol.v
ProtocolCodec.v
ProtocolValid.v
ProtocolResult.v
Jail.v
JailSafe.v
Transforms.v
Verification.v
WrapperAudit.v
Planning.v
PlanSafe.v
Outcome.v
FileSystem.v
MemFs.v
Materialize.v
MaterializeSafe.v
MaterializeTotal.v
Publication.v
Retention.v
RetentionSafe.v
Composite.v
CompositeSafe.v
Receipt.v
Profiles.v
Execute.v
ExecuteSafe.v
ExecuteLive.v
Refusals.v
Dispatch.v
CoveringPaxAgree.v
DispatchSafe.v
DispatchDialects.v
