(* ===== verification/Prelude.v ===== *)
(** * Sealr: a verification library of the archive boundary

    Sealr reads an untrusted archive, decides under a policy whether it is
    admitted, verifies every payload, and publishes the tree at a destination
    or refuses.  This library models the Rust crates [sealr] (crates/sealr/src)
    and [sealr-protocol] and proves what makes them correct.  Definitions keep
    the source's names; a loop is a [..._step] function iterated by [run_loop],
    a [Result] is [result], a call that may not return is [exec], a [u64] is a
    [Z] with its checked operations written out.

    ** The parts and how they interact

    An operation runs in this order, and the files follow it.

    - Bytes.  [Snapshot] (snapshot.rs) is the immutable source every reader
      reads through: class [Source], laws [represents] (a read that succeeds
      returns the archive's bytes) and [reliable] (it also succeeds).  [Streams]
      has the byte streams, [Transforms] the derived domains of an operation.
    - Vocabulary.  [Findings] (findings.rs), [Hints] (hints.rs), [Quota]
      (quota.rs, ratio.rs), [Interval], [Ir], [Evidence] and [Profiles] (ir.rs), [Layout]
      (ranges laid end to end).
    - Parsers.  ZIP: [ByteFields], [ZipFields], [ZipRecords], [Zip32], [Zip64]
      are zip.rs; [ZipGrammar] is the declarative grammar with the
      proofs about headers and extra fields; [ZipSearch], [ZipValues],
      [ZipLayout], [ZipRefine] the other proofs.  TAR: [TarFields], [Tar], [TarWrite] (tar.rs), [TarGnu]
      (tar_gnu.rs), [TarPax] (tar_pax.rs), with [TarRefine], [TarGnuRefine],
      [TarPaxRecords], [TarPaxProvenance].
    - Planning.  [Jail] (jail.rs) turns a member name into a destination,
      [Planning] (apply.rs) runs the caps, the quotas and the jail over the
      members; [JailSafe], [PlanSafe] and [Refusals] (the planner always
      decides, and refuses with errors) are the proofs.
    - Verification.  [Verification] (verification.rs, deflate.rs) streams a
      payload through decoder, caps and digests.
    - Covering.  [Covering], [AuditHeaders], [CoveringGnu], [CoveringPax],
      [CoveringZip], [CoveringZip64], [WrapperAudit] (covering.rs) are the
      audits that read the claimed evidence back from the source;
      [CoveringTar], [CoveringGnuAgree], [CoveringPaxAgree] and the last three
      have their theorems.  [Crc] has the two checksums the
      crate implements itself (xz.rs, bzip2.rs).
    - Identity.  [Identity], [IdentityTar] (identity.rs) are
      the encodings behind the content and layout roots; [PrefixFree] and
      [IdentityRoots] prove what the roots bind.
    - Policy.  [Policy] (policy.rs) compiles and validates policies.
    - Publication.  [FileSystem] is the interface of the capability calls with
      its laws ([CapFsLaws], and [RemovalLaws] for what recovery needs of a
      removal that fails), [MemFs] an instance; [StageWitness] (stage_witness.rs) and
      [Materialize] (materialize.rs) create, write, audit, publish, abort and
      recover a stage; [MaterializeSafe], [MaterializeTotal], [Publication]
      are the proofs.  [Outcome] (outcome.rs) assembles verdicts.
    - Release.  [Retention] (verified.rs) is the archive a caller reads from.
    - Execution.  [Composite] (apply.rs) has the last checks of a ready archive,
      [Receipt] the views, receipts and outcomes, [Execute] runs an admitted
      plan through the parts above.  [CompositeSafe], [ExecuteSafe] and
      [ExecuteLive] compose their theorems.
    - Dispatch.  [Dispatch] (apply.rs) is the operation on a raw TAR dialect as
      a whole, from a request on caller bytes to the outcome, with the three
      planners.  [DispatchSafe] states what a dialect owes (record of
      operations [RawDialect], laws [DialectLaws]) and proves the operation
      against it; [DispatchDialects] discharges the laws and states the theorems.
    - Worker protocol.  [Protocol], [ProtocolCodec] model
      sealr-protocol; [ProtocolValid], [ProtocolResult] the
      proofs.

    [Prelude], [Utf8], [Paths] and [Sort] hold what the components share: the
    machine integers, [result] and [exec] with their notations, [run_loop] and
    its rules, byte slices, UTF-8, ordered maps, stable sorting, and the tactics
    [ok_step], [ok_steps] (invert a computation that returned [Ok]), [breflect]
    (booleans to propositions).  [FileSystem] has [run_ok] for runs in its monad.

    ** What the theorems show

    - A reader accepts exactly its grammar: [parse_ustar_accepts_iff],
      [parse_zip32_accepts_iff], [parse_pax_accepts_iff],
      [parse_gnu_accepts_iff]; it always returns, and unreliable sources can
      only make it refuse.
    - An accepted archive is covered byte for byte ([zip_archive_tiles],
      [audit_sevenz_tiles]), and the evidence says where
      each fact came from ([pax_members_provenance],
      [gnu_carriers_consumed_once]).
    - The second opinion agrees with the first: [audit_tar_covering_iff],
      [audit_gnu_is_the_grammar], [audit_zip_covering_iff],
      [audit_zip64_agrees]; the wrapper audits determine their evidence.
    - A plan is accepted exactly when every cap, name and collision rule holds
      ([plan_zip_members_iff], [plan_tar_members_iff]) and a name never leaves
      its destination ([jailed_name_stays_inside]).
    - A payload is verified exactly when size, CRC and digest fit
      ([verify_raw_iff], [verify_deflate_exact]).
    - Equal roots mean equal facts unless SHA-256 collides
      ([content_root_iff], [layout_root_binds]).
    - A ready archive is bound to the bytes it holds, through the transformation
      record and the wrapper's own checksums ([ready_archive_is_bound]).
    - An outcome hands out an archive only after every member was streamed from
      the range its plan records and verified; an
      allowed one with a destination means the tree stands there
      ([outcome_authority_is_earned], [allowed_outcome_is_published]).
    - The inspection of a raw TAR archive, from its bytes to its verdict, is a
      decision: it always ends, and it allows exactly the archives of the
      grammar that the policy admits ([tar_inspection_decides],
      [pax_inspection_decides], [gnu_inspection_decides]).
    - What is published is the audited tree, what recovery removes is the
      recorded stage, whether the removal succeeds or fails on the way, and
      cleanup reports what it did, the record's file included ([Publication]).
    - What is released is the verified content, within its bounds
      ([RetentionSafe]).
    - The worker frames are canonical, validated and bounded ([ProtocolValid],
      [ProtocolResult]).

    ** Parameters

    Code outside the repository is a class argument: SHA-256 ([Sha256]), CRC-32
    ([Crc32]), the inflater, Unicode tables ([Jail]), serde ([Policy]), the
    allocator's answers ([Allocator], for [try_reserve]) and the file system
    ([CapFs]).  Their laws are the documented behaviour and are hypotheses of
    the theorems that need them; every such theorem has a witness over a
    concrete instance.  [usize] is 64 bits.

    ** Fuel

    [run_loop] and the walks of a directory take fuel.  Each parser gets one
    unit per block or record its source can hold, each scan one per buffer, and
    the theorems show that this suffices (the runs return for every input), so
    no statement is only about runs that happen to return.  The walks of the
    staged tree need as much fuel as the tree is deep ([MaterializeTotal]).

    ** Not modelled, and why

    - The decompressing readers (gzip.rs, xz.rs, zstd.rs, bzip2.rs) and the 7z
      header parser: containers around third-party decoders, whose results the
      modelled audits check.
    - The ZIP and 7z branches of the dispatch in apply.rs; the wrapped branches are modelled from the decoded
      domain on.  A source given by path ([private_file_from_path]): platform
      calls that fill the record [SourceSnapshot].
    - Semantic records, canonical JSON, the wheel profile, phase traces:
      documents derived from an outcome; no admission decision reads them.
    - Process supervision, the Windows materializer, the command line, the
      tools and scripts: operating-system calls and glue. *)

From Stdlib Require Export Strings.String Strings.Ascii Strings.Byte.
From Stdlib Require Export ZArith Lia.
From stdpp Require Export base decidable list numbers option relations strings.

Local Open Scope Z_scope.

(** ** Machine-width integers

    A Rust unsigned integer is a [Z] inside its range; every operation that
    can leave the range is written out with the behaviour the source selects
    (checked, saturating). *)

Definition u8_max : Z := 255.
Definition u16_max : Z := 65535.
Definition u32_max : Z := 4294967295.
Definition u64_max : Z := 18446744073709551615.

(** Range predicate of [u64], and of [usize] on the 64-bit targets modelled. *)
Definition is_u64 (z : Z) : Prop := 0 <= z <= u64_max.
Definition is_u32 (z : Z) : Prop := 0 <= z <= u32_max.
Definition is_u16 (z : Z) : Prop := 0 <= z <= u16_max.

(** [u64::checked_add], [u64::checked_mul]. *)
Definition u64_checked_add (a b : Z) : option Z :=
  if a + b <=? u64_max then Some (a + b) else None.
Definition u64_checked_mul (a b : Z) : option Z :=
  if a * b <=? u64_max then Some (a * b) else None.
(** [u64::saturating_add], [u64::saturating_sub]. *)
Definition u64_saturating_add (a b : Z) : Z := Z.min u64_max (a + b).
Definition u64_saturating_sub (a b : Z) : Z := Z.max 0 (a - b).
(** [u64::div_ceil]. *)
Definition div_ceil (a b : Z) : Z := (a + b - 1) / b.

Lemma u64_checked_add_Some a b c :
  u64_checked_add a b = Some c <-> c = a + b /\ a + b <= u64_max.
Proof.
  unfold u64_checked_add. destruct (Z.leb_spec (a + b) u64_max);
    split; intros; simplify_eq; try lia; f_equal; lia.
Qed.

Lemma u64_checked_add_None a b :
  u64_checked_add a b = None <-> u64_max < a + b.
Proof.
  unfold u64_checked_add. destruct (Z.leb_spec (a + b) u64_max);
    split; intros; simplify_eq; lia || done.
Qed.

Lemma u64_checked_add_le a b : a + b <= u64_max -> u64_checked_add a b = Some (a + b).
Proof. intros. by apply u64_checked_add_Some. Qed.

Lemma u64_checked_mul_Some a b c :
  u64_checked_mul a b = Some c <-> c = a * b /\ a * b <= u64_max.
Proof.
  unfold u64_checked_mul. destruct (Z.leb_spec (a * b) u64_max);
    split; intros; simplify_eq; try lia; f_equal; lia.
Qed.

(** ** Results

    [result A E] is Rust's [Result<A, E>]; the [?] operator is [let?].
    A computation with a loop is an [exec A E]: [None] is reserved for a loop
    whose fuel ran out, and each component proves that it never occurs. *)

Inductive result (A E : Type) : Type :=
  | Ok (a : A)
  | Err (e : E).
Arguments Ok {A E} _.
Arguments Err {A E} _.

Definition exec (A E : Type) : Type := option (result A E).

Definition map_err {A E F} (f : E -> F) (r : result A E) : result A F :=
  match r with Ok a => Ok a | Err e => Err (f e) end.

Lemma map_err_ok {A E F} (f : E -> F) (r : result A E) v : map_err f r = Ok v <-> r = Ok v.
Proof. destruct r; simpl; split; intros; by simplify_eq. Qed.

Definition exec_map_err {A E F} (f : E -> F) (r : exec A E) : exec A F :=
  option_map (map_err f) r.

Lemma exec_map_err_ok {A E F} (f : E -> F) (r : exec A E) v :
  exec_map_err f r = Some (Ok v) <-> r = Some (Ok v).
Proof. destruct r as [[a|e]|]; simpl; split; intros; by simplify_eq. Qed.

Definition ok_or {A E} (o : option A) (e : E) : result A E :=
  match o with Some a => Ok a | None => Err e end.

Lemma ok_or_ok {A E} (o : option A) (e : E) a : ok_or o e = Ok a <-> o = Some a.
Proof. destruct o; simpl; split; intros; by simplify_eq. Qed.

Definition is_ok {A E} (r : result A E) : bool :=
  match r with Ok _ => true | Err _ => false end.

Definition ok {A E} (r : result A E) : option A :=
  match r with Ok a => Some a | Err _ => None end.

Declare Scope rust_scope.
Delimit Scope rust_scope with rust.

(** Pure [?]: a [result] bound in a [result]. *)
Notation "'let?' x ':=' c 'in' k" :=
  (match c with Ok x => k | Err e => Err e end)
  (at level 10, x pattern, c at level 100, k at level 200) : rust_scope.
(** A [result] bound in an [exec]. *)
Notation "'let*' x ':=' c 'in' k" :=
  (match c with Ok x => k | Err e => Some (Err e) end)
  (at level 10, x pattern, c at level 100, k at level 200) : rust_scope.
(** An [exec] bound in an [exec]. *)
Notation "'let!' x ':=' c 'in' k" :=
  (match c with
   | Some (Ok x) => k
   | Some (Err e) => Some (Err e)
   | None => None
   end)
  (at level 10, x pattern, c at level 100, k at level 200) : rust_scope.
(** Early return: [if b { return Err(e) }]. *)
Notation "'reject' b 'with' e ';;' k" :=
  (if b then Err e else k)
  (at level 10, b at level 99, e at level 99, k at level 200) : rust_scope.
Notation "'reject!' b 'with' e ';;' k" :=
  (if b then Some (Err e) else k)
  (at level 10, b at level 99, e at level 99, k at level 200) : rust_scope.
Open Scope rust_scope.

#[export] Instance result_eq_dec {A E} `{EqDecision A, EqDecision E} :
  EqDecision (result A E).
Proof. solve_decision. Defined.

(** Case analysis on every [match] and [if] a run went through. *)
Ltac run_cases H :=
  repeat match type of H with
  | context [match ?x with _ => _ end] =>
      lazymatch x with
      | context [match _ with _ => _ end] => fail
      | _ => let E := fresh "E" in destruct x eqn:E; simplify_eq H
      end
  end.

(** Peels the successful binds and passed guards off a run that ended well,
    leaving one equation per step in program order. *)
Ltac ok_step H :=
  lazymatch type of H with
  | match ?c with _ => _ end = _ =>
      first [ is_var c; destruct c; try discriminate H; [idtac]
            | let E := fresh "Hs" in destruct c eqn:E; try discriminate H; [idtac] ]
  end.
Ltac ok_steps H := repeat (cbv zeta in H; ok_step H).

(** The results of unit-valued checks. *)
Ltac units := repeat match goal with x : unit |- _ => destruct x end.

(** Turns boolean comparisons among the hypotheses into propositions. *)
Ltac breflect :=
  repeat match goal with
  | H : (_ && _)%bool = true |- _ => apply andb_true_iff in H; destruct H
  | H : (_ || _)%bool = false |- _ => apply orb_false_iff in H; destruct H
  | H : negb _ = true |- _ => apply negb_true_iff in H
  | H : negb _ = false |- _ => apply negb_false_iff in H
  | H : (_ <=? _) = true |- _ => apply Z.leb_le in H
  | H : (_ <=? _) = false |- _ => apply Z.leb_gt in H
  | H : (_ <? _) = true |- _ => apply Z.ltb_lt in H
  | H : (_ <? _) = false |- _ => apply Z.ltb_ge in H
  | H : (_ =? _) = true |- _ => apply Z.eqb_eq in H
  | H : (_ =? _) = false |- _ => apply Z.eqb_neq in H
  end.

(** ** Loops

    A Rust [loop { ... }] is a step function on the loop's mutable state: one
    iteration either continues, returns or fails.  [run_loop] iterates it with
    fuel; the lemmas below are the invariant rule, the termination rule and
    the correspondence with the reflexive transitive closure of the step. *)

Inductive control (S R : Type) : Type :=
  | Continue (s : S)
  | Return (r : R).
Arguments Continue {S R} _.
Arguments Return {S R} _.

Lemma rtc_preserves {A} (R : A -> A -> Prop) (I : A -> Prop) :
  (forall x y, I x -> R x y -> I y) -> forall x y, I x -> rtc R x y -> I y.
Proof. intros Hstep x y Hx Hr. induction Hr; eauto. Qed.

Section Loop.
Context {St R E : Type} (body : St -> exec (control St R) E).

Fixpoint run_loop (fuel : nat) (s : St) : exec R E :=
  match fuel with
  | O => None
  | S n =>
      match body s with
      | Some (Ok (Continue s')) => run_loop n s'
      | Some (Ok (Return r)) => Some (Ok r)
      | Some (Err e) => Some (Err e)
      | None => None
      end
  end.

(** One completed iteration that continues. *)
Definition loop_step (s s' : St) : Prop := body s = Some (Ok (Continue s')).

Lemma run_loop_unfold n s :
  run_loop (S n) s =
  match body s with
  | Some (Ok (Continue s')) => run_loop n s'
  | Some (Ok (Return r)) => Some (Ok r)
  | Some (Err e) => Some (Err e)
  | None => None
  end.
Proof. done. Qed.

Lemma run_loop_mono n m s r :
  run_loop n s = Some r -> (n <= m)%nat -> run_loop m s = Some r.
Proof.
  revert m s. induction n as [|n IH]; intros [|m] s H Hle; try done; [lia|].
  simpl in *. destruct (body s) as [[[]|]|]; simplify_eq; try done.
  apply IH; [done|lia].
Qed.

(** A finished run is a chain of steps followed by a final iteration. *)
Lemma run_loop_steps n s r :
  run_loop n s = Some r ->
  exists s', rtc loop_step s s' /\
    match r with
    | Ok v => body s' = Some (Ok (Return v))
    | Err e => body s' = Some (Err e)
    end.
Proof.
  revert s. induction n as [|n IH]; intros s H; simpl in H; [done|].
  destruct (body s) as [[[s1|v]|e]|] eqn:Hb; simplify_eq.
  - destruct (IH _ H) as (s' & Hs & Hl). exists s'. split; [|done].
    by eapply rtc_l.
  - exists s. split; [apply rtc_refl|done].
  - exists s. split; [apply rtc_refl|done].
Qed.

(** Conversely a chain of steps ending in a final iteration is a run. *)
Lemma run_loop_rtc s s' r :
  rtc loop_step s s' ->
  match r with
  | Ok v => body s' = Some (Ok (Return v))
  | Err e => body s' = Some (Err e)
  end ->
  exists n, run_loop n s = Some r.
Proof.
  intros Hs Hr. induction Hs as [s|s1 s2 s3 H12 _ IH].
  - exists 1%nat. simpl. destruct r; by rewrite Hr.
  - destruct (IH Hr) as [n Hn]. exists (S n). simpl. unfold loop_step in H12. by rewrite H12.
Qed.

(** Two runs of one loop that both finish agree. *)
Lemma run_loop_det n m s r1 r2 :
  run_loop n s = Some r1 -> run_loop m s = Some r2 -> r1 = r2.
Proof.
  intros H1 H2. apply (run_loop_mono _ (n `max` m)) in H1; [|lia].
  apply (run_loop_mono _ (n `max` m)) in H2; [|lia]. congruence.
Qed.

Lemma run_loop_invariant (I : St -> Prop) (Q : R -> Prop) :
  (forall s s', I s -> body s = Some (Ok (Continue s')) -> I s') ->
  (forall s r, I s -> body s = Some (Ok (Return r)) -> Q r) ->
  forall n s r, I s -> run_loop n s = Some (Ok r) -> Q r.
Proof.
  intros Hstep Hret n. induction n as [|n IH]; intros s r Hi H; simpl in H; [done|].
  destruct (body s) as [[[s1|v]|e]|] eqn:Hb; simplify_eq; eauto.
Qed.

Lemma run_loop_total (I : St -> Prop) (measure : St -> nat) :
  (forall s, I s -> body s <> None) ->
  (forall s s', I s -> body s = Some (Ok (Continue s')) ->
     I s' /\ (measure s' < measure s)%nat) ->
  forall n s, I s -> (measure s < n)%nat -> exists r, run_loop n s = Some r.
Proof.
  intros Htot Hdec n. induction n as [|n IH]; intros s Hi Hm; [lia|]. simpl.
  destruct (body s) as [[[s1|v]|e]|] eqn:Hb; eauto.
  - destruct (Hdec _ _ Hi Hb). apply IH; [done|lia].
  - by destruct (Htot s Hi).
Qed.
End Loop.

Arguments run_loop {St R E} body fuel s : simpl never.

(** A total loop returns what any chain of its steps leads to. *)
Lemma run_loop_reaches {St R E} (body : St -> exec (control St R) E) n s s' r :
  (exists r', run_loop body n s = Some r') ->
  rtc (loop_step body) s s' ->
  match r with
  | Ok v => body s' = Some (Ok (Return v))
  | Err e => body s' = Some (Err e)
  end ->
  run_loop body n s = Some r.
Proof.
  intros [r' Hr'] Hs Hr. destruct (run_loop_rtc body _ _ _ Hs Hr) as [m Hm].
  rewrite Hr'. f_equal. by eapply run_loop_det.
Qed.

(** A loop whose every iteration lowers a measure reaches its end with as much
    fuel as the measure says. *)
Lemma run_loop_measured {St R E} (body : St -> exec (control St R) E) (measure : St -> nat) s s' r :
  (forall s1 s2, loop_step body s1 s2 -> (measure s2 < measure s1)%nat) ->
  rtc (loop_step body) s s' ->
  match r with
  | Ok v => body s' = Some (Ok (Return v))
  | Err e => body s' = Some (Err e)
  end ->
  forall n, (measure s < n)%nat -> run_loop body n s = Some r.
Proof.
  intros Hm Hrun Hend. induction Hrun as [s|s1 s2 s3 Hstep _ IH]; intros n Hn; destruct n as [|n]; try lia;
    rewrite run_loop_unfold.
  - destruct r; by rewrite Hend.
  - unfold loop_step in Hstep. rewrite Hstep. apply IH; [done|]. apply Hm in Hstep. lia.
Qed.

(** ** Bytes, slices and text *)

(** A [u8] is a [byte]; [u8] is its numeric value. *)
Definition u8 (b : byte) : Z := Z.of_N (Byte.to_N b).
Definition of_u8 (z : Z) : byte :=
  match Byte.of_N (Z.to_N (z mod 256)) with Some b => b | None => x00 end.

#[export] Instance byte_eq_dec : EqDecision byte := Byte.byte_eq_dec.

(** A Rust [str]: the bytes of its UTF-8 encoding. *)
Definition str : Type := list byte.
(** A literal such as [b"path"]. *)
Definition lit (s : string) : list byte := list_byte_of_string s.

Lemma u8_range b : 0 <= u8 b <= 255.
Proof. unfold u8. pose proof (Byte.to_N_bounded b). lia. Qed.

Lemma u8_inj b1 b2 : u8 b1 = u8 b2 -> b1 = b2.
Proof.
  unfold u8. intros H. apply N2Z.inj in H.
  pose proof (Byte.of_to_N b1). pose proof (Byte.of_to_N b2). congruence.
Qed.

Lemma u8_of_u8 z : 0 <= z <= 255 -> u8 (of_u8 z) = z.
Proof.
  intros Hz. unfold u8, of_u8. rewrite Z.mod_small by lia.
  destruct (Byte.of_N (Z.to_N z)) eqn:E.
  - apply Byte.to_of_N in E. rewrite E. lia.
  - apply Byte.of_N_None_iff in E. lia.
Qed.

Lemma of_u8_u8 b : of_u8 (u8 b) = b.
Proof. apply u8_inj, u8_of_u8, u8_range. Qed.

Lemma u8_of_u8_mod z : u8 (of_u8 z) = z mod 256.
Proof.
  rewrite <- (u8_of_u8 (z mod 256)) by (pose proof (Z.mod_pos_bound z 256); lia).
  unfold of_u8. by rewrite Z.mod_mod.
Qed.

Definition is_zero_byte (b : byte) : bool := u8 b =? 0.
(** [bytes.iter().all(|byte| *byte == 0)]. *)
Definition all_zero (l : list byte) : bool := forallb is_zero_byte l.

Lemma is_zero_byte_true b : is_zero_byte b = true <-> b = x00.
Proof.
  unfold is_zero_byte. rewrite Z.eqb_eq. split; [|by intros ->].
  intros H. by apply u8_inj.
Qed.

Lemma all_zero_replicate l : all_zero l = true <-> l = replicate (length l) x00.
Proof.
  induction l as [|b l IH]; simpl; [done|].
  rewrite andb_true_iff, is_zero_byte_true, IH. split.
  - intros [-> H]. congruence.
  - intros H. by injection H.
Qed.

Lemma all_zero_app l1 l2 : all_zero (l1 ++ l2) = all_zero l1 && all_zero l2.
Proof. apply forallb_app. Qed.

Lemma existsb_zero l : existsb is_zero_byte l = false <-> x00 ∉ l.
Proof.
  rewrite <- not_true_iff_false, existsb_exists. split.
  - intros Hn Hin. apply Hn. exists x00. split; [by apply list_elem_of_In|done].
  - intros Hn (b & Hb & ->%is_zero_byte_true). by apply Hn, list_elem_of_In.
Qed.

(** [&l[lo..hi]], used where the source's bounds are in range. *)
Definition slice {A} (lo hi : nat) (l : list A) : list A := take (hi - lo) (drop lo l).
(** [header[i]]. *)
Definition at_ (l : list byte) (i : nat) : byte := nth i l x00.

Lemma length_slice {A} lo hi (l : list A) :
  (lo <= hi <= length l)%nat -> length (slice lo hi l) = (hi - lo)%nat.
Proof. intros H. unfold slice. rewrite length_take, length_drop. lia. Qed.

Lemma slice_join {A} lo mid hi (l : list A) :
  (lo <= mid <= hi)%nat -> slice lo hi l = slice lo mid l ++ slice mid hi l.
Proof.
  intros Hm. unfold slice. replace (hi - lo)%nat with ((mid - lo) + (hi - mid))%nat by lia.
  rewrite <- take_take_drop, drop_drop. do 3 f_equal. lia.
Qed.

Lemma slice_app_r {A} lo hi (l1 l2 : list A) :
  (length l1 <= lo)%nat ->
  slice lo hi (l1 ++ l2) = slice (lo - length l1) (hi - length l1) l2.
Proof.
  intros Hl. unfold slice. rewrite drop_app, (drop_ge l1) by lia. simpl. f_equal. lia.
Qed.

Lemma slice_app_l {A} lo hi (l1 l2 : list A) :
  (hi <= length l1)%nat -> slice lo hi (l1 ++ l2) = slice lo hi l1.
Proof.
  intros Hl. unfold slice. destruct (decide (lo <= hi)%nat).
  - rewrite drop_app, take_app, length_drop.
    replace (hi - lo - (length l1 - lo))%nat with 0%nat by lia. simpl. by rewrite app_nil_r.
  - by replace (hi - lo)%nat with 0%nat by lia.
Qed.

Lemma slice_one (l : list byte) i : (i < length l)%nat -> slice i (S i) l = [at_ l i].
Proof.
  intros Hi. unfold slice, at_. replace (S i - i)%nat with 1%nat by lia.
  destruct (lookup_lt_is_Some_2 l i Hi) as [b Hb].
  rewrite (drop_S l b i Hb), (nth_lookup_Some l i x00 b Hb). done.
Qed.

(** The [n] bytes at offset [off] of a source, both [u64]. *)
Definition range {A} (off n : Z) (l : list A) : list A :=
  take (Z.to_nat n) (drop (Z.to_nat off) l).

Lemma length_range {A} off n (l : list A) :
  0 <= off -> 0 <= n -> off + n <= Z.of_nat (length l) ->
  length (range off n l) = Z.to_nat n.
Proof. intros. unfold range. rewrite length_take, length_drop. lia. Qed.

Lemma range_app {A} off n m (l : list A) :
  0 <= off -> 0 <= n -> 0 <= m ->
  range off (n + m) l = range off n l ++ range (off + n) m l.
Proof.
  intros. unfold range. rewrite Z2Nat.inj_add, Z2Nat.inj_add by lia.
  rewrite <- drop_drop. generalize (drop (Z.to_nat off) l). intros k.
  revert k. induction (Z.to_nat n) as [|p IH]; intros k; simpl; [done|].
  destruct k; simpl; [by rewrite take_nil|]. f_equal. apply IH.
Qed.

Lemma range_zero {A} off (l : list A) : range off 0 l = [].
Proof. done. Qed.

(** A range that ends before a truncation point survives the truncation. *)
Lemma range_take {A} off n k (l : list A) :
  0 <= off -> 0 <= n -> off + n <= Z.of_nat k ->
  range off n (take k l) = range off n l.
Proof.
  intros. unfold range. rewrite <- (firstn_skipn k l) at 2.
  rewrite drop_app, take_app, length_drop, length_take.
  destruct (decide (length l <= k)%nat).
  - rewrite (skipn_all2 l) by lia. rewrite drop_nil, take_nil, app_nil_r. done.
  - replace (Z.to_nat n - _)%nat with 0%nat by lia. by rewrite app_nil_r.
Qed.

(** ** Little-endian integers: [to_le_bytes] and [from_le_bytes] *)

Fixpoint le_bytes (n : nat) (z : Z) : list byte :=
  match n with
  | O => []
  | S n => of_u8 (z mod 256) :: le_bytes n (z / 256)
  end.

Fixpoint le_value (l : list byte) : Z :=
  match l with
  | [] => 0
  | b :: l => u8 b + 256 * le_value l
  end.

Lemma length_le_bytes n z : length (le_bytes n z) = n.
Proof. revert z. induction n; intros; simpl; f_equal; auto. Qed.

Lemma le_value_range l : 0 <= le_value l < 256 ^ Z.of_nat (length l).
Proof.
  induction l as [|b l IH]; simpl length; [cbn; lia|].
  rewrite Nat2Z.inj_succ, Z.pow_succ_r by lia. simpl.
  pose proof (u8_range b). nia.
Qed.

Lemma le_value_le_bytes n z : 0 <= z < 256 ^ Z.of_nat n -> le_value (le_bytes n z) = z.
Proof.
  revert z. induction n as [|n IH]; intros z Hz; [cbn in *; lia|].
  rewrite Nat2Z.inj_succ, Z.pow_succ_r in Hz by lia. simpl.
  pose proof (Z.mod_pos_bound z 256 ltac:(lia)).
  rewrite u8_of_u8 by lia. rewrite IH.
  - pose proof (Z.div_mod z 256). lia.
  - split; [apply Z.div_pos; lia|]. apply Z.div_lt_upper_bound; lia.
Qed.

Lemma le_bytes_le_value l : le_bytes (length l) (le_value l) = l.
Proof.
  induction l as [|b l IH]; simpl; [done|]. pose proof (u8_range b).
  replace (u8 b + 256 * le_value l) with (u8 b + le_value l * 256) by lia.
  rewrite Z.mod_add, Z.div_add by lia.
  rewrite Z.mod_small, Z.div_small by lia. rewrite of_u8_u8, Z.add_0_l. by f_equal.
Qed.

(** ** Text formatting: [{}], [{:o}], [{:02x}] *)

Definition digit_char (d : Z) : ascii :=
  ascii_of_N (Z.to_N (if d <? 10 then 48 + d else 87 + d)).

Fixpoint fmt_digits (fuel : nat) (base z : Z) (acc : string) : string :=
  match fuel with
  | O => acc
  | S n =>
      let acc := String (digit_char (z mod base)) acc in
      if z / base =? 0 then acc else fmt_digits n base (z / base) acc
  end.

(** The digit count is bounded by the binary logarithm, so the fuel suffices. *)
Definition fmt_radix (base z : Z) : string :=
  fmt_digits (S (Z.to_nat (Z.log2 z))) base z EmptyString.
Definition fmt_dec (z : Z) : string := fmt_radix 10 z.
Definition fmt_oct (z : Z) : string := fmt_radix 8 z.
Definition fmt_hex2 (z : Z) : string :=
  String (digit_char (z / 16)) (String (digit_char (z mod 16)) EmptyString).

Example fmt_dec_ex : fmt_dec 18446744073709551615 = "18446744073709551615"%string.
Proof. reflexivity. Qed.
Example fmt_oct_ex : (fmt_oct 0, fmt_oct 4095, fmt_hex2 200) = ("0", "7777", "c8")%string.
Proof. reflexivity. Qed.

Infix "+++" := String.append (at level 60, right associativity) : rust_scope.

(** ** Environment interfaces

    What the code obtains from outside the repository or from the machine:
    the SHA-256 function of the [sha2] crate, and whether a fallible
    reservation ([try_reserve], [try_reserve_exact]) of so many elements
    succeeds at a named site.  Every definition that uses one takes it as an
    implicit argument, and no theorem assumes a particular choice. *)

Class Sha256 : Type := sha256 : list byte -> list byte.
Class Allocator : Type := try_reserve : string -> Z -> bool.
(** The allocator of the witnesses. *)
Definition always_reserves : Allocator := fun _ _ => true.

(** A SHA-256 digest is 32 bytes long. *)
Class Sha256Laws `{!Sha256} : Prop :=
  sha256_length : forall bytes, length (sha256 bytes) = 32%nat.

(** A constant digest, for evaluating concrete runs. *)
Definition null_sha256 : Sha256 := fun _ => replicate 32 x00.

(** [hex_sha256] of [policy.rs]: lowercase hexadecimal of the digest. *)
Definition hex_byte (b : byte) : list byte := lit (fmt_hex2 (u8 b)).
Definition hex_sha256 `{!Sha256} (bytes : list byte) : str :=
  concat (map hex_byte (sha256 bytes)).

Lemma length_hex_byte b : length (hex_byte b) = 2%nat.
Proof. reflexivity. Qed.

Lemma length_hex_sha256 `{!Sha256, !Sha256Laws} bytes :
  length (hex_sha256 bytes) = 64%nat.
Proof.
  unfold hex_sha256.
  enough (forall l, length (concat (map hex_byte l)) = (2 * length l)%nat) as ->
    by (by rewrite sha256_length).
  induction l as [|b l IH]; [done|]. cbn [map concat]. rewrite length_app, IH, length_hex_byte.
  simpl. lia.
Qed.

(** ** Printed numbers

    The digits [fmt_radix] prints, for the bases up to ten: they are in range,
    their value is the number, there are no more than needed and the first is
    not a zero unless it is alone. *)

(** The byte of a digit, and the value of a digit list. *)
Definition digit_byte (d : Z) : byte := of_u8 (48 + d).
Definition digits_value (base : Z) (v : Z) (ds : list Z) : Z :=
  foldl (fun v d => v * base + d) v ds.

Lemma lit_digit d s : 0 <= d < 10 -> lit (String (digit_char d) s) = digit_byte d :: lit s.
Proof.
  intros Hd. unfold lit. cbn [list_byte_of_string]. unfold list_byte_of_string.
  cbn [list_ascii_of_string map]. f_equal.
  assert (d ∈ [0;1;2;3;4;5;6;7;8;9]) as Hin.
  { rewrite !elem_of_cons. lia. }
  repeat (apply elem_of_cons in Hin as [->|Hin]; [reflexivity|]).
  by apply elem_of_nil in Hin.
Qed.

Lemma digits_value_app base v ds es :
  digits_value base v (ds ++ es) = digits_value base (digits_value base v ds) es.
Proof. apply foldl_app. Qed.

Lemma digits_value_bound base v ds :
  0 < base -> Forall (fun d => 0 <= d < base) ds ->
  v * base ^ Z.of_nat (length ds) <= digits_value base v ds
    < (v + 1) * base ^ Z.of_nat (length ds).
Proof.
  intros Hb Hds. revert v. induction Hds as [|d ds Hd _ IH]; intros v.
  - simpl. lia.
  - cbn [digits_value foldl]. specialize (IH (v * base + d)). unfold digits_value in IH.
    cbn [length]. rewrite Nat2Z.inj_succ, Z.pow_succ_r by lia.
    assert (0 < base ^ Z.of_nat (length ds)) by (apply Z.pow_pos_nonneg; lia). nia.
Qed.

Lemma fmt_digits_spec base fuel z acc :
  2 <= base <= 10 -> 0 <= z < base ^ Z.of_nat fuel -> (0 < fuel)%nat ->
  exists ds, lit (fmt_digits fuel base z acc) = map digit_byte ds ++ lit acc
    /\ ds <> [] /\ Forall (fun d => 0 <= d < base) ds /\ digits_value base 0 ds = z
    /\ (head ds = Some 0 -> ds = [0])
    /\ (forall k, (0 < k)%nat -> z < base ^ Z.of_nat k -> (length ds <= k)%nat).
Proof.
  intros Hb. revert z acc. induction fuel as [|n IH]; intros z acc Hz Hf; [lia|].
  pose proof (Z.mod_pos_bound z base ltac:(lia)) as Hm.
  rewrite Nat2Z.inj_succ, Z.pow_succ_r in Hz by lia. cbn [fmt_digits].
  destruct (Z.eqb_spec (z / base) 0) as [Hq|Hq].
  - exists [z mod base]. rewrite lit_digit by lia. split_and!.
    + done.
    + done.
    + constructor; [done|constructor].
    + unfold digits_value. simpl. pose proof (Z.div_mod z base). lia.
    + simpl. congruence.
    + simpl. lia.
  - assert (0 < z / base) as Hqp by (pose proof (Z.div_pos z base); lia).
    assert (z / base < base ^ Z.of_nat n) by (apply Z.div_lt_upper_bound; lia).
    assert ((0 < n)%nat) by (destruct n; [cbn in *; lia|lia]).
    destruct (IH (z / base) (String (digit_char (z mod base)) acc)) as (ds & He & Hn & Hds & Hv & Hh & Hk);
      [lia|done|].
    exists (ds ++ [z mod base]). rewrite He, lit_digit by lia. split_and!.
    + by rewrite map_app, <- app_assoc.
    + by destruct ds.
    + apply Forall_app. split; [done|]. constructor; [done|constructor].
    + rewrite digits_value_app, Hv. unfold digits_value. simpl.
      pose proof (Z.div_mod z base). lia.
    + destruct ds as [|d ds]; [done|]. simpl. intros [= ->].
      rewrite (Hh eq_refl) in Hv. unfold digits_value in Hv. simpl in Hv. lia.
    + intros k Hk0 Hzk. rewrite length_app. simpl. destruct k as [|k]; [lia|].
      rewrite Nat2Z.inj_succ, Z.pow_succ_r in Hzk by lia.
      assert (z / base < base ^ Z.of_nat k) by (apply Z.div_lt_upper_bound; lia).
      assert ((0 < k)%nat) by (destruct k; [cbn in *; lia|lia]).
      pose proof (Hk k). lia.
Qed.

Lemma fmt_radix_spec base z :
  2 <= base <= 10 -> 0 <= z ->
  exists ds, lit (fmt_radix base z) = map digit_byte ds
    /\ ds <> [] /\ Forall (fun d => 0 <= d < base) ds /\ digits_value base 0 ds = z
    /\ (head ds = Some 0 -> ds = [0])
    /\ (forall k, (0 < k)%nat -> z < base ^ Z.of_nat k -> (length ds <= k)%nat).
Proof.
  intros Hb Hz. unfold fmt_radix.
  destruct (fmt_digits_spec base (S (Z.to_nat (Z.log2 z))) z EmptyString)
    as (ds & He & Hr); [done| |lia|].
  - split; [done|]. rewrite Nat2Z.inj_succ, Z2Nat.id by apply Z.log2_nonneg.
    destruct (Z.eq_dec z 0) as [->|]; [apply Z.pow_pos_nonneg; [lia|]; simpl; lia|].
    pose proof (Z.log2_spec z ltac:(lia)).
    pose proof (Z.pow_le_mono_l 2 base (Z.succ (Z.log2 z)) ltac:(lia)). lia.
  - exists ds. rewrite He. unfold lit at 1. simpl. by rewrite app_nil_r.
Qed.

Lemma u8_digit_byte d : 0 <= d < 10 -> u8 (digit_byte d) = 48 + d.
Proof. intros. unfold digit_byte. apply u8_of_u8. lia. Qed.

Lemma digits_value_snoc base v ds d :
  digits_value base v (ds ++ [d]) = digits_value base v ds * base + d.
Proof. by rewrite digits_value_app. Qed.

(** Digit lists of one length with one value are equal. *)
Lemma digits_value_inj base ds es :
  0 < base -> length ds = length es ->
  Forall (fun d => 0 <= d < base) ds -> Forall (fun d => 0 <= d < base) es ->
  digits_value base 0 ds = digits_value base 0 es -> ds = es.
Proof.
  intros Hb. revert es. induction ds as [|d ds IH] using rev_ind; intros es Hl Hds Hes Hv.
  - by destruct es.
  - destruct es as [|e0 es0] using rev_ind; [rewrite length_app in Hl; simpl in Hl; lia|].
    clear IHes0. rewrite !length_app in Hl. simpl in Hl.
    apply Forall_app in Hds as [Hds Hd], Hes as [Hes He].
    apply Forall_cons in Hd as [Hd _], He as [He _]. rewrite !digits_value_snoc in Hv.
    assert (digits_value base 0 ds = digits_value base 0 es0 /\ d = e0) as [Hv1 ->].
    { destruct (Z.lt_trichotomy (digits_value base 0 ds) (digits_value base 0 es0))
        as [?|[?|?]]; nia. }
    by rewrite (IH es0) by (done || lia).
Qed.

(** Canonical digits are the printed ones: [fmt_radix] is the only spelling
    without a leading zero. *)
Lemma fmt_radix_unique base ds :
  2 <= base <= 10 -> ds <> [] -> Forall (fun d => 0 <= d < base) ds ->
  (head ds = Some 0 -> ds = [0]) ->
  lit (fmt_radix base (digits_value base 0 ds)) = map digit_byte ds.
Proof.
  intros Hb Hne Hds Hhead.
  assert (Hbound : forall l, l <> [] -> Forall (fun d => 0 <= d < base) l ->
    (head l = Some 0 -> l = [0]) ->
    l = [0] \/ base ^ (Z.of_nat (length l) - 1) <= digits_value base 0 l < base ^ Z.of_nat (length l)).
  { intros l Hl Hf Hh. destruct l as [|d l]; [done|]. apply Forall_cons in Hf as [Hd Hf].
    destruct (Z.eq_dec d 0) as [->|Hd0]; [left; by apply Hh|right].
    pose proof (digits_value_bound base d l ltac:(lia) Hf) as Hv. cbn [length].
    replace (Z.of_nat (Datatypes.S (length l)) - 1) with (Z.of_nat (length l)) by lia.
    rewrite Nat2Z.inj_succ, Z.pow_succ_r by lia.
    assert (digits_value base 0 (d :: l) = digits_value base d l) as -> by done.
    assert (0 < base ^ Z.of_nat (length l)) by (apply Z.pow_pos_nonneg; lia). nia. }
  assert (Hpos : 0 <= digits_value base 0 ds)
    by (pose proof (digits_value_bound base 0 ds ltac:(lia) Hds); lia).
  destruct (fmt_radix_spec base (digits_value base 0 ds) Hb Hpos)
    as (es & -> & Hen & Hes & Hv & Heh & _). f_equal.
  destruct (Hbound ds Hne Hds Hhead) as [->|Hd], (Hbound es Hen Hes Heh) as [->|He]; try done.
  - exfalso. rewrite Hv in He. unfold digits_value in He. simpl in He.
    pose proof (Z.pow_pos_nonneg base (Z.of_nat (length es) - 1) ltac:(lia)).
    destruct es; [done|simpl length in *; lia].
  - exfalso. rewrite <- Hv in Hd. unfold digits_value in Hd at 1. simpl in Hd.
    pose proof (Z.pow_pos_nonneg base (Z.of_nat (length ds) - 1) ltac:(lia)).
    destruct ds; [done|simpl length in *; lia].
  - apply (digits_value_inj base); try done; try lia. rewrite Hv in He.
    destruct (Nat.lt_trichotomy (length es) (length ds)) as [Hlt|[?|Hlt]]; [exfalso|done|exfalso].
    + pose proof (Z.pow_le_mono_r base (Z.of_nat (length es)) (Z.of_nat (length ds) - 1)). lia.
    + pose proof (Z.pow_le_mono_r base (Z.of_nat (length ds)) (Z.of_nat (length es) - 1)). lia.
Qed.
