(* ===== verification/Utf8.v ===== *)
(** * UTF-8 text

    Rust's [str] carries the bytes of valid UTF-8.  This file defines the
    strict decoder behind [std::str::from_utf8] and [str::chars], the encoder
    behind [char::encode_utf8], the character classes the source asks for, and
    proves that decoding and encoding are inverse to each other. *)

From S2P Require Import Prelude.
Local Open Scope Z_scope.

(** A Unicode scalar value: a code point that is not a surrogate. *)
Definition is_scalar (c : Z) : bool :=
  ((0 <=? c) && (c <=? 55295)) || ((57344 <=? c) && (c <=? 1114111)).

Definition between (lo hi z : Z) : bool := (lo <=? z) && (z <=? hi).

(** A continuation byte [0b10xxxxxx]. *)
Definition is_cont (b : byte) : bool := between 128 191 (u8 b).

(** The code point of a 2-, 3- or 4-byte sequence. *)
Definition cp2 (a b : byte) : Z := (u8 a - 192) * 64 + (u8 b - 128).
Definition cp3 (a b c : byte) : Z :=
  (u8 a - 224) * 4096 + (u8 b - 128) * 64 + (u8 c - 128).
Definition cp4 (a b c d : byte) : Z :=
  (u8 a - 240) * 262144 + (u8 b - 128) * 4096 + (u8 c - 128) * 64 + (u8 d - 128).

(** [std::str::from_utf8] followed by [str::chars]: the scalar values of
    strict UTF-8, [None] for overlong forms, surrogates, code points above
    U+10FFFF and stray or missing continuation bytes. *)
Fixpoint chars (s : str) : option (list Z) :=
  match s with
  | [] => Some []
  | a :: s1 =>
      if u8 a <? 128 then option_map (cons (u8 a)) (chars s1)
      else if between 194 223 (u8 a) then
        match s1 with
        | b :: s2 =>
            if is_cont b then option_map (cons (cp2 a b)) (chars s2) else None
        | _ => None
        end
      else if between 224 239 (u8 a) then
        match s1 with
        | b :: c :: s3 =>
            if is_cont b && is_cont c && (2048 <=? cp3 a b c) && is_scalar (cp3 a b c)
            then option_map (cons (cp3 a b c)) (chars s3) else None
        | _ => None
        end
      else if between 240 244 (u8 a) then
        match s1 with
        | b :: c :: d :: s4 =>
            if is_cont b && is_cont c && is_cont d
               && (65536 <=? cp4 a b c d) && is_scalar (cp4 a b c d)
            then option_map (cons (cp4 a b c d)) (chars s4) else None
        | _ => None
        end
      else None
  end.

(** [std::str::from_utf8]. *)
Definition from_utf8 (bytes : list byte) : option str :=
  match chars bytes with Some _ => Some bytes | None => None end.

(** The second byte of a 3- or 4-byte sequence, as the lead byte restricts it. *)
Definition second3 (a b : byte) : bool :=
  if u8 a =? 224 then between 160 191 (u8 b)
  else if u8 a =? 237 then between 128 159 (u8 b) else is_cont b.
Definition second4 (a b : byte) : bool :=
  if u8 a =? 240 then between 144 191 (u8 b)
  else if u8 a =? 244 then between 128 143 (u8 b) else is_cont b.
(** U+FFFD. *)
Definition replacement : str := [xef; xbf; xbd].

(** [String::from_utf8_lossy]: every maximal invalid prefix becomes one
    replacement character. *)
Fixpoint from_utf8_lossy (s : list byte) : str :=
  match s with
  | [] => []
  | a :: s1 =>
      if u8 a <? 128 then a :: from_utf8_lossy s1
      else if between 194 223 (u8 a) then
        match s1 with
        | b :: s2 =>
            if is_cont b then a :: b :: from_utf8_lossy s2 else replacement ++ from_utf8_lossy s1
        | [] => replacement
        end
      else if between 224 239 (u8 a) then
        match s1 with
        | b :: s2 =>
            if second3 a b then
              match s2 with
              | c :: s3 =>
                  if is_cont c then a :: b :: c :: from_utf8_lossy s3
                  else replacement ++ from_utf8_lossy s2
              | [] => replacement
              end
            else replacement ++ from_utf8_lossy s1
        | [] => replacement
        end
      else if between 240 244 (u8 a) then
        match s1 with
        | b :: s2 =>
            if second4 a b then
              match s2 with
              | c :: s3 =>
                  if is_cont c then
                    match s3 with
                    | d :: s4 =>
                        if is_cont d then a :: b :: c :: d :: from_utf8_lossy s4
                        else replacement ++ from_utf8_lossy s3
                    | [] => replacement
                    end
                  else replacement ++ from_utf8_lossy s2
              | [] => replacement
              end
            else replacement ++ from_utf8_lossy s1
        | [] => replacement
        end
      else replacement ++ from_utf8_lossy s1
  end.

(** [char::encode_utf8]. *)
Definition encode_char (c : Z) : list byte :=
  if c <? 128 then [of_u8 c]
  else if c <? 2048 then [of_u8 (192 + c / 64); of_u8 (128 + c mod 64)]
  else if c <? 65536 then
    [of_u8 (224 + c / 4096); of_u8 (128 + (c / 64) mod 64); of_u8 (128 + c mod 64)]
  else
    [of_u8 (240 + c / 262144); of_u8 (128 + (c / 4096) mod 64);
     of_u8 (128 + (c / 64) mod 64); of_u8 (128 + c mod 64)].

Definition encode_chars (cs : list Z) : str := concat (map encode_char cs).

(** [char::is_control]: the general category Cc. *)
Definition char_is_control (c : Z) : bool := between 0 31 c || between 127 159 c.

(** [u8::is_ascii_control], [u8::is_ascii_digit], [u8::is_ascii_lowercase], ... *)
Definition is_ascii_control (b : byte) : bool := (u8 b <? 32) || (u8 b =? 127).
Definition is_ascii_digit (b : byte) : bool := between 48 57 (u8 b).
Definition is_ascii_lowercase (b : byte) : bool := between 97 122 (u8 b).
Definition is_ascii_uppercase (b : byte) : bool := between 65 90 (u8 b).
Definition is_ascii_alphabetic (b : byte) : bool := is_ascii_lowercase b || is_ascii_uppercase b.
Definition is_ascii_graphic (b : byte) : bool := between 33 126 (u8 b).
Definition is_ascii (s : str) : bool := forallb (fun b => u8 b <? 128) s.

Definition to_ascii_lowercase (b : byte) : byte :=
  if is_ascii_uppercase b then of_u8 (u8 b + 32) else b.
(** [str::eq_ignore_ascii_case]. *)
Definition eq_ignore_ascii_case (s t : str) : bool :=
  bool_decide (map to_ascii_lowercase s = map to_ascii_lowercase t).

Lemma between_spec lo hi z : between lo hi z = true <-> lo <= z <= hi.
Proof. unfold between. lia. Qed.

Lemma is_scalar_spec c :
  is_scalar c = true <-> 0 <= c <= 55295 \/ 57344 <= c <= 1114111.
Proof. unfold is_scalar. lia. Qed.

Lemma is_cont_of_u8 z : 0 <= z < 64 -> is_cont (of_u8 (128 + z)) = true.
Proof. intros. unfold is_cont. rewrite u8_of_u8 by lia. apply between_spec. lia. Qed.

Ltac utf8_arith :=
  unfold is_cont, cp2, cp3, cp4, between, is_scalar in *;
  rewrite ?u8_of_u8 in * by (Z.div_mod_to_equations; lia);
  Z.div_mod_to_equations; lia.

(** One encoded character is read back from the front of any text. *)
Lemma chars_encode_char c s :
  is_scalar c = true ->
  chars (encode_char c ++ s) = option_map (cons c) (chars s).
Proof.
  intros Hc. apply is_scalar_spec in Hc. unfold encode_char.
  destruct (Z.ltb_spec c 128); [|destruct (Z.ltb_spec c 2048); [|destruct (Z.ltb_spec c 65536)]];
    cbn [app chars].
  - rewrite u8_of_u8 by lia. by rewrite (proj2 (Z.ltb_lt c 128)).
  - rewrite (proj2 (Z.ltb_ge _ _)) by utf8_arith.
    replace (between 194 223 _) with true by (symmetry; utf8_arith).
    rewrite is_cont_of_u8 by (Z.div_mod_to_equations; lia).
    do 2 f_equal. utf8_arith.
  - rewrite (proj2 (Z.ltb_ge _ _)) by utf8_arith.
    replace (between 194 223 _) with false by (symmetry; utf8_arith).
    replace (between 224 239 _) with true by (symmetry; utf8_arith).
    rewrite !is_cont_of_u8 by (Z.div_mod_to_equations; lia).
    replace (cp3 _ _ _) with c by utf8_arith.
    replace (2048 <=? c) with true by lia.
    replace (is_scalar c) with true by (symmetry; by apply is_scalar_spec).
    done.
  - rewrite (proj2 (Z.ltb_ge _ _)) by utf8_arith.
    replace (between 194 223 _) with false by (symmetry; utf8_arith).
    replace (between 224 239 _) with false by (symmetry; utf8_arith).
    replace (between 240 244 _) with true by (symmetry; utf8_arith).
    rewrite !is_cont_of_u8 by (Z.div_mod_to_equations; lia).
    replace (cp4 _ _ _ _) with c by utf8_arith.
    replace (65536 <=? c) with true by lia.
    replace (is_scalar c) with true by (symmetry; by apply is_scalar_spec).
    done.
Qed.

(** Encoding then decoding any list of scalar values gives it back. *)
Lemma chars_encode cs :
  forallb is_scalar cs = true -> chars (encode_chars cs) = Some cs.
Proof.
  induction cs as [|c cs IH]; intros H; [done|]. cbn [forallb] in H.
  apply andb_true_iff in H as [Hc Hcs]. unfold encode_chars. cbn [map concat].
  rewrite chars_encode_char by done. unfold encode_chars in IH. by rewrite IH.
Qed.

Lemma byte_eq_of_u8 b z : u8 b = z -> of_u8 z = b.
Proof. intros <-. apply of_u8_u8. Qed.

(** Decoding valid text and encoding the characters gives the text back. *)
Lemma encode_chars_of s cs :
  chars s = Some cs -> encode_chars cs = s /\ forallb is_scalar cs = true.
Proof.
  revert cs. induction s as [s IH] using (induction_ltof1 _ (@length byte)).
  unfold ltof in IH. intros cs H.
  destruct s as [|a s1]; cbn [chars] in H; [by simplify_eq|].
  pose proof (u8_range a) as Ha.
  repeat (case_match; try done);
    match goal with H : option_map _ (chars ?t) = _ |- _ =>
      destruct (chars t) as [cs'|] eqn:Hcs'; [|done]; simpl in H; simplify_eq;
      destruct (IH t ltac:(simpl; lia) _ Hcs') as [He Hf]
    end;
    unfold encode_chars in *; cbn [map concat forallb]; rewrite He, Hf, andb_true_r;
    repeat match goal with b : byte |- _ =>
      lazymatch goal with _ : 0 <= u8 b <= 255 |- _ => fail | _ => pose proof (u8_range b) end end;
    unfold is_cont, between in *; breflect;
    (split; [|unfold is_scalar, cp2 in *; lia]);
    unfold encode_char;
    repeat match goal with
    | |- context [?x <? ?y] => destruct (Z.ltb_spec x y); [try (unfold cp2, cp3, cp4 in *; lia)|try (unfold cp2, cp3, cp4 in *; lia)]
    end; cbn [app]; repeat f_equal; apply byte_eq_of_u8; unfold cp2, cp3, cp4 in *;
    Z.div_mod_to_equations; lia.
Qed.

Lemma from_utf8_Some bs s :
  from_utf8 bs = Some s -> s = bs /\ exists cs, chars bs = Some cs.
Proof. unfold from_utf8. intros H. case_match; simplify_eq. eauto. Qed.

(** ASCII text is valid, and its characters are its bytes. *)
Lemma chars_ascii s : is_ascii s = true -> chars s = Some (map u8 s).
Proof.
  induction s as [|b s IH]; intros H; [done|]. cbn in H.
  apply andb_true_iff in H as [Hb Hs]. cbn. by rewrite Hb, IH.
Qed.

Lemma from_utf8_ascii s : is_ascii s = true -> from_utf8 s = Some s.
Proof. intros H. unfold from_utf8. by rewrite chars_ascii. Qed.

(** ** [str] functions: searching and splitting at an ASCII byte *)

(** [str::contains], [starts_with] and [ends_with] with a [char] pattern. *)
Definition contains_byte (b : byte) (s : str) : bool := existsb (fun x => bool_decide (x = b)) s.
Definition starts_with_byte (b : byte) (s : str) : bool := bool_decide (head s = Some b).
Definition ends_with_byte (b : byte) (s : str) : bool := bool_decide (last s = Some b).

(** [str::split]: at least one piece. *)
Fixpoint split_on (b : byte) (s : str) : list str :=
  match s with
  | [] => [[]]
  | x :: s =>
      if bool_decide (x = b) then [] :: split_on b s
      else match split_on b s with
           | piece :: pieces => (x :: piece) :: pieces
           | [] => [[x]]
           end
  end.

(** [Ord for str]: the bytes compared lexicographically. *)
Fixpoint str_cmp (s t : str) : comparison :=
  match s, t with
  | [], [] => Eq
  | [], _ :: _ => Lt
  | _ :: _, [] => Gt
  | a :: s, b :: t =>
      match u8 a ?= u8 b with Eq => str_cmp s t | c => c end
  end.
Definition str_lt (s t : str) : Prop := str_cmp s t = Lt.

Lemma str_cmp_eq s t : str_cmp s t = Eq <-> s = t.
Proof.
  revert t. induction s as [|a s IH]; intros [|b t]; simpl; try done.
  destruct (Z.compare_spec (u8 a) (u8 b)) as [E|E|E].
  - apply u8_inj in E as ->. rewrite IH. split; congruence.
  - split; [done|]. intros [= -> ->]. lia.
  - split; [done|]. intros [= -> ->]. lia.
Qed.

Lemma str_cmp_antisym s t : str_cmp t s = CompOpp (str_cmp s t).
Proof.
  revert t. induction s as [|a s IH]; intros [|b t]; simpl; try done.
  rewrite Z.compare_antisym. destruct (u8 a ?= u8 b); simpl; auto.
Qed.

#[export] Instance str_lt_transitive : Transitive str_lt.
Proof.
  unfold str_lt. intros s t r. revert t r.
  induction s as [|a s IH]; intros [|b t] [|c r]; simpl; try done.
  destruct (Z.compare_spec (u8 a) (u8 b)), (Z.compare_spec (u8 b) (u8 c)),
    (Z.compare_spec (u8 a) (u8 c)); try done; try lia. apply IH.
Qed.

#[export] Instance str_lt_irreflexive : Irreflexive str_lt.
Proof. intros s. unfold complement, str_lt. by rewrite (proj2 (str_cmp_eq s s) eq_refl). Qed.

#[export] Instance str_lt_dec : RelDecision str_lt.
Proof. intros s t. unfold str_lt. apply _. Defined.

Lemma split_on_nonempty b s : split_on b s <> [].
Proof. destruct s as [|x s]; simpl; [done|]. repeat case_match; done. Qed.
