(* ===== verification/Paths.v ===== *)
(** * Slash-separated paths and the maps keyed by them

    The ancestors of a path, and the standard library's [BTreeMap] with string
    keys as a list sorted by key: lookup, insertion, and the first entry from a
    key on, which is how a descendant of a path is found. *)

From S2P Require Import Prelude Utf8.
From stdpp Require Import sorting.
Local Open Scope Z_scope.

(** ** Ancestors *)

(** [str::match_indices] of ["/"], as the ancestors it cuts out. *)
Fixpoint ancestors_from (prefix rest : str) : list str :=
  match rest with
  | [] => []
  | b :: rest =>
      (if bool_decide (b = "/"%byte) then [prefix] else []) ++ ancestors_from (prefix ++ [b]) rest
  end.
Definition ancestors (path : str) : list str := ancestors_from [] path.

Definition ancestor_of (a path : str) : Prop := exists tail, path = a ++ "/"%byte :: tail.

Lemma ancestors_from_spec pre s a :
  a ∈ ancestors_from pre s <-> exists t tail, s = t ++ "/"%byte :: tail /\ a = pre ++ t.
Proof.
  revert pre. induction s as [|b s IH]; intros pre; simpl.
  - split; [by intros ?%elem_of_nil|]. intros ([|] & tail & ? & _); done.
  - rewrite elem_of_app, IH. split.
    + intros [Ha|(t & tail & -> & ->)].
      * case_bool_decide as Hb; [|by apply elem_of_nil in Ha]. subst b.
        apply list_elem_of_singleton in Ha as ->. exists [], s. by rewrite app_nil_r.
      * exists (b :: t), tail. by rewrite <- app_assoc.
    + intros (t & tail & Ht & ->). destruct t as [|b' t]; simpl in Ht; simplify_eq.
      * left. rewrite bool_decide_eq_true_2 by done. rewrite app_nil_r. apply list_elem_of_singleton. done.
      * right. exists t, tail. by rewrite <- app_assoc.
Qed.

Lemma ancestors_spec path a : a ∈ ancestors path <-> ancestor_of a path.
Proof.
  unfold ancestors, ancestor_of. rewrite ancestors_from_spec. simpl.
  split; [intros (t & tail & -> & ->); eauto|intros [tail ->]; eauto].
Qed.

Lemma ancestor_of_irreflexive p : ~ ancestor_of p p.
Proof.
  intros [tail E]. apply (f_equal length) in E. rewrite length_app in E. simpl in E. lia.
Qed.

Lemma ancestor_of_prefix p q : ancestor_of p q <-> (p ++ ["/"%byte]) `prefix_of` q.
Proof.
  split; intros [tail ->]; exists tail; by rewrite <- app_assoc.
Qed.

(** ** [BTreeMap<String, V>] *)

Section BTreeMap.
Context {V : Type}.

Definition BTreeMap : Type := list (str * V).

Definition btree_get (m : BTreeMap) (k : str) : option V :=
  option_map snd (List.find (fun e => bool_decide (e.1 = k)) m).
Definition contains_key (m : BTreeMap) (k : str) : bool := bool_decide (is_Some (btree_get m k)).
Fixpoint btree_insert (k : str) (v : V) (m : BTreeMap) : BTreeMap :=
  match m with
  | [] => [(k, v)]
  | e :: m' =>
      match str_cmp k e.1 with
      | Lt => (k, v) :: m
      | Eq => (k, v) :: m'
      | Gt => e :: btree_insert k v m'
      end
  end.
(** [range(lower..).next()]. *)
Definition first_from (lower : str) (m : BTreeMap) : option (str * V) :=
  List.find (fun e => negb (bool_decide (str_lt e.1 lower))) m.

Definition btree_sorted (m : BTreeMap) : Prop := StronglySorted str_lt (map fst m).

Lemma btree_sorted_cons e m :
  btree_sorted (e :: m) <-> btree_sorted m /\ Forall (fun x => str_lt e.1 x.1) m.
Proof.
  unfold btree_sorted. simpl. rewrite <- Forall_fmap with (f := fst) (P := str_lt e.1).
  split; [by inversion 1|]. intros [? ?]. by constructor.
Qed.

Lemma btree_get_elem m k v : btree_sorted m -> btree_get m k = Some v <-> (k, v) ∈ m.
Proof.
  unfold btree_get. induction m as [|[k' v'] m IH]; intros Hs; simpl.
  - split; [done|by intros ?%elem_of_nil].
  - apply btree_sorted_cons in Hs as [Hs Hf]. rewrite elem_of_cons. simpl.
    case_bool_decide as Hk; simpl.
    + subst k'. split; [intros [= ->]; by left|]. intros [E|Hin]; [by injection E as ->|exfalso].
      rewrite Forall_forall in Hf. specialize (Hf _ Hin). by apply (irreflexivity str_lt k).
    + rewrite (IH Hs). split; [by right|]. intros [E|?]; [|done].
      destruct Hk. symmetry. exact (f_equal fst E).
Qed.

Lemma btree_get_None m k : btree_get m k = None <-> forall v, (k, v) ∉ m.
Proof.
  unfold btree_get. induction m as [|[k' v'] m IH]; simpl.
  - split; [intros _ v; apply not_elem_of_nil|done].
  - setoid_rewrite not_elem_of_cons. case_bool_decide as Hk; simpl.
    + split; [done|]. intros Hv. destruct (Hv v') as [[]]. by subst.
    + rewrite IH. split; [intros Hv v; split; [congruence|done]|intros Hv v; apply Hv].
Qed.

Lemma btree_insert_elem k v m x :
  btree_sorted m -> x ∈ btree_insert k v m <-> x = (k, v) \/ x ∈ m /\ x.1 <> k.
Proof.
  induction m as [|[k' v'] m IH]; intros Hs; simpl.
  - rewrite list_elem_of_singleton, elem_of_nil. split; [by left|]. by intros [?|[[] _]].
  - apply btree_sorted_cons in Hs as [Hs Hf]. rewrite Forall_forall in Hf. simpl in Hf.
    destruct (str_cmp k k') eqn:E; rewrite !elem_of_cons.
    + apply str_cmp_eq in E as ->. split; [intros [->|Hin]; [by left|]|].
      * right. split; [by right|]. intros Heq. specialize (Hf _ Hin). rewrite Heq in Hf.
        by apply (irreflexivity str_lt k').
      * intros [->|[[->|Hin] Hne]]; [by left|done|by right].
    + split; [|intros [->|[[->|Hin] _]]; [by left|by right; left|by right; right]].
      intros [->|[->|Hin]]; [by left| |]; right; simpl.
      * split; [by left|]. intros ->. by apply (irreflexivity str_lt k).
      * split; [by right|]. intros Heq. specialize (Hf _ Hin). rewrite Heq in Hf.
        apply (irreflexivity str_lt k). by etransitivity.
    + rewrite (IH Hs). split.
      * intros [->|[->|[Hin Hne]]]; [right; split; [by left|]|by left|right; split; [by right|done]].
        simpl. intros ->. by rewrite (proj2 (str_cmp_eq k k) eq_refl) in E.
      * intros [->|[[->|Hin] Hne]]; [by right; left|by left|by right; right].
Qed.

Lemma btree_insert_sorted k v m : btree_sorted m -> btree_sorted (btree_insert k v m).
Proof.
  induction m as [|[k' v'] m IH]; intros Hs; simpl; [repeat constructor|].
  pose proof Hs as Hs0. apply btree_sorted_cons in Hs as [Hs Hf].
  destruct (str_cmp k k') eqn:E.
  - apply str_cmp_eq in E as ->. by apply btree_sorted_cons.
  - apply btree_sorted_cons. split; [done|]. constructor; [done|]. simpl.
    eapply Forall_impl; [exact Hf|]. intros x Hx. simpl in *. by etransitivity.
  - apply btree_sorted_cons. split; [by apply IH|]. apply Forall_forall. intros x Hx. simpl.
    apply btree_insert_elem in Hx as [->|[Hx _]]; [|by rewrite Forall_forall in Hf; apply Hf|done].
    simpl. unfold str_lt. by rewrite str_cmp_antisym, E.
Qed.

Lemma btree_get_insert k v m k' :
  btree_sorted m -> btree_get (btree_insert k v m) k' = if bool_decide (k' = k) then Some v else btree_get m k'.
Proof.
  intros Hs. pose proof (btree_insert_sorted k v m Hs) as Hs'. case_bool_decide as Hk.
  - subst. apply btree_get_elem; [done|]. apply btree_insert_elem; [done|by left].
  - destruct (btree_get m k') as [w|] eqn:Hg.
    + apply btree_get_elem; [done|]. apply btree_insert_elem; [done|]. right.
      split; [by apply btree_get_elem|done].
    + apply btree_get_None. intros w Hw. apply btree_insert_elem in Hw as [[= -> _]|[Hw _]]; [done| |done].
      by apply (proj1 (btree_get_None m k') Hg w).
Qed.

(** *** The first entry from a prefix on *)

Lemma prefix_between (p c q : str) :
  ~ str_lt c p -> ~ str_lt q c -> p `prefix_of` q -> p `prefix_of` c.
Proof.
  revert c q. induction p as [|a p IH]; intros c q Hpc Hcq [tail ->]; [apply prefix_nil|].
  destruct c as [|b c]; [done|]. unfold str_lt in *. simpl in *.
  destruct (Z.compare_spec (u8 b) (u8 a)) as [E|E|E]; [|done|].
  - apply u8_inj in E as ->. rewrite Z.compare_refl in Hcq. apply prefix_cons.
    apply (IH c (p ++ tail)); [done|done|by apply prefix_app_r].
  - rewrite (proj2 (Z.compare_lt_iff (u8 a) (u8 b))) in Hcq by lia. done.
Qed.

Lemma prefix_not_lt (p q : str) : p `prefix_of` q -> ~ str_lt q p.
Proof.
  intros [tail ->]. induction p as [|a p IH]; unfold str_lt in *; simpl; [by destruct tail|].
  by rewrite Z.compare_refl.
Qed.

Lemma first_from_spec p m :
  btree_sorted m ->
  (exists e, first_from p m = Some e /\ p `prefix_of` e.1) <-> (exists e, e ∈ m /\ p `prefix_of` e.1).
Proof.
  intros Hs. unfold first_from. induction m as [|x m IH]; simpl.
  - split; [by intros (? & ? & _)|]. by intros (? & ?%elem_of_nil & _).
  - apply btree_sorted_cons in Hs as [Hs Hf]. case_bool_decide as Hlt; simpl.
    + rewrite (IH Hs). setoid_rewrite elem_of_cons. split; [intros (e & He & Hp); eauto|].
      intros (e & [->|He] & Hp); [|eauto]. by apply prefix_not_lt in Hp.
    + setoid_rewrite elem_of_cons. split.
      * intros (e & [= <-] & Hp). eauto.
      * intros (e & [->|He] & Hp); [eauto|]. exists x. split; [done|].
        apply (prefix_between p x.1 e.1); [done| |done]. intros Hlt'.
        rewrite Forall_forall in Hf. specialize (Hf _ He).
        apply (irreflexivity str_lt x.1). by etransitivity.
Qed.
End BTreeMap.
Arguments BTreeMap : clear implicits.
