(* ===== verification/Sort.v ===== *)
(** * Stable sorting by a comparison ([slice::sort_by])

    [sort_by cmp] is the stable sort of the standard library; for elements
    whose comparison separates them, the result depends only on the multiset
    of the elements. *)

From stdpp Require Import sorting.
From S2P Require Import Prelude Utf8.
Local Open Scope Z_scope.

Section SortBy.
Context {A : Type} (cmp : A -> A -> comparison).

(** [x], which came first, stays before the elements equal to it. *)
Fixpoint insert_by (x : A) (l : list A) : list A :=
  match l with
  | [] => [x]
  | y :: l' => match cmp x y with Gt => y :: insert_by x l' | _ => x :: l end
  end.
Definition sort_by (l : list A) : list A := foldr insert_by [] l.

Definition cmp_le (x y : A) : Prop := cmp x y <> Gt.

Lemma insert_by_perm x l : insert_by x l ≡ₚ x :: l.
Proof.
  induction l as [|y l IH]; simpl; [done|]. destruct (cmp x y); [done|done|].
  rewrite IH. constructor.
Qed.

Lemma sort_by_perm l : sort_by l ≡ₚ l.
Proof. induction l as [|x l IH]; simpl; [done|]. by rewrite insert_by_perm, IH. Qed.

Lemma length_sort_by l : length (sort_by l) = length l.
Proof. apply Permutation_length, sort_by_perm. Qed.

Hypothesis cmp_antisym : forall x y, cmp y x = CompOpp (cmp x y).
Hypothesis cmp_trans : forall x y z, cmp_le x y -> cmp_le y z -> cmp_le x z.

Lemma insert_by_sorted x l :
  StronglySorted cmp_le l -> StronglySorted cmp_le (insert_by x l).
Proof.
  induction 1 as [|y l Hs IH Hy]; simpl; [repeat constructor|].
  assert (Hle : cmp x y <> Gt -> StronglySorted cmp_le (x :: y :: l)).
  { intros Hxy. constructor; [by constructor|]. constructor; [done|].
    eapply Forall_impl; [exact Hy|]. intros z Hz. by apply (cmp_trans x y z). }
  destruct (cmp x y) eqn:E; [by apply Hle|by apply Hle|].
  constructor; [done|]. rewrite insert_by_perm. constructor; [|done].
  unfold cmp_le. by rewrite cmp_antisym, E.
Qed.

Lemma sort_by_sorted l : StronglySorted cmp_le (sort_by l).
Proof. induction l; simpl; [constructor|]. by apply insert_by_sorted. Qed.

(** Elements told apart by the comparison are sorted one way only. *)
Lemma sort_by_unique l1 l2 :
  l1 ≡ₚ l2 ->
  (forall x y, x ∈ l1 -> y ∈ l1 -> cmp x y = Eq -> x = y) ->
  sort_by l1 = sort_by l2.
Proof.
  intros Hp Hu. apply (StronglySorted_unique_strong cmp_le).
  - intros x y Hx Hy Hxy Hyx. rewrite sort_by_perm in Hx. rewrite sort_by_perm, <- Hp in Hy.
    apply Hu; [done|done|]. unfold cmp_le in *. rewrite cmp_antisym in Hyx.
    by destruct (cmp x y).
  - apply sort_by_sorted.
  - apply sort_by_sorted.
  - by rewrite !sort_by_perm.
Qed.
End SortBy.

(** Sorting by a comparison of images is sorting the images. *)
Lemma map_sort_by {A B} (f : A -> B) cmp cmp' l :
  (forall x y, cmp x y = cmp' (f x) (f y)) -> map f (sort_by cmp l) = sort_by cmp' (map f l).
Proof.
  intros Hf. assert (Hi : forall x k, map f (insert_by cmp x k) = insert_by cmp' (f x) (map f k)).
  { intros x k. induction k as [|y k IH]; simpl; [done|]. rewrite <- Hf.
    destruct (cmp x y); simpl; by rewrite ?IH. }
  induction l as [|x l IH]; simpl; [done|]. by rewrite Hi, IH.
Qed.

(** ** Comparisons *)

(** [a.cmp(b).then(...)], the order on tuples. *)
Definition then_cmp (c d : comparison) : comparison := match c with Eq => d | _ => c end.

Lemma str_cmp_le_trans s t r : str_cmp s t <> Gt -> str_cmp t r <> Gt -> str_cmp s r <> Gt.
Proof.
  intros Hst Htr. destruct (str_cmp s t) eqn:E1; [|clear Hst|done].
  - by apply str_cmp_eq in E1 as ->.
  - destruct (str_cmp t r) eqn:E2; [|clear Htr|done].
    + apply str_cmp_eq in E2 as <-. congruence.
    + assert (str_lt s r) as H by (etransitivity; [exact E1|exact E2]).
      unfold str_lt in H. congruence.
Qed.
