(* ===== verification/StageWitness.v ===== *)
(** * Witnesses of a retained stage ([stage_witness.rs])

    The identity of the directory a materialization staged into, the record a
    caller keeps of it, and their textual forms.  Presenting a record is exact:
    it names one object of one platform, or nothing. *)

From S2P Require Import Prelude Utf8.
Local Open Scope Z_scope.

Definition STAGE_WITNESS_SCHEMA : string := "sealr.stage-witness.v1".
Definition WINDOWS_FILE_ID_SCHEMA : string := "sealr.windows-file-id.v1".
Definition STAGE_RETENTION_SCHEMA : string := "sealr.stage-retention.v1".

(** ** Witnesses *)

Inductive StageWitness : Type :=
  | UnixWitness (device inode : Z)
  | WindowsWitness (volume_serial : Z) (file_id : list byte).
#[export] Instance StageWitness_eq_dec : EqDecision StageWitness.
Proof. solve_decision. Defined.

Definition unix_witness (device inode : Z) : StageWitness := UnixWitness device inode.
Definition windows_witness (volume_serial : Z) (file_id : list byte) : option StageWitness :=
  if bool_decide (file_id = replicate 16 x00) then None
  else Some (WindowsWitness volume_serial file_id).

Inductive WitnessComparison : Type := SameObject | NotRecorded | DifferentObject.
#[export] Instance WitnessComparison_eq_dec : EqDecision WitnessComparison.
Proof. solve_decision. Defined.

Definition compare_witnesses (presented observed : option StageWitness) : WitnessComparison :=
  match presented, observed with
  | Some presented, Some observed =>
      if bool_decide (presented = observed) then SameObject else DifferentObject
  | _, _ => NotRecorded
  end.

(** ** File identifiers in hexadecimal *)

Definition HEX : list byte := lit "0123456789abcdef".
Definition encode_file_id (file_id : list byte) : str :=
  concat (map (fun b => [at_ HEX (Z.to_nat (Z.shiftr (u8 b) 4)); at_ HEX (Z.to_nat (Z.land (u8 b) 15))]) file_id).

Definition hex_nibble (b : byte) : option Z :=
  if between 48 57 (u8 b) then Some (u8 b - 48)
  else if between 97 102 (u8 b) then Some (u8 b - 97 + 10)
  else None.

(** The loop over the pairs of a text of even length. *)
Fixpoint parse_pairs (text : str) : option (list byte) :=
  match text with
  | high :: low :: text =>
      high ← hex_nibble high; low ← hex_nibble low; rest ← parse_pairs text;
      Some (of_u8 (Z.lor (Z.shiftl high 4) low) :: rest)
  | _ => Some []
  end.
Definition parse_windows_file_id (text : str) : option (list byte) :=
  if negb (length text =? 32)%nat then None
  else
    out ← parse_pairs text;
    if bool_decide (out = replicate 16 x00) then None else Some out.

(** ** Records *)

Inductive StageWitnessRecord : Type :=
  | UnixRecord (device inode : Z)
  | WindowsRecord (volume_serial : Z) (file_id : str).

Definition to_record (w : StageWitness) : StageWitnessRecord :=
  match w with
  | UnixWitness device inode => UnixRecord device inode
  | WindowsWitness volume_serial file_id => WindowsRecord volume_serial (encode_file_id file_id)
  end.
Definition from_record (r : StageWitnessRecord) : option StageWitness :=
  match r with
  | UnixRecord device inode => Some (unix_witness device inode)
  | WindowsRecord volume_serial file_id =>
      file_id ← parse_windows_file_id file_id; windows_witness volume_serial file_id
  end.
Definition is_well_formed (r : StageWitnessRecord) : bool :=
  match r with
  | UnixRecord _ _ => true
  | WindowsRecord _ file_id => bool_decide (is_Some (parse_windows_file_id file_id))
  end.
(** On Linux and macOS. *)
Definition is_for_this_platform (r : StageWitnessRecord) : bool :=
  match r with UnixRecord _ _ => true | WindowsRecord _ _ => false end.

Record StageRetention : Type := {
  sr_schema : str;
  sr_stage_component : str;
  sr_witness : StageWitnessRecord
}.

(** [strip_prefix]. *)
Fixpoint strip_prefix (prefix s : str) : option str :=
  match prefix, s with
  | [], _ => Some s
  | p :: prefix, b :: s => if bool_decide (p = b) then strip_prefix prefix s else None
  | _ :: _, [] => None
  end.

Definition STAGE_PREFIX : str := lit ".sealr-stage-".
Definition is_exact_stage_component (name : str) : bool :=
  match strip_prefix STAGE_PREFIX name with
  | None => false
  | Some suffix =>
      (length suffix =? 32)%nat
      && forallb (fun b => between 48 57 (u8 b) || between 97 102 (u8 b)) suffix
  end.

Definition from_live (stage_component : str) (witness : StageWitness) : option StageRetention :=
  if negb (is_exact_stage_component stage_component) then None
  else Some {| sr_schema := lit STAGE_RETENTION_SCHEMA; sr_stage_component := stage_component;
               sr_witness := to_record witness |}.

Definition validate_retention (r : StageRetention) : bool :=
  bool_decide (sr_schema r = lit STAGE_RETENTION_SCHEMA)
  && is_exact_stage_component (sr_stage_component r) && is_well_formed (sr_witness r).

(** ** Round trips *)

(** A witness this module can make. *)
Definition witness_wf (w : StageWitness) : Prop :=
  match w with
  | UnixWitness _ _ => True
  | WindowsWitness _ file_id => length file_id = 16%nat /\ file_id <> replicate 16 x00
  end.

Lemma parse_encode_byte b rest :
  parse_pairs (at_ HEX (Z.to_nat (Z.shiftr (u8 b) 4)) :: at_ HEX (Z.to_nat (Z.land (u8 b) 15)) :: rest)
  = (bs ← parse_pairs rest; Some (b :: bs)).
Proof. cbn [parse_pairs]. destruct (parse_pairs rest); by destruct b. Qed.

Lemma hex_nibble_inv b v :
  hex_nibble b = Some v -> 0 <= v < 16 /\ at_ HEX (Z.to_nat v) = b.
Proof. destruct b; intros [= <-]; split; (done || reflexivity). Qed.

Lemma nibbles_byte high low :
  0 <= high < 16 -> 0 <= low < 16 ->
  let b := of_u8 (Z.lor (Z.shiftl high 4) low) in
  Z.shiftr (u8 b) 4 = high /\ Z.land (u8 b) 15 = low.
Proof.
  intros Hh Hl. rewrite <- (Z2Nat.id high), <- (Z2Nat.id low) by lia.
  assert (Z.to_nat high < 16)%nat as Hh' by lia. assert (Z.to_nat low < 16)%nat as Hl' by lia.
  revert Hh' Hl'. generalize (Z.to_nat high), (Z.to_nat low). intros h l Hh' Hl'.
  do 16 (destruct h as [|h]; [do 16 (destruct l as [|l]; [split; reflexivity|]); lia|]). lia.
Qed.

Lemma parse_pairs_encode id : parse_pairs (encode_file_id id) = Some id.
Proof.
  unfold encode_file_id. induction id as [|b id IH]; [done|]. cbn [map concat app].
  by rewrite parse_encode_byte, IH.
Qed.

Lemma parse_pairs_sound n text id :
  length text = (2 * n)%nat -> parse_pairs text = Some id -> text = encode_file_id id /\ length id = n.
Proof.
  revert text id. induction n as [|n IH]; intros text id Hl Hp.
  - apply nil_length_inv in Hl as ->. injection Hp as <-. done.
  - destruct text as [|a [|b text]]; [discriminate|simpl in Hl; lia|]. cbn [parse_pairs] in Hp.
    destruct (hex_nibble a) as [h|] eqn:Ha; [|done]. destruct (hex_nibble b) as [l|] eqn:Hb; [|done].
    cbn [mbind option_bind] in Hp. destruct (parse_pairs text) as [rest|] eqn:Hr; [|done].
    injection Hp as <-. apply hex_nibble_inv in Ha as [Hh <-]. apply hex_nibble_inv in Hb as [Hl' <-].
    destruct (IH text rest) as [-> <-]; [simpl in Hl; lia|done|]. split; [|done].
    unfold encode_file_id. cbn [map concat app].
    destruct (nibbles_byte h l Hh Hl') as [-> ->]. done.
Qed.

Lemma length_encode_file_id id : length (encode_file_id id) = (2 * length id)%nat.
Proof. unfold encode_file_id. induction id as [|b id IH]; [done|]. cbn [map concat app length]. lia. Qed.

Lemma parse_windows_file_id_iff text id :
  parse_windows_file_id text = Some id <->
  text = encode_file_id id /\ length id = 16%nat /\ id <> replicate 16 x00.
Proof.
  unfold parse_windows_file_id. split.
  - destruct (Nat.eqb_spec (length text) 32) as [Hl|]; [|done]. simpl.
    destruct (parse_pairs text) as [out|] eqn:Hp; [|done]. simpl.
    case_bool_decide as Hz; [done|]. intros [= ->].
    by destruct (parse_pairs_sound 16 text id Hl Hp) as [-> ->].
  - intros (-> & Hl & Hz). rewrite length_encode_file_id, Hl. simpl.
    rewrite parse_pairs_encode. simpl. by rewrite bool_decide_eq_false_2.
Qed.

(** A record gives back the witness it was made from, and a record that gives
    a witness is the record of that witness: nothing else names the object. *)
Lemma from_record_iff w r :
  from_record r = Some w <-> r = to_record w /\ witness_wf w.
Proof.
  destruct r as [dev ino|vol text]; simpl.
  - split; [by intros [= <-]|]. destruct w; [|by intros [? _]]. by intros [[= -> ->] _].
  - split.
    + destruct (parse_windows_file_id text) as [id|] eqn:Hp; [|done]. simpl.
      unfold windows_witness. case_bool_decide; [done|]. intros [= <-].
      by apply parse_windows_file_id_iff in Hp as (-> & ? & ?).
    + destruct w as [|vol' id]; [by intros [? _]|]. intros [[= -> ->] [Hl Hz]].
      rewrite (proj2 (parse_windows_file_id_iff _ id)) by done. cbn [mbind option_bind].
      unfold windows_witness. by rewrite bool_decide_eq_false_2.
Qed.

(** A retention record made from a live stage validates, and presents the very
    witness it was made from. *)
Lemma from_live_valid component w r :
  from_live component w = Some r -> witness_wf w ->
  validate_retention r = true /\ from_record (sr_witness r) = Some w /\ sr_stage_component r = component.
Proof.
  unfold from_live. destruct (is_exact_stage_component component) eqn:Hc; [|done]. intros [= <-] Hw.
  assert (from_record (to_record w) = Some w) as Hf by by apply from_record_iff.
  split_and!; [|done..]. unfold validate_retention. cbn [sr_schema sr_stage_component sr_witness]. rewrite bool_decide_eq_true_2, Hc by done.
  destruct w as [|vol id]; [done|]. simpl.
  rewrite (proj2 (parse_windows_file_id_iff _ id)) by done. done.
Qed.
