(* ===== verification/Findings.v ===== *)
(** * Findings: the refusal vocabulary ([findings.rs])

    A rejection is a [Finding]: an append-only code, a severity, the member it
    concerns, a detail text and an optional next step.  The file holds the
    codes with their pinned discriminants and strings, the constructors, and
    the header diagnostics the TAR readers share. *)

From S2P Require Import Prelude Utf8.
Local Open Scope Z_scope.

(** ** Codes *)

Inductive FindingCode : Type :=
  | PathAbsolute
  | PathDotDot
  | PathEmpty
  | PathAds
  | PathReserved
  | PathTrailing
  | PathEscape
  | PathDepth
  | PathNul
  | PathInvalidChar
  | PathUnicode
  | PathCaseFold
  | PathConflict
  | MaterializeExists
  | MaterializeIo
  | MaterializeCommit
  | MaterializeUnsafeParent
  | MaterializeUnsafeComponent
  | MaterializeCleanup
  | MaterializeUnsupported
  | MaterializeUnsupportedFilesystem
  | MaterializeUnsafeStage
  | MaterializeAudit
  | SourceIo
  | QuotaArchive
  | QuotaDerived
  | QuotaMetadata
  | QuotaFiles
  | QuotaMember
  | QuotaTotal
  | QuotaRatio
  | QuotaOverflow
  | QuotaDeclaredLie
  | PolicyUnsupported
  | ZipDiffA1Method
  | ZipDiffA2Size
  | ZipDiffA3Name
  | ZipDiffA4Dir
  | ZipDiffA5Crypt
  | ZipDiffB1Dup
  | ZipDiffB2Chars
  | ZipDiffC1Stream
  | ZipDiffC2Eocd
  | ZipDiffC3Count
  | ZipDiffC4Offset
  | ZipDiffC5Zip64
  | ZipOverlap
  | CoveringInconsistent
  | ZipEncrypted
  | ZipEncoding
  | ZipExtra
  | ZipFlags
  | TarChecksum
  | TarDialect
  | TarNumeric
  | TarPadding
  | TarTerminator
  | TarTruncated
  | TarType
  | TarFeatureUnsupported
  | TarPaxRecord
  | TarPaxState
  | FormatUnsupported
  | FormatMagic
  | GzipExtra
  | CodecDeflateInvalidStream
  | CodecDeflateTrailingInput
  | CrcMismatch
  | MethodUnsupported
  | TarGnuLongName
  | TarGnuState
  | CodecZstdInvalidFrame
  | CodecZstdTrailingInput
  | CodecXzInvalidStream
  | CodecXzTrailingInput
  | CodecBzip2InvalidStream
  | CodecBzip2TrailingInput
  | SevenZInvalidStructure
  | EvidenceCanonicalization
  | ZipSymlink.

(** [code as isize]: the explicit append-only contract. *)
Definition discriminant (code : FindingCode) : Z :=
  match code with
  | PathAbsolute => 0
  | PathDotDot => 1
  | PathEmpty => 2
  | PathAds => 3
  | PathReserved => 4
  | PathTrailing => 5
  | PathEscape => 6
  | PathDepth => 7
  | PathNul => 8
  | PathInvalidChar => 9
  | PathUnicode => 10
  | PathCaseFold => 11
  | PathConflict => 12
  | MaterializeExists => 13
  | MaterializeIo => 14
  | MaterializeCommit => 15
  | MaterializeUnsafeParent => 16
  | MaterializeUnsafeComponent => 17
  | MaterializeCleanup => 18
  | MaterializeUnsupported => 19
  | MaterializeUnsupportedFilesystem => 20
  | MaterializeUnsafeStage => 21
  | MaterializeAudit => 22
  | SourceIo => 23
  | QuotaArchive => 24
  | QuotaDerived => 25
  | QuotaMetadata => 26
  | QuotaFiles => 27
  | QuotaMember => 28
  | QuotaTotal => 29
  | QuotaRatio => 30
  | QuotaOverflow => 31
  | QuotaDeclaredLie => 32
  | PolicyUnsupported => 33
  | ZipDiffA1Method => 34
  | ZipDiffA2Size => 35
  | ZipDiffA3Name => 36
  | ZipDiffA4Dir => 37
  | ZipDiffA5Crypt => 38
  | ZipDiffB1Dup => 39
  | ZipDiffB2Chars => 40
  | ZipDiffC1Stream => 41
  | ZipDiffC2Eocd => 42
  | ZipDiffC3Count => 43
  | ZipDiffC4Offset => 44
  | ZipDiffC5Zip64 => 45
  | ZipOverlap => 46
  | CoveringInconsistent => 47
  | ZipEncrypted => 48
  | ZipEncoding => 49
  | ZipExtra => 50
  | ZipFlags => 51
  | TarChecksum => 52
  | TarDialect => 53
  | TarNumeric => 54
  | TarPadding => 55
  | TarTerminator => 56
  | TarTruncated => 57
  | TarType => 58
  | TarFeatureUnsupported => 59
  | TarPaxRecord => 60
  | TarPaxState => 61
  | FormatUnsupported => 62
  | FormatMagic => 63
  | GzipExtra => 64
  | CodecDeflateInvalidStream => 65
  | CodecDeflateTrailingInput => 66
  | CrcMismatch => 67
  | MethodUnsupported => 68
  | TarGnuLongName => 69
  | TarGnuState => 70
  | CodecZstdInvalidFrame => 71
  | CodecZstdTrailingInput => 72
  | CodecXzInvalidStream => 73
  | CodecXzTrailingInput => 74
  | CodecBzip2InvalidStream => 75
  | CodecBzip2TrailingInput => 76
  | SevenZInvalidStructure => 77
  | EvidenceCanonicalization => 78
  | ZipSymlink => 79
  end.

(** [FindingCode::as_str]. *)
Definition as_str (code : FindingCode) : string :=
  match code with
  | PathAbsolute => "path.absolute"
  | PathDotDot => "path.dotdot"
  | PathEmpty => "path.empty"
  | PathAds => "path.ads"
  | PathReserved => "path.reserved"
  | PathTrailing => "path.trailing"
  | PathEscape => "path.escape"
  | PathDepth => "path.depth"
  | PathNul => "path.nul"
  | PathInvalidChar => "path.invalid_char"
  | PathUnicode => "path.unicode"
  | PathCaseFold => "path.case_fold"
  | PathConflict => "path.conflict"
  | MaterializeExists => "materialize.exists"
  | MaterializeIo => "materialize.io"
  | MaterializeCommit => "materialize.commit"
  | MaterializeUnsafeParent => "materialize.unsafe_parent"
  | MaterializeUnsafeComponent => "materialize.unsafe_component"
  | MaterializeCleanup => "materialize.cleanup"
  | MaterializeUnsupported => "materialize.unsupported"
  | MaterializeUnsupportedFilesystem => "materialize.unsupported_filesystem"
  | MaterializeUnsafeStage => "materialize.unsafe_stage"
  | MaterializeAudit => "materialize.audit"
  | SourceIo => "source.io"
  | QuotaArchive => "quota.archive"
  | QuotaDerived => "quota.derived"
  | QuotaMetadata => "quota.metadata"
  | QuotaFiles => "quota.files"
  | QuotaMember => "quota.member"
  | QuotaTotal => "quota.total"
  | QuotaRatio => "quota.ratio"
  | QuotaOverflow => "quota.overflow"
  | QuotaDeclaredLie => "quota.declared_lie"
  | PolicyUnsupported => "policy.unsupported"
  | ZipDiffA1Method => "zip.diff.a1_method"
  | ZipDiffA2Size => "zip.diff.a2_size"
  | ZipDiffA3Name => "zip.diff.a3_name"
  | ZipDiffA4Dir => "zip.diff.a4_dir"
  | ZipSymlink => "zip.symlink"
  | ZipDiffA5Crypt => "zip.diff.a5_crypt"
  | ZipDiffB1Dup => "zip.diff.b1_dup"
  | ZipDiffB2Chars => "zip.diff.b2_chars"
  | ZipDiffC1Stream => "zip.diff.c1_stream"
  | ZipDiffC2Eocd => "zip.diff.c2_eocd"
  | ZipDiffC3Count => "zip.diff.c3_count"
  | ZipDiffC4Offset => "zip.diff.c4_offset"
  | ZipDiffC5Zip64 => "zip.diff.c5_zip64"
  | ZipOverlap => "zip.overlap"
  | CoveringInconsistent => "covering.inconsistent"
  | ZipEncrypted => "zip.encrypted"
  | ZipEncoding => "zip.encoding"
  | ZipExtra => "zip.extra"
  | ZipFlags => "zip.flags"
  | TarChecksum => "tar.checksum"
  | TarDialect => "tar.dialect"
  | TarNumeric => "tar.numeric"
  | TarPadding => "tar.padding"
  | TarTerminator => "tar.terminator"
  | TarTruncated => "tar.truncated"
  | TarType => "tar.type"
  | TarFeatureUnsupported => "tar.feature_unsupported"
  | TarPaxRecord => "tar.pax.record"
  | TarPaxState => "tar.pax.state"
  | TarGnuLongName => "tar.gnu.long_name"
  | TarGnuState => "tar.gnu.state"
  | FormatUnsupported => "format.unsupported"
  | FormatMagic => "format.magic"
  | GzipExtra => "gzip.extra"
  | CodecDeflateInvalidStream => "codec.deflate.invalid_stream"
  | CodecDeflateTrailingInput => "codec.deflate.trailing_input"
  | CodecZstdInvalidFrame => "codec.zstd.invalid_frame"
  | CodecZstdTrailingInput => "codec.zstd.trailing_input"
  | CodecXzInvalidStream => "codec.xz.invalid_stream"
  | CodecXzTrailingInput => "codec.xz.trailing_input"
  | CodecBzip2InvalidStream => "codec.bzip2.invalid_stream"
  | CodecBzip2TrailingInput => "codec.bzip2.trailing_input"
  | SevenZInvalidStructure => "sevenz.invalid_structure"
  | EvidenceCanonicalization => "evidence.canonicalization"
  | CrcMismatch => "crc.mismatch"
  | MethodUnsupported => "method.unsupported"
  end%string.

(** Every code, in declaration order. *)
Definition all_codes : list FindingCode :=
  [PathAbsolute; PathDotDot; PathEmpty; PathAds;
   PathReserved; PathTrailing; PathEscape; PathDepth;
   PathNul; PathInvalidChar; PathUnicode; PathCaseFold;
   PathConflict; MaterializeExists; MaterializeIo; MaterializeCommit;
   MaterializeUnsafeParent; MaterializeUnsafeComponent; MaterializeCleanup; MaterializeUnsupported;
   MaterializeUnsupportedFilesystem; MaterializeUnsafeStage; MaterializeAudit; SourceIo;
   QuotaArchive; QuotaDerived; QuotaMetadata; QuotaFiles;
   QuotaMember; QuotaTotal; QuotaRatio; QuotaOverflow;
   QuotaDeclaredLie; PolicyUnsupported; ZipDiffA1Method; ZipDiffA2Size;
   ZipDiffA3Name; ZipDiffA4Dir; ZipDiffA5Crypt; ZipDiffB1Dup;
   ZipDiffB2Chars; ZipDiffC1Stream; ZipDiffC2Eocd; ZipDiffC3Count;
   ZipDiffC4Offset; ZipDiffC5Zip64; ZipOverlap; CoveringInconsistent;
   ZipEncrypted; ZipEncoding; ZipExtra; ZipFlags;
   TarChecksum; TarDialect; TarNumeric; TarPadding;
   TarTerminator; TarTruncated; TarType; TarFeatureUnsupported;
   TarPaxRecord; TarPaxState; FormatUnsupported; FormatMagic;
   GzipExtra; CodecDeflateInvalidStream; CodecDeflateTrailingInput; CrcMismatch;
   MethodUnsupported; TarGnuLongName; TarGnuState; CodecZstdInvalidFrame;
   CodecZstdTrailingInput; CodecXzInvalidStream; CodecXzTrailingInput; CodecBzip2InvalidStream;
   CodecBzip2TrailingInput; SevenZInvalidStructure; EvidenceCanonicalization; ZipSymlink].

Lemma all_codes_complete code : all_codes !! Z.to_nat (discriminant code) = Some code.
Proof. by destruct code. Qed.

Lemma discriminant_range code : 0 <= discriminant code < 80.
Proof. destruct code; simpl; lia. Qed.

Lemma discriminant_inj c1 c2 : discriminant c1 = discriminant c2 -> c1 = c2.
Proof.
  intros H. pose proof (all_codes_complete c1) as H1. rewrite H in H1.
  rewrite all_codes_complete in H1. by simplify_eq.
Qed.

#[export] Instance FindingCode_eq_dec : EqDecision FindingCode.
Proof.
  intros c1 c2. destruct (decide (discriminant c1 = discriminant c2)) as [H|H].
  - left. by apply discriminant_inj.
  - right. by intros ->.
Defined.

(** ** Findings *)

Inductive Severity : Type := SevError | SevDeny | SevWarn | SevInfo.

Record FindingHint : Type := {
  observed : string;
  formats : list string
}.

Record Finding : Type := {
  code : FindingCode;
  severity : Severity;
  member : option str;
  detail : string;
  hint : option FindingHint
}.

#[export] Instance Severity_eq_dec : EqDecision Severity.
Proof. solve_decision. Defined.
#[export] Instance FindingHint_eq_dec : EqDecision FindingHint.
Proof. solve_decision. Defined.
#[export] Instance Finding_eq_dec : EqDecision Finding.
Proof. solve_decision. Defined.

(** [FindingHint::new]. *)
Definition new_hint (observed : string) (formats : list string) : FindingHint :=
  {| observed := observed; formats := formats |}.

(** [Finding::error], [Finding::on], [Finding::with_hint]. *)
Definition error (code : FindingCode) (detail : string) : Finding :=
  {| code := code; severity := SevError; member := None; detail := detail; hint := None |}.
Definition on (f : Finding) (name : str) : Finding :=
  {| code := code f; severity := severity f; member := Some name;
     detail := detail f; hint := hint f |}.
Definition with_hint (f : Finding) (h : FindingHint) : Finding :=
  {| code := code f; severity := severity f; member := member f;
     detail := detail f; hint := Some h |}.

(** [iter().position(p)]. *)
Fixpoint position {A} (p : A -> bool) (l : list A) : option nat :=
  match l with
  | [] => None
  | x :: l => if p x then Some O else option_map S (position p l)
  end.

(** [header_name_label]: the ustar name field as a diagnostic label. *)
Definition header_name_label (header : list byte) : option str :=
  if (length header <? 100)%nat then None
  else
    let field := take 100 header in
    let stop := default (length field) (position is_zero_byte field) in
    let raw := take stop field in
    if (length raw =? 0)%nat then None
    else
      match chars raw with
      | None => None
      | Some text => if existsb char_is_control text then None else Some raw
      end.

(** [label_header_member]. *)
Definition label_header_member (finding : Finding) (header : list byte) : Finding :=
  match member finding with
  | Some _ => finding
  | None =>
      match header_name_label header with
      | None => finding
      | Some name => on finding name
      end
  end.

Definition is_octal_digit (b : byte) : bool := between 48 55 (u8 b).

(** [checksum_field_detail]. *)
Definition checksum_field_detail (field : list byte) : string :=
  if (length field =? 8)%nat && forallb is_octal_digit (take 7 field)
     && is_zero_byte (at_ field 7)
  then "checksum field must be six octal digits followed by NUL and space (observed 7-digit checksum, as written by git archive and npm)"%string
  else "checksum field must be six octal digits followed by NUL and space"%string.

(** [unsupported_typeflag_finding]. *)
Definition unsupported_typeflag_finding (header : list byte) (typeflag : byte) : Finding :=
  let '(words, observed) :=
    match typeflag with
    | "1"%byte => ("hard link", None)
    | "2"%byte => ("symlink", None)
    | "x"%byte => ("PAX extended header", Some "PAX extended header")
    | "g"%byte => ("PAX global header", Some "PAX global header")
    | _ => (EmptyString, None)
    end%string in
  let detail :=
    if (words =? EmptyString)%string
    then ("unsupported ustar typeflag 0x" +++ fmt_hex2 (u8 typeflag))%string
    else (words +++ " (ustar typeflag 0x" +++ fmt_hex2 (u8 typeflag) +++ ")")%string in
  let finding := label_header_member (error TarFeatureUnsupported detail) header in
  match observed with
  | Some observed => with_hint finding (new_hint observed [])
  | None => finding
  end.

(** [pax_keyword_refusal]. *)
Definition pax_keyword_refusal (keyword : list byte) : Finding :=
  let shown :=
    match from_utf8 keyword with
    | Some text =>
        if negb (length text =? 0)%nat
           && forallb (fun b => is_ascii_graphic b && negb (u8 b =? 61)) text
        then Some text else None
    | None => None
    end in
  let detail :=
    match shown with
    | Some keyword =>
        ("pax keyword " +++ string_of_list_byte keyword
           +++ " is outside the closed path/size profile")%string
    | None => "pax keyword is outside the closed path/size profile"%string
    end in
  error TarFeatureUnsupported detail.

(** ** Lemmas *)

Lemma position_Some {A} (p : A -> bool) l n :
  position p l = Some n ->
  (n < length l)%nat /\ (exists x, l !! n = Some x /\ p x = true)
  /\ forallb (fun x => negb (p x)) (take n l) = true.
Proof.
  revert n. induction l as [|x l IH]; intros n H; simpl in H; [done|].
  destruct (p x) eqn:Hx; simplify_eq.
  - split_and!; simpl; [lia|eauto|done].
  - destruct (position p l) as [m|]; [|done]. simpl in H. simplify_eq.
    destruct (IH m eq_refl) as (? & ? & ?).
    split_and!; simpl; [lia|done|]. by rewrite Hx.
Qed.

Lemma position_None {A} (p : A -> bool) l :
  position p l = None <-> forallb (fun x => negb (p x)) l = true.
Proof.
  induction l as [|x l IH]; simpl; [done|].
  destruct (p x); simpl; [done|]. destruct (position p l); simpl.
  - split; [done|]. by intros H%IH.
  - tauto.
Qed.

(** Labelling never changes the code or the severity of a finding. *)
Lemma label_header_member_code f h : code (label_header_member f h) = code f.
Proof. unfold label_header_member. by repeat case_match. Qed.

Lemma unsupported_typeflag_code h t :
  code (unsupported_typeflag_finding h t) = TarFeatureUnsupported.
Proof.
  unfold unsupported_typeflag_finding. destruct (match t with "1"%byte => _ | _ => _ end) as [w o].
  destruct o; simpl; apply label_header_member_code.
Qed.

Create Rewrite HintDb findings.
#[export] Hint Rewrite label_header_member_code unsupported_typeflag_code : findings.

(** ** Theorem *)

(** The codes form a closed vocabulary in which neither the pinned
    discriminants nor the published strings collide: a discriminant is the
    position of its code in declaration order, all are below 80, and two codes
    with the same string are the same code. *)
Theorem finding_codes_stable :
  (forall c, all_codes !! Z.to_nat (discriminant c) = Some c /\ 0 <= discriminant c < 80) /\
  (forall c1 c2, discriminant c1 = discriminant c2 -> c1 = c2) /\
  (forall c1 c2, as_str c1 = as_str c2 -> c1 = c2).
Proof.
  split_and!.
  - intros c. split; [apply all_codes_complete|apply discriminant_range].
  - apply discriminant_inj.
  - assert (Hnd : NoDup (map as_str all_codes)).
    { apply (bool_decide_unpack _). vm_compute. exact I. }
    intros c1 c2 H. apply discriminant_inj.
    pose proof (all_codes_complete c1) as H1. pose proof (all_codes_complete c2) as H2.
    apply (f_equal (option_map as_str)) in H1, H2.
    rewrite <- list_lookup_fmap in H1, H2. simpl in H1, H2. rewrite H in H1.
    pose proof (NoDup_lookup _ _ _ _ Hnd H1 H2).
    pose proof (discriminant_range c1). pose proof (discriminant_range c2). lia.
Qed.
