(* ===== verification/Hints.v ===== *)
(** * Signature hints ([hints.rs])

    What a refusal of the container says about the bytes that were seen: fixed
    signatures only, never a file name.  A hint is advice; no decision reads
    it. *)

From S2P Require Import Prelude Utf8 Findings.
Local Open Scope Z_scope.
Local Open Scope rust_scope.

Inductive TarWrapperClass : Type := RawClass | GzipClass | ZstdClass | XzClass | Bzip2Class.

(** The double quote of the labels. *)
Definition dquote : string := string_of_list_byte [x22].

(** [hint_for_tar_magic]. *)
Definition hint_for_tar_magic (class : TarWrapperClass) (magic : list byte) : option FindingHint :=
  let observed :=
    if bool_decide (magic = lit "ustar" ++ [x00] ++ lit "00")
    then Some ("ustar magic " +++ dquote +++ "ustar\0" +++ dquote +++ " " +++ dquote +++ "00" +++ dquote, true)
    else if bool_decide (magic = lit "ustar  " ++ [x00])
    then Some ("GNU magic " +++ dquote +++ "ustar  \0" +++ dquote, false)
    else None in
  match observed with
  | None => None
  | Some (observed, ustar) =>
      Some (new_hint observed
        match class, ustar with
        | RawClass, true => ["tar-ustar"; "tar-pax"]
        | RawClass, false => ["tar-gnu-longname"]
        | GzipClass, true => ["tar-gzip-ustar"; "tar-gzip-pax"]
        | GzipClass, false => ["tar-gzip-gnu-longname"]
        | ZstdClass, true => ["tar-zstd-ustar"]
        | XzClass, true => ["tar-xz-ustar"]
        | Bzip2Class, true => ["tar-bzip2-ustar"]
        | ZstdClass, false | XzClass, false | Bzip2Class, false => []
        end%string)
  end.

Definition hint_for_tar_dialect (class : TarWrapperClass) (magic : list byte) : option FindingHint :=
  if Z.of_nat (length magic) <? 8 then None else hint_for_tar_magic class (take 8 magic).

(** [bytes.starts_with(signature)]. *)
Definition starts_with (signature bytes : list byte) : bool := bool_decide (signature `prefix_of` bytes).

Definition is_zip_signature (bytes : list byte) : bool :=
  (4 <=? Z.of_nat (length bytes)) && bool_decide (at_ bytes 0 = x50) && bool_decide (at_ bytes 1 = x4b)
  && match at_ bytes 2, at_ bytes 3 with
     | x03, x04 | x05, x06 | x07, x08 | x06, x06 => true
     | _, _ => false
     end.

Definition hint_from_prefix (bytes : list byte) : option FindingHint :=
  if starts_with [xfd; x37; x7a; x58; x5a; x00] bytes then Some (new_hint "xz stream" ["tar-xz-ustar"%string])
  else if starts_with [x28; xb5; x2f; xfd] bytes then Some (new_hint "zstd frame" ["tar-zstd-ustar"%string])
  else if starts_with [x37; x7a; xbc; xaf; x27; x1c] bytes then Some (new_hint "7z signature" ["7z-copy"%string])
  else if starts_with [x1f; x8b] bytes
  then Some (new_hint "gzip member" ["tar-gzip-ustar"; "tar-gzip-pax"; "tar-gzip-gnu-longname"]%string)
  else if (4 <=? Z.of_nat (length bytes)) && bool_decide (at_ bytes 0 = "B"%byte)
          && bool_decide (at_ bytes 1 = "Z"%byte) && bool_decide (at_ bytes 2 = "h"%byte)
          && between 49 57 (u8 (at_ bytes 3))
  then Some (new_hint "bzip2 stream" ["tar-bzip2-ustar"%string])
  else if is_zip_signature bytes then Some (new_hint "zip member" ["zip"; "zip64"]%string)
  else if 265 <=? Z.of_nat (length bytes) then hint_for_tar_magic RawClass (slice 257 265 bytes)
  else None.

(** ** A dialect hint names only siblings of its wrapper *)

(** The formats a wrapper class can offer. *)
Definition offered (class : TarWrapperClass) : list string :=
  match class with
  | RawClass => ["tar-ustar"; "tar-pax"; "tar-gnu-longname"]
  | GzipClass => ["tar-gzip-ustar"; "tar-gzip-pax"; "tar-gzip-gnu-longname"]
  | ZstdClass => ["tar-zstd-ustar"]
  | XzClass => ["tar-xz-ustar"]
  | Bzip2Class => ["tar-bzip2-ustar"]
  end%string.

Lemma hint_for_tar_dialect_keeps_wrapper class magic h :
  hint_for_tar_dialect class magic = Some h -> Forall (fun f => f ∈ offered class) (formats h).
Proof.
  unfold hint_for_tar_dialect, hint_for_tar_magic. intros Hh.
  repeat case_match; simplify_eq; simpl; repeat constructor; cbn; set_solver.
Qed.

Example hint_from_prefix_table :
  map (fun b => option_map formats (hint_from_prefix b))
    [[x1f; x8b; x08; x00]; [x1f]; lit "not an archive"; lit "BZh9"; lit "BZh0";
     replicate 257 x00 ++ lit "ustar" ++ [x00] ++ lit "00"; replicate 257 x00 ++ lit "ustar  " ++ [x00]]
  = [Some ["tar-gzip-ustar"; "tar-gzip-pax"; "tar-gzip-gnu-longname"]; None; None; Some ["tar-bzip2-ustar"];
     None; Some ["tar-ustar"; "tar-pax"]; Some ["tar-gnu-longname"]]%string.
Proof. vm_compute. reflexivity. Qed.
