(* ===== verification/Quota.v ===== *)
(** * Quotas and ratios ([quota.rs], [ratio.rs])

    A [QuotaState] meters a byte budget.  [consume] is atomic: it either adds
    the whole amount or leaves the state as it was.  The ratio test is strict
    and over exact products; the numerator charged for a derived TAR leaves
    out only the mandatory record framing. *)

From S2P Require Import Prelude.
Local Open Scope Z_scope.

Record QuotaState : Type := { used : Z; limit : Z }.

Inductive QuotaError : Type :=
  | Overflow
  | Exceeded (attempted limit : Z).

#[export] Instance QuotaState_eq_dec : EqDecision QuotaState.
Proof. solve_decision. Defined.
#[export] Instance QuotaError_eq_dec : EqDecision QuotaError.
Proof. solve_decision. Defined.

(** [QuotaState::new]. *)
Definition new (limit : Z) : QuotaState := {| used := 0; limit := limit |}.

(** [QuotaState::consume]: the state after the call and what it returned. *)
Definition consume (q : QuotaState) (amount : Z) : QuotaState * result Z QuotaError :=
  match u64_checked_add (used q) amount with
  | None => (q, Err Overflow)
  | Some next =>
      if limit q <? next then (q, Err (Exceeded next (limit q)))
      else ({| used := next; limit := limit q |}, Ok next)
  end.

(** [QuotaState::remaining]: the subtraction is Rust's, which would panic
    below zero. *)
Definition remaining (q : QuotaState) : option Z :=
  if limit q <? used q then None else Some (limit q - used q).

(** The invariant of every reachable state. *)
Definition quota_wf (q : QuotaState) : Prop := 0 <= used q <= limit q /\ is_u64 (limit q).

(** A caller's sequence of charges; refused charges are skipped. *)
Fixpoint consume_all (q : QuotaState) (amounts : list Z) : QuotaState * list bool :=
  match amounts with
  | [] => (q, [])
  | a :: amounts =>
      let '(q1, r) := consume q a in
      let '(q2, oks) := consume_all q1 amounts in
      (q2, is_ok r :: oks)
  end.

(** The reference accounting over unbounded integers: an amount is accepted
    exactly when the running total stays within the limit. *)
Fixpoint greedy (total limit : Z) (amounts : list Z) : Z * list bool :=
  match amounts with
  | [] => (total, [])
  | a :: amounts =>
      if total + a <=? limit
      then let '(t, oks) := greedy (total + a) limit amounts in (t, true :: oks)
      else let '(t, oks) := greedy total limit amounts in (t, false :: oks)
  end.

Lemma new_wf l : is_u64 l -> quota_wf (new l).
Proof. unfold quota_wf, is_u64. simpl. lia. Qed.

Lemma consume_wf q a : quota_wf q -> 0 <= a -> quota_wf (fst (consume q a)).
Proof.
  unfold quota_wf, consume. intros [Hq Hl] Ha.
  destruct (u64_checked_add (used q) a) as [next|] eqn:H; [|done].
  apply u64_checked_add_Some in H as [-> _].
  destruct (Z.ltb_spec (limit q) (used q + a)); simpl; [done|]. split; [lia|done].
Qed.

(** [consume] is the wide-integer oracle: the three outcomes are decided by
    the exact sum, a success stores and returns that sum, a failure changes
    nothing, and [remaining] never underflows afterwards. *)
Theorem consume_matches_wide_oracle q amount :
  quota_wf q -> is_u64 amount ->
  let next := used q + amount in
  consume q amount =
    (if u64_max <? next then (q, Err Overflow)
     else if limit q <? next then (q, Err (Exceeded next (limit q)))
     else ({| used := next; limit := limit q |}, Ok next))
  /\ quota_wf (fst (consume q amount))
  /\ remaining (fst (consume q amount)) =
     Some (limit q - used (fst (consume q amount))).
Proof.
  intros Hq Ha next. pose proof (consume_wf q amount Hq ltac:(destruct Ha; lia)) as Hwf.
  split_and!; [|done|].
  - unfold consume, u64_checked_add, next.
    destruct (Z.leb_spec (used q + amount) u64_max), (Z.ltb_spec u64_max (used q + amount));
      lia || done.
  - assert (limit (fst (consume q amount)) = limit q) as Hl
      by (unfold consume; by repeat case_match).
    unfold remaining. rewrite Hl. destruct Hwf as [Hwf _].
    rewrite (proj2 (Z.ltb_ge _ _)) by lia. done.
Qed.

Lemma consume_matches_wide_oracle_witness :
  consume {| used := 3; limit := 10 |} 8 =
    ({| used := 3; limit := 10 |}, Err (Exceeded 11 10)).
Proof.
  pose proof (consume_matches_wide_oracle {| used := 3; limit := 10 |} 8) as H.
  destruct H as [H _]; [split; [simpl; lia | split; vm_compute; discriminate]
                       | split; vm_compute; discriminate |].
  exact H.
Defined.

Lemma consume_all_from l u amounts :
  is_u64 l -> Forall is_u64 amounts -> 0 <= u <= l ->
  consume_all {| used := u; limit := l |} amounts =
    (let '(total, oks) := greedy u l amounts in ({| used := total; limit := l |}, oks))
  /\ 0 <= fst (greedy u l amounts) <= l.
Proof.
  intros [_ Hl] Ha. revert u.
  induction Ha as [|a amounts [Ha _] _ IH]; intros u Hu; simpl; [done|].
  unfold consume, u64_checked_add; simpl.
  destruct (Z.leb_spec (u + a) l).
  - rewrite (proj2 (Z.leb_le (u + a) u64_max)) by lia.
    rewrite (proj2 (Z.ltb_ge l (u + a))) by lia.
    destruct (IH (u + a) ltac:(lia)) as [-> Hb].
    by destruct (greedy (u + a) l amounts) eqn:E.
  - destruct (IH u Hu) as [IHu Hb].
    destruct (Z.leb_spec (u + a) u64_max);
      rewrite ?(proj2 (Z.ltb_lt l (u + a))) by lia; rewrite IHu;
      by destruct (greedy u l amounts) eqn:E.
Qed.

(** Any sequence of charges from a fresh quota behaves as the greedy
    accounting over unbounded integers: exactly the charges that fit are
    accepted, the final total is their sum, and it never exceeds the limit. *)
Theorem consume_all_greedy l amounts :
  is_u64 l -> Forall is_u64 amounts ->
  consume_all (new l) amounts =
    (let '(total, oks) := greedy 0 l amounts in ({| used := total; limit := l |}, oks))
  /\ 0 <= fst (greedy 0 l amounts) <= l.
Proof. intros Hl Ha. apply consume_all_from; [done..|]. destruct Hl. lia. Qed.

Lemma consume_all_greedy_witness :
  consume_all (new 10) [4; 7; 6] = ({| used := 10; limit := 10 |}, [true; false; true]).
Proof.
  destruct (consume_all_greedy 10 [4; 7; 6]) as [H _].
  - split; vm_compute; discriminate.
  - repeat constructor; vm_compute; discriminate.
  - exact H.
Defined.

(** ** Compression ratios *)

(** [ratio_exceeds]: the product of two [u64] is exact in [u128]. *)
Definition ratio_exceeds (uncomp comp max_ratio : Z) : bool :=
  if comp =? 0 then 0 <? uncomp
  else
    let product := max_ratio * comp in
    product <? uncomp.

Definition TAR_RECORD_LEN : Z := 10240.
Definition TAR_TERMINATOR_LEN : Z := 1024.

(** [derived_tar_ratio_numerator]. *)
Definition derived_tar_ratio_numerator
    (decoded_len terminator_offset terminator_len trailing_offset trailing_len : Z) : Z :=
  if negb (terminator_len =? TAR_TERMINATOR_LEN) then decoded_len
  else
    match u64_checked_add terminator_offset terminator_len with
    | None => decoded_len
    | Some terminator_end =>
        if negb (trailing_offset =? terminator_end) || (decoded_len <? terminator_end)
        then decoded_len
        else
          let records := div_ceil terminator_end TAR_RECORD_LEN in
          match u64_checked_mul records TAR_RECORD_LEN with
          | None => decoded_len
          | Some record_end =>
              let mandatory_pad := u64_saturating_sub record_end terminator_end in
              let excluded_pad := Z.min mandatory_pad trailing_len in
              match u64_checked_add TAR_TERMINATOR_LEN excluded_pad with
              | None => decoded_len
              | Some excluded =>
                  u64_saturating_sub decoded_len (Z.min excluded decoded_len)
              end
          end
    end.

Example derived_tar_ratio_table :
  map (fun '(d, t, tl, r, rl) => derived_tar_ratio_numerator d t tl r rl)
    [(10240, 1024, 1024, 2048, 8192); (10240, 512, 1024, 1536, 8704);
     (2048, 1024, 1024, 2048, 0); (20480, 9216, 1024, 10240, 10240);
     (20480, 1024, 1024, 2048, 18432); (10240, 0, 512, 512, 0);
     (10240, 2048, 1024, 4000, 8192)]
  = [1024; 512; 1024; 19456; 11264; 10240; 10240].
Proof. reflexivity. Qed.

(** [product <= u128::MAX]: the multiplication in [ratio_exceeds] never wraps,
    and the test is the comparison of the exact rational [uncomp / comp] with
    [max_ratio]: it holds exactly when the quotient is larger, or equal with a
    remainder; a zero denominator admits only a zero numerator. *)
Theorem ratio_exceeds_exact uncomp comp max_ratio :
  is_u64 uncomp -> is_u64 comp -> is_u64 max_ratio ->
  max_ratio * comp < 2 ^ 128 /\
  ratio_exceeds uncomp comp max_ratio =
    (if comp =? 0 then negb (uncomp =? 0)
     else (max_ratio <? uncomp / comp)
          || ((uncomp / comp =? max_ratio) && (0 <? uncomp mod comp))).
Proof.
  unfold is_u64, u64_max. intros Hu Hc Hm. split; [nia|].
  unfold ratio_exceeds. destruct (Z.eqb_spec comp 0); [lia|].
  pose proof (Z.div_mod uncomp comp ltac:(lia)) as Hd.
  pose proof (Z.mod_pos_bound uncomp comp ltac:(lia)) as Hr.
  set (q := uncomp / comp) in *. set (r := uncomp mod comp) in *. clearbody q r.
  apply eq_true_iff_eq.
  rewrite orb_true_iff, andb_true_iff, !Z.ltb_lt, Z.eqb_eq. split; intros H.
  - destruct (Z.lt_trichotomy max_ratio q) as [?|[?|?]]; [tauto| |nia]. subst. nia.
  - destruct H as [?|[? ?]]; nia.
Qed.

Lemma ratio_exceeds_exact_witness :
  ratio_exceeds 9007199254740993 1 9007199254740992 = true.
Proof.
  destruct (ratio_exceeds_exact 9007199254740993 1 9007199254740992) as [_ H];
    [split; vm_compute; discriminate.. |].
  rewrite H. reflexivity.
Defined.

(** The framing allowance is bounded and exact: the numerator never exceeds
    the decoded length and drops at most one 10240-byte record, it drops
    nothing when the claimed terminator is not 1024 bytes or not adjacent to
    the trailing range, and for a covering that ends at the decoded length it
    drops the terminator and exactly the zeros up to the record boundary. *)
Theorem derived_tar_ratio_numerator_spec d t tl r rl :
  is_u64 d -> is_u64 t -> is_u64 tl -> is_u64 r -> is_u64 rl ->
  let n := derived_tar_ratio_numerator d t tl r rl in
  (0 <= n <= d /\ d - n < TAR_TERMINATOR_LEN + TAR_RECORD_LEN) /\
  (tl <> TAR_TERMINATOR_LEN \/ r <> t + tl -> n = d) /\
  (tl = TAR_TERMINATOR_LEN -> r = t + tl -> r + rl = d ->
   d + TAR_RECORD_LEN <= u64_max ->
   n = t + Z.max 0 (d - div_ceil r TAR_RECORD_LEN * TAR_RECORD_LEN)).
Proof.
  unfold is_u64. intros Hd Ht Htl Hr Hrl.
  assert (Hceil : forall e, 0 <= e ->
    e <= div_ceil e TAR_RECORD_LEN * TAR_RECORD_LEN < e + TAR_RECORD_LEN).
  { intros e He. unfold div_ceil, TAR_RECORD_LEN. Z.div_mod_to_equations. lia. }
  unfold derived_tar_ratio_numerator, u64_checked_add, u64_checked_mul, u64_saturating_sub.
  destruct (Z.eqb_spec tl TAR_TERMINATOR_LEN) as [->|]; simpl;
    [|split_and!; intros; unfold TAR_TERMINATOR_LEN, TAR_RECORD_LEN in *; lia].
  unfold TAR_TERMINATOR_LEN in *.
  destruct (Z.leb_spec (t + 1024) u64_max);
    [|split_and!; intros; unfold TAR_RECORD_LEN in *; lia].
  pose proof (Hceil (t + 1024) ltac:(lia)) as Hc.
  destruct (Z.eqb_spec r (t + 1024)) as [->|]; simpl;
    [|split_and!; intros; unfold TAR_RECORD_LEN in *; lia].
  set (k := div_ceil (t + 1024) TAR_RECORD_LEN * TAR_RECORD_LEN) in *.
  unfold TAR_RECORD_LEN in *.
  destruct (Z.ltb_spec d (t + 1024)); [split_and!; intros; lia|].
  destruct (Z.leb_spec k u64_max); [|split_and!; intros; lia].
  destruct (Z.leb_spec (1024 + Z.min (Z.max 0 (k - (t + 1024))) rl) u64_max);
    split_and!; intros; lia.
Qed.

Lemma derived_tar_ratio_numerator_spec_witness :
  derived_tar_ratio_numerator 20480 1024 1024 2048 18432 = 1024 + (20480 - 10240).
Proof.
  destruct (derived_tar_ratio_numerator_spec 20480 1024 1024 2048 18432) as (_ & _ & H);
    [split; vm_compute; discriminate.. |].
  rewrite H; [reflexivity | reflexivity | reflexivity | reflexivity | vm_compute; discriminate].
Defined.
