(* ===== verification/Interval.v ===== *)
(** * Checked half-open intervals and exact partitions ([interval.rs])

    [exact_partition] decides whether nonempty parts, in any order, cover an
    outer interval exactly once.  The specification is pointwise: every offset
    of the outer interval lies in exactly one part and in no other. *)

From S2P Require Import Prelude.
From stdpp Require Import sorting.
Local Open Scope Z_scope.

Record CheckedInterval : Type := { start : Z; end_ : Z }.

Inductive IntervalError : Type := EndOverflow | Reversed.

Inductive PartitionError : Type :=
  | EmptyPart (index : nat)
  | PartOutside (index : nat)
  | MissingParts
  | GapBeforeFirst (index : nat)
  | Overlap (index : nat)
  | Gap (index : nat)
  | GapAfterLast (index : nat).

#[export] Instance CheckedInterval_eq_dec : EqDecision CheckedInterval.
Proof. solve_decision. Defined.

(** [CheckedInterval::from_offset_len], [from_bounds], [is_empty], [contains]. *)
Definition from_offset_len (offset len : Z) : result CheckedInterval IntervalError :=
  let? e := ok_or (u64_checked_add offset len) EndOverflow in
  Ok {| start := offset; end_ := e |}.
Definition from_bounds (s e : Z) : result CheckedInterval IntervalError :=
  if e <? s then Err Reversed else Ok {| start := s; end_ := e |}.
Definition is_empty (i : CheckedInterval) : bool := start i =? end_ i.
Definition contains (outer inner : CheckedInterval) : bool :=
  (start outer <=? start inner) && (end_ inner <=? end_ outer).

(** [slice::sort_by_key], a stable sort on an integer key. *)
Fixpoint insert_by_key {A} (key : A -> Z) (x : A) (l : list A) : list A :=
  match l with
  | [] => [x]
  | y :: l' => if key x <=? key y then x :: l else y :: insert_by_key key x l'
  end.
Definition sort_by_key {A} (key : A -> Z) (l : list A) : list A :=
  foldr (insert_by_key key) [] l.

(** [iter().enumerate()]. *)
Fixpoint enumerate_from {A} (n : nat) (l : list A) : list (nat * A) :=
  match l with
  | [] => []
  | x :: l => (n, x) :: enumerate_from (S n) l
  end.
Definition enumerate {A} (l : list A) : list (nat * A) := enumerate_from 0 l.

(** The first pass over the ordered parts. *)
Fixpoint check_parts (outer : CheckedInterval) (ordered : list (nat * CheckedInterval)) :
    result unit PartitionError :=
  match ordered with
  | [] => Ok ()
  | (index, interval) :: rest =>
      if is_empty interval then Err (EmptyPart index)
      else if negb (contains outer interval) then Err (PartOutside index)
      else check_parts outer rest
  end.

(** The second pass, over [ordered.windows(2)]. *)
Fixpoint check_windows (ordered : list (nat * CheckedInterval)) : result unit PartitionError :=
  match ordered with
  | (_, previous) :: (((index, next) :: _) as rest) =>
      if start next <? end_ previous then Err (Overlap index)
      else if end_ previous <? start next then Err (Gap index)
      else check_windows rest
  | _ => Ok ()
  end.

(** [exact_partition]. *)
Definition exact_partition (outer : CheckedInterval) (parts : list CheckedInterval) :
    result unit PartitionError :=
  match parts with
  | [] => if is_empty outer then Ok () else Err MissingParts
  | _ =>
      let ordered := sort_by_key (fun p => start (snd p)) (enumerate parts) in
      let? _ := check_parts outer ordered in
      match ordered with
      | [] => Err MissingParts (* unreachable: the parts are not empty *)
      | (first_index, first) :: _ =>
          if negb (start first =? start outer) then Err (GapBeforeFirst first_index)
          else
            let? _ := check_windows ordered in
            let '(last_index, last) := List.last ordered (first_index, first) in
            if negb (end_ last =? end_ outer) then Err (GapAfterLast last_index)
            else Ok ()
      end
  end.

(** ** Specification *)

Definition wf (i : CheckedInterval) : Prop := start i <= end_ i.
(** Offset [x] lies in the half-open interval [i]. *)
Definition covers (i : CheckedInterval) (x : Z) : Prop := start i <= x < end_ i.
(** The parts tile [outer]: none is empty or sticks out, and every offset of
    [outer] lies in exactly one of them, as an element of the list. *)
Definition tiles (outer : CheckedInterval) (parts : list CheckedInterval) : Prop :=
  (forall p, p ∈ parts -> start p < end_ p /\ start outer <= start p /\ end_ p <= end_ outer) /\
  (forall x, covers outer x ->
     exists i p, parts !! i = Some p /\ covers p x /\
       forall j q, parts !! j = Some q -> covers q x -> j = i).

(** ** Sorting and enumeration *)

Section Sort.
Context {A : Type} (key : A -> Z).

Lemma insert_by_key_perm x l : insert_by_key key x l ≡ₚ x :: l.
Proof.
  induction l as [|y l IH]; simpl; [done|]. case_match; [done|]. rewrite IH. constructor.
Qed.

Lemma sort_by_key_perm l : sort_by_key key l ≡ₚ l.
Proof. induction l as [|x l IH]; simpl; [done|]. by rewrite insert_by_key_perm, IH. Qed.

Definition key_le (x y : A) : Prop := key x <= key y.

Lemma insert_by_key_sorted x l :
  StronglySorted key_le l -> StronglySorted key_le (insert_by_key key x l).
Proof.
  induction 1 as [|y l Hs IH Hy]; simpl; [repeat constructor|].
  destruct (Z.leb_spec (key x) (key y)).
  - constructor; [by constructor|]. constructor; [done|].
    eapply Forall_impl; [exact Hy|]. unfold key_le. intros. lia.
  - constructor; [done|]. rewrite insert_by_key_perm. constructor; [unfold key_le; lia|done].
Qed.

Lemma sort_by_key_sorted l : StronglySorted key_le (sort_by_key key l).
Proof. induction l; simpl; [constructor|]. by apply insert_by_key_sorted. Qed.
End Sort.

Lemma elem_of_enumerate {A} n (l : list A) i x :
  (i, x) ∈ enumerate_from n l <-> (n <= i)%nat /\ l !! (i - n)%nat = Some x.
Proof.
  revert n. induction l as [|y l IH]; intros n; simpl.
  - rewrite elem_of_nil, lookup_nil. naive_solver.
  - rewrite elem_of_cons, IH. split.
    + intros [?|[? H]]; simplify_eq.
      * split; [lia|]. by rewrite Nat.sub_diag.
      * split; [lia|]. by replace (i - n)%nat with (S (i - S n)) by lia.
    + intros [Hle H]. destruct (decide (i = n)) as [->|].
      * left. rewrite Nat.sub_diag in H. simpl in H. by simplify_eq.
      * right. split; [lia|]. by replace (i - n)%nat with (S (i - S n)) in H by lia.
Qed.

Lemma NoDup_enumerate {A} n (l : list A) : NoDup (map fst (enumerate_from n l)).
Proof.
  revert n. induction l as [|x l IH]; intros n; simpl; [constructor|].
  constructor; [|apply IH]. intros ([i y] & Hi & Hin)%list_elem_of_fmap. simpl in Hi. subst.
  apply elem_of_enumerate in Hin. lia.
Qed.

(** ** Chains: the list of parts laid end to end from [s] to [e] *)

Fixpoint chain (s : Z) (l : list (nat * CheckedInterval)) (e : Z) : Prop :=
  match l with
  | [] => s = e
  | (_, p) :: l => start p = s /\ chain (end_ p) l e
  end.

Definition nonempty_inside (outer : CheckedInterval) (p : CheckedInterval) : Prop :=
  start p < end_ p /\ start outer <= start p /\ end_ p <= end_ outer.

Lemma check_parts_ok outer l :
  wf outer -> Forall wf (map snd l) ->
  check_parts outer l = Ok () <-> Forall (nonempty_inside outer) (map snd l).
Proof.
  intros Ho. induction l as [|[i p] l IH]; intros Hwf; simpl; [by split; constructor|].
  inversion_clear Hwf as [|? ? Hp Hl]. rewrite Forall_cons, <- IH by done.
  unfold nonempty_inside, is_empty, contains, wf in *.
  destruct (Z.eqb_spec (start p) (end_ p)); simpl; [split; [done|lia]|].
  destruct (Z.leb_spec (start outer) (start p)), (Z.leb_spec (end_ p) (end_ outer));
    simpl; split; try done; try lia; intros; try tauto. split; [lia|done].
Qed.

Lemma check_windows_chain i p l d e :
  chain (start p) ((i, p) :: l) e <->
  check_windows ((i, p) :: l) = Ok () /\ end_ (snd (List.last ((i, p) :: l) d)) = e.
Proof.
  revert i p d. induction l as [|[j q] l IH]; intros i p d; [simpl; naive_solver|].
  change (chain (start p) ((i, p) :: (j, q) :: l) e)
    with (start p = start p /\ start q = end_ p /\ chain (end_ q) l e).
  change (List.last ((i, p) :: (j, q) :: l) d) with (List.last ((j, q) :: l) d).
  specialize (IH j q d). simpl in IH |- *.
  destruct (Z.ltb_spec (start q) (end_ p)); [split; [lia|intros [? _]; done]|].
  destruct (Z.ltb_spec (end_ p) (start q)); [split; [lia|intros [? _]; done]|].
  assert (start q = end_ p) by lia. tauto.
Qed.

(** A chain of nonempty parts covers each offset of its span exactly once. *)
Lemma chain_covers s l e x :
  chain s l e -> Forall (fun p => start p < end_ p) (map snd l) ->
  s <= e /\
  (s <= x < e -> exists i p, (i, p) ∈ l /\ covers p x) /\
  (forall i p, (i, p) ∈ l -> s <= start p /\ end_ p <= e) /\
  (NoDup (map fst l) -> forall i p j q, (i, p) ∈ l -> (j, q) ∈ l ->
     covers p x -> covers q x -> i = j).
Proof.
  revert s. induction l as [|[k c] l IH]; intros s Hc Hne.
  - simpl in Hc. subst. split_and!; [lia|lia| |];
      [by intros ?? []%elem_of_nil|by intros _ ???? []%elem_of_nil].
  - destruct Hc as [<- Hc]. inversion_clear Hne as [|? ? Hk Hl]. simpl in Hk.
    destruct (IH _ Hc Hl) as (Hle & Hex & Hin & Huniq). split_and!.
    + lia.
    + intros Hx. destruct (decide (x < end_ c)).
      * exists k, c. split; [left|]. unfold covers. lia.
      * destruct Hex as (i & p & ? & ?); [lia|]. exists i, p. split; [by right|done].
    + intros i p [?|Hp]%elem_of_cons; simplify_eq; [lia|]. apply Hin in Hp. lia.
    + simpl. rewrite NoDup_cons. intros [_ Hnd].
      intros i p j q [?|Hp]%elem_of_cons [?|Hq]%elem_of_cons; simplify_eq;
        [done| | |by apply Huniq];
        unfold covers; intros; exfalso; [apply Hin in Hq|apply Hin in Hp]; lia.
Qed.

(** Sorted parts that tile a span form a chain. *)
Lemma tiles_chain s l e :
  StronglySorted (key_le (fun p => start (snd p))) l ->
  s <= e ->
  Forall (fun p => start p < end_ p /\ s <= start p /\ end_ p <= e) (map snd l) ->
  NoDup (map fst l) ->
  (forall x, s <= x < e -> exists i p, (i, p) ∈ l /\ covers p x /\
     forall j q, (j, q) ∈ l -> covers q x -> j = i) ->
  chain s l e.
Proof.
  intros Hs. revert s. induction Hs as [|[k c] l Hs IH Hk]; intros s Hle Hin Hnd Hex; simpl.
  - destruct (decide (s = e)); [done|].
    destruct (Hex s ltac:(lia)) as (? & ? & Hx & _). by apply elem_of_nil in Hx.
  - inversion_clear Hin as [|? ? Hc Hl]. simpl in Hc. simpl in Hnd.
    apply NoDup_cons in Hnd as [Hnk Hnd].
    assert (start c = s) as Hsc.
    { destruct (Hex s ltac:(lia)) as (i & p & Hp & Hcov & _). unfold covers in Hcov.
      apply elem_of_cons in Hp as [?|Hp]; simplify_eq; [lia|].
      rewrite Forall_forall in Hk. apply Hk in Hp. unfold key_le in Hp. simpl in Hp. lia. }
    split; [done|].
    assert (Hge : forall i p, (i, p) ∈ l -> end_ c <= start p).
    { intros i p Hp. destruct (decide (end_ c <= start p)); [done|exfalso].
      rewrite Forall_forall in Hk. pose proof (Hk _ Hp) as Hkp. unfold key_le in Hkp. simpl in Hkp.
      assert (Hpl := proj1 (Forall_forall _ _) Hl p).
      destruct Hpl as (? & ? & ?); [apply list_elem_of_fmap; by exists (i, p)|].
      destruct (Hex (start p) ltac:(lia)) as (j & q & _ & _ & Hu).
      assert (k = j) by (apply (Hu k c); [left|unfold covers; lia]).
      assert (i = j) by (apply (Hu i p); [by right|unfold covers; lia]).
      subst. apply Hnk. apply list_elem_of_fmap. by exists (j, p). }
    apply IH; [lia| |done|].
    + apply Forall_forall. intros p Hp. pose proof Hp as Hp'.
      apply list_elem_of_fmap in Hp as ([i p'] & Heq & Hp). simpl in Heq. subst p'.
      apply Hge in Hp. pose proof (proj1 (Forall_forall _ _) Hl p Hp'). simpl in *. lia.
    + intros x Hx. destruct (Hex x ltac:(lia)) as (i & p & Hp & Hcov & Hu).
      exists i, p. apply elem_of_cons in Hp as [?|Hp]; simplify_eq.
      * unfold covers in Hcov. lia.
      * split_and!; [done|done|]. intros j q Hq. apply (Hu j q). by right.
Qed.

(** ** The ordered parts *)

Definition ordered_parts (parts : list CheckedInterval) : list (nat * CheckedInterval) :=
  sort_by_key (fun p => start (snd p)) (enumerate parts).

Lemma enumerate_snd {A} n (l : list A) : map snd (enumerate_from n l) = l.
Proof. revert n. induction l; intros; simpl; f_equal; auto. Qed.

Lemma elem_of_ordered parts i p : (i, p) ∈ ordered_parts parts <-> parts !! i = Some p.
Proof.
  unfold ordered_parts. rewrite sort_by_key_perm. unfold enumerate.
  rewrite elem_of_enumerate, Nat.sub_0_r. intuition lia.
Qed.

Lemma NoDup_ordered parts : NoDup (map fst (ordered_parts parts)).
Proof.
  assert (map fst (ordered_parts parts) ≡ₚ map fst (enumerate parts)) as ->
    by apply Permutation_map, sort_by_key_perm. apply NoDup_enumerate.
Qed.

Lemma ordered_perm parts : map snd (ordered_parts parts) ≡ₚ parts.
Proof.
  etransitivity; [apply Permutation_map, sort_by_key_perm|].
  unfold enumerate. by rewrite enumerate_snd.
Qed.

Lemma Forall_ordered (P : CheckedInterval -> Prop) parts :
  Forall P (map snd (ordered_parts parts)) <-> Forall P parts.
Proof. by rewrite ordered_perm. Qed.

Lemma ordered_nil parts : ordered_parts parts = [] -> parts = [].
Proof.
  intros H. pose proof (sort_by_key_perm (fun p => start (snd p)) (enumerate parts)) as Hp.
  unfold ordered_parts in H. rewrite H in Hp. apply Permutation_nil in Hp.
  by destruct parts.
Qed.

(** The parts tile the outer interval when the ordered parts are nonempty,
    inside it and form a chain from its start to its end. *)
Lemma tiles_iff_chain outer parts :
  wf outer -> parts <> [] ->
  tiles outer parts <->
  Forall (nonempty_inside outer) parts /\
  chain (start outer) (ordered_parts parts) (end_ outer).
Proof.
  intros Ho Hne. split.
  - intros [Hin Hex].
    assert (Forall (nonempty_inside outer) parts) as Hf by (by apply Forall_forall).
    split; [done|]. apply tiles_chain.
    + apply sort_by_key_sorted.
    + done.
    + by apply Forall_ordered.
    + apply NoDup_ordered.
    + intros x Hx. destruct (Hex x Hx) as (i & p & Hp & Hc & Hu).
      exists i, p. rewrite elem_of_ordered. split_and!; [done|done|].
      intros j q Hq%elem_of_ordered. by apply Hu.
  - intros [Hf Hc]. split; [by apply Forall_forall|]. intros x Hx.
    assert (Forall (fun p => start p < end_ p) (map snd (ordered_parts parts))) as Hs.
    { apply Forall_ordered. eapply Forall_impl; [done|]. by intros p [? _]. }
    destruct (chain_covers _ _ _ x Hc Hs) as (_ & Hex & _ & Huniq).
    destruct (Hex Hx) as (i & p & Hp & Hcov). exists i, p.
    split_and!; [by apply elem_of_ordered|done|]. intros j q Hq Hcq.
    eapply Huniq; [apply NoDup_ordered|by apply elem_of_ordered|done|done|done].
Qed.

(** What each rejection asserts about the original, unsorted slice. *)
Definition accuses (outer : CheckedInterval) (parts : list CheckedInterval)
    (e : PartitionError) : Prop :=
  match e with
  | EmptyPart i => exists p, parts !! i = Some p /\ start p = end_ p
  | PartOutside i =>
      exists p, parts !! i = Some p /\ (start p < start outer \/ end_ outer < end_ p)
  | MissingParts => parts = [] /\ start outer < end_ outer
  | GapBeforeFirst i =>
      exists p, parts !! i = Some p /\ covers outer (start outer)
        /\ forall q, q ∈ parts -> ~ covers q (start outer)
  | Overlap i =>
      exists p j q x, parts !! i = Some p /\ parts !! j = Some q /\ j <> i
        /\ covers p x /\ covers q x
  | Gap i =>
      exists p, parts !! i = Some p /\ covers outer (start p - 1)
        /\ forall q, q ∈ parts -> ~ covers q (start p - 1)
  | GapAfterLast i =>
      exists p, parts !! i = Some p /\ covers outer (end_ p)
        /\ forall q, q ∈ parts -> ~ covers q (end_ p)
  end.

Lemma check_parts_err outer l e :
  check_parts outer l = Err e ->
  exists i p, (i, p) ∈ l /\
    ((e = EmptyPart i /\ start p = end_ p) \/
     (e = PartOutside i /\ (start p < start outer \/ end_ outer < end_ p))).
Proof.
  induction l as [|[i p] l IH]; simpl; [done|]. unfold is_empty, contains.
  destruct (Z.eqb_spec (start p) (end_ p)).
  - intros [= <-]. exists i, p. split; [left|]. by left.
  - destruct (Z.leb_spec (start outer) (start p)), (Z.leb_spec (end_ p) (end_ outer)); simpl.
    + intros Hx. destruct (IH Hx) as (j & q & ? & ?). exists j, q. split; [by right|done].
    + intros [= <-]. exists i, p. split; [left|]. right. split; [done|lia].
    + intros [= <-]. exists i, p. split; [left|]. right. split; [done|lia].
    + intros [= <-]. exists i, p. split; [left|]. right. split; [done|lia].
Qed.

(** The first window that fails: an overlap is two parts over one offset, a
    gap is an offset that no part of the whole list covers. *)
Lemma check_windows_err i p l e :
  StronglySorted (key_le (fun p => start (snd p))) ((i, p) :: l) ->
  Forall (fun p => start p < end_ p) (map snd ((i, p) :: l)) ->
  NoDup (map fst ((i, p) :: l)) ->
  check_windows ((i, p) :: l) = Err e ->
  (exists j q k r, e = Overlap j /\ (j, q) ∈ (i, p) :: l /\ (k, r) ∈ (i, p) :: l
     /\ k <> j /\ covers q (start q) /\ covers r (start q)) \/
  (exists j q, e = Gap j /\ (j, q) ∈ (i, p) :: l /\ start p <= start q - 1
     /\ forall k r, (k, r) ∈ (i, p) :: l -> ~ covers r (start q - 1)).
Proof.
  revert i p. induction l as [|[j q] l IH]; intros i p Hs Hne Hnd He; [done|].
  inversion_clear Hs as [|? ? Hs' Hp]. inversion_clear Hne as [|? ? Hpe Hne'].
  simpl in Hpe. inversion_clear Hp as [|? ? Hpq Hpl]. unfold key_le in Hpq; simpl in Hpq.
  assert (Hqe : start q < end_ q) by (by inversion_clear Hne').
  assert (Hge : forall k r, (k, r) ∈ (j, q) :: l -> start q <= start r).
  { intros k r [?|Hr]%elem_of_cons; simplify_eq; [lia|].
    inversion_clear Hs' as [|? ? _ Hq]. rewrite Forall_forall in Hq.
    by apply Hq in Hr. }
  simpl in He. destruct (Z.ltb_spec (start q) (end_ p)); simplify_eq.
  - left. exists j, q, i, p. unfold covers.
    split_and!; try lia; [done|right; left|left|].
    intros ->. simpl in Hnd. apply NoDup_cons in Hnd as [Hn _]. apply Hn. left.
  - destruct (Z.ltb_spec (end_ p) (start q)); simplify_eq.
    + right. exists j, q. split_and!; [done|right; left|lia|].
      intros k r [?|Hr]%elem_of_cons; simplify_eq; unfold covers; [lia|].
      apply Hge in Hr. lia.
    + simpl in Hnd. apply NoDup_cons in Hnd as [_ Hnd].
      destruct (IH j q Hs' Hne' Hnd He) as [(j' & q' & k & r & ? & ? & ? & ?)|(j' & q' & ? & Hj & Hle & Hno)].
      * left. exists j', q', k, r. split_and!; [done|by right|by right|tauto..].
      * right. exists j', q'. split_and!; [done|by right|lia|].
        intros k r [?|Hr]%elem_of_cons; simplify_eq; [unfold covers; lia|eauto].
Qed.

(** ** Theorems *)

Lemma exact_partition_iff outer parts :
  wf outer -> Forall wf parts ->
  exact_partition outer parts = Ok () <-> tiles outer parts.
Proof.
  intros Ho Hwf. destruct (decide (parts = [])) as [->|Hne].
  - simpl. unfold is_empty, tiles, covers, wf in *.
    destruct (Z.eqb_spec (start outer) (end_ outer)); split; try done.
    + intros _. split; [by intros p ?%elem_of_nil|lia].
    + intros [_ H]. destruct (H (start outer) ltac:(lia)) as (? & ? & ? & _). done.
  - rewrite tiles_iff_chain, <- Forall_ordered by done.
    assert (Forall wf (map snd (ordered_parts parts))) as Hwo by (by apply Forall_ordered).
    rewrite <- (check_parts_ok outer _ Ho Hwo).
    unfold exact_partition. destruct parts as [|p0 ps]; [done|]. fold (ordered_parts (p0 :: ps)).
    destruct (ordered_parts (p0 :: ps)) as [|[i p] l] eqn:El; [by apply ordered_nil in El|].
    destruct (check_parts outer ((i, p) :: l)) as [[]|e]; [|by split; [|intros [? _]]].
    destruct (Z.eqb_spec (start p) (start outer)) as [Heq|Hneq]; simpl negb; cbv iota;
      [|split; [done|by intros [_ [? _]]]].
    rewrite <- Heq, (check_windows_chain i p l (i, p)).
    destruct (check_windows ((i, p) :: l)) as [[]|e]; [|by split; [|intros [_ [? _]]]].
    destruct (List.last ((i, p) :: l) (i, p)) as [li lp]. cbn [snd].
    destruct (Z.eqb_spec (end_ lp) (end_ outer)); simpl; naive_solver.
Qed.

(** [exact_partition] accepts exactly the parts that tile the outer interval:
    nonempty, inside it, and covering every offset exactly once, whatever the
    order in which they are given. *)
Theorem exact_partition_correct outer parts :
  wf outer -> Forall wf parts ->
  exact_partition outer parts = Ok () <-> tiles outer parts.
Proof. intros Ho Hwf. exact (exact_partition_iff outer parts Ho Hwf). Qed.

Lemma exact_partition_correct_witness :
  exact_partition {| start := 0; end_ := 6 |}
    [{| start := 4; end_ := 6 |}; {| start := 0; end_ := 1 |}; {| start := 1; end_ := 4 |}] = Ok ()
  /\ ~ tiles {| start := 0; end_ := 6 |} [{| start := 0; end_ := 4 |}; {| start := 3; end_ := 6 |}].
Proof.
  split; [reflexivity|].
  rewrite <- exact_partition_correct; [discriminate|unfold wf; simpl; lia|].
  repeat constructor; unfold wf; simpl; lia.
Defined.

Lemma last_elem_of {A} (x d : A) l : List.last (x :: l) d ∈ x :: l.
Proof.
  revert x. induction l as [|y l IH]; intros x; [left|].
  change (List.last (x :: y :: l) d) with (List.last (y :: l) d). right. apply IH.
Qed.

(** Facts about the ordered parts once the first pass has accepted them. *)
Lemma ordered_head outer parts i p l :
  ordered_parts parts = (i, p) :: l ->
  Forall (nonempty_inside outer) (map snd ((i, p) :: l)) ->
  parts !! i = Some p /\ nonempty_inside outer p
  /\ Forall (fun p => start p < end_ p) (map snd ((i, p) :: l))
  /\ (forall q, q ∈ parts -> start p <= start q /\ exists k, (k, q) ∈ (i, p) :: l)
  /\ (forall k q, (k, q) ∈ (i, p) :: l -> parts !! k = Some q /\ nonempty_inside outer q).
Proof.
  intros El Hc.
  assert (Hs := sort_by_key_sorted (fun p => start (snd p)) (enumerate parts)).
  fold (ordered_parts parts) in Hs. rewrite El in Hs.
  assert (Hel := elem_of_ordered parts). rewrite El in Hel.
  split_and!.
  - apply Hel. left.
  - by inversion_clear Hc.
  - eapply Forall_impl; [done|]. by intros r [? _].
  - intros q [k Hk]%list_elem_of_lookup. apply Hel in Hk. split; [|by exists k].
    apply elem_of_cons in Hk as [?|Hk]; simplify_eq; [lia|].
    inversion_clear Hs as [|? ? _ Hf]. rewrite Forall_forall in Hf. by apply Hf in Hk.
  - intros k q Hk. split; [by apply Hel|].
    rewrite Forall_forall in Hc. apply Hc, list_elem_of_fmap. by exists (k, q).
Qed.

(** A failing window is a true accusation. *)
Lemma windows_accuse outer parts i p l e :
  ordered_parts parts = (i, p) :: l ->
  Forall (nonempty_inside outer) (map snd ((i, p) :: l)) ->
  check_windows ((i, p) :: l) = Err e -> accuses outer parts e.
Proof.
  intros El Hc Hw.
  destruct (ordered_head _ _ _ _ _ El Hc) as (_ & [_ [? _]] & Hlt & Hq & Hk).
  assert (Hs := sort_by_key_sorted (fun p => start (snd p)) (enumerate parts)).
  fold (ordered_parts parts) in Hs.
  assert (Hnd := NoDup_ordered parts). rewrite El in Hs, Hnd.
  destruct (check_windows_err _ _ _ _ Hs Hlt Hnd Hw)
    as [(j & q & k & r & -> & Hj & Hr & Hjk & ? & ?)|(j & q & -> & Hj & Hle & Hno)].
  - exists q, k, r, (start q). apply Hk in Hj as [? _], Hr as [? _]. done.
  - exists q. apply Hk in Hj as [? [? [? ?]]]. split_and!; [done|unfold covers; lia|].
    intros r [_ [k Hr]]%Hq. eauto.
Qed.

(** A chain that stops short leaves its end uncovered. *)
Lemma last_accuses outer parts i p l li lp :
  ordered_parts parts = (i, p) :: l ->
  Forall (nonempty_inside outer) (map snd ((i, p) :: l)) ->
  check_windows ((i, p) :: l) = Ok () ->
  List.last ((i, p) :: l) (i, p) = (li, lp) -> end_ lp <> end_ outer ->
  accuses outer parts (GapAfterLast li).
Proof.
  intros El Hc Hw Hlast Hne.
  destruct (ordered_head _ _ _ _ _ El Hc) as (_ & _ & Hlt & Hq & Hk).
  assert (Hch : chain (start p) ((i, p) :: l) (end_ lp)).
  { apply (check_windows_chain i p l (i, p)). by rewrite Hlast. }
  destruct (chain_covers _ _ _ 0 Hch Hlt) as (_ & _ & Hin & _).
  pose proof (last_elem_of (i, p) (i, p) l) as Hl. rewrite Hlast in Hl.
  apply Hk in Hl as [? [? [? ?]]]. exists lp. split_and!; [done|unfold covers; lia|].
  intros q [_ [k Hkq]]%Hq. apply Hin in Hkq. unfold covers. lia.
Qed.

(** Every rejection is a true accusation about the original slice: the index
    it reports names a part with the stated defect, and a reported gap is an
    offset of the outer interval that no part covers. *)
Theorem exact_partition_error outer parts e :
  wf outer -> Forall wf parts ->
  exact_partition outer parts = Err e -> accuses outer parts e.
Proof.
  intros Ho Hwf. destruct (decide (parts = [])) as [->|Hne].
  { simpl. unfold is_empty, wf in *. destruct (Z.eqb_spec (start outer) (end_ outer)); [done|].
    intros [= <-]. simpl. split; [done|lia]. }
  assert (Hwo := proj2 (Forall_ordered wf parts) Hwf).
  unfold exact_partition. destruct parts as [|p0 ps]; [done|]. fold (ordered_parts (p0 :: ps)).
  set (parts := p0 :: ps) in *. assert (Hel := elem_of_ordered parts).
  destruct (ordered_parts parts) as [|[i p] l] eqn:El; [by apply ordered_nil in El|].
  destruct (check_parts outer ((i, p) :: l)) as [[]|e'] eqn:Hc.
  2:{ intros [= <-]. apply check_parts_err in Hc as (j & q & Hj & Hc). apply Hel in Hj.
      destruct Hc as [[-> ?]|[-> ?]]; simpl; eauto. }
  apply check_parts_ok in Hc; [|done..].
  destruct (ordered_head _ _ _ _ _ El Hc) as (? & [? [? ?]] & _ & Hq & _).
  destruct (Z.eqb_spec (start p) (start outer)) as [Heq|Hneq]; simpl negb; cbv iota.
  2:{ intros [= <-]. exists p. unfold covers. split_and!; [done|lia|lia|].
      intros q [? _]%Hq. lia. }
  destruct (check_windows ((i, p) :: l)) as [[]|e'] eqn:Hw.
  2:{ intros [= <-]. by eapply windows_accuse. }
  destruct (List.last ((i, p) :: l) (i, p)) as [li lp] eqn:Hlast.
  destruct (Z.eqb_spec (end_ lp) (end_ outer)); simpl negb; cbv iota; [done|].
  intros [= <-]. by eapply last_accuses.
Qed.

Lemma exact_partition_error_witness :
  accuses {| start := 0; end_ := 9 |}
    [{| start := 5; end_ := 9 |}; {| start := 0; end_ := 4 |}] (Gap 0).
Proof.
  apply exact_partition_error; [unfold wf; simpl; lia| |reflexivity].
  repeat constructor; unfold wf; simpl; lia.
Defined.
