(* ===== verification/Snapshot.v ===== *)
(** * Immutable archive bytes ([snapshot.rs], [ByteRange] of [ir.rs])

    The checked random-access contract every parser reads through.  [Source]
    is the interface (a length and an exact read); [represents] and [reliable]
    are its laws; [SourceSnapshot] is the implementation of [snapshot.rs], with
    its memory and private-file backings, and discharges them. *)

From S2P Require Import Prelude Findings.
Local Open Scope Z_scope.

(** ** Byte ranges *)

Record ByteRange : Type := { offset : Z; len : Z }.

Definition mkrange (o n : Z) : ByteRange := {| offset := o; len := n |}.

#[export] Instance ByteRange_eq_dec : EqDecision ByteRange.
Proof. solve_decision. Defined.

(** [ByteRange::end]. *)
Definition range_end (r : ByteRange) : Z := u64_saturating_add (offset r) (len r).

(** ** The reading interface *)

Class Source (S : Type) : Type := {
  src_len : S -> Z;
  (** [read_exact_at(offset, &mut [u8; n])]: the bytes copied out. *)
  src_read : S -> Z -> Z -> result (list byte) Finding
}.

(** Whatever a read returns is the requested range of one fixed content. *)
Record represents {S} `{Source S} (s : S) (bytes : list byte) : Prop := {
  represents_len : src_len s = Z.of_nat (length bytes);
  represents_u64 : Z.of_nat (length bytes) <= u64_max;
  represents_read : forall off n out,
    0 <= off -> 0 <= n -> src_read s off n = Ok out ->
    off + n <= Z.of_nat (length bytes) /\ out = range off n bytes
}.

(** A source whose in-range reads never fail. *)
Record reliable {S} `{Source S} (s : S) (bytes : list byte) : Prop := {
  reliable_represents : represents s bytes;
  reliable_read : forall off n,
    0 <= off -> 0 <= n -> off + n <= Z.of_nat (length bytes) ->
    src_read s off n = Ok (range off n bytes)
}.

(** ** Private files: [read_file_exact_at]

    One positional read of the operating system may be short, interrupted or
    fail; the [k]-th call made on a handle is the [k]-th answer of the file. *)

Inductive io_read : Type :=
  | IoRead (bytes : list byte)
  | IoInterrupted
  | IoError (message : string).

Definition File : Type := nat -> Z -> Z -> io_read.

(** The loop state: calls made, offset, bytes still wanted, bytes copied. *)
Record ReadState : Type := {
  rs_calls : nat; rs_offset : Z; rs_wanted : Z; rs_output : list byte
}.

Definition read_file_step (file : File) (st : ReadState) :
    exec (control ReadState (list byte)) Finding :=
  if rs_wanted st =? 0 then Some (Ok (Return (rs_output st)))
  else
    match file (rs_calls st) (rs_offset st) (rs_wanted st) with
    | IoInterrupted =>
        Some (Ok (Continue
          {| rs_calls := S (rs_calls st); rs_offset := rs_offset st;
             rs_wanted := rs_wanted st; rs_output := rs_output st |}))
    | IoError message =>
        Some (Err (error SourceIo
          ("read private source at offset " +++ fmt_dec (rs_offset st) +++ ": " +++ message)))
    | IoRead [] =>
        Some (Err (error SourceIo
          ("private source ended unexpectedly at offset " +++ fmt_dec (rs_offset st))))
    | IoRead bytes =>
        let read := Z.of_nat (length bytes) in
        let* offset := ok_or (u64_checked_add (rs_offset st) read)
          (error SourceIo "private source read offset overflowed u64") in
        Some (Ok (Continue
          {| rs_calls := S (rs_calls st); rs_offset := offset;
             rs_wanted := rs_wanted st - read; rs_output := rs_output st ++ bytes |}))
    end%string.

(** [read_file_exact_at]; the fuel bounds the number of calls answered. *)
Definition read_file_exact_at (fuel : nat) (file : File) (offset n : Z) :
    exec (list byte) Finding :=
  run_loop (read_file_step file) fuel
    {| rs_calls := 0; rs_offset := offset; rs_wanted := n; rs_output := [] |}.

(** What [pread] guarantees: a read returns at most what was asked, and the
    file's bytes at that offset. *)
Definition file_holds (file : File) (bytes : list byte) : Prop :=
  forall k off n out, 0 <= off -> 0 <= n -> file k off n = IoRead out ->
    Z.of_nat (length out) <= n /\
    off + Z.of_nat (length out) <= Z.of_nat (length bytes) /\
    out = range off (Z.of_nat (length out)) bytes.

(** ** [SourceSnapshot] *)

Inductive SnapshotKind : Type := MemoryOwned | MemoryBorrowed | PrivateFileKind | Unavailable.
#[export] Instance SnapshotKind_eq_dec : EqDecision SnapshotKind.
Proof. solve_decision. Defined.

(** The private file keeps its handle as an option; the field is the exact
    positional read the handle answers. *)
Inductive SnapshotBacking : Type :=
  | Memory (owned : bool) (bytes : list byte)
  | PrivateFile (file : option (Z -> Z -> result (list byte) Finding)).

Inductive SourceDigest : Type :=
  | Available (sha256 : str)
  | DigestUnavailable.

Definition digest_sha256 (d : SourceDigest) : option str :=
  match d with Available h => Some h | DigestUnavailable => None end.

Record SourceSnapshot : Type := {
  snap_path : option str;
  backing : SnapshotBacking;
  snap_len : Z;
  digest : SourceDigest
}.

(** [SourceSnapshot::borrowed]. *)
Definition borrowed `{!Sha256} (path : option str) (bytes : list byte) : SourceSnapshot :=
  {| snap_path := path; backing := Memory false bytes;
     snap_len := Z.of_nat (length bytes); digest := Available (hex_sha256 bytes) |}.

(** [SourceSnapshot::kind]. *)
Definition kind (s : SourceSnapshot) : SnapshotKind :=
  match backing s with
  | Memory true _ => MemoryOwned
  | Memory false _ => MemoryBorrowed
  | PrivateFile _ => PrivateFileKind
  end.

(** [SourceSnapshot::into_owned]. *)
Definition into_owned (s : SourceSnapshot) : SourceSnapshot :=
  let backing :=
    match backing s with
    | Memory _ bytes => Memory true bytes
    | PrivateFile file => PrivateFile file
    end in
  {| snap_path := snap_path s; backing := backing; snap_len := snap_len s; digest := digest s |}.

(** [bytes.get(start..end)]. *)
Definition get_range (bytes : list byte) (start stop : Z) : option (list byte) :=
  if (start <=? stop) && (stop <=? Z.of_nat (length bytes))
  then Some (range start (stop - start) bytes) else None.

(** [SourceSnapshot::checked_range], for a source of [source_len] bytes. *)
Definition checked_range (source_len offset len : Z) : result unit Finding :=
  let? e := ok_or (u64_checked_add offset len)
    (error ZipDiffC4Offset "range end overflows") in
  reject (source_len <? e) with error ZipDiffC4Offset "range extends past snapshot" ;;
  Ok ().

(** [SourceSnapshot::read_exact_at] with an [n]-byte buffer. *)
Definition read_exact_at (s : SourceSnapshot) (offset n : Z) : result (list byte) Finding :=
  let? _ := checked_range (snap_len s) offset n in
  match backing s with
  | Memory _ bytes =>
      let? stop := ok_or (u64_checked_add offset n)
        (error ZipDiffC4Offset "range end overflows") in
      ok_or (get_range bytes offset stop)
        (error ZipDiffC4Offset "range extends past snapshot")
  | PrivateFile file =>
      match file with
      | None => Err (error SourceIo "private source reader is unavailable")
      | Some read => read offset n
      end
  end.

#[export] Instance SourceSnapshot_source : Source SourceSnapshot :=
  {| src_len := snap_len; src_read := read_exact_at |}.

(** ** Reads built on the exact one

    [read_vec] and the range reader use nothing of the snapshot but its length
    and its exact read, so they are defined for every source. *)

Section Reads.
Context {S : Type} `{Source S}.

(** [SourceSnapshot::read_vec]. *)
Definition read_vec `{!Allocator} (s : S) (offset len : Z) : result (list byte) Finding :=
  let? _ := checked_range (src_len s) offset len in
  reject negb (try_reserve "read_vec" len)
    with error SourceIo ("could not reserve " +++ fmt_dec len +++ " snapshot bytes: ") ;;
  src_read s offset len.

(** [SnapshotRangeReader]: a cursor over one checked range. *)
Record RangeReader : Type := { rr_offset : Z; rr_remaining : Z }.

(** [SourceSnapshot::reader]. *)
Definition reader (s : S) (offset len : Z) : result RangeReader Finding :=
  let? _ := checked_range (src_len s) offset len in
  Ok {| rr_offset := offset; rr_remaining := len |}.

(** [Read for SnapshotRangeReader], into a buffer of [n] bytes. *)
Definition range_read (s : S) (r : RangeReader) (n : Z) :
    RangeReader * result (list byte) Finding :=
  if (n =? 0) || (rr_remaining r =? 0) then (r, Ok [])
  else
    let count := Z.min (rr_remaining r) n in
    match src_read s (rr_offset r) count with
    | Err e => (r, Err e)
    | Ok out =>
        ({| rr_offset := rr_offset r + count; rr_remaining := rr_remaining r - count |}, Ok out)
    end.
End Reads.

(** ** Lemmas *)

Lemma range_end_eq r : offset r + len r <= u64_max -> range_end r = offset r + len r.
Proof. unfold range_end, u64_saturating_add. lia. Qed.

Lemma checked_range_ok source_len off n :
  checked_range source_len off n = Ok () <-> off + n <= u64_max /\ off + n <= source_len.
Proof.
  unfold checked_range, u64_checked_add.
  destruct (Z.leb_spec (off + n) u64_max); simpl; [|split; [done|lia]].
  destruct (Z.ltb_spec source_len (off + n)); split; try done; lia.
Qed.

(** The caller's bytes, held in memory, form a reliable source. *)
Lemma borrowed_reliable `{!Sha256} path bytes :
  Z.of_nat (length bytes) <= u64_max -> reliable (borrowed path bytes) bytes.
Proof.
  intros Hl.
  assert (Hread : forall off n out, 0 <= off -> 0 <= n ->
    read_exact_at (borrowed path bytes) off n = Ok out <->
    off + n <= Z.of_nat (length bytes) /\ out = range off n bytes).
  { intros off n out Ho Hn. unfold read_exact_at.
    destruct (checked_range _ off n) as [[]|e] eqn:Hc.
    - apply checked_range_ok in Hc as [H1 H2]. simpl in H2 |- *.
      unfold u64_checked_add. rewrite (proj2 (Z.leb_le _ _)) by lia. simpl.
      unfold get_range. rewrite (proj2 (Z.leb_le off _)), (proj2 (Z.leb_le (off + n) _)) by lia.
      simpl. replace (off + n - off) with n by lia. split; [by intros [= <-]|by intros [_ ->]].
    - split; [done|]. intros [Hb ->]. exfalso.
      assert (checked_range (snap_len (borrowed path bytes)) off n = Ok ()) by
        (apply checked_range_ok; simpl; lia). congruence. }
  split; [split; simpl; [done|done|]|]; intros.
  - by apply Hread.
  - by apply Hread.
Qed.

(** A private-file read that completes delivers exactly the requested range,
    however the operating system split it into short reads or interrupted it. *)
Theorem read_file_exact_at_correct fuel file bytes off n out :
  file_holds file bytes -> 0 <= off -> 0 <= n ->
  read_file_exact_at fuel file off n = Some (Ok out) ->
  out = range off n bytes /\ Z.of_nat (length out) = n.
Proof.
  intros Hf Ho Hn H. unfold read_file_exact_at in H.
  set (I := fun st => 0 <= rs_wanted st /\ rs_offset st = off + (n - rs_wanted st) /\
    rs_wanted st <= n /\ rs_output st = range off (n - rs_wanted st) bytes /\
    Z.of_nat (length (rs_output st)) = n - rs_wanted st).
  revert H. apply (run_loop_invariant _ I
    (fun out => out = range off n bytes /\ Z.of_nat (length out) = n)).
  - intros [k o w acc] s' (Hw & Hoff & Hle & Hout & Hlen) Hs. simpl in *.
    unfold read_file_step in Hs. simpl in Hs.
    destruct (Z.eqb_spec w 0); [done|].
    destruct (file k o w) as [out'| |m] eqn:Hr; [|by simplify_eq|done].
    destruct (Hf k o w out' ltac:(lia) ltac:(lia) Hr) as (Hl1 & Hl2 & Hr').
    destruct out' as [|b out']; [done|]. cbv beta iota zeta in Hs. clear Hr.
    revert Hs Hl1 Hl2 Hr'. generalize (b :: out') as rd. intros rd Hs Hl1 Hl2 Hr'.
    destruct (u64_checked_add o (Z.of_nat (length rd))) as [o'|] eqn:Ha; [|done].
    apply u64_checked_add_Some in Ha as [-> _]. cbn [ok_or] in Hs. simplify_eq. unfold I; simpl.
    split_and!; [lia|lia|lia| |rewrite length_app; lia].
    replace (n - (w - Z.of_nat (length rd))) with ((n - w) + Z.of_nat (length rd)) by lia.
    rewrite range_app by lia. by rewrite <- Hr'.
  - intros [k o w acc] r (Hw & Hoff & Hle & Hout & Hlen) Hs. simpl in *.
    unfold read_file_step in Hs. simpl in Hs. destruct (Z.eqb_spec w 0) as [->|].
    + simplify_eq. rewrite Z.sub_0_r in *. done.
    + by repeat case_match.
  - unfold I; simpl. rewrite Z.sub_diag. split_and!; done || lia.
Qed.

Lemma read_file_exact_at_correct_witness :
  exists out, read_file_exact_at 6
    (fun k off n => match k with
       | O => IoRead (range off 1 (lit "archive"))
       | 1%nat => IoInterrupted
       | _ => IoRead (range off n (lit "archive")) end) 2 3 = Some (Ok out)
  /\ out = lit "chi".
Proof.
  eexists. split; [vm_compute; reflexivity|].
  set (file := fun k off n => match k with
       | O => if (off <? 7) && (1 <=? n) then IoRead (range off 1 (lit "archive")) else IoInterrupted
       | 1%nat => IoInterrupted
       | _ => if off + n <=? 7 then IoRead (range off n (lit "archive")) else IoInterrupted end).
  refine (proj1 (read_file_exact_at_correct 6 file (lit "archive") 2 3 _ _ _ _ _));
    [|lia|lia|vm_compute; reflexivity].
  intros k off n out Ho Hn H. unfold file in H.
  assert (Hl : Z.of_nat (length (lit "archive")) = 7) by reflexivity.
  destruct k as [|[|k]]; [| discriminate |].
  - destruct ((off <? 7) && (1 <=? n)) eqn:E; [|discriminate].
    apply andb_true_iff in E as [E1%Z.ltb_lt E2%Z.leb_le]. injection H as <-.
    assert (length (range off 1 (lit "archive")) = 1%nat) as Hr
      by (apply (length_range off 1); lia).
    rewrite Hr. split; [lia|]. split; [lia|reflexivity].
  - destruct (off + n <=? 7) eqn:E; [|discriminate]. apply Z.leb_le in E. injection H as <-.
    assert (length (range off n (lit "archive")) = Z.to_nat n) as Hr
      by (apply length_range; lia).
    rewrite Hr, Z2Nat.id by lia. split; [lia|]. split; [lia|reflexivity].
Defined.
