(* ===== verification/Streams.v ===== *)
(** * Byte streams ([snapshot.rs], and the standard library's readers)

    [Read], [BufRead] and [Write] are interfaces; [holds] is the law of a
    reader that delivers one fixed content in pieces of any size.  The range
    reader of [snapshot.rs] and the standard [BufReader] around it satisfy it;
    [copy_bounded] is proved against the interface. *)

From S2P Require Import Prelude Findings Snapshot.
Local Open Scope Z_scope.
Local Open Scope rust_scope.

(** ** Errors and interfaces *)

(** [io::Error]: a finding carried through, an interruption, any other. *)
Inductive io_error : Type :=
  | ReadFinding (f : Finding)
  | ReadInterrupted
  | ReadOther (message : string).

(** [finding_from_io], [as_io_error]. *)
Definition finding_from_io (e : io_error) : option Finding :=
  match e with ReadFinding f => Some f | _ => None end.
Definition as_io_error (f : Finding) : io_error := ReadFinding f.
(** [Display for io::Error]. *)
Definition fmt_io_error (e : io_error) : string :=
  match e with
  | ReadFinding f => detail f
  | ReadInterrupted => "operation interrupted"
  | ReadOther message => message
  end.

Class Read (R : Type) : Type := {
  (** [read(&mut [u8; n])]: the reader after it, and the bytes delivered. *)
  io_read_into : R -> Z -> R * result (list byte) io_error
}.

Class BufRead (R : Type) : Type := {
  bufread_read :: Read R;
  fill_buf : R -> R * result (list byte) io_error;
  buf_consume : R -> Z -> R
}.

Class Write (W : Type) : Type := {
  write_all : W -> list byte -> W * result unit string
}.

(** [io::sink()]. *)
#[export] Instance sink_write : Write unit := {| write_all _ _ := ((), Ok ()) |}.

(** What a writer that accepted some bytes did with them: nothing for the sink,
    an append for a file or a buffer. *)
Record takes {W} `{Write W} (took : W -> list byte -> W -> Prop) : Prop := {
  takes_none : forall w, took w [] w;
  takes_more : forall w done_ w1 bytes w2,
    took w done_ w1 -> write_all w1 bytes = (w2, Ok ()) -> took w (done_ ++ bytes) w2
}.

Lemma sink_takes : takes (fun (_ : unit) _ _ => True).
Proof. by split. Qed.

(** The reader delivers [rest] and nothing else, in some pieces; an empty
    delivery into a nonempty buffer means that nothing is left. *)
Record holds_with {R} `{Read R} (holds : R -> list byte -> Prop) : Prop := {
  holds_read : forall r rest n r' out,
    holds r rest -> 0 <= n -> io_read_into r n = (r', Ok out) ->
    exists rest', rest = out ++ rest' /\ holds r' rest' /\ Z.of_nat (length out) <= n
      /\ (0 < n -> out = [] -> rest = [])
}.

(** Reads that cannot fail. *)
Definition infallible {R} `{Read R} (holds : R -> list byte -> Prop) : Prop :=
  forall r rest n, holds r rest -> 0 <= n -> exists r' out, io_read_into r n = (r', Ok out).

(** Reads that are never interrupted by a signal. *)
Definition uninterrupted {R} `{Read R} (holds : R -> list byte -> Prop) : Prop :=
  forall r rest n r', holds r rest -> 0 <= n ->
    io_read_into r n = (r', Err ReadInterrupted) -> False.

Lemma infallible_uninterrupted {R} `{Read R} (holds : R -> list byte -> Prop) :
  infallible holds -> uninterrupted holds.
Proof. intros Hf r rest n r' Hh Hn Hr. destruct (Hf _ _ _ Hh Hn) as (? & ? & E). congruence. Qed.

(** ** The range reader *)

Section RangeReader.
Context {S : Type} `{Source S} (s : S).

(** [Read for SnapshotRangeReader], its findings as [io::Error]s. *)
Definition range_reader_read (r : RangeReader) (n : Z) : RangeReader * result (list byte) io_error :=
  let '(r', out) := range_read s r n in (r', map_err as_io_error out).

(** A buffered reader of the standard library, [BufReader::with_capacity]. *)
Record BufReader : Type := { br_inner : RangeReader; br_buffer : list byte }.
Definition buf_reader (r : RangeReader) : BufReader := {| br_inner := r; br_buffer := [] |}.

Definition br_fill_buf (capacity : Z) (r : BufReader) : BufReader * result (list byte) io_error :=
  match br_buffer r with
  | [] =>
      let '(inner, out) := range_reader_read (br_inner r) capacity in
      match out with
      | Ok out => ({| br_inner := inner; br_buffer := out |}, Ok out)
      | Err e => ({| br_inner := inner; br_buffer := [] |}, Err e)
      end
  | buffer => (r, Ok buffer)
  end.
Definition br_consume (r : BufReader) (n : Z) : BufReader :=
  {| br_inner := br_inner r; br_buffer := drop (Z.to_nat n) (br_buffer r) |}.
(** A large read bypasses an empty buffer. *)
Definition br_read (capacity : Z) (r : BufReader) (n : Z) :
    BufReader * result (list byte) io_error :=
  match br_buffer r with
  | [] =>
      if capacity <=? n then
        let '(inner, out) := range_reader_read (br_inner r) n in
        ({| br_inner := inner; br_buffer := [] |}, out)
      else
        match br_fill_buf capacity r with
        | (r, Err e) => (r, Err e)
        | (r, Ok buffer) =>
            let out := take (Z.to_nat n) buffer in
            (br_consume r (Z.of_nat (length out)), Ok out)
        end
  | buffer =>
      let out := take (Z.to_nat n) buffer in
      (br_consume r (Z.of_nat (length out)), Ok out)
  end.
End RangeReader.

Definition range_reader_instance {S} `{Source S} (s : S) : Read RangeReader :=
  {| io_read_into := range_reader_read s |}.
Definition buf_reader_instance {S} `{Source S} (s : S) (capacity : Z) : BufRead BufReader :=
  {| bufread_read := {| io_read_into := br_read s capacity |};
     fill_buf := br_fill_buf s capacity; buf_consume := br_consume |}.

(** ** [copy_bounded] *)

Definition COPY_BUFFER_BYTES : Z := 65536.

Section Copy.
Context `{!Sha256} {R W : Type} `{Read R} `{Write W}.

(** Reader, writer, bytes copied and digested. *)
Record CopyState : Type := { cp_source : R; cp_dest : W; cp_bytes : list byte }.

(** One iteration of the outer loop; an interrupted read is made again. *)
Definition copy_step (max_archive_bytes : Z) (st : CopyState) :
    exec (control CopyState (W * (Z * str))) Finding :=
  let len := Z.of_nat (length (cp_bytes st)) in
  let remaining_plus_one :=
    u64_saturating_add (u64_saturating_sub max_archive_bytes len) 1 in
  let read_limit := Z.min remaining_plus_one COPY_BUFFER_BYTES in
  let '(source, read) := io_read_into (cp_source st) read_limit in
  match read with
  | Err ReadInterrupted =>
      Some (Ok (Continue {| cp_source := source; cp_dest := cp_dest st; cp_bytes := cp_bytes st |}))
  | Err e =>
      Some (Err (default (error SourceIo ("read source: " +++ fmt_io_error e)) (finding_from_io e)))
  | Ok [] => Some (Ok (Return (cp_dest st, (len, hex_sha256 (cp_bytes st)))))
  | Ok chunk =>
      let* next := ok_or (u64_checked_add len (Z.of_nat (length chunk)))
        (error QuotaArchive "archive length overflowed u64") in
      reject! max_archive_bytes <? next
        with error QuotaArchive ("archive grew beyond the input cap of "
               +++ fmt_dec max_archive_bytes +++ " bytes") ;;
      let '(dest, written) := write_all (cp_dest st) chunk in
      let* _ := map_err (fun message => error SourceIo ("write private source file: " +++ message))
        written in
      Some (Ok (Continue {| cp_source := source; cp_dest := dest; cp_bytes := cp_bytes st ++ chunk |}))
  end.

(** [copy_bounded]; without interruptions each iteration but the last copies at
    least one byte, so the cap bounds their number. *)
Definition copy_bounded (source : R) (destination : W) (max_archive_bytes : Z) :
    exec (W * (Z * str)) Finding :=
  run_loop (copy_step max_archive_bytes) (2 + Z.to_nat max_archive_bytes)
    {| cp_source := source; cp_dest := destination; cp_bytes := [] |}.
End Copy.
Arguments CopyState : clear implicits.

(** ** Lemmas *)

Section RangeReaderLemmas.
Context {S : Type} `{Source S} (s : S) (bs : list byte).

(** The cursor stands inside the content. *)
Definition reader_holds (r : RangeReader) (rest : list byte) : Prop :=
  0 <= rr_offset r /\ 0 <= rr_remaining r /\ rr_offset r + rr_remaining r <= Z.of_nat (length bs)
  /\ rest = range (rr_offset r) (rr_remaining r) bs.

Lemma reader_holds_start o n r :
  represents s bs -> 0 <= o -> 0 <= n -> reader s o n = Ok r -> reader_holds r (range o n bs).
Proof.
  intros Hs Ho Hn Hr. unfold reader in Hr. ok_steps Hr. units. simplify_eq.
  apply checked_range_ok in Hs0 as [_ Hle]. rewrite (represents_len _ _ Hs) in Hle.
  by repeat split.
Qed.

Lemma range_reader_holds :
  represents s bs -> @holds_with _ (range_reader_instance s) reader_holds.
Proof.
  intros Hs. split. intros [o n0] rest n r' out (Ho & Hn0 & Hle & ->) Hn Hr. simpl in *.
  unfold range_reader_read, range_read in Hr. simpl in Hr.
  destruct ((n =? 0) || (n0 =? 0)) eqn:E.
  - simpl in Hr. simplify_eq. exists (range o n0 bs). split_and!; [done|done|simpl; lia|].
    intros Hpos _. breflect. apply orb_true_iff in E as [E|E]; breflect; [lia|subst].
    by rewrite range_zero.
  - breflect. destruct (src_read s o (Z.min n0 n)) as [b|] eqn:Hb; [|done]. simpl in Hr. simplify_eq.
    apply (represents_read _ _ Hs) in Hb as [Hin ->]; [|lia|lia].
    assert (length (range o (Z.min n0 n) bs) = Z.to_nat (Z.min n0 n)) as Hl
      by (apply length_range; lia).
    exists (range (o + Z.min n0 n) (n0 - Z.min n0 n) bs). split_and!.
    + rewrite <- range_app by lia. f_equal. lia.
    + unfold reader_holds; simpl. split_and!; [lia..|done].
    + rewrite Hl. lia.
    + intros _ Hnil. rewrite Hnil in Hl. simpl in Hl. lia.
Qed.

Lemma range_reader_infallible :
  reliable s bs -> @infallible _ (range_reader_instance s) reader_holds.
Proof.
  intros Hs [o n0] rest n (Ho & Hn0 & Hle & ->) Hn. simpl in *.
  unfold range_reader_read, range_read. simpl.
  destruct ((n =? 0) || (n0 =? 0)) eqn:E; [by do 2 eexists|]. breflect.
  rewrite (reliable_read _ _ Hs) by lia. by do 2 eexists.
Qed.

(** A buffered reader holds its buffer and what its inner reader holds. *)
Definition br_holds (r : BufReader) (rest : list byte) : Prop :=
  exists tail, reader_holds (br_inner r) tail /\ rest = br_buffer r ++ tail.

Lemma br_fill_holds capacity r rest r' out :
  represents s bs -> 0 < capacity -> br_holds r rest -> br_fill_buf s capacity r = (r', Ok out) ->
  br_holds r' rest /\ br_buffer r' = out /\ (out = [] -> rest = []).
Proof.
  intros Hs Hc (tail & Ht & ->) Hf. unfold br_fill_buf in Hf.
  destruct (br_buffer r) as [|b l] eqn:Hb.
  - destruct (range_reader_read s (br_inner r) capacity) as [i [o|e]] eqn:Hr; simplify_eq.
    apply (holds_read _ (range_reader_holds Hs) _ tail) in Hr as (t' & -> & Ht' & _ & Hnil);
      [|done|lia]. simpl. split_and!; [by exists t'|done|by intros ->; apply Hnil].
  - simplify_eq. split_and!; [by exists tail; rewrite Hb|done|done].
Qed.

Lemma br_consume_holds r out rest n :
  br_holds r (out ++ rest) -> n = Z.of_nat (length out) -> (length out <= length (br_buffer r))%nat ->
  br_holds (br_consume r n) rest.
Proof.
  intros (tail & Ht & E) -> Hl. exists tail. split; [done|]. simpl. rewrite Nat2Z.id.
  apply (f_equal (drop (length out))) in E.
  rewrite drop_app_length, drop_app_le in E by lia. done.
Qed.

Lemma buf_reader_holds capacity :
  represents s bs -> 0 < capacity ->
  @holds_with _ (@bufread_read _ (buf_reader_instance s capacity)) br_holds.
Proof.
  intros Hs Hc. split. intros r rest n r' out Hh Hn Hr. cbn in Hr. unfold br_read in Hr.
  assert (Htake : forall r1, br_holds r1 rest -> (br_buffer r1 = [] -> rest = []) ->
    (br_consume r1 (Z.of_nat (length (take (Z.to_nat n) (br_buffer r1)))),
     Ok (E := io_error) (take (Z.to_nat n) (br_buffer r1))) = (r', Ok out) ->
    exists rest', rest = out ++ rest' /\ br_holds r' rest' /\ Z.of_nat (length out) <= n
      /\ (0 < n -> out = [] -> rest = [])).
  { intros r1 (tail & Ht & ->) Hnil [= <- <-].
    exists (drop (Z.to_nat n) (br_buffer r1) ++ tail). split_and!.
    - by rewrite app_assoc, take_drop.
    - apply br_consume_holds with (take (Z.to_nat n) (br_buffer r1)); [|done|rewrite length_take; lia].
      exists tail. split; [done|]. by rewrite app_assoc, take_drop.
    - rewrite length_take. lia.
    - intros Hpos Ho. apply Hnil. destruct (br_buffer r1) as [|b l]; [done|].
      apply (f_equal length) in Ho. rewrite length_take in Ho. simpl in Ho. lia. }
  destruct (br_buffer r) as [|b l] eqn:Hb.
  - destruct (Z.leb_spec capacity n).
    + destruct (range_reader_read s (br_inner r) n) as [i [o|e]] eqn:Hrr; simplify_eq.
      destruct Hh as (tail & Ht & ->). rewrite Hb. simpl.
      apply (holds_read _ (range_reader_holds Hs) _ tail) in Hrr as (t' & -> & Ht' & Hlen & Hnil);
        [|done|lia]. exists t'. split_and!; [done|by exists t'|done|done].
    + destruct (br_fill_buf s capacity r) as [r1 [buf|e]] eqn:Hf; [|done].
      apply (br_fill_holds capacity r rest) in Hf as (Hh1 & <- & Hnil); [|done..].
      by apply (Htake r1).
  - rewrite <- Hb in Hr. apply (Htake r); [done|by rewrite Hb|done].
Qed.

Lemma br_fill_infallible capacity r rest :
  reliable s bs -> 0 <= capacity -> br_holds r rest ->
  exists r' out, br_fill_buf s capacity r = (r', Ok out).
Proof.
  intros Hs Hc (tail & Ht & _). unfold br_fill_buf. destruct (br_buffer r); [|by do 2 eexists].
  destruct (range_reader_infallible Hs (br_inner r) tail capacity Ht Hc) as (i & o & Hr).
  cbn in Hr. rewrite Hr. by do 2 eexists.
Qed.

Lemma buf_reader_infallible capacity :
  reliable s bs -> 0 <= capacity ->
  @infallible _ (@bufread_read _ (buf_reader_instance s capacity)) br_holds.
Proof.
  intros Hs Hc r rest n Hh Hn. cbn. unfold br_read.
  destruct (br_buffer r) as [|b l] eqn:Hb; [|by do 2 eexists].
  destruct (Z.leb_spec capacity n).
  - destruct Hh as (tail & Ht & _).
    destruct (range_reader_infallible Hs (br_inner r) tail n Ht Hn) as (i & o & Hr).
    cbn in Hr. rewrite Hr. by do 2 eexists.
  - destruct (br_fill_infallible capacity r rest Hs Hc Hh) as (i & o & ->). by do 2 eexists.
Qed.
End RangeReaderLemmas.

Section CopyLemmas.
Context `{!Sha256} {R W : Type} `{Read R} `{Write W}.
Context (holds : R -> list byte -> Prop) (took : W -> list byte -> W -> Prop).

(** What is left to copy, and what was. *)
Definition copying (rest0 : list byte) (w0 : W) (st : CopyState R W) : Prop :=
  exists rest, holds (cp_source st) rest /\ rest0 = cp_bytes st ++ rest
    /\ took w0 (cp_bytes st) (cp_dest st).

Lemma copy_step_copying rest0 w0 max st st' :
  holds_with holds -> takes took -> copying rest0 w0 st ->
  copy_step max st = Some (Ok (Continue st')) ->
  uninterrupted holds ->
  copying rest0 w0 st' /\ (length (cp_bytes st) < length (cp_bytes st'))%nat
  /\ Z.of_nat (length (cp_bytes st')) <= max.
Proof.
  intros Hr Hw (rest & Hh & -> & Hc) Hs Hni. unfold copy_step in Hs. cbv zeta in Hs.
  destruct (io_read_into (cp_source st) _) as [src read] eqn:Hrd.
  assert (Hlim : 0 <= Z.min (u64_saturating_add (u64_saturating_sub max
    (Z.of_nat (length (cp_bytes st)))) 1) COPY_BUFFER_BYTES)
    by (unfold u64_saturating_add, u64_saturating_sub, u64_max, COPY_BUFFER_BYTES; lia).
  destruct read as [[|b chunk]|[]]; try done; [|by exfalso; eapply Hni].
  apply (holds_read _ Hr _ rest) in Hrd as (rest' & -> & Hh' & _ & _); [|done|done].
  destruct (u64_checked_add _ _) as [next|] eqn:Hn; [|done]. cbn [ok_or] in Hs.
  apply u64_checked_add_Some in Hn as [-> Hn]. case_match eqn:Hlt; [done|]. breflect.
  destruct (write_all _ _) as [d [[]|m]] eqn:Hwr; [|done]. cbn [map_err] in Hs. simplify_eq.
  unfold copying. cbn [cp_source cp_dest cp_bytes]. rewrite length_app.
  split; [|simpl in *; lia]. exists rest'. split_and!; [done|by rewrite <- app_assoc|].
  by eapply (takes_more _ Hw).
Qed.

(** What is copied is what the reader held, all of it, within the cap. *)
Lemma copy_bounded_sound r rest w max w' n h :
  holds_with holds -> takes took -> holds r rest ->
  uninterrupted holds ->
  0 <= max ->
  copy_bounded r w max = Some (Ok (w', (n, h))) ->
  n = Z.of_nat (length rest) /\ h = hex_sha256 rest /\ n <= max
  /\ took w rest w'.
Proof.
  intros Hr Hw Hh Hni Hm. unfold copy_bounded.
  apply (run_loop_invariant _
    (fun st => copying rest w st /\ Z.of_nat (length (cp_bytes st)) <= max)
    (fun out => out.2.1 = Z.of_nat (length rest) /\ out.2.2 = hex_sha256 rest /\ out.2.1 <= max
       /\ took w rest out.1)).
  - intros st st' [Hc Hl] Hs. destruct (copy_step_copying _ _ _ _ _ Hr Hw Hc Hs Hni) as (? & _ & ?).
    done.
  - intros st [d [m k]] [(rest' & Hh' & -> & Hc) Hl] Hs. unfold copy_step in Hs. cbv zeta in Hs.
    destruct (io_read_into (cp_source st) _) as [src read] eqn:Hrd.
    destruct read as [[|b chunk]|[]]; try done.
    + simplify_eq. simpl.
      apply (holds_read _ Hr _ rest') in Hrd as (rest'' & -> & _ & _ & Hnil); [|done|].
      2: { unfold u64_saturating_add, u64_saturating_sub, u64_max, COPY_BUFFER_BYTES. lia. }
      assert (rest'' = []) as ->.
      { apply Hnil; [|done].
        unfold u64_saturating_add, u64_saturating_sub, u64_max, COPY_BUFFER_BYTES. lia. }
      by rewrite app_nil_r.
    + by repeat case_match.
  - split; [|simpl; lia]. exists rest. split_and!; [done|done|apply (takes_none _ Hw)].
Qed.

Lemma copy_bounded_total r rest w max :
  holds_with holds -> takes took -> holds r rest ->
  uninterrupted holds ->
  0 <= max -> exists out, copy_bounded r w max = Some out.
Proof.
  intros Hr Hw Hh Hni Hm. unfold copy_bounded.
  apply (run_loop_total _
    (fun st => copying rest w st /\ Z.of_nat (length (cp_bytes st)) <= max)
    (fun st => Z.to_nat (max - Z.of_nat (length (cp_bytes st))))).
  - intros st _. unfold copy_step. by repeat case_match.
  - intros st st' [Hc Hl] Hs.
    destruct (copy_step_copying _ _ _ _ _ Hr Hw Hc Hs Hni) as (? & ? & ?). split; [done|lia].
  - split; [|simpl; lia]. exists rest. split_and!; [done|done|apply (takes_none _ Hw)].
  - simpl. lia.
Qed.

Lemma copy_bounded_complete r rest w max :
  holds_with holds -> infallible holds -> takes took ->
  (forall w bytes, exists w', write_all w bytes = (w', Ok ())) -> holds r rest ->
  Z.of_nat (length rest) <= max <= u64_max ->
  exists w', copy_bounded r w max = Some (Ok (w', (Z.of_nat (length rest), hex_sha256 rest))).
Proof.
  intros Hr Hf Hw Hwf Hh Hm. pose proof (infallible_uninterrupted _ Hf) as Hni.
  destruct (copy_bounded_total r rest w max Hr Hw Hh Hni ltac:(lia)) as [[[w' [n h]]|e] Hc].
  { pose proof Hc as Hs. apply (copy_bounded_sound r rest) in Hs as (-> & -> & _); [|done..|lia].
    by exists w'. }
  exfalso. apply run_loop_steps in Hc as (st & Hsteps & Hlast).
  assert (copying rest w st) as (rest' & Hh' & -> & _).
  { revert Hsteps. apply (rtc_preserves _ (copying rest w)).
    - intros x y Hx Hxy. by eapply (copy_step_copying rest w max x y).
    - exists rest. split_and!; [done|done|apply (takes_none _ Hw)]. }
  rewrite length_app in Hm. unfold copy_step in Hlast. cbv zeta in Hlast.
  destruct (Hf (cp_source st) rest' (Z.min (u64_saturating_add (u64_saturating_sub max
    (Z.of_nat (length (cp_bytes st)))) 1) COPY_BUFFER_BYTES) Hh') as (r' & out & Hrd).
  { unfold u64_saturating_add, u64_saturating_sub, u64_max, COPY_BUFFER_BYTES. lia. }
  rewrite Hrd in Hlast. destruct out as [|b out]; [done|].
  apply (holds_read _ Hr _ rest') in Hrd as (rest'' & -> & _ & _ & _); [|done|].
  2: { unfold u64_saturating_add, u64_saturating_sub, u64_max, COPY_BUFFER_BYTES. lia. }
  rewrite length_app in Hm. rewrite u64_checked_add_le in Hlast by lia. cbn [ok_or] in Hlast.
  rewrite (proj2 (Z.ltb_ge _ _)) in Hlast by lia.
  destruct (Hwf (cp_dest st) (b :: out)) as [w' Hwr]. by rewrite Hwr in Hlast.
Qed.
End CopyLemmas.

Lemma range_reader_uninterrupted {S} `{Source S} (s : S) holds :
  @uninterrupted _ (range_reader_instance s) holds.
Proof.
  intros r rest n r' _ _ Hr. cbn in Hr. unfold range_reader_read in Hr.
  destruct (range_read s r n) as [? [?|?]]; simplify_eq.
Qed.
