(* ===== verification/Ir.v ===== *)
(** * The archive representation shared by readers and jail ([ir.rs])

    The ZIP interpretation profiles, the extra-field and source-range evidence
    of a member, and the coverings of a ZIP source: only the parts of [ir.rs]
    the components modelled here exchange. *)

From S2P Require Import Prelude Snapshot.
Local Open Scope Z_scope.

Inductive ZipInterpretationProfile : Type :=
  | StrictAsciiV1 | StrictAsciiV2 | PortableUtf8V1 | WheelUtf8V1 | Zip64StrictAsciiV1.
#[export] Instance ZipInterpretationProfile_eq_dec : EqDecision ZipInterpretationProfile.
Proof. solve_decision. Defined.

(** [ZipInterpretationProfile::id]. *)
Definition profile_id (p : ZipInterpretationProfile) : string :=
  match p with
  | StrictAsciiV1 => "sealr.profile.zip.strict-ascii.v1"
  | StrictAsciiV2 => "sealr.profile.zip.strict-ascii.v2"
  | PortableUtf8V1 => "sealr.profile.zip.portable-utf8.v1"
  | WheelUtf8V1 => "sealr.profile.zip.wheel-utf8.v1"
  | Zip64StrictAsciiV1 => "sealr.profile.zip64.strict-ascii.v1"
  end.

Inductive NormalizationAction : Type :=
  | StripDirectoryTrailingSlash
  | DropDotComponent (component_index : Z).
#[export] Instance NormalizationAction_eq_dec : EqDecision NormalizationAction.
Proof. solve_decision. Defined.

(** ** Extra fields *)

Inductive ExtraSite : Type := Local | Central.
Inductive ExtraDisposition : Type := Semantic | Ignored | Denied.

Record ExtraFieldRecord : Type := {
  site : ExtraSite;
  id : Z;
  header_range : ByteRange;
  data_range : ByteRange;
  disposition : ExtraDisposition
}.

Definition DENIED_EXTRA_ZIP64 : Z := 0x0001.
Definition DENIED_EXTRA_UNICODE_PATH : Z := 0x7075.
Definition is_denied_extra_id (id : Z) : bool :=
  (id =? DENIED_EXTRA_ZIP64) || (id =? DENIED_EXTRA_UNICODE_PATH).

(** ** Source ranges of a member and of an archive *)

Record MemberSourceRanges : Type := {
  local_header : ByteRange;
  compressed_payload : ByteRange;
  data_descriptor : option ByteRange;
  central_header : ByteRange
}.

Record ArchiveCovering : Type := {
  local_records : ByteRange;
  central_directory : ByteRange;
  eocd : ByteRange;
  comment : ByteRange
}.

(** [ArchiveCovering::from_zip32]. *)
Definition from_zip32 (cd_offset cd_size eocd_offset comment_len : Z) : ArchiveCovering :=
  {| local_records := mkrange 0 cd_offset;
     central_directory := mkrange cd_offset cd_size;
     eocd := mkrange eocd_offset 22;
     comment := mkrange (eocd_offset + 22) comment_len |}.

Record Zip64ArchiveCovering : Type := {
  z64_local_records : ByteRange;
  z64_central_directory : ByteRange;
  z64_eocd64 : option ByteRange;
  z64_locator : option ByteRange;
  z64_eocd : ByteRange;
  z64_comment : ByteRange
}.

(** [Zip64ArchiveCovering::from_parsed]. *)
Definition from_parsed (cd_offset cd_size : Z) (zip64_eocd zip64_locator : option ByteRange)
    (eocd_offset comment_len : Z) : Zip64ArchiveCovering :=
  {| z64_local_records := mkrange 0 cd_offset;
     z64_central_directory := mkrange cd_offset cd_size;
     z64_eocd64 := zip64_eocd;
     z64_locator := zip64_locator;
     z64_eocd := mkrange eocd_offset 22;
     z64_comment := mkrange (eocd_offset + 22) comment_len |}.
