(* ===== verification/Layout.v ===== *)
(** * Byte ranges laid end to end

    The layout vocabulary the archive readers share: a list of ranges that
    starts at one offset, leaves no gap and ends at another.  Such a layout
    tiles its span in the sense of [interval.rs]. *)

From S2P Require Import Prelude Findings Interval Snapshot.
Local Open Scope Z_scope.

Definition interval_of (r : ByteRange) : CheckedInterval :=
  {| start := offset r; end_ := offset r + len r |}.
Definition range_empty (r : ByteRange) : bool := len r =? 0.
(** The nonempty ranges, as intervals. *)
Definition intervals (rs : list ByteRange) : list CheckedInterval :=
  map interval_of (List.filter (fun r => negb (range_empty r)) rs).

Fixpoint adjacent (s : Z) (rs : list ByteRange) (e : Z) : Prop :=
  match rs with
  | [] => s = e
  | r :: rs => offset r = s /\ 0 <= len r /\ adjacent (s + len r) rs e
  end.

Lemma adjacent_app s rs1 rs2 e :
  adjacent s (rs1 ++ rs2) e <-> exists m, adjacent s rs1 m /\ adjacent m rs2 e.
Proof.
  revert s. induction rs1 as [|r rs1 IH]; intros s; simpl.
  - split; [eauto|by intros (? & -> & ?)].
  - rewrite IH. clear. firstorder.
Qed.

Lemma adjacent_le s rs e : adjacent s rs e -> s <= e.
Proof.
  revert s. induction rs as [|r rs IH]; intros s; simpl; [lia|].
  intros (_ & ? & ?%IH). lia.
Qed.

(** A list of nonempty intervals that is already a chain tiles its span. *)
Lemma chain_tiles s parts e :
  chain s (enumerate parts) e -> Forall (fun p => start p < end_ p) parts ->
  tiles {| start := s; end_ := e |} parts.
Proof.
  intros Hc Hne.
  assert (Hel : forall i p, (i, p) ∈ enumerate parts <-> parts !! i = Some p)
    by (intros i p; unfold enumerate; rewrite elem_of_enumerate, Nat.sub_0_r; intuition lia).
  assert (Hs : Forall (fun p => start p < end_ p) (map snd (enumerate parts)))
    by (unfold enumerate; by rewrite enumerate_snd).
  destruct (chain_covers _ _ _ 0 Hc Hs) as (_ & _ & Hin & _). split.
  - intros p Hp. pose proof (proj1 (Forall_forall _ _) Hne p Hp). simpl.
    apply list_elem_of_lookup in Hp as [i Hi]. apply Hel, Hin in Hi. simpl in *. lia.
  - intros x Hx. destruct (chain_covers _ _ _ x Hc Hs) as (_ & Hex & _ & Hu).
    destruct (Hex Hx) as (i & p & Hp & Hcov). exists i, p.
    split_and!; [by apply Hel|done|]. intros j q Hq%Hel Hcq.
    eapply Hu; [apply NoDup_enumerate|done..].
Qed.

Lemma adjacent_chain n s rs e :
  adjacent s rs e -> chain s (enumerate_from n (intervals rs)) e.
Proof.
  unfold intervals, range_empty. revert n s. induction rs as [|r rs IH]; intros n s; simpl; [done|].
  intros (Ho & Hl & Ha). destruct (Z.eqb_spec (len r) 0) as [Hz|]; simpl.
  - apply IH. by rewrite Hz, Z.add_0_r in Ha.
  - split; [done|]. rewrite Ho. by apply IH.
Qed.

Lemma intervals_nonempty s rs e :
  adjacent s rs e -> Forall (fun p => start p < end_ p) (intervals rs).
Proof.
  unfold intervals, range_empty. revert s. induction rs as [|r rs IH]; intros s; simpl; [constructor|].
  intros (_ & Hl & Ha). destruct (Z.eqb_spec (len r) 0); simpl; [by eapply IH|].
  constructor; [simpl; lia|by eapply IH].
Qed.

(** Ranges laid end to end tile their span. *)
Lemma adjacent_tiles s rs e :
  adjacent s rs e -> tiles {| start := s; end_ := e |} (intervals rs).
Proof.
  intros Ha. apply chain_tiles; [by apply adjacent_chain|by eapply intervals_nonempty].
Qed.

(** ** The order of the parts is irrelevant *)

Lemma unique_index_count {A} (P : A -> Prop) `{forall x, Decision (P x)} (l : list A) :
  (exists i p, l !! i = Some p /\ P p /\ forall j q, l !! j = Some q -> P q -> j = i)
  <-> length (filter P l) = 1%nat.
Proof.
  assert (Hnone : forall l, length (filter P l) = 0%nat <-> forall j q, l !! j = Some q -> ~ P q).
  { clear l. intros l. rewrite length_zero_iff_nil. split.
    - intros Hnil j q Hj Hq. apply list_elem_of_lookup_2 in Hj.
      assert (q ∈ filter P l) as Hin by (by apply list_elem_of_filter).
      rewrite Hnil in Hin. by apply elem_of_nil in Hin.
    - intros Hno. destruct (filter P l) as [|q l'] eqn:E; [done|exfalso].
      assert (q ∈ filter P l) as [Hq Hin]%list_elem_of_filter by (rewrite E; left).
      apply list_elem_of_lookup in Hin as [j Hj]. by apply (Hno j q). }
  induction l as [|a l IH]; [split; [by intros (i & p & Hi & _)|done]|].
  rewrite filter_cons. destruct (decide (P a)) as [Ha|Ha]; simpl.
  - split.
    + intros (i & p & Hi & Hp & Hu). f_equal. apply Hnone. intros j q Hj Hq.
      assert (0%nat = i) as <- by (by apply (Hu 0%nat a)).
      by specialize (Hu (Datatypes.S j) q Hj Hq).
    + intros [= Hz]. rewrite Hnone in Hz. exists 0%nat, a. split_and!; [done|done|].
      intros [|j] q Hj Hq; [done|]. exfalso. by apply (Hz j q).
  - rewrite <- IH. split.
    + intros ([|i] & p & Hi & Hp & Hu); simpl in Hi; [by simplify_eq|].
      exists i, p. split_and!; [done|done|]. intros j q Hj Hq.
      specialize (Hu (Datatypes.S j) q Hj Hq). lia.
    + intros (i & p & Hi & Hp & Hu). exists (Datatypes.S i), p. split_and!; [done|done|].
      intros [|j] q Hj Hq; simpl in Hj; [by simplify_eq|]. f_equal. by eapply Hu.
Qed.

#[export] Instance covers_dec p x : Decision (covers p x).
Proof. unfold covers. apply _. Defined.

Lemma tiles_perm outer parts parts' :
  parts ≡ₚ parts' -> tiles outer parts -> tiles outer parts'.
Proof.
  intros Hp [Hin Hex]. split.
  - intros p Hpin. apply Hin. by rewrite Hp.
  - intros x Hx. specialize (Hex x Hx).
    rewrite (unique_index_count (fun p => covers p x)) in Hex |- *.
    by rewrite <- Hp.
Qed.

#[export] Instance intervals_perm : Proper ((≡ₚ) ==> (≡ₚ)) intervals.
Proof.
  intros rs rs' Hp. unfold intervals. apply Permutation_map.
  induction Hp as [|x l l' Hp IH|x y l|l1 l2 l3 _ IH1 _ IH2]; simpl.
  - done.
  - case_match; [by constructor|done].
  - repeat case_match; solve [apply perm_swap | reflexivity].
  - by rewrite IH1.
Qed.

(** Ranges that can be laid end to end tile their span in any order. *)
Lemma adjacent_perm_tiles s rs rs' e :
  adjacent s rs e -> rs ≡ₚ rs' -> tiles {| start := s; end_ := e |} (intervals rs').
Proof.
  intros Ha Hp. apply (tiles_perm _ (intervals rs)); [by rewrite Hp|by apply adjacent_tiles].
Qed.

(** ** Sorting a tiling *)

(** Intervals laid end to end. *)
Fixpoint end_to_end (s : Z) (parts : list CheckedInterval) (e : Z) : Prop :=
  match parts with
  | [] => s = e
  | p :: parts => start p = s /\ start p < end_ p /\ end_to_end (end_ p) parts e
  end.

Lemma end_to_end_chain n s parts e :
  end_to_end s parts e <->
  chain s (enumerate_from n parts) e /\ Forall (fun p => start p < end_ p) parts.
Proof.
  revert n s. induction parts as [|p parts IH]; intros n s; simpl.
  - split; [by split|by intros [? _]].
  - rewrite (IH (Datatypes.S n)), Forall_cons. tauto.
Qed.

Lemma end_to_end_tiles s parts e :
  end_to_end s parts e -> tiles {| start := s; end_ := e |} parts.
Proof.
  intros H. apply (end_to_end_chain 0) in H as [Hc Hf]. by apply chain_tiles.
Qed.

(** A chain of indexed intervals, without its indices. *)
Lemma chain_end_to_end s l e :
  chain s l e -> Forall (fun p => start p < end_ p) (map snd l) -> end_to_end s (map snd l) e.
Proof.
  revert s. induction l as [|[i p] l IH]; intros s; simpl; [done|].
  intros [Hs Hc] Hf. apply Forall_cons in Hf as [Hp Hf]. by split_and!; [|done|apply IH].
Qed.

(** A tiling, sorted, is laid end to end. *)
Lemma tiles_end_to_end outer parts :
  wf outer -> parts <> [] -> tiles outer parts ->
  exists ps, ps ≡ₚ parts /\ end_to_end (start outer) ps (end_ outer).
Proof.
  intros Hw Hne Ht. exists (map snd (ordered_parts parts)).
  apply tiles_iff_chain in Ht as [Hf Hc]; [|done|done].
  assert (Hp : map snd (ordered_parts parts) ≡ₚ parts) by apply ordered_perm.
  split; [done|]. apply chain_end_to_end; [done|]. rewrite Hp.
  eapply Forall_impl; [exact Hf|]. by intros p (? & _ & _).
Qed.
