(* ===== verification/ByteFields.v ===== *)
(** * Fixed-width little-endian fields

    A record of fixed-width fields is a list of widths and values.  [fields_bytes]
    lays the fields end to end, [fields_at] reads them one by one at a position
    of a longer source; the two agree, so a reader that checks fields through
    [le_value (range ...)] checks an encoding. *)

From S2P Require Import Prelude.
Local Open Scope Z_scope.

Lemma range_range {A} o n p m (l : list A) :
  0 <= o -> 0 <= n -> 0 <= p -> 0 <= m -> o + n <= m ->
  range o n (range p m l) = range (p + o) n l.
Proof.
  intros. unfold range. rewrite skipn_firstn_comm, take_take, drop_drop.
  rewrite Z2Nat.inj_add by lia. f_equal. lia.
Qed.

Lemma range_full {A} (l : list A) n : n = Z.of_nat (length l) -> range 0 n l = l.
Proof. intros ->. unfold range. rewrite Nat2Z.id. simpl. apply firstn_all. Qed.

Lemma range_app_l {A} o n (l1 l2 : list A) :
  0 <= o -> 0 <= n -> o + n <= Z.of_nat (length l1) -> range o n (l1 ++ l2) = range o n l1.
Proof.
  intros. unfold range. rewrite drop_app, take_app, length_drop.
  replace (Z.to_nat n - _)%nat with 0%nat by lia. by rewrite app_nil_r.
Qed.

Lemma range_app_r {A} o n (l1 l2 : list A) :
  Z.of_nat (length l1) <= o -> range o n (l1 ++ l2) = range (o - Z.of_nat (length l1)) n l2.
Proof.
  intros. unfold range. rewrite drop_app, (drop_ge l1) by lia. simpl. do 2 f_equal. lia.
Qed.

Lemma le_value_eq k l v :
  length l = k -> le_value l = v -> l = le_bytes k v.
Proof. intros <- <-. symmetry. apply le_bytes_le_value. Qed.

Lemma le_value_inj l1 l2 : length l1 = length l2 -> le_value l1 = le_value l2 -> l1 = l2.
Proof.
  intros Hl Hv. rewrite <- (le_bytes_le_value l1), <- (le_bytes_le_value l2). congruence.
Qed.

(** Reading a field back and forth. *)
Lemma le_value_range_iff k v o (l : list byte) :
  0 <= o -> o + Z.of_nat k <= Z.of_nat (length l) -> 0 <= v < 256 ^ Z.of_nat k ->
  le_value (range o (Z.of_nat k) l) = v <-> range o (Z.of_nat k) l = le_bytes k v.
Proof.
  intros Ho Hl Hv. split.
  - apply le_value_eq. rewrite length_range by lia. lia.
  - intros ->. by apply le_value_le_bytes.
Qed.

Definition field : Type := nat * Z.
Definition field_ok (f : field) : Prop := 0 <= f.2 < 256 ^ Z.of_nat f.1.
Definition fields_bytes (fs : list field) : list byte := concat (map (fun f => le_bytes f.1 f.2) fs).
Fixpoint width (fs : list field) : Z :=
  match fs with [] => 0 | f :: fs => Z.of_nat f.1 + width fs end.
Fixpoint fields_at (pos : Z) (fs : list field) (l : list byte) : Prop :=
  match fs with
  | [] => True
  | f :: fs => le_value (range pos (Z.of_nat f.1) l) = f.2
               /\ fields_at (pos + Z.of_nat f.1) fs l
  end.

Lemma width_nonneg fs : 0 <= width fs.
Proof. induction fs; simpl; lia. Qed.

Lemma length_fields_bytes fs : Z.of_nat (length (fields_bytes fs)) = width fs.
Proof.
  unfold fields_bytes. induction fs as [|f fs IH]; [done|]. cbn [map concat width].
  rewrite length_app, length_le_bytes. lia.
Qed.

Lemma fields_bytes_at pos fs l :
  0 <= pos -> pos + width fs <= Z.of_nat (length l) -> Forall field_ok fs ->
  range pos (width fs) l = fields_bytes fs <-> fields_at pos fs l.
Proof.
  revert pos. induction fs as [|[k v] fs IH]; intros pos Hp Hl Hf; [done|].
  pose proof (width_nonneg fs). apply Forall_cons in Hf as [Hv Hf].
  cbn [width fields_at fst snd] in *. unfold fields_bytes. cbn [map concat]. fold (fields_bytes fs).
  rewrite range_app by lia. rewrite <- IH by (done || lia).
  rewrite le_value_range_iff by (done || lia). split.
  - intros He. apply app_inj_1 in He; [done|].
    rewrite length_range, length_le_bytes by lia. simpl. lia.
  - intros [-> ->]. done.
Qed.

(** The values read are always in range. *)
Lemma field_ok_range k o (l : list byte) :
  0 <= o -> o + Z.of_nat k <= Z.of_nat (length l) ->
  field_ok (k, le_value (range o (Z.of_nat k) l)).
Proof.
  intros. unfold field_ok. simpl. pose proof (le_value_range (range o (Z.of_nat k) l)) as Hr.
  rewrite length_range in Hr by lia. by rewrite Z2Nat.id in Hr by lia.
Qed.

Lemma le_value_bound n k o (l : list byte) :
  n = Z.of_nat k -> 0 <= le_value (range o n l) < 256 ^ n.
Proof.
  intros ->. pose proof (le_value_range (range o (Z.of_nat k) l)) as Hr. split; [lia|].
  assert (Z.of_nat (length (range o (Z.of_nat k) l)) <= Z.of_nat k).
  { unfold range. rewrite length_take. lia. }
  pose proof (Z.pow_le_mono_r 256 _ _ ltac:(lia) H). lia.
Qed.

(** A range is a concatenation exactly when its parts are. *)
Lemma range_app_iff {A} off n m (l a b : list A) :
  0 <= off -> 0 <= n -> 0 <= m -> off + n <= Z.of_nat (length l) ->
  Z.of_nat (length a) = n ->
  range off (n + m) l = a ++ b <-> range off n l = a /\ range (off + n) m l = b.
Proof.
  intros Ho Hn Hm Hl Ha. rewrite range_app by done. split.
  - apply app_inj_1. rewrite length_range by lia. lia.
  - by intros [-> ->].
Qed.

(** Turns a conjunction [fields_at pos fs l] into one equation per field, at
    [pos + k] for a literal [k], through the reader's names for the reads. *)
Ltac literal_offset pos p :=
  match eval pattern pos in p with
  | ?f _ => eval vm_compute in (f 0)
  end.
Ltac split_fields pos H :=
  cbn [fields_at fst snd] in H;
  repeat match type of H with
  | True => clear H
  | le_value (range ?p ?n ?l) = ?v /\ _ =>
      let k := literal_offset pos p in
      let w := eval vm_compute in n in
      let Hf := fresh "Hf" in
      destruct H as [Hf H];
      replace p with (pos + k) in Hf by lia;
      change n with w in Hf
  end.
(** Proves a field from the read that defines its value. *)
Ltac field_read := cbn [fst snd]; f_equal; f_equal; lia.
