(* ===== verification/ZipFields.v ===== *)
(** * The fields of a ZIP record ([zip.rs])

    Everything [zip.rs] decides about bytes already read: the ZIP64 values of
    a central or local header, extra fields, general-purpose flags, record
    signatures inside metadata, entry types and member names. *)

From S2P Require Import Prelude Utf8 Findings Snapshot Ir.
From stdpp Require Import gmap.
Local Open Scope Z_scope.
Local Open Scope rust_scope.

Definition EOCD_SIG : Z := 0x06054b50.
Definition CDH_SIG : Z := 0x02014b50.
Definition LFH_SIG : Z := 0x04034b50.
Definition DATA_DESCRIPTOR_SIG : Z := 0x08074b50.
Definition ZIP64_EOCD_SIG : Z := 0x06064b50.
Definition ZIP64_LOCATOR_SIG : Z := 0x07064b50.
Definition EOCD_MIN : Z := 22.
Definition ZIP64_EXTRA_ID : Z := 0x0001.
Definition ZIP64_U32_SENTINEL : Z := u32_max.

(** [uN::from_le_bytes(data[pos..pos + N / 8].try_into().unwrap())], at
    positions the code has checked. *)
Definition u16_at (data : list byte) (pos : Z) : Z := le_value (range pos 2 data).
Definition u32_at (data : list byte) (pos : Z) : Z := le_value (range pos 4 data).
Definition u64_at (data : list byte) (pos : Z) : Z := le_value (range pos 8 data).
(** [{:04x}] of a [u16]. *)
Definition fmt_hex4 (z : Z) : string := fmt_hex2 (z / 256) +++ fmt_hex2 (z mod 256).

(** ** ZIP64 values *)

Record Zip64CentralValues : Type := {
  uncompressed_size : Z;
  compressed_size : Z;
  local_header_offset : Z;
  presence_mask : Z
}.
#[export] Instance Zip64CentralValues_eq_dec : EqDecision Zip64CentralValues.
Proof. solve_decision. Defined.

Definition is_offset_only_zip64_member (values : Zip64CentralValues)
    (legacy_uncompressed_size legacy_compressed_size legacy_local_header_offset : Z)
    (has_global_end_pair : bool) (version_needed method : Z) : bool :=
  let standard_shape :=
    (presence_mask values =? 4)
    && (legacy_uncompressed_size =? uncompressed_size values)
    && (legacy_compressed_size =? compressed_size values)
    && ((method =? 0) && (version_needed =? 10) || (method =? 8) && (version_needed =? 20)) in
  let go_shape :=
    (presence_mask values =? 7)
    && (legacy_uncompressed_size =? ZIP64_U32_SENTINEL)
    && (legacy_compressed_size =? ZIP64_U32_SENTINEL)
    && (version_needed =? 20) && ((method =? 0) || (method =? 8)) in
  has_global_end_pair && (standard_shape || go_shape)
  && (legacy_local_header_offset =? ZIP64_U32_SENTINEL)
  && (uncompressed_size values <? ZIP64_U32_SENTINEL)
  && (compressed_size values <? ZIP64_U32_SENTINEL)
  && (ZIP64_U32_SENTINEL <=? local_header_offset values).

Inductive Zip64ExtraResolutionError : Type :=
  | InvalidLength | MissingRequiredValue | Ambiguous | ValueMismatch | NoncanonicalLegacyValue.
#[export] Instance Zip64ExtraResolutionError_eq_dec : EqDecision Zip64ExtraResolutionError.
Proof. solve_decision. Defined.

Definition canonical_legacy_u32 (legacy resolved : Z) : bool :=
  if resolved <? u32_max then legacy =? resolved else legacy =? u32_max.
Definition canonical_zip64_end_u16 (legacy resolved : Z) : bool :=
  if resolved <? u16_max then (legacy =? resolved) || (legacy =? u16_max) else legacy =? u16_max.
Definition canonical_zip64_end_u32 (legacy resolved : Z) : bool :=
  if resolved <? u32_max then (legacy =? resolved) || (legacy =? u32_max) else legacy =? u32_max.

(** [u8::count_ones]. *)
Definition count_ones (mask : Z) : Z :=
  foldr (fun index n => Z.b2z (Z.testbit mask index) + n) 0 [0; 1; 2; 3; 4; 5; 6; 7].

(** The fold that computes [required_mask]. *)
Fixpoint required_from (index : Z) (legacy : list Z) (mask : Z) : Z :=
  match legacy with
  | [] => mask
  | value :: legacy =>
      required_from (index + 1) legacy
        (if value =? ZIP64_U32_SENTINEL then Z.lor mask (Z.shiftl 1 index) else mask)
  end.

(** The loop over the three fields under one presence mask: the resolved values
    and the final cursor, [None] where the source clears [valid]. *)
Fixpoint resolve_fields (data : list byte) (mask index cursor : Z) (legacy : list Z) :
    option (list Z * Z) :=
  match legacy with
  | [] => Some ([], cursor)
  | value :: legacy =>
      if Z.land mask (Z.shiftl 1 index) =? 0 then
        '(resolved, stop) ← resolve_fields data mask (index + 1) cursor legacy;
        Some (value :: resolved, stop)
      else
        let read := u64_at data cursor in
        if value =? ZIP64_U32_SENTINEL then
          '(resolved, stop) ← resolve_fields data mask (index + 1) (cursor + 8) legacy;
          Some (read :: resolved, stop)
        else if negb (read =? value) then None
        else
          '(resolved, stop) ← resolve_fields data mask (index + 1) (cursor + 8) legacy;
          Some (value :: resolved, stop)
  end.

(** One iteration over the presence masks. *)
Definition central_mask_step (data : list byte) (legacy : list Z) (required_mask : Z)
    (st : Z * option Zip64CentralValues) (mask : Z) : Z * option Zip64CentralValues :=
  let '(matching_masks, unique) := st in
  if negb (count_ones mask =? Z.of_nat (length data) / 8)
     || negb (Z.land mask required_mask =? required_mask)
  then st
  else
    match resolve_fields data mask 0 0 legacy with
    | Some ([uncompressed; compressed; offset], cursor) =>
        if cursor =? Z.of_nat (length data) then
          (Z.min u8_max (matching_masks + 1),
           Some {| uncompressed_size := uncompressed; compressed_size := compressed;
                   local_header_offset := offset; presence_mask := mask |})
        else st
    | _ => st
    end.

Definition presence_masks : list Z := [1; 2; 3; 4; 5; 6; 7].

(** [resolve_zip64_central_values]. *)
Definition resolve_zip64_central_values (data : list byte)
    (legacy_uncompressed_size legacy_compressed_size legacy_local_header_offset : Z) :
    result Zip64CentralValues Zip64ExtraResolutionError :=
  reject (length data =? 0)%nat || (24 <? Z.of_nat (length data))
         || negb (Z.of_nat (length data) mod 8 =? 0)
    with InvalidLength ;;
  let legacy := [legacy_uncompressed_size; legacy_compressed_size; legacy_local_header_offset] in
  let required_mask := required_from 0 legacy 0 in
  match foldl (central_mask_step data legacy required_mask) (0, None) presence_masks with
  | (matching_masks, unique) =>
      if matching_masks =? 0
      then if negb (required_mask =? 0) then Err MissingRequiredValue else Err InvalidLength
      else
        match matching_masks =? 1, unique with
        | true, Some values => Ok values
        | _, _ => Err Ambiguous
        end
  end.

(** [validate_zip64_local_values]. *)
Definition validate_zip64_local_values (data : list byte)
    (legacy_uncompressed_size legacy_compressed_size
     expected_uncompressed_size expected_compressed_size : Z) :
    result unit Zip64ExtraResolutionError :=
  reject negb (length data =? 16)%nat with InvalidLength ;;
  let uncompressed_size := u64_at data 0 in
  let compressed_size := u64_at data 8 in
  reject negb (uncompressed_size =? expected_uncompressed_size)
         || negb (compressed_size =? expected_compressed_size)
    with ValueMismatch ;;
  let forced := (legacy_uncompressed_size =? u32_max) && (legacy_compressed_size =? u32_max) in
  let canonical :=
    canonical_legacy_u32 legacy_uncompressed_size uncompressed_size
    && canonical_legacy_u32 legacy_compressed_size compressed_size in
  if forced || canonical then Ok () else Err NoncanonicalLegacyValue.

(** [validate_zip64_streaming_local_values]. *)
Definition validate_zip64_streaming_local_values (data : list byte)
    (legacy_uncompressed_size legacy_compressed_size
     expected_uncompressed_size expected_compressed_size : Z) :
    result unit Zip64ExtraResolutionError :=
  reject negb (length data =? 16)%nat with InvalidLength ;;
  let uncompressed_size := u64_at data 0 in
  let compressed_size := u64_at data 8 in
  if (uncompressed_size =? expected_uncompressed_size)
     && (compressed_size =? expected_compressed_size)
  then
    validate_zip64_local_values data legacy_uncompressed_size legacy_compressed_size
      expected_uncompressed_size expected_compressed_size
  else
    let cpython_placeholders :=
      (legacy_uncompressed_size =? u32_max) && (legacy_compressed_size =? u32_max)
      && (uncompressed_size =? 0) && (compressed_size =? 0) in
    let zip_rs_placeholders :=
      (legacy_uncompressed_size =? 0) && (legacy_compressed_size =? 0)
      && (uncompressed_size =? u64_max) && (compressed_size =? u64_max) in
    if cpython_placeholders || zip_rs_placeholders then Ok () else Err ValueMismatch.

(** [zip64_extra_resolution_finding]. *)
Definition zip64_extra_resolution_finding (e : Zip64ExtraResolutionError) (context : string)
    (name : str) : Finding :=
  let detail :=
    match e with
    | InvalidLength => "ZIP64 extra field has an invalid length in " +++ context
    | MissingRequiredValue => "ZIP64 extra field omits a sentinel-selected value in " +++ context
    | Ambiguous => "ZIP64 extra field has multiple interpretations in " +++ context
    | ValueMismatch =>
        "ZIP64 extra field disagrees with resolved member values in " +++ context
    | NoncanonicalLegacyValue => "ZIP64 legacy and extra values are not canonical in " +++ context
    end in
  on (error ZipDiffC5Zip64 detail) name.

(** ** Extra fields *)

(** The loop state of [classify_extra_fields]. *)
Record ExtraState : Type := {
  ex_position : Z;
  ex_ids : gset Z;
  ex_records : list ExtraFieldRecord
}.

(** The profiles that admit no extra field at all. *)
Definition denies_extra_fields (profile : ZipInterpretationProfile) : bool :=
  match profile with
  | StrictAsciiV2 | PortableUtf8V1 | WheelUtf8V1 => true
  | StrictAsciiV1 | Zip64StrictAsciiV1 => false
  end.

(** One iteration of [classify_extra_fields]. *)
Definition classify_extra_step (extra : list byte) (extra_start : Z) (site : ExtraSite)
    (context : string) (name : list byte) (profile : ZipInterpretationProfile)
    (st : ExtraState) : exec (control ExtraState (list ExtraFieldRecord)) Finding :=
  let extra_len := Z.of_nat (length extra) in
  let position := ex_position st in
  if extra_len <=? position then Some (Ok (Return (ex_records st)))
  else
    reject! extra_len - position <? 4
      with on (error ZipExtra ("truncated extra-field header in " +++ context))
              (from_utf8_lossy name) ;;
    let id := u16_at extra position in
    let size := u16_at extra (position + 2) in
    let* stop := ok_or (u64_checked_add position 4 ≫= fun start => u64_checked_add start size)
      (on (error ZipExtra "extra-field length overflow") (from_utf8_lossy name)) in
    reject! extra_len <? stop
      with on (error ZipExtra ("extra field 0x" +++ fmt_hex4 id +++ " overflows " +++ context))
              (from_utf8_lossy name) ;;
    reject! bool_decide (id ∈ ex_ids st)
      with on (error ZipExtra ("duplicate extra field 0x" +++ fmt_hex4 id +++ " in " +++ context))
              (from_utf8_lossy name) ;;
    reject! denies_extra_fields profile
      with on (error ZipExtra ("extra field 0x" +++ fmt_hex4 id +++ " is denied by "
                 +++ profile_id profile +++ " in " +++ context))
              (from_utf8_lossy name) ;;
    reject! is_denied_extra_id id
      with on (if id =? ZIP64_EXTRA_ID
               then error ZipDiffC5Zip64 ("ZIP64 extra field in " +++ context)
               else error ZipDiffA3Name
                      ("alternate Unicode path extra field in " +++ context))
              (from_utf8_lossy name) ;;
    let header_offset := extra_start + position in
    Some (Ok (Continue
      {| ex_position := stop;
         ex_ids := {[ id ]} ∪ ex_ids st;
         ex_records := ex_records st ++
           [{| site := site; id := id;
               header_range := mkrange header_offset 4;
               data_range := mkrange (header_offset + 4) size;
               disposition := Ignored |}] |})).

(** [classify_extra_fields]; every iteration consumes at least four bytes. *)
Definition classify_extra_fields (extra : list byte) (extra_start : Z) (site : ExtraSite)
    (context : string) (name : list byte) (profile : ZipInterpretationProfile) :
    exec (list ExtraFieldRecord) Finding :=
  run_loop (classify_extra_step extra extra_start site context name profile)
    (S (length extra)) {| ex_position := 0; ex_ids := ∅; ex_records := [] |}.

Record Zip64ExtraData : Type := { zx_offset : Z; zx_len : Z }.

(** The loop state of [classify_zip64_extra_fields]. *)
Record Zip64ExtraState : Type := {
  zs_position : Z;
  zs_zip64 : option Zip64ExtraData;
  zs_records : list ExtraFieldRecord
}.

(** One iteration of [classify_zip64_extra_fields]. *)
Definition classify_zip64_step (extra : list byte) (extra_start : Z) (site : ExtraSite)
    (context : string) (name : list byte) (st : Zip64ExtraState) :
    exec (control Zip64ExtraState (list ExtraFieldRecord * option Zip64ExtraData)) Finding :=
  let extra_len := Z.of_nat (length extra) in
  let position := zs_position st in
  if extra_len <=? position then Some (Ok (Return (zs_records st, zs_zip64 st)))
  else
    reject! extra_len - position <? 4
      with on (error ZipExtra ("truncated extra-field header in " +++ context))
              (from_utf8_lossy name) ;;
    let id := u16_at extra position in
    let size := u16_at extra (position + 2) in
    let* data_offset := ok_or (u64_checked_add position 4)
      (on (error ZipExtra "extra-field offset overflow") (from_utf8_lossy name)) in
    let* stop := ok_or (u64_checked_add data_offset size)
      (on (error ZipExtra "extra-field length overflow") (from_utf8_lossy name)) in
    reject! extra_len <? stop
      with on (error ZipExtra ("extra field 0x" +++ fmt_hex4 id +++ " overflows " +++ context))
              (from_utf8_lossy name) ;;
    reject! negb (id =? ZIP64_EXTRA_ID)
      with on (error (if id =? 0x7075 then ZipDiffA3Name else ZipExtra)
                 ("extra field 0x" +++ fmt_hex4 id +++ " is denied by ZIP64 strict ASCII v1 in "
                    +++ context))
              (from_utf8_lossy name) ;;
    reject! bool_decide (is_Some (zs_zip64 st))
      with on (error ZipExtra ("duplicate ZIP64 extra field in " +++ context))
              (from_utf8_lossy name) ;;
    let* header_offset := ok_or (u64_checked_add extra_start position)
      (on (error ZipDiffC4Offset "ZIP64 extra offset overflow") (from_utf8_lossy name)) in
    let* data_start := ok_or (u64_checked_add header_offset 4)
      (on (error ZipDiffC4Offset "ZIP64 extra data offset overflow") (from_utf8_lossy name)) in
    Some (Ok (Continue
      {| zs_position := stop;
         zs_zip64 := Some {| zx_offset := data_offset; zx_len := size |};
         zs_records := zs_records st ++
           [{| site := site; id := id;
               header_range := mkrange header_offset 4;
               data_range := mkrange data_start size;
               disposition := Semantic |}] |})).

(** [classify_zip64_extra_fields]. *)
Definition classify_zip64_extra_fields (extra : list byte) (extra_start : Z) (site : ExtraSite)
    (context : string) (name : list byte) :
    exec (list ExtraFieldRecord * option Zip64ExtraData) Finding :=
  run_loop (classify_zip64_step extra extra_start site context name)
    (S (length extra)) {| zs_position := 0; zs_zip64 := None; zs_records := [] |}.

(** ** Flags *)

(** The bits a closed profile admits; the first profile and ZIP64 check flags
    elsewhere. *)
Definition allowed_flags (profile : ZipInterpretationProfile) : option Z :=
  match profile with
  | StrictAsciiV2 => Some (Z.shiftl 1 3)
  | PortableUtf8V1 => Some (Z.lor (Z.shiftl 1 3) (Z.shiftl 1 11))
  | WheelUtf8V1 => Some (Z.shiftl 1 11)
  | StrictAsciiV1 | Zip64StrictAsciiV1 => None
  end.

(** [validate_general_purpose_flags]. *)
Definition validate_general_purpose_flags (flags : Z) (profile : ZipInterpretationProfile)
    (name : list byte) : result unit Finding :=
  match allowed_flags profile with
  | None => Ok ()
  | Some allowed =>
      let denied := Z.land flags (Z.lxor u16_max allowed) in
      reject negb (denied =? 0)
        with on (error ZipFlags
                  ("general-purpose flags 0x" +++ fmt_hex4 flags +++ " contain denied bits 0x"
                     +++ fmt_hex4 denied +++ " under " +++ profile_id profile))
                (from_utf8_lossy name) ;;
      Ok ()
  end.

(** ** Record signatures inside metadata *)

(** [data.windows(4).any(|window| window == signature)]. *)
Fixpoint contains_window (window data : list byte) : bool :=
  match data with
  | [] => false
  | _ :: rest => bool_decide (take (length window) data = window) || contains_window window rest
  end.
Definition contains_signature (data : list byte) (signature : Z) : bool :=
  contains_window (le_bytes 4 signature) data.
Definition contains_stream_signature (data : list byte) : bool :=
  existsb (contains_signature data) [LFH_SIG; CDH_SIG; DATA_DESCRIPTOR_SIG].

(** [reject_structural_metadata]. *)
Definition reject_structural_metadata (data : list byte) (context : string) :
    result unit Finding :=
  reject contains_signature data ZIP64_EOCD_SIG || contains_signature data ZIP64_LOCATOR_SIG
    with error ZipDiffC5Zip64 ("ZIP64 record signature in " +++ context) ;;
  reject contains_signature data EOCD_SIG
    with error ZipDiffC2Eocd ("additional EOCD signature in " +++ context) ;;
  reject contains_stream_signature data
    with error ZipDiffC1Stream ("archive record signature in " +++ context) ;;
  Ok ().

(** ** Record signatures inside a stored payload *)

(** The inner loop over one buffer: [None] once a signature has been seen. *)
Fixpoint scan_signatures (bytes : list byte) (rolling seen : Z) : option (Z * Z) :=
  match bytes with
  | [] => Some (rolling, seen)
  | byte :: bytes =>
      let rolling := Z.lor (Z.shiftr rolling 8) (Z.shiftl (u8 byte) 24) in
      let seen := Z.min u8_max (seen + 1) in
      if (4 <=? seen)
         && ((rolling =? LFH_SIG) || (rolling =? CDH_SIG) || (rolling =? DATA_DESCRIPTOR_SIG))
      then None
      else scan_signatures bytes rolling seen
  end.

Section Scan.
Context {S} `{Source S}.

Record ScanState : Type := { sc_reader : RangeReader; sc_rolling : Z; sc_seen : Z }.
Definition SCAN_BUFFER : Z := 64 * 1024.

(** One iteration of [contains_stream_signature_in_range]. *)
Definition scan_step (snapshot : S) (st : ScanState) : exec (control ScanState bool) Finding :=
  let '(reader, res) := range_read snapshot (sc_reader st) SCAN_BUFFER in
  match res with
  | Err f =>
      Some (Err (error SourceIo
        ("read stored payload while checking signatures: " +++ as_str (code f) +++ ": "
           +++ detail f)))
  | Ok [] => Some (Ok (Return false))
  | Ok bytes =>
      match scan_signatures bytes (sc_rolling st) (sc_seen st) with
      | None => Some (Ok (Return true))
      | Some (rolling, seen) =>
          Some (Ok (Continue {| sc_reader := reader; sc_rolling := rolling; sc_seen := seen |}))
      end
  end.

(** [contains_stream_signature_in_range]: one buffer per iteration. *)
Definition contains_stream_signature_in_range (snapshot : S) (offset len : Z) :
    exec bool Finding :=
  let* reader := map_err (fun _ => error ZipDiffC4Offset "stored payload extends past EOF")
    (reader snapshot offset len) in
  run_loop (scan_step snapshot) (2 + Z.to_nat (len / SCAN_BUFFER))
    {| sc_reader := reader; sc_rolling := 0; sc_seen := 0 |}.
End Scan.

(** ** Entry types *)

(** [validate_directory_metadata]. *)
Definition validate_directory_metadata (name : str)
    (version_made_by external_attributes method crc compressed_size uncompressed_size : Z) :
    result unit Finding :=
  let name_is_directory := ends_with_byte "/" name in
  let dos_directory := negb (Z.land external_attributes 16 =? 0) in
  let unix_kind := Z.land (Z.shiftr external_attributes 16) 0xf000 in
  let attribute_is_directory := dos_directory || (unix_kind =? 0x4000) in
  let attribute_is_regular := unix_kind =? 0x8000 in
  let attribute_is_special :=
    negb (unix_kind =? 0) && negb (unix_kind =? 0x4000) && negb (unix_kind =? 0x8000) in
  let host := Z.shiftr version_made_by 8 in
  reject unix_kind =? 0xa000
    with on (error ZipSymlink ("host " +++ fmt_dec host
               +++ " external attributes describe a Unix symlink (type 0120000)")) name ;;
  reject attribute_is_special
    with on (error ZipDiffA4Dir ("host " +++ fmt_dec host
               +++ " external attributes describe a non-regular entry")) name ;;
  reject attribute_is_directory && attribute_is_regular
    with on (error ZipDiffA4Dir ("host " +++ fmt_dec host
               +++ " external attributes conflict on entry type")) name ;;
  reject negb (Bool.eqb attribute_is_directory name_is_directory)
         && (attribute_is_directory || attribute_is_regular)
    with on (error ZipDiffA4Dir ("host " +++ fmt_dec host
               +++ " filename and external attributes disagree on entry type")) name ;;
  reject name_is_directory && (negb (compressed_size =? 0) || negb (uncompressed_size =? 0))
    with on (error ZipDiffA4Dir "directory with nonzero size") name ;;
  reject name_is_directory && (negb (method =? 0) || negb (crc =? 0))
    with on (error ZipDiffA4Dir
              "directory entries must use Store with the CRC32 of empty content") name ;;
  Ok ().

(** ** Names *)

(** [decode_name_for_profile]; an ASCII name is its own decoding. *)
Definition decode_name_for_profile (bytes : list byte) (flags : Z)
    (profile : ZipInterpretationProfile) : result str Finding :=
  match profile with
  | StrictAsciiV2 =>
      if is_ascii bytes then Ok bytes
      else Err (error ZipEncoding
             ("non-ASCII member name is denied by " +++ profile_id profile))
  | PortableUtf8V1 | WheelUtf8V1 =>
      let? name := ok_or (from_utf8 bytes)
        (error ZipEncoding ("member name is not valid UTF-8 under " +++ profile_id profile)) in
      reject negb (is_ascii bytes) && (Z.land flags (Z.shiftl 1 11) =? 0)
        with error ZipEncoding
          ("non-ASCII member name lacks general-purpose UTF-8 bit 11 under "
             +++ profile_id profile) ;;
      Ok name
  | StrictAsciiV1 | Zip64StrictAsciiV1 =>
      if negb (Z.land flags (Z.shiftl 1 11) =? 0)
      then ok_or (from_utf8 bytes)
             (error ZipEncoding "UTF-8 flag set on an invalid name")
      else if is_ascii bytes then Ok bytes
      else Err (error ZipEncoding "non-ASCII CP437 name support is not implemented")
  end.
