(* ===== verification/ZipRecords.v ===== *)
(** * The records of a ZIP archive ([zip.rs])

    The end record and its optional ZIP64 pair, the local header, the data
    descriptor, and the layout check over all local records. *)

From S2P Require Import Prelude Utf8 Findings Interval Snapshot Ir ZipFields.
Local Open Scope Z_scope.

(** ** Data *)

Inductive DataDescriptorWidth : Type := Zip32 | Zip64.
Inductive Zip64LocalValueShape : Type := Absent | Exact | StreamingZeros | StreamingMaxima.

Record ParsedZip64MemberEvidence : Type := {
  ev_local_version_needed : Z;
  ev_central_version_needed : Z;
  ev_central_presence_mask : Z;
  ev_central_legacy_sentinel_mask : Z;
  ev_local_legacy_sentinel_mask : Z;
  ev_local_value_shape : Zip64LocalValueShape;
  ev_descriptor_width : option DataDescriptorWidth
}.

Record ClassicEndFields : Type := {
  ce_entries_on_disk : Z;
  ce_total_entries : Z;
  ce_central_directory_size : Z;
  ce_central_directory_offset : Z
}.

Record ResolvedEndRecords : Type := {
  re_total_entries : Z;
  re_central_directory_size : Z;
  re_central_directory_offset : Z;
  re_zip64_eocd : option ByteRange;
  re_zip64_locator : option ByteRange;
  re_zip64_version_needed : option Z
}.

Record ZipMember : Type := {
  zm_raw_name : list byte;
  zm_name : str;
  zm_method : Z;
  zm_flags : Z;
  zm_creator_system : Z;
  zm_external_attributes : Z;
  zm_crc : Z;
  zm_comp_size : Z;
  zm_uncomp_size : Z;
  zm_lfh_offset : Z;
  zm_data_offset : Z;
  zm_record_end : Z;
  zm_is_dir : bool;
  zm_extra_fields : list ExtraFieldRecord;
  zm_source_ranges : MemberSourceRanges;
  zm_zip64_evidence : option ParsedZip64MemberEvidence
}.

Record LocalHeader : Type := {
  lh_data_offset : Z;
  lh_extra_offset : Z;
  lh_name : list byte;
  lh_version_needed : Z;
  lh_method : Z;
  lh_flags : Z;
  lh_comp_size : Z;
  lh_uncomp_size : Z;
  lh_crc : Z;
  lh_extra : list byte
}.

Record ZipArchive : Type := {
  za_members : list ZipMember;
  za_cd_offset : Z;
  za_cd_size : Z;
  za_eocd_offset : Z;
  za_comment_len : Z;
  za_metadata_bytes : Z;
  za_zip64_eocd : option ByteRange;
  za_zip64_locator : option ByteRange
}.

(** [ZipArchive::covering], [ZipArchive::zip64_covering]. *)
Definition covering (a : ZipArchive) : ArchiveCovering :=
  from_zip32 (za_cd_offset a) (za_cd_size a) (za_eocd_offset a) (za_comment_len a).
Definition zip64_covering (a : ZipArchive) : Zip64ArchiveCovering :=
  from_parsed (za_cd_offset a) (za_cd_size a) (za_zip64_eocd a) (za_zip64_locator a)
    (za_eocd_offset a) (za_comment_len a).

(** ** The end record *)

(** One candidate position of the backward search. *)
Definition eocd_at (tail : list byte) (off : Z) : option Z :=
  if Z.of_nat (length tail) <? off + EOCD_MIN then None
  else if negb (u32_at tail off =? EOCD_SIG) then None
  else
    let comment_len := u16_at tail (off + 20) in
    if off + EOCD_MIN + comment_len =? Z.of_nat (length tail) then Some comment_len else None.

(** The search loop: the offsets from [off] down to zero. *)
Fixpoint scan_eocd (tail : list byte) (off : nat) : option (Z * Z) :=
  match eocd_at tail (Z.of_nat off) with
  | Some comment_len => Some (Z.of_nat off, comment_len)
  | None =>
      match off with
      | O => None
      | S off => scan_eocd tail off
      end
  end.

Section Records.
Context {S} `{Source S} `{!Allocator}.

(** [find_eocd]; its callers have checked that the source holds 22 bytes. *)
Definition find_eocd (snapshot : S) : result (Z * Z) Finding :=
  let tail_len := Z.min (src_len snapshot) (65535 + EOCD_MIN) in
  let tail_offset := src_len snapshot - tail_len in
  let? tail := read_vec snapshot tail_offset tail_len in
  match scan_eocd tail (Z.to_nat (Z.of_nat (length tail) - EOCD_MIN)) with
  | Some (off, comment_len) => Ok (tail_offset + off, comment_len)
  | None => Err (error FormatUnsupported "no EOCD with exact comment length")
  end.

(** The end record without a ZIP64 pair, both places that return it. *)
Definition classic_end_records (classic : ClassicEndFields) (has_sentinel : bool) :
    result ResolvedEndRecords Finding :=
  reject has_sentinel with error ZipDiffC5Zip64 "ZIP64 legacy sentinel has no locator" ;;
  reject negb (ce_entries_on_disk classic =? ce_total_entries classic)
    with error ZipDiffC3Count "classic EOCD per-disk and total entry counts disagree" ;;
  Ok {| re_total_entries := ce_total_entries classic;
        re_central_directory_size := ce_central_directory_size classic;
        re_central_directory_offset := ce_central_directory_offset classic;
        re_zip64_eocd := None; re_zip64_locator := None; re_zip64_version_needed := None |}.

(** The fixed 56-byte record the locator names. *)
Definition zip64_end_record (snapshot : S) (locator_offset zip64_eocd_offset : Z)
    (classic : ClassicEndFields) : result ResolvedEndRecords Finding :=
  let? record := map_err (fun _ => error ZipDiffC4Offset "ZIP64 EOCD extends past EOF")
    (src_read snapshot zip64_eocd_offset 56) in
  reject negb (u32_at record 0 =? ZIP64_EOCD_SIG)
    with error ZipDiffC5Zip64 "ZIP64 locator does not point to a ZIP64 EOCD" ;;
  reject negb (u64_at record 4 =? 44)
    with error ZipDiffC5Zip64 "ZIP64 EOCD extensible sector is denied" ;;
  let version_needed := u16_at record 14 in
  let this_disk := u32_at record 16 in
  let central_directory_disk := u32_at record 20 in
  reject negb (this_disk =? 0) || negb (central_directory_disk =? 0)
    with error ZipDiffC3Count "ZIP64 EOCD describes a spanned archive" ;;
  let entries_on_disk := u64_at record 24 in
  let total_entries := u64_at record 32 in
  reject negb (entries_on_disk =? total_entries)
    with error ZipDiffC3Count "ZIP64 per-disk and total entry counts disagree" ;;
  let central_directory_size := u64_at record 40 in
  let central_directory_offset := u64_at record 48 in
  reject negb (bool_decide (u64_checked_add central_directory_offset central_directory_size
                            = Some zip64_eocd_offset))
    with error ZipDiffC4Offset
      "ZIP64 central-directory geometry does not land on the ZIP64 EOCD" ;;
  reject negb (canonical_zip64_end_u16 (ce_entries_on_disk classic) entries_on_disk)
         || negb (canonical_zip64_end_u16 (ce_total_entries classic) total_entries)
         || negb (canonical_zip64_end_u32 (ce_central_directory_size classic)
                    central_directory_size)
         || negb (canonical_zip64_end_u32 (ce_central_directory_offset classic)
                    central_directory_offset)
    with error ZipDiffC5Zip64
      "classic EOCD and ZIP64 EOCD values are not canonically identical" ;;
  Ok {| re_total_entries := total_entries;
        re_central_directory_size := central_directory_size;
        re_central_directory_offset := central_directory_offset;
        re_zip64_eocd := Some (mkrange zip64_eocd_offset 56);
        re_zip64_locator := Some (mkrange locator_offset 20);
        re_zip64_version_needed := Some version_needed |}.

(** [resolve_zip64_end_records]. *)
Definition resolve_zip64_end_records (snapshot : S) (eocd_offset : Z)
    (classic : ClassicEndFields) : result ResolvedEndRecords Finding :=
  let has_sentinel :=
    (ce_entries_on_disk classic =? u16_max) || (ce_total_entries classic =? u16_max)
    || (ce_central_directory_size classic =? u32_max)
    || (ce_central_directory_offset classic =? u32_max) in
  if eocd_offset <? 20 then classic_end_records classic has_sentinel
  else
    let locator_offset := eocd_offset - 20 in
    let? locator := src_read snapshot locator_offset 20 in
    if negb (u32_at locator 0 =? ZIP64_LOCATOR_SIG)
    then classic_end_records classic has_sentinel
    else
      reject negb has_sentinel
        with error ZipDiffC5Zip64 "ZIP64 end pair has no legacy sentinel" ;;
      let locator_disk := u32_at locator 4 in
      let zip64_eocd_offset := u64_at locator 8 in
      let total_disks := u32_at locator 16 in
      reject negb (locator_disk =? 0) || negb (total_disks =? 1)
        with error ZipDiffC3Count "ZIP64 locator describes a spanned archive" ;;
      reject negb (bool_decide (u64_checked_add zip64_eocd_offset 56 = Some locator_offset))
        with error ZipDiffC4Offset "ZIP64 EOCD does not exactly abut its locator" ;;
      zip64_end_record snapshot locator_offset zip64_eocd_offset classic.

(** ** The local header *)

(** [parse_lfh_bounded]. *)
Definition parse_lfh_bounded (snapshot : S) (off max_variable_bytes : Z) :
    result LocalHeader Finding :=
  let? fixed := map_err (fun _ => error ZipDiffC4Offset "LFH past EOF")
    (src_read snapshot off 30) in
  reject negb (u32_at fixed 0 =? LFH_SIG)
    with error ZipDiffC1Stream "LFH signature missing" ;;
  let version_needed := u16_at fixed 4 in
  let flags := u16_at fixed 6 in
  let method := u16_at fixed 8 in
  let crc := u32_at fixed 14 in
  let comp := u32_at fixed 18 in
  let uncomp := u32_at fixed 22 in
  let name_len := u16_at fixed 26 in
  let extra_len := u16_at fixed 28 in
  let? variable_bytes := ok_or (u64_checked_add name_len extra_len)
    (error QuotaOverflow "LFH metadata overflow") in
  reject max_variable_bytes <? variable_bytes
    with error QuotaMetadata
      ("ZIP metadata exceeds its remaining " +++ fmt_dec max_variable_bytes +++ "-byte budget") ;;
  let? name_off := ok_or (u64_checked_add off 30)
    (error ZipDiffC4Offset "LFH offset overflow") in
  let? extra_offset := ok_or (u64_checked_add name_off name_len)
    (error ZipDiffC4Offset "LFH name past EOF") in
  let? data_offset := ok_or (u64_checked_add extra_offset extra_len)
    (error ZipDiffC4Offset "LFH name past EOF") in
  reject src_len snapshot <? data_offset
    with error ZipDiffC4Offset "LFH name past EOF" ;;
  let? name := read_vec snapshot name_off name_len in
  let? extra := read_vec snapshot extra_offset extra_len in
  Ok {| lh_data_offset := data_offset; lh_extra_offset := extra_offset; lh_name := name;
        lh_version_needed := version_needed; lh_method := method; lh_flags := flags;
        lh_comp_size := comp; lh_uncomp_size := uncomp; lh_crc := crc; lh_extra := extra |}.

Definition parse_lfh (snapshot : S) (off : Z) : result LocalHeader Finding :=
  parse_lfh_bounded snapshot off u64_max.

(** ** The data descriptor *)

Definition value_bytes (width : DataDescriptorWidth) : Z :=
  match width with Zip32 => 4 | Zip64 => 8 end.

(** [parse_data_descriptor_with_width]; the 24-byte buffer keeps its zeros
    where nothing was read. *)
Definition parse_data_descriptor_with_width (snapshot : S)
    (offset expected_crc expected_comp expected_uncomp : Z) (width : DataDescriptorWidth) :
    result Z Finding :=
  let unsigned_len := 4 + value_bytes width * 2 in
  let signed_len := unsigned_len + 4 in
  let? unsigned :=
    map_err (fun _ => error ZipDiffC4Offset "data descriptor extends past EOF")
      (src_read snapshot offset unsigned_len) in
  let first := u32_at unsigned 0 in
  let? (descriptor, values_offset, descriptor_len) :=
    if first =? DATA_DESCRIPTOR_SIG then
      let? suffix_offset := ok_or (u64_checked_add offset unsigned_len)
        (error ZipDiffC4Offset "signed data descriptor offset overflow") in
      let? suffix :=
        map_err (fun _ => error ZipDiffC4Offset "signed data descriptor extends past EOF")
          (src_read snapshot suffix_offset (signed_len - unsigned_len)) in
      Ok (unsigned ++ suffix, 4, signed_len)
    else Ok (unsigned, 0, unsigned_len) in
  let crc := u32_at descriptor values_offset in
  let sizes_offset := values_offset + 4 in
  let value_at := match width with Zip32 => u32_at | Zip64 => u64_at end in
  let comp := value_at descriptor sizes_offset in
  let uncomp := value_at descriptor (sizes_offset + value_bytes width) in
  reject negb (crc =? expected_crc) || negb (comp =? expected_comp)
         || negb (uncomp =? expected_uncomp)
    with error ZipDiffA2Size "data descriptor disagrees with the CDH" ;;
  ok_or (u64_checked_add offset descriptor_len)
    (error ZipDiffC4Offset "data descriptor end overflow").

Definition parse_data_descriptor (snapshot : S)
    (offset expected_crc expected_comp expected_uncomp : Z) : result Z Finding :=
  parse_data_descriptor_with_width snapshot offset expected_crc expected_comp expected_uncomp
    Zip32.
End Records.

(** ** The layout of the local records *)

(** The loop of [check_layout]. *)
Fixpoint layout_ranges (members : list ZipMember) (cd_off : Z) :
    result (list CheckedInterval) Finding :=
  match members with
  | [] => Ok []
  | m :: members =>
      let? range := map_err (fun _ => on (error ZipDiffC4Offset "empty local record range") (zm_name m))
        (from_bounds (zm_lfh_offset m) (zm_record_end m)) in
      reject cd_off <? zm_record_end m
        with on (error ZipOverlap "local record overlaps the CD") (zm_name m) ;;
      reject is_empty range
        with on (error ZipDiffC4Offset "empty local record range") (zm_name m) ;;
      let? ranges := layout_ranges members cd_off in
      Ok (range :: ranges)
  end.

(** The finding of a failed partition; [members[index]] is in range. *)
Definition partition_finding (members : list ZipMember) (e : PartitionError) : Finding :=
  let name_of index := from_option zm_name [] (members !! index) in
  match e with
  | GapBeforeFirst _ =>
      error ZipDiffC1Stream "bytes exist before the first referenced local record"
  | Overlap index => on (error ZipOverlap "overlapping compressed ranges") (name_of index)
  | Gap index => on (error ZipDiffC1Stream "unreferenced bytes between records") (name_of index)
  | GapAfterLast _ => error ZipDiffC1Stream "unreferenced bytes before the central directory"
  | EmptyPart index => on (error ZipDiffC4Offset "empty local record range") (name_of index)
  | PartOutside index => on (error ZipOverlap "local record overlaps the CD") (name_of index)
  | MissingParts => error ZipDiffC1Stream "unreferenced bytes before the central directory"
  end.

(** [check_layout]. *)
Definition check_layout (members : list ZipMember) (cd_off : Z) : result unit Finding :=
  if (length members =? 0)%nat then
    reject negb (cd_off =? 0)
      with error ZipDiffC1Stream "empty ZIP has bytes before the central directory" ;;
    Ok ()
  else
    let outer := {| start := 0; end_ := cd_off |} in
    let? ranges := layout_ranges members cd_off in
    map_err (partition_finding members) (exact_partition outer ranges).
