(* ===== verification/Zip32.v ===== *)
(** * The ZIP reader ([parse_zip_with_profile] of [zip.rs])

    The central directory is read first; every entry is then compared with its
    local header and descriptor, and the local records must tile the bytes
    before the directory.  [zip32_step] is one iteration of the loop over the
    directory. *)

From S2P Require Import Prelude Utf8 Findings Interval Snapshot Ir ZipFields ZipRecords.
Local Open Scope Z_scope.

(** The fields of a central-directory header the reader keeps. *)
Record CentralHeader : Type := {
  ch_version_made_by : Z;
  ch_flags : Z;
  ch_method : Z;
  ch_crc : Z;
  ch_comp : Z;
  ch_uncomp : Z;
  ch_external_attributes : Z;
  ch_lfh_offset : Z;
  ch_name : list byte;
  ch_extra : list byte;
  ch_comment : list byte
}.

(** The end of the header that starts at [pos]. *)
Definition ch_end (h : CentralHeader) (pos : Z) : Z :=
  pos + 46 + Z.of_nat (length (ch_name h)) + Z.of_nat (length (ch_extra h))
    + Z.of_nat (length (ch_comment h)).

(** From the truncation check of an iteration to the slices of name, extra
    field and comment. *)
Definition central_header32 (cd : list byte) (pos : Z) : result CentralHeader Finding :=
  let cd_end := Z.of_nat (length cd) in
  reject cd_end <? pos + 46 with error ZipDiffC3Count "truncated CDH" ;;
  reject negb (u32_at cd pos =? CDH_SIG) with error ZipDiffC3Count "bad CDH signature" ;;
  let flags := u16_at cd (pos + 8) in
  let method := u16_at cd (pos + 10) in
  let version_made_by := u16_at cd (pos + 4) in
  let crc := u32_at cd (pos + 16) in
  let comp := u32_at cd (pos + 20) in
  let uncomp := u32_at cd (pos + 24) in
  let name_len := u16_at cd (pos + 28) in
  let extra_len := u16_at cd (pos + 30) in
  let comment_len := u16_at cd (pos + 32) in
  let disk_start := u16_at cd (pos + 34) in
  let lfh_offset := u32_at cd (pos + 42) in
  let external_attributes := u32_at cd (pos + 38) in
  reject (comp =? 0xFFFFFFFF) || (uncomp =? 0xFFFFFFFF) || (lfh_offset =? 0xFFFFFFFF)
         || (disk_start =? 0xFFFF)
    with on (error ZipDiffC5Zip64 "ZIP64 member") [] ;;
  reject negb (disk_start =? 0)
    with on (error ZipDiffC3Count "central-directory member starts on another disk") [] ;;
  let name_off := pos + 46 in
  reject cd_end <? name_off + name_len + extra_len + comment_len
    with error ZipDiffC3Count "CDH name overflows CD" ;;
  Ok {| ch_version_made_by := version_made_by; ch_flags := flags; ch_method := method;
        ch_crc := crc; ch_comp := comp; ch_uncomp := uncomp;
        ch_external_attributes := external_attributes; ch_lfh_offset := lfh_offset;
        ch_name := range name_off name_len cd;
        ch_extra := range (name_off + name_len) extra_len cd;
        ch_comment := range (name_off + name_len + extra_len) comment_len cd |}.

(** General-purpose bit 3: a data descriptor follows the payload. *)
Definition gp3 (flags : Z) : bool := negb (Z.land flags 8 =? 0).

(** The comparison of the central header with the local one. *)
Definition local_agrees32 (h : CentralHeader) (local : LocalHeader)
    (profile : ZipInterpretationProfile) : result unit Finding :=
  let display_name := from_utf8_lossy (ch_name h) in
  reject negb (bool_decide (lh_name local = ch_name h))
    with on (error ZipDiffA3Name "CDH name != LFH name") display_name ;;
  reject negb (lh_method local =? ch_method h)
    with on (error ZipDiffA1Method "CDH method != LFH method") display_name ;;
  reject negb (lh_flags local =? ch_flags h)
    with on (error (if negb (Z.land (ch_flags h) 1 =? Z.land (lh_flags local) 1)
                    then ZipDiffA5Crypt else ZipFlags) "CDH flags != LFH flags") display_name ;;
  let? _ := validate_general_purpose_flags (ch_flags h) profile (ch_name h) in
  reject negb (gp3 (ch_flags h))
         && (negb (lh_comp_size local =? ch_comp h) || negb (lh_uncomp_size local =? ch_uncomp h))
    with on (error ZipDiffA2Size "CDH sizes != LFH sizes") display_name ;;
  reject negb (gp3 (ch_flags h)) && negb (lh_crc local =? ch_crc h)
    with on (error ZipDiffA2Size "CDH CRC != LFH CRC") display_name ;;
  reject gp3 (ch_flags h)
         && ((negb (lh_comp_size local =? 0) && negb (lh_comp_size local =? ch_comp h))
             || (negb (lh_uncomp_size local =? 0) && negb (lh_uncomp_size local =? ch_uncomp h))
             || (negb (lh_crc local =? 0) && negb (lh_crc local =? ch_crc h)))
    with on (error ZipDiffA2Size "LFH data-descriptor placeholders disagree with the CDH")
            display_name ;;
  Ok ().

Section Reader.
Context {S} `{Source S} `{!Allocator}.

(** From the decoded name to the pushed member. *)
Definition place_member32 (snapshot : S) (profile : ZipInterpretationProfile)
    (cd_offset pos : Z) (h : CentralHeader) (local : LocalHeader)
    (extra_fields : list ExtraFieldRecord) : exec ZipMember Finding :=
  let comp := ch_comp h in
  let* name := decode_name_for_profile (ch_name h) (ch_flags h) profile in
  let* _ := validate_directory_metadata name (ch_version_made_by h) (ch_external_attributes h)
    (ch_method h) (ch_crc h) comp (ch_uncomp h) in
  let is_dir := ends_with_byte "/" name in
  let* payload_end := ok_or (u64_checked_add (lh_data_offset local) comp)
    (on (error ZipDiffC4Offset "payload end overflows") name) in
  let! alternate :=
    if gp3 (ch_flags h) && (ch_method h =? 0)
    then exec_map_err (fun finding => on finding name)
           (contains_stream_signature_in_range snapshot (lh_data_offset local) comp)
    else Some (Ok false) in
  reject! alternate
    with on (error ZipDiffC1Stream
               "stored data-descriptor payload contains an alternate record signature") name ;;
  let* record_end :=
    if gp3 (ch_flags h)
    then parse_data_descriptor snapshot payload_end (ch_crc h) comp (ch_uncomp h)
    else Ok payload_end in
  reject! lh_data_offset local <? ch_lfh_offset h
    with on (error ZipDiffC4Offset "local header length underflow") name ;;
  let local_header_len := lh_data_offset local - ch_lfh_offset h in
  let* descriptor_range :=
    if gp3 (ch_flags h) then
      let? start := ok_or (u64_checked_add (lh_data_offset local) comp)
        (on (error ZipDiffC4Offset "data descriptor offset overflow") name) in
      reject record_end <? start
        with on (error ZipDiffC4Offset "data descriptor length underflow") name ;;
      Ok (Some (mkrange start (record_end - start)))
    else Ok None in
  Some (Ok
    {| zm_raw_name := ch_name h; zm_name := name; zm_method := ch_method h;
       zm_flags := ch_flags h; zm_creator_system := Z.shiftr (ch_version_made_by h) 8;
       zm_external_attributes := ch_external_attributes h; zm_crc := ch_crc h;
       zm_comp_size := comp; zm_uncomp_size := ch_uncomp h; zm_lfh_offset := ch_lfh_offset h;
       zm_data_offset := lh_data_offset local; zm_record_end := record_end; zm_is_dir := is_dir;
       zm_extra_fields := extra_fields;
       zm_source_ranges :=
         {| local_header := mkrange (ch_lfh_offset h) local_header_len;
            compressed_payload := mkrange (lh_data_offset local) comp;
            data_descriptor := descriptor_range;
            central_header := mkrange (cd_offset + pos) (ch_end h 0) |};
       zm_zip64_evidence := None |}).

(** One entry: its extra fields, local header, comparison and placement; the
    local extra field is charged to the metadata counter. *)
Definition zip32_member (snapshot : S) (profile : ZipInterpretationProfile)
    (cd_offset pos : Z) (h : CentralHeader) : exec (ZipMember * list byte) Finding :=
  let central_extra_off := pos + 46 + Z.of_nat (length (ch_name h)) in
  let* central_extra_absolute := ok_or (u64_checked_add cd_offset central_extra_off)
    (error ZipDiffC4Offset "central extra-field offset overflow") in
  let! central_fields := classify_extra_fields (ch_extra h) central_extra_absolute Central
    "central directory" (ch_name h) profile in
  let* _ := reject_structural_metadata (ch_comment h) "central-directory comment" in
  let* local := parse_lfh snapshot (ch_lfh_offset h) in
  let! local_fields := classify_extra_fields (lh_extra local) (lh_extra_offset local) Local
    "local header" (ch_name h) profile in
  let extra_fields := central_fields ++ local_fields in
  let* _ := local_agrees32 h local profile in
  let! m := place_member32 snapshot profile cd_offset pos h local extra_fields in
  Some (Ok (m, lh_extra local)).

(** What the end record says, and the directory it locates. *)
Record Zip32End : Type := {
  ze_eocd_off : Z;
  ze_comment_len : Z;
  ze_total_count : Z;
  ze_cd_offset : Z;
  ze_cd_size : Z;
  ze_metadata : Z;
  ze_directory : list byte
}.

(** From the size check to the central directory's bytes. *)
Definition zip32_end (snapshot : S) (max_files max_metadata_bytes : Z) :
    result Zip32End Finding :=
  reject src_len snapshot <? EOCD_MIN with error FormatUnsupported "too small to be ZIP" ;;
  let? (eocd_off, comment_len) := find_eocd snapshot in
  let? eocd := src_read snapshot eocd_off EOCD_MIN in
  let? comment := read_vec snapshot (eocd_off + EOCD_MIN) comment_len in
  let? _ := reject_structural_metadata comment "EOCD comment" in
  let this_disk := u16_at eocd 4 in
  let cd_disk := u16_at eocd 6 in
  let this_count := u16_at eocd 8 in
  let total_count := u16_at eocd 10 in
  let cd_size := u32_at eocd 12 in
  let cd_offset := u32_at eocd 16 in
  reject negb (this_disk =? 0) || negb (cd_disk =? 0)
    with error ZipDiffC3Count "spanned ZIP" ;;
  reject negb (this_count =? total_count)
    with error ZipDiffC3Count "this-disk count != total" ;;
  reject (cd_size =? 0xFFFFFFFF) || (cd_offset =? 0xFFFFFFFF) || (total_count =? 0xFFFF)
    with error ZipDiffC5Zip64 "ZIP64 fields not implemented" ;;
  reject max_files <? total_count
    with error QuotaFiles (fmt_dec total_count +++ " entries; cap is " +++ fmt_dec max_files) ;;
  let? metadata_bytes := ok_or (u64_checked_add comment_len cd_size)
    (error QuotaOverflow "ZIP metadata counter overflow") in
  reject max_metadata_bytes <? metadata_bytes
    with error QuotaMetadata
      ("ZIP metadata exceeds " +++ fmt_dec max_metadata_bytes +++ " bytes") ;;
  reject negb (bool_decide (u64_checked_add cd_offset cd_size = Some eocd_off))
    with error ZipDiffC4Offset "CD size+offset does not land on EOCD" ;;
  let? directory := map_err (fun _ => error ZipDiffC4Offset "CD extends past file")
    (read_vec snapshot cd_offset cd_size) in
  Ok {| ze_eocd_off := eocd_off; ze_comment_len := comment_len; ze_total_count := total_count;
        ze_cd_offset := cd_offset; ze_cd_size := cd_size; ze_metadata := metadata_bytes;
        ze_directory := directory |}.

(** The mutable state of the loop over the directory. *)
Record Zip32State : Type := {
  zs32_members : list ZipMember;
  zs32_pos : Z;
  zs32_metadata : Z
}.

(** One iteration. *)
Definition zip32_step (snapshot : S) (max_files max_metadata_bytes : Z)
    (profile : ZipInterpretationProfile) (e : Zip32End) (st : Zip32State) :
    exec (control Zip32State Zip32State) Finding :=
  let cd := ze_directory e in
  let pos := zs32_pos st in
  if Z.of_nat (length cd) <=? pos then Some (Ok (Return st))
  else
    reject! max_files <=? Z.of_nat (length (zs32_members st))
      with error QuotaFiles
        ("central directory contains more than " +++ fmt_dec max_files +++ " entries") ;;
    let* h := central_header32 cd pos in
    let! (m, local_extra) := zip32_member snapshot profile (ze_cd_offset e) pos h in
    let* metadata_bytes :=
      ok_or (u64_checked_add (zs32_metadata st) (Z.of_nat (length (ch_name h)))
               ≫= fun value => u64_checked_add value (Z.of_nat (length local_extra)))
        (error QuotaOverflow "ZIP metadata counter overflow") in
    reject! max_metadata_bytes <? metadata_bytes
      with error QuotaMetadata
        ("ZIP metadata exceeds " +++ fmt_dec max_metadata_bytes +++ " bytes") ;;
    Some (Ok (Continue
      {| zs32_members := zs32_members st ++ [m];
         zs32_pos := ch_end h pos;
         zs32_metadata := metadata_bytes |})).

(** The body of [parse_zip_with_profile] after the ZIP64 dispatch.  Every
    iteration consumes at least 46 bytes of the directory. *)
Definition parse_zip32 (snapshot : S) (max_files max_metadata_bytes : Z)
    (profile : ZipInterpretationProfile) : exec ZipArchive Finding :=
  let* e := zip32_end snapshot max_files max_metadata_bytes in
  let! st := run_loop (zip32_step snapshot max_files max_metadata_bytes profile e)
    (Datatypes.S (length (ze_directory e)))
    {| zs32_members := []; zs32_pos := 0; zs32_metadata := ze_metadata e |} in
  reject! negb (Z.of_nat (length (zs32_members st)) =? ze_total_count e)
    with error ZipDiffC3Count
      ("parsed " +++ fmt_dec (Z.of_nat (length (zs32_members st))) +++ " CDHs, EOCD says "
         +++ fmt_dec (ze_total_count e)) ;;
  let* _ := check_layout (zs32_members st) (ze_cd_offset e) in
  Some (Ok
    {| za_members := zs32_members st; za_cd_offset := ze_cd_offset e; za_cd_size := ze_cd_size e;
       za_eocd_offset := ze_eocd_off e; za_comment_len := ze_comment_len e;
       za_metadata_bytes := zs32_metadata st; za_zip64_eocd := None; za_zip64_locator := None |}).
End Reader.
