(* ===== verification/Zip64.v ===== *)
(** * The ZIP64 reader ([parse_zip64_strict_ascii_v1] of [zip.rs])

    The same shape as the ZIP32 reader with 64-bit values: each header may
    carry one semantic extra field, the end record may be preceded by the fixed
    ZIP64 pair, and descriptors are signed and of the width the values need. *)

From S2P Require Import Prelude Utf8 Findings Interval Snapshot Ir ZipFields ZipRecords Zip32.
Local Open Scope Z_scope.

(** ** The central header *)

(** The fields of a header, its legacy values as stored. *)
Record CentralHeader64 : Type := {
  c64_version_made_by : Z;
  c64_version_needed : Z;
  c64_flags : Z;
  c64_method : Z;
  c64_crc : Z;
  c64_legacy_comp : Z;
  c64_legacy_uncomp : Z;
  c64_legacy_lfh_offset : Z;
  c64_external_attributes : Z;
  c64_name : list byte;
  c64_extra : list byte;
  c64_comment : list byte
}.

Definition c64_end (h : CentralHeader64) (pos : Z) : Z :=
  pos + 46 + Z.of_nat (length (c64_name h)) + Z.of_nat (length (c64_extra h))
    + Z.of_nat (length (c64_comment h)).

(** [Option::filter] on the end of the directory. *)
Definition within (stop : Z) (o : option Z) : option Z :=
  match o with Some e => if e <=? stop then Some e else None | None => None end.

(** From the truncation check of an iteration to the check of the comment. *)
Definition central_header64 (cd : list byte) (pos : Z) : result CentralHeader64 Finding :=
  let cd_end := Z.of_nat (length cd) in
  let? fixed_end := ok_or (within cd_end (u64_checked_add pos 46))
    (error ZipDiffC3Count "truncated ZIP64 CDH") in
  reject negb (u32_at cd pos =? CDH_SIG)
    with error ZipDiffC3Count "bad ZIP64 CDH signature" ;;
  let version_made_by := u16_at cd (pos + 4) in
  let version_needed := u16_at cd (pos + 6) in
  let flags := u16_at cd (pos + 8) in
  let method := u16_at cd (pos + 10) in
  let crc := u32_at cd (pos + 16) in
  let legacy_comp := u32_at cd (pos + 20) in
  let legacy_uncomp := u32_at cd (pos + 24) in
  let name_len := u16_at cd (pos + 28) in
  let extra_len := u16_at cd (pos + 30) in
  let member_comment_len := u16_at cd (pos + 32) in
  let disk_start := u16_at cd (pos + 34) in
  let external_attributes := u32_at cd (pos + 38) in
  let legacy_lfh_offset := u32_at cd (pos + 42) in
  reject negb (disk_start =? 0)
    with error ZipDiffC3Count "central-directory member starts on another disk" ;;
  reject negb (flags =? 0) && negb (flags =? 8)
    with error ZipFlags ("general-purpose flags 0x" +++ fmt_hex4 flags
           +++ " are denied by ZIP64 strict ASCII v1") ;;
  reject negb (method =? 0) && negb (method =? 8)
    with error MethodUnsupported ("ZIP64 strict ASCII v1 denies method " +++ fmt_dec method) ;;
  let? _ := ok_or
      (within cd_end
        ((u64_checked_add fixed_end name_len ≫= fun value => u64_checked_add value extra_len)
           ≫= fun value => u64_checked_add value member_comment_len))
    (error ZipDiffC3Count "ZIP64 CDH fields overflow the CD") in
  let name_bytes := range fixed_end name_len cd in
  reject negb (is_ascii name_bytes)
    with on (error ZipEncoding "non-ASCII member name is denied by ZIP64 strict ASCII v1")
            (from_utf8_lossy name_bytes) ;;
  let comment := range (fixed_end + name_len + extra_len) member_comment_len cd in
  let? _ := reject_structural_metadata comment "central-directory comment" in
  Ok {| c64_version_made_by := version_made_by; c64_version_needed := version_needed;
        c64_flags := flags; c64_method := method; c64_crc := crc;
        c64_legacy_comp := legacy_comp; c64_legacy_uncomp := legacy_uncomp;
        c64_legacy_lfh_offset := legacy_lfh_offset;
        c64_external_attributes := external_attributes;
        c64_name := name_bytes; c64_extra := range (fixed_end + name_len) extra_len cd;
        c64_comment := comment |}.

(** The bytes of a semantic ZIP64 field. *)
Definition zip64_data (extra : list byte) (d : Zip64ExtraData) : list byte :=
  range (zx_offset d) (zx_len d) extra.

Definition has_sentinel64 (h : CentralHeader64) : bool :=
  (c64_legacy_uncomp h =? ZIP64_U32_SENTINEL) || (c64_legacy_comp h =? ZIP64_U32_SENTINEL)
  || (c64_legacy_lfh_offset h =? ZIP64_U32_SENTINEL).

(** The sizes and offset of the member. *)
Definition central_values64 (h : CentralHeader64) (central_zip64 : option Zip64ExtraData) :
    result Zip64CentralValues Finding :=
  match central_zip64 with
  | Some data =>
      map_err (fun e => zip64_extra_resolution_finding e "central directory" (c64_name h))
        (resolve_zip64_central_values (zip64_data (c64_extra h) data)
           (c64_legacy_uncomp h) (c64_legacy_comp h) (c64_legacy_lfh_offset h))
  | None =>
      reject has_sentinel64 h
        with on (error ZipDiffC5Zip64
                  "ZIP64 central sentinel has no semantic ZIP64 extra field") (c64_name h) ;;
      Ok {| uncompressed_size := c64_legacy_uncomp h; compressed_size := c64_legacy_comp h;
            local_header_offset := c64_legacy_lfh_offset h; presence_mask := 0 |}
  end.

(** ** The local header against the central one *)

Definition uses_descriptor (flags : Z) : bool := negb (Z.land flags 8 =? 0).

(** The local ZIP64 field, or the absence of sentinels. *)
Definition check_local_zip64 (h : CentralHeader64) (values : Zip64CentralValues)
    (local : LocalHeader) (data : option (list byte)) : result unit Finding :=
  match data with
  | Some data =>
      map_err (fun e => zip64_extra_resolution_finding e "local header" (c64_name h))
        ((if uses_descriptor (c64_flags h) then validate_zip64_streaming_local_values
          else validate_zip64_local_values) data (lh_uncomp_size local) (lh_comp_size local)
           (uncompressed_size values) (compressed_size values))
  | None =>
      reject (lh_uncomp_size local =? ZIP64_U32_SENTINEL)
             || (lh_comp_size local =? ZIP64_U32_SENTINEL)
        with on (error ZipDiffC5Zip64
                  "ZIP64 local sentinel has no semantic ZIP64 extra field") (c64_name h) ;;
      Ok ()
  end.

(** [local_value_shape]. *)
Definition local_value_shape (h : CentralHeader64) (values : Zip64CentralValues)
    (data : option (list byte)) : result Zip64LocalValueShape Finding :=
  match data with
  | None => Ok Absent
  | Some data =>
      if bool_decide (range 0 8 data = le_bytes 8 (uncompressed_size values))
         && bool_decide (range 8 8 data = le_bytes 8 (compressed_size values))
      then Ok Exact
      else if uses_descriptor (c64_flags h)
              && bool_decide (range 0 8 data = le_bytes 8 0)
              && bool_decide (range 8 8 data = le_bytes 8 0)
      then Ok StreamingZeros
      else if uses_descriptor (c64_flags h)
              && bool_decide (range 0 8 data = le_bytes 8 u64_max)
              && bool_decide (range 8 8 data = le_bytes 8 u64_max)
      then Ok StreamingMaxima
      else Err (on (error ZipDiffC5Zip64 "ZIP64 local value shape is not admitted") (c64_name h))
  end.

(** The extraction versions, and the stored sizes and CRC. *)
Definition local_agrees64 (h : CentralHeader64) (values : Zip64CentralValues)
    (local : LocalHeader) (central_zip64 local_zip64 has_end_pair : bool) :
    result unit Finding :=
  let name := c64_name h in
  let central_uses_zip64 := central_zip64 || has_sentinel64 h in
  let offset_only_candidate :=
    is_offset_only_zip64_member values (c64_legacy_uncomp h) (c64_legacy_comp h)
      (c64_legacy_lfh_offset h) has_end_pair (c64_version_needed h) (c64_method h) in
  reject local_zip64 && (lh_version_needed local <? 45)
    with on (error ZipDiffC5Zip64
              "ZIP64 local sizes require extraction version 4.5 or later") name ;;
  let offset_only := offset_only_candidate && negb local_zip64 in
  reject central_uses_zip64 && (c64_version_needed h <? 45) && negb offset_only
    with on (error ZipDiffC5Zip64
              "ZIP64 member requires extraction version 4.5 or later") name ;;
  if negb (uses_descriptor (c64_flags h)) then
    reject negb local_zip64
           && (negb (lh_comp_size local =? compressed_size values)
               || negb (lh_uncomp_size local =? uncompressed_size values))
      with on (error ZipDiffA2Size "CDH sizes != LFH sizes") name ;;
    reject negb (lh_crc local =? c64_crc h)
      with on (error ZipDiffA2Size "CDH CRC != LFH CRC") name ;;
    Ok ()
  else
    reject negb local_zip64
           && ((negb (lh_comp_size local =? 0)
                && negb (lh_comp_size local =? compressed_size values))
               || (negb (lh_uncomp_size local =? 0)
                   && negb (lh_uncomp_size local =? uncompressed_size values)))
      with on (error ZipDiffA2Size "LFH data-descriptor placeholders disagree with the CDH") name ;;
    reject negb (lh_crc local =? 0) && negb (lh_crc local =? c64_crc h)
      with on (error ZipDiffA2Size
                "LFH data-descriptor CRC placeholder disagrees with the CDH") name ;;
    Ok ().

(** The descriptor width the values call for. *)
Definition descriptor_width64 (values : Zip64CentralValues) (local_zip64 : bool) :
    DataDescriptorWidth :=
  if local_zip64 || (ZIP64_U32_SENTINEL <=? compressed_size values)
     || (ZIP64_U32_SENTINEL <=? uncompressed_size values)
  then Zip64 else Zip32.

Definition b2mask (b : bool) (index : Z) : Z := Z.shiftl (Z.b2z b) index.

Section Reader.
Context {S} `{Source S} `{!Allocator}.

(** A signed descriptor right after the payload. *)
Definition descriptor_end64 (snapshot : S) (h : CentralHeader64) (values : Zip64CentralValues)
    (payload_end : Z) (width : DataDescriptorWidth) : result Z Finding :=
  let name := c64_name h in
  let? signature :=
    map_err (fun _ => on (error ZipDiffC4Offset "ZIP64 data descriptor extends past EOF") name)
      (src_read snapshot payload_end 4) in
  reject negb (u32_at signature 0 =? DATA_DESCRIPTOR_SIG)
    with on (error ZipDiffC5Zip64
              "ZIP64 strict ASCII v1 requires a signed data descriptor") name ;;
  map_err (fun finding => on finding name)
    (parse_data_descriptor_with_width snapshot payload_end (c64_crc h)
       (compressed_size values) (uncompressed_size values) width).

(** From the directory metadata to the pushed member. *)
Definition place_member64 (snapshot : S) (cd_offset pos : Z) (h : CentralHeader64)
    (values : Zip64CentralValues) (local : LocalHeader) (shape : Zip64LocalValueShape)
    (central_zip64 local_zip64 : bool) (extra_fields : list ExtraFieldRecord) :
    exec ZipMember Finding :=
  let name := c64_name h in
  let comp := compressed_size values in
  let descriptor := uses_descriptor (c64_flags h) in
  let* _ := validate_directory_metadata name (c64_version_made_by h) (c64_external_attributes h)
    (c64_method h) (c64_crc h) comp (uncompressed_size values) in
  let* payload_end := ok_or (u64_checked_add (lh_data_offset local) comp)
    (on (error ZipDiffC4Offset "payload end overflows") name) in
  let! alternate :=
    if descriptor && (c64_method h =? 0)
    then exec_map_err (fun finding => on finding name)
           (contains_stream_signature_in_range snapshot (lh_data_offset local) comp)
    else Some (Ok false) in
  reject! alternate
    with on (error ZipDiffC1Stream
               "stored data-descriptor payload contains an alternate record signature") name ;;
  let width := descriptor_width64 values local_zip64 in
  let* local_record_end :=
    if descriptor then descriptor_end64 snapshot h values payload_end width
    else Ok payload_end in
  reject! lh_data_offset local <? local_header_offset values
    with on (error ZipDiffC4Offset "local header length underflow") name ;;
  let local_header_len := lh_data_offset local - local_header_offset values in
  let* descriptor_range :=
    if descriptor then
      reject local_record_end <? payload_end
        with on (error ZipDiffC4Offset "data descriptor length underflow") name ;;
      Ok (Some (mkrange payload_end (local_record_end - payload_end)))
    else Ok None in
  let* central_header_offset := ok_or (u64_checked_add cd_offset pos)
    (error ZipDiffC4Offset "central header offset overflow") in
  Some (Ok
    {| zm_raw_name := name; zm_name := name; zm_method := c64_method h; zm_flags := c64_flags h;
       zm_creator_system := Z.shiftr (c64_version_made_by h) 8;
       zm_external_attributes := c64_external_attributes h; zm_crc := c64_crc h;
       zm_comp_size := comp; zm_uncomp_size := uncompressed_size values;
       zm_lfh_offset := local_header_offset values; zm_data_offset := lh_data_offset local;
       zm_record_end := local_record_end; zm_is_dir := ends_with_byte "/" name;
       zm_extra_fields := extra_fields;
       zm_source_ranges :=
         {| local_header := mkrange (local_header_offset values) local_header_len;
            compressed_payload := mkrange (lh_data_offset local) comp;
            data_descriptor := descriptor_range;
            central_header := mkrange central_header_offset (c64_end h 0) |};
       zm_zip64_evidence := Some
         {| ev_local_version_needed := lh_version_needed local;
            ev_central_version_needed := c64_version_needed h;
            ev_central_presence_mask := if central_zip64 then presence_mask values else 0;
            ev_central_legacy_sentinel_mask :=
              Z.lor (Z.lor (b2mask (c64_legacy_uncomp h =? u32_max) 0)
                       (b2mask (c64_legacy_comp h =? u32_max) 1))
                (b2mask (c64_legacy_lfh_offset h =? u32_max) 2);
            ev_local_legacy_sentinel_mask :=
              Z.lor (b2mask (lh_uncomp_size local =? u32_max) 0)
                (b2mask (lh_comp_size local =? u32_max) 1);
            ev_local_value_shape := shape;
            ev_descriptor_width := if descriptor then Some width else None |} |}).

(** One entry up to its metadata charge: the extra fields, the values, the local
    header and its comparison, the placement.  Besides the member it gives the
    charge and whether a ZIP64 construct was used. *)
Definition zip64_member (snapshot : S) (max_metadata_bytes metadata_bytes cd_offset pos : Z)
    (has_end_pair : bool) (h : CentralHeader64) : exec (ZipMember * Z * bool) Finding :=
  let name := c64_name h in
  let* central_extra_absolute :=
    ok_or (u64_checked_add cd_offset (pos + 46 + Z.of_nat (length name)))
      (error ZipDiffC4Offset "central ZIP64 extra offset overflow") in
  let! (central_fields, central_zip64) := classify_zip64_extra_fields (c64_extra h)
    central_extra_absolute Central "central directory" name in
  let* values := central_values64 h central_zip64 in
  reject! max_metadata_bytes <? metadata_bytes
    with error QuotaMetadata
      ("ZIP64 metadata exceeds " +++ fmt_dec max_metadata_bytes +++ " bytes") ;;
  let remaining_metadata := max_metadata_bytes - metadata_bytes in
  let* local := map_err (fun finding => on finding name)
    (parse_lfh_bounded snapshot (local_header_offset values) remaining_metadata) in
  let! (local_fields, local_zip64) := classify_zip64_extra_fields (lh_extra local)
    (lh_extra_offset local) Local "local header" name in
  let extra_fields := central_fields ++ local_fields in
  reject! negb (bool_decide (lh_name local = name))
    with on (error ZipDiffA3Name "CDH name != LFH name") name ;;
  reject! negb (lh_method local =? c64_method h)
    with on (error ZipDiffA1Method "CDH method != LFH method") name ;;
  reject! negb (lh_flags local =? c64_flags h)
    with on (error ZipFlags "CDH flags != LFH flags") name ;;
  let local_data := zip64_data (lh_extra local) <$> local_zip64 in
  let* _ := check_local_zip64 h values local local_data in
  let* shape := local_value_shape h values local_data in
  let central_has := bool_decide (is_Some central_zip64) in
  let local_has := bool_decide (is_Some local_zip64) in
  let* _ := local_agrees64 h values local central_has local_has has_end_pair in
  let! m := place_member64 snapshot cd_offset pos h values local shape central_has local_has
    extra_fields in
  let* local_metadata :=
    ok_or (u64_checked_add (Z.of_nat (length (lh_name local))) (Z.of_nat (length (lh_extra local))))
      (error QuotaOverflow "ZIP64 metadata counter overflow") in
  Some (Ok (m, local_metadata, central_has || has_sentinel64 h || local_has)).

(** ** The archive *)

Record Zip64End : Type := {
  z64_eocd_offset : Z;
  z64_comment_len : Z;
  z64_end : ResolvedEndRecords;
  z64_metadata : Z;
  z64_directory : list byte
}.

(** From the size check to the central directory's bytes. *)
Definition zip64_end (snapshot : S) (max_files max_metadata_bytes : Z) :
    result Zip64End Finding :=
  reject src_len snapshot <? EOCD_MIN with error FormatUnsupported "too small to be ZIP" ;;
  let? (eocd_offset, eocd_comment_len) := find_eocd snapshot in
  reject max_metadata_bytes <? eocd_comment_len
    with error QuotaMetadata
      ("ZIP64 metadata exceeds " +++ fmt_dec max_metadata_bytes +++ " bytes") ;;
  let? eocd := src_read snapshot eocd_offset EOCD_MIN in
  let? comment_offset := ok_or (u64_checked_add eocd_offset EOCD_MIN)
    (error ZipDiffC4Offset "EOCD offset overflow") in
  let? comment := read_vec snapshot comment_offset eocd_comment_len in
  let? _ := reject_structural_metadata comment "EOCD comment" in
  let this_disk := u16_at eocd 4 in
  let central_directory_disk := u16_at eocd 6 in
  reject negb (this_disk =? 0) || negb (central_directory_disk =? 0)
    with error ZipDiffC3Count "spanned ZIP" ;;
  let classic :=
    {| ce_entries_on_disk := u16_at eocd 8; ce_total_entries := u16_at eocd 10;
       ce_central_directory_size := u32_at eocd 12;
       ce_central_directory_offset := u32_at eocd 16 |} in
  let? resolved_end := resolve_zip64_end_records snapshot eocd_offset classic in
  reject max_files <? re_total_entries resolved_end
    with error QuotaFiles
      (fmt_dec (re_total_entries resolved_end) +++ " entries; cap is " +++ fmt_dec max_files) ;;
  let structural_end := from_option offset eocd_offset (re_zip64_eocd resolved_end) in
  reject negb (bool_decide (u64_checked_add (re_central_directory_offset resolved_end)
                              (re_central_directory_size resolved_end) = Some structural_end))
    with error ZipDiffC4Offset
      "central-directory geometry does not land on the next end record" ;;
  let end_pair_bytes := if bool_decide (is_Some (re_zip64_eocd resolved_end)) then 76 else 0 in
  let? metadata_bytes :=
    ok_or (u64_checked_add eocd_comment_len (re_central_directory_size resolved_end)
             ≫= fun value => u64_checked_add value end_pair_bytes)
      (error QuotaOverflow "ZIP64 metadata counter overflow") in
  reject max_metadata_bytes <? metadata_bytes
    with error QuotaMetadata
      ("ZIP64 metadata exceeds " +++ fmt_dec max_metadata_bytes +++ " bytes") ;;
  let? directory :=
    map_err (fun _ => error ZipDiffC4Offset "central directory extends past EOF")
      (read_vec snapshot (re_central_directory_offset resolved_end)
         (re_central_directory_size resolved_end)) in
  Ok {| z64_eocd_offset := eocd_offset; z64_comment_len := eocd_comment_len;
        z64_end := resolved_end; z64_metadata := metadata_bytes; z64_directory := directory |}.

(** The mutable state of the loop over the directory. *)
Record Zip64State : Type := {
  zs64_members : list ZipMember;
  zs64_pos : Z;
  zs64_metadata : Z;
  zs64_has_member_zip64 : bool;
  zs64_max_version : Z
}.

(** One iteration. *)
Definition zip64_step (snapshot : S) (max_files max_metadata_bytes : Z) (e : Zip64End)
    (st : Zip64State) : exec (control Zip64State Zip64State) Finding :=
  let cd := z64_directory e in
  let pos := zs64_pos st in
  if Z.of_nat (length cd) <=? pos then Some (Ok (Return st))
  else
    let parsed_count := Z.of_nat (length (zs64_members st)) in
    reject! max_files <=? parsed_count
      with error QuotaFiles
        ("central directory contains more than " +++ fmt_dec max_files +++ " entries") ;;
    reject! re_total_entries (z64_end e) <=? parsed_count
      with error ZipDiffC3Count
        "central directory contains more entries than the end record" ;;
    let* h := central_header64 cd pos in
    let! (m, local_metadata, uses_zip64) :=
      zip64_member snapshot max_metadata_bytes (zs64_metadata st)
        (re_central_directory_offset (z64_end e)) pos
        (bool_decide (is_Some (re_zip64_eocd (z64_end e)))) h in
    let* next_metadata := ok_or (u64_checked_add (zs64_metadata st) local_metadata)
      (error QuotaOverflow "ZIP64 metadata counter overflow") in
    reject! max_metadata_bytes <? next_metadata
      with error QuotaMetadata
        ("ZIP64 metadata exceeds " +++ fmt_dec max_metadata_bytes +++ " bytes") ;;
    Some (Ok (Continue
      {| zs64_members := zs64_members st ++ [m];
         zs64_pos := c64_end h pos;
         zs64_metadata := next_metadata;
         zs64_has_member_zip64 := zs64_has_member_zip64 st || uses_zip64;
         zs64_max_version := Z.max (zs64_max_version st) (c64_version_needed h) |})).

(** The checks after the loop. *)
Definition zip64_finish (e : Zip64End) (st : Zip64State) : result ZipArchive Finding :=
  let resolved_end := z64_end e in
  let parsed := Z.of_nat (length (zs64_members st)) in
  reject negb (parsed =? re_total_entries resolved_end)
    with error ZipDiffC3Count
      ("parsed " +++ fmt_dec parsed +++ " CDHs, end record says "
         +++ fmt_dec (re_total_entries resolved_end)) ;;
  reject negb (bool_decide (is_Some (re_zip64_eocd resolved_end)))
         && negb (zs64_has_member_zip64 st)
    with error ZipDiffC5Zip64 "archive contains no ZIP64 construct" ;;
  let version := default 45 (re_zip64_version_needed resolved_end) in
  reject negb (version =? 45)
         && ((zs64_max_version st =? 0) || negb (version =? zs64_max_version st))
    with error ZipDiffC5Zip64
      ("ZIP64 EOCD extraction version " +++ fmt_dec version
         +++ " is neither 4.5 nor the maximum member version "
         +++ fmt_dec (zs64_max_version st)) ;;
  let? _ := check_layout (zs64_members st) (re_central_directory_offset resolved_end) in
  Ok {| za_members := zs64_members st;
        za_cd_offset := re_central_directory_offset resolved_end;
        za_cd_size := re_central_directory_size resolved_end;
        za_eocd_offset := z64_eocd_offset e; za_comment_len := z64_comment_len e;
        za_metadata_bytes := zs64_metadata st;
        za_zip64_eocd := re_zip64_eocd resolved_end;
        za_zip64_locator := re_zip64_locator resolved_end |}.

(** [parse_zip64_strict_ascii_v1]. *)
Definition parse_zip64_strict_ascii_v1 (snapshot : S) (max_files max_metadata_bytes : Z) :
    exec ZipArchive Finding :=
  let* e := zip64_end snapshot max_files max_metadata_bytes in
  let! st := run_loop (zip64_step snapshot max_files max_metadata_bytes e)
    (Datatypes.S (length (z64_directory e)))
    {| zs64_members := []; zs64_pos := 0; zs64_metadata := z64_metadata e;
       zs64_has_member_zip64 := false; zs64_max_version := 0 |} in
  let* a := zip64_finish e st in
  Some (Ok a).

(** [parse_zip_with_profile]. *)
Definition parse_zip_with_profile (snapshot : S) (max_files max_metadata_bytes : Z)
    (profile : ZipInterpretationProfile) : exec ZipArchive Finding :=
  if bool_decide (profile = Zip64StrictAsciiV1)
  then parse_zip64_strict_ascii_v1 snapshot max_files max_metadata_bytes
  else parse_zip32 snapshot max_files max_metadata_bytes profile.
End Reader.
