(* ===== verification/ZipSearch.v ===== *)
(** * The two searches of the ZIP reader ([find_eocd],
      [contains_stream_signature_in_range] of [zip.rs])

    The backward search for the end record finds the last position that can be
    one; the rolling scan of a stored payload finds a record signature exactly
    when the payload contains one, however the reads split it. *)

From S2P Require Import Prelude Utf8 Findings Snapshot Ir ByteFields ZipFields ZipRecords.
Local Open Scope Z_scope.
#[local] Arguments le_bytes : simpl never.

(** ** Reads through a source *)

Section Reads.
Context {S} `{Source S} `{!Allocator} (s : S) (bs : list byte).

Lemma read_vec_sound off n out :
  represents s bs -> 0 <= off -> 0 <= n -> read_vec s off n = Ok out ->
  off + n <= Z.of_nat (length bs) /\ out = range off n bs.
Proof.
  intros Hr Ho Hn Hv. unfold read_vec in Hv. ok_steps Hv.
  by eapply (represents_read _ _ Hr).
Qed.

Lemma read_vec_complete off n :
  reliable s bs -> (forall site k, try_reserve site k = true) ->
  0 <= off -> 0 <= n -> off + n <= Z.of_nat (length bs) ->
  read_vec s off n = Ok (range off n bs).
Proof.
  intros Hr Ha Ho Hn Hl. unfold read_vec. destruct (reliable_represents _ _ Hr) as [-> Hu _].
  rewrite (proj2 (checked_range_ok _ _ _)) by lia. rewrite Ha. simpl.
  by apply (reliable_read _ _ Hr).
Qed.

Lemma src_read_iff off n out :
  reliable s bs -> 0 <= off -> 0 <= n ->
  src_read s off n = Ok out <-> off + n <= Z.of_nat (length bs) /\ out = range off n bs.
Proof.
  intros Hr Ho Hn. split.
  - by apply (represents_read _ _ (reliable_represents _ _ Hr)).
  - intros [Hl ->]. by apply (reliable_read _ _ Hr).
Qed.
End Reads.

(** ** The end record *)

(** [off] starts an end record whose comment of [n] bytes ends the source. *)
Definition eocd_candidate (bs : list byte) (off n : Z) : Prop :=
  0 <= off /\ off + EOCD_MIN + n = Z.of_nat (length bs) /\ 0 <= n <= u16_max /\
  range off 4 bs = le_bytes 4 EOCD_SIG /\ range (off + 20) 2 bs = le_bytes 2 n.
Definition last_eocd (bs : list byte) (off n : Z) : Prop :=
  eocd_candidate bs off n /\ forall off' n', off < off' -> ~ eocd_candidate bs off' n'.

Lemma eocd_at_Some tail off n :
  0 <= off -> eocd_at tail off = Some n <-> eocd_candidate tail off n.
Proof.
  intros Ho. unfold eocd_at, eocd_candidate, EOCD_MIN.
  destruct (Z.ltb_spec (Z.of_nat (length tail)) (off + 22)) as [?|Hl];
    [split; [done|lia]|].
  pose proof (le_value_bound 2 2 (off + 20) tail eq_refl) as Hb.
  pose proof (le_value_range_iff 4 EOCD_SIG off tail Ho ltac:(lia) ltac:(done)) as Hs.
  pose proof (le_value_range_iff 2 (u16_at tail (off + 20)) (off + 20) tail ltac:(lia) ltac:(lia) Hb)
    as Hn.
  change (Z.of_nat 4) with 4 in Hs. change (Z.of_nat 2) with 2 in Hn.
  unfold u32_at. destruct (Z.eqb_spec (le_value (range off 4 tail)) EOCD_SIG) as [He|He]; simpl.
  - destruct (Z.eqb_spec (off + 22 + u16_at tail (off + 20)) (Z.of_nat (length tail))) as [Hc|Hc].
    + split.
      * intros [= <-]. split_and!; try done; try lia.
        all: unfold u16_at, u16_max in *; try lia; tauto.
      * intros (_ & Hlen & _ & _ & Hn'). f_equal. lia.
    + split; [done|]. intros (_ & Hlen & Hr & _ & Hn'). exfalso. apply Hc.
      unfold u16_at. rewrite Hn', le_value_le_bytes; [lia|]. cbn. unfold u16_max in *. lia.
  - split; [done|]. intros (_ & _ & _ & Hs' & _). by apply Hs in Hs'.
Qed.

Lemma scan_eocd_spec tail off :
  match scan_eocd tail off with
  | Some (o, n) => 0 <= o <= Z.of_nat off /\ eocd_candidate tail o n
      /\ forall o' n', o < o' <= Z.of_nat off -> ~ eocd_candidate tail o' n'
  | None => forall o' n', 0 <= o' <= Z.of_nat off -> ~ eocd_candidate tail o' n'
  end.
Proof.
  induction off as [|off IH]; cbn [scan_eocd].
  - destruct (eocd_at tail (Z.of_nat 0)) as [n|] eqn:He.
    + apply eocd_at_Some in He; [|lia]. split_and!; [lia|lia|done|lia].
    + intros o' n' Ho' Hc. assert (o' = Z.of_nat 0) as -> by lia.
      apply eocd_at_Some in Hc; [congruence|lia].
  - destruct (eocd_at tail (Z.of_nat (S off))) as [n|] eqn:He.
    + apply eocd_at_Some in He; [|lia]. split_and!; [lia|lia|done|lia].
    + assert (forall n', ~ eocd_candidate tail (Z.of_nat (S off)) n') as Hno.
      { intros n' Hc. apply eocd_at_Some in Hc; [congruence|lia]. }
      destruct (scan_eocd tail off) as [[o n]|].
      * destruct IH as (Hr & Hc & Hl). split_and!; [lia|lia|done|].
        intros o' n' Ho' Hc'. destruct (decide (o' = Z.of_nat (S off))) as [->|]; [by eapply Hno|].
        eapply Hl; [|exact Hc']. lia.
      * intros o' n' Ho' Hc'. destruct (decide (o' = Z.of_nat (S off))) as [->|]; [by eapply Hno|].
        eapply IH; [|exact Hc']. lia.
Qed.

(** A candidate lies in the last 65557 bytes, and is one of the tail. *)
Lemma eocd_candidate_tail bs p off n :
  0 <= p -> p <= off -> p + Z.of_nat (length (range p (Z.of_nat (length bs) - p) bs)) = Z.of_nat (length bs) ->
  eocd_candidate (range p (Z.of_nat (length bs) - p) bs) (off - p) n <-> eocd_candidate bs off n.
Proof.
  intros Hp Ho Hl. unfold eocd_candidate, EOCD_MIN. split; intros (H1 & H2 & H3 & H4 & H5);
    (split_and!; [lia|lia|lia|lia| |]).
  - rewrite range_range in H4 by lia. by replace (p + (off - p)) with off in H4 by lia.
  - rewrite range_range in H5 by lia. by replace (p + (off - p + 20)) with (off + 20) in H5 by lia.
  - rewrite range_range by lia. by replace (p + (off - p)) with off by lia.
  - rewrite range_range by lia. by replace (p + (off - p + 20)) with (off + 20) by lia.
Qed.

Section Eocd.
Context {S} `{Source S} `{!Allocator} (s : S) (bs : list byte).

Definition eocd_tail_offset : Z :=
  Z.of_nat (length bs) - Z.min (Z.of_nat (length bs)) (65535 + EOCD_MIN).

Lemma find_eocd_of_tail :
  represents s bs -> EOCD_MIN <= Z.of_nat (length bs) ->
  match read_vec s eocd_tail_offset (Z.of_nat (length bs) - eocd_tail_offset) with
  | Err f => find_eocd s = Err f
  | Ok _ =>
      match find_eocd s with
      | Ok (off, n) => last_eocd bs off n
      | Err f => f = error FormatUnsupported "no EOCD with exact comment length"
                 /\ forall off n, ~ eocd_candidate bs off n
      end
  end.
Proof.
  intros Hr Hmin. unfold EOCD_MIN in *. set (p := eocd_tail_offset).
  assert (Hp : 0 <= p /\ p <= Z.of_nat (length bs) - 22 /\
    (forall off n, eocd_candidate bs off n -> p <= off)).
  { unfold p, eocd_tail_offset, eocd_candidate, EOCD_MIN, u16_max. split_and!; [lia|lia|].
    intros off n (H1 & H2 & H3 & _). lia. }
  destruct Hp as (Hp0 & Hp1 & Hpc).
  assert (Hf : find_eocd s =
    (let? tail := read_vec s p (Z.of_nat (length bs) - p) in
     match scan_eocd tail (Z.to_nat (Z.of_nat (length tail) - EOCD_MIN)) with
     | Some (off, comment_len) => Ok (p + off, comment_len)
     | None => Err (error FormatUnsupported "no EOCD with exact comment length")
     end)).
  { unfold find_eocd. rewrite (represents_len _ _ Hr).
    change (Z.of_nat (length bs) - Z.min (Z.of_nat (length bs)) (65535 + EOCD_MIN)) with p.
    replace (Z.min (Z.of_nat (length bs)) (65535 + EOCD_MIN)) with (Z.of_nat (length bs) - p)
      by (unfold p, eocd_tail_offset; lia). done. }
  rewrite Hf. destruct (read_vec s p _) as [tail|f] eqn:Ht; [|done].
  apply (read_vec_sound s bs) in Ht as [_ ->]; [|done|lia|lia].
  assert (Hl : Z.of_nat (length (range p (Z.of_nat (length bs) - p) bs)) = Z.of_nat (length bs) - p)
    by (rewrite length_range by lia; lia).
  set (tail := range p (Z.of_nat (length bs) - p) bs) in *.
  pose proof (scan_eocd_spec tail (Z.to_nat (Z.of_nat (length tail) - EOCD_MIN))) as Hs.
  unfold EOCD_MIN in *. rewrite Z2Nat.id in Hs by lia.
  destruct (scan_eocd _ _) as [[o n]|].
  - destruct Hs as (Ho & Hc & Hlast). split.
    + apply (eocd_candidate_tail bs p); [lia|lia|fold tail; lia|].
      by replace (p + o - p) with o by lia.
    + intros off' n' Hlt Hc'. pose proof (Hpc _ _ Hc') as Hge.
      pose proof Hc' as (_ & Hlen & Hn' & _). unfold EOCD_MIN in *.
      apply (eocd_candidate_tail bs p) in Hc'; [|lia|lia|fold tail; lia].
      eapply Hlast; [|exact Hc']. lia.
  - split; [done|]. intros off n Hc. pose proof (Hpc _ _ Hc) as Hge.
    pose proof Hc as (_ & Hlen & Hn & _). unfold EOCD_MIN in *.
    apply (eocd_candidate_tail bs p) in Hc; [|lia|lia|fold tail; lia].
    eapply Hs; [|exact Hc]. lia.
Qed.

Lemma find_eocd_sound off n :
  represents s bs -> EOCD_MIN <= Z.of_nat (length bs) ->
  find_eocd s = Ok (off, n) -> last_eocd bs off n.
Proof.
  intros Hr Hm Hf. pose proof (find_eocd_of_tail Hr Hm) as Ht.
  destruct (read_vec _ _ _); [by rewrite Hf in Ht|congruence].
Qed.

Lemma last_eocd_unique off n off' n' :
  last_eocd bs off n -> last_eocd bs off' n' -> off = off' /\ n = n'.
Proof.
  intros [Hc Hl] [Hc' Hl'].
  destruct (Z.lt_trichotomy off off') as [?|[->|?]];
    [by edestruct Hl| |by edestruct Hl'].
  split; [done|]. destruct Hc as (_ & ? & _), Hc' as (_ & ? & _). lia.
Qed.

Lemma find_eocd_complete off n :
  reliable s bs -> (forall site k, try_reserve site k = true) ->
  EOCD_MIN <= Z.of_nat (length bs) ->
  last_eocd bs off n -> find_eocd s = Ok (off, n).
Proof.
  intros Hr Ha Hm Hl. pose proof (find_eocd_of_tail (reliable_represents _ _ Hr) Hm) as Ht.
  unfold EOCD_MIN in *.
  rewrite read_vec_complete with (bs := bs) in Ht by
    (try done; unfold eocd_tail_offset, EOCD_MIN; lia).
  destruct (find_eocd s) as [[o m]|f].
  - by destruct (last_eocd_unique _ _ _ _ Hl Ht) as [-> ->].
  - destruct Ht as [_ Hno]. by destruct (Hno off n (proj1 Hl)).
Qed.
End Eocd.

(** C38: On a source that returns its bytes, the search answers exactly with the
    last end record whose comment reaches the end of the source, and with
    [FormatUnsupported] exactly when there is none. *)
Theorem find_eocd_correct {S} `{Source S} `{!Allocator} (s : S) bs :
  reliable s bs -> (forall site k, try_reserve site k = true) ->
  EOCD_MIN <= Z.of_nat (length bs) ->
  (forall off n, find_eocd s = Ok (off, n) <-> last_eocd bs off n) /\
  (find_eocd s = Err (error FormatUnsupported "no EOCD with exact comment length") <->
     forall off n, ~ eocd_candidate bs off n).
Proof.
  intros Hr Ha Hm. split.
  - intros off n. split; [apply find_eocd_sound; [by apply reliable_represents|done]|].
    by apply find_eocd_complete.
  - pose proof (find_eocd_of_tail s bs (reliable_represents _ _ Hr) Hm) as Ht.
    unfold EOCD_MIN in *. rewrite read_vec_complete with (bs := bs) in Ht by
      (try done; unfold eocd_tail_offset, EOCD_MIN; lia).
    destruct (find_eocd s) as [[o m]|f].
    + split; [done|]. intros Hno. by destruct (Hno o m (proj1 Ht)).
    + destruct Ht as [-> Hno]. done.
Qed.

Lemma find_eocd_correct_witness :
  let bs := lit "xx" ++ le_bytes 4 EOCD_SIG ++ replicate 16 x00 ++ le_bytes 2 3 ++ lit "hey" in
  let s := @borrowed null_sha256 None bs in
  (forall off n, find_eocd (H0 := always_reserves) s = Ok (off, n) <-> last_eocd bs off n)
  /\ find_eocd (H0 := always_reserves) s = Ok (2, 3).
Proof.
  set (bs := lit "xx" ++ le_bytes 4 EOCD_SIG ++ replicate 16 x00 ++ le_bytes 2 3 ++ lit "hey").
  split; [|vm_compute; reflexivity].
  apply (find_eocd_correct (H0 := always_reserves) (@borrowed null_sha256 None bs) bs).
  - apply borrowed_reliable. vm_compute. discriminate.
  - done.
  - vm_compute. discriminate.
Defined.

(** ** Signatures in a byte string *)

Lemma contains_window_iff w data :
  w <> [] -> contains_window w data = true <-> exists p q, data = p ++ w ++ q.
Proof.
  intros Hw. induction data as [|b data IH]; cbn [contains_window].
  - split; [done|]. intros (p & q & He). symmetry in He.
    apply app_eq_nil in He as [_ [? _]%app_eq_nil]. done.
  - rewrite orb_true_iff, IH, bool_decide_eq_true. split.
    + intros [Ht|(p & q & ->)].
      * exists [], (drop (length w) (b :: data)). simpl. rewrite <- Ht at 1. by rewrite take_drop.
      * by exists (b :: p), q.
    + intros ([|c p] & q & He); [left|right].
      * rewrite He. simpl. by rewrite take_app_length.
      * injection He as _ ->. by exists p, q.
Qed.

(** The last four bytes, padded with zeros on the left. *)
Definition tail4 (p : list byte) : list byte := drop (length p) (replicate 4 x00 ++ p).
Definition rolling_of (p : list byte) : Z := le_value (tail4 p).
Definition seen_of (p : list byte) : Z := Z.min u8_max (Z.of_nat (length p)).

Lemma length_tail4 p : length (tail4 p) = 4%nat.
Proof. unfold tail4. rewrite length_drop, length_app, length_replicate. lia. Qed.

Lemma tail4_snoc p b : tail4 (p ++ [b]) = drop 1 (tail4 p) ++ [b].
Proof.
  unfold tail4. rewrite length_app. cbn [length].
  replace (length p + 1)%nat with (S (length p)) by lia.
  rewrite drop_drop, app_assoc, drop_app_le; [f_equal; f_equal; lia|].
  rewrite length_app, length_replicate. lia.
Qed.

Lemma tail4_suffix p w :
  length w = 4%nat -> (4 <= length p)%nat -> tail4 p = w <-> exists q, p = q ++ w.
Proof.
  intros Hw Hp. unfold tail4. rewrite drop_app_ge by (rewrite length_replicate; lia).
  rewrite length_replicate. split.
  - intros <-. exists (take (length p - 4) p). by rewrite take_drop.
  - intros [q ->]. rewrite length_app, Hw. replace (length q + 4 - 4)%nat with (length q) by lia.
    apply drop_app_length.
Qed.

Lemma contains_window_snoc w p b :
  length w = 4%nat ->
  contains_window w (p ++ [b]) =
    contains_window w p || ((4 <=? seen_of (p ++ [b])) && bool_decide (tail4 (p ++ [b]) = w)).
Proof.
  intros Hw. assert (Hne : w <> []) by (by intros ->).
  apply eq_bool_prop_intro. rewrite !Is_true_true, orb_true_iff, andb_true_iff, bool_decide_eq_true.
  rewrite !contains_window_iff by done. unfold seen_of, u8_max.
  rewrite Z.leb_le, length_app. cbn [length]. split.
  - intros (q & r & He). destruct r as [|c r _] using rev_ind.
    + rewrite app_nil_r in He. right. apply (f_equal length) in He as Hl.
      rewrite !length_app in Hl. cbn [length] in Hl. split; [lia|].
      apply tail4_suffix; [done|rewrite length_app; cbn [length]; lia|by exists q].
    + left. rewrite !app_assoc in He. apply app_inj_tail in He as [-> _].
      exists q, r. by rewrite <- app_assoc.
  - intros [(q & r & ->)|[Hl Ht]].
    + exists q, (r ++ [b]). by rewrite <- !app_assoc.
    + apply tail4_suffix in Ht as [q ->]; [|done|rewrite length_app; cbn [length]; lia].
      exists q, []. by rewrite app_nil_r.
Qed.

Lemma contains_window_app w p q :
  w <> [] -> contains_window w p = true -> contains_window w (p ++ q) = true.
Proof.
  intros Hw. rewrite !contains_window_iff by done. intros (a & c & ->).
  exists a, (c ++ q). by rewrite <- !app_assoc.
Qed.

Lemma rolling_signature p sig :
  0 <= sig < 256 ^ 4 -> (rolling_of p =? sig) = bool_decide (tail4 p = le_bytes 4 sig).
Proof.
  intros Hs. apply eq_bool_prop_intro. rewrite !Is_true_true, Z.eqb_eq, bool_decide_eq_true.
  unfold rolling_of. split.
  - apply le_value_eq, length_tail4.
  - intros ->. by apply le_value_le_bytes.
Qed.

(** The three signatures of a record inside a payload. *)
Lemma contains_stream_signature_snoc p b :
  contains_stream_signature (p ++ [b]) =
    contains_stream_signature p
    || ((4 <=? seen_of (p ++ [b]))
        && ((rolling_of (p ++ [b]) =? LFH_SIG) || (rolling_of (p ++ [b]) =? CDH_SIG)
            || (rolling_of (p ++ [b]) =? DATA_DESCRIPTOR_SIG))).
Proof.
  unfold contains_stream_signature, contains_signature. cbn [existsb].
  rewrite !rolling_signature by (unfold LFH_SIG, CDH_SIG, DATA_DESCRIPTOR_SIG; lia).
  rewrite !contains_window_snoc by apply length_le_bytes.
  by destruct (contains_window _ p), (contains_window _ p), (contains_window _ p), (4 <=? _),
    (bool_decide _), (bool_decide _), (bool_decide _).
Qed.

Lemma contains_stream_signature_app p q :
  contains_stream_signature p = true -> contains_stream_signature (p ++ q) = true.
Proof.
  unfold contains_stream_signature, contains_signature. cbn [existsb].
  rewrite !orb_true_iff. intros [?|[?|[?|?]]]; [left|right; left|right; right; left|done];
    (apply contains_window_app; [|done]; intros Hn; apply (f_equal length) in Hn;
     rewrite length_le_bytes in Hn; done).
Qed.

Lemma land_shiftl_low a b n : 0 <= n -> 0 <= a < 2 ^ n -> Z.land a (Z.shiftl b n) = 0.
Proof.
  intros Hn Ha. rewrite <- (Z.mod_small a (2 ^ n)), <- Z.land_ones by done.
  rewrite <- Z.land_assoc. apply Z.bits_inj'. intros i Hi.
  rewrite !Z.land_spec, Z.shiftl_spec, Z.testbit_ones, Z.bits_0 by done.
  destruct (Z.leb_spec 0 i), (Z.ltb_spec i n); simpl; rewrite ?andb_false_r; try done.
  rewrite (Z.testbit_neg_r b) by lia. by rewrite andb_false_r.
Qed.

Lemma lor_shiftl_add a b n : 0 <= n -> 0 <= a < 2 ^ n -> Z.lor a (Z.shiftl b n) = a + b * 2 ^ n.
Proof.
  intros Hn Ha. rewrite <- (Z.shiftl_mul_pow2 b n) by done.
  pose proof (land_shiftl_low a b n Hn Ha) as Hl.
  by rewrite Z.add_nocarry_lxor, Z.lxor_lor.
Qed.

Lemma rolling_snoc p b :
  rolling_of (p ++ [b]) = Z.lor (Z.shiftr (rolling_of p) 8) (Z.shiftl (u8 b) 24).
Proof.
  unfold rolling_of. rewrite tail4_snoc. pose proof (length_tail4 p) as Hl.
  destruct (tail4 p) as [|a0 [|a1 [|a2 [|a3 [|]]]]]; try discriminate Hl.
  pose proof (u8_range a0). pose proof (u8_range a1). pose proof (u8_range a2).
  pose proof (u8_range a3). pose proof (u8_range b).
  rewrite Z.shiftr_div_pow2 by lia. cbn [drop app le_value].
  replace ((u8 a0 + 256 * (u8 a1 + 256 * (u8 a2 + 256 * (u8 a3 + 256 * 0)))) / 2 ^ 8)
    with (u8 a1 + 256 * (u8 a2 + 256 * u8 a3)).
  - rewrite lor_shiftl_add by lia. lia.
  - change (2 ^ 8) with 256. apply (Z.div_unique_pos _ 256 _ (u8 a0)); lia.
Qed.

Lemma seen_snoc p b : seen_of (p ++ [b]) = Z.min u8_max (seen_of p + 1).
Proof. unfold seen_of, u8_max. rewrite length_app. cbn [length]. lia. Qed.

(** One buffer, after a prefix without signature. *)
Lemma scan_signatures_spec bytes p :
  contains_stream_signature p = false ->
  match scan_signatures bytes (rolling_of p) (seen_of p) with
  | None => contains_stream_signature (p ++ bytes) = true
  | Some (rolling, seen) =>
      rolling = rolling_of (p ++ bytes) /\ seen = seen_of (p ++ bytes)
      /\ contains_stream_signature (p ++ bytes) = false
  end.
Proof.
  revert p. induction bytes as [|b bytes IH]; intros p Hp; cbn [scan_signatures].
  - by rewrite app_nil_r.
  - rewrite <- (rolling_snoc p b), <- (seen_snoc p b).
    pose proof (contains_stream_signature_snoc p b) as Hc.
    rewrite Hp, orb_false_l in Hc. replace (p ++ b :: bytes) with ((p ++ [b]) ++ bytes)
      by (by rewrite <- app_assoc).
    destruct (_ && _).
    + by apply contains_stream_signature_app.
    + by apply IH.
Qed.

(** ** The scan over a source *)

Section ScanLemmas.
Context {S} `{Source S} (s : S).

(** Every iteration that continues leaves less to read, whatever the source
    answers. *)
Lemma scan_total off n :
  0 <= n -> exists r, contains_stream_signature_in_range s off n = Some r.
Proof.
  intros Hn. unfold contains_stream_signature_in_range, reader.
  destruct (checked_range _ _ _) as [[]|e]; cbn [map_err]; [|eauto].
  apply (run_loop_total _ (fun st => 0 <= rr_remaining (sc_reader st))
    (fun st => Z.to_nat ((rr_remaining (sc_reader st) + SCAN_BUFFER - 1) / SCAN_BUFFER))).
  - intros st Hst. unfold scan_step. destruct (range_read _ _ _) as [r [[|b l]|e]]; try done.
    by destruct (scan_signatures _ _ _) as [[]|].
  - intros [[o rem] roll seen] s' Hst Hs. unfold scan_step, range_read in Hs. simpl in Hst, Hs.
    destruct (Z.eqb_spec rem 0); [done|]. unfold SCAN_BUFFER in *.
    destruct (src_read _ _ _) as [[|b l]|e]; try done.
    destruct (scan_signatures _ _ _) as [[]|]; [|done]. injection Hs as <-. simpl. split; [lia|].
    assert ((rem - Z.min rem 65536 + 65535) / 65536 < (rem + 65535) / 65536).
    { destruct (Z.leb_spec rem 65536).
      - replace (rem - Z.min rem 65536 + 65535) with 65535 by lia.
        apply Z.lt_le_trans with (65536 / 65536); [done|]. apply Z.div_le_mono; lia.
      - apply Z.lt_le_trans with ((rem - Z.min rem 65536 + 65535) / 65536 + 1); [lia|].
        rewrite <- Z.div_add by lia. apply Z.div_le_mono; lia. }
    replace (64 * 1024) with 65536 by done.
    replace (rem - Z.min rem 65536 + 65536 - 1) with (rem - Z.min rem 65536 + 65535) by lia.
    replace (rem + 65536 - 1) with (rem + 65535) by lia.
    pose proof (Z.div_pos (rem - Z.min rem 65536 + 65535) 65536). lia.
  - simpl. lia.
  - simpl. unfold SCAN_BUFFER. assert ((n + 64 * 1024 - 1) / (64 * 1024) <= n / (64 * 1024) + 1).
    { rewrite <- Z.div_add by lia. apply Z.div_le_mono; lia. }
    pose proof (Z.div_pos n (64 * 1024)). lia.
Qed.

Context (bs : list byte).

(** After some buffers: what has been read, and that it holds no signature. *)
Definition scan_invariant (off n : Z) (st : ScanState) : Prop :=
  exists k, 0 <= k <= n /\ sc_reader st = {| rr_offset := off + k; rr_remaining := n - k |}
    /\ sc_rolling st = rolling_of (range off k bs) /\ sc_seen st = seen_of (range off k bs)
    /\ contains_stream_signature (range off k bs) = false.

Lemma scan_step_invariant off n st :
  represents s bs -> 0 <= off -> off + n <= Z.of_nat (length bs) ->
  scan_invariant off n st ->
  (forall st', scan_step s st = Some (Ok (Continue st')) -> scan_invariant off n st')
  /\ (forall b, scan_step s st = Some (Ok (Return b)) ->
        b = contains_stream_signature (range off n bs)).
Proof.
  intros Hr Ho Hl (k & Hk & Hrd & Hroll & Hseen & Hno). destruct st as [rd roll seen].
  simpl in *. subst. unfold scan_step, range_read, SCAN_BUFFER. simpl.
  destruct (Z.eqb_spec (n - k) 0) as [Hz|Hz]; simpl.
  - split; [done|]. intros b [= <-]. by replace n with k by lia.
  - set (c := Z.min (n - k) (64 * 1024)). assert (0 < c /\ k + c <= n) by (unfold c; lia).
    destruct (src_read s (off + k) c) as [bytes|e] eqn:Hread; [|by split].
    apply (represents_read _ _ Hr) in Hread as [_ Hb]; [|lia|lia].
    assert (Hlen : length bytes = Z.to_nat c) by (rewrite Hb, length_range; lia).
    assert (Happ : range off k bs ++ bytes = range off (k + c) bs)
      by (rewrite range_app by lia; by rewrite Hb).
    pose proof (scan_signatures_spec bytes _ Hno) as Hscan. rewrite Happ in Hscan.
    destruct bytes as [|b0 bytes]; [simpl in Hlen; lia|].
    destruct (scan_signatures _ _ _) as [[r' s']|].
    + destruct Hscan as (-> & -> & Hno'). split; [|done]. intros st' [= <-].
      exists (k + c). simpl. split_and!; try done; try lia. f_equal; lia.
    + split; [done|]. intros b [= <-]. symmetry.
      replace n with (k + c + (n - (k + c))) by lia. rewrite range_app by lia.
      by apply contains_stream_signature_app.
Qed.

Lemma scan_sound off n b :
  represents s bs -> 0 <= off -> 0 <= n ->
  contains_stream_signature_in_range s off n = Some (Ok b) ->
  off + n <= Z.of_nat (length bs) /\ b = contains_stream_signature (range off n bs).
Proof.
  intros Hr Ho Hn Hs. unfold contains_stream_signature_in_range, reader in Hs.
  destruct (checked_range _ _ _) as [[]|e] eqn:Hc; [|done]. cbn [map_err] in Hs.
  apply checked_range_ok in Hc as [_ Hc]. rewrite (represents_len _ _ Hr) in Hc.
  split; [done|]. revert Hs.
  apply (run_loop_invariant _ (scan_invariant off n)
    (fun b => b = contains_stream_signature (range off n bs))).
  - intros st st' Hi. by apply scan_step_invariant.
  - intros st b' Hi. by apply scan_step_invariant.
  - exists 0. simpl. split_and!; try done; try lia. f_equal; lia.
Qed.

Lemma scan_complete off n :
  reliable s bs -> 0 <= off -> 0 <= n -> off + n <= Z.of_nat (length bs) ->
  contains_stream_signature_in_range s off n
    = Some (Ok (contains_stream_signature (range off n bs))).
Proof.
  intros Hr Ho Hn Hl. pose proof (reliable_represents _ _ Hr) as Hrep.
  destruct (scan_total off n Hn) as [[b|e] Hb].
  - rewrite Hb. do 2 f_equal. by apply scan_sound in Hb as [_ ->].
  - exfalso. unfold contains_stream_signature_in_range, reader in Hb.
    rewrite (represents_len _ _ Hrep), (proj2 (checked_range_ok _ _ _)) in Hb
      by (pose proof (represents_u64 _ _ Hrep); lia). cbn [map_err] in Hb.
    apply run_loop_steps in Hb as (st' & Hsteps & He).
    assert (Hi : scan_invariant off n st').
    { assert (scan_invariant off n {| sc_reader := {| rr_offset := off; rr_remaining := n |};
        sc_rolling := 0; sc_seen := 0 |}) as Hi0.
      { exists 0. simpl. split_and!; try done; try lia. f_equal; lia. }
      revert Hi0. induction Hsteps as [|x y z Hxy _ IH]; [done|]. intros Hx. apply IH; [done|].
      by eapply (scan_step_invariant off n x Hrep Ho Hl Hx). }
    destruct Hi as (k & Hk & Hrd & _). unfold scan_step, range_read in He. rewrite Hrd in He.
    simpl in He. destruct (Z.eqb_spec (n - k) 0) as [|Hz]; simpl in He; [done|].
    rewrite (reliable_read _ _ Hr) in He by (unfold SCAN_BUFFER; lia).
    destruct (range _ _ _); [done|]. by destruct (scan_signatures _ _ _) as [[]|].
Qed.
End ScanLemmas.

(** The rolling scan of a stored payload always ends, on any source; on one
    that returns its bytes it answers whether a record signature occurs in the
    payload, wherever the 64 KiB buffers split it. *)
Theorem stream_scan_correct {S : Type} `{Source S} (s : S) (bs : list byte) (off n : Z) :
  0 <= off -> 0 <= n ->
  (exists r, contains_stream_signature_in_range s off n = Some r)
  /\ (reliable s bs -> off + n <= Z.of_nat (length bs) ->
   forall b, contains_stream_signature_in_range s off n = Some (Ok b) <->
     (b = true <-> exists p sig q, range off n bs = p ++ le_bytes 4 sig ++ q
        /\ sig ∈ [LFH_SIG; CDH_SIG; DATA_DESCRIPTOR_SIG])).
Proof.
  intros Ho Hn. split; [by apply scan_total|]. intros Hr Hl b.
  rewrite (scan_complete s bs) by done.
  assert (Hiff : contains_stream_signature (range off n bs) = true <->
    exists p sig q, range off n bs = p ++ le_bytes 4 sig ++ q
      /\ sig ∈ [LFH_SIG; CDH_SIG; DATA_DESCRIPTOR_SIG]).
  { unfold contains_stream_signature, contains_signature. rewrite existsb_exists. split.
    - intros (sig & Hin & Hc). apply contains_window_iff in Hc as (p & q & He); [|done].
      exists p, sig, q. split; [done|by apply list_elem_of_In].
    - intros (p & sig & q & He & Hin). exists sig. split; [by apply list_elem_of_In|].
      apply contains_window_iff; [done|by exists p, q]. }
  rewrite <- Hiff. clear Hiff. destruct (contains_stream_signature _), b; split; try done; intros;
    simplify_eq; try tauto; exfalso; intuition congruence.
Qed.

Lemma stream_scan_correct_witness :
  let bs := lit "ab" ++ le_bytes 4 CDH_SIG ++ lit "c" in
  let s := @borrowed null_sha256 None bs in
  contains_stream_signature_in_range s 1 6 = Some (Ok true)
  /\ contains_stream_signature_in_range s 1 4 = Some (Ok false)
  /\ (true = true <-> exists p sig q, range 1 6 bs = p ++ le_bytes 4 sig ++ q
        /\ sig ∈ [LFH_SIG; CDH_SIG; DATA_DESCRIPTOR_SIG]).
Proof.
  set (bs := lit "ab" ++ le_bytes 4 CDH_SIG ++ lit "c").
  split; [vm_compute; reflexivity|]. split; [vm_compute; reflexivity|].
  apply (proj2 (stream_scan_correct (@borrowed null_sha256 None bs) bs 1 6 ltac:(lia) ltac:(lia))).
  - apply borrowed_reliable. vm_compute. discriminate.
  - vm_compute. discriminate.
  - vm_compute. reflexivity.
Defined.
