(* ===== verification/ZipValues.v ===== *)
(** * ZIP64 values have one reading ([resolve_zip64_central_values] of [zip.rs])

    A central ZIP64 field lists, in a fixed order, the values its three legacy
    fields do not carry, and may repeat values they do carry.  A reading is a
    choice of which values are listed that explains every byte of the field;
    the resolver accepts a field exactly when it has a single reading. *)

From S2P Require Import Prelude ByteFields ZipFields.
Local Open Scope Z_scope.
#[local] Arguments le_bytes : simpl never.

(** The values a presence mask selects, in field order. *)
Fixpoint selected (mask index : Z) (vals : list Z) : list Z :=
  match vals with
  | [] => []
  | v :: vals =>
      if Z.land mask (Z.shiftl 1 index) =? 0 then selected mask (index + 1) vals
      else v :: selected mask (index + 1) vals
  end.

(** A value is the legacy one unless the legacy field is saturated and the
    value is listed. *)
Fixpoint explains (mask index : Z) (legacy vals : list Z) : Prop :=
  match legacy, vals with
  | [], [] => True
  | l :: legacy, v :: vals =>
      ((l = ZIP64_U32_SENTINEL /\ Z.land mask (Z.shiftl 1 index) <> 0 /\ is_u64 v) \/ v = l)
      /\ explains mask (index + 1) legacy vals
  | _, _ => False
  end.

(** A saturated legacy field is listed. *)
Fixpoint lists_required (mask index : Z) (legacy : list Z) : Prop :=
  match legacy with
  | [] => True
  | l :: legacy =>
      (l = ZIP64_U32_SENTINEL -> Z.land mask (Z.shiftl 1 index) <> 0)
      /\ lists_required mask (index + 1) legacy
  end.

Definition values_list (v : Zip64CentralValues) : list Z :=
  [uncompressed_size v; compressed_size v; local_header_offset v].

Record central_reading (data : list byte) (legacy : list Z) (v : Zip64CentralValues) : Prop := {
  reading_mask : 1 <= presence_mask v <= 7;
  reading_data :
    data = concat (map (le_bytes 8) (selected (presence_mask v) 0 (values_list v)));
  reading_explains : explains (presence_mask v) 0 legacy (values_list v);
  reading_required : lists_required (presence_mask v) 0 legacy
}.

(** ** One mask *)

Definition u64_fields (vals : list Z) : list field := map (fun v => (8%nat, v)) vals.

Lemma width_u64_fields vals : width (u64_fields vals) = 8 * Z.of_nat (length vals).
Proof. induction vals as [|v vals IH]; cbn [u64_fields map width fst length]; [done|].
  unfold u64_fields in IH. rewrite IH. lia. Qed.

Lemma fields_bytes_u64 vals : fields_bytes (u64_fields vals) = concat (map (le_bytes 8) vals).
Proof. unfold fields_bytes, u64_fields. by rewrite map_map. Qed.

Lemma u64_at_range data pos : 0 <= u64_at data pos < 256 ^ 8.
Proof. by apply (le_value_bound 8 8). Qed.

Lemma resolve_fields_spec data mask index cursor legacy vals stop :
  Forall is_u32 legacy ->
  resolve_fields data mask index cursor legacy = Some (vals, stop) ->
  explains mask index legacy vals
  /\ stop = cursor + 8 * Z.of_nat (length (selected mask index vals))
  /\ fields_at cursor (u64_fields (selected mask index vals)) data
  /\ Forall field_ok (u64_fields (selected mask index vals)).
Proof.
  intros Hl. revert index cursor vals stop.
  induction Hl as [|l legacy Hu _ IH]; intros index cursor vals stop Hr; cbn [resolve_fields] in Hr.
  - injection Hr as <- <-. cbn. split_and!; (done || lia || constructor).
  - pose proof (u64_at_range data cursor) as Hb.
    destruct (Z.eqb_spec (Z.land mask (Z.shiftl 1 index)) 0) as [Hbit|Hbit].
    + destruct (resolve_fields _ _ _ _ _) as [[vs st]|] eqn:Hrec; [|done].
      simpl in Hr. injection Hr as <- <-. apply IH in Hrec as (He & Hs & Hf & Hok).
      cbn [explains selected]. rewrite (proj2 (Z.eqb_eq _ _) Hbit). split_and!; try done. by right.
    + destruct (Z.eqb_spec l ZIP64_U32_SENTINEL) as [Hs64|Hs64];
        [|destruct (Z.eqb_spec (u64_at data cursor) l) as [Hv|]; cbn [negb] in Hr; [|done]];
        (destruct (resolve_fields _ _ _ _ _) as [[vs st]|] eqn:Hrec; [|done]);
        simpl in Hr; injection Hr as <- <-; apply IH in Hrec as (He & Hs & Hf & Hok);
        cbn [explains selected]; rewrite (proj2 (Z.eqb_neq _ _) Hbit);
        cbn [length u64_fields map fields_at fst snd].
      * split_and!; try done; [left; unfold is_u64, u64_max; split_and!; (done || lia)|lia|].
        constructor; [exact Hb|done].
      * rewrite Hv in Hb. split_and!; try done; [by right|lia|]. constructor; [exact Hb|done].
Qed.

Lemma resolve_fields_complete data mask index cursor legacy vals :
  explains mask index legacy vals -> lists_required mask index legacy ->
  fields_at cursor (u64_fields (selected mask index vals)) data ->
  resolve_fields data mask index cursor legacy
    = Some (vals, cursor + 8 * Z.of_nat (length (selected mask index vals))).
Proof.
  revert index cursor vals.
  induction legacy as [|l legacy IH]; intros index cursor [|v vals]; cbn [explains]; try done.
  { intros _ _ _. cbn. do 2 f_equal. lia. }
  intros [Hv He] [Hreq Hr]. cbn [selected resolve_fields].
  destruct (Z.eqb_spec (Z.land mask (Z.shiftl 1 index)) 0) as [Hbit|Hbit]; intros Hf.
  - rewrite (IH (index + 1) cursor vals) by done. simpl. do 2 f_equal.
    destruct Hv as [(_ & Hn & _)| ->]; done.
  - cbn [u64_fields map fields_at fst snd] in Hf. destruct Hf as [Hread Hf].
    change (le_value (range cursor (Z.of_nat 8) data)) with (u64_at data cursor) in Hread.
    change (Z.of_nat 8) with 8 in Hf. rewrite (IH (index + 1) (cursor + 8) vals) by done.
    cbn [length]. rewrite Hread. simpl.
    destruct (Z.eqb_spec l ZIP64_U32_SENTINEL) as [|Hs].
    + do 2 f_equal. lia.
    + destruct Hv as [[? _]| ->]; [done|]. rewrite Z.eqb_refl. simpl. do 2 f_equal. lia.
Qed.

Lemma length_selected mask index vals : (length (selected mask index vals) <= length vals)%nat.
Proof.
  revert index. induction vals as [|v vals IH]; intros index; cbn [selected length]; [done|].
  specialize (IH (index + 1)). destruct (_ =? 0); cbn [length]; lia.
Qed.

(** The guard on a mask: it has one value per eight bytes, and every required
    value. *)
Lemma mask_guard mask lu lc lo :
  mask ∈ presence_masks ->
  Z.land mask (required_from 0 [lu; lc; lo] 0) = required_from 0 [lu; lc; lo] 0
  <-> lists_required mask 0 [lu; lc; lo].
Proof.
  intros Hm. cbn [required_from lists_required].
  destruct (Z.eqb_spec lu ZIP64_U32_SENTINEL), (Z.eqb_spec lc ZIP64_U32_SENTINEL),
    (Z.eqb_spec lo ZIP64_U32_SENTINEL);
    repeat (apply elem_of_cons in Hm as [->|Hm]; [vm_compute; intuition congruence|]);
    by apply elem_of_nil in Hm.
Qed.

Lemma mask_selects mask u c o :
  mask ∈ presence_masks -> Z.of_nat (length (selected mask 0 [u; c; o])) = count_ones mask.
Proof.
  intros Hm. repeat (apply elem_of_cons in Hm as [->|Hm]; [reflexivity|]).
  by apply elem_of_nil in Hm.
Qed.

(** What one iteration over the masks adds. *)
Definition mask_value (data : list byte) (legacy : list Z) (mask : Z) : option Zip64CentralValues :=
  (central_mask_step data legacy (required_from 0 legacy 0) (0, None) mask).2.

Lemma central_mask_step_add data legacy required n u mask :
  let v := (central_mask_step data legacy required (0, None) mask).2 in
  central_mask_step data legacy required (n, u) mask =
    match v with Some v => (Z.min u8_max (n + 1), Some v) | None => (n, u) end.
Proof.
  cbv zeta. unfold central_mask_step. destruct (_ || _); [done|].
  destruct (resolve_fields _ _ _ _ _) as [[[|a [|b [|c [|]]]] cur]|]; try done.
  by destruct (_ =? _).
Qed.

Lemma mask_value_reading data lu lc lo mask v :
  Forall is_u32 [lu; lc; lo] -> mask ∈ presence_masks ->
  mask_value data [lu; lc; lo] mask = Some v
  <-> central_reading data [lu; lc; lo] v /\ presence_mask v = mask.
Proof.
  intros Hu Hm.
  assert (Hrange : 1 <= mask <= 7) by (unfold presence_masks in Hm; rewrite !elem_of_cons, elem_of_nil in Hm; lia).
  pose proof (mask_guard mask lu lc lo Hm) as Hg. split.
  - unfold mask_value, central_mask_step. intros Hv.
    destruct (negb (count_ones mask =? _) || _) eqn:Hguard; [done|]. breflect.
    apply Hg in H0.
    destruct (resolve_fields _ _ _ _ _) as [[[|a [|b [|c [|]]]] cur]|] eqn:Hr; try done.
    destruct (Z.eqb_spec cur (Z.of_nat (length data))) as [Hc|]; [|done].
    injection Hv as <-. split; [|done]. apply resolve_fields_spec in Hr as (He & Hs & Hf & Hok); [|done].
    split; unfold values_list;
      cbn [presence_mask uncompressed_size compressed_size local_header_offset]; try done.
    rewrite <- fields_bytes_u64.
    set (fs := u64_fields (selected mask 0 [a; b; c])) in *.
    assert (width fs = Z.of_nat (length data)) as Hw by (unfold fs; rewrite width_u64_fields; lia).
    rewrite <- (fields_bytes_at 0) with (l := data) in Hf by (done || lia).
    rewrite <- Hf. symmetry. apply range_full. done.
  - intros [[Hmr Hd He Hreq] Hpm]. rewrite Hpm in *. unfold mask_value, central_mask_step.
    rewrite <- fields_bytes_u64 in Hd. pose proof (length_fields_bytes (u64_fields (selected mask 0 (values_list v)))) as Hlen.
    rewrite <- Hd, width_u64_fields in Hlen.
    assert (Hone : Z.of_nat (length (selected mask 0 (values_list v))) = count_ones mask)
      by by apply mask_selects.
    rewrite (proj2 (Z.eqb_eq _ _) (proj2 Hg Hreq)), (proj2 (Z.eqb_eq (count_ones mask) (Z.of_nat (length data) / 8))) by
      (rewrite Hlen, Z.mul_comm, Z.div_mul; lia).
    simpl orb. cbn iota.
    assert (Hok : Forall field_ok (u64_fields (selected mask 0 (values_list v)))).
    { clear -Hu He. unfold values_list in *. revert Hu He. generalize [lu; lc; lo] as legacy.
      generalize 0 as index. generalize [uncompressed_size v; compressed_size v; local_header_offset v] as vals.
      induction vals as [|x vals IH]; intros index [|l legacy] Hu; cbn [explains]; try done.
      intros [Hx He]. apply Forall_cons in Hu as [Hl Hu]. cbn [selected].
      destruct (_ =? 0); [by eapply IH|]. constructor; [|by eapply IH].
      unfold field_ok. cbn [fst snd]. unfold is_u32, u32_max in Hl.
      destruct Hx as [(_ & _ & Hx)| ->]; unfold is_u64, u64_max in *; lia. }
    rewrite resolve_fields_complete with (vals := values_list v); try done.
    + unfold values_list at 1. rewrite (proj2 (Z.eqb_eq _ _)) by lia. simpl.
      rewrite <- Hpm. by destruct v.
    + apply fields_bytes_at; try done; [rewrite width_u64_fields; lia|]. rewrite <- Hd.
      apply range_full. rewrite width_u64_fields. lia.
Qed.

(** ** All masks *)

Definition readings (data : list byte) (legacy : list Z) : list Zip64CentralValues :=
  omap (mask_value data legacy) presence_masks.

Lemma fold_masks data legacy ms n u :
  0 <= n -> n + Z.of_nat (length ms) <= u8_max ->
  foldl (central_mask_step data legacy (required_from 0 legacy 0)) (n, u) ms
  = (n + Z.of_nat (length (omap (mask_value data legacy) ms)),
     match last (omap (mask_value data legacy) ms) with Some v => Some v | None => u end).
Proof.
  revert n u. induction ms as [|m ms IH]; intros n u Hn Hm; cbn [foldl length] in *.
  - simpl. f_equal. lia.
  - rewrite central_mask_step_add. fold (mask_value data legacy m). cbn [omap list_omap].
    destruct (mask_value data legacy m) as [v|].
    + rewrite IH by lia. fold (omap (mask_value data legacy) ms).
      rewrite last_cons. cbn [length]. unfold u8_max in *. f_equal; [lia|].
      by destruct (last _).
    + rewrite IH by lia. done.
Qed.

Lemma elem_of_readings data lu lc lo v :
  Forall is_u32 [lu; lc; lo] ->
  v ∈ readings data [lu; lc; lo] <-> central_reading data [lu; lc; lo] v.
Proof.
  intros Hu. unfold readings. rewrite list_elem_of_omap. split.
  - intros (m & Hm & Hv). by apply mask_value_reading in Hv as [? _].
  - intros Hv. exists (presence_mask v).
    assert (Hm : presence_mask v ∈ presence_masks).
    { pose proof (reading_mask _ _ _ Hv). unfold presence_masks.
      rewrite !elem_of_cons, elem_of_nil. lia. }
    split; [done|]. by apply mask_value_reading.
Qed.

Lemma NoDup_readings data lu lc lo :
  Forall is_u32 [lu; lc; lo] -> NoDup (readings data [lu; lc; lo]).
Proof.
  intros Hu. unfold readings.
  assert (Hms : forall m, m ∈ presence_masks -> forall v,
    mask_value data [lu; lc; lo] m = Some v -> presence_mask v = m).
  { intros m Hm v Hv. by apply mask_value_reading in Hv as [_ ?]. }
  assert (Hnd : NoDup presence_masks) by (apply (bool_decide_unpack _); by vm_compute).
  revert Hms Hnd. generalize presence_masks as ms.
  induction ms as [|m ms IH]; intros Hms Hnd; cbn [omap list_omap]; [constructor|].
  apply NoDup_cons in Hnd as [Hm Hnd].
  assert (IH' : NoDup (omap (mask_value data [lu; lc; lo]) ms))
    by (apply IH; [intros m' ?; apply Hms; by right|done]).
  destruct (mask_value data [lu; lc; lo] m) as [v|] eqn:Hv; [|done].
  constructor; [|done]. intros (m' & Hm' & Hv')%list_elem_of_omap.
  apply Hm. rewrite <- (Hms m (list_elem_of_here _ _) v Hv).
  by rewrite (Hms m' (list_elem_of_further _ _ _ Hm') v Hv').
Qed.

(** A field that has no reading because of its length alone. *)
Lemma reading_length data legacy v :
  central_reading data legacy v ->
  (length data =? 0)%nat || (24 <? Z.of_nat (length data))
    || negb (Z.of_nat (length data) mod 8 =? 0) = false.
Proof.
  intros [Hm Hd _ _]. rewrite <- fields_bytes_u64 in Hd.
  pose proof (length_fields_bytes (u64_fields (selected (presence_mask v) 0 (values_list v)))) as Hl.
  rewrite <- Hd, width_u64_fields in Hl.
  pose proof (length_selected (presence_mask v) 0 (values_list v)) as Hs.
  change (length (values_list v)) with 3%nat in Hs.
  assert (0 < length (selected (presence_mask v) 0 (values_list v)))%nat as Hp.
  { assert (Hin : presence_mask v ∈ presence_masks)
      by (unfold presence_masks; rewrite !elem_of_cons, elem_of_nil; lia).
    pose proof (mask_selects _ (uncompressed_size v) (compressed_size v)
      (local_header_offset v) Hin) as Hc. unfold values_list. clear -Hin Hc.
    assert (0 < count_ones (presence_mask v)); [|lia].
    repeat (apply elem_of_cons in Hin as [->|Hin]; [done|]). by apply elem_of_nil in Hin. }
  rewrite Hl, Z.mul_comm, Z.mod_mul by lia.
  rewrite (proj2 (Nat.eqb_neq _ _)) by lia. rewrite (proj2 (Z.ltb_ge _ _)) by lia. done.
Qed.

Lemma resolve_by_readings data lu lc lo :
  Forall is_u32 [lu; lc; lo] ->
  match readings data [lu; lc; lo] with
  | [] => exists e, e <> Ambiguous
            /\ resolve_zip64_central_values data lu lc lo = Err e
  | [v] => resolve_zip64_central_values data lu lc lo = Ok v
  | _ => resolve_zip64_central_values data lu lc lo = Err Ambiguous
  end.
Proof.
  intros Hu. unfold resolve_zip64_central_values.
  destruct (_ || _) eqn:Hlen.
  - destruct (readings data [lu; lc; lo]) as [|v l] eqn:Hr; [by exists InvalidLength|].
    assert (Hv : v ∈ readings data [lu; lc; lo]) by (rewrite Hr; left).
    apply elem_of_readings, reading_length in Hv; [congruence|done].
  - rewrite fold_masks by (vm_compute; done). fold (readings data [lu; lc; lo]).
    destruct (readings data [lu; lc; lo]) as [|v [|w l]] eqn:Hr.
    + cbn [length]. rewrite (proj2 (Z.eqb_eq _ 0)) by lia. destruct (negb (required_from _ _ _ =? 0)); eexists; (split; [|reflexivity]; done).
    + done.
    + cbn [length]. rewrite (proj2 (Z.eqb_neq _ 0)) by lia.
      by rewrite (proj2 (Z.eqb_neq _ 1)) by lia.
Qed.

(** The resolver returns a set of values exactly when it is the only reading of
    the extra field under the legacy fields, and reports an ambiguity exactly
    when there are two readings. *)
Theorem resolve_zip64_central_values_unique data lu lc lo :
  is_u32 lu -> is_u32 lc -> is_u32 lo ->
  (forall v, resolve_zip64_central_values data lu lc lo = Ok v <->
     central_reading data [lu; lc; lo] v
     /\ forall v', central_reading data [lu; lc; lo] v' -> v' = v)
  /\ (resolve_zip64_central_values data lu lc lo = Err Ambiguous <->
     exists v v', central_reading data [lu; lc; lo] v /\ central_reading data [lu; lc; lo] v'
       /\ v <> v').
Proof.
  intros Hlu Hlc Hlo. assert (Hu : Forall is_u32 [lu; lc; lo]) by (repeat constructor; apply Hlu || apply Hlc || apply Hlo).
  pose proof (resolve_by_readings data lu lc lo Hu) as Hr.
  pose proof (NoDup_readings data lu lc lo Hu) as Hnd.
  assert (Hel : forall v, central_reading data [lu; lc; lo] v <-> v ∈ readings data [lu; lc; lo])
    by (intros v; symmetry; by apply elem_of_readings).
  setoid_rewrite Hel. clear Hel.
  destruct (readings data [lu; lc; lo]) as [|v [|w l]].
  - destruct Hr as (e & He & ->). split.
    + intros v. split; [done|]. by intros [?%elem_of_nil _].
    + split; [by intros [= ->]|]. by intros (v & v' & ?%elem_of_nil & _).
  - rewrite Hr. split.
    + intros v'. setoid_rewrite list_elem_of_singleton. split.
      * intros [= <-]. done.
      * by intros [-> _].
    + split; [done|]. intros (v1 & v2 & H1 & H2 & Hn).
      apply list_elem_of_singleton in H1, H2. congruence.
  - rewrite Hr. split.
    + intros v'. split; [done|]. intros [_ Hall].
      pose proof (Hall v (list_elem_of_here _ _)).
      pose proof (Hall w (list_elem_of_further _ _ _ (list_elem_of_here _ _))). subst.
      apply NoDup_cons in Hnd as [Hnd _]. destruct Hnd. left.
    + split; [|done]. intros _. exists v, w. split_and!; [left|right; left|].
      intros ->. apply NoDup_cons in Hnd as [Hnd _]. destruct Hnd. left.
Qed.

Lemma resolve_zip64_central_values_unique_witness :
  let data := le_bytes 8 5000000000 ++ le_bytes 8 9 in
  (forall v, resolve_zip64_central_values data u32_max 9 7 = Ok v <->
     central_reading data [u32_max; 9; 7] v
     /\ forall v', central_reading data [u32_max; 9; 7] v' -> v' = v)
  /\ resolve_zip64_central_values data u32_max 9 7
     = Ok {| uncompressed_size := 5000000000; compressed_size := 9;
             local_header_offset := 7; presence_mask := 3 |}.
Proof.
  split; [|vm_compute; reflexivity].
  apply (resolve_zip64_central_values_unique (le_bytes 8 5000000000 ++ le_bytes 8 9) u32_max 9 7);
    unfold is_u32, u32_max; lia.
Defined.

(** ** What a resolved field promises *)

Lemma resolve_ok_reading data lu lc lo v :
  Forall is_u32 [lu; lc; lo] ->
  resolve_zip64_central_values data lu lc lo = Ok v -> central_reading data [lu; lc; lo] v.
Proof.
  intros Hu Hv. pose proof (resolve_by_readings data lu lc lo Hu) as Hr.
  apply elem_of_readings; [done|].
  destruct (readings data [lu; lc; lo]) as [|w [|x l]].
  - destruct Hr as (e & _ & Hr). congruence.
  - rewrite Hr in Hv. injection Hv as ->. left.
  - congruence.
Qed.

Lemma reading_bounds data lu lc lo v :
  Forall is_u32 [lu; lc; lo] -> central_reading data [lu; lc; lo] v ->
  Forall is_u64 (values_list v).
Proof.
  intros Hu [_ _ He _]. unfold values_list in *. cbn [explains] in He.
  repeat match goal with Hf : Forall _ (_ :: _) |- _ => apply Forall_cons in Hf as [? Hf] end.
  unfold is_u32, is_u64, u32_max, u64_max in *.
  destruct He as (He1 & He2 & He3 & _).
  repeat constructor; intuition lia.
Qed.
