(* ===== verification/ZipLayout.v ===== *)
(** * An accepted ZIP archive is covered byte for byte ([zip.rs])

    Whatever profile reads it, the records of an accepted archive lie end to
    end: local headers, payloads and descriptors up to the central directory,
    the directory's headers, the optional ZIP64 pair, the end record and its
    comment.  No byte of the source is outside them and none is in two. *)

From S2P Require Import Prelude Utf8 Findings Interval Snapshot Ir Layout ByteFields ZipFields ZipRecords Zip32 Zip64 ZipSearch ZipValues.
Local Open Scope Z_scope.
#[local] Arguments le_bytes : simpl never.

(** ** [check_layout] *)

Definition record_interval (m : ZipMember) : CheckedInterval :=
  {| start := zm_lfh_offset m; end_ := zm_record_end m |}.

Lemma layout_ranges_ok members cd_off ranges :
  layout_ranges members cd_off = Ok ranges <->
  ranges = map record_interval members /\
  Forall (fun m => zm_lfh_offset m < zm_record_end m /\ zm_record_end m <= cd_off) members.
Proof.
  revert ranges. induction members as [|m members IH]; intros ranges; cbn [layout_ranges map].
  - split; [intros [= <-]; by split|]. by intros [-> _].
  - rewrite Forall_cons. unfold from_bounds.
    destruct (Z.ltb_spec (zm_record_end m) (zm_lfh_offset m)); cbn [map_err]; [split; [done|lia]|].
    destruct (Z.ltb_spec cd_off (zm_record_end m)); [split; [done|lia]|].
    unfold is_empty. cbn [start end_].
    destruct (Z.eqb_spec (zm_lfh_offset m) (zm_record_end m)); [split; [done|lia]|].
    destruct (layout_ranges members cd_off) as [rs|e].
    + destruct (IH rs) as [Hi _]. destruct (Hi eq_refl) as [-> Hf]. split.
      * intros [= <-]. split_and!; try done; lia.
      * by intros [-> _].
    + split; [done|]. intros (-> & _ & Hf). discriminate (proj2 (IH _) (conj eq_refl Hf)).
Qed.

(** The records of the members laid end to end. *)
Definition records_tile (s : Z) (ms : list ZipMember) (e : Z) : Prop :=
  end_to_end s (map record_interval ms) e.

Lemma end_to_end_bounds s parts e p :
  end_to_end s parts e -> p ∈ parts -> s <= start p /\ start p < end_ p /\ end_ p <= e.
Proof.
  assert (Hle : forall parts s e, end_to_end s parts e -> s <= e).
  { clear. induction parts as [|q parts IH]; intros s e; simpl; [lia|].
    intros (<- & ? & ?%IH). lia. }
  revert s. induction parts as [|q parts IH]; intros s; simpl; [by intros _ ?%elem_of_nil|].
  intros (<- & Hq & Ht). pose proof (Hle _ _ _ Ht).
  intros [->|Hp]%elem_of_cons; [lia|]. apply (IH _ Ht) in Hp. lia.
Qed.

(** [check_layout] accepts exactly the members whose records, in some order, lie
    end to end from the first byte to the central directory. *)
Lemma check_layout_ok members cd_off :
  0 <= cd_off ->
  check_layout members cd_off = Ok () <->
  exists ms, ms ≡ₚ members /\ records_tile 0 ms cd_off.
Proof.
  intros Hcd. unfold check_layout. destruct (Nat.eqb_spec (length members) 0) as [Hz|Hz].
  { apply length_zero_iff_nil in Hz as ->. split.
    - intros H. exists []. split; [done|]. destruct (Z.eqb_spec cd_off 0); [|done]. by simpl.
    - intros (ms & Hp & Ht). apply Permutation_nil_r in Hp as ->. cbn in Ht. by subst. }
  set (outer := {| start := 0; end_ := cd_off |}).
  assert (Hw : wf outer) by (unfold wf; simpl; lia).
  assert (Hmap : members <> [] -> map record_interval members <> []) by (by destruct members).
  assert (Hne : members <> []) by (by intros ->).
  assert (Hpart : forall ranges, Forall (fun p => start p < end_ p) ranges ->
    map_err (partition_finding members) (exact_partition outer ranges) = Ok () <-> tiles outer ranges).
  { intros ranges Hr. rewrite <- exact_partition_iff; [|done|].
    - destruct (exact_partition outer ranges) as [[]|e]; cbn; split; done.
    - eapply Forall_impl; [exact Hr|]. unfold wf. intros. lia. }
  split.
  - destruct (layout_ranges members cd_off) as [ranges|e] eqn:Hl; [|done].
    apply layout_ranges_ok in Hl as [-> Hf].
    rewrite Hpart by (apply Forall_map; eapply Forall_impl; [exact Hf|]; simpl; intros; lia).
    intros Ht. apply tiles_end_to_end in Ht as (ps & Hp & He); [|done|by apply Hmap].
    apply Permutation_map_inv in Hp as (ms & -> & Hp). by exists ms.
  - intros (ms & Hp & Ht).
    assert (Hf : Forall (fun m => zm_lfh_offset m < zm_record_end m /\ zm_record_end m <= cd_off) members).
    { rewrite <- Hp. apply Forall_forall. intros m Hm.
      eapply end_to_end_bounds in Ht; [|by apply (list_elem_of_fmap_2 record_interval)].
      simpl in Ht. lia. }
    rewrite (proj2 (layout_ranges_ok members cd_off _)) by done.
    rewrite Hpart by (apply Forall_map; eapply Forall_impl; [exact Hf|]; simpl; intros; lia).
    apply (tiles_perm _ (map record_interval ms)); [by rewrite Hp|]. by apply end_to_end_tiles.
Qed.

(** ** The records of one member *)

Definition local_ranges (m : ZipMember) : list ByteRange :=
  local_header (zm_source_ranges m) :: compressed_payload (zm_source_ranges m)
    :: option_list (data_descriptor (zm_source_ranges m)).

(** The ranges of a member lie end to end from its local header. *)
Definition member_placed (m : ZipMember) : Prop :=
  adjacent (zm_lfh_offset m) (local_ranges m) (zm_record_end m).

Lemma zip_records_adjacent s ms e :
  Forall member_placed ms -> records_tile s ms e -> adjacent s (concat (map local_ranges ms)) e.
Proof.
  intros Hm. unfold records_tile. revert s.
  induction Hm as [|m ms Hp _ IH]; intros s; cbn [map end_to_end concat record_interval start end_];
    [done|].
  intros (<- & _ & Ht). apply adjacent_app. exists (zm_record_end m). split; [done|by apply IH].
Qed.

(** ** The whole archive *)

Definition archive_ranges (a : ZipArchive) : list ByteRange :=
  concat (map local_ranges (za_members a))
  ++ map (fun m => central_header (zm_source_ranges m)) (za_members a)
  ++ option_list (za_zip64_eocd a) ++ option_list (za_zip64_locator a)
  ++ [mkrange (za_eocd_offset a) EOCD_MIN;
      mkrange (za_eocd_offset a + EOCD_MIN) (za_comment_len a)].

(** The end records follow the directory and end the source. *)
Definition end_records_placed (a : ZipArchive) (source_len : Z) : Prop :=
  adjacent (za_cd_offset a + za_cd_size a)
    (option_list (za_zip64_eocd a) ++ option_list (za_zip64_locator a)
     ++ [mkrange (za_eocd_offset a) EOCD_MIN;
         mkrange (za_eocd_offset a + EOCD_MIN) (za_comment_len a)]) source_len.

(** What both readers establish. *)
Record archive_placed (a : ZipArchive) (source_len : Z) : Prop := {
  placed_offset : 0 <= za_cd_offset a;
  placed_members : Forall member_placed (za_members a);
  placed_records : exists ms, ms ≡ₚ za_members a /\ records_tile 0 ms (za_cd_offset a);
  placed_directory :
    adjacent (za_cd_offset a) (map (fun m => central_header (zm_source_ranges m)) (za_members a))
      (za_cd_offset a + za_cd_size a);
  placed_end : end_records_placed a source_len
}.

Lemma archive_placed_tiles a source_len :
  archive_placed a source_len ->
  tiles {| start := 0; end_ := source_len |} (intervals (archive_ranges a)).
Proof.
  intros [_ Hm (ms & Hp & Ht) Hd He].
  apply (adjacent_perm_tiles _ (concat (map local_ranges ms)
    ++ map (fun m => central_header (zm_source_ranges m)) (za_members a)
    ++ option_list (za_zip64_eocd a) ++ option_list (za_zip64_locator a)
    ++ [mkrange (za_eocd_offset a) EOCD_MIN;
        mkrange (za_eocd_offset a + EOCD_MIN) (za_comment_len a)])).
  - apply adjacent_app. exists (za_cd_offset a). split.
    + apply zip_records_adjacent; [by rewrite Hp|done].
    + apply adjacent_app. eauto.
  - unfold archive_ranges. apply Permutation_app_tail.
    rewrite <- !flat_map_concat_map. by rewrite Hp.
Qed.

(** ** The ZIP32 reader *)

Lemma u16_at_range data pos : 0 <= u16_at data pos <= u16_max.
Proof. pose proof (le_value_bound 2 2 pos data eq_refl). unfold u16_at, u16_max. lia. Qed.
Lemma u32_at_range data pos : 0 <= u32_at data pos <= u32_max.
Proof. pose proof (le_value_bound 4 4 pos data eq_refl). unfold u32_at, u32_max. lia. Qed.

Lemma length_range_u16 pos off data :
  0 <= off -> off + u16_at data pos <= Z.of_nat (length data) ->
  Z.of_nat (length (range off (u16_at data pos) data)) = u16_at data pos.
Proof. intros. pose proof (u16_at_range data pos). rewrite length_range by lia. lia. Qed.

(** An accepted header lies inside the directory, its values within their
    widths. *)
Lemma central_header32_bounds cd pos h :
  0 <= pos -> central_header32 cd pos = Ok h ->
  pos + 46 <= ch_end h pos <= Z.of_nat (length cd)
  /\ 0 <= ch_lfh_offset h <= u32_max /\ 0 <= ch_comp h <= u32_max
  /\ 0 <= ch_uncomp h <= u32_max /\ 0 <= ch_crc h <= u32_max.
Proof.
  intros Hp H. unfold central_header32 in H. ok_steps H. simplify_eq. breflect.
  pose proof (u16_at_range cd (pos + 28)). pose proof (u16_at_range cd (pos + 30)).
  pose proof (u16_at_range cd (pos + 32)).
  unfold ch_end. cbn [ch_name ch_extra ch_comment ch_lfh_offset ch_comp ch_uncomp ch_crc].
  rewrite !length_range_u16 by lia. split_and!; try lia; apply u32_at_range.
Qed.

Section Placed.
Context {S} `{Source S} `{!Allocator} (s : S).

Lemma place_member32_placed profile cd_offset pos h local extra m :
  0 <= ch_comp h ->
  place_member32 s profile cd_offset pos h local extra = Some (Ok m) ->
  member_placed m
  /\ central_header (zm_source_ranges m) = mkrange (cd_offset + pos) (ch_end h 0).
Proof.
  intros Hc H1. unfold place_member32 in H1. ok_steps H1. simplify_eq. breflect.
  split; [|done].
  repeat match goal with Hq : ok_or _ _ = Ok _ |- _ =>
    apply ok_or_ok, u64_checked_add_Some in Hq as [-> _] end.
  unfold member_placed, local_ranges.
  cbn [zm_source_ranges zm_lfh_offset zm_record_end local_header compressed_payload data_descriptor].
  destruct (gp3 (ch_flags h)).
  - match goal with Hq : match ok_or _ _ with _ => _ end = Ok _ |- _ => rename Hq into Hd end.
    ok_steps Hd. simplify_eq. breflect.
    match goal with Hq : ok_or _ _ = Ok _ |- _ =>
      apply ok_or_ok, u64_checked_add_Some in Hq as [-> _] end.
    simpl. split_and!; lia.
  - simplify_eq. simpl. split_and!; lia.
Qed.

Lemma zip32_member_placed profile cd_offset pos h m extra :
  0 <= ch_comp h ->
  zip32_member s profile cd_offset pos h = Some (Ok (m, extra)) ->
  member_placed m
  /\ central_header (zm_source_ranges m) = mkrange (cd_offset + pos) (ch_end h 0).
Proof.
  intros Hc Hm. unfold zip32_member in Hm. ok_steps Hm. simplify_eq.
  by eapply place_member32_placed.
Qed.

Context (bs : list byte).

Lemma zip32_end_placed max_files max_metadata e :
  represents s bs -> zip32_end s max_files max_metadata = Ok e ->
  last_eocd bs (ze_eocd_off e) (ze_comment_len e)
  /\ 0 <= ze_cd_offset e /\ 0 <= ze_cd_size e
  /\ ze_cd_offset e + ze_cd_size e = ze_eocd_off e
  /\ Z.of_nat (length (ze_directory e)) = ze_cd_size e
  /\ ze_directory e = range (ze_cd_offset e) (ze_cd_size e) bs.
Proof.
  intros Hr He. unfold zip32_end in He. ok_steps He. simplify_eq. breflect.
  cbn [ze_eocd_off ze_comment_len ze_cd_offset ze_cd_size ze_directory].
  rewrite (represents_len _ _ Hr) in *.
  match goal with Hq : find_eocd s = Ok _ |- _ => apply (find_eocd_sound s bs) in Hq; [|done|lia] end.
  match goal with Hq : bool_decide _ = true |- _ =>
    apply bool_decide_eq_true, u64_checked_add_Some in Hq as [Hland _] end.
  match goal with Hq : map_err _ (read_vec s (u32_at ?l 16) (u32_at ?l 12)) = Ok _ |- _ =>
    pose proof (u32_at_range l 16); pose proof (u32_at_range l 12);
    destruct (read_vec s (u32_at l 16) (u32_at l 12)) as [d|f] eqn:Hv; [|done]; injection Hq as <-;
    apply (read_vec_sound s bs) in Hv as [Hl ->]; [|done|lia|lia] end.
  split_and!; try done; try lia. rewrite length_range by lia. lia.
Qed.

(** The loop invariant: the headers read so far lie end to end. *)
Definition directory_read (cd_offset pos : Z) (cd_len : nat) (ms : list ZipMember) : Prop :=
  0 <= pos <= Z.of_nat cd_len /\ Forall member_placed ms
  /\ adjacent cd_offset (map (fun m => central_header (zm_source_ranges m)) ms) (cd_offset + pos).

Lemma directory_read_snoc cd_offset pos cd_len ms m n :
  directory_read cd_offset pos cd_len ms -> 0 <= n -> pos + n <= Z.of_nat cd_len ->
  member_placed m -> central_header (zm_source_ranges m) = mkrange (cd_offset + pos) n ->
  directory_read cd_offset (pos + n) cd_len (ms ++ [m]).
Proof.
  intros (Hp & Hf & Ha) Hn Hl Hm Hc. split_and!; [lia|lia| |].
  - apply Forall_app. split; [done|]. by constructor.
  - rewrite map_app. apply adjacent_app. exists (cd_offset + pos). split; [done|]. simpl.
    rewrite Hc. simpl. split_and!; lia.
Qed.

Lemma zip32_step_placed max_files max_metadata profile e st :
  directory_read (ze_cd_offset e) (zs32_pos st) (length (ze_directory e)) (zs32_members st) ->
  (forall st', zip32_step s max_files max_metadata profile e st = Some (Ok (Continue st')) ->
     directory_read (ze_cd_offset e) (zs32_pos st') (length (ze_directory e)) (zs32_members st'))
  /\ (forall st', zip32_step s max_files max_metadata profile e st = Some (Ok (Return st')) ->
     st' = st /\ zs32_pos st = Z.of_nat (length (ze_directory e))).
Proof.
  intros Hd. pose proof Hd as (Hp & _ & _). unfold zip32_step.
  destruct (Z.leb_spec (Z.of_nat (length (ze_directory e))) (zs32_pos st)).
  { split; [done|]. intros st' [= <-]. split; [done|lia]. }
  split; intros st' Hs; ok_steps Hs; [simplify_eq|by case_match].
  cbn [zs32_pos zs32_members].
  match goal with Hq : central_header32 _ _ = Ok _ |- _ =>
    apply central_header32_bounds in Hq as (Hend & _ & Hcomp & _); [|lia] end.
  match goal with Hq : zip32_member _ _ _ _ _ = _ |- _ =>
    apply zip32_member_placed in Hq as [Hm Hc]; [|lia] end.
  match goal with |- directory_read _ (ch_end ?h ?p) _ _ =>
    assert (ch_end h p = p + ch_end h 0) as -> by (unfold ch_end; lia);
    assert (ch_end h p = p + ch_end h 0) by (unfold ch_end; lia) end.
  apply directory_read_snoc; try done; lia.
Qed.

Lemma parse_zip32_placed max_files max_metadata profile a :
  represents s bs ->
  parse_zip32 s max_files max_metadata profile = Some (Ok a) ->
  archive_placed a (Z.of_nat (length bs)).
Proof.
  intros Hr Hp. unfold parse_zip32 in Hp. ok_steps Hp. simplify_eq.
  match goal with Hq : zip32_end _ _ _ = Ok ?x |- _ => rename x into e; rename Hq into He end.
  match goal with Hq : run_loop _ _ _ = Some (Ok ?x) |- _ => rename x into st; rename Hq into Hrun end.
  match goal with Hq : check_layout _ _ = Ok _ |- _ => rename Hq into Hlay end.
  apply (zip32_end_placed _ _ _ Hr) in He as (Heocd & Hco & Hcs & Hland & Hlen & _).
  assert (Hd : directory_read (ze_cd_offset e) (zs32_pos st) (length (ze_directory e)) (zs32_members st)
      /\ zs32_pos st = Z.of_nat (length (ze_directory e))).
  { revert Hrun. apply (run_loop_invariant _
      (fun st => directory_read (ze_cd_offset e) (zs32_pos st) (length (ze_directory e)) (zs32_members st))
      (fun st => directory_read (ze_cd_offset e) (zs32_pos st) (length (ze_directory e)) (zs32_members st)
         /\ zs32_pos st = Z.of_nat (length (ze_directory e)))).
    - intros st1 st2 Hi. by apply zip32_step_placed.
    - intros st1 st2 Hi Hret. apply (zip32_step_placed _ _ _ _ _ Hi) in Hret as [-> ?]. done.
    - unfold directory_read. simpl. split_and!; try lia. constructor. }
  destruct Hd as [(_ & Hmem & Hdir) Hpos]. units. apply check_layout_ok in Hlay; [|done].
  rewrite Hpos, Hlen in Hdir.
  destruct Heocd as [(_ & Hcomm & Hn & _) _]. unfold EOCD_MIN in *.
  split; cbn [za_cd_offset za_members za_cd_size]; try done.
  unfold end_records_placed, EOCD_MIN. simpl. split_and!; lia.
Qed.
End Placed.

(** ** The ZIP64 reader *)

Lemma within_Some stop o e : within stop o = Some e <-> o = Some e /\ e <= stop.
Proof.
  unfold within. destruct o as [x|]; [|split; [done|by intros [? _]]].
  destruct (Z.leb_spec x stop); split.
  - by intros [= ->].
  - by intros [[= ->] _].
  - done.
  - intros [[= ->] ?]. lia.
Qed.

Lemma central_header64_bounds cd pos h :
  0 <= pos -> central_header64 cd pos = Ok h ->
  pos + 46 <= c64_end h pos <= Z.of_nat (length cd)
  /\ Forall is_u32 [c64_legacy_uncomp h; c64_legacy_comp h; c64_legacy_lfh_offset h].
Proof.
  intros Hp H. unfold central_header64 in H. ok_steps H. simplify_eq. breflect.
  pose proof (u16_at_range cd (pos + 28)). pose proof (u16_at_range cd (pos + 30)).
  pose proof (u16_at_range cd (pos + 32)).
  repeat match goal with Hq : ok_or (within _ _) _ = Ok _ |- _ =>
    apply ok_or_ok, within_Some in Hq as [Hq ?] end.
  repeat match goal with
  | Hq : u64_checked_add _ _ = Some _ |- _ => apply u64_checked_add_Some in Hq as [-> _]
  | Hq : (_ ≫= _) = Some _ |- _ => apply bind_Some in Hq as (? & ? & ?)
  end. cbn beta in *.
  repeat match goal with
  | Hq : u64_checked_add _ _ = Some _ |- _ => apply u64_checked_add_Some in Hq as [-> _]
  end.
  unfold c64_end.
  cbn [c64_name c64_extra c64_comment c64_legacy_uncomp c64_legacy_comp c64_legacy_lfh_offset].
  rewrite !length_range_u16 by lia. split; [lia|].
  repeat constructor; apply u32_at_range.
Qed.

Lemma central_values64_bounds h z v :
  Forall is_u32 [c64_legacy_uncomp h; c64_legacy_comp h; c64_legacy_lfh_offset h] ->
  central_values64 h z = Ok v -> Forall is_u64 (values_list v).
Proof.
  intros Hu Hv. unfold central_values64 in Hv. destruct z as [d|].
  - destruct (resolve_zip64_central_values _ _ _ _) as [w|f] eqn:Hr; [|done].
    injection Hv as ->. eapply reading_bounds; [done|]. by eapply resolve_ok_reading.
  - ok_steps Hv. simplify_eq. eapply Forall_impl; [exact Hu|].
    unfold is_u32, is_u64, u32_max, u64_max. lia.
Qed.

Section Placed64.
Context {S} `{Source S} `{!Allocator} (s : S).

Lemma place_member64_placed cd_offset pos h values local shape cz lz extra m :
  0 <= compressed_size values ->
  place_member64 s cd_offset pos h values local shape cz lz extra = Some (Ok m) ->
  member_placed m
  /\ central_header (zm_source_ranges m) = mkrange (cd_offset + pos) (c64_end h 0).
Proof.
  intros Hc H1. unfold place_member64 in H1. ok_steps H1. simplify_eq. breflect.
  repeat match goal with Hq : ok_or _ _ = Ok _ |- _ =>
    apply ok_or_ok, u64_checked_add_Some in Hq as [-> _] end.
  split; [|done]. unfold member_placed, local_ranges.
  cbn [zm_source_ranges zm_lfh_offset zm_record_end local_header compressed_payload data_descriptor].
  destruct (uses_descriptor (c64_flags h)).
  - match goal with Hq : (if _ then Err _ else Ok (Some _)) = Ok _ |- _ => rename Hq into Hd end.
    ok_steps Hd. simplify_eq. breflect. simpl. split_and!; lia.
  - simplify_eq. simpl. split_and!; lia.
Qed.

Lemma zip64_member_placed mm mb cd_offset pos pair h m n b :
  Forall is_u32 [c64_legacy_uncomp h; c64_legacy_comp h; c64_legacy_lfh_offset h] ->
  zip64_member s mm mb cd_offset pos pair h = Some (Ok (m, n, b)) ->
  member_placed m
  /\ central_header (zm_source_ranges m) = mkrange (cd_offset + pos) (c64_end h 0).
Proof.
  intros Hu Hm. unfold zip64_member in Hm. ok_steps Hm. simplify_eq.
  match goal with Hq : central_values64 _ _ = Ok _ |- _ =>
    apply central_values64_bounds in Hq as Hb; [|done] end.
  eapply place_member64_placed; [|done].
  apply Forall_cons in Hb as [_ Hb]. apply Forall_cons in Hb as [[? _] _]. done.
Qed.

Lemma zip64_step_placed max_files max_metadata e st :
  let cd_offset := re_central_directory_offset (z64_end e) in
  directory_read cd_offset (zs64_pos st) (length (z64_directory e)) (zs64_members st) ->
  (forall st', zip64_step s max_files max_metadata e st = Some (Ok (Continue st')) ->
     directory_read cd_offset (zs64_pos st') (length (z64_directory e)) (zs64_members st'))
  /\ (forall st', zip64_step s max_files max_metadata e st = Some (Ok (Return st')) ->
     st' = st /\ zs64_pos st = Z.of_nat (length (z64_directory e))).
Proof.
  intros cd_offset Hd. pose proof Hd as (Hp & _ & _). unfold zip64_step.
  destruct (Z.leb_spec (Z.of_nat (length (z64_directory e))) (zs64_pos st)).
  { split; [done|]. intros st' [= <-]. split; [done|lia]. }
  split; intros st' Hs; ok_steps Hs; [simplify_eq|by case_match].
  cbn [zs64_pos zs64_members].
  match goal with Hq : central_header64 _ _ = Ok _ |- _ =>
    apply central_header64_bounds in Hq as (Hend & Hu); [|lia] end.
  match goal with Hq : zip64_member _ _ _ _ _ _ _ = _ |- _ =>
    apply zip64_member_placed in Hq as [Hm Hc]; [|done] end.
  match goal with |- directory_read _ (c64_end ?h ?p) _ _ =>
    assert (c64_end h p = p + c64_end h 0) as -> by (unfold c64_end; lia);
    assert (c64_end h p = p + c64_end h 0) by (unfold c64_end; lia) end.
  apply directory_read_snoc; try done; lia.
Qed.

(** The ZIP64 pair, when there is one, lies between the directory and the end
    record. *)
Definition end_pair_placed (eocd_offset : Z) (r : ResolvedEndRecords) : Prop :=
  adjacent (re_central_directory_offset r + re_central_directory_size r)
    (option_list (re_zip64_eocd r) ++ option_list (re_zip64_locator r)) eocd_offset.

Lemma resolve_zip64_end_records_placed eocd_offset classic r :
  resolve_zip64_end_records s eocd_offset classic = Ok r ->
  u64_checked_add (re_central_directory_offset r) (re_central_directory_size r)
    = Some (from_option offset eocd_offset (re_zip64_eocd r)) ->
  end_pair_placed eocd_offset r.
Proof.
  intros Hr [Hl _]%u64_checked_add_Some. unfold end_pair_placed.
  assert (Hclassic : forall b, classic_end_records classic b = Ok r ->
    re_zip64_eocd r = None /\ re_zip64_locator r = None).
  { intros b Hc. unfold classic_end_records in Hc. ok_steps Hc. by simplify_eq. }
  unfold resolve_zip64_end_records in Hr. cbv zeta in Hr.
  destruct (eocd_offset <? 20); [apply Hclassic in Hr as [Ha Hb]; rewrite Ha, Hb in *; simpl in *; lia|].
  cbv zeta in Hr. ok_step Hr.
  destruct (negb (u32_at _ 0 =? ZIP64_LOCATOR_SIG));
    [apply Hclassic in Hr as [Ha Hb]; rewrite Ha, Hb in *; simpl in *; lia|].
  ok_steps Hr. breflect. unfold zip64_end_record in Hr. ok_steps Hr. simplify_eq. breflect.
  repeat match goal with Hq : bool_decide _ = true |- _ =>
    apply bool_decide_eq_true, u64_checked_add_Some in Hq as [? _] end.
  cbn [re_zip64_eocd re_zip64_locator re_central_directory_offset re_central_directory_size
    from_option offset mkrange option_list app adjacent len] in *.
  simpl. split_and!; lia.
Qed.

Lemma resolve_zip64_end_records_nonneg eocd_offset classic r :
  0 <= ce_central_directory_size classic -> 0 <= ce_central_directory_offset classic ->
  resolve_zip64_end_records s eocd_offset classic = Ok r ->
  0 <= re_central_directory_offset r /\ 0 <= re_central_directory_size r.
Proof.
  intros Hs Ho Hr.
  assert (Hclassic : forall b, classic_end_records classic b = Ok r ->
    0 <= re_central_directory_offset r /\ 0 <= re_central_directory_size r).
  { intros b Hc. unfold classic_end_records in Hc. ok_steps Hc. by simplify_eq. }
  unfold resolve_zip64_end_records in Hr. cbv zeta in Hr.
  destruct (eocd_offset <? 20); [by eapply Hclassic|]. ok_step Hr.
  destruct (negb (u32_at _ 0 =? ZIP64_LOCATOR_SIG)); [by eapply Hclassic|].
  ok_steps Hr. unfold zip64_end_record in Hr. ok_steps Hr. simplify_eq.
  cbn [re_central_directory_offset re_central_directory_size].
  split; apply u64_at_range.
Qed.

Context (bs : list byte).

Lemma zip64_end_placed max_files max_metadata e :
  represents s bs -> zip64_end s max_files max_metadata = Ok e ->
  let r := z64_end e in
  last_eocd bs (z64_eocd_offset e) (z64_comment_len e)
  /\ 0 <= re_central_directory_offset r
  /\ end_pair_placed (z64_eocd_offset e) r
  /\ Z.of_nat (length (z64_directory e)) = re_central_directory_size r.
Proof.
  intros Hr He. unfold zip64_end in He. ok_steps He. simplify_eq. breflect.
  cbn [z64_eocd_offset z64_comment_len z64_end z64_directory].
  rewrite (represents_len _ _ Hr) in *.
  match goal with Hq : find_eocd s = Ok _ |- _ =>
    apply (find_eocd_sound s bs) in Hq; [|done|lia] end.
  match goal with Hq : bool_decide _ = true |- _ => apply bool_decide_eq_true in Hq; rename Hq into Hland end.
  match goal with Hq : resolve_zip64_end_records _ _ _ = Ok _ |- _ =>
    apply resolve_zip64_end_records_nonneg in Hq as Hon; [|apply u32_at_range..]; destruct Hon as [Ho Hn];
    apply resolve_zip64_end_records_placed in Hq; [|done] end.
  split_and!; try done.
  match goal with Hq : map_err _ (read_vec s ?o ?n) = Ok _ |- _ =>
    destruct (read_vec s o n) as [d|f] eqn:Hv; [|done]; injection Hq as <-;
    apply (read_vec_sound s bs) in Hv as [Hl ->]; [|done|lia|lia] end.
  rewrite length_range by lia. lia.
Qed.

Lemma parse_zip64_placed max_files max_metadata a :
  represents s bs ->
  parse_zip64_strict_ascii_v1 s max_files max_metadata = Some (Ok a) ->
  archive_placed a (Z.of_nat (length bs)).
Proof.
  intros Hr Hp. unfold parse_zip64_strict_ascii_v1 in Hp. ok_steps Hp. simplify_eq.
  match goal with Hq : zip64_end _ _ _ = Ok ?x |- _ => rename x into e; rename Hq into He end.
  match goal with Hq : run_loop _ _ _ = Some (Ok ?x) |- _ => rename x into st; rename Hq into Hrun end.
  match goal with Hq : zip64_finish _ _ = Ok _ |- _ => rename Hq into Hfin end.
  apply (zip64_end_placed _ _ _ Hr) in He as (Heocd & Hco & Hpair & Hlen).
  set (inv st := directory_read (re_central_directory_offset (z64_end e)) (zs64_pos st)
    (length (z64_directory e)) (zs64_members st)).
  assert (Hd : inv st /\ zs64_pos st = Z.of_nat (length (z64_directory e))).
  { revert Hrun. apply (run_loop_invariant _ inv
      (fun st => inv st /\ zs64_pos st = Z.of_nat (length (z64_directory e)))).
    - intros st1 st2 Hi. by apply zip64_step_placed.
    - intros st1 st2 Hi Hret. apply (zip64_step_placed _ _ _ _ Hi) in Hret as [-> ?]. done.
    - unfold inv, directory_read. simpl. split_and!; try lia. constructor. }
  destruct Hd as [(_ & Hmem & Hdir) Hpos]. unfold zip64_finish in Hfin. ok_steps Hfin.
  simplify_eq. units.
  match goal with Hq : check_layout _ _ = Ok _ |- _ => apply check_layout_ok in Hq; [|done] end.
  rewrite Hpos, Hlen in Hdir.
  destruct Heocd as [(_ & Hcomm & Hn & _) _]. unfold EOCD_MIN in *.
  split; cbn [za_cd_offset za_members za_cd_size]; try done.
  unfold end_records_placed. cbn [za_cd_offset za_cd_size za_zip64_eocd za_zip64_locator za_eocd_offset za_comment_len].
  rewrite app_assoc. apply adjacent_app. exists (z64_eocd_offset e). split; [done|].
  unfold EOCD_MIN. simpl. split_and!; lia.
Qed.
End Placed64.

(** C19: An archive accepted under any profile is covered byte for byte: the local
    headers, payloads and descriptors of its members, their central headers,
    the ZIP64 pair, the end record and its comment tile the source, each byte
    in exactly one of them; and the covering the archive reports is the local
    records, the directory and the end records, end to end. *)
Theorem zip_archive_tiles {S : Type} `{Source S} `{!Allocator} (s : S) (bs : list byte)
    max_files max_metadata profile a :
  represents s bs ->
  parse_zip_with_profile s max_files max_metadata profile = Some (Ok a) ->
  tiles {| start := 0; end_ := Z.of_nat (length bs) |} (intervals (archive_ranges a))
  /\ (forall m, m ∈ za_members a ->
        adjacent (zm_lfh_offset m) (local_ranges m) (zm_record_end m))
  /\ adjacent 0
       (z64_local_records (zip64_covering a) :: z64_central_directory (zip64_covering a)
          :: option_list (z64_eocd64 (zip64_covering a))
          ++ option_list (z64_locator (zip64_covering a))
          ++ [z64_eocd (zip64_covering a); z64_comment (zip64_covering a)])
       (Z.of_nat (length bs))
  /\ (profile <> Zip64StrictAsciiV1 ->
        adjacent 0 [local_records (covering a); central_directory (covering a);
          eocd (covering a); comment (covering a)] (Z.of_nat (length bs))).
Proof.
  intros Hr Hp.
  assert (Hpl : archive_placed a (Z.of_nat (length bs))).
  { unfold parse_zip_with_profile in Hp. case_bool_decide.
    - by eapply parse_zip64_placed.
    - by eapply parse_zip32_placed. }
  assert (Hcov : adjacent 0
    (mkrange 0 (za_cd_offset a) :: mkrange (za_cd_offset a) (za_cd_size a)
      :: option_list (za_zip64_eocd a) ++ option_list (za_zip64_locator a)
      ++ [mkrange (za_eocd_offset a) EOCD_MIN;
          mkrange (za_eocd_offset a + EOCD_MIN) (za_comment_len a)]) (Z.of_nat (length bs))).
  { destruct Hpl as [Ho _ _ Hd He]. apply adjacent_le in Hd.
    cbn [adjacent offset len mkrange]. split_and!; try lia. exact He. }
  split_and!; [by apply archive_placed_tiles| |exact Hcov|].
  - intros m Hm. by apply (proj1 (Forall_forall _ _) (placed_members _ _ Hpl)).
  - intros Hprof. unfold parse_zip_with_profile in Hp. rewrite bool_decide_eq_false_2 in Hp by done.
    unfold parse_zip32 in Hp. ok_steps Hp. simplify_eq. exact Hcov.
Qed.

(** ** A concrete ZIP64 archive *)

(** One stored member whose sizes are in the ZIP64 fields of both headers, and
    the fixed end pair. *)
Definition example_extra64 : list byte := fields_bytes [(2%nat, 1); (2%nat, 16); (8%nat, 3); (8%nat, 3)].
Definition example_zip64 : list byte :=
  fields_bytes [(4%nat, LFH_SIG); (2%nat, 45); (2%nat, 0); (2%nat, 0); (2%nat, 0); (2%nat, 33);
    (4%nat, 7); (4%nat, u32_max); (4%nat, u32_max); (2%nat, 1); (2%nat, 20)]
  ++ lit "a" ++ example_extra64 ++ lit "xyz"
  ++ fields_bytes [(4%nat, CDH_SIG); (2%nat, 45); (2%nat, 45); (2%nat, 0); (2%nat, 0); (2%nat, 0);
       (2%nat, 33); (4%nat, 7); (4%nat, u32_max); (4%nat, u32_max); (2%nat, 1); (2%nat, 20);
       (2%nat, 0); (2%nat, 0); (2%nat, 0); (4%nat, 0); (4%nat, 0)]
  ++ lit "a" ++ example_extra64
  ++ fields_bytes [(4%nat, ZIP64_EOCD_SIG); (8%nat, 44); (2%nat, 45); (2%nat, 45); (4%nat, 0);
       (4%nat, 0); (8%nat, 1); (8%nat, 1); (8%nat, 67); (8%nat, 54)]
  ++ fields_bytes [(4%nat, ZIP64_LOCATOR_SIG); (4%nat, 0); (8%nat, 121); (4%nat, 1)]
  ++ fields_bytes [(4%nat, EOCD_SIG); (2%nat, 0); (2%nat, 0); (2%nat, u16_max); (2%nat, u16_max);
       (4%nat, u32_max); (4%nat, u32_max); (2%nat, 0)].

Lemma zip_archive_tiles_witness :
  match parse_zip_with_profile (H0 := always_reserves) (@borrowed null_sha256 None example_zip64)
          1 200 Zip64StrictAsciiV1 with
  | Some (Ok a) =>
      tiles {| start := 0; end_ := 219 |} (intervals (archive_ranges a))
      /\ map zm_comp_size (za_members a) = [3]
  | _ => False
  end.
Proof.
  assert (Hr : @represents _ SourceSnapshot_source (@borrowed null_sha256 None example_zip64) example_zip64)
    by (apply reliable_represents, borrowed_reliable; vm_compute; discriminate).
  destruct (parse_zip_with_profile _ _ _ _) as [[a|f]|] eqn:E;
    [|exfalso; vm_compute in E; discriminate..].
  split; [|vm_compute in E; injection E as <-; reflexivity].
  assert (Hl : Z.of_nat (length example_zip64) = 219) by (vm_compute; reflexivity).
  rewrite <- Hl.
  exact (proj1 (zip_archive_tiles (H0 := always_reserves) (@borrowed null_sha256 None example_zip64)
    example_zip64 1 200 Zip64StrictAsciiV1 a Hr E)).
Defined.
