(* ===== verification/ZipGrammar.v ===== *)
(** * The grammar of a ZIP archive, and its headers and extra fields ([zip.rs])

    What the bytes of an accepted ZIP32 archive are, stated without the
    reader: encodings of the local and central headers, the descriptor, the
    extra fields and the end record, the agreement between the two headers of
    a member, and their arrangement.  Fields the reader ignores (times,
    versions, internal attributes) are existentially quantified.  Then the
    classifier of extra fields and the header readers are shown to accept
    exactly these encodings. *)

From stdpp Require Import gmap.
From S2P Require Import Prelude Utf8 Findings Interval Snapshot Ir Layout ByteFields ZipFields ZipRecords Zip32 ZipSearch ZipLayout.
Local Open Scope Z_scope.
Local Open Scope rust_scope.

(** ** Extra fields *)

(** An extra field: its identifier and its data. *)
Definition extra_item : Type := Z * list byte.
Definition extra_item_bytes (f : extra_item) : list byte :=
  le_bytes 2 f.1 ++ le_bytes 2 (Z.of_nat (length f.2)) ++ f.2.
Definition extra_bytes (fs : list extra_item) : list byte := concat (map extra_item_bytes fs).

Record extra_item_ok (profile : ZipInterpretationProfile) (f : extra_item) : Prop := {
  item_id : 0 <= f.1 <= u16_max;
  item_size : Z.of_nat (length f.2) <= u16_max;
  item_profile : denies_extra_fields profile = false;
  item_denied : is_denied_extra_id f.1 = false
}.

(** The evidence of fields laid out from [start]. *)
Fixpoint extra_records (site : ExtraSite) (start : Z) (fs : list extra_item) :
    list ExtraFieldRecord :=
  match fs with
  | [] => []
  | f :: fs =>
      {| site := site; id := f.1; header_range := mkrange start 4;
         data_range := mkrange (start + 4) (Z.of_nat (length f.2)); disposition := Ignored |}
      :: extra_records site (start + 4 + Z.of_nat (length f.2)) fs
  end.

(** An extra region some profile admits: distinct admitted fields, end to end. *)
Definition extra_region (profile : ZipInterpretationProfile) (extra : list byte)
    (fs : list extra_item) : Prop :=
  extra = extra_bytes fs /\ NoDup (map fst fs) /\ Forall (extra_item_ok profile) fs.

(** ** Headers *)

(** The fields of a central header the reader ignores. *)
Record CentralIgnored : Type := {
  ci_version_needed : Z; ci_time : Z; ci_date : Z; ci_internal_attributes : Z
}.
Definition central_fields (h : CentralHeader) (i : CentralIgnored) : list field :=
  [(4%nat, CDH_SIG); (2%nat, ch_version_made_by h); (2%nat, ci_version_needed i);
   (2%nat, ch_flags h); (2%nat, ch_method h); (2%nat, ci_time i); (2%nat, ci_date i);
   (4%nat, ch_crc h); (4%nat, ch_comp h); (4%nat, ch_uncomp h);
   (2%nat, Z.of_nat (length (ch_name h))); (2%nat, Z.of_nat (length (ch_extra h)));
   (2%nat, Z.of_nat (length (ch_comment h))); (2%nat, 0); (2%nat, ci_internal_attributes i);
   (4%nat, ch_external_attributes h); (4%nat, ch_lfh_offset h)].
Definition central_bytes (h : CentralHeader) (i : CentralIgnored) : list byte :=
  fields_bytes (central_fields h i) ++ ch_name h ++ ch_extra h ++ ch_comment h.

(** A central header of the ZIP32 language at [pos]. *)
Definition central_at (cd : list byte) (pos : Z) (h : CentralHeader) : Prop :=
  ch_end h pos <= Z.of_nat (length cd)
  /\ ch_comp h <> u32_max /\ ch_uncomp h <> u32_max /\ ch_lfh_offset h <> u32_max
  /\ exists i, Forall field_ok (central_fields h i)
       /\ range pos (ch_end h 0) cd = central_bytes h i.

Record LocalIgnored : Type := { li_time : Z; li_date : Z }.
Definition local_fields (l : LocalHeader) (i : LocalIgnored) : list field :=
  [(4%nat, LFH_SIG); (2%nat, lh_version_needed l); (2%nat, lh_flags l); (2%nat, lh_method l);
   (2%nat, li_time i); (2%nat, li_date i); (4%nat, lh_crc l); (4%nat, lh_comp_size l);
   (4%nat, lh_uncomp_size l); (2%nat, Z.of_nat (length (lh_name l)));
   (2%nat, Z.of_nat (length (lh_extra l)))].
Definition local_bytes (l : LocalHeader) (i : LocalIgnored) : list byte :=
  fields_bytes (local_fields l i) ++ lh_name l ++ lh_extra l.

(** A local header at [off]. *)
Definition local_at (bs : list byte) (off : Z) (l : LocalHeader) : Prop :=
  lh_extra_offset l = off + 30 + Z.of_nat (length (lh_name l))
  /\ lh_data_offset l = lh_extra_offset l + Z.of_nat (length (lh_extra l))
  /\ lh_data_offset l <= Z.of_nat (length bs)
  /\ exists i, Forall field_ok (local_fields l i)
       /\ range off (lh_data_offset l - off) bs = local_bytes l i.

(** ** The data descriptor *)

Definition value_width (w : DataDescriptorWidth) : nat :=
  match w with Zip32 => 4 | Zip64 => 8 end.
Definition descriptor_values (w : DataDescriptorWidth) (crc comp uncomp : Z) : list field :=
  [(4%nat, crc); (value_width w, comp); (value_width w, uncomp)].
(** The signed form, or the unsigned one when its first word cannot be taken
    for the signature. *)
Definition descriptor_at (bs : list byte) (off : Z) (w : DataDescriptorWidth)
    (crc comp uncomp stop : Z) : Prop :=
  stop <= Z.of_nat (length bs) /\
  ((stop = off + 8 + 2 * Z.of_nat (value_width w)
    /\ range off (stop - off) bs
       = fields_bytes ((4%nat, DATA_DESCRIPTOR_SIG) :: descriptor_values w crc comp uncomp))
   \/ (crc <> DATA_DESCRIPTOR_SIG /\ stop = off + 4 + 2 * Z.of_nat (value_width w)
       /\ range off (stop - off) bs = fields_bytes (descriptor_values w crc comp uncomp))).

(** ** Metadata without record signatures *)

Definition structural_signatures : list Z :=
  [ZIP64_EOCD_SIG; ZIP64_LOCATOR_SIG; EOCD_SIG; LFH_SIG; CDH_SIG; DATA_DESCRIPTOR_SIG].
Definition clean (data : list byte) : Prop :=
  forall sig, sig ∈ structural_signatures -> forall p q, data <> p ++ le_bytes 4 sig ++ q.

(** ** Members *)

(** The two headers of a member tell one story. *)
Record headers_agree (h : CentralHeader) (l : LocalHeader) : Prop := {
  agree_name : lh_name l = ch_name h;
  agree_method : lh_method l = ch_method h;
  agree_flags : lh_flags l = ch_flags h;
  agree_sizes :
    if gp3 (ch_flags h)
    then (lh_comp_size l = 0 \/ lh_comp_size l = ch_comp h)
         /\ (lh_uncomp_size l = 0 \/ lh_uncomp_size l = ch_uncomp h)
         /\ (lh_crc l = 0 \/ lh_crc l = ch_crc h)
    else lh_comp_size l = ch_comp h /\ lh_uncomp_size l = ch_uncomp h /\ lh_crc l = ch_crc h
}.

Definition flags_allowed (profile : ZipInterpretationProfile) (flags : Z) : Prop :=
  match allowed_flags profile with
  | Some allowed => Z.land flags (Z.lxor u16_max allowed) = 0
  | None => True
  end.

(** The member the reader makes of its headers. *)
Definition entry_member (at_ : Z) (h : CentralHeader) (l : LocalHeader) (name : str)
    (record_end : Z) (extra : list ExtraFieldRecord) : ZipMember :=
  let payload_end := lh_data_offset l + ch_comp h in
  {| zm_raw_name := ch_name h; zm_name := name; zm_method := ch_method h;
     zm_flags := ch_flags h; zm_creator_system := Z.shiftr (ch_version_made_by h) 8;
     zm_external_attributes := ch_external_attributes h; zm_crc := ch_crc h;
     zm_comp_size := ch_comp h; zm_uncomp_size := ch_uncomp h; zm_lfh_offset := ch_lfh_offset h;
     zm_data_offset := lh_data_offset l; zm_record_end := record_end;
     zm_is_dir := ends_with_byte "/" name; zm_extra_fields := extra;
     zm_source_ranges :=
       {| local_header := mkrange (ch_lfh_offset h) (lh_data_offset l - ch_lfh_offset h);
          compressed_payload := mkrange (lh_data_offset l) (ch_comp h);
          data_descriptor :=
            if gp3 (ch_flags h) then Some (mkrange payload_end (record_end - payload_end)) else None;
          central_header := mkrange at_ (ch_end h 0) |};
     zm_zip64_evidence := None |}.

(** A member whose central header starts at [at_]. *)
Record zip32_entry (bs : list byte) (profile : ZipInterpretationProfile) (at_ : Z)
    (h : CentralHeader) (l : LocalHeader) (m : ZipMember) : Prop := {
  entry_local : local_at bs (ch_lfh_offset h) l;
  entry_agree : headers_agree h l;
  entry_flags : flags_allowed profile (ch_flags h);
  entry_comment : clean (ch_comment h);
  entry_type : validate_directory_metadata (zm_name m) (ch_version_made_by h)
    (ch_external_attributes h) (ch_method h) (ch_crc h) (ch_comp h) (ch_uncomp h) = Ok ();
  entry_name : decode_name_for_profile (ch_name h) (ch_flags h) profile = Ok (zm_name m);
  entry_stored : gp3 (ch_flags h) = true -> ch_method h = 0 ->
    contains_stream_signature (range (lh_data_offset l) (ch_comp h) bs) = false;
  entry_descriptor :
    if gp3 (ch_flags h)
    then descriptor_at bs (lh_data_offset l + ch_comp h) Zip32 (ch_crc h) (ch_comp h)
           (ch_uncomp h) (zm_record_end m)
    else zm_record_end m = lh_data_offset l + ch_comp h;
  entry_is : exists cfs lfs,
    extra_region profile (ch_extra h) cfs /\ extra_region profile (lh_extra l) lfs
    /\ m = entry_member at_ h l (zm_name m) (zm_record_end m)
         (extra_records Central (at_ + 46 + Z.of_nat (length (ch_name h))) cfs
          ++ extra_records Local (lh_extra_offset l) lfs)
}.

(** The headers of the directory, end to end: position, members and the bytes
    charged to the metadata counter. *)
Inductive zip32_entries (bs cd : list byte) (profile : ZipInterpretationProfile)
    (cd_offset : Z) : Z -> list ZipMember -> Z -> Prop :=
  | entries_nil : zip32_entries bs cd profile cd_offset 0 [] 0
  | entries_snoc pos ms charge h l m :
      zip32_entries bs cd profile cd_offset pos ms charge ->
      central_at cd pos h ->
      zip32_entry bs profile (cd_offset + pos) h l m ->
      zip32_entries bs cd profile cd_offset (ch_end h pos) (ms ++ [m])
        (charge + Z.of_nat (length (ch_name h)) + Z.of_nat (length (lh_extra l))).

(** ** The archive *)

Definition end_fields (count cd_size cd_offset comment_len : Z) : list field :=
  [(4%nat, EOCD_SIG); (2%nat, 0); (2%nat, 0); (2%nat, count); (2%nat, count);
   (4%nat, cd_size); (4%nat, cd_offset); (2%nat, comment_len)].

Record zip32_archive (bs : list byte) (profile : ZipInterpretationProfile) (a : ZipArchive) :
    Prop := {
  archive_last : last_eocd bs (za_eocd_offset a) (za_comment_len a);
  archive_end :
    range (za_eocd_offset a) EOCD_MIN bs
    = fields_bytes (end_fields (Z.of_nat (length (za_members a))) (za_cd_size a) (za_cd_offset a)
        (za_comment_len a));
  archive_count : Z.of_nat (length (za_members a)) < u16_max;
  archive_size : 0 <= za_cd_size a < u32_max;
  archive_offset : 0 <= za_cd_offset a < u32_max;
  archive_lands : za_cd_offset a + za_cd_size a = za_eocd_offset a;
  archive_comment : clean (range (za_eocd_offset a + EOCD_MIN) (za_comment_len a) bs);
  archive_entries : exists charge,
    zip32_entries bs (range (za_cd_offset a) (za_cd_size a) bs) profile (za_cd_offset a)
      (za_cd_size a) (za_members a) charge
    /\ za_metadata_bytes a = za_comment_len a + za_cd_size a + charge;
  archive_tiled : exists ms, ms ≡ₚ za_members a /\ records_tile 0 ms (za_cd_offset a);
  archive_plain : za_zip64_eocd a = None /\ za_zip64_locator a = None
}.

(** ** The extra-field classifier

    The classifier always returns, and accepts exactly the regions that are
    distinct admitted fields laid end to end. *)

#[local] Arguments le_bytes : simpl never.

Lemma length_extra_item f :
  Z.of_nat (length (extra_item_bytes f)) = 4 + Z.of_nat (length f.2).
Proof. unfold extra_item_bytes. rewrite !length_app, !length_le_bytes. lia. Qed.

Lemma extra_bytes_snoc fs f : extra_bytes (fs ++ [f]) = extra_bytes fs ++ extra_item_bytes f.
Proof. unfold extra_bytes. rewrite map_app, concat_app. simpl. by rewrite app_nil_r. Qed.

Lemma extra_records_app site start fs gs :
  extra_records site start (fs ++ gs)
  = extra_records site start fs
    ++ extra_records site (start + Z.of_nat (length (extra_bytes fs))) gs.
Proof.
  revert start. induction fs as [|f fs IH]; intros start.
  - simpl. f_equal. lia.
  - cbn [extra_records app]. rewrite IH. do 3 f_equal. unfold extra_bytes. cbn [map concat].
    rewrite length_app, Nat2Z.inj_add, length_extra_item. lia.
Qed.

(** The header of the field that follows a prefix. *)
Lemma u16_at_extra p f rest :
  0 <= f.1 <= u16_max -> Z.of_nat (length f.2) <= u16_max ->
  u16_at (p ++ extra_item_bytes f ++ rest) (Z.of_nat (length p)) = f.1
  /\ u16_at (p ++ extra_item_bytes f ++ rest) (Z.of_nat (length p) + 2) = Z.of_nat (length f.2).
Proof.
  intros Hid Hsz. unfold u16_at, extra_item_bytes, u16_max in *. split.
  - rewrite range_app_r by lia. rewrite Z.sub_diag, <- app_assoc.
    rewrite range_app_l by (rewrite ?length_le_bytes; lia).
    rewrite range_full by (rewrite ?length_le_bytes; lia). apply le_value_le_bytes. cbn. lia.
  - rewrite range_app_r by lia. rewrite <- !app_assoc.
    rewrite range_app_r by (rewrite ?length_le_bytes; lia).
    rewrite length_le_bytes.
    replace (Z.of_nat (length p) + 2 - Z.of_nat (length p) - Z.of_nat 2) with 0 by lia.
    rewrite range_app_l by (rewrite ?length_le_bytes; lia).
    rewrite range_full by (rewrite ?length_le_bytes; lia). apply le_value_le_bytes. cbn. lia.
Qed.

(** Any four bytes and a size that fits are the header of some field. *)
Lemma extra_split extra pos :
  0 <= pos -> pos + 4 <= Z.of_nat (length extra) ->
  pos + 4 + u16_at extra (pos + 2) <= Z.of_nat (length extra) ->
  let f := (u16_at extra pos, range (pos + 4) (u16_at extra (pos + 2)) extra) in
  range 0 (pos + 4 + u16_at extra (pos + 2)) extra
  = range 0 pos extra ++ extra_item_bytes f.
Proof.
  intros Hp H4 Hs f. pose proof (u16_at_range extra (pos + 2)) as Hb.
  replace (pos + 4 + u16_at extra (pos + 2)) with (pos + (2 + (2 + u16_at extra (pos + 2)))) by lia.
  rewrite !range_app by lia. unfold extra_item_bytes, f. cbn [fst snd].
  rewrite length_range by lia. rewrite Z2Nat.id by lia. rewrite Z.add_0_l.
  f_equal. f_equal; [|f_equal].
  - apply le_value_eq; [rewrite length_range by lia; done|done].
  - apply le_value_eq; [rewrite length_range by lia; done|done].
  - f_equal. lia.
Qed.

Section Classify.
Context (extra : list byte) (extra_start : Z) (at_site : ExtraSite) (context : string)
  (name : list byte) (profile : ZipInterpretationProfile).
Hypothesis extra_short : Z.of_nat (length extra) <= u16_max.

Let step := classify_extra_step extra extra_start at_site context name profile.

(** The state after some admitted fields. *)
Definition extra_state (fs : list extra_item) : ExtraState :=
  {| ex_position := Z.of_nat (length (extra_bytes fs));
     ex_ids := list_to_set (rev (map fst fs));
     ex_records := extra_records at_site extra_start fs |}.

Lemma elem_of_ids fs i : i ∈ ex_ids (extra_state fs) <-> i ∈ map fst fs.
Proof. cbn [extra_state ex_ids]. by rewrite elem_of_list_to_set, list_elem_of_In, <- in_rev, list_elem_of_In. Qed.

Lemma extra_state_snoc fs f :
  extra_state (fs ++ [f])
  = {| ex_position := Z.of_nat (length (extra_bytes fs)) + 4 + Z.of_nat (length f.2);
       ex_ids := {[ f.1 ]} ∪ ex_ids (extra_state fs);
       ex_records := ex_records (extra_state fs) ++
         [{| site := at_site; id := f.1;
             header_range := mkrange (extra_start + Z.of_nat (length (extra_bytes fs))) 4;
             data_range := mkrange (extra_start + Z.of_nat (length (extra_bytes fs)) + 4)
                             (Z.of_nat (length f.2));
             disposition := Ignored |}] |}.
Proof.
  unfold extra_state. rewrite extra_bytes_snoc, extra_records_app, length_app.
  f_equal.
  - rewrite Nat2Z.inj_add, length_extra_item. lia.
  - cbn [ex_ids]. by rewrite map_app, rev_app_distr.
Qed.

Definition extra_prefix (fs : list extra_item) : Prop :=
  (exists rest, extra = extra_bytes fs ++ rest) /\ NoDup (map fst fs)
  /\ Forall (extra_item_ok profile) fs.

(** One iteration over a region that continues with an admitted field. *)
Lemma step_admitted fs f rest :
  extra = extra_bytes fs ++ extra_item_bytes f ++ rest ->
  NoDup (map fst (fs ++ [f])) -> extra_item_ok profile f ->
  step (extra_state fs) = Some (Ok (Continue (extra_state (fs ++ [f])))).
Proof.
  intros He Hnd Hok. pose proof Hok as [Hid Hsz Hprof Hden].
  destruct (u16_at_extra (extra_bytes fs) f rest Hid Hsz) as [H1 H2].
  assert (Hlen : Z.of_nat (length extra) = Z.of_nat (length (extra_bytes fs)) + 4
    + Z.of_nat (length f.2) + Z.of_nat (length rest)).
  { rewrite He, !length_app, !Nat2Z.inj_add, length_extra_item. lia. }
  rewrite <- He in H1, H2.
  unfold step, classify_extra_step. unfold u16_max in *.
  cbn [extra_state ex_position]. rewrite (proj2 (Z.leb_gt _ _)) by lia.
  rewrite (proj2 (Z.ltb_ge _ 4)) by lia. rewrite H1, H2.
  rewrite u64_checked_add_le by (unfold u64_max; lia). cbn [mbind option_bind].
  rewrite u64_checked_add_le by (unfold u64_max; lia).
  cbn [ok_or]. rewrite (proj2 (Z.ltb_ge (Z.of_nat (length extra)) _)) by lia.
  rewrite bool_decide_eq_false_2.
  - rewrite Hprof, Hden. by rewrite extra_state_snoc.
  - intros Hin. rewrite map_app in Hnd. apply NoDup_app in Hnd as (_ & Hdis & _).
    apply (Hdis f.1); [by apply elem_of_ids|left].
Qed.

(** Conversely, what an iteration that continues has read. *)
Lemma step_continue fs st :
  extra_prefix fs -> step (extra_state fs) = Some (Ok (Continue st)) ->
  exists f, extra_prefix (fs ++ [f]) /\ st = extra_state (fs ++ [f]).
Proof.
  intros ((rest & He) & Hnd & Hok) Hs. unfold step, classify_extra_step in Hs.
  set (p := Z.of_nat (length (extra_bytes fs))) in *.
  change (ex_position (extra_state fs)) with p in Hs. assert (0 <= p) by lia.
  destruct (Z.leb_spec (Z.of_nat (length extra)) p); [done|].
  ok_steps Hs. breflect.
  match goal with Hq : ok_or _ _ = Ok ?x |- _ =>
    apply ok_or_ok, bind_Some in Hq as (y & [-> _]%u64_checked_add_Some & [-> _]%u64_checked_add_Some) end.
  match goal with Hq : bool_decide _ = false |- _ => apply bool_decide_eq_false in Hq; rename Hq into Hnin end.
  pose proof (u16_at_range extra (p + 2)). pose proof (u16_at_range extra p).
  set (f := (u16_at extra p, range (p + 4) (u16_at extra (p + 2)) extra)).
  assert (Hf2 : Z.of_nat (length f.2) = u16_at extra (p + 2)) by (apply length_range_u16; lia).
  assert (Hpre : range 0 p extra = extra_bytes fs).
  { rewrite He. rewrite range_app_l by lia. by apply range_full. }
  pose proof (extra_split extra p ltac:(lia) ltac:(lia) ltac:(lia)) as Hsplit.
  cbv zeta in Hsplit. fold f in Hsplit. rewrite Hpre, <- extra_bytes_snoc in Hsplit.
  exists f. split.
  - split_and!.
    + exists (drop (Z.to_nat (p + 4 + u16_at extra (p + 2))) extra). rewrite <- Hsplit.
      unfold range. simpl. by rewrite take_drop.
    + rewrite map_app. apply NoDup_app. split_and!; [done| |apply NoDup_singleton].
      intros i Hi ->%list_elem_of_singleton. apply Hnin. by apply elem_of_ids.
    + apply Forall_app. split; [done|]. constructor; [|constructor].
      split; [exact (u16_at_range extra p)|rewrite Hf2; lia|done|done].
  - injection Hs as <-. rewrite extra_state_snoc. rewrite Hf2. done.
Qed.

Lemma classify_total :
  exists r, classify_extra_fields extra extra_start at_site context name profile = Some r.
Proof.
  unfold classify_extra_fields. fold step.
  apply (run_loop_total _ (fun st => 0 <= ex_position st)
    (fun st => Z.to_nat (Z.of_nat (length extra) - ex_position st))).
  - intros st _. unfold step, classify_extra_step. by repeat case_match.
  - intros st st' Hp Hs. unfold step, classify_extra_step in Hs.
    destruct (Z.leb_spec (Z.of_nat (length extra)) (ex_position st)); [done|].
    ok_steps Hs. simplify_eq. breflect. cbn [ex_position].
    match goal with Hq : ok_or _ _ = Ok ?x |- _ =>
      apply ok_or_ok, bind_Some in Hq as (y & [-> _]%u64_checked_add_Some & [-> _]%u64_checked_add_Some) end.
    pose proof (u16_at_range extra (ex_position st + 2)). lia.
  - simpl. lia.
  - simpl. lia.
Qed.

Lemma classify_sound records :
  classify_extra_fields extra extra_start at_site context name profile = Some (Ok records) ->
  exists fs, extra_region profile extra fs /\ records = extra_records at_site extra_start fs.
Proof.
  unfold classify_extra_fields. fold step. change {| ex_position := 0; ex_ids := ∅; ex_records := [] |}
    with (extra_state []).
  apply (run_loop_invariant _ (fun st => exists fs, extra_prefix fs /\ st = extra_state fs)
    (fun records => exists fs, extra_region profile extra fs /\ records = extra_records at_site extra_start fs)).
  - intros st st' (fs & Hf & ->) Hs. apply step_continue in Hs as (f & Hpre & ->); [|done]. eauto.
  - intros st r (fs & Hf & ->) Hs. unfold step, classify_extra_step in Hs.
    destruct (Z.leb_spec (Z.of_nat (length extra)) (ex_position (extra_state fs))) as [Hle|];
      [|exfalso; clear -Hs; by repeat case_match].
    injection Hs as <-. exists fs. split; [|done]. destruct Hf as ((rest & He) & Hnd & Hok).
    split_and!; try done. cbn [extra_state ex_position] in Hle. rewrite He, length_app in Hle.
    assert (rest = []) as -> by (apply length_zero_iff_nil; lia). by rewrite app_nil_r in He.
  - exists []. split; [|done]. split_and!; [by exists extra|constructor|constructor].
Qed.

Lemma classify_complete fs :
  extra_region profile extra fs ->
  classify_extra_fields extra extra_start at_site context name profile
    = Some (Ok (extra_records at_site extra_start fs)).
Proof.
  intros (He & Hnd & Hok). unfold classify_extra_fields. fold step.
  change {| ex_position := 0; ex_ids := ∅; ex_records := [] |} with (extra_state []).
  apply (run_loop_reaches _ _ _ (extra_state fs)).
  - apply classify_total.
  - assert (Hgen : forall gs hs, fs = gs ++ hs -> rtc (loop_step step) (extra_state gs) (extra_state fs)).
    { intros gs hs. revert gs. induction hs as [|f hs IH]; intros gs Hfs.
      - rewrite app_nil_r in Hfs. subst. apply rtc_refl.
      - apply rtc_l with (extra_state (gs ++ [f])).
        + apply (step_admitted gs f (extra_bytes hs)).
          * rewrite He, Hfs. unfold extra_bytes. by rewrite map_app, concat_app.
          * assert (Hnd' : NoDup (map fst (gs ++ [f]) ++ map fst hs))
              by (rewrite <- map_app, <- app_assoc; simpl; by rewrite <- Hfs).
            by apply NoDup_app in Hnd' as [? _].
          * rewrite Hfs in Hok. apply Forall_app in Hok as [_ Hok]. by apply Forall_cons in Hok as [? _].
        + apply IH. by rewrite <- app_assoc. }
    by apply (Hgen [] fs).
  - unfold step, classify_extra_step. cbn [extra_state ex_position].
    rewrite (proj2 (Z.leb_le _ _)) by (rewrite He; lia). done.
Qed.
End Classify.

(** ** Headers and descriptors are read exactly as encoded

    [central_header32], [parse_lfh] and [parse_data_descriptor_with_width]
    accept exactly the encodings of the grammar, at the position they read. *)

#[local] Arguments le_bytes : simpl never.

(** ** The central header *)

Lemma width_central h i : width (central_fields h i) = 46.
Proof. done. Qed.

Lemma central_bytes_split cd pos h i :
  0 <= pos -> ch_end h pos <= Z.of_nat (length cd) -> Forall field_ok (central_fields h i) ->
  range pos (ch_end h 0) cd = central_bytes h i <->
  fields_at pos (central_fields h i) cd
  /\ range (pos + 46) (Z.of_nat (length (ch_name h))) cd = ch_name h
  /\ range (pos + 46 + Z.of_nat (length (ch_name h))) (Z.of_nat (length (ch_extra h))) cd = ch_extra h
  /\ range (pos + 46 + Z.of_nat (length (ch_name h)) + Z.of_nat (length (ch_extra h)))
       (Z.of_nat (length (ch_comment h))) cd = ch_comment h.
Proof.
  intros Hp Hl Hok. unfold ch_end in *. unfold central_bytes.
  pose proof (length_fields_bytes (central_fields h i)) as Hw. rewrite width_central in Hw.
  replace (0 + 46 + Z.of_nat (length (ch_name h)) + Z.of_nat (length (ch_extra h))
    + Z.of_nat (length (ch_comment h)))
    with (46 + (Z.of_nat (length (ch_name h)) + (Z.of_nat (length (ch_extra h))
    + Z.of_nat (length (ch_comment h))))) by lia.
  rewrite range_app_iff by lia. rewrite range_app_iff by lia. rewrite range_app_iff by lia.
  rewrite <- (width_central h i) at 1. by rewrite fields_bytes_at by (rewrite ?width_central; done || lia).
Qed.

Lemma field_ok_u16 data pos : field_ok (2%nat, u16_at data pos).
Proof. by apply (le_value_bound 2 2). Qed.
Lemma field_ok_u32 data pos : field_ok (4%nat, u32_at data pos).
Proof. by apply (le_value_bound 4 4). Qed.

Ltac fields_ok :=
  repeat (apply Forall_cons_2;
    [first [ apply field_ok_u16 | apply field_ok_u32 | by split
           | unfold field_ok; cbn [fst snd]; lia ]|]);
  apply Forall_nil_2.
(** The reads that define the values are the fields. *)
Ltac fields_read :=
  cbn [fields_at fst snd]; unfold u16_at, u32_at in *;
  repeat match goal with |- _ /\ _ => split end; try done;
  first [ f_equal; f_equal; lia
        | match goal with Hq : le_value _ = ?v |- _ = ?v => rewrite <- Hq; f_equal; f_equal; lia end ].

Lemma central_header32_sound cd pos h :
  0 <= pos -> central_header32 cd pos = Ok h -> central_at cd pos h.
Proof.
  intros Hp H. apply central_header32_bounds in H as Hb; [|done]. destruct Hb as ([_ Hend] & _).
  unfold central_header32 in H. ok_steps H. breflect. injection H as <-.
  pose proof (u16_at_range cd (pos + 28)). pose proof (u16_at_range cd (pos + 30)).
  pose proof (u16_at_range cd (pos + 32)). unfold central_at.
  cbn [ch_comp ch_uncomp ch_lfh_offset].
  split_and!; try done.
  match goal with |- exists i, Forall field_ok (central_fields ?r i) /\ _ => set (h := r) in * end.
  set (i := {| ci_version_needed := u16_at cd (pos + 6); ci_time := u16_at cd (pos + 12);
    ci_date := u16_at cd (pos + 14); ci_internal_attributes := u16_at cd (pos + 36) |}).
  assert (Hf : central_fields h i =
    [(4%nat, CDH_SIG); (2%nat, u16_at cd (pos + 4)); (2%nat, u16_at cd (pos + 6));
     (2%nat, u16_at cd (pos + 8)); (2%nat, u16_at cd (pos + 10)); (2%nat, u16_at cd (pos + 12));
     (2%nat, u16_at cd (pos + 14)); (4%nat, u32_at cd (pos + 16)); (4%nat, u32_at cd (pos + 20));
     (4%nat, u32_at cd (pos + 24)); (2%nat, u16_at cd (pos + 28)); (2%nat, u16_at cd (pos + 30));
     (2%nat, u16_at cd (pos + 32)); (2%nat, 0); (2%nat, u16_at cd (pos + 36));
     (4%nat, u32_at cd (pos + 38)); (4%nat, u32_at cd (pos + 42))]).
  { subst h i. unfold central_fields. cbn [ch_version_made_by ch_flags ch_method ch_crc ch_comp
      ch_uncomp ch_external_attributes ch_lfh_offset ch_name ch_extra ch_comment
      ci_version_needed ci_time ci_date ci_internal_attributes].
    by rewrite !length_range_u16 by lia. }
  assert (Hok : Forall field_ok (central_fields h i)) by (rewrite Hf; fields_ok).
  exists i. split; [done|]. apply central_bytes_split; [done|done|done|]. rewrite Hf. split.
  - fields_read.
  - subst h. cbn [ch_name ch_extra ch_comment]. by rewrite !length_range_u16 by lia.
Qed.

(** Names the reads of split fields as the reader does, and computes with
    them. *)
Ltac name_reads :=
  repeat match goal with
  | Hq : le_value (range (?p + 0) 4 ?l) = ?v |- _ =>
      rewrite Z.add_0_r in Hq; change (u32_at l p = v) in Hq
  | Hq : le_value (range ?p 2 ?l) = ?v |- _ => change (u16_at l p = v) in Hq
  | Hq : le_value (range ?p 4 ?l) = ?v |- _ => change (u32_at l p = v) in Hq
  | Hq : le_value (range ?p 8 ?l) = ?v |- _ => change (u64_at l p = v) in Hq
  end.
Ltac use_reads :=
  repeat match goal with
  | Hq : u16_at _ _ = _ |- _ => rewrite ?Hq; clear Hq
  | Hq : u32_at _ _ = _ |- _ => rewrite ?Hq; clear Hq
  | Hq : u64_at _ _ = _ |- _ => rewrite ?Hq; clear Hq
  end.

Lemma central_header32_complete cd pos h :
  0 <= pos -> central_at cd pos h -> central_header32 cd pos = Ok h.
Proof.
  intros Hp (Hend & Hc & Hu & Hl & i & Hok & Hr).
  apply central_bytes_split in Hr as (Hf & Hn & He & Hm); [|done..].
  unfold central_fields in Hf. split_fields pos Hf. name_reads.
  unfold ch_end in Hend. unfold central_header32. change 0xFFFFFFFF with u32_max. use_reads.
  rewrite (proj2 (Z.ltb_ge _ _)) by lia. rewrite Z.eqb_refl. cbn [negb].
  rewrite (proj2 (Z.eqb_neq _ _) Hc), (proj2 (Z.eqb_neq _ _) Hu), (proj2 (Z.eqb_neq _ _) Hl).
  cbn [orb Z.eqb negb]. rewrite (proj2 (Z.ltb_ge _ _)) by lia. rewrite Hn, He, Hm. by destruct h.
Qed.

(** [central_header32] accepts exactly the encodings of a header. *)
Lemma central_header32_iff cd pos h :
  0 <= pos -> central_header32 cd pos = Ok h <-> central_at cd pos h.
Proof. split; [by apply central_header32_sound|by apply central_header32_complete]. Qed.

(** ** The local header *)

Section Local.
Context {S} `{Source S} `{!Allocator} (s : S) (bs : list byte).

Lemma width_local l i : width (local_fields l i) = 30.
Proof. done. Qed.

Lemma local_bytes_split off l i :
  0 <= off -> lh_extra_offset l = off + 30 + Z.of_nat (length (lh_name l)) ->
  lh_data_offset l = lh_extra_offset l + Z.of_nat (length (lh_extra l)) ->
  lh_data_offset l <= Z.of_nat (length bs) -> Forall field_ok (local_fields l i) ->
  range off (lh_data_offset l - off) bs = local_bytes l i <->
  fields_at off (local_fields l i) bs
  /\ range (off + 30) (Z.of_nat (length (lh_name l))) bs = lh_name l
  /\ range (off + 30 + Z.of_nat (length (lh_name l))) (Z.of_nat (length (lh_extra l))) bs
     = lh_extra l.
Proof.
  intros Ho -> -> Hl Hok. unfold local_bytes.
  pose proof (length_fields_bytes (local_fields l i)) as Hw. rewrite width_local in Hw.
  replace (off + 30 + Z.of_nat (length (lh_name l)) + Z.of_nat (length (lh_extra l)) - off)
    with (30 + (Z.of_nat (length (lh_name l)) + Z.of_nat (length (lh_extra l)))) by lia.
  rewrite range_app_iff by lia. rewrite range_app_iff by lia.
  rewrite <- (width_local l i) at 1. by rewrite fields_bytes_at by (rewrite ?width_local; done || lia).
Qed.

Lemma u16_at_nested pos off n :
  0 <= off -> 0 <= pos -> pos + 2 <= n -> u16_at (range off n bs) pos = u16_at bs (off + pos).
Proof. intros. unfold u16_at. by rewrite range_range by lia. Qed.
Lemma u32_at_nested pos off n :
  0 <= off -> 0 <= pos -> pos + 4 <= n -> u32_at (range off n bs) pos = u32_at bs (off + pos).
Proof. intros. unfold u32_at. by rewrite range_range by lia. Qed.

Lemma parse_lfh_sound off limit l :
  represents s bs -> 0 <= off -> parse_lfh_bounded s off limit = Ok l ->
  local_at bs off l
  /\ Z.of_nat (length (lh_name l)) + Z.of_nat (length (lh_extra l)) <= limit.
Proof.
  intros Hr Ho Hl. unfold parse_lfh_bounded in Hl. ok_steps Hl. breflect.
  match goal with Hq : map_err _ (src_read s off 30) = Ok _ |- _ =>
    destruct (src_read s off 30) as [d|f] eqn:Hv; [|done]; injection Hq as <-;
    apply (represents_read _ _ Hr) in Hv as [Hb ->]; [|done|lia] end.
  rewrite !u16_at_nested, !u32_at_nested in * by lia. rewrite Z.add_0_r in *.
  pose proof (u16_at_range bs (off + 26)). pose proof (u16_at_range bs (off + 28)).
  repeat match goal with Hq : ok_or (u64_checked_add _ _) _ = Ok _ |- _ =>
    apply ok_or_ok, u64_checked_add_Some in Hq as [-> _] end.
  rewrite (represents_len _ _ Hr) in *.
  repeat match goal with Hq : read_vec s _ _ = Ok _ |- _ =>
    apply (read_vec_sound s bs) in Hq as [_ ->]; [|done|lia|lia] end.
  injection Hl as <-.
  set (i := {| li_time := u16_at bs (off + 10); li_date := u16_at bs (off + 12) |}).
  match goal with |- local_at _ _ ?r /\ _ => set (l := r) end.
  assert (Hn : Z.of_nat (length (lh_name l)) = u16_at bs (off + 26)
    /\ Z.of_nat (length (lh_extra l)) = u16_at bs (off + 28))
    by (subst l; cbn [lh_name lh_extra]; by rewrite !length_range_u16 by lia).
  destruct Hn as [Hn He]. split; [|lia].
  assert (Hf : local_fields l i =
    [(4%nat, LFH_SIG); (2%nat, u16_at bs (off + 4)); (2%nat, u16_at bs (off + 6));
     (2%nat, u16_at bs (off + 8)); (2%nat, u16_at bs (off + 10)); (2%nat, u16_at bs (off + 12));
     (4%nat, u32_at bs (off + 14)); (4%nat, u32_at bs (off + 18)); (4%nat, u32_at bs (off + 22));
     (2%nat, u16_at bs (off + 26)); (2%nat, u16_at bs (off + 28))])
    by (unfold local_fields; by rewrite Hn, He).
  assert (Hok : Forall field_ok (local_fields l i)) by (rewrite Hf; fields_ok).
  assert (Heo : lh_extra_offset l = off + 30 + Z.of_nat (length (lh_name l))) by (rewrite Hn; done).
  assert (Hdo : lh_data_offset l = lh_extra_offset l + Z.of_nat (length (lh_extra l)))
    by (rewrite He; done).
  assert (Hle : lh_data_offset l <= Z.of_nat (length bs)) by (subst l; cbn [lh_data_offset]; lia).
  split_and!; try done. exists i. split; [done|].
  apply local_bytes_split; try done. rewrite Hf. split.
  - fields_read.
  - rewrite Hn, He. done.
Qed.

Lemma parse_lfh_complete off limit l :
  reliable s bs -> (forall site k, try_reserve site k = true) -> 0 <= off ->
  local_at bs off l ->
  Z.of_nat (length (lh_name l)) + Z.of_nat (length (lh_extra l)) <= limit ->
  parse_lfh_bounded s off limit = Ok l.
Proof.
  intros Hr Ha Ho (Heo & Hdo & Hle & i & Hok & Hb) Hlim.
  pose proof (reliable_represents _ _ Hr) as Hrep.
  apply local_bytes_split in Hb as (Hf & Hn & He); [|done..].
  unfold local_fields in Hf. split_fields off Hf. name_reads.
  pose proof (represents_u64 _ _ Hrep). unfold parse_lfh_bounded.
  rewrite (reliable_read _ _ Hr) by lia. cbn [map_err].
  rewrite !u16_at_nested, !u32_at_nested by lia. rewrite Z.add_0_r. use_reads.
  rewrite Z.eqb_refl. cbn [negb]. rewrite u64_checked_add_le by lia. cbn [ok_or].
  rewrite (proj2 (Z.ltb_ge _ _)) by lia. rewrite u64_checked_add_le by lia. cbn [ok_or].
  rewrite u64_checked_add_le by lia. cbn [ok_or]. rewrite u64_checked_add_le by lia. cbn [ok_or].
  rewrite (represents_len _ _ Hrep), (proj2 (Z.ltb_ge _ _)) by lia.
  rewrite !(read_vec_complete s bs) by (done || lia). rewrite Hn, He.
  rewrite <- Heo, <- Hdo. by destruct l.
Qed.
End Local.

(** ** The data descriptor *)

Section Descriptor.
Context {S} `{Source S} (s : S) (bs : list byte).

(** The values of a descriptor, as the reader takes them from its buffer. *)
Definition values_at (w : DataDescriptorWidth) (buf : list byte) (pos : Z)
    (crc comp uncomp : Z) : Prop :=
  u32_at buf pos = crc
  /\ match w with Zip32 => u32_at | Zip64 => u64_at end buf (pos + 4) = comp
  /\ match w with Zip32 => u32_at | Zip64 => u64_at end buf (pos + 4 + value_bytes w) = uncomp.

Lemma value_bytes_width w : value_bytes w = Z.of_nat (value_width w).
Proof. by destruct w. Qed.

Lemma values_at_fields w pos crc comp uncomp :
  values_at w bs pos crc comp uncomp <-> fields_at pos (descriptor_values w crc comp uncomp) bs.
Proof.
  unfold values_at, descriptor_values. cbn [fields_at fst snd].
  destruct w; cbn [value_width value_bytes]; unfold u32_at, u64_at;
    change (Z.of_nat 4) with 4; change (Z.of_nat 8) with 8; tauto.
Qed.

Lemma values_at_nested w pos off n crc comp uncomp :
  0 <= off -> 0 <= pos -> pos + 4 + 2 * value_bytes w <= n ->
  values_at w (range off n bs) pos crc comp uncomp <-> values_at w bs (off + pos) crc comp uncomp.
Proof.
  intros Ho Hp Hn. unfold values_at. destruct w; cbn [value_bytes] in *;
    unfold u32_at, u64_at; rewrite !range_range by lia; by rewrite !Z.add_assoc.
Qed.

Lemma values_test w buf pos crc comp uncomp :
  values_at w buf pos crc comp uncomp <->
  negb (u32_at buf pos =? crc)
  || negb (match w with Zip32 => u32_at | Zip64 => u64_at end buf (pos + 4) =? comp)
  || negb (match w with Zip32 => u32_at | Zip64 => u64_at end buf (pos + 4 + value_bytes w)
           =? uncomp) = false.
Proof. unfold values_at. rewrite !orb_false_iff, !negb_false_iff, !Z.eqb_eq. tauto. Qed.

Definition descriptor_fields_ok (w : DataDescriptorWidth) (crc comp uncomp : Z) : Prop :=
  Forall field_ok (descriptor_values w crc comp uncomp).

Lemma width_descriptor w crc comp uncomp :
  width (descriptor_values w crc comp uncomp) = 4 + 2 * value_bytes w.
Proof. by destruct w. Qed.

(** Both forms, as values in the source. *)
Lemma descriptor_at_values off w crc comp uncomp stop :
  0 <= off -> descriptor_fields_ok w crc comp uncomp ->
  descriptor_at bs off w crc comp uncomp stop <->
  stop <= Z.of_nat (length bs) /\
  ((stop = off + 8 + 2 * value_bytes w /\ u32_at bs off = DATA_DESCRIPTOR_SIG
    /\ values_at w bs (off + 4) crc comp uncomp)
   \/ (u32_at bs off <> DATA_DESCRIPTOR_SIG /\ stop = off + 4 + 2 * value_bytes w
       /\ values_at w bs off crc comp uncomp)).
Proof.
  intros Ho Hok. unfold descriptor_at. rewrite <- value_bytes_width.
  pose proof (width_descriptor w crc comp uncomp) as Hw.
  assert (0 <= value_bytes w) by (by destruct w).
  assert (Hsig : Forall field_ok ((4%nat, DATA_DESCRIPTOR_SIG) :: descriptor_values w crc comp uncomp))
    by (apply Forall_cons_2; [by split|done]).
  split; intros [Hl [(-> & Hr)|Hr]]; (split; [done|]).
  - left. replace (off + 8 + 2 * value_bytes w - off)
      with (width ((4%nat, DATA_DESCRIPTOR_SIG) :: descriptor_values w crc comp uncomp)) in Hr
      by (cbn [width fst]; lia).
    apply fields_bytes_at in Hr; [|done|cbn [width fst]; lia|done].
    cbn [fields_at fst snd] in Hr. destruct Hr as [Hs Hr]. split_and!; [done|done|].
    by apply values_at_fields.
  - right. destruct Hr as (Hne & -> & Hr).
    replace (off + 4 + 2 * value_bytes w - off)
      with (width (descriptor_values w crc comp uncomp)) in Hr by lia.
    apply fields_bytes_at in Hr; [|done|lia|done]. apply values_at_fields in Hr.
    split_and!; [|done|done]. destruct Hr as [-> _]. done.
  - left. split; [done|]. destruct Hr as [Hs Hr].
    replace (off + 8 + 2 * value_bytes w - off)
      with (width ((4%nat, DATA_DESCRIPTOR_SIG) :: descriptor_values w crc comp uncomp))
      by (cbn [width fst]; lia).
    apply fields_bytes_at; [done|cbn [width fst]; lia|done|].
    cbn [fields_at fst snd]. split; [done|]. by apply values_at_fields.
  - right. destruct Hr as (Hne & -> & Hr). split_and!; [by destruct Hr as [<- _]|done|].
    replace (off + 4 + 2 * value_bytes w - off)
      with (width (descriptor_values w crc comp uncomp)) by lia.
    apply fields_bytes_at; [done|lia|done|]. by apply values_at_fields.
Qed.

Lemma parse_data_descriptor_sound off w crc comp uncomp stop :
  represents s bs -> 0 <= off -> descriptor_fields_ok w crc comp uncomp ->
  parse_data_descriptor_with_width s off crc comp uncomp w = Ok stop ->
  descriptor_at bs off w crc comp uncomp stop.
Proof.
  intros Hr Ho Hok Hp. apply descriptor_at_values; [done|done|].
  assert (0 < value_bytes w) by (by destruct w).
  unfold parse_data_descriptor_with_width in Hp. ok_steps Hp.
  match goal with Hq : map_err _ (src_read s off _) = Ok _ |- _ =>
    destruct (src_read s off _) as [d|f] eqn:Hv; [|done]; injection Hq as <-;
    apply (represents_read _ _ Hr) in Hv as [Hb ->]; [|done|lia] end.
  match goal with Hq : (if u32_at _ 0 =? _ then _ else _) = Ok _ |- _ => rename Hq into Hform end.
  match goal with Hq : _ || _ = false |- _ => apply values_test in Hq; rename Hq into Hvals end.
  apply ok_or_ok, u64_checked_add_Some in Hp as [-> _].
  rewrite u32_at_nested, Z.add_0_r in Hform by lia.
  destruct (Z.eqb_spec (u32_at bs off) DATA_DESCRIPTOR_SIG) as [Hs|Hs].
  - ok_steps Hform. injection Hform as <- <- <-.
    match goal with Hq : ok_or _ _ = Ok _ |- _ =>
      apply ok_or_ok, u64_checked_add_Some in Hq as [-> _] end.
    match goal with Hq : map_err _ (src_read s ?o ?n) = Ok _ |- _ =>
      destruct (src_read s o n) as [d|f] eqn:Hv; [|done]; injection Hq as <-;
      apply (represents_read _ _ Hr) in Hv as [Hb' ->]; [|lia|lia] end.
    rewrite <- range_app in Hvals by lia. apply values_at_nested in Hvals; [|lia..].
    split; [lia|]. left. split_and!; [lia|done|done].
  - injection Hform as <- <- <-. apply values_at_nested in Hvals; [|lia..].
    rewrite Z.add_0_r in Hvals. split; [lia|]. right. split_and!; [done|lia|done].
Qed.

Lemma parse_data_descriptor_complete off w crc comp uncomp stop :
  reliable s bs -> 0 <= off -> descriptor_fields_ok w crc comp uncomp ->
  descriptor_at bs off w crc comp uncomp stop ->
  parse_data_descriptor_with_width s off crc comp uncomp w = Ok stop.
Proof.
  intros Hr Ho Hok Hd. apply descriptor_at_values in Hd as [Hl Hd]; [|done|done].
  assert (0 < value_bytes w) by (by destruct w).
  pose proof (represents_u64 _ _ (reliable_represents _ _ Hr)).
  assert (Hl4 : off + 4 + 2 * value_bytes w <= Z.of_nat (length bs)) by (destruct Hd as [[? _]|(_ & ? & _)]; lia).
  unfold parse_data_descriptor_with_width.
  rewrite (reliable_read _ _ Hr) by lia. cbn [map_err]. rewrite u32_at_nested by lia.
  rewrite Z.add_0_r. destruct Hd as [(-> & Hs & Hv)|(Hs & -> & Hv)].
  - rewrite Hs, Z.eqb_refl. rewrite u64_checked_add_le by lia. cbn [ok_or].
    rewrite (reliable_read _ _ Hr) by lia. cbn [map_err]. rewrite <- range_app by lia.
    rewrite (proj1 (values_test w _ 4 crc comp uncomp)).
    + rewrite u64_checked_add_le by lia. cbn [ok_or]. f_equal. lia.
    + apply values_at_nested; [lia..|done].
  - rewrite (proj2 (Z.eqb_neq _ _) Hs).
    rewrite (proj1 (values_test w _ 0 crc comp uncomp)).
    + rewrite u64_checked_add_le by lia. cbn [ok_or]. f_equal. lia.
    + apply values_at_nested; [lia..|by rewrite Z.add_0_r].
Qed.
End Descriptor.

(** ** Metadata and agreement *)

Lemma contains_signature_iff data sig :
  contains_signature data sig = true <-> exists p q, data = p ++ le_bytes 4 sig ++ q.
Proof.
  apply contains_window_iff. intros Hn. apply (f_equal length) in Hn.
  by rewrite length_le_bytes in Hn.
Qed.

Lemma reject_structural_metadata_ok data context :
  reject_structural_metadata data context = Ok () <-> clean data.
Proof.
  assert (Hc : clean data <-> Forall (fun sig => contains_signature data sig = false) structural_signatures).
  { unfold clean. rewrite Forall_forall. split.
    - intros Hc sig Hin. destruct (contains_signature data sig) eqn:E; [|done].
      apply contains_signature_iff in E as (p & q & He). by destruct (Hc sig Hin p q).
    - intros Hf sig Hin p q He. specialize (Hf sig Hin).
      rewrite (proj2 (contains_signature_iff data sig)) in Hf; [done|by exists p, q]. }
  rewrite Hc. unfold structural_signatures, reject_structural_metadata, contains_stream_signature.
  rewrite !Forall_cons. cbn [existsb].
  destruct (contains_signature data ZIP64_EOCD_SIG), (contains_signature data ZIP64_LOCATOR_SIG),
    (contains_signature data EOCD_SIG), (contains_signature data LFH_SIG),
    (contains_signature data CDH_SIG), (contains_signature data DATA_DESCRIPTOR_SIG); simpl;
    split; try done; intros; intuition done.
Qed.

Lemma validate_flags_ok flags profile name :
  validate_general_purpose_flags flags profile name = Ok () <-> flags_allowed profile flags.
Proof.
  unfold validate_general_purpose_flags, flags_allowed. destruct (allowed_flags profile); [|done].
  destruct (Z.eqb_spec (Z.land flags (Z.lxor u16_max z)) 0); simpl; done.
Qed.

Lemma local_agrees32_ok h l profile :
  local_agrees32 h l profile = Ok () <->
  headers_agree h l /\ flags_allowed profile (ch_flags h).
Proof.
  rewrite <- (validate_flags_ok _ _ (ch_name h)). unfold local_agrees32. split.
  - intros Ha. ok_steps Ha. units. breflect. split; [|done].
    match goal with Hq : bool_decide _ = true |- _ => apply bool_decide_eq_true in Hq end.
    split; try done. destruct (gp3 (ch_flags h)); simpl in *; breflect.
    + repeat match goal with Hq : _ && _ = false |- _ => apply andb_false_iff in Hq end.
      split_and!;
        match goal with
        | Hq : negb (?x l =? 0) = false \/ _ |- ?x l = 0 \/ _ =>
            destruct Hq; breflect; [by left|by right]
        end.
    + split_and!; done.
  - intros [[Hn Hm Hf Hs] Hv]. rewrite Hn, Hm, Hf, Hv.
    rewrite bool_decide_eq_true_2 by done. rewrite !Z.eqb_refl. cbn [negb].
    destruct (gp3 (ch_flags h)); cbn [negb andb].
    + destruct Hs as ([->| ->] & [->| ->] & [->| ->]); cbn [Z.eqb negb andb orb];
        rewrite ?Z.eqb_refl; cbn [negb]; rewrite ?andb_false_r; done.
    + destruct Hs as (-> & -> & ->). by rewrite !Z.eqb_refl.
Qed.
