(* ===== verification/ZipRefine.v ===== *)
(** * The ZIP32 reader refines its grammar ([zip.rs])

    On a source that returns its bytes the reader always returns, and accepts
    exactly the archives of the grammar that fit the caps; a source that fails
    some reads can only make it refuse. *)

From S2P Require Import Prelude Utf8 Findings Interval Snapshot Ir Layout ByteFields ZipFields ZipRecords Zip32 Zip64 ZipSearch ZipLayout ZipGrammar.
Local Open Scope Z_scope.
#[local] Arguments le_bytes : simpl never.

(** ** Bounds the encodings carry *)

Lemma central_at_bounds cd pos h :
  central_at cd pos h ->
  0 <= ch_lfh_offset h <= u32_max /\ descriptor_fields_ok Zip32 (ch_crc h) (ch_comp h) (ch_uncomp h)
  /\ 0 <= ch_comp h /\ Z.of_nat (length (ch_extra h)) <= u16_max
  /\ Z.of_nat (length (ch_comment h)) <= u16_max /\ pos + 46 <= ch_end h pos.
Proof.
  intros (_ & _ & _ & _ & i & Hok & _). unfold central_fields in Hok.
  repeat match goal with Hf : Forall _ (_ :: _) |- _ => apply Forall_cons in Hf as [? Hf] end.
  unfold descriptor_fields_ok, descriptor_values, field_ok, u16_max, u32_max, ch_end in *.
  cbn [fst snd value_width] in *. split_and!; try lia.
  repeat (apply Forall_cons_2; [done|]). apply Forall_nil_2.
Qed.

Lemma local_at_bounds bs off l :
  local_at bs off l -> Z.of_nat (length (lh_extra l)) <= u16_max
  /\ lh_extra_offset l = off + 30 + Z.of_nat (length (lh_name l))
  /\ lh_data_offset l = lh_extra_offset l + Z.of_nat (length (lh_extra l))
  /\ lh_data_offset l <= Z.of_nat (length bs).
Proof.
  intros (-> & Hd & Hl & i & Hok & _). rewrite Hd in *. unfold local_fields in Hok.
  repeat match goal with Hf : Forall _ (_ :: _) |- _ => apply Forall_cons in Hf as [? Hf] end.
  unfold field_ok, u16_max in *. cbn [fst snd] in *. split_and!; lia.
Qed.

Section Refine.
Context {S} `{Source S} `{!Allocator} (s : S) (bs : list byte).

(** ** One member *)

Lemma place_member32_sound profile cd_offset pos h l extra m :
  represents s bs -> 0 <= lh_data_offset l ->
  descriptor_fields_ok Zip32 (ch_crc h) (ch_comp h) (ch_uncomp h) -> 0 <= ch_comp h ->
  place_member32 s profile cd_offset pos h l extra = Some (Ok m) ->
  decode_name_for_profile (ch_name h) (ch_flags h) profile = Ok (zm_name m)
  /\ validate_directory_metadata (zm_name m) (ch_version_made_by h) (ch_external_attributes h)
       (ch_method h) (ch_crc h) (ch_comp h) (ch_uncomp h) = Ok ()
  /\ (gp3 (ch_flags h) = true -> ch_method h = 0 ->
       contains_stream_signature (range (lh_data_offset l) (ch_comp h) bs) = false)
  /\ (if gp3 (ch_flags h)
      then descriptor_at bs (lh_data_offset l + ch_comp h) Zip32 (ch_crc h) (ch_comp h)
             (ch_uncomp h) (zm_record_end m)
      else zm_record_end m = lh_data_offset l + ch_comp h)
  /\ m = entry_member (cd_offset + pos) h l (zm_name m) (zm_record_end m) extra.
Proof.
  intros Hr Hdo Hdf Hc Hm. unfold place_member32 in Hm. ok_steps Hm. units. breflect.
  match goal with Hq : ok_or (u64_checked_add (lh_data_offset l) _) _ = Ok _ |- _ =>
    apply ok_or_ok, u64_checked_add_Some in Hq as [-> _] end.
  injection Hm as <-. cbn [zm_name zm_record_end]. split_and!; try done.
  - intros Hg Hm0. rewrite Hg, Hm0 in *. cbn [andb Z.eqb] in *.
    match goal with Hq : exec_map_err _ _ = Some (Ok _) |- _ =>
      apply exec_map_err_ok, (scan_sound s bs) in Hq as [_ Hq]; [|done..] end. done.
  - destruct (gp3 (ch_flags h)); [|by simplify_eq].
    match goal with Hq : parse_data_descriptor _ _ _ _ _ = Ok _ |- _ =>
      by apply (parse_data_descriptor_sound s bs) in Hq; [|done|lia|done] end.
  - unfold entry_member. destruct (gp3 (ch_flags h)); [|by simplify_eq].
    match goal with Hq : match ok_or _ _ with _ => _ end = Ok _ |- _ => rename Hq into Hd end.
    ok_steps Hd. injection Hd as <-.
    match goal with Hq : ok_or (u64_checked_add (lh_data_offset l) _) _ = Ok _ |- _ =>
      apply ok_or_ok, u64_checked_add_Some in Hq as [-> _] end. done.
Qed.

Lemma place_member32_complete profile cd_offset pos h l extra m :
  reliable s bs -> 0 <= ch_lfh_offset h <= lh_data_offset l ->
  descriptor_fields_ok Zip32 (ch_crc h) (ch_comp h) (ch_uncomp h) -> 0 <= ch_comp h ->
  zm_record_end m <= u64_max ->
  decode_name_for_profile (ch_name h) (ch_flags h) profile = Ok (zm_name m) ->
  validate_directory_metadata (zm_name m) (ch_version_made_by h) (ch_external_attributes h)
    (ch_method h) (ch_crc h) (ch_comp h) (ch_uncomp h) = Ok () ->
  (gp3 (ch_flags h) = true -> ch_method h = 0 ->
     contains_stream_signature (range (lh_data_offset l) (ch_comp h) bs) = false) ->
  (if gp3 (ch_flags h)
   then descriptor_at bs (lh_data_offset l + ch_comp h) Zip32 (ch_crc h) (ch_comp h)
          (ch_uncomp h) (zm_record_end m)
   else zm_record_end m = lh_data_offset l + ch_comp h) ->
  m = entry_member (cd_offset + pos) h l (zm_name m) (zm_record_end m) extra ->
  place_member32 s profile cd_offset pos h l extra = Some (Ok m).
Proof.
  intros Hr Hlo Hdf Hc Hend Hname Hdir Hsig Hdesc Hm.
  assert (Hpe : lh_data_offset l + ch_comp h <= zm_record_end m
    /\ (gp3 (ch_flags h) = true -> lh_data_offset l + ch_comp h <= Z.of_nat (length bs))).
  { destruct (gp3 (ch_flags h)); [|split; [lia|done]].
    destruct Hdesc as [Hl [[He _]|(_ & He & _)]]; cbn [value_width] in He; split; lia. }
  destruct Hpe as [Hpe Hpl].
  unfold place_member32. rewrite Hname, Hdir. rewrite u64_checked_add_le by lia. cbn [ok_or].
  assert (Hscan : (if gp3 (ch_flags h) && (ch_method h =? 0)
    then exec_map_err (fun finding => on finding (zm_name m))
           (contains_stream_signature_in_range s (lh_data_offset l) (ch_comp h))
    else Some (Ok false)) = Some (Ok false)).
  { destruct (gp3 (ch_flags h)) eqn:Hg, (Z.eqb_spec (ch_method h) 0); cbn [andb]; try done.
    rewrite (scan_complete s bs) by (done || lia || (specialize (Hpl eq_refl); lia)).
    by rewrite Hsig. }
  rewrite Hscan. apply (f_equal (fun m => Some (Ok (E := Finding) m))) in Hm. rewrite Hm.
  unfold entry_member. destruct (gp3 (ch_flags h)) eqn:Hg.
  - unfold parse_data_descriptor.
    rewrite (parse_data_descriptor_complete s bs _ _ _ _ _ (zm_record_end m)) by (done || lia).
    rewrite (proj2 (Z.ltb_ge _ _)) by lia. cbn [ok_or]. by rewrite (proj2 (Z.ltb_ge _ _)) by lia.
  - rewrite (proj2 (Z.ltb_ge _ _)) by lia. by rewrite Hdesc.
Qed.

Lemma zip32_member_sound profile cd cd_offset pos h m extra :
  represents s bs -> central_at cd pos h ->
  zip32_member s profile cd_offset pos h = Some (Ok (m, extra)) ->
  exists l, zip32_entry bs profile (cd_offset + pos) h l m /\ extra = lh_extra l.
Proof.
  intros Hr Hc Hm. apply central_at_bounds in Hc as (Hlfh & Hdf & Hcomp & Hex & Hco & _).
  unfold zip32_member in Hm. ok_steps Hm. units. injection Hm as <- <-.
  match goal with Hq : parse_lfh s _ = Ok ?x |- _ => rename x into l;
    apply (parse_lfh_sound s bs) in Hq as [Hlocal _]; [|done|lia] end.
  apply local_at_bounds in Hlocal as Hlb. destruct Hlb as (Hle & Hlx & Hld & _).
  match goal with Hq : local_agrees32 _ _ _ = Ok _ |- _ =>
    apply local_agrees32_ok in Hq as [Hag Hfl] end.
  match goal with Hq : reject_structural_metadata _ _ = Ok _ |- _ =>
    apply reject_structural_metadata_ok in Hq end.
  match goal with Hq : classify_extra_fields (ch_extra h) _ _ _ _ _ = _ |- _ =>
    apply classify_sound in Hq as (cfs & Hcf & ->) end.
  match goal with Hq : classify_extra_fields (lh_extra l) _ _ _ _ _ = _ |- _ =>
    apply classify_sound in Hq as (lfs & Hlf & ->) end.
  match goal with Hq : ok_or (u64_checked_add _ _) _ = Ok _ |- _ =>
    apply ok_or_ok, u64_checked_add_Some in Hq as [-> _] end.
  match goal with Hq : place_member32 _ _ _ _ _ _ _ = _ |- _ =>
    apply place_member32_sound in Hq as (Hn & Hd & Hs & Hde & Hm); [|done|lia|done|done] end.
  exists l. split; [|done]. split; try done.
  replace (cd_offset + pos + 46 + Z.of_nat (length (ch_name h)))
    with (cd_offset + (pos + 46 + Z.of_nat (length (ch_name h)))) by lia.
  by exists cfs, lfs.
Qed.

Lemma zip32_member_complete profile cd cd_offset pos h l m :
  reliable s bs -> (forall site k, try_reserve site k = true) ->
  central_at cd pos h -> 0 <= cd_offset + ch_end h pos <= u64_max ->
  zm_record_end m <= u64_max ->
  zip32_entry bs profile (cd_offset + pos) h l m ->
  zip32_member s profile cd_offset pos h = Some (Ok (m, lh_extra l)).
Proof.
  intros Hr Ha Hc Hcd Hend [Hlocal Hag Hfl Hco Hty Hna Hst Hde (cfs & lfs & Hcf & Hlf & Hm)].
  pose proof (central_at_bounds _ _ _ Hc) as (Hlfh & Hdf & Hcomp & Hex & Hcl & Hpos).
  pose proof (local_at_bounds _ _ _ Hlocal) as (Hle & Hlx & Hld & Hll).
  pose proof (represents_u64 _ _ (reliable_represents _ _ Hr)).
  unfold zip32_member. unfold ch_end in Hcd.
  rewrite u64_checked_add_le by lia. cbn [ok_or].
  rewrite (classify_complete _ _ _ _ _ _ Hex cfs Hcf).
  rewrite (proj2 (reject_structural_metadata_ok _ _) Hco).
  unfold parse_lfh. rewrite (parse_lfh_complete s bs _ _ l) by (done || lia).
  rewrite (classify_complete _ _ _ _ _ _ Hle lfs Hlf).
  rewrite (proj2 (local_agrees32_ok _ _ _)) by done.
  rewrite (place_member32_complete profile cd_offset pos h l _ m); try done; [lia|].
  by replace (cd_offset + pos + 46 + Z.of_nat (length (ch_name h)))
    with (cd_offset + (pos + 46 + Z.of_nat (length (ch_name h)))) in Hm by lia.
Qed.

(** Reading a member always ends, whatever the source answers. *)
Lemma zip32_member_total profile cd_offset pos h :
  0 <= ch_comp h -> exists r, zip32_member s profile cd_offset pos h = Some r.
Proof.
  intros Hc.
  assert (Hp : forall l extra, exists r, place_member32 s profile cd_offset pos h l extra = Some r).
  { intros l extra. unfold place_member32.
    destruct (scan_total s (lh_data_offset l) (ch_comp h) Hc) as [[b|f] Hb];
      rewrite Hb; cbn [exec_map_err option_map map_err]; repeat case_match; first [discriminate | eauto]. }
  unfold zip32_member.
  destruct (ok_or _ _) as [o|]; [|eauto].
  destruct (classify_total (ch_extra h) o Central "central directory" (ch_name h) profile) as [[x|f] Hx];
    rewrite Hx; [|eauto].
  destruct (reject_structural_metadata _ _); [|eauto].
  destruct (parse_lfh _ _) as [l|]; [|eauto].
  destruct (classify_total (lh_extra l) (lh_extra_offset l) Local "local header" (ch_name h) profile) as [[y|f] Hy];
    rewrite Hy; [|eauto].
  destruct (local_agrees32 _ _ _); [|eauto].
  destruct (Hp l (x ++ y)) as [[m|f] Hm]; rewrite Hm; eauto.
Qed.

(** ** The end record *)

(** What the end record and its directory are. *)
Record end_spec (e : Zip32End) : Prop := {
  es_last : last_eocd bs (ze_eocd_off e) (ze_comment_len e);
  es_bytes : range (ze_eocd_off e) EOCD_MIN bs
    = fields_bytes (end_fields (ze_total_count e) (ze_cd_size e) (ze_cd_offset e)
        (ze_comment_len e));
  es_count : 0 <= ze_total_count e < u16_max;
  es_size : 0 <= ze_cd_size e < u32_max;
  es_offset : 0 <= ze_cd_offset e < u32_max;
  es_lands : ze_cd_offset e + ze_cd_size e = ze_eocd_off e;
  es_comment : clean (range (ze_eocd_off e + EOCD_MIN) (ze_comment_len e) bs);
  es_metadata : ze_metadata e = ze_comment_len e + ze_cd_size e;
  es_directory : ze_directory e = range (ze_cd_offset e) (ze_cd_size e) bs
}.

Lemma end_fields_ok count cd_size cd_offset comment_len :
  0 <= count < u16_max -> 0 <= cd_size < u32_max -> 0 <= cd_offset < u32_max ->
  0 <= comment_len <= u16_max ->
  Forall field_ok (end_fields count cd_size cd_offset comment_len).
Proof.
  unfold u16_max, u32_max. intros. unfold end_fields.
  repeat (apply Forall_cons_2; [first [by split | unfold field_ok; cbn [fst snd]; lia]|]).
  apply Forall_nil_2.
Qed.

Lemma zip32_end_sound max_files max_metadata e :
  represents s bs -> zip32_end s max_files max_metadata = Ok e ->
  end_spec e /\ ze_total_count e <= max_files /\ ze_metadata e <= max_metadata.
Proof.
  intros Hr He. pose proof (zip32_end_placed s bs _ _ _ Hr He) as (Hlast & Hco & Hcs & Hland & _ & Hdir).
  unfold zip32_end in He. ok_steps He. units. breflect.
  rewrite (represents_len _ _ Hr) in *.
  match goal with Hq : src_read s ?o EOCD_MIN = Ok _ |- _ =>
    apply (represents_read _ _ Hr) in Hq as [Hl22 ->];
      [|injection He as <-; cbn [ze_cd_offset ze_cd_size ze_eocd_off] in *; lia|done] end.
  match goal with Hq : ok_or (u64_checked_add _ _) _ = Ok _ |- _ =>
    apply ok_or_ok, u64_checked_add_Some in Hq as [-> _] end.
  match goal with Hq : reject_structural_metadata _ _ = Ok _ |- _ =>
    apply reject_structural_metadata_ok in Hq; rename Hq into Hclean end.
  injection He as <-.
  cbn [ze_eocd_off ze_comment_len ze_total_count ze_cd_offset ze_cd_size ze_metadata ze_directory] in *.
  unfold EOCD_MIN in *. pose proof Hlast as [(Ho & Hlen & Hn & Hsig & Hcl) _]. unfold EOCD_MIN in *.
  rewrite !u16_at_nested, !u32_at_nested in * by lia.
  match goal with Hq : read_vec s _ _ = Ok _ |- _ =>
    apply (read_vec_sound s bs) in Hq as [_ ->]; [|done|lia|lia] end.
  match goal with Hq : last_eocd bs ?x ?y |- _ => set (off := x) in *; set (n := y) in * end.
  pose proof (u16_at_range bs (off + 10)). pose proof (u32_at_range bs (off + 12)).
  pose proof (u32_at_range bs (off + 16)).
  assert (Hcnt : 0 <= u16_at bs (off + 10) < u16_max) by (unfold u16_max in *; lia).
  assert (Hsz : 0 <= u32_at bs (off + 12) < u32_max) by (unfold u32_max in *; lia).
  assert (Hof : 0 <= u32_at bs (off + 16) < u32_max) by (unfold u32_max in *; lia).
  split; [|done]. split; cbn [ze_eocd_off ze_comment_len ze_total_count ze_cd_offset ze_cd_size
    ze_metadata ze_directory]; try done.
  unfold EOCD_MIN. apply (fields_bytes_at off (end_fields _ _ _ _)); [lia|cbn; lia|by apply end_fields_ok|].
  cbn [end_fields fields_at fst snd].
  assert (Hs4 : u32_at bs off = EOCD_SIG) by (unfold u32_at; rewrite Hsig; by apply le_value_le_bytes).
  assert (Hn2 : u16_at bs (off + 20) = n)
    by (unfold u16_at; rewrite Hcl; apply le_value_le_bytes; unfold u16_max in *; cbn; lia).
  unfold u16_at, u32_at in *.
  split_and!; try done;
    first [ f_equal; f_equal; lia
          | match goal with Hq : le_value _ = ?v |- _ = ?v => rewrite <- Hq; f_equal; f_equal; lia end
          | match goal with Hq : le_value _ = ?v |- _ = ?v => etransitivity; [|exact Hq]; f_equal; f_equal; lia end ].
Qed.

Lemma zip32_end_complete max_files max_metadata e :
  reliable s bs -> (forall site k, try_reserve site k = true) ->
  end_spec e -> ze_total_count e <= max_files -> ze_metadata e <= max_metadata ->
  zip32_end s max_files max_metadata = Ok e.
Proof.
  intros Hr Ha [Hlast Hb Hc Hs Ho Hland Hcl Hm Hd] Hf Hmm.
  pose proof (reliable_represents _ _ Hr) as Hrep. pose proof (represents_u64 _ _ Hrep).
  pose proof Hlast as [(Ho0 & Hlen & Hn & _ & _) _]. unfold EOCD_MIN in *.
  apply (fields_bytes_at (ze_eocd_off e) (end_fields _ _ _ _)) in Hb;
    [|lia|cbn; lia|by apply end_fields_ok].
  unfold end_fields in Hb. split_fields (ze_eocd_off e) Hb. name_reads.
  unfold zip32_end, EOCD_MIN. rewrite (represents_len _ _ Hrep).
  rewrite (proj2 (Z.ltb_ge _ _)) by lia.
  rewrite (find_eocd_complete s bs (ze_eocd_off e) (ze_comment_len e)) by (done || (unfold EOCD_MIN; lia)).
  rewrite (reliable_read _ _ Hr) by lia. rewrite (read_vec_complete s bs) by (done || lia).
  rewrite (proj2 (reject_structural_metadata_ok _ _) Hcl).
  rewrite !u16_at_nested, !u32_at_nested by lia. use_reads.
  rewrite Z.eqb_refl. cbn [Z.eqb negb orb]. unfold u16_max, u32_max in *.
  rewrite !(proj2 (Z.eqb_neq _ 0xFFFFFFFF)), (proj2 (Z.eqb_neq _ 0xFFFF)) by lia. cbn [orb].
  rewrite (proj2 (Z.ltb_ge _ _)) by lia. rewrite u64_checked_add_le by lia. cbn [ok_or].
  rewrite (proj2 (Z.ltb_ge _ _)) by lia. rewrite u64_checked_add_le by lia.
  rewrite bool_decide_eq_true_2 by (by f_equal). cbn [negb].
  rewrite (read_vec_complete s bs) by (done || lia). cbn [map_err].
  rewrite <- Hm, <- Hd, Z.eqb_refl. by destruct e.
Qed.

(** ** The loop over the directory *)

Lemma entries_bounds cd profile cd_offset pos ms charge :
  zip32_entries bs cd profile cd_offset pos ms charge ->
  0 <= pos <= Z.of_nat (length cd) /\ 0 <= charge.
Proof.
  induction 1 as [|pos ms charge h l m _ [Hp Hc] Hcen _]; [lia|].
  apply central_at_bounds in Hcen as Hb. destruct Hb as (_ & _ & _ & _ & _ & Hb).
  destruct Hcen as [? _]. lia.
Qed.

(** The state the reader is in after some entries. *)
Definition zip32_state (e : Zip32End) (pos : Z) (ms : list ZipMember) (charge : Z) : Zip32State :=
  {| zs32_members := ms; zs32_pos := pos; zs32_metadata := ze_metadata e + charge |}.

Definition entries_read (profile : ZipInterpretationProfile) (max_files max_metadata : Z)
    (e : Zip32End) (st : Zip32State) : Prop :=
  exists pos ms charge, zip32_entries bs (ze_directory e) profile (ze_cd_offset e) pos ms charge
    /\ st = zip32_state e pos ms charge
    /\ Z.of_nat (length ms) <= Z.max 0 max_files /\ ze_metadata e + charge <= max_metadata.

Lemma zip32_step_sound profile max_files max_metadata e st :
  represents s bs -> entries_read profile max_files max_metadata e st ->
  (forall st', zip32_step s max_files max_metadata profile e st = Some (Ok (Continue st')) ->
     entries_read profile max_files max_metadata e st')
  /\ (forall st', zip32_step s max_files max_metadata profile e st = Some (Ok (Return st')) ->
     st' = st /\ zs32_pos st = Z.of_nat (length (ze_directory e))).
Proof.
  intros Hr (pos & ms & charge & Hent & -> & Hcnt & Hmeta).
  apply entries_bounds in Hent as Hb. destruct Hb as [Hp Hch].
  unfold zip32_step. cbn [zip32_state zs32_pos zs32_members zs32_metadata].
  destruct (Z.leb_spec (Z.of_nat (length (ze_directory e))) pos).
  { split; [done|]. intros st' [= <-]. split; [done|]. cbn [zs32_pos]. lia. }
  split; intros st' Hs; ok_steps Hs; [|by case_match]. injection Hs as <-. breflect.
  match goal with Hq : central_header32 _ _ = Ok _ |- _ => apply central_header32_iff in Hq as Hc; [|lia] end.
  match goal with Hq : zip32_member _ _ _ _ _ = _ |- _ =>
    apply (zip32_member_sound profile (ze_directory e)) in Hq as (l' & Hl & ->); [|done|done] end.
  match goal with Hq : ok_or _ _ = Ok _ |- _ =>
    apply ok_or_ok, bind_Some in Hq as (y & [-> _]%u64_checked_add_Some & [-> _]%u64_checked_add_Some) end.
  eexists _, _, _. split; [by eapply entries_snoc|]. split.
  - unfold zip32_state. f_equal. lia.
  - rewrite length_app. cbn [length]. lia.
Qed.

Lemma zip32_steps_complete profile max_files max_metadata e pos ms charge :
  reliable s bs -> (forall site k, try_reserve site k = true) ->
  0 <= ze_cd_offset e -> ze_cd_offset e + Z.of_nat (length (ze_directory e)) <= u64_max ->
  0 <= ze_metadata e -> max_metadata <= u64_max ->
  zip32_entries bs (ze_directory e) profile (ze_cd_offset e) pos ms charge ->
  Forall (fun m => zm_record_end m <= u64_max) ms ->
  Z.of_nat (length ms) <= max_files -> ze_metadata e + charge <= max_metadata ->
  rtc (loop_step (zip32_step s max_files max_metadata profile e)) (zip32_state e 0 [] 0)
    (zip32_state e pos ms charge).
Proof.
  intros Hr Ha Hco Hcd Hm0 Hmm.
  induction 1 as [|pos ms charge h l m Hent IH Hcen Hmem]; intros Hends Hcnt Hmeta; [apply rtc_refl|].
  apply entries_bounds in Hent as Hb. destruct Hb as [Hp Hch].
  rewrite length_app in Hcnt. cbn [length] in Hcnt.
  apply Forall_app in Hends as [Hends Hend]. apply Forall_cons in Hend as [Hend _].
  apply rtc_r with (zip32_state e pos ms charge); [apply IH; (done || lia)|].
  pose proof (central_at_bounds _ _ _ Hcen) as (_ & _ & _ & _ & _ & Hpe).
  pose proof Hcen as [Hce _].
  unfold loop_step, zip32_step. cbn [zip32_state zs32_pos zs32_members zs32_metadata].
  rewrite (proj2 (Z.leb_gt _ _)) by lia. rewrite (proj2 (Z.leb_gt _ _)) by lia.
  rewrite (central_header32_complete (ze_directory e) pos h) by (done || lia).
  rewrite (zip32_member_complete profile (ze_directory e) _ _ _ l m) by (done || lia).
  rewrite u64_checked_add_le by lia. cbn [mbind option_bind].
  rewrite u64_checked_add_le by lia. cbn [ok_or]. rewrite (proj2 (Z.ltb_ge _ _)) by lia.
  do 3 f_equal. unfold zip32_state. f_equal. lia.
Qed.

Lemma zip32_loop_total profile max_files max_metadata e :
  exists r, run_loop (zip32_step s max_files max_metadata profile e)
    (Datatypes.S (length (ze_directory e))) (zip32_state e 0 [] 0) = Some r.
Proof.
  apply (run_loop_total _ (fun st => 0 <= zs32_pos st)
    (fun st => Z.to_nat (Z.of_nat (length (ze_directory e)) - zs32_pos st))).
  - intros st Hp. unfold zip32_step. destruct (_ <=? _); [done|]. destruct (_ <=? _); [done|].
    destruct (central_header32 _ _) as [h|] eqn:Hh; [|done].
    apply central_header32_bounds in Hh as (_ & _ & Hc & _); [|done].
    destruct (zip32_member_total profile (ze_cd_offset e) (zs32_pos st) h) as [r ->]; [lia|].
    by repeat case_match.
  - intros st st' Hp Hs. unfold zip32_step in Hs.
    destruct (Z.leb_spec (Z.of_nat (length (ze_directory e))) (zs32_pos st)); [done|].
    ok_steps Hs. injection Hs as <-. cbn [zs32_pos].
    match goal with Hq : central_header32 _ _ = Ok _ |- _ =>
      apply central_header32_bounds in Hq as [Hb _]; [|done] end. lia.
  - simpl. lia.
  - simpl. lia.
Qed.

(** ** The archive *)

Lemma parse_zip32_total max_files max_metadata profile :
  exists r, parse_zip32 s max_files max_metadata profile = Some r.
Proof.
  unfold parse_zip32. destruct (zip32_end _ _ _) as [e|]; [|eauto].
  destruct (zip32_loop_total profile max_files max_metadata e) as [r Hr].
  unfold zip32_state in Hr. rewrite Z.add_0_r in Hr. rewrite Hr.
  destruct r; [|eauto]. repeat case_match; eauto.
Qed.

Lemma parse_zip32_sound max_files max_metadata profile a :
  represents s bs -> 0 <= max_files ->
  parse_zip32 s max_files max_metadata profile = Some (Ok a) ->
  zip32_archive bs profile a /\ Z.of_nat (length (za_members a)) <= max_files
  /\ za_metadata_bytes a <= max_metadata.
Proof.
  intros Hr Hmf Hp. unfold parse_zip32 in Hp. ok_steps Hp. units. breflect.
  match goal with Hq : zip32_end _ _ _ = Ok ?x |- _ => rename x into e; rename Hq into He end.
  match goal with Hq : run_loop _ _ _ = Some (Ok ?x) |- _ => rename x into st; rename Hq into Hrun end.
  match goal with Hq : check_layout _ _ = Ok _ |- _ => rename Hq into Hlay end.
  match goal with Hq : _ = ze_total_count e |- _ => rename Hq into Hcount end.
  apply zip32_end_sound in He as ([Hlast Hb Hc Hs Ho Hland Hcl Hm Hd] & Htc & Hmm); [|done].
  assert (Hst : entries_read profile max_files max_metadata e st
      /\ zs32_pos st = Z.of_nat (length (ze_directory e))).
  { revert Hrun. apply (run_loop_invariant _ (entries_read profile max_files max_metadata e)
      (fun st => entries_read profile max_files max_metadata e st
         /\ zs32_pos st = Z.of_nat (length (ze_directory e)))).
    - intros st1 st2 Hi. by apply zip32_step_sound.
    - intros st1 st2 Hi Hret. by apply (zip32_step_sound _ _ _ _ _ Hr Hi) in Hret as [-> ?].
    - exists 0, [], 0. split; [constructor|]. unfold zip32_state. simpl.
      rewrite Z.add_0_r. split_and!; (done || lia). }
  destruct Hst as [(pos & ms & charge & Hent & -> & Hcnt & Hmeta) Hpos].
  cbn [zip32_state zs32_members zs32_pos zs32_metadata] in *. subst pos.
  apply check_layout_ok in Hlay; [|lia].
  injection Hp as <-. cbn [za_members za_metadata_bytes]. split; [|lia].
  assert (Hlen : Z.of_nat (length (ze_directory e)) = ze_cd_size e).
  { rewrite Hd, length_range; [lia|lia|lia|]. destruct Hlast as [(? & ? & ? & _) _].
    unfold EOCD_MIN in *. lia. }
  split; cbn [za_members za_cd_offset za_cd_size za_eocd_offset za_comment_len za_metadata_bytes
    za_zip64_eocd za_zip64_locator]; try done.
  - by rewrite Hcount.
  - lia.
  - exists charge. rewrite <- Hd, <- Hlen at 1. split; [done|lia].
Qed.

Lemma parse_zip32_complete max_files max_metadata profile a :
  reliable s bs -> (forall site k, try_reserve site k = true) -> max_metadata <= u64_max ->
  zip32_archive bs profile a -> Z.of_nat (length (za_members a)) <= max_files ->
  za_metadata_bytes a <= max_metadata ->
  parse_zip32 s max_files max_metadata profile = Some (Ok a).
Proof.
  intros Hr Ha Hmm [Hlast Hb Hc Hs Ho Hland Hcl (charge & Hent & Hmeta) Htile [Hp1 Hp2]] Hf Hm.
  set (e := {| ze_eocd_off := za_eocd_offset a; ze_comment_len := za_comment_len a;
    ze_total_count := Z.of_nat (length (za_members a)); ze_cd_offset := za_cd_offset a;
    ze_cd_size := za_cd_size a; ze_metadata := za_comment_len a + za_cd_size a;
    ze_directory := range (za_cd_offset a) (za_cd_size a) bs |}).
  pose proof (entries_bounds _ _ _ _ _ _ Hent) as [_ Hch].
  pose proof Hlast as [(Ho0 & Hlen & Hn & _ & _) _]. unfold EOCD_MIN in *.
  assert (Hdl : length (ze_directory e) = Z.to_nat (za_cd_size a))
    by (cbn [e ze_directory]; rewrite length_range; lia).
  assert (He : zip32_end s max_files max_metadata = Ok e).
  { apply zip32_end_complete; try done; cbn [e ze_metadata]; [split; try done; simpl; lia|lia]. }
  assert (Hends : Forall (fun m => zm_record_end m <= u64_max) (za_members a)).
  { destruct Htile as (ms & Hp & Ht). rewrite <- Hp. apply Forall_forall. intros m Hm'.
    eapply end_to_end_bounds in Ht; [|by apply (list_elem_of_fmap_2 record_interval)].
    simpl in Ht. unfold u32_max, u64_max in *. lia. }
  unfold parse_zip32. rewrite He.
  rewrite (run_loop_reaches _ _ _ (zip32_state e (za_cd_size a) (za_members a) charge)
    (Ok (zip32_state e (za_cd_size a) (za_members a) charge))).
  - cbn [zip32_state zs32_members zs32_metadata e ze_total_count ze_cd_offset]. rewrite Z.eqb_refl.
    cbn [negb]. rewrite (proj2 (check_layout_ok _ _ (proj1 Ho))) by done.
    destruct a as [a1 a2 a3 a4 a5 a6 a7 a8]. cbn [za_members za_cd_offset za_cd_size za_eocd_offset za_comment_len
      za_metadata_bytes za_zip64_eocd za_zip64_locator ze_cd_size ze_eocd_off ze_comment_len
      ze_metadata] in *. by subst.
  - destruct (zip32_loop_total profile max_files max_metadata e) as [r Hloop].
    unfold zip32_state in Hloop. rewrite Z.add_0_r in Hloop. eauto.
  - pose proof (zip32_steps_complete profile max_files max_metadata e (za_cd_size a) (za_members a)
      charge Hr Ha) as Hsteps. unfold zip32_state at 1 in Hsteps. rewrite Z.add_0_r in Hsteps.
    apply Hsteps; try done; unfold u32_max, u64_max in *; cbn [e ze_cd_offset ze_metadata]; lia.
  - unfold zip32_step. cbn [zip32_state zs32_pos]. by rewrite (proj2 (Z.leb_le _ _)) by lia.
Qed.
End Refine.

(** The grammar determines the archive. *)
Lemma zip32_archive_unique bs profile a a' :
  Z.of_nat (length bs) <= u64_max ->
  zip32_archive bs profile a -> zip32_archive bs profile a' ->
  za_metadata_bytes a <= u64_max -> za_metadata_bytes a' <= u64_max -> a = a'.
Proof.
  intros Hl Ha Ha' Hm Hm'.
  pose proof (@borrowed_reliable null_sha256 None bs Hl) as Hr.
  pose proof (archive_count _ _ _ Ha). pose proof (archive_count _ _ _ Ha').
  pose proof (parse_zip32_complete (H0 := always_reserves) _ _ u16_max u64_max profile a Hr
    ltac:(done) ltac:(done) Ha ltac:(lia) Hm) as H1.
  pose proof (parse_zip32_complete (H0 := always_reserves) _ _ u16_max u64_max profile a' Hr
    ltac:(done) ltac:(done) Ha' ltac:(lia) Hm') as H2.
  congruence.
Qed.

(** C2: On a source that returns its bytes and with memory available, every ZIP32
    profile always returns, and accepts exactly the archives of its grammar
    that fit the file and metadata caps. *)
Theorem parse_zip32_accepts_iff {S : Type} `{Source S} `{!Allocator} (s : S) (bs : list byte)
    max_files max_metadata profile :
  reliable s bs -> (forall site k, try_reserve site k = true) ->
  is_u64 max_files -> is_u64 max_metadata -> profile <> Zip64StrictAsciiV1 ->
  (exists r, parse_zip_with_profile s max_files max_metadata profile = Some r)
  /\ forall a, parse_zip_with_profile s max_files max_metadata profile = Some (Ok a) <->
       zip32_archive bs profile a /\ Z.of_nat (length (za_members a)) <= max_files
       /\ za_metadata_bytes a <= max_metadata.
Proof.
  intros Hr Ha Hf Hm Hp. unfold parse_zip_with_profile.
  rewrite bool_decide_eq_false_2 by done. unfold is_u64 in *. split.
  - apply parse_zip32_total.
  - intros a. split.
    + apply parse_zip32_sound; [by apply reliable_represents|lia].
    + intros (Har & Hc & Hmd). apply (parse_zip32_complete s bs); try done; lia.
Qed.

(** A source that fails some reads, or an allocator that refuses, can make the
    reader refuse but never accept anything else: it always returns, and what
    it accepts is the one archive its bytes contain. *)
Theorem parse_zip32_faulty_source {S : Type} `{Source S} `{!Allocator} (s : S) (bs : list byte)
    max_files max_metadata profile :
  represents s bs -> is_u64 max_files -> is_u64 max_metadata -> profile <> Zip64StrictAsciiV1 ->
  (exists r, parse_zip_with_profile s max_files max_metadata profile = Some r)
  /\ forall a, parse_zip_with_profile s max_files max_metadata profile = Some (Ok a) ->
       zip32_archive bs profile a /\ Z.of_nat (length (za_members a)) <= max_files
       /\ za_metadata_bytes a <= max_metadata
       /\ forall a', zip32_archive bs profile a' -> za_metadata_bytes a' <= u64_max -> a' = a.
Proof.
  intros Hr Hf Hm Hp. unfold parse_zip_with_profile.
  rewrite bool_decide_eq_false_2 by done. unfold is_u64 in *. split.
  - apply parse_zip32_total.
  - intros a Ha. apply (parse_zip32_sound s bs) in Ha as (Har & Hc & Hmd); [|done|lia].
    split_and!; try done. intros a' Har' Hm'.
    apply (zip32_archive_unique bs profile); try done; [apply (represents_u64 _ _ Hr)|lia].
Qed.

(** ** A concrete archive *)

Definition example_local (flags crc comp uncomp : Z) (name : list byte) : list byte :=
  fields_bytes [(4%nat, LFH_SIG); (2%nat, 20); (2%nat, flags); (2%nat, 0); (2%nat, 0); (2%nat, 33);
    (4%nat, crc); (4%nat, comp); (4%nat, uncomp); (2%nat, Z.of_nat (length name)); (2%nat, 0)]
  ++ name.
Definition example_central (flags crc size offset : Z) (name : list byte) : list byte :=
  fields_bytes [(4%nat, CDH_SIG); (2%nat, 20); (2%nat, 20); (2%nat, flags); (2%nat, 0); (2%nat, 0);
    (2%nat, 33); (4%nat, crc); (4%nat, size); (4%nat, size); (2%nat, Z.of_nat (length name));
    (2%nat, 0); (2%nat, 0); (2%nat, 0); (2%nat, 0); (4%nat, 0); (4%nat, offset)] ++ name.

(** Two stored members, the second streamed with a signed descriptor. *)
Definition example_zip : list byte :=
  example_local 0 7 3 3 (lit "a") ++ lit "xyz"
  ++ example_local 8 0 0 0 (lit "b/c") ++ lit "hi"
  ++ fields_bytes [(4%nat, DATA_DESCRIPTOR_SIG); (4%nat, 9); (4%nat, 2); (4%nat, 2)]
  ++ example_central 0 7 3 0 (lit "a") ++ example_central 8 9 2 34 (lit "b/c")
  ++ fields_bytes (end_fields 2 96 85 3) ++ lit "hey".

Lemma example_zip_reliable : @reliable _ SourceSnapshot_source (@borrowed null_sha256 None example_zip) example_zip.
Proof. apply borrowed_reliable. vm_compute. discriminate. Qed.

Lemma parse_zip32_accepts_iff_witness :
  match parse_zip_with_profile (H0 := always_reserves) (@borrowed null_sha256 None example_zip)
          2 103 StrictAsciiV2 with
  | Some (Ok a) => zip32_archive example_zip StrictAsciiV2 a
      /\ map zm_name (za_members a) = [lit "a"; lit "b/c"]
  | _ => False
  end.
Proof.
  pose proof (parse_zip32_accepts_iff (H0 := always_reserves) (@borrowed null_sha256 None example_zip)
    example_zip 2 103 StrictAsciiV2 example_zip_reliable (fun _ _ => eq_refl)
    ltac:(unfold is_u64, u64_max; lia) ltac:(unfold is_u64, u64_max; lia) ltac:(discriminate)) as [_ Hiff].
  destruct (parse_zip_with_profile _ _ _ _) as [[a|f]|] eqn:E;
    [|exfalso; vm_compute in E; discriminate..].
  split; [by apply Hiff|]. vm_compute in E. injection E as <-. reflexivity.
Defined.

(** With an allocator that refuses, and with one that does not. *)
Lemma parse_zip32_faulty_source_witness :
  (exists r, parse_zip_with_profile (H0 := fun _ _ => false)
     (@borrowed null_sha256 None example_zip) 2 103 StrictAsciiV2 = Some r)
  /\ match parse_zip_with_profile (H0 := always_reserves) (@borrowed null_sha256 None example_zip)
             2 103 StrictAsciiV2 with
     | Some (Ok a) => forall a', zip32_archive example_zip StrictAsciiV2 a' ->
         za_metadata_bytes a' <= u64_max -> a' = a
     | _ => False
     end.
Proof.
  split.
  - apply (parse_zip32_faulty_source (H0 := fun _ _ => false) (@borrowed null_sha256 None example_zip)
      example_zip 2 103 StrictAsciiV2 (reliable_represents _ _ example_zip_reliable));
      [unfold is_u64, u64_max; lia|unfold is_u64, u64_max; lia|discriminate].
  - pose proof (parse_zip32_faulty_source (H0 := always_reserves) (@borrowed null_sha256 None example_zip)
      example_zip 2 103 StrictAsciiV2 (reliable_represents _ _ example_zip_reliable)
      ltac:(unfold is_u64, u64_max; lia) ltac:(unfold is_u64, u64_max; lia) ltac:(discriminate)) as [_ Hall].
    destruct (parse_zip_with_profile _ _ _ _) as [[a|f]|] eqn:E;
      [|exfalso; vm_compute in E; discriminate..].
    by apply Hall.
Defined.
