(* ===== verification/TarFields.v ===== *)
(** * TAR header fields ([tar.rs], shared text of [tar_gnu.rs] and [tar_pax.rs])

    Octal numbers, NUL-terminated text, the header checksum, zero padding and
    block arithmetic.  The three TAR readers repeat these functions; they are
    modelled once here and named again in each reader's file. *)

From S2P Require Import Prelude Utf8 Findings Snapshot.
Local Open Scope Z_scope.

Definition BLOCK_LEN : Z := 512.

(** [checked_add]. *)
Definition checked_add (left right : Z) (label : string) : result Z Finding :=
  ok_or (u64_checked_add left right) (error TarTruncated (label +++ " overflowed u64")).

(** [round_up_block]. *)
Definition round_up_block (value : Z) : result Z Finding :=
  let remainder := value mod BLOCK_LEN in
  if remainder =? 0 then Ok value
  else checked_add value (BLOCK_LEN - remainder) "padded member size".

(** [is_zero_block]. *)
Definition is_zero_block (block : list byte) : bool := all_zero block.

Section ZeroRange.
Context {S} `{Source S}.

(** One iteration of the [while remaining != 0] loop, on (cursor, remaining). *)
Definition zero_range_step (snapshot : S) (label : string) (st : Z * Z) :
    exec (control (Z * Z) unit) Finding :=
  let '(cursor, remaining) := st in
  if remaining =? 0 then Some (Ok (Return ()))
  else
    let chunk := Z.min remaining 8192 in
    let* buffer := src_read snapshot cursor chunk in
    reject! negb (all_zero buffer)
      with error TarPadding (label +++ " contains nonzero bytes") ;;
    let* cursor := checked_add cursor chunk "zero-check cursor" in
    Some (Ok (Continue (cursor, remaining - chunk))).

(** [ensure_zero_range]; one unit of fuel per 8 KiB chunk suffices. *)
Definition ensure_zero_range (snapshot : S) (offset len : Z) (label : string) :
    exec unit Finding :=
  run_loop (zero_range_step snapshot label) (2 + Z.to_nat (len / 8192)) (offset, len).
End ZeroRange.

(** The [try_fold] with checked arithmetic of [parse_octal_digits] (and of
    [parse_decimal] in [tar_pax.rs]). *)
Fixpoint fold_digits (base value : Z) (digits : list byte) : option Z :=
  match digits with
  | [] => Some value
  | b :: digits =>
      match u64_checked_mul value base with
      | None => None
      | Some v =>
          match u64_checked_add v (u8 b - 48) with
          | None => None
          | Some v => fold_digits base v digits
          end
      end
  end.
Definition parse_octal_digits (digits : list byte) (label : string) : result Z Finding :=
  ok_or (fold_digits 8 0 digits)
    (error TarNumeric (label +++ " octal value overflowed u64")).

(** The [while] loop that counts leading octal digits. *)
Fixpoint octal_prefix (field : list byte) : nat :=
  match field with
  | b :: field => if is_octal_digit b then S (octal_prefix field) else O
  | [] => O
  end.

Definition nul_or_space (b : byte) : bool := (u8 b =? 0) || (u8 b =? 32).

(** [parse_octal]. *)
Definition parse_octal (field : list byte) (label : string) : result Z Finding :=
  reject match field with b :: _ => negb (Z.land (u8 b) 128 =? 0) | [] => false end
    with error TarFeatureUnsupported (label +++ " uses denied base-256 encoding") ;;
  let stop := octal_prefix field in
  reject (stop =? 0)%nat || (stop =? length field)%nat
         || negb (forallb nul_or_space (drop stop field))
    with error TarNumeric
      (label +++ " must contain ASCII-octal digits followed by at least one NUL or space") ;;
  parse_octal_digits (take stop field) label.

(** [parse_device_number]. *)
Definition parse_device_number (field : list byte) (label : string) : result Z Finding :=
  if all_zero field then Ok 0 else parse_octal field label.

(** [parse_checksum]. *)
Definition parse_checksum (field : list byte) : result Z Finding :=
  reject negb (length field =? 8)%nat || negb (forallb is_octal_digit (take 6 field))
         || negb (is_zero_byte (at_ field 6)) || negb (u8 (at_ field 7) =? 32)
    with error TarChecksum (checksum_field_detail field) ;;
  let? value := parse_octal_digits (take 6 field) "checksum" in
  if value <=? u32_max then Ok value
  else Err (error TarChecksum "header checksum does not fit u32").

(** The sum over the header with the checksum field read as spaces. *)
Fixpoint checksum_from (index : nat) (bytes : list byte) : Z :=
  match bytes with
  | [] => 0
  | b :: bytes =>
      (if (148 <=? index)%nat && (index <? 156)%nat then 32 else u8 b)
      + checksum_from (S index) bytes
  end.
Definition actual_checksum (header : list byte) : Z := checksum_from 0 header.

(** [parse_text_field]. *)
Definition parse_text_field (field : list byte) (label : string) (empty_allowed : bool) :
    result (list byte) Finding :=
  let stop := default (length field) (position is_zero_byte field) in
  reject negb (all_zero (drop stop field))
    with error TarDialect (label +++ " contains bytes after its first NUL") ;;
  reject negb empty_allowed && (stop =? 0)%nat
    with error TarDialect (label +++ " is empty") ;;
  Ok (take stop field).

(** [validate_owner_text]. *)
Definition validate_owner_text (field : list byte) (label : string) : result unit Finding :=
  match position is_zero_byte field with
  | None => Err (error TarDialect (label +++ " is not NUL-terminated"))
  | Some stop =>
      reject negb (all_zero (drop stop field))
        with error TarDialect (label +++ " contains bytes after its first NUL") ;;
      reject negb (forallb (fun b => between 32 126 (u8 b)) (take stop field))
        with error TarDialect (label +++ " must contain only printable ASCII") ;;
      Ok ()
  end.

(** [write_fuzz_octal] on a field of [width] bytes: zero-padded digits, NUL. *)
Definition write_octal (width : nat) (value : Z) : list byte :=
  let octal := lit (fmt_oct value) in
  let digits := (width - 1)%nat in
  replicate (digits - length octal) x30 ++ octal ++ [x00].

(** ** Block arithmetic *)

Lemma checked_add_ok a b l c :
  checked_add a b l = Ok c <-> c = a + b /\ a + b <= u64_max.
Proof.
  unfold checked_add. rewrite <- u64_checked_add_Some.
  destruct (u64_checked_add a b); simpl; split; congruence.
Qed.

(** Turns every successful checked addition into the exact sum. *)
Ltac checked_adds :=
  repeat match goal with
  | Hc : checked_add _ _ _ = Ok _ |- _ =>
      apply checked_add_ok in Hc; let E := fresh in destruct Hc as [E Hc]; subst
  end.

Definition padded (size : Z) : Z := (size + 511) / 512 * 512.

Lemma padded_spec size :
  0 <= size -> size <= padded size < size + 512 /\ padded size mod 512 = 0.
Proof.
  intros. unfold padded. rewrite Z.mod_mul by lia.
  split; [|done]. Z.div_mod_to_equations. lia.
Qed.

Lemma round_up_block_ok v p :
  0 <= v <= u64_max -> round_up_block v = Ok p <-> p = padded v /\ padded v <= u64_max.
Proof.
  intros Hv. unfold round_up_block, BLOCK_LEN, padded.
  destruct (Z.eqb_spec (v mod 512) 0) as [Hz|Hz].
  - assert ((v + 511) / 512 * 512 = v) as -> by (Z.div_mod_to_equations; lia).
    split; [intros [= <-]; lia|by intros [-> _]].
  - rewrite checked_add_ok.
    assert ((v + 511) / 512 * 512 = v + (512 - v mod 512)) as -> by (Z.div_mod_to_equations; lia).
    done.
Qed.

(** ** Zero padding *)

Section ZeroRangeLemmas.
Context {S} `{Source S} (s : S) (label : string).

Lemma ensure_zero_range_total off n :
  0 <= n -> exists r, ensure_zero_range s off n label = Some r.
Proof.
  intros Hn. unfold ensure_zero_range.
  apply (run_loop_total _ (fun st => 0 <= st.2) (fun st => Z.to_nat ((st.2 + 8191) / 8192))).
  - intros [c r] Hr. unfold zero_range_step. by repeat case_match.
  - intros [c r] [c' r'] Hr Hs. unfold zero_range_step in Hs. simpl in *.
    repeat case_match; simplify_eq. breflect.
    assert (0 < Z.min r 8192 <= r) by lia.
    split; [lia|].
    destruct (Z.le_gt_cases r 8192).
    + replace (r - Z.min r 8192) with 0 by lia. Z.div_mod_to_equations. lia.
    + replace (r - Z.min r 8192) with (r - 8192) by lia. Z.div_mod_to_equations. lia.
  - done.
  - simpl. Z.div_mod_to_equations. lia.
Qed.

Lemma ensure_zero_range_ok bs off n :
  represents s bs -> 0 <= off -> 0 <= n ->
  off <= Z.of_nat (length bs) ->
  ensure_zero_range s off n label = Some (Ok ()) ->
  off + n <= Z.of_nat (length bs) /\ all_zero (range off n bs) = true.
Proof.
  intros Hs Ho Hn Hl Hr. unfold ensure_zero_range in Hr.
  set (I := fun st : Z * Z => 0 <= st.2 <= n /\ st.1 = off + (n - st.2) /\
    st.1 <= Z.of_nat (length bs) /\ all_zero (range off (n - st.2) bs) = true).
  revert Hr. apply (run_loop_invariant _ I
    (fun _ => off + n <= Z.of_nat (length bs) /\ all_zero (range off n bs) = true)).
  - intros [c r] [c' r'] (Hr & Hc & Hle & Hz) Hstep. simpl in *. unfold zero_range_step in Hstep.
    destruct (Z.eqb_spec r 0); [done|].
    destruct (src_read s c (Z.min r 8192)) as [buf|] eqn:Hrd; [|done].
    destruct (represents_read _ _ Hs c (Z.min r 8192) _ ltac:(lia) ltac:(lia) Hrd) as [Hin ->].
    destruct (all_zero (range c _ bs)) eqn:Hb; [|done].
    destruct (checked_add c (Z.min r 8192) _) as [c1|] eqn:Ha; [|done]. simpl in Hstep.
    apply checked_add_ok in Ha as [-> _]. simplify_eq. unfold I; simpl.
    split_and!; [lia|lia|lia|lia|].
    replace (n - (r - Z.min r 8192)) with ((n - r) + Z.min r 8192) by lia.
    rewrite range_app by lia. by rewrite all_zero_app, Hz, Hb.
  - intros [c r] [] (Hr & Hc & Hle & Hz) Hstep. simpl in *. unfold zero_range_step in Hstep.
    destruct (Z.eqb_spec r 0) as [->|]; [|by repeat case_match].
    rewrite Z.sub_0_r in *. split; [lia|done].
  - unfold I; simpl. split_and!; try lia; try done. by rewrite Z.sub_diag.
Qed.

(** On a reliable source the scan decides exactly whether the range is zero. *)
Lemma ensure_zero_range_reliable bs off n :
  reliable s bs -> 0 <= off -> 0 <= n -> off + n <= Z.of_nat (length bs) ->
  ensure_zero_range s off n label =
    Some (if all_zero (range off n bs) then Ok ()
          else Err (error TarPadding (label +++ " contains nonzero bytes"))).
Proof.
  intros Hs Ho Hn Hl.
  destruct (ensure_zero_range_total off n Hn) as [r Hr]. rewrite Hr. f_equal.
  destruct r as [[]|e].
  - apply (ensure_zero_range_ok bs) in Hr as [_ ->]; [done|apply Hs|lia..].
  - unfold ensure_zero_range in Hr. apply run_loop_steps in Hr as ([c r] & Hsteps & Hlast).
    assert (HI : 0 <= r <= n /\ c = off + (n - r)).
    { clear Hlast. remember (off, n) as st0. remember (c, r) as st1.
      revert off n c r Heqst0 Heqst1 Ho Hn Hl.
      induction Hsteps as [x|x y z Hxy Hyz IH]; intros off n c r -> Heq; intros; simplify_eq; [lia|].
      unfold loop_step, zero_range_step in Hxy. repeat case_match; simplify_eq.
      match goal with H : checked_add _ _ _ = Ok _ |- _ => apply checked_add_ok in H as [-> _] end.
      breflect. edestruct IH; [reflexivity|reflexivity|lia..]. }
    destruct HI as [Hr ->]. unfold zero_range_step in Hlast.
    destruct (Z.eqb_spec r 0); [done|].
    rewrite (reliable_read _ _ Hs) in Hlast by lia.
    destruct (all_zero (range (off + (n - r)) _ bs)) eqn:Hb; simpl in Hlast.
    + destruct (checked_add _ _ _) eqn:Ha; [done|]. exfalso.
      pose proof (represents_u64 _ _ (reliable_represents _ _ Hs)).
      assert (checked_add (off + (n - r)) (Z.min r 8192) "zero-check cursor"
              = Ok (off + (n - r) + Z.min r 8192)) by (apply checked_add_ok; lia).
      congruence.
    + simplify_eq. destruct (all_zero (range off n bs)) eqn:Hz; [|done]. exfalso.
      replace n with ((n - r) + (Z.min r 8192 + (r - Z.min r 8192))) in Hz at 1 by lia.
      rewrite !range_app, !all_zero_app in Hz by lia.
      rewrite Hb in Hz. by rewrite andb_false_l, andb_false_r in Hz.
Qed.
End ZeroRangeLemmas.

(** ** Digit strings *)

(** The mathematical value of digit bytes. *)
Definition bytes_value (base v : Z) (bytes : list byte) : Z :=
  digits_value base v (map (fun b => u8 b - 48) bytes).
Definition octal_value (v : Z) (bytes : list byte) : Z := bytes_value 8 v bytes.
Definition is_digit_of (base : Z) (b : byte) : bool := between 48 (47 + base) (u8 b).

Lemma digit_of_range base b : is_digit_of base b = true <-> 0 <= u8 b - 48 < base.
Proof. unfold is_digit_of. rewrite between_spec. lia. Qed.

Lemma octal_digit_range b : is_octal_digit b = true <-> 0 <= u8 b - 48 < 8.
Proof. unfold is_octal_digit. rewrite between_spec. lia. Qed.

Lemma bytes_value_bound base v bytes :
  0 < base -> forallb (is_digit_of base) bytes = true ->
  v * base ^ Z.of_nat (length bytes) <= bytes_value base v bytes
    < (v + 1) * base ^ Z.of_nat (length bytes).
Proof.
  intros Hbase Hb. unfold bytes_value. rewrite <- (length_map (fun b => u8 b - 48)).
  apply digits_value_bound; [done|]. induction bytes as [|b bytes IH]; [constructor|].
  cbn in Hb. apply andb_true_iff in Hb as [Hb1 Hb2]. constructor; [|by apply IH].
  by apply digit_of_range.
Qed.

Lemma octal_value_bound v bytes :
  forallb is_octal_digit bytes = true ->
  v * 8 ^ Z.of_nat (length bytes) <= octal_value v bytes
    < (v + 1) * 8 ^ Z.of_nat (length bytes).
Proof. intros Hb. by apply bytes_value_bound. Qed.

(** The checked fold is exact: it fails just when the value exceeds [u64]. *)
Lemma fold_digits_exact base v bytes :
  1 < base -> 0 <= v <= u64_max -> forallb (is_digit_of base) bytes = true ->
  fold_digits base v bytes =
    if bytes_value base v bytes <=? u64_max then Some (bytes_value base v bytes) else None.
Proof.
  intros Hbase. revert v. induction bytes as [|b bytes IH]; intros v Hv Hb; cbn [fold_digits].
  - unfold bytes_value. cbn. rewrite (proj2 (Z.leb_le v u64_max)) by lia. done.
  - cbn in Hb. apply andb_true_iff in Hb as [Hb1 Hb2].
    pose proof (proj1 (digit_of_range base b) Hb1) as Hd.
    assert (bytes_value base v (b :: bytes) = bytes_value base (v * base + (u8 b - 48)) bytes) as -> by done.
    pose proof (bytes_value_bound base (v * base + (u8 b - 48)) bytes ltac:(lia) Hb2) as Hbound.
    assert (1 <= base ^ Z.of_nat (length bytes))
      by (pose proof (Z.pow_pos_nonneg base (Z.of_nat (length bytes))); lia).
    unfold u64_checked_mul, u64_checked_add.
    destruct (Z.leb_spec (v * base) u64_max).
    + destruct (Z.leb_spec (v * base + (u8 b - 48)) u64_max).
      * apply IH; [nia|done].
      * rewrite (proj2 (Z.leb_gt _ _)) by nia. done.
    + rewrite (proj2 (Z.leb_gt _ _)) by nia. done.
Qed.

Lemma fold_octal_exact v bytes :
  0 <= v <= u64_max -> forallb is_octal_digit bytes = true ->
  fold_digits 8 v bytes =
    if octal_value v bytes <=? u64_max then Some (octal_value v bytes) else None.
Proof. intros Hv Hb. by apply fold_digits_exact. Qed.

Lemma octal_prefix_le field : (octal_prefix field <= length field)%nat.
Proof. induction field as [|b field IH]; simpl; [lia|]. case_match; lia. Qed.

Lemma octal_prefix_digits field :
  forallb is_octal_digit (take (octal_prefix field) field) = true.
Proof. induction field as [|b field IH]; simpl; [done|]. case_match; simpl; [|done]. by rewrite H. Qed.

Lemma octal_prefix_app ds rest :
  forallb is_octal_digit ds = true ->
  match rest with b :: _ => is_octal_digit b = false | [] => True end ->
  octal_prefix (ds ++ rest) = length ds.
Proof.
  induction ds as [|b ds IH]; simpl; intros Hd Hr.
  - destruct rest; simpl; [done|]. by rewrite Hr.
  - apply andb_true_iff in Hd as [-> Hd]. f_equal. by apply IH.
Qed.

(** An accepted field is digits followed by at least one NUL or space, and its
    value is that of the digits: it is below [8 ^ (width - 1)]. *)
Lemma parse_octal_ok field label v :
  parse_octal field label = Ok v ->
  exists ds rest, field = ds ++ rest /\ ds <> [] /\ rest <> []
    /\ forallb is_octal_digit ds = true /\ forallb nul_or_space rest = true
    /\ v = octal_value 0 ds /\ 0 <= v <= u64_max
    /\ v < 8 ^ (Z.of_nat (length field) - 1).
Proof.
  unfold parse_octal. set (k := octal_prefix field). intros H.
  destruct (match field with b :: _ => _ | [] => _ end); [done|].
  destruct (Nat.eqb_spec k 0) as [|Hk0]; [done|].
  destruct (Nat.eqb_spec k (length field)) as [|Hkl]; [done|]. simpl in H.
  destruct (forallb nul_or_space (drop k field)) eqn:Hr; [|done]. simpl in H.
  pose proof (octal_prefix_le field) as Hle. fold k in Hle.
  pose proof (octal_prefix_digits field) as Hd. fold k in Hd.
  unfold parse_octal_digits in H. rewrite fold_octal_exact in H by (done || (unfold u64_max; lia)).
  destruct (Z.leb_spec (octal_value 0 (take k field)) u64_max) as [Hu|]; [|done]. simpl in H.
  injection H as <-. exists (take k field), (drop k field).
  pose proof (octal_value_bound 0 _ Hd) as Hb. rewrite length_take in Hb.
  split_and!; try done.
  - by rewrite take_drop.
  - intros E%(f_equal length). rewrite length_take in E. simpl in E. lia.
  - intros E%(f_equal length). rewrite length_drop in E. simpl in E. lia.
  - lia.
  - eapply Z.lt_le_trans; [apply Hb|]. rewrite Z.mul_1_l. apply Z.pow_le_mono_r; lia.
Qed.

Lemma octal_zeros n : forallb is_octal_digit (replicate n x30) = true.
Proof. induction n as [|n IH]; [done|]. cbn. by rewrite IH. Qed.

Lemma octal_zeros_value n :
  digits_value 8 0 (map (fun b => u8 b - 48) (replicate n x30)) = 0.
Proof. induction n as [|n IH]; [done|]. cbn. exact IH. Qed.

(** ** Header checksums *)

Lemma checksum_from_app i l1 l2 :
  checksum_from i (l1 ++ l2) = checksum_from i l1 + checksum_from (i + length l1) l2.
Proof.
  revert i. induction l1 as [|b l1 IH]; intros i; simpl.
  - by rewrite Nat.add_0_r.
  - rewrite IH. rewrite Nat.add_succ_r. simpl. lia.
Qed.

Lemma checksum_from_range i l :
  0 <= checksum_from i l <= 255 * Z.of_nat (length l).
Proof.
  revert i. induction l as [|b l IH]; intros i; simpl checksum_from; [simpl; lia|].
  specialize (IH (S i)). pose proof (u8_range b). cbn [length]. case_match; lia.
Qed.

(** Changing one byte outside the checksum field changes the sum. *)
Lemma actual_checksum_insert header i b c :
  header !! i = Some c -> b <> c -> ~ (148 <= i < 156)%nat ->
  actual_checksum (<[i := b]> header) <> actual_checksum header.
Proof.
  intros Hi Hbc Hout. unfold actual_checksum.
  assert (Hlt := lookup_lt_Some _ _ _ Hi).
  rewrite <- (take_drop_middle header i c Hi) at 2.
  rewrite insert_take_drop by done.
  rewrite !checksum_from_app. cbn [checksum_from]. rewrite length_take.
  replace (0 + i `min` length header)%nat with i by lia.
  replace ((148 <=? i)%nat && (i <? 156)%nat) with false.
  2:{ symmetry. apply andb_false_iff.
      destruct (Nat.leb_spec 148 i), (Nat.ltb_spec i 156); auto. lia. }
  intros E. apply Hbc, u8_inj. lia.
Qed.

(** The checksum field itself does not enter the sum. *)
Lemma checksum_from_out i l :
  (156 <= i)%nat -> checksum_from i l = foldr (fun b s => u8 b + s) 0 l.
Proof.
  revert i. induction l as [|b l IH]; intros i Hi; simpl; [done|].
  rewrite IH by lia. destruct (Nat.ltb_spec i 156); [lia|]. by rewrite andb_false_r.
Qed.

(** Zero-padded digits: what both octal writers of the repository emit. *)
Lemma octal_digits_padded n ds :
  Forall (fun d => 0 <= d < 8) ds ->
  forallb is_octal_digit (replicate n x30 ++ map digit_byte ds) = true.
Proof.
  intros Hds. rewrite forallb_app, octal_zeros. simpl.
  induction Hds as [|d ds Hd _ IH]; [done|]. simpl. rewrite IH, andb_true_r.
  apply octal_digit_range. rewrite u8_digit_byte; lia.
Qed.

Lemma octal_value_padded n ds :
  Forall (fun d => 0 <= d < 8) ds ->
  octal_value 0 (replicate n x30 ++ map digit_byte ds) = digits_value 8 0 ds.
Proof.
  intros Hds. unfold octal_value, bytes_value. rewrite map_app, digits_value_app, octal_zeros_value, map_map.
  f_equal. induction Hds as [|d ds Hd _ IH]; [done|]. simpl. rewrite IH, u8_digit_byte by lia.
  f_equal. lia.
Qed.

Lemma octal_digit_ascii b : is_octal_digit b = true -> Z.land (u8 b) 128 = 0.
Proof.
  intros Hb%octal_digit_range.
  assert (u8 b = 48 \/ u8 b = 49 \/ u8 b = 50 \/ u8 b = 51 \/ u8 b = 52 \/ u8 b = 53
          \/ u8 b = 54 \/ u8 b = 55) as Hcases by lia.
  destruct Hcases as [->|[->|[->|[->|[->|[->|[->| ->]]]]]]]; reflexivity.
Qed.

(** Printing a value into a numeric field and parsing the field gives the
    value back, for every width and every value whose digits fit before the
    terminating NUL and in a [u64]. *)
Lemma parse_octal_write_octal width value label :
  (2 <= width)%nat -> 0 <= value -> value <= u64_max ->
  value < 8 ^ (Z.of_nat width - 1) ->
  length (write_octal width value) = width
  /\ parse_octal (write_octal width value) label = Ok value.
Proof.
  intros Hw Hv Hu Hb. unfold write_octal, fmt_oct.
  destruct (fmt_radix_spec 8 value) as (ds & -> & Hn & Hds & Hval & _ & Hlen); [lia..|].
  specialize (Hlen (width - 1)%nat ltac:(lia)).
  rewrite Nat2Z.inj_sub in Hlen by lia. specialize (Hlen Hb).
  rewrite length_map. rewrite app_assoc.
  pose proof (octal_digits_padded (width - 1 - length ds) ds Hds) as Hdig.
  pose proof (octal_value_padded (width - 1 - length ds) ds Hds) as Hvalue.
  assert (Hla : length (replicate (width - 1 - length ds) x30 ++ map digit_byte ds) = (width - 1)%nat)
    by (rewrite length_app, length_replicate, length_map; lia).
  revert Hdig Hvalue Hla. generalize (replicate (width - 1 - length ds) x30 ++ map digit_byte ds).
  intros all Hdig Hvalue Hla. rewrite Hval in Hvalue.
  split; [rewrite length_app, Hla; simpl; lia|].
  unfold parse_octal. rewrite octal_prefix_app by done.
  rewrite length_app, take_app_length, drop_app_length. cbn [length].
  destruct all as [|b all'] eqn:Eall; [simpl in Hla; lia|]. cbn [app].
  rewrite octal_digit_ascii by (cbn in Hdig; by apply andb_true_iff in Hdig as [? _]).
  rewrite (proj2 (Nat.eqb_neq _ 0)) by (simpl; lia).
  rewrite (proj2 (Nat.eqb_neq _ _)) by (simpl; lia). simpl negb. cbv iota. cbn [orb].
  unfold parse_octal_digits. rewrite fold_octal_exact; [|unfold u64_max; lia|done].
  rewrite Hvalue, (proj2 (Z.leb_le _ _)) by lia. done.
Qed.

(** ** Canonical decimal *)

(** The printed decimal: its bytes are digits, their value is the number, at
    most twenty of them spell a [u64], and a leading zero stands alone. *)
Lemma fmt_dec_digits n :
  0 <= n <= u64_max ->
  let l := lit (fmt_dec n) in
  l <> [] /\ forallb (is_digit_of 10) l = true /\ bytes_value 10 0 l = n
  /\ (length l <= 20)%nat /\ (u8 (at_ l 0) = 48 -> length l = 1%nat).
Proof.
  intros Hn l. unfold l, fmt_dec.
  destruct (fmt_radix_spec 10 n) as (ds & -> & Hne & Hds & Hv & Hh & Hlen); [lia..|].
  assert (Hb : forall l, Forall (fun d => 0 <= d < 10) l ->
    forallb (is_digit_of 10) (map digit_byte l) = true
    /\ map (fun b => u8 b - 48) (map digit_byte l) = l).
  { induction 1 as [|d l' Hd _ [IH1 IH2]]; [done|]. simpl. rewrite IH1, IH2, u8_digit_byte by lia.
    split; [|f_equal; lia]. rewrite andb_true_r. apply digit_of_range. rewrite u8_digit_byte; lia. }
  destruct (Hb ds Hds) as [Hb1 Hb2]. rewrite length_map. split_and!.
  - by destruct ds.
  - done.
  - unfold bytes_value. by rewrite Hb2.
  - apply Hlen; [lia|]. unfold u64_max in Hn. simpl. lia.
  - destruct ds as [|d ds]; [done|]. apply Forall_cons in Hds as [Hd _]. unfold at_. cbn [map nth].
    rewrite u8_digit_byte by lia. intros Hz. assert (d = 0) as -> by lia. by rewrite Hh.
Qed.

(** And it is the only such spelling. *)
Lemma fmt_dec_unique l :
  l <> [] -> forallb (is_digit_of 10) l = true -> ((1 < length l)%nat -> u8 (at_ l 0) <> 48) ->
  lit (fmt_dec (bytes_value 10 0 l)) = l.
Proof.
  intros Hne Hd Hz. unfold fmt_dec, bytes_value.
  assert (Hds : Forall (fun d => 0 <= d < 10) (map (fun b => u8 b - 48) l)
    /\ map digit_byte (map (fun b => u8 b - 48) l) = l).
  { clear Hne Hz. induction l as [|b l IH]; [done|]. cbn in Hd. apply andb_true_iff in Hd as [Hb Hd].
    destruct (IH Hd) as [IH1 IH2]. apply digit_of_range in Hb. split; [by constructor|].
    simpl. rewrite IH2. f_equal. unfold digit_byte. replace (48 + (u8 b - 48)) with (u8 b) by lia.
    apply of_u8_u8. }
  destruct Hds as [Hds Hback]. rewrite fmt_radix_unique; [done|lia| |done|].
  - by destruct l.
  - destruct l as [|b l]; [done|]. cbn [map head]. intros [= Hb0].
    destruct l as [|b' l]; [simpl; by f_equal|]. exfalso. apply Hz; [simpl; lia|].
    unfold at_. simpl. lia.
Qed.
