(* ===== verification/Tar.v ===== *)
(** * The portable ustar reader ([tar.rs])

    [parse_header] reads one 512-byte header, [ustar_step] is one iteration of
    the parser's [loop], [parse_ustar_portable_v1] the whole reader, and
    [verified_ratio_covering] the independent scan used for ratio accounting
    after a rejection.  The specification is a grammar over the archive's
    bytes: records laid end to end, two zero blocks, zero padding. *)

From S2P Require Import Prelude Utf8 Findings Snapshot TarFields.
Local Open Scope Z_scope.

Record TarMember : Type := {
  raw_name : list byte;
  name : str;
  size : Z;
  mode : Z;
  mtime : Z;
  header_checksum : Z;
  header_sha256 : str;
  header : ByteRange;
  payload : ByteRange;
  padding : ByteRange;
  is_dir : bool
}.

Record TarArchive : Type := {
  members : list TarMember;
  member_records : ByteRange;
  terminator : ByteRange;
  trailing_zeros : ByteRange;
  metadata_bytes : Z
}.

Definition ustar_magic : list byte := lit "ustar" ++ [x00].
Definition bytes_eqb (l1 l2 : list byte) : bool := bool_decide (l1 = l2).

(** [is_known_unsupported_typeflag]. *)
Definition is_known_unsupported_typeflag (typeflag : byte) : bool :=
  match typeflag with
  | "1" | "2" | "3" | "4" | "6" | "7" | "x" | "g" | "L" | "K"
  | "S" | "D" | "M" | "N" | "V" => true
  | _ => false
  end%byte.

(** The [match header[156]] of [parse_header]. *)
Definition parse_typeflag (hdr : list byte) : result bool Finding :=
  let typeflag := at_ hdr 156 in
  match typeflag with
  | "0"%byte | x00 => Ok false
  | "5"%byte => Ok true
  | _ =>
      if is_known_unsupported_typeflag typeflag
      then Err (unsupported_typeflag_finding hdr typeflag)
      else Err (error TarType ("unknown ustar typeflag 0x" +++ fmt_hex2 (u8 typeflag)))
  end.

(** The stored checksum, which must equal the computed one. *)
Definition check_checksum (hdr : list byte) : result Z Finding :=
  let? stored := map_err (fun f => label_header_member f hdr)
                         (parse_checksum (slice 148 156 hdr)) in
  let actual := actual_checksum hdr in
  reject negb (stored =? actual)
    with label_header_member
      (error TarChecksum
        ("header checksum " +++ fmt_oct stored +++ " != computed " +++ fmt_oct actual)) hdr ;;
  Ok stored.

(** The prefix and name fields joined by a slash. *)
Definition join_name (prefix name : list byte) : list byte :=
  (if (length prefix =? 0)%nat then [] else prefix ++ [x2f]) ++ name.

Section Parser.
Context {S} `{Source S} `{!Sha256}.

(** [parse_header]. *)
Definition parse_header (hdr : list byte) (off : Z) : result TarMember Finding :=
  reject negb (bytes_eqb (slice 257 263 hdr) ustar_magic)
         || negb (bytes_eqb (slice 263 265 hdr) (lit "00"))
    with error TarDialect "header is not exact POSIX ustar magic and version" ;;
  let? stored_checksum := check_checksum hdr in
  let? is_dir := parse_typeflag hdr in
  reject negb (all_zero (drop 500 hdr))
    with error TarDialect "reserved ustar header bytes are not zero" ;;
  reject negb (all_zero (slice 157 257 hdr))
    with error TarType "linkname must be empty for regular files and directories" ;;
  let? mode := parse_octal (slice 100 108 hdr) "mode" in
  reject 4095 <? mode
    with error TarNumeric "mode exceeds the portable permission-bit range" ;;
  let? _ := parse_octal (slice 108 116 hdr) "uid" in
  let? _ := parse_octal (slice 116 124 hdr) "gid" in
  let? size := parse_octal (slice 124 136 hdr) "size" in
  let? mtime := parse_octal (slice 136 148 hdr) "mtime" in
  let? devmajor := parse_device_number (slice 329 337 hdr) "devmajor" in
  let? devminor := parse_device_number (slice 337 345 hdr) "devminor" in
  reject negb (devmajor =? 0) || negb (devminor =? 0)
    with error TarType "device numbers must be zero for regular files and directories" ;;
  let? _ := validate_owner_text (slice 265 297 hdr) "uname" in
  let? _ := validate_owner_text (slice 297 329 hdr) "gname" in
  let? name := parse_text_field (slice 0 100 hdr) "name" false in
  let? prefix := parse_text_field (slice 345 500 hdr) "prefix" true in
  let raw_name := join_name prefix name in
  let? decoded_name := ok_or (from_utf8 raw_name)
    (error PathUnicode "ustar member name is not strict UTF-8") in
  reject is_dir && negb (size =? 0)
    with on (error TarType "directory member declares a nonzero payload size") decoded_name ;;
  Ok {| raw_name := raw_name; name := decoded_name; size := size; mode := mode;
        mtime := mtime; header_checksum := stored_checksum;
        header_sha256 := hex_sha256 hdr; header := mkrange off BLOCK_LEN;
        payload := mkrange 0 0; padding := mkrange 0 0; is_dir := is_dir |}.

(** [recognizes_ustar]. *)
Definition recognizes_ustar (snapshot : S) : bool :=
  if src_len snapshot <? BLOCK_LEN then false
  else
    match src_read snapshot 257 8 with
    | Ok signature => bytes_eqb signature (ustar_magic ++ lit "00")
    | Err _ => false
    end.

(** The mutable state of the parser's loop. *)
Record UstarState : Type := {
  st_members : list TarMember;
  st_offset : Z;
  st_metadata : Z
}.

(** The member with its payload and padding placed ([..member]). *)
Definition place_member (m : TarMember) (payload padding : ByteRange) : TarMember :=
  {| raw_name := raw_name m; name := name m; size := size m; mode := mode m;
     mtime := mtime m; header_checksum := header_checksum m;
     header_sha256 := header_sha256 m; header := header m;
     payload := payload; padding := padding; is_dir := is_dir m |}.

(** The branch of the loop taken on a zero block. *)
Definition ustar_finish (snapshot : S) (max_metadata_bytes : Z) (st : UstarState)
    (header_end : Z) : exec (control UstarState TarArchive) Finding :=
  let source_len := src_len snapshot in
  let second_offset := header_end in
  let* second_end := checked_add second_offset BLOCK_LEN "terminator end" in
  reject! source_len <? second_end
    with error TarTerminator "archive has only one zero end block" ;;
  let* second := src_read snapshot second_offset BLOCK_LEN in
  reject! negb (is_zero_block second)
    with error TarTerminator
      "a zero header block is not followed by the required second zero block" ;;
  let* metadata := checked_add (st_metadata st) (BLOCK_LEN * 2) "metadata bytes" in
  reject! max_metadata_bytes <? metadata
    with error QuotaMetadata
      ("TAR metadata is " +++ fmt_dec metadata +++ " bytes; cap is "
         +++ fmt_dec max_metadata_bytes) ;;
  let! _ := ensure_zero_range snapshot second_end (source_len - second_end) "record padding" in
  Some (Ok (Return
    {| members := st_members st;
       member_records := mkrange 0 (st_offset st);
       terminator := mkrange (st_offset st) (BLOCK_LEN * 2);
       trailing_zeros := mkrange second_end (source_len - second_end);
       metadata_bytes := metadata |})).

(** The branch of the loop taken on a member header. *)
Definition ustar_member (snapshot : S) (max_files max_metadata_bytes : Z) (st : UstarState)
    (header_end : Z) (hdr : list byte) : exec (control UstarState TarArchive) Finding :=
  let source_len := src_len snapshot in
  let* member := parse_header hdr (st_offset st) in
  reject! max_files <=? Z.of_nat (length (st_members st))
    with error QuotaFiles
      ("TAR contains more than " +++ fmt_dec max_files +++ " members") ;;
  let* metadata := checked_add (st_metadata st) BLOCK_LEN "metadata bytes" in
  reject! max_metadata_bytes <? metadata
    with error QuotaMetadata
      ("TAR metadata exceeds the " +++ fmt_dec max_metadata_bytes +++ "-byte cap") ;;
  let payload_offset := header_end in
  let* payload_end := checked_add payload_offset (size member) "payload end" in
  let* padded_size := round_up_block (size member) in
  let* record_end := checked_add payload_offset padded_size "member record end" in
  reject! source_len <? record_end
    with on (error TarTruncated "declared member payload extends beyond the source")
            (name member) ;;
  let padding_len := padded_size - size member in
  let! _ := exec_map_err (fun finding => on finding (name member))
              (ensure_zero_range snapshot payload_end padding_len "member padding") in
  Some (Ok (Continue
    {| st_members := st_members st
         ++ [place_member member (mkrange payload_offset (size member))
                                 (mkrange payload_end padding_len)];
       st_offset := record_end;
       st_metadata := metadata |})).

(** One iteration of the parser's [loop]. *)
Definition ustar_step (snapshot : S) (max_files max_metadata_bytes : Z) (st : UstarState) :
    exec (control UstarState TarArchive) Finding :=
  let source_len := src_len snapshot in
  let* header_end := checked_add (st_offset st) BLOCK_LEN "header end" in
  reject! source_len <? header_end
    with error TarTruncated "member header extends beyond the source" ;;
  let* hdr := src_read snapshot (st_offset st) BLOCK_LEN in
  if is_zero_block hdr
  then ustar_finish snapshot max_metadata_bytes st header_end
  else ustar_member snapshot max_files max_metadata_bytes st header_end hdr.

Definition ustar_init : UstarState :=
  {| st_members := []; st_offset := 0; st_metadata := 0 |}.

(** [parse_ustar_portable_v1]; every iteration consumes at least one block, so
    the fuel is the number of blocks. *)
Definition parse_ustar_portable_v1 (snapshot : S) (max_files max_metadata_bytes : Z) :
    exec TarArchive Finding :=
  let source_len := src_len snapshot in
  reject! (source_len <? BLOCK_LEN * 2) || negb (source_len mod BLOCK_LEN =? 0)
    with error TarTruncated
      "ustar source must contain at least two complete 512-byte blocks" ;;
  run_loop (ustar_step snapshot max_files max_metadata_bytes)
    (2 + Z.to_nat (source_len / BLOCK_LEN)) ustar_init.

(** [header_checksum_matches]. *)
Definition header_checksum_matches (hdr : list byte) : bool :=
  match parse_checksum (slice 148 156 hdr) with
  | Err _ => false
  | Ok stored => stored =? actual_checksum hdr
  end.

Record RatioCovering : Type := {
  rc_terminator : ByteRange;
  rc_trailing_zeros : ByteRange
}.

(** One iteration of [verified_ratio_covering]: its [?] on options is [Err ()]. *)
Definition ratio_covering_step (snapshot : S) (offset : Z) :
    exec (control Z RatioCovering) unit :=
  let source_len := src_len snapshot in
  let* header_end := ok_or (u64_checked_add offset BLOCK_LEN) () in
  reject! source_len <? header_end with () ;;
  let* hdr := map_err (fun _ => ()) (src_read snapshot offset BLOCK_LEN) in
  if is_zero_block hdr then
    let* trailing_offset := ok_or (u64_checked_add header_end BLOCK_LEN) () in
    reject! source_len <? trailing_offset with () ;;
    let* second := map_err (fun _ => ()) (src_read snapshot header_end BLOCK_LEN) in
    reject! negb (is_zero_block second) with () ;;
    let trailing_len := source_len - trailing_offset in
    let! _ := exec_map_err (fun _ => ())
      (ensure_zero_range snapshot trailing_offset trailing_len "record padding") in
    Some (Ok (Return
      {| rc_terminator := mkrange offset (BLOCK_LEN * 2);
         rc_trailing_zeros := mkrange trailing_offset trailing_len |}))
  else
    reject! negb (header_checksum_matches hdr) with () ;;
    let magic := slice 257 265 hdr in
    reject! negb (bytes_eqb magic (ustar_magic ++ lit "00"))
            && negb (bytes_eqb magic (lit "ustar  " ++ [x00])) with () ;;
    let* size := map_err (fun _ => ()) (parse_octal (slice 124 136 hdr) "size") in
    let* padded := map_err (fun _ => ()) (round_up_block size) in
    let* payload_end := ok_or (u64_checked_add header_end size) () in
    let* record_end := ok_or (u64_checked_add header_end padded) () in
    reject! (source_len <? record_end) || (record_end <=? offset) with () ;;
    let! _ := exec_map_err (fun _ => ())
      (ensure_zero_range snapshot payload_end (padded - size) "member padding") in
    Some (Ok (Continue record_end)).

(** [verified_ratio_covering]: [Some None] is the source's [None]. *)
Definition verified_ratio_covering (snapshot : S) : option (option RatioCovering) :=
  let source_len := src_len snapshot in
  if (source_len <? BLOCK_LEN * 2) || negb (source_len mod BLOCK_LEN =? 0) then Some None
  else
    option_map ok
      (run_loop (ratio_covering_step snapshot) (2 + Z.to_nat (source_len / BLOCK_LEN)) 0).
End Parser.

(** ** Specification: the grammar of a portable ustar archive *)

Section Grammar.
Context `{!Sha256} (bs : list byte).

(** A member record at [off]: an accepted header block, the payload right
    after it, and zero bytes up to the next block boundary. *)
Record ustar_record (off : Z) (m : TarMember) : Prop := {
  record_header : exists m0, parse_header (range off BLOCK_LEN bs) off = Ok m0 /\
    m = place_member m0 (mkrange (off + BLOCK_LEN) (size m0))
          (mkrange (off + BLOCK_LEN + size m0) (padded (size m0) - size m0));
  record_fits : off + BLOCK_LEN + padded (size m) <= Z.of_nat (length bs);
  record_padding :
    all_zero (range (off + BLOCK_LEN + size m) (padded (size m) - size m) bs) = true
}.

(** Records laid end to end. *)
Inductive ustar_records : Z -> list TarMember -> Z -> Prop :=
  | records_nil off : ustar_records off [] off
  | records_snoc off ms mid m :
      ustar_records off ms mid -> ustar_record mid m ->
      ustar_records off (ms ++ [m]) (mid + BLOCK_LEN + padded (size m)).

(** Records, then at least two zero blocks and nothing but zeros. *)
Record ustar_archive (a : TarArchive) : Prop := {
  archive_blocks : Z.of_nat (length bs) mod BLOCK_LEN = 0;
  archive_records : ustar_records 0 (members a) (len (member_records a));
  archive_layout :
    let stop := len (member_records a) in
    a = {| members := members a; member_records := mkrange 0 stop;
           terminator := mkrange stop (BLOCK_LEN * 2);
           trailing_zeros := mkrange (stop + BLOCK_LEN * 2)
             (Z.of_nat (length bs) - (stop + BLOCK_LEN * 2));
           metadata_bytes := BLOCK_LEN * (Z.of_nat (length (members a)) + 2) |};
  archive_fits : len (member_records a) + BLOCK_LEN * 2 <= Z.of_nat (length bs);
  archive_zeros :
    let stop := len (member_records a) in
    all_zero (range stop (Z.of_nat (length bs) - stop) bs) = true
}.
End Grammar.

(** ** Headers *)

Lemma parse_text_field_ok field label e v :
  parse_text_field field label e = Ok v ->
  (exists rest, field = v ++ rest /\ all_zero rest = true)
  /\ (x00 ∉ v) /\ (e = false -> v <> []).
Proof.
  unfold parse_text_field. intros H. ok_steps H. simplify_eq. breflect. split_and!.
  - exists (drop (default (length field) (position is_zero_byte field)) field).
    by rewrite take_drop.
  - destruct (position is_zero_byte field) as [n|] eqn:Hp; simpl.
    + apply position_Some in Hp as (_ & _ & Hn). intros Hin.
      rewrite forallb_forall in Hn. apply list_elem_of_In in Hin. by specialize (Hn _ Hin).
    + apply position_None in Hp. rewrite (take_ge field) by done. intros Hin.
      rewrite forallb_forall in Hp. apply list_elem_of_In in Hin. by specialize (Hp _ Hin).
  - intros -> Hnil. apply (f_equal length) in Hnil. rewrite length_take in Hnil.
    destruct (position is_zero_byte field) as [n|] eqn:Hp; cbn [default from_option id] in *.
    + apply position_Some in Hp as (Hn & _ & _).
      destruct n; [done|]. cbn [length] in Hnil. lia.
    + destruct field; [done|]. cbn [length] in Hnil. lia.
Qed.

(** The bound of an octal field with [width] bytes. *)
Lemma parse_octal_bound field label v :
  parse_octal field label = Ok v ->
  0 <= v <= u64_max /\ v < 8 ^ (Z.of_nat (length field) - 1).
Proof. intros (ds & rest & _ & _ & _ & _ & _ & _ & Hv & Hb)%parse_octal_ok. done. Qed.

Lemma all_zero_slice lo hi l : all_zero l = true -> all_zero (slice lo hi l) = true.
Proof.
  unfold all_zero. rewrite !forallb_forall. intros Hz b Hb. apply Hz.
  unfold slice in Hb. apply list_elem_of_In in Hb. apply list_elem_of_In.
  apply elem_of_take in Hb as (i & Hi & _). rewrite lookup_drop in Hi.
  by eapply list_elem_of_lookup_2.
Qed.

Section HeaderLemmas.
Context `{!Sha256}.

Lemma parse_header_nonzero hdr off m :
  parse_header hdr off = Ok m -> is_zero_block hdr = false.
Proof.
  intros Hp. destruct (is_zero_block hdr) eqn:Hz; [|done]. exfalso.
  pose proof (all_zero_slice 257 263 _ Hz) as Hz1.
  unfold parse_header in Hp. ok_step Hp. breflect. unfold bytes_eqb in *.
  match goal with Hb : bool_decide (slice 257 263 _ = _) = true |- _ =>
    apply bool_decide_eq_true in Hb; by rewrite Hb in Hz1 end.
Qed.

(** What an accepted header promises about the member's fields. *)
Lemma parse_header_bounds hdr off m :
  length hdr = 512%nat ->
  parse_header hdr off = Ok m ->
  (0 <= size m < 8 ^ 11 /\ 0 <= mtime m < 8 ^ 11 /\ 0 <= mode m <= 4095)
  /\ (is_dir m = true -> size m = 0)
  /\ (name m = raw_name m /\ is_Some (chars (raw_name m)) /\ raw_name m <> []
      /\ (x00 ∉ raw_name m) /\ (length (raw_name m) <= 256)%nat)
  /\ header m = mkrange off BLOCK_LEN
  /\ header_checksum m = actual_checksum hdr
  /\ header_sha256 m = hex_sha256 hdr
  /\ is_zero_block hdr = false.
Proof.
  intros Hl Hp. pose proof (parse_header_nonzero _ _ _ Hp) as Hnz.
  unfold parse_header in Hp. ok_steps Hp. simplify_eq.
  cbn [size mtime mode is_dir name raw_name header header_checksum header_sha256].
  repeat match goal with
  | Hq : parse_octal (slice ?lo ?hi hdr) _ = Ok _ |- _ =>
      apply parse_octal_bound in Hq; rewrite length_slice in Hq by lia
  end.
  match goal with Hu : ok_or _ _ = Ok _ |- _ => rename Hu into Hutf end.
  destruct (from_utf8 _) as [decoded|] eqn:Hd; [|done]. simpl in Hutf. simplify_eq.
  apply from_utf8_Some in Hd as [-> [cs Hcs]].
  match goal with Ht : parse_text_field (slice 0 100 _) _ _ = Ok ?v |- _ =>
    apply parse_text_field_ok in Ht as ((r1 & Hr1 & _) & Hn0 & Hn1) end.
  match goal with Ht : parse_text_field (slice 345 500 _) _ _ = Ok ?v |- _ =>
    apply parse_text_field_ok in Ht as ((r2 & Hr2 & _) & Hp0 & _) end.
  apply (f_equal length) in Hr1, Hr2. rewrite length_app, length_slice in Hr1, Hr2 by lia.
  assert (forall p q : list byte, q <> [] -> join_name p q <> []) as Hne
    by (intros p q Hq E; unfold join_name in E; by apply app_eq_nil in E as [_ ->]).
  match goal with Hc : check_checksum _ = Ok _ |- _ =>
    unfold check_checksum in Hc; ok_steps Hc; simplify_eq; breflect; subst end.
  change (Z.of_nat (136 - 124) - 1) with 11 in *.
  change (Z.of_nat (148 - 136) - 1) with 11 in *.
  split_and!; try done; try lia.
  - intros ->. simpl in *. breflect. lia.
  - by apply Hne, Hn1.
  - unfold join_name. rewrite elem_of_app. intros [Hin|Hin]; [|done].
    case_match; [by apply elem_of_nil in Hin|].
    apply elem_of_app in Hin as [?|Hin%list_elem_of_singleton]; done.
  - unfold join_name. rewrite length_app. case_match; simpl; rewrite ?length_app; simpl; lia.
Qed.
End HeaderLemmas.
