(* ===== verification/TarWrite.v ===== *)
(** * Writing portable ustar headers ([tar.rs], fuzzing support)

    [canonical_fuzz_archive], [write_fuzz_octal] and [fix_fuzz_checksum] are
    the repository's own header writer.  [ustar_header] lays out the same
    fields for any name, size, mode, time and kind; the reader gets back
    exactly what was written. *)

From S2P Require Import Prelude Utf8 Findings Snapshot TarFields Tar.
Local Open Scope Z_scope.

(** A text field: the bytes, then NULs up to the width. *)
Definition text_field (width : nat) (bytes : list byte) : list byte :=
  bytes ++ replicate (width - length bytes) x00.

(** The six octal digits, NUL and space that [fix_fuzz_checksum] writes. *)
Definition checksum_field (checksum : Z) : list byte :=
  let encoded := lit (fmt_oct checksum) in
  replicate (6 - length encoded) x30 ++ encoded ++ [x00; x20].

(** [fix_fuzz_checksum] on a 512-byte header. *)
Definition fix_fuzz_checksum (header : list byte) : list byte :=
  take 148 header ++ checksum_field (actual_checksum header) ++ drop 156 header.

Record HeaderFields : Type := {
  h_name : list byte;
  h_prefix : list byte;
  h_size : Z;
  h_mode : Z;
  h_mtime : Z;
  h_dir : bool
}.

(** The header before its checksum is filled in. *)
Definition header_front (h : HeaderFields) : list byte :=
  text_field 100 (h_name h) ++ write_octal 8 (h_mode h) ++ write_octal 8 0
  ++ write_octal 8 0 ++ write_octal 12 (h_size h) ++ write_octal 12 (h_mtime h).
Definition header_back (h : HeaderFields) : list byte :=
  [if h_dir h then x35 else x30] ++ replicate 100 x00 ++ ustar_magic ++ lit "00"
  ++ replicate 32 x00 ++ replicate 32 x00 ++ replicate 8 x00 ++ replicate 8 x00
  ++ text_field 155 (h_prefix h) ++ replicate 12 x00.
Definition ustar_header (h : HeaderFields) : list byte :=
  fix_fuzz_checksum (header_front h ++ replicate 8 x20 ++ header_back h).

(** The names and numbers the format can carry. *)
Record representable (h : HeaderFields) : Prop := {
  rep_name : h_name h <> [] /\ (x00 ∉ h_name h) /\ (length (h_name h) <= 100)%nat;
  rep_prefix : (x00 ∉ h_prefix h) /\ (length (h_prefix h) <= 155)%nat;
  rep_utf8 : is_Some (chars (join_name (h_prefix h) (h_name h)));
  rep_size : 0 <= h_size h < 8 ^ 11;
  rep_mode : 0 <= h_mode h <= 4095;
  rep_mtime : 0 <= h_mtime h < 8 ^ 11;
  rep_dir : h_dir h = true -> h_size h = 0
}.

(** [canonical_fuzz_archive]: one 1-byte file, then the two zero blocks. *)
Definition canonical_fuzz_archive : list byte :=
  ustar_header {| h_name := lit "file.txt"; h_prefix := []; h_size := 1; h_mode := 420;
                  h_mtime := 0; h_dir := false |}
  ++ text_field 512 (lit "x") ++ replicate 1024 x00.

Example canonical_length : length canonical_fuzz_archive = 2048%nat.
Proof. vm_compute. reflexivity. Qed.

(** ** Slicing a concatenation *)

Lemma slice_skip {A} n lo hi (l1 l2 : list A) :
  length l1 = n -> (n <=? lo)%nat = true ->
  slice lo hi (l1 ++ l2) = slice (lo - n) (hi - n) l2.
Proof.
  intros <- Hl%Nat.leb_le. unfold slice. rewrite drop_app, (drop_ge l1) by lia. simpl. f_equal. lia.
Qed.

Lemma slice_here {A} lo hi (l1 l2 : list A) :
  lo = 0%nat -> hi = length l1 -> slice lo hi (l1 ++ l2) = l1.
Proof. intros -> ->. unfold slice. rewrite Nat.sub_0_r. apply take_app_length. Qed.

Lemma drop_skip {A} n k (l1 l2 : list A) :
  length l1 = n -> (n <=? k)%nat = true -> drop k (l1 ++ l2) = drop (k - n) l2.
Proof. intros <- Hl%Nat.leb_le. by rewrite drop_app, (drop_ge l1). Qed.

(** Drops a leading field of known length that a slice starts beyond. *)
Ltac skip_field :=
  match goal with
  | L : length ?l1 = ?n |- context [slice ?lo ?hi (?l1 ++ ?l2)] =>
      rewrite (slice_skip n lo hi l1 l2 L eq_refl); cbn [Nat.sub]
  | L : length ?l1 = ?n |- context [drop ?k (?l1 ++ ?l2)] =>
      rewrite (drop_skip n k l1 l2 L eq_refl); cbn [Nat.sub]
  end.

(** ** Lengths and the checksum *)

Lemma length_text_field w bytes :
  (length bytes <= w)%nat -> length (text_field w bytes) = w.
Proof. intros. unfold text_field. rewrite length_app, length_replicate. lia. Qed.

Lemma length_write_octal w v :
  (2 <= w)%nat -> 0 <= v < 8 ^ (Z.of_nat w - 1) -> length (write_octal w v) = w.
Proof.
  intros Hw Hv. unfold write_octal, fmt_oct.
  destruct (fmt_radix_spec 8 v) as (ds & -> & Hn & Hds & Hval & _ & Hlen); [lia..|].
  specialize (Hlen (w - 1)%nat ltac:(lia)).
  rewrite Nat2Z.inj_sub in Hlen by lia. specialize (Hlen ltac:(lia)).
  rewrite !length_app, length_replicate, length_map. simpl. lia.
Qed.

Lemma parse_text_field_text w bytes label e :
  (x00 ∉ bytes) -> (length bytes <= w)%nat -> (e = true \/ bytes <> []) ->
  parse_text_field (text_field w bytes) label e = Ok bytes.
Proof.
  intros Hn Hw He. unfold parse_text_field, text_field.
  set (pad := replicate (w - length bytes) x00).
  assert (Hstop : default (length (bytes ++ pad)) (position is_zero_byte (bytes ++ pad)) = length bytes).
  { clear He. unfold pad. clear pad. revert w Hw. induction bytes as [|b bytes IH]; intros w Hw.
    - simpl. destruct (w - 0)%nat; [done|]. reflexivity.
    - apply not_elem_of_cons in Hn as [Hb Hn]. cbn [app position length].
      destruct (is_zero_byte b) eqn:Hz; [by apply is_zero_byte_true in Hz; subst|].
      specialize (IH Hn (w - 1)%nat ltac:(simpl in Hw; lia)).
      replace (w - 1 - length bytes)%nat with (w - S (length bytes))%nat in IH by lia.
      destruct (position _ _); simpl in *; lia. }
  rewrite Hstop, drop_app_length, take_app_length.
  assert (all_zero pad = true) as ->.
  { apply all_zero_replicate. unfold pad. by rewrite length_replicate. }
  simpl negb. cbv iota. destruct He as [->|Hb]; [done|].
  destruct bytes; [done|]. simpl. by rewrite andb_false_r.
Qed.

Lemma parse_checksum_field v :
  0 <= v < 8 ^ 6 -> length (checksum_field v) = 8%nat /\ parse_checksum (checksum_field v) = Ok v.
Proof.
  intros Hv. unfold checksum_field, fmt_oct.
  destruct (fmt_radix_spec 8 v) as (ds & -> & Hn & Hds & Hval & _ & Hlen); [lia..|].
  specialize (Hlen 6%nat ltac:(lia) ltac:(simpl; lia)).
  rewrite length_map. set (pad := replicate (6 - length ds) x30).
  set (all := pad ++ map digit_byte ds).
  assert (Hla : length all = 6%nat)
    by (unfold all, pad; rewrite length_app, length_replicate, length_map; lia).
  rewrite app_assoc. fold all.
  assert (Hdig : forallb is_octal_digit all = true) by (by apply octal_digits_padded).
  assert (Hvalue : octal_value 0 all = v) by (rewrite <- Hval; by apply octal_value_padded).
  split; [rewrite length_app, Hla; done|].
  unfold parse_checksum, at_. rewrite length_app, Hla. rewrite !app_nth2 by lia. rewrite Hla.
  rewrite (take_app_length' all _ 6) by done. rewrite Hdig.
  unfold parse_octal_digits. rewrite fold_octal_exact; [|unfold u64_max; lia|done].
  rewrite Hvalue, (proj2 (Z.leb_le _ u64_max)) by (unfold u64_max; lia). cbn [ok_or].
  rewrite (proj2 (Z.leb_le _ u32_max)) by (unfold u32_max; lia). done.
Qed.

(** ** The fields of a 512-byte block *)

Lemma block_slices (name mode uid gid size mtime sum flag link magic version uname gname
    major minor prefix reserved : list byte) :
  length name = 100%nat -> length mode = 8%nat -> length uid = 8%nat -> length gid = 8%nat ->
  length size = 12%nat -> length mtime = 12%nat -> length sum = 8%nat -> length flag = 1%nat ->
  length link = 100%nat -> length magic = 6%nat -> length version = 2%nat ->
  length uname = 32%nat -> length gname = 32%nat -> length major = 8%nat ->
  length minor = 8%nat -> length prefix = 155%nat -> length reserved = 12%nat ->
  let hdr := (name ++ mode ++ uid ++ gid ++ size ++ mtime) ++ sum ++ flag ++ link ++ magic
    ++ version ++ uname ++ gname ++ major ++ minor ++ prefix ++ reserved in
  (slice 0 100 hdr = name /\ slice 100 108 hdr = mode /\ slice 108 116 hdr = uid
   /\ slice 116 124 hdr = gid /\ slice 124 136 hdr = size /\ slice 136 148 hdr = mtime)
  /\ (slice 148 156 hdr = sum /\ [at_ hdr 156] = flag /\ slice 157 257 hdr = link
      /\ slice 257 263 hdr = magic /\ slice 263 265 hdr = version)
  /\ (slice 265 297 hdr = uname /\ slice 297 329 hdr = gname /\ slice 329 337 hdr = major
      /\ slice 337 345 hdr = minor /\ slice 345 500 hdr = prefix /\ drop 500 hdr = reserved)
  /\ length hdr = 512%nat.
Proof.
  intros L1 L2 L3 L4 L5 L6 L7 L8 L9 L10 L11 L12 L13 L14 L15 L16 L17 hdr.
  subst hdr. rewrite <- !app_assoc.
  assert (Hat : forall rest, at_ (name ++ mode ++ uid ++ gid ++ size ++ mtime ++ sum ++ flag ++ rest) 156
                = at_ flag 0).
  { intros rest. unfold at_. rewrite 7!app_nth2 by lia. rewrite app_nth1 by lia. f_equal. lia. }
  split_and!; rewrite ?Hat; try (repeat skip_field; by apply slice_here).
  - by destruct flag as [|b [|]].
  - repeat skip_field. done.
  - rewrite !length_app. lia.
Qed.

(** The checksum ignores what the checksum field holds. *)
Lemma actual_checksum_field front field back :
  length front = 148%nat -> length field = 8%nat ->
  actual_checksum (front ++ field ++ back) =
    checksum_from 0 front + 256 + checksum_from 156 back.
Proof.
  intros Hf Hk. unfold actual_checksum. rewrite !checksum_from_app, Hf, Hk.
  assert (checksum_from (0 + 148) field = 256) as ->.
  { do 8 (destruct field as [|? field]; [done|]). by destruct field. }
  simpl Nat.add. lia.
Qed.

Lemma length_header_front h : representable h -> length (header_front h) = 148%nat.
Proof.
  intros [(_ & _ & Hn) _ _ Hs Hm Ht _]. unfold header_front.
  rewrite !length_app, length_text_field by lia.
  rewrite !length_write_octal by (simpl; lia). done.
Qed.

Lemma length_header_back h : representable h -> length (header_back h) = 356%nat.
Proof.
  intros [_ [_ Hp] _ _ _ _ _]. unfold header_back.
  rewrite !length_app, length_text_field, !length_replicate by lia. done.
Qed.

Lemma checksum_bound h field :
  representable h -> length field = 8%nat ->
  0 <= actual_checksum (header_front h ++ field ++ header_back h) < 8 ^ 6.
Proof.
  intros Hr Hf. unfold actual_checksum.
  pose proof (checksum_from_range 0 (header_front h ++ field ++ header_back h)) as Hb.
  rewrite !length_app, length_header_front, length_header_back, Hf in Hb by done. simpl in *. lia.
Qed.

Lemma parse_octal_write w v label :
  (2 <= w <= 12)%nat -> 0 <= v < 8 ^ (Z.of_nat w - 1) ->
  parse_octal (write_octal w v) label = Ok v.
Proof.
  intros Hw Hv. apply parse_octal_write_octal; try lia. unfold u64_max.
  pose proof (Z.pow_le_mono_r 8 (Z.of_nat w - 1) 11 ltac:(lia) ltac:(lia)) as Hp. simpl in Hp. lia.
Qed.

Lemma fix_fuzz_checksum_app front field back :
  length front = 148%nat -> length field = 8%nat ->
  fix_fuzz_checksum (front ++ field ++ back) =
    front ++ checksum_field (actual_checksum (front ++ field ++ back)) ++ back.
Proof.
  intros Hf Hk. unfold fix_fuzz_checksum. rewrite take_app_length' by done.
  by rewrite (drop_skip 148 156), (drop_skip 8 (156 - 148)).
Qed.

(** The written header: its fields, with the checksum the reader computes. *)
Lemma ustar_header_eq h :
  representable h ->
  ustar_header h =
    header_front h ++ checksum_field (actual_checksum (ustar_header h)) ++ header_back h
  /\ length (checksum_field (actual_checksum (ustar_header h))) = 8%nat
  /\ parse_checksum (checksum_field (actual_checksum (ustar_header h)))
     = Ok (actual_checksum (ustar_header h)).
Proof.
  intros Hr. pose proof (length_header_front h Hr) as Hlf.
  pose proof (checksum_bound h (replicate 8 x20) Hr eq_refl) as Hb.
  assert (Hfix := fix_fuzz_checksum_app _ (replicate 8 x20) (header_back h) Hlf eq_refl).
  assert (Hsum : actual_checksum (ustar_header h)
                 = actual_checksum (header_front h ++ replicate 8 x20 ++ header_back h)).
  { unfold ustar_header. rewrite Hfix.
    rewrite !actual_checksum_field; try done. by apply parse_checksum_field. }
  destruct (parse_checksum_field _ Hb) as [Hlc Hpc]. rewrite Hsum. split; [|done].
  unfold ustar_header at 1. exact Hfix.
Qed.

Section RoundTrip.
Context `{!Sha256}.

(** What the reader should make of a written header at [off]. *)
Definition header_member (h : HeaderFields) (off : Z) : TarMember :=
  let raw := join_name (h_prefix h) (h_name h) in
  {| raw_name := raw; name := raw; size := h_size h; mode := h_mode h; mtime := h_mtime h;
     header_checksum := actual_checksum (ustar_header h);
     header_sha256 := hex_sha256 (ustar_header h);
     header := mkrange off BLOCK_LEN; payload := mkrange 0 0; padding := mkrange 0 0;
     is_dir := h_dir h |}.

(** Reading a written header gives back every field that was written, for all
    names, prefixes and numbers the portable format can carry: the reader
    accepts every portable header, and the writer's checksum is the one the
    reader computes. *)
Theorem parse_header_ustar_header h off :
  representable h -> parse_header (ustar_header h) off = Ok (header_member h off).
Proof.
  intros Hr. destruct (ustar_header_eq h Hr) as (Heq & Hlc & Hpc).
  pose proof Hr as [(Hn0 & Hn1 & Hn2) [Hp0 Hp1] [cs Hcs] Hs Hm Ht Hd].
  unfold header_member. set (hdr := ustar_header h) in *. set (sum := actual_checksum hdr) in *.
  edestruct (block_slices (text_field 100 (h_name h)) (write_octal 8 (h_mode h)) (write_octal 8 0)
    (write_octal 8 0) (write_octal 12 (h_size h)) (write_octal 12 (h_mtime h))
    (checksum_field sum) [if h_dir h then x35 else x30] (replicate 100 x00) ustar_magic (lit "00")
    (replicate 32 x00) (replicate 32 x00) (replicate 8 x00) (replicate 8 x00)
    (text_field 155 (h_prefix h)) (replicate 12 x00))
    as ((E1 & E2 & E3 & E4 & E5 & E6) & (E7 & E8 & E9 & E10 & E11)
        & (E12 & E13 & E14 & E15 & E16 & E17) & _);
    try (apply length_text_field; lia); try (apply length_write_octal; simpl; lia);
    try reflexivity; [done|].
  fold (header_front h) (header_back h) in *.
  change (header_front h ++ checksum_field sum ++ _) with
    (header_front h ++ checksum_field sum ++ header_back h) in *.
  rewrite <- Heq in *. clear Heq.
  assert (Hck : check_checksum hdr = Ok sum)
    by (unfold check_checksum; rewrite E7, Hpc; cbn [map_err]; fold sum; by rewrite Z.eqb_refl).
  assert (Hfl : parse_typeflag hdr = Ok (h_dir h)).
  { injection E8 as E8. unfold parse_typeflag. rewrite E8. by destruct (h_dir h). }
  assert (Hoct : forall w v label, (2 <= w <= 12)%nat -> 0 <= v < 8 ^ (Z.of_nat w - 1) ->
    parse_octal (write_octal w v) label = Ok v) by apply parse_octal_write.
  unfold parse_header.
  rewrite E10, E11, Hck, Hfl, E17, E9, E2, E3, E4, E5, E6, E14, E15, E12, E13, E1, E16.
  rewrite !Hoct by (simpl; lia).
  rewrite !parse_text_field_text by (done || lia || auto).
  unfold from_utf8. rewrite Hcs. cbn -[Z.ltb replicate hex_sha256].
  rewrite (proj2 (Z.ltb_ge _ _)) by lia.
  destruct (h_dir h) eqn:Hdir; [rewrite (Hd eq_refl)|]; reflexivity.
Qed.

End RoundTrip.

Definition example_fields : HeaderFields :=
  {| h_name := lit "file.txt"; h_prefix := lit "dir"; h_size := 1; h_mode := 420;
     h_mtime := 8589934591; h_dir := false |}.

Lemma parse_header_ustar_header_witness :
  @parse_header null_sha256 (ustar_header example_fields) 512
  = Ok (@header_member null_sha256 example_fields 512).
Proof.
  apply (@parse_header_ustar_header null_sha256). split; simpl.
  - split_and!; [done|by apply (bool_decide_unpack (x00 ∉ lit "file.txt"))|lia].
  - split; [by apply (bool_decide_unpack (x00 ∉ lit "dir"))|lia].
  - by eexists.
  - lia.
  - lia.
  - lia.
  - done.
Defined.
