(* ===== verification/TarRefine.v ===== *)
(** * The ustar reader refines its grammar ([tar.rs])

    Soundness on any source that returns the archive's bytes, completeness on
    a source that never fails, totality, exact quotas, and the rejection of
    truncated and corrupted archives. *)

From S2P Require Import Prelude Utf8 Findings Interval Snapshot Layout TarFields Tar TarWrite.
Local Open Scope Z_scope.

(** ** The reader against the grammar *)

Section Refinement.
Context {S} `{Source S} `{!Sha256} (s : S) (bs : list byte) (max_files max_metadata : Z).

(** The loop state after [ms] members, [off] bytes in. *)
Definition state_at (ms : list TarMember) (off : Z) : UstarState :=
  {| st_members := ms; st_offset := off; st_metadata := BLOCK_LEN * Z.of_nat (length ms) |}.

Lemma ustar_header_size hdr off m :
  parse_header hdr off = Ok m -> 0 <= size m <= u64_max.
Proof.
  intros Hm. unfold parse_header in Hm. ok_steps Hm. simplify_eq. simpl.
  match goal with Hq : parse_octal _ "size" = Ok _ |- _ => by apply parse_octal_bound in Hq as [Hq _] end.
Qed.

Lemma record_size off m : ustar_record bs off m -> 0 <= size m <= u64_max.
Proof. intros [(m0 & Hm & ->) _ _]. by apply ustar_header_size in Hm. Qed.

Lemma records_bound off ms stop :
  0 <= off -> ustar_records bs off ms stop ->
  off + BLOCK_LEN * Z.of_nat (length ms) <= stop
  /\ (ms <> [] -> stop <= Z.of_nat (length bs)).
Proof.
  intros Ho Hr. unfold BLOCK_LEN. induction Hr as [off|off ms mid m Hr IH Hm].
  - simpl. split; [lia|done].
  - destruct (IH Ho) as [IH1 _]. rewrite length_app. cbn [length].
    pose proof (record_size _ _ Hm) as Hsz. pose proof (padded_spec (size m) ltac:(lia)).
    pose proof (record_fits _ _ _ Hm). unfold BLOCK_LEN in *. split; [lia|]. intros _. lia.
Qed.

Lemma ustar_step_continue ms off st' :
  represents s bs -> 0 <= off ->
  ustar_step s max_files max_metadata (state_at ms off) = Some (Ok (Continue st')) ->
  exists m, ustar_record bs off m
    /\ st' = state_at (ms ++ [m]) (off + BLOCK_LEN + padded (size m))
    /\ Z.of_nat (length ms) < max_files
    /\ BLOCK_LEN * (Z.of_nat (length ms) + 1) <= max_metadata.
Proof.
  intros Hs Ho Hst. pose proof (represents_u64 _ _ Hs) as Hu. pose proof (represents_len _ _ Hs) as Hlen.
  unfold ustar_step in Hst. ok_steps Hst.
  cbn [st_offset state_at] in *. breflect. checked_adds.
  match goal with Hr : src_read _ _ _ = Ok ?h |- _ =>
    apply (represents_read _ _ Hs) in Hr as [_ ->]; [|done|done] end.
  destruct (is_zero_block _) eqn:Hz; [unfold ustar_finish in Hst; by repeat case_match|].
  unfold ustar_member in Hst. ok_steps Hst. cbn [st_offset st_metadata st_members state_at] in *.
  breflect. checked_adds.
  match goal with Hh : parse_header _ _ = Ok ?m |- _ =>
    pose proof (ustar_header_size _ _ _ Hh) as Hsz; rename m into m0; rename Hh into Hhdr end.
  match goal with Hr : round_up_block _ = Ok _ |- _ =>
    apply round_up_block_ok in Hr as [-> Hr]; [|done] end.
  pose proof (padded_spec (size m0) ltac:(lia)) as Hpad.
  repeat match goal with u : unit |- _ => destruct u end.
  match goal with Hz : exec_map_err _ _ = _ |- _ =>
    apply exec_map_err_ok in Hz;
    apply (ensure_zero_range_ok _ _ bs) in Hz as [_ Hzero];
      [|done|unfold BLOCK_LEN in *; lia..] end.
  simplify_eq.
  exists (place_member m0 (mkrange (off + BLOCK_LEN) (size m0))
    (mkrange (off + BLOCK_LEN + size m0) (padded (size m0) - size m0))).
  split; [split; cbn [size place_member]; [by exists m0|lia|done]|].
  cbn [size place_member]. split_and!; [|lia|lia].
  unfold state_at. f_equal. rewrite length_app. simpl. lia.
Qed.

Lemma ustar_step_return ms off a :
  represents s bs -> 0 <= off -> Z.of_nat (length bs) mod BLOCK_LEN = 0 ->
  ustar_records bs 0 ms off ->
  ustar_step s max_files max_metadata (state_at ms off) = Some (Ok (Return a)) ->
  ustar_archive bs a /\ members a = ms
  /\ BLOCK_LEN * (Z.of_nat (length ms) + 2) <= max_metadata.
Proof.
  intros Hs Ho Hmod Hrec Hst.
  pose proof (represents_u64 _ _ Hs) as Hu. pose proof (represents_len _ _ Hs) as Hlen.
  unfold ustar_step in Hst. ok_steps Hst.
  cbn [st_offset state_at] in *. breflect. checked_adds.
  match goal with Hr : src_read _ _ _ = Ok ?h |- _ =>
    apply (represents_read _ _ Hs) in Hr as [_ ->]; [|done|done] end.
  destruct (is_zero_block _) eqn:Hz; [|unfold ustar_member in Hst; by repeat case_match].
  unfold ustar_finish in Hst. ok_steps Hst. cbn [st_offset st_metadata st_members state_at] in *.
  breflect. checked_adds.
  match goal with Hr : src_read _ _ _ = Ok ?h |- _ =>
    apply (represents_read _ _ Hs) in Hr as [_ ->]; [|unfold BLOCK_LEN; lia|done] end.
  repeat match goal with u : unit |- _ => destruct u end.
  match goal with Hz : ensure_zero_range _ _ _ _ = _ |- _ =>
    apply (ensure_zero_range_ok _ _ bs) in Hz as [_ Hzero];
      [|done|unfold BLOCK_LEN in *; lia..] end.
  simplify_eq. split; [|split; [done|simpl; lia]].
  split; cbn [members member_records len mkrange]; [done|done| | |].
  - rewrite Hlen. f_equal; f_equal; lia.
  - lia.
  - replace (_ - off) with (BLOCK_LEN + (BLOCK_LEN + (src_len s - (off + BLOCK_LEN + BLOCK_LEN)))) by lia.
    rewrite !range_app by (unfold BLOCK_LEN in *; lia). rewrite !all_zero_app.
    unfold is_zero_block in *. by rewrite Hz, Hzero, andb_true_r.
Qed.

(** On a reliable source a record that follows is read, unless a cap stops it. *)
Lemma ustar_step_record ms off m :
  reliable s bs -> BLOCK_LEN * Z.of_nat (length ms) <= off -> ustar_record bs off m ->
  exists detail1 detail2,
  ustar_step s max_files max_metadata (state_at ms off) =
    if max_files <=? Z.of_nat (length ms) then Some (Err (error QuotaFiles detail1))
    else if max_metadata <? BLOCK_LEN * (Z.of_nat (length ms) + 1)
    then Some (Err (error QuotaMetadata detail2))
    else Some (Ok (Continue (state_at (ms ++ [m]) (off + BLOCK_LEN + padded (size m))))).
Proof.
  intros Hs Ho Hm. pose proof (record_size _ _ Hm) as Hsz.
  pose proof (padded_spec (size m) ltac:(lia)) as Hpad.
  pose proof (reliable_represents _ _ Hs) as Hr.
  pose proof (represents_u64 _ _ Hr) as Hu. pose proof (represents_len _ _ Hr) as Hlen.
  destruct Hm as [(m0 & Hm & ->) Hf Hp]. cbn [size place_member] in *.
  assert (Hck : forall a b l, a + b <= Z.of_nat (length bs) -> checked_add a b l = Ok (a + b))
    by (intros; apply checked_add_ok; lia).
  exists ("TAR contains more than " +++ fmt_dec max_files +++ " members")%string,
         ("TAR metadata exceeds the " +++ fmt_dec max_metadata +++ "-byte cap")%string.
  unfold ustar_step. cbn [st_offset state_at].
  unfold BLOCK_LEN in *. rewrite Hck by lia. rewrite (proj2 (Z.ltb_ge _ _)) by lia.
  rewrite (reliable_read _ _ Hs) by lia.
  unfold is_zero_block. rewrite (parse_header_nonzero _ _ _ Hm : all_zero _ = false).
  unfold ustar_member. cbn [st_offset st_metadata st_members state_at]. rewrite Hm.
  destruct (Z.leb_spec max_files (Z.of_nat (length ms))); [done|].
  unfold BLOCK_LEN. rewrite Hck by lia.
  replace (512 * Z.of_nat (length ms) + 512) with (512 * (Z.of_nat (length ms) + 1)) by lia.
  destruct (Z.ltb_spec max_metadata (512 * (Z.of_nat (length ms) + 1))); [done|].
  rewrite Hck by lia. rewrite (proj2 (round_up_block_ok (size m0) (padded (size m0)) Hsz)) by lia.
  rewrite Hck by lia. rewrite (proj2 (Z.ltb_ge _ _)) by lia.
  rewrite (ensure_zero_range_reliable _ _ bs) by (done || lia). rewrite Hp. cbn.
  unfold state_at. do 4 f_equal. rewrite length_app. simpl. unfold BLOCK_LEN. lia.
Qed.

(** Likewise the end of the archive. *)
Lemma ustar_step_end a :
  reliable s bs -> ustar_archive bs a ->
  exists detail,
  ustar_step s max_files max_metadata (state_at (members a) (len (member_records a))) =
    if max_metadata <? metadata_bytes a then Some (Err (error QuotaMetadata detail))
    else Some (Ok (Return a)).
Proof.
  intros Hs [Hmod Hrec Hlay Hf Hz].
  pose proof (records_bound 0 _ _ ltac:(lia) Hrec) as [Hb _].
  set (stop := len (member_records a)) in *. cbv zeta in Hlay, Hz.
  pose proof (reliable_represents _ _ Hs) as Hr.
  pose proof (represents_u64 _ _ Hr) as Hu. pose proof (represents_len _ _ Hr) as Hlen.
  assert (Hck : forall a b l, a + b <= Z.of_nat (length bs) -> checked_add a b l = Ok (a + b))
    by (intros; apply checked_add_ok; lia).
  replace (Z.of_nat (length bs) - stop) with
    (BLOCK_LEN + (BLOCK_LEN + (src_len s - (stop + BLOCK_LEN + BLOCK_LEN)))) in Hz by lia.
  rewrite !range_app, !all_zero_app in Hz by (unfold BLOCK_LEN in *; lia).
  apply andb_true_iff in Hz as [Hz1 Hz]. apply andb_true_iff in Hz as [Hz2 Hz3].
  exists ("TAR metadata is " +++ fmt_dec (metadata_bytes a) +++ " bytes; cap is "
         +++ fmt_dec max_metadata)%string.
  unfold ustar_step. cbn [st_offset state_at].
  unfold BLOCK_LEN in *. rewrite Hck by lia. rewrite (proj2 (Z.ltb_ge _ _)) by lia.
  rewrite (reliable_read _ _ Hs) by lia.
  unfold is_zero_block. rewrite Hz1.
  unfold ustar_finish. cbn [st_offset st_metadata st_members state_at]. unfold BLOCK_LEN.
  rewrite Hck by lia. rewrite (proj2 (Z.ltb_ge _ _)) by lia.
  rewrite (reliable_read _ _ Hs) by lia. unfold is_zero_block. rewrite Hz2. cbn [negb].
  rewrite Hck by lia.
  rewrite (ensure_zero_range_reliable _ _ bs) by (done || lia). rewrite Hz3.
  assert (metadata_bytes a = 512 * Z.of_nat (length (members a)) + 512 * 2) as Hmeta
    by (rewrite Hlay; cbn [metadata_bytes members]; lia).
  rewrite <- Hmeta. case_match; [done|]. do 3 f_equal. symmetry. rewrite Hlay at 1.
  rewrite Hmeta, Hlen. f_equal; try f_equal; lia.
Qed.
End Refinement.

(** ** Whole runs *)

Section Runs.
Context {S} `{Source S} `{!Sha256} (s : S) (bs : list byte).

(** The reader always returns: each iteration consumes at least one block. *)
Lemma parse_ustar_total max_files max_metadata :
  0 <= src_len s -> exists r, parse_ustar_portable_v1 s max_files max_metadata = Some r.
Proof.
  intros Hlen. unfold parse_ustar_portable_v1. case_match; [eauto|].
  apply (run_loop_total _ (fun st => 0 <= st_offset st <= src_len s)
    (fun st => Z.to_nat ((src_len s - st_offset st) / BLOCK_LEN))).
  - intros st Hst Hn. unfold ustar_step, ustar_finish, ustar_member in Hn.
    repeat (case_match; try discriminate); breflect; checked_adds;
      match goal with
      | Hz : ensure_zero_range ?s ?o ?n ?l = None |- _ =>
          destruct (ensure_zero_range_total s l o n) as [? ?]; [lia|congruence]
      | Hz : exec_map_err _ (ensure_zero_range ?s ?o ?n ?l) = None |- _ =>
          destruct (ensure_zero_range_total s l o n) as [x Hx]; [|by rewrite Hx in Hz]
      end.
    match goal with Hh : parse_header _ _ = Ok _ |- _ =>
      pose proof (ustar_header_size _ _ _ Hh) as Hsz end.
    match goal with Hr : round_up_block _ = Ok _ |- _ =>
      apply round_up_block_ok in Hr as [-> Hr]; [|done] end.
    pose proof (padded_spec _ (proj1 Hsz)). lia.
  - intros st st' Hst Hs. unfold ustar_step, ustar_finish in Hs. ok_steps Hs.
    case_match; [by repeat case_match|]. unfold ustar_member in Hs. ok_steps Hs.
    simplify_eq. cbn [st_offset]. breflect. checked_adds.
    match goal with Hh : parse_header _ _ = Ok _ |- _ =>
      pose proof (ustar_header_size _ _ _ Hh) as Hsz end.
    match goal with Hr : round_up_block _ = Ok _ |- _ =>
      apply round_up_block_ok in Hr as [-> Hr]; [|done] end.
    pose proof (padded_spec _ (proj1 Hsz)). unfold BLOCK_LEN in *. split; [lia|].
    Z.div_mod_to_equations. lia.
  - simpl. lia.
  - simpl. unfold BLOCK_LEN. rewrite Z.sub_0_r. lia.
Qed.

(** Whatever the reader accepts is in the grammar and within the caps, even
    when the source fails some of its reads. *)
Lemma parse_ustar_sound max_files max_metadata a :
  represents s bs ->
  parse_ustar_portable_v1 s max_files max_metadata = Some (Ok a) ->
  ustar_archive bs a /\ Z.of_nat (length (members a)) <= Z.max 0 max_files
  /\ metadata_bytes a <= max_metadata.
Proof.
  intros Hs Hp. pose proof (represents_len _ _ Hs) as Hlen.
  unfold parse_ustar_portable_v1 in Hp. ok_steps Hp. breflect. rewrite Hlen in *.
  set (I := fun st => exists ms off, st = state_at ms off /\ 0 <= off
    /\ ustar_records bs 0 ms off /\ Z.of_nat (length ms) <= Z.max 0 max_files).
  revert Hp. apply (run_loop_invariant _ I (fun a => ustar_archive bs a /\
    Z.of_nat (length (members a)) <= Z.max 0 max_files /\ metadata_bytes a <= max_metadata)).
  - intros st st' (ms & off & -> & Ho & Hrec & Hn) Hst.
    apply (ustar_step_continue s bs) in Hst as (m & Hm & -> & Hn1 & Hmeta); [|done..].
    pose proof (record_size bs _ _ Hm) as Hsz. pose proof (padded_spec (size m) ltac:(lia)).
    eexists _, _. split; [done|]. unfold BLOCK_LEN. split_and!; [lia|by constructor|].
    rewrite length_app. simpl. lia.
  - intros st r (ms & off & -> & Ho & Hrec & Hn) Hst.
    apply (ustar_step_return s bs) in Hst as (Ha & <- & Hmeta); [|done..].
    split_and!; [done|done|]. rewrite (archive_layout _ _ Ha). simpl. lia.
  - exists [], 0. split_and!; [done|done|constructor|simpl; lia].
Qed.

(** The run over an archive of the grammar, caps included: the first cap
    reached decides the error. *)
Lemma ustar_run_records max_files max_metadata ms off :
  reliable s bs -> ustar_records bs 0 ms off ->
  0 <= max_files -> 0 <= max_metadata ->
  (Z.of_nat (length ms) <= max_files /\ BLOCK_LEN * Z.of_nat (length ms) <= max_metadata
   /\ rtc (loop_step (ustar_step s max_files max_metadata)) ustar_init (state_at ms off))
  \/ exists code detail ms' off',
    rtc (loop_step (ustar_step s max_files max_metadata)) ustar_init (state_at ms' off')
    /\ ustar_step s max_files max_metadata (state_at ms' off') = Some (Err (error code detail))
    /\ code = (if (max_files <? Z.of_nat (length ms)) && (BLOCK_LEN * max_files <=? max_metadata)
               then QuotaFiles else QuotaMetadata)
    /\ (max_files < Z.of_nat (length ms)
        \/ max_metadata < BLOCK_LEN * Z.of_nat (length ms)).
Proof.
  intros Hs Hrec Hf Hm. remember 0 as o eqn:Ho in Hrec.
  induction Hrec as [off|off ms mid m Hrec IH Hrm]; subst.
  - left. split_and!; [simpl; lia|simpl; lia|constructor].
  - rewrite length_app. cbn [length]. unfold BLOCK_LEN in *.
    destruct (IH eq_refl) as [(Hn & Hd & Hrun)|(code & detail & ms' & off' & Hrun & He & Hc & Hor)].
    + pose proof (records_bound bs 0 _ _ ltac:(lia) Hrec) as [Hb _].
      destruct (ustar_step_record s bs max_files max_metadata ms mid m Hs ltac:(unfold BLOCK_LEN in *; lia) Hrm)
        as (d1 & d2 & Hstep). unfold BLOCK_LEN in *.
      destruct (Z.leb_spec max_files (Z.of_nat (length ms))).
      * right. eexists _, _, _, _. split_and!; [done|done| |lia].
        rewrite (proj2 (Z.ltb_lt _ _)), (proj2 (Z.leb_le _ _)) by lia. done.
      * destruct (Z.ltb_spec max_metadata (512 * (Z.of_nat (length ms) + 1))).
        -- right. eexists _, _, _, _. split_and!; [done|done| |lia].
           rewrite (proj2 (Z.ltb_ge _ _)) by lia. done.
        -- left. split_and!; [lia|lia|]. by eapply rtc_r.
    + right. exists code, detail, ms', off'. split_and!; [done|done| |lia].
      rewrite Hc. f_equal. destruct Hor as [Hor|Hor].
      * rewrite !(proj2 (Z.ltb_lt _ _)) by lia. done.
      * destruct (Z.leb_spec (512 * max_files) max_metadata); [|by rewrite !andb_false_r].
        rewrite !(proj2 (Z.ltb_lt _ _)) by lia. done.
Qed.
End Runs.

(** ** Consequences for the grammar itself *)

Section GrammarFacts.
Context `{!Sha256} (bs : list byte).

Lemma records_nonneg off ms stop : ustar_records bs off ms stop -> off <= stop.
Proof.
  intros Hr. induction Hr as [off|off ms mid m Hr IH Hm]; [lia|].
  pose proof (record_size bs _ _ Hm). pose proof (padded_spec (size m) ltac:(lia)).
  unfold BLOCK_LEN. lia.
Qed.

Lemma records_cons_inv off m ms stop :
  ustar_records bs off (m :: ms) stop ->
  ustar_record bs off m /\ ustar_records bs (off + BLOCK_LEN + padded (size m)) ms stop.
Proof.
  intros Hr. remember (m :: ms) as l eqn:Hl. revert m ms Hl.
  induction Hr as [off|off l mid m1 Hr IH Hm1]; intros m ms Hl; [done|].
  destruct l as [|m' l]; simplify_list_eq.
  - inversion Hr; subst; [|by destruct ms]. split; [done|constructor].
  - destruct (IH m l eq_refl) as [Hm Hrest]. split; [done|by constructor].
Qed.

Definition block_is_zero (off : Z) : Prop := is_zero_block (range off BLOCK_LEN bs) = true.

Lemma record_not_zero off m : ustar_record bs off m -> ~ block_is_zero off.
Proof.
  intros [(m0 & Hm & _) _ _] Hz. unfold block_is_zero in Hz.
  rewrite (parse_header_nonzero _ _ _ Hm) in Hz. done.
Qed.

(** Two records at one offset are the same record. *)
Lemma record_det off m1 m2 : ustar_record bs off m1 -> ustar_record bs off m2 -> m1 = m2.
Proof. intros [(m0 & Hm & ->) _ _] [(m0' & Hm' & ->) _ _]. congruence. Qed.

(** Of two chains of records from one offset, the one that ends at a zero
    block contains the other. *)
Lemma records_prefix off ms1 stop1 ms2 stop2 :
  ustar_records bs off ms1 stop1 -> block_is_zero stop1 ->
  ustar_records bs off ms2 stop2 ->
  exists ms', ms1 = ms2 ++ ms' /\ ustar_records bs stop2 ms' stop1.
Proof.
  intros H1 Hz H2. induction H2 as [off|off ms2 mid m H2 IH Hm].
  - by exists ms1.
  - destruct (IH H1) as (ms' & -> & Hr). destruct ms' as [|m' ms'].
    + exfalso. inversion Hr; subst; [by eapply record_not_zero|by destruct ms].
    + apply records_cons_inv in Hr as [Hm' Hr].
      rewrite (record_det _ _ _ Hm Hm'). exists ms'. by rewrite <- app_assoc.
Qed.

Lemma archive_terminator_zero a :
  ustar_archive bs a -> block_is_zero (len (member_records a)).
Proof.
  intros [_ Hr _ Hf Hz]. apply records_bound in Hr as [Hb _]; [|lia].
  unfold block_is_zero, is_zero_block. cbv zeta in Hz. unfold BLOCK_LEN in *.
  set (stop := len (member_records a)) in *.
  replace (Z.of_nat (length bs) - stop) with (512 + (Z.of_nat (length bs) - stop - 512)) in Hz by lia.
  rewrite range_app, all_zero_app in Hz by lia. by apply andb_true_iff in Hz as [Hz _].
Qed.

(** The bytes determine the archive. *)
Lemma ustar_archive_det a1 a2 : ustar_archive bs a1 -> ustar_archive bs a2 -> a1 = a2.
Proof.
  intros Ha1 Ha2. pose proof (archive_terminator_zero _ Ha1) as Hz1.
  pose proof (archive_terminator_zero _ Ha2) as Hz2.
  destruct (records_prefix _ _ _ _ _ (archive_records _ _ Ha1) Hz1 (archive_records _ _ Ha2))
    as (ms' & Hms & Hr).
  destruct ms' as [|m ms'].
  - rewrite app_nil_r in Hms. assert (Hstop : len (member_records a2) = len (member_records a1))
      by (inversion Hr; [done|by destruct ms]).
    rewrite (archive_layout _ _ Ha1), (archive_layout _ _ Ha2). cbv zeta.
    by rewrite Hms, Hstop.
  - apply records_cons_inv in Hr as [Hm _]. by apply record_not_zero in Hm.
Qed.

(** The member records of an archive, in order, with the two tail ranges. *)
Definition archive_ranges (a : TarArchive) : list ByteRange :=
  flat_map (fun m => [header m; payload m; padding m]) (members a)
  ++ [terminator a; trailing_zeros a].

Lemma records_adjacent off ms stop :
  ustar_records bs off ms stop ->
  adjacent off (flat_map (fun m => [header m; payload m; padding m]) ms) stop.
Proof.
  intros Hr. induction Hr as [off|off ms mid m Hr IH Hm]; [done|].
  rewrite flat_map_app. apply adjacent_app. exists mid. split; [done|].
  pose proof (record_size bs _ _ Hm). pose proof (padded_spec (size m) ltac:(lia)).
  destruct Hm as [(m0 & Hm & ->) _ _]. cbn [size place_member] in *.
  assert (header m0 = mkrange mid BLOCK_LEN) as Hh.
  { unfold parse_header in Hm. ok_steps Hm. by simplify_eq. }
  simpl. rewrite Hh. simpl. unfold BLOCK_LEN. split_and!; lia.
Qed.

(** The ranges of an archive are laid end to end over the whole source. *)
Lemma archive_adjacent a :
  ustar_archive bs a -> adjacent 0 (archive_ranges a) (Z.of_nat (length bs)).
Proof.
  intros [Hmod Hr Hl Hf _]. apply adjacent_app. exists (len (member_records a)).
  split; [by apply records_adjacent|]. cbv zeta in Hl. rewrite Hl. simpl.
  unfold BLOCK_LEN in *. split_and!; lia.
Qed.
End GrammarFacts.

(** A record that ends before a truncation point survives it. *)
Lemma records_take `{!Sha256} bs k off ms stop :
  0 <= off -> ustar_records (take k bs) off ms stop -> ustar_records bs off ms stop.
Proof.
  intros Ho Hr. induction Hr as [off|off ms mid m Hr IH Hm]; [constructor|].
  specialize (IH Ho). pose proof (records_nonneg _ _ _ _ IH).
  pose proof (record_size _ _ _ Hm). pose proof (padded_spec (size m) ltac:(lia)).
  constructor; [done|]. destruct Hm as [(m0 & Hm & ->) Hf Hp].
  cbn [size place_member] in *. rewrite length_take in Hf. unfold BLOCK_LEN in *.
  rewrite range_take in Hm, Hp by lia. split; cbn [size place_member].
  - by exists m0.
  - unfold BLOCK_LEN. lia.
  - done.
Qed.

(** ** Theorems *)

Section Theorems.
Context {S} `{Source S} `{!Sha256} (s : S) (bs : list byte).

(** The end of a run over an archive of the grammar. *)
Lemma ustar_run_archive max_files max_metadata a :
  reliable s bs -> ustar_archive bs a -> 0 <= max_files -> 0 <= max_metadata ->
  exists detail,
  parse_ustar_portable_v1 s max_files max_metadata = Some
    (if (max_files <? Z.of_nat (length (members a))) && (BLOCK_LEN * max_files <=? max_metadata)
     then Err (error QuotaFiles detail)
     else if max_metadata <? metadata_bytes a then Err (error QuotaMetadata detail)
     else Ok a).
Proof.
  intros Hs Ha Hf Hm. pose proof (reliable_represents _ _ Hs) as Hr.
  pose proof (represents_len _ _ Hr) as Hlen.
  assert (Hpos : 0 <= src_len s) by lia.
  destruct (parse_ustar_total s max_files max_metadata Hpos) as [r Hrun].
  assert (Hmeta : metadata_bytes a = BLOCK_LEN * (Z.of_nat (length (members a)) + 2))
    by (rewrite (archive_layout _ _ Ha); done).
  pose proof (archive_fits _ _ Ha) as Hfit.
  pose proof (records_bound bs 0 _ _ ltac:(lia) (archive_records _ _ Ha)) as [Hb _].
  assert (Hguard : (src_len s <? BLOCK_LEN * 2) || negb (src_len s mod BLOCK_LEN =? 0) = false).
  { rewrite Hlen, (archive_blocks _ _ Ha). apply orb_false_iff.
    split; [apply Z.ltb_ge; unfold BLOCK_LEN in *; lia|done]. }
  unfold parse_ustar_portable_v1 in *. rewrite Hguard in *. clear Hguard.
  destruct (ustar_run_records s bs max_files max_metadata _ _ Hs (archive_records _ _ Ha) Hf Hm)
    as [(Hn & Hd & Hsteps)|(code & detail & ms' & off' & Hsteps & He & Hc & Hor)];
    unfold BLOCK_LEN in *.
  - destruct (ustar_step_end s bs max_files max_metadata a Hs Ha) as [detail Hend].
    exists detail. rewrite (proj2 (Z.ltb_ge max_files _)) by lia. cbn [andb].
    eapply run_loop_reaches; [eauto|exact Hsteps|].
    destruct (Z.ltb_spec max_metadata (metadata_bytes a)); exact Hend.
  - exists detail.
    assert (Hres : run_loop (ustar_step s max_files max_metadata)
      (2 + Z.to_nat (src_len s / 512)) ustar_init = Some (Err (error code detail)))
      by (eapply run_loop_reaches; [eauto|exact Hsteps|exact He]).
    rewrite Hres, Hc. destruct (_ && _) eqn:Hb2; [done|].
    rewrite (proj2 (Z.ltb_lt _ _)); [done|].
    apply andb_false_iff in Hb2 as [?%Z.ltb_ge|?%Z.leb_gt]; lia.
Qed.

(** C1: On a source that returns its bytes without failing, the reader always
    returns, and it accepts exactly the archives of the grammar that fit the
    caps: soundness, completeness and termination in one statement. *)
Theorem parse_ustar_accepts_iff max_files max_metadata :
  reliable s bs -> 0 <= max_files -> 0 <= max_metadata ->
  (exists r, parse_ustar_portable_v1 s max_files max_metadata = Some r) /\
  forall a,
  parse_ustar_portable_v1 s max_files max_metadata = Some (Ok a) <->
  ustar_archive bs a /\ Z.of_nat (length (members a)) <= max_files
  /\ metadata_bytes a <= max_metadata.
Proof.
  intros Hs Hf Hm. pose proof (reliable_represents _ _ Hs) as Hr. split.
  - apply parse_ustar_total. rewrite (represents_len _ _ Hr). lia.
  - intros a. split.
    + intros (Ha & Hn & Hmm)%(parse_ustar_sound s bs); [|done]. split_and!; [done|lia|done].
    + intros (Ha & Hn & Hmm).
      destruct (ustar_run_archive max_files max_metadata a Hs Ha Hf Hm) as [d ->].
      rewrite (proj2 (Z.ltb_ge _ _)), (proj2 (Z.ltb_ge _ _)) by lia. done.
Qed.

(** A source that fails some reads can make the reader refuse but never
    accept something else: what is accepted is the archive the bytes contain,
    within the caps, and the reader returns whatever the reads did. *)
Theorem parse_ustar_faulty_source max_files max_metadata :
  represents s bs -> 0 <= max_files ->
  (exists r, parse_ustar_portable_v1 s max_files max_metadata = Some r) /\
  forall a, parse_ustar_portable_v1 s max_files max_metadata = Some (Ok a) ->
  ustar_archive bs a /\ (forall a', ustar_archive bs a' -> a' = a)
  /\ Z.of_nat (length (members a)) <= max_files /\ metadata_bytes a <= max_metadata.
Proof.
  intros Hr Hf. split.
  - apply parse_ustar_total. rewrite (represents_len _ _ Hr). lia.
  - intros a (Ha & Hn & Hmm)%(parse_ustar_sound s bs); [|done].
    split_and!; [done| |lia|done]. intros a' Ha'. by eapply ustar_archive_det.
Qed.

(** The caps are exact: for an archive of the grammar, one file or one byte
    too few is refused, and which cap is reported is decided by which is
    reached first as the records are read. *)
Theorem parse_ustar_caps_exact max_files max_metadata a :
  reliable s bs -> ustar_archive bs a -> 0 <= max_files -> 0 <= max_metadata ->
  exists detail,
  parse_ustar_portable_v1 s max_files max_metadata = Some
    (if (max_files <? Z.of_nat (length (members a))) && (BLOCK_LEN * max_files <=? max_metadata)
     then Err (error QuotaFiles detail)
     else if max_metadata <? metadata_bytes a then Err (error QuotaMetadata detail)
     else Ok a).
Proof. apply ustar_run_archive. Qed.

(** The ranges of an accepted archive (each member's header, payload and
    padding, the terminator and the record padding) tile the source: every
    byte is accounted for exactly once. *)
Theorem ustar_archive_tiles max_files max_metadata a :
  represents s bs -> parse_ustar_portable_v1 s max_files max_metadata = Some (Ok a) ->
  tiles {| start := 0; end_ := src_len s |} (intervals (archive_ranges a)).
Proof.
  intros Hs (Ha & _ & _)%(parse_ustar_sound s bs); [|done].
  rewrite (represents_len _ _ Hs). by apply adjacent_tiles, archive_adjacent.
Qed.

(** No proper prefix that cuts into the terminator or a record is accepted:
    the reader refuses every truncation of an archive before the end of its
    two zero blocks. *)
Theorem parse_ustar_truncated {S'} `{Source S'} (s' : S') k max_files max_metadata a :
  ustar_archive bs a -> represents s' (take k bs) ->
  Z.of_nat k < len (member_records a) + BLOCK_LEN * 2 ->
  exists e, parse_ustar_portable_v1 s' max_files max_metadata = Some (Err e).
Proof.
  intros Ha Hs' Hk.
  destruct (parse_ustar_total s' max_files max_metadata) as [[a'|e] Hr];
    [rewrite (represents_len _ _ Hs'); lia| |eauto]. exfalso.
  apply (parse_ustar_sound s' (take k bs)) in Hr as (Ha' & _ & _); [|done].
  pose proof (archive_terminator_zero _ _ Ha') as Hz.
  pose proof (archive_terminator_zero _ _ Ha) as Hz0.
  pose proof (archive_fits _ _ Ha') as Hfit. rewrite length_take in Hfit.
  pose proof (records_bound _ 0 _ _ ltac:(lia) (archive_records _ _ Ha')) as [Hb _].
  assert (Hrec : ustar_records bs 0 (members a') (len (member_records a')))
    by (eapply records_take; [lia|apply (archive_records _ _ Ha')]).
  unfold block_is_zero, BLOCK_LEN in *. rewrite range_take in Hz by lia.
  destruct (records_prefix bs _ _ _ _ _ (archive_records _ _ Ha) Hz0 Hrec) as (ms' & Hms & Hrest).
  destruct ms' as [|m ms'].
  - inversion Hrest as [? E|]; [lia|by destruct ms].
  - apply records_cons_inv in Hrest as [Hm _]. by apply record_not_zero in Hm.
Qed.
End Theorems.

(** ** Corrupted headers *)

Lemma slice_insert lo hi i b (l : list byte) :
  ~ (lo <= i < hi)%nat -> slice lo hi (<[i := b]> l) = slice lo hi l.
Proof.
  intros Hi. unfold slice. destruct (decide (i < lo)%nat).
  - by rewrite drop_insert_lt by lia.
  - rewrite drop_insert_ge by lia. apply take_insert_ge. lia.
Qed.

(** Changing any one byte of an accepted header outside its checksum field
    makes the reader refuse it. *)
Theorem parse_header_corrupted `{!Sha256} hdr off m i b :
  parse_header hdr off = Ok m -> (i < length hdr)%nat -> ~ (148 <= i < 156)%nat ->
  hdr !! i <> Some b -> exists e, parse_header (<[i := b]> hdr) off = Err e.
Proof.
  intros Hp Hi Hout Hb. destruct (parse_header (<[i := b]> hdr) off) as [m'|e] eqn:Hp'; [exfalso|eauto].
  destruct (lookup_lt_is_Some_2 hdr i Hi) as [c Hc].
  unfold parse_header in Hp, Hp'. do 2 ok_step Hp. do 2 ok_step Hp'.
  clear Hp Hp'. repeat match goal with Hk : check_checksum _ = Ok _ |- _ =>
    unfold check_checksum in Hk; ok_steps Hk; simplify_eq; breflect end.
  match goal with Hk : map_err _ (parse_checksum (slice 148 156 (<[i := b]> hdr))) = _ |- _ =>
    rewrite slice_insert in Hk by done end.
  destruct (parse_checksum (slice 148 156 hdr)) as [v|]; [|done]. simpl in *. simplify_eq.
  apply (actual_checksum_insert hdr i b c Hc); [congruence|done|congruence].
Qed.

(** ** Ratio accounting *)

Section Ratio.
Context {S} `{Source S} `{!Sha256} (s : S) (bs : list byte).

Lemma ratio_covering_record off m :
  reliable s bs -> 0 <= off -> ustar_record bs off m ->
  ratio_covering_step s off = Some (Ok (Continue (off + BLOCK_LEN + padded (size m)))).
Proof.
  intros Hs Ho Hm. pose proof (record_size _ _ _ Hm) as Hsz.
  pose proof (padded_spec (size m) ltac:(lia)) as Hpad.
  pose proof (reliable_represents _ _ Hs) as Hr.
  pose proof (represents_u64 _ _ Hr) as Hu. pose proof (represents_len _ _ Hr) as Hlen.
  destruct Hm as [(m0 & Hm & ->) Hf Hp]. cbn [size place_member] in *.
  assert (Hck : forall a b, a + b <= Z.of_nat (length bs) -> u64_checked_add a b = Some (a + b))
    by (intros; apply u64_checked_add_Some; lia).
  pose proof (parse_header_nonzero _ _ _ Hm) as Hnz.
  unfold BLOCK_LEN in *. unfold ratio_covering_step, BLOCK_LEN. rewrite Hck by lia. cbn [ok_or].
  rewrite (proj2 (Z.ltb_ge _ _)) by lia. rewrite (reliable_read _ _ Hs) by lia. cbn [map_err].
  rewrite Hnz. set (hdr := range off 512 bs) in *. unfold parse_header in Hm. ok_steps Hm.
  match goal with Hk : check_checksum _ = Ok _ |- _ => unfold check_checksum in Hk; ok_steps Hk end.
  breflect. unfold bytes_eqb in *. 
  repeat match goal with Hb : bool_decide _ = true |- _ => apply bool_decide_eq_true in Hb end.
  assert (Hmatch : header_checksum_matches hdr = true).
  { unfold header_checksum_matches. destruct (parse_checksum (slice 148 156 hdr)); [|done].
    simpl in *. simplify_eq. by apply Z.eqb_eq. }
  rewrite Hmatch. cbn [negb].
  rewrite (slice_join 257 263 265) by lia.
  match goal with Hb : slice 257 263 hdr = _ |- _ => rewrite Hb end.
  match goal with Hb : slice 263 265 hdr = _ |- _ => rewrite Hb end.
  rewrite (bool_decide_eq_true_2 (_ = _)) by done. cbn [negb andb].
  cbn [map_err].
  simplify_eq. cbn [size] in *.
  rewrite (proj2 (round_up_block_ok _ _ Hsz)) by (split; [done|lia]). cbn [map_err].
  rewrite !Hck by lia. cbn [ok_or]. rewrite (proj2 (Z.ltb_ge _ _)), (proj2 (Z.leb_gt _ _)) by lia.
  cbn [orb]. rewrite (ensure_zero_range_reliable _ _ bs) by (done || lia). by rewrite Hp.
Qed.

Lemma ratio_covering_end a :
  reliable s bs -> ustar_archive bs a ->
  ratio_covering_step s (len (member_records a)) =
    Some (Ok (Return {| rc_terminator := terminator a; rc_trailing_zeros := trailing_zeros a |})).
Proof.
  intros Hs [Hmod Hrec Hlay Hf Hz].
  pose proof (records_bound bs 0 _ _ ltac:(lia) Hrec) as [Hb _].
  set (stop := len (member_records a)) in *. cbv zeta in Hlay, Hz.
  pose proof (reliable_represents _ _ Hs) as Hr.
  pose proof (represents_u64 _ _ Hr) as Hu. pose proof (represents_len _ _ Hr) as Hlen.
  assert (Hck : forall a b, a + b <= Z.of_nat (length bs) -> u64_checked_add a b = Some (a + b))
    by (intros; apply u64_checked_add_Some; lia).
  replace (Z.of_nat (length bs) - stop) with
    (BLOCK_LEN + (BLOCK_LEN + (src_len s - (stop + BLOCK_LEN + BLOCK_LEN)))) in Hz by lia.
  rewrite !range_app, !all_zero_app in Hz by (unfold BLOCK_LEN in *; lia).
  apply andb_true_iff in Hz as [Hz1 Hz]. apply andb_true_iff in Hz as [Hz2 Hz3].
  unfold BLOCK_LEN in *. unfold ratio_covering_step, is_zero_block, BLOCK_LEN.
  rewrite Hck by lia. cbn [ok_or].
  rewrite (proj2 (Z.ltb_ge _ _)) by lia. rewrite (reliable_read _ _ Hs) by lia. cbn [map_err].
  rewrite Hz1, Hck by lia. cbn [ok_or]. rewrite (proj2 (Z.ltb_ge _ _)) by lia.
  rewrite (reliable_read _ _ Hs) by lia. cbn [map_err]. rewrite Hz2. cbn [negb].
  rewrite (ensure_zero_range_reliable _ _ bs) by (done || lia). rewrite Hz3. cbn [exec_map_err].
  rewrite Hlay. simpl. do 4 f_equal. all: try lia. unfold mkrange. f_equal; lia.
Qed.
End Ratio.

(** The ratio scan agrees with the reader: on every archive of the grammar it
    finds the reader's terminator and trailing range, so the numerator charged
    after a rejection by a cap is the one an acceptance would have charged. *)
Theorem verified_ratio_covering_agrees {S} `{Source S} `{!Sha256} (s : S) bs a :
  reliable s bs -> ustar_archive bs a ->
  verified_ratio_covering s =
    Some (Some {| rc_terminator := terminator a; rc_trailing_zeros := trailing_zeros a |}).
Proof.
  intros Hs Ha. pose proof (reliable_represents _ _ Hs) as Hr.
  pose proof (represents_len _ _ Hr) as Hlen. pose proof (archive_fits _ _ Ha) as Hfit.
  pose proof (records_bound bs 0 _ _ ltac:(lia) (archive_records _ _ Ha)) as [Hb _].
  assert (Hguard : (src_len s <? BLOCK_LEN * 2) || negb (src_len s mod BLOCK_LEN =? 0) = false).
  { rewrite Hlen, (archive_blocks _ _ Ha). apply orb_false_iff.
    split; [apply Z.ltb_ge; unfold BLOCK_LEN in *; lia|done]. }
  unfold verified_ratio_covering. rewrite Hguard.
  assert (Hsteps : forall ms off, ustar_records bs 0 ms off ->
    exists n, (n <= Z.to_nat (off / BLOCK_LEN))%nat /\
    forall k, run_loop (ratio_covering_step s) (n + k) 0 = run_loop (ratio_covering_step s) k off).
  { intros ms off Hrec. remember 0 as o eqn:Ho in Hrec.
    induction Hrec as [off|off ms mid m Hrec IH Hm].
    - subst. exists 0%nat. split; [lia|done].
    - destruct (IH Ho) as (n & Hn & Hk). subst off. pose proof (records_nonneg _ _ _ _ Hrec) as Hmid.
      pose proof (record_size _ _ _ Hm). pose proof (padded_spec (size m) ltac:(lia)).
      exists (Datatypes.S n). split.
      + unfold BLOCK_LEN in *. Z.div_mod_to_equations. lia.
      + intros k. replace (Datatypes.S n + k)%nat with (n + Datatypes.S k)%nat by lia.
        rewrite Hk, run_loop_unfold, (ratio_covering_record s bs mid m) by done. done. }
  destruct (Hsteps _ _ (archive_records _ _ Ha)) as (n & Hn & Hk). unfold BLOCK_LEN in *.
  set (stop := len (member_records a)) in *.
  assert (stop / 512 <= src_len s / 512) by (apply Z.div_le_mono; lia).
  replace (2 + Z.to_nat (src_len s / 512))%nat
    with (n + Datatypes.S (1 + Z.to_nat (src_len s / 512) - n))%nat by lia.
  pose proof (ratio_covering_end s bs a Hs Ha) as Hend. fold stop in Hend.
  by rewrite Hk, run_loop_unfold, Hend.
Qed.

(** ** Witnesses: the repository's canonical archive *)

Definition canonical_snapshot : SourceSnapshot :=
  @borrowed null_sha256 None canonical_fuzz_archive.
Definition canonical_archive : TarArchive :=
  match @parse_ustar_portable_v1 _ _ null_sha256 canonical_snapshot 1 1536 with
  | Some (Ok a) => a
  | _ => {| members := []; member_records := mkrange 0 0; terminator := mkrange 0 0;
            trailing_zeros := mkrange 0 0; metadata_bytes := 0 |}
  end.

Lemma canonical_parsed :
  @parse_ustar_portable_v1 _ _ null_sha256 canonical_snapshot 1 1536 = Some (Ok canonical_archive).
Proof. vm_compute. reflexivity. Qed.

Lemma canonical_reliable : reliable canonical_snapshot canonical_fuzz_archive.
Proof. apply borrowed_reliable. rewrite canonical_length. vm_compute. discriminate. Qed.

Lemma canonical_in_grammar : @ustar_archive null_sha256 canonical_fuzz_archive canonical_archive.
Proof.
  eapply (@parse_ustar_sound _ _ null_sha256); [|exact canonical_parsed].
  apply reliable_represents, canonical_reliable.
Qed.

Lemma parse_ustar_accepts_iff_witness :
  @ustar_archive null_sha256 canonical_fuzz_archive canonical_archive
  /\ @parse_ustar_portable_v1 _ _ null_sha256 canonical_snapshot 0 1536 <> Some (Ok canonical_archive).
Proof.
  split.
  - apply (@parse_ustar_accepts_iff _ _ null_sha256 canonical_snapshot canonical_fuzz_archive 1 1536);
      [exact canonical_reliable|lia|lia|exact canonical_parsed].
  - intros Hp.
    apply (@parse_ustar_accepts_iff _ _ null_sha256 canonical_snapshot canonical_fuzz_archive 0 1536)
      in Hp as (_ & Hn & _); [|exact canonical_reliable|lia|lia].
    vm_compute in Hn. by apply Hn.
Defined.

Lemma parse_ustar_faulty_source_witness :
  @ustar_archive null_sha256 canonical_fuzz_archive canonical_archive
  /\ Z.of_nat (length (members canonical_archive)) <= 1.
Proof.
  destruct (@parse_ustar_faulty_source _ _ null_sha256 canonical_snapshot canonical_fuzz_archive
    1 1536) as [_ H]; [apply reliable_represents, canonical_reliable|lia|].
  destruct (H _ canonical_parsed) as (H1 & _ & H2 & _). split; [exact H1|exact H2].
Defined.

Lemma parse_ustar_caps_exact_witness :
  exists detail,
  @parse_ustar_portable_v1 _ _ null_sha256 canonical_snapshot 0 1536
  = Some (Err (error QuotaFiles detail)).
Proof.
  destruct (@parse_ustar_caps_exact _ _ null_sha256 canonical_snapshot canonical_fuzz_archive
    0 1536 canonical_archive) as [detail H];
    [exact canonical_reliable|exact canonical_in_grammar|lia|lia|].
  exists detail. rewrite H. reflexivity.
Defined.

Lemma ustar_archive_tiles_witness :
  tiles {| start := 0; end_ := src_len canonical_snapshot |}
    (intervals (archive_ranges canonical_archive))
  /\ src_len canonical_snapshot = 2048.
Proof.
  split; [|vm_compute; reflexivity].
  apply (@ustar_archive_tiles _ _ null_sha256 canonical_snapshot canonical_fuzz_archive 1 1536);
    [apply reliable_represents, canonical_reliable|exact canonical_parsed].
Defined.

Lemma parse_ustar_truncated_witness :
  exists e, @parse_ustar_portable_v1 _ _ null_sha256
    (@borrowed null_sha256 None (take 1536 canonical_fuzz_archive)) 1 1536 = Some (Err e).
Proof.
  apply (@parse_ustar_truncated null_sha256 canonical_fuzz_archive SourceSnapshot _ _ 1536 1 1536
    canonical_archive); [exact canonical_in_grammar| |vm_compute; reflexivity].
  apply reliable_represents, borrowed_reliable. vm_compute. discriminate.
Defined.

Lemma parse_header_corrupted_witness :
  exists e, @parse_header null_sha256 (<[0%nat := x46]> (take 512 canonical_fuzz_archive)) 0 = Err e.
Proof.
  eapply (@parse_header_corrupted null_sha256 (take 512 canonical_fuzz_archive) 0);
    [vm_compute; reflexivity|vm_compute; lia|lia|vm_compute; discriminate].
Defined.

Lemma verified_ratio_covering_agrees_witness :
  @verified_ratio_covering _ _ canonical_snapshot =
    Some (Some {| rc_terminator := mkrange 1024 1024; rc_trailing_zeros := mkrange 2048 0 |}).
Proof.
  rewrite (@verified_ratio_covering_agrees _ _ null_sha256 canonical_snapshot
    canonical_fuzz_archive canonical_archive canonical_reliable canonical_in_grammar).
  vm_compute. reflexivity.
Defined.
