(* ===== verification/TarGnu.v ===== *)
(** * The old-GNU long-name reader ([tar_gnu.rs])

    Regular files, directories, and [L] carriers whose payload names exactly
    one following member.  The field functions the source repeats from
    [tar.rs] are named again here; their text is the same. *)

From S2P Require Import Prelude Utf8 Findings Snapshot TarFields Tar.
Local Open Scope Z_scope.

Definition MAX_CARRIERS : Z := 1024.
Definition MAX_EFFECTIVE_PATH_BYTES : Z := 8191.
Definition MAX_CARRIER_PAYLOAD_BYTES : Z := MAX_EFFECTIVE_PATH_BYTES + 1.

Record GnuLongNameCarrier : Type := {
  c_raw_name : list byte;
  c_path_bytes : list byte;
  c_header_checksum : Z;
  c_header_sha256 : str;
  c_payload_sha256 : str;
  c_mode : Z;
  c_mtime : Z;
  c_header : ByteRange;
  c_payload : ByteRange;
  c_path : ByteRange;
  c_padding : ByteRange
}.

Record GnuLongNameMember : Type := {
  g_raw_name : list byte;
  g_name : str;
  g_size : Z;
  g_mode : Z;
  g_mtime : Z;
  g_header_checksum : Z;
  g_header_sha256 : str;
  g_header : ByteRange;
  g_payload : ByteRange;
  g_padding : ByteRange;
  g_is_dir : bool;
  g_carrier_index : option Z
}.

Record GnuLongNameArchive : Type := {
  g_members : list GnuLongNameMember;
  g_carriers : list GnuLongNameCarrier;
  g_member_records : ByteRange;
  g_terminator : ByteRange;
  g_trailing_zeros : ByteRange;
  g_metadata_bytes : Z
}.

Inductive HeaderKind : Type := File | Directory | LongName.
#[export] Instance HeaderKind_eq_dec : EqDecision HeaderKind.
Proof. solve_decision. Defined.

Record ParsedHeader : Type := {
  p_raw_name : list byte;
  p_size : Z;
  p_mode : Z;
  p_mtime : Z;
  p_header_checksum : Z;
  p_header_sha256 : str;
  p_header : ByteRange;
  p_kind : HeaderKind
}.

Record PendingLongName : Type := { pl_path : str; pl_carrier_index : Z }.

(** The old-GNU magic and version, ["ustar  \0"]. *)
Definition oldgnu_magic : list byte := lit "ustar  " ++ [x00].

Definition gnu_syntax (detail : string) : Finding := error TarGnuLongName detail.
Definition gnu_state (detail : string) : Finding := error TarGnuState detail.

(** The functions [tar_gnu.rs] repeats from [tar.rs]. *)
Definition parse_device_number := TarFields.parse_device_number.
Definition parse_checksum := TarFields.parse_checksum.
Definition parse_octal := TarFields.parse_octal.
Definition parse_octal_digits := TarFields.parse_octal_digits.
Definition parse_text_field (field : list byte) (label : string) : result (list byte) Finding :=
  TarFields.parse_text_field field label false.
Definition validate_owner_text := TarFields.validate_owner_text.
Definition ensure_zero_range {S} `{Source S} := TarFields.ensure_zero_range (S := S).
Definition round_up_block := TarFields.round_up_block.
Definition checked_add := TarFields.checked_add.
Definition is_zero_block := TarFields.is_zero_block.

Definition is_known_unsupported_typeflag (typeflag : byte) : bool :=
  match typeflag with
  | "1" | "2" | "3" | "4" | "6" | "7" | "x" | "g" | "X" | "K"
  | "S" | "D" | "M" | "N" | "V" => true
  | _ => false
  end%byte.

(** The [match header[156]] of [parse_header]. *)
Definition parse_kind (hdr : list byte) : result HeaderKind Finding :=
  let typeflag := at_ hdr 156 in
  match typeflag with
  | "0"%byte | x00 => Ok File
  | "5"%byte => Ok Directory
  | "L"%byte => Ok LongName
  | _ =>
      if is_known_unsupported_typeflag typeflag
      then Err (unsupported_typeflag_finding hdr typeflag)
      else Err (error TarType ("unknown old-GNU typeflag 0x" +++ fmt_hex2 (u8 typeflag)))
  end.

(** [add_metadata]. *)
Definition add_metadata (current amount cap : Z) : result Z Finding :=
  let? total := ok_or (u64_checked_add current amount)
    (error QuotaOverflow "GNU TAR metadata accounting overflowed u64") in
  reject cap <? total
    with error QuotaMetadata
      ("GNU TAR metadata is " +++ fmt_dec total +++ " bytes; cap is " +++ fmt_dec cap) ;;
  Ok total.

(** [validate_effective_path]. *)
Definition validate_effective_path (path : list byte) : result unit Finding :=
  reject (length path =? 0)%nat with error PathEmpty "effective GNU TAR path is empty" ;;
  reject MAX_EFFECTIVE_PATH_BYTES <? Z.of_nat (length path)
    with error PathDepth
      ("effective GNU TAR path is " +++ fmt_dec (Z.of_nat (length path))
         +++ " bytes; profile cap is 8191") ;;
  reject existsb is_zero_byte path
    with error PathNul "effective GNU TAR path contains NUL" ;;
  Ok ().

(** [decode_effective_path]. *)
Definition decode_effective_path (raw_name : list byte) : result str Finding :=
  let? _ := validate_effective_path raw_name in
  ok_or (from_utf8 raw_name)
    (error PathUnicode "effective old-GNU member name is not strict UTF-8").

Section Gnu.
Context {S} `{Source S} `{!Sha256} `{!Allocator}.

(** [reserve_one]. *)
Definition reserve_one (label : string) : result unit Finding :=
  if try_reserve label 1 then Ok ()
  else Err (error QuotaOverflow ("could not grow bounded " +++ label)).

(** [parse_carrier_payload]. *)
Definition parse_carrier_payload (payload : list byte) : result (str * list byte) Finding :=
  let n := Z.of_nat (length payload) in
  reject negb ((2 <=? n) && (n <=? MAX_CARRIER_PAYLOAD_BYTES))
         || negb (bool_decide (last payload = Some x00))
    with gnu_syntax
      "GNU long-name payload must contain 1 through 8191 path bytes and one final NUL" ;;
  let path_bytes := take (length payload - 1) payload in
  reject existsb is_zero_byte path_bytes
    with gnu_syntax "GNU long-name payload contains an embedded NUL before its terminator" ;;
  let? _ := validate_effective_path path_bytes in
  let? decoded := ok_or (from_utf8 path_bytes)
    (error PathUnicode "GNU long-name path is not strict UTF-8") in
  reject negb (try_reserve "GNU long-name path" (Z.of_nat (length path_bytes)))
    with error QuotaOverflow "could not allocate the bounded GNU long-name path" ;;
  reject negb (try_reserve "GNU long-name evidence" (Z.of_nat (length path_bytes)))
    with error QuotaOverflow "could not allocate bounded GNU long-name evidence" ;;
  Ok (decoded, path_bytes).

(** [parse_header]. *)
Definition parse_header (hdr : list byte) (off : Z) : result ParsedHeader Finding :=
  reject negb (bytes_eqb (slice 257 265 hdr) oldgnu_magic)
    with error TarDialect "header is not exact old-GNU magic and version" ;;
  let? stored_checksum := check_checksum hdr in
  let? kind := parse_kind hdr in
  reject negb (all_zero (slice 157 257 hdr))
    with error TarType "linkname must be empty in the closed GNU long-name profile" ;;
  reject negb (all_zero (drop 345 hdr))
    with error TarDialect "old-GNU time, sparse, and reserved tail bytes must be zero" ;;
  let? mode := parse_octal (slice 100 108 hdr) "mode" in
  reject 4095 <? mode
    with error TarNumeric "mode exceeds the portable permission-bit range" ;;
  let? _ := parse_octal (slice 108 116 hdr) "uid" in
  let? _ := parse_octal (slice 116 124 hdr) "gid" in
  let? size := parse_octal (slice 124 136 hdr) "size" in
  let? mtime := parse_octal (slice 136 148 hdr) "mtime" in
  reject bool_decide (kind = Directory) && negb (size =? 0)
    with error TarType "directory member declares a nonzero payload size" ;;
  let? devmajor := parse_device_number (slice 329 337 hdr) "devmajor" in
  let? devminor := parse_device_number (slice 337 345 hdr) "devminor" in
  reject negb (devmajor =? 0) || negb (devminor =? 0)
    with error TarType "device numbers must be zero in the closed GNU long-name profile" ;;
  let? _ := validate_owner_text (slice 265 297 hdr) "uname" in
  let? _ := validate_owner_text (slice 297 329 hdr) "gname" in
  let? raw_name := parse_text_field (slice 0 100 hdr) "name" in
  Ok {| p_raw_name := raw_name; p_size := size; p_mode := mode; p_mtime := mtime;
        p_header_checksum := stored_checksum; p_header_sha256 := hex_sha256 hdr;
        p_header := mkrange off BLOCK_LEN; p_kind := kind |}.

(** [recognizes_oldgnu]. *)
Definition recognizes_oldgnu (snapshot : S) : bool :=
  if src_len snapshot <? BLOCK_LEN then false
  else
    match src_read snapshot 257 8 with
    | Ok signature => bytes_eqb signature oldgnu_magic
    | Err _ => false
    end.

(** The mutable state of the parser's loop. *)
Record GnuState : Type := {
  gs_members : list GnuLongNameMember;
  gs_carriers : list GnuLongNameCarrier;
  gs_pending : option PendingLongName;
  gs_offset : Z;
  gs_metadata : Z
}.

Definition gnu_init : GnuState :=
  {| gs_members := []; gs_carriers := []; gs_pending := None; gs_offset := 0;
     gs_metadata := 0 |}.

(** The branch of the loop taken on a zero block. *)
Definition gnu_finish (snapshot : S) (max_metadata_bytes : Z) (st : GnuState)
    (header_end : Z) : exec (control GnuState GnuLongNameArchive) Finding :=
  let source_len := src_len snapshot in
  reject! bool_decide (is_Some (gs_pending st))
    with gnu_state "GNU long-name carrier is not followed by an ordinary member" ;;
  let second_offset := header_end in
  let* second_end := checked_add second_offset BLOCK_LEN "terminator end" in
  reject! source_len <? second_end
    with error TarTerminator "archive has only one zero end block" ;;
  let* second := src_read snapshot second_offset BLOCK_LEN in
  reject! negb (is_zero_block second)
    with error TarTerminator
      "a zero header block is not followed by the required second zero block" ;;
  let* metadata := add_metadata (gs_metadata st) (BLOCK_LEN * 2) max_metadata_bytes in
  let! _ := ensure_zero_range snapshot second_end (source_len - second_end) "record padding" in
  Some (Ok (Return
    {| g_members := gs_members st;
       g_carriers := gs_carriers st;
       g_member_records := mkrange 0 (gs_offset st);
       g_terminator := mkrange (gs_offset st) (BLOCK_LEN * 2);
       g_trailing_zeros := mkrange second_end (source_len - second_end);
       g_metadata_bytes := metadata |})).

(** The [HeaderKind::LongName] branch. *)
Definition gnu_carrier (snapshot : S) (max_metadata_bytes : Z) (st : GnuState)
    (header_end : Z) (hdr : ParsedHeader) : exec (control GnuState GnuLongNameArchive) Finding :=
  let source_len := src_len snapshot in
  reject! bool_decide (is_Some (gs_pending st))
    with gnu_state
      "GNU long-name carrier must be followed immediately by an ordinary member" ;;
  reject! MAX_CARRIER_PAYLOAD_BYTES <? p_size hdr
    with error QuotaMetadata
      ("GNU long-name carrier is " +++ fmt_dec (p_size hdr) +++ " bytes; cap is 8192") ;;
  reject! MAX_CARRIERS <=? Z.of_nat (length (gs_carriers st))
    with error QuotaMetadata "GNU TAR contains more than 1024 long-name carriers" ;;
  let* padded_size := round_up_block (p_size hdr) in
  let payload_offset := header_end in
  let* payload_end := checked_add payload_offset (p_size hdr) "carrier payload end" in
  let* record_end := checked_add payload_offset padded_size "carrier record end" in
  reject! source_len <? record_end
    with error TarTruncated
      "declared GNU long-name carrier payload extends beyond the source" ;;
  let* carrier_bytes := checked_add BLOCK_LEN padded_size "carrier metadata bytes" in
  let* metadata := add_metadata (gs_metadata st) carrier_bytes max_metadata_bytes in
  reject! negb (try_reserve "GNU long-name carrier" (p_size hdr))
    with error QuotaMetadata "could not allocate the bounded GNU long-name carrier" ;;
  let* payload := src_read snapshot payload_offset (p_size hdr) in
  let* (path, path_bytes) := parse_carrier_payload payload in
  let padding_len := padded_size - p_size hdr in
  let! _ := ensure_zero_range snapshot payload_end padding_len "GNU carrier padding" in
  let carrier_index := Z.of_nat (length (gs_carriers st)) in
  let* _ := reserve_one "GNU carrier table" in
  Some (Ok (Continue
    {| gs_members := gs_members st;
       gs_carriers := gs_carriers st ++
         [{| c_raw_name := p_raw_name hdr; c_path_bytes := path_bytes;
             c_header_checksum := p_header_checksum hdr;
             c_header_sha256 := p_header_sha256 hdr;
             c_payload_sha256 := hex_sha256 payload;
             c_mode := p_mode hdr; c_mtime := p_mtime hdr; c_header := p_header hdr;
             c_payload := mkrange payload_offset (p_size hdr);
             c_path := mkrange payload_offset (p_size hdr - 1);
             c_padding := mkrange payload_end padding_len |}];
       gs_pending := Some {| pl_path := path; pl_carrier_index := carrier_index |};
       gs_offset := record_end;
       gs_metadata := metadata |})).

(** The [HeaderKind::File | HeaderKind::Directory] branch. *)
Definition gnu_member (snapshot : S) (max_files max_metadata_bytes : Z) (st : GnuState)
    (header_end : Z) (hdr : ParsedHeader) : exec (control GnuState GnuLongNameArchive) Finding :=
  let source_len := src_len snapshot in
  reject! max_files <=? Z.of_nat (length (gs_members st))
    with error QuotaFiles
      ("GNU TAR contains more than " +++ fmt_dec max_files +++ " members") ;;
  let* metadata := add_metadata (gs_metadata st) BLOCK_LEN max_metadata_bytes in
  let* (name, carrier_index) :=
    match gs_pending st with
    | Some state => Ok (pl_path state, Some (pl_carrier_index state))
    | None => let? name := decode_effective_path (p_raw_name hdr) in Ok (name, None)
    end in
  let is_dir := bool_decide (p_kind hdr = Directory) in
  let payload_offset := header_end in
  let* payload_end := checked_add payload_offset (p_size hdr) "payload end" in
  let* padded_size := round_up_block (p_size hdr) in
  let* record_end := checked_add payload_offset padded_size "member record end" in
  reject! source_len <? record_end
    with on (error TarTruncated "declared member payload extends beyond the source") name ;;
  let padding_len := padded_size - p_size hdr in
  let! _ := exec_map_err (fun finding => on finding name)
              (ensure_zero_range snapshot payload_end padding_len "member padding") in
  let* _ := reserve_one "GNU member table" in
  Some (Ok (Continue
    {| gs_members := gs_members st ++
         [{| g_raw_name := p_raw_name hdr; g_name := name; g_size := p_size hdr;
             g_mode := p_mode hdr; g_mtime := p_mtime hdr;
             g_header_checksum := p_header_checksum hdr;
             g_header_sha256 := p_header_sha256 hdr; g_header := p_header hdr;
             g_payload := mkrange payload_offset (p_size hdr);
             g_padding := mkrange payload_end padding_len;
             g_is_dir := is_dir; g_carrier_index := carrier_index |}];
       gs_carriers := gs_carriers st;
       gs_pending := None;
       gs_offset := record_end;
       gs_metadata := metadata |})).

(** One iteration of the parser's [loop]. *)
Definition gnu_step (snapshot : S) (max_files max_metadata_bytes : Z) (st : GnuState) :
    exec (control GnuState GnuLongNameArchive) Finding :=
  let source_len := src_len snapshot in
  let* header_end := checked_add (gs_offset st) BLOCK_LEN "header end" in
  reject! source_len <? header_end
    with error TarTruncated "member header extends beyond the source" ;;
  let* header_bytes := src_read snapshot (gs_offset st) BLOCK_LEN in
  if is_zero_block header_bytes
  then gnu_finish snapshot max_metadata_bytes st header_end
  else
    let* hdr := parse_header header_bytes (gs_offset st) in
    match p_kind hdr with
    | LongName => gnu_carrier snapshot max_metadata_bytes st header_end hdr
    | File | Directory => gnu_member snapshot max_files max_metadata_bytes st header_end hdr
    end.

(** [parse_gnu_longname_portable_v1]; every iteration consumes at least one
    block, so the fuel is the number of blocks. *)
Definition parse_gnu_longname_portable_v1 (snapshot : S) (max_files max_metadata_bytes : Z) :
    exec GnuLongNameArchive Finding :=
  let source_len := src_len snapshot in
  reject! (source_len <? BLOCK_LEN * 2) || negb (source_len mod BLOCK_LEN =? 0)
    with error TarTruncated
      "GNU TAR source must contain at least two complete 512-byte blocks" ;;
  run_loop (gnu_step snapshot max_files max_metadata_bytes)
    (2 + Z.to_nat (source_len / BLOCK_LEN)) gnu_init.
End Gnu.
