(* ===== verification/TarGnuRefine.v ===== *)
(** * The old-GNU reader refines its grammar ([tar_gnu.rs])

    The grammar is a small state machine over records: a carrier sets a
    pending name, the next record must be a member and consumes it. *)

From S2P Require Import Prelude Utf8 Findings Interval Snapshot Layout TarFields Tar TarWrite TarGnu.
Local Open Scope Z_scope.

(** ** Specification *)

(** A long-name payload: strict UTF-8 without NUL, then one NUL. *)
Record carrier_payload (payload path : list byte) : Prop := {
  cp_bytes : payload = path ++ [x00];
  cp_len : path <> [] /\ Z.of_nat (length path) <= MAX_EFFECTIVE_PATH_BYTES;
  cp_nul : x00 ∉ path;
  cp_utf8 : is_Some (chars path)
}.

Section Grammar.
Context `{!Sha256} (bs : list byte).

Definition carrier_at (h : ParsedHeader) (off : Z) (path : list byte) : GnuLongNameCarrier :=
  {| c_raw_name := p_raw_name h; c_path_bytes := path;
     c_header_checksum := p_header_checksum h; c_header_sha256 := p_header_sha256 h;
     c_payload_sha256 := hex_sha256 (range (off + BLOCK_LEN) (p_size h) bs);
     c_mode := p_mode h; c_mtime := p_mtime h; c_header := p_header h;
     c_payload := mkrange (off + BLOCK_LEN) (p_size h);
     c_path := mkrange (off + BLOCK_LEN) (p_size h - 1);
     c_padding := mkrange (off + BLOCK_LEN + p_size h) (padded (p_size h) - p_size h) |}.

Definition member_at (h : ParsedHeader) (off : Z) (name : str) (index : option Z) :
    GnuLongNameMember :=
  {| g_raw_name := p_raw_name h; g_name := name; g_size := p_size h; g_mode := p_mode h;
     g_mtime := p_mtime h; g_header_checksum := p_header_checksum h;
     g_header_sha256 := p_header_sha256 h; g_header := p_header h;
     g_payload := mkrange (off + BLOCK_LEN) (p_size h);
     g_padding := mkrange (off + BLOCK_LEN + p_size h) (padded (p_size h) - p_size h);
     g_is_dir := bool_decide (p_kind h = Directory); g_carrier_index := index |}.

(** A record at [off]: an accepted header, its payload inside the source and
    zero bytes up to the block boundary. *)
Record record_at (off : Z) (h : ParsedHeader) : Prop := {
  ra_header : parse_header (range off BLOCK_LEN bs) off = Ok h;
  ra_fits : off + BLOCK_LEN + padded (p_size h) <= Z.of_nat (length bs);
  ra_padding :
    all_zero (range (off + BLOCK_LEN + p_size h) (padded (p_size h) - p_size h) bs) = true
}.
Definition record_stop (off : Z) (h : ParsedHeader) : Z := off + BLOCK_LEN + padded (p_size h).

(** The reader's state after some records: members, carriers, the pending long
    name and the offset reached. *)
Inductive gnu_records :
    list GnuLongNameMember -> list GnuLongNameCarrier -> option PendingLongName -> Z -> Prop :=
  | gnu_nil : gnu_records [] [] None 0
  | gnu_long ms cs off h path :
      gnu_records ms cs None off -> record_at off h -> p_kind h = LongName ->
      p_size h <= MAX_CARRIER_PAYLOAD_BYTES -> Z.of_nat (length cs) < MAX_CARRIERS ->
      carrier_payload (range (off + BLOCK_LEN) (p_size h) bs) path ->
      gnu_records ms (cs ++ [carrier_at h off path])
        (Some {| pl_path := path; pl_carrier_index := Z.of_nat (length cs) |})
        (record_stop off h)
  | gnu_plain ms cs off h :
      gnu_records ms cs None off -> record_at off h -> p_kind h <> LongName ->
      decode_effective_path (p_raw_name h) = Ok (p_raw_name h) ->
      gnu_records (ms ++ [member_at h off (p_raw_name h) None]) cs None (record_stop off h)
  | gnu_named ms cs off h p :
      gnu_records ms cs (Some p) off -> record_at off h -> p_kind h <> LongName ->
      gnu_records (ms ++ [member_at h off (pl_path p) (Some (pl_carrier_index p))]) cs None
        (record_stop off h).

Definition carrier_metadata (c : GnuLongNameCarrier) : Z :=
  BLOCK_LEN + len (c_payload c) + len (c_padding c).
Definition records_metadata (ms : list GnuLongNameMember) (cs : list GnuLongNameCarrier) : Z :=
  BLOCK_LEN * Z.of_nat (length ms) + foldr Z.add 0 (map carrier_metadata cs).

(** Records with no name left pending, two zero blocks, zeros to the end. *)
Record gnu_archive (a : GnuLongNameArchive) : Prop := {
  ga_blocks : Z.of_nat (length bs) mod BLOCK_LEN = 0;
  ga_records : gnu_records (g_members a) (g_carriers a) None (len (g_member_records a));
  ga_layout :
    let stop := len (g_member_records a) in
    a = {| g_members := g_members a; g_carriers := g_carriers a;
           g_member_records := mkrange 0 stop;
           g_terminator := mkrange stop (BLOCK_LEN * 2);
           g_trailing_zeros := mkrange (stop + BLOCK_LEN * 2)
             (Z.of_nat (length bs) - (stop + BLOCK_LEN * 2));
           g_metadata_bytes :=
             records_metadata (g_members a) (g_carriers a) + BLOCK_LEN * 2 |};
  ga_fits : len (g_member_records a) + BLOCK_LEN * 2 <= Z.of_nat (length bs);
  ga_zeros :
    let stop := len (g_member_records a) in
    all_zero (range stop (Z.of_nat (length bs) - stop) bs) = true
}.
End Grammar.

(** ** Headers and payloads *)

Lemma gnu_parse_header_size `{!Sha256} hdr off h :
  parse_header hdr off = Ok h -> 0 <= p_size h <= u64_max.
Proof.
  intros Hm. unfold parse_header in Hm. ok_steps Hm. simplify_eq. simpl.
  match goal with Hq : parse_octal _ "size" = Ok _ |- _ => by apply parse_octal_bound in Hq as [Hq _] end.
Qed.

Lemma gnu_parse_header_range `{!Sha256} hdr off h :
  parse_header hdr off = Ok h -> p_header h = mkrange off BLOCK_LEN.
Proof. intros Hm. unfold parse_header in Hm. ok_steps Hm. by simplify_eq. Qed.

Lemma gnu_parse_header_nonzero `{!Sha256} hdr off h :
  parse_header hdr off = Ok h -> all_zero hdr = false.
Proof.
  intros Hp. destruct (all_zero hdr) eqn:Hz; [|done]. exfalso.
  pose proof (all_zero_slice 257 265 _ Hz) as Hz1.
  unfold parse_header in Hp. ok_step Hp. breflect. unfold bytes_eqb in *.
  match goal with Hb : bool_decide (slice 257 265 _ = _) = true |- _ =>
    apply bool_decide_eq_true in Hb; by rewrite Hb in Hz1 end.
Qed.

Lemma validate_effective_path_ok path :
  validate_effective_path path = Ok () <->
  path <> [] /\ Z.of_nat (length path) <= MAX_EFFECTIVE_PATH_BYTES /\ (x00 ∉ path).
Proof.
  unfold validate_effective_path.
  destruct path as [|b path]; [by split; [|intros [? _]]|]. cbn [length Nat.eqb].
  destruct (Z.ltb_spec MAX_EFFECTIVE_PATH_BYTES (Z.of_nat (Datatypes.S (length path))));
    [split; [done|lia]|].
  destruct (existsb is_zero_byte (b :: path)) eqn:Hz.
  - split; [done|]. intros (_ & _ & Hn%existsb_zero). congruence.
  - apply existsb_zero in Hz. by split.
Qed.

(** The ordinary name is used as it stands. *)
Lemma decode_effective_path_id raw n : decode_effective_path raw = Ok n -> n = raw.
Proof.
  unfold decode_effective_path. intros Hd. ok_steps Hd.
  destruct (from_utf8 _) eqn:Hf; [|done]. simpl in Hd. simplify_eq.
  by apply from_utf8_Some in Hf as [-> _].
Qed.

Section Payload.
Context `{!Allocator}.

Lemma parse_carrier_payload_ok payload path pb :
  parse_carrier_payload payload = Ok (path, pb) -> pb = path /\ carrier_payload payload path.
Proof.
  unfold parse_carrier_payload. intros Hp. ok_steps Hp. simplify_eq. breflect.
  repeat match goal with u : unit |- _ => destruct u end.
  match goal with Hv : validate_effective_path _ = _ |- _ =>
    apply validate_effective_path_ok in Hv as (Hne & Hlen & Hnul) end.
  match goal with Hu : ok_or (from_utf8 ?p) _ = _ |- _ =>
    destruct (from_utf8 p) eqn:Hd; simpl in Hu; simplify_eq;
    apply from_utf8_Some in Hd as [-> [cs Hcs]] end.
  match goal with Hl : bool_decide _ = true |- _ => apply bool_decide_eq_true in Hl as Hlast end.
  split; [done|]. split; [|done|done|by exists cs].
  apply last_Some in Hlast as [l Hl]. rewrite Hl, length_app. simpl.
  rewrite Nat.add_sub, take_app_length. done.
Qed.

Lemma parse_carrier_payload_complete payload path :
  (forall site n, try_reserve site n = true) ->
  carrier_payload payload path -> parse_carrier_payload payload = Ok (path, path).
Proof.
  intros Hall [-> [Hne Hlen] Hnul [cs Hcs]]. unfold parse_carrier_payload.
  rewrite last_snoc, bool_decide_eq_true_2, length_app by done. cbn [length negb orb].
  assert (0 < length path)%nat by (destruct path; [done|simpl; lia]).
  unfold MAX_CARRIER_PAYLOAD_BYTES.
  rewrite (proj2 (Z.leb_le _ _)), (proj2 (Z.leb_le _ _)) by lia. cbn [andb negb orb].
  rewrite Nat.add_sub, take_app_length, (proj2 (existsb_zero path)) by done.
  rewrite (proj2 (validate_effective_path_ok path)) by done.
  unfold from_utf8. rewrite Hcs. cbn [ok_or]. by rewrite !Hall.
Qed.
End Payload.

Lemma gnu_add_metadata_ok a b cap t :
  add_metadata a b cap = Ok t <-> t = a + b /\ a + b <= u64_max /\ a + b <= cap.
Proof.
  unfold add_metadata. destruct (u64_checked_add a b) as [x|] eqn:E; simpl.
  - apply u64_checked_add_Some in E as [-> ?].
    destruct (Z.ltb_spec cap (a + b)); (split; [|intros (-> & ? & ?)]); try done; try lia.
    intros [= <-]. lia.
  - apply u64_checked_add_None in E. split; [done|lia].
Qed.

Lemma records_metadata_member ms cs m :
  records_metadata (ms ++ [m]) cs = records_metadata ms cs + BLOCK_LEN.
Proof. unfold records_metadata. rewrite length_app. simpl. unfold BLOCK_LEN. lia. Qed.

Lemma records_metadata_carrier ms cs c :
  records_metadata ms (cs ++ [c]) = records_metadata ms cs + carrier_metadata c.
Proof.
  unfold records_metadata. rewrite map_app, foldr_app. simpl.
  enough (forall l z, foldr Z.add z l = foldr Z.add 0 l + z) as -> by lia.
  clear. intros l z. induction l; simpl; lia.
Qed.

(** ** The loop *)

Section Loop.
Context {S} `{Source S} `{!Sha256} `{!Allocator} (s : S) (bs : list byte)
  (max_files max_metadata : Z).

Definition state_at ms cs pend off : GnuState :=
  {| gs_members := ms; gs_carriers := cs; gs_pending := pend; gs_offset := off;
     gs_metadata := records_metadata ms cs |}.

Definition reached (st : GnuState) : Prop :=
  exists ms cs pend off, st = state_at ms cs pend off /\ gnu_records bs ms cs pend off
    /\ Z.of_nat (length ms) <= Z.max 0 max_files.

Lemma gnu_records_bound ms cs pend off :
  gnu_records bs ms cs pend off ->
  0 <= records_metadata ms cs <= off
  /\ (off = 0 \/ off <= Z.of_nat (length bs)).
Proof.
  intros Hr. induction Hr as [|ms cs off h path Hr IH [Hh Hf _] _ _ _ _
    |ms cs off h Hr IH [Hh Hf _] _ _|ms cs off h p Hr IH [Hh Hf _] _]; [vm_compute; split; [split; discriminate|by left]| | |];
    pose proof (gnu_parse_header_size _ _ _ Hh); pose proof (padded_spec (p_size h) ltac:(lia));
    rewrite ?records_metadata_member, ?records_metadata_carrier; unfold record_stop;
    unfold carrier_metadata, BLOCK_LEN in *; simpl; lia.
Qed.

Ltac unalias :=
  unfold TarGnu.checked_add, TarGnu.round_up_block, TarGnu.is_zero_block,
    TarGnu.ensure_zero_range in *.

Ltac record_facts :=
  match goal with Hh : parse_header _ _ = Ok ?h |- _ =>
    pose proof (gnu_parse_header_size _ _ _ Hh) as Hsz;
    pose proof (padded_spec (p_size h) (proj1 Hsz)) as Hpad end;
  match goal with Hr : TarFields.round_up_block _ = Ok _ |- _ =>
    apply round_up_block_ok in Hr as [-> Hr]; [|done] end.

Lemma gnu_carrier_continue ms cs pend off h st' :
  represents s bs -> gnu_records bs ms cs pend off ->
  off + BLOCK_LEN <= src_len s ->
  parse_header (range off BLOCK_LEN bs) off = Ok h -> p_kind h = LongName ->
  gnu_carrier s max_metadata (state_at ms cs pend off) (off + BLOCK_LEN) h
    = Some (Ok (Continue st')) ->
  exists path,
    st' = state_at ms (cs ++ [carrier_at bs h off path])
      (Some {| pl_path := path; pl_carrier_index := Z.of_nat (length cs) |}) (record_stop off h)
    /\ gnu_records bs ms (cs ++ [carrier_at bs h off path])
      (Some {| pl_path := path; pl_carrier_index := Z.of_nat (length cs) |}) (record_stop off h).
Proof.
  intros Hs Hr Hin Hh Hk Hst. pose proof (gnu_records_bound _ _ _ _ Hr) as [Hb _].
  pose proof (represents_u64 _ _ Hs) as Hu. pose proof (represents_len _ _ Hs) as Hlen.
  unfold gnu_carrier in Hst. unalias. ok_steps Hst.
  cbn [gs_members gs_carriers gs_pending gs_offset gs_metadata state_at] in *.
  breflect. checked_adds. record_facts.
  repeat match goal with u : unit |- _ => destruct u end.
  match goal with Hp : bool_decide (is_Some pend) = false |- _ =>
    apply bool_decide_eq_false in Hp; destruct pend; [by destruct Hp|] end.
  match goal with Hd : src_read _ _ _ = Ok _ |- _ =>
    apply (represents_read _ _ Hs) in Hd as [_ ->]; [|unfold BLOCK_LEN in *; lia|lia] end.
  match goal with Hd : parse_carrier_payload _ = Ok _ |- _ =>
    apply parse_carrier_payload_ok in Hd as [-> Hcp] end.
  match goal with Hz : TarFields.ensure_zero_range _ _ _ _ = _ |- _ =>
    apply (ensure_zero_range_ok _ _ bs) in Hz as [_ Hzero]; [|done|unfold BLOCK_LEN in *; lia..] end.
  match goal with Hm : add_metadata _ _ _ = Ok _ |- _ => apply gnu_add_metadata_ok in Hm as (-> & _ & Hm) end.
  match goal with Hcp : carrier_payload _ ?p |- _ => exists p end.
  split.
  - injection Hst as <-. unfold state_at. f_equal.
    rewrite records_metadata_carrier. unfold carrier_metadata, carrier_at. simpl. lia.
  - constructor; try done; try lia. split; [done|lia|done].
Qed.

Lemma gnu_member_continue ms cs pend off h st' :
  represents s bs -> gnu_records bs ms cs pend off ->
  off + BLOCK_LEN <= src_len s ->
  parse_header (range off BLOCK_LEN bs) off = Ok h -> p_kind h <> LongName ->
  gnu_member s max_files max_metadata (state_at ms cs pend off) (off + BLOCK_LEN) h
    = Some (Ok (Continue st')) ->
  exists m, st' = state_at (ms ++ [m]) cs None (record_stop off h)
    /\ gnu_records bs (ms ++ [m]) cs None (record_stop off h)
    /\ Z.of_nat (length ms) < max_files.
Proof.
  intros Hs Hr Hin Hh Hk Hst. pose proof (gnu_records_bound _ _ _ _ Hr) as [Hb _].
  pose proof (represents_u64 _ _ Hs) as Hu. pose proof (represents_len _ _ Hs) as Hlen.
  unfold gnu_member in Hst. unalias. ok_steps Hst.
  cbn [gs_members gs_carriers gs_pending gs_offset gs_metadata state_at] in *.
  breflect. checked_adds. record_facts.
  repeat match goal with u : unit |- _ => destruct u end.
  match goal with Hz : exec_map_err _ _ = _ |- _ =>
    apply exec_map_err_ok in Hz;
    apply (ensure_zero_range_ok _ _ bs) in Hz as [_ Hzero]; [|done|unfold BLOCK_LEN in *; lia..] end.
  match goal with Hm : add_metadata _ _ _ = Ok _ |- _ => apply gnu_add_metadata_ok in Hm as (-> & _ & Hm) end.
  match goal with Hn : match pend with _ => _ end = Ok (?n, ?i) |- _ =>
    exists (member_at h off n i); rename Hn into Hname end.
  split_and!; [|destruct pend as [p|]|lia].
  - injection Hst as <-. unfold state_at. f_equal. by rewrite records_metadata_member.
  - simplify_eq. constructor; [done|split; [done|lia|done]|done].
  - destruct (decode_effective_path _) as [n|] eqn:Hd; [|done]. simplify_eq.
    pose proof Hd as Hid. apply decode_effective_path_id in Hid as ->.
    constructor; [done|split; [done|lia|done]|done|done].
Qed.

Lemma gnu_step_return ms cs pend off a :
  represents s bs -> gnu_records bs ms cs pend off -> Z.of_nat (length bs) mod BLOCK_LEN = 0 ->
  gnu_step s max_files max_metadata (state_at ms cs pend off) = Some (Ok (Return a)) ->
  gnu_archive bs a /\ g_members a = ms /\ g_metadata_bytes a <= max_metadata.
Proof.
  intros Hs Hr Hmod Hst. pose proof (gnu_records_bound _ _ _ _ Hr) as [Hb _].
  pose proof (represents_u64 _ _ Hs) as Hu. pose proof (represents_len _ _ Hs) as Hlen.
  unfold gnu_step in Hst. unalias. ok_steps Hst. cbn [gs_offset state_at] in *. breflect. checked_adds.
  match goal with Hd : src_read _ _ _ = Ok _ |- _ =>
    apply (represents_read _ _ Hs) in Hd as [_ ->]; [|lia|done] end.
  destruct (TarFields.is_zero_block _) eqn:Hz.
  2:{ exfalso. ok_step Hst. destruct (p_kind _); unfold gnu_member, gnu_carrier in Hst;
        repeat (case_match; try discriminate). }
  unfold gnu_finish in Hst. unalias. ok_steps Hst.
  cbn [gs_members gs_carriers gs_pending gs_offset gs_metadata state_at] in *. breflect. checked_adds.
  repeat match goal with u : unit |- _ => destruct u end.
  match goal with Hp : bool_decide (is_Some pend) = false |- _ =>
    apply bool_decide_eq_false in Hp; destruct pend; [by destruct Hp|] end.
  match goal with Hd : src_read _ _ _ = Ok _ |- _ =>
    apply (represents_read _ _ Hs) in Hd as [_ ->]; [|unfold BLOCK_LEN in *; lia|done] end.
  match goal with Hz : TarFields.ensure_zero_range _ _ _ _ = _ |- _ =>
    apply (ensure_zero_range_ok _ _ bs) in Hz as [_ Hzero]; [|done|unfold BLOCK_LEN in *; lia..] end.
  match goal with Hm : add_metadata _ _ _ = Ok _ |- _ => apply gnu_add_metadata_ok in Hm as (-> & _ & Hm) end.
  simplify_eq. split_and!; [|done|done].
  split; cbn [g_members g_carriers g_member_records len mkrange]; [done|done| | |].
  - rewrite Hlen. f_equal; f_equal; lia.
  - lia.
  - replace (_ - off) with (BLOCK_LEN + (BLOCK_LEN + (src_len s - (off + BLOCK_LEN + BLOCK_LEN)))) by lia.
    rewrite !range_app by (unfold BLOCK_LEN in *; lia). rewrite !all_zero_app.
    unfold TarFields.is_zero_block in *. by rewrite Hz, Hzero, andb_true_r.
Qed.

Lemma gnu_step_reached st st' :
  represents s bs -> reached st ->
  gnu_step s max_files max_metadata st = Some (Ok (Continue st')) ->
  reached st' /\ gs_offset st + BLOCK_LEN <= gs_offset st' /\ gs_offset st + BLOCK_LEN <= src_len s.
Proof.
  intros Hs (ms & cs & pend & off & -> & Hr & Hn) Hst.
  pose proof (gnu_records_bound _ _ _ _ Hr) as [Hb _].
  pose proof (represents_u64 _ _ Hs) as Hu. pose proof (represents_len _ _ Hs) as Hlen.
  unfold gnu_step in Hst. unalias. ok_steps Hst. cbn [gs_offset state_at] in *. breflect. checked_adds.
  match goal with Hd : src_read _ _ _ = Ok _ |- _ =>
    apply (represents_read _ _ Hs) in Hd as [_ ->]; [|lia|done] end.
  destruct (TarFields.is_zero_block _) eqn:Hz; [unfold gnu_finish in Hst; by repeat case_match|].
  destruct (parse_header _ off) as [h|e] eqn:Hh; [|done].
  assert (Hstop : off + BLOCK_LEN <= record_stop off h).
  { pose proof (gnu_parse_header_size _ _ _ Hh).
    pose proof (padded_spec (p_size h) ltac:(lia)). unfold record_stop. lia. }
  destruct (decide (p_kind h = LongName)) as [Hk|Hk].
  - rewrite Hk in Hst. apply gnu_carrier_continue in Hst as (path & -> & Hr'); [|done..].
    split; [|done]. eexists _, _, _, _. by split_and!.
  - assert (gnu_member s max_files max_metadata (state_at ms cs pend off) (off + BLOCK_LEN) h
      = Some (Ok (Continue st'))) as Hst' by (by destruct (p_kind h)).
    apply gnu_member_continue in Hst' as (m & -> & Hr' & Hlt); [|done..].
    split; [|done]. eexists _, _, _, _. split_and!; [done|done|]. rewrite length_app. simpl. lia.
Qed.

(** Every iteration ends: the zero scans are total. *)
Lemma gnu_step_total st :
  0 <= gs_offset st -> gnu_step s max_files max_metadata st <> None.
Proof.
  intros Ho Hn. unfold gnu_step, gnu_finish, gnu_carrier, gnu_member in Hn. unalias.
  repeat (case_match; try discriminate); breflect; checked_adds;
    try match goal with Hr : TarFields.round_up_block _ = Ok _ |- _ => record_facts end;
    match goal with
    | Hz : TarFields.ensure_zero_range ?s ?o ?n ?l = None |- _ =>
        destruct (ensure_zero_range_total s l o n) as [? ?]; [lia|congruence]
    | Hz : exec_map_err _ (TarFields.ensure_zero_range ?s ?o ?n ?l) = None |- _ =>
        destruct (ensure_zero_range_total s l o n) as [x Hx]; [lia|by rewrite Hx in Hz]
    end.
Qed.
End Loop.

Section Complete.
Context {S} `{Source S} `{!Sha256} `{!Allocator} (s : S) (bs : list byte)
  (max_files max_metadata : Z).
Context (Hs : reliable s bs) (Halloc : forall site n, try_reserve site n = true).

Lemma gnu_in_range_add a b l : 0 <= a + b <= Z.of_nat (length bs) -> TarFields.checked_add a b l = Ok (a + b).
Proof.
  intros Hb. apply checked_add_ok. pose proof (represents_u64 _ _ (reliable_represents _ _ Hs)). lia.
Qed.

(** The common start of an iteration on a record. *)
Lemma gnu_step_header ms cs pend off h :
  0 <= off -> record_at bs off h ->
  gnu_step s max_files max_metadata (state_at ms cs pend off) =
  match p_kind h with
  | LongName => gnu_carrier s max_metadata (state_at ms cs pend off) (off + BLOCK_LEN) h
  | File | Directory =>
      gnu_member s max_files max_metadata (state_at ms cs pend off) (off + BLOCK_LEN) h
  end.
Proof.
  intros Ho [Hh Hf _]. pose proof (gnu_parse_header_size _ _ _ Hh) as Hsz.
  pose proof (padded_spec (p_size h) ltac:(lia)).
  pose proof (represents_len _ _ (reliable_represents _ _ Hs)) as Hlen.
  unfold gnu_step, TarGnu.checked_add, TarGnu.is_zero_block. cbn [gs_offset state_at].
  unfold BLOCK_LEN in *. rewrite gnu_in_range_add by lia. rewrite (proj2 (Z.ltb_ge _ _)) by lia.
  rewrite (reliable_read _ _ Hs) by lia.
  unfold TarFields.is_zero_block. by rewrite (gnu_parse_header_nonzero _ _ _ Hh), Hh.
Qed.

Lemma gnu_add_metadata_fits a b :
  0 <= a + b <= Z.of_nat (length bs) -> a + b <= max_metadata ->
  add_metadata a b max_metadata = Ok (a + b).
Proof.
  intros Hb Hm. apply gnu_add_metadata_ok.
  pose proof (represents_u64 _ _ (reliable_represents _ _ Hs)). lia.
Qed.

Lemma gnu_long_step ms cs off h path :
  gnu_records bs ms cs None off -> record_at bs off h -> p_kind h = LongName ->
  p_size h <= MAX_CARRIER_PAYLOAD_BYTES -> Z.of_nat (length cs) < MAX_CARRIERS ->
  carrier_payload (range (off + BLOCK_LEN) (p_size h) bs) path ->
  records_metadata ms (cs ++ [carrier_at bs h off path]) <= max_metadata ->
  gnu_step s max_files max_metadata (state_at ms cs None off) = Some (Ok (Continue
    (state_at ms (cs ++ [carrier_at bs h off path])
      (Some {| pl_path := path; pl_carrier_index := Z.of_nat (length cs) |}) (record_stop off h)))).
Proof.
  intros Hr Hrec Hk Hsize Hcs Hpay Hmeta. pose proof (gnu_records_bound _ _ _ _ _ Hr) as [Hb _].
  rewrite gnu_step_header with (h := h) by (done || lia). rewrite Hk.
  destruct Hrec as [Hh Hf Hp]. pose proof (gnu_parse_header_size _ _ _ Hh) as Hsz.
  pose proof (padded_spec (p_size h) ltac:(lia)) as Hpad.
  pose proof (represents_len _ _ (reliable_represents _ _ Hs)) as Hlen.
  pose proof (represents_u64 _ _ (reliable_represents _ _ Hs)) as Hu.
  rewrite records_metadata_carrier in Hmeta. unfold carrier_metadata, carrier_at in Hmeta. simpl in Hmeta.
  unfold gnu_carrier, TarGnu.checked_add, TarGnu.round_up_block, TarGnu.ensure_zero_range, reserve_one.
  cbn [gs_members gs_carriers gs_pending gs_offset gs_metadata state_at].
  rewrite bool_decide_eq_false_2 by (by intros []).
  rewrite (proj2 (Z.ltb_ge _ _)), (proj2 (Z.leb_gt _ _)) by lia.
  rewrite (proj2 (round_up_block_ok (p_size h) (padded (p_size h)) Hsz)) by (unfold BLOCK_LEN in *; lia).
  unfold BLOCK_LEN in *.
  rewrite !gnu_in_range_add by lia. rewrite (proj2 (Z.ltb_ge _ _)) by lia.
  rewrite gnu_add_metadata_fits by lia.
  rewrite Halloc. cbn [negb].
  rewrite (reliable_read _ _ Hs) by lia.
  rewrite (parse_carrier_payload_complete _ _ Halloc Hpay).
  rewrite (ensure_zero_range_reliable _ _ bs) by (done || lia). rewrite Hp, Halloc.
  do 3 f_equal. unfold state_at, record_stop, BLOCK_LEN. f_equal.
  rewrite records_metadata_carrier. unfold carrier_metadata, carrier_at, BLOCK_LEN. simpl. lia.
Qed.

Lemma gnu_member_step ms cs pend off h name index :
  gnu_records bs ms cs pend off -> record_at bs off h -> p_kind h <> LongName ->
  match pend with
  | Some p => name = pl_path p /\ index = Some (pl_carrier_index p)
  | None => decode_effective_path (p_raw_name h) = Ok name /\ index = None
  end ->
  Z.of_nat (length ms) < max_files ->
  records_metadata (ms ++ [member_at h off name index]) cs <= max_metadata ->
  gnu_step s max_files max_metadata (state_at ms cs pend off) = Some (Ok (Continue
    (state_at (ms ++ [member_at h off name index]) cs None (record_stop off h)))).
Proof.
  intros Hr Hrec Hk Hname Hn Hmeta. pose proof (gnu_records_bound _ _ _ _ _ Hr) as [Hb _].
  rewrite gnu_step_header with (h := h) by (done || lia).
  assert (match p_kind h with
    | LongName => gnu_carrier s max_metadata (state_at ms cs pend off) (off + BLOCK_LEN) h
    | _ => gnu_member s max_files max_metadata (state_at ms cs pend off) (off + BLOCK_LEN) h
    end = gnu_member s max_files max_metadata (state_at ms cs pend off) (off + BLOCK_LEN) h) as ->
    by (by destruct (p_kind h)).
  destruct Hrec as [Hh Hf Hp]. pose proof (gnu_parse_header_size _ _ _ Hh) as Hsz.
  pose proof (padded_spec (p_size h) ltac:(lia)) as Hpad.
  pose proof (represents_len _ _ (reliable_represents _ _ Hs)) as Hlen.
  pose proof (represents_u64 _ _ (reliable_represents _ _ Hs)) as Hu.
  rewrite records_metadata_member in Hmeta.
  unfold gnu_member, TarGnu.checked_add, TarGnu.round_up_block, TarGnu.ensure_zero_range, reserve_one.
  cbn [gs_members gs_carriers gs_pending gs_offset gs_metadata state_at].
  rewrite (proj2 (Z.leb_gt _ _)) by lia. unfold BLOCK_LEN in *.
  rewrite gnu_add_metadata_fits by lia.
  assert (match pend with
    | Some state => Ok (pl_path state, Some (pl_carrier_index state))
    | None => let? name := decode_effective_path (p_raw_name h) in Ok (name, None)
    end = Ok (name, index)) as ->.
  { destruct pend as [p|]; destruct Hname as [Hname ->]; [by rewrite Hname|by rewrite Hname]. }
  rewrite gnu_in_range_add by lia.
  rewrite (proj2 (round_up_block_ok (p_size h) (padded (p_size h)) Hsz)) by lia.
  rewrite gnu_in_range_add by lia. rewrite (proj2 (Z.ltb_ge _ _)) by lia.
  rewrite (ensure_zero_range_reliable _ _ bs) by (done || lia). rewrite Hp, Halloc. cbn [exec_map_err option_map map_err].
  do 3 f_equal. unfold state_at, record_stop, BLOCK_LEN. f_equal.
  by rewrite records_metadata_member.
Qed.

Lemma gnu_records_run ms cs pend off :
  gnu_records bs ms cs pend off ->
  Z.of_nat (length ms) <= max_files -> records_metadata ms cs <= max_metadata ->
  rtc (loop_step (gnu_step s max_files max_metadata)) gnu_init (state_at ms cs pend off).
Proof.
  intros Hr. induction Hr as [|ms cs off h path Hr IH Hrec Hk Hsz Hcs Hpay
    |ms cs off h Hr IH Hrec Hk Hd|ms cs off h p Hr IH Hrec Hk]; intros Hn Hm.
  - apply rtc_refl.
  - pose proof (gnu_parse_header_size _ _ _ (ra_header _ _ _ Hrec)).
    pose proof (padded_spec (p_size h) ltac:(lia)).
    eapply rtc_r; [apply IH; [done|]|by apply gnu_long_step].
    rewrite records_metadata_carrier in Hm. unfold carrier_metadata, carrier_at, BLOCK_LEN in Hm.
    simpl in Hm. lia.
  - rewrite length_app in Hn. simpl in Hn. pose proof Hm as Hm'.
    rewrite records_metadata_member in Hm'. unfold BLOCK_LEN in Hm'.
    eapply rtc_r; [apply IH; lia|apply gnu_member_step; done || lia].
  - rewrite length_app in Hn. simpl in Hn. pose proof Hm as Hm'.
    rewrite records_metadata_member in Hm'. unfold BLOCK_LEN in Hm'.
    eapply rtc_r; [apply IH; lia|apply gnu_member_step; done || lia].
Qed.

Lemma gnu_step_end a :
  gnu_archive bs a -> g_metadata_bytes a <= max_metadata ->
  gnu_step s max_files max_metadata
    (state_at (g_members a) (g_carriers a) None (len (g_member_records a))) = Some (Ok (Return a)).
Proof.
  intros [Hmod Hrec Hlay Hf Hz] Hm.
  pose proof (gnu_records_bound _ _ _ _ _ Hrec) as [Hb _].
  set (stop := len (g_member_records a)) in *. cbv zeta in Hlay, Hz.
  pose proof (represents_len _ _ (reliable_represents _ _ Hs)) as Hlen.
  replace (Z.of_nat (length bs) - stop) with
    (BLOCK_LEN + (BLOCK_LEN + (src_len s - (stop + BLOCK_LEN + BLOCK_LEN)))) in Hz by lia.
  rewrite !range_app, !all_zero_app in Hz by (unfold BLOCK_LEN in *; lia).
  apply andb_true_iff in Hz as [Hz1 Hz]. apply andb_true_iff in Hz as [Hz2 Hz3].
  assert (Hmeta : g_metadata_bytes a = records_metadata (g_members a) (g_carriers a) + BLOCK_LEN * 2)
    by (rewrite Hlay at 1; done).
  rewrite Hmeta in Hm.
  unfold gnu_step, gnu_finish, TarGnu.checked_add, TarGnu.is_zero_block, TarGnu.ensure_zero_range,
    TarFields.is_zero_block.
  cbn [gs_members gs_carriers gs_pending gs_offset gs_metadata state_at].
  unfold BLOCK_LEN in *. rewrite gnu_in_range_add by lia. rewrite (proj2 (Z.ltb_ge _ _)) by lia.
  rewrite (reliable_read _ _ Hs) by lia. rewrite Hz1.
  rewrite bool_decide_eq_false_2 by (by intros []).
  rewrite gnu_in_range_add by lia. rewrite (proj2 (Z.ltb_ge _ _)) by lia.
  rewrite (reliable_read _ _ Hs) by lia. rewrite Hz2. cbn [negb].
  rewrite gnu_add_metadata_fits by lia.
  rewrite (ensure_zero_range_reliable _ _ bs) by (done || lia). rewrite Hz3.
  do 3 f_equal. symmetry. rewrite Hlay at 1. rewrite Hlen. f_equal; try f_equal; lia.
Qed.
End Complete.

(** ** Facts about accepted archives *)

Section Facts.
Context `{!Sha256} (bs : list byte).

Definition pending_index (p : option PendingLongName) : list Z :=
  match p with Some p => [pl_carrier_index p] | None => [] end.

(** The indices the members carry, in order. *)
Definition consumed (ms : list GnuLongNameMember) : list Z := omap g_carrier_index ms.

Lemma gnu_records_consumed ms cs pend off :
  gnu_records bs ms cs pend off -> consumed ms ++ pending_index pend = seqZ 0 (Z.of_nat (length cs)).
Proof.
  intros Hr. unfold consumed. induction Hr as [|ms cs off h path Hr IH Hrec _ _ _ _
    |ms cs off h Hr IH Hrec _ _|ms cs off h p Hr IH Hrec _]; simpl in *.
  - done.
  - rewrite length_app, app_nil_r in *. rewrite IH, Nat2Z.inj_add. simpl.
    rewrite seqZ_app by lia. by rewrite Z.add_0_l.
  - rewrite omap_app. simpl. by rewrite app_nil_r.
  - rewrite omap_app. simpl. by rewrite app_nil_r.
Qed.

(** What a member's name provenance means for an archive's carriers. *)
Definition named_by (cs : list GnuLongNameCarrier) (m : GnuLongNameMember) : Prop :=
  match g_carrier_index m with
  | None => g_name m = g_raw_name m
  | Some i => exists c, 0 <= i /\ cs !! Z.to_nat i = Some c /\ g_name m = c_path_bytes c
      /\ range_end (c_padding c) = offset (g_header m)
  end.

Definition pending_named (cs : list GnuLongNameCarrier) (p : option PendingLongName) (off : Z) : Prop :=
  match p with
  | None => True
  | Some p => exists c, 0 <= pl_carrier_index p /\ cs !! Z.to_nat (pl_carrier_index p) = Some c
      /\ pl_path p = c_path_bytes c /\ range_end (c_padding c) = off
  end.

Lemma named_by_app cs c m : named_by cs m -> named_by (cs ++ [c]) m.
Proof.
  unfold named_by. destruct (g_carrier_index m); [|done].
  intros (c' & Hi & Hc & Hr). exists c'. split; [done|]. split; [by apply lookup_app_l_Some|done].
Qed.

Lemma gnu_records_named ms cs pend off :
  Z.of_nat (length bs) <= u64_max -> gnu_records bs ms cs pend off ->
  Forall (named_by cs) ms /\ pending_named cs pend off.
Proof.
  intros Hu Hr. pose proof Hr as Hr0. induction Hr as [|ms cs off h path Hr IH [Hh Hf Hp] Hk Hsz Hcs Hpay
    |ms cs off h Hr IH [Hh Hf Hp] Hk Hd|ms cs off h p Hr IH [Hh Hf Hp] Hk].
  - by split.
  - destruct (IH Hr) as [IH1 _]. split.
    + eapply Forall_impl; [exact IH1|]. intros m. apply named_by_app.
    + pose proof (gnu_records_bound _ _ _ _ _ Hr) as [Hb _].
      pose proof (gnu_parse_header_size _ _ _ Hh). pose proof (padded_spec (p_size h) ltac:(lia)).
      exists (carrier_at bs h off path). cbn [pl_carrier_index pl_path].
      rewrite Nat2Z.id, list_lookup_middle by done. split_and!; [lia|done|done|].
      simpl. rewrite range_end_eq; simpl; unfold record_stop, BLOCK_LEN in *; lia.
  - destruct (IH Hr) as [IH1 _]. split; [|done]. apply Forall_app. split; [done|].
    by repeat constructor.
  - destruct (IH Hr) as [IH1 (c & H1 & H2 & H3 & H4)]. split; [|done].
    apply Forall_app. split; [done|]. repeat constructor.
    exists c. simpl. rewrite (gnu_parse_header_range _ _ _ Hh). by split_and!.
Qed.

Definition carrier_ranges (c : GnuLongNameCarrier) : list ByteRange :=
  [c_header c; c_payload c; c_padding c].
(** A member's ranges, after those of the carrier it consumed. *)
Definition member_ranges (cs : list GnuLongNameCarrier) (m : GnuLongNameMember) : list ByteRange :=
  match g_carrier_index m with
  | Some i => from_option carrier_ranges [] (cs !! Z.to_nat i)
  | None => []
  end ++ [g_header m; g_payload m; g_padding m].
Definition gnu_ranges (a : GnuLongNameArchive) : list ByteRange :=
  concat (map (member_ranges (g_carriers a)) (g_members a)) ++ [g_terminator a; g_trailing_zeros a].

Definition pending_ranges (cs : list GnuLongNameCarrier) (p : option PendingLongName) : list ByteRange :=
  match p with
  | Some p => from_option carrier_ranges [] (cs !! Z.to_nat (pl_carrier_index p))
  | None => []
  end.

Lemma member_ranges_app cs c ms :
  Forall (named_by cs) ms ->
  map (member_ranges (cs ++ [c])) ms = map (member_ranges cs) ms.
Proof.
  intros Hm. apply list_fmap_ext. intros i m Hi. unfold member_ranges, named_by in *.
  rewrite Forall_lookup in Hm. specialize (Hm _ _ Hi). simpl in Hm.
  destruct (g_carrier_index m) as [j|]; [|done].
  destruct Hm as (c' & _ & Hc & _). by rewrite Hc, (lookup_app_l_Some _ _ _ _ Hc).
Qed.

Lemma gnu_records_adjacent ms cs pend off :
  Z.of_nat (length bs) <= u64_max -> gnu_records bs ms cs pend off ->
  adjacent 0 (concat (map (member_ranges cs) ms) ++ pending_ranges cs pend) off.
Proof.
  intros Hu Hr. pose proof Hr as Hr0. induction Hr as [|ms cs off h path Hr IH [Hh Hf Hp] Hk Hsz Hcs Hpay
    |ms cs off h Hr IH [Hh Hf Hp] Hk Hd|ms cs off h p Hr IH [Hh Hf Hp] Hk]; [done| | |];
    specialize (IH Hr); pose proof (gnu_parse_header_range _ _ _ Hh) as Hhdr;
    pose proof (gnu_parse_header_size _ _ _ Hh); pose proof (padded_spec (p_size h) ltac:(lia)).
  - destruct (gnu_records_named _ _ _ _ Hu Hr) as [Hnm _].
    rewrite member_ranges_app by done. simpl in IH |- *. rewrite app_nil_r in IH.
    apply adjacent_app. exists off. split; [done|].
    rewrite Nat2Z.id, list_lookup_middle by done. simpl. rewrite Hhdr. simpl.
    unfold record_stop, BLOCK_LEN in *. split_and!; lia.
  - simpl in IH |- *. rewrite app_nil_r in *. rewrite map_app, concat_app. apply adjacent_app.
    exists off. split; [done|]. simpl. rewrite Hhdr. simpl.
    unfold record_stop, BLOCK_LEN in *. split_and!; lia.
  - simpl in IH |- *. rewrite app_nil_r, map_app, concat_app. apply adjacent_app in IH as (mid & IH1 & IH2).
    apply adjacent_app. exists mid. split; [done|]. simpl. rewrite app_nil_r.
    unfold member_ranges at 1. simpl. apply adjacent_app. exists off. split; [done|].
    simpl. rewrite Hhdr. simpl. unfold record_stop, BLOCK_LEN in *. split_and!; lia.
Qed.

Lemma gnu_archive_adjacent a :
  Z.of_nat (length bs) <= u64_max -> gnu_archive bs a ->
  adjacent 0 (gnu_ranges a) (Z.of_nat (length bs)).
Proof.
  intros Hu [_ Hr Hl Hf _]. pose proof (gnu_records_adjacent _ _ _ _ Hu Hr) as Ha.
  simpl in Ha. rewrite app_nil_r in Ha. apply adjacent_app.
  exists (len (g_member_records a)). split; [done|]. cbv zeta in Hl. rewrite Hl. simpl.
  unfold BLOCK_LEN in *. split_and!; lia.
Qed.
End Facts.

(** ** Theorems *)

Section Theorems.
Context {S} `{Source S} `{!Sha256} `{!Allocator} (s : S) (bs : list byte).

Lemma parse_gnu_total max_files max_metadata :
  represents s bs ->
  exists r, parse_gnu_longname_portable_v1 s max_files max_metadata = Some r.
Proof.
  intros Hs. unfold parse_gnu_longname_portable_v1. case_match; [eauto|].
  assert (Hlen : 0 <= src_len s) by (rewrite (represents_len _ _ Hs); lia).
  apply (run_loop_total _ (fun st => reached bs max_files st /\ gs_offset st <= src_len s)
    (fun st => Z.to_nat ((src_len s - gs_offset st) / BLOCK_LEN))).
  - intros st [(ms & cs & pend & off & -> & Hr & _) _]. apply gnu_step_total.
    apply gnu_records_bound in Hr. simpl. lia.
  - intros st st' [Hst Hoff] Hstep.
    apply (gnu_step_reached s bs) in Hstep as (Hst' & Hadv & Hin); [|done..].
    destruct Hst' as (ms & cs & pend & off & -> & Hr & Hn). cbn [gs_offset state_at] in *.
    assert (off <= src_len s).
    { apply gnu_records_bound in Hr. rewrite (represents_len _ _ Hs). lia. }
    split; [split; [by eexists _, _, _, _|done]|]. unfold BLOCK_LEN in *.
    Z.div_mod_to_equations. lia.
  - split; [|simpl; lia]. exists [], [], None, 0. split_and!; [done|constructor|simpl; lia].
  - simpl. unfold BLOCK_LEN. rewrite Z.sub_0_r. lia.
Qed.

Lemma parse_gnu_sound max_files max_metadata a :
  represents s bs ->
  parse_gnu_longname_portable_v1 s max_files max_metadata = Some (Ok a) ->
  gnu_archive bs a /\ Z.of_nat (length (g_members a)) <= Z.max 0 max_files
  /\ g_metadata_bytes a <= max_metadata.
Proof.
  intros Hs Hp. pose proof (represents_len _ _ Hs) as Hlen.
  unfold parse_gnu_longname_portable_v1 in Hp. ok_steps Hp. breflect. rewrite Hlen in *.
  revert Hp. apply (run_loop_invariant _ (reached bs max_files) (fun a => gnu_archive bs a /\
    Z.of_nat (length (g_members a)) <= Z.max 0 max_files /\ g_metadata_bytes a <= max_metadata)).
  - intros st st' Hst Hstep. by apply (gnu_step_reached s bs) in Hstep as (? & _ & _).
  - intros st r (ms & cs & pend & off & -> & Hr & Hn) Hst.
    apply (gnu_step_return s bs) in Hst as (Ha & <- & Hmeta); [|done..]. done.
  - exists [], [], None, 0. split_and!; [done|constructor|simpl; lia].
Qed.

Lemma parse_gnu_complete max_files max_metadata a :
  reliable s bs -> (forall site n, try_reserve site n = true) -> 0 <= max_files ->
  gnu_archive bs a -> Z.of_nat (length (g_members a)) <= max_files -> g_metadata_bytes a <= max_metadata ->
  parse_gnu_longname_portable_v1 s max_files max_metadata = Some (Ok a).
Proof.
  intros Hs Halloc Hf Ha Hn Hm. pose proof (reliable_represents _ _ Hs) as Hr.
  pose proof (parse_gnu_total max_files max_metadata Hr) as Htot. pose proof (ga_fits _ _ Ha) as Hfit.
  pose proof (gnu_records_bound _ _ _ _ _ (ga_records _ _ Ha)) as [Hb _].
  assert (Hguard : (src_len s <? BLOCK_LEN * 2) || negb (src_len s mod BLOCK_LEN =? 0) = false).
  { rewrite (represents_len _ _ Hr), (ga_blocks _ _ Ha). apply orb_false_iff.
    split; [apply Z.ltb_ge; unfold BLOCK_LEN in *; lia|done]. }
  unfold parse_gnu_longname_portable_v1 in *. rewrite Hguard in *.
  assert (Hmeta : g_metadata_bytes a = records_metadata (g_members a) (g_carriers a) + BLOCK_LEN * 2)
    by (rewrite (ga_layout _ _ Ha) at 1; done).
  eapply run_loop_reaches; [exact Htot| |by apply (gnu_step_end s bs)].
  eapply gnu_records_run; [done..|apply (ga_records _ _ Ha)|done|unfold BLOCK_LEN in *; lia].
Qed.

(** C22: On a reliable source and with memory available, the GNU reader always
    returns, and accepts exactly the archives of the carrier grammar that fit
    the caps. *)
Theorem parse_gnu_accepts_iff max_files max_metadata :
  reliable s bs -> (forall site n, try_reserve site n = true) -> 0 <= max_files ->
  (exists r, parse_gnu_longname_portable_v1 s max_files max_metadata = Some r) /\
  forall a,
  parse_gnu_longname_portable_v1 s max_files max_metadata = Some (Ok a) <->
  gnu_archive bs a /\ Z.of_nat (length (g_members a)) <= max_files
  /\ g_metadata_bytes a <= max_metadata.
Proof.
  intros Hs Halloc Hf. pose proof (reliable_represents _ _ Hs) as Hr.
  pose proof (parse_gnu_total max_files max_metadata Hr) as Htot. split; [done|].
  intros a. split.
  - intros (Ha & Hn & Hm)%(parse_gnu_sound max_files max_metadata); [|done]. split_and!; [done|lia|done].
  - intros (Ha & Hn & Hm). by apply parse_gnu_complete.
Qed.

(** Read errors and failed reservations can only refuse: whatever the GNU
    reader accepts is in the grammar and within the caps, and it returns. *)
Theorem parse_gnu_faulty_source max_files max_metadata :
  represents s bs -> 0 <= max_files ->
  (exists r, parse_gnu_longname_portable_v1 s max_files max_metadata = Some r) /\
  forall a, parse_gnu_longname_portable_v1 s max_files max_metadata = Some (Ok a) ->
  gnu_archive bs a /\ Z.of_nat (length (g_members a)) <= max_files
  /\ g_metadata_bytes a <= max_metadata.
Proof.
  intros Hr Hf. split; [by apply parse_gnu_total|].
  intros a (Ha & Hn & Hm)%parse_gnu_sound; [|done]. split_and!; [done|lia|done].
Qed.

(** C23: Every carrier of an accepted archive is consumed by exactly one member:
    the carrier indices of the members, read in order, are 0, 1, ..., n - 1.
    A member with an index is named by that carrier's path bytes and its
    header starts where the carrier's padding ends; a member without one has
    its own header name. *)
Theorem gnu_carriers_consumed_once max_files max_metadata a :
  represents s bs ->
  parse_gnu_longname_portable_v1 s max_files max_metadata = Some (Ok a) ->
  omap g_carrier_index (g_members a) = seqZ 0 (Z.of_nat (length (g_carriers a)))
  /\ Z.of_nat (length (g_carriers a)) <= MAX_CARRIERS
  /\ Forall (named_by (g_carriers a)) (g_members a).
Proof.
  intros Hs (Ha & _ & _)%parse_gnu_sound; [|done]. pose proof (ga_records _ _ Ha) as Hr.
  split_and!.
  - pose proof (gnu_records_consumed bs _ _ _ _ Hr) as Hc. simpl in Hc. by rewrite app_nil_r in Hc.
  - clear Ha. induction Hr; [done| |done..]. rewrite length_app. simpl. lia.
  - by apply (gnu_records_named bs) in Hr as [? _]; [|apply (represents_u64 _ _ Hs)].
Qed.

(** The carriers' and members' ranges, the terminator and the trailing zeros
    tile the source of an accepted GNU archive. *)
Theorem gnu_archive_tiles max_files max_metadata a :
  represents s bs ->
  parse_gnu_longname_portable_v1 s max_files max_metadata = Some (Ok a) ->
  tiles {| start := 0; end_ := src_len s |} (intervals (gnu_ranges a)).
Proof.
  intros Hs (Ha & _ & _)%parse_gnu_sound; [|done]. rewrite (represents_len _ _ Hs).
  apply adjacent_tiles, gnu_archive_adjacent; [apply (represents_u64 _ _ Hs)|done].
Qed.
End Theorems.

(** ** A carrier followed by an unsupported record

    The profile document says such an archive fails with [tar.gnu.state]; the
    header is parsed before the pending name is looked at, so the finding is
    the header's own. *)
Lemma pending_unsupported_code {S} `{Source S} `{!Sha256} `{!Allocator} (s : S) bs mf mm ms cs p off :
  reliable s bs -> 0 <= off -> off + BLOCK_LEN <= Z.of_nat (length bs) ->
  let hdr := range off BLOCK_LEN bs in
  slice 257 265 hdr = oldgnu_magic -> is_ok (check_checksum hdr) = true ->
  at_ hdr 156 = x32 ->
  exists f, gnu_step s mf mm (state_at ms cs (Some p) off) = Some (Err f)
    /\ code f = TarFeatureUnsupported.
Proof.
  intros Hs Ho Hin hdr Hmagic Hck Hflag. pose proof (reliable_represents _ _ Hs) as Hr.
  unfold gnu_step, TarGnu.checked_add, TarGnu.is_zero_block. cbn [gs_offset state_at].
  rewrite (gnu_in_range_add s bs Hs) by (unfold BLOCK_LEN in *; lia).
  rewrite (represents_len _ _ Hr), (proj2 (Z.ltb_ge _ _)) by lia.
  rewrite (reliable_read _ _ Hs) by (unfold BLOCK_LEN in *; lia). fold hdr.
  destruct (TarFields.is_zero_block hdr) eqn:Hz.
  { exfalso. pose proof (all_zero_slice 257 265 _ Hz) as Hz1. by rewrite Hmagic in Hz1. }
  unfold parse_header, bytes_eqb. rewrite Hmagic, bool_decide_eq_true_2 by done. cbn [negb].
  destruct (check_checksum hdr) as [v|]; [|done].
  unfold parse_kind. rewrite Hflag. exists (unsupported_typeflag_finding hdr x32). split; [reflexivity|].
  apply unsupported_typeflag_code.
Qed.

(** ** Witnesses: the repository's canonical long-name archive *)

(** [fuzz_header] and [append_fuzz_record] of [tar_gnu.rs]. *)
Definition fuzz_header (name : list byte) (size : Z) (typeflag : byte) : list byte :=
  fix_fuzz_checksum (text_field 100 name ++ write_octal 8 420 ++ write_octal 8 0
    ++ write_octal 8 0 ++ write_octal 12 size ++ write_octal 12 0 ++ replicate 8 x20
    ++ [typeflag] ++ replicate 100 x00 ++ oldgnu_magic ++ replicate 247 x00).
Definition append_fuzz_record (bytes header payload : list byte) : list byte :=
  bytes ++ header ++ payload
    ++ replicate (Z.to_nat (padded (Z.of_nat (length payload))) - length payload) x00.

(** [canonical_fuzz_archive] of [tar_gnu.rs]. *)
Definition gnu_canonical_fuzz_archive : list byte :=
  let path := replicate 110 x67 ++ lit ".txt" in
  let carrier_payload := path ++ [x00] in
  let bytes := append_fuzz_record []
    (fuzz_header (lit "././@LongLink") (Z.of_nat (length carrier_payload)) x4c) carrier_payload in
  let bytes := append_fuzz_record bytes (fuzz_header (take 100 path) 1 x30) (lit "x") in
  bytes ++ replicate 1024 x00.

Definition gnu_canonical_snapshot : SourceSnapshot :=
  @borrowed null_sha256 None gnu_canonical_fuzz_archive.
Definition gnu_canonical_archive : GnuLongNameArchive :=
  match @parse_gnu_longname_portable_v1 _ _ null_sha256 always_reserves
    gnu_canonical_snapshot 1 2560 with
  | Some (Ok a) => a
  | _ => {| g_members := []; g_carriers := []; g_member_records := mkrange 0 0;
            g_terminator := mkrange 0 0; g_trailing_zeros := mkrange 0 0; g_metadata_bytes := 0 |}
  end.

Lemma gnu_canonical_parsed :
  @parse_gnu_longname_portable_v1 _ _ null_sha256 always_reserves gnu_canonical_snapshot 1 2560
  = Some (Ok gnu_canonical_archive).
Proof. vm_compute. reflexivity. Qed.

Lemma gnu_canonical_reliable : reliable gnu_canonical_snapshot gnu_canonical_fuzz_archive.
Proof. apply borrowed_reliable. vm_compute. discriminate. Qed.

Lemma gnu_canonical_represents : represents gnu_canonical_snapshot gnu_canonical_fuzz_archive.
Proof. apply reliable_represents, gnu_canonical_reliable. Qed.

Lemma parse_gnu_accepts_iff_witness :
  @gnu_archive null_sha256 gnu_canonical_fuzz_archive gnu_canonical_archive
  /\ @parse_gnu_longname_portable_v1 _ _ null_sha256 always_reserves gnu_canonical_snapshot 1 2559
     <> Some (Ok gnu_canonical_archive).
Proof.
  split.
  - apply (@parse_gnu_accepts_iff _ _ null_sha256 always_reserves gnu_canonical_snapshot
      gnu_canonical_fuzz_archive 1 2560);
      [exact gnu_canonical_reliable|done|lia|exact gnu_canonical_parsed].
  - intros Hp.
    apply (@parse_gnu_accepts_iff _ _ null_sha256 always_reserves gnu_canonical_snapshot
      gnu_canonical_fuzz_archive 1 2559) in Hp as (_ & _ & Hm);
      [|exact gnu_canonical_reliable|done|lia].
    vm_compute in Hm. by apply Hm.
Defined.

Lemma parse_gnu_faulty_source_witness :
  @gnu_archive null_sha256 gnu_canonical_fuzz_archive gnu_canonical_archive.
Proof.
  destruct (@parse_gnu_faulty_source _ _ null_sha256 always_reserves gnu_canonical_snapshot
    gnu_canonical_fuzz_archive 1 2560 gnu_canonical_represents ltac:(lia)) as [_ H].
  exact (proj1 (H _ gnu_canonical_parsed)).
Defined.

Lemma gnu_carriers_consumed_once_witness :
  omap g_carrier_index (g_members gnu_canonical_archive) = [0]
  /\ length (g_carriers gnu_canonical_archive) = 1%nat.
Proof.
  destruct (@gnu_carriers_consumed_once _ _ null_sha256 always_reserves gnu_canonical_snapshot
    gnu_canonical_fuzz_archive 1 2560 _ gnu_canonical_represents gnu_canonical_parsed) as (H & _ & _).
  split; [rewrite H|]; vm_compute; reflexivity.
Defined.

Lemma gnu_archive_tiles_witness :
  tiles {| start := 0; end_ := src_len gnu_canonical_snapshot |}
    (intervals (gnu_ranges gnu_canonical_archive))
  /\ length (intervals (gnu_ranges gnu_canonical_archive)) = 7%nat.
Proof.
  split; [|vm_compute; reflexivity].
  exact (@gnu_archive_tiles _ _ null_sha256 always_reserves gnu_canonical_snapshot
    gnu_canonical_fuzz_archive 1 2560 _ gnu_canonical_represents gnu_canonical_parsed).
Defined.
