(* ===== verification/TarPax.v ===== *)
(** * The restricted PAX reader ([tar_pax.rs])

    Portable ustar headers plus local ([x]) and global ([g]) extension headers
    whose payloads hold one or two canonical [path] and [size] records.  The
    field functions the source repeats from [tar.rs] are named again here. *)

From S2P Require Import Prelude Utf8 Findings Snapshot TarFields Tar.
Local Open Scope Z_scope.

Definition MAX_EXTENSION_BYTES : Z := 64 * 1024.
Definition MAX_EXTENSIONS : Z := 1024.
Definition MAX_EFFECTIVE_PATH_BYTES : Z := 8191.
Definition MAX_RECORD_LENGTH_DIGITS : nat := 20.
Definition MAX_KEYWORD_BYTES : nat := 16.

(** ** Data *)

Inductive PaxExtensionKind : Type := Global | Local.
#[export] Instance PaxExtensionKind_eq_dec : EqDecision PaxExtensionKind.
Proof. solve_decision. Defined.

Inductive PaxKeyword : Type := Path | Size.
#[export] Instance PaxKeyword_eq_dec : EqDecision PaxKeyword.
Proof. solve_decision. Defined.

Inductive PaxValueSource : Type :=
  | FromUstar
  | FromGlobal (extension_index record_index : Z)
  | FromLocal (extension_index record_index : Z).

Inductive PaxRecordValue : Type :=
  | PathValue (path : str)
  | SizeValue (size : Z).

Record PaxRecord : Type := {
  keyword : PaxKeyword;
  value : PaxRecordValue;
  record : ByteRange;
  value_range : ByteRange;
  raw_value_bytes : list byte
}.

Record PaxExtension : Type := {
  x_kind : PaxExtensionKind;
  x_raw_name : list byte;
  x_header_checksum : Z;
  x_header_sha256 : str;
  x_payload_sha256 : str;
  x_mode : Z;
  x_mtime : Z;
  x_header : ByteRange;
  x_payload : ByteRange;
  x_padding : ByteRange;
  x_records : list PaxRecord
}.

Record PaxMemberSources : Type := { src_path : PaxValueSource; src_size : PaxValueSource }.

Record PaxMember : Type := {
  m_raw_name : list byte;
  m_name : str;
  m_header_size : Z;
  m_size : Z;
  m_mode : Z;
  m_mtime : Z;
  m_header_checksum : Z;
  m_header_sha256 : str;
  m_header : ByteRange;
  m_payload : ByteRange;
  m_padding : ByteRange;
  m_is_dir : bool;
  m_sources : PaxMemberSources
}.

Record PaxArchive : Type := {
  x_members : list PaxMember;
  x_extensions : list PaxExtension;
  x_member_records : ByteRange;
  x_terminator : ByteRange;
  x_trailing_zeros : ByteRange;
  x_metadata_bytes : Z
}.

Inductive HeaderKind : Type := File | Directory | GlobalExtension | LocalExtension.
#[export] Instance HeaderKind_eq_dec : EqDecision HeaderKind.
Proof. solve_decision. Defined.

Record ParsedHeader : Type := {
  h_raw_name : list byte;
  h_size : Z;
  h_mode : Z;
  h_mtime : Z;
  h_header_checksum : Z;
  h_header_sha256 : str;
  h_header : ByteRange;
  h_kind : HeaderKind
}.

Record StateValue (T : Type) : Type := {
  sv_value : T;
  sv_extension_index : Z;
  sv_record_index : Z
}.
Arguments sv_value {T} _.
Arguments sv_extension_index {T} _.
Arguments sv_record_index {T} _.

Record OverrideState : Type := {
  os_path : option (StateValue str);
  os_size : option (StateValue Z)
}.
Definition default_state : OverrideState := {| os_path := None; os_size := None |}.

(** [OverrideState::from_records]. *)
Fixpoint override_records (records : list PaxRecord) (extension_index record_index : Z)
    (state : OverrideState) : OverrideState :=
  match records with
  | [] => state
  | r :: records =>
      override_records records extension_index (record_index + 1)
        match value r with
        | PathValue path =>
            {| os_path := Some {| sv_value := path; sv_extension_index := extension_index;
                                  sv_record_index := record_index |};
               os_size := os_size state |}
        | SizeValue size =>
            {| os_path := os_path state;
               os_size := Some {| sv_value := size; sv_extension_index := extension_index;
                                  sv_record_index := record_index |} |}
        end
  end.
Definition from_records (records : list PaxRecord) (extension_index : Z) : OverrideState :=
  override_records records extension_index 0 default_state.

(** [OverrideState::update_from]. *)
Definition update_from (state update : OverrideState) : OverrideState :=
  {| os_path := match os_path update with Some v => Some v | None => os_path state end;
     os_size := match os_size update with Some v => Some v | None => os_size state end |}.

(** ** Shared helpers *)

Definition pax_syntax (detail : string) : Finding := error TarPaxRecord detail.

Definition parse_checksum := TarFields.parse_checksum.
Definition parse_device_number := TarFields.parse_device_number.
Definition parse_octal := TarFields.parse_octal.
Definition parse_octal_digits := TarFields.parse_octal_digits.
Definition parse_text_field := TarFields.parse_text_field.
Definition validate_owner_text := TarFields.validate_owner_text.
Definition ensure_zero_range {S} `{Source S} := TarFields.ensure_zero_range (S := S).
Definition round_up_block := TarFields.round_up_block.
Definition checked_add := TarFields.checked_add.
Definition is_zero_block := TarFields.is_zero_block.

Definition is_known_unsupported_typeflag (typeflag : byte) : bool :=
  match typeflag with
  | "1" | "2" | "3" | "4" | "6" | "7" | "L" | "K" | "S" | "D" | "M" | "N" | "V" => true
  | _ => false
  end%byte.

(** [parse_decimal]. *)
Definition parse_decimal (digits : list byte) (label : string) : result Z Finding :=
  ok_or (fold_digits 10 0 digits) (pax_syntax (label +++ " overflowed u64")).

(** [add_metadata]. *)
Definition add_metadata (current amount cap : Z) : result Z Finding :=
  let? total := ok_or (u64_checked_add current amount)
    (error QuotaOverflow "pax metadata accounting overflowed u64") in
  reject cap <? total
    with error QuotaMetadata
      ("pax TAR metadata is " +++ fmt_dec total +++ " bytes; cap is " +++ fmt_dec cap) ;;
  Ok total.

(** [validate_path_bytes] and [validate_effective_path]. *)
Definition validate_path_bytes (path : list byte) : result unit Finding :=
  reject (length path =? 0)%nat with error PathEmpty "effective pax path is empty" ;;
  reject MAX_EFFECTIVE_PATH_BYTES <? Z.of_nat (length path)
    with error PathDepth
      ("effective pax path is " +++ fmt_dec (Z.of_nat (length path))
         +++ " bytes; profile cap is 8191") ;;
  reject existsb is_zero_byte path
    with error PathNul "effective pax path contains NUL" ;;
  Ok ().
Definition validate_effective_path (path : str) : result unit Finding := validate_path_bytes path.

(** The [match header[156]] of [parse_header]. *)
Definition parse_kind (hdr : list byte) : result HeaderKind Finding :=
  let typeflag := at_ hdr 156 in
  match typeflag with
  | "0"%byte | x00 => Ok File
  | "5"%byte => Ok Directory
  | "g"%byte => Ok GlobalExtension
  | "x"%byte => Ok LocalExtension
  | _ =>
      if is_known_unsupported_typeflag typeflag
      then Err (unsupported_typeflag_finding hdr typeflag)
      else Err (error TarType ("unknown ustar typeflag 0x" +++ fmt_hex2 (u8 typeflag)))
  end.

(** ** Precedence *)

(** [resolve_path]. *)
Definition resolve_path (raw_name : list byte) (globals : OverrideState)
    (local : option OverrideState) : result (str * PaxValueSource) Finding :=
  let? (name, origin) :=
    match local ≫= os_path with
    | Some v => Ok (sv_value v, FromLocal (sv_extension_index v) (sv_record_index v))
    | None =>
        match os_path globals with
        | Some v => Ok (sv_value v, FromGlobal (sv_extension_index v) (sv_record_index v))
        | None =>
            let? name := ok_or (from_utf8 raw_name)
              (error PathUnicode "effective ustar member name is not strict UTF-8") in
            Ok (name, FromUstar)
        end
    end in
  let? _ := validate_effective_path name in
  Ok (name, origin).

(** [resolve_size]. *)
Definition resolve_size (header_size : Z) (globals : OverrideState)
    (local : option OverrideState) : Z * PaxValueSource :=
  match local ≫= os_size with
  | Some v => (sv_value v, FromLocal (sv_extension_index v) (sv_record_index v))
  | None =>
      match os_size globals with
      | Some v => (sv_value v, FromGlobal (sv_extension_index v) (sv_record_index v))
      | None => (header_size, FromUstar)
      end
  end.

(** ** Extension records *)

(** The inner [while] over the length digits. *)
Fixpoint digit_prefix (bytes : list byte) : nat :=
  match bytes with
  | b :: bytes => if is_ascii_digit b then S (digit_prefix bytes) else O
  | [] => O
  end.

Section Records.
Context `{!Allocator}.

(** [reserve_one]. *)
Definition reserve_one (label : string) : result unit Finding :=
  if try_reserve label 1 then Ok ()
  else Err (error QuotaOverflow ("could not grow bounded " +++ label)).

(** [parse_path_value]. *)
Definition parse_path_value (value : list byte) : result str Finding :=
  let? _ := validate_path_bytes value in
  let? decoded := ok_or (from_utf8 value)
    (error PathUnicode "pax path value is not strict UTF-8") in
  reject negb (try_reserve "pax path value" (Z.of_nat (length value)))
    with error QuotaOverflow "could not allocate the bounded pax path value" ;;
  Ok decoded.

(** [copy_value_bytes]. *)
Definition copy_value_bytes (value : list byte) : result (list byte) Finding :=
  if try_reserve "pax record evidence" (Z.of_nat (length value)) then Ok value
  else Err (error QuotaOverflow "could not allocate bounded pax record evidence").

(** The [match keyword_bytes]: the keyword, its value and the flags after it. *)
Definition parse_value (keyword_bytes value_bytes : list byte) (saw_path saw_size : bool) :
    result (PaxKeyword * PaxRecordValue * (bool * bool)) Finding :=
  if bool_decide (keyword_bytes = lit "path") then
    reject saw_path with pax_syntax "pax extension repeats the path keyword" ;;
    let? path := parse_path_value value_bytes in
    Ok (Path, PathValue path, (true, saw_size))
  else if bool_decide (keyword_bytes = lit "size") then
    reject saw_size with pax_syntax "pax extension repeats the size keyword" ;;
    reject (length value_bytes =? 0)%nat || negb (forallb is_ascii_digit value_bytes)
           || ((1 <? length value_bytes)%nat && (u8 (at_ value_bytes 0) =? 48))
           || (MAX_RECORD_LENGTH_DIGITS <? length value_bytes)%nat
      with pax_syntax "pax size must be canonical unsigned decimal without a leading zero" ;;
    let? size := parse_decimal value_bytes "pax size" in
    Ok (Size, SizeValue size, (saw_path, true))
  else Err (pax_keyword_refusal keyword_bytes).

(** The mutable state of [parse_records]. *)
Record RecordsState : Type := {
  rc_records : list PaxRecord;
  rc_cursor : nat;
  rc_saw_path : bool;
  rc_saw_size : bool
}.

(** The length prefix at the cursor: its digit count and its value. *)
Definition parse_record_length (payload : list byte) (length_start : nat) :
    result (nat * Z) Finding :=
  let digits := digit_prefix (drop length_start payload) in
  reject (MAX_RECORD_LENGTH_DIGITS <? digits)%nat
    with pax_syntax "pax record length exceeds 20 decimal digits" ;;
  let cursor := (length_start + digits)%nat in
  reject (cursor =? length_start)%nat || (cursor =? length payload)%nat
         || negb (u8 (at_ payload cursor) =? 32)
    with pax_syntax "pax record must start with decimal length followed by one space" ;;
  let length_digits := slice length_start cursor payload in
  reject (1 <? length length_digits)%nat && (u8 (at_ length_digits 0) =? 48)
    with pax_syntax "pax record length has a leading zero" ;;
  let? record_len := parse_decimal length_digits "pax record length" in
  Ok (cursor, record_len).

(** One iteration of the [while] loop of [parse_records]; [usize] is 64 bits
    wide, so the conversions between it and [u64] cannot fail. *)
Definition parse_records_step (payload : list byte) (payload_offset : Z) (st : RecordsState) :
    exec (control RecordsState (list PaxRecord)) Finding :=
  if (length payload <=? rc_cursor st)%nat then Some (Ok (Return (rc_records st)))
  else
    reject! (length (rc_records st) =? 2)%nat
      with pax_syntax "pax extension contains more than two records" ;;
    let length_start := rc_cursor st in
    let* (cursor, record_len) := parse_record_length payload length_start in
    let* record_end := ok_or (u64_checked_add (Z.of_nat length_start) record_len)
      (pax_syntax "pax record end overflowed usize") in
    reject! (record_len =? 0) || (Z.of_nat (length payload) <? record_end)
      with pax_syntax "pax record length extends beyond the extension payload" ;;
    let record_end := Z.to_nat record_end in
    reject! negb (u8 (at_ payload (record_end - 1)) =? 10)
      with pax_syntax "pax record is not terminated by newline" ;;
    let cursor := S cursor in
    reject! (record_end - 1 <=? cursor)%nat
      with pax_syntax "pax record has an empty key/value body" ;;
    let body := slice cursor (record_end - 1) payload in
    let* equals := ok_or (position (fun b => u8 b =? 61) (take MAX_KEYWORD_BYTES body))
      (pax_syntax "pax record lacks '=' within the 16-byte keyword scan bound") in
    reject! (equals =? 0)%nat
      with pax_syntax "pax keyword length is outside the closed profile" ;;
    let keyword_bytes := take equals body in
    let value_bytes := drop (S equals) body in
    let value_start := (cursor + S equals)%nat in
    let* (kv, saw) := parse_value keyword_bytes value_bytes (rc_saw_path st) (rc_saw_size st) in
    let* source_offset := checked_add payload_offset (Z.of_nat length_start) "pax record offset" in
    let* value_offset := checked_add payload_offset (Z.of_nat value_start) "pax value offset" in
    let* _ := reserve_one "pax record table" in
    let* evidence := copy_value_bytes value_bytes in
    Some (Ok (Continue
      {| rc_records := rc_records st ++
           [{| keyword := fst kv; value := snd kv;
               record := mkrange source_offset record_len;
               value_range := mkrange value_offset (Z.of_nat (length value_bytes));
               raw_value_bytes := evidence |}];
         rc_cursor := record_end;
         rc_saw_path := fst saw;
         rc_saw_size := snd saw |})).

(** [parse_records]; every record is at least one byte long and the third is
    refused, so three iterations and the final test suffice. *)
Definition parse_records (payload : list byte) (payload_offset : Z) :
    exec (list PaxRecord) Finding :=
  let! records := run_loop (parse_records_step payload payload_offset) 4
    {| rc_records := []; rc_cursor := 0; rc_saw_path := false; rc_saw_size := false |} in
  reject! match records with [] => true | _ => false end
    with pax_syntax "pax extension must contain one or two records" ;;
  Some (Ok records).
End Records.

(** ** Headers *)

Section Pax.
Context {S} `{Source S} `{!Sha256} `{!Allocator}.

(** [parse_header]. *)
Definition parse_header (hdr : list byte) (off : Z) : result ParsedHeader Finding :=
  reject negb (bytes_eqb (slice 257 263 hdr) ustar_magic)
         || negb (bytes_eqb (slice 263 265 hdr) (lit "00"))
    with error TarDialect "header is not exact POSIX ustar magic and version" ;;
  let? stored_checksum := check_checksum hdr in
  let? kind := parse_kind hdr in
  reject negb (all_zero (drop 500 hdr))
    with error TarDialect "reserved ustar header bytes are not zero" ;;
  reject negb (all_zero (slice 157 257 hdr))
    with error TarType "linkname must be empty in the closed pax profile" ;;
  let? mode := parse_octal (slice 100 108 hdr) "mode" in
  reject 4095 <? mode
    with error TarNumeric "mode exceeds the portable permission-bit range" ;;
  let? _ := parse_octal (slice 108 116 hdr) "uid" in
  let? _ := parse_octal (slice 116 124 hdr) "gid" in
  let? size := parse_octal (slice 124 136 hdr) "size" in
  let? mtime := parse_octal (slice 136 148 hdr) "mtime" in
  reject bool_decide (kind = Directory) && negb (size =? 0)
    with error TarType "directory member declares a nonzero underlying payload size" ;;
  let? devmajor := parse_device_number (slice 329 337 hdr) "devmajor" in
  let? devminor := parse_device_number (slice 337 345 hdr) "devminor" in
  reject negb (devmajor =? 0) || negb (devminor =? 0)
    with error TarType "device numbers must be zero in the closed pax profile" ;;
  let? _ := validate_owner_text (slice 265 297 hdr) "uname" in
  let? _ := validate_owner_text (slice 297 329 hdr) "gname" in
  let? name := parse_text_field (slice 0 100 hdr) "name" false in
  let? prefix := parse_text_field (slice 345 500 hdr) "prefix" true in
  let raw_name := join_name prefix name in
  reject negb (try_reserve "ustar name" (Z.of_nat (length raw_name)))
    with error QuotaMetadata "could not allocate bounded ustar name" ;;
  Ok {| h_raw_name := raw_name; h_size := size; h_mode := mode; h_mtime := mtime;
        h_header_checksum := stored_checksum; h_header_sha256 := hex_sha256 hdr;
        h_header := mkrange off BLOCK_LEN; h_kind := kind |}.

(** ** The archive loop *)

Record PaxState : Type := {
  ps_members : list PaxMember;
  ps_extensions : list PaxExtension;
  ps_globals : OverrideState;
  ps_pending : option OverrideState;
  ps_offset : Z;
  ps_metadata : Z
}.

Definition pax_init : PaxState :=
  {| ps_members := []; ps_extensions := []; ps_globals := default_state; ps_pending := None;
     ps_offset := 0; ps_metadata := 0 |}.

(** The branch of the loop taken on a zero block. *)
Definition pax_finish (snapshot : S) (max_metadata_bytes : Z) (st : PaxState)
    (header_end : Z) : exec (control PaxState PaxArchive) Finding :=
  let source_len := src_len snapshot in
  reject! bool_decide (is_Some (ps_pending st))
    with error TarPaxState "local pax header is not followed by an ordinary member" ;;
  let second_offset := header_end in
  let* second_end := checked_add second_offset BLOCK_LEN "terminator end" in
  reject! source_len <? second_end
    with error TarTerminator "archive has only one zero end block" ;;
  let* second := src_read snapshot second_offset BLOCK_LEN in
  reject! negb (is_zero_block second)
    with error TarTerminator
      "a zero header block is not followed by the required second zero block" ;;
  let* metadata := add_metadata (ps_metadata st) (BLOCK_LEN * 2) max_metadata_bytes in
  let! _ := ensure_zero_range snapshot second_end (source_len - second_end) "record padding" in
  Some (Ok (Return
    {| x_members := ps_members st;
       x_extensions := ps_extensions st;
       x_member_records := mkrange 0 (ps_offset st);
       x_terminator := mkrange (ps_offset st) (BLOCK_LEN * 2);
       x_trailing_zeros := mkrange second_end (source_len - second_end);
       x_metadata_bytes := metadata |})).

(** The extension-header branch; [kind] is the extension's. *)
Definition pax_extension (snapshot : S) (max_metadata_bytes : Z) (st : PaxState)
    (header_end : Z) (hdr : ParsedHeader) (kind : PaxExtensionKind) :
    exec (control PaxState PaxArchive) Finding :=
  let source_len := src_len snapshot in
  reject! bool_decide (is_Some (ps_pending st))
    with error TarPaxState
      "local pax header must be followed immediately by an ordinary member" ;;
  reject! MAX_EXTENSION_BYTES <? h_size hdr
    with error QuotaMetadata
      ("pax extension is " +++ fmt_dec (h_size hdr) +++ " bytes; per-extension cap is 65536") ;;
  reject! MAX_EXTENSIONS <=? Z.of_nat (length (ps_extensions st))
    with error QuotaMetadata "pax archive contains more than 1024 extensions" ;;
  let* padded_size := round_up_block (h_size hdr) in
  let payload_offset := header_end in
  let* payload_end := checked_add payload_offset (h_size hdr) "extension payload end" in
  let* record_end := checked_add payload_offset padded_size "extension record end" in
  reject! source_len <? record_end
    with error TarTruncated "declared pax extension payload extends beyond the source" ;;
  let* extension_bytes := checked_add BLOCK_LEN padded_size "extension metadata bytes" in
  let* metadata := add_metadata (ps_metadata st) extension_bytes max_metadata_bytes in
  reject! negb (try_reserve "pax extension payload" (h_size hdr))
    with error QuotaMetadata "could not allocate the bounded pax extension payload" ;;
  let* payload := src_read snapshot payload_offset (h_size hdr) in
  let! records := parse_records payload payload_offset in
  let padding_len := padded_size - h_size hdr in
  let! _ := ensure_zero_range snapshot payload_end padding_len "pax extension padding" in
  let extension_index := Z.of_nat (length (ps_extensions st)) in
  let* _ := reserve_one "pax extension table" in
  let update := from_records records extension_index in
  Some (Ok (Continue
    {| ps_members := ps_members st;
       ps_extensions := ps_extensions st ++
         [{| x_kind := kind; x_raw_name := h_raw_name hdr;
             x_header_checksum := h_header_checksum hdr;
             x_header_sha256 := h_header_sha256 hdr;
             x_payload_sha256 := hex_sha256 payload;
             x_mode := h_mode hdr; x_mtime := h_mtime hdr; x_header := h_header hdr;
             x_payload := mkrange payload_offset (h_size hdr);
             x_padding := mkrange payload_end padding_len;
             x_records := records |}];
       ps_globals :=
         match kind with
         | Global => update_from (ps_globals st) update
         | Local => ps_globals st
         end;
       ps_pending :=
         match kind with Global => ps_pending st | Local => Some update end;
       ps_offset := record_end;
       ps_metadata := metadata |})).

(** The ordinary-member branch. *)
Definition pax_member (snapshot : S) (max_files max_metadata_bytes : Z) (st : PaxState)
    (header_end : Z) (hdr : ParsedHeader) : exec (control PaxState PaxArchive) Finding :=
  let source_len := src_len snapshot in
  reject! max_files <=? Z.of_nat (length (ps_members st))
    with error QuotaFiles
      ("pax TAR contains more than " +++ fmt_dec max_files +++ " members") ;;
  let* metadata := add_metadata (ps_metadata st) BLOCK_LEN max_metadata_bytes in
  let local := ps_pending st in
  let* (name, path_origin) := resolve_path (h_raw_name hdr) (ps_globals st) local in
  let (size, size_origin) := resolve_size (h_size hdr) (ps_globals st) local in
  let is_dir := bool_decide (h_kind hdr = Directory) in
  reject! is_dir && negb (size =? 0)
    with on (error TarType "directory member declares a nonzero effective payload size") name ;;
  let payload_offset := header_end in
  let* payload_end := checked_add payload_offset size "payload end" in
  let* padded_size := round_up_block size in
  let* record_end := checked_add payload_offset padded_size "member record end" in
  reject! source_len <? record_end
    with on (error TarTruncated "declared member payload extends beyond the source") name ;;
  let padding_len := padded_size - size in
  let! _ := exec_map_err (fun finding => on finding name)
              (ensure_zero_range snapshot payload_end padding_len "member padding") in
  let* _ := reserve_one "pax member table" in
  Some (Ok (Continue
    {| ps_members := ps_members st ++
         [{| m_raw_name := h_raw_name hdr; m_name := name; m_header_size := h_size hdr;
             m_size := size; m_mode := h_mode hdr; m_mtime := h_mtime hdr;
             m_header_checksum := h_header_checksum hdr;
             m_header_sha256 := h_header_sha256 hdr; m_header := h_header hdr;
             m_payload := mkrange payload_offset size;
             m_padding := mkrange payload_end padding_len;
             m_is_dir := is_dir;
             m_sources := {| src_path := path_origin; src_size := size_origin |} |}];
       ps_extensions := ps_extensions st;
       ps_globals := ps_globals st;
       ps_pending := None;
       ps_offset := record_end;
       ps_metadata := metadata |})).

(** One iteration of the parser's [loop]. *)
Definition pax_step (snapshot : S) (max_files max_metadata_bytes : Z) (st : PaxState) :
    exec (control PaxState PaxArchive) Finding :=
  let source_len := src_len snapshot in
  let* header_end := checked_add (ps_offset st) BLOCK_LEN "header end" in
  reject! source_len <? header_end
    with error TarTruncated "member header extends beyond the source" ;;
  let* header_bytes := src_read snapshot (ps_offset st) BLOCK_LEN in
  if is_zero_block header_bytes
  then pax_finish snapshot max_metadata_bytes st header_end
  else
    let* hdr := parse_header header_bytes (ps_offset st) in
    match h_kind hdr with
    | GlobalExtension => pax_extension snapshot max_metadata_bytes st header_end hdr Global
    | LocalExtension => pax_extension snapshot max_metadata_bytes st header_end hdr Local
    | File | Directory => pax_member snapshot max_files max_metadata_bytes st header_end hdr
    end.

(** [parse_pax_portable_v1]; every iteration consumes at least one block, so
    the fuel is the number of blocks. *)
Definition parse_pax_portable_v1 (snapshot : S) (max_files max_metadata_bytes : Z) :
    exec PaxArchive Finding :=
  let source_len := src_len snapshot in
  reject! (source_len <? BLOCK_LEN * 2) || negb (source_len mod BLOCK_LEN =? 0)
    with error TarTruncated
      "pax source must contain at least two complete 512-byte blocks" ;;
  run_loop (pax_step snapshot max_files max_metadata_bytes)
    (2 + Z.to_nat (source_len / BLOCK_LEN)) pax_init.
End Pax.
