(* ===== verification/TarPaxRecords.v ===== *)
(** * The PAX record grammar ([parse_records] of [tar_pax.rs])

    [record = length SP keyword "=" value LF], where [length] is the canonical
    decimal length of the whole record.  The parser accepts exactly the
    payloads made of one or two such records with distinct keywords, and
    reports where each record and value lies. *)

From S2P Require Import Prelude Utf8 Findings Snapshot TarFields Tar TarPax.
Local Open Scope Z_scope.

(** ** Specification *)

Definition keyword_bytes (k : PaxKeyword) : list byte :=
  match k with Path => lit "path" | Size => lit "size" end.

(** The bytes of one record. *)
Definition record_body (k : PaxKeyword) (raw : list byte) : list byte :=
  [x20] ++ keyword_bytes k ++ [x3d] ++ raw ++ [x0a].
Definition is_record (k : PaxKeyword) (raw rec : list byte) : Prop :=
  rec = lit (fmt_dec (Z.of_nat (length rec))) ++ record_body k raw.

(** The admitted values: a path, or a canonical decimal [u64]. *)
Inductive record_value : PaxKeyword -> list byte -> PaxRecordValue -> Prop :=
  | value_path raw :
      raw <> [] -> Z.of_nat (length raw) <= MAX_EFFECTIVE_PATH_BYTES -> (x00 ∉ raw) ->
      is_Some (chars raw) -> record_value Path raw (PathValue raw)
  | value_size n :
      0 <= n <= u64_max -> record_value Size (lit (fmt_dec n)) (SizeValue n).

(** What the parser reports about a record that starts at [pos]. *)
Definition record_at (base pos : Z) (k : PaxKeyword) (raw rec : list byte) (v : PaxRecordValue) :
    PaxRecord :=
  {| keyword := k; value := v;
     record := mkrange (base + pos) (Z.of_nat (length rec));
     value_range := mkrange (base + pos + (Z.of_nat (length rec) - 1 - Z.of_nat (length raw)))
                            (Z.of_nat (length raw));
     raw_value_bytes := raw |}.

(** Records laid end to end, with distinct keywords. *)
Inductive pax_records (base : Z) : list byte -> list PaxRecord -> Prop :=
  | records_nil : pax_records base [] []
  | records_snoc bytes rs k raw rec v :
      pax_records base bytes rs -> k ∉ map keyword rs ->
      is_record k raw rec -> record_value k raw v ->
      pax_records base (bytes ++ rec)
        (rs ++ [record_at base (Z.of_nat (length bytes)) k raw rec v]).

(** ** Values *)

Lemma validate_path_bytes_ok path :
  validate_path_bytes path = Ok () <->
  path <> [] /\ Z.of_nat (length path) <= MAX_EFFECTIVE_PATH_BYTES /\ (x00 ∉ path).
Proof.
  unfold validate_path_bytes.
  destruct path as [|b path]; [by split; [|intros [? _]]|]. cbn [length Nat.eqb].
  destruct (Z.ltb_spec MAX_EFFECTIVE_PATH_BYTES (Z.of_nat (Datatypes.S (length path))));
    [split; [done|lia]|].
  destruct (existsb is_zero_byte (b :: path)) eqn:Hz.
  - split; [done|]. intros (_ & _ & Hn%existsb_zero). congruence.
  - apply existsb_zero in Hz. by split.
Qed.

Lemma parse_decimal_ok digits label n :
  forallb (is_digit_of 10) digits = true ->
  parse_decimal digits label = Ok n <-> n = bytes_value 10 0 digits /\ n <= u64_max.
Proof.
  intros Hd. unfold parse_decimal.
  rewrite fold_digits_exact by (done || (unfold u64_max; lia)).
  destruct (Z.leb_spec (bytes_value 10 0 digits) u64_max); simpl.
  - split; [intros [= <-]; done|intros [-> _]; done].
  - split; [done|lia].
Qed.

Lemma is_ascii_digit_of b : is_ascii_digit b = is_digit_of 10 b.
Proof. done. Qed.

Definition flag_after (k : PaxKeyword) (which : PaxKeyword) (saw : bool) : bool :=
  saw || bool_decide (k = which).

Section Values.
Context `{!Allocator}.

Lemma parse_path_value_ok raw s :
  parse_path_value raw = Ok s -> s = raw /\ record_value Path raw (PathValue raw).
Proof.
  unfold parse_path_value. intros Hp. ok_steps Hp. simplify_eq.
  repeat match goal with u : unit |- _ => destruct u end.
  match goal with Hv : validate_path_bytes _ = _ |- _ =>
    apply validate_path_bytes_ok in Hv as (Hne & Hlen & Hnul) end.
  destruct (from_utf8 raw) eqn:Hd; [|done]. simpl in *. simplify_eq.
  apply from_utf8_Some in Hd as [-> [cs Hcs]]. split; [done|]. by constructor; [..|exists cs].
Qed.

Lemma parse_value_ok kb raw sp ss k v flags :
  parse_value kb raw sp ss = Ok (k, v, flags) ->
  kb = keyword_bytes k /\ record_value k raw v
  /\ (match k with Path => sp | Size => ss end) = false
  /\ flags = (flag_after k Path sp, flag_after k Size ss).
Proof.
  unfold parse_value. intros Hp. case_bool_decide as Hk; [|case_bool_decide as Hk2; [|done]]; subst.
  - ok_steps Hp. simplify_eq.
    match goal with Hv : parse_path_value _ = Ok _ |- _ => apply parse_path_value_ok in Hv as [-> Hv] end.
    by destruct ss.
  - ok_steps Hp. simplify_eq. breflect.
    match goal with Hn : (length raw =? 0)%nat = false |- _ => apply Nat.eqb_neq in Hn as Hne end.
    match goal with Hf : forallb is_ascii_digit raw = true |- _ => rename Hf into Hdig end.
    match goal with Hv : parse_decimal _ _ = Ok _ |- _ =>
      apply parse_decimal_ok in Hv as [-> Hu]; [|exact Hdig] end.
    assert (Hcan : lit (fmt_dec (bytes_value 10 0 raw)) = raw).
    { apply fmt_dec_unique; [by intros ->|exact Hdig|].
      match goal with Hz : ((1 <? length raw)%nat && _) = false |- _ =>
        apply andb_false_iff in Hz as [Hz|Hz]; [apply Nat.ltb_ge in Hz; lia|by apply Z.eqb_neq in Hz]
      end. }
    split_and!; [done| |done|by destruct sp].
    pose proof (bytes_value_bound 10 0 raw ltac:(lia) Hdig) as [Hlo _].
    rewrite <- Hcan at 1. constructor. lia.
Qed.

Lemma parse_value_complete k raw v sp ss :
  (forall site n, try_reserve site n = true) -> record_value k raw v ->
  (match k with Path => sp | Size => ss end) = false ->
  parse_value (keyword_bytes k) raw sp ss = Ok (k, v, (flag_after k Path sp, flag_after k Size ss)).
Proof.
  intros Halloc Hv Hs. unfold parse_value. destruct Hv as [raw Hne Hlen Hnul [cs Hcs]|n Hn]; cbn in Hs; subst.
  - rewrite bool_decide_eq_true_2 by done.
    unfold parse_path_value. rewrite (proj2 (validate_path_bytes_ok raw)) by done.
    unfold from_utf8. rewrite Hcs. cbn [ok_or]. rewrite Halloc. by destruct ss.
  - rewrite bool_decide_eq_false_2, bool_decide_eq_true_2 by done.
    destruct (fmt_dec_digits n Hn) as (Hne & Hd & Hval & Hlen & Hz). cbv zeta in *.
    set (l := lit (fmt_dec n)) in *.
    assert (Hl0 : (length l =? 0)%nat = false) by (destruct l; done).
    assert (Hl1 : (1 <? length l)%nat && (u8 (at_ l 0) =? 48) = false).
    { apply andb_false_iff. destruct (Z.eqb_spec (u8 (at_ l 0)) 48) as [E|]; [left|by right].
      apply Nat.ltb_ge. rewrite (Hz E). lia. }
    assert (Hl2 : (MAX_RECORD_LENGTH_DIGITS <? length l)%nat = false)
      by (apply Nat.ltb_ge; exact Hlen).
    assert (Hd' : forallb is_ascii_digit l = true) by exact Hd.
    rewrite Hl0, Hl1, Hl2, Hd'. cbn [negb orb].
    rewrite (proj2 (parse_decimal_ok l "pax size" n Hd)) by (rewrite Hval; lia). by destruct sp.
Qed.
End Values.

(** ** The length prefix *)

Lemma digit_prefix_split l :
  exists rest, l = take (digit_prefix l) l ++ rest
    /\ forallb (is_digit_of 10) (take (digit_prefix l) l) = true
    /\ (digit_prefix l <= length l)%nat.
Proof.
  induction l as [|b l IH]; simpl; [by exists []|].
  destruct (is_ascii_digit b) eqn:Hb; simpl.
  - destruct IH as (rest & IH1 & IH2 & IH3). exists rest. split_and!; [by f_equal| |lia].
    rewrite IH2. change (is_digit_of 10 b && true = true). rewrite andb_true_r. exact Hb.
  - exists (b :: l). split_and!; [done|done|lia].
Qed.

Lemma digit_prefix_app ds rest :
  forallb (is_digit_of 10) ds = true ->
  match rest with b :: _ => is_ascii_digit b = false | [] => True end ->
  digit_prefix (ds ++ rest) = length ds.
Proof.
  induction ds as [|b ds IH]; simpl; intros Hd Hr.
  - destruct rest; simpl; [done|]. by rewrite Hr.
  - apply andb_true_iff in Hd as [Hb Hd]. change (is_ascii_digit b = true) in Hb. rewrite Hb.
    f_equal. by apply IH.
Qed.

Lemma parse_record_length_ok payload pos c n :
  (pos <= length payload)%nat ->
  parse_record_length payload pos = Ok (c, n) ->
  slice pos c payload = lit (fmt_dec n) /\ c = (pos + length (lit (fmt_dec n)))%nat
  /\ (c < length payload)%nat /\ at_ payload c = x20 /\ 0 <= n <= u64_max.
Proof.
  intros Hpos Hp. unfold parse_record_length in Hp. ok_steps Hp.
  destruct (digit_prefix_split (drop pos payload)) as (rest & Hsplit & Hd & Hle).
  set (k := digit_prefix (drop pos payload)) in *. simplify_eq.
  rewrite length_drop in Hle.
  assert (Hslice : slice pos (pos + k) payload = take k (drop pos payload))
    by (unfold slice; f_equal; lia).
  assert (Hlen : length (slice pos (pos + k) payload) = k) by (rewrite length_slice by lia; lia).
  repeat match goal with Hg : (_ || _)%bool = false |- _ =>
    apply orb_false_iff in Hg; destruct Hg end.
  repeat match goal with Hg : (_ =? _)%nat = false |- _ => apply Nat.eqb_neq in Hg end.
  match goal with Hg : negb (u8 (at_ payload _) =? 32) = false |- _ =>
    apply negb_false_iff, Z.eqb_eq in Hg; rename Hg into Hsp end.
  match goal with Hg : parse_decimal _ _ = Ok _ |- _ => rewrite Hslice in Hg;
    apply parse_decimal_ok in Hg as [-> Hu]; [|exact Hd] end.
  assert (Hcan : lit (fmt_dec (bytes_value 10 0 (take k (drop pos payload)))) = take k (drop pos payload)).
  { rewrite <- Hslice in *. apply fmt_dec_unique; [|exact Hd|].
    - intros E. rewrite E in Hlen. simpl in Hlen. lia.
    - intros Hl Hb. match goal with Hz : ((1 <? _)%nat && _) = false |- _ => rewrite Hb in Hz;
        apply andb_false_iff in Hz as [Hz|Hz]; [apply Nat.ltb_ge in Hz; lia|done] end. }
  rewrite Hcan. split_and!; [done| | | | |lia].
  - rewrite <- Hslice, Hlen. done.
  - lia.
  - by apply u8_inj.
  - pose proof (bytes_value_bound 10 0 _ ltac:(lia) Hd) as [Hlo _]. lia.
Qed.

(** ** One record *)

Definition records_state (rs : list PaxRecord) (pos : nat) : RecordsState :=
  {| rc_records := rs; rc_cursor := pos;
     rc_saw_path := bool_decide (Path ∈ map keyword rs);
     rc_saw_size := bool_decide (Size ∈ map keyword rs) |}.

Lemma length_keyword k : length (keyword_bytes k) = 4%nat.
Proof. by destruct k. Qed.

Lemma length_record_body k raw : length (record_body k raw) = (7 + length raw)%nat.
Proof. unfold record_body. rewrite !length_app, length_keyword. simpl. lia. Qed.

Lemma flag_after_snoc k rs r which :
  keyword r = k ->
  flag_after k which (bool_decide (which ∈ map keyword rs))
  = bool_decide (which ∈ map keyword (rs ++ [r])).
Proof.
  intros Hk. unfold flag_after. apply eq_true_iff_eq.
  rewrite orb_true_iff, !bool_decide_eq_true, map_app. rewrite elem_of_app. simpl.
  rewrite list_elem_of_singleton, Hk. intuition congruence.
Qed.

Lemma take_slice {A} i j (l : list A) : (i <= j)%nat -> take j l = take i l ++ slice i j l.
Proof.
  intros Hij. unfold slice. rewrite take_take_drop. f_equal. lia.
Qed.

(** The equals sign found within the scan bound splits the body. *)
Lemma body_split body n :
  position (fun b => u8 b =? 61) (take MAX_KEYWORD_BYTES body) = Some n ->
  body = take n body ++ [x3d] ++ drop (S n) body.
Proof.
  intros (Hn & (b & Hb & Hz) & _)%position_Some. apply lookup_take_Some in Hb as [Hb _].
  rewrite <- (take_drop_middle body n b Hb) at 1. apply Z.eqb_eq in Hz.
  f_equal. simpl. f_equal. by apply u8_inj.
Qed.

Section Step.
Context `{!Allocator} (payload : list byte) (base : Z).

Lemma parse_records_step_continue rs pos st' :
  (pos <= length payload)%nat -> pax_records base (take pos payload) rs ->
  parse_records_step payload base (records_state rs pos) = Some (Ok (Continue st')) ->
  exists r pos', st' = records_state (rs ++ [r]) pos'
    /\ (pos < pos' <= length payload)%nat /\ (length rs <> 2)%nat
    /\ pax_records base (take pos' payload) (rs ++ [r]).
Proof.
  intros Hpos Hrec Hst. unfold parse_records_step in Hst.
  cbn [rc_cursor rc_records rc_saw_path rc_saw_size records_state] in Hst.
  destruct (Nat.leb_spec (length payload) pos); [done|].
  ok_steps Hst. breflect. checked_adds.
  match goal with Hl : parse_record_length _ _ = Ok _ |- _ =>
    apply parse_record_length_ok in Hl as (Hdig & -> & Hc & Hsp & Hn); [|lia] end.
  repeat match goal with Hg : (_ =? _)%nat = false |- _ => apply Nat.eqb_neq in Hg end.
  match goal with Hg : (_ <=? _)%nat = false |- _ => apply Nat.leb_gt in Hg end.
  match goal with
  | Hu : ok_or (u64_checked_add _ ?n) _ = Ok ?a |- _ =>
      apply ok_or_ok, u64_checked_add_Some in Hu as [Ha Hu]; subst a; rename n into reclen
  end.
  match goal with
  | Hu : ok_or (position _ _) _ = Ok ?e |- _ =>
      apply ok_or_ok in Hu; pose proof Hu as Heq; apply body_split in Hu as Hbody; rename e into eqs
  end.
  match goal with kv : (PaxKeyword * PaxRecordValue)%type |- _ => destruct kv as [k v] end.
  match goal with Hv : parse_value _ _ _ _ = Ok (_, ?f) |- _ =>
    destruct f as [fp fs]; apply parse_value_ok in Hv as (Hkb & Hval & Hfresh & Hflags) end.
  match goal with Hv : copy_value_bytes _ = Ok _ |- _ =>
    unfold copy_value_bytes in Hv; destruct (try_reserve _ _); [injection Hv as <-|discriminate Hv] end.
  unfold TarPax.checked_add in *. checked_adds. injection Hflags as -> ->.
  set (dig := lit (fmt_dec reclen)) in *. set (c := S (pos + length dig)) in *.
  set (stop := Z.to_nat (Z.of_nat pos + reclen)) in *.
  set (body := slice c (stop - 1) payload) in *. set (raw := drop (S eqs) body) in *.
  assert (Hstop : stop = (pos + Z.to_nat reclen)%nat) by (unfold stop; lia).
  (* the record is its digits, the space, the body and the newline *)
  assert (Hlf : slice (stop - 1) stop payload = [x0a]).
  { replace stop with (S (stop - 1)) at 2 by lia. rewrite slice_one by lia. f_equal.
    by apply u8_inj. }
  assert (Hspc : slice (pos + length dig) c payload = [x20])
    by (unfold c; rewrite slice_one by lia; by f_equal).
  assert (Hbytes : slice pos stop payload = dig ++ record_body k raw).
  { rewrite (slice_join pos (pos + length dig) stop), (slice_join (pos + length dig) c stop),
      (slice_join c (stop - 1) stop) by lia.
    rewrite Hdig, Hspc, Hlf. fold body. unfold record_body. rewrite <- Hkb.
    rewrite Hbody at 1. fold raw. by rewrite <- !app_assoc. }
  assert (Hlen : length (slice pos stop payload) = Z.to_nat reclen) by (rewrite length_slice by lia; lia).
  exists (record_at base (Z.of_nat pos) k raw (slice pos stop payload) v), stop.
  split_and!; [|lia|lia|done|].
  - injection Hst as <-. cbn [fst snd]. unfold records_state. f_equal.
    + f_equal. f_equal. unfold record_at. rewrite Hlen, Z2Nat.id by lia. f_equal.
      rewrite Hbytes, length_app, length_record_body in Hlen.
      assert (length (take eqs body) = 4%nat) as Hk4 by (rewrite Hkb; apply length_keyword).
      apply position_Some in Heq as (He & _ & _). rewrite length_take in Hk4, He.
      unfold mkrange. f_equal. unfold c. lia.
    + by rewrite <- (flag_after_snoc k).
    + by rewrite <- (flag_after_snoc k).
  - rewrite (take_slice pos stop) by lia.
    replace (Z.of_nat pos) with (Z.of_nat (length (take pos payload))) by (rewrite length_take; lia).
    constructor; [done| | |done].
    + intros Hin. destruct k; apply bool_decide_eq_false in Hfresh; done.
    + unfold is_record. rewrite Hlen at 1. rewrite Z2Nat.id by lia. exact Hbytes.
Qed.

Lemma pax_records_nodup bytes rs : pax_records base bytes rs -> NoDup (map keyword rs).
Proof.
  intros Hr. induction Hr as [|bytes rs k raw rec v Hr IH Hk _ _]; [constructor|].
  rewrite map_app. apply NoDup_app. split_and!; [done| |apply NoDup_singleton].
  intros x Hx. simpl. rewrite list_elem_of_singleton. by intros ->.
Qed.

Lemma keywords_fresh k (ks : list PaxKeyword) : NoDup ks -> k ∉ ks -> (length ks <= 1)%nat.
Proof.
  destruct ks as [|a [|b ks]]; simpl; [lia|lia|].
  intros Hnd Hk. exfalso. apply NoDup_cons in Hnd as [Hab _].
  rewrite elem_of_cons in Hab. rewrite !elem_of_cons in Hk. destruct k, a, b; naive_solver.
Qed.

Lemma parse_record_length_complete pos n tail :
  drop pos payload = lit (fmt_dec n) ++ x20 :: tail -> (pos <= length payload)%nat ->
  0 <= n <= u64_max ->
  parse_record_length payload pos = Ok ((pos + length (lit (fmt_dec n)))%nat, n).
Proof.
  intros Hdrop Hpos Hn. destruct (fmt_dec_digits n Hn) as (Hne & Hd & Hval & Hlen & Hz).
  cbv zeta in *. set (l := lit (fmt_dec n)) in *. unfold parse_record_length.
  assert (Hpl : length payload = (pos + (length l + S (length tail)))%nat).
  { apply (f_equal length) in Hdrop. rewrite length_drop, length_app in Hdrop. simpl in Hdrop. lia. }
  assert (Hpre : digit_prefix (drop pos payload) = length l) by (rewrite Hdrop; by apply digit_prefix_app).
  rewrite Hpre. rewrite (proj2 (Nat.ltb_ge _ _)) by exact Hlen.
  assert (Hl0 : (0 < length l)%nat) by (destruct l; [done|simpl; lia]).
  rewrite !(proj2 (Nat.eqb_neq _ _)) by lia.
  assert (Hat : at_ payload (pos + length l) = x20).
  { unfold at_. rewrite <- nth_skipn, Hdrop, app_nth2, Nat.sub_diag by lia. done. }
  rewrite Hat. cbn [u8 orb negb].
  assert (Hsl : slice pos (pos + length l) payload = l).
  { unfold slice. rewrite Hdrop. replace (pos + length l - pos)%nat with (length l) by lia.
    apply take_app_length. }
  rewrite Hsl. change (u8 x20 =? 32) with true. cbn [negb orb].
  assert (Hl1 : (1 <? length l)%nat && (u8 (at_ l 0) =? 48) = false).
  { apply andb_false_iff. destruct (Z.eqb_spec (u8 (at_ l 0)) 48) as [E|]; [left|by right].
    apply Nat.ltb_ge. rewrite (Hz E). lia. }
  rewrite Hl1. by rewrite (proj2 (parse_decimal_ok l _ n Hd)) by (rewrite Hval; lia).
Qed.

Lemma position_equals k raw :
  position (fun b => u8 b =? 61) (take MAX_KEYWORD_BYTES (keyword_bytes k ++ [x3d] ++ raw)) = Some 4%nat.
Proof. by destruct k. Qed.

Lemma parse_records_step_complete bytes rs k raw rec v tail :
  (forall site n, try_reserve site n = true) ->
  payload = bytes ++ rec ++ tail -> base + Z.of_nat (length payload) <= u64_max -> 0 <= base ->
  pax_records base bytes rs -> k ∉ map keyword rs -> is_record k raw rec -> record_value k raw v ->
  parse_records_step payload base (records_state rs (length bytes)) =
    Some (Ok (Continue (records_state
      (rs ++ [record_at base (Z.of_nat (length bytes)) k raw rec v]) (length (bytes ++ rec))))).
Proof.
  intros Halloc Hpay Hu Hb Hrs Hk Hrec Hval.
  assert (Hrs1 : (length rs <= 1)%nat).
  { rewrite <- (length_map keyword). apply (keywords_fresh k); [by eapply pax_records_nodup|done]. }
  set (pos := length bytes). set (n := Z.of_nat (length rec)).
  unfold is_record in Hrec. fold n in Hrec.
  assert (Hlen : length rec = (length (lit (fmt_dec n)) + (7 + length raw))%nat)
    by (rewrite Hrec at 1; by rewrite length_app, length_record_body).
  assert (Hpl : length payload = (pos + (length rec + length tail))%nat)
    by (rewrite Hpay, !length_app; lia).
  set (dig := lit (fmt_dec n)) in *.
  assert (Hdrop : drop pos payload = dig ++ x20 :: (keyword_bytes k ++ [x3d] ++ raw ++ [x0a]) ++ tail).
  { rewrite Hpay. unfold pos. rewrite drop_app_length, Hrec. by rewrite <- app_assoc. }
  unfold parse_records_step. cbn [rc_cursor rc_records rc_saw_path rc_saw_size records_state].
  fold pos. rewrite (proj2 (Nat.leb_gt _ _)) by lia. rewrite (proj2 (Nat.eqb_neq _ _)) by lia.
  rewrite (parse_record_length_complete pos n _ Hdrop) by lia. fold dig.
  assert (u64_checked_add (Z.of_nat pos) n = Some (Z.of_nat pos + n)) as ->
    by (apply u64_checked_add_Some; lia). cbn [ok_or].
  rewrite (proj2 (Z.eqb_neq _ _)), (proj2 (Z.ltb_ge _ _)) by lia. cbn [orb].
  set (stop := Z.to_nat (Z.of_nat pos + n)).
  assert (Hstop : stop = (pos + length rec)%nat) by (unfold stop; lia).
  set (mid := keyword_bytes k ++ [x3d] ++ raw).
  assert (Hmid : length mid = (5 + length raw)%nat)
    by (unfold mid; rewrite !length_app, length_keyword; simpl; lia).
  assert (Hrec' : rec = (dig ++ [x20]) ++ mid ++ [x0a])
    by (rewrite Hrec; unfold record_body, mid; by rewrite <- !app_assoc).
  assert (Hlf : at_ payload (stop - 1) = x0a).
  { unfold at_. rewrite Hpay, app_nth2, app_nth1 by (fold pos; lia). fold pos.
    rewrite Hrec', app_assoc, app_nth2; rewrite ?length_app; simpl; [|lia].
    by replace (stop - 1 - pos - (length dig + 1 + length mid))%nat with 0%nat by lia. }
  assert (Hbody : slice (S (pos + length dig)) (stop - 1) payload = mid).
  { rewrite Hpay, slice_app_r by (fold pos; lia). fold pos.
    rewrite slice_app_l by lia. rewrite Hrec', slice_app_r by (rewrite length_app; simpl; lia).
    rewrite length_app. cbn [length]. rewrite slice_app_l by lia.
    unfold slice. replace (S (pos + length dig) - pos - (length dig + 1))%nat with 0%nat by lia.
    rewrite drop_0. apply take_ge. lia. }
  rewrite Hlf. change (u8 x0a =? 10) with true. cbn [negb].
  rewrite (proj2 (Nat.leb_gt _ _)) by lia. rewrite Hbody.
  unfold mid at 1. rewrite position_equals. cbn [ok_or Nat.eqb].
  assert (take 4 mid = keyword_bytes k) as -> by (by destruct k).
  assert (drop 5 mid = raw) as -> by (by destruct k).
  rewrite (parse_value_complete k raw v) by
    (first [done | destruct k; by apply bool_decide_eq_false]).
  unfold TarPax.checked_add.
  rewrite (proj2 (checked_add_ok base (Z.of_nat pos) _ _)) by (split; [done|lia]).
  rewrite (proj2 (checked_add_ok base (Z.of_nat (S (pos + length dig) + 5)) _ _))
    by (split; [done|lia]).
  unfold reserve_one, copy_value_bytes. rewrite !Halloc. cbn [fst snd].
  do 3 f_equal. unfold records_state. f_equal.
  - f_equal. f_equal. unfold record_at. f_equal. unfold mkrange. f_equal. lia.
  - rewrite length_app. fold pos. lia.
  - by apply flag_after_snoc.
  - by apply flag_after_snoc.
Qed.
End Step.

(** ** Whole payloads *)

Section Payload.
Context `{!Allocator} (payload : list byte) (base : Z).

Lemma parse_records_total : exists r, parse_records payload base = Some r.
Proof.
  unfold parse_records.
  destruct (run_loop_total (parse_records_step payload base)
    (fun st => (length (rc_records st) <= 2)%nat) (fun st => (2 - length (rc_records st))%nat))
    with (n := 4%nat) (s := {| rc_records := []; rc_cursor := 0; rc_saw_path := false; rc_saw_size := false |})
    as [r Hr].
  - intros st Hst. unfold parse_records_step. by repeat case_match.
  - intros st st' Hst Hstep. unfold parse_records_step in Hstep.
    destruct (_ <=? _)%nat; [done|]. ok_steps Hstep. simplify_eq. cbn [rc_records].
    match goal with Hg : (_ =? 2)%nat = false |- _ => apply Nat.eqb_neq in Hg end.
    rewrite length_app. simpl. lia.
  - simpl. lia.
  - simpl. lia.
  - rewrite Hr. destruct r; [|eauto]. case_match; eauto.
Qed.

Lemma pax_records_reach bytes rs tail :
  (forall site n, try_reserve site n = true) ->
  base + Z.of_nat (length payload) <= u64_max -> 0 <= base ->
  pax_records base bytes rs -> payload = bytes ++ tail ->
  rtc (loop_step (parse_records_step payload base)) (records_state [] 0) (records_state rs (length bytes)).
Proof.
  intros Halloc Hu Hb Hr. revert tail.
  induction Hr as [|bytes rs k raw rec v Hr IH Hk Hrec Hv]; intros tail Hpay; [apply rtc_refl|].
  rewrite <- app_assoc in Hpay. eapply rtc_r; [by apply (IH (rec ++ tail))|].
  by eapply parse_records_step_complete.
Qed.

Lemma parse_records_sound rs :
  parse_records payload base = Some (Ok rs) -> pax_records base payload rs /\ rs <> [].
Proof.
  unfold parse_records. intros Hp. destruct (run_loop _ _ _) as [[[|r rs']|]|] eqn:Hrun; try done.
  simplify_eq. split; [|done].
  revert Hrun. apply (run_loop_invariant _ (fun st => exists rs pos, st = records_state rs pos
    /\ (pos <= length payload)%nat /\ pax_records base (take pos payload) rs)
    (pax_records base payload)).
  - intros st st' (rs0 & pos & -> & Hpos & Hr) Hst.
    apply parse_records_step_continue in Hst as (r0 & pos' & -> & Hpos' & _ & Hr'); [|done..].
    eexists _, _. split_and!; [done|lia|done].
  - intros st rs0 (rs1 & pos & -> & Hpos & Hr) Hst. unfold parse_records_step in Hst.
    cbn [rc_cursor rc_records records_state] in Hst.
    destruct (Nat.leb_spec (length payload) pos).
    + simplify_eq. by rewrite take_ge in Hr by lia.
    + exfalso. by repeat (case_match; try discriminate).
  - exists [], 0%nat. split_and!; [done|lia|constructor].
Qed.

Lemma parse_records_complete rs :
  (forall site n, try_reserve site n = true) ->
  0 <= base -> base + Z.of_nat (length payload) <= u64_max ->
  pax_records base payload rs -> rs <> [] -> parse_records payload base = Some (Ok rs).
Proof.
  intros Halloc Hb Hu Hr Hne. pose proof parse_records_total as Htot.
  pose proof (pax_records_reach payload rs [] Halloc Hu Hb Hr (eq_sym (app_nil_r payload))) as Hrun.
  unfold parse_records in *. change {| rc_records := []; rc_cursor := 0; rc_saw_path := false;
    rc_saw_size := false |} with (records_state [] 0) in *.
  rewrite (run_loop_reaches (parse_records_step payload base) 4 _ (records_state rs (length payload)) (Ok rs)).
  - by destruct rs.
  - destruct (run_loop _ _ _); [eauto|by destruct Htot].
  - done.
  - unfold parse_records_step. cbn [rc_cursor rc_records records_state].
    by rewrite (proj2 (Nat.leb_le _ _)) by lia.
Qed.

(** The payload parser accepts exactly the record grammar: it returns [rs]
    precisely when the payload is one or two well-formed records with distinct
    keywords laid end to end and [rs] reports them, with the byte range of
    every record and value; it always returns. *)
Theorem parse_records_accepts_iff rs :
  (forall site n, try_reserve site n = true) ->
  0 <= base -> base + Z.of_nat (length payload) <= u64_max ->
  (exists r, parse_records payload base = Some r) /\
  (parse_records payload base = Some (Ok rs) <-> pax_records base payload rs /\ rs <> []).
Proof.
  intros Halloc Hb Hu. split; [apply parse_records_total|]. split; [apply parse_records_sound|].
  intros [Hr Hne]. by apply parse_records_complete.
Qed.
End Payload.

(** Two records, a path and a size, and their reported ranges. *)
Definition example_payload : list byte :=
  lit "24 path=dir/on-mars.txt" ++ [x0a] ++ lit "10 size=4" ++ [x0a].
Definition example_records : list PaxRecord :=
  [record_at 512 0 Path (lit "dir/on-mars.txt") (lit "24 path=dir/on-mars.txt" ++ [x0a])
     (PathValue (lit "dir/on-mars.txt"));
   record_at 512 24 Size (lit "4") (lit "10 size=4" ++ [x0a]) (SizeValue 4)].

Lemma parse_records_accepts_iff_witness :
  pax_records 512 example_payload example_records.
Proof.
  refine (proj1 (proj1 (proj2 (@parse_records_accepts_iff always_reserves example_payload 512
    example_records _ _ _)) _)).
  - done.
  - lia.
  - vm_compute. discriminate.
  - vm_compute. reflexivity.
Defined.
