(* ===== verification/TarPaxProvenance.v ===== *)
(** * The PAX reader refines its grammar; precedence and coverage ([tar_pax.rs])

    The grammar carries the four optional values of the profile: global path
    and size, local path and size.  A global extension updates the globals, a
    local one must be followed by the member that consumes it.  Where the
    effective path and size of every member of an accepted archive come from
    is then stated without the reader's running state: the local extension
    right before the member, else the latest earlier global extension, else
    the member's own header. *)

From S2P Require Import Prelude Utf8 Findings Interval Snapshot Layout TarFields Tar TarWrite TarPax TarPaxRecords.
Local Open Scope Z_scope.

(** ** Specification *)

Section Grammar.
Context `{!Sha256} (bs : list byte).

(** An accepted header; the memory the reader asks for is not its subject. *)
Definition header_at (off : Z) (h : ParsedHeader) : Prop :=
  @parse_header _ always_reserves (range off BLOCK_LEN bs) off = Ok h.

(** A record at [off] whose payload has the effective size [n]. *)
Record pax_record_at (off : Z) (h : ParsedHeader) (n : Z) : Prop := {
  pa_header : header_at off h;
  pa_size : 0 <= n <= u64_max;
  pa_fits : off + BLOCK_LEN + padded n <= Z.of_nat (length bs);
  pa_padding : all_zero (range (off + BLOCK_LEN + n) (padded n - n) bs) = true
}.
Definition record_stop (off n : Z) : Z := off + BLOCK_LEN + padded n.

Definition extension_at (h : ParsedHeader) (off : Z) (kind : PaxExtensionKind)
    (rs : list PaxRecord) : PaxExtension :=
  {| x_kind := kind; x_raw_name := h_raw_name h; x_header_checksum := h_header_checksum h;
     x_header_sha256 := h_header_sha256 h;
     x_payload_sha256 := hex_sha256 (range (off + BLOCK_LEN) (h_size h) bs);
     x_mode := h_mode h; x_mtime := h_mtime h; x_header := h_header h;
     x_payload := mkrange (off + BLOCK_LEN) (h_size h);
     x_padding := mkrange (off + BLOCK_LEN + h_size h) (padded (h_size h) - h_size h);
     x_records := rs |}.

Definition member_at (h : ParsedHeader) (off : Z) (name : str) (n : Z)
    (sources : PaxMemberSources) : PaxMember :=
  {| m_raw_name := h_raw_name h; m_name := name; m_header_size := h_size h; m_size := n;
     m_mode := h_mode h; m_mtime := h_mtime h; m_header_checksum := h_header_checksum h;
     m_header_sha256 := h_header_sha256 h; m_header := h_header h;
     m_payload := mkrange (off + BLOCK_LEN) n;
     m_padding := mkrange (off + BLOCK_LEN + n) (padded n - n);
     m_is_dir := bool_decide (h_kind h = Directory); m_sources := sources |}.

Definition extension_kind (k : HeaderKind) : option PaxExtensionKind :=
  match k with
  | GlobalExtension => Some Global
  | LocalExtension => Some Local
  | File | Directory => None
  end.

Definition globals_after (kind : PaxExtensionKind) (g u : OverrideState) : OverrideState :=
  match kind with Global => update_from g u | Local => g end.
Definition pending_after (kind : PaxExtensionKind) (u : OverrideState) : option OverrideState :=
  match kind with Global => None | Local => Some u end.

Inductive pax_run : list PaxMember -> list PaxExtension -> OverrideState ->
    option OverrideState -> Z -> Prop :=
  | run_nil : pax_run [] [] default_state None 0
  | run_extension ms es g off h kind rs :
      pax_run ms es g None off -> pax_record_at off h (h_size h) ->
      extension_kind (h_kind h) = Some kind ->
      h_size h <= MAX_EXTENSION_BYTES -> Z.of_nat (length es) < MAX_EXTENSIONS ->
      pax_records (off + BLOCK_LEN) (range (off + BLOCK_LEN) (h_size h) bs) rs -> rs <> [] ->
      let u := from_records rs (Z.of_nat (length es)) in
      pax_run ms (es ++ [extension_at h off kind rs]) (globals_after kind g u)
        (pending_after kind u) (record_stop off (h_size h))
  | run_member ms es g p off h name psrc n ssrc :
      pax_run ms es g p off -> extension_kind (h_kind h) = None ->
      resolve_path (h_raw_name h) g p = Ok (name, psrc) ->
      resolve_size (h_size h) g p = (n, ssrc) ->
      (h_kind h = Directory -> n = 0) -> pax_record_at off h n ->
      pax_run (ms ++ [member_at h off name n {| src_path := psrc; src_size := ssrc |}])
        es g None (record_stop off n).

Definition extension_metadata (e : PaxExtension) : Z :=
  BLOCK_LEN + len (x_payload e) + len (x_padding e).
Definition run_metadata (ms : list PaxMember) (es : list PaxExtension) : Z :=
  BLOCK_LEN * Z.of_nat (length ms) + foldr Z.add 0 (map extension_metadata es).

(** Records with no local value left pending, two zero blocks, zeros to the
    end. *)
Record pax_archive (a : PaxArchive) : Prop := {
  xa_blocks : Z.of_nat (length bs) mod BLOCK_LEN = 0;
  xa_records : exists g, pax_run (x_members a) (x_extensions a) g None (len (x_member_records a));
  xa_layout :
    let stop := len (x_member_records a) in
    a = {| x_members := x_members a; x_extensions := x_extensions a;
           x_member_records := mkrange 0 stop;
           x_terminator := mkrange stop (BLOCK_LEN * 2);
           x_trailing_zeros := mkrange (stop + BLOCK_LEN * 2)
             (Z.of_nat (length bs) - (stop + BLOCK_LEN * 2));
           x_metadata_bytes := run_metadata (x_members a) (x_extensions a) + BLOCK_LEN * 2 |};
  xa_fits : len (x_member_records a) + BLOCK_LEN * 2 <= Z.of_nat (length bs);
  xa_zeros :
    let stop := len (x_member_records a) in
    all_zero (range stop (Z.of_nat (length bs) - stop) bs) = true
}.
End Grammar.

(** ** Headers *)

Section Headers.
Context `{!Sha256} `{!Allocator}.

Lemma pax_parse_header_size hdr off h : parse_header hdr off = Ok h -> 0 <= h_size h <= u64_max.
Proof.
  intros Hm. unfold parse_header in Hm. ok_steps Hm. simplify_eq. simpl.
  match goal with Hq : parse_octal _ "size" = Ok _ |- _ => by apply parse_octal_bound in Hq as [Hq _] end.
Qed.

Lemma pax_parse_header_range hdr off h :
  parse_header hdr off = Ok h -> h_header h = mkrange off BLOCK_LEN.
Proof. intros Hm. unfold parse_header in Hm. ok_steps Hm. by simplify_eq. Qed.

Lemma pax_parse_header_nonzero hdr off h : parse_header hdr off = Ok h -> all_zero hdr = false.
Proof.
  intros Hp. destruct (all_zero hdr) eqn:Hz; [|done]. exfalso.
  pose proof (all_zero_slice 257 263 _ Hz) as Hz1.
  unfold parse_header in Hp. ok_step Hp. breflect. unfold bytes_eqb in *.
  match goal with Hb : bool_decide (slice 257 263 _ = _) = true |- _ =>
    apply bool_decide_eq_true in Hb; by rewrite Hb in Hz1 end.
Qed.

(** A failed reservation can only turn an acceptance into a refusal. *)
Lemma parse_header_always hdr off h :
  parse_header hdr off = Ok h -> @parse_header _ always_reserves hdr off = Ok h.
Proof.
  unfold parse_header. intros Hp. ok_steps Hp. exact Hp.
Qed.

Lemma parse_header_alloc hdr off h :
  (forall site n, try_reserve site n = true) ->
  @parse_header _ always_reserves hdr off = Ok h -> parse_header hdr off = Ok h.
Proof. unfold parse_header. intros Ha Hp. ok_steps Hp. rewrite Ha. exact Hp. Qed.
End Headers.

Lemma pax_add_metadata_ok a b cap t :
  add_metadata a b cap = Ok t <-> t = a + b /\ a + b <= u64_max /\ a + b <= cap.
Proof.
  unfold add_metadata. destruct (u64_checked_add a b) as [x|] eqn:E; simpl.
  - apply u64_checked_add_Some in E as [-> ?].
    destruct (Z.ltb_spec cap (a + b)); (split; [|intros (-> & ? & ?)]); try done; try lia.
    intros [= <-]. lia.
  - apply u64_checked_add_None in E. split; [done|lia].
Qed.

Lemma run_metadata_member ms es m : run_metadata (ms ++ [m]) es = run_metadata ms es + BLOCK_LEN.
Proof. unfold run_metadata. rewrite length_app. simpl. unfold BLOCK_LEN. lia. Qed.

Lemma run_metadata_extension ms es e :
  run_metadata ms (es ++ [e]) = run_metadata ms es + extension_metadata e.
Proof.
  unfold run_metadata. rewrite map_app, foldr_app. simpl.
  enough (forall l z, foldr Z.add z l = foldr Z.add 0 l + z) as -> by lia.
  clear. intros l z. induction l; simpl; lia.
Qed.

Lemma resolve_path_alloc_free raw g p name src :
  resolve_path raw g p = Ok (name, src) -> name <> [] /\ Z.of_nat (length name) <= MAX_EFFECTIVE_PATH_BYTES.
Proof.
  unfold resolve_path. intros Hp. ok_steps Hp. simplify_eq.
  match goal with Hv : validate_effective_path _ = Ok ?u |- _ =>
    destruct u; apply validate_path_bytes_ok in Hv as (? & ? & _) end. done.
Qed.

(** ** The sizes in the override state are [u64] *)

Definition sizes_ok (st : OverrideState) : Prop :=
  forall v, os_size st = Some v -> 0 <= sv_value v <= u64_max.
Definition record_size_ok (r : PaxRecord) : Prop :=
  forall n, value r = SizeValue n -> 0 <= n <= u64_max.

Lemma pax_records_sizes base bytes rs : pax_records base bytes rs -> Forall record_size_ok rs.
Proof.
  intros Hr. induction Hr as [|bytes rs k raw rec v Hr IH _ _ Hv]; [constructor|].
  apply Forall_app. split; [done|]. apply Forall_singleton. intros z. simpl.
  destruct Hv; intros E; by simplify_eq.
Qed.

Lemma override_records_sizes rs e i st :
  Forall record_size_ok rs -> sizes_ok st -> sizes_ok (override_records rs e i st).
Proof.
  intros Hrs. revert i st. induction Hrs as [|r rs Hr _ IH]; intros i st Hst; simpl; [done|].
  apply IH. destruct (value r) eqn:Hv; [done|]. intros v. simpl. intros [= <-]. by apply Hr.
Qed.

Lemma from_records_sizes rs e : Forall record_size_ok rs -> sizes_ok (from_records rs e).
Proof. intros Hrs. by apply override_records_sizes. Qed.

Lemma pax_run_sizes `{!Sha256} bs ms es g p off :
  pax_run bs ms es g p off -> sizes_ok g /\ (forall u, p = Some u -> sizes_ok u).
Proof.
  intros Hr. induction Hr as [|ms es g off h kind rs Hr [IH _] Hrec Hk _ _ Hrs _ u
    |ms es g p off h name psrc n ssrc Hr [IH _] Hk _ _ _ Hrec]; [done| |done].
  pose proof (from_records_sizes rs (Z.of_nat (length es)) (pax_records_sizes _ _ _ Hrs)) as Hu.
  fold u in Hu. destruct kind; simpl; (split; [|by intros ? [= <-]]); [|done].
  unfold sizes_ok, update_from. simpl. intros v. destruct (os_size u) eqn:E; [|apply IH].
  intros [= <-]. by apply Hu.
Qed.

Lemma resolve_size_u64 hs g p n src :
  0 <= hs <= u64_max -> sizes_ok g -> (forall u, p = Some u -> sizes_ok u) ->
  resolve_size hs g p = (n, src) -> 0 <= n <= u64_max.
Proof.
  unfold resolve_size. intros Hh Hg Hp Hr. destruct (p ≫= os_size) as [v|] eqn:E.
  - simplify_eq. destruct p as [u|]; [|done]. by apply (Hp u).
  - destruct (os_size g) eqn:E2; simplify_eq; [by apply Hg|done].
Qed.

(** ** The loop *)

Section Loop.
Context {S} `{Source S} `{!Sha256} `{!Allocator} (s : S) (bs : list byte)
  (max_files max_metadata : Z).

Definition state_at ms es g p off : PaxState :=
  {| ps_members := ms; ps_extensions := es; ps_globals := g; ps_pending := p; ps_offset := off;
     ps_metadata := run_metadata ms es |}.

Definition reached (st : PaxState) : Prop :=
  exists ms es g p off, st = state_at ms es g p off /\ pax_run bs ms es g p off
    /\ Z.of_nat (length ms) <= Z.max 0 max_files.

Lemma pax_run_bound ms es g p off :
  pax_run bs ms es g p off ->
  0 <= run_metadata ms es <= off /\ (off = 0 \/ off <= Z.of_nat (length bs)).
Proof.
  intros Hr. induction Hr as [|ms es g off h kind rs Hr IH Hrec Hk _ _ _ _ u
    |ms es g p off h name psrc n ssrc Hr IH Hk _ _ _ Hrec].
  - vm_compute; split; [split; discriminate|by left].
  - destruct Hrec as [Hh Hsz Hf _]. pose proof (padded_spec (h_size h) ltac:(lia)).
    rewrite run_metadata_extension. unfold extension_metadata, record_stop, BLOCK_LEN in *. simpl. lia.
  - destruct Hrec as [Hh Hsz Hf _]. pose proof (padded_spec n ltac:(lia)).
    rewrite run_metadata_member. unfold record_stop, BLOCK_LEN in *. lia.
Qed.

Ltac unalias :=
  unfold TarPax.checked_add, TarPax.round_up_block, TarPax.is_zero_block,
    TarPax.ensure_zero_range in *.

Lemma pax_extension_continue ms es g p off h kind st' :
  represents s bs -> pax_run bs ms es g p off -> off + BLOCK_LEN <= src_len s ->
  parse_header (range off BLOCK_LEN bs) off = Ok h -> extension_kind (h_kind h) = Some kind ->
  pax_extension s max_metadata (state_at ms es g p off) (off + BLOCK_LEN) h kind
    = Some (Ok (Continue st')) ->
  exists rs, let u := from_records rs (Z.of_nat (length es)) in
    st' = state_at ms (es ++ [extension_at bs h off kind rs]) (globals_after kind g u)
            (pending_after kind u) (record_stop off (h_size h))
    /\ pax_run bs ms (es ++ [extension_at bs h off kind rs]) (globals_after kind g u)
            (pending_after kind u) (record_stop off (h_size h)).
Proof.
  intros Hs Hr Hin Hh Hk Hst. pose proof (pax_run_bound _ _ _ _ _ Hr) as [Hb _].
  pose proof (represents_u64 _ _ Hs) as Hu. pose proof (represents_len _ _ Hs) as Hlen.
  pose proof (pax_parse_header_size _ _ _ Hh) as Hsz.
  pose proof (padded_spec (h_size h) ltac:(lia)) as Hpad.
  unfold pax_extension in Hst. unalias. ok_steps Hst.
  cbn [ps_members ps_extensions ps_globals ps_pending ps_offset ps_metadata state_at] in *.
  breflect. checked_adds. repeat match goal with u : unit |- _ => destruct u end.
  match goal with Hp : bool_decide (is_Some p) = false |- _ =>
    apply bool_decide_eq_false in Hp; destruct p; [by destruct Hp|] end.
  match goal with Hr : TarFields.round_up_block _ = Ok _ |- _ =>
    apply round_up_block_ok in Hr as [-> Hr]; [|done] end.
  match goal with Hd : src_read _ _ _ = Ok _ |- _ =>
    apply (represents_read _ _ Hs) in Hd as [_ ->]; [|unfold BLOCK_LEN in *; lia|lia] end.
  match goal with Hd : parse_records _ _ = Some (Ok ?rs) |- _ =>
    apply parse_records_sound in Hd as [Hrs Hne]; exists rs end.
  match goal with Hz : TarFields.ensure_zero_range _ _ _ _ = _ |- _ =>
    apply (ensure_zero_range_ok _ _ bs) in Hz as [_ Hzero]; [|done|unfold BLOCK_LEN in *; lia..] end.
  match goal with Hm : add_metadata _ _ _ = Ok _ |- _ => apply pax_add_metadata_ok in Hm as (-> & _ & Hm) end.
  split.
  - injection Hst as <-. unfold state_at. f_equal.
    rewrite run_metadata_extension. unfold extension_metadata, extension_at. simpl. lia.
  - apply (run_extension bs ms es g off h kind); [exact Hr| |exact Hk|lia|lia|exact Hrs|exact Hne].
    split; [by apply parse_header_always|exact Hsz|lia|exact Hzero].
Qed.

Lemma pax_member_continue ms es g p off h st' :
  represents s bs -> pax_run bs ms es g p off -> off + BLOCK_LEN <= src_len s ->
  parse_header (range off BLOCK_LEN bs) off = Ok h -> extension_kind (h_kind h) = None ->
  pax_member s max_files max_metadata (state_at ms es g p off) (off + BLOCK_LEN) h
    = Some (Ok (Continue st')) ->
  exists m n, st' = state_at (ms ++ [m]) es g None (record_stop off n)
    /\ 0 <= n /\ pax_run bs (ms ++ [m]) es g None (record_stop off n)
    /\ Z.of_nat (length ms) < max_files.
Proof.
  intros Hs Hr Hin Hh Hk Hst. pose proof (pax_run_bound _ _ _ _ _ Hr) as [Hb _].
  pose proof (represents_u64 _ _ Hs) as Hu. pose proof (represents_len _ _ Hs) as Hlen.
  unfold pax_member in Hst. unalias.
  cbn [ps_members ps_extensions ps_globals ps_pending ps_offset ps_metadata state_at] in Hst.
  destruct (resolve_size (h_size h) g p) as [n ssrc] eqn:Hrs.
  destruct (resolve_path (h_raw_name h) g p) as [[name psrc]|] eqn:Hrp;
    [|by repeat (case_match; try discriminate)].
  ok_steps Hst. breflect. checked_adds. repeat match goal with u : unit |- _ => destruct u end.
  match goal with Hz : exec_map_err _ _ = _ |- _ => apply exec_map_err_ok in Hz end.
  pose proof (pax_run_sizes _ _ _ _ _ _ Hr) as [Hg Hp].
  pose proof (resolve_size_u64 _ _ _ _ _ (pax_parse_header_size _ _ _ Hh) Hg Hp Hrs) as Hsz.
  pose proof (padded_spec n ltac:(lia)) as Hpad.
  match goal with Hr : TarFields.round_up_block _ = Ok _ |- _ =>
    apply round_up_block_ok in Hr as [-> Hr]; [|done] end.
  match goal with Hz : TarFields.ensure_zero_range _ _ _ _ = _ |- _ =>
    apply (ensure_zero_range_ok _ _ bs) in Hz as [_ Hzero]; [|done|unfold BLOCK_LEN in *; lia..] end.
  match goal with Hm : add_metadata _ _ _ = Ok _ |- _ => apply pax_add_metadata_ok in Hm as (-> & _ & Hm) end.
  exists (member_at h off name n {| src_path := psrc; src_size := ssrc |}), n.
  split_and!; [|lia| |lia].
  - injection Hst as <-. unfold state_at. f_equal. by rewrite run_metadata_member.
  - apply (run_member bs ms es g p off h name psrc n ssrc); [exact Hr|exact Hk|exact Hrp|exact Hrs| |].
    + intros Hd. match goal with Hc : (_ && _) = false |- _ =>
        rewrite Hd, bool_decide_eq_true_2 in Hc by done; simpl in Hc end. breflect. lia.
    + split; [by apply parse_header_always|exact Hsz|lia|exact Hzero].
Qed.

Lemma pax_step_return ms es g p off a :
  represents s bs -> pax_run bs ms es g p off -> Z.of_nat (length bs) mod BLOCK_LEN = 0 ->
  pax_step s max_files max_metadata (state_at ms es g p off) = Some (Ok (Return a)) ->
  pax_archive bs a /\ x_members a = ms /\ x_metadata_bytes a <= max_metadata.
Proof.
  intros Hs Hr Hmod Hst. pose proof (pax_run_bound _ _ _ _ _ Hr) as [Hb _].
  pose proof (represents_u64 _ _ Hs) as Hu. pose proof (represents_len _ _ Hs) as Hlen.
  unfold pax_step in Hst. unalias. ok_steps Hst. cbn [ps_offset state_at] in *. breflect. checked_adds.
  match goal with Hd : src_read _ _ _ = Ok _ |- _ =>
    apply (represents_read _ _ Hs) in Hd as [_ ->]; [|lia|done] end.
  destruct (TarFields.is_zero_block _) eqn:Hz.
  2:{ exfalso. ok_step Hst. destruct (h_kind _); unfold pax_member, pax_extension in Hst;
        repeat (case_match; try discriminate). }
  unfold pax_finish in Hst. unalias. ok_steps Hst.
  cbn [ps_members ps_extensions ps_globals ps_pending ps_offset ps_metadata state_at] in *.
  breflect. checked_adds. repeat match goal with u : unit |- _ => destruct u end.
  match goal with Hp : bool_decide (is_Some p) = false |- _ =>
    apply bool_decide_eq_false in Hp; destruct p; [by destruct Hp|] end.
  match goal with Hd : src_read _ _ _ = Ok _ |- _ =>
    apply (represents_read _ _ Hs) in Hd as [_ ->]; [|unfold BLOCK_LEN in *; lia|done] end.
  match goal with Hz : TarFields.ensure_zero_range _ _ _ _ = _ |- _ =>
    apply (ensure_zero_range_ok _ _ bs) in Hz as [_ Hzero]; [|done|unfold BLOCK_LEN in *; lia..] end.
  match goal with Hm : add_metadata _ _ _ = Ok _ |- _ => apply pax_add_metadata_ok in Hm as (-> & _ & Hm) end.
  injection Hst as <-. split_and!; [|done|done].
  split; cbn [x_members x_extensions x_member_records len mkrange]; [done|by exists g| | |].
  - rewrite Hlen. f_equal; f_equal; lia.
  - lia.
  - replace (_ - off) with (BLOCK_LEN + (BLOCK_LEN + (src_len s - (off + BLOCK_LEN + BLOCK_LEN)))) by lia.
    rewrite !range_app by (unfold BLOCK_LEN in *; lia). rewrite !all_zero_app.
    unfold TarFields.is_zero_block in *. by rewrite Hz, Hzero, andb_true_r.
Qed.

Lemma pax_step_reached st st' :
  represents s bs -> reached st ->
  pax_step s max_files max_metadata st = Some (Ok (Continue st')) ->
  reached st' /\ ps_offset st + BLOCK_LEN <= ps_offset st' /\ ps_offset st + BLOCK_LEN <= src_len s.
Proof.
  intros Hs (ms & es & g & p & off & -> & Hr & Hn) Hst.
  pose proof (pax_run_bound _ _ _ _ _ Hr) as [Hb _].
  pose proof (represents_len _ _ Hs) as Hlen.
  unfold pax_step in Hst. unalias. ok_steps Hst. cbn [ps_offset state_at] in *. breflect. checked_adds.
  match goal with Hd : src_read _ _ _ = Ok _ |- _ =>
    apply (represents_read _ _ Hs) in Hd as [_ ->]; [|lia|done] end.
  destruct (TarFields.is_zero_block _) eqn:Hz; [unfold pax_finish in Hst; by repeat case_match|].
  destruct (parse_header _ off) as [h|e] eqn:Hh; [|done].
  destruct (extension_kind (h_kind h)) as [kind|] eqn:Hk.
  - assert (pax_extension s max_metadata (state_at ms es g p off) (off + BLOCK_LEN) h kind
      = Some (Ok (Continue st'))) as Hst' by (destruct (h_kind h); simpl in Hk; by simplify_eq).
    apply pax_extension_continue in Hst' as (rs & -> & Hr'); [|done..].
    pose proof (pax_parse_header_size _ _ _ Hh). pose proof (padded_spec (h_size h) ltac:(lia)).
    split; [by eexists _, _, _, _, _; split_and!|]. simpl. unfold record_stop. lia.
  - assert (pax_member s max_files max_metadata (state_at ms es g p off) (off + BLOCK_LEN) h
      = Some (Ok (Continue st'))) as Hst' by (by destruct (h_kind h)).
    apply pax_member_continue in Hst' as (m & n & -> & Hn0 & Hr' & Hlt); [|done..].
    split; [eexists _, _, _, _, _; split_and!; [done|exact Hr'|rewrite length_app; simpl; lia]|].
    pose proof (padded_spec n Hn0). simpl. unfold record_stop. lia.
Qed.

(** Every iteration ends: the zero scans and the record loop are total. *)
Lemma pax_step_total st :
  reached st -> pax_step s max_files max_metadata st <> None.
Proof.
  intros (ms & es & g & p & off & -> & Hr & _) Hn.
  pose proof (pax_run_bound _ _ _ _ _ Hr) as [Hb _].
  pose proof (pax_run_sizes _ _ _ _ _ _ Hr) as [Hg Hp].
  unfold pax_step, pax_finish, pax_extension, pax_member in Hn. unalias.
  cbn [ps_members ps_extensions ps_globals ps_pending ps_offset ps_metadata state_at] in Hn.
  repeat (case_match; try discriminate); breflect; checked_adds;
    try match goal with Hq : parse_records ?pl ?o = None |- _ =>
      destruct (parse_records_total pl o) as [? ?]; congruence end;
    match goal with Hh : parse_header _ _ = Ok _ |- _ =>
      pose proof (pax_parse_header_size _ _ _ Hh) as Hsz | _ => idtac end;
    try match goal with Hq : resolve_size _ _ _ = (_, _) |- _ =>
      pose proof (resolve_size_u64 _ _ _ _ _ Hsz Hg Hp Hq) end;
    try match goal with Hq : TarFields.round_up_block ?v = Ok _ |- _ =>
      apply round_up_block_ok in Hq as [-> Hq]; [pose proof (padded_spec v ltac:(lia))|done] end;
    match goal with
    | Hz : TarFields.ensure_zero_range ?s ?o ?n ?l = None |- _ =>
        destruct (ensure_zero_range_total s l o n) as [? ?]; [lia|congruence]
    | Hz : exec_map_err _ (TarFields.ensure_zero_range ?s ?o ?n ?l) = None |- _ =>
        destruct (ensure_zero_range_total s l o n) as [x Hx]; [lia|by rewrite Hx in Hz]
    end.
Qed.
End Loop.

Section Complete.
Context {S} `{Source S} `{!Sha256} `{!Allocator} (s : S) (bs : list byte)
  (max_files max_metadata : Z).
Context (Hs : reliable s bs) (Halloc : forall site n, try_reserve site n = true).

Lemma pax_in_range_add a b l : 0 <= a + b <= Z.of_nat (length bs) -> TarFields.checked_add a b l = Ok (a + b).
Proof.
  intros Hb. apply checked_add_ok. pose proof (represents_u64 _ _ (reliable_represents _ _ Hs)). lia.
Qed.

Lemma pax_add_metadata_fits a b :
  0 <= a + b <= Z.of_nat (length bs) -> a + b <= max_metadata ->
  add_metadata a b max_metadata = Ok (a + b).
Proof.
  intros Hb Hm. apply pax_add_metadata_ok.
  pose proof (represents_u64 _ _ (reliable_represents _ _ Hs)). lia.
Qed.

(** The common start of an iteration on a record. *)
Lemma pax_step_header ms es g p off h :
  0 <= off -> header_at bs off h -> off + BLOCK_LEN <= Z.of_nat (length bs) ->
  pax_step s max_files max_metadata (state_at ms es g p off) =
  match extension_kind (h_kind h) with
  | Some kind => pax_extension s max_metadata (state_at ms es g p off) (off + BLOCK_LEN) h kind
  | None => pax_member s max_files max_metadata (state_at ms es g p off) (off + BLOCK_LEN) h
  end.
Proof.
  intros Ho Hh Hin.
  pose proof (represents_len _ _ (reliable_represents _ _ Hs)) as Hlen.
  pose proof (parse_header_alloc _ _ _ Halloc Hh) as Hh'. clear Hh.
  pose proof (pax_parse_header_nonzero _ _ _ Hh') as Hnz.
  unfold pax_step, TarPax.checked_add, TarPax.is_zero_block. cbn [ps_offset state_at].
  unfold BLOCK_LEN in *. rewrite pax_in_range_add by lia. rewrite (proj2 (Z.ltb_ge _ _)) by lia.
  rewrite (reliable_read _ _ Hs) by lia.
  unfold TarFields.is_zero_block. rewrite Hnz, Hh'. by destruct (h_kind h).
Qed.

Lemma pax_extension_step ms es g off h kind rs :
  pax_run bs ms es g None off -> pax_record_at bs off h (h_size h) ->
  extension_kind (h_kind h) = Some kind ->
  h_size h <= MAX_EXTENSION_BYTES -> Z.of_nat (length es) < MAX_EXTENSIONS ->
  pax_records (off + BLOCK_LEN) (range (off + BLOCK_LEN) (h_size h) bs) rs -> rs <> [] ->
  run_metadata ms (es ++ [extension_at bs h off kind rs]) <= max_metadata ->
  let u := from_records rs (Z.of_nat (length es)) in
  pax_step s max_files max_metadata (state_at ms es g None off) = Some (Ok (Continue
    (state_at ms (es ++ [extension_at bs h off kind rs]) (globals_after kind g u)
      (pending_after kind u) (record_stop off (h_size h))))).
Proof.
  intros Hr Hrec Hk Hsize Hes Hpay Hne Hmeta u. pose proof (pax_run_bound _ _ _ _ _ _ Hr) as [Hb _].
  destruct Hrec as [Hh Hsz Hf Hp]. pose proof (padded_spec (h_size h) ltac:(lia)) as Hpad.
  rewrite (pax_step_header _ _ _ _ _ h) by (done || lia). rewrite Hk.
  pose proof (represents_len _ _ (reliable_represents _ _ Hs)) as Hlen.
  pose proof (represents_u64 _ _ (reliable_represents _ _ Hs)) as Hu.
  rewrite run_metadata_extension in Hmeta. unfold extension_metadata, extension_at in Hmeta. simpl in Hmeta.
  unfold pax_extension, TarPax.checked_add, TarPax.round_up_block, TarPax.ensure_zero_range, reserve_one.
  cbn [ps_members ps_extensions ps_globals ps_pending ps_offset ps_metadata state_at].
  rewrite bool_decide_eq_false_2 by (by intros []).
  rewrite (proj2 (Z.ltb_ge _ _)), (proj2 (Z.leb_gt _ _)) by lia. unfold BLOCK_LEN in *.
  rewrite (proj2 (round_up_block_ok (h_size h) (padded (h_size h)) Hsz)) by lia.
  rewrite !pax_in_range_add by lia. rewrite (proj2 (Z.ltb_ge _ _)) by lia.
  rewrite pax_add_metadata_fits by lia. rewrite Halloc. cbn [negb].
  rewrite (reliable_read _ _ Hs) by lia.
  assert (parse_records (range (off + 512) (h_size h) bs) (off + 512) = Some (Ok rs)) as ->.
  { apply parse_records_complete; [done|lia| |done|done]. rewrite length_range by lia. lia. }
  rewrite (ensure_zero_range_reliable _ _ bs) by (done || lia). rewrite Hp, Halloc.
  do 3 f_equal. unfold state_at, record_stop, BLOCK_LEN. f_equal.
  rewrite run_metadata_extension. unfold extension_metadata, extension_at, BLOCK_LEN. simpl. lia.
Qed.

Lemma pax_member_step ms es g p off h name psrc n ssrc :
  pax_run bs ms es g p off -> extension_kind (h_kind h) = None ->
  resolve_path (h_raw_name h) g p = Ok (name, psrc) ->
  resolve_size (h_size h) g p = (n, ssrc) ->
  (h_kind h = Directory -> n = 0) -> pax_record_at bs off h n ->
  Z.of_nat (length ms) < max_files -> run_metadata ms es + BLOCK_LEN <= max_metadata ->
  pax_step s max_files max_metadata (state_at ms es g p off) = Some (Ok (Continue
    (state_at (ms ++ [member_at h off name n {| src_path := psrc; src_size := ssrc |}]) es g None
      (record_stop off n)))).
Proof.
  intros Hr Hk Hpath Hsize Hdir Hrec Hn Hmeta. pose proof (pax_run_bound _ _ _ _ _ _ Hr) as [Hb _].
  destruct Hrec as [Hh Hsz Hf Hp]. pose proof (padded_spec n ltac:(lia)) as Hpad.
  rewrite (pax_step_header _ _ _ _ _ h) by (done || lia). rewrite Hk.
  pose proof (represents_len _ _ (reliable_represents _ _ Hs)) as Hlen.
  pose proof (represents_u64 _ _ (reliable_represents _ _ Hs)) as Hu.
  unfold pax_member, TarPax.checked_add, TarPax.round_up_block, TarPax.ensure_zero_range, reserve_one.
  cbn [ps_members ps_extensions ps_globals ps_pending ps_offset ps_metadata state_at].
  rewrite (proj2 (Z.leb_gt _ _)) by lia. unfold BLOCK_LEN in *.
  rewrite pax_add_metadata_fits by lia. rewrite Hpath, Hsize.
  assert (bool_decide (h_kind h = Directory) && negb (n =? 0) = false) as ->.
  { case_bool_decide as Hd; [|done]. by rewrite (Hdir Hd). }
  rewrite pax_in_range_add by lia.
  rewrite (proj2 (round_up_block_ok n (padded n) Hsz)) by lia.
  rewrite pax_in_range_add by lia. rewrite (proj2 (Z.ltb_ge _ _)) by lia.
  rewrite (ensure_zero_range_reliable _ _ bs) by (done || lia). rewrite Hp, Halloc.
  cbn [exec_map_err option_map map_err].
  do 3 f_equal. unfold state_at, record_stop, BLOCK_LEN. f_equal. by rewrite run_metadata_member.
Qed.

Lemma pax_run_reach ms es g p off :
  pax_run bs ms es g p off ->
  Z.of_nat (length ms) <= max_files -> run_metadata ms es <= max_metadata ->
  rtc (loop_step (pax_step s max_files max_metadata)) pax_init (state_at ms es g p off).
Proof.
  intros Hr. induction Hr as [|ms es g off h kind rs Hr IH Hrec Hk Hsize Hes Hpay Hne u
    |ms es g p off h name psrc n ssrc Hr IH Hk Hpath Hsize Hdir Hrec]; intros Hn Hm.
  - apply rtc_refl.
  - eapply rtc_r; [apply IH; [done|]|by apply pax_extension_step].
    destruct Hrec as [_ Hsz _ _]. pose proof (padded_spec (h_size h) ltac:(lia)).
    rewrite run_metadata_extension in Hm. unfold extension_metadata, extension_at, BLOCK_LEN in Hm.
    simpl in Hm. lia.
  - rewrite length_app in Hn. simpl in Hn. rewrite run_metadata_member in Hm. unfold BLOCK_LEN in Hm.
    eapply rtc_r; [apply IH; lia|apply pax_member_step; done || (unfold BLOCK_LEN; lia)].
Qed.

Lemma pax_step_end a g :
  pax_archive bs a -> x_metadata_bytes a <= max_metadata ->
  pax_run bs (x_members a) (x_extensions a) g None (len (x_member_records a)) ->
  pax_step s max_files max_metadata
    (state_at (x_members a) (x_extensions a) g None (len (x_member_records a))) = Some (Ok (Return a)).
Proof.
  intros [Hmod _ Hlay Hf Hz] Hm Hrec. pose proof (pax_run_bound _ _ _ _ _ _ Hrec) as [Hb _].
  set (stop := len (x_member_records a)) in *. cbv zeta in Hlay, Hz.
  pose proof (represents_len _ _ (reliable_represents _ _ Hs)) as Hlen.
  replace (Z.of_nat (length bs) - stop) with
    (BLOCK_LEN + (BLOCK_LEN + (src_len s - (stop + BLOCK_LEN + BLOCK_LEN)))) in Hz by lia.
  rewrite !range_app, !all_zero_app in Hz by (unfold BLOCK_LEN in *; lia).
  apply andb_true_iff in Hz as [Hz1 Hz]. apply andb_true_iff in Hz as [Hz2 Hz3].
  assert (Hmeta : x_metadata_bytes a = run_metadata (x_members a) (x_extensions a) + BLOCK_LEN * 2)
    by (rewrite Hlay at 1; done).
  rewrite Hmeta in Hm.
  unfold pax_step, pax_finish, TarPax.checked_add, TarPax.is_zero_block, TarPax.ensure_zero_range,
    TarFields.is_zero_block.
  cbn [ps_members ps_extensions ps_globals ps_pending ps_offset ps_metadata state_at].
  unfold BLOCK_LEN in *. rewrite pax_in_range_add by lia. rewrite (proj2 (Z.ltb_ge _ _)) by lia.
  rewrite (reliable_read _ _ Hs) by lia. rewrite Hz1.
  rewrite bool_decide_eq_false_2 by (by intros []).
  rewrite pax_in_range_add by lia. rewrite (proj2 (Z.ltb_ge _ _)) by lia.
  rewrite (reliable_read _ _ Hs) by lia. rewrite Hz2. cbn [negb].
  rewrite pax_add_metadata_fits by lia.
  rewrite (ensure_zero_range_reliable _ _ bs) by (done || lia). rewrite Hz3.
  do 3 f_equal. symmetry. rewrite Hlay at 1. rewrite Hlen. f_equal; try f_equal; lia.
Qed.
End Complete.

(** ** Provenance *)

(** ** Specification *)

(** A record of [e] that defines keyword [k] as [v], at index [r]. *)
Definition defines_at (e : PaxExtension) (r : Z) (k : PaxKeyword) (v : PaxRecordValue) : Prop :=
  0 <= r /\ exists rec, x_records e !! Z.to_nat r = Some rec /\ keyword rec = k /\ value rec = v.
Definition defines (e : PaxExtension) (k : PaxKeyword) : Prop :=
  exists rec, rec ∈ x_records e /\ keyword rec = k.

(** The local extension whose record ends where the header at [o] starts. *)
Definition local_before (o : Z) (e : PaxExtension) : Prop :=
  x_kind e = Local /\ offset (x_padding e) + len (x_padding e) = o.
Definition global_before (o : Z) (e : PaxExtension) : Prop :=
  x_kind e = Global /\ offset (x_header e) < o.

Definition provenance (es : list PaxExtension) (o : Z) (k : PaxKeyword) (s : PaxValueSource)
    (v own : PaxRecordValue) : Prop :=
  match s with
  | FromLocal i r =>
      exists e, 0 <= i /\ es !! Z.to_nat i = Some e /\ local_before o e /\ defines_at e r k v
  | FromGlobal i r =>
      (exists e, 0 <= i /\ es !! Z.to_nat i = Some e /\ global_before o e /\ defines_at e r k v)
      /\ (forall e, e ∈ es -> local_before o e -> ~ defines e k)
      /\ (forall j e, es !! j = Some e -> i < Z.of_nat j -> global_before o e -> ~ defines e k)
  | FromUstar =>
      v = own
      /\ (forall e, e ∈ es -> local_before o e -> ~ defines e k)
      /\ (forall e, e ∈ es -> global_before o e -> ~ defines e k)
  end.

(** Both effective values of a member. *)
Definition member_provenance (es : list PaxExtension) (m : PaxMember) : Prop :=
  let o := offset (m_header m) in
  provenance es o Path (src_path (m_sources m)) (PathValue (m_name m)) (PathValue (m_raw_name m))
  /\ provenance es o Size (src_size (m_sources m)) (SizeValue (m_size m)) (SizeValue (m_header_size m)).

(** ** The override state as a lookup by keyword *)

Definition lookup_override (k : PaxKeyword) (st : OverrideState) :
    option (PaxRecordValue * Z * Z) :=
  match k with
  | Path =>
      option_map (fun v => (PathValue (sv_value v), sv_extension_index v, sv_record_index v)) (os_path st)
  | Size =>
      option_map (fun v => (SizeValue (sv_value v), sv_extension_index v, sv_record_index v)) (os_size st)
  end.

Definition keyword_of (v : PaxRecordValue) : PaxKeyword :=
  match v with PathValue _ => Path | SizeValue _ => Size end.

Lemma lookup_update k g u :
  lookup_override k (update_from g u) =
  match lookup_override k u with Some x => Some x | None => lookup_override k g end.
Proof.
  destruct k; unfold lookup_override, update_from; simpl; [destruct (os_path u)|destruct (os_size u)]; done.
Qed.

Definition set_override (v : PaxRecordValue) (e i : Z) (st : OverrideState) : OverrideState :=
  match v with
  | PathValue path =>
      {| os_path := Some {| sv_value := path; sv_extension_index := e; sv_record_index := i |};
         os_size := os_size st |}
  | SizeValue size =>
      {| os_path := os_path st;
         os_size := Some {| sv_value := size; sv_extension_index := e; sv_record_index := i |} |}
  end.

Lemma lookup_set k v e i st :
  lookup_override k (set_override v e i st) =
  if decide (keyword_of v = k) then Some (v, e, i) else lookup_override k st.
Proof. destruct v, k; done. Qed.

Lemma override_records_lookup k rs e i st v e' r :
  Forall (fun x => keyword_of (value x) = keyword x) rs -> NoDup (map keyword rs) -> 0 <= i ->
  lookup_override k (override_records rs e i st) = Some (v, e', r) <->
  (e' = e /\ i <= r /\ exists rec, rs !! Z.to_nat (r - i) = Some rec /\ keyword rec = k /\ value rec = v)
  \/ ((k ∉ map keyword rs) /\ lookup_override k st = Some (v, e', r)).
Proof.
  intros Hk. revert i st. induction Hk as [|x rs Hx Hk IH]; intros i st Hnd Hi.
  - simpl. split; [intros Hst; right; split; [by intros ?%elem_of_nil|done]|].
    intros [(_ & _ & rec & Hr & _)|[_ ?]]; done.
  - simpl in Hnd. apply NoDup_cons in Hnd as [Hxn Hnd]. cbn [override_records].
    change (override_records rs e (i + 1) _) with
      (override_records rs e (i + 1) (set_override (value x) e i st)).
    rewrite IH by (done || lia). rewrite lookup_set, Hx. simpl map. rewrite not_elem_of_cons. split.
    + intros [(-> & Hr & rec & Hrec & Hkr & Hv)|[Hn Hl]].
      * left. split_and!; [done|lia|]. exists rec. split; [|done].
        by replace (Z.to_nat (r - i)) with (Datatypes.S (Z.to_nat (r - (i + 1)))) by lia.
      * destruct (decide (keyword x = k)) as [<-|Hne]; [|by right].
        simplify_eq. left. split_and!; [done|lia|]. exists x. by rewrite Z.sub_diag.
    + intros [(-> & Hr & rec & Hrec & Hkr & Hv)|[[Hne Hn] Hl]].
      * destruct (decide (r = i)) as [->|Hri].
        -- rewrite Z.sub_diag in Hrec. simpl in Hrec. simplify_eq. right. split; [done|].
           by rewrite decide_True.
        -- left. split_and!; [done|lia|]. exists rec. split; [|done].
           by replace (Z.to_nat (r - i)) with (Datatypes.S (Z.to_nat (r - (i + 1)))) in Hrec by lia.
      * right. split; [done|]. by rewrite decide_False by congruence.
Qed.

Lemma pax_records_keywords base bytes rs :
  pax_records base bytes rs ->
  Forall (fun x => keyword_of (value x) = keyword x) rs /\ NoDup (map keyword rs).
Proof.
  intros Hr. split; [|by eapply pax_records_nodup].
  induction Hr as [|bytes rs k raw rec v Hr IH _ _ Hv]; [constructor|].
  apply Forall_app. split; [done|]. apply Forall_singleton. by destruct Hv.
Qed.

Lemma from_records_lookup base bytes e k i v j r :
  pax_records base bytes (x_records e) ->
  lookup_override k (from_records (x_records e) i) = Some (v, j, r) <-> j = i /\ defines_at e r k v.
Proof.
  intros [Hk Hnd]%pax_records_keywords. unfold from_records.
  rewrite override_records_lookup by (done || lia). rewrite Z.sub_0_r. unfold defines_at. split.
  - intros [(-> & Hr & Hd)|[_ Hl]]; [done|]. by destruct k.
  - intros (-> & Hr & Hd). by left.
Qed.

Lemma from_records_none base bytes e k i :
  pax_records base bytes (x_records e) ->
  lookup_override k (from_records (x_records e) i) = None <-> ~ defines e k.
Proof.
  intros Hr. destruct (lookup_override k _) as [[[v j] r]|] eqn:Hl.
  - split; [done|]. intros Hn. exfalso. apply Hn.
    apply (from_records_lookup base bytes) in Hl as (_ & _ & rec & Hrec & Hk & _); [|done].
    exists rec. split; [by eapply list_elem_of_lookup_2|done].
  - split; [|done]. intros _ (rec & Hin & Hk). apply list_elem_of_lookup in Hin as [n Hn].
    assert (lookup_override k (from_records (x_records e) i) = Some (value rec, i, Z.of_nat n)) as Hs.
    { apply (from_records_lookup base bytes); [done|]. split; [done|]. split; [lia|].
      exists rec. by rewrite Nat2Z.id. }
    congruence.
Qed.

(** ** The reader's state, declaratively *)

Definition extension_end (e : PaxExtension) : Z := offset (x_padding e) + len (x_padding e).

Definition globals_ok (es : list PaxExtension) (g : OverrideState) : Prop := forall k,
  match lookup_override k g with
  | Some (v, i, r) =>
      (exists e, 0 <= i /\ es !! Z.to_nat i = Some e /\ x_kind e = Global /\ defines_at e r k v)
      /\ (forall j e, es !! j = Some e -> i < Z.of_nat j -> x_kind e = Global -> ~ defines e k)
  | None => forall e, e ∈ es -> x_kind e = Global -> ~ defines e k
  end.

Definition pending_ok (es : list PaxExtension) (p : option OverrideState) (off : Z) : Prop :=
  match p with
  | None => forall e, e ∈ es -> x_kind e = Local -> extension_end e < off
  | Some u => exists es' e base bytes,
      es = es' ++ [e] /\ x_kind e = Local /\ extension_end e = off
      /\ pax_records base bytes (x_records e)
      /\ u = from_records (x_records e) (Z.of_nat (length es'))
      /\ (forall e', e' ∈ es' -> extension_end e' < off)
  end.

Record state_ok (ms : list PaxMember) (es : list PaxExtension) (g : OverrideState)
    (p : option OverrideState) (off : Z) : Prop := {
  so_extents : forall e, e ∈ es -> offset (x_header e) < extension_end e <= off;
  so_globals : globals_ok es g;
  so_pending : pending_ok es p off;
  so_members : forall m, m ∈ ms -> member_provenance es m /\ offset (m_header m) < off
}.

(** What [resolve_path] and [resolve_size] chose, by keyword. *)
Definition resolved (k : PaxKeyword) (g : OverrideState) (p : option OverrideState)
    (s : PaxValueSource) (v own : PaxRecordValue) : Prop :=
  (exists u i r, p = Some u /\ lookup_override k u = Some (v, i, r) /\ s = FromLocal i r)
  \/ ((forall u, p = Some u -> lookup_override k u = None) /\
      ((exists i r, lookup_override k g = Some (v, i, r) /\ s = FromGlobal i r)
       \/ (lookup_override k g = None /\ s = FromUstar /\ v = own))).

Lemma resolve_path_resolved raw g p name s :
  resolve_path raw g p = Ok (name, s) -> resolved Path g p s (PathValue name) (PathValue raw).
Proof.
  unfold resolve_path. intros Hr. ok_steps Hr. simplify_eq. unfold resolved, lookup_override.
  destruct (p ≫= os_path) as [v|] eqn:Hp.
  - simplify_eq. destruct p as [u|]; [|done]. simpl in Hp. left. exists u. rewrite Hp. eauto.
  - right. split; [intros u ->; simpl in Hp; by rewrite Hp|].
    destruct (os_path g) as [v|]; simplify_eq; [left; eauto|right].
    destruct (from_utf8 raw) as [d|] eqn:Hd; simpl in *; simplify_eq.
    by apply from_utf8_Some in Hd as [-> _].
Qed.

Lemma resolve_size_resolved hs g p n s :
  resolve_size hs g p = (n, s) -> resolved Size g p s (SizeValue n) (SizeValue hs).
Proof.
  unfold resolve_size. intros Hr. unfold resolved, lookup_override.
  destruct (p ≫= os_size) as [v|] eqn:Hp.
  - simplify_eq. destruct p as [u|]; [|done]. simpl in Hp. left. exists u. rewrite Hp. eauto.
  - right. split; [intros u ->; simpl in Hp; by rewrite Hp|].
    destruct (os_size g) as [v|]; simplify_eq; [left; eauto|by right].
Qed.

Lemma resolved_provenance ms es g p off k s v own :
  state_ok ms es g p off -> resolved k g p s v own -> provenance es off k s v own.
Proof.
  intros [Hext Hg Hp _] Hr. specialize (Hg k).
  destruct Hr as [(u & i & r & -> & Hl & ->)|[Hnone Hrest]].
  - destruct Hp as (es' & e & base & bytes & -> & Hk & Hend & Hrs & -> & _).
    apply (from_records_lookup base bytes) in Hl as [-> Hd]; [|done].
    exists e. split_and!; [lia| |by split|done].
    rewrite Nat2Z.id. by apply list_lookup_middle.
  - assert (Hlocal : forall e, e ∈ es -> local_before off e -> ~ defines e k).
    { intros e He [Hk Hend]. fold (extension_end e) in Hend. destruct p as [u|].
      - destruct Hp as (es' & e' & base & bytes & -> & Hk' & Hend' & Hrs & -> & Hbefore).
        apply elem_of_app in He as [He|He%list_elem_of_singleton].
        + apply Hbefore in He. lia.
        + subst e'. apply (from_records_none base bytes e k (Z.of_nat (length es'))); [done|].
          by apply Hnone.
      - specialize (Hp e He Hk). lia. }
    destruct Hrest as [(i & r & Hl & ->)|(Hl & -> & ->)]; rewrite Hl in Hg.
    + destruct Hg as [(e & Hi & He & Hk & Hd) Hlater]. split_and!; [|done|].
      * exists e. split_and!; [done|done| |done]. split; [done|].
        apply list_elem_of_lookup_2 in He. apply Hext in He. lia.
      * intros j e' Hj Hij [Hk' _]. by eapply Hlater.
    + split_and!; [done|done|]. intros e He [Hk _]. by apply Hg.
Qed.

(** Extensions that come later change nothing. *)
Lemma provenance_app es e o k s v own :
  o < offset (x_header e) -> o < extension_end e ->
  provenance es o k s v own -> provenance (es ++ [e]) o k s v own.
Proof.
  intros Ho1 Ho2.
  assert (Hno : forall P : PaxExtension -> Prop, (forall e, e ∈ es -> P e) ->
    (P e) -> forall e', e' ∈ es ++ [e] -> P e').
  { intros P Hall He e' [Hin|Hin]%elem_of_app; [by apply Hall|].
    apply list_elem_of_singleton in Hin as ->. done. }
  assert (Hl : ~ local_before o e) by (intros [_ Hend]; unfold extension_end in Ho2; lia).
  assert (Hg : ~ global_before o e) by (intros [_ Hoff]; lia).
  destruct s as [|i r|i r]; simpl.
  - intros (-> & H1 & H2). split; [done|].
    split; [apply (Hno (fun e => local_before o e -> ~ defines e k))
      |apply (Hno (fun e => global_before o e -> ~ defines e k))]; tauto.
  - intros ((e' & Hi & He & Hb & Hd) & H1 & H2). split_and!.
    + exists e'. split_and!; [done|by apply lookup_app_l_Some|done..].
    + apply (Hno (fun e => local_before o e -> ~ defines e k)); tauto.
    + intros j e'' Hj Hij Hb'. apply lookup_app_Some in Hj as [Hj|[_ Hj]]; [by eapply H2|].
      destruct (j - length es)%nat; simpl in Hj; [simplify_eq; tauto|done].
  - intros (e' & Hi & He & Hb & Hd). exists e'. split_and!; [done|by apply lookup_app_l_Some|done..].
Qed.

Lemma forall_snoc {A} (P : A -> Prop) (l : list A) x :
  (forall y, y ∈ l -> P y) -> P x -> forall y, y ∈ l ++ [x] -> P y.
Proof. intros Hl Hx y [Hy|Hy]%elem_of_app; [by apply Hl|]. by apply list_elem_of_singleton in Hy as ->. Qed.

Lemma globals_ok_local es e g : x_kind e = Local -> globals_ok es g -> globals_ok (es ++ [e]) g.
Proof.
  intros Hk Hg k. specialize (Hg k). destruct (lookup_override k g) as [[[v i] r]|].
  - destruct Hg as [(e' & Hi & He & Hd) Hlater]. split.
    + exists e'. split; [done|]. split; [by apply lookup_app_l_Some|done].
    + intros j e'' Hj Hij Hg. apply lookup_app_Some in Hj as [Hj|[_ Hj]]; [by eapply Hlater|].
      apply list_lookup_singleton_Some in Hj as [_ <-]. congruence.
  - apply (forall_snoc (fun e => x_kind e = Global -> ~ defines e k)); [done|congruence].
Qed.

Lemma globals_ok_global base bytes es e g :
  x_kind e = Global -> pax_records base bytes (x_records e) -> globals_ok es g ->
  globals_ok (es ++ [e]) (update_from g (from_records (x_records e) (Z.of_nat (length es)))).
Proof.
  intros Hk Hrs Hg k. specialize (Hg k). rewrite lookup_update.
  destruct (lookup_override k (from_records _ _)) as [[[v i] r]|] eqn:Hl.
  - apply (from_records_lookup base bytes) in Hl as [-> Hd]; [|done]. split.
    + exists e. split; [lia|]. rewrite Nat2Z.id. by rewrite list_lookup_middle.
    + intros j e' Hj Hij _. apply lookup_lt_Some in Hj. rewrite length_app in Hj. simpl in Hj. lia.
  - apply (from_records_none base bytes) in Hl; [|done].
    destruct (lookup_override k g) as [[[v i] r]|].
    + destruct Hg as [(e' & Hi & He & Hd) Hlater]. split.
      * exists e'. split; [done|]. split; [by apply lookup_app_l_Some|done].
      * intros j e'' Hj Hij Hg. apply lookup_app_Some in Hj as [Hj|[_ Hj]]; [by eapply Hlater|].
        apply list_lookup_singleton_Some in Hj as [_ <-]. done.
    + apply (forall_snoc (fun e => x_kind e = Global -> ~ defines e k)); done.
Qed.

Section Invariant.
Context `{!Sha256} (bs : list byte).

Lemma pax_run_ok ms es g p off : pax_run bs ms es g p off -> state_ok ms es g p off.
Proof.
  intros Hr. induction Hr as [|ms es g off h kind rs Hr IH Hrec Hk _ _ Hpay _ u
    |ms es g p off h name psrc n ssrc Hr IH Hk Hpath Hsize _ Hrec].
  - split; [by intros e ?%elem_of_nil|by intros []; intros e ?%elem_of_nil| |by intros m ?%elem_of_nil].
    by intros e ?%elem_of_nil.
  - set (e := extension_at bs h off kind rs) in *.
    destruct Hrec as [Hh Hsz Hf _]. pose proof (padded_spec (h_size h) ltac:(lia)) as Hpad.
    assert (Hoff : offset (x_header e) = off)
      by (unfold e; simpl; by rewrite (pax_parse_header_range _ _ _ Hh)).
    assert (Hend : extension_end e = record_stop off (h_size h))
      by (unfold e, extension_end, record_stop; simpl; lia).
    assert (Hadv : off < record_stop off (h_size h)) by (unfold record_stop, BLOCK_LEN; lia).
    destruct IH as [Hext Hg Hp Hm]. split.
    + intros e' [He'|He']%elem_of_app; [apply Hext in He'; lia|].
      apply list_elem_of_singleton in He' as ->. lia.
    + destruct kind; [by eapply globals_ok_global|by apply globals_ok_local].
    + destruct kind; simpl.
      * apply (forall_snoc (fun e => x_kind e = Local -> extension_end e < _)); [|done].
        intros e' He' _. apply Hext in He'. lia.
      * exists es, e, (off + BLOCK_LEN), (range (off + BLOCK_LEN) (h_size h) bs).
        split_and!; [done..|]. intros e' He'. apply Hext in He'.
        destruct (decide (x_kind e' = Local)) as [Hl|Hl]; lia.
    + intros m Hin. destruct (Hm m Hin) as [[Hm1 Hm2] Ho]. split; [|lia].
      split; apply provenance_app; done || lia.
  - destruct Hrec as [Hh Hsz Hf _]. pose proof (padded_spec n ltac:(lia)) as Hpad.
    assert (Hadv : off < record_stop off n) by (unfold record_stop, BLOCK_LEN; lia).
    pose proof IH as [Hext Hg Hp Hm]. split.
    + intros e He. apply Hext in He. lia.
    + done.
    + intros e He _. apply Hext in He. lia.
    + intros m [Hin|Hin]%elem_of_app; [apply Hm in Hin as [? ?]; split; [done|lia]|].
      apply list_elem_of_singleton in Hin as ->. unfold member_provenance, member_at.
      cbn [m_header m_sources src_path src_size m_name m_size m_raw_name m_header_size].
      rewrite (pax_parse_header_range _ _ _ Hh). cbn [offset mkrange]. split; [split|done].
      * eapply resolved_provenance; [exact IH|by apply resolve_path_resolved].
      * eapply resolved_provenance; [exact IH|by apply resolve_size_resolved].
Qed.
End Invariant.

(** ** The ranges of a run *)

Definition extension_ranges (e : PaxExtension) : list ByteRange :=
  [x_header e; x_payload e; x_padding e].
Definition pax_member_ranges (m : PaxMember) : list ByteRange :=
  [m_header m; m_payload m; m_padding m].
Definition record_ranges (ms : list PaxMember) (es : list PaxExtension) : list ByteRange :=
  concat (map extension_ranges es) ++ concat (map pax_member_ranges ms).
(** The ranges in the order the archive value lists them: the extensions, the
    members, the terminator and the trailing zeros. *)
Definition pax_ranges (a : PaxArchive) : list ByteRange :=
  record_ranges (x_members a) (x_extensions a) ++ [x_terminator a; x_trailing_zeros a].

Lemma pax_run_adjacent `{!Sha256} bs ms es g p off :
  pax_run bs ms es g p off ->
  exists rs, rs ≡ₚ record_ranges ms es /\ adjacent 0 rs off.
Proof.
  intros Hr. induction Hr as [|ms es g off h kind rs Hr IH Hrec Hk _ _ Hpay _ u
    |ms es g p off h name psrc n ssrc Hr IH Hk _ _ _ Hrec].
  - by exists [].
  - destruct IH as (l & Hl & Ha). destruct Hrec as [Hh Hsz _ _].
    pose proof (padded_spec (h_size h) ltac:(lia)) as Hpad.
    exists (l ++ extension_ranges (extension_at bs h off kind rs)). split.
    + rewrite Hl. unfold record_ranges. rewrite map_app, concat_app. simpl.
      rewrite <- !app_assoc. f_equiv. apply (Permutation_app_comm _ [_; _; _]).
    + apply adjacent_app. exists off. split; [done|].
      simpl. rewrite (pax_parse_header_range _ _ _ Hh). simpl.
      unfold record_stop, BLOCK_LEN in *. split_and!; lia.
  - destruct IH as (l & Hl & Ha). destruct Hrec as [Hh Hsz _ _].
    pose proof (padded_spec n ltac:(lia)) as Hpad.
    exists (l ++ pax_member_ranges (member_at h off name n {| src_path := psrc; src_size := ssrc |})). split.
    + rewrite Hl. unfold record_ranges. rewrite map_app, concat_app. simpl.
      by rewrite <- app_assoc.
    + apply adjacent_app. exists off. split; [done|].
      simpl. rewrite (pax_parse_header_range _ _ _ Hh). simpl.
      unfold record_stop, BLOCK_LEN in *. split_and!; lia.
Qed.

Lemma pax_archive_adjacent `{!Sha256} bs a :
  pax_archive bs a ->
  exists rs, rs ≡ₚ pax_ranges a /\ adjacent 0 rs (Z.of_nat (length bs)).
Proof.
  intros [_ [g Hr] Hl Hf _]. destruct (pax_run_adjacent _ _ _ _ _ _ Hr) as (rs & Hp & Ha).
  exists (rs ++ [x_terminator a; x_trailing_zeros a]). split.
  - unfold pax_ranges. by rewrite Hp.
  - apply adjacent_app. exists (len (x_member_records a)). split; [done|].
    cbv zeta in Hl. rewrite Hl. simpl. unfold BLOCK_LEN in *. split_and!; lia.
Qed.

(** ** Theorems *)

Section Theorems.
Context {S} `{Source S} `{!Sha256} `{!Allocator} (s : S) (bs : list byte).

Lemma parse_pax_total max_files max_metadata :
  represents s bs -> exists r, parse_pax_portable_v1 s max_files max_metadata = Some r.
Proof.
  intros Hs. unfold parse_pax_portable_v1. case_match; [eauto|].
  assert (Hlen : 0 <= src_len s) by (rewrite (represents_len _ _ Hs); lia).
  apply (run_loop_total _ (fun st => reached bs max_files st /\ ps_offset st <= src_len s)
    (fun st => Z.to_nat ((src_len s - ps_offset st) / BLOCK_LEN))).
  - intros st [Hst _]. by apply (pax_step_total s bs).
  - intros st st' [Hst Hoff] Hstep.
    apply (pax_step_reached s bs) in Hstep as (Hst' & Hadv & Hin); [|done..].
    destruct Hst' as (ms & es & g & p & off & -> & Hr & Hn). cbn [ps_offset state_at] in *.
    assert (off <= src_len s).
    { apply (pax_run_bound bs) in Hr. rewrite (represents_len _ _ Hs). lia. }
    split; [split; [by eexists _, _, _, _, _|done]|]. unfold BLOCK_LEN in *.
    Z.div_mod_to_equations. lia.
  - split; [|simpl; lia]. exists [], [], default_state, None, 0. split_and!; [done|constructor|simpl; lia].
  - simpl. unfold BLOCK_LEN. rewrite Z.sub_0_r. lia.
Qed.

Lemma parse_pax_sound max_files max_metadata a :
  represents s bs -> parse_pax_portable_v1 s max_files max_metadata = Some (Ok a) ->
  pax_archive bs a /\ Z.of_nat (length (x_members a)) <= Z.max 0 max_files
  /\ x_metadata_bytes a <= max_metadata.
Proof.
  intros Hs Hp. pose proof (represents_len _ _ Hs) as Hlen.
  unfold parse_pax_portable_v1 in Hp. ok_steps Hp. breflect. rewrite Hlen in *.
  revert Hp. apply (run_loop_invariant _ (reached bs max_files) (fun a => pax_archive bs a /\
    Z.of_nat (length (x_members a)) <= Z.max 0 max_files /\ x_metadata_bytes a <= max_metadata)).
  - intros st st' Hst Hstep. by apply (pax_step_reached s bs) in Hstep as (? & _ & _).
  - intros st r (ms & es & g & p & off & -> & Hr & Hn) Hst.
    apply (pax_step_return s bs) in Hst as (Ha & <- & Hmeta); [|done..]. done.
  - exists [], [], default_state, None, 0. split_and!; [done|constructor|simpl; lia].
Qed.

Lemma parse_pax_complete max_files max_metadata a :
  reliable s bs -> (forall site n, try_reserve site n = true) -> 0 <= max_files ->
  pax_archive bs a -> Z.of_nat (length (x_members a)) <= max_files -> x_metadata_bytes a <= max_metadata ->
  parse_pax_portable_v1 s max_files max_metadata = Some (Ok a).
Proof.
  intros Hs Halloc Hf Ha Hn Hm. pose proof (reliable_represents _ _ Hs) as Hr.
  pose proof (parse_pax_total max_files max_metadata Hr) as Htot. pose proof (xa_fits _ _ Ha) as Hfit.
  destruct (xa_records _ _ Ha) as [g Hrec]. pose proof (pax_run_bound _ _ _ _ _ _ Hrec) as [Hb _].
  assert (Hguard : (src_len s <? BLOCK_LEN * 2) || negb (src_len s mod BLOCK_LEN =? 0) = false).
  { rewrite (represents_len _ _ Hr), (xa_blocks _ _ Ha). apply orb_false_iff.
    split; [apply Z.ltb_ge; unfold BLOCK_LEN in *; lia|done]. }
  unfold parse_pax_portable_v1 in *. rewrite Hguard in *.
  assert (Hmeta : x_metadata_bytes a = run_metadata (x_members a) (x_extensions a) + BLOCK_LEN * 2)
    by (rewrite (xa_layout _ _ Ha) at 1; done).
  eapply run_loop_reaches; [exact Htot| |by apply (pax_step_end s bs)].
  eapply (pax_run_reach s bs); [done..|exact Hrec|done|unfold BLOCK_LEN in *; lia].
Qed.

(** C20: On a reliable source and with memory available, the PAX reader always
    returns, and accepts exactly the archives of the extension grammar that
    fit the caps. *)
Theorem parse_pax_accepts_iff max_files max_metadata :
  reliable s bs -> (forall site n, try_reserve site n = true) -> 0 <= max_files ->
  (exists r, parse_pax_portable_v1 s max_files max_metadata = Some r) /\
  forall a,
  parse_pax_portable_v1 s max_files max_metadata = Some (Ok a) <->
  pax_archive bs a /\ Z.of_nat (length (x_members a)) <= max_files
  /\ x_metadata_bytes a <= max_metadata.
Proof.
  intros Hs Halloc Hf. pose proof (reliable_represents _ _ Hs) as Hr.
  pose proof (parse_pax_total max_files max_metadata Hr) as Htot. split; [done|].
  intros a. split.
  - intros (Ha & Hn & Hm)%(parse_pax_sound max_files max_metadata); [|done]. split_and!; [done|lia|done].
  - intros (Ha & Hn & Hm). by apply parse_pax_complete.
Qed.

(** Read errors and failed reservations can only refuse: whatever the PAX
    reader accepts is in the grammar and within the caps, and it returns. *)
Theorem parse_pax_faulty_source max_files max_metadata :
  represents s bs -> 0 <= max_files ->
  (exists r, parse_pax_portable_v1 s max_files max_metadata = Some r) /\
  forall a, parse_pax_portable_v1 s max_files max_metadata = Some (Ok a) ->
  pax_archive bs a /\ Z.of_nat (length (x_members a)) <= max_files
  /\ x_metadata_bytes a <= max_metadata.
Proof.
  intros Hr Hf. split; [by apply parse_pax_total|].
  intros a (Ha & Hn & Hm)%parse_pax_sound; [|done]. split_and!; [done|lia|done].
Qed.

(** C21: Precedence: every effective path and size of an accepted archive comes
    from the local extension that ends at the member's header, else from the
    last global extension before it that defines the keyword, else from the
    header itself; the recorded indices name the record the value is in. *)
Theorem pax_members_provenance max_files max_metadata a :
  represents s bs -> parse_pax_portable_v1 s max_files max_metadata = Some (Ok a) ->
  Forall (member_provenance (x_extensions a)) (x_members a).
Proof.
  intros Hs (Ha & _ & _)%parse_pax_sound; [|done]. destruct (xa_records _ _ Ha) as [g Hr].
  apply pax_run_ok in Hr as [_ _ _ Hm]. apply Forall_forall. intros m Hin%Hm.
  by destruct Hin.
Qed.

(** The extensions' and members' ranges, the terminator and the trailing
    zeros tile the source of an accepted PAX archive. *)
Theorem pax_archive_tiles max_files max_metadata a :
  represents s bs -> parse_pax_portable_v1 s max_files max_metadata = Some (Ok a) ->
  tiles {| start := 0; end_ := src_len s |} (intervals (pax_ranges a)).
Proof.
  intros Hs (Ha & _ & _)%parse_pax_sound; [|done]. rewrite (represents_len _ _ Hs).
  destruct (pax_archive_adjacent _ _ Ha) as (rs & Hp & Hadj). by eapply adjacent_perm_tiles.
Qed.
End Theorems.

(** ** Witnesses: a global size, a local path and size, two members *)

Definition pax_header (name : list byte) (size : Z) (typeflag : byte) : list byte :=
  fix_fuzz_checksum (text_field 100 name ++ write_octal 8 420 ++ write_octal 8 0
    ++ write_octal 8 0 ++ write_octal 12 size ++ write_octal 12 0 ++ replicate 8 x20
    ++ [typeflag] ++ replicate 100 x00 ++ lit "ustar" ++ [x00; x30; x30] ++ replicate 247 x00).
Definition pax_entry (header payload : list byte) : list byte :=
  header ++ payload
    ++ replicate (Z.to_nat (padded (Z.of_nat (length payload))) - length payload) x00.

Definition example_pax_bytes : list byte :=
  let globals := lit "9 size=2" ++ [x0a] in
  let locals := lit "16 path=a/b.txt" ++ [x0a] ++ lit "9 size=3" ++ [x0a] in
  pax_entry (pax_header (lit "global") (Z.of_nat (length globals)) x67) globals
    ++ pax_entry (pax_header (lit "local") (Z.of_nat (length locals)) x78) locals
    ++ pax_entry (pax_header (lit "short") 7 x30) (lit "abc")
    ++ pax_entry (pax_header (lit "plain") 7 x30) (lit "de")
    ++ replicate 1024 x00.
Definition example_pax_snapshot : SourceSnapshot := @borrowed null_sha256 None example_pax_bytes.
Definition example_pax : PaxArchive :=
  match @parse_pax_portable_v1 _ _ null_sha256 always_reserves example_pax_snapshot 2 4096 with
  | Some (Ok a) => a
  | _ => {| x_members := []; x_extensions := []; x_member_records := mkrange 0 0;
            x_terminator := mkrange 0 0; x_trailing_zeros := mkrange 0 0; x_metadata_bytes := 0 |}
  end.

Lemma example_pax_parsed :
  @parse_pax_portable_v1 _ _ null_sha256 always_reserves example_pax_snapshot 2 4096
  = Some (Ok example_pax).
Proof. vm_compute. reflexivity. Qed.
Lemma example_pax_reliable : reliable example_pax_snapshot example_pax_bytes.
Proof. apply borrowed_reliable. vm_compute. discriminate. Qed.
Lemma example_pax_represents : represents example_pax_snapshot example_pax_bytes.
Proof. apply reliable_represents, example_pax_reliable. Qed.

Lemma parse_pax_accepts_iff_witness :
  @pax_archive null_sha256 example_pax_bytes example_pax
  /\ @parse_pax_portable_v1 _ _ null_sha256 always_reserves example_pax_snapshot 1 4096
     <> Some (Ok example_pax).
Proof.
  split.
  - apply (@parse_pax_accepts_iff _ _ null_sha256 always_reserves example_pax_snapshot
      example_pax_bytes 2 4096);
      [exact example_pax_reliable|done|lia|exact example_pax_parsed].
  - intros Hp.
    apply (@parse_pax_accepts_iff _ _ null_sha256 always_reserves example_pax_snapshot
      example_pax_bytes 1 4096) in Hp as (_ & Hn & _);
      [|exact example_pax_reliable|done|lia].
    vm_compute in Hn. by apply Hn.
Defined.

Lemma parse_pax_faulty_source_witness : @pax_archive null_sha256 example_pax_bytes example_pax.
Proof.
  destruct (@parse_pax_faulty_source _ _ null_sha256 always_reserves example_pax_snapshot
    example_pax_bytes 2 4096 example_pax_represents ltac:(lia)) as [_ H].
  exact (proj1 (H _ example_pax_parsed)).
Defined.

Lemma pax_members_provenance_witness :
  Forall (member_provenance (x_extensions example_pax)) (x_members example_pax)
  /\ map m_sources (x_members example_pax) =
     [{| src_path := FromLocal 1 0; src_size := FromLocal 1 1 |};
      {| src_path := FromUstar; src_size := FromGlobal 0 0 |}]
  /\ map m_size (x_members example_pax) = [3; 2].
Proof.
  split_and!; [|vm_compute; reflexivity..].
  exact (@pax_members_provenance _ _ null_sha256 always_reserves example_pax_snapshot
    example_pax_bytes 2 4096 _ example_pax_represents example_pax_parsed).
Defined.

Lemma pax_archive_tiles_witness :
  tiles {| start := 0; end_ := src_len example_pax_snapshot |} (intervals (pax_ranges example_pax))
  /\ length (intervals (pax_ranges example_pax)) = 13%nat.
Proof.
  split; [|vm_compute; reflexivity].
  exact (@pax_archive_tiles _ _ null_sha256 always_reserves example_pax_snapshot
    example_pax_bytes 2 4096 _ example_pax_represents example_pax_parsed).
Defined.
