(* ===== verification/Evidence.v ===== *)
(** * The archive representation ([ir.rs])

    One interpreted archive: the evidence of its container, the evidence and
    destination meaning of every member, and the constructors that plan a
    member from what a parser read.  A field that several Rust structs name
    alike carries a prefix here.  [PaxValueSource], [PaxKeyword],
    [PaxExtensionKind], [DataDescriptorWidth] and [Zip64LocalValueShape] are
    the parsers' enums; [ir.rs] repeats them constructor for constructor. *)

From S2P Require Import Prelude Utf8 Findings Snapshot Ir ZipFields ZipRecords Tar TarGnu TarPax.
Local Open Scope Z_scope.

Inductive ArchiveFormat : Type :=
  | FormatZip32 | FormatZip64 | TarUstar | TarGzipUstar | FormatTarPax | FormatTarGnuLongName
  | FormatTarGzipPax | FormatTarGzipGnuLongName | TarZstdUstar | TarXzUstar | TarBzip2Ustar
  | SevenZCopy.
#[export] Instance ArchiveFormat_eq_dec : EqDecision ArchiveFormat.
Proof. solve_decision. Defined.

Inductive MemberKind : Type := KindFile | KindDirectory.
#[export] Instance MemberKind_eq_dec : EqDecision MemberKind.
Proof. solve_decision. Defined.

Inductive MemberVerification : Type := Pending | Verified | Failed (cause : str).

(** ** Evidence of one member *)

(** [MemberSourceRanges::record_end]. *)
Definition record_end (r : MemberSourceRanges) : Z :=
  match data_descriptor r with
  | Some d => range_end d
  | None => range_end (compressed_payload r)
  end.

Record TarMemberEvidence : Type := {
  te_header : ByteRange;
  te_payload : ByteRange;
  te_padding : ByteRange;
  te_mode : Z;
  te_mtime : Z;
  te_header_checksum : Z;
  te_header_sha256 : str
}.

Record PaxRecordEvidence : Type := {
  re_record : ByteRange;
  re_value : ByteRange;
  re_keyword : PaxKeyword;
  re_raw_value_bytes : list byte;
  re_parsed_size : option Z
}.

Record PaxExtensionEvidence : Type := {
  xe_raw_name_bytes : list byte;
  xe_kind : PaxExtensionKind;
  xe_header : ByteRange;
  xe_payload : ByteRange;
  xe_padding : ByteRange;
  xe_mode : Z;
  xe_mtime : Z;
  xe_header_checksum : Z;
  xe_header_sha256 : str;
  xe_payload_sha256 : str;
  xe_records : list PaxRecordEvidence
}.

Record TarPaxMemberEvidence : Type := {
  pe_tar : TarMemberEvidence;
  pe_base_name_bytes : list byte;
  pe_base_size : Z;
  pe_path_source : PaxValueSource;
  pe_size_source : PaxValueSource
}.

Inductive GnuLongNamePathSource : Type := Header | Carrier (carrier_index : Z).

Record GnuLongNameCarrierEvidence : Type := {
  ge_raw_name_bytes : list byte;
  ge_path_bytes : list byte;
  ge_header : ByteRange;
  ge_payload : ByteRange;
  ge_path : ByteRange;
  ge_padding : ByteRange;
  ge_mode : Z;
  ge_mtime : Z;
  ge_header_checksum : Z;
  ge_header_sha256 : str;
  ge_payload_sha256 : str
}.

Record TarGnuLongNameMemberEvidence : Type := {
  ne_tar : TarMemberEvidence;
  ne_base_name_bytes : list byte;
  ne_path_source : GnuLongNamePathSource
}.

Inductive TarPayloadWrapper : Type := Raw | Gzip | Zstd | Xz | Bzip2.

Record SevenZMemberEvidence : Type := {
  se_payload : ByteRange;
  se_declared_crc : option Z;
  se_attributes : option Z;
  se_mtime : option Z
}.

Record ZipMemberEvidence : Type := {
  ze_method : Z;
  ze_flags : Z;
  ze_declared_crc : Z;
  ze_declared_comp_size : Z;
  ze_source_ranges : MemberSourceRanges;
  ze_extra_fields : list ExtraFieldRecord;
  ze_creator_system : Z;
  ze_external_attributes : Z
}.

Record Zip64MemberEvidence : Type := {
  z_zip : ZipMemberEvidence;
  z_local_version_needed : Z;
  z_central_version_needed : Z;
  z_central_presence_mask : Z;
  z_central_legacy_sentinel_mask : Z;
  z_local_legacy_sentinel_mask : Z;
  z_local_value_shape : Zip64LocalValueShape;
  z_local_zip64_extra : option ByteRange;
  z_central_zip64_extra : option ByteRange;
  z_descriptor_width : option DataDescriptorWidth
}.

Inductive MemberEvidence : Type :=
  | EvZip (evidence : ZipMemberEvidence)
  | EvZip64 (evidence : Zip64MemberEvidence)
  | EvTar (evidence : TarMemberEvidence)
  | EvTarGzip (evidence : TarMemberEvidence)
  | EvTarPax (evidence : TarPaxMemberEvidence)
  | EvTarGnuLongName (evidence : TarGnuLongNameMemberEvidence)
  | EvTarGzipPax (evidence : TarPaxMemberEvidence)
  | EvTarGzipGnuLongName (evidence : TarGnuLongNameMemberEvidence)
  | EvTarZstd (evidence : TarMemberEvidence)
  | EvTarXz (evidence : TarMemberEvidence)
  | EvTarBzip2 (evidence : TarMemberEvidence)
  | EvSevenZ (evidence : SevenZMemberEvidence).

(** ** Evidence of one container *)

Record XzBlockEvidence : Type := {
  xb_header : ByteRange;
  xb_compressed : ByteRange;
  xb_padding : ByteRange;
  xb_check : ByteRange;
  xb_dict_size : Z;
  xb_declared_compressed : option Z;
  xb_declared_uncompressed : option Z;
  xb_uncompressed_len : Z;
  xb_check_value : list byte
}.

Record XzWrapperEvidence : Type := {
  xz_check_id : Z;
  xz_header : ByteRange;
  xz_blocks : list XzBlockEvidence;
  xz_index : ByteRange;
  xz_footer : ByteRange;
  xz_derived_output_len : Z;
  xz_derived_output_sha256 : str
}.

Record SevenZSubStreamEvidence : Type := {
  ss_payload : ByteRange;
  ss_declared_crc : option Z
}.

Record SevenZFolderEvidence : Type := {
  sf_pack_stream : ByteRange;
  sf_pack_crc : option Z;
  sf_unpack_size : Z;
  sf_folder_crc : option Z;
  sf_substreams : list SevenZSubStreamEvidence
}.

Record SevenZArchiveEvidence : Type := {
  sa_version_minor : Z;
  sa_pack_region : ByteRange;
  sa_next_header : ByteRange;
  sa_next_header_crc : Z;
  sa_folders : list SevenZFolderEvidence;
  sa_name_region_bytes : Z;
  sa_dummy_bytes : Z
}.

Record Bzip2WrapperEvidence : Type := {
  bz_level : Z;
  bz_header : ByteRange;
  bz_payload_bits : Z;
  bz_padding_bits : Z;
  bz_block_bit_offsets : list Z;
  bz_block_crcs : list Z;
  bz_combined_crc : Z;
  bz_derived_output_len : Z;
  bz_derived_output_sha256 : str
}.

Record ZstdWrapperEvidence : Type := {
  zs_descriptor : Z;
  zs_single_segment : bool;
  zs_checksum_flag : bool;
  zs_window_descriptor : option Z;
  zs_window_size : Z;
  zs_frame_content_size : option Z;
  zs_header : ByteRange;
  zs_compressed_payload : ByteRange;
  zs_trailer : ByteRange;
  zs_declared_checksum : option Z;
  zs_derived_output_len : Z;
  zs_derived_output_sha256 : str
}.

Record GzipWrapperEvidence : Type := {
  gz_flags : Z;
  gz_modification_time : Z;
  gz_extra_flags : Z;
  gz_operating_system : Z;
  gz_header : ByteRange;
  gz_extra : option ByteRange;
  gz_extra_subfield_count : Z;
  gz_original_name : option ByteRange;
  gz_comment : option ByteRange;
  gz_header_crc16 : option ByteRange;
  gz_compressed_payload : ByteRange;
  gz_trailer : ByteRange;
  gz_declared_crc32 : Z;
  gz_declared_isize : Z;
  gz_derived_output_len : Z;
  gz_derived_output_sha256 : str
}.

Record TarArchiveCovering : Type := {
  tc_member_records : ByteRange;
  tc_terminator : ByteRange;
  tc_trailing_zeros : ByteRange
}.

Record TarPaxArchiveEvidence : Type := {
  pa_tar : TarArchiveCovering;
  pa_extensions : list PaxExtensionEvidence
}.

Record TarGnuLongNameArchiveEvidence : Type := {
  na_tar : TarArchiveCovering;
  na_carriers : list GnuLongNameCarrierEvidence
}.

(** The one-field structs [TarGzipArchiveEvidence], ... are the arguments of
    their constructor. *)
Inductive ArchiveEvidence : Type :=
  | ArZip (covering : ArchiveCovering)
  | ArZip64 (covering : Zip64ArchiveCovering)
  | ArTar (covering : TarArchiveCovering)
  | ArTarGzip (gzip : GzipWrapperEvidence) (tar : TarArchiveCovering)
  | ArTarPax (pax : TarPaxArchiveEvidence)
  | ArTarGnuLongName (gnu : TarGnuLongNameArchiveEvidence)
  | ArTarGzipPax (gzip : GzipWrapperEvidence) (pax : TarPaxArchiveEvidence)
  | ArTarGzipGnuLongName (gzip : GzipWrapperEvidence) (gnu : TarGnuLongNameArchiveEvidence)
  | ArTarZstd (zstd : ZstdWrapperEvidence) (tar : TarArchiveCovering)
  | ArTarXz (xz : XzWrapperEvidence) (tar : TarArchiveCovering)
  | ArTarBzip2 (bzip2 : Bzip2WrapperEvidence) (tar : TarArchiveCovering)
  | ArSevenZ (sevenz : SevenZArchiveEvidence).

(** ** Members and archives *)

Record IrMember : Type := {
  ir_raw_name_bytes : list byte;
  decoded_name : str;
  canonical_path : str;
  ir_components : list str;
  ir_kind : MemberKind;
  declared_uncomp_size : Z;
  ir_evidence : MemberEvidence;
  actual_uncomp_size : option Z;
  actual_crc : option Z;
  content_sha256 : option str;
  verification : MemberVerification;
  normalization_actions : list NormalizationAction
}.

Record ArchiveIR : Type := {
  schema : string;
  profile : string;
  profile_digest : str;
  source_digest : SourceDigest;
  evidence : ArchiveEvidence;
  members : list IrMember
}.

(** [IrMember::format], [ArchiveIR::format]. *)
Definition member_format (m : IrMember) : ArchiveFormat :=
  match ir_evidence m with
  | EvZip _ => FormatZip32
  | EvZip64 _ => FormatZip64
  | EvTar _ => TarUstar
  | EvTarGzip _ => TarGzipUstar
  | EvTarPax _ => FormatTarPax
  | EvTarGnuLongName _ => FormatTarGnuLongName
  | EvTarGzipPax _ => FormatTarGzipPax
  | EvTarGzipGnuLongName _ => FormatTarGzipGnuLongName
  | EvTarZstd _ => TarZstdUstar
  | EvTarXz _ => TarXzUstar
  | EvTarBzip2 _ => TarBzip2Ustar
  | EvSevenZ _ => SevenZCopy
  end.

Definition format (ir : ArchiveIR) : ArchiveFormat :=
  match evidence ir with
  | ArZip _ => FormatZip32
  | ArZip64 _ => FormatZip64
  | ArTar _ => TarUstar
  | ArTarGzip _ _ => TarGzipUstar
  | ArTarPax _ => FormatTarPax
  | ArTarGnuLongName _ => FormatTarGnuLongName
  | ArTarGzipPax _ _ => FormatTarGzipPax
  | ArTarGzipGnuLongName _ _ => FormatTarGzipGnuLongName
  | ArTarZstd _ _ => TarZstdUstar
  | ArTarXz _ _ => TarXzUstar
  | ArTarBzip2 _ _ => TarBzip2Ustar
  | ArSevenZ _ => SevenZCopy
  end.

(** *** The format-native views of a member *)

Definition zip_evidence (m : IrMember) : option ZipMemberEvidence :=
  match ir_evidence m with
  | EvZip e => Some e
  | EvZip64 e => Some (z_zip e)
  | _ => None
  end.

Definition zip64_evidence (m : IrMember) : option Zip64MemberEvidence :=
  match ir_evidence m with EvZip64 e => Some e | _ => None end.

Definition tar_evidence (m : IrMember) : option TarMemberEvidence :=
  match ir_evidence m with
  | EvZip _ | EvZip64 _ | EvSevenZ _ => None
  | EvTar e | EvTarGzip e | EvTarZstd e | EvTarXz e | EvTarBzip2 e => Some e
  | EvTarPax e | EvTarGzipPax e => Some (pe_tar e)
  | EvTarGnuLongName e | EvTarGzipGnuLongName e => Some (ne_tar e)
  end.

Definition tar_pax_evidence (m : IrMember) : option TarPaxMemberEvidence :=
  match ir_evidence m with EvTarPax e | EvTarGzipPax e => Some e | _ => None end.

Definition tar_gnu_longname_evidence (m : IrMember) : option TarGnuLongNameMemberEvidence :=
  match ir_evidence m with EvTarGnuLongName e | EvTarGzipGnuLongName e => Some e | _ => None end.

(** *** The format-native views of an archive *)

Definition archive_zip_covering (ir : ArchiveIR) : option ArchiveCovering :=
  match evidence ir with ArZip c => Some c | _ => None end.

Definition archive_zip64_covering (ir : ArchiveIR) : option Zip64ArchiveCovering :=
  match evidence ir with ArZip64 c => Some c | _ => None end.

Definition tar_covering (ir : ArchiveIR) : option TarArchiveCovering :=
  match evidence ir with
  | ArZip _ | ArZip64 _ | ArSevenZ _ => None
  | ArTar c | ArTarGzip _ c | ArTarZstd _ c | ArTarXz _ c | ArTarBzip2 _ c => Some c
  | ArTarPax e | ArTarGzipPax _ e => Some (pa_tar e)
  | ArTarGnuLongName e | ArTarGzipGnuLongName _ e => Some (na_tar e)
  end.

Definition sevenz_evidence (ir : ArchiveIR) : option SevenZArchiveEvidence :=
  match evidence ir with ArSevenZ e => Some e | _ => None end.

Definition bzip2_evidence (ir : ArchiveIR) : option Bzip2WrapperEvidence :=
  match evidence ir with ArTarBzip2 e _ => Some e | _ => None end.

Definition xz_evidence (ir : ArchiveIR) : option XzWrapperEvidence :=
  match evidence ir with ArTarXz e _ => Some e | _ => None end.

Definition zstd_evidence (ir : ArchiveIR) : option ZstdWrapperEvidence :=
  match evidence ir with ArTarZstd e _ => Some e | _ => None end.

Definition gzip_evidence (ir : ArchiveIR) : option GzipWrapperEvidence :=
  match evidence ir with
  | ArTarGzip e _ | ArTarGzipPax e _ | ArTarGzipGnuLongName e _ => Some e
  | _ => None
  end.

Definition archive_pax_evidence (ir : ArchiveIR) : option TarPaxArchiveEvidence :=
  match evidence ir with ArTarPax e | ArTarGzipPax _ e => Some e | _ => None end.
Definition pax_extensions (ir : ArchiveIR) : option (list PaxExtensionEvidence) :=
  option_map pa_extensions (archive_pax_evidence ir).

Definition archive_gnu_evidence (ir : ArchiveIR) : option TarGnuLongNameArchiveEvidence :=
  match evidence ir with ArTarGnuLongName e | ArTarGzipGnuLongName _ e => Some e | _ => None end.
Definition gnu_longname_carriers (ir : ArchiveIR) : option (list GnuLongNameCarrierEvidence) :=
  option_map na_carriers (archive_gnu_evidence ir).

(** ** Planned members

    What a parser read, with the destination components the jail admitted.
    A planned member is unverified. *)

(** [components.join("/")]. *)
Fixpoint join_slash (parts : list str) : str :=
  match parts with
  | [] => []
  | [part] => part
  | part :: parts => part ++ lit "/" ++ join_slash parts
  end.

Definition kind_of (is_dir : bool) : MemberKind := if is_dir then KindDirectory else KindFile.

(** The fields every planning constructor fills alike. *)
Definition planned (raw_name_bytes : list byte) (name : str) (is_dir : bool) (size : Z)
    (evidence : MemberEvidence) (components : list str) (actions : list NormalizationAction) :
    IrMember :=
  {| ir_raw_name_bytes := raw_name_bytes; decoded_name := name;
     canonical_path := join_slash components; ir_components := components;
     ir_kind := kind_of is_dir; declared_uncomp_size := size; ir_evidence := evidence;
     actual_uncomp_size := None; actual_crc := None; content_sha256 := None;
     verification := Pending; normalization_actions := actions |}.

Definition zip_member_evidence (zip : ZipMember) : ZipMemberEvidence :=
  {| ze_method := zm_method zip; ze_flags := zm_flags zip; ze_declared_crc := zm_crc zip;
     ze_declared_comp_size := zm_comp_size zip; ze_source_ranges := zm_source_ranges zip;
     ze_extra_fields := zm_extra_fields zip; ze_creator_system := zm_creator_system zip;
     ze_external_attributes := zm_external_attributes zip |}.

(** [IrMember::from_planned]. *)
Definition from_planned (zip : ZipMember) (components : list str)
    (actions : list NormalizationAction) : IrMember :=
  planned (zm_raw_name zip) (zm_name zip) (zm_is_dir zip) (zm_uncomp_size zip)
    (EvZip (zip_member_evidence zip)) components actions.

(** The data range of the first ZIP64 extra field of one site. *)
Definition zip64_extra_range (site_ : ExtraSite) (fields : list ExtraFieldRecord) :
    option ByteRange :=
  option_map data_range
    (find (fun f => match site f, site_ with Ir.Local, Ir.Local | Ir.Central, Ir.Central => true
                    | _, _ => false end && (id f =? DENIED_EXTRA_ZIP64)) fields).

(** [IrMember::from_zip64_planned]; [None] is the panic of its [expect]. *)
Definition from_zip64_planned (zip : ZipMember) (components : list str)
    (actions : list NormalizationAction) : option IrMember :=
  match zm_zip64_evidence zip with
  | None => None
  | Some parsed =>
      Some (planned (zm_raw_name zip) (zm_name zip) (zm_is_dir zip) (zm_uncomp_size zip)
        (EvZip64
          {| z_zip := zip_member_evidence zip;
             z_local_version_needed := ev_local_version_needed parsed;
             z_central_version_needed := ev_central_version_needed parsed;
             z_central_presence_mask := ev_central_presence_mask parsed;
             z_central_legacy_sentinel_mask := ev_central_legacy_sentinel_mask parsed;
             z_local_legacy_sentinel_mask := ev_local_legacy_sentinel_mask parsed;
             z_local_value_shape := ev_local_value_shape parsed;
             z_local_zip64_extra := zip64_extra_range Ir.Local (zm_extra_fields zip);
             z_central_zip64_extra := zip64_extra_range Ir.Central (zm_extra_fields zip);
             z_descriptor_width := ev_descriptor_width parsed |})
        components actions)
  end.

Definition tar_member_evidence (tar : TarMember) : TarMemberEvidence :=
  {| te_header := Tar.header tar; te_payload := Tar.payload tar; te_padding := Tar.padding tar;
     te_mode := Tar.mode tar; te_mtime := Tar.mtime tar;
     te_header_checksum := Tar.header_checksum tar; te_header_sha256 := Tar.header_sha256 tar |}.

(** [IrMember::from_tar_planned_for_format]; the [from_tar_planned] and
    [from_tar_gzip_planned] family passes one wrapper each. *)
Definition from_tar_planned_for_format (tar : TarMember) (components : list str)
    (actions : list NormalizationAction) (wrapper : TarPayloadWrapper) : IrMember :=
  let evidence := tar_member_evidence tar in
  planned (Tar.raw_name tar) (Tar.name tar) (Tar.is_dir tar) (Tar.size tar)
    match wrapper with
    | Raw => EvTar evidence
    | Gzip => EvTarGzip evidence
    | Zstd => EvTarZstd evidence
    | Xz => EvTarXz evidence
    | Bzip2 => EvTarBzip2 evidence
    end components actions.
Definition from_tar_planned tar components actions :=
  from_tar_planned_for_format tar components actions Raw.
Definition from_tar_gzip_planned tar components actions :=
  from_tar_planned_for_format tar components actions Gzip.
Definition from_tar_zstd_planned tar components actions :=
  from_tar_planned_for_format tar components actions Zstd.
Definition from_tar_xz_planned tar components actions :=
  from_tar_planned_for_format tar components actions Xz.
Definition from_tar_bzip2_planned tar components actions :=
  from_tar_planned_for_format tar components actions Bzip2.

(** [IrMember::from_tar_pax_planned_for_format]. *)
Definition from_tar_pax_planned_for_format (tar : TarMember) (base_size : Z)
    (effective_raw_name_bytes : list byte) (effective_name : str) (components : list str)
    (actions : list NormalizationAction) (path_source size_source : PaxValueSource)
    (gzip_wrapped : bool) : IrMember :=
  let evidence := {| pe_tar := tar_member_evidence tar; pe_base_name_bytes := Tar.raw_name tar;
                     pe_base_size := base_size; pe_path_source := path_source;
                     pe_size_source := size_source |} in
  planned effective_raw_name_bytes effective_name (Tar.is_dir tar) (Tar.size tar)
    (if gzip_wrapped then EvTarGzipPax evidence else EvTarPax evidence) components actions.

(** [IrMember::from_tar_gnu_longname_planned_for_format]. *)
Definition from_tar_gnu_longname_planned_for_format (tar : GnuLongNameMember)
    (components : list str) (actions : list NormalizationAction) (gzip_wrapped : bool) : IrMember :=
  let evidence :=
    {| ne_tar := {| te_header := g_header tar; te_payload := g_payload tar;
                    te_padding := g_padding tar; te_mode := g_mode tar; te_mtime := g_mtime tar;
                    te_header_checksum := g_header_checksum tar;
                    te_header_sha256 := g_header_sha256 tar |};
       ne_base_name_bytes := g_raw_name tar;
       ne_path_source := match g_carrier_index tar with
                         | None => Header
                         | Some carrier_index => Carrier carrier_index
                         end |} in
  planned (g_name tar) (g_name tar) (g_is_dir tar) (g_size tar)
    (if gzip_wrapped then EvTarGzipGnuLongName evidence else EvTarGnuLongName evidence)
    components actions.

(** [SevenZMember] of [sevenz.rs] and [IrMember::from_sevenz_planned]. *)
Record SevenZMember : Type := {
  sm_raw_name_bytes : list byte;
  sm_name : str;
  sm_is_dir : bool;
  sm_size : Z;
  sm_payload : ByteRange;
  sm_declared_crc : option Z;
  sm_attributes : option Z;
  sm_mtime : option Z
}.
Definition from_sevenz_planned (member : SevenZMember) (components : list str)
    (actions : list NormalizationAction) : IrMember :=
  planned (sm_raw_name_bytes member) (sm_name member) (sm_is_dir member) (sm_size member)
    (EvSevenZ {| se_payload := sm_payload member; se_declared_crc := sm_declared_crc member;
                 se_attributes := sm_attributes member; se_mtime := sm_mtime member |})
    components actions.

(** ** Verification results *)

Definition with_verification (m : IrMember) (size crc : option Z) (sha : option str)
    (status : MemberVerification) : IrMember :=
  {| ir_raw_name_bytes := ir_raw_name_bytes m; decoded_name := decoded_name m;
     canonical_path := canonical_path m; ir_components := ir_components m;
     ir_kind := ir_kind m; declared_uncomp_size := declared_uncomp_size m;
     ir_evidence := ir_evidence m; actual_uncomp_size := size; actual_crc := crc;
     content_sha256 := sha; verification := status;
     normalization_actions := normalization_actions m |}.

Definition mark_directory_verified `{!Sha256} (m : IrMember) : IrMember :=
  with_verification m (Some 0) (Some (from_option ze_declared_crc 0 (zip_evidence m)))
    (Some (hex_sha256 [])) Verified.
Definition mark_file_verified (m : IrMember) (actual crc : Z) (sha256 : str) : IrMember :=
  with_verification m (Some actual) (Some crc) (Some sha256) Verified.
Definition mark_failed (m : IrMember) (cause : str) : IrMember :=
  with_verification m (actual_uncomp_size m) (actual_crc m) (content_sha256 m) (Failed cause).

(** ** Container facts *)

Record MemberContainerFacts : Type := { creator_system : Z; external_attributes : Z }.

Definition container_facts (m : IrMember) : option MemberContainerFacts :=
  option_map (fun e => {| creator_system := ze_creator_system e;
                          external_attributes := ze_external_attributes e |}) (zip_evidence m).
(** [(external_attributes >> 16) as u16] of a [u32]. *)
Definition unix_mode (facts : MemberContainerFacts) : option Z :=
  if creator_system facts =? 3 then Some (Z.shiftr (external_attributes facts) 16 mod 65536)
  else None.
Definition executable_regular (mode : Z) : bool :=
  (Z.land mode 61440 =? 32768) && negb (Z.land mode 73 =? 0).
Definition unix_regular_executable (facts : MemberContainerFacts) : bool :=
  match unix_mode facts with None => false | Some mode => executable_regular mode end.
Definition pypa_installer_0_7_executable (facts : MemberContainerFacts) : bool :=
  executable_regular (Z.shiftr (external_attributes facts) 16 mod 65536).
