(* ===== verification/Identity.v ===== *)
(** * Tree identities ([identity.rs])

    The canonical layout and content encodings whose SHA-256 digests identify
    an admitted archive.  A writer [push_...] returns the bytes it appends;
    [NoneReturned] is the [None] of an encoder that returns an option and
    [Panic] the failure of an [expect]. *)

From S2P Require Import Prelude Utf8 Sort Findings Snapshot Ir ZipFields ZipRecords Tar TarGnu TarPax Evidence.
Local Open Scope Z_scope.
Local Open Scope rust_scope.

Definition LAYOUT_LABEL : str := lit "sealr.tree.layout.v1".
Definition TAR_LAYOUT_LABEL : str := lit "sealr.tree.layout.tar-ustar.v1".
Definition ZIP64_LAYOUT_LABEL : str := lit "sealr.tree.layout.zip64.v1".
Definition TAR_GZIP_LAYOUT_LABEL : str := lit "sealr.tree.layout.tar-gzip-ustar.v1".
Definition TAR_PAX_LAYOUT_LABEL : str := lit "sealr.tree.layout.tar-pax.v1".
Definition TAR_GNU_LONGNAME_LAYOUT_LABEL : str := lit "sealr.tree.layout.tar-gnu-longname.v1".
Definition TAR_GZIP_PAX_LAYOUT_LABEL : str := lit "sealr.tree.layout.tar-gzip-pax.v1".
Definition TAR_GZIP_GNU_LONGNAME_LAYOUT_LABEL : str :=
  lit "sealr.tree.layout.tar-gzip-gnu-longname.v1".
Definition TAR_ZSTD_LAYOUT_LABEL : str := lit "sealr.tree.layout.tar-zstd-ustar.v1".
Definition TAR_XZ_LAYOUT_LABEL : str := lit "sealr.tree.layout.tar-xz-ustar.v1".
Definition TAR_BZIP2_LAYOUT_LABEL : str := lit "sealr.tree.layout.tar-bzip2-ustar.v1".
Definition SEVENZ_COPY_LAYOUT_LABEL : str := lit "sealr.tree.layout.7z-copy.v1".
Definition CONTENT_LABEL : str := lit "sealr.tree.content.v1".

(** ** Transformation profiles ([TransformProfile] of [snapshot.rs]) *)

Inductive TransformProfile : Type :=
  | GzipRfc1952SingleMemberV1 | ZstdRfc8878SingleFrameV1 | XzSingleStreamV1 | Bzip2SingleStreamV1.
#[export] Instance TransformProfile_eq_dec : EqDecision TransformProfile.
Proof. solve_decision. Defined.

Definition transform_id (p : TransformProfile) : str :=
  match p with
  | GzipRfc1952SingleMemberV1 => lit "sealr.transform.gzip.rfc1952-single-member.v1"
  | ZstdRfc8878SingleFrameV1 => lit "sealr.transform.zstd.rfc8878-single-frame.v1"
  | XzSingleStreamV1 => lit "sealr.transform.xz.xzfmt-single-stream.v1"
  | Bzip2SingleStreamV1 => lit "sealr.transform.bzip2.bzip2fmt-single-stream.v1"
  end.

Definition transform_digest (p : TransformProfile) : str :=
  match p with
  | GzipRfc1952SingleMemberV1 =>
      lit "795a124c278eacf1fb9b4fc3825a74240d6d0e89c29ffdfe6118ff6db53c0a45"
  | ZstdRfc8878SingleFrameV1 =>
      lit "86745123584dc79e454f8f1bbf5a1bd1b75d1334902fd629e8eee8f251aa9d19"
  | XzSingleStreamV1 =>
      lit "b3c323849a366141edc28e0c5ab0028253430d0f6a5bda2ebec728c3a6543667"
  | Bzip2SingleStreamV1 =>
      lit "3520def23a770b24a29ae037ae31d3bfefeb3faf7132b07913ae71dbf028ece4"
  end.

Definition decoder_parameters_digest (p : TransformProfile) : str :=
  match p with
  | GzipRfc1952SingleMemberV1 =>
      lit "c835627b01c4b54041c627319fab4d5af294a203ac26fbe91cadb6d1f17cd5e1"
  | ZstdRfc8878SingleFrameV1 =>
      lit "a4a46d31cf8acbbfe043745ba1df4f43b7a955efc28ee8913804a99bae79d503"
  | XzSingleStreamV1 =>
      lit "ebdf4f3d9624cad6b245054d78f84ca50f8cea18a368e0025d2812dae8799032"
  | Bzip2SingleStreamV1 =>
      lit "c5c288439edcf5710a640215400fa2481f06fb0a2381ec96db29f7e1ace36195"
  end.

(** ** Writers *)

Inductive Stop : Type := NoneReturned | Panic.
Definition some {A} (o : option A) : result A Stop := ok_or o NoneReturned.
Definition expect {A} (o : option A) : result A Stop := ok_or o Panic.

(** [u32::try_from] of a length. *)
Definition u32_len (n : nat) : option Z :=
  if Z.of_nat n <=? u32_max then Some (Z.of_nat n) else None.

Definition push_u8 (v : Z) : list byte := [of_u8 v].
Definition push_u16 (v : Z) : list byte := le_bytes 2 v.
Definition push_u32 (v : Z) : list byte := le_bytes 4 v.
Definition push_u64 (v : Z) : list byte := le_bytes 8 v.
(** [le_bytes 4] keeps the low 32 bits, as the cast [value.len() as u32] does. *)
Definition push_bytes (value : list byte) : list byte :=
  push_u32 (Z.of_nat (length value)) ++ value.
Definition encode_range (r : ByteRange) : list byte := push_u64 (offset r) ++ push_u64 (len r).

Definition push_optional {A} (push : A -> list byte) (o : option A) : list byte :=
  match o with Some v => push_u8 1 ++ push v | None => push_u8 0 end.
Definition encode_optional_range : option ByteRange -> list byte := push_optional encode_range.
Definition push_optional_u8 : option Z -> list byte := push_optional push_u8.
Definition push_optional_u32 : option Z -> list byte := push_optional push_u32.
Definition push_optional_u64 : option Z -> list byte := push_optional push_u64.

Definition push_bool (b : bool) : list byte := push_u8 (if b then 1 else 0).

(** [u8::from_str_radix(text, 16)] of a two-byte chunk: a sign is skipped
    before a digit. *)
Definition hex_digit (b : byte) : option Z :=
  let c := u8 b in
  if between 48 57 c then Some (c - 48)
  else if between 97 102 c then Some (c - 87)
  else if between 65 70 c then Some (c - 55)
  else None.
Definition hex_pair (a b : byte) : option Z :=
  match hex_digit b with
  | None => None
  | Some lo =>
      if u8 a =? 43 then Some lo
      else match hex_digit a with Some hi => Some (16 * hi + lo) | None => None end
  end.
Fixpoint hex_pairs (s : list byte) : option (list byte) :=
  match s with
  | [] => Some []
  | [_] => None
  | a :: b :: s =>
      match hex_pair a b, hex_pairs s with
      | Some v, Some bs => Some (of_u8 v :: bs)
      | _, _ => None
      end
  end.
Definition parse_hex32 (hex : str) : option (list byte) :=
  if (length hex =? 64)%nat then hex_pairs hex else None.

(** The loop that encodes a list in order. *)
Fixpoint encode_each {A} (encode : A -> result (list byte) Stop) (l : list A) :
    result (list byte) Stop :=
  match l with
  | [] => Ok []
  | x :: l =>
      let? b := encode x in
      let? bs := encode_each encode l in
      Ok (b ++ bs)
  end.

(** [preimage]: [label SP decimal_len NUL body]. *)
Definition preimage (label : str) (body : list byte) : list byte :=
  label ++ lit " " ++ lit (fmt_dec (Z.of_nat (length body))) ++ [x00] ++ body.

Definition path_cmp (a b : IrMember) : comparison := str_cmp (canonical_path a) (canonical_path b).
Definition sorted_members (ir : ArchiveIR) : list IrMember := sort_by path_cmp (members ir).

(** ** Parts shared by the encoders *)

Definition kind_tag (k : MemberKind) : Z := match k with KindFile => 1 | KindDirectory => 2 end.

Definition encode_action (a : NormalizationAction) : list byte :=
  match a with
  | StripDirectoryTrailingSlash => push_u8 1
  | DropDotComponent component_index => push_u8 2 ++ push_u32 component_index
  end.
Definition action_bytes (actions : list NormalizationAction) : list byte :=
  concat (map encode_action actions).
(** The count is a cast in some encoders and a [try_from] in others. *)
Definition encode_actions (actions : list NormalizationAction) : list byte :=
  push_u32 (Z.of_nat (length actions)) ++ action_bytes actions.
Definition encode_actions_checked (actions : list NormalizationAction) : result (list byte) Stop :=
  let? n := some (u32_len (length actions)) in
  Ok (push_u32 n ++ action_bytes actions).

Definition pax_source_bytes (s : PaxValueSource) : list byte :=
  match s with
  | FromUstar => push_u8 0
  | FromGlobal extension_index record_index =>
      push_u8 1 ++ push_u32 extension_index ++ push_u32 record_index
  | FromLocal extension_index record_index =>
      push_u8 2 ++ push_u32 extension_index ++ push_u32 record_index
  end.

Definition encode_tar_covering (c : TarArchiveCovering) : list byte :=
  encode_range (tc_member_records c) ++ encode_range (tc_terminator c)
  ++ encode_range (tc_trailing_zeros c).

(** Header, payload, padding, mode, mtime, checksum and header digest. *)
Definition encode_tar_evidence (e : TarMemberEvidence) : result (list byte) Stop :=
  let? sha := some (parse_hex32 (te_header_sha256 e)) in
  Ok (encode_range (te_header e) ++ encode_range (te_payload e) ++ encode_range (te_padding e)
      ++ push_u32 (te_mode e) ++ push_u64 (te_mtime e) ++ push_u32 (te_header_checksum e) ++ sha).

(** ** The TAR layouts *)

Definition encode_tar_member (expected_format : ArchiveFormat) (m : IrMember) :
    result (list byte) Stop :=
  if decide (member_format m = expected_format) then
    let? e := some (tar_evidence m) in
    let? facts := encode_tar_evidence e in
    Ok (push_bytes (canonical_path m) ++ push_u8 (kind_tag (ir_kind m))
        ++ push_bytes (ir_raw_name_bytes m) ++ push_u64 (declared_uncomp_size m) ++ facts
        ++ encode_actions (normalization_actions m))
  else Err NoneReturned.

Definition tar_layout_body (ir : ArchiveIR) (expected_format : ArchiveFormat) :
    result (list byte) Stop :=
  let? covering := some (tar_covering ir) in
  let members := sorted_members ir in
  let? n := expect (u32_len (length members)) in
  let? body := encode_each (encode_tar_member expected_format) members in
  Ok (encode_tar_covering covering ++ push_u32 n ++ body).

Definition encode_tar_layout (ir : ArchiveIR) : result (list byte) Stop :=
  if decide (format ir = TarUstar) then
    let? body := tar_layout_body ir TarUstar in Ok (preimage TAR_LAYOUT_LABEL body)
  else Err NoneReturned.

(** *** PAX *)

Definition pax_kind_tag (k : PaxExtensionKind) : Z := match k with Global => 1 | Local => 2 end.
Definition pax_keyword_tag (k : PaxKeyword) : Z := match k with Path => 1 | Size => 2 end.

Definition encode_pax_record (r : PaxRecordEvidence) : list byte :=
  push_u8 (pax_keyword_tag (re_keyword r)) ++ encode_range (re_record r)
  ++ encode_range (re_value r) ++ push_bytes (re_raw_value_bytes r)
  ++ push_optional_u64 (re_parsed_size r).

Definition encode_pax_extension (e : PaxExtensionEvidence) : result (list byte) Stop :=
  let? header_sha := some (parse_hex32 (xe_header_sha256 e)) in
  let? payload_sha := some (parse_hex32 (xe_payload_sha256 e)) in
  let? n := some (u32_len (length (xe_records e))) in
  Ok (push_u8 (pax_kind_tag (xe_kind e)) ++ push_bytes (xe_raw_name_bytes e)
      ++ encode_range (xe_header e) ++ encode_range (xe_payload e) ++ encode_range (xe_padding e)
      ++ push_u32 (xe_mode e) ++ push_u64 (xe_mtime e) ++ push_u32 (xe_header_checksum e)
      ++ header_sha ++ payload_sha
      ++ push_u32 n ++ concat (map encode_pax_record (xe_records e))).

Definition encode_pax_member (expected_format : ArchiveFormat) (m : IrMember) :
    result (list byte) Stop :=
  if decide (member_format m = expected_format) then
    let? e := some (tar_pax_evidence m) in
    let? facts := encode_tar_evidence (pe_tar e) in
    let? actions := encode_actions_checked (normalization_actions m) in
    Ok (push_bytes (canonical_path m) ++ push_u8 (kind_tag (ir_kind m))
        ++ push_bytes (ir_raw_name_bytes m) ++ push_bytes (pe_base_name_bytes e)
        ++ push_u64 (declared_uncomp_size m) ++ push_u64 (pe_base_size e) ++ facts
        ++ pax_source_bytes (pe_path_source e) ++ pax_source_bytes (pe_size_source e) ++ actions)
  else Err NoneReturned.

Definition tar_pax_layout_body (ir : ArchiveIR) (expected_format : ArchiveFormat) :
    result (list byte) Stop :=
  let? covering := some (tar_covering ir) in
  let? extensions := some (pax_extensions ir) in
  let members := sorted_members ir in
  let? x := some (u32_len (length extensions)) in
  let? extension_bytes := encode_each encode_pax_extension extensions in
  let? n := some (u32_len (length members)) in
  let? body := encode_each (encode_pax_member expected_format) members in
  Ok (encode_tar_covering covering ++ push_u32 x ++ extension_bytes ++ push_u32 n ++ body).

Definition encode_tar_pax_layout (ir : ArchiveIR) : result (list byte) Stop :=
  if decide (format ir = FormatTarPax) then
    let? body := tar_pax_layout_body ir FormatTarPax in Ok (preimage TAR_PAX_LAYOUT_LABEL body)
  else Err NoneReturned.

(** *** Old-GNU long names *)

Definition encode_gnu_carrier (c : GnuLongNameCarrierEvidence) : result (list byte) Stop :=
  let? header_sha := some (parse_hex32 (ge_header_sha256 c)) in
  let? payload_sha := some (parse_hex32 (ge_payload_sha256 c)) in
  Ok (push_bytes (ge_raw_name_bytes c) ++ push_bytes (ge_path_bytes c)
      ++ encode_range (ge_header c) ++ encode_range (ge_payload c) ++ encode_range (ge_path c)
      ++ encode_range (ge_padding c) ++ push_u32 (ge_mode c) ++ push_u64 (ge_mtime c)
      ++ push_u32 (ge_header_checksum c) ++ header_sha ++ payload_sha).

Definition gnu_source_bytes (s : GnuLongNamePathSource) : list byte :=
  match s with
  | Header => push_u8 0
  | Carrier carrier_index => push_u8 1 ++ push_u32 carrier_index
  end.

Definition encode_gnu_member (expected_format : ArchiveFormat) (m : IrMember) :
    result (list byte) Stop :=
  if decide (member_format m = expected_format) then
    let? e := some (tar_gnu_longname_evidence m) in
    let? facts := encode_tar_evidence (ne_tar e) in
    let? actions := encode_actions_checked (normalization_actions m) in
    Ok (push_bytes (canonical_path m) ++ push_u8 (kind_tag (ir_kind m))
        ++ push_bytes (ir_raw_name_bytes m) ++ push_bytes (ne_base_name_bytes e)
        ++ push_u64 (declared_uncomp_size m) ++ facts ++ gnu_source_bytes (ne_path_source e)
        ++ actions)
  else Err NoneReturned.

Definition tar_gnu_longname_layout_body (ir : ArchiveIR) (expected_format : ArchiveFormat) :
    result (list byte) Stop :=
  let? covering := some (tar_covering ir) in
  let? carriers := some (gnu_longname_carriers ir) in
  let members := sorted_members ir in
  let? x := some (u32_len (length carriers)) in
  let? carrier_bytes := encode_each encode_gnu_carrier carriers in
  let? n := some (u32_len (length members)) in
  let? body := encode_each (encode_gnu_member expected_format) members in
  Ok (encode_tar_covering covering ++ push_u32 x ++ carrier_bytes ++ push_u32 n ++ body).

Definition encode_tar_gnu_longname_layout (ir : ArchiveIR) : result (list byte) Stop :=
  if decide (format ir = FormatTarGnuLongName) then
    let? body := tar_gnu_longname_layout_body ir FormatTarGnuLongName in
    Ok (preimage TAR_GNU_LONGNAME_LAYOUT_LABEL body)
  else Err NoneReturned.

(** ** The wrapped TAR layouts *)

(** The part all four wrapper headers start with: the transformation, the
    extent it reads from the source, and the domain it derives. *)
Definition encode_transform (ir : ArchiveIR) (transform : TransformProfile) (input_len : option Z)
    (output_len : Z) (output_sha256 : str) : result (list byte) Stop :=
  let? digest := some (parse_hex32 (transform_digest transform)) in
  let? parameters := some (parse_hex32 (decoder_parameters_digest transform)) in
  let? input_len := some input_len in
  let? source := some (digest_sha256 (source_digest ir)) in
  let? source := some (parse_hex32 source) in
  let? output := some (parse_hex32 output_sha256) in
  Ok (push_bytes (transform_id transform) ++ digest ++ parameters ++ push_u16 0
      ++ encode_range (mkrange 0 input_len) ++ source ++ push_u16 1 ++ push_u64 output_len
      ++ output).

Definition encode_gzip_wrapper_header (ir : ArchiveIR) : result (list byte) Stop :=
  let? gzip := some (gzip_evidence ir) in
  let? transform :=
    encode_transform ir GzipRfc1952SingleMemberV1
      (u64_checked_add (offset (gz_trailer gzip)) (len (gz_trailer gzip)))
      (gz_derived_output_len gzip) (gz_derived_output_sha256 gzip) in
  let? output := some (parse_hex32 (gz_derived_output_sha256 gzip)) in
  Ok (transform ++ push_u8 (gz_flags gzip) ++ push_u32 (gz_modification_time gzip)
      ++ push_u8 (gz_extra_flags gzip) ++ push_u8 (gz_operating_system gzip)
      ++ encode_range (gz_header gzip) ++ encode_optional_range (gz_extra gzip)
      ++ push_u32 (gz_extra_subfield_count gzip) ++ encode_optional_range (gz_original_name gzip)
      ++ encode_optional_range (gz_comment gzip) ++ encode_optional_range (gz_header_crc16 gzip)
      ++ encode_range (gz_compressed_payload gzip) ++ encode_range (gz_trailer gzip)
      ++ push_u32 (gz_declared_crc32 gzip) ++ push_u32 (gz_declared_isize gzip)
      ++ push_u64 (gz_derived_output_len gzip) ++ output).

Definition encode_zstd_wrapper_header (ir : ArchiveIR) : result (list byte) Stop :=
  let? zstd := some (zstd_evidence ir) in
  let? transform :=
    encode_transform ir ZstdRfc8878SingleFrameV1
      (u64_checked_add (offset (zs_trailer zstd)) (len (zs_trailer zstd)))
      (zs_derived_output_len zstd) (zs_derived_output_sha256 zstd) in
  let? output := some (parse_hex32 (zs_derived_output_sha256 zstd)) in
  Ok (transform ++ push_u8 (zs_descriptor zstd) ++ push_bool (zs_single_segment zstd)
      ++ push_bool (zs_checksum_flag zstd) ++ push_optional_u8 (zs_window_descriptor zstd)
      ++ push_u64 (zs_window_size zstd) ++ push_optional_u64 (zs_frame_content_size zstd)
      ++ encode_range (zs_header zstd) ++ encode_range (zs_compressed_payload zstd)
      ++ encode_range (zs_trailer zstd) ++ push_optional_u32 (zs_declared_checksum zstd)
      ++ push_u64 (zs_derived_output_len zstd) ++ output).

Definition encode_xz_block (b : XzBlockEvidence) : list byte :=
  encode_range (xb_header b) ++ encode_range (xb_compressed b) ++ encode_range (xb_padding b)
  ++ encode_range (xb_check b) ++ push_u32 (xb_dict_size b)
  ++ push_optional_u64 (xb_declared_compressed b) ++ push_optional_u64 (xb_declared_uncompressed b)
  ++ push_u64 (xb_uncompressed_len b) ++ push_bytes (xb_check_value b).

Definition encode_xz_wrapper_header (ir : ArchiveIR) : result (list byte) Stop :=
  let? xz := some (xz_evidence ir) in
  let? transform :=
    encode_transform ir XzSingleStreamV1
      (u64_checked_add (offset (xz_footer xz)) (len (xz_footer xz)))
      (xz_derived_output_len xz) (xz_derived_output_sha256 xz) in
  let? n := some (u32_len (length (xz_blocks xz))) in
  let? output := some (parse_hex32 (xz_derived_output_sha256 xz)) in
  Ok (transform ++ push_u8 (xz_check_id xz) ++ encode_range (xz_header xz)
      ++ push_u32 n ++ concat (map encode_xz_block (xz_blocks xz))
      ++ encode_range (xz_index xz) ++ encode_range (xz_footer xz)
      ++ push_u64 (xz_derived_output_len xz) ++ output).

Definition encode_bzip2_block (b : Z * Z) : list byte := push_u64 b.1 ++ push_u32 b.2.

Definition encode_bzip2_wrapper_header (ir : ArchiveIR) : result (list byte) Stop :=
  let? bzip2 := some (bzip2_evidence ir) in
  let? transform :=
    encode_transform ir Bzip2SingleStreamV1
      (option_map (fun bits => bits / 8)
        (u64_checked_add (bz_payload_bits bzip2) (bz_padding_bits bzip2)))
      (bz_derived_output_len bzip2) (bz_derived_output_sha256 bzip2) in
  let? n := some (u32_len (length (bz_block_bit_offsets bzip2))) in
  if negb (length (bz_block_bit_offsets bzip2) =? length (bz_block_crcs bzip2))%nat
  then Err NoneReturned
  else
    let? output := some (parse_hex32 (bz_derived_output_sha256 bzip2)) in
    Ok (transform ++ push_u8 (bz_level bzip2) ++ encode_range (bz_header bzip2)
        ++ push_u64 (bz_payload_bits bzip2) ++ push_u8 (bz_padding_bits bzip2) ++ push_u32 n
        ++ concat (map encode_bzip2_block (zip (bz_block_bit_offsets bzip2) (bz_block_crcs bzip2)))
        ++ push_u32 (bz_combined_crc bzip2) ++ push_u64 (bz_derived_output_len bzip2) ++ output).

(** Wrapper header, then the inner layout as one length-prefixed value. *)
Definition wrapped_layout (ir : ArchiveIR) (expected : ArchiveFormat) (label : str)
    (wrapper : ArchiveIR -> result (list byte) Stop)
    (inner : ArchiveIR -> ArchiveFormat -> result (list byte) Stop) : result (list byte) Stop :=
  if decide (format ir = expected) then
    let? header := wrapper ir in
    let? inner := inner ir expected in
    Ok (preimage label (header ++ push_bytes inner))
  else Err NoneReturned.

Definition encode_tar_gzip_layout (ir : ArchiveIR) : result (list byte) Stop :=
  wrapped_layout ir TarGzipUstar TAR_GZIP_LAYOUT_LABEL encode_gzip_wrapper_header tar_layout_body.
Definition encode_tar_gzip_pax_layout (ir : ArchiveIR) : result (list byte) Stop :=
  wrapped_layout ir FormatTarGzipPax TAR_GZIP_PAX_LAYOUT_LABEL encode_gzip_wrapper_header
    tar_pax_layout_body.
Definition encode_tar_gzip_gnu_longname_layout (ir : ArchiveIR) : result (list byte) Stop :=
  wrapped_layout ir FormatTarGzipGnuLongName TAR_GZIP_GNU_LONGNAME_LAYOUT_LABEL
    encode_gzip_wrapper_header tar_gnu_longname_layout_body.
Definition encode_tar_bzip2_layout (ir : ArchiveIR) : result (list byte) Stop :=
  wrapped_layout ir TarBzip2Ustar TAR_BZIP2_LAYOUT_LABEL encode_bzip2_wrapper_header
    tar_layout_body.
Definition encode_tar_xz_layout (ir : ArchiveIR) : result (list byte) Stop :=
  wrapped_layout ir TarXzUstar TAR_XZ_LAYOUT_LABEL encode_xz_wrapper_header tar_layout_body.
Definition encode_tar_zstd_layout (ir : ArchiveIR) : result (list byte) Stop :=
  wrapped_layout ir TarZstdUstar TAR_ZSTD_LAYOUT_LABEL encode_zstd_wrapper_header tar_layout_body.

(** ** The 7z layout *)

Definition encode_sevenz_substream (s : SevenZSubStreamEvidence) : list byte :=
  encode_range (ss_payload s) ++ push_optional_u32 (ss_declared_crc s).

Definition encode_sevenz_folder (f : SevenZFolderEvidence) : result (list byte) Stop :=
  let? n := some (u32_len (length (sf_substreams f))) in
  Ok (encode_range (sf_pack_stream f) ++ push_optional_u32 (sf_pack_crc f)
      ++ push_u64 (sf_unpack_size f) ++ push_optional_u32 (sf_folder_crc f) ++ push_u32 n
      ++ concat (map encode_sevenz_substream (sf_substreams f))).

Definition sevenz_kind_tag (k : MemberKind) : Z :=
  match k with KindFile => 0 | KindDirectory => 1 end.

Definition encode_sevenz_member (m : IrMember) : result (list byte) Stop :=
  match ir_evidence m with
  | EvSevenZ e =>
      let? actions := encode_actions_checked (normalization_actions m) in
      Ok (push_bytes (ir_raw_name_bytes m) ++ push_bytes (canonical_path m)
          ++ push_u8 (sevenz_kind_tag (ir_kind m)) ++ push_u64 (declared_uncomp_size m)
          ++ encode_range (se_payload e) ++ push_optional_u32 (se_declared_crc e)
          ++ push_optional_u32 (se_attributes e) ++ push_optional_u64 (se_mtime e) ++ actions)
  | _ => Err NoneReturned
  end.

(** [encode_sevenz_layout]; the members keep the container's order. *)
Definition encode_sevenz_layout (ir : ArchiveIR) : result (list byte) Stop :=
  if decide (format ir = SevenZCopy) then
    let? sevenz := some (sevenz_evidence ir) in
    let? profile := some (parse_hex32 (profile_digest ir)) in
    let? source := some (digest_sha256 (source_digest ir)) in
    let? source := some (parse_hex32 source) in
    let? f := some (u32_len (length (sa_folders sevenz))) in
    let? folders := encode_each encode_sevenz_folder (sa_folders sevenz) in
    let? n := some (u32_len (length (members ir))) in
    let? body := encode_each encode_sevenz_member (members ir) in
    Ok (preimage SEVENZ_COPY_LAYOUT_LABEL
      (profile ++ source ++ push_u8 (sa_version_minor sevenz)
       ++ encode_range (sa_pack_region sevenz) ++ encode_range (sa_next_header sevenz)
       ++ push_u32 (sa_next_header_crc sevenz) ++ push_u32 f ++ folders
       ++ push_u64 (sa_name_region_bytes sevenz) ++ push_u64 (sa_dummy_bytes sevenz)
       ++ push_u32 n ++ body))
  else Err NoneReturned.

(** ** The ZIP layouts *)

Definition site_tag (s : ExtraSite) : Z := match s with Ir.Local => 1 | Ir.Central => 2 end.
Definition disposition_tag (d : ExtraDisposition) : Z :=
  match d with Ignored => 1 | Semantic => 2 | Denied => 3 end.

(** The order on [(site_tag, id, data_range.offset)]. *)
Definition extra_cmp (a b : ExtraFieldRecord) : comparison :=
  then_cmp (site_tag (site a) ?= site_tag (site b))
    (then_cmp (id a ?= id b) (offset (data_range a) ?= offset (data_range b))).

(** The length of the data is cast to sixteen bits. *)
Definition encode_extra (e : ExtraFieldRecord) : list byte :=
  push_u8 (site_tag (site e)) ++ push_u16 (id e) ++ push_u8 (disposition_tag (disposition e))
  ++ push_u64 (offset (data_range e)) ++ push_u16 (len (data_range e)).

Definition encode_layout_member (m : IrMember) : result (list byte) Stop :=
  let? e := expect (zip_evidence m) in
  let ranges := ze_source_ranges e in
  let extras := sort_by extra_cmp (ze_extra_fields e) in
  Ok (push_bytes (canonical_path m) ++ push_u8 (kind_tag (ir_kind m))
      ++ push_bytes (ir_raw_name_bytes m) ++ push_u16 (ze_method e) ++ push_u16 (ze_flags e)
      ++ push_u64 (ze_declared_comp_size e) ++ push_u64 (declared_uncomp_size m)
      ++ push_u32 (ze_declared_crc e) ++ encode_range (local_header ranges)
      ++ encode_range (compressed_payload ranges)
      ++ encode_optional_range (data_descriptor ranges) ++ encode_range (central_header ranges)
      ++ push_u32 (Z.of_nat (length extras)) ++ concat (map encode_extra extras)
      ++ encode_actions (normalization_actions m)).

Definition encode_layout (ir : ArchiveIR) : result (list byte) Stop :=
  let members := sorted_members ir in
  let? covering := expect (archive_zip_covering ir) in
  let? n := expect (u32_len (length members)) in
  let? body := encode_each encode_layout_member members in
  Ok (preimage LAYOUT_LABEL
    (encode_range (local_records covering) ++ encode_range (central_directory covering)
     ++ encode_range (eocd covering) ++ encode_range (comment covering) ++ push_u32 n ++ body)).

Definition shape_tag (s : Zip64LocalValueShape) : Z :=
  match s with Absent => 0 | Exact => 1 | StreamingZeros => 2 | StreamingMaxima => 3 end.
Definition width_tag (w : option DataDescriptorWidth) : Z :=
  match w with None => 0 | Some Zip32 => 1 | Some Zip64 => 2 end.

Definition encode_zip64_member (m : IrMember) : result (list byte) Stop :=
  let? common := encode_layout_member m in
  let? e := some (zip64_evidence m) in
  Ok (common ++ push_u16 (z_local_version_needed e) ++ push_u16 (z_central_version_needed e)
      ++ push_u8 (z_central_presence_mask e) ++ push_u8 (z_central_legacy_sentinel_mask e)
      ++ push_u8 (z_local_legacy_sentinel_mask e) ++ push_u8 (shape_tag (z_local_value_shape e))
      ++ encode_optional_range (z_local_zip64_extra e)
      ++ encode_optional_range (z_central_zip64_extra e)
      ++ push_u8 (width_tag (z_descriptor_width e))).

Definition encode_zip64_layout (ir : ArchiveIR) : result (list byte) Stop :=
  let? covering := some (archive_zip64_covering ir) in
  let members := sorted_members ir in
  let? n := expect (u32_len (length members)) in
  let? body := encode_each encode_zip64_member members in
  Ok (preimage ZIP64_LAYOUT_LABEL
    (encode_range (z64_local_records covering) ++ encode_range (z64_central_directory covering)
     ++ encode_optional_range (z64_eocd64 covering) ++ encode_optional_range (z64_locator covering)
     ++ encode_range (z64_eocd covering) ++ encode_range (z64_comment covering)
     ++ push_u32 n ++ body)).

(** ** The content tree *)

Definition encode_content_member (m : IrMember) : list byte :=
  push_bytes (canonical_path m) ++ push_u8 (kind_tag (ir_kind m))
  ++ push_u64 (default 0 (actual_uncomp_size m))
  ++ default (replicate 32 x00) (content_sha256 m ≫= parse_hex32).

Definition encode_content (ir : ArchiveIR) : result (list byte) Stop :=
  let members := sorted_members ir in
  let? n := expect (u32_len (length members)) in
  Ok (preimage CONTENT_LABEL (push_u32 n ++ concat (map encode_content_member members))).

(** ** Roots *)

(** [TreeRoot]: the encoding's version and the digest. *)
Inductive TreeRoot : Type := SealrTree (version : nat) (hex : str) | RootUnavailable.
#[export] Instance TreeRoot_eq_dec : EqDecision TreeRoot.
Proof. solve_decision. Defined.

Definition root_hex (r : TreeRoot) : option str :=
  match r with SealrTree _ hex => Some hex | RootUnavailable => None end.

Definition tree_version (f : ArchiveFormat) : nat :=
  match f with
  | FormatZip32 => 1 | TarUstar => 2 | FormatZip64 => 3 | TarGzipUstar => 4 | FormatTarPax => 5
  | FormatTarGnuLongName => 6 | FormatTarGzipPax => 7 | FormatTarGzipGnuLongName => 8
  | TarZstdUstar => 9 | TarXzUstar => 10 | TarBzip2Ustar => 11 | SevenZCopy => 12
  end.

(** The encoder [layout_root] selects by format. *)
Definition layout_bytes (ir : ArchiveIR) : result (list byte) Stop :=
  match format ir with
  | FormatZip32 => encode_layout ir
  | FormatZip64 => encode_zip64_layout ir
  | TarUstar => encode_tar_layout ir
  | TarGzipUstar => encode_tar_gzip_layout ir
  | FormatTarPax => encode_tar_pax_layout ir
  | FormatTarGnuLongName => encode_tar_gnu_longname_layout ir
  | FormatTarGzipPax => encode_tar_gzip_pax_layout ir
  | FormatTarGzipGnuLongName => encode_tar_gzip_gnu_longname_layout ir
  | TarZstdUstar => encode_tar_zstd_layout ir
  | TarXzUstar => encode_tar_xz_layout ir
  | TarBzip2Ustar => encode_tar_bzip2_layout ir
  | SevenZCopy => encode_sevenz_layout ir
  end.

Section Roots.
Context `{!Sha256}.

(** [layout_root]; [None] is a panic. *)
Definition layout_root (ir : ArchiveIR) : option TreeRoot :=
  match layout_bytes ir with
  | Ok bytes => Some (SealrTree (tree_version (format ir)) (hex_sha256 bytes))
  | Err NoneReturned => Some RootUnavailable
  | Err Panic => None
  end.

Definition is_verified (m : IrMember) : bool :=
  match verification m with Verified => true | _ => false end.

(** [content_root]; [None] is a panic. *)
Definition content_root (ir : ArchiveIR) : option TreeRoot :=
  if forallb (fun m => is_verified m && bool_decide (is_Some (actual_uncomp_size m))
                       && bool_decide (is_Some (content_sha256 m ≫= parse_hex32))) (members ir)
  then match encode_content ir with
       | Ok bytes => Some (SealrTree 1 (hex_sha256 bytes))
       | Err _ => None
       end
  else Some RootUnavailable.
End Roots.
