(* ===== verification/PrefixFree.v ===== *)
(** * Prefix-free writers

    A writer is prefix-free on its valid values when what follows an encoding
    can be told from it: two streams that start with encodings agree only when
    they encode the same value and continue alike.  Writers compose, so an
    encoding built from prefix-free writers is injective. *)

From S2P Require Import Prelude Sort Snapshot Evidence Identity.
Local Open Scope Z_scope.

Class PrefixFree {A} (valid : A -> Prop) (f : A -> list byte) : Prop :=
  prefix_free : forall x y r s, valid x -> valid y -> f x ++ r = f y ++ s -> x = y /\ r = s.

(** An unsigned integer of [n] bytes. *)
Definition fits (n : nat) (z : Z) : Prop := 0 <= z < 256 ^ Z.of_nat n.
(** A value [push_bytes] does not truncate the length of. *)
Definition short (l : list byte) : Prop := fits 4 (Z.of_nat (length l)).
Definition range_fits (r : ByteRange) : Prop := fits 8 (offset r) /\ fits 8 (len r).
Definition on_option {A} (P : A -> Prop) (o : option A) : Prop :=
  match o with Some x => P x | None => True end.

Lemma on_option_impl {A} (P Q : A -> Prop) o :
  (forall x, P x -> Q x) -> on_option P o -> on_option Q o.
Proof. destruct o; simpl; auto. Qed.

#[local] Arguments le_bytes : simpl never.

Lemma le_bytes_inj n x y : fits n x -> fits n y -> le_bytes n x = le_bytes n y -> x = y.
Proof.
  intros Hx Hy He. rewrite <- (le_value_le_bytes n x), <- (le_value_le_bytes n y) by done.
  by f_equal.
Qed.

#[export] Instance prefix_free_le n : PrefixFree (fits n) (le_bytes n).
Proof.
  intros x y r s Hx Hy He. apply app_inj_1 in He as [He ->]; [|by rewrite !length_le_bytes].
  split; [by apply (le_bytes_inj n)|done].
Qed.
#[export] Instance prefix_free_u16 : PrefixFree (fits 2) push_u16 := prefix_free_le 2.
#[export] Instance prefix_free_u32 : PrefixFree (fits 4) push_u32 := prefix_free_le 4.
#[export] Instance prefix_free_u64 : PrefixFree (fits 8) push_u64 := prefix_free_le 8.

#[export] Instance prefix_free_u8 : PrefixFree (fits 1) push_u8.
Proof.
  intros x y r s Hx Hy [= He ->]. split; [|done]. unfold fits in *. simpl in *.
  rewrite <- (u8_of_u8 x), <- (u8_of_u8 y) by lia. by f_equal.
Qed.

(** Values written as a tag. *)
Lemma prefix_free_tag {A} (tag : A -> Z) :
  (forall x, fits 1 (tag x)) -> (forall x y, tag x = tag y -> x = y) ->
  PrefixFree (fun _ => True) (fun x => push_u8 (tag x)).
Proof.
  intros Hf Hi x y r s _ _ He. apply (prefix_free (f := push_u8)) in He as [He ->]; auto.
Qed.

#[export] Instance prefix_free_bool : PrefixFree (fun _ => True) push_bool.
Proof. intros [] [] r s _ _; vm_compute; naive_solver. Qed.

#[export] Instance prefix_free_bytes : PrefixFree short push_bytes.
Proof.
  intros x y r s Hx Hy He. unfold push_bytes in He. rewrite <- !app_assoc in He.
  apply (prefix_free (f := push_u32)) in He as [Hl He]; [|done|done].
  apply app_inj_1 in He; [done|lia].
Qed.

(** Blocks of one length, such as digests. *)
#[export] Instance prefix_free_block n : PrefixFree (fun l => length l = n) (@id (list byte)).
Proof. intros x y r s Hx Hy He. apply app_inj_1 in He; [done|unfold id; congruence]. Qed.

#[export] Instance prefix_free_range : PrefixFree range_fits encode_range.
Proof.
  intros [o n] [p m] r s [? ?] [? ?] He. unfold encode_range in He. cbn [offset len] in *.
  rewrite <- !app_assoc in He.
  apply (prefix_free (f := push_u64)) in He as [-> He]; [|done|done].
  by apply (prefix_free (f := push_u64)) in He as [-> ->].
Qed.

#[export] Instance prefix_free_optional {A} (P : A -> Prop) (push : A -> list byte)
    `{!PrefixFree P push} : PrefixFree (on_option P) (push_optional push).
Proof.
  intros [x|] [y|] r s Hx Hy He; simpl in *; rewrite <- ?app_assoc in He;
    simplify_eq He; intros; subst; try done.
  - apply (prefix_free (f := push)) in H as [-> ->]; done.
Qed.
#[export] Instance prefix_free_optional_range :
  PrefixFree (on_option range_fits) encode_optional_range := prefix_free_optional _ _.
#[export] Instance prefix_free_optional_u8 :
  PrefixFree (on_option (fits 1)) push_optional_u8 := prefix_free_optional _ _.
#[export] Instance prefix_free_optional_u32 :
  PrefixFree (on_option (fits 4)) push_optional_u32 := prefix_free_optional _ _.
#[export] Instance prefix_free_optional_u64 :
  PrefixFree (on_option (fits 8)) push_optional_u64 := prefix_free_optional _ _.

(** Lists of a known length. *)
Lemma prefix_free_list {A} (P : A -> Prop) (f : A -> list byte) `{!PrefixFree P f} l1 l2 r s :
  Forall P l1 -> Forall P l2 -> length l1 = length l2 ->
  concat (map f l1) ++ r = concat (map f l2) ++ s -> l1 = l2 /\ r = s.
Proof.
  intros H1. revert l2. induction H1 as [|x l1 Hx _ IH]; intros [|y l2] H2 Hl He; try done.
  apply Forall_cons in H2 as [Hy H2]. cbn [map concat] in He. rewrite <- !app_assoc in He.
  apply (prefix_free (f := f)) in He as [-> He]; [|done|done]. simpl in Hl.
  apply IH in He as [-> ->]; [done|done|lia].
Qed.

(** An element writer that can stop. *)
Definition StopFree {A} (P : A -> Prop) {B} (view : A -> B) (f : A -> result (list byte) Stop) :
    Prop :=
  forall x y bx by_ r s, P x -> P y -> f x = Ok bx -> f y = Ok by_ ->
    bx ++ r = by_ ++ s -> view x = view y /\ r = s.

Lemma encode_each_free {A} (P : A -> Prop) {B} (view : A -> B) f l1 l2 b1 b2 r s :
  StopFree P view f -> encode_each f l1 = Ok b1 -> encode_each f l2 = Ok b2 ->
  Forall P l1 -> Forall P l2 -> length l1 = length l2 ->
  b1 ++ r = b2 ++ s -> map view l1 = map view l2 /\ r = s.
Proof.
  intros Hf E1 E2 H1. revert l2 b1 b2 E1 E2. induction H1 as [|x l1 Hx _ IH];
    intros [|y l2] b1 b2 E1 E2 H2 Hl He; try done; simpl in E1, E2.
  - simplify_eq. by split.
  - apply Forall_cons in H2 as [Hy H2]. ok_steps E1. ok_steps E2. simplify_eq.
    rewrite <- !app_assoc in He. eapply (Hf x y) in He as [Hv He]; [|done|done|done|done].
    simpl in Hl. eapply (IH l2) in He as [Hm ->]; [|done|done|done|lia]. simpl. by rewrite Hv, Hm.
Qed.

(** Lengths written as counts. *)
Lemma u32_len_ok n z : some (u32_len n) = Ok z -> z = Z.of_nat n /\ fits 4 z.
Proof.
  unfold some, u32_len, fits. case_match eqn:E; simpl; [|done]. intros [= <-]. breflect.
  unfold u32_max in *. split; [done|]. simpl. lia.
Qed.
Lemma u32_len_expect n z : expect (u32_len n) = Ok z -> z = Z.of_nat n /\ fits 4 z.
Proof.
  unfold expect, u32_len, fits. case_match eqn:E; simpl; [|done]. intros [= <-]. breflect.
  unfold u32_max in *. split; [done|]. simpl. lia.
Qed.
Lemma some_ok {A} (o : option A) x : some o = Ok x <-> o = Some x.
Proof. apply ok_or_ok. Qed.
Lemma expect_ok {A} (o : option A) x : expect o = Ok x <-> o = Some x.
Proof. apply ok_or_ok. Qed.

Lemma cons_tail {A} (x y : A) l m : x :: l = y :: m -> l = m.
Proof. by intros [= _ ->]. Qed.

Lemma Ok_inj {A E} (x y : A) : @Ok A E x = Ok y -> x = y.
Proof. by intros [= ->]. Qed.

(** Two records whose fields are equal. *)
Ltac record_eq :=
  lazymatch goal with
  | |- ?x = ?y => destruct x, y; simpl in *; subst; reflexivity
  | |- ?x = ?y /\ _ => split; [destruct x, y; simpl in *; subst; reflexivity|try done]
  end.
(** The successful run of an encoder. *)
Ltac ok_bytes H :=
  ok_steps H; apply Ok_inj in H; lazymatch type of H with _ = ?b => subst b end.
(** Turns the checked counts into lengths. *)
Ltac counts :=
  repeat match goal with
  | H : some (u32_len _) = Ok _ |- _ => apply u32_len_ok in H as [-> ?]
  | H : expect (u32_len _) = Ok _ |- _ => apply u32_len_expect in H as [-> ?]
  end.
