(* ===== verification/IdentityTar.v ===== *)
(** * What the TAR layout encodings and their wrappers bind ([identity.rs])

    Validity of the evidence records (every field in its machine width, every
    digest 64 lowercase hexadecimal digits), the facts of a member a layout
    commits to, and the injectivity of the TAR, PAX and old-GNU encoders; the
    gzip, zstd, xz and bzip2 wrapper headers, their common transformation
    record, and the 7z container. *)

From S2P Require Import Prelude Utf8 Sort Findings Snapshot Ir ZipFields ZipRecords Tar TarGnu TarPax Evidence Identity PrefixFree.
Local Open Scope Z_scope.
Local Open Scope rust_scope.

#[local] Arguments le_bytes : simpl never.

(** ** Digests *)

(** Text produced by [hex_sha256]. *)
Definition hex_digest (s : str) : Prop :=
  exists d, length d = 32%nat /\ s = concat (map hex_byte d).

Lemma hex_pair_hex_byte b :
  match hex_byte b with [h; l] => hex_pair h l = Some (u8 b) | _ => False end.
Proof. destruct b; reflexivity. Qed.

Lemma hex_pairs_hex d : hex_pairs (concat (map hex_byte d)) = Some d.
Proof.
  induction d as [|b d IH]; [done|]. cbn [map concat]. pose proof (hex_pair_hex_byte b) as Hb.
  destruct (hex_byte b) as [|h [|l [|]]]; try done. cbn [app hex_pairs].
  by rewrite Hb, IH, of_u8_u8.
Qed.


Lemma length_hex d : length (concat (map hex_byte d)) = (2 * length d)%nat.
Proof.
  induction d as [|b d IH]; [done|]. cbn [map concat]. rewrite length_app, IH, length_hex_byte.
  simpl. lia.
Qed.

Lemma parse_hex32_hex d : length d = 32%nat -> parse_hex32 (concat (map hex_byte d)) = Some d.
Proof.
  intros Hd. unfold parse_hex32. rewrite length_hex, Hd. simpl. apply hex_pairs_hex.
Qed.

(** A digest is determined by the 32 bytes the encoders write. *)
Lemma parse_hex32_inj s t a b r q :
  some (parse_hex32 s) = Ok a -> some (parse_hex32 t) = Ok b ->
  hex_digest s -> hex_digest t ->
  a ++ r = b ++ q -> s = t /\ r = q.
Proof.
  intros Ha Hb (d & Hd & ->) (e & He & ->). revert Ha Hb.
  rewrite !some_ok, !parse_hex32_hex by done. intros [= ->] [= ->] H. apply app_inj_1 in H as [-> ->]; [done|congruence].
Qed.

(** ** Valid evidence *)

Record actions_ok (actions : list NormalizationAction) : Prop := {
  ao_count : fits 4 (Z.of_nat (length actions));
  ao_each : Forall (fun a => match a with StripDirectoryTrailingSlash => True
                             | DropDotComponent i => fits 4 i end) actions
}.

Record tar_evidence_ok (e : TarMemberEvidence) : Prop := {
  to_header : range_fits (te_header e);
  to_payload : range_fits (te_payload e);
  to_padding : range_fits (te_padding e);
  to_mode : fits 4 (te_mode e);
  to_mtime : fits 8 (te_mtime e);
  to_checksum : fits 4 (te_header_checksum e);
  to_sha : hex_digest (te_header_sha256 e)
}.

Definition pax_source_ok (s : PaxValueSource) : Prop :=
  match s with FromUstar => True | FromGlobal e r | FromLocal e r => fits 4 e /\ fits 4 r end.

Record pax_evidence_ok (e : TarPaxMemberEvidence) : Prop := {
  po_tar : tar_evidence_ok (pe_tar e);
  po_name : short (pe_base_name_bytes e);
  po_size : fits 8 (pe_base_size e);
  po_path_source : pax_source_ok (pe_path_source e);
  po_size_source : pax_source_ok (pe_size_source e)
}.

Definition gnu_source_ok (s : GnuLongNamePathSource) : Prop :=
  match s with Header => True | Carrier i => fits 4 i end.

Record gnu_evidence_ok (e : TarGnuLongNameMemberEvidence) : Prop := {
  no_tar : tar_evidence_ok (ne_tar e);
  no_name : short (ne_base_name_bytes e);
  no_source : gnu_source_ok (ne_path_source e)
}.

Record pax_record_ok (r : PaxRecordEvidence) : Prop := {
  ro_record : range_fits (re_record r);
  ro_value : range_fits (re_value r);
  ro_raw : short (re_raw_value_bytes r);
  ro_size : on_option (fits 8) (re_parsed_size r)
}.

Record pax_extension_ok (e : PaxExtensionEvidence) : Prop := {
  xo_name : short (xe_raw_name_bytes e);
  xo_header : range_fits (xe_header e);
  xo_payload : range_fits (xe_payload e);
  xo_padding : range_fits (xe_padding e);
  xo_mode : fits 4 (xe_mode e);
  xo_mtime : fits 8 (xe_mtime e);
  xo_checksum : fits 4 (xe_header_checksum e);
  xo_header_sha : hex_digest (xe_header_sha256 e);
  xo_payload_sha : hex_digest (xe_payload_sha256 e);
  xo_records : Forall pax_record_ok (xe_records e)
}.

Record gnu_carrier_ok (c : GnuLongNameCarrierEvidence) : Prop := {
  co_name : short (ge_raw_name_bytes c);
  co_path_bytes : short (ge_path_bytes c);
  co_header : range_fits (ge_header c);
  co_payload : range_fits (ge_payload c);
  co_path : range_fits (ge_path c);
  co_padding : range_fits (ge_padding c);
  co_mode : fits 4 (ge_mode c);
  co_mtime : fits 8 (ge_mtime c);
  co_checksum : fits 4 (ge_header_checksum c);
  co_header_sha : hex_digest (ge_header_sha256 c);
  co_payload_sha : hex_digest (ge_payload_sha256 c)
}.

Record tar_covering_ok (c : TarArchiveCovering) : Prop := {
  vo_members : range_fits (tc_member_records c);
  vo_terminator : range_fits (tc_terminator c);
  vo_trailing : range_fits (tc_trailing_zeros c)
}.

(** ** Prefix-free parts *)

Lemma kind_tag_fits k : fits 1 (kind_tag k).
Proof. by destruct k. Qed.
Lemma kind_tag_inj j k : kind_tag j = kind_tag k -> j = k.
Proof. by destruct j, k. Qed.
Lemma pax_kind_tag_fits k : fits 1 (pax_kind_tag k).
Proof. by destruct k. Qed.
Lemma pax_kind_tag_inj j k : pax_kind_tag j = pax_kind_tag k -> j = k.
Proof. by destruct j, k. Qed.
Lemma pax_keyword_tag_fits k : fits 1 (pax_keyword_tag k).
Proof. by destruct k. Qed.
Lemma pax_keyword_tag_inj j k : pax_keyword_tag j = pax_keyword_tag k -> j = k.
Proof. by destruct j, k. Qed.
Create HintDb fits.
#[export] Hint Resolve kind_tag_fits pax_kind_tag_fits pax_keyword_tag_fits : fits.

(** Peels every leading field; tags are turned into the values they name. *)
Ltac peel_side := first [assumption | auto with fits].
Ltac peels H :=
  rewrite <- ?app_assoc in H;
  repeat
    lazymatch type of H with
    | ?f ?x ++ _ = ?f ?y ++ _ =>
        let E := fresh "E" in
        apply (prefix_free (f := f)) in H as [E H]; [|solve [peel_side]|solve [peel_side]];
        first [apply kind_tag_inj in E | apply pax_kind_tag_inj in E
              | apply pax_keyword_tag_inj in E | idtac]
    end.
(** Peels a digest written as 32 raw bytes. *)
Ltac peel_digest H :=
  let E := fresh "E" in
  eapply parse_hex32_inj in H as [E H]; [|eassumption|eassumption|eassumption|eassumption].

#[export] Instance prefix_free_action :
  PrefixFree (fun a => match a with StripDirectoryTrailingSlash => True
                       | DropDotComponent i => fits 4 i end) encode_action.
Proof.
  intros [|i] [|j] r s Hx Hy He; cbn in He; try (by simplify_eq).
  apply cons_tail in He. by peels He; subst.
Qed.

#[export] Instance prefix_free_actions : PrefixFree actions_ok encode_actions.
Proof.
  intros x y r s [Hx1 Hx] [Hy1 Hy] He. unfold encode_actions, action_bytes in He. peels He.
  eapply prefix_free_list in He; [exact He|apply _|done|done|lia].
Qed.

Lemma encode_actions_checked_ok actions b :
  encode_actions_checked actions = Ok b -> b = encode_actions actions.
Proof.
  unfold encode_actions_checked. intros H. ok_steps H. apply u32_len_ok in Hs as [-> _].
  by injection H as <-.
Qed.

#[export] Instance prefix_free_pax_source : PrefixFree pax_source_ok pax_source_bytes.
Proof.
  intros [|e1 r1|e1 r1] [|e2 r2|e2 r2] r s Hx Hy He; cbn in He; try (by simplify_eq);
    destruct Hx, Hy; apply cons_tail in He; by peels He; subst.
Qed.

#[export] Instance prefix_free_gnu_source : PrefixFree gnu_source_ok gnu_source_bytes.
Proof.
  intros [|i] [|j] r s Hx Hy He; cbn in He; try (by simplify_eq).
  apply cons_tail in He. by peels He; subst.
Qed.

#[export] Instance prefix_free_pax_record : PrefixFree pax_record_ok encode_pax_record.
Proof.
  intros x y r s [] [] He. unfold encode_pax_record in He. peels He. record_eq.
Qed.

#[export] Instance prefix_free_tar_covering : PrefixFree tar_covering_ok encode_tar_covering.
Proof.
  intros x y r s [] [] He. unfold encode_tar_covering in He. peels He. record_eq.
Qed.

Lemma tar_evidence_free : StopFree tar_evidence_ok (fun e => e) encode_tar_evidence.
Proof.
  intros x y b1 b2 r s [] [] H1 H2 He. unfold encode_tar_evidence in *.
  ok_bytes H1. ok_bytes H2. peels He. peel_digest He. record_eq.
Qed.

Lemma pax_extension_free : StopFree pax_extension_ok (fun e => e) encode_pax_extension.
Proof.
  intros x y b1 b2 r s [] [] H1 H2 He. unfold encode_pax_extension in *.
  ok_bytes H1. ok_bytes H2. counts. peels He. do 2 peel_digest He. peels He.
  eapply prefix_free_list in He as [Er ->]; [|apply _|done|done|lia]. record_eq.
Qed.

Lemma gnu_carrier_free : StopFree gnu_carrier_ok (fun c => c) encode_gnu_carrier.
Proof.
  intros x y b1 b2 r s [] [] H1 H2 He. unfold encode_gnu_carrier in *.
  ok_bytes H1. ok_bytes H2. peels He. do 2 peel_digest He. record_eq.
Qed.

(** ** The facts of a member a layout commits to

    ZIP evidence without the container facts, its extra fields in canonical
    order and without the extent of their headers; everything else whole. *)

Definition bound_extra (e : ExtraFieldRecord) : ExtraFieldRecord :=
  {| site := site e; id := id e; header_range := mkrange 0 0; data_range := data_range e;
     disposition := disposition e |}.
Definition bound_zip (e : ZipMemberEvidence) : ZipMemberEvidence :=
  {| ze_method := ze_method e; ze_flags := ze_flags e; ze_declared_crc := ze_declared_crc e;
     ze_declared_comp_size := ze_declared_comp_size e; ze_source_ranges := ze_source_ranges e;
     ze_extra_fields := map bound_extra (sort_by extra_cmp (ze_extra_fields e));
     ze_creator_system := 0; ze_external_attributes := 0 |}.
Definition bound_zip64 (e : Zip64MemberEvidence) : Zip64MemberEvidence :=
  {| z_zip := bound_zip (z_zip e); z_local_version_needed := z_local_version_needed e;
     z_central_version_needed := z_central_version_needed e;
     z_central_presence_mask := z_central_presence_mask e;
     z_central_legacy_sentinel_mask := z_central_legacy_sentinel_mask e;
     z_local_legacy_sentinel_mask := z_local_legacy_sentinel_mask e;
     z_local_value_shape := z_local_value_shape e; z_local_zip64_extra := z_local_zip64_extra e;
     z_central_zip64_extra := z_central_zip64_extra e;
     z_descriptor_width := z_descriptor_width e |}.
Definition bound_evidence (e : MemberEvidence) : MemberEvidence :=
  match e with
  | EvZip e => EvZip (bound_zip e)
  | EvZip64 e => EvZip64 (bound_zip64 e)
  | e => e
  end.

Record LayoutFacts : Type := {
  lf_path : str;
  lf_kind : MemberKind;
  lf_raw_name : list byte;
  lf_size : Z;
  lf_evidence : MemberEvidence;
  lf_actions : list NormalizationAction
}.
Definition layout_facts (m : IrMember) : LayoutFacts :=
  {| lf_path := canonical_path m; lf_kind := ir_kind m; lf_raw_name := ir_raw_name_bytes m;
     lf_size := declared_uncomp_size m; lf_evidence := bound_evidence (ir_evidence m);
     lf_actions := normalization_actions m |}.

Lemma layout_facts_eq x y :
  canonical_path x = canonical_path y -> ir_kind x = ir_kind y ->
  ir_raw_name_bytes x = ir_raw_name_bytes y -> declared_uncomp_size x = declared_uncomp_size y ->
  bound_evidence (ir_evidence x) = bound_evidence (ir_evidence y) ->
  normalization_actions x = normalization_actions y -> layout_facts x = layout_facts y.
Proof. intros. unfold layout_facts. congruence. Qed.

(** ** TAR members *)

Record source_ranges_ok (r : MemberSourceRanges) : Prop := {
  so_local : range_fits (local_header r);
  so_payload : range_fits (compressed_payload r);
  so_descriptor : on_option range_fits (data_descriptor r);
  so_central : range_fits (central_header r)
}.

(** An extra field's data is at most 65,535 bytes long, as its header says. *)
Record extra_ok (e : ExtraFieldRecord) : Prop := {
  eo_id : fits 2 (id e);
  eo_offset : fits 8 (offset (data_range e));
  eo_len : fits 2 (len (data_range e))
}.

Record zip_evidence_ok (e : ZipMemberEvidence) : Prop := {
  zo_method : fits 2 (ze_method e);
  zo_flags : fits 2 (ze_flags e);
  zo_crc : fits 4 (ze_declared_crc e);
  zo_comp : fits 8 (ze_declared_comp_size e);
  zo_ranges : source_ranges_ok (ze_source_ranges e);
  zo_count : fits 4 (Z.of_nat (length (ze_extra_fields e)));
  zo_extras : Forall extra_ok (ze_extra_fields e)
}.

Record zip64_evidence_ok (e : Zip64MemberEvidence) : Prop := {
  zo64_zip : zip_evidence_ok (z_zip e);
  zo64_local_version : fits 2 (z_local_version_needed e);
  zo64_central_version : fits 2 (z_central_version_needed e);
  zo64_presence : fits 1 (z_central_presence_mask e);
  zo64_central_sentinel : fits 1 (z_central_legacy_sentinel_mask e);
  zo64_local_sentinel : fits 1 (z_local_legacy_sentinel_mask e);
  zo64_local_extra : on_option range_fits (z_local_zip64_extra e);
  zo64_central_extra : on_option range_fits (z_central_zip64_extra e)
}.

Record sevenz_evidence_ok (e : SevenZMemberEvidence) : Prop := {
  vo_payload : range_fits (se_payload e);
  vo_crc : on_option (fits 4) (se_declared_crc e);
  vo_attributes : on_option (fits 4) (se_attributes e);
  vo_mtime : on_option (fits 8) (se_mtime e)
}.

Definition evidence_ok (e : MemberEvidence) : Prop :=
  match e with
  | EvZip e => zip_evidence_ok e
  | EvZip64 e => zip64_evidence_ok e
  | EvSevenZ e => sevenz_evidence_ok e
  | EvTar e | EvTarGzip e | EvTarZstd e | EvTarXz e | EvTarBzip2 e => tar_evidence_ok e
  | EvTarPax e | EvTarGzipPax e => pax_evidence_ok e
  | EvTarGnuLongName e | EvTarGzipGnuLongName e => gnu_evidence_ok e
  end.

(** The machine widths of a member. *)
Record member_ok (m : IrMember) : Prop := {
  mo_path : short (canonical_path m);
  mo_raw : short (ir_raw_name_bytes m);
  mo_size : fits 8 (declared_uncomp_size m);
  mo_actions : actions_ok (normalization_actions m);
  mo_evidence : evidence_ok (ir_evidence m)
}.

Definition is_plain_tar (f : ArchiveFormat) : Prop :=
  f = TarUstar \/ f = TarGzipUstar \/ f = TarZstdUstar \/ f = TarXzUstar \/ f = TarBzip2Ustar.

Lemma plain_tar_evidence f m e :
  is_plain_tar f -> member_format m = f -> tar_evidence m = Some e -> evidence_ok (ir_evidence m) ->
  tar_evidence_ok e /\ ir_evidence m =
    match f with TarGzipUstar => EvTarGzip e | TarZstdUstar => EvTarZstd e | TarXzUstar => EvTarXz e
            | TarBzip2Ustar => EvTarBzip2 e | _ => EvTar e end.
Proof.
  unfold member_format, tar_evidence, is_plain_tar. intros Hf <- He Hok.
  destruct (ir_evidence m); simplify_eq/=; try done; by destruct_or! Hf.
Qed.

Lemma tar_member_free f :
  is_plain_tar f -> StopFree member_ok layout_facts (encode_tar_member f).
Proof.
  intros Hf x y b1 b2 r s [] [] H1 H2 He. unfold encode_tar_member in *.
  destruct (decide (member_format x = f)) as [Fx|]; [|done].
  destruct (decide (member_format y = f)) as [Fy|]; [|done].
  ok_bytes H1. ok_bytes H2. rewrite some_ok in *.
  match goal with A : tar_evidence x = Some _, B : tar_evidence y = Some _ |- _ =>
    apply (plain_tar_evidence f) in A as [Ox Ex], B as [Oy Ey]; try done end.
  peels He. eapply tar_evidence_free in He as [Et He]; [|exact Ox|exact Oy|done|done].
  peels He. split; [|done]. apply layout_facts_eq; try done. rewrite Ex, Ey. by simpl in Et; subst.
Qed.

Lemma pax_member_evidence f m e :
  f = FormatTarPax \/ f = FormatTarGzipPax -> member_format m = f ->
  tar_pax_evidence m = Some e -> evidence_ok (ir_evidence m) ->
  pax_evidence_ok e /\ ir_evidence m =
    match f with FormatTarGzipPax => EvTarGzipPax e | _ => EvTarPax e end.
Proof.
  unfold member_format, tar_pax_evidence. intros Hf <- He Hok.
  destruct (ir_evidence m); simplify_eq/=; try done; by destruct_or! Hf.
Qed.

Lemma pax_member_free f :
  f = FormatTarPax \/ f = FormatTarGzipPax ->
  StopFree member_ok layout_facts (encode_pax_member f).
Proof.
  intros Hf x y b1 b2 r s [] [] H1 H2 He. unfold encode_pax_member in *.
  destruct (decide (member_format x = f)) as [Fx|]; [|done].
  destruct (decide (member_format y = f)) as [Fy|]; [|done].
  ok_bytes H1. ok_bytes H2. rewrite some_ok in *.
  repeat match goal with A : encode_actions_checked _ = Ok _ |- _ =>
    apply encode_actions_checked_ok in A as -> end.
  match goal with A : tar_pax_evidence x = Some _, B : tar_pax_evidence y = Some _ |- _ =>
    apply (pax_member_evidence f) in A as [[] Ex], B as [[] Ey]; try done end.
  peels He. eapply tar_evidence_free in He as [Et He]; [| | |eassumption|eassumption]; [|done|done].
  peels He. split; [|done]. apply layout_facts_eq; try done. rewrite Ex, Ey.
  match goal with
  | A : pe_tar ?e = pe_tar ?e' |- _ => assert (e = e') as -> by record_eq
  end. done.
Qed.

Lemma gnu_member_evidence f m e :
  f = FormatTarGnuLongName \/ f = FormatTarGzipGnuLongName -> member_format m = f ->
  tar_gnu_longname_evidence m = Some e -> evidence_ok (ir_evidence m) ->
  gnu_evidence_ok e /\ ir_evidence m =
    match f with FormatTarGzipGnuLongName => EvTarGzipGnuLongName e | _ => EvTarGnuLongName e end.
Proof.
  unfold member_format, tar_gnu_longname_evidence. intros Hf <- He Hok.
  destruct (ir_evidence m); simplify_eq/=; try done; by destruct_or! Hf.
Qed.

Lemma gnu_member_free f :
  f = FormatTarGnuLongName \/ f = FormatTarGzipGnuLongName ->
  StopFree member_ok layout_facts (encode_gnu_member f).
Proof.
  intros Hf x y b1 b2 r s [] [] H1 H2 He. unfold encode_gnu_member in *.
  destruct (decide (member_format x = f)) as [Fx|]; [|done].
  destruct (decide (member_format y = f)) as [Fy|]; [|done].
  ok_bytes H1. ok_bytes H2. rewrite some_ok in *.
  repeat match goal with A : encode_actions_checked _ = Ok _ |- _ =>
    apply encode_actions_checked_ok in A as -> end.
  match goal with A : tar_gnu_longname_evidence x = Some _,
                  B : tar_gnu_longname_evidence y = Some _ |- _ =>
    apply (gnu_member_evidence f) in A as [[] Ex], B as [[] Ey]; try done end.
  peels He. eapply tar_evidence_free in He as [Et He]; [| | |eassumption|eassumption]; [|done|done].
  peels He. split; [|done]. apply layout_facts_eq; try done. rewrite Ex, Ey.
  match goal with A : ne_tar ?e = ne_tar ?e' |- _ => assert (e = e') as -> by record_eq end.
  done.
Qed.

(** ** TAR archives *)

Lemma sorted_members_ok (P : IrMember -> Prop) ir :
  Forall P (members ir) -> Forall P (sorted_members ir).
Proof. unfold sorted_members. by rewrite sort_by_perm. Qed.

Section Bodies.
Variables (ir1 ir2 : ArchiveIR) (b1 b2 r s : list byte).
Hypothesis Hm1 : Forall member_ok (members ir1).
Hypothesis Hm2 : Forall member_ok (members ir2).
Hypothesis Hc1 : on_option tar_covering_ok (tar_covering ir1).
Hypothesis Hc2 : on_option tar_covering_ok (tar_covering ir2).
Hypothesis He : b1 ++ r = b2 ++ s.

(** The conclusion all three bodies share: the covering, the members' facts in
    canonical order, and the rest of the stream. *)
Definition same_tar_facts : Prop :=
  tar_covering ir1 = tar_covering ir2 /\ r = s
  /\ map layout_facts (sorted_members ir1) = map layout_facts (sorted_members ir2).

#[local] Hint Resolve sorted_members_ok : core.

Ltac body H1 H2 :=
  ok_bytes H1; ok_bytes H2; counts;
  repeat match goal with A : some _ = Ok _ |- _ => apply some_ok in A end;
  match goal with A : tar_covering ir1 = Some _, B : tar_covering ir2 = Some _ |- _ =>
    rewrite A in Hc1; rewrite B in Hc2; unfold same_tar_facts; rewrite A, B end;
  cbn [on_option] in Hc1, Hc2; peels He.
Ltac each free :=
  eapply (encode_each_free _ _ _ _ _ _ _ _ _ free) in He as [? He];
    [|eassumption|eassumption|eauto|eauto|lia].

Lemma tar_body_free f :
  is_plain_tar f -> tar_layout_body ir1 f = Ok b1 -> tar_layout_body ir2 f = Ok b2 ->
  same_tar_facts.
Proof.
  intros Hf H1 H2. unfold tar_layout_body in *. body H1 H2. each (tar_member_free f Hf).
  split_and!; [congruence|done|done].
Qed.

Lemma pax_body_free f :
  f = FormatTarPax \/ f = FormatTarGzipPax ->
  on_option (Forall pax_extension_ok) (pax_extensions ir1) ->
  on_option (Forall pax_extension_ok) (pax_extensions ir2) ->
  tar_pax_layout_body ir1 f = Ok b1 -> tar_pax_layout_body ir2 f = Ok b2 ->
  same_tar_facts /\ pax_extensions ir1 = pax_extensions ir2.
Proof.
  intros Hf Hx1 Hx2 H1 H2. unfold tar_pax_layout_body in *. body H1 H2.
  match goal with A : pax_extensions ir1 = Some _, B : pax_extensions ir2 = Some _ |- _ =>
    rewrite A in *; rewrite B in *; cbn [on_option] in Hx1, Hx2 end.
  each pax_extension_free. rewrite !map_id in *. peels He. each (pax_member_free f Hf).
  split_and!; congruence.
Qed.

Lemma gnu_body_free f :
  f = FormatTarGnuLongName \/ f = FormatTarGzipGnuLongName ->
  on_option (Forall gnu_carrier_ok) (gnu_longname_carriers ir1) ->
  on_option (Forall gnu_carrier_ok) (gnu_longname_carriers ir2) ->
  tar_gnu_longname_layout_body ir1 f = Ok b1 -> tar_gnu_longname_layout_body ir2 f = Ok b2 ->
  same_tar_facts /\ gnu_longname_carriers ir1 = gnu_longname_carriers ir2.
Proof.
  intros Hf Hx1 Hx2 H1 H2. unfold tar_gnu_longname_layout_body in *. body H1 H2.
  match goal with A : gnu_longname_carriers ir1 = Some _, B : gnu_longname_carriers ir2 = Some _ |- _ =>
    rewrite A in *; rewrite B in *; cbn [on_option] in Hx1, Hx2 end.
  each gnu_carrier_free. rewrite !map_id in *. peels He. each (gnu_member_free f Hf).
  split_and!; congruence.
Qed.
End Bodies.

(** ** The wrappers *)

#[local] Arguments le_bytes : simpl never.

(** ** Valid wrapper evidence *)

Record gzip_ok (e : GzipWrapperEvidence) : Prop := {
  go_flags : fits 1 (gz_flags e);
  go_mtime : fits 4 (gz_modification_time e);
  go_xfl : fits 1 (gz_extra_flags e);
  go_os : fits 1 (gz_operating_system e);
  go_header : range_fits (gz_header e);
  go_extra : on_option range_fits (gz_extra e);
  go_subfields : fits 4 (gz_extra_subfield_count e);
  go_name : on_option range_fits (gz_original_name e);
  go_comment : on_option range_fits (gz_comment e);
  go_hcrc : on_option range_fits (gz_header_crc16 e);
  go_payload : range_fits (gz_compressed_payload e);
  go_trailer : range_fits (gz_trailer e);
  go_crc : fits 4 (gz_declared_crc32 e);
  go_isize : fits 4 (gz_declared_isize e);
  go_len : fits 8 (gz_derived_output_len e);
  go_sha : hex_digest (gz_derived_output_sha256 e)
}.

Record zstd_ok (e : ZstdWrapperEvidence) : Prop := {
  zo_descriptor : fits 1 (zs_descriptor e);
  zo_window_descriptor : on_option (fits 1) (zs_window_descriptor e);
  zo_window : fits 8 (zs_window_size e);
  zo_content : on_option (fits 8) (zs_frame_content_size e);
  zo_header : range_fits (zs_header e);
  zo_payload : range_fits (zs_compressed_payload e);
  zo_trailer : range_fits (zs_trailer e);
  zo_checksum : on_option (fits 4) (zs_declared_checksum e);
  zo_len : fits 8 (zs_derived_output_len e);
  zo_sha : hex_digest (zs_derived_output_sha256 e)
}.

Record xz_block_ok (b : XzBlockEvidence) : Prop := {
  bo_header : range_fits (xb_header b);
  bo_compressed : range_fits (xb_compressed b);
  bo_padding : range_fits (xb_padding b);
  bo_check : range_fits (xb_check b);
  bo_dict : fits 4 (xb_dict_size b);
  bo_declared_compressed : on_option (fits 8) (xb_declared_compressed b);
  bo_declared_uncompressed : on_option (fits 8) (xb_declared_uncompressed b);
  bo_uncompressed : fits 8 (xb_uncompressed_len b);
  bo_value : short (xb_check_value b)
}.

Record xz_ok (e : XzWrapperEvidence) : Prop := {
  xo_check : fits 1 (xz_check_id e);
  xo_stream_header : range_fits (xz_header e);
  xo_blocks : Forall xz_block_ok (xz_blocks e);
  xo_index : range_fits (xz_index e);
  xo_footer : range_fits (xz_footer e);
  xo_len : fits 8 (xz_derived_output_len e);
  xo_sha : hex_digest (xz_derived_output_sha256 e)
}.

Definition bzip2_block_ok (b : Z * Z) : Prop := fits 8 b.1 /\ fits 4 b.2.
Record bzip2_ok (e : Bzip2WrapperEvidence) : Prop := {
  zo_level : fits 1 (bz_level e);
  zo_stream_header : range_fits (bz_header e);
  zo_bits : fits 8 (bz_payload_bits e);
  zo_padding : fits 1 (bz_padding_bits e);
  zo_offsets : Forall (fits 8) (bz_block_bit_offsets e);
  zo_crcs : Forall (fits 4) (bz_block_crcs e);
  zo_combined : fits 4 (bz_combined_crc e);
  zo_out_len : fits 8 (bz_derived_output_len e);
  zo_out_sha : hex_digest (bz_derived_output_sha256 e)
}.

Definition source_digest_ok (d : SourceDigest) : Prop :=
  match d with Available h => hex_digest h | DigestUnavailable => True end.

(** ** The transformation record *)

Lemma fits_domain n : 0 <= n <= 1 -> fits 2 n.
Proof. unfold fits. simpl. lia. Qed.
Lemma short_transform_id t : short (transform_id t).
Proof. by destruct t. Qed.
Lemma range_fits_from_zero n : fits 8 n -> range_fits (mkrange 0 n).
Proof. by split. Qed.
#[export] Hint Resolve short_transform_id range_fits_from_zero : fits.
#[export] Hint Extern 1 (fits 2 _) => (apply fits_domain; done) : fits.

Lemma checked_add_fits a b : fits 8 a -> fits 8 b -> on_option (fits 8) (u64_checked_add a b).
Proof.
  unfold fits, u64_checked_add, u64_max. intros. case_match; simpl in *; [|done]. breflect. lia.
Qed.

Lemma source_digest_eq d e h :
  source_digest_ok d -> source_digest_ok e ->
  digest_sha256 d = Some h -> digest_sha256 e = Some h -> d = e.
Proof. destruct d, e; simpl; congruence. Qed.

Lemma digest_of_source d h : source_digest_ok d -> digest_sha256 d = Some h -> hex_digest h.
Proof. destruct d; simpl; congruence. Qed.

Lemma transform_free ir1 ir2 t i1 i2 n1 n2 h1 h2 b1 b2 r s :
  source_digest_ok (source_digest ir1) -> source_digest_ok (source_digest ir2) ->
  on_option (fits 8) i1 -> on_option (fits 8) i2 -> fits 8 n1 -> fits 8 n2 ->
  hex_digest h1 -> hex_digest h2 ->
  encode_transform ir1 t i1 n1 h1 = Ok b1 -> encode_transform ir2 t i2 n2 h2 = Ok b2 ->
  b1 ++ r = b2 ++ s -> source_digest ir1 = source_digest ir2 /\ r = s.
Proof.
  intros S1 S2 I1 I2 N1 N2 G1 G2 H1 H2 He. unfold encode_transform in *.
  ok_bytes H1. ok_bytes H2.
  repeat match goal with
  | A : some i1 = Ok _ |- _ => apply some_ok in A; rewrite A in I1
  | A : some i2 = Ok _ |- _ => apply some_ok in A; rewrite A in I2
  | A : some (digest_sha256 _) = Ok _ |- _ => apply some_ok in A
  | A : some (parse_hex32 ?x) = Ok ?a, B : some (parse_hex32 ?x) = Ok ?b |- _ =>
      tryif constr_eq a b then fail else (rewrite B in A; apply Ok_inj in A; subst a)
  end.
  cbn [on_option] in I1, I2. peels He. do 2 (apply app_inv_head in He). peels He.
  match goal with
  | A : digest_sha256 (source_digest ir1) = Some ?x, B : digest_sha256 (source_digest ir2) = Some ?y |- _ =>
      pose proof (digest_of_source _ _ S1 A); pose proof (digest_of_source _ _ S2 B)
  end.
  peel_digest He. peels He. peel_digest He. subst. split; [|done]. by eapply source_digest_eq.
Qed.

(** ** Wrapper headers *)

#[export] Instance prefix_free_xz_block : PrefixFree xz_block_ok encode_xz_block.
Proof. intros x y r s [] [] He. unfold encode_xz_block in He. peels He. record_eq. Qed.

#[export] Instance prefix_free_bzip2_block : PrefixFree bzip2_block_ok encode_bzip2_block.
Proof. intros x y r s [] [] He. unfold encode_bzip2_block in He. peels He. record_eq. Qed.

Lemma zip_ok (l1 l2 : list Z) :
  Forall (fits 8) l1 -> Forall (fits 4) l2 -> Forall bzip2_block_ok (zip l1 l2).
Proof.
  intros H1. revert l2. induction H1 as [|x l1 Hx _ IH]; intros l2 H2; [constructor|].
  destruct H2 as [|y l2 Hy H2]; [constructor|]. constructor; [done|]. by apply IH.
Qed.

Lemma zip_inj {A B} (l1 k1 : list A) (l2 k2 : list B) :
  length l1 = length l2 -> length k1 = length k2 -> zip l1 l2 = zip k1 k2 -> l1 = k1 /\ l2 = k2.
Proof.
  intros Hl Hk He. rewrite <- (fst_zip l1 l2), <- (fst_zip k1 k2) by lia.
  rewrite <- (snd_zip l1 l2) at 2 by lia. rewrite <- (snd_zip k1 k2) at 2 by lia.
  by rewrite He.
Qed.

(** The extent a wrapper reads ends inside the machine range. *)
Lemma range_end_fits x : range_fits x -> on_option (fits 8) (u64_checked_add (offset x) (len x)).
Proof. intros [? ?]. by apply checked_add_fits. Qed.

Lemma bit_length_fits a b :
  fits 8 a -> fits 1 b ->
  on_option (fits 8) (option_map (fun bits => bits / 8) (u64_checked_add a b)).
Proof.
  unfold fits, u64_checked_add, u64_max. intros. case_match; simpl in *; [|done]. breflect.
  split; [apply Z.div_pos; lia|]. apply Z.div_lt_upper_bound; lia.
Qed.

Ltac trailer := by apply range_end_fits.

Section Wrappers.
Variables (ir1 ir2 : ArchiveIR) (b1 b2 r s : list byte).
Hypothesis S1 : source_digest_ok (source_digest ir1).
Hypothesis S2 : source_digest_ok (source_digest ir2).
Hypothesis He : b1 ++ r = b2 ++ s.

(** Peels the transformation record at the front of a wrapper header. *)
Ltac wrapper H1 H2 :=
  ok_bytes H1; ok_bytes H2; counts;
  repeat match goal with
  | A : some (gzip_evidence _) = Ok _ |- _ => apply some_ok in A
  | A : some (zstd_evidence _) = Ok _ |- _ => apply some_ok in A
  | A : some (xz_evidence _) = Ok _ |- _ => apply some_ok in A
  | A : some (bzip2_evidence _) = Ok _ |- _ => apply some_ok in A
  | A : ?e ?ir = Some _, B : on_option _ (?e ?ir) |- _ =>
      rewrite A in B; cbn [on_option] in B; rewrite ?A; destruct B
  end;
  rewrite <- ?app_assoc in He;
  match goal with
  | A : encode_transform ir1 ?t _ _ _ = Ok _, B : encode_transform ir2 _ _ _ _ = Ok _ |- _ =>
      eapply (transform_free ir1 ir2 t) in He as [Es He];
        [|assumption|assumption| | | | | | |exact A|exact B]
  end; try assumption.

Lemma gzip_header_free :
  on_option gzip_ok (gzip_evidence ir1) -> on_option gzip_ok (gzip_evidence ir2) ->
  encode_gzip_wrapper_header ir1 = Ok b1 -> encode_gzip_wrapper_header ir2 = Ok b2 ->
  gzip_evidence ir1 = gzip_evidence ir2 /\ source_digest ir1 = source_digest ir2 /\ r = s.
Proof.
  intros G1 G2 H1 H2. unfold encode_gzip_wrapper_header in *. wrapper H1 H2.
  - peels He. peel_digest He. split_and!; [f_equal; record_eq|done|done].
  - trailer.
  - trailer.
Qed.

Lemma zstd_header_free :
  on_option zstd_ok (zstd_evidence ir1) -> on_option zstd_ok (zstd_evidence ir2) ->
  encode_zstd_wrapper_header ir1 = Ok b1 -> encode_zstd_wrapper_header ir2 = Ok b2 ->
  zstd_evidence ir1 = zstd_evidence ir2 /\ source_digest ir1 = source_digest ir2 /\ r = s.
Proof.
  intros G1 G2 H1 H2. unfold encode_zstd_wrapper_header in *. wrapper H1 H2.
  - peels He. peel_digest He. split_and!; [f_equal; record_eq|done|done].
  - trailer.
  - trailer.
Qed.

Lemma xz_header_free :
  on_option xz_ok (xz_evidence ir1) -> on_option xz_ok (xz_evidence ir2) ->
  encode_xz_wrapper_header ir1 = Ok b1 -> encode_xz_wrapper_header ir2 = Ok b2 ->
  xz_evidence ir1 = xz_evidence ir2 /\ source_digest ir1 = source_digest ir2 /\ r = s.
Proof.
  intros G1 G2 H1 H2. unfold encode_xz_wrapper_header in *. wrapper H1 H2.
  - peels He. eapply prefix_free_list in He as [Eb He]; [|apply _|done|done|lia].
    peels He. peel_digest He. split_and!; [f_equal; record_eq|done|done].
  - trailer.
  - trailer.
Qed.

Lemma bzip2_header_free :
  on_option bzip2_ok (bzip2_evidence ir1) -> on_option bzip2_ok (bzip2_evidence ir2) ->
  encode_bzip2_wrapper_header ir1 = Ok b1 -> encode_bzip2_wrapper_header ir2 = Ok b2 ->
  bzip2_evidence ir1 = bzip2_evidence ir2 /\ source_digest ir1 = source_digest ir2 /\ r = s.
Proof.
  intros G1 G2 H1 H2. unfold encode_bzip2_wrapper_header in *. wrapper H1 H2.
  - repeat match goal with A : negb _ = false |- _ => apply negb_false_iff, Nat.eqb_eq in A end.
    peels He. eapply prefix_free_list in He as [Eb He];
      [|apply _|by apply zip_ok|by apply zip_ok|rewrite !length_zip; lia].
    apply zip_inj in Eb as [? ?]; [|done|done].
    peels He. peel_digest He. split_and!; [f_equal; record_eq|done|done].
  - by apply bit_length_fits.
  - by apply bit_length_fits.
Qed.
End Wrappers.

(** ** The 7z container *)

Definition substream_ok (x : SevenZSubStreamEvidence) : Prop :=
  range_fits (ss_payload x) /\ on_option (fits 4) (ss_declared_crc x).
Record folder_ok (x : SevenZFolderEvidence) : Prop := {
  fo_pack : range_fits (sf_pack_stream x);
  fo_crc : on_option (fits 4) (sf_pack_crc x);
  fo_size : fits 8 (sf_unpack_size x);
  fo_folder_crc : on_option (fits 4) (sf_folder_crc x);
  fo_substreams : Forall substream_ok (sf_substreams x)
}.
Record sevenz_ok (x : SevenZArchiveEvidence) : Prop := {
  zo_version : fits 1 (sa_version_minor x);
  zo_pack : range_fits (sa_pack_region x);
  zo_next : range_fits (sa_next_header x);
  zo_next_crc : fits 4 (sa_next_header_crc x);
  zo_folders : Forall folder_ok (sa_folders x);
  zo_names : fits 8 (sa_name_region_bytes x);
  zo_dummy : fits 8 (sa_dummy_bytes x)
}.

#[export] Instance prefix_free_substream : PrefixFree substream_ok encode_sevenz_substream.
Proof. intros x y r s [] [] He. unfold encode_sevenz_substream in He. peels He. record_eq. Qed.

Lemma folder_free : StopFree folder_ok (fun x => x) encode_sevenz_folder.
Proof.
  intros x y b1 b2 r s [] [] H1 H2 He. unfold encode_sevenz_folder in *. ok_bytes H1. ok_bytes H2.
  counts. peels He. eapply prefix_free_list in He as [Er ->]; [|apply _|done|done|lia]. record_eq.
Qed.

Lemma sevenz_kind_tag_fits k : fits 1 (sevenz_kind_tag k).
Proof. by destruct k. Qed.
Lemma sevenz_kind_tag_inj j k : sevenz_kind_tag j = sevenz_kind_tag k -> j = k.
Proof. by destruct j, k. Qed.
#[export] Hint Resolve sevenz_kind_tag_fits : fits.

Lemma sevenz_member_free : StopFree member_ok layout_facts encode_sevenz_member.
Proof.
  intros x y b1 b2 r s [] [] H1 H2 He. unfold encode_sevenz_member in *.
  destruct (ir_evidence x) eqn:Ex; try done. destruct (ir_evidence y) eqn:Ey; try done.
  ok_bytes H1. ok_bytes H2.
  repeat match goal with A : encode_actions_checked _ = Ok _ |- _ =>
    apply encode_actions_checked_ok in A as ->
  | A : evidence_ok (EvSevenZ _) |- _ => destruct A end.
  peels He. split; [|done]. apply layout_facts_eq; try done.
  - by apply sevenz_kind_tag_inj.
  - rewrite Ex, Ey. do 2 f_equal. record_eq.
Qed.
