(* ===== verification/IdentityRoots.v ===== *)
(** * What the tree identities bind ([identity.rs])

    Two archives with the same layout bytes are of one format and agree on
    every recorded fact of the container and of their members; two with the
    same content bytes hold the same tree.  So equal published roots mean equal
    recorded facts unless SHA-256 collides.  The roots of ZIP and TAR archives
    do not depend on the order the members were read in; the 7z container
    records it. *)

From S2P Require Import Prelude Utf8 Sort Findings Snapshot Ir ZipFields ZipRecords Tar TarGnu TarPax Evidence Identity PrefixFree IdentityTar.
Local Open Scope Z_scope.
Local Open Scope rust_scope.

#[local] Arguments le_bytes : simpl never.

(** ** ZIP members *)

Lemma site_tag_fits x : fits 1 (site_tag x).
Proof. by destruct x. Qed.
Lemma site_tag_inj x y : site_tag x = site_tag y -> x = y.
Proof. by destruct x, y. Qed.
Lemma disposition_tag_fits x : fits 1 (disposition_tag x).
Proof. by destruct x. Qed.
Lemma disposition_tag_inj x y : disposition_tag x = disposition_tag y -> x = y.
Proof. by destruct x, y. Qed.
Lemma shape_tag_fits x : fits 1 (shape_tag x).
Proof. by destruct x. Qed.
Lemma shape_tag_inj x y : shape_tag x = shape_tag y -> x = y.
Proof. by destruct x, y. Qed.
Lemma width_tag_fits x : fits 1 (width_tag x).
Proof. by destruct x as [[]|]. Qed.
Lemma width_tag_inj x y : width_tag x = width_tag y -> x = y.
Proof. by destruct x as [[]|], y as [[]|]. Qed.
#[export] Hint Resolve site_tag_fits disposition_tag_fits shape_tag_fits width_tag_fits : fits.

(** Extra fields are told apart up to the extent of their headers. *)
Lemma extra_free x y r s :
  extra_ok x -> extra_ok y -> encode_extra x ++ r = encode_extra y ++ s ->
  bound_extra x = bound_extra y /\ r = s.
Proof.
  intros [] [] He. unfold encode_extra in He. peels He. split; [|done]. unfold bound_extra.
  f_equal; [by apply site_tag_inj|done| |by apply disposition_tag_inj].
  destruct (data_range x), (data_range y). simpl in *. congruence.
Qed.

Lemma extras_free l1 l2 r s :
  Forall extra_ok l1 -> Forall extra_ok l2 -> length l1 = length l2 ->
  concat (map encode_extra l1) ++ r = concat (map encode_extra l2) ++ s ->
  map bound_extra l1 = map bound_extra l2 /\ r = s.
Proof.
  intros H1. revert l2. induction H1 as [|x l1 Hx _ IH]; intros [|y l2] H2 Hl He; try done.
  apply Forall_cons in H2 as [Hy H2]. cbn [map concat] in He. rewrite <- !app_assoc in He.
  apply extra_free in He as [E He]; [|done|done]. simpl in Hl.
  apply IH in He as [El ->]; [|done|lia]. simpl. by rewrite E, El.
Qed.

(** What [encode_layout_member] writes of a member, whatever its evidence. *)
Lemma zip_member_free x y ex ey b1 b2 r s :
  short (canonical_path x) -> short (canonical_path y) ->
  short (ir_raw_name_bytes x) -> short (ir_raw_name_bytes y) ->
  fits 8 (declared_uncomp_size x) -> fits 8 (declared_uncomp_size y) ->
  actions_ok (normalization_actions x) -> actions_ok (normalization_actions y) ->
  zip_evidence x = Some ex -> zip_evidence y = Some ey ->
  zip_evidence_ok ex -> zip_evidence_ok ey ->
  encode_layout_member x = Ok b1 -> encode_layout_member y = Ok b2 -> b1 ++ r = b2 ++ s ->
  canonical_path x = canonical_path y /\ ir_kind x = ir_kind y
  /\ ir_raw_name_bytes x = ir_raw_name_bytes y
  /\ declared_uncomp_size x = declared_uncomp_size y /\ bound_zip ex = bound_zip ey
  /\ normalization_actions x = normalization_actions y /\ r = s.
Proof.
  intros P1 P2 N1 N2 Z1 Z2 A1 A2 X1 X2 [] [] H1 H2 He.
  unfold encode_layout_member in *. rewrite X1 in H1. rewrite X2 in H2. cbn [expect ok_or] in *.
  apply Ok_inj in H1, H2. subst b1 b2.
  repeat match goal with A : source_ranges_ok _ |- _ => destruct A end.
  rewrite !length_sort_by in He. peels He.
  apply extras_free in He as [Ex He];
    [|by rewrite sort_by_perm|by rewrite sort_by_perm|rewrite !length_sort_by; lia].
  peels He. split_and!; try done. unfold bound_zip.
  assert (ze_source_ranges ex = ze_source_ranges ey) as -> by record_eq. congruence.
Qed.

Lemma zip_layout_member_free :
  StopFree (fun m => member_ok m /\ member_format m = FormatZip32) layout_facts
    encode_layout_member.
Proof.
  intros x y b1 b2 r s [[] Fx] [[] Fy] H1 H2 He. unfold member_format in *.
  destruct (ir_evidence x) as [ex|ex| | | | | | | | | | ] eqn:X1; try done.
  destruct (ir_evidence y) as [ey|ey| | | | | | | | | | ] eqn:X2; try done.
  eapply (zip_member_free x y ex ey) in He as (? & ? & ? & ? & ? & ? & ?); try eassumption;
    [|unfold zip_evidence; by rewrite X1|unfold zip_evidence; by rewrite X2].
  split; [|done]. apply layout_facts_eq; try done. rewrite X1, X2. simpl. by f_equal.
Qed.

Lemma zip64_member_free :
  StopFree (fun m => member_ok m /\ member_format m = FormatZip64) layout_facts
    encode_zip64_member.
Proof.
  intros x y b1 b2 r s [[] Fx] [[] Fy] H1 H2 He. unfold member_format, encode_zip64_member in *.
  ok_bytes H1. ok_bytes H2. rewrite some_ok in *. unfold zip64_evidence in *.
  destruct (ir_evidence x) as [ex|ex| | | | | | | | | | ] eqn:X1; simplify_eq.
  destruct (ir_evidence y) as [ey|ey| | | | | | | | | | ] eqn:X2; simplify_eq.
  cbn [evidence_ok] in *. repeat match goal with A : zip64_evidence_ok _ |- _ => destruct A end.
  rewrite <- !app_assoc in He.
  match goal with A : ir_evidence x = EvZip64 ?ex, B : ir_evidence y = EvZip64 ?ey |- _ =>
    eapply (zip_member_free x y (z_zip ex) (z_zip ey)) in He as (? & ? & ? & ? & Ez & ? & He) end;
    try eassumption; [|unfold zip_evidence; by rewrite X1|unfold zip_evidence; by rewrite X2].
  peels He. split; [|done]. apply layout_facts_eq; try done. rewrite X1, X2. simpl. f_equal.
  repeat match goal with A : shape_tag _ = _ |- _ => apply shape_tag_inj in A
         | A : width_tag _ = _ |- _ => apply width_tag_inj in A end.
  unfold bound_zip64. congruence.
Qed.

(** ** Preimages *)

Lemma prefix_until {A} (x : A) l1 l2 r s :
  x ∉ l1 -> x ∉ l2 -> l1 ++ x :: r = l2 ++ x :: s -> l1 = l2 /\ r = s.
Proof.
  revert l2. induction l1 as [|a l1 IH]; intros [|b l2] H1 H2 He; simpl in He.
  - by injection He as ->.
  - injection He as -> _. destruct H2. left.
  - injection He as -> _. destruct H1. left.
  - injection He as -> He. rewrite not_elem_of_cons in H1, H2.
    by apply IH in He as [-> ->]; [|apply H1|apply H2].
Qed.

Lemma fmt_dec_no_nul n : 0 <= n -> x00 ∉ lit (fmt_dec n).
Proof.
  intros Hn. destruct (fmt_radix_spec 10 n ltac:(lia) Hn) as (ds & Hd & _ & Hr & _).
  unfold fmt_dec. rewrite Hd. intros (d & Hx & Hi)%list_elem_of_fmap.
  rewrite Forall_forall in Hr. apply Hr in Hi. apply (f_equal u8) in Hx.
  rewrite u8_digit_byte in Hx by lia. change (u8 x00) with 0 in Hx. lia.
Qed.

(** A preimage determines its label and its body. *)
Lemma preimage_inj l1 l2 b1 b2 :
  x20 ∉ l1 -> x20 ∉ l2 -> preimage l1 b1 = preimage l2 b2 -> l1 = l2 /\ b1 = b2.
Proof.
  intros H1 H2 He. unfold preimage in He. change (lit " ") with [x20] in He.
  apply prefix_until in He as [-> He]; [|done|done]. split; [done|].
  apply prefix_until in He as [_ ->]; [done| |]; apply fmt_dec_no_nul; lia.
Qed.

Definition layout_label (f : ArchiveFormat) : str :=
  match f with
  | FormatZip32 => LAYOUT_LABEL
  | FormatZip64 => ZIP64_LAYOUT_LABEL
  | TarUstar => TAR_LAYOUT_LABEL
  | TarGzipUstar => TAR_GZIP_LAYOUT_LABEL
  | FormatTarPax => TAR_PAX_LAYOUT_LABEL
  | FormatTarGnuLongName => TAR_GNU_LONGNAME_LAYOUT_LABEL
  | FormatTarGzipPax => TAR_GZIP_PAX_LAYOUT_LABEL
  | FormatTarGzipGnuLongName => TAR_GZIP_GNU_LONGNAME_LAYOUT_LABEL
  | TarZstdUstar => TAR_ZSTD_LAYOUT_LABEL
  | TarXzUstar => TAR_XZ_LAYOUT_LABEL
  | TarBzip2Ustar => TAR_BZIP2_LAYOUT_LABEL
  | SevenZCopy => SEVENZ_COPY_LAYOUT_LABEL
  end.

Lemma no_space s : forallb (fun b => negb (bool_decide (b = x20))) s = true -> x20 ∉ s.
Proof.
  intros H Hin. rewrite forallb_forall in H. apply list_elem_of_In, H in Hin.
  by rewrite bool_decide_eq_true_2 in Hin.
Qed.

Lemma layout_label_no_space f : x20 ∉ layout_label f.
Proof. apply no_space. by destruct f; vm_compute. Qed.

Lemma layout_label_inj f g : layout_label f = layout_label g -> f = g.
Proof. destruct f, g; try done; by vm_compute. Qed.

Lemma push_bytes_tail x y : push_bytes x = push_bytes y -> x = y.
Proof.
  unfold push_bytes, push_u32. intros He. apply app_inj_1 in He as [_ ->]; [done|].
  by rewrite !length_le_bytes.
Qed.

Lemma wrapped_layout_ok ir f label wrapper inner p :
  wrapped_layout ir f label wrapper inner = Ok p ->
  exists h i, wrapper ir = Ok h /\ inner ir f = Ok i /\ p = preimage label (h ++ push_bytes i).
Proof.
  unfold wrapped_layout. case_decide; [|done]. intros H1. ok_steps H1. simplify_eq. eauto.
Qed.

(** Every layout is a preimage under the label of its format. *)
Lemma layout_bytes_preimage ir p :
  layout_bytes ir = Ok p -> exists body, p = preimage (layout_label (format ir)) body.
Proof.
  unfold layout_bytes. destruct (format ir) eqn:F; simpl; intros H1;
    first [apply wrapped_layout_ok in H1 as (? & ? & _ & _ & ->); by eexists
          |unfold encode_layout, encode_zip64_layout, encode_tar_layout, encode_tar_pax_layout,
             encode_tar_gnu_longname_layout, encode_sevenz_layout in H1;
           rewrite ?F in H1; try (rewrite decide_True in H1 by done);
           ok_steps H1; apply Ok_inj in H1 as <-; by eexists].
Qed.

(** ** Layouts *)

Definition archive_evidence_ok (e : ArchiveEvidence) : Prop :=
  match e with
  | ArZip c => range_fits (local_records c) /\ range_fits (central_directory c)
               /\ range_fits (eocd c) /\ range_fits (comment c)
  | ArZip64 c => range_fits (z64_local_records c) /\ range_fits (z64_central_directory c)
                 /\ on_option range_fits (z64_eocd64 c) /\ on_option range_fits (z64_locator c)
                 /\ range_fits (z64_eocd c) /\ range_fits (z64_comment c)
  | ArTar c => tar_covering_ok c
  | ArTarGzip g c => gzip_ok g /\ tar_covering_ok c
  | ArTarPax e => tar_covering_ok (pa_tar e) /\ Forall pax_extension_ok (pa_extensions e)
  | ArTarGnuLongName e => tar_covering_ok (na_tar e) /\ Forall gnu_carrier_ok (na_carriers e)
  | ArTarGzipPax g e =>
      gzip_ok g /\ tar_covering_ok (pa_tar e) /\ Forall pax_extension_ok (pa_extensions e)
  | ArTarGzipGnuLongName g e =>
      gzip_ok g /\ tar_covering_ok (na_tar e) /\ Forall gnu_carrier_ok (na_carriers e)
  | ArTarZstd z c => zstd_ok z /\ tar_covering_ok c
  | ArTarXz x c => xz_ok x /\ tar_covering_ok c
  | ArTarBzip2 b c => bzip2_ok b /\ tar_covering_ok c
  | ArSevenZ z => sevenz_ok z
  end.

(** A well-formed archive: machine widths, digests as [hex_sha256] prints
    them, and members that carry the evidence of the archive's format. *)
Record archive_ok (ir : ArchiveIR) : Prop := {
  ok_members : Forall member_ok (members ir);
  ok_formats : Forall (fun m => member_format m = format ir) (members ir);
  ok_source : source_digest_ok (source_digest ir);
  ok_profile : hex_digest (profile_digest ir);
  ok_evidence : archive_evidence_ok (evidence ir)
}.

(** The order the layout lists the members in. *)
Definition layout_members (ir : ArchiveIR) : list IrMember :=
  if decide (format ir = SevenZCopy) then members ir else sorted_members ir.

(** The layouts that name the source they were read from. *)
Definition binds_source (f : ArchiveFormat) : bool :=
  match f with
  | TarGzipUstar | FormatTarGzipPax | FormatTarGzipGnuLongName | TarZstdUstar | TarXzUstar
  | TarBzip2Ustar | SevenZCopy => true
  | _ => false
  end.

Record same_layout (ir1 ir2 : ArchiveIR) : Prop := {
  sl_format : format ir1 = format ir2;
  sl_evidence : evidence ir1 = evidence ir2;
  sl_members : map layout_facts (layout_members ir1) = map layout_facts (layout_members ir2);
  sl_source : binds_source (format ir1) = true -> source_digest ir1 = source_digest ir2;
  sl_profile : format ir1 = SevenZCopy -> profile_digest ir1 = profile_digest ir2
}.

Section Bind.
Variables (ir1 ir2 : ArchiveIR) (p : list byte).
Hypothesis ok1 : archive_ok ir1.
Hypothesis ok2 : archive_ok ir2.
Hypothesis F : format ir1 = format ir2.

(** Members of the archive's format, in canonical order. *)
Lemma members_of_format ir f :
  archive_ok ir -> format ir = f ->
  Forall (fun m => member_ok m /\ member_format m = f) (sorted_members ir).
Proof.
  intros [Hm Hf _ _ _] <-. apply sorted_members_ok. rewrite Forall_forall in *. auto.
Qed.

Lemma covering_ok ir : archive_ok ir -> on_option tar_covering_ok (tar_covering ir).
Proof.
  intros [_ _ _ _ He]. unfold tar_covering. destruct (evidence ir); simpl in *; destruct_and?; done.
Qed.
Lemma extensions_ok ir :
  archive_ok ir -> on_option (Forall pax_extension_ok) (pax_extensions ir).
Proof.
  intros [_ _ _ _ He]. unfold pax_extensions, archive_pax_evidence.
  destruct (evidence ir); simpl in *; destruct_and?; done.
Qed.
Lemma carriers_ok ir :
  archive_ok ir -> on_option (Forall gnu_carrier_ok) (gnu_longname_carriers ir).
Proof.
  intros [_ _ _ _ He]. unfold gnu_longname_carriers, archive_gnu_evidence.
  destruct (evidence ir); simpl in *; destruct_and?; done.
Qed.

#[local] Hint Resolve ok_members ok_source covering_ok extensions_ok carriers_ok : core.

(** The evidence of both archives, by the format they share. *)
Ltac evidences F1 :=
  let G1 := fresh "G1" in let G2 := fresh "G2" in
  pose proof F1 as G1; pose proof F as G2; rewrite F1 in G2; unfold format in G1, G2;
  destruct ok1 as [_ _ _ _ O1], ok2 as [_ _ _ _ O2];
  destruct (evidence ir1) eqn:V1; try discriminate; destruct (evidence ir2) eqn:V2;
  try discriminate;
  repeat match goal with A : Some _ = Some _ |- _ => apply (inj Some) in A; subst end;
  cbn [archive_evidence_ok] in O1, O2; destruct_and? O1; destruct_and? O2.
(** The common body of two runs that gave the same preimage. *)
Ltac bodies H1 H2 f :=
  apply Ok_inj in H1, H2; rewrite <- H2 in H1;
  apply preimage_inj in H1 as [_ He]; [|by apply (layout_label_no_space f)..].

Lemma app_nil_eq {A} (l k : list A) : l = k -> l ++ [] = k ++ [].
Proof. by intros ->. Qed.

Lemma same_layout_intro f :
  format ir1 = f -> binds_source f = false -> evidence ir1 = evidence ir2 ->
  map layout_facts (sorted_members ir1) = map layout_facts (sorted_members ir2) ->
  same_layout ir1 ir2.
Proof.
  intros Hf Hb He Hm. split; [done|done| |congruence|intros E; rewrite Hf in E; by rewrite E in Hb].
  unfold layout_members. rewrite <- F, Hf. by destruct f.
Qed.

Lemma zip_layout_bind :
  format ir1 = FormatZip32 -> encode_layout ir1 = Ok p -> encode_layout ir2 = Ok p ->
  same_layout ir1 ir2.
Proof.
  intros F1 H1 H2. unfold encode_layout in *. ok_steps H1. ok_steps H2. counts.
  rewrite expect_ok in *. bodies H1 H2 FormatZip32. unfold archive_zip_covering in *.
  evidences F1. peels He. apply app_nil_eq in He.
  eapply (encode_each_free _ _ _ _ _ _ _ _ _ zip_layout_member_free) in He as [Em _];
    [|done|done|by apply members_of_format|apply members_of_format; congruence|lia].
  apply (same_layout_intro FormatZip32); try done. rewrite V1, V2. f_equal. record_eq.
Qed.

Lemma zip64_layout_bind :
  format ir1 = FormatZip64 -> encode_zip64_layout ir1 = Ok p -> encode_zip64_layout ir2 = Ok p ->
  same_layout ir1 ir2.
Proof.
  intros F1 H1 H2. unfold encode_zip64_layout in *. ok_steps H1. ok_steps H2. counts.
  rewrite some_ok in *. bodies H1 H2 FormatZip64. unfold archive_zip64_covering in *.
  evidences F1. peels He. apply app_nil_eq in He.
  eapply (encode_each_free _ _ _ _ _ _ _ _ _ zip64_member_free) in He as [Em _];
    [|done|done|by apply members_of_format|apply members_of_format; congruence|lia].
  apply (same_layout_intro FormatZip64); try done. rewrite V1, V2. f_equal. record_eq.
Qed.

Lemma tar_layout_bind :
  format ir1 = TarUstar -> encode_tar_layout ir1 = Ok p -> encode_tar_layout ir2 = Ok p ->
  same_layout ir1 ir2.
Proof.
  intros F1 H1 H2. unfold encode_tar_layout in *.
  rewrite decide_True in H1 by done. rewrite decide_True in H2 by congruence.
  ok_steps H1. ok_steps H2. bodies H1 H2 TarUstar.
  destruct (tar_body_free ir1 ir2 a a0 [] [] (ok_members _ ok1) (ok_members _ ok2)
    (covering_ok _ ok1) (covering_ok _ ok2) ltac:(by rewrite !app_nil_r, He) TarUstar
    ltac:(by left) Hs Hs0) as (Hc & _ & Hm).
  unfold tar_covering in Hc. evidences F1. apply (same_layout_intro TarUstar); try done; congruence.
Qed.

Lemma pax_layout_bind :
  format ir1 = FormatTarPax -> encode_tar_pax_layout ir1 = Ok p ->
  encode_tar_pax_layout ir2 = Ok p -> same_layout ir1 ir2.
Proof.
  intros F1 H1 H2. unfold encode_tar_pax_layout in *.
  rewrite decide_True in H1 by done. rewrite decide_True in H2 by congruence.
  ok_steps H1. ok_steps H2. bodies H1 H2 FormatTarPax.
  destruct (pax_body_free ir1 ir2 a a0 [] [] (ok_members _ ok1) (ok_members _ ok2)
    (covering_ok _ ok1) (covering_ok _ ok2) ltac:(by rewrite !app_nil_r, He) FormatTarPax
    ltac:(by left) (extensions_ok _ ok1) (extensions_ok _ ok2) Hs Hs0) as [(Hc & _ & Hm) Hx].
  unfold tar_covering, pax_extensions, archive_pax_evidence in *. evidences F1. simpl in *.
  apply (same_layout_intro FormatTarPax); try done. rewrite V1, V2. f_equal.
  destruct pax, pax0; simpl in *; congruence.
Qed.
Lemma gnu_layout_bind :
  format ir1 = FormatTarGnuLongName -> encode_tar_gnu_longname_layout ir1 = Ok p ->
  encode_tar_gnu_longname_layout ir2 = Ok p -> same_layout ir1 ir2.
Proof.
  intros F1 H1 H2. unfold encode_tar_gnu_longname_layout in *.
  rewrite decide_True in H1 by done. rewrite decide_True in H2 by congruence.
  ok_steps H1. ok_steps H2. bodies H1 H2 FormatTarGnuLongName.
  destruct (gnu_body_free ir1 ir2 a a0 [] [] (ok_members _ ok1) (ok_members _ ok2)
    (covering_ok _ ok1) (covering_ok _ ok2) ltac:(by rewrite !app_nil_r, He) FormatTarGnuLongName
    ltac:(by left) (carriers_ok _ ok1) (carriers_ok _ ok2) Hs Hs0) as [(Hc & _ & Hm) Hx].
  unfold tar_covering, gnu_longname_carriers, archive_gnu_evidence in *. evidences F1. simpl in *.
  apply (same_layout_intro FormatTarGnuLongName); try done. rewrite V1, V2. f_equal.
  destruct gnu, gnu0; simpl in *; congruence.
Qed.

(** *** Wrapped layouts *)

Lemma gzip_evidence_ok ir : archive_ok ir -> on_option gzip_ok (gzip_evidence ir).
Proof.
  intros [_ _ _ _ He]. unfold gzip_evidence. destruct (evidence ir); simpl in *; destruct_and?; done.
Qed.
Lemma zstd_evidence_ok ir : archive_ok ir -> on_option zstd_ok (zstd_evidence ir).
Proof.
  intros [_ _ _ _ He]. unfold zstd_evidence. destruct (evidence ir); simpl in *; destruct_and?; done.
Qed.
Lemma xz_evidence_ok ir : archive_ok ir -> on_option xz_ok (xz_evidence ir).
Proof.
  intros [_ _ _ _ He]. unfold xz_evidence. destruct (evidence ir); simpl in *; destruct_and?; done.
Qed.
Lemma bzip2_evidence_ok ir : archive_ok ir -> on_option bzip2_ok (bzip2_evidence ir).
Proof.
  intros [_ _ _ _ He]. unfold bzip2_evidence. destruct (evidence ir); simpl in *; destruct_and?; done.
Qed.

Lemma same_wrapped_intro f :
  format ir1 = f -> f <> SevenZCopy -> evidence ir1 = evidence ir2 ->
  map layout_facts (sorted_members ir1) = map layout_facts (sorted_members ir2) ->
  source_digest ir1 = source_digest ir2 -> same_layout ir1 ir2.
Proof.
  intros Hf Hb He Hm Hs. split; [done|done| |done|congruence].
  unfold layout_members. rewrite <- F, Hf. by rewrite !decide_False by done.
Qed.

(** Both runs of a wrapped layout, split into header and inner body. *)
Ltac wrapped_runs H1 H2 f :=
  apply wrapped_layout_ok in H1 as (h1 & i1 & H1 & I1 & E1);
  apply wrapped_layout_ok in H2 as (h2 & i2 & H2 & I2 & E2);
  rewrite E2 in E1; apply preimage_inj in E1 as [_ He]; [|by apply (layout_label_no_space f)..].

Lemma wrapped_tar_bind {E} f wrapper (get : ArchiveIR -> option E) :
  is_plain_tar f -> f <> TarUstar ->
  (forall b1 b2 r s, b1 ++ r = b2 ++ s -> wrapper ir1 = Ok b1 -> wrapper ir2 = Ok b2 ->
     get ir1 = get ir2 /\ source_digest ir1 = source_digest ir2 /\ r = s) ->
  (forall c, format ir1 = f -> get ir1 = get ir2 -> tar_covering ir1 = Some c ->
     tar_covering ir2 = Some c -> evidence ir1 = evidence ir2) ->
  format ir1 = f ->
  wrapped_layout ir1 f (layout_label f) wrapper tar_layout_body = Ok p ->
  wrapped_layout ir2 f (layout_label f) wrapper tar_layout_body = Ok p ->
  same_layout ir1 ir2.
Proof.
  intros Hf Hne Hw Hev F1 H1 H2. wrapped_runs H1 H2 f.
  apply eq_sym, Hw in He as (Hg & Hsrc & Ht); [|done|done]. apply push_bytes_tail in Ht.
  destruct (tar_body_free ir1 ir2 i1 i2 [] [] (ok_members _ ok1) (ok_members _ ok2)
    (covering_ok _ ok1) (covering_ok _ ok2) ltac:(by rewrite !app_nil_r) f Hf I1 I2)
    as (Hc & _ & Hm).
  unfold tar_layout_body in I1. ok_step I1. apply some_ok in Hs.
  apply (same_wrapped_intro f); try done; [destruct_or! Hf; congruence|].
  eapply Hev; try done. congruence.
Qed.
(** The evidence of two archives of one wrapped-TAR format. *)
Ltac wrapped_evidence :=
  intros c G1 Hg T1 T2; pose proof F as G2; rewrite G1 in G2; unfold format in G1, G2;
  unfold tar_covering, gzip_evidence, zstd_evidence, xz_evidence, bzip2_evidence in *;
  destruct (evidence ir1); try discriminate; destruct (evidence ir2); try discriminate;
  congruence.

Lemma gzip_tar_layout_bind :
  format ir1 = TarGzipUstar -> encode_tar_gzip_layout ir1 = Ok p ->
  encode_tar_gzip_layout ir2 = Ok p -> same_layout ir1 ir2.
Proof.
  apply (wrapped_tar_bind TarGzipUstar _ gzip_evidence); [unfold is_plain_tar; tauto|done| |].
  - intros. eapply gzip_header_free; eauto using gzip_evidence_ok.
  - wrapped_evidence.
Qed.

Lemma zstd_tar_layout_bind :
  format ir1 = TarZstdUstar -> encode_tar_zstd_layout ir1 = Ok p ->
  encode_tar_zstd_layout ir2 = Ok p -> same_layout ir1 ir2.
Proof.
  apply (wrapped_tar_bind TarZstdUstar _ zstd_evidence); [unfold is_plain_tar; tauto|done| |].
  - intros. eapply zstd_header_free; eauto using zstd_evidence_ok.
  - wrapped_evidence.
Qed.

Lemma xz_tar_layout_bind :
  format ir1 = TarXzUstar -> encode_tar_xz_layout ir1 = Ok p ->
  encode_tar_xz_layout ir2 = Ok p -> same_layout ir1 ir2.
Proof.
  apply (wrapped_tar_bind TarXzUstar _ xz_evidence); [unfold is_plain_tar; tauto|done| |].
  - intros. eapply xz_header_free; eauto using xz_evidence_ok.
  - wrapped_evidence.
Qed.

Lemma bzip2_tar_layout_bind :
  format ir1 = TarBzip2Ustar -> encode_tar_bzip2_layout ir1 = Ok p ->
  encode_tar_bzip2_layout ir2 = Ok p -> same_layout ir1 ir2.
Proof.
  apply (wrapped_tar_bind TarBzip2Ustar _ bzip2_evidence); [unfold is_plain_tar; tauto|done| |].
  - intros. eapply bzip2_header_free; eauto using bzip2_evidence_ok.
  - wrapped_evidence.
Qed.

Lemma gzip_pax_layout_bind :
  format ir1 = FormatTarGzipPax -> encode_tar_gzip_pax_layout ir1 = Ok p ->
  encode_tar_gzip_pax_layout ir2 = Ok p -> same_layout ir1 ir2.
Proof.
  intros F1 H1 H2. wrapped_runs H1 H2 FormatTarGzipPax.
  apply eq_sym in He.
  apply (gzip_header_free ir1 ir2) in He as (Hg & Hsrc & Ht); eauto using gzip_evidence_ok.
  apply push_bytes_tail in Ht.
  destruct (pax_body_free ir1 ir2 i1 i2 [] [] (ok_members _ ok1) (ok_members _ ok2)
    (covering_ok _ ok1) (covering_ok _ ok2) ltac:(by rewrite !app_nil_r) FormatTarGzipPax
    ltac:(by right) (extensions_ok _ ok1) (extensions_ok _ ok2) I1 I2) as [(Hc & _ & Hm) Hx].
  unfold tar_covering, pax_extensions, archive_pax_evidence, gzip_evidence in *. evidences F1.
  simpl in *. apply (same_wrapped_intro FormatTarGzipPax); try done. rewrite V1, V2. f_equal.
  destruct pax, pax0; simpl in *; congruence.
Qed.

Lemma gzip_gnu_layout_bind :
  format ir1 = FormatTarGzipGnuLongName -> encode_tar_gzip_gnu_longname_layout ir1 = Ok p ->
  encode_tar_gzip_gnu_longname_layout ir2 = Ok p -> same_layout ir1 ir2.
Proof.
  intros F1 H1 H2. wrapped_runs H1 H2 FormatTarGzipGnuLongName.
  apply eq_sym in He.
  apply (gzip_header_free ir1 ir2) in He as (Hg & Hsrc & Ht); eauto using gzip_evidence_ok.
  apply push_bytes_tail in Ht.
  destruct (gnu_body_free ir1 ir2 i1 i2 [] [] (ok_members _ ok1) (ok_members _ ok2)
    (covering_ok _ ok1) (covering_ok _ ok2) ltac:(by rewrite !app_nil_r) FormatTarGzipGnuLongName
    ltac:(by right) (carriers_ok _ ok1) (carriers_ok _ ok2) I1 I2) as [(Hc & _ & Hm) Hx].
  unfold tar_covering, gnu_longname_carriers, archive_gnu_evidence, gzip_evidence in *.
  evidences F1. simpl in *. apply (same_wrapped_intro FormatTarGzipGnuLongName); try done.
  rewrite V1, V2. f_equal. destruct gnu, gnu0; simpl in *; congruence.
Qed.

Lemma sevenz_layout_bind :
  format ir1 = SevenZCopy -> encode_sevenz_layout ir1 = Ok p -> encode_sevenz_layout ir2 = Ok p ->
  same_layout ir1 ir2.
Proof.
  intros F1 H1 H2. unfold encode_sevenz_layout in *.
  rewrite decide_True in H1 by done. rewrite decide_True in H2 by congruence.
  ok_steps H1. ok_steps H2. counts. bodies H1 H2 SevenZCopy.
  pose proof (ok_members _ ok1). pose proof (ok_members _ ok2).
  pose proof (ok_source _ ok1) as S1. pose proof (ok_source _ ok2) as S2.
  pose proof (ok_profile _ ok1). pose proof (ok_profile _ ok2).
  repeat match goal with A : some (digest_sha256 _) = Ok _ |- _ => apply some_ok in A
  | A : some (sevenz_evidence _) = Ok _ |- _ => apply some_ok in A end.
  match goal with
  | A : digest_sha256 (source_digest ir1) = Some _, B : digest_sha256 (source_digest ir2) = Some _ |- _ =>
      pose proof (digest_of_source _ _ S1 A); pose proof (digest_of_source _ _ S2 B)
  end.
  unfold sevenz_evidence in *. evidences F1. destruct O1, O2.
  do 2 peel_digest He. peels He.
  eapply (encode_each_free _ _ _ _ _ _ _ _ _ folder_free) in He as [Ef He];
    [|done|done|done|done|lia].
  rewrite !map_id in Ef. peels He. apply app_nil_eq in He.
  eapply (encode_each_free _ _ _ _ _ _ _ _ _ sevenz_member_free) in He as [Em _];
    [|done|done|done|done|lia].
  split; [done| | | |by intros].
  - rewrite V1, V2. f_equal. record_eq.
  - unfold layout_members. by rewrite <- F, F1, !decide_True by done.
  - intros _. subst. by eapply source_digest_eq.
Qed.
End Bind.

(** ** The published roots *)

#[local] Arguments le_bytes : simpl never.

Lemma layout_bytes_bind ir1 ir2 p :
  archive_ok ir1 -> archive_ok ir2 -> layout_bytes ir1 = Ok p -> layout_bytes ir2 = Ok p ->
  same_layout ir1 ir2.
Proof.
  intros O1 O2 H1 H2.
  destruct (layout_bytes_preimage _ _ H1) as [x ->], (layout_bytes_preimage _ _ H2) as [y Hy].
  apply preimage_inj in Hy as [Hf _]; [|apply layout_label_no_space..].
  apply layout_label_inj in Hf as F. unfold layout_bytes in H1, H2. rewrite <- F in H2.
  destruct (format ir1) eqn:F1; assert (format ir1 = format ir2) by congruence;
    eauto using zip_layout_bind, zip64_layout_bind, tar_layout_bind, gzip_tar_layout_bind,
      pax_layout_bind, gnu_layout_bind, gzip_pax_layout_bind, gzip_gnu_layout_bind,
      zstd_tar_layout_bind, xz_tar_layout_bind, bzip2_tar_layout_bind, sevenz_layout_bind.
Qed.

(** Two different inputs with one digest. *)
Definition collision `{!Sha256} : Prop := exists x y : list byte, x <> y /\ sha256 x = sha256 y.

Lemma hex_sha256_inj `{!Sha256} x y : hex_sha256 x = hex_sha256 y -> sha256 x = sha256 y.
Proof.
  unfold hex_sha256. intros He. apply (f_equal hex_pairs) in He.
  rewrite !hex_pairs_hex in He. by injection He.
Qed.

(** Equal digests come from equal inputs, or from a collision. *)
Lemma digest_inj `{!Sha256} x y : hex_sha256 x = hex_sha256 y -> x = y \/ collision.
Proof.
  intros He%hex_sha256_inj. destruct (decide (x = y)); [by left|right]. by exists x, y.
Qed.

(** C15: A layout root binds the whole layout: two well-formed archives with the
    same available root are of the same format, with the same container
    evidence, the same facts of every member in canonical order and, where the
    layout names it, the same source, or else exhibit a SHA-256 collision. *)
Theorem layout_root_binds `{!Sha256} ir1 ir2 version hex :
  archive_ok ir1 -> archive_ok ir2 ->
  layout_root ir1 = Some (SealrTree version hex) ->
  layout_root ir2 = Some (SealrTree version hex) ->
  same_layout ir1 ir2 \/ collision.
Proof.
  intros O1 O2 H1 H2. unfold layout_root in *.
  destruct (layout_bytes ir1) as [p1|[]] eqn:E1; simplify_eq.
  destruct (layout_bytes ir2) as [p2|[]] eqn:E2; simplify_eq.
  match goal with A : hex_sha256 _ = hex_sha256 _ |- _ => apply digest_inj in A as [<-|?] end;
    [left|by right]. by eapply layout_bytes_bind.
Qed.

(** ** Order *)

Lemma path_cmp_antisym x y : path_cmp y x = CompOpp (path_cmp x y).
Proof. apply str_cmp_antisym. Qed.
Lemma path_cmp_trans x y z : cmp_le path_cmp x y -> cmp_le path_cmp y z -> cmp_le path_cmp x z.
Proof. apply str_cmp_le_trans. Qed.

(** Members with distinct paths are told apart by them. *)
Lemma NoDup_paths ms m n :
  NoDup (map canonical_path ms) -> m ∈ ms -> n ∈ ms -> canonical_path m = canonical_path n -> m = n.
Proof.
  intros Hn Hm Hk He. apply list_elem_of_lookup in Hm as [i Hi], Hk as [j Hj].
  assert (i = j) as <-; [|congruence]. eapply (NoDup_lookup (map canonical_path ms)); [done| |].
  - by rewrite list_lookup_fmap, Hi.
  - rewrite list_lookup_fmap, Hj. simpl. by rewrite He.
Qed.

(** Canonical order depends only on the set of members. *)
Lemma sorted_members_perm ir1 ir2 :
  members ir1 ≡ₚ members ir2 -> NoDup (map canonical_path (members ir1)) ->
  sorted_members ir1 = sorted_members ir2.
Proof.
  intros Hp Hn. apply sort_by_unique; [apply path_cmp_antisym|apply path_cmp_trans|done|].
  intros x y Hx Hy He. apply str_cmp_eq in He. by apply (NoDup_paths (members ir1)).
Qed.

(** The layout of every format but 7z is the same for every order of the
    members: reading order is not part of the identity. *)
Theorem layout_root_order_free `{!Sha256} ir ms :
  members ir ≡ₚ ms -> NoDup (map canonical_path (members ir)) -> format ir <> SevenZCopy ->
  layout_root {| schema := schema ir; profile := profile ir; profile_digest := profile_digest ir;
                 source_digest := source_digest ir; evidence := evidence ir; members := ms |}
  = layout_root ir.
Proof.
  intros Hp Hn Hf. set (ir' := {| members := ms |}).
  assert (Hs : sorted_members ir' = sorted_members ir).
  { symmetry. by apply sorted_members_perm. }
  unfold layout_root. change (format ir') with (format ir).
  enough (layout_bytes ir' = layout_bytes ir) as -> by done.
  unfold layout_bytes. change (format ir') with (format ir).
  destruct (format ir) eqn:F; try done;
    unfold encode_layout, encode_zip64_layout, encode_tar_layout, encode_tar_pax_layout,
      encode_tar_gnu_longname_layout, encode_tar_gzip_layout, encode_tar_gzip_pax_layout,
      encode_tar_gzip_gnu_longname_layout, encode_tar_zstd_layout, encode_tar_xz_layout,
      encode_tar_bzip2_layout, wrapped_layout, tar_layout_body, tar_pax_layout_body,
      tar_gnu_longname_layout_body; by rewrite Hs.
Qed.

(** ** Content *)

(** The tree a content root names: every path with its kind, size and digest. *)
Definition content_facts (m : IrMember) : str * MemberKind * option Z * option str :=
  (canonical_path m, ir_kind m, actual_uncomp_size m, content_sha256 m).

Definition content_ok (m : IrMember) : Prop :=
  short (canonical_path m) /\ on_option (fits 8) (actual_uncomp_size m)
  /\ on_option hex_digest (content_sha256 m).

Definition content_verified (m : IrMember) : bool :=
  is_verified m && bool_decide (is_Some (actual_uncomp_size m))
  && bool_decide (is_Some (content_sha256 m ≫= parse_hex32)).

Lemma content_member_free x y r s :
  content_ok x -> content_ok y -> content_verified x = true -> content_verified y = true ->
  encode_content_member x ++ r = encode_content_member y ++ s ->
  content_facts x = content_facts y /\ r = s.
Proof.
  unfold content_verified. intros (P1 & Z1 & D1) (P2 & Z2 & D2) V1 V2 He.
  rewrite !andb_true_iff, !bool_decide_eq_true in V1, V2.
  destruct V1 as [[_ [n1 N1]] [h1 X1]], V2 as [[_ [n2 N2]] [h2 X2]].
  unfold encode_content_member in He. rewrite N1, N2, X1, X2 in He. rewrite N1 in Z1. rewrite N2 in Z2.
  destruct (content_sha256 x) as [d1|] eqn:C1, (content_sha256 y) as [d2|] eqn:C2;
    try done. simpl in X1, X2. cbn [on_option default] in *. peels He.
  unfold Datatypes.id in *. rewrite <- some_ok in X1, X2. peel_digest He. split; [|done]. unfold content_facts. congruence.
Qed.

Lemma content_members_free l1 l2 r s :
  Forall content_ok l1 -> Forall content_ok l2 ->
  forallb content_verified l1 = true -> forallb content_verified l2 = true ->
  length l1 = length l2 ->
  concat (map encode_content_member l1) ++ r = concat (map encode_content_member l2) ++ s ->
  map content_facts l1 = map content_facts l2.
Proof.
  intros H1. revert l2. induction H1 as [|x l1 Hx _ IH]; intros [|y l2] H2 V1 V2 Hl He; try done.
  apply Forall_cons in H2 as [Hy H2]. cbn [forallb] in V1, V2.
  apply andb_true_iff in V1 as [? V1], V2 as [? V2].
  cbn [map concat] in He. rewrite <- !app_assoc in He.
  apply content_member_free in He as [E He]; try done. simpl in Hl.
  apply IH in He as El; [|done|done|done|lia]. simpl. by rewrite E, El.
Qed.

(** Encodings depend on the facts alone. *)
Lemma encode_content_facts x y :
  content_facts x = content_facts y -> encode_content_member x = encode_content_member y.
Proof. unfold content_facts, encode_content_member. intros [= -> -> -> ->]. done. Qed.

Definition facts_path (f : str * MemberKind * option Z * option str) : str := f.1.1.1.
Definition facts_cmp f g : comparison := str_cmp (facts_path f) (facts_path g).

Lemma sorted_content_facts ir1 ir2 :
  map content_facts (members ir1) ≡ₚ map content_facts (members ir2) ->
  NoDup (map canonical_path (members ir1)) ->
  map content_facts (sorted_members ir1) = map content_facts (sorted_members ir2).
Proof.
  intros Hp Hn. unfold sorted_members. rewrite !(map_sort_by _ _ facts_cmp) by done.
  apply sort_by_unique; [intros; apply str_cmp_antisym|intros ???; apply str_cmp_le_trans|done|].
  intros x y Hx Hy He. apply str_cmp_eq in He.
  apply list_elem_of_fmap in Hx as (m & -> & Hm), Hy as (n & -> & Hk).
  f_equal. by apply (NoDup_paths (members ir1)).
Qed.

Lemma forallb_perm {A} (P : A -> bool) l k : l ≡ₚ k -> forallb P l = forallb P k.
Proof. induction 1; simpl; try congruence. by rewrite !andb_assoc, (andb_comm (P y)). Qed.

Section Content.
Context `{!Sha256}.

Lemma content_root_ok ir v h :
  content_root ir = Some (SealrTree v h) ->
  forallb content_verified (members ir) = true /\ v = 1%nat
  /\ Z.of_nat (length (members ir)) <= u32_max
  /\ h = hex_sha256 (preimage CONTENT_LABEL (push_u32 (Z.of_nat (length (members ir)))
           ++ concat (map encode_content_member (sorted_members ir)))).
Proof.
  unfold content_root. fold content_verified. case_match eqn:V; [|done].
  case_match eqn:E; [|done]. intros [= <- <-]. unfold encode_content in E. ok_steps E.
  apply Ok_inj in E as <-. unfold expect, u32_len, sorted_members in *. rewrite length_sort_by in *.
  case_match eqn:B; [|done]. breflect. simplify_eq/=. done.
Qed.

(** C14: The content root names the tree and nothing else: two archives of
    verified members with distinct paths, of any formats, have the same content
    root exactly when they hold the same paths with the same kinds, sizes and
    content digests, in any order, unless SHA-256 collides. *)
Theorem content_root_iff ir1 ir2 v1 h1 v2 h2 :
  Forall content_ok (members ir1) -> Forall content_ok (members ir2) ->
  NoDup (map canonical_path (members ir1)) ->
  content_root ir1 = Some (SealrTree v1 h1) -> content_root ir2 = Some (SealrTree v2 h2) ->
  (map content_facts (members ir1) ≡ₚ map content_facts (members ir2) ->
     content_root ir1 = content_root ir2)
  /\ (content_root ir1 = content_root ir2 ->
        map content_facts (members ir1) ≡ₚ map content_facts (members ir2) \/ collision).
Proof.
  intros O1 O2 Hn R1 R2.
  apply content_root_ok in R1 as R1'. destruct R1' as (V1 & -> & L1 & ->).
  apply content_root_ok in R2 as R2'. destruct R2' as (V2 & -> & L2 & ->).
  rewrite R1, R2. split.
  - intros Hp. do 3 f_equal. pose proof (Permutation_length Hp) as Hl. rewrite !length_map in Hl.
    rewrite Hl. do 3 f_equal. pose proof (sorted_content_facts _ _ Hp Hn) as Hs.
    revert Hs. generalize (sorted_members ir1) (sorted_members ir2). intros l.
    induction l as [|x l IH]; intros [|y k] He; try done. simpl in He.
    injection He as E1 E2 E3 E4 He. cbn [map]. rewrite (IH k He). f_equal.
    apply encode_content_facts. unfold content_facts. congruence.
  - intros Hr. apply (f_equal (fun r => r ≫= root_hex)), (inj Some) in Hr.
    apply digest_inj in Hr as [He|?]; [left|by right].
    apply preimage_inj in He as [_ He]; [|by apply no_space; vm_compute..].
    assert (fits 4 (Z.of_nat (length (members ir1)))) by (unfold fits, u32_max in *; simpl; lia).
    assert (fits 4 (Z.of_nat (length (members ir2)))) by (unfold fits, u32_max in *; simpl; lia).
    peels He. apply app_nil_eq in He. apply content_members_free in He.
    + rewrite <- (sort_by_perm path_cmp (members ir1)), <- (sort_by_perm path_cmp (members ir2)).
      by unfold sorted_members in He; rewrite He.
    + by apply sorted_members_ok.
    + by apply sorted_members_ok.
    + rewrite (forallb_perm _ _ (members ir1)); [done|apply sort_by_perm].
    + rewrite (forallb_perm _ _ (members ir2)); [done|apply sort_by_perm].
    + unfold sorted_members. rewrite !length_sort_by. lia.
Qed.
End Content.

(** ** Witnesses *)

Definition example_sha : str := concat (map hex_byte (replicate 32 x00)).
Definition example_member (path : string) (off : Z) : IrMember :=
  {| ir_raw_name_bytes := lit path; decoded_name := lit path; canonical_path := lit path;
     ir_components := [lit path]; ir_kind := KindFile; declared_uncomp_size := 5;
     ir_evidence := EvTar {| te_header := mkrange off 512; te_payload := mkrange (off + 512) 5;
                             te_padding := mkrange (off + 517) 507; te_mode := 420; te_mtime := 0;
                             te_header_checksum := 4000; te_header_sha256 := example_sha |};
     actual_uncomp_size := Some 5; actual_crc := Some 7; content_sha256 := Some example_sha;
     verification := Verified; normalization_actions := [DropDotComponent 0] |}.
Definition example_archive (ms : list IrMember) : ArchiveIR :=
  {| schema := "sealr.ir.tar.v1"; profile := "sealr.profile.tar.ustar-portable.v1";
     profile_digest := example_sha; source_digest := Available example_sha;
     evidence := ArTar {| tc_member_records := mkrange 0 2048; tc_terminator := mkrange 2048 1024;
                          tc_trailing_zeros := mkrange 3072 0 |};
     members := ms |}.
Definition example_ab : ArchiveIR :=
  example_archive [example_member "a" 0; example_member "b" 1024].
Definition example_ba : ArchiveIR :=
  example_archive [example_member "b" 1024; example_member "a" 0].

Lemma example_digest : hex_digest example_sha.
Proof. by exists (replicate 32 x00). Qed.

Lemma example_member_ok path off :
  path = "a"%string \/ path = "b"%string -> off = 0 \/ off = 1024 ->
  member_ok (example_member path off).
Proof.
  intros [->| ->] [->| ->]; (split; [done|done|done|split; [done|by apply Forall_singleton]|]);
    simpl; split; try done; apply example_digest.
Qed.

Lemma example_archive_ok ms :
  ms = members example_ab \/ ms = members example_ba -> archive_ok (example_archive ms).
Proof.
  intros [->| ->]; split; simpl; try apply example_digest; try done;
    try (repeat (apply Forall_cons_2; [first [apply example_member_ok; auto|done]|]);
         by apply Forall_nil_2); by split.
Qed.

Lemma layout_root_binds_witness :
  let _ := null_sha256 in
  layout_root example_ab = layout_root example_ba
  /\ (same_layout example_ab example_ba \/ collision).
Proof.
  intros sha. assert (H1 : @layout_root sha example_ba = @layout_root sha example_ab)
    by (vm_compute; reflexivity).
  assert (Hr : is_Some (@layout_root sha example_ab ≫= root_hex)) by (vm_compute; by eexists).
  split; [done|]. destruct (@layout_root sha example_ab) as [[v h|]|] eqn:E;
    [|by destruct Hr|by destruct Hr].
  apply (layout_root_binds example_ab example_ba v h);
    [apply example_archive_ok; by left|apply example_archive_ok; by right|done|congruence].
Defined.

Lemma layout_root_order_free_witness :
  let _ := null_sha256 in layout_root example_ba = layout_root example_ab.
Proof.
  intros sha. apply (layout_root_order_free example_ab (members example_ba));
    [apply perm_swap|by apply (bool_decide_unpack _); vm_compute|done].
Defined.

Lemma content_root_iff_witness :
  let _ := null_sha256 in content_root example_ab = content_root example_ba.
Proof.
  intros sha. destruct (@content_root sha example_ab) as [[v1 h1|]|] eqn:E1;
    [|by vm_compute in E1..].
  destruct (@content_root sha example_ba) as [[v2 h2|]|] eqn:E2; [|by vm_compute in E2..].
  rewrite <- E1, <- E2.
  apply (content_root_iff example_ab example_ba v1 h1 v2 h2); try done.
  - repeat constructor; try done; apply example_digest.
  - repeat constructor; try done; apply example_digest.
  - by apply (bool_decide_unpack _); vm_compute.
  - apply perm_swap.
Defined.
