(* ===== verification/Crc.v ===== *)
(** * The checksums Sealr computes itself ([xz.rs], [bzip2.rs])

    The reflected CRC64 of the XZ format and the most-significant-bit-first
    CRC32 of bzip2 are table-driven.  The reference is the shift register that
    takes one bit at a time; the tables are proved to be eight of its steps. *)

From S2P Require Import Prelude ByteFields.
Local Open Scope Z_scope.

(** ** The source *)

Definition CRC64_POLY : Z := 0xC96C5795D7870F42.
Definition BZIP2_CRC32_POLY : Z := 0x04C11DB7.

(** One iteration of the inner loops that fill the tables. *)
Definition crc64_bit (value : Z) : Z :=
  if negb (Z.land value 1 =? 0) then Z.lxor (Z.shiftr value 1) CRC64_POLY else Z.shiftr value 1.
Definition bzip2_bit (value : Z) : Z :=
  let shifted := Z.land (Z.shiftl value 1) u32_max in
  if negb (Z.land value 0x80000000 =? 0) then Z.lxor shifted BZIP2_CRC32_POLY else shifted.

Definition CRC64_TABLE : list Z := map (fun index => Nat.iter 8 crc64_bit index) (seqZ 0 256).
Definition BZIP2_CRC32_TABLE : list Z :=
  map (fun index => Nat.iter 8 bzip2_bit (Z.shiftl index 24)) (seqZ 0 256).

(** [Crc64]: its state is the register. *)
Definition crc64_new : Z := u64_max.
Definition crc64_update_byte (value : Z) (b : byte) : Z :=
  let index := Z.lxor (Z.land value 255) (u8 b) in
  Z.lxor (default 0 (CRC64_TABLE !! Z.to_nat index)) (Z.shiftr value 8).
Definition crc64_update (value : Z) (bytes : list byte) : Z := foldl crc64_update_byte value bytes.
Definition crc64_finalize (value : Z) : Z := Z.lxor value u64_max.

(** [Bzip2Crc32]. *)
Definition bzip2_new : Z := u32_max.
Definition bzip2_update_byte (value : Z) (b : byte) : Z :=
  let index := Z.lxor (Z.land (Z.shiftr value 24) 255) (u8 b) in
  Z.lxor (Z.land (Z.shiftl value 8) u32_max) (default 0 (BZIP2_CRC32_TABLE !! Z.to_nat index)).
Definition bzip2_update (value : Z) (bytes : list byte) : Z := foldl bzip2_update_byte value bytes.
Definition bzip2_finalize (value : Z) : Z := Z.lxor value u32_max.

(** ** The reference: one bit of the message at a time *)

(** The bits of a byte, least and most significant first. *)
Definition lsb_first (b : byte) : list bool := map (fun i => Z.testbit (u8 b) i) [0; 1; 2; 3; 4; 5; 6; 7].
Definition msb_first (b : byte) : list bool := map (fun i => Z.testbit (u8 b) i) [7; 6; 5; 4; 3; 2; 1; 0].

(** The register takes a message bit at its low (high) end and shifts. *)
Definition serial64 (value : Z) (bit : bool) : Z := crc64_bit (Z.lxor value (Z.b2z bit)).
Definition serial32 (value : Z) (bit : bool) : Z := bzip2_bit (Z.lxor value (Z.shiftl (Z.b2z bit) 31)).
Definition crc64_serial (value : Z) (bytes : list byte) : Z := foldl serial64 value (concat (map lsb_first bytes)).
Definition bzip2_serial (value : Z) (bytes : list byte) : Z := foldl serial32 value (concat (map msb_first bytes)).

(** ** Shifts are linear *)

Lemma u8_testbit_high b i : 8 <= i -> Z.testbit (u8 b) i = false.
Proof.
  intros Hi. apply Z.bits_above_log2; [apply u8_range|].
  pose proof (u8_range b). destruct (Z.eq_dec (u8 b) 0) as [->|]; [simpl; lia|].
  apply Z.log2_lt_pow2; [lia|]. assert (256 <= 2 ^ i) by (change 256 with (2 ^ 8); apply Z.pow_le_mono_r; lia). lia.
Qed.
Lemma land_ne0 a i : 0 <= i -> negb (Z.land a (2 ^ i) =? 0) = Z.testbit a i.
Proof.
  intros Hi. destruct (Z.testbit a i) eqn:Hb.
  - apply negb_true_iff, Z.eqb_neq. intros Hz. apply (f_equal (fun z => Z.testbit z i)) in Hz.
    rewrite Z.land_spec, Z.bits_0, Hb, Z.pow2_bits_true in Hz by done. done.
  - apply negb_false_iff, Z.eqb_eq, Z.bits_inj'. intros n Hn. rewrite Z.land_spec, Z.bits_0.
    destruct (Z.eq_dec n i) as [->|]; [by rewrite Hb|]. by rewrite Z.pow2_bits_false, andb_false_r by done.
Qed.

Lemma crc64_bit_lxor a b : crc64_bit (Z.lxor a b) = Z.lxor (crc64_bit a) (crc64_bit b).
Proof.
  unfold crc64_bit. rewrite !(land_ne0 _ 0) by lia. rewrite Z.lxor_spec, Z.shiftr_lxor.
  destruct (Z.testbit a 0), (Z.testbit b 0); simpl xorb; cbv iota.
  - apply Z.bits_inj'. intros n Hn. rewrite !Z.lxor_spec. by repeat destruct (Z.testbit _ n).
  - apply Z.bits_inj'. intros n Hn. rewrite !Z.lxor_spec. by repeat destruct (Z.testbit _ n).
  - by rewrite Z.lxor_assoc.
  - done.
Qed.
Lemma bzip2_bit_lxor a b : bzip2_bit (Z.lxor a b) = Z.lxor (bzip2_bit a) (bzip2_bit b).
Proof.
  unfold bzip2_bit. change 0x80000000 with (2 ^ 31). rewrite !(land_ne0 _ 31) by lia.
  rewrite Z.lxor_spec, Z.shiftl_lxor.
  assert (forall x y, Z.land (Z.lxor x y) u32_max = Z.lxor (Z.land x u32_max) (Z.land y u32_max)) as ->.
  { intros x y. apply Z.bits_inj'. intros n Hn. rewrite !Z.lxor_spec, !Z.land_spec, Z.lxor_spec.
    by repeat destruct (Z.testbit _ n). }
  destruct (Z.testbit a 31), (Z.testbit b 31); simpl xorb; cbv iota; cbv zeta;
    apply Z.bits_inj'; intros n Hn; rewrite !Z.lxor_spec; by repeat destruct (Z.testbit _ n).
Qed.
Lemma iter_lxor (f : Z -> Z) n a b :
  (forall a b, f (Z.lxor a b) = Z.lxor (f a) (f b)) ->
  Nat.iter n f (Z.lxor a b) = Z.lxor (Nat.iter n f a) (Nat.iter n f b).
Proof. intros Hf. induction n as [|n IH]; simpl; [done|]. by rewrite IH, Hf. Qed.

(** Bits that have not reached the end of the register are only shifted. *)
Lemma crc64_bit_even a : Z.testbit a 0 = false -> crc64_bit a = Z.shiftr a 1.
Proof. intros Ha. unfold crc64_bit. by rewrite (land_ne0 _ 0), Ha by lia. Qed.
Lemma bzip2_bit_low a : Z.testbit a 31 = false -> bzip2_bit a = Z.land (Z.shiftl a 1) u32_max.
Proof. intros Ha. unfold bzip2_bit. change 0x80000000 with (2 ^ 31). by rewrite (land_ne0 _ 31), Ha by lia. Qed.

Lemma crc64_shift_high n a :
  (forall i, 0 <= i < Z.of_nat n -> Z.testbit a i = false) ->
  Nat.iter n crc64_bit a = Z.shiftr a (Z.of_nat n).
Proof.
  induction n as [|n IH]; intros Ha; [by rewrite Z.shiftr_0_r|]. simpl. rewrite IH by (intros; apply Ha; lia).
  rewrite crc64_bit_even by (rewrite Z.shiftr_spec by lia; apply Ha; lia).
  rewrite Z.shiftr_shiftr by lia. f_equal. lia.
Qed.
Lemma bzip2_shift_low n a :
  (n <= 31)%nat -> (forall i, 32 - Z.of_nat n <= i -> Z.testbit a i = false) ->
  Nat.iter n bzip2_bit a = Z.shiftl a (Z.of_nat n).
Proof.
  induction n as [|n IH]; intros Hn Ha; [by rewrite Z.shiftl_0_r|]. simpl. rewrite IH by (try (intros; apply Ha); lia).
  rewrite bzip2_bit_low by (rewrite Z.shiftl_spec by lia; apply Ha; lia).
  apply Z.bits_inj'. intros i Hi. rewrite Z.land_spec. unfold u32_max. change 4294967295 with (Z.ones 32).
  destruct (Z.eq_dec i 0) as [->|Hi0]; [by rewrite !Z.shiftl_spec_low by lia|].
  rewrite (Z.shiftl_spec _ 1 i), (Z.shiftl_spec a _ (i - 1)), (Z.shiftl_spec a _ i) by lia.
  replace (i - 1 - Z.of_nat n) with (i - Z.of_nat (Datatypes.S n)) by lia.
  destruct (Z.ltb_spec i 32).
  - by rewrite Z.ones_spec_low, andb_true_r by lia.
  - rewrite Z.ones_spec_high, andb_false_r by lia. symmetry. apply Ha. lia.
Qed.

(** ** A table step is eight shifts *)

Lemma crc64_table i : 0 <= i < 256 -> default 0 (CRC64_TABLE !! Z.to_nat i) = Nat.iter 8 crc64_bit i.
Proof.
  intros Hi. unfold CRC64_TABLE. change (map ?f ?l) with (f <$> l). rewrite list_lookup_fmap, lookup_seqZ_lt by lia.
  cbn [fmap option_fmap option_map default from_option id]. f_equal. lia.
Qed.
Lemma bzip2_table i :
  0 <= i < 256 -> default 0 (BZIP2_CRC32_TABLE !! Z.to_nat i) = Nat.iter 8 bzip2_bit (Z.shiftl i 24).
Proof.
  intros Hi. unfold BZIP2_CRC32_TABLE. change (map ?f ?l) with (f <$> l). rewrite list_lookup_fmap, lookup_seqZ_lt by lia.
  cbn [fmap option_fmap option_map default from_option id]. do 2 f_equal. lia.
Qed.
Lemma low_byte_range a b : 0 <= Z.lxor (Z.land a 255) (u8 b) < 256.
Proof.
  assert (0 <= Z.lxor (Z.land a 255) (u8 b)) as H0.
  { apply Z.lxor_nonneg. rewrite Z.land_nonneg. pose proof (u8_range b). lia. }
  split; [done|]. change 255 with (Z.ones 8) in *. change 256 with (2 ^ 8).
  assert (forall i, 8 <= i -> Z.testbit (Z.lxor (Z.land a (Z.ones 8)) (u8 b)) i = false) as Hb.
  { intros i Hi. rewrite Z.lxor_spec, Z.land_spec, Z.ones_spec_high, andb_false_r by lia. by apply u8_testbit_high. }
  destruct (Z.ltb_spec (Z.lxor (Z.land a (Z.ones 8)) (u8 b)) (2 ^ 8)) as [Hlt|Hge]; [done|exfalso].
  set (v := Z.lxor _ _) in *. assert (0 < v) by lia.
  pose proof (Z.bit_log2 v ltac:(lia)) as Hlog. rewrite Hb in Hlog; [done|].
  apply Z.log2_le_pow2 in Hge; lia.
Qed.

(** The bits above the last byte, and the message byte put in. *)
Lemma crc64_update_byte_shifts v b : crc64_update_byte v b = Nat.iter 8 crc64_bit (Z.lxor v (u8 b)).
Proof.
  unfold crc64_update_byte. rewrite crc64_table by apply low_byte_range.
  set (low := Z.lxor (Z.land v 255) (u8 b)). set (high := Z.shiftl (Z.shiftr v 8) 8).
  assert (Z.lxor v (u8 b) = Z.lxor low high) as ->.
  { apply Z.bits_inj'. intros n Hn. unfold low, high. rewrite !Z.lxor_spec, Z.land_spec. change 255 with (Z.ones 8).
    destruct (Z.ltb_spec n 8).
    - rewrite Z.ones_spec_low, andb_true_r, Z.shiftl_spec_low, xorb_false_r by lia. done.
    - rewrite Z.ones_spec_high, andb_false_r, Z.shiftl_spec, Z.shiftr_spec, u8_testbit_high by lia.
      rewrite xorb_false_r, xorb_false_l. f_equal. lia. }
  rewrite iter_lxor by apply crc64_bit_lxor. f_equal.
  rewrite (crc64_shift_high 8); [|intros i Hi; unfold high; apply Z.shiftl_spec_low; lia].
  unfold high. change (Z.of_nat 8) with 8. apply Z.bits_inj'. intros n Hn.
  rewrite !Z.shiftr_spec, Z.shiftl_spec, Z.shiftr_spec by lia. f_equal. lia.
Qed.
Lemma bzip2_update_byte_shifts v b :
  0 <= v <= u32_max -> bzip2_update_byte v b = Nat.iter 8 bzip2_bit (Z.lxor v (Z.shiftl (u8 b) 24)).
Proof.
  intros Hv. unfold bzip2_update_byte. rewrite bzip2_table by apply low_byte_range.
  set (top := Z.lxor (Z.land (Z.shiftr v 24) 255) (u8 b)). set (rest := Z.land v (Z.ones 24)).
  assert (Hhigh : forall i, 32 <= i -> Z.testbit v i = false).
  { intros i Hi. rewrite <- (Z.mod_small v (2 ^ 32)) by (unfold u32_max in Hv; lia). by apply Z.mod_pow2_bits_high; lia. }
  assert (Z.lxor v (Z.shiftl (u8 b) 24) = Z.lxor rest (Z.shiftl top 24)) as ->.
  { apply Z.bits_inj'. intros n Hn. unfold top, rest. rewrite !Z.lxor_spec, Z.land_spec.
    destruct (Z.ltb_spec n 24).
    - by rewrite Z.ones_spec_low, andb_true_r, !Z.shiftl_spec_low by lia.
    - rewrite Z.ones_spec_high, andb_false_r, xorb_false_l, !Z.shiftl_spec, Z.lxor_spec, Z.land_spec by lia.
      rewrite Z.shiftr_spec by lia. replace (n - 24 + 24) with n by lia. change 255 with (Z.ones 8).
      destruct (Z.ltb_spec (n - 24) 8).
      + by rewrite Z.ones_spec_low, andb_true_r by lia.
      + by rewrite Z.ones_spec_high, andb_false_r, Hhigh by lia. }
  rewrite iter_lxor by apply bzip2_bit_lxor. f_equal.
  rewrite (bzip2_shift_low 8); [|lia|].
  2:{ intros i Hi. unfold rest. by rewrite Z.land_spec, Z.ones_spec_high, andb_false_r by lia. }
  unfold rest. change (Z.of_nat 8) with 8. apply Z.bits_inj'. intros n Hn. rewrite Z.land_spec.
  unfold u32_max. change 4294967295 with (Z.ones 32).
  destruct (Z.ltb_spec n 8); [by rewrite !Z.shiftl_spec_low by lia|].
  rewrite !Z.shiftl_spec, Z.land_spec by lia.
  destruct (Z.ltb_spec n 32).
  - by rewrite !Z.ones_spec_low, !andb_true_r by lia.
  - by rewrite !Z.ones_spec_high, !andb_false_r by lia.
Qed.

(** ** Eight message bits are a byte put in and eight shifts *)

Lemma serial64_byte v b : foldl serial64 v (lsb_first b) = Nat.iter 8 crc64_bit (Z.lxor v (u8 b)).
Proof.
  assert (Hb : u8 b = foldr (fun bit acc => Z.lxor (Z.b2z bit) (Z.shiftl acc 1)) 0 (lsb_first b)) by (by destruct b).
  assert (Hstep : forall bits w, foldl serial64 w bits
    = Nat.iter (length bits) crc64_bit (Z.lxor w (foldr (fun bit acc => Z.lxor (Z.b2z bit) (Z.shiftl acc 1)) 0 bits))).
  { induction bits as [|bit bits IH]; intros w; simpl; [by rewrite Z.lxor_0_r|].
    rewrite IH. set (acc := foldr _ 0 bits). unfold serial64 at 1.
    rewrite <- Nat.iter_succ, Nat.iter_succ_r. f_equal.
    rewrite <- Z.lxor_assoc, (crc64_bit_lxor _ (Z.shiftl acc 1)).
    f_equal. rewrite crc64_bit_even by (apply Z.shiftl_spec_low; lia).
    rewrite Z.shiftr_shiftl_l by lia. by rewrite Z.sub_diag, Z.shiftl_0_r. }
  rewrite Hstep. change (length (lsb_first b)) with 8%nat. by rewrite <- Hb.
Qed.

(** Message bits at the high end of the register. *)
Definition high_word (bits : list bool) : Z :=
  foldr (fun bit acc => Z.lxor (Z.shiftl (Z.b2z bit) 31) (Z.shiftr acc 1)) 0 bits.
Lemma high_word_bits bits i :
  0 <= i -> i < 32 - Z.of_nat (length bits) \/ 32 <= i -> Z.testbit (high_word bits) i = false.
Proof.
  revert i. induction bits as [|bit bits IH]; intros i Hi Hout; [by rewrite Z.bits_0|]. simpl.
  rewrite Z.lxor_spec, Z.shiftr_spec by done. cbn [length] in Hout.
  assert (Z.testbit (Z.shiftl (Z.b2z bit) 31) i = false) as ->.
  { destruct (Z.ltb_spec i 31); [by apply Z.shiftl_spec_low|]. rewrite Z.shiftl_spec by done.
    destruct bit; simpl; [|by rewrite Z.bits_0]. change 1 with (2 ^ 0). apply Z.pow2_bits_false. lia. }
  rewrite xorb_false_l. apply IH; lia.
Qed.
Lemma serial32_bits bits v :
  (length bits <= 8)%nat ->
  foldl serial32 v bits = Nat.iter (length bits) bzip2_bit (Z.lxor v (high_word bits)).
Proof.
  revert v. induction bits as [|bit bits IH]; intros v Hl; simpl in *; [by rewrite Z.lxor_0_r|].
  rewrite IH by lia. unfold serial32 at 1. rewrite <- Nat.iter_succ, Nat.iter_succ_r. f_equal.
  rewrite <- Z.lxor_assoc, (bzip2_bit_lxor _ (Z.shiftr (high_word bits) 1)). f_equal.
  rewrite bzip2_bit_low by (rewrite Z.shiftr_spec by lia; apply high_word_bits; lia).
  apply Z.bits_inj'. intros i Hi. rewrite Z.land_spec. unfold u32_max. change 4294967295 with (Z.ones 32).
  destruct (Z.ltb_spec i 32).
  - rewrite Z.ones_spec_low, andb_true_r by lia. destruct (Z.eq_dec i 0) as [->|].
    + rewrite Z.shiftl_spec_low by lia. apply high_word_bits; lia.
    + rewrite Z.shiftl_spec, Z.shiftr_spec by lia. f_equal. lia.
  - rewrite Z.ones_spec_high, andb_false_r by lia. apply high_word_bits; lia.
Qed.
Lemma serial32_byte v b :
  foldl serial32 v (msb_first b) = Nat.iter 8 bzip2_bit (Z.lxor v (Z.shiftl (u8 b) 24)).
Proof.
  rewrite serial32_bits by done. change (length (msb_first b)) with 8%nat.
  by replace (high_word (msb_first b)) with (Z.shiftl (u8 b) 24) by (by destruct b).
Qed.

Lemma bzip2_bit_range a : 0 <= bzip2_bit a <= u32_max.
Proof.
  assert (Hl : 0 <= Z.land (Z.shiftl a 1) u32_max < 2 ^ 32)
    by (unfold u32_max; change 4294967295 with (Z.ones 32); rewrite Z.land_ones by lia; by apply Z.mod_pos_bound).
  unfold bzip2_bit. case_match; [|unfold u32_max in *; lia].
  rewrite <- (Z.mod_small _ _ Hl). change BZIP2_CRC32_POLY with (BZIP2_CRC32_POLY mod 2 ^ 32).
  rewrite <- !Z.land_ones by lia.
  assert (forall x y, Z.lxor (Z.land x (Z.ones 32)) (Z.land y (Z.ones 32)) = Z.land (Z.lxor x y) (Z.ones 32)) as ->.
  { intros x y. apply Z.bits_inj'. intros n Hn. rewrite !Z.lxor_spec, !Z.land_spec, Z.lxor_spec.
    by repeat destruct (Z.testbit _ n). }
  rewrite Z.land_ones by lia. pose proof (Z.mod_pos_bound (Z.lxor (Z.land (Z.shiftl a 1) u32_max) BZIP2_CRC32_POLY) (2 ^ 32) ltac:(lia)).
  unfold u32_max in *. lia.
Qed.

(** C33: The table-driven checksums are the bit-serial shift registers of their
    polynomials: the CRC64 takes the bits of every byte lowest first, the
    bzip2 CRC32 highest first, from any register value it can have. *)
Theorem table_driven_crcs_exact :
  (forall value bytes, crc64_update value bytes = crc64_serial value bytes) /\
  (forall value bytes, 0 <= value <= u32_max -> bzip2_update value bytes = bzip2_serial value bytes).
Proof.
  unfold crc64_update, crc64_serial, bzip2_update, bzip2_serial. split.
  - intros value bytes. revert value. induction bytes as [|b bytes IH]; intros value; [done|]. cbn [map concat].
    rewrite foldl_app, serial64_byte. cbn [foldl]. by rewrite IH, <- crc64_update_byte_shifts.
  - intros value bytes. revert value. induction bytes as [|b bytes IH]; intros value Hv; [done|]. cbn [map concat].
    rewrite foldl_app, serial32_byte. cbn [foldl]. rewrite bzip2_update_byte_shifts by done. apply IH.
    change 8%nat with (Datatypes.S 7). rewrite Nat.iter_succ. apply bzip2_bit_range.
Qed.

(** The check values of the catalogue, of the digits 1 to 9. *)
Lemma check_values :
  crc64_finalize (crc64_update crc64_new (lit "123456789")) = 0x995DC9BBDF1939FA
  /\ bzip2_finalize (bzip2_update bzip2_new (lit "123456789")) = 0xFC891918.
Proof. split; vm_compute; reflexivity. Qed.
Lemma table_driven_crcs_exact_witness :
  bzip2_serial bzip2_new (lit "123456789") = Z.lxor 0xFC891918 u32_max.
Proof.
  rewrite <- (proj2 table_driven_crcs_exact bzip2_new (lit "123456789") ltac:(vm_compute; split; discriminate)).
  vm_compute. reflexivity.
Defined.
