(* ===== verification/Covering.v ===== *)
(** * The covering audit ([covering.rs])

    The range oracle run over a claimed archive representation before anything
    is extracted: it reads the claimed ranges back from the snapshot and checks
    that they partition it, without parsing names or numbers again. *)

From S2P Require Import Prelude Utf8 Sort Findings Interval Snapshot Ir Layout ZipFields ZipRecords Tar TarGnu TarPax Evidence.
Local Open Scope Z_scope.
Local Open Scope rust_scope.

#[export] Instance SourceDigest_eq_dec : EqDecision SourceDigest.
Proof. solve_decision. Defined.

(** ** Errors *)

Inductive CoveringAuditError : Type :=
  | Inconsistent (detail : string) (member : option str)
  | AllocationFailed.

Definition on_member (e : CoveringAuditError) (member : str) : CoveringAuditError :=
  match e with
  | Inconsistent detail _ => Inconsistent detail (Some member)
  | AllocationFailed => AllocationFailed
  end.

Definition into_finding (e : CoveringAuditError) : Finding :=
  match e with
  | Inconsistent detail member =>
      let finding := error CoveringInconsistent detail in
      match member with Some member => on finding member | None => finding end
  | AllocationFailed =>
      error CoveringInconsistent "bounded covering audit could not reserve scratch space"
  end.

Definition inconsistent (detail : string) : CoveringAuditError := Inconsistent detail None.
(** The closure [fail] of the TAR audits. *)
Definition fail (detail : string) : Finding := error CoveringInconsistent detail.

Definition checked_range_end (range : ByteRange) (detail : string) : result Z Finding :=
  ok_or (u64_checked_add (offset range) (len range)) (fail detail).

(** [checked_interval]; an offset and a length are never reversed. *)
Definition checked_interval (range : ByteRange) (overflow_detail : string) :
    result CheckedInterval CoveringAuditError :=
  map_err (fun _ => inconsistent overflow_detail) (from_offset_len (offset range) (len range)).

(** ** Zero ranges *)

Section Audit.
Context `{!Sha256}.

(** One iteration of [audit_zero_range]. *)
Definition zero_scan_step (snapshot : SourceSnapshot) (end_ : Z) (detail : string) (offset : Z) :
    exec (control Z unit) Finding :=
  if offset =? end_ then Some (Ok (Return ()))
  else
    let remaining := end_ - offset in
    let len := Z.min remaining 8192 in
    let* buffer := src_read snapshot offset len in
    reject! negb (all_zero buffer) with error CoveringInconsistent detail ;;
    Some (Ok (Continue (offset + len))).

(** [audit_zero_range]; one unit of fuel per 8 KiB buffer suffices. *)
Definition audit_zero_range (snapshot : SourceSnapshot) (range : ByteRange) (detail : string) :
    exec unit Finding :=
  let* end_ := checked_range_end range "zero-padding range overflow" in
  reject! src_len snapshot <? end_
    with fail "zero-padding range extends beyond the snapshot" ;;
  run_loop (zero_scan_step snapshot end_ detail) (2 + Z.to_nat (len range / 8192)) (offset range).

(** ** The portable-ustar audit *)

(** The identity a wrapper claims for its derived domain. *)
Definition derived_identity (snapshot : SourceSnapshot) (output_len : Z) (output_sha256 : str) :
    result unit Finding :=
  reject negb (output_len =? src_len snapshot)
         || negb (bool_decide (digest_sha256 (digest snapshot) = Some output_sha256))
    with fail "derived TAR identity does not match its snapshot" ;;
  Ok ().

(** The two [match]es on the format that open [audit_tar_covering]. *)
Definition audit_tar_identity (snapshot : SourceSnapshot) (ir : ArchiveIR) : result unit Finding :=
  match format ir with
  | TarUstar =>
      reject negb (bool_decide (source_digest ir = digest snapshot))
        with fail "source digest does not match the TAR snapshot" ;;
      Ok ()
  | TarGzipUstar =>
      let? gzip := ok_or (gzip_evidence ir) (fail "gzip-wrapped TAR IR has no wrapper evidence") in
      derived_identity snapshot (gz_derived_output_len gzip) (gz_derived_output_sha256 gzip)
  | TarZstdUstar =>
      let? zstd := ok_or (zstd_evidence ir) (fail "zstd-wrapped TAR IR has no wrapper evidence") in
      derived_identity snapshot (zs_derived_output_len zstd) (zs_derived_output_sha256 zstd)
  | TarXzUstar =>
      let? xz := ok_or (xz_evidence ir) (fail "xz-wrapped TAR IR has no wrapper evidence") in
      derived_identity snapshot (xz_derived_output_len xz) (xz_derived_output_sha256 xz)
  | TarBzip2Ustar =>
      let? bzip2 := ok_or (bzip2_evidence ir)
        (fail "bzip2-wrapped TAR IR has no wrapper evidence") in
      derived_identity snapshot (bz_derived_output_len bzip2) (bz_derived_output_sha256 bzip2)
  | _ => Err (fail "TAR covering audit received a non-TAR IR")
  end.

(** One member, at the offset its header is expected; the next offset. *)
Definition audit_tar_member (snapshot : SourceSnapshot) (format : ArchiveFormat) (member_end : Z)
    (expected_header : Z) (member : IrMember) : exec Z Finding :=
  reject! negb (bool_decide (member_format member = format))
    with on (fail "TAR member evidence variant does not match the archive format")
            (decoded_name member) ;;
  let* evidence := ok_or (tar_evidence member)
    (on (fail "TAR member lacks format-specific evidence") (decoded_name member)) in
  let* header_end := checked_range_end (te_header evidence) "TAR header overflow" in
  let* payload_end := checked_range_end (te_payload evidence) "TAR payload overflow" in
  let* padding_end := checked_range_end (te_padding evidence) "TAR padding overflow" in
  let expected_padding := (512 - len (te_payload evidence) mod 512) mod 512 in
  reject! negb (offset (te_header evidence) =? expected_header)
          || negb (len (te_header evidence) =? 512)
          || negb (offset (te_payload evidence) =? header_end)
          || negb (len (te_payload evidence) =? declared_uncomp_size member)
          || negb (offset (te_padding evidence) =? payload_end)
          || negb (len (te_padding evidence) =? expected_padding)
          || negb (padding_end mod 512 =? 0)
          || (member_end <? padding_end)
    with on (fail "TAR member ranges do not form one aligned record") (decoded_name member) ;;
  let* header := map_err
    (fun _ => on (fail "claimed TAR header is outside the snapshot") (decoded_name member))
    (src_read snapshot (offset (te_header evidence)) 512) in
  reject! negb (bool_decide (hex_sha256 header = te_header_sha256 evidence))
    with on (fail "TAR header digest does not match the snapshot") (decoded_name member) ;;
  let! _ := exec_map_err (fun finding => on finding (decoded_name member))
    (audit_zero_range snapshot (te_padding evidence)
       "claimed TAR member padding contains nonzero bytes") in
  Some (Ok padding_end).

Fixpoint audit_tar_members (snapshot : SourceSnapshot) (format : ArchiveFormat) (member_end : Z)
    (expected_header : Z) (members : list IrMember) : exec Z Finding :=
  match members with
  | [] => Some (Ok expected_header)
  | member :: members =>
      let! next := audit_tar_member snapshot format member_end expected_header member in
      audit_tar_members snapshot format member_end next members
  end.

(** [audit_tar_covering]. *)
Definition audit_tar_covering (snapshot : SourceSnapshot) (ir : ArchiveIR) : exec unit Finding :=
  let* _ := audit_tar_identity snapshot ir in
  let* covering := ok_or (tar_covering ir) (fail "TAR IR has no TAR covering") in
  let* member_end := checked_range_end (tc_member_records covering) "member covering overflow" in
  let* terminator_end := checked_range_end (tc_terminator covering) "terminator overflow" in
  let* trailing_end := checked_range_end (tc_trailing_zeros covering) "trailing range overflow" in
  reject! negb (offset (tc_member_records covering) =? 0)
          || negb (offset (tc_terminator covering) =? member_end)
          || negb (len (tc_terminator covering) =? 1024)
          || negb (offset (tc_trailing_zeros covering) =? terminator_end)
          || negb (trailing_end =? src_len snapshot)
    with fail "TAR covering does not exactly partition the snapshot" ;;
  let! expected_header := audit_tar_members snapshot (format ir) member_end 0 (members ir) in
  reject! negb (expected_header =? member_end)
    with fail "TAR member records do not fill their covering" ;;
  let* terminator := map_err (fun _ => fail "claimed TAR terminator is outside the snapshot")
    (src_read snapshot (offset (tc_terminator covering)) 1024) in
  reject! negb (all_zero terminator) with fail "claimed TAR terminator contains nonzero bytes" ;;
  audit_zero_range snapshot (tc_trailing_zeros covering)
    "claimed TAR trailing record padding contains nonzero bytes".
End Audit.
