(* ===== verification/AuditHeaders.v ===== *)
(** * The audit's own reading of TAR headers ([covering.rs])

    The PAX and old-GNU covering audits do not call the parsers: they check
    the header blocks with functions of their own.  Here these functions, and
    that they accept exactly what the parsers' accept, with the same values. *)

From S2P Require Import Prelude Utf8 Findings Snapshot TarFields Tar TarGnu TarPax Covering.
Local Open Scope Z_scope.
Local Open Scope rust_scope.

(** ** Fields *)

(** [pax_text_field]. *)
Definition pax_text_field (field : list byte) (empty_allowed : bool) : option (list byte) :=
  let end_ := default (length field) (position is_zero_byte field) in
  if negb (all_zero (drop end_ field)) || (negb empty_allowed && (end_ =? 0)%nat) then None
  else Some (take end_ field).

(** [pax_owner_field_is_canonical]. *)
Definition pax_owner_field_is_canonical (field : list byte) : bool :=
  match position is_zero_byte field with
  | None => false
  | Some end_ =>
      all_zero (drop end_ field) && forallb (fun b => between 32 126 (u8 b)) (take end_ field)
  end.

(** [parse_pax_octal_digits], [parse_pax_decimal]: one checked fold. *)
Definition parse_pax_octal_digits (digits : list byte) : option Z := fold_digits 8 0 digits.
Definition parse_pax_decimal (digits : list byte) : option Z := fold_digits 10 0 digits.

(** [parse_pax_octal]. *)
Definition parse_pax_octal (field : list byte) : option Z :=
  if from_option (fun b => negb (Z.land (u8 b) 128 =? 0)) false (head field) then None
  else
    match position (fun b => negb (is_octal_digit b)) field with
    | None => None
    | Some end_ =>
        if (end_ =? 0)%nat || existsb (fun b => negb (nul_or_space b)) (drop end_ field) then None
        else parse_pax_octal_digits (take end_ field)
    end.

(** [pax_device_field_is_zero]. *)
Definition pax_device_field_is_zero (field : list byte) : bool :=
  all_zero field || bool_decide (parse_pax_octal field = Some 0).

(** The checksum of both audits: the recorded and the computed one agree. *)
Definition audit_checksum (what : string) (header : list byte) : result Z Finding :=
  let checksum_field := slice 148 156 header in
  reject negb (forallb is_octal_digit (take 6 checksum_field))
         || negb (is_zero_byte (at_ checksum_field 6)) || negb (u8 (at_ checksum_field 7) =? 32)
    with fail (what +++ " header checksum field is not canonical") ;;
  let? checksum :=
    ok_or (parse_pax_octal_digits (take 6 checksum_field) ≫= fun v => if v <=? u32_max then Some v else None)
      (fail (what +++ " header checksum overflows u32")) in
  reject negb (checksum =? actual_checksum header)
    with fail (what +++ " header checksum disagrees with its bytes") ;;
  Ok checksum.

(** ** Headers *)

Record PaxHeaderFacts : Type := { pf_typeflag : byte; pf_size : Z; pf_mode : Z; pf_mtime : Z; pf_checksum : Z }.

(** [audit_pax_header]. *)
Definition audit_pax_header (header : list byte) : result PaxHeaderFacts Finding :=
  reject negb (bytes_eqb (slice 257 263 header) ustar_magic)
         || negb (bytes_eqb (slice 263 265 header) (lit "00"))
         || negb (all_zero (drop 500 header))
         || negb (all_zero (slice 157 257 header))
         || negb (pax_owner_field_is_canonical (slice 265 297 header))
         || negb (pax_owner_field_is_canonical (slice 297 329 header))
    with fail "PAX header is outside exact POSIX ustar framing" ;;
  let? checksum := audit_checksum "PAX" header in
  let? mode := ok_or (parse_pax_octal (slice 100 108 header))
    (fail "PAX header mode is not canonical octal") in
  reject (4095 <? mode)
         || bool_decide (parse_pax_octal (slice 108 116 header) = None)
         || bool_decide (parse_pax_octal (slice 116 124 header) = None)
    with fail "PAX header identity fields are outside the closed profile" ;;
  let? size := ok_or (parse_pax_octal (slice 124 136 header))
    (fail "PAX header size is not canonical octal") in
  reject bool_decide (at_ header 156 = "5"%byte) && negb (size =? 0)
    with fail "PAX directory has a nonzero underlying size" ;;
  let? mtime := ok_or (parse_pax_octal (slice 136 148 header))
    (fail "PAX header mtime is not canonical octal") in
  reject negb (pax_device_field_is_zero (slice 329 337 header))
         || negb (pax_device_field_is_zero (slice 337 345 header))
    with fail "PAX header device fields are not canonical zero" ;;
  Ok {| pf_typeflag := at_ header 156; pf_size := size; pf_mode := mode; pf_mtime := mtime;
        pf_checksum := checksum |}.

(** [pax_header_name_matches]. *)
Definition pax_header_name_matches (header expected : list byte) : bool :=
  match pax_text_field (slice 0 100 header) false, pax_text_field (slice 345 500 header) true with
  | Some name, Some prefix =>
      let joined := (if (length prefix =? 0)%nat then 0 else 1)%nat in
      if negb (length expected =? length prefix + joined + length name)%nat then false
      else if (length prefix =? 0)%nat then bytes_eqb expected name
      else bytes_eqb (take (length prefix) expected) prefix
           && bool_decide (expected !! length prefix = Some x2f)
           && bytes_eqb (drop (length prefix + 1) expected) name
  | _, _ => false
  end.

Record GnuHeaderFacts : Type := {
  gf_name : list byte; gf_typeflag : byte; gf_size : Z; gf_mode : Z; gf_mtime : Z; gf_checksum : Z
}.

(** [audit_gnu_header]. *)
Definition audit_gnu_header (header : list byte) : result GnuHeaderFacts Finding :=
  reject negb (bytes_eqb (slice 257 265 header) oldgnu_magic)
         || negb (all_zero (slice 157 257 header))
         || negb (all_zero (drop 345 header))
         || negb (pax_owner_field_is_canonical (slice 265 297 header))
         || negb (pax_owner_field_is_canonical (slice 297 329 header))
    with fail "GNU header is outside exact old-GNU framing" ;;
  let? checksum := audit_checksum "GNU" header in
  let? mode := ok_or (parse_pax_octal (slice 100 108 header))
    (fail "GNU header mode is not canonical octal") in
  reject (4095 <? mode)
         || bool_decide (parse_pax_octal (slice 108 116 header) = None)
         || bool_decide (parse_pax_octal (slice 116 124 header) = None)
         || negb (pax_device_field_is_zero (slice 329 337 header))
         || negb (pax_device_field_is_zero (slice 337 345 header))
    with fail "GNU header identity fields are outside the closed profile" ;;
  let? size := ok_or (parse_pax_octal (slice 124 136 header))
    (fail "GNU header size is not canonical octal") in
  let? mtime := ok_or (parse_pax_octal (slice 136 148 header))
    (fail "GNU header mtime is not canonical octal") in
  let typeflag := at_ header 156 in
  reject negb (bool_decide (typeflag ∈ [x00; "0"; "5"; "L"]%byte))
    with fail "GNU header type is outside the closed profile" ;;
  reject bool_decide (typeflag = "5"%byte) && negb (size =? 0)
    with fail "GNU directory has a nonzero size" ;;
  let? name := ok_or (pax_text_field (slice 0 100 header) false)
    (fail "GNU header name is not closed structural text") in
  Ok {| gf_name := name; gf_typeflag := typeflag; gf_size := size; gf_mode := mode; gf_mtime := mtime;
        gf_checksum := checksum |}.

(** ** The audit's fields are the parser's *)

Lemma position_octal field :
  position (fun b => negb (is_octal_digit b)) field
    = if (octal_prefix field =? length field)%nat then None else Some (octal_prefix field).
Proof.
  induction field as [|b field IH]; [done|]. simpl. destruct (is_octal_digit b); simpl; [|done].
  rewrite IH. by case_match.
Qed.
Lemma existsb_negb {A} (f : A -> bool) l : existsb (fun x => negb (f x)) l = negb (forallb f l).
Proof. induction l as [|x l IH]; [done|]. simpl. rewrite IH. by destruct (f x). Qed.

Lemma parse_pax_octal_iff field label v :
  parse_pax_octal field = Some v <-> TarFields.parse_octal field label = Ok v.
Proof.
  unfold parse_pax_octal, TarFields.parse_octal. rewrite position_octal.
  assert (from_option (fun b => negb (Z.land (u8 b) 128 =? 0)) false (head field)
    = match field with b :: _ => negb (Z.land (u8 b) 128 =? 0) | [] => false end) as -> by by destruct field.
  destruct (match field with b :: _ => _ | [] => _ end); [by split|].
  destruct (octal_prefix field =? length field)%nat eqn:Hl.
  { rewrite orb_true_r. by split. }
  rewrite (existsb_negb nul_or_space), orb_false_r. destruct ((octal_prefix field =? 0)%nat || _); [by split|].
  unfold parse_pax_octal_digits, TarFields.parse_octal_digits. by rewrite ok_or_ok.
Qed.
Lemma parse_pax_octal_none field label :
  parse_pax_octal field = None <-> is_ok (TarFields.parse_octal field label) = false.
Proof.
  destruct (parse_pax_octal field) as [v|] eqn:Hp.
  - apply (parse_pax_octal_iff field label) in Hp. by rewrite Hp.
  - destruct (TarFields.parse_octal field label) as [v|] eqn:Ho; [|done].
    apply parse_pax_octal_iff in Ho. congruence.
Qed.

Lemma pax_device_iff field label :
  pax_device_field_is_zero field = true <-> TarFields.parse_device_number field label = Ok 0.
Proof.
  unfold pax_device_field_is_zero, TarFields.parse_device_number. destruct (all_zero field); simpl; [by split|].
  by rewrite bool_decide_eq_true, (parse_pax_octal_iff field label).
Qed.
Lemma pax_owner_iff field label :
  pax_owner_field_is_canonical field = true <-> TarFields.validate_owner_text field label = Ok ().
Proof.
  unfold pax_owner_field_is_canonical, TarFields.validate_owner_text. destruct (position is_zero_byte field); [|done].
  destruct (all_zero _); simpl; [|done]. by destruct (forallb _ _).
Qed.
Lemma pax_text_iff field label allowed t :
  pax_text_field field allowed = Some t <-> TarFields.parse_text_field field label allowed = Ok t.
Proof.
  unfold pax_text_field, TarFields.parse_text_field. set (end_ := default _ _).
  destruct (all_zero _); simpl; [|done]. destruct (negb allowed && _); [by split|]. split; by intros [= ->].
Qed.
Lemma audit_checksum_iff what header c :
  (148 + 8 <= length header)%nat ->
  audit_checksum what header = Ok c <-> check_checksum header = Ok c.
Proof.
  intros Hl. unfold audit_checksum, check_checksum, TarFields.parse_checksum.
  assert (length (slice 148 156 header) = 8)%nat as -> by (rewrite length_slice; lia). simpl.
  destruct (_ || negb _); [by split|]. unfold parse_pax_octal_digits, TarFields.parse_octal_digits.
  destruct (fold_digits 8 0 _) as [v|]; simpl; [|done]. destruct (v <=? u32_max); simpl; [|done].
  destruct (v =? actual_checksum header); simpl; split; intros; by simplify_eq.
Qed.

(** What every admitted header says of its numeric and owner fields. *)
Record header_fields (hdr : list byte) (mode size mtime checksum : Z) : Prop := {
  hf_linkname : all_zero (slice 157 257 hdr) = true;
  hf_checksum : check_checksum hdr = Ok checksum;
  hf_mode : TarFields.parse_octal (slice 100 108 hdr) "mode" = Ok mode;
  hf_mode_cap : mode <= 4095;
  hf_uid : is_ok (TarFields.parse_octal (slice 108 116 hdr) "uid") = true;
  hf_gid : is_ok (TarFields.parse_octal (slice 116 124 hdr) "gid") = true;
  hf_size : TarFields.parse_octal (slice 124 136 hdr) "size" = Ok size;
  hf_mtime : TarFields.parse_octal (slice 136 148 hdr) "mtime" = Ok mtime;
  hf_directory : at_ hdr 156 = "5"%byte -> size = 0;
  hf_major : TarFields.parse_device_number (slice 329 337 hdr) "devmajor" = Ok 0;
  hf_minor : TarFields.parse_device_number (slice 337 345 hdr) "devminor" = Ok 0;
  hf_uname : TarFields.validate_owner_text (slice 265 297 hdr) "uname" = Ok ();
  hf_gname : TarFields.validate_owner_text (slice 297 329 hdr) "gname" = Ok ()
}.

(** *** Old-GNU headers *)

Definition gnu_kind_of (typeflag : byte) : TarGnu.HeaderKind :=
  if bool_decide (typeflag = "5"%byte) then TarGnu.Directory
  else if bool_decide (typeflag = "L"%byte) then LongName else TarGnu.File.
Lemma gnu_kind_iff hdr k :
  TarGnu.parse_kind hdr = Ok k <->
  bool_decide (at_ hdr 156 ∈ [x00; "0"; "5"; "L"]%byte) = true /\ k = gnu_kind_of (at_ hdr 156).
Proof.
  unfold TarGnu.parse_kind.
  destruct (at_ hdr 156); cbv beta iota zeta delta [TarGnu.is_known_unsupported_typeflag];
    first [ split; [intros [= <-]; split; reflexivity|intros [_ ->]; reflexivity]
          | split; [discriminate|intros [Hb _]; vm_compute in Hb; discriminate Hb] ].
Qed.
Lemma gnu_directory_iff typeflag :
  bool_decide (gnu_kind_of typeflag = TarGnu.Directory) = bool_decide (typeflag = "5"%byte).
Proof. unfold gnu_kind_of. by repeat case_bool_decide. Qed.

Definition gnu_facts (hdr : list byte) (h : TarGnu.ParsedHeader) : GnuHeaderFacts :=
  {| gf_name := p_raw_name h; gf_typeflag := at_ hdr 156; gf_size := p_size h; gf_mode := p_mode h;
     gf_mtime := p_mtime h; gf_checksum := p_header_checksum h |}.

Definition gnu_framing (hdr : list byte) : Prop :=
  slice 257 265 hdr = oldgnu_magic /\ all_zero (drop 345 hdr) = true
  /\ at_ hdr 156 ∈ [x00; "0"; "5"; "L"]%byte.

(** Conditions on the bytes, as the two readers put them. *)
Lemma directory_guard hdr size :
  bool_decide (at_ hdr 156 = "5"%byte) && negb (size =? 0) = false <-> (at_ hdr 156 = "5"%byte -> size = 0).
Proof.
  case_bool_decide as Hd; simpl; [|by split].
  rewrite negb_false_iff, Z.eqb_eq. split; [done|intros Hs; by apply Hs].
Qed.
Lemma is_ok_ex {A E} (r : result A E) : is_ok r = true <-> exists a, r = Ok a.
Proof. destruct r; simpl; split; [by eexists|done|done|by intros [? [=]]]. Qed.
Lemma bytes_eqb_iff (a b : list byte) : bytes_eqb a b = true <-> a = b.
Proof. unfold bytes_eqb. apply bool_decide_eq_true. Qed.

Lemma parse_gnu_fields `{!Sha256} hdr off h :
  TarGnu.parse_header hdr off = Ok h <->
  exists mode size mtime checksum name,
    header_fields hdr mode size mtime checksum /\ gnu_framing hdr
    /\ TarFields.parse_text_field (slice 0 100 hdr) "name" false = Ok name
    /\ h = {| p_raw_name := name; p_size := size; p_mode := mode; p_mtime := mtime;
              p_header_checksum := checksum; p_header_sha256 := hex_sha256 hdr;
              p_header := mkrange off BLOCK_LEN; p_kind := gnu_kind_of (at_ hdr 156) |}.
Proof.
  unfold TarGnu.parse_header. split.
  - intros Hp. ok_steps Hp. units. breflect. simplify_eq.
    match goal with H : TarGnu.parse_kind _ = Ok _ |- _ => apply gnu_kind_iff in H as [Hk ->] end.
    rewrite gnu_directory_iff in *. apply bool_decide_eq_true in Hk.
    match goal with H : bytes_eqb _ _ = true |- _ => apply bytes_eqb_iff in H end.
    do 5 eexists. split; [|split_and!; [split_and!; done|eassumption|done]].
    split; try eassumption; try (apply is_ok_ex; eexists; eassumption). by apply directory_guard.
  - intros (mode & size & mtime & checksum & name & [] & (Hm & Ht & Hk) & Hn & ->).
    rewrite (proj2 (bytes_eqb_iff _ _) Hm), hf_checksum0. cbn [negb].
    rewrite (proj2 (gnu_kind_iff hdr _) (conj (bool_decide_eq_true_2 _ Hk) eq_refl)).
    rewrite hf_linkname0, Ht. cbn [negb].
    apply is_ok_ex in hf_uid0 as [uid Hu], hf_gid0 as [gid Hg].
    unfold TarGnu.parse_octal, TarGnu.parse_device_number, TarGnu.validate_owner_text, TarGnu.parse_text_field.
    rewrite hf_mode0, (proj2 (Z.ltb_ge _ _) hf_mode_cap0), Hu, Hg, hf_size0, hf_mtime0, gnu_directory_iff.
    rewrite (proj2 (directory_guard _ _) hf_directory0), hf_major0, hf_minor0, hf_uname0, hf_gname0, Hn.
    done.
Qed.

(** The audit's readings as the parser's, and back. *)
Lemma pax_octal_some field label :
  bool_decide (parse_pax_octal field = None) = false <-> is_ok (TarFields.parse_octal field label) = true.
Proof.
  rewrite bool_decide_eq_false, (parse_pax_octal_none field label). by destruct (is_ok _).
Qed.
Ltac audit_facts Hl :=
  repeat match goal with
  | H : bytes_eqb _ _ = true |- _ => apply bytes_eqb_iff in H
  | H : ok_or _ _ = Ok _ |- _ => apply ok_or_ok in H
  | H : bool_decide (_ ∈ _) = true |- _ => apply bool_decide_eq_true in H
  | H : bool_decide (parse_pax_octal (slice 108 _ _) = None) = false |- _ => apply (pax_octal_some _ "uid") in H
  | H : bool_decide (parse_pax_octal (slice 116 _ _) = None) = false |- _ => apply (pax_octal_some _ "gid") in H
  | H : parse_pax_octal (slice 100 _ _) = Some _ |- _ => apply (parse_pax_octal_iff _ "mode") in H
  | H : parse_pax_octal (slice 124 _ _) = Some _ |- _ => apply (parse_pax_octal_iff _ "size") in H
  | H : parse_pax_octal (slice 136 _ _) = Some _ |- _ => apply (parse_pax_octal_iff _ "mtime") in H
  | H : pax_device_field_is_zero (slice 329 _ _) = true |- _ => apply (pax_device_iff _ "devmajor") in H
  | H : pax_device_field_is_zero (slice 337 _ _) = true |- _ => apply (pax_device_iff _ "devminor") in H
  | H : pax_owner_field_is_canonical (slice 265 _ _) = true |- _ => apply (pax_owner_iff _ "uname") in H
  | H : pax_owner_field_is_canonical (slice 297 _ _) = true |- _ => apply (pax_owner_iff _ "gname") in H
  | H : pax_text_field (slice 0 _ _) false = Some _ |- _ => apply (pax_text_iff _ "name") in H
  | H : pax_text_field (slice 345 _ _) true = Some _ |- _ => apply (pax_text_iff _ "prefix") in H
  | H : audit_checksum _ _ = Ok _ |- _ => apply audit_checksum_iff in H; [|rewrite Hl; lia]
  end.
Ltac parser_facts Hl :=
  repeat match goal with
  | H : is_ok (TarFields.parse_octal _ _) = true |- _ => apply pax_octal_some in H
  | H : TarFields.parse_octal _ _ = Ok _ |- _ => apply parse_pax_octal_iff in H
  | H : TarFields.parse_device_number _ _ = Ok 0 |- _ => apply pax_device_iff in H
  | H : TarFields.validate_owner_text _ _ = Ok _ |- _ => apply pax_owner_iff in H
  | H : TarFields.parse_text_field _ _ _ = Ok _ |- _ => apply pax_text_iff in H
  | H : check_checksum _ = Ok _ |- _ =>
      first [apply (audit_checksum_iff "GNU") in H; [|rewrite Hl; lia]]
  end.

Lemma audit_gnu_fields hdr f :
  length hdr = 512%nat ->
  audit_gnu_header hdr = Ok f <->
  exists mode size mtime checksum name,
    header_fields hdr mode size mtime checksum /\ gnu_framing hdr
    /\ TarFields.parse_text_field (slice 0 100 hdr) "name" false = Ok name
    /\ f = {| gf_name := name; gf_typeflag := at_ hdr 156; gf_size := size; gf_mode := mode;
              gf_mtime := mtime; gf_checksum := checksum |}.
Proof.
  intros Hl. unfold audit_gnu_header. split.
  - intros Ha. ok_steps Ha. breflect. simplify_eq. audit_facts Hl.
    do 5 eexists. split; [|split_and!; [split_and!; done|eassumption|done]].
    split; try eassumption. by apply directory_guard.
  - intros (mode & size & mtime & checksum & name & [] & (Hm & Ht & Hk) & Hn & ->). parser_facts Hl.
    rewrite (proj2 (bytes_eqb_iff _ _) Hm), hf_linkname0, Ht, hf_uname0, hf_gname0, hf_checksum0. cbn [negb orb].
    rewrite hf_mode0. cbn [ok_or]. rewrite (proj2 (Z.ltb_ge _ _) hf_mode_cap0), hf_uid0, hf_gid0, hf_major0, hf_minor0.
    cbn [negb orb]. rewrite hf_size0, hf_mtime0. cbn [ok_or]. rewrite (bool_decide_eq_true_2 _ Hk).
    rewrite (proj2 (directory_guard _ _) hf_directory0), Hn. done.
Qed.

Lemma audit_gnu_header_iff `{!Sha256} hdr off f :
  length hdr = 512%nat ->
  audit_gnu_header hdr = Ok f <-> exists h, TarGnu.parse_header hdr off = Ok h /\ f = gnu_facts hdr h.
Proof.
  intros Hl. rewrite (audit_gnu_fields hdr f Hl). setoid_rewrite (parse_gnu_fields hdr off). split.
  - intros (mode & size & mtime & checksum & name & H1 & H2 & H3 & ->). by eexists; eauto 20.
  - intros (h & (mode & size & mtime & checksum & name & H1 & H2 & H3 & ->) & ->). eauto 20.
Qed.

(** *** PAX headers *)

Definition pax_framing (hdr : list byte) : Prop :=
  slice 257 263 hdr = ustar_magic /\ slice 263 265 hdr = lit "00" /\ all_zero (drop 500 hdr) = true.
Definition pax_kind_of (typeflag : byte) : TarPax.HeaderKind :=
  if bool_decide (typeflag = "5"%byte) then TarPax.Directory
  else if bool_decide (typeflag = "g"%byte) then GlobalExtension
  else if bool_decide (typeflag = "x"%byte) then LocalExtension else TarPax.File.

Lemma pax_kind_iff hdr k :
  TarPax.parse_kind hdr = Ok k <->
  bool_decide (at_ hdr 156 ∈ [x00; "0"; "5"; "g"; "x"]%byte) = true /\ k = pax_kind_of (at_ hdr 156).
Proof.
  unfold TarPax.parse_kind.
  destruct (at_ hdr 156); cbv beta iota zeta delta [TarPax.is_known_unsupported_typeflag];
    first [ split; [intros [= <-]; split; reflexivity|intros [_ ->]; reflexivity]
          | split; [discriminate|intros [Hb _]; vm_compute in Hb; discriminate Hb] ].
Qed.
Lemma pax_directory_iff typeflag :
  bool_decide (pax_kind_of typeflag = TarPax.Directory) = bool_decide (typeflag = "5"%byte).
Proof. unfold pax_kind_of. by repeat case_bool_decide. Qed.

Lemma parse_pax_fields `{!Sha256, !Allocator} hdr off h :
  TarPax.parse_header hdr off = Ok h <->
  exists mode size mtime checksum name prefix,
    header_fields hdr mode size mtime checksum /\ pax_framing hdr
    /\ at_ hdr 156 ∈ [x00; "0"; "5"; "g"; "x"]%byte
    /\ TarFields.parse_text_field (slice 0 100 hdr) "name" false = Ok name
    /\ TarFields.parse_text_field (slice 345 500 hdr) "prefix" true = Ok prefix
    /\ try_reserve "ustar name" (Z.of_nat (length (join_name prefix name))) = true
    /\ h = {| h_raw_name := join_name prefix name; h_size := size; h_mode := mode; h_mtime := mtime;
              h_header_checksum := checksum; h_header_sha256 := hex_sha256 hdr;
              h_header := mkrange off BLOCK_LEN; h_kind := pax_kind_of (at_ hdr 156) |}.
Proof.
  unfold TarPax.parse_header. split.
  - intros Hp. ok_steps Hp. units. breflect. simplify_eq.
    match goal with H : TarPax.parse_kind _ = Ok _ |- _ => apply pax_kind_iff in H as [Hk ->] end.
    rewrite pax_directory_iff in *. apply bool_decide_eq_true in Hk.
    repeat match goal with H : bytes_eqb _ _ = true |- _ => apply bytes_eqb_iff in H end.
    do 6 eexists. split; [|split_and!; [split_and!; done|done|eassumption|eassumption|eassumption|done]].
    split; try eassumption; try (apply is_ok_ex; eexists; eassumption). by apply directory_guard.
  - intros (mode & size & mtime & checksum & name & prefix & [] & (Hm & Hv & Ht) & Hk & Hn & Hp & Hr & ->).
    rewrite (proj2 (bytes_eqb_iff _ _) Hm), (proj2 (bytes_eqb_iff _ _) Hv), hf_checksum0. cbn [negb orb].
    rewrite (proj2 (pax_kind_iff hdr _) (conj (bool_decide_eq_true_2 _ Hk) eq_refl)).
    rewrite hf_linkname0, Ht. cbn [negb].
    apply is_ok_ex in hf_uid0 as [uid Hu], hf_gid0 as [gid Hg].
    unfold TarPax.parse_octal, TarPax.parse_device_number, TarPax.validate_owner_text, TarPax.parse_text_field.
    rewrite hf_mode0, (proj2 (Z.ltb_ge _ _) hf_mode_cap0), Hu, Hg, hf_size0, hf_mtime0, pax_directory_iff.
    rewrite (proj2 (directory_guard _ _) hf_directory0), hf_major0, hf_minor0, hf_uname0, hf_gname0, Hn, Hp.
    cbn [negb orb Z.eqb]. by rewrite Hr.
Qed.

Lemma audit_pax_fields hdr f :
  length hdr = 512%nat ->
  audit_pax_header hdr = Ok f <->
  exists mode size mtime checksum,
    header_fields hdr mode size mtime checksum /\ pax_framing hdr
    /\ f = {| pf_typeflag := at_ hdr 156; pf_size := size; pf_mode := mode; pf_mtime := mtime;
              pf_checksum := checksum |}.
Proof.
  intros Hl. unfold audit_pax_header. split.
  - intros Ha. ok_steps Ha. breflect. simplify_eq. audit_facts Hl.
    do 4 eexists. split; [|split_and!; [split_and!; done|done]].
    split; try eassumption. by apply directory_guard.
  - intros (mode & size & mtime & checksum & [] & (Hm & Hv & Ht) & ->).
    apply (audit_checksum_iff "PAX") in hf_checksum0; [|rewrite Hl; lia]. parser_facts Hl.
    rewrite (proj2 (bytes_eqb_iff _ _) Hm), (proj2 (bytes_eqb_iff _ _) Hv).
    rewrite hf_linkname0, Ht, hf_uname0, hf_gname0, hf_checksum0. cbn [negb orb].
    rewrite hf_mode0. cbn [ok_or]. rewrite (proj2 (Z.ltb_ge _ _) hf_mode_cap0), hf_uid0, hf_gid0.
    cbn [negb orb]. rewrite hf_size0, hf_mtime0. cbn [ok_or].
    by rewrite (proj2 (directory_guard _ _) hf_directory0), hf_major0, hf_minor0.
Qed.

(** The name test: the prefix and name fields, joined by a slash. *)
Lemma pax_header_name_iff hdr e :
  pax_header_name_matches hdr e = true <->
  exists name prefix,
    TarFields.parse_text_field (slice 0 100 hdr) "name" false = Ok name
    /\ TarFields.parse_text_field (slice 345 500 hdr) "prefix" true = Ok prefix
    /\ e = join_name prefix name.
Proof.
  unfold pax_header_name_matches. setoid_rewrite <- (pax_text_iff _ "name"). setoid_rewrite <- (pax_text_iff _ "prefix").
  destruct (pax_text_field (slice 0 100 hdr) false) as [name|];
    [|by split; [|intros (? & ? & ? & _)]].
  destruct (pax_text_field (slice 345 500 hdr) true) as [prefix|];
    [|by split; [|intros (? & ? & _ & ? & _)]].
  assert ((exists n p, Some name = Some n /\ Some prefix = Some p /\ e = join_name p n)
    <-> e = join_name prefix name) as ->.
  { split; [by intros (? & ? & [= <-] & [= <-] & ->)|]. intros ->. by exists name, prefix. }
  unfold join_name. destruct (Nat.eqb_spec (length prefix) 0) as [Hp|Hp].
  - apply nil_length_inv in Hp as ->. simpl. destruct (Nat.eqb_spec (length e) (length name)) as [|Hl]; simpl.
    + apply bytes_eqb_iff.
    + split; [done|]. by intros ->.
  - destruct (Nat.eqb_spec (length e) (length prefix + 1 + length name)) as [Hl|Hl]; simpl.
    + rewrite !andb_true_iff, !bytes_eqb_iff, bool_decide_eq_true. split.
      * intros [[Ht Hs] Hd]. rewrite <- (take_drop (length prefix) e). rewrite Ht.
        rewrite (drop_S _ x2f) by done. replace (S (length prefix)) with (length prefix + 1)%nat by lia.
        by rewrite Hd, <- app_assoc.
      * intros ->. rewrite <- app_assoc. rewrite take_app_length. split_and!; [done| |].
        -- rewrite lookup_app_r, Nat.sub_diag by lia. done.
        -- by rewrite <- drop_drop, drop_app_length.
    + split; [done|]. intros ->. rewrite !length_app in Hl. simpl in Hl. lia.
Qed.
