(* ===== verification/CoveringTar.v ===== *)
(** * What the TAR covering audit establishes ([audit_tar_covering])

    The audit accepts exactly the representations whose ranges are laid end to
    end over the snapshot, whose header digests are those of the bytes there
    and whose paddings and tail are zero; every archive the portable-ustar
    reader accepts passes it, raw or in any of its wrappers. *)

From S2P Require Import Prelude Utf8 Sort Findings Interval Snapshot Ir Layout ByteFields ZipFields ZipRecords TarFields Tar TarWrite TarRefine Evidence Covering.
Local Open Scope Z_scope.
Local Open Scope rust_scope.

(** What the type [ByteRange] promises. *)
Definition range_nonneg (r : ByteRange) : Prop := 0 <= offset r /\ 0 <= len r.

Lemma checked_range_end_ok r d e :
  checked_range_end r d = Ok e <-> e = offset r + len r /\ offset r + len r <= u64_max.
Proof. unfold checked_range_end. by rewrite ok_or_ok, u64_checked_add_Some. Qed.

(** ** Zero ranges *)

Lemma ustar_header_facts `{!Sha256} hdr off m :
  parse_header hdr off = Ok m -> header m = mkrange off BLOCK_LEN /\ header_sha256 m = hex_sha256 hdr.
Proof. unfold parse_header. intros H1. ok_steps H1. by simplify_eq. Qed.

Section Audit.
Context `{!Sha256} (s : SourceSnapshot) (bs : list byte).

Lemma audit_zero_range_total r d : range_nonneg r -> exists x, audit_zero_range s r d = Some x.
Proof.
  intros [Ho Hl]. unfold audit_zero_range.
  destruct (checked_range_end r _) as [e|] eqn:He; [|eauto].
  apply checked_range_end_ok in He as [-> _]. case_match; [eauto|].
  apply (run_loop_total _ (fun o => o <= offset r + len r)
    (fun o => Z.to_nat ((offset r + len r - o + 8191) / 8192))).
  - intros o _. unfold zero_scan_step. by repeat case_match.
  - intros o o' Hle Hs. unfold zero_scan_step in Hs. case_match eqn:Hz; [done|].
    ok_steps Hs. simplify_eq. breflect. split; [lia|].
    assert (0 <= offset r + len r - (o + Z.min (offset r + len r - o) 8192)) by lia.
    apply Nat2Z.inj_lt. rewrite !Z2Nat.id by (apply Z.div_pos; lia).
    Z.div_mod_to_equations. lia.
  - lia.
  - apply Nat2Z.inj_lt. rewrite Nat2Z.inj_add, !Z2Nat.id by (apply Z.div_pos; lia).
    Z.div_mod_to_equations. lia.
Qed.

(** One buffer of an in-range scan. *)
Lemma zero_scan_continue d e o o' :
  represents s bs -> 0 <= o <= e -> zero_scan_step s e d o = Some (Ok (Continue o')) ->
  o < o' <= e /\ all_zero (range o (o' - o) bs) = true.
Proof.
  intros Hs Ho H1. unfold zero_scan_step in H1. case_match eqn:Hz; [done|]. breflect.
  destruct (src_read s o _) as [b|] eqn:Hr; [|done].
  apply (represents_read _ _ Hs) in Hr as [_ ->]; [|lia|lia].
  case_match eqn:Hb; [done|]. simplify_eq. breflect. split; [lia|].
  by replace (o + Z.min (e - o) 8192 - o) with (Z.min (e - o) 8192) by lia.
Qed.

Lemma audit_zero_range_sound r d :
  represents s bs -> range_nonneg r -> audit_zero_range s r d = Some (Ok ()) ->
  offset r + len r <= Z.of_nat (length bs) /\ all_zero (range (offset r) (len r) bs) = true.
Proof.
  intros Hs [Ho Hl] H1. unfold audit_zero_range in H1. ok_steps H1.
  apply checked_range_end_ok in Hs0 as [-> _]. breflect.
  pose proof (represents_len _ _ Hs). split; [lia|]. revert H1.
  apply (run_loop_invariant _
    (fun o => offset r <= o <= offset r + len r /\ all_zero (range (offset r) (o - offset r) bs) = true)
    (fun _ => all_zero (range (offset r) (len r) bs) = true)).
  - intros o o' [Hb Hz] Hst. apply zero_scan_continue in Hst as [Hlt Hz']; [|done|lia].
    split; [lia|]. replace (o' - offset r) with ((o - offset r) + (o' - o)) by lia.
    rewrite range_app, all_zero_app, Hz by lia. simpl.
    by replace (offset r + (o - offset r)) with o by lia.
  - intros o [] [Hb Hz] Hst. unfold zero_scan_step in Hst. case_match eqn:E; [|by repeat case_match].
    breflect. subst. by replace (len r) with (offset r + len r - offset r) by lia.
  - rewrite Z.sub_diag. split; [lia|done].
Qed.

Lemma audit_zero_range_ok r d :
  reliable s bs -> range_nonneg r ->
  audit_zero_range s r d = Some (Ok ()) <->
  offset r + len r <= Z.of_nat (length bs) /\ all_zero (range (offset r) (len r) bs) = true.
Proof.
  intros Hs Hr. split; [by apply audit_zero_range_sound; [apply reliable_represents|]|].
  intros [Hin Hz]. destruct (audit_zero_range_total r d Hr) as [x Hx]. rewrite Hx. f_equal.
  pose proof (reliable_represents _ _ Hs) as Hrep.
  pose proof (represents_len _ _ Hrep : snap_len s = _) as Hlen.
  pose proof (represents_u64 _ _ Hrep). destruct Hr as [Ho Hl].
  unfold audit_zero_range in Hx.
  assert (checked_range_end r "zero-padding range overflow" = Ok (offset r + len r)) as He
    by (apply checked_range_end_ok; lia).
  rewrite He in Hx. rewrite (proj2 (Z.ltb_ge _ _)) in Hx by (simpl; lia).
  destruct x as [[]|e]; [done|exfalso]. apply run_loop_steps in Hx as (o & Hsteps & Hlast).
  assert (offset r <= o <= offset r + len r) as Hb.
  { revert Hsteps. apply (rtc_preserves _ (fun o => offset r <= o <= offset r + len r)); [|lia].
    intros o1 o2 Ho1 H12. unfold loop_step in H12. apply zero_scan_continue in H12; [lia|done|lia]. }
  unfold zero_scan_step in Hlast. case_match; [done|]. breflect.
  rewrite (reliable_read _ _ Hs) in Hlast by lia. case_match eqn:Hnz; [|done].
  apply negb_true_iff in Hnz. apply not_true_iff_false in Hnz. apply Hnz.
  replace (len r) with ((o - offset r) + (Z.min (offset r + len r - o) 8192
    + (offset r + len r - o - Z.min (offset r + len r - o) 8192))) in Hz by lia.
  rewrite !range_app, !all_zero_app in Hz by lia.
  replace (offset r + (o - offset r)) with o in Hz by lia.
  apply andb_true_iff in Hz as [_ Hz]. by apply andb_true_iff in Hz as [Hz _].
Qed.

Lemma audit_zero_range_pass o n d :
  reliable s bs -> 0 <= o -> 0 <= n -> o + n <= Z.of_nat (length bs) ->
  all_zero (range o n bs) = true -> audit_zero_range s (mkrange o n) d = Some (Ok ()).
Proof. intros. apply audit_zero_range_ok; [done|by split|done]. Qed.

(** ** Members *)

(** What the types promise of a member's ranges. *)
Definition tar_member_typed (m : IrMember) : Prop :=
  0 <= declared_uncomp_size m /\
  forall e, tar_evidence m = Some e ->
    range_nonneg (te_header e) /\ range_nonneg (te_payload e) /\ range_nonneg (te_padding e).

(** One record at [off]: a header whose digest is claimed, the payload, zero
    padding up to the next block, which is at [next]. *)
Record member_record (f : ArchiveFormat) (off : Z) (m : IrMember) (e : TarMemberEvidence)
    (next : Z) : Prop := {
  mr_format : member_format m = f;
  mr_evidence : tar_evidence m = Some e;
  mr_header : te_header e = mkrange off 512;
  mr_payload : te_payload e = mkrange (off + 512) (declared_uncomp_size m);
  mr_padding : te_padding e = mkrange (off + 512 + declared_uncomp_size m)
    (padded (declared_uncomp_size m) - declared_uncomp_size m);
  mr_next : next = off + 512 + padded (declared_uncomp_size m);
  mr_aligned : next mod 512 = 0;
  mr_fits : next <= Z.of_nat (length bs);
  mr_digest : te_header_sha256 e = hex_sha256 (range off 512 bs);
  mr_zero : all_zero (range (off + 512 + declared_uncomp_size m)
    (padded (declared_uncomp_size m) - declared_uncomp_size m) bs) = true
}.
Definition member_audited f off m next : Prop := exists e, member_record f off m e next.

Lemma expected_padding_eq n : 0 <= n -> (512 - n mod 512) mod 512 = padded n - n.
Proof. intros. unfold padded. Z.div_mod_to_equations. lia. Qed.

Lemma range_eta r : r = mkrange (offset r) (len r).
Proof. by destruct r. Qed.

Lemma audit_tar_member_sound f stop off m next :
  represents s bs -> tar_member_typed m -> audit_tar_member s f stop off m = Some (Ok next) ->
  member_audited f off m next /\ next <= stop.
Proof.
  intros Hs [Hsz Ht] H1. unfold audit_tar_member in H1. cbv zeta in H1.
  ok_step H1. ok_step H1. rename Hs1 into He. apply ok_or_ok in He.
  match type of He with _ = Some ?t => rename t into e end.
  destruct (Ht _ He) as (Hh & Hp & Hq).
  ok_steps H1. simplify_eq. apply checked_range_end_ok in Hs1 as [-> _], Hs2 as [-> _], Hs3 as [-> _].
  breflect. apply map_err_ok in Hs5.
  apply (represents_read _ _ Hs) in Hs5 as [_ ->]; [|apply Hh|lia].
  units. apply exec_map_err_ok in Hs7. apply audit_zero_range_sound in Hs7; [|done..].
  repeat match goal with Hb : bool_decide _ = true |- _ => apply bool_decide_eq_true in Hb end.
  destruct e as [[ho hl] [po pl] [qo ql] ? ? ? dg]. unfold range_nonneg in *. simpl in *.
  rewrite expected_padding_eq in * by lia. subst.
  split; [|lia]. eexists. split; simpl; try done; try lia; try (f_equal; lia).
  apply Hs7.
Qed.

Lemma audit_tar_member_complete f stop off m next :
  reliable s bs -> tar_member_typed m -> 0 <= off -> stop <= u64_max ->
  member_audited f off m next -> next <= stop ->
  audit_tar_member s f stop off m = Some (Ok next).
Proof.
  intros Hs [Hsz _] Ho Hstop (e & [Hf He Hh Hp Hq Hn Ha Hin Hd Hz]) Hle.
  pose proof (padded_spec _ Hsz) as [Hpad _].
  unfold audit_tar_member. rewrite Hf, bool_decide_eq_true_2, He by done. cbn [negb ok_or].
  rewrite Hh, Hp, Hq, Hd. unfold checked_range_end. cbn [offset len mkrange].
  rewrite !u64_checked_add_le by lia. cbn [ok_or]. rewrite expected_padding_eq by done.
  rewrite !Z.eqb_refl. replace (_ =? 0) with true by (symmetry; apply Z.eqb_eq; rewrite <- Ha; f_equal; lia).
  rewrite (proj2 (Z.ltb_ge stop _)) by lia. cbn [negb orb].
  rewrite (reliable_read _ _ Hs) by lia. cbn [map_err].
  rewrite bool_decide_eq_true_2 by done. cbn [negb].
  rewrite audit_zero_range_pass by (done || lia).
  simpl. do 2 f_equal. lia.
Qed.

Inductive members_audited (f : ArchiveFormat) : Z -> list IrMember -> Z -> Prop :=
  | members_audited_nil off : members_audited f off [] off
  | members_audited_cons off m mid ms stop :
      member_audited f off m mid -> members_audited f mid ms stop ->
      members_audited f off (m :: ms) stop.

Lemma member_audited_forward f off m next :
  tar_member_typed m -> member_audited f off m next -> off + 512 <= next.
Proof.
  intros [Hsz _] (e & [_ _ _ _ _ Hn _ _ _ _]). pose proof (padded_spec _ Hsz). lia.
Qed.

Lemma members_audited_forward f off ms stop :
  Forall tar_member_typed ms -> members_audited f off ms stop -> off <= stop.
Proof.
  intros Ht Hm. induction Hm as [|off m mid ms stop H1 _ IH]; [lia|].
  inversion Ht; subst. apply member_audited_forward in H1; [|done]. specialize (IH ltac:(done)). lia.
Qed.

Lemma audit_tar_members_sound f stop off ms next :
  represents s bs -> Forall tar_member_typed ms ->
  audit_tar_members s f stop off ms = Some (Ok next) -> members_audited f off ms next.
Proof.
  intros Hs Ht. revert off. induction Ht as [|m ms Hm _ IH]; intros off H1; simpl in H1.
  - simplify_eq. constructor.
  - ok_steps H1. eapply members_audited_cons; [|by apply IH].
    by eapply audit_tar_member_sound.
Qed.

Lemma audit_tar_members_complete f stop off ms next :
  reliable s bs -> Forall tar_member_typed ms -> 0 <= off -> stop <= u64_max -> next <= stop ->
  members_audited f off ms next -> audit_tar_members s f stop off ms = Some (Ok next).
Proof.
  intros Hs Ht Ho Hstop Hle Hm. induction Hm as [|off m mid ms next H1 Hm IH]; [done|].
  inversion Ht; subst. pose proof (member_audited_forward _ _ _ _ ltac:(done) H1).
  pose proof (members_audited_forward _ _ _ _ ltac:(done) Hm).
  simpl. erewrite audit_tar_member_complete; [apply IH; done || lia|done..|lia].
Qed.

(** ** The whole snapshot *)

Definition tar_typed (ir : ArchiveIR) : Prop :=
  Forall tar_member_typed (members ir) /\
  forall c, tar_covering ir = Some c ->
    range_nonneg (tc_member_records c) /\ range_nonneg (tc_terminator c)
    /\ range_nonneg (tc_trailing_zeros c).

(** Member records from offset zero, two zero blocks, zeros to the end. *)
Record tar_partition (ir : ArchiveIR) (stop : Z) : Prop := {
  tp_covering : tar_covering ir = Some
    {| tc_member_records := mkrange 0 stop; tc_terminator := mkrange stop 1024;
       tc_trailing_zeros := mkrange (stop + 1024) (Z.of_nat (length bs) - (stop + 1024)) |};
  tp_members : members_audited (format ir) 0 (members ir) stop;
  tp_fits : stop + 1024 <= Z.of_nat (length bs);
  tp_zeros : all_zero (range stop (Z.of_nat (length bs) - stop) bs) = true
}.

Lemma audit_tar_covering_sound ir :
  represents s bs -> tar_typed ir -> audit_tar_covering s ir = Some (Ok ()) ->
  audit_tar_identity s ir = Ok () /\ exists stop, tar_partition ir stop.
Proof.
  intros Hs [Hm Hc] H1. unfold audit_tar_covering in H1. cbv zeta in H1.
  ok_step H1. ok_step H1. rename Hs1 into He. apply ok_or_ok in He.
  match type of He with _ = Some ?t => rename t into c end.
  destruct (Hc _ He) as (Hr & Ht & Hq). ok_steps H1. units. split; [done|].
  apply checked_range_end_ok in Hs1 as [-> _], Hs2 as [-> _], Hs3 as [-> _]. breflect.
  apply map_err_ok, (represents_read _ _ Hs) in Hs7 as [_ ->]; [|apply Ht|lia].
  apply audit_tar_members_sound in Hs5; [|done..].
  apply audit_zero_range_sound in H1 as [Hin Hz]; [|done..].
  destruct c as [[ro rl] [bo bl] [zo zl]]. unfold range_nonneg in *. cbn [offset len
    tc_member_records tc_terminator tc_trailing_zeros] in *.
  pose proof (represents_len _ _ Hs). exists rl. subst.
  replace zl with (Z.of_nat (length bs) - (rl + 1024)) in * by lia. split; [done|done|lia|].
  replace (Z.of_nat (length bs) - rl) with (1024 + (Z.of_nat (length bs) - (rl + 1024))) by lia.
  rewrite range_app, all_zero_app by lia. apply andb_true_iff. by split.
Qed.

Lemma audit_tar_covering_complete ir stop :
  reliable s bs -> tar_typed ir -> audit_tar_identity s ir = Ok () -> tar_partition ir stop ->
  audit_tar_covering s ir = Some (Ok ()).
Proof.
  intros Hs [Ht _] Hi [Hc Hm Hf Hz]. pose proof (reliable_represents _ _ Hs) as Hr.
  pose proof (represents_len _ _ Hr) as Hlen. pose proof (represents_u64 _ _ Hr).
  pose proof (members_audited_forward _ _ _ _ Ht Hm).
  unfold audit_tar_covering, checked_range_end. rewrite Hi, Hc.
  cbn [ok_or tc_member_records tc_terminator tc_trailing_zeros offset len mkrange].
  rewrite !u64_checked_add_le by lia. cbn [ok_or]. rewrite Hlen, Z.add_0_l, !Z.eqb_refl.
  rewrite (proj2 (Z.eqb_eq _ _)) by lia. cbn [negb orb].
  rewrite (audit_tar_members_complete _ stop _ _ stop) by (done || lia).
  rewrite Z.eqb_refl, (reliable_read _ _ Hs) by lia. cbn [negb map_err].
  replace (Z.of_nat (length bs) - stop) with (1024 + (Z.of_nat (length bs) - (stop + 1024))) in Hz by lia.
  rewrite range_app, all_zero_app in Hz by lia. apply andb_true_iff in Hz as [-> Hz]. cbn [negb].
  apply audit_zero_range_pass; done || lia.
Qed.

(** *** The audit always returns *)

Lemma audit_tar_member_total f stop off m :
  tar_member_typed m -> exists r, audit_tar_member s f stop off m = Some r.
Proof.
  intros [_ Ht]. unfold audit_tar_member.
  destruct (tar_evidence m) as [e|]; cbn [ok_or]; [|case_match; eauto].
  destruct (Ht _ eq_refl) as (_ & _ & Hq).
  destruct (audit_zero_range_total _ "claimed TAR member padding contains nonzero bytes" Hq) as [x ->].
  cbn [exec_map_err option_map]. repeat (case_match; eauto).
Qed.

Lemma audit_tar_members_total f stop off ms :
  Forall tar_member_typed ms -> exists r, audit_tar_members s f stop off ms = Some r.
Proof.
  intros Ht. revert off. induction Ht as [|m ms Hm _ IH]; intros off; simpl; [eauto|].
  destruct (audit_tar_member_total f stop off _ Hm) as [[x|x] ->]; eauto.
Qed.

Lemma audit_tar_covering_total ir :
  tar_typed ir -> exists r, audit_tar_covering s ir = Some r.
Proof.
  intros [Hm Ht]. unfold audit_tar_covering. case_match; [|eauto].
  destruct (tar_covering ir) as [c|]; cbn [ok_or]; [|eauto].
  destruct (Ht _ eq_refl) as (_ & _ & Hq).
  destruct (audit_zero_range_total _
    "claimed TAR trailing record padding contains nonzero bytes" Hq) as [x Hx].
  do 3 (destruct (checked_range_end _ _); [|eauto]). case_match; [eauto|].
  edestruct (audit_tar_members_total (format ir)) as [[e|e] ->]; [done| |eauto].
  rewrite Hx. repeat (case_match; eauto).
Qed.

(** ** The planned members of an accepted archive *)

(** A member with the path the planner gave it. *)
Definition planned_tar : Type := TarMember * list str * list NormalizationAction.
Definition plan_members (w : TarPayloadWrapper) (planned : list planned_tar) : list IrMember :=
  map (fun p => from_tar_planned_for_format p.1.1 p.1.2 p.2 w) planned.

Definition wrapped_format (w : TarPayloadWrapper) : ArchiveFormat :=
  match w with
  | Raw => TarUstar | Gzip => TarGzipUstar | Zstd => TarZstdUstar
  | Xz => TarXzUstar | Bzip2 => TarBzip2Ustar
  end.

Lemma members_audited_snoc f off ms mid m stop :
  members_audited f off ms mid -> member_audited f mid m stop ->
  members_audited f off (ms ++ [m]) stop.
Proof.
  intros Hms Hm. induction Hms; simpl; [|eapply members_audited_cons; eauto].
  eapply members_audited_cons; [done|constructor].
Qed.

Lemma planned_member_audited w off m c a :
  0 <= off -> off mod 512 = 0 -> ustar_record bs off m ->
  member_audited (wrapped_format w) off (from_tar_planned_for_format m c a w)
    (off + BLOCK_LEN + padded (Tar.size m)).
Proof.
  intros Ho Ha Hm. pose proof (record_size _ _ _ Hm) as Hsz.
  pose proof (padded_spec (Tar.size m) ltac:(lia)) as [_ Hpa].
  destruct Hm as [(m0 & Hm & ->) Hf Hz]. apply ustar_header_facts in Hm as [Hh Hd].
  exists (tar_member_evidence (place_member m0 (mkrange (off + BLOCK_LEN) (Tar.size m0))
          (mkrange (off + BLOCK_LEN + Tar.size m0) (padded (Tar.size m0) - Tar.size m0)))).
  unfold BLOCK_LEN in *. simpl in *.
  split; simpl; try done; try (by destruct w).
  Z.div_mod_to_equations. lia.
Qed.

Lemma records_aligned off ms stop :
  off mod 512 = 0 -> ustar_records bs off ms stop -> stop mod 512 = 0.
Proof.
  intros Ha Hr. induction Hr as [|off ms mid m Hr IH Hm]; [done|].
  pose proof (record_size _ _ _ Hm) as Hsz. pose proof (padded_spec (Tar.size m) ltac:(lia)).
  specialize (IH Ha). unfold BLOCK_LEN. Z.div_mod_to_equations. lia.
Qed.

Lemma planned_members_audited w off stop planned :
  0 <= off -> off mod 512 = 0 -> ustar_records bs off (map (fun p => p.1.1) planned) stop ->
  members_audited (wrapped_format w) off (plan_members w planned) stop.
Proof.
  intros Ho Ha Hr. remember (map _ planned) as ms eqn:E. revert planned E.
  induction Hr as [off|off ms mid m Hr IH Hm]; intros planned E.
  - destruct planned; [constructor|done].
  - symmetry in E. apply map_eq_app in E as (p1 & p2 & -> & E1 & E2).
    destruct p2 as [|[[m' c] a] [|? ?]]; simplify_eq/=. unfold plan_members. rewrite map_app.
    pose proof (records_bound _ _ _ _ Ho Hr) as [Hb _].
    pose proof (records_aligned _ _ _ Ha Hr).
    eapply members_audited_snoc; [by apply IH|apply planned_member_audited; [unfold BLOCK_LEN in *; lia|done..]].
Qed.

Lemma planned_member_typed w off m c a :
  0 <= off -> ustar_record bs off m -> tar_member_typed (from_tar_planned_for_format m c a w).
Proof.
  intros Ho Hm. pose proof (record_size _ _ _ Hm) as Hsz.
  pose proof (padded_spec (Tar.size m) ltac:(lia)) as [Hpad _].
  destruct Hm as [(m0 & Hm & ->) Hf Hz]. apply ustar_header_facts in Hm as [Hh Hd].
  unfold BLOCK_LEN, tar_member_typed, range_nonneg in *. simpl in *. split; [lia|].
  intros e He. destruct w; apply (inj Some) in He; subst e; simpl; rewrite Hh; simpl; lia.
Qed.

Lemma planned_members_typed w off stop planned :
  0 <= off -> ustar_records bs off (map (fun p => p.1.1) planned) stop ->
  Forall tar_member_typed (plan_members w planned).
Proof.
  intros Ho Hr. remember (map _ planned) as ms eqn:E. revert planned E.
  induction Hr as [off|off ms mid m Hr IH Hm]; intros planned E.
  - destruct planned; [constructor|done].
  - symmetry in E. apply map_eq_app in E as (p1 & p2 & -> & E1 & E2).
    destruct p2 as [|[[m' c] a] [|? ?]]; simplify_eq/=. unfold plan_members. rewrite map_app.
    pose proof (records_bound _ _ _ _ Ho Hr) as [Hb _]. apply Forall_app. split; [by apply IH|].
    constructor; [|constructor]. apply planned_member_typed with mid; [|done].
    unfold BLOCK_LEN in *. lia.
Qed.

(** A representation that says what the parser read. *)
Record plans_ustar (w : TarPayloadWrapper) (a : TarArchive) (planned : list planned_tar)
    (ir : ArchiveIR) : Prop := {
  plans_kept : map (fun p => p.1.1) planned = Tar.members a;
  plans_members : members ir = plan_members w planned;
  plans_format : format ir = wrapped_format w;
  plans_covering : tar_covering ir = Some
    {| tc_member_records := Tar.member_records a; tc_terminator := Tar.terminator a;
       tc_trailing_zeros := Tar.trailing_zeros a |}
}.

Lemma plans_ustar_typed w a planned ir :
  ustar_archive bs a -> plans_ustar w a planned ir -> tar_typed ir.
Proof.
  intros Ha [Hk Hm _ Hc]. pose proof (archive_records _ _ Ha) as Hr. rewrite <- Hk in Hr. split.
  - rewrite Hm. by apply planned_members_typed with 0 (len (member_records a)).
  - intros c Hc'. rewrite Hc in Hc'. simplify_eq. rewrite (archive_layout _ _ Ha).
    pose proof (archive_fits _ _ Ha). apply records_bound in Hr as [Hb _]; [|lia].
    unfold range_nonneg, BLOCK_LEN in *. simpl in *. lia.
Qed.

Lemma plans_ustar_partition w a planned ir :
  ustar_archive bs a -> plans_ustar w a planned ir ->
  tar_partition ir (len (member_records a)).
Proof.
  intros Ha [Hk Hm Hf Hc]. pose proof (archive_records _ _ Ha) as Hr. rewrite <- Hk in Hr.
  pose proof (archive_fits _ _ Ha). unfold BLOCK_LEN in *. split.
  - rewrite Hc, (archive_layout _ _ Ha). done.
  - rewrite Hm, Hf. by apply planned_members_audited.
  - lia.
  - apply (archive_zeros _ _ Ha).
Qed.

Lemma plans_ustar_audited w a planned ir :
  reliable s bs -> ustar_archive bs a -> plans_ustar w a planned ir ->
  audit_tar_identity s ir = Ok () -> audit_tar_covering s ir = Some (Ok ()).
Proof.
  intros Hs Ha Hp Hi. eapply audit_tar_covering_complete; [done| |done|].
  - by eapply plans_ustar_typed.
  - by eapply plans_ustar_partition.
Qed.

(** C16: On a snapshot that returns its bytes, the audit always returns, and it
    passes exactly when the claimed source (or derived-domain) identity is the
    snapshot's, the member records lie end to end from offset zero with the
    claimed header digests and zero padding, two zero blocks follow and only
    zeros remain. *)
Theorem audit_tar_covering_iff ir :
  reliable s bs -> tar_typed ir ->
  (exists r, audit_tar_covering s ir = Some r) /\
  (audit_tar_covering s ir = Some (Ok ()) <->
   audit_tar_identity s ir = Ok () /\ exists stop, tar_partition ir stop).
Proof.
  intros Hs Ht. split; [by apply audit_tar_covering_total|split].
  - intros Ha. apply audit_tar_covering_sound; [by apply reliable_represents|done..].
  - intros [Hi [stop Hp]]. by eapply audit_tar_covering_complete.
Qed.
End Audit.

(** ** An archive of one file and its audited plan *)

Definition canonical_ir (source : SourceDigest) : ArchiveIR :=
  let _ := null_sha256 in
  {| schema := "sealr.archive-ir.tar-ustar.v1"; profile := "sealr.profile.tar.ustar-portable.v1";
     profile_digest := []; source_digest := source;
     evidence := ArTar {| tc_member_records := Tar.member_records canonical_archive;
                          tc_terminator := Tar.terminator canonical_archive;
                          tc_trailing_zeros := Tar.trailing_zeros canonical_archive |};
     members := plan_members Raw
       (map (fun m => (m, [Tar.name m], [])) (Tar.members canonical_archive)) |}.

Lemma canonical_plans source :
  @plans_ustar Raw canonical_archive
    (map (fun m => (m, [Tar.name m], [])) (Tar.members canonical_archive)) (canonical_ir source).
Proof. split; [|done..]. rewrite map_map. apply map_id. Qed.

Lemma audit_tar_covering_iff_witness :
  let _ := null_sha256 in
  audit_tar_covering canonical_snapshot (canonical_ir (digest canonical_snapshot)) = Some (Ok ())
  /\ audit_tar_covering canonical_snapshot (canonical_ir DigestUnavailable) <> Some (Ok ()).
Proof.
  pose proof canonical_in_grammar as Ha.
  assert (forall source, tar_typed (canonical_ir source)) as Ht
    by (intros; eapply plans_ustar_typed; [exact Ha|apply canonical_plans]).
  split.
  - apply (@audit_tar_covering_iff null_sha256 canonical_snapshot canonical_fuzz_archive
      (canonical_ir (digest canonical_snapshot)) canonical_reliable (Ht _)).
    split; [vm_compute; reflexivity|]. eexists.
    eapply plans_ustar_partition; [exact Ha|apply canonical_plans].
  - intros Hp.
    apply (@audit_tar_covering_iff null_sha256 canonical_snapshot canonical_fuzz_archive
      (canonical_ir DigestUnavailable) canonical_reliable (Ht _)) in Hp as [Hi _].
    vm_compute in Hi. discriminate Hi.
Defined.
