(* ===== verification/CoveringGnu.v ===== *)
(** * The old-GNU covering audit ([covering.rs])

    The audit replays the carrier state machine over the claimed records with
    its own header reading ([AuditHeaders]), and compares every carrier and
    member with the recorded evidence. *)

From S2P Require Import Prelude Utf8 Findings Interval Snapshot Ir Layout TarFields Tar TarGnu Evidence Covering AuditHeaders.
Local Open Scope Z_scope.
Local Open Scope rust_scope.

Definition TAR_BLOCK_LEN : Z := 512.
Definition GNU_MAX_CARRIERS : Z := 1024.
Definition GNU_MAX_PATH_BYTES : Z := 8191.

#[export] Instance GnuLongNamePathSource_eq_dec : EqDecision GnuLongNamePathSource.
Proof. solve_decision. Defined.

(** [str::strip_suffix('/')]. *)
Definition strip_suffix_slash (s : str) : option str :=
  if bool_decide (last s = Some x2f) then Some (removelast s) else None.
Definition strip_actions (m : IrMember) : nat :=
  length (filter (fun a => a = StripDirectoryTrailingSlash) (normalization_actions m)).

(** What a carrier or member record is at the offset of its header. *)
Record GnuRecord : Type := { gr_header_end : Z; gr_payload_end : Z; gr_padded_size : Z; gr_record_end : Z }.

(** The replayed state. *)
Record GnuAudit : Type := {
  au_cursor : Z; au_carrier_index : nat; au_member_index : nat; au_pending : option Z
}.

Section Audit.
Context `{!Sha256, !Allocator}.

(** The two [match]es on the format. *)
Definition audit_gnu_identity (snapshot : SourceSnapshot) (ir : ArchiveIR) : result unit Finding :=
  match format ir with
  | FormatTarGnuLongName =>
      reject negb (bool_decide (source_digest ir = digest snapshot))
        with fail "source digest does not match the GNU TAR snapshot" ;;
      Ok ()
  | FormatTarGzipGnuLongName =>
      let? gzip := ok_or (gzip_evidence ir) (fail "gzip-wrapped GNU TAR IR has no wrapper evidence") in
      reject negb (gz_derived_output_len gzip =? src_len snapshot)
             || negb (bool_decide (digest_sha256 (digest snapshot) = Some (gz_derived_output_sha256 gzip)))
        with fail "derived GNU TAR identity does not match its snapshot" ;;
      Ok ()
  | _ => Err (fail "GNU TAR covering audit received a non-GNU IR")
  end.

(** The geometry of the record whose header is at [cursor]. *)
Definition gnu_record_geometry (member_end header_end size : Z) : result GnuRecord Finding :=
  let? padded_size := ok_or (u64_checked_add size ((TAR_BLOCK_LEN - size mod TAR_BLOCK_LEN) mod TAR_BLOCK_LEN))
    (fail "GNU record alignment overflowed") in
  let? payload_end := ok_or (u64_checked_add header_end size) (fail "GNU payload end overflowed") in
  let? record_end := ok_or (u64_checked_add header_end padded_size) (fail "GNU record end overflowed") in
  reject member_end <? record_end with fail "GNU record crosses the member-record covering" ;;
  Ok {| gr_header_end := header_end; gr_payload_end := payload_end; gr_padded_size := padded_size;
        gr_record_end := record_end |}.

(** An [L] record. *)
Definition audit_gnu_carrier (snapshot : SourceSnapshot) (carriers : list GnuLongNameCarrierEvidence)
    (st : GnuAudit) (header : list byte) (facts : GnuHeaderFacts) (g : GnuRecord) :
    exec GnuAudit Finding :=
  reject! bool_decide (is_Some (au_pending st)) with fail "GNU long-name carriers are chained" ;;
  reject! (gf_size facts <? 2) || (GNU_MAX_PATH_BYTES + 1 <? gf_size facts)
    with fail "GNU carrier payload is outside the closed bound" ;;
  let* carrier := ok_or (carriers !! au_carrier_index st) (fail "GNU source has an unrecorded carrier") in
  let padding_len := gr_padded_size g - gf_size facts in
  let path_len := gf_size facts - 1 in
  reject! negb (bool_decide (ge_header carrier = mkrange (au_cursor st) TAR_BLOCK_LEN))
          || negb (bool_decide (ge_payload carrier = mkrange (gr_header_end g) (gf_size facts)))
          || negb (bool_decide (ge_path carrier = mkrange (gr_header_end g) path_len))
          || negb (bool_decide (ge_padding carrier = mkrange (gr_payload_end g) padding_len))
          || negb (bytes_eqb (ge_raw_name_bytes carrier) (gf_name facts))
          || negb (ge_mode carrier =? gf_mode facts)
          || negb (ge_mtime carrier =? gf_mtime facts)
          || negb (ge_header_checksum carrier =? gf_checksum facts)
          || negb (bytes_eqb (ge_header_sha256 carrier) (hex_sha256 header))
    with fail "GNU carrier evidence disagrees with its header" ;;
  let* payload := map_err (fun _ => fail "GNU carrier payload is outside the snapshot")
    (read_vec snapshot (gr_header_end g) (gf_size facts)) in
  let path := take (length payload - 1) payload in
  reject! negb (bool_decide (last payload = Some x00)) || existsb is_zero_byte path
          || bool_decide (from_utf8 path = None)
          || negb (bytes_eqb (ge_path_bytes carrier) path)
          || negb (bytes_eqb (ge_payload_sha256 carrier) (hex_sha256 payload))
    with fail "GNU carrier payload evidence or final NUL disagrees" ;;
  let! _ := audit_zero_range snapshot (ge_padding carrier) "GNU carrier padding contains nonzero bytes" in
  reject! u32_max <? Z.of_nat (au_carrier_index st) with fail "GNU carrier index does not fit u32" ;;
  Some (Ok {| au_cursor := gr_record_end g; au_carrier_index := S (au_carrier_index st);
              au_member_index := au_member_index st; au_pending := Some (Z.of_nat (au_carrier_index st)) |}).

(** The name a member must have, by the carrier before it or its header. *)
Definition gnu_effective_name (carriers : list GnuLongNameCarrierEvidence) (pending : option Z)
    (source : GnuLongNamePathSource) (member : str) (header_name : list byte) : result (list byte) Finding :=
  match pending with
  | Some index =>
      reject negb (bool_decide (source = Carrier index))
        with on (fail "GNU member carrier provenance is stale or missing") member ;;
      let? carrier := ok_or (carriers !! Z.to_nat index)
        (fail "GNU member carrier provenance is out of range") in
      Ok (ge_path_bytes carrier)
  | None =>
      reject negb (bool_decide (source = Header)) || bool_decide (from_utf8 header_name = None)
        with on (fail "GNU header-name provenance is inconsistent") member ;;
      Ok header_name
  end.

(** The trailing slash of a directory is stripped once, and nothing else is. *)
Definition gnu_slash_consistent (m : IrMember) : result unit Finding :=
  if bool_decide (ir_kind m = KindDirectory) then
    let canonical :=
      match strip_suffix_slash (decoded_name m) with
      | Some path => (strip_actions m =? 1)%nat && bytes_eqb (canonical_path m) path
      | None => (strip_actions m =? 0)%nat && bytes_eqb (canonical_path m) (decoded_name m)
      end in
    reject negb canonical with on (fail "GNU directory slash normalization is inconsistent") (decoded_name m) ;;
    Ok ()
  else
    reject negb (strip_actions m =? 0)%nat
      with on (fail "GNU file has directory-only normalization evidence") (decoded_name m) ;;
    Ok ().

(** Any other record. *)
Definition audit_gnu_member (snapshot : SourceSnapshot) (carriers : list GnuLongNameCarrierEvidence)
    (members : list IrMember) (st : GnuAudit) (header : list byte) (facts : GnuHeaderFacts) (g : GnuRecord) :
    exec GnuAudit Finding :=
  let* member := ok_or (members !! au_member_index st) (fail "GNU source has an unrecorded ordinary member") in
  reject! negb (bool_decide (member_format member ∈ [FormatTarGnuLongName; FormatTarGzipGnuLongName]))
    with fail "GNU member evidence carries the wrong format" ;;
  let* evidence := ok_or (tar_gnu_longname_evidence member) (fail "GNU member lacks format-specific evidence") in
  let expected_kind := if bool_decide (gf_typeflag facts = "5"%byte) then KindDirectory else KindFile in
  let padding_len := gr_padded_size g - gf_size facts in
  let tar := ne_tar evidence in
  reject! negb (bool_decide (ir_kind member = expected_kind))
          || negb (declared_uncomp_size member =? gf_size facts)
          || negb (bytes_eqb (ne_base_name_bytes evidence) (gf_name facts))
          || negb (bool_decide (te_header tar = mkrange (au_cursor st) TAR_BLOCK_LEN))
          || negb (bool_decide (te_payload tar = mkrange (gr_header_end g) (gf_size facts)))
          || negb (bool_decide (te_padding tar = mkrange (gr_payload_end g) padding_len))
          || negb (te_mode tar =? gf_mode facts)
          || negb (te_mtime tar =? gf_mtime facts)
          || negb (te_header_checksum tar =? gf_checksum facts)
          || negb (bytes_eqb (te_header_sha256 tar) (hex_sha256 header))
    with on (fail "GNU ordinary-member evidence disagrees with its header") (decoded_name member) ;;
  let* expected_effective := gnu_effective_name carriers (au_pending st) (ne_path_source evidence)
    (decoded_name member) (gf_name facts) in
  reject! negb (bytes_eqb (ir_raw_name_bytes member) expected_effective)
          || negb (bytes_eqb (decoded_name member) expected_effective)
          || negb (bytes_eqb (join_slash (ir_components member)) (canonical_path member))
    with on (fail "GNU effective pathname evidence is inconsistent") (decoded_name member) ;;
  let* _ := gnu_slash_consistent member in
  let! _ := exec_map_err (fun finding => on finding (decoded_name member))
    (audit_zero_range snapshot (te_padding tar) "GNU member padding contains nonzero bytes") in
  Some (Ok {| au_cursor := gr_record_end g; au_carrier_index := au_carrier_index st;
              au_member_index := S (au_member_index st); au_pending := None |}).

(** One iteration of the loop. *)
Definition gnu_audit_step (snapshot : SourceSnapshot) (carriers : list GnuLongNameCarrierEvidence)
    (members : list IrMember) (member_end : Z) (st : GnuAudit) : exec (control GnuAudit GnuAudit) Finding :=
  if negb (au_cursor st <? member_end) then Some (Ok (Return st))
  else
    let* header_end := ok_or (u64_checked_add (au_cursor st) TAR_BLOCK_LEN) (fail "GNU header end overflowed") in
    reject! member_end <? header_end with fail "GNU header crosses the member-record covering" ;;
    let* header := map_err (fun _ => fail "GNU header is outside the snapshot")
      (src_read snapshot (au_cursor st) TAR_BLOCK_LEN) in
    let* facts := audit_gnu_header header in
    let* g := gnu_record_geometry member_end header_end (gf_size facts) in
    let! st :=
      (if bool_decide (gf_typeflag facts = "L"%byte)
       then audit_gnu_carrier snapshot carriers st header facts g
       else audit_gnu_member snapshot carriers members st header facts g) in
    Some (Ok (Continue st)).

(** [audit_tar_gnu_longname_covering]; every iteration advances a block. *)
Definition audit_tar_gnu_longname_covering (snapshot : SourceSnapshot) (ir : ArchiveIR) : exec unit Finding :=
  let* _ := audit_gnu_identity snapshot ir in
  let* archive := ok_or (archive_gnu_evidence ir) (fail "GNU TAR IR has no GNU archive evidence") in
  reject! GNU_MAX_CARRIERS <? Z.of_nat (length (na_carriers archive))
    with fail "GNU carrier evidence exceeds the closed profile cap" ;;
  let covering := na_tar archive in
  let* member_end := checked_range_end (tc_member_records covering) "GNU member covering overflow" in
  let* terminator_end := checked_range_end (tc_terminator covering) "GNU terminator overflow" in
  let* trailing_end := checked_range_end (tc_trailing_zeros covering) "GNU trailing range overflow" in
  reject! negb (offset (tc_member_records covering) =? 0)
          || negb (offset (tc_terminator covering) =? member_end)
          || negb (len (tc_terminator covering) =? TAR_BLOCK_LEN * 2)
          || negb (offset (tc_trailing_zeros covering) =? terminator_end)
          || negb (trailing_end =? src_len snapshot)
    with fail "GNU TAR covering does not exactly partition the snapshot" ;;
  let! st := run_loop (gnu_audit_step snapshot (na_carriers archive) (members ir) member_end)
    (2 + Z.to_nat (member_end / TAR_BLOCK_LEN))
    {| au_cursor := 0; au_carrier_index := 0; au_member_index := 0; au_pending := None |} in
  reject! bool_decide (is_Some (au_pending st))
          || negb (au_carrier_index st =? length (na_carriers archive))%nat
          || negb (au_member_index st =? length (members ir))%nat
          || negb (au_cursor st =? member_end)
    with fail "GNU state or evidence tables do not exactly consume the source" ;;
  let* terminator := map_err (fun _ => fail "GNU terminator is outside the snapshot")
    (src_read snapshot (offset (tc_terminator covering)) (TAR_BLOCK_LEN * 2)) in
  reject! negb (all_zero terminator) with fail "GNU terminator contains nonzero bytes" ;;
  audit_zero_range snapshot (tc_trailing_zeros covering)
    "GNU trailing record padding contains nonzero bytes".
End Audit.
