(* ===== verification/CoveringGnuAgree.v ===== *)
(** * The old-GNU parser and its covering audit agree

    [tar_gnu.rs] and the audit of [covering.rs] read the same archives without
    sharing a header function.  On a source that returns its bytes the audit
    passes exactly on the representations of the archive the grammar of the
    parser finds in them ([TarGnuRefine]). *)

From S2P Require Import Prelude Utf8 Findings Interval Snapshot Ir Layout TarFields Tar TarWrite TarGnu TarGnuRefine Evidence Covering CoveringTar ZipSearch AuditHeaders CoveringGnu.
Local Open Scope Z_scope.
Local Open Scope rust_scope.

(** ** A representation that says what the parser read *)

Definition carrier_evidence (c : GnuLongNameCarrier) : GnuLongNameCarrierEvidence :=
  {| ge_raw_name_bytes := c_raw_name c; ge_path_bytes := c_path_bytes c; ge_header := c_header c;
     ge_payload := c_payload c; ge_path := c_path c; ge_padding := c_padding c; ge_mode := c_mode c;
     ge_mtime := c_mtime c; ge_header_checksum := c_header_checksum c;
     ge_header_sha256 := c_header_sha256 c; ge_payload_sha256 := c_payload_sha256 c |}.
Definition member_evidence (g : GnuLongNameMember) : TarGnuLongNameMemberEvidence :=
  {| ne_tar := {| te_header := g_header g; te_payload := g_payload g; te_padding := g_padding g;
                  te_mode := g_mode g; te_mtime := g_mtime g; te_header_checksum := g_header_checksum g;
                  te_header_sha256 := g_header_sha256 g |};
     ne_base_name_bytes := g_raw_name g;
     ne_path_source := match g_carrier_index g with None => Header | Some i => Carrier i end |}.
Definition covering_of (a : GnuLongNameArchive) : TarGnuLongNameArchiveEvidence :=
  {| na_tar := {| tc_member_records := g_member_records a; tc_terminator := g_terminator a;
                  tc_trailing_zeros := g_trailing_zeros a |};
     na_carriers := map carrier_evidence (g_carriers a) |}.

Record says_member (g : GnuLongNameMember) (m : IrMember) : Prop := {
  sm_format : member_format m ∈ [FormatTarGnuLongName; FormatTarGzipGnuLongName];
  sm_evidence : tar_gnu_longname_evidence m = Some (member_evidence g);
  sm_kind : ir_kind m = kind_of (g_is_dir g);
  sm_size : declared_uncomp_size m = g_size g;
  sm_raw : ir_raw_name_bytes m = g_name g;
  sm_name : decoded_name m = g_name g;
  sm_path : join_slash (ir_components m) = canonical_path m;
  sm_slash : gnu_slash_consistent m = Ok ()
}.
Record says_gnu (ir : ArchiveIR) (a : GnuLongNameArchive) : Prop := {
  sg_covering : archive_gnu_evidence ir = Some (covering_of a);
  sg_members : Forall2 says_member (g_members a) (members ir)
}.

Definition archive_ranges_typed (ir : ArchiveIR) : Prop :=
  forall e, archive_gnu_evidence ir = Some e ->
    range_nonneg (tc_member_records (na_tar e)) /\ range_nonneg (tc_terminator (na_tar e))
    /\ range_nonneg (tc_trailing_zeros (na_tar e)).

(** ** Geometry *)

Lemma gnu_geometry_iff stop he size g :
  0 <= he -> 0 <= size -> stop <= u64_max ->
  gnu_record_geometry stop he size = Ok g <->
  he + padded size <= stop
  /\ g = {| gr_header_end := he; gr_payload_end := he + size; gr_padded_size := padded size;
            gr_record_end := he + padded size |}.
Proof.
  intros Hh Hsz Hst. pose proof (padded_spec size Hsz) as Hp. unfold gnu_record_geometry, TAR_BLOCK_LEN.
  rewrite expected_padding_eq by done. replace (size + (padded size - size)) with (padded size) by lia.
  split.
  - intros Hg. ok_steps Hg. breflect.
    repeat match goal with H : ok_or _ _ = Ok _ |- _ => apply ok_or_ok, u64_checked_add_Some in H as [-> H] end.
    replace (size + (padded size - size)) with (padded size) in * by lia.
    simplify_eq. split; [lia|done].
  - intros [Hle ->]. rewrite !u64_checked_add_le by lia. cbn [ok_or].
    replace (size + (padded size - size)) with (padded size) by lia.
    rewrite u64_checked_add_le by lia. cbn [ok_or]. by rewrite (proj2 (Z.ltb_ge _ _)) by lia.
Qed.

(** ** One record *)

Lemma text_field_decodes hdr name :
  (512 <= length hdr)%nat -> TarFields.parse_text_field (slice 0 100 hdr) "name" false = Ok name ->
  bool_decide (from_utf8 name = None) = false <-> decode_effective_path name = Ok name.
Proof.
  intros Hl Hn. apply parse_text_field_ok in Hn as ((rest & Hr & _) & Hz & Hne).
  assert (length (slice 0 100 hdr) = 100%nat) as H100 by (rewrite length_slice; lia).
  rewrite Hr, length_app in H100. unfold decode_effective_path.
  rewrite (proj2 (validate_effective_path_ok name)).
  2:{ split_and!; [by apply Hne|unfold MAX_EFFECTIVE_PATH_BYTES; lia|done]. }
  rewrite bool_decide_eq_false. split.
  - intros Hf. destruct (from_utf8 name) eqn:E; [|done]. by apply from_utf8_Some in E as [-> _].
  - intros Hd. destruct (from_utf8 name); [done|discriminate Hd].
Qed.

Section Records.
Context `{!Sha256, !Allocator} (s : SourceSnapshot) (bs : list byte).
Context (Hs : reliable s bs) (Halloc : forall site n, try_reserve site n = true).
Context (carriers : list GnuLongNameCarrierEvidence) (ir_members : list IrMember).

Definition audit_at (ms : list GnuLongNameMember) (cs : list GnuLongNameCarrier)
    (pend : option PendingLongName) (off : Z) : GnuAudit :=
  {| au_cursor := off; au_carrier_index := length cs; au_member_index := length ms;
     au_pending := option_map pl_carrier_index pend |}.
Definition geometry_at (off : Z) (h : ParsedHeader) : GnuRecord :=
  {| gr_header_end := off + BLOCK_LEN; gr_payload_end := off + BLOCK_LEN + p_size h;
     gr_padded_size := padded (p_size h); gr_record_end := record_stop off h |}.

(** A pending name is the path of the carrier it came from. *)
Definition pending_recorded (pend : option PendingLongName) : Prop :=
  forall p, pend = Some p -> exists c, carriers !! Z.to_nat (pl_carrier_index p) = Some c
    /\ ge_path_bytes c = pl_path p.
Definition named_as (pend : option PendingLongName) (h : ParsedHeader) (name : str) (index : option Z) : Prop :=
  match pend with
  | Some p => name = pl_path p /\ index = Some (pl_carrier_index p)
  | None => name = p_raw_name h /\ index = None /\ decode_effective_path name = Ok name
  end.

Context (hdr : list byte) (off : Z) (h : ParsedHeader).
Context (Hhdr : hdr = range off BLOCK_LEN bs) (Hoff : 0 <= off)
  (Hh : parse_header hdr off = Ok h)
  (Hfit : record_stop off h <= Z.of_nat (length bs)).

Lemma header_at_length : length hdr = 512%nat.
Proof using Hfit Hh Hhdr Hoff.
  clear Hs Halloc. pose proof (gnu_parse_header_size _ _ _ Hh). pose proof (padded_spec (p_size h) ltac:(lia)).
  unfold record_stop in *. rewrite Hhdr, length_range; unfold BLOCK_LEN in *; lia.
Qed.
Lemma header_at_sha : p_header_sha256 h = hex_sha256 hdr /\ p_header h = mkrange off BLOCK_LEN.
Proof using Hh.
  clear - Hh. apply parse_gnu_fields in Hh as (? & ? & ? & ? & ? & _ & _ & _ & ->). done.
Qed.

Definition padding_zero : Prop :=
  all_zero (range (off + BLOCK_LEN + p_size h) (padded (p_size h) - p_size h) bs) = true.

Lemma padding_audited d :
  audit_zero_range s (mkrange (off + BLOCK_LEN + p_size h) (padded (p_size h) - p_size h)) d = Some (Ok ())
  <-> padding_zero.
Proof using Hfit Hh Hoff Hs.
  pose proof (gnu_parse_header_size _ _ _ Hh). pose proof (padded_spec (p_size h) ltac:(lia)).
  unfold record_stop, BLOCK_LEN in *.
  rewrite (audit_zero_range_ok s bs) by (done || (split; simpl; lia)). simpl. unfold padding_zero, BLOCK_LEN.
  split; [by intros []|]. intros Hz. split; [lia|done].
Qed.

Lemma carrier_payload_tests (payload path : list byte) :
  path = take (length payload - 1) payload ->
  (2 <= Z.of_nat (length payload) <= MAX_CARRIER_PAYLOAD_BYTES) ->
  (bool_decide (last payload = Some x00) = true /\ existsb is_zero_byte path = false
   /\ bool_decide (from_utf8 path = None) = false) <-> carrier_payload payload path.
Proof using.
  clear. intros Hp Hlen. split.
  - intros (Hl & Hz & Hu). apply bool_decide_eq_true in Hl. apply last_Some in Hl as [l Hl].
    rewrite Hl, length_app, Nat.add_sub, take_app_length in Hp. subst path.
    apply existsb_zero in Hz. apply bool_decide_eq_false in Hu.
    rewrite Hl, length_app in Hlen. simpl in Hlen. unfold MAX_CARRIER_PAYLOAD_BYTES in Hlen.
    split; [done| |done|].
    + split; [|lia]. intros ->. simpl in Hlen. lia.
    + destruct (from_utf8 l) eqn:E; [|done]. by apply from_utf8_Some in E as [_ [? ->]].
  - intros [-> [Hne Hle] Hn [cs Hc]]. rewrite last_snoc, bool_decide_eq_true_2 by done.
    rewrite (proj2 (existsb_zero path)) by done. unfold from_utf8. rewrite Hc. by rewrite bool_decide_eq_false_2.
Qed.

Lemma audit_carrier_iff ms cs pend st' :
  Z.of_nat (length cs) < Z.of_nat (length carriers) + 1 -> Z.of_nat (length carriers) <= MAX_CARRIERS ->
  audit_gnu_carrier s carriers (audit_at ms cs pend off) hdr (gnu_facts hdr h) (geometry_at off h) = Some (Ok st')
  <-> pend = None /\ p_size h <= MAX_CARRIER_PAYLOAD_BYTES /\ padding_zero /\
      exists path, carrier_payload (range (off + BLOCK_LEN) (p_size h) bs) path
        /\ carriers !! length cs = Some (carrier_evidence (carrier_at bs h off path))
        /\ st' = audit_at ms (cs ++ [carrier_at bs h off path])
             (Some {| pl_path := path; pl_carrier_index := Z.of_nat (length cs) |}) (record_stop off h).
Proof using Hs Halloc Hhdr Hoff Hh Hfit.
  intros Hcs Hmax. pose proof (gnu_parse_header_size _ _ _ Hh) as Hsz.
  pose proof (padded_spec (p_size h) ltac:(lia)) as Hpad. destruct header_at_sha as [Hsha Hhd].
  pose proof Hfit as Hfit'. unfold record_stop in Hfit'.
  assert (Hlen : Z.of_nat (length (range (off + BLOCK_LEN) (p_size h) bs)) = p_size h)
    by (rewrite length_range; unfold BLOCK_LEN in *; lia).
  unfold audit_gnu_carrier. cbn [au_pending au_carrier_index au_cursor au_member_index audit_at geometry_at
    gr_header_end gr_payload_end gr_padded_size gr_record_end gnu_facts gf_size gf_name gf_mode gf_mtime gf_checksum].
  unfold GNU_MAX_PATH_BYTES, TAR_BLOCK_LEN in *. unfold MAX_CARRIER_PAYLOAD_BYTES, MAX_EFFECTIVE_PATH_BYTES in *.
  split.
  - intros H1. ok_step H1. ok_step H1. ok_step H1. ok_steps H1. breflect. units.
    repeat match goal with
      | H : bytes_eqb _ _ = true |- _ => apply bytes_eqb_iff in H
      | H : bool_decide (_ = mkrange _ _) = true |- _ => apply bool_decide_eq_true in H end.
    match goal with H : map_err _ (read_vec _ _ _) = _ |- _ =>
      apply map_err_ok, (read_vec_sound s bs) in H as [_ ->];
        [|by apply reliable_represents|unfold BLOCK_LEN in *; lia..] end.
    match goal with H : ok_or (carriers !! _) _ = Ok ?c |- _ => apply ok_or_ok in H as Hc; destruct c as [e1 e2 e3 e4 e5 e6 e7 e8 e9 e10 e11] end.
    cbn [ge_raw_name_bytes ge_path_bytes ge_header ge_payload ge_path ge_padding ge_mode ge_mtime
      ge_header_checksum ge_header_sha256 ge_payload_sha256] in *. subst e1 e2 e3 e4 e5 e6 e7 e8 e9 e10 e11.
    match goal with H : audit_zero_range _ _ _ = _ |- _ => apply padding_audited in H end.
    destruct pend; [discriminate|]. split_and!; [done|lia|done|]. eexists. split_and!.
    + apply carrier_payload_tests; [done|unfold MAX_CARRIER_PAYLOAD_BYTES, MAX_EFFECTIVE_PATH_BYTES; lia|done].
    + rewrite Hc. unfold carrier_evidence, carrier_at, BLOCK_LEN in *. cbn. by rewrite Hhd, Hsha.
    + injection H1 as <-. unfold audit_at. rewrite length_app. simpl. f_equal. lia.
  - intros (-> & Hle & Hz & path & Hpay & Hc & ->). rewrite bool_decide_eq_false_2 by (by intros []).
    assert (Hpath : path = take (length (range (off + BLOCK_LEN) (p_size h) bs) - 1)
      (range (off + BLOCK_LEN) (p_size h) bs)).
    { rewrite (cp_bytes _ _ Hpay), length_app, Nat.add_sub. by rewrite take_app_length. }
    pose proof (cp_len _ _ Hpay) as [Hne _]. assert (1 <= length path)%nat by (destruct path; [done|simpl; lia]).
    rewrite (cp_bytes _ _ Hpay), length_app in Hlen. simpl in Hlen.
    rewrite (proj2 (Z.ltb_ge _ _)), (proj2 (Z.ltb_ge _ _)) by lia. rewrite Hc. cbn [orb ok_or].
    cbn [carrier_evidence carrier_at c_raw_name c_path_bytes c_header_checksum c_header_sha256 c_payload_sha256
      c_mode c_mtime c_header c_payload c_path c_padding ge_raw_name_bytes ge_path_bytes ge_header ge_payload
      ge_path ge_padding ge_mode ge_mtime ge_header_checksum ge_header_sha256 ge_payload_sha256].
    rewrite Hhd, Hsha. unfold BLOCK_LEN in *. rewrite !bool_decide_eq_true_2, !Z.eqb_refl by done.
    rewrite !(proj2 (bytes_eqb_iff _ _) eq_refl). cbn [negb orb].
    rewrite (read_vec_complete s bs) by (done || lia). cbn [map_err]. rewrite <- Hpath.
    destruct (proj2 (carrier_payload_tests _ _ Hpath ltac:(rewrite (cp_bytes _ _ Hpay), length_app; simpl;
      unfold MAX_CARRIER_PAYLOAD_BYTES, MAX_EFFECTIVE_PATH_BYTES; lia)) Hpay) as (-> & -> & ->).
    rewrite !(proj2 (bytes_eqb_iff _ _) eq_refl). cbn [negb orb].
    rewrite (proj2 (padding_audited _) Hz). rewrite (proj2 (Z.ltb_ge _ _)).
    2:{ apply lookup_lt_Some in Hc. unfold MAX_CARRIERS, u32_max in *. lia. }
    unfold audit_at. rewrite length_app. simpl. do 3 f_equal; lia.
Qed.

Lemma gnu_effective_name_iff pend source d name :
  pending_recorded pend -> (forall p, pend = Some p -> 0 <= pl_carrier_index p) ->
  gnu_effective_name carriers (option_map pl_carrier_index pend) source d (p_raw_name h) = Ok name <->
  exists index, named_as pend h name index
    /\ source = match index with None => Header | Some i => Carrier i end.
Proof using Hh Hhdr Hoff Hfit.
  clear Hs Halloc. intros Hp Hi. pose proof header_at_length as Hl.
  assert (Ht : TarFields.parse_text_field (slice 0 100 hdr) "name" false = Ok (p_raw_name h)).
  { apply parse_gnu_fields in Hh as (? & ? & ? & ? & ? & _ & _ & Hn & ->). exact Hn. }
  apply text_field_decodes in Ht; [|lia].
  unfold gnu_effective_name, named_as. destruct pend as [p|]; cbn [option_map].
  - destruct (Hp _ eq_refl) as (c & Hc & Hpath). rewrite Hc. cbn [ok_or]. clear Ht.
    case_bool_decide as Hsrc; cbn [negb].
    + rewrite Hpath. split; [intros [= <-]; eauto 10|by intros (i & [-> _] & _)].
    + split; [done|]. by intros (i & [-> ->] & ->).
  - destruct (bool_decide (source = Header)) eqn:Hsrc; cbn [negb orb];
      [apply bool_decide_eq_true in Hsrc|apply bool_decide_eq_false in Hsrc].
    + destruct (bool_decide (from_utf8 _ = None)) eqn:Hu.
      * split; [done|]. intros (i & (-> & -> & Hd) & _). apply Ht in Hd. congruence.
      * split; [|by intros (i & (-> & _ & _) & _)]. intros [= <-]. exists None.
        split_and!; [done|done|by apply Ht|done].
    + split; [done|]. by intros (i & (-> & -> & _) & ->).
Qed.

Lemma audit_member_iff ms cs pend st' :
  pending_recorded pend -> (forall p, pend = Some p -> 0 <= pl_carrier_index p) ->
  audit_gnu_member s carriers ir_members (audit_at ms cs pend off) hdr (gnu_facts hdr h) (geometry_at off h)
    = Some (Ok st')
  <-> padding_zero /\ exists m name index, named_as pend h name index
        /\ ir_members !! length ms = Some m /\ says_member (member_at h off name index) m
        /\ st' = audit_at (ms ++ [member_at h off name index]) cs None (record_stop off h).
Proof using Hs Hhdr Hoff Hh Hfit.
  clear Halloc. intros Hrec Hidx. destruct header_at_sha as [Hsha Hhd].
  assert (Hkind : at_ hdr 156 = "5"%byte <-> p_kind h = Directory).
  { apply parse_gnu_fields in Hh as (? & ? & ? & ? & ? & _ & _ & _ & ->). cbn [p_kind].
    pose proof (gnu_directory_iff (at_ hdr 156)) as Hd. by repeat case_bool_decide. }
  unfold audit_gnu_member. cbn [au_pending au_carrier_index au_cursor au_member_index audit_at geometry_at
    gr_header_end gr_payload_end gr_padded_size gr_record_end gnu_facts gf_size gf_name gf_mode gf_mtime
    gf_checksum gf_typeflag].
  unfold TAR_BLOCK_LEN in *.
  assert (Hk : (if bool_decide (at_ hdr 156 = "5"%byte) then KindDirectory else KindFile)
    = kind_of (bool_decide (p_kind h = Directory))) by (by rewrite (bool_decide_ext _ _ Hkind)).
  rewrite Hk. clear Hk Hkind.
  split.
  - intros H1. ok_steps H1. breflect. units.
    repeat match goal with
      | H : bytes_eqb _ _ = true |- _ => apply bytes_eqb_iff in H
      | H : bool_decide (_ = mkrange _ _) = true |- _ => apply bool_decide_eq_true in H
      | H : bool_decide (_ ∈ _) = true |- _ => apply bool_decide_eq_true in H
      | H : bool_decide (ir_kind _ = _) = true |- _ => apply bool_decide_eq_true in H
      | H : ok_or _ _ = Ok _ |- _ => apply ok_or_ok in H end.
    match goal with H : gnu_effective_name _ _ _ _ _ = Ok _ |- _ =>
      apply gnu_effective_name_iff in H as (index & Hname & Hsource); [|done..] end.
    match goal with H : tar_gnu_longname_evidence ?mem = Some ?e |- _ =>
      rename mem into m, H into He; destruct e as [[e1 e2 e3 e4 e5 e6 e7] e8 e9] end.
    cbn [ne_tar ne_base_name_bytes ne_path_source te_header te_payload te_padding te_mode te_mtime
      te_header_checksum te_header_sha256] in *. subst e1 e2 e3 e4 e5 e6 e7 e8 e9.
    match goal with H : exec_map_err _ _ = _ |- _ => apply exec_map_err_ok in H; apply padding_audited in H end.
    split; [done|]. exists m. eexists _, index. split_and!; [done|done| |].
    + split; cbn [member_at g_is_dir g_size g_name]; try done.
      rewrite He. unfold member_evidence, member_at, BLOCK_LEN. cbn. by rewrite Hhd, Hsha.
    + injection H1 as <-. unfold audit_at. rewrite length_app. simpl. f_equal. lia.
  - intros (Hz & m & name & index & Hname & Hm & [Hf He Hki Hsz Hraw Hdn Hp Hsl] & ->).
    rewrite Hm. cbn [ok_or]. rewrite bool_decide_eq_true_2, He by done. cbn [negb ok_or].
    cbn [member_evidence member_at g_raw_name g_name g_size g_mode g_mtime g_header_checksum g_header_sha256
      g_header g_payload g_padding g_is_dir g_carrier_index ne_tar ne_base_name_bytes ne_path_source te_header
      te_payload te_padding te_mode te_mtime te_header_checksum te_header_sha256] in *.
    rewrite Hki, Hsz, Hhd, Hsha, Hraw, Hdn. unfold BLOCK_LEN in *.
    rewrite !bool_decide_eq_true_2, !Z.eqb_refl by done. rewrite !(proj2 (bytes_eqb_iff _ _) eq_refl). cbn [negb orb].
    rewrite (proj2 (gnu_effective_name_iff pend _ name name Hrec Hidx)) by eauto.
    rewrite Hp, !(proj2 (bytes_eqb_iff _ _) eq_refl). cbn [negb orb]. rewrite Hsl.
    rewrite (proj2 (padding_audited _) Hz). cbn [exec_map_err option_map map_err].
    unfold audit_at. rewrite length_app. simpl. do 3 f_equal; lia.
Qed.
End Records.

(** ** The replay *)

Section Replay.
Context `{!Sha256, !Allocator} (s : SourceSnapshot) (bs : list byte).
Context (Hs : reliable s bs) (Halloc : forall site n, try_reserve site n = true).
Context (carriers : list GnuLongNameCarrierEvidence) (ir_members : list IrMember) (stop : Z).
Context (Hcap : Z.of_nat (length carriers) <= MAX_CARRIERS) (Hstop : stop <= Z.of_nat (length bs)).

(** What the replay has compared so far. *)
Record audited (ms : list GnuLongNameMember) (cs : list GnuLongNameCarrier)
    (pend : option PendingLongName) (off : Z) : Prop := {
  ad_records : gnu_records bs ms cs pend off;
  ad_carriers : map carrier_evidence cs `prefix_of` carriers;
  ad_members : Forall2 says_member ms (take (length ms) ir_members);
  ad_inside : off <= stop \/ off = 0
}.

Lemma carriers_snoc cs c :
  map carrier_evidence cs `prefix_of` carriers ->
  carriers !! length cs = Some (carrier_evidence c) <->
  map carrier_evidence (cs ++ [c]) `prefix_of` carriers.
Proof using.
  clear. rewrite map_app. intros [l ->]. split.
  - intros Hc. rewrite lookup_app_r in Hc by (by rewrite length_map). rewrite length_map, Nat.sub_diag in Hc.
    destruct l as [|x l]; simplify_eq/=. exists l. by rewrite <- app_assoc.
  - intros [k ->]. rewrite <- app_assoc, lookup_app_r by (by rewrite length_map).
    by rewrite length_map, Nat.sub_diag.
Qed.
Lemma audited_pending ms cs pend off :
  audited ms cs pend off ->
  pending_recorded carriers pend /\ (forall p, pend = Some p -> 0 <= pl_carrier_index p).
Proof using Hs.
  clear - Hs. intros [Hr [l ->] _ _]. apply gnu_records_named in Hr as [_ Hp]; [|by apply (represents_u64 s), reliable_represents].
  split; intros p ->; destruct Hp as (c & Hi & Hc & Hpath & _); [|done].
  exists (carrier_evidence c). split; [|done]. apply lookup_app_l_Some.
  change (map carrier_evidence cs) with (carrier_evidence <$> cs). by rewrite list_lookup_fmap, Hc.
Qed.

(** The header, its facts and the geometry of the record at a cursor. *)
Lemma audit_step_split ms cs pend off st' :
  0 <= off < stop ->
  gnu_audit_step s carriers ir_members stop (audit_at ms cs pend off) = Some (Ok (Continue st')) <->
  exists h, parse_header (range off BLOCK_LEN bs) off = Ok h /\ record_stop off h <= stop
    /\ (let hdr := range off BLOCK_LEN bs in
        if bool_decide (p_kind h = LongName)
        then audit_gnu_carrier s carriers (audit_at ms cs pend off) hdr (gnu_facts hdr h) (geometry_at off h)
        else audit_gnu_member s carriers ir_members (audit_at ms cs pend off) hdr (gnu_facts hdr h)
               (geometry_at off h)) = Some (Ok st').
Proof using Hs Hstop.
  clear Halloc Hcap. intros Ho. pose proof (represents_u64 _ _ (reliable_represents _ _ Hs)) as Hu.
  assert (Hkind : forall h, parse_header (range off BLOCK_LEN bs) off = Ok h ->
    bool_decide (p_kind h = LongName) = bool_decide (at_ (range off BLOCK_LEN bs) 156 = "L"%byte)).
  { intros h Hh. apply parse_gnu_fields in Hh as (? & ? & ? & ? & ? & _ & _ & _ & ->). cbn [p_kind].
    unfold gnu_kind_of. repeat case_bool_decide; congruence. }
  unfold gnu_audit_step. cbn [au_cursor audit_at]. rewrite (proj2 (Z.ltb_lt _ _)) by lia. cbn [negb].
  unfold TAR_BLOCK_LEN in *. split.
  - intros H1. ok_step H1. apply ok_or_ok, u64_checked_add_Some in Hs0 as [-> _]. ok_steps H1.
    breflect. apply map_err_ok, (represents_read _ _ (reliable_represents _ _ Hs)) in Hs1 as [_ ->]; [|lia..].
    apply (audit_gnu_header_iff _ off) in Hs2 as (h & Hh & ->); [|rewrite length_range; lia].
    pose proof (gnu_parse_header_size _ _ _ Hh) as Hsz.
    apply gnu_geometry_iff in Hs3 as [Hle ->]; [|cbn [gnu_facts gf_size]; lia..].
    exists h. split; [done|]. split; [done|]. unfold BLOCK_LEN in *. injection H1 as <-.
    cbv zeta. rewrite (Hkind _ Hh). exact Hs4.
  - intros (h & Hh & Hle & Hr). pose proof (gnu_parse_header_size _ _ _ Hh) as Hsz.
    pose proof (padded_spec (p_size h) ltac:(lia)) as Hpad. unfold record_stop, BLOCK_LEN in *.
    rewrite u64_checked_add_le by lia. cbn [ok_or]. rewrite (proj2 (Z.ltb_ge _ _)) by lia.
    rewrite (reliable_read _ _ Hs) by lia. cbn [map_err].
    rewrite (proj2 (audit_gnu_header_iff (range off 512 bs) off _ ltac:(rewrite length_range; lia))) by eauto.
    cbn [gnu_facts gf_typeflag gf_size]. rewrite (proj2 (gnu_geometry_iff stop (off + 512) (p_size h) _ ltac:(lia) ltac:(lia) ltac:(lia)))
      by (split; [lia|reflexivity]).
    cbv zeta in Hr. rewrite (Hkind _ Hh) in Hr. unfold geometry_at, record_stop, BLOCK_LEN in Hr.
    cbn [gnu_facts gf_typeflag gf_size] in *. by rewrite Hr.
Qed.

Lemma audited_offset ms cs pend off : audited ms cs pend off -> 0 <= off.
Proof using. clear. intros [Hr _ _ _]. apply gnu_records_bound in Hr. lia. Qed.

Lemma record_advances h hdr off :
  parse_header hdr off = Ok h -> off + BLOCK_LEN <= record_stop off h.
Proof using.
  clear. intros Hh%gnu_parse_header_size. pose proof (padded_spec (p_size h) ltac:(lia)).
  unfold record_stop. lia.
Qed.

Lemma member_snoc ms m g :
  Forall2 says_member ms (take (length ms) ir_members) -> ir_members !! length ms = Some m ->
  says_member g m -> Forall2 says_member (ms ++ [g]) (take (length (ms ++ [g])) ir_members).
Proof using.
  clear. intros Hms Hm Hg. rewrite length_app, Nat.add_comm. simpl. rewrite (take_S_r _ _ m) by done.
  apply Forall2_app; [done|by constructor].
Qed.

Lemma audit_step_sound ms cs pend off st' :
  audited ms cs pend off -> off < stop ->
  gnu_audit_step s carriers ir_members stop (audit_at ms cs pend off) = Some (Ok (Continue st')) ->
  exists ms' cs' pend' off', st' = audit_at ms' cs' pend' off' /\ audited ms' cs' pend' off'
    /\ off + BLOCK_LEN <= off'.
Proof using Hs Halloc Hcap Hstop.
  intros Ha Hlt Hst. pose proof (audited_offset _ _ _ _ Ha) as Ho.
  destruct (audited_pending _ _ _ _ Ha) as [Hp Hi].
  apply audit_step_split in Hst as (h & Hh & Hle & Hst); [|lia]. cbv zeta in Hst.
  pose proof (record_advances _ _ _ Hh) as Hadv. destruct Ha as [Hr Hc Hm Hin].
  assert (Hrec : padding_zero bs off h -> record_at bs off h).
  { intros Hz. split; [done| |done]. unfold record_stop in Hle. lia. }
  case_bool_decide as Hk.
  - apply (audit_carrier_iff s bs Hs Halloc) in Hst as (-> & Hsz & Hz & path & Hpay & Hcar & ->);
      [|done|done|done|lia| |done].
    2:{ destruct Hc as [l Hc]. apply (f_equal length) in Hc. rewrite length_app, length_map in Hc. lia. }
    eexists _, _, _, _. split; [done|]. split; [|done]. split; [| |done|by left].
    + apply gnu_long; try done; [by apply Hrec|]. apply lookup_lt_Some in Hcar. lia.
    + by apply carriers_snoc.
  - apply (audit_member_iff s bs Hs) in Hst as (Hz & m & name & index & Hname & Hmem & Hsays & ->);
      [|done|done|done|lia|done|done].
    eexists _, _, _, _. split; [done|]. split; [|done].
    split; [|done|by apply member_snoc with m|by left].
    unfold named_as in Hname. destruct pend as [p|].
    + destruct Hname as [-> ->]. apply gnu_named; [done|by apply Hrec|done].
    + destruct Hname as (-> & -> & Hd). apply gnu_plain; [done|by apply Hrec|done|done].
Qed.

(** A member of the grammar whose evidence the tables repeat is replayed. *)
Lemma audit_member_replays ms1 cs1 pend1 off1 h m g index :
  gnu_records bs ms1 cs1 pend1 off1 -> record_at bs off1 h -> p_kind h <> LongName -> record_stop off1 h <= stop ->
  map carrier_evidence cs1 `prefix_of` carriers ->
  g = member_at h off1 m index -> named_as pend1 h m index ->
  Forall2 says_member (ms1 ++ [g]) (take (length (ms1 ++ [g])) ir_members) ->
  Forall2 says_member ms1 (take (length ms1) ir_members) /\ off1 <= stop
  /\ loop_step (gnu_audit_step s carriers ir_members stop) (audit_at ms1 cs1 pend1 off1)
       (audit_at (ms1 ++ [g]) cs1 None (record_stop off1 h)).
Proof using Hs Hstop.
  intros Hr [Hh Hf Hz] Hk Hle Hc -> Hname Hm.
  pose proof (record_advances _ _ _ Hh). pose proof (gnu_records_bound _ _ _ _ _ Hr) as [Hb _].
  unfold BLOCK_LEN in *.
  apply Forall2_app_inv_l in Hm as (l1 & l2 & Hf1 & Hf2 & Happ).
  apply Forall2_cons_inv_l in Hf2 as (im & l3 & Hsays & ->%Forall2_nil_inv_l & ->).
  assert (ir_members !! length ms1 = Some im) as Him.
  { assert (take (length (ms1 ++ [member_at h off1 m index])) ir_members !! length ms1 = Some im) as Hl.
    { rewrite Happ, (Forall2_length _ _ _ Hf1). by apply list_lookup_middle. }
    rewrite length_app in Hl. by rewrite lookup_take_lt in Hl by (simpl; lia). }
  assert (l1 = take (length ms1) ir_members) as ->.
  { apply (f_equal (take (length ms1))) in Happ. rewrite length_app, take_take, Nat.min_l in Happ by (simpl; lia).
    rewrite Happ, (Forall2_length _ _ _ Hf1). by rewrite take_app_length. }
  assert (audited ms1 cs1 pend1 off1) as Ha by (split; [done|done|done|lia]).
  destruct (audited_pending _ _ _ _ Ha) as [Hp Hi].
  split_and!; [done|lia|]. unfold loop_step. apply audit_step_split; [lia|]. exists h. split_and!; [done|done|].
  cbv zeta. rewrite bool_decide_eq_false_2 by done.
  apply (audit_member_iff s bs Hs); [done|lia|done|lia|done|done|]. split; [done|]. by eexists _, _, _.
Qed.

(** Along a grammar whose records the evidence tables repeat, the replay steps. *)
Lemma audit_replays ms cs pend off :
  gnu_records bs ms cs pend off -> off <= stop ->
  map carrier_evidence cs `prefix_of` carriers ->
  Forall2 says_member ms (take (length ms) ir_members) ->
  rtc (loop_step (gnu_audit_step s carriers ir_members stop)) (audit_at [] [] None 0) (audit_at ms cs pend off).
Proof using Hs Halloc Hcap Hstop.
  intros Hr. induction Hr as [|ms cs off h path Hr IH Hrec Hk Hsz Hcs Hpay
    |ms cs off h Hr IH Hrec Hk Hd|ms cs off h p Hr IH Hrec Hk]; intros Hle Hc Hm.
  - apply rtc_refl.
  - destruct Hrec as [Hh Hf Hz]. pose proof (record_advances _ _ _ Hh).
    pose proof (gnu_records_bound _ _ _ _ _ Hr) as [Hb _].
    assert (map carrier_evidence cs `prefix_of` carriers) as Hc'.
    { rewrite map_app in Hc. etransitivity; [|exact Hc]. by eexists. }
    eapply rtc_r; [apply IH; [unfold BLOCK_LEN in *; lia|done|done]|].
    unfold loop_step, BLOCK_LEN in *. apply audit_step_split; [lia|]. exists h. split_and!; [done|done|].
    cbv zeta. rewrite bool_decide_eq_true_2 by done.
    assert (carriers !! length cs = Some (carrier_evidence (carrier_at bs h off path))) as Hl
      by (by apply carriers_snoc).
    apply (audit_carrier_iff s bs Hs Halloc); [done|lia|done|lia| |done|].
    { apply lookup_lt_Some in Hl. lia. }
    split_and!; [done|done|done|]. exists path. split_and!; [done|done|done].
  - destruct (audit_member_replays ms cs None off h (p_raw_name h) _ None Hr Hrec Hk Hle Hc eq_refl
      ltac:(by split_and!) Hm) as (Hm' & Hin & Hstep). eapply rtc_r; [by apply IH|exact Hstep].
  - destruct (audit_member_replays ms cs (Some p) off h (pl_path p) _ (Some (pl_carrier_index p)) Hr Hrec Hk Hle Hc eq_refl
      ltac:(by split) Hm) as (Hm' & Hin & Hstep). eapply rtc_r; [by apply IH|exact Hstep].
Qed.
End Replay.

(** ** The whole audit *)

Section Agreement.
Context `{!Sha256, !Allocator} (s : SourceSnapshot) (bs : list byte).

Lemma audit_record_total carriers ir_members stop st :
  0 <= au_cursor st -> gnu_audit_step s carriers ir_members stop st <> None.
Proof.
  intros Ho Hn. unfold gnu_audit_step, audit_gnu_carrier, audit_gnu_member, gnu_record_geometry in Hn.
  repeat (case_match; try discriminate); breflect;
    repeat match goal with
    | H : ok_or (u64_checked_add _ _) _ = Ok _ |- _ => apply ok_or_ok, u64_checked_add_Some in H as [-> H]
    | H : audit_gnu_header _ = Ok _ |- _ => unfold audit_gnu_header in H; ok_steps H
    end; simplify_eq; breflect; cbn [gf_size gr_payload_end gr_padded_size] in *;
    repeat match goal with
    | H : bool_decide (_ = mkrange _ _) = true |- _ => apply bool_decide_eq_true in H
    end;
    match goal with
    | Hsz : ok_or (parse_pax_octal (slice 124 136 _)) _ = Ok ?n |- _ =>
        apply ok_or_ok, (parse_pax_octal_iff _ "size"), parse_octal_bound in Hsz as [Hsz _]
    end;
    match goal with
    | Hz : audit_zero_range ?s ?r ?d = None |- _ =>
        destruct (audit_zero_range_total s r d) as [? Hx]; [|congruence]
    | Hz : exec_map_err _ (audit_zero_range ?s ?r ?d) = None |- _ =>
        destruct (audit_zero_range_total s r d) as [? Hx]; [|by rewrite Hx in Hz]
    end;
    match goal with H : _ = mkrange _ _ |- range_nonneg _ => rewrite H end;
    rewrite expected_padding_eq by lia; split; simpl; unfold TAR_BLOCK_LEN;
    match goal with H : 0 <= ?n <= u64_max |- _ => pose proof (padded_spec n ltac:(lia)) end; lia.
Qed.

Context (Hs : reliable s bs) (Halloc : forall site n, try_reserve site n = true).

(** The replay's states, and that it comes to an end. *)
Definition replayed carriers ir_members stop (st : GnuAudit) : Prop :=
  exists ms cs pend off, st = audit_at ms cs pend off /\ audited bs carriers ir_members stop ms cs pend off.
Lemma replay_starts carriers ir_members stop :
  replayed carriers ir_members stop {| au_cursor := 0; au_carrier_index := 0; au_member_index := 0; au_pending := None |}.
Proof using.
  clear. exists [], [], None, 0. split; [done|]. split; [constructor|apply prefix_nil|constructor|by right].
Qed.
Lemma replay_continues carriers ir_members stop st st' :
  Z.of_nat (length carriers) <= MAX_CARRIERS -> stop <= Z.of_nat (length bs) ->
  replayed carriers ir_members stop st ->
  gnu_audit_step s carriers ir_members stop st = Some (Ok (Continue st')) ->
  replayed carriers ir_members stop st' /\ au_cursor st < stop /\ au_cursor st + BLOCK_LEN <= au_cursor st'.
Proof using Hs Halloc.
  intros Hcap Hstop (ms & cs & pend & off & -> & Ha) Hst.
  destruct (Z.ltb_spec off stop) as [Hlt|Hge].
  - eapply audit_step_sound in Hst as (ms' & cs' & pend' & off' & -> & Ha' & Hadv); [|done..].
    split; [by eexists _, _, _, _|]. split; done.
  - unfold gnu_audit_step in Hst. cbn [au_cursor audit_at] in Hst.
    by rewrite (proj2 (Z.ltb_ge _ _)) in Hst by lia.
Qed.
Lemma replay_returns carriers ir_members stop :
  Z.of_nat (length carriers) <= MAX_CARRIERS -> stop <= Z.of_nat (length bs) ->
  exists r, run_loop (gnu_audit_step s carriers ir_members stop) (2 + Z.to_nat (stop / TAR_BLOCK_LEN))
    {| au_cursor := 0; au_carrier_index := 0; au_member_index := 0; au_pending := None |} = Some r.
Proof using Hs Halloc.
  intros Hcap Hstop.
  apply (run_loop_total _ (replayed carriers ir_members stop)
    (fun st => Z.to_nat ((stop - au_cursor st + 511) / BLOCK_LEN))).
  - intros st (ms & cs & pend & off & -> & Ha). apply audit_record_total.
    by apply audited_offset in Ha.
  - intros st st' Hst Hstep. apply replay_continues in Hstep as (Hst' & Hlt & Hadv); [|done..].
    split; [done|]. unfold BLOCK_LEN in *.
    assert ((stop - au_cursor st' + 511) / 512 < (stop - au_cursor st + 511) / 512) by (Z.div_mod_to_equations; lia).
    assert (0 < (stop - au_cursor st + 511) / 512) by (Z.div_mod_to_equations; lia). lia.
  - apply replay_starts.
  - cbn [au_cursor]. unfold TAR_BLOCK_LEN, BLOCK_LEN. Z.div_mod_to_equations. lia.
Qed.

Lemma audit_gnu_total ir :
  archive_ranges_typed ir -> exists r, audit_tar_gnu_longname_covering s ir = Some r.
Proof using Hs Halloc.
  intros Ht. unfold audit_tar_gnu_longname_covering. case_match; [|eauto].
  destruct (archive_gnu_evidence ir) as [e|] eqn:He; cbn [ok_or]; [|eauto].
  destruct (Ht _ He) as (Hr & _ & Hz). case_match eqn:Hcap; [eauto|]. cbv zeta.
  destruct (checked_range_end (tc_member_records _) _) as [stop|] eqn:E1; [|eauto].
  destruct (checked_range_end (tc_terminator _) _) as [te|] eqn:E2; [|eauto].
  destruct (checked_range_end (tc_trailing_zeros _) _) as [ze|] eqn:E3; [|eauto].
  case_match eqn:Hpart; [eauto|]. breflect. apply checked_range_end_ok in E1 as [E1 _], E2 as [E2 _], E3 as [E3 _].
  pose proof (represents_len _ _ (reliable_represents _ _ Hs)) as Hlen.
  destruct (replay_returns (na_carriers e) (members ir) stop) as [[st|f] ->];
    [unfold GNU_MAX_CARRIERS, MAX_CARRIERS in *; lia| |eauto|eauto].
  { destruct Hz. unfold TAR_BLOCK_LEN in *. lia. }
  destruct (audit_zero_range_total s _ "GNU trailing record padding contains nonzero bytes" Hz) as [x Hx].
  repeat (case_match; eauto).
Qed.

Lemma audit_gnu_sound ir :
  archive_ranges_typed ir -> Z.of_nat (length bs) mod BLOCK_LEN = 0 ->
  audit_tar_gnu_longname_covering s ir = Some (Ok ()) ->
  audit_gnu_identity s ir = Ok () /\ exists a, gnu_archive bs a /\ says_gnu ir a.
Proof using Hs Halloc.
  intros Ht Hmod H1. pose proof (reliable_represents _ _ Hs) as Hr.
  pose proof (represents_len _ _ Hr) as Hlen. unfold audit_tar_gnu_longname_covering in H1. cbv zeta in H1.
  ok_step H1. ok_step H1. apply ok_or_ok in Hs1 as He.
  match type of He with _ = Some ?t => rename t into e end. destruct (Ht _ He) as (Hmr & Htr & Hzr).
  ok_steps H1. units. split; [done|]. breflect.
  repeat match goal with H : checked_range_end _ _ = Ok _ |- _ => apply checked_range_end_ok in H as [-> _] end.
  match goal with H : map_err _ (src_read _ _ _) = _ |- _ =>
    apply map_err_ok, (represents_read _ _ Hr) in H as [_ ->]; [|apply Htr|unfold TAR_BLOCK_LEN; lia] end.
  apply (audit_zero_range_sound s bs) in H1 as [_ Hz]; [|done..].
  destruct e as [[[ro rl] [bo bl] [zo zl]] carriers]. unfold range_nonneg in *.
  cbn [offset len tc_member_records tc_terminator tc_trailing_zeros na_tar na_carriers] in *. subst.
  match goal with H : run_loop _ _ _ = Some (Ok ?st) |- _ =>
    apply (run_loop_invariant _ (replayed carriers (members ir) (0 + rl))
      (replayed carriers (members ir) (0 + rl))) in H; [rename H into Hst| | |apply replay_starts] end.
  2:{ intros st1 st2 Hst1 Hstep.
      edestruct replay_continues as [? _]; [| |exact Hst1|exact Hstep|done];
        unfold GNU_MAX_CARRIERS, MAX_CARRIERS, TAR_BLOCK_LEN in *; lia. }
  2:{ intros st1 st2 Hst1 Hret. unfold gnu_audit_step in Hret. destruct (negb _); [by simplify_eq|]. exfalso. by repeat (case_match; try discriminate). }
  destruct Hst as (ms & cs & pend & off & -> & [Hrec [l Hcar] Hms Hin]).
  cbn [au_pending au_carrier_index au_member_index au_cursor audit_at] in *.
  repeat match goal with H : Nat.eqb _ _ = true |- _ => apply Nat.eqb_eq in H end.
  assert (pend = None) as ->.
  { destruct pend; [|done]. exfalso. rewrite bool_decide_eq_true_2 in * by (by eexists). done. }
  assert (l = []) as ->.
  { apply (f_equal length) in Hcar. rewrite length_app, length_map in Hcar. destruct l; [done|simpl in Hcar; lia]. }
  rewrite app_nil_r in Hcar. subst carriers. rewrite take_ge in Hms by lia.
  exists {| g_members := ms; g_carriers := cs; g_member_records := mkrange 0 rl;
            g_terminator := mkrange rl 1024; g_trailing_zeros := mkrange (rl + 1024) zl;
            g_metadata_bytes := records_metadata ms cs + BLOCK_LEN * 2 |}.
  unfold TAR_BLOCK_LEN in *. split; [|split; [|done]].
  - split; cbn [g_members g_carriers g_member_records g_terminator g_trailing_zeros len mkrange]; [done| | | |].
    + by replace rl with off by lia.
    + unfold BLOCK_LEN. do 2 f_equal. lia.
    + unfold BLOCK_LEN. lia.
    + replace (Z.of_nat (length bs) - rl) with (1024 + zl) by lia. rewrite range_app, all_zero_app by lia.
      replace (0 + rl) with rl in * by lia. apply andb_true_iff. split; [done|].
      by replace (rl + 1024) with (0 + rl + 512 * 2) by lia.
  - rewrite He. unfold covering_of. cbn. done.
Qed.

Lemma gnu_records_capped ms cs pend off :
  gnu_records bs ms cs pend off -> Z.of_nat (length cs) <= MAX_CARRIERS.
Proof using. clear. intros Hr. induction Hr; [done| |done..]. rewrite length_app. simpl. lia. Qed.

Lemma audit_gnu_complete ir a :
  audit_gnu_identity s ir = Ok () -> gnu_archive bs a -> says_gnu ir a -> archive_ranges_typed ir ->
  audit_tar_gnu_longname_covering s ir = Some (Ok ()).
Proof using Hs Halloc.
  intros Hid [_ Hrec Hlay Hfit Hz] [Hcov Hms] _. cbv zeta in Hlay, Hz.
  set (stop := len (g_member_records a)) in *.
  pose proof (represents_len _ _ (reliable_represents _ _ Hs)) as Hlen.
  pose proof (represents_u64 _ _ (reliable_represents _ _ Hs)) as Hu.
  pose proof (gnu_records_capped _ _ _ _ Hrec) as Hcap. pose proof (gnu_records_bound _ _ _ _ _ Hrec) as [Hb _].
  replace (Z.of_nat (length bs) - stop) with (1024 + (Z.of_nat (length bs) - (stop + 1024))) in Hz by lia.
  unfold BLOCK_LEN in *. rewrite range_app, all_zero_app in Hz by lia. apply andb_true_iff in Hz as [Hz1 Hz2].
  assert (Hparts : tc_member_records (na_tar (covering_of a)) = mkrange 0 stop
    /\ tc_terminator (na_tar (covering_of a)) = mkrange stop 1024
    /\ tc_trailing_zeros (na_tar (covering_of a)) = mkrange (stop + 1024) (Z.of_nat (length bs) - (stop + 1024))).
  { unfold covering_of. cbn [na_tar tc_member_records tc_terminator tc_trailing_zeros]. by rewrite Hlay. }
  destruct Hparts as (Hp1 & Hp2 & Hp3).
  unfold audit_tar_gnu_longname_covering. rewrite Hid, Hcov. cbn [ok_or]. rewrite Hp1, Hp2, Hp3.
  cbn [na_carriers covering_of]. rewrite length_map, (proj2 (Z.ltb_ge _ _)) by (unfold GNU_MAX_CARRIERS, MAX_CARRIERS in *; lia).
  unfold checked_range_end, TAR_BLOCK_LEN. cbn [offset len mkrange].
  rewrite !u64_checked_add_le by lia. cbn [ok_or]. rewrite Z.add_0_l, Hlen.
  assert (stop + 1024 + (Z.of_nat (length bs) - (stop + 1024)) = Z.of_nat (length bs)) as -> by lia.
  rewrite !Z.eqb_refl. cbn [negb orb]. change (512 * 2) with 1024. rewrite ?Z.eqb_refl. cbn [negb orb].
  assert (Hrun : run_loop (gnu_audit_step s (map carrier_evidence (g_carriers a)) (members ir) stop)
      (2 + Z.to_nat (stop / 512))
      {| au_cursor := 0; au_carrier_index := 0; au_member_index := 0; au_pending := None |}
    = Some (Ok (audit_at (g_members a) (g_carriers a) None stop))).
  { apply run_loop_reaches with (s' := audit_at (g_members a) (g_carriers a) None stop).
    - apply replay_returns; [by rewrite length_map|lia].
    - apply (audit_replays s bs Hs Halloc); [by rewrite length_map|lia|done|done|done|].
      rewrite (Forall2_length _ _ _ Hms), take_ge by done. done.
    - unfold gnu_audit_step. cbn [au_cursor audit_at]. by rewrite Z.ltb_irrefl. }
  rewrite Hrun. cbn [au_pending au_carrier_index au_member_index au_cursor audit_at option_map].
  rewrite bool_decide_eq_false_2 by (by intros []). rewrite <- (Forall2_length _ _ _ Hms), !Nat.eqb_refl, Z.eqb_refl.
  cbn [negb orb]. rewrite (reliable_read _ _ Hs) by lia. cbn [map_err]. rewrite Hz1. cbn [negb].
  apply audit_zero_range_pass with bs; done || lia.
Qed.

(** C30: The old-GNU parser and the audit of its result share no header reading,
    and agree: on a source of whole blocks that returns its bytes, with memory
    available, the audit always returns, and it passes exactly when the claimed
    identity is the snapshot's and the representation says of every carrier,
    every member and the tail what the archive of the carrier grammar in those
    bytes says. *)
Theorem audit_gnu_is_the_grammar ir :
  archive_ranges_typed ir -> Z.of_nat (length bs) mod BLOCK_LEN = 0 ->
  (exists r, audit_tar_gnu_longname_covering s ir = Some r) /\
  (audit_tar_gnu_longname_covering s ir = Some (Ok ()) <->
   audit_gnu_identity s ir = Ok () /\ exists a, gnu_archive bs a /\ says_gnu ir a).
Proof using Hs Halloc.
  intros Ht Hmod. split; [by apply audit_gnu_total|split; [by apply audit_gnu_sound|]].
  intros (Hid & a & Ha & Hsays). by apply audit_gnu_complete with a.
Qed.
End Agreement.

(** ** The repository's canonical long-name archive, audited *)

Definition gnu_canonical_ir : ArchiveIR :=
  {| schema := "sealr.archive-ir.tar-gnu-longname.v1"; profile := "sealr.profile.tar.gnu-longname-portable.v1";
     profile_digest := []; source_digest := digest gnu_canonical_snapshot;
     evidence := ArTarGnuLongName (covering_of gnu_canonical_archive);
     members := map (fun g => from_tar_gnu_longname_planned_for_format g [g_name g] [] false)
       (g_members gnu_canonical_archive) |}.

Lemma audit_gnu_is_the_grammar_witness :
  exists a, @gnu_archive null_sha256 gnu_canonical_fuzz_archive a /\ says_gnu gnu_canonical_ir a.
Proof.
  apply (@audit_gnu_is_the_grammar null_sha256 always_reserves gnu_canonical_snapshot gnu_canonical_fuzz_archive
    gnu_canonical_reliable (fun _ _ => eq_refl) gnu_canonical_ir).
  - intros e He. assert (e = covering_of gnu_canonical_archive) as -> by (by (injection He as <-)).
    vm_compute. repeat split; discriminate.
  - vm_compute. reflexivity.
  - vm_compute. reflexivity.
Defined.
