(* ===== verification/CoveringZip.v ===== *)
(** * The ZIP covering audit ([covering.rs])

    The range oracle over a claimed ZIP32 representation: it reads the end
    record and one signature per claimed header back from the snapshot and
    checks that the claimed records partition it.  It is proved to accept
    exactly the representations whose claims hold of the bytes, and those
    include every representation of an archive the ZIP32 reader accepts. *)

From S2P Require Import Prelude Utf8 Findings Interval Snapshot Ir Layout ByteFields ZipFields ZipRecords Zip32 Zip64 ZipSearch ZipLayout ZipGrammar ZipRefine Evidence Covering CoveringTar.
Local Open Scope Z_scope.
Local Open Scope rust_scope.

(** ** Ordered partitions *)

(** [parts.windows(2).any(|window| window[0].end() != window[1].start())]. *)
Fixpoint any_gap (parts : list CheckedInterval) : bool :=
  match parts with
  | a :: ((b :: _) as rest) => negb (end_ a =? start b) || any_gap rest
  | _ => false
  end.

(** [validate_ordered_partition]. *)
Definition validate_ordered_partition (outer : CheckedInterval) (parts : list CheckedInterval)
    (first_gap last_gap invalid : string) : result unit CoveringAuditError :=
  match parts with
  | [] => if is_empty outer then Ok () else Err (inconsistent invalid)
  | first :: _ =>
      reject existsb (fun part => is_empty part || negb (contains outer part)) parts
        with inconsistent invalid ;;
      reject negb (start first =? start outer) with inconsistent first_gap ;;
      reject any_gap parts with inconsistent invalid ;;
      reject negb (end_ (List.last parts first) =? end_ outer) with inconsistent last_gap ;;
      Ok ()
  end.

(** ** The audit *)

Section Audit.
Context `{!Allocator}.

(** The claims about the archive's own ranges: the covering and the intervals
    of the local records and of the central directory. *)
Definition audit_zip_archive (snapshot : SourceSnapshot) (ir : ArchiveIR) :
    result (ArchiveCovering * CheckedInterval * CheckedInterval) CoveringAuditError :=
  reject negb (bool_decide (source_digest ir = digest snapshot))
    with inconsistent "source digest does not match the snapshot" ;;
  let? covering := ok_or (archive_zip_covering ir)
    (inconsistent "ZIP covering audit received a non-ZIP IR") in
  let? local_cover := checked_interval (local_records covering) "local-record covering overflow" in
  let? central_cover := checked_interval (central_directory covering) "central-directory covering overflow" in
  let? eocd_cover := checked_interval (eocd covering) "EOCD covering overflow" in
  let? comment_cover := checked_interval (comment covering) "comment covering overflow" in
  reject negb (start local_cover =? 0)
    with inconsistent "local-record covering must start at offset 0" ;;
  reject negb (len (eocd covering) =? 22) with inconsistent "EOCD covering length must be 22" ;;
  reject negb (end_ local_cover =? start central_cover)
    with inconsistent "local records do not abut the central directory" ;;
  reject negb (end_ central_cover =? start eocd_cover)
    with inconsistent "central directory does not abut the EOCD" ;;
  reject negb (end_ eocd_cover =? start comment_cover)
    with inconsistent "EOCD does not abut its comment" ;;
  reject negb (end_ comment_cover =? src_len snapshot)
    with inconsistent "covering comment end is not the snapshot length" ;;
  Ok (covering, local_cover, central_cover).

(** The end record, read back. *)
Definition audit_zip_end (snapshot : SourceSnapshot) (ir : ArchiveIR) (covering : ArchiveCovering) :
    result unit CoveringAuditError :=
  let? eocd := map_err (fun _ => inconsistent "claimed EOCD range is outside the snapshot")
    (src_read snapshot (offset (eocd covering)) 22) in
  reject negb (u32_at eocd 0 =? EOCD_SIG)
    with inconsistent "claimed EOCD offset does not hold an EOCD signature" ;;
  let this_disk := u16_at eocd 4 in
  let cd_disk := u16_at eocd 6 in
  let this_count := u16_at eocd 8 in
  let total_count := u16_at eocd 10 in
  let cd_size := u32_at eocd 12 in
  let cd_offset := u32_at eocd 16 in
  let comment_len := u16_at eocd 20 in
  reject negb (this_disk =? 0) || negb (cd_disk =? 0)
    with inconsistent "EOCD names a spanned archive" ;;
  reject negb (this_count =? total_count)
    with inconsistent "EOCD this-disk count does not match total count" ;;
  reject negb (total_count =? Z.of_nat (length (members ir)))
    with inconsistent "EOCD entry count does not match the IR member list" ;;
  reject negb (cd_offset =? offset (central_directory covering))
    with inconsistent "EOCD central-directory offset does not match the covering" ;;
  reject negb (cd_size =? len (central_directory covering))
    with inconsistent "EOCD central-directory size does not match the covering" ;;
  reject negb (comment_len =? len (comment covering))
    with inconsistent "EOCD comment length does not match the covering" ;;
  Ok ().

(** The signature a header range must start with. *)
Definition audit_signature (snapshot : SourceSnapshot) (range : ByteRange) (signature : Z)
    (outside wrong : string) : result unit CoveringAuditError :=
  let? bytes := map_err (fun _ => inconsistent outside) (src_read snapshot (offset range) 4) in
  reject negb (u32_at bytes 0 =? signature) with inconsistent wrong ;;
  Ok ().

(** The body of the loop over the members, its errors not yet attributed. *)
Definition audit_zip_ranges (snapshot : SourceSnapshot) (local_cover central_cover : CheckedInterval)
    (ranges : MemberSourceRanges) : result (CheckedInterval * CheckedInterval) CoveringAuditError :=
  let? lh := checked_interval (local_header ranges) "local header overflow" in
  let? payload := checked_interval (compressed_payload ranges) "compressed payload overflow" in
  let? central := checked_interval (central_header ranges) "central header overflow" in
  let? descriptor :=
    match data_descriptor ranges with
    | Some range => let? i := checked_interval range "data descriptor overflow" in Ok (Some i)
    | None => Ok None
    end in
  reject len (local_header ranges) <? 30 with inconsistent "local header is shorter than 30 bytes" ;;
  reject len (central_header ranges) <? 46 with inconsistent "central header is shorter than 46 bytes" ;;
  let? _ := audit_signature snapshot (local_header ranges) LFH_SIG
    "claimed LFH range is outside the snapshot" "claimed LFH offset does not hold a local-header signature" in
  let? _ := audit_signature snapshot (central_header ranges) CDH_SIG
    "claimed CDH range is outside the snapshot"
    "claimed CDH offset does not hold a central-directory signature" in
  reject negb (contains central_cover central)
    with inconsistent "central header is outside the CD covering" ;;
  reject negb (end_ lh =? start payload)
    with inconsistent "local header does not abut its payload" ;;
  reject match descriptor with Some d => negb (end_ payload =? start d) | None => false end
    with inconsistent "payload does not abut its data descriptor" ;;
  let local_end := match descriptor with Some d => end_ d | None => end_ payload end in
  let? local_record := map_err (fun _ => inconsistent "local record length underflow")
    (from_bounds (start lh) local_end) in
  reject is_empty local_record with inconsistent "empty local record range" ;;
  reject negb (contains local_cover local_record)
    with inconsistent "local record is outside the local covering" ;;
  reject negb (contains local_record payload)
    with inconsistent "payload range is outside its local record" ;;
  reject match descriptor with Some d => negb (contains local_record d) | None => false end
    with inconsistent "data descriptor is outside its local record" ;;
  Ok (local_record, central).

(** The loop: the two interval lists it pushes to. *)
Fixpoint audit_zip_members (snapshot : SourceSnapshot) (local_cover central_cover : CheckedInterval)
    (ms : list IrMember) : result (list CheckedInterval * list CheckedInterval) CoveringAuditError :=
  match ms with
  | [] => Ok ([], [])
  | m :: ms =>
      let? evidence := ok_or (zip_evidence m)
        (on_member (inconsistent "ZIP member lacks ZIP evidence") (decoded_name m)) in
      let? (local_record, central) := map_err (fun e => on_member e (decoded_name m))
        (audit_zip_ranges snapshot local_cover central_cover (ze_source_ranges evidence)) in
      let? (locals, centrals) := audit_zip_members snapshot local_cover central_cover ms in
      Ok (local_record :: locals, central :: centrals)
  end.

(** [audit_covering_fallible].  [sort_unstable_by_key] may permute intervals
    that start together; two nonempty ones never pass the partition. *)
Definition audit_covering_fallible (snapshot : SourceSnapshot) (ir : ArchiveIR) :
    result unit CoveringAuditError :=
  let? (covering, local_cover, central_cover) := audit_zip_archive snapshot ir in
  let? _ := audit_zip_end snapshot ir covering in
  let count := Z.of_nat (length (members ir)) in
  reject negb (try_reserve "local_ranges" count) with AllocationFailed ;;
  reject negb (try_reserve "central_ranges" count) with AllocationFailed ;;
  let? (locals, centrals) := audit_zip_members snapshot local_cover central_cover (members ir) in
  match locals with
  | [] =>
      reject negb (len (local_records covering) =? 0)
        with inconsistent "empty member list has a nonempty local covering" ;;
      reject negb (len (central_directory covering) =? 0)
        with inconsistent "empty member list has a nonempty central covering" ;;
      Ok ()
  | _ =>
      let? _ := validate_ordered_partition local_cover (sort_by_key start locals)
        "first local record does not start the local covering"
        "last local record does not end the local covering"
        "local records do not form a partition of the covering" in
      validate_ordered_partition central_cover (sort_by_key start centrals)
        "first central header does not start the CD covering"
        "last central header does not end the CD covering"
        "central headers do not form a partition of the covering"
  end.

(** [audit_covering]. *)
Definition audit_covering (snapshot : SourceSnapshot) (ir : ArchiveIR) : result unit Finding :=
  map_err into_finding (audit_covering_fallible snapshot ir).
End Audit.

(** ** Ordered partitions are tilings *)

Lemma insert_by_key_map {A B} (f : A -> B) (key : B -> Z) x l :
  map f (insert_by_key (fun a => key (f a)) x l) = insert_by_key key (f x) (map f l).
Proof. induction l as [|y l IH]; [done|]. simpl. case_match; simpl; [done|by rewrite IH]. Qed.
Lemma sort_by_key_map {A B} (f : A -> B) (key : B -> Z) l :
  map f (sort_by_key (fun a => key (f a)) l) = sort_by_key key (map f l).
Proof. induction l as [|x l IH]; [done|]. simpl. by rewrite insert_by_key_map, IH. Qed.

Lemma any_gap_end_to_end p parts :
  Forall (fun p => start p < end_ p) (p :: parts) ->
  any_gap (p :: parts) = false <-> end_to_end (start p) (p :: parts) (end_ (List.last (p :: parts) p)).
Proof.
  assert (Hd : forall (l : list CheckedInterval) a d d', List.last (a :: l) d = List.last (a :: l) d').
  { induction l as [|b l IH]; intros a d d'; [done|]. exact (IH b d d'). }
  revert p. induction parts as [|q parts IH]; intros p Hf.
  - apply Forall_cons in Hf as [Hp _]. split; [|done]. intros _. by split_and!.
  - apply Forall_cons in Hf as [Hp Hf]. change (any_gap (p :: q :: parts)) with (negb (end_ p =? start q) || any_gap (q :: parts)).
    rewrite orb_false_iff, negb_false_iff, Z.eqb_eq, IH by done.
    change (List.last (p :: q :: parts) p) with (List.last (q :: parts) p). rewrite (Hd parts q p q).
    generalize (end_ (List.last (q :: parts) q)). intros e. split.
    + intros [E H]. split_and!; [done..|]. by rewrite E.
    + intros (_ & _ & H). pose proof H as (E & _). by rewrite E.
Qed.

Lemma end_to_end_last s p parts e d : end_to_end s (p :: parts) e -> end_ (List.last (p :: parts) d) = e.
Proof.
  revert s p. induction parts as [|q parts IH]; intros s p (_ & _ & He); [exact He|]. exact (IH _ q He).
Qed.

Lemma parts_inside_iff outer parts :
  Forall wf parts ->
  existsb (fun part => is_empty part || negb (contains outer part)) parts = false
  <-> Forall (nonempty_inside outer) parts.
Proof.
  induction 1 as [|q l Hq _ IH]; [by split|]. unfold wf in Hq.
  cbn [existsb]. rewrite orb_false_iff, Forall_cons, <- IH. unfold is_empty, contains, nonempty_inside.
  rewrite orb_false_iff, negb_false_iff, andb_true_iff, Z.eqb_neq, !Z.leb_le. intuition lia.
Qed.

Lemma validate_ordered_partition_iff outer parts e1 e2 e3 :
  wf outer -> Forall wf parts ->
  validate_ordered_partition outer parts e1 e2 e3 = Ok () <-> end_to_end (start outer) parts (end_ outer).
Proof.
  intros Ho Hwf. pose proof (parts_inside_iff outer parts Hwf) as Hin. unfold wf in *. destruct parts as [|p parts].
  { unfold validate_ordered_partition, is_empty. cbn [end_to_end]. by destruct (Z.eqb_spec (start outer) (end_ outer)). }
  unfold validate_ordered_partition.
  split.
  - intros Hv. ok_steps Hv. breflect. apply (parts_inside_iff _ _ Hwf) in Hs.
    assert (Hne : Forall (fun p => start p < end_ p) (p :: parts)) by (eapply Forall_impl; [exact Hs|]; by intros ? []).
    apply (any_gap_end_to_end p parts Hne) in Hs1. by rewrite <- Hs0, <- Hs2.
  - intros He. pose proof (fun q => end_to_end_bounds _ _ _ q He) as Hb.
    rewrite (proj2 Hin) by (clear Hin; apply Forall_forall; intros q Hq; specialize (Hb q Hq); unfold nonempty_inside; lia).
    assert (Hne : Forall (fun p => start p < end_ p) (p :: parts)) by (apply Forall_forall; intros q Hq; by apply Hb).
    pose proof He as (Hs & _). assert (Hl : end_ (List.last (p :: parts) p) = end_ outer).
    { by eapply end_to_end_last. }
    rewrite (proj2 (Z.eqb_eq _ _) Hs), (proj2 (any_gap_end_to_end p parts Hne)) by (by rewrite Hl, Hs).
    by rewrite (proj2 (Z.eqb_eq _ _) Hl).
Qed.

(** Sorted by their starts, the parts pass exactly when, in any order, they tile
    the outer interval. *)
Lemma validate_sorted_partition_iff outer parts e1 e2 e3 :
  wf outer -> Forall wf parts ->
  validate_ordered_partition outer (sort_by_key start parts) e1 e2 e3 = Ok () <-> tiles outer parts.
Proof.
  intros Ho Hwf. rewrite validate_ordered_partition_iff; [|done|by rewrite sort_by_key_perm]. split.
  - intros He. eapply tiles_perm; [apply sort_by_key_perm|]. destruct outer. by apply end_to_end_tiles.
  - intros Ht. destruct (decide (parts = [])) as [->|Hne].
    { cbn. apply (exact_partition_iff outer []) in Ht; [|done..]. cbn in Ht. unfold is_empty in Ht.
      by destruct (Z.eqb_spec (start outer) (end_ outer)). }
    apply tiles_iff_chain in Ht as [Hf Hc]; [|done..].
    assert (E : map snd (ordered_parts parts) = sort_by_key start parts).
    { unfold ordered_parts. rewrite (sort_by_key_map snd start). unfold enumerate. by rewrite enumerate_snd. }
    rewrite <- E. apply chain_end_to_end; [done|]. rewrite E, sort_by_key_perm.
    eapply Forall_impl; [exact Hf|]. by intros ? [].
Qed.

(** ** What the audit accepts *)

Definition zip_local_ranges (r : MemberSourceRanges) : list ByteRange :=
  local_header r :: compressed_payload r :: option_list (data_descriptor r).
Definition record_of (r : MemberSourceRanges) : CheckedInterval :=
  {| start := offset (local_header r);
     end_ := match data_descriptor r with
             | Some d => offset d + len d
             | None => offset (compressed_payload r) + len (compressed_payload r)
             end |}.

(** The ranges of one member, as the bytes bear them out. *)
Record zip_ranges_ok (bs : list byte) (r : MemberSourceRanges) : Prop := {
  zr_laid : adjacent (offset (local_header r)) (zip_local_ranges r) (end_ (record_of r));
  zr_local : 30 <= len (local_header r);
  zr_central : 46 <= len (central_header r);
  zr_local_signature : u32_at bs (offset (local_header r)) = LFH_SIG;
  zr_central_signature : u32_at bs (offset (central_header r)) = CDH_SIG
}.

(** The representation is of these bytes: its covering and end record partition
    them, its members' local records tile the first part and their central
    headers the second. *)
Record zip_covered (bs : list byte) (source : SourceDigest) (ir : ArchiveIR) (c : ArchiveCovering)
    (claims : list MemberSourceRanges) : Prop := {
  zc_source : source_digest ir = source;
  zc_covering : archive_zip_covering ir = Some c;
  zc_members : Forall2 (fun m r => option_map ze_source_ranges (zip_evidence m) = Some r) (members ir) claims;
  zc_parts : adjacent 0 [local_records c; central_directory c; eocd c; comment c] (Z.of_nat (length bs));
  zc_end_len : len (eocd c) = EOCD_MIN;
  zc_end : fields_at (offset (eocd c)) (end_fields (Z.of_nat (length (members ir)))
    (len (central_directory c)) (offset (central_directory c)) (len (comment c))) bs;
  zc_ranges : Forall (zip_ranges_ok bs) claims;
  zc_local : tiles (interval_of (local_records c)) (map record_of claims);
  zc_central : tiles (interval_of (central_directory c)) (map (fun r => interval_of (central_header r)) claims)
}.

(** The claims are of unsigned ranges. *)
Record source_ranges_typed (r : MemberSourceRanges) : Prop := {
  st_local : range_nonneg (local_header r);
  st_payload : range_nonneg (compressed_payload r);
  st_descriptor : forall d, data_descriptor r = Some d -> range_nonneg d;
  st_central : range_nonneg (central_header r)
}.
Record zip_claims_typed (ir : ArchiveIR) : Prop := {
  zt_covering : forall c, archive_zip_covering ir = Some c ->
    range_nonneg (local_records c) /\ range_nonneg (central_directory c)
    /\ range_nonneg (eocd c) /\ range_nonneg (comment c);
  zt_members : Forall (fun m => forall e, zip_evidence m = Some e -> source_ranges_typed (ze_source_ranges e)) (members ir)
}.

Section Accepts.
Context `{ALLOC : !Allocator} (s : SourceSnapshot) (bs : list byte).
Hypothesis Hrel : reliable s bs.

Lemma checked_interval_ok r detail i :
  range_nonneg r -> checked_interval r detail = Ok i <-> offset r + len r <= u64_max /\ i = interval_of r.
Proof using.
  intros [? ?]. unfold checked_interval, from_offset_len, interval_of. split.
  - intros Hx. destruct (u64_checked_add _ _) as [e|] eqn:E; [|done]. apply u64_checked_add_Some in E as [-> ?].
    simpl in Hx. by simplify_eq.
  - intros [? ->]. by rewrite u64_checked_add_le by lia.
Qed.

Lemma audit_signature_ok r sig e1 e2 :
  0 <= offset r ->
  audit_signature s r sig e1 e2 = Ok () <-> offset r + 4 <= Z.of_nat (length bs) /\ u32_at bs (offset r) = sig.
Proof using Hrel.
  intros Ho. unfold audit_signature. split.
  - intros Hx. destruct (src_read s (offset r) 4) as [d|f] eqn:Hr; [|done]. simpl in Hx.
    apply (src_read_iff s bs) in Hr as [Hl ->]; [|done|lia|lia]. ok_steps Hx. breflect.
    rewrite u32_at_nested in * by lia. by rewrite Z.add_0_r in *.
  - intros [Hl Hsig]. rewrite (proj2 (src_read_iff s bs (offset r) 4 _ Hrel Ho ltac:(lia)) (conj Hl eq_refl)). simpl.
    rewrite u32_at_nested, Z.add_0_r, Hsig by lia. by rewrite Z.eqb_refl.
Qed.

(** The body past the checked intervals. *)
Lemma audit_zip_ranges_iff lc cc r i :
  source_ranges_typed r -> 0 <= start lc -> end_ lc <= Z.of_nat (length bs) -> end_ cc <= Z.of_nat (length bs) ->
  audit_zip_ranges s lc cc r = Ok i <->
  zip_ranges_ok bs r /\ contains lc (record_of r) = true /\ contains cc (interval_of (central_header r)) = true
  /\ i = (record_of r, interval_of (central_header r)).
Proof using Hrel.
  intros [[Hlo Hll] [Hpo Hpl] Hd [Hco Hcl]] Hlc Hle Hce.
  pose proof (represents_u64 _ _ (reliable_represents _ _ Hrel)) as Hu.
  unfold audit_zip_ranges. split.
  - intros Hx. ok_step Hx. ok_step Hx. ok_step Hx.
    apply checked_interval_ok in Hs as [_ ->]; [|done]. apply checked_interval_ok in Hs0 as [_ ->]; [|done].
    apply checked_interval_ok in Hs1 as [_ ->]; [|done].
    assert (Hdesc : match data_descriptor r with
      | Some range => match checked_interval range "data descriptor overflow" with Ok i => Ok (Some i) | Err e => Err e end
      | None => Ok None end = Ok (option_map interval_of (data_descriptor r))).
    { revert Hx. destruct (data_descriptor r) as [d|]; [|done]. simpl.
      destruct (checked_interval d "data descriptor overflow") as [di|] eqn:Hdi; [|done].
      by apply checked_interval_ok in Hdi as [_ ->]; [|by apply Hd]. }
    rewrite Hdesc in Hx. clear Hdesc. ok_steps Hx. units. breflect.
    repeat match goal with Hq : audit_signature _ _ _ _ _ = Ok _ |- _ => apply audit_signature_ok in Hq; [|done] end.
    match goal with Hq : map_err _ (from_bounds _ _) = Ok _ |- _ => rename Hq into Hfb end.
    unfold from_bounds in Hfb. match type of Hfb with context [if ?b then _ else _] => destruct b; [done|] end.
    injection Hfb as Hlr.
    match type of Hlr with _ = ?x => assert (x = record_of r) as ->
      by (rewrite <- Hlr; unfold record_of; by destruct (data_descriptor r)) end.
    injection Hx as <-. split_and!; try done.
    split; [|lia|lia|tauto|tauto]. unfold zip_local_ranges, record_of in *.
    unfold contains in *. destruct (data_descriptor r) as [d|]; simpl in *; breflect; [specialize (Hd d eq_refl) as [? ?]|];
      split_and!; lia.
  - intros ([Hlaid Hl Hc Hls Hcs] & Hin & Hcin & ->).
    pose proof Hcin as Hcin'. pose proof Hin as Hin'. unfold contains in Hin', Hcin'. breflect.
    assert (Hbounds : offset (local_header r) + len (local_header r) <= end_ (record_of r)
      /\ offset (compressed_payload r) = offset (local_header r) + len (local_header r)
      /\ offset (compressed_payload r) + len (compressed_payload r) <= end_ (record_of r)
      /\ (forall d, data_descriptor r = Some d -> offset d = offset (compressed_payload r) + len (compressed_payload r)
           /\ offset d + len d = end_ (record_of r))).
    { unfold zip_local_ranges, record_of in *. destruct (data_descriptor r) as [d|] eqn:Ed; simpl in *.
      - specialize (Hd d eq_refl) as [? ?]. split_and!; try lia. intros d' [= <-]. lia.
      - split_and!; (lia || done). }
    destruct Hbounds as (Hb1 & Hb2 & Hb3 & Hb4). simpl in *.
    assert (Hci : forall x detail, range_nonneg x -> offset x + len x <= Z.of_nat (length bs) ->
      checked_interval x detail = Ok (interval_of x)) by (intros; apply checked_interval_ok; [done|split; [lia|done]]).
    rewrite !Hci by (by split || lia). cbv zeta.
    assert (match data_descriptor r with
      | Some range => match checked_interval range "data descriptor overflow" with Ok i => Ok (Some i) | Err e => Err e end
      | None => Ok None end = Ok (option_map interval_of (data_descriptor r))) as ->.
    { destruct (data_descriptor r) as [d|]; [|done]. rewrite Hci; [done|by apply Hd|].
      destruct (Hb4 d eq_refl). lia. }
    rewrite !(proj2 (Z.ltb_ge _ _)) by lia.
    assert (Hsg : forall x sig e1 e2, 0 <= offset x -> offset x + 4 <= Z.of_nat (length bs) ->
      u32_at bs (offset x) = sig -> audit_signature s x sig e1 e2 = Ok ()) by (intros; by apply audit_signature_ok).
    rewrite !Hsg by (done || lia). rewrite Hcin. cbn [interval_of start end_ negb].
    rewrite (proj2 (Z.eqb_eq _ _)) by lia. cbn [negb]. unfold from_bounds, record_of, contains, is_empty in *.
    cbn [start end_] in *. destruct (data_descriptor r) as [d|]; cbn [option_map interval_of start end_] in *;
      [destruct (Hb4 d eq_refl), (Hd d eq_refl)|]; repeat first
      [ rewrite (proj2 (Z.ltb_ge _ _)) by lia | rewrite (proj2 (Z.eqb_eq _ _)) by lia
      | rewrite (proj2 (Z.eqb_neq _ _)) by lia | rewrite !(proj2 (Z.leb_le _ _)) by lia | progress cbn [negb andb map_err start end_] ];
      try done.
Qed.

Definition claims_of (m : IrMember) (r : MemberSourceRanges) : Prop :=
  option_map ze_source_ranges (zip_evidence m) = Some r.
Definition inside (lc cc : CheckedInterval) (r : MemberSourceRanges) : Prop :=
  contains lc (record_of r) = true /\ contains cc (interval_of (central_header r)) = true.

Lemma audit_zip_members_iff lc cc ms ls cs :
  Forall (fun m => forall e, zip_evidence m = Some e -> source_ranges_typed (ze_source_ranges e)) ms ->
  0 <= start lc -> end_ lc <= Z.of_nat (length bs) -> end_ cc <= Z.of_nat (length bs) ->
  audit_zip_members s lc cc ms = Ok (ls, cs) <->
  exists claims, Forall2 claims_of ms claims /\ Forall (zip_ranges_ok bs) claims /\ Forall (inside lc cc) claims
    /\ ls = map record_of claims /\ cs = map (fun r => interval_of (central_header r)) claims.
Proof using Hrel.
  intros Ht Hlc Hle Hce. revert ls cs. induction Ht as [|m ms Hm _ IH]; intros ls cs; cbn [audit_zip_members].
  - split; [intros [= <- <-]; exists []; by split_and!|].
    intros (claims & Hf & _ & _ & -> & ->). by apply Forall2_nil_inv_l in Hf as ->.
  - split.
    + intros Hx. destruct (zip_evidence m) as [e|] eqn:He; [|done]. specialize (Hm e eq_refl). simpl in Hx.
      destruct (audit_zip_ranges s lc cc (ze_source_ranges e)) as [i|] eqn:Hr; [|done].
      apply audit_zip_ranges_iff in Hr as (Hok & Hi1 & Hi2 & ->); [|done..]. simpl in Hx.
      destruct (audit_zip_members s lc cc ms) as [[ls' cs']|] eqn:Hms; [|done]. injection Hx as <- <-.
      destruct (proj1 (IH _ _) eq_refl) as (claims & Hf & Hoks & Hins & -> & ->). exists (ze_source_ranges e :: claims).
      split_and!; try done; constructor; try done. unfold claims_of. by rewrite He.
    + intros (claims & Hf & Hoks & Hins & -> & ->). apply Forall2_cons_inv_l in Hf as (r & claims' & Hr & Hf & ->).
      apply Forall_cons in Hoks as [Hok Hoks], Hins as [[Hi1 Hi2] Hins]. unfold claims_of in Hr.
      destruct (zip_evidence m) as [e|] eqn:He; [|done]. injection Hr as <-. cbn [ok_or].
      rewrite (proj2 (audit_zip_ranges_iff lc cc _ _ (Hm e eq_refl) Hlc Hle Hce)) by by split_and!. cbn [map_err].
      by rewrite (proj2 (IH _ _)) by (by exists claims'; split_and!).
Qed.

(** The parts the covering names. *)
Definition covering_parts (c : ArchiveCovering) : Prop :=
  adjacent 0 [local_records c; central_directory c; eocd c; comment c] (Z.of_nat (length bs)) /\ len (eocd c) = EOCD_MIN.

Lemma audit_zip_archive_iff ir c lc cc :
  zip_claims_typed ir ->
  audit_zip_archive s ir = Ok (c, lc, cc) <->
  source_digest ir = digest s /\ archive_zip_covering ir = Some c /\ covering_parts c
  /\ lc = interval_of (local_records c) /\ cc = interval_of (central_directory c).
Proof using Hrel.
  intros [Ht _]. pose proof (represents_len _ _ (reliable_represents _ _ Hrel)) as Hlen.
  pose proof (represents_u64 _ _ (reliable_represents _ _ Hrel)) as Hu. unfold audit_zip_archive, covering_parts.
  destruct (archive_zip_covering ir) as [c'|] eqn:Ec.
  2:{ split; [|by intros (_ & ? & _)]. cbn [ok_or]. by case_match. }
  destruct (Ht c' eq_refl) as ([Hl1 Hl2] & [Hc1 Hc2] & [He1 He2] & [Hm1 Hm2]). cbn [ok_or adjacent].
  rewrite Hlen. split.
  - intros Hx. ok_steps Hx.
    repeat match goal with Hq : checked_interval _ _ = Ok _ |- _ => apply checked_interval_ok in Hq as [_ ->]; [|by split] end.
    breflect. simplify_eq. cbn [interval_of start end_] in *.
    match goal with Hq : bool_decide _ = true |- _ => apply bool_decide_eq_true in Hq end.
    unfold EOCD_MIN. split_and!; (done || lia).
  - intros (Hsd & [= <-] & [Hp Hel] & -> & ->). rewrite bool_decide_eq_true_2 by done. unfold EOCD_MIN in Hel. cbn [negb].
    assert (Hci : forall x detail, range_nonneg x -> offset x + len x <= Z.of_nat (length bs) ->
      checked_interval x detail = Ok (interval_of x)) by (intros; apply checked_interval_ok; [done|split; [lia|done]]).
    rewrite !Hci by (by split || lia). cbn [interval_of start end_].
    by rewrite !(proj2 (Z.eqb_eq _ _)) by lia.
Qed.

Lemma audit_zip_end_iff ir c :
  0 <= offset (eocd c) -> offset (eocd c) + EOCD_MIN <= Z.of_nat (length bs) ->
  audit_zip_end s ir c = Ok () <->
  fields_at (offset (eocd c)) (end_fields (Z.of_nat (length (members ir)))
    (len (central_directory c)) (offset (central_directory c)) (len (comment c))) bs.
Proof using Hrel.
  unfold EOCD_MIN. intros Ho Hl. unfold audit_zip_end.
  rewrite (proj2 (src_read_iff s bs _ 22 _ Hrel Ho ltac:(lia)) (conj Hl eq_refl)). cbn [map_err].
  rewrite !u16_at_nested, !u32_at_nested, Z.add_0_r by lia. unfold end_fields. cbn [fields_at fst snd].
  change (Z.of_nat 4) with 4; change (Z.of_nat 2) with 2. unfold u16_at, u32_at.
  rewrite <- !Z.add_assoc. change (4 + (2 + (2 + (2 + (2 + (4 + 4)))))) with 20.
  change (4 + (2 + (2 + (2 + (2 + 4))))) with 16. change (4 + (2 + (2 + (2 + 2)))) with 12.
  change (4 + (2 + (2 + 2))) with 10. change (4 + (2 + 2)) with 8. change (4 + 2) with 6. split.
  - intros Hx. ok_steps Hx. breflect. split_and!; (done || lia).
  - intros (-> & -> & -> & -> & -> & -> & -> & -> & _). by rewrite !Z.eqb_refl.
Qed.

Lemma tiles_nil outer : wf outer -> tiles outer [] <-> start outer = end_ outer.
Proof using.
  intros Hw. rewrite <- exact_partition_iff by done. unfold exact_partition, is_empty.
  by destruct (Z.eqb_spec (start outer) (end_ outer)).
Qed.

(** The audit returns, and accepts exactly the representations of these bytes. *)
Lemma audit_covering_fallible_iff ir :
  zip_claims_typed ir -> (forall site n, try_reserve site n = true) ->
  audit_covering_fallible s ir = Ok () <-> exists c claims, zip_covered bs (digest s) ir c claims.
Proof using Hrel.
  intros Ht Hres.
  assert (Hwf : forall claims, Forall (zip_ranges_ok bs) claims -> Forall wf (map record_of claims)
    /\ Forall wf (map (fun r => interval_of (central_header r)) claims)).
  { intros claims Hf. split; apply Forall_map; (eapply Forall_impl; [exact Hf|]); intros r [Hlaid ? ? _ _]; unfold wf; simpl;
      [|lia]. by apply adjacent_le in Hlaid. }
  split.
  - intros Hx. unfold audit_covering_fallible in Hx.
    destruct (audit_zip_archive s ir) as [[[c lc] cc]|] eqn:Ha; [|done].
    apply audit_zip_archive_iff in Ha as (Hsd & Hc & [Hp Hel] & -> & ->); [|done].
    destruct (zt_covering _ Ht c Hc) as ([Hl1 Hl2] & [Hc1 Hc2] & [He1 He2] & [Hm1 Hm2]).
    assert (Hp' := Hp). cbn [adjacent] in Hp'. destruct Hp' as (P1 & _ & P2 & _ & P3 & _ & P4 & _ & P5).
    destruct (audit_zip_end s ir c) as [[]|] eqn:He; [|done].
    apply audit_zip_end_iff in He; [|lia|lia]. rewrite !Hres in Hx. cbn [negb] in Hx.
    destruct (audit_zip_members _ _ _ _) as [[ls cs]|] eqn:Hm; [|done].
    apply audit_zip_members_iff in Hm as (claims & Hf & Hoks & _ & -> & ->); [|apply Ht|simpl; lia..].
    exists c, claims. destruct (Hwf _ Hoks) as [W1 W2].
    destruct claims as [|r claims].
    + simpl in Hx. ok_steps Hx. breflect. split; try done; apply tiles_nil; unfold wf; simpl; lia.
    + cbn [map] in Hx. destruct (validate_ordered_partition _ _ _ _ _) as [[]|] eqn:V1 in Hx; [|done].
      apply validate_sorted_partition_iff in V1; [|unfold wf; simpl; lia|done].
      apply validate_sorted_partition_iff in Hx; [|unfold wf; simpl; lia|done]. by split.
  - intros (c & claims & [Hsd Hc Hf Hp Hel He Hoks T1 T2]).
    destruct (zt_covering _ Ht c Hc) as ([Hl1 Hl2] & [Hc1 Hc2] & [He1 He2] & [Hm1 Hm2]).
    assert (Hp' := Hp). cbn [adjacent] in Hp'. destruct Hp' as (P1 & _ & P2 & _ & P3 & _ & P4 & _ & P5). destruct (Hwf _ Hoks) as [W1 W2].
    unfold audit_covering_fallible.
    rewrite (proj2 (audit_zip_archive_iff ir c _ _ Ht)) by (by split_and!).
    rewrite (proj2 (audit_zip_end_iff ir c ltac:(lia) ltac:(lia)) He), !Hres. cbn [negb].
    rewrite (proj2 (audit_zip_members_iff (interval_of (local_records c)) (interval_of (central_directory c)) (members ir) (map record_of claims) (map (fun r => interval_of (central_header r)) claims)
      (zt_members _ Ht) ltac:(simpl; lia) ltac:(simpl; lia) ltac:(simpl; lia))).
    2:{ exists claims. split_and!; try done. apply Forall_forall. intros r Hr. unfold inside, contains.
        destruct (proj1 T1 (record_of r)) as (_ & ? & ?); [by apply list_elem_of_fmap_2|].
        destruct (proj1 T2 (interval_of (central_header r))) as (_ & ? & ?);
          [by apply (list_elem_of_fmap_2 (fun r => interval_of (central_header r)))|].
        rewrite !andb_true_iff, !Z.leb_le. lia. }
    destruct claims as [|r claims].
    + simpl in *. apply tiles_nil in T1, T2; [|unfold wf; simpl; lia..]. simpl in *.
      by rewrite !(proj2 (Z.eqb_eq _ _)) by lia.
    + assert (WL : wf (interval_of (local_records c))) by (unfold wf; simpl; lia).
      assert (WC : wf (interval_of (central_directory c))) by (unfold wf; simpl; lia).
      cbn [map]. rewrite (proj2 (validate_sorted_partition_iff _ _ _ _ _ WL W1) T1).
      by apply (validate_sorted_partition_iff _ _ _ _ _ WC W2).
Qed.
End Accepts.

(** ** What the reader accepts, the audit accepts *)

Lemma u32_at_fields bs off n v fs rest :
  0 <= off -> 4 <= n -> field_ok (4%nat, v) ->
  range off n bs = fields_bytes ((4%nat, v) :: fs) ++ rest -> u32_at bs off = v.
Proof.
  intros Ho Hn Hv Hr. unfold u32_at. replace off with (off + 0) by lia. rewrite <- (range_range 0 4 off n) by lia.
  rewrite Hr. unfold fields_bytes. cbn [map concat fst snd]. rewrite <- app_assoc, range_app_l, range_full
    by (rewrite ?length_le_bytes; lia). by apply le_value_le_bytes.
Qed.

Lemma local_at_signature bs off l : 0 <= off -> local_at bs off l -> u32_at bs off = LFH_SIG.
Proof.
  intros Ho Hl. pose proof (local_at_bounds _ _ _ Hl) as (_ & He & Hd & _). destruct Hl as (_ & _ & _ & i & Hok & Hr). unfold local_bytes, local_fields in *.
  eapply u32_at_fields; [done| |by apply Forall_cons in Hok as [? _]|exact Hr]. lia.
Qed.
Lemma central_at_signature cd pos h : 0 <= pos -> central_at cd pos h -> u32_at cd pos = CDH_SIG.
Proof.
  intros Hp (Hl & _ & _ & _ & i & Hok & Hr). unfold central_bytes, central_fields in *.
  eapply u32_at_fields; [done| |by apply Forall_cons in Hok as [? _]|exact Hr]. unfold ch_end. lia.
Qed.

(** A member whose headers start with their signatures. *)
Record signed (bs : list byte) (m : ZipMember) : Prop := {
  sg_offset : offset (local_header (zm_source_ranges m)) = zm_lfh_offset m;
  sg_local : u32_at bs (zm_lfh_offset m) = LFH_SIG;
  sg_central : u32_at bs (offset (central_header (zm_source_ranges m))) = CDH_SIG;
  sg_local_len : 30 <= len (local_header (zm_source_ranges m));
  sg_central_len : 46 <= len (central_header (zm_source_ranges m))
}.

Lemma entries_signed bs n profile cd_offset pos ms charge :
  0 <= cd_offset -> 0 <= n ->
  zip32_entries bs (range cd_offset n bs) profile cd_offset pos ms charge -> Forall (signed bs) ms.
Proof.
  intros Hc Hn. induction 1 as [|pos ms charge h l m He IH Hcen Hent]; [constructor|].
  apply Forall_app. split; [done|]. constructor; [|constructor].
  pose proof (entries_bounds _ _ _ _ _ _ _ He) as [[Hp _] _].
  pose proof (central_at_bounds _ _ _ Hcen) as (Ho & _ & _ & _ & _ & H46).
  pose proof (local_at_bounds _ _ _ (entry_local _ _ _ _ _ _ Hent)) as (_ & E1 & E2 & _).
  assert (Hin : pos + 46 <= n).
  { destruct Hcen as [Hl _]. unfold range in Hl. rewrite length_take in Hl. lia. }
  destruct (entry_is _ _ _ _ _ _ Hent) as (cfs & lfs & _ & _ & Em).
  rewrite Em. split; cbn [entry_member zm_source_ranges zm_lfh_offset local_header central_header offset len mkrange].
  - done.
  - eapply local_at_signature; [lia|apply Hent].
  - apply central_at_signature in Hcen; [|done]. by rewrite u32_at_nested in Hcen by lia.
  - lia.
  - unfold ch_end in *. lia.
Qed.

Lemma adjacent_end_to_end s rs e :
  adjacent s rs e -> Forall (fun r => 0 < len r) rs -> end_to_end s (map interval_of rs) e.
Proof.
  intros Ha Hf. revert s Ha. induction Hf as [|r rs Hr _ IH]; intros s; [done|].
  cbn [adjacent map end_to_end interval_of start end_]. intros (-> & _ & Ha). split_and!; [done|lia|by apply IH].
Qed.

Lemma adjacent_bounds s rs e r : adjacent s rs e -> r ∈ rs -> s <= offset r /\ offset r + len r <= e.
Proof.
  revert s. induction rs as [|x rs IH]; intros s Ha Hin; [by apply not_elem_of_nil in Hin|].
  destruct Ha as (Hx & Hl & Ha). pose proof (adjacent_le _ _ _ Ha).
  apply elem_of_cons in Hin as [-> |Hin]; [lia|]. specialize (IH _ Ha Hin). lia.
Qed.

Lemma records_of_members ms : Forall member_placed ms ->
  (forall m, m ∈ ms -> offset (local_header (zm_source_ranges m)) = zm_lfh_offset m) ->
  map record_of (map zm_source_ranges ms) = map record_interval ms.
Proof.
  induction 1 as [|m ms Hm _ IH]; intros Ho; [done|]. cbn [map]. rewrite IH by (intros; apply Ho; by right).
  f_equal. unfold record_of, record_interval. rewrite Ho by by left. f_equal.
  unfold member_placed, local_ranges in Hm. destruct (data_descriptor _); simpl in Hm; lia.
Qed.

Section Complete.
Context `{ALLOC : !Allocator} (s : SourceSnapshot) (bs : list byte).
Hypothesis Hrel : reliable s bs.

Lemma zip32_archive_placed profile a :
  zip32_archive bs profile a -> za_metadata_bytes a <= u64_max -> archive_placed a (Z.of_nat (length bs)).
Proof using Hrel.
  intros Ha Hm. pose proof (archive_count _ _ _ Ha).
  apply (@parse_zip32_placed _ _ always_reserves s bs u16_max u64_max profile); [by apply reliable_represents|].
  by apply (@parse_zip32_complete _ _ always_reserves s bs); [| | | |lia|].
Qed.

(** A ZIP32 representation of the members a parser read. *)
Record says_zip32 (ir : ArchiveIR) (a : ZipArchive) : Prop := {
  sz_source : source_digest ir = digest s;
  sz_covering : archive_zip_covering ir = Some (covering a);
  sz_members : Forall2 (fun m z => zip_evidence m = Some (zip_member_evidence z)) (members ir) (za_members a)
}.

Lemma says_zip32_covered profile ir a :
  zip32_archive bs profile a -> za_metadata_bytes a <= u64_max -> says_zip32 ir a ->
  zip_covered bs (digest s) ir (covering a) (map zm_source_ranges (za_members a)).
Proof using Hrel.
  intros Ha Hmb [Hsd Hc Hms]. pose proof (zip32_archive_placed _ _ Ha Hmb) as [Ho Hmp (ps & Hperm & Ht) Hdir Hend].
  destruct (archive_entries _ _ _ Ha) as (charge & Hent & _). pose proof (archive_size _ _ _ Ha) as Hsz.
  pose proof (archive_lands _ _ _ Ha) as Hl. pose proof (archive_last _ _ _ Ha) as [(Hoe & Hce & Hn & _) _].
  pose proof (entries_signed _ _ _ _ _ _ _ Ho (proj1 Hsz) Hent) as Hsig. pose proof (Forall2_length _ _ _ Hms) as Hlen.
  assert (Hin : forall m, m ∈ za_members a -> member_placed m /\ signed bs m)
    by (intros m Hm; by rewrite Forall_forall in Hmp, Hsig; split; [apply Hmp|apply Hsig]).
  split; try done.
  - clear - Hms. induction Hms as [|m z ms zs Hm _ IH]; constructor; [by rewrite Hm|done].
  - cbn [adjacent covering from_zip32 local_records central_directory eocd comment offset len mkrange]. unfold EOCD_MIN in *.
    split_and!; lia.
  - rewrite Hlen. pose proof (archive_end _ _ _ Ha) as He. pose proof (archive_count _ _ _ Ha).
    cbn [covering from_zip32 central_directory eocd comment offset len mkrange]. unfold EOCD_MIN in *.
    apply (fields_bytes_at (za_eocd_offset a)); [lia|change (width _) with 22; lia| |exact He].
    apply end_fields_ok; [lia|lia|apply Ha|done].
  - apply Forall_map, Forall_forall. intros m Hm. destruct (Hin m Hm) as [Hp [So Sl Sc Ll Lc]].
    split; try done; [|by rewrite So]. unfold member_placed, local_ranges in Hp. unfold zip_local_ranges.
    rewrite So. unfold record_of. destruct (data_descriptor _); simpl in *; split_and!; lia.
  - rewrite records_of_members; [|done|intros m Hm; apply Hin; done].
    apply (tiles_perm _ (map record_interval ps)); [by rewrite Hperm|]. by apply end_to_end_tiles.
  - rewrite map_map. rewrite <- (map_map (fun m => central_header (zm_source_ranges m)) interval_of).
    apply end_to_end_tiles. apply adjacent_end_to_end; [done|].
    apply Forall_map, Forall_forall. intros m Hm. destruct (Hin m Hm) as [_ []]. lia.
Qed.

Lemma says_zip32_typed profile ir a :
  zip32_archive bs profile a -> za_metadata_bytes a <= u64_max -> says_zip32 ir a -> zip_claims_typed ir.
Proof using Hrel.
  intros Ha Hmb Hsay. pose proof (says_zip32_covered _ _ _ Ha Hmb Hsay) as [_ Hc Hms Hp _ _ Hr Ht _].
  pose proof (zip32_archive_placed _ _ Ha Hmb) as [Ho Hmp _ Hdir _]. destruct Hsay as [_ Hc' Hms'].
  pose proof (archive_size _ _ _ Ha). pose proof (archive_lands _ _ _ Ha).
  pose proof (archive_last _ _ _ Ha) as [(Hoe & _ & Hn & _) _]. split.
  - intros c E. rewrite Hc' in E. injection E as <-. unfold range_nonneg. simpl. lia.
  - apply Forall_forall. intros m [i Hi]%list_elem_of_lookup e He.
    destruct (Forall2_lookup_l _ _ _ _ _ Hms' Hi) as (z & Hz & Ez). rewrite He in Ez. injection Ez as ->.
    apply list_elem_of_lookup_2 in Hz. rewrite Forall_forall in Hmp. pose proof (Hmp z Hz) as Hpl.
    rewrite Forall_map, Forall_forall in Hr. destruct (Hr z Hz) as [_ L1 L2 _ _].
    destruct (proj1 Ht (record_of (zm_source_ranges z))) as (_ & Hst & _).
    { by apply list_elem_of_fmap_2, list_elem_of_fmap_2. }
    assert (Hco : za_cd_offset a <= offset (central_header (zm_source_ranges z))).
    { refine (proj1 (adjacent_bounds _ _ _ _ Hdir _)). by apply (list_elem_of_fmap_2 (fun m => central_header (zm_source_ranges m))). }
    unfold member_placed, local_ranges in Hpl. cbn [zip_member_evidence ze_source_ranges].
    cbn [record_of start covering from_zip32 local_records interval_of mkrange offset] in Hst.
    destruct (data_descriptor (zm_source_ranges z)) as [d|] eqn:Ed; simpl in Hpl; split; unfold range_nonneg; try lia;
      rewrite ?Ed; intros d' E; simplify_eq; lia.
Qed.

Lemma audit_covering_iff ir :
  zip_claims_typed ir -> (forall site n, try_reserve site n = true) ->
  audit_covering s ir = Ok () <-> exists c claims, zip_covered bs (digest s) ir c claims.
Proof using Hrel.
  intros Ht Hres. rewrite <- (audit_covering_fallible_iff s bs Hrel ir Ht Hres). unfold audit_covering.
  by destruct (audit_covering_fallible s ir) as [[]|].
Qed.

Lemma audit_covering_complete profile ir a :
  zip32_archive bs profile a -> za_metadata_bytes a <= u64_max -> says_zip32 ir a ->
  (forall site n, try_reserve site n = true) -> audit_covering s ir = Ok ().
Proof using Hrel.
  intros Ha Hmb Hsay Hres. apply audit_covering_iff; [by eapply says_zip32_typed|done|].
  eexists _, _. by eapply says_zip32_covered.
Qed.
End Complete.

(** C17: On a snapshot that returns its bytes, the ZIP audit accepts exactly the
    representations whose covering and end record partition the bytes and
    whose members' records tile it; it shares no code with the reader, and
    never refuses a representation of an archive the reader accepts. *)
Theorem audit_zip_covering_iff `{!Allocator} s bs ir :
  reliable s bs -> (forall site n, try_reserve site n = true) -> zip_claims_typed ir ->
  (audit_covering s ir = Ok () <-> exists c claims, zip_covered bs (digest s) ir c claims)
  /\ forall profile a, zip32_archive bs profile a -> za_metadata_bytes a <= u64_max -> says_zip32 s ir a ->
       audit_covering s ir = Ok ().
Proof.
  intros Hrel Hres Ht. split; [by apply audit_covering_iff|].
  intros profile a Ha Hmb Hsay. by eapply audit_covering_complete.
Qed.

(** The two-member archive, and the same covering without its members. *)
Definition example_zip_source : SourceSnapshot := @borrowed null_sha256 None example_zip.
Definition example_zip_ir (a : ZipArchive) (ms : list ZipMember) : ArchiveIR :=
  {| schema := ""; profile := ""; profile_digest := []; source_digest := digest example_zip_source;
     evidence := ArZip (covering a); members := map (fun m => from_planned m [zm_name m] []) ms |}.

Lemma audit_zip_covering_iff_witness :
  match @parse_zip_with_profile _ SourceSnapshot_source always_reserves example_zip_source 2 103 StrictAsciiV2 with
  | Some (Ok a) =>
      @audit_covering always_reserves example_zip_source (example_zip_ir a (za_members a)) = Ok ()
      /\ ~ exists c claims, zip_covered example_zip (digest example_zip_source) (example_zip_ir a []) c claims
  | _ => False
  end.
Proof.
  pose proof (@parse_zip32_accepts_iff _ SourceSnapshot_source always_reserves example_zip_source example_zip 2 103
    StrictAsciiV2 example_zip_reliable (fun _ _ => eq_refl) ltac:(unfold is_u64, u64_max; lia)
    ltac:(unfold is_u64, u64_max; lia) ltac:(discriminate)) as [_ Hiff].
  destruct (parse_zip_with_profile _ _ _ _) as [[a|f]|] eqn:E; [|exfalso; vm_compute in E; discriminate..].
  destruct (proj1 (Hiff a) eq_refl) as (Ha & _ & Hm).
  assert (Hsay : @says_zip32 example_zip_source (example_zip_ir a (za_members a)) a).
  { split; [done..|]. cbn [example_zip_ir members]. generalize (za_members a). intros ms.
    induction ms as [|z ms IH]; constructor; [done|exact IH]. }
  assert (Hmb : za_metadata_bytes a <= u64_max) by (unfold u64_max; lia). split.
  - apply (@audit_zip_covering_iff always_reserves example_zip_source example_zip _ example_zip_reliable
      (fun _ _ => eq_refl) (@says_zip32_typed example_zip_source example_zip example_zip_reliable _ _ _ Ha Hmb Hsay))
      with (profile := StrictAsciiV2) (a := a); done.
  - assert (Ht : zip_claims_typed (example_zip_ir a [])).
    { split; [|constructor]. intros c Hc. eapply (zt_covering _ (@says_zip32_typed example_zip_source example_zip
        example_zip_reliable _ _ _ Ha Hmb Hsay)). exact Hc. }
    intros Hex. apply (@audit_zip_covering_iff always_reserves example_zip_source example_zip _ example_zip_reliable
      (fun _ _ => eq_refl) Ht) in Hex. vm_compute in E. injection E as <-. vm_compute in Hex. discriminate.
Defined.
