(* ===== verification/CoveringZip64.v ===== *)
(** * The ZIP64 covering audit ([covering.rs])

    The range oracle over a claimed ZIP64 representation.  Unlike the ZIP32
    audit it also reads the fixed fields, names, extra fields and descriptors
    back and compares them with the evidence, value by value. *)

From S2P Require Import Prelude Utf8 Findings Interval Snapshot Ir Layout ByteFields ZipFields ZipRecords Zip64 ZipSearch ZipValues ZipLayout ZipGrammar ZipRefine Evidence Covering CoveringTar CoveringZip.
Local Open Scope Z_scope.
Local Open Scope rust_scope.

#[export] Instance DataDescriptorWidth_eq_dec : EqDecision DataDescriptorWidth.
Proof. solve_decision. Defined.
#[export] Instance Zip64LocalValueShape_eq_dec : EqDecision Zip64LocalValueShape.
Proof. solve_decision. Defined.
#[export] Instance ExtraSite_eq_dec : EqDecision ExtraSite.
Proof. solve_decision. Defined.
#[export] Instance ExtraDisposition_eq_dec : EqDecision ExtraDisposition.
Proof. solve_decision. Defined.

(** [canonical_member_u32], [canonical_end_u16], [canonical_end_u32]. *)
Definition canonical_member_u32 (legacy resolved : Z) : bool :=
  if resolved <? u32_max then legacy =? resolved else legacy =? u32_max.
Definition canonical_end_u16 (legacy resolved : Z) : bool :=
  if resolved <? u16_max then (legacy =? resolved) || (legacy =? u16_max) else legacy =? u16_max.
Definition canonical_end_u32 (legacy resolved : Z) : bool :=
  if resolved <? u32_max then (legacy =? resolved) || (legacy =? u32_max) else legacy =? u32_max.

(** [checked_interval(..).map_err(CoveringAuditError::into_finding)]. *)
Definition interval64 (range : ByteRange) (detail : string) : result CheckedInterval Finding :=
  map_err into_finding (checked_interval range detail).

Definition u64_checked_sub (a b : Z) : option Z := if b <=? a then Some (a - b) else None.

(** [u8::from(condition) << index]. *)
Definition bit (b : bool) (index : Z) : Z := Z.shiftl (Z.b2z b) index.

(** ** The end records *)

Section End.
Context (snapshot : SourceSnapshot) (ir : ArchiveIR).

Record Zip64Parts : Type := {
  zp_covering : Zip64ArchiveCovering;
  zp_local : CheckedInterval;
  zp_central : CheckedInterval;
  zp_pair : option (ByteRange * ByteRange)
}.

(** From the format check to the geometry of the directory. *)
Definition audit_zip64_archive : result Zip64Parts Finding :=
  reject negb (bool_decide (format ir = FormatZip64))
    with fail "ZIP64 covering audit received a non-ZIP64 IR" ;;
  reject negb (bool_decide (source_digest ir = digest snapshot))
    with fail "source digest does not match the snapshot" ;;
  let? covering := ok_or (archive_zip64_covering ir) (fail "ZIP64 IR has no ZIP64 covering") in
  let? local_cover := interval64 (z64_local_records covering) "local-record covering overflow" in
  let? central_cover := interval64 (z64_central_directory covering) "central-directory covering overflow" in
  let? eocd_end := checked_range_end (z64_eocd covering) "EOCD covering overflow" in
  let? comment_end := checked_range_end (z64_comment covering) "comment covering overflow" in
  reject negb (offset (z64_local_records covering) =? 0)
         || negb (end_ local_cover =? start central_cover)
         || negb (len (z64_eocd covering) =? 22)
         || negb (eocd_end =? offset (z64_comment covering))
         || negb (comment_end =? src_len snapshot)
    with fail "ZIP64 top-level ranges do not exactly partition the snapshot" ;;
  let? end_pair :=
    match z64_eocd64 covering, z64_locator covering with
    | None, None => Ok None
    | Some record, Some locator => Ok (Some (record, locator))
    | _, _ => Err (fail "ZIP64 end-record evidence is only partially present")
    end in
  let expected_after_cd :=
    match end_pair with Some (record, _) => offset record | None => offset (z64_eocd covering) end in
  reject negb (end_ central_cover =? expected_after_cd)
    with fail "ZIP64 central directory does not abut the next end record" ;;
  Ok {| zp_covering := covering; zp_local := local_cover; zp_central := central_cover; zp_pair := end_pair |}.

(** The fixed pair, read back; the version the record needs. *)
Definition audit_zip64_pair (parts : Zip64Parts) (eocd : list byte) (record_range locator_range : ByteRange) :
    result Z Finding :=
  let covering := zp_covering parts in
  let central := z64_central_directory covering in
  let resolved_count := Z.of_nat (length (members ir)) in
  let geometry := fail "ZIP64 end pair does not have fixed adjacent geometry" in
  reject negb (len record_range =? 56) || negb (len locator_range =? 20) with geometry ;;
  let? record_end := checked_range_end record_range "ZIP64 EOCD range overflow" in
  reject negb (record_end =? offset locator_range) with geometry ;;
  let? locator_end := checked_range_end locator_range "ZIP64 locator range overflow" in
  reject negb (locator_end =? offset (z64_eocd covering)) with geometry ;;
  let? record := map_err (fun _ => fail "claimed ZIP64 EOCD is outside the snapshot")
    (src_read snapshot (offset record_range) 56) in
  let? locator := map_err (fun _ => fail "claimed ZIP64 locator is outside the snapshot")
    (src_read snapshot (offset locator_range) 20) in
  reject negb (u32_at record 0 =? ZIP64_EOCD_SIG)
         || negb (u64_at record 4 =? 44)
         || negb (u32_at record 16 =? 0)
         || negb (u32_at record 20 =? 0)
         || negb (u64_at record 24 =? resolved_count)
         || negb (u64_at record 32 =? resolved_count)
         || negb (u64_at record 40 =? len central)
         || negb (u64_at record 48 =? offset central)
    with fail "ZIP64 EOCD disagrees with the represented archive" ;;
  reject negb (u32_at locator 0 =? ZIP64_LOCATOR_SIG)
         || negb (u32_at locator 4 =? 0)
         || negb (u64_at locator 8 =? offset record_range)
         || negb (u32_at locator 16 =? 1)
    with fail "ZIP64 locator disagrees with the represented archive" ;;
  let classic_count_disk := u16_at eocd 8 in
  let classic_count_total := u16_at eocd 10 in
  let classic_cd_size := u32_at eocd 12 in
  let classic_cd_offset := u32_at eocd 16 in
  let has_sentinel :=
    (classic_count_disk =? u16_max) || (classic_count_total =? u16_max)
    || (classic_cd_size =? u32_max) || (classic_cd_offset =? u32_max) in
  reject negb has_sentinel
         || negb (canonical_end_u16 classic_count_disk resolved_count)
         || negb (canonical_end_u16 classic_count_total resolved_count)
         || negb (canonical_end_u32 classic_cd_size (len central))
         || negb (canonical_end_u32 classic_cd_offset (offset central))
    with fail "classic EOCD is not canonical for the ZIP64 end record" ;;
  Ok (u16_at record 14).

(** The classic record, and the pair when there is one. *)
Definition audit_zip64_end (parts : Zip64Parts) : result (option Z) Finding :=
  let covering := zp_covering parts in
  let central := z64_central_directory covering in
  let resolved_count := Z.of_nat (length (members ir)) in
  let? eocd := map_err (fun _ => fail "claimed ZIP64 classic EOCD is outside the snapshot")
    (src_read snapshot (offset (z64_eocd covering)) 22) in
  reject negb (u32_at eocd 0 =? EOCD_SIG) || negb (u16_at eocd 4 =? 0) || negb (u16_at eocd 6 =? 0)
    with fail "claimed ZIP64 classic EOCD is invalid or spanned" ;;
  reject negb (u16_at eocd 20 =? len (z64_comment covering))
    with fail "ZIP64 EOCD comment length does not match the covering" ;;
  match zp_pair parts with
  | Some (record_range, locator_range) =>
      let? version := audit_zip64_pair parts eocd record_range locator_range in Ok (Some version)
  | None =>
      reject negb (u16_at eocd 8 =? resolved_count) || negb (u16_at eocd 10 =? resolved_count)
             || negb (u32_at eocd 12 =? len central) || negb (u32_at eocd 16 =? offset central)
        with fail "classic EOCD disagrees with member-only ZIP64 evidence" ;;
      Ok None
  end.

(** The version of the end record against the members'; [max()] of an empty
    iterator is zero. *)
Definition audit_zip64_version (version_needed : option Z) : result unit Finding :=
  match version_needed with
  | Some version_needed =>
      let maximum_member_version :=
        foldr Z.max 0 (map z_central_version_needed (omap zip64_evidence (members ir))) in
      reject negb (version_needed =? 45)
             && ((maximum_member_version =? 0) || negb (version_needed =? maximum_member_version))
        with fail "ZIP64 EOCD extraction version is neither 4.5 nor the maximum member version" ;;
      Ok ()
  | None => Ok ()
  end.
End End.

(** ** The fields both headers share *)

Section Common.
Context `{!Allocator} (snapshot : SourceSnapshot) (m : IrMember) (zip64 : Zip64MemberEvidence).
Context (local central : list byte).
Local Abbreviation zip := (z_zip zip64).
Local Abbreviation refuse detail := (on (fail detail) (decoded_name m)).

(** Flags, method, checksum, disk, creator and attributes. *)
Definition audit_zip64_fixed : result unit Finding :=
  reject negb (u16_at local 6 =? ze_flags zip) || negb (u16_at central 8 =? ze_flags zip)
         || negb (u16_at local 8 =? ze_method zip) || negb (u16_at central 10 =? ze_method zip)
         || negb ((ze_flags zip =? 0) || (ze_flags zip =? 8))
         || negb ((ze_method zip =? 0) || (ze_method zip =? 8))
    with refuse "ZIP64 common method or flag evidence disagrees with the source" ;;
  reject negb (u32_at central 16 =? ze_declared_crc zip) || negb (u16_at central 34 =? 0)
         || negb (Z.shiftr (u16_at central 4) 8 =? ze_creator_system zip)
         || negb (u32_at central 38 =? ze_external_attributes zip)
    with refuse "ZIP64 common central-directory evidence disagrees with the source" ;;
  Ok ().

(** The name, twice, and the kind it and the attributes say. *)
Definition audit_zip64_name : result unit Finding :=
  let ranges := ze_source_ranges zip in
  let? local_name_offset := ok_or (u64_checked_add (offset (local_header ranges)) 30)
    (refuse "ZIP64 local name offset overflows") in
  let? central_name_offset := ok_or (u64_checked_add (offset (central_header ranges)) 46)
    (refuse "ZIP64 central name offset overflows") in
  let? local_name := map_err (fun _ => refuse "ZIP64 local name is outside the snapshot")
    (read_vec snapshot local_name_offset (u16_at local 26)) in
  let? central_name := map_err (fun _ => refuse "ZIP64 central name is outside the snapshot")
    (read_vec snapshot central_name_offset (u16_at central 28)) in
  reject negb (bool_decide (local_name = ir_raw_name_bytes m))
         || negb (bool_decide (central_name = ir_raw_name_bytes m))
         || negb (is_ascii (ir_raw_name_bytes m))
         || negb (bool_decide (decoded_name m = ir_raw_name_bytes m))
    with refuse "ZIP64 member name evidence disagrees with the source" ;;
  let source_is_directory := ends_with_byte "/" (ir_raw_name_bytes m) in
  reject negb (Bool.eqb source_is_directory (bool_decide (ir_kind m = KindDirectory)))
    with refuse "ZIP64 member kind disagrees with its source name" ;;
  let dos_directory := negb (Z.land (ze_external_attributes zip) 0x10 =? 0) in
  let unix_kind := Z.land (Z.shiftr (ze_external_attributes zip) 16) 0xf000 in
  let attribute_is_directory := dos_directory || (unix_kind =? 0x4000) in
  let attribute_is_regular := unix_kind =? 0x8000 in
  let attribute_is_special :=
    negb (unix_kind =? 0) && negb (unix_kind =? 0x4000) && negb (unix_kind =? 0x8000) in
  reject attribute_is_special
         || (attribute_is_directory && attribute_is_regular)
         || (negb (Bool.eqb attribute_is_directory source_is_directory)
             && (attribute_is_directory || attribute_is_regular))
         || (source_is_directory
             && (negb (ze_declared_comp_size zip =? 0) || negb (declared_uncomp_size m =? 0)
                 || negb (ze_method zip =? 0) || negb (ze_declared_crc zip =? 0)))
    with refuse "ZIP64 directory metadata disagrees with the admitted member kind" ;;
  Ok ().

Definition streams : bool := negb (Z.land (ze_flags zip) 8 =? 0).
Definition has_local_extra : bool := bool_decide (is_Some (z_local_zip64_extra zip64)).
Definition has_central_extra : bool := bool_decide (is_Some (z_central_zip64_extra zip64)).

(** The local header's own checksum and sizes, under the claimed shape. *)
Definition audit_zip64_local_values : result unit Finding :=
  let local_crc := u32_at local 14 in
  let local_comp := u32_at local 18 in
  let local_uncomp := u32_at local 22 in
  let comp := ze_declared_comp_size zip in
  let uncomp := declared_uncomp_size m in
  reject (negb streams && negb (local_crc =? ze_declared_crc zip))
         || (streams && negb (local_crc =? 0) && negb (local_crc =? ze_declared_crc zip))
    with refuse "ZIP64 local CRC evidence disagrees with the source" ;;
  match z_local_value_shape zip64 with
  | Absent =>
      let sizes_match :=
        if streams
        then ((local_comp =? 0) || (local_comp =? comp)) && ((local_uncomp =? 0) || (local_uncomp =? uncomp))
        else (local_comp =? comp) && (local_uncomp =? uncomp) in
      reject has_local_extra || negb sizes_match
        with refuse "ZIP64 absent local values disagree with legacy size fields" ;;
      Ok ()
  | Exact =>
      let forced := (local_uncomp =? u32_max) && (local_comp =? u32_max) in
      let canonical := canonical_member_u32 local_uncomp uncomp && canonical_member_u32 local_comp comp in
      reject negb has_local_extra || (negb forced && negb canonical)
        with refuse "ZIP64 exact local values disagree with legacy size fields" ;;
      Ok ()
  | StreamingZeros =>
      reject negb streams || negb has_local_extra || negb (local_uncomp =? u32_max) || negb (local_comp =? u32_max)
        with refuse "ZIP64 zero streaming values disagree with legacy placeholders" ;;
      Ok ()
  | StreamingMaxima =>
      reject negb streams || negb has_local_extra || negb (local_uncomp =? 0) || negb (local_comp =? 0)
        with refuse "ZIP64 maximum streaming values disagree with legacy placeholders" ;;
      Ok ()
  end.

(** The extraction versions, and the width the descriptor must have. *)
Definition audit_zip64_versions (has_global_end_pair : bool) : result unit Finding :=
  let comp := ze_declared_comp_size zip in
  let uncomp := declared_uncomp_size m in
  reject has_local_extra && (z_local_version_needed zip64 <? 45)
    with refuse "ZIP64 local extra requires extraction version 4.5" ;;
  let central_legacy_comp := u32_at central 20 in
  let central_legacy_uncomp := u32_at central 24 in
  let central_legacy_offset := u32_at central 42 in
  let version := z_central_version_needed zip64 in
  let standard_offset_only :=
    (z_central_presence_mask zip64 =? 4) && (central_legacy_uncomp =? uncomp) && (central_legacy_comp =? comp)
    && ((ze_method zip =? 0) && (version =? 10) || (ze_method zip =? 8) && (version =? 20)) in
  let go_offset_only :=
    (z_central_presence_mask zip64 =? 7) && (central_legacy_uncomp =? u32_max)
    && (central_legacy_comp =? u32_max) && (version =? 20) && ((ze_method zip =? 0) || (ze_method zip =? 8)) in
  let offset_only :=
    has_global_end_pair && (standard_offset_only || go_offset_only) && (central_legacy_offset =? u32_max)
    && (uncomp <? u32_max) && (comp <? u32_max)
    && (u32_max <=? offset (local_header (ze_source_ranges zip))) in
  reject has_central_extra && (version <? 45) && negb offset_only
    with refuse "ZIP64 central evidence has no admitted low-version offset-only shape" ;;
  let expected_descriptor_width :=
    if streams
    then Some (if has_local_extra || (u32_max <=? comp) || (u32_max <=? uncomp) then Zip64 else Zip32)
    else None in
  reject negb (bool_decide (z_descriptor_width zip64 = expected_descriptor_width))
    with refuse "ZIP64 descriptor-width evidence is not canonical for the member" ;;
  Ok ().

(** [audit_zip64_common_member]. *)
Definition audit_zip64_common_member (has_global_end_pair : bool) : result unit Finding :=
  let? _ := audit_zip64_fixed in
  let? _ := audit_zip64_name in
  let? _ := audit_zip64_local_values in
  audit_zip64_versions has_global_end_pair.
End Common.

(** ** Extra fields *)

(** The loop over the three values under one candidate mask; [None] where the
    code clears [valid]. *)
Fixpoint candidate_values (data : list byte) (candidate index cursor : Z) (legacy : list Z) : option (list Z) :=
  match legacy with
  | [] => Some []
  | value :: legacy =>
      if Z.land candidate (Z.shiftl 1 index) =? 0
      then option_map (cons value) (candidate_values data candidate (index + 1) cursor legacy)
      else
        let read := u64_at data cursor in
        if value =? u32_max
        then option_map (cons read) (candidate_values data candidate (index + 1) (cursor + 8) legacy)
        else if negb (read =? value) then None
        else option_map (cons value) (candidate_values data candidate (index + 1) (cursor + 8) legacy)
  end.

(** The fold that computes [required_mask]. *)
Fixpoint required_mask_from (index : Z) (legacy : list Z) (required : Z) : Z :=
  match legacy with
  | [] => required
  | value :: legacy => required_mask_from (index + 1) legacy (Z.lor required (bit (value =? u32_max) index))
  end.

(** One iteration over the candidates: how many masks match, and the last. *)
Definition candidate_step (data : list byte) (legacy resolved : list Z) (mask required_mask : Z)
    (st : Z * Z) (candidate : Z) : Z * Z :=
  let '(matching_masks, unique_mask) := st in
  if negb (count_ones candidate =? count_ones mask) || negb (Z.land candidate required_mask =? required_mask)
  then st
  else if bool_decide (candidate_values data candidate 0 0 legacy = Some resolved)
  then (Z.min u8_max (matching_masks + 1), candidate)
  else st.

Section Extras.
Context `{!Allocator} (snapshot : SourceSnapshot) (m : IrMember) (zip64 : Zip64MemberEvidence).
Context (local central : list byte).
Local Abbreviation zip := (z_zip zip64).
Local Abbreviation ranges := (ze_source_ranges zip).
Local Abbreviation refuse detail := (on (fail detail) (decoded_name m)).

(** The fields are the closed semantic language. *)
Fixpoint audit_zip64_fields (fields : list ExtraFieldRecord) : result unit Finding :=
  match fields with
  | [] => Ok ()
  | field :: fields =>
      let? header_end := map_err (fun _ => refuse "ZIP64 extra-field header range overflows")
        (checked_range_end (header_range field) "ZIP64 extra-field header range overflows") in
      reject negb (id field =? 1) || negb (bool_decide (disposition field = Semantic))
             || negb (len (header_range field) =? 4) || negb (header_end =? offset (data_range field))
        with refuse "ZIP64 extra-field evidence is not the closed semantic language" ;;
      audit_zip64_fields fields
  end.

(** One site: at most one field, the claimed one, with its header before it. *)
Definition audit_zip64_site (site_ : ExtraSite) (expected : option ByteRange) : result unit Finding :=
  let matching := List.filter (fun field => bool_decide (site field = site_)) (ze_extra_fields zip) in
  reject (1 <? length matching)%nat || negb (bool_decide (option_map data_range (head matching) = expected))
    with refuse "ZIP64 site-specific extra evidence is inconsistent" ;;
  match expected with
  | Some range =>
      let? header_offset := ok_or (u64_checked_sub (offset range) 4)
        (refuse "ZIP64 extra header offset underflows") in
      let? header := map_err (fun _ => refuse "ZIP64 extra header is outside the snapshot")
        (src_read snapshot header_offset 4) in
      reject negb (u16_at header 0 =? 1) || negb (u16_at header 2 =? len range)
        with refuse "ZIP64 extra header disagrees with its evidence" ;;
      Ok ()
  | None => Ok ()
  end.

(** The claimed field fills the header's extra area, or the area is empty. *)
Definition audit_zip64_area (range : option ByteRange) (area_start area_end : Z) : result unit Finding :=
  match range with
  | Some range =>
      let? header_start := ok_or (u64_checked_sub (offset range) 4) (refuse "ZIP64 extra range underflows") in
      let? stop := map_err (fun _ => refuse "ZIP64 extra data range overflows")
        (checked_range_end range "ZIP64 extra data range overflows") in
      reject negb (header_start =? area_start) || negb (stop =? area_end)
        with refuse "ZIP64 extra does not exactly fill its header extra area" ;;
      Ok ()
  | None =>
      reject negb (area_start =? area_end) with refuse "unrepresented ZIP64 header extra bytes remain" ;;
      Ok ()
  end.

Definition audit_zip64_areas : result unit Finding :=
  let? local_start := ok_or (u64_checked_add (offset (local_header ranges)) (30 + u16_at local 26))
    (refuse "ZIP64 local extra offset overflows") in
  let? local_end := ok_or (u64_checked_add local_start (u16_at local 28))
    (refuse "ZIP64 local extra range overflows") in
  let? central_start := ok_or (u64_checked_add (offset (central_header ranges)) (46 + u16_at central 28))
    (refuse "ZIP64 central extra offset overflows") in
  let? central_end := ok_or (u64_checked_add central_start (u16_at central 30))
    (refuse "ZIP64 central extra range overflows") in
  let? _ := audit_zip64_area (z_local_zip64_extra zip64) local_start local_end in
  audit_zip64_area (z_central_zip64_extra zip64) central_start central_end.

(** The local values, under the claimed shape. *)
Definition audit_zip64_local_extra : result unit Finding :=
  match z_local_zip64_extra zip64 with
  | None =>
      reject negb (bool_decide (z_local_value_shape zip64 = Absent))
        with refuse "absent local ZIP64 extra has a non-absent value shape" ;;
      Ok ()
  | Some range =>
      reject negb (len range =? 16) || bool_decide (z_local_value_shape zip64 = Absent)
        with refuse "local ZIP64 extra has an invalid semantic shape" ;;
      let? data := map_err (fun _ => refuse "local ZIP64 extra is outside the snapshot")
        (read_vec snapshot (offset range) (len range)) in
      let values := [u64_at data 0; u64_at data 8] in
      let valid :=
        match z_local_value_shape zip64 with
        | Absent => false
        | Exact => bool_decide (values = [declared_uncomp_size m; ze_declared_comp_size zip])
        | StreamingZeros => bool_decide (values = [0; 0])
        | StreamingMaxima => bool_decide (values = [u64_max; u64_max])
        end in
      reject negb valid with refuse "local ZIP64 value shape disagrees with the source" ;;
      Ok ()
  end.

(** The central values: the claimed mask is the only reading of the field that
    gives the resolved values. *)
Definition audit_zip64_central_extra : result unit Finding :=
  let legacy := [u32_at central 24; u32_at central 20; u32_at central 42] in
  let resolved := [declared_uncomp_size m; ze_declared_comp_size zip; offset (local_header ranges)] in
  let mask := z_central_presence_mask zip64 in
  match z_central_zip64_extra zip64 with
  | None =>
      reject negb (mask =? 0) || negb (z_central_legacy_sentinel_mask zip64 =? 0)
        with refuse "absent central ZIP64 extra has semantic fields" ;;
      reject negb (bool_decide (legacy = resolved))
        with refuse "central legacy values disagree with resolved ZIP64 evidence" ;;
      Ok ()
  | Some range =>
      reject (mask =? 0) || (7 <? mask) || negb (len range =? count_ones mask * 8)
        with refuse "central ZIP64 presence mask disagrees with its data length" ;;
      reject negb (Z.land mask (z_central_legacy_sentinel_mask zip64) =? z_central_legacy_sentinel_mask zip64)
        with refuse "central ZIP64 presence mask omits a legacy sentinel" ;;
      let? data := map_err (fun _ => refuse "central ZIP64 extra is outside the snapshot")
        (read_vec snapshot (offset range) (len range)) in
      let required_mask := required_mask_from 0 legacy 0 in
      let '(matching_masks, unique_mask) :=
        foldl (candidate_step data legacy resolved mask required_mask) (0, 0) [1; 2; 3; 4; 5; 6; 7] in
      reject negb (matching_masks =? 1) || negb (unique_mask =? mask)
        with refuse "central ZIP64 values do not have one evidence-selected interpretation" ;;
      Ok ()
  end.

(** [audit_zip64_extras]. *)
Definition audit_zip64_extras : result unit Finding :=
  let? _ := audit_zip64_fields (ze_extra_fields zip) in
  let? _ := audit_zip64_site Ir.Local (z_local_zip64_extra zip64) in
  let? _ := audit_zip64_site Ir.Central (z_central_zip64_extra zip64) in
  let? _ := audit_zip64_areas in
  let? _ := audit_zip64_local_extra in
  audit_zip64_central_extra.

(** [audit_zip64_descriptor]. *)
Definition audit_zip64_descriptor : result unit Finding :=
  match z_descriptor_width zip64, data_descriptor ranges with
  | None, None =>
      if streams zip64 then Err (refuse "ZIP64 descriptor evidence disagrees with flag bit 3") else Ok ()
  | Some width, Some range =>
      if negb (streams zip64) then Err (refuse "ZIP64 descriptor evidence disagrees with flag bit 3")
      else
        let expected_len := match width with Zip32 => 16 | Zip64 => 24 end in
        reject negb (len range =? expected_len) with refuse "ZIP64 descriptor range has the wrong width" ;;
        let? data := map_err (fun _ => refuse "ZIP64 descriptor is outside the snapshot")
          (read_vec snapshot (offset range) (len range)) in
        reject negb (u32_at data 0 =? DATA_DESCRIPTOR_SIG) || negb (u32_at data 4 =? ze_declared_crc zip)
          with refuse "ZIP64 descriptor signature or CRC disagrees with evidence" ;;
        let compressed := match width with Zip32 => u32_at data 8 | Zip64 => u64_at data 8 end in
        let uncompressed := match width with Zip32 => u32_at data 12 | Zip64 => u64_at data 16 end in
        reject negb (compressed =? ze_declared_comp_size zip) || negb (uncompressed =? declared_uncomp_size m)
          with refuse "ZIP64 descriptor sizes disagree with evidence" ;;
        Ok ()
  | _, _ => Err (refuse "ZIP64 descriptor evidence disagrees with flag bit 3")
  end.
End Extras.

(** ** Members *)

Section Members.
Context `{!Allocator} (snapshot : SourceSnapshot) (local_cover central_cover : CheckedInterval).
Context (has_global_end_pair : bool).

(** The ranges of the member against the two headers that were read. *)
Definition audit_zip64_geometry (m : IrMember) (zip64 : Zip64MemberEvidence) (lh payload ch : CheckedInterval)
    (local central : list byte) : result unit Finding :=
  let zip := z_zip zip64 in
  let ranges := ze_source_ranges zip in
  reject negb (u32_at local 0 =? LFH_SIG) || negb (u32_at central 0 =? CDH_SIG)
    with on (fail "claimed ZIP64 member header signature is invalid") (decoded_name m) ;;
  reject negb (len (local_header ranges) =? 30 + u16_at local 26 + u16_at local 28)
         || negb (len (central_header ranges)
                  =? 46 + u16_at central 28 + u16_at central 30 + u16_at central 32)
         || negb (end_ lh =? start payload)
         || negb (len (compressed_payload ranges) =? ze_declared_comp_size zip)
         || negb (contains local_cover lh)
         || negb (contains central_cover ch)
    with on (fail "ZIP64 member ranges disagree with encoded header lengths") (decoded_name m) ;;
  reject negb (u16_at local 4 =? z_local_version_needed zip64)
         || negb (u16_at central 6 =? z_central_version_needed zip64)
    with on (fail "ZIP64 member version evidence disagrees with the source") (decoded_name m) ;;
  let central_legacy_mask :=
    Z.lor (Z.lor (bit (u32_at central 24 =? u32_max) 0) (bit (u32_at central 20 =? u32_max) 1))
      (bit (u32_at central 42 =? u32_max) 2) in
  let local_legacy_mask := Z.lor (bit (u32_at local 22 =? u32_max) 0) (bit (u32_at local 18 =? u32_max) 1) in
  reject negb (central_legacy_mask =? z_central_legacy_sentinel_mask zip64)
         || negb (local_legacy_mask =? z_local_legacy_sentinel_mask zip64)
    with on (fail "ZIP64 legacy sentinel evidence disagrees with the source") (decoded_name m) ;;
  Ok ().

(** The body of the loop: the local record and the central header. *)
Definition audit_zip64_member (m : IrMember) : result (CheckedInterval * CheckedInterval) Finding :=
  let? zip64 := ok_or (zip64_evidence m) (on (fail "ZIP64 member lacks ZIP64 evidence") (decoded_name m)) in
  let ranges := ze_source_ranges (z_zip zip64) in
  let? lh := interval64 (local_header ranges) "ZIP64 local header overflow" in
  let? payload := interval64 (compressed_payload ranges) "ZIP64 payload overflow" in
  let? ch := interval64 (central_header ranges) "ZIP64 CDH overflow" in
  let? descriptor :=
    match data_descriptor ranges with
    | Some range => let? i := interval64 range "ZIP64 descriptor overflow" in Ok (Some i)
    | None => Ok None
    end in
  reject (len (local_header ranges) <? 30) || (len (central_header ranges) <? 46)
    with on (fail "ZIP64 member header range is shorter than its fixed header") (decoded_name m) ;;
  let? local := map_err (fun _ => fail "claimed ZIP64 LFH is outside the snapshot")
    (src_read snapshot (offset (local_header ranges)) 30) in
  let? central := map_err (fun _ => fail "claimed ZIP64 CDH is outside the snapshot")
    (src_read snapshot (offset (central_header ranges)) 46) in
  let? _ := audit_zip64_geometry m zip64 lh payload ch local central in
  let? _ := audit_zip64_common_member snapshot m zip64 local central has_global_end_pair in
  let? _ := audit_zip64_extras snapshot m zip64 local central in
  let? _ := audit_zip64_descriptor snapshot m zip64 in
  let local_end := match descriptor with Some d => end_ d | None => end_ payload end in
  reject match descriptor with Some d => negb (end_ payload =? start d) | None => false end
    with on (fail "ZIP64 payload does not abut its descriptor") (decoded_name m) ;;
  let? local_record := map_err (fun _ => fail "ZIP64 local record range underflows")
    (from_bounds (start lh) local_end) in
  Ok (local_record, ch).

Fixpoint audit_zip64_members (ms : list IrMember) : result (list CheckedInterval * list CheckedInterval) Finding :=
  match ms with
  | [] => Ok ([], [])
  | m :: ms =>
      let? (local_record, ch) := audit_zip64_member m in
      let? (locals, centrals) := audit_zip64_members ms in
      Ok (local_record :: locals, ch :: centrals)
  end.
End Members.

(** [audit_zip64_covering]. *)
Definition audit_zip64_covering `{!Allocator} (snapshot : SourceSnapshot) (ir : ArchiveIR) : result unit Finding :=
  let? parts := audit_zip64_archive snapshot ir in
  let? version_needed := audit_zip64_end snapshot ir parts in
  let count := Z.of_nat (length (members ir)) in
  reject negb (try_reserve "local_ranges" count)
    with fail "ZIP64 covering audit could not reserve local ranges" ;;
  reject negb (try_reserve "central_ranges" count)
    with fail "ZIP64 covering audit could not reserve central ranges" ;;
  let? (locals, centrals) :=
    audit_zip64_members snapshot (zp_local parts) (zp_central parts) (bool_decide (is_Some (zp_pair parts)))
      (members ir) in
  let? _ := audit_zip64_version ir version_needed in
  let? _ := map_err into_finding
    (validate_ordered_partition (zp_local parts) (sort_by_key start locals)
       "first ZIP64 local record does not start the covering"
       "last ZIP64 local record does not end the covering"
       "ZIP64 local records do not partition the covering") in
  map_err into_finding
    (validate_ordered_partition (zp_central parts) (sort_by_key start centrals)
       "first ZIP64 central header does not start the covering"
       "last ZIP64 central header does not end the covering"
       "ZIP64 central headers do not partition the covering").

(** ** Extra areas *)

(** The record of a field that fills the extra area starting at [area]. *)
Definition extra_record (site_ : ExtraSite) (area size : Z) : ExtraFieldRecord :=
  {| site := site_; id := 1; header_range := mkrange area 4; data_range := mkrange (area + 4) size;
     disposition := Semantic |}.

(** The area is empty, or its only field. *)
Definition extra_filled (extra : list byte) (d : option Zip64ExtraData) : Prop :=
  match d with
  | None => extra = []
  | Some d =>
      zx_offset d = 4 /\ 0 <= zx_len d /\ Z.of_nat (length extra) = 4 + zx_len d
      /\ u16_at extra 0 = 1 /\ u16_at extra 2 = zx_len d
  end.
Definition extra_records64 (site_ : ExtraSite) (area : Z) (d : option Zip64ExtraData) : list ExtraFieldRecord :=
  match d with None => [] | Some d => [extra_record site_ area (zx_len d)] end.
Definition extra_range64 (area : Z) (d : option Zip64ExtraData) : option ByteRange :=
  option_map (fun d => mkrange (area + 4) (zx_len d)) d.

Lemma classify_zip64_sound extra area site_ context name fs d :
  classify_zip64_extra_fields extra area site_ context name = Some (Ok (fs, d)) ->
  fs = extra_records64 site_ area d /\ extra_filled extra d.
Proof.
  unfold classify_zip64_extra_fields. intros Hrun.
  set (I st := zs_records st = extra_records64 site_ area (zs_zip64 st)
    /\ match zs_zip64 st with
       | None => zs_position st = 0
       | Some d => zx_offset d = 4 /\ 0 <= zx_len d /\ zs_position st = 4 + zx_len d
           /\ zs_position st <= Z.of_nat (length extra)
           /\ u16_at extra 0 = 1 /\ u16_at extra 2 = zx_len d
       end).
  refine (run_loop_invariant _ I
    (fun r => r.1 = extra_records64 site_ area r.2 /\ extra_filled extra r.2) _ _ _ _ _ _ Hrun); [| |by split].
  - intros st st' [Hi1 Hi2] Hs. unfold classify_zip64_step in Hs. ok_steps Hs. simplify_eq. breflect.
    destruct (zs_zip64 st) as [d0|] eqn:Ed; [by rewrite bool_decide_eq_true_2 in * by done|]. rewrite Hi2 in *.
    repeat match goal with Hq : ok_or (u64_checked_add _ _) _ = Ok _ |- _ =>
      apply ok_or_ok, u64_checked_add_Some in Hq as [-> _] end.
    pose proof (u16_at_range extra (0 + 2)). unfold ZIP64_EXTRA_ID in *.
    split; cbn [zs_records zs_zip64 zs_position extra_records64 zx_offset zx_len].
    + rewrite Hi1. unfold extra_record. cbn [extra_records64 app]. repeat f_equal; (done || lia).
    + split_and!; (done || lia).
  - intros st [fs' d'] [Hi1 Hi2] Hs. unfold classify_zip64_step in Hs. cbv zeta in Hs.
    destruct (Z.leb_spec (Z.of_nat (length extra)) (zs_position st)); [|ok_steps Hs; by repeat case_match].
    injection Hs as <- <-. split; [done|]. cbn [snd]. destruct (zs_zip64 st) as [d0|]; cbn [extra_filled].
    + destruct Hi2 as (? & ? & ? & ? & ? & ?). split_and!; (done || lia).
    + apply nil_length_inv. lia.
Qed.

Lemma zip64_extra_range_records area area' cz lz :
  zip64_extra_range Ir.Local (extra_records64 Ir.Central area cz ++ extra_records64 Ir.Local area' lz)
    = extra_range64 area' lz
  /\ zip64_extra_range Ir.Central (extra_records64 Ir.Central area cz ++ extra_records64 Ir.Local area' lz)
    = extra_range64 area cz.
Proof. by destruct cz, lz. Qed.

(** ** Presence masks *)

Lemma candidate_values_resolve data c index cursor legacy :
  candidate_values data c index cursor legacy = option_map fst (resolve_fields data c index cursor legacy).
Proof.
  revert index cursor. induction legacy as [|l legacy IH]; intros index cursor; [done|].
  cbn [candidate_values resolve_fields]. unfold ZIP64_U32_SENTINEL.
  repeat case_match; rewrite ?IH; try done;
    by destruct (resolve_fields _ _ _ _ _) as [[]|].
Qed.

Lemma required_mask_required legacy index mask : required_mask_from index legacy mask = required_from index legacy mask.
Proof.
  revert index mask. induction legacy as [|l legacy IH]; intros index mask; [done|].
  cbn [required_mask_from required_from]. rewrite IH. unfold bit, ZIP64_U32_SENTINEL.
  destruct (l =? u32_max); cbn [Z.b2z]; [done|]. by rewrite Z.shiftl_0_l, Z.lor_0_r.
Qed.

Lemma length_reading data legacy v :
  central_reading data legacy v -> Z.of_nat (length data) = count_ones (presence_mask v) * 8.
Proof.
  intros [Hm Hd _ _]. rewrite Hd, <- fields_bytes_u64, length_fields_bytes, width_u64_fields.
  unfold values_list. rewrite mask_selects; [lia|]. unfold presence_masks. rewrite !elem_of_cons, elem_of_nil. lia.
Qed.

(** A candidate the audit matches is a reading. *)
Lemma candidate_reading data lu lc lo v :
  Forall is_u32 [lu; lc; lo] -> presence_mask v ∈ presence_masks ->
  Z.of_nat (length data) = count_ones (presence_mask v) * 8 ->
  Z.land (presence_mask v) (required_from 0 [lu; lc; lo] 0) = required_from 0 [lu; lc; lo] 0 ->
  candidate_values data (presence_mask v) 0 0 [lu; lc; lo] = Some (values_list v) ->
  central_reading data [lu; lc; lo] v.
Proof.
  intros Hu Hm Hlen Hreq Hv. rewrite candidate_values_resolve in Hv.
  destruct (resolve_fields _ _ _ _ _) as [[vals stop]|] eqn:E; [|done]. injection Hv as ->.
  pose proof (resolve_fields_spec _ _ _ _ _ _ _ Hu E) as (_ & Hs & _).
  unfold values_list in Hs. rewrite mask_selects in Hs by done.
  apply (mask_value_reading data lu lc lo (presence_mask v) v Hu Hm). unfold mask_value, central_mask_step.
  rewrite Hlen, Z.div_mul, E, !(proj2 (Z.eqb_eq _ _)) by lia. unfold values_list. cbn [orb negb snd]. by destruct v.
Qed.

(** The audit's test of a candidate holds of the resolved mask only. *)
Lemma candidate_step_iff data lu lc lo v st c :
  Forall is_u32 [lu; lc; lo] -> resolve_zip64_central_values data lu lc lo = Ok v -> c ∈ presence_masks ->
  candidate_step data [lu; lc; lo] (values_list v) (presence_mask v) (required_from 0 [lu; lc; lo] 0) st c
  = if c =? presence_mask v then (Z.min u8_max (st.1 + 1), c) else st.
Proof.
  intros Hu Hv Hc. pose proof (resolve_ok_reading _ _ _ _ _ Hu Hv) as Hread.
  pose proof (length_reading _ _ _ Hread) as Hlen.
  destruct st as [n u]. unfold candidate_step. rewrite candidate_values_resolve.
  destruct (Z.eqb_spec c (presence_mask v)) as [-> |Hne].
  - pose proof (proj2 (mask_value_reading data lu lc lo _ v Hu Hc) (conj Hread eq_refl)) as Hm.
    unfold mask_value, central_mask_step in Hm. rewrite Hlen, Z.div_mul in Hm by lia.
    destruct (_ || _); [done|].
    destruct (resolve_fields _ _ _ _ _) as [[[|a [|b [|d [|]]]] cur]|]; try done.
    destruct (_ =? _); [|done]. injection Hm as Hm. by rewrite bool_decide_eq_true_2 by (by rewrite <- Hm).
  - destruct (negb _ || _) eqn:Hg; [done|]. rewrite bool_decide_eq_false_2; [done|]. intros Hvals.
    destruct (resolve_fields _ _ _ _ _) as [[vals stop]|] eqn:E; [|done]. injection Hvals as ->.
    apply Hne. symmetry. breflect.
    set (w := {| uncompressed_size := uncompressed_size v; compressed_size := compressed_size v;
                 local_header_offset := local_header_offset v; presence_mask := c |}).
    assert (Hw : central_reading data [lu; lc; lo] w).
    { apply candidate_reading; [done|done|cbn [w presence_mask]; by rewrite H|done|]. cbn [w presence_mask]. by rewrite candidate_values_resolve, E. }
    apply elem_of_readings in Hw; [|done].
    apply elem_of_readings in Hread; [|done]. pose proof (resolve_by_readings data lu lc lo Hu) as Hr.
    destruct (readings _ _) as [|x [|y l]]; [by apply elem_of_nil in Hw| |congruence].
    apply list_elem_of_singleton in Hw, Hread. by rewrite Hread, <- Hw.
Qed.

Lemma candidates_resolve data lu lc lo v :
  Forall is_u32 [lu; lc; lo] -> resolve_zip64_central_values data lu lc lo = Ok v ->
  foldl (candidate_step data [lu; lc; lo] (values_list v) (presence_mask v) (required_mask_from 0 [lu; lc; lo] 0))
    (0, 0) presence_masks = (1, presence_mask v).
Proof.
  intros Hu Hv. rewrite required_mask_required.
  pose proof (reading_mask _ _ _ (resolve_ok_reading _ _ _ _ _ Hu Hv)) as Hm.
  assert (Hf : forall cs st, cs ⊆ presence_masks ->
    foldl (candidate_step data [lu; lc; lo] (values_list v) (presence_mask v) (required_from 0 [lu; lc; lo] 0)) st cs
    = foldl (fun st c => if c =? presence_mask v then (Z.min u8_max (st.1 + 1), c) else st) st cs).
  { induction cs as [|c cs IH]; intros st Hcs; [done|]. cbn [foldl].
    rewrite candidate_step_iff by (done || (apply Hcs; left)). apply IH. intros x Hx. apply Hcs. by right. }
  rewrite Hf by done. unfold presence_masks. cbn [foldl].
  assert (presence_mask v = 1 \/ presence_mask v = 2 \/ presence_mask v = 3 \/ presence_mask v = 4
    \/ presence_mask v = 5 \/ presence_mask v = 6 \/ presence_mask v = 7) as Hc by lia.
  destruct Hc as [E|[E|[E|[E|[E|[E|E]]]]]]; by rewrite E.
Qed.

(** ** What the reader read *)

Lemma u64_at_nested (bs : list byte) pos off n :
  0 <= off -> 0 <= pos -> pos + 8 <= n -> u64_at (range off n bs) pos = u64_at bs (off + pos).
Proof. intros. unfold u64_at. by rewrite range_range by lia. Qed.

(** The fixed part [c] of the central header at [at_], its fields as the reader
    has them, and its variable part. *)
Record central_read64 (bs : list byte) (at_ : Z) (c : list byte) (h : CentralHeader64) : Prop := {
  cr_fixed : c = range at_ 46 bs;
  cr_start : 0 <= at_;
  cr_end : at_ + c64_end h 0 <= Z.of_nat (length bs);
  cr_signature : u32_at c 0 = CDH_SIG;
  cr_made_by : u16_at c 4 = c64_version_made_by h;
  cr_version : u16_at c 6 = c64_version_needed h;
  cr_flags : u16_at c 8 = c64_flags h;
  cr_method : u16_at c 10 = c64_method h;
  cr_crc : u32_at c 16 = c64_crc h;
  cr_comp : u32_at c 20 = c64_legacy_comp h;
  cr_uncomp : u32_at c 24 = c64_legacy_uncomp h;
  cr_name_len : u16_at c 28 = Z.of_nat (length (c64_name h));
  cr_extra_len : u16_at c 30 = Z.of_nat (length (c64_extra h));
  cr_comment_len : u16_at c 32 = Z.of_nat (length (c64_comment h));
  cr_disk : u16_at c 34 = 0;
  cr_attributes : u32_at c 38 = c64_external_attributes h;
  cr_offset : u32_at c 42 = c64_legacy_lfh_offset h;
  cr_name : c64_name h = range (at_ + 46) (Z.of_nat (length (c64_name h))) bs;
  cr_extra : c64_extra h = range (at_ + 46 + Z.of_nat (length (c64_name h))) (Z.of_nat (length (c64_extra h))) bs;
  cr_flags_ok : c64_flags h = 0 \/ c64_flags h = 8;
  cr_method_ok : c64_method h = 0 \/ c64_method h = 8;
  cr_ascii : is_ascii (c64_name h) = true
}.

Lemma central_header64_read bs cd_offset cd_len pos h :
  0 <= cd_offset -> cd_offset + cd_len <= Z.of_nat (length bs) -> 0 <= cd_len -> 0 <= pos ->
  central_header64 (range cd_offset cd_len bs) pos = Ok h ->
  central_read64 bs (cd_offset + pos) (range (cd_offset + pos) 46 bs) h.
Proof.
  intros Ho Hl Hn Hp Hh. pose proof (central_header64_bounds _ _ _ Hp Hh) as [[H46 Hend] _].
  unfold central_header64 in Hh. ok_steps Hh.
  repeat match goal with Hq : ok_or (within _ _) _ = Ok _ |- _ =>
    apply ok_or_ok, within_Some in Hq as [Hq ?] end.
  repeat match goal with
  | Hq : u64_checked_add _ _ = Some _ |- _ => apply u64_checked_add_Some in Hq as [-> _]
  | Hq : (_ ≫= _) = Some _ |- _ => apply bind_Some in Hq as (? & ? & ?)
  end. cbn beta in *.
  repeat match goal with
  | Hq : u64_checked_add _ _ = Some _ |- _ => apply u64_checked_add_Some in Hq as [-> _]
  end.
  assert (Hcl : Z.of_nat (length (range cd_offset cd_len bs)) = cd_len) by (rewrite length_range by lia; lia).
  rewrite Hcl in *.
  set (cd := range cd_offset cd_len bs) in *.
  pose proof (u16_at_range cd (pos + 28)). pose proof (u16_at_range cd (pos + 30)). pose proof (u16_at_range cd (pos + 32)).
  assert (Hu16 : forall k, 0 <= k -> k + 2 <= 46 -> u16_at (range (cd_offset + pos) 46 bs) k = u16_at cd (pos + k)).
  { intros k ??. unfold cd. rewrite !u16_at_nested by lia. f_equal. lia. }
  assert (Hu32 : forall k, 0 <= k -> k + 4 <= 46 -> u32_at (range (cd_offset + pos) 46 bs) k = u32_at cd (pos + k)).
  { intros k ??. unfold cd. rewrite !u32_at_nested by lia. f_equal. lia. }
  assert (HR : forall o n, 0 <= o -> 0 <= n -> o + n <= cd_len -> range o n cd = range (cd_offset + o) n bs)
    by (intros; unfold cd; by rewrite range_range by lia).
  unfold c64_end in *. breflect. simplify_eq. cbn [c64_name c64_extra c64_comment] in *.
  rewrite !length_range_u16 in * by lia.
  split; cbn [c64_name c64_extra c64_comment c64_flags c64_method c64_crc c64_legacy_comp c64_legacy_uncomp
    c64_legacy_lfh_offset c64_external_attributes c64_version_made_by c64_version_needed];
    rewrite ?length_range_u16 by lia; try (by rewrite ?Hu16, ?Hu32 by lia); try (by unfold c64_end; cbn; rewrite ?length_range_u16; lia).
  - rewrite Hu32, Z.add_0_r by lia. done.
  - rewrite HR by lia. f_equal. lia.
  - rewrite HR by lia. f_equal. lia.
Qed.

(** The fixed part [l] of the local header at [off], as the reader has it. *)
Record local_read64 (bs : list byte) (off : Z) (l : list byte) (h : LocalHeader) : Prop := {
  lr_fixed : l = range off 30 bs;
  lr_start : 0 <= off;
  lr_end : lh_data_offset h <= Z.of_nat (length bs);
  lr_signature : u32_at l 0 = LFH_SIG;
  lr_version : u16_at l 4 = lh_version_needed h;
  lr_flags : u16_at l 6 = lh_flags h;
  lr_method : u16_at l 8 = lh_method h;
  lr_crc : u32_at l 14 = lh_crc h;
  lr_comp : u32_at l 18 = lh_comp_size h;
  lr_uncomp : u32_at l 22 = lh_uncomp_size h;
  lr_name_len : u16_at l 26 = Z.of_nat (length (lh_name h));
  lr_extra_len : u16_at l 28 = Z.of_nat (length (lh_extra h));
  lr_extra_offset : lh_extra_offset h = off + 30 + Z.of_nat (length (lh_name h));
  lr_data_offset : lh_data_offset h = lh_extra_offset h + Z.of_nat (length (lh_extra h));
  lr_name : lh_name h = range (off + 30) (Z.of_nat (length (lh_name h))) bs;
  lr_extra : lh_extra h = range (lh_extra_offset h) (Z.of_nat (length (lh_extra h))) bs
}.

Lemma parse_lfh_read {S} `{Source S} `{!Allocator} (s : S) bs off limit h :
  represents s bs -> 0 <= off -> parse_lfh_bounded s off limit = Ok h ->
  local_read64 bs off (range off 30 bs) h.
Proof.
  intros Hr Ho Hl. unfold parse_lfh_bounded in Hl. ok_steps Hl. breflect.
  match goal with Hq : map_err _ (src_read s off 30) = Ok _ |- _ =>
    destruct (src_read s off 30) as [d|f] eqn:Hv; [|done]; injection Hq as <-;
    apply (represents_read _ _ Hr) in Hv as [Hb ->]; [|done|lia] end.
  set (l := range off 30 bs) in *. pose proof (u16_at_range l 26). pose proof (u16_at_range l 28).
  repeat match goal with Hq : ok_or (u64_checked_add _ _) _ = Ok _ |- _ =>
    apply ok_or_ok, u64_checked_add_Some in Hq as [-> _] end.
  rewrite (represents_len _ _ Hr) in *.
  repeat match goal with Hq : read_vec s _ _ = Ok _ |- _ =>
    apply (read_vec_sound s bs) in Hq as [_ ->]; [|done|lia|lia] end.
  injection Hl as <-.
  split; cbn [lh_data_offset lh_version_needed lh_flags lh_method lh_crc lh_comp_size lh_uncomp_size
    lh_name lh_extra lh_extra_offset]; rewrite ?length_range, ?Z2Nat.id by lia; (done || lia).
Qed.

(** The member the reader pushes for a header at [at_]. *)
Definition descriptor_range64 (h : CentralHeader64) (payload_end record_end : Z) : option ByteRange :=
  if uses_descriptor (c64_flags h) then Some (mkrange payload_end (record_end - payload_end)) else None.
Definition built64 (at_ : Z) (h : CentralHeader64) (v : Zip64CentralValues) (local : LocalHeader)
    (shape : Zip64LocalValueShape) (cz lz : option Zip64ExtraData) (record_end : Z) : ZipMember :=
  {| zm_raw_name := c64_name h; zm_name := c64_name h; zm_method := c64_method h; zm_flags := c64_flags h;
     zm_creator_system := Z.shiftr (c64_version_made_by h) 8;
     zm_external_attributes := c64_external_attributes h; zm_crc := c64_crc h;
     zm_comp_size := compressed_size v; zm_uncomp_size := uncompressed_size v;
     zm_lfh_offset := local_header_offset v; zm_data_offset := lh_data_offset local;
     zm_record_end := record_end; zm_is_dir := ends_with_byte "/" (c64_name h);
     zm_extra_fields :=
       extra_records64 Central (at_ + 46 + Z.of_nat (length (c64_name h))) cz
         ++ extra_records64 Local (lh_extra_offset local) lz;
     zm_source_ranges :=
       {| local_header := mkrange (local_header_offset v) (lh_data_offset local - local_header_offset v);
          compressed_payload := mkrange (lh_data_offset local) (compressed_size v);
          data_descriptor := descriptor_range64 h (lh_data_offset local + compressed_size v) record_end;
          central_header := mkrange at_ (c64_end h 0) |};
     zm_zip64_evidence := Some
       {| ev_local_version_needed := lh_version_needed local;
          ev_central_version_needed := c64_version_needed h;
          ev_central_presence_mask := if bool_decide (is_Some cz) then presence_mask v else 0;
          ev_central_legacy_sentinel_mask :=
            Z.lor (Z.lor (b2mask (c64_legacy_uncomp h =? u32_max) 0)
                     (b2mask (c64_legacy_comp h =? u32_max) 1))
              (b2mask (c64_legacy_lfh_offset h =? u32_max) 2);
          ev_local_legacy_sentinel_mask :=
            Z.lor (b2mask (lh_uncomp_size local =? u32_max) 0)
              (b2mask (lh_comp_size local =? u32_max) 1);
          ev_local_value_shape := shape;
          ev_descriptor_width :=
            if uses_descriptor (c64_flags h)
            then Some (descriptor_width64 v (bool_decide (is_Some lz))) else None |} |}.

(** The signed descriptor of the width the values call for. *)
Record descriptor_read64 (bs : list byte) (h : CentralHeader64) (v : Zip64CentralValues) (lz : bool)
    (payload_end record_end : Z) : Prop := {
  dr_start : 0 <= payload_end;
  dr_end : record_end = payload_end + 8 + 2 * value_bytes (descriptor_width64 v lz);
  dr_inside : record_end <= Z.of_nat (length bs);
  dr_signature : u32_at bs payload_end = DATA_DESCRIPTOR_SIG;
  dr_values : values_at (descriptor_width64 v lz) bs (payload_end + 4)
    (c64_crc h) (compressed_size v) (uncompressed_size v)
}.

Lemma descriptor_end64_read {S} `{Source S} (s : S) bs h v payload_end lz stop :
  represents s bs -> 0 <= payload_end ->
  descriptor_end64 s h v payload_end (descriptor_width64 v lz) = Ok stop ->
  descriptor_read64 bs h v lz payload_end stop.
Proof.
  intros Hr Ho Hd. unfold descriptor_end64 in Hd. ok_steps Hd. breflect.
  destruct (src_read s payload_end 4) as [d|] eqn:Hv; [|done].
  apply (represents_read _ _ Hr) in Hv as [_ ->]; [|done|lia].
  match goal with Hq : map_err _ _ = Ok a |- _ => injection Hq as <- end.
  rewrite u32_at_nested, Z.add_0_r in * by lia.
  destruct (parse_data_descriptor_with_width _ _ _ _ _ _) as [x|] eqn:Hp; [|done]. injection Hd as <-.
  set (w := descriptor_width64 v lz) in *. assert (0 < value_bytes w) by (by destruct w).
  unfold parse_data_descriptor_with_width in Hp. ok_steps Hp.
  match goal with Hq : map_err _ (src_read s payload_end _) = Ok _ |- _ =>
    destruct (src_read s payload_end _) as [d|f] eqn:Hv; [|done]; injection Hq as <-;
    apply (represents_read _ _ Hr) in Hv as [Hb ->]; [|done|lia] end.
  match goal with Hq : (if u32_at _ 0 =? _ then _ else _) = Ok _ |- _ => rename Hq into Hform end.
  match goal with Hq : _ || _ = false |- _ => apply values_test in Hq; rename Hq into Hvals end.
  apply ok_or_ok, u64_checked_add_Some in Hp as [-> _].
  rewrite u32_at_nested, Z.add_0_r in Hform by lia.
  match goal with Hq : u32_at bs payload_end = _ |- _ => rewrite Hq in Hform; rename Hq into Hsig end.
  rewrite Z.eqb_refl in Hform. ok_steps Hform. injection Hform as <- <- <-.
  match goal with Hq : ok_or _ _ = Ok _ |- _ => apply ok_or_ok, u64_checked_add_Some in Hq as [-> _] end.
  match goal with Hq : map_err _ (src_read s ?o ?n) = Ok _ |- _ =>
    destruct (src_read s o n) as [d|f] eqn:Hv; [|done]; injection Hq as <-;
    apply (represents_read _ _ Hr) in Hv as [Hb' ->]; [|lia|lia] end.
  rewrite <- range_app in Hvals by lia. apply values_at_nested in Hvals; [|lia..].
  split; fold w; (done || lia).
Qed.

Lemma place_member64_read {S} `{Source S} `{!Allocator} (s : S) bs cd_offset pos h v local shape cz lz z :
  represents s bs -> 0 <= lh_data_offset local -> 0 <= compressed_size v ->
  place_member64 s cd_offset pos h v local shape (bool_decide (is_Some cz)) (bool_decide (is_Some lz))
    (extra_records64 Central (cd_offset + pos + 46 + Z.of_nat (length (c64_name h))) cz
         ++ extra_records64 Local (lh_extra_offset local) lz) = Some (Ok z) ->
  let payload_end := lh_data_offset local + compressed_size v in
  exists record_end,
    z = built64 (cd_offset + pos) h v local shape cz lz record_end
    /\ validate_directory_metadata (c64_name h) (c64_version_made_by h) (c64_external_attributes h)
         (c64_method h) (c64_crc h) (compressed_size v) (uncompressed_size v) = Ok ()
    /\ local_header_offset v <= lh_data_offset local
    /\ if uses_descriptor (c64_flags h)
       then descriptor_read64 bs h v (bool_decide (is_Some lz)) payload_end record_end
       else record_end = payload_end.
Proof.
  intros Hr Hd Hc H1. unfold place_member64 in H1. ok_steps H1. simplify_eq. breflect. units.
  repeat match goal with Hq : ok_or _ _ = Ok _ |- _ =>
    apply ok_or_ok, u64_checked_add_Some in Hq as [-> _] end.
  unfold built64, descriptor_range64. destruct (uses_descriptor (c64_flags h)).
  - match goal with Hq : (if _ then Err _ else Ok (Some _)) = Ok _ |- _ => ok_steps Hq; injection Hq as <- end.
    eexists. split_and!; [done..|]. eapply descriptor_end64_read; (done || lia).
  - simplify_eq. eexists. by split_and!.
Qed.

(** ** A member the reader accepts passes *)

(** One entry of the directory, as the reader accepted it. *)
Record entry_read64 (bs : list byte) (pair_ : bool) (at_ : Z) (h : CentralHeader64) (v : Zip64CentralValues)
    (local : LocalHeader) (shape : Zip64LocalValueShape) (cz lz : option Zip64ExtraData) (record_end : Z) : Prop := {
  er_central : central_read64 bs at_ (range at_ 46 bs) h;
  er_legacy : Forall is_u32 [c64_legacy_uncomp h; c64_legacy_comp h; c64_legacy_lfh_offset h];
  er_central_extra : extra_filled (c64_extra h) cz;
  er_values : central_values64 h cz = Ok v;
  er_local : local_read64 bs (local_header_offset v) (range (local_header_offset v) 30 bs) local;
  er_local_extra : extra_filled (lh_extra local) lz;
  er_name : lh_name local = c64_name h;
  er_method : lh_method local = c64_method h;
  er_flags : lh_flags local = c64_flags h;
  er_check : check_local_zip64 h v local (zip64_data (lh_extra local) <$> lz) = Ok ();
  er_shape : local_value_shape h v (zip64_data (lh_extra local) <$> lz) = Ok shape;
  er_agrees : local_agrees64 h v local (bool_decide (is_Some cz)) (bool_decide (is_Some lz)) pair_ = Ok ();
  er_directory : validate_directory_metadata (c64_name h) (c64_version_made_by h) (c64_external_attributes h)
    (c64_method h) (c64_crc h) (compressed_size v) (uncompressed_size v) = Ok ();
  er_record :
    let payload_end := lh_data_offset local + compressed_size v in
    if uses_descriptor (c64_flags h)
    then descriptor_read64 bs h v (bool_decide (is_Some lz)) payload_end record_end
    else record_end = payload_end
}.

(** The evidence [from_zip64_planned] keeps of it. *)
Definition evidence64 (at_ : Z) (h : CentralHeader64) (v : Zip64CentralValues) (local : LocalHeader)
    (shape : Zip64LocalValueShape) (cz lz : option Zip64ExtraData) (record_end : Z) : Zip64MemberEvidence :=
  {| z_zip := zip_member_evidence (built64 at_ h v local shape cz lz record_end);
     z_local_version_needed := lh_version_needed local;
     z_central_version_needed := c64_version_needed h;
     z_central_presence_mask := if bool_decide (is_Some cz) then presence_mask v else 0;
     z_central_legacy_sentinel_mask :=
       Z.lor (Z.lor (b2mask (c64_legacy_uncomp h =? u32_max) 0) (b2mask (c64_legacy_comp h =? u32_max) 1))
         (b2mask (c64_legacy_lfh_offset h =? u32_max) 2);
     z_local_legacy_sentinel_mask :=
       Z.lor (b2mask (lh_uncomp_size local =? u32_max) 0) (b2mask (lh_comp_size local =? u32_max) 1);
     z_local_value_shape := shape;
     z_local_zip64_extra := extra_range64 (lh_extra_offset local) lz;
     z_central_zip64_extra := extra_range64 (at_ + 46 + Z.of_nat (length (c64_name h))) cz;
     z_descriptor_width :=
       if uses_descriptor (c64_flags h)
       then Some (descriptor_width64 v (bool_decide (is_Some lz))) else None |}.
Definition member64 (at_ : Z) (h : CentralHeader64) (v : Zip64CentralValues) (local : LocalHeader)
    (shape : Zip64LocalValueShape) (cz lz : option Zip64ExtraData) (record_end : Z)
    (components : list str) (actions : list NormalizationAction) : IrMember :=
  planned (c64_name h) (c64_name h) (ends_with_byte "/" (c64_name h)) (uncompressed_size v)
    (EvZip64 (evidence64 at_ h v local shape cz lz record_end)) components actions.

Lemma from_zip64_planned_built at_ h v local shape cz lz record_end components actions :
  from_zip64_planned (built64 at_ h v local shape cz lz record_end) components actions
  = Some (member64 at_ h v local shape cz lz record_end components actions).
Proof.
  unfold from_zip64_planned, built64. cbn [zm_zip64_evidence zm_extra_fields].
  by rewrite !(proj1 (zip64_extra_range_records _ _ _ _)), !(proj2 (zip64_extra_range_records _ _ _ _)).
Qed.

Lemma is_Some_extra_range64 area d : bool_decide (is_Some (extra_range64 area d)) = bool_decide (is_Some d).
Proof. by destruct d. Qed.

(** Reduces the claims of a member to the reader's values. *)
Ltac claims64 :=
  cbv zeta;
  cbn [member64 planned evidence64 zip_member_evidence built64 z_zip ze_method ze_flags ze_declared_crc
    ze_declared_comp_size ze_source_ranges ze_extra_fields ze_creator_system ze_external_attributes
    zm_method zm_flags zm_crc zm_comp_size zm_source_ranges zm_extra_fields zm_creator_system
    zm_external_attributes declared_uncomp_size ir_raw_name_bytes decoded_name ir_kind
    z_local_version_needed z_central_version_needed z_central_presence_mask z_central_legacy_sentinel_mask
    z_local_legacy_sentinel_mask z_local_value_shape z_local_zip64_extra z_central_zip64_extra
    z_descriptor_width local_header compressed_payload data_descriptor central_header mkrange
    offset len].

Lemma word_test data o x : 0 <= o -> o + 8 <= Z.of_nat (length data) -> is_u64 x ->
  bool_decide (range o 8 data = le_bytes 8 x) = (u64_at data o =? x).
Proof.
  intros Ho Hl Hx. unfold is_u64, u64_max in Hx.
  pose proof (le_value_range_iff 8 x o data Ho Hl ltac:(lia)) as Hi. unfold u64_at.
  change (Z.of_nat 8) with 8 in Hi. destruct (Z.eqb_spec (le_value (range o 8 data)) x) as [E|E].
  - by apply bool_decide_eq_true_2, Hi.
  - apply bool_decide_eq_false_2. by rewrite <- Hi.
Qed.

Section Passes.
Context `{ALLOC : !Allocator} (s : SourceSnapshot) (bs : list byte) (pair_ : bool) (at_ : Z).
Context (h : CentralHeader64) (v : Zip64CentralValues) (local : LocalHeader) (shape : Zip64LocalValueShape).
Context (cz lz : option Zip64ExtraData) (record_end : Z) (components : list str) (actions : list NormalizationAction).
Hypothesis Hrel : reliable s bs.
Hypothesis Hres : forall site n, try_reserve site n = true.
Hypothesis Hread : entry_read64 bs pair_ at_ h v local shape cz lz record_end.
Local Abbreviation m := (member64 at_ h v local shape cz lz record_end components actions).
Local Abbreviation e := (evidence64 at_ h v local shape cz lz record_end).
Local Abbreviation lfh := (range (local_header_offset v) 30 bs).
Local Abbreviation cdh := (range at_ 46 bs).

Lemma fixed_passes : audit_zip64_fixed m e lfh cdh = Ok ().
Proof using Hread.
  destruct (er_central _ _ _ _ _ _ _ _ _ _ Hread), (er_local _ _ _ _ _ _ _ _ _ _ Hread).
  pose proof (er_method _ _ _ _ _ _ _ _ _ _ Hread). pose proof (er_flags _ _ _ _ _ _ _ _ _ _ Hread).
  unfold audit_zip64_fixed. claims64. use_reads. rewrite H, H0, !Z.eqb_refl. cbn [negb orb].
  destruct cr_flags_ok0 as [-> | ->], cr_method_ok0 as [-> | ->]; reflexivity.
Qed.

Lemma values_bounds64 : Forall is_u64 (values_list v).
Proof using Hread. eapply central_values64_bounds; apply Hread. Qed.

Lemma name_passes : audit_zip64_name s m e lfh cdh = Ok ().
Proof using Hrel Hres Hread.
  pose proof (er_name _ _ _ _ _ _ _ _ _ _ Hread) as Hn. pose proof (er_directory _ _ _ _ _ _ _ _ _ _ Hread) as Hd.
  pose proof (represents_u64 _ _ (reliable_represents _ _ Hrel)).
  destruct (er_central _ _ _ _ _ _ _ _ _ _ Hread), (er_local _ _ _ _ _ _ _ _ _ _ Hread).
  unfold c64_end in *. unfold audit_zip64_name. claims64. use_reads. rewrite Hn in *.
  rewrite !u64_checked_add_le by lia. cbn [ok_or].
  rewrite !(read_vec_complete s bs) by (done || lia). cbn [map_err].
  rewrite <- lr_name0, <- cr_name0, !bool_decide_eq_true_2, cr_ascii0 by done. cbn [negb orb].
  assert (Hk : bool_decide (kind_of (ends_with_byte "/" (c64_name h)) = KindDirectory) = ends_with_byte "/" (c64_name h))
    by by destruct (ends_with_byte _ _).
  rewrite Hk, Bool.eqb_reflx. cbn [negb]. unfold validate_directory_metadata in Hd. ok_steps Hd.
  repeat match goal with Hq : _ = false |- _ => rewrite Hq; cbn [orb]; clear Hq end.
  destruct (ends_with_byte _ _); [|done]. cbn [andb] in *.
  repeat match goal with Hq : _ || _ = false |- _ => apply orb_false_iff in Hq as [? ?] end.
  by repeat match goal with Hq : negb _ = false |- _ => rewrite Hq; clear Hq end.
Qed.

(** The claimed shape says what the local field holds. *)
Lemma local_extra_data : forall d, lz = Some d ->
  zx_offset d = 4 /\ zx_len d = 16 /\ zip64_data (lh_extra local) d = range (lh_extra_offset local + 4) 16 bs.
Proof using Hread.
  intros d Hd. pose proof (er_local_extra _ _ _ _ _ _ _ _ _ _ Hread) as Hf. rewrite Hd in Hf.
  destruct Hf as (Ho & Hp & Hl & _). destruct (er_local _ _ _ _ _ _ _ _ _ _ Hread).
  assert (Hdata : zip64_data (lh_extra local) d = range (lh_extra_offset local + 4) (zx_len d) bs).
  { unfold zip64_data. rewrite Ho, lr_extra0, range_range by lia. done. }
  assert (H16 : zx_len d = 16); [|by rewrite Hdata, H16].
  pose proof (er_check _ _ _ _ _ _ _ _ _ _ Hread) as Hc. rewrite Hd in Hc. cbn [fmap option_fmap option_map] in Hc.
  unfold check_local_zip64 in Hc.
  assert (Hlen : length (zip64_data (lh_extra local) d) = 16%nat).
  { destruct (uses_descriptor _) in Hc.
    - unfold validate_zip64_streaming_local_values in Hc. by destruct (Nat.eqb_spec (length (zip64_data (lh_extra local) d)) 16).
    - unfold validate_zip64_local_values in Hc. by destruct (Nat.eqb_spec (length (zip64_data (lh_extra local) d)) 16). }
  rewrite Hdata, length_range in Hlen by lia. lia.
Qed.

(** What the local field's values are under the shape the reader found. *)
Definition shape_holds : Prop :=
  let u := u64_at bs (lh_extra_offset local + 4) in
  let c := u64_at bs (lh_extra_offset local + 12) in
  let legacy := (lh_uncomp_size local, lh_comp_size local) in
  match shape with
  | Absent => lz = None
  | Exact =>
      is_Some lz /\ (u, c) = (uncompressed_size v, compressed_size v)
      /\ (legacy = (u32_max, u32_max)
         \/ canonical_legacy_u32 legacy.1 (uncompressed_size v) && canonical_legacy_u32 legacy.2 (compressed_size v) = true)
  | StreamingZeros => is_Some lz /\ (u, c) = (0, 0) /\ legacy = (u32_max, u32_max) /\ uses_descriptor (c64_flags h) = true
  | StreamingMaxima => is_Some lz /\ (u, c) = (u64_max, u64_max) /\ legacy = (0, 0) /\ uses_descriptor (c64_flags h) = true
  end.

Lemma shape_read : shape_holds.
Proof using Hread.
  pose proof values_bounds64 as Hb. repeat apply Forall_cons in Hb as [? Hb]. clear Hb.
  pose proof (er_shape _ _ _ _ _ _ _ _ _ _ Hread) as Hs. pose proof (er_check _ _ _ _ _ _ _ _ _ _ Hread) as Hc.
  pose proof local_extra_data as Hl. pose proof (er_local_extra _ _ _ _ _ _ _ _ _ _ Hread) as Hf.
  destruct (er_local _ _ _ _ _ _ _ _ _ _ Hread). unfold shape_holds. cbv zeta.
  destruct lz as [d|]; cbn [fmap option_fmap option_map] in Hs, Hc; [|by injection Hs as <-].
  destruct (Hl d eq_refl) as (_ & H16 & Hd). destruct Hf as (_ & _ & Hlen & _). rewrite Hd in *.
  assert (Hln : Z.of_nat (length (range (lh_extra_offset local + 4) 16 bs)) = 16) by (rewrite length_range by lia; lia).
  assert (Hzero : is_u64 0) by by split. assert (Hmax : is_u64 u64_max) by by split.
  unfold local_value_shape in Hs. rewrite !word_test in Hs by (done || lia).
  assert (Hl16 : (length (range (lh_extra_offset local + 4) 16 bs) =? 16)%nat = true) by (apply Nat.eqb_eq; lia).
  assert (Hsome : is_Some (Some d)) by done. unfold check_local_zip64 in Hc.
  destruct (uses_descriptor _);
    unfold validate_zip64_streaming_local_values, validate_zip64_local_values in Hc; rewrite ?Hl16 in Hc;
    rewrite !u64_at_nested in * by lia; rewrite Z.add_0_r in *;
    replace (lh_extra_offset local + 4 + 8) with (lh_extra_offset local + 12) in * by lia;
    destruct (Z.eqb_spec (u64_at bs (lh_extra_offset local + 4)) (uncompressed_size v)) as [Eu|Eu],
      (Z.eqb_spec (u64_at bs (lh_extra_offset local + 12)) (compressed_size v)) as [Ec|Ec]; cbn [andb negb orb] in *;
    try discriminate; repeat (case_match; try discriminate); simplify_eq; breflect;
    repeat match goal with
      | Hq : _ || _ = true |- _ => apply orb_true_iff in Hq
      | Hq : context [(_ && _) = true] |- _ => rewrite !andb_true_iff, ?Z.eqb_eq in Hq
      end; unfold u64_max in *; cbn [fst snd]; split_and!; try (done || (f_equal; lia)).
  all: rewrite Eu, Ec, !andb_true_iff in *.
  all: match goal with Hq : _ \/ _ |- _ => destruct Hq as [[? ?]|?]; [left; by f_equal|by right] end.
Qed.

Lemma local_values_passes : audit_zip64_local_values m e lfh = Ok ().
Proof using Hread.
  pose proof shape_read as Hs. pose proof (er_agrees _ _ _ _ _ _ _ _ _ _ Hread) as Ha.
  pose proof (er_check _ _ _ _ _ _ _ _ _ _ Hread) as Hc.
  destruct (er_local _ _ _ _ _ _ _ _ _ _ Hread). unfold audit_zip64_local_values, has_local_extra, streams. claims64.
  fold (uses_descriptor (c64_flags h)). rewrite is_Some_extra_range64, lr_crc0, lr_comp0, lr_uncomp0.
  unfold local_agrees64 in Ha. ok_steps Ha. unfold shape_holds in Hs. cbv zeta in Hs.
  destruct (uses_descriptor (c64_flags h)) eqn:Eu; cbn [negb andb orb] in *; ok_steps Ha; breflect.
  all: destruct shape; [subst lz; rewrite bool_decide_eq_false_2 in * by (by intros [? ?]); cbn [negb andb orb] in *|destruct Hs as ([d ->] & Hs)..];
    try rewrite bool_decide_eq_true_2 by done; cbn [negb andb orb].
  all: try (destruct Hs as (_ & _ & ?); done).
  all: try (destruct Hs as (_ & Hs & _); by injection Hs as -> ->).
  1, 3: destruct (lh_comp_size local =? 0), (lh_uncomp_size local =? 0), (lh_comp_size local =? compressed_size v),
    (lh_uncomp_size local =? uncompressed_size v); done.
  all: destruct Hs as (_ & [Hs|Hs]); [by injection Hs as -> ->|]; cbn [fst snd] in Hs;
    change canonical_member_u32 with canonical_legacy_u32; by rewrite Hs, andb_false_r.
Qed.

Lemma versions_passes : audit_zip64_versions m e cdh pair_ = Ok ().
Proof using Hread.
  pose proof (er_agrees _ _ _ _ _ _ _ _ _ _ Hread) as Ha.
  destruct (er_central _ _ _ _ _ _ _ _ _ _ Hread).
  unfold audit_zip64_versions, has_local_extra, has_central_extra, streams. claims64.
  fold (uses_descriptor (c64_flags h)). rewrite !is_Some_extra_range64, cr_comp0, cr_uncomp0, cr_offset0.
  unfold local_agrees64 in Ha. ok_steps Ha. unfold has_local_extra.
  unfold is_offset_only_zip64_member in Hs0. cbv zeta in Hs0. change ZIP64_U32_SENTINEL with u32_max in *.
  assert (Hw : forall b : bool, bool_decide ((if b then Some (descriptor_width64 v (bool_decide (is_Some lz))) else None)
    = (if b then Some (if bool_decide (is_Some lz) || (u32_max <=? compressed_size v) || (u32_max <=? uncompressed_size v)
                       then Zip64 else Zip32) else None)) = true).
  { intros b. apply bool_decide_eq_true_2. destruct b; [|done]. done. }
  rewrite Hw. cbn [negb]. destruct (bool_decide (is_Some cz)); cbn [andb orb] in *; [|done].
  destruct (c64_version_needed h <? 45); cbn [andb] in *; [|done].
  apply negb_false_iff, andb_true_iff in Hs0 as [Hs0 _]. by rewrite Hs0.
Qed.

Lemma common_passes : audit_zip64_common_member s m e lfh cdh pair_ = Ok ().
Proof using Hrel Hres Hread.
  unfold audit_zip64_common_member.
  by rewrite fixed_passes, name_passes, local_values_passes, versions_passes.
Qed.

(** The extra fields. *)
Lemma fields_pass : audit_zip64_fields m (ze_extra_fields (z_zip e)) = Ok ().
Proof using Hrel Hread.
  pose proof (represents_u64 _ _ (reliable_represents _ _ Hrel)).
  pose proof (er_local_extra _ _ _ _ _ _ _ _ _ _ Hread) as Hl.
  pose proof (er_central_extra _ _ _ _ _ _ _ _ _ _ Hread) as Hc.
  destruct (er_central _ _ _ _ _ _ _ _ _ _ Hread), (er_local _ _ _ _ _ _ _ _ _ _ Hread). unfold c64_end in *. claims64.
  assert (Hone : forall site_ area size rest, 0 <= area -> area + 4 <= u64_max ->
    audit_zip64_fields m (extra_record site_ area size :: rest) = audit_zip64_fields m rest).
  { intros site_ area size rest Ha Hb. cbn [audit_zip64_fields extra_record header_range data_range disposition id].
    unfold checked_range_end. cbn [mkrange offset len]. rewrite u64_checked_add_le by lia. cbn [ok_or map_err].
    by rewrite bool_decide_eq_true_2, !Z.eqb_refl by done. }
  destruct cz as [c|], lz as [l|]; cbn [extra_records64 app extra_filled] in *; rewrite ?Hone by lia; reflexivity.
Qed.

Lemma central_extra_header d : cz = Some d ->
  let area := at_ + 46 + Z.of_nat (length (c64_name h)) in
  0 <= zx_len d /\ area + 4 + zx_len d <= Z.of_nat (length bs) /\ u16_at bs area = 1 /\ u16_at bs (area + 2) = zx_len d
  /\ Z.of_nat (length (c64_extra h)) = 4 + zx_len d
  /\ zip64_data (c64_extra h) d = range (area + 4) (zx_len d) bs.
Proof using Hread.
  intros Hd. pose proof (er_central_extra _ _ _ _ _ _ _ _ _ _ Hread) as Hf. rewrite Hd in Hf.
  destruct Hf as (Ho & Hp & Hl & H0 & H2). destruct (er_central _ _ _ _ _ _ _ _ _ _ Hread). unfold c64_end in *.
  cbv zeta. rewrite cr_extra0, u16_at_nested in H0, H2 by lia. rewrite Z.add_0_r in H0.
  split_and!; try (done || lia). unfold zip64_data. rewrite cr_extra0, range_range, Ho by lia. done.
Qed.
Lemma local_extra_header d : lz = Some d ->
  let area := lh_extra_offset local in
  0 <= zx_len d /\ area + 4 + zx_len d <= Z.of_nat (length bs) /\ u16_at bs area = 1 /\ u16_at bs (area + 2) = zx_len d
  /\ Z.of_nat (length (lh_extra local)) = 4 + zx_len d.
Proof using Hread.
  intros Hd. pose proof (er_local_extra _ _ _ _ _ _ _ _ _ _ Hread) as Hf. rewrite Hd in Hf.
  destruct Hf as (Ho & Hp & Hl & H0 & H2). destruct (er_local _ _ _ _ _ _ _ _ _ _ Hread).
  cbv zeta. rewrite lr_extra0, u16_at_nested in H0, H2 by lia. rewrite Z.add_0_r in H0.
  split_and!; (done || lia).
Qed.

(** A site whose only field is the claimed one passes. *)
Lemma site_passes site_ area d :
  0 <= area ->
  List.filter (fun field => bool_decide (site field = site_)) (ze_extra_fields (z_zip e)) = extra_records64 site_ area d ->
  (forall x, d = Some x -> 0 <= zx_len x /\ area + 4 <= Z.of_nat (length bs) /\ u16_at bs area = 1 /\ u16_at bs (area + 2) = zx_len x) ->
  audit_zip64_site s m e site_ (extra_range64 area d) = Ok ().
Proof using Hrel.
  intros Ha Hf Hd. unfold audit_zip64_site. rewrite Hf. destruct d as [d|].
  - destruct (Hd d eq_refl) as (Hp & Hl & H0 & H2). clear Hd Hf.
    cbn [extra_records64 extra_range64 option_map length head extra_record data_range mkrange offset len].
    rewrite bool_decide_eq_true_2 by done. unfold u64_checked_sub. rewrite (proj2 (Z.leb_le 4 _)) by lia.
    cbn [Nat.ltb Nat.leb negb orb ok_or]. replace (area + 4 - 4) with area by lia.
    rewrite (reliable_read _ _ Hrel) by lia. cbn [map_err]. rewrite !u16_at_nested, Z.add_0_r by lia.
    by rewrite H0, H2, !Z.eqb_refl.
  - done.
Qed.

Lemma sites_pass :
  audit_zip64_site s m e Ir.Local (z_local_zip64_extra e) = Ok ()
  /\ audit_zip64_site s m e Ir.Central (z_central_zip64_extra e) = Ok ().
Proof using Hrel Hread.
  pose proof local_extra_header as Hl. pose proof central_extra_header as Hc.
  destruct (er_central _ _ _ _ _ _ _ _ _ _ Hread), (er_local _ _ _ _ _ _ _ _ _ _ Hread).
  split; apply site_passes; claims64; try lia.
  - by destruct cz, lz.
  - intros x Hx. destruct (Hl x Hx) as (? & ? & ? & ? & _). split_and!; (done || lia).
  - by destruct cz, lz.
  - intros x Hx. destruct (Hc x Hx) as (? & ? & ? & ? & _). split_and!; (done || lia).
Qed.

Lemma area_passes area d stop :
  0 <= area -> stop <= u64_max ->
  match d with None => area = stop | Some x => 0 <= zx_len x /\ area + 4 + zx_len x = stop end ->
  audit_zip64_area m (extra_range64 area d) area stop = Ok ().
Proof using.
  intros Ha Hs Hd. unfold audit_zip64_area. destruct d as [d|]; cbn [extra_range64 option_map mkrange offset len].
  - destruct Hd as [Hp <-]. unfold u64_checked_sub, checked_range_end. cbn [mkrange offset len].
    rewrite (proj2 (Z.leb_le 4 _)) by lia. cbn [ok_or]. rewrite u64_checked_add_le by lia. cbn [ok_or map_err].
    by rewrite !(proj2 (Z.eqb_eq _ _)) by lia.
  - by rewrite Hd, Z.eqb_refl.
Qed.

Lemma areas_pass : audit_zip64_areas m e lfh cdh = Ok ().
Proof using Hrel Hread.
  pose proof (represents_u64 _ _ (reliable_represents _ _ Hrel)).
  pose proof (er_local_extra _ _ _ _ _ _ _ _ _ _ Hread) as Hl.
  pose proof (er_central_extra _ _ _ _ _ _ _ _ _ _ Hread) as Hc.
  destruct (er_central _ _ _ _ _ _ _ _ _ _ Hread), (er_local _ _ _ _ _ _ _ _ _ _ Hread). unfold c64_end in *.
  unfold audit_zip64_areas. claims64. use_reads. rewrite !u64_checked_add_le by lia. cbn [ok_or].
  rewrite !u64_checked_add_le by lia. cbn [ok_or].
  replace (local_header_offset v + (30 + Z.of_nat (length (lh_name local)))) with (lh_extra_offset local) by lia.
  replace (at_ + (46 + Z.of_nat (length (c64_name h)))) with (at_ + 46 + Z.of_nat (length (c64_name h))) by lia.
  rewrite !area_passes; try lia; [done|destruct cz as [c|]|destruct lz as [l|]]; cbn [extra_filled] in *;
    try (by rewrite ?Hl, ?Hc; cbn [length]; lia); split_and!; lia.
Qed.

Lemma local_extra_passes : audit_zip64_local_extra s m e = Ok ().
Proof using Hrel Hres Hread.
  pose proof shape_read as Hs. pose proof local_extra_data as Hl. pose proof local_extra_header as Hh.
  pose proof (represents_u64 _ _ (reliable_represents _ _ Hrel)).
  destruct (er_local _ _ _ _ _ _ _ _ _ _ Hread). unfold audit_zip64_local_extra, shape_holds in *. claims64. cbv zeta in Hs.
  destruct lz as [d|]; cbn [extra_range64 option_map].
  - destruct (Hl d eq_refl) as (_ & H16 & _). destruct (Hh d eq_refl) as (_ & Hin & _). rewrite H16 in *.
    cbn [mkrange offset len].
    rewrite (read_vec_complete s bs) by (done || lia). cbn [map_err]. rewrite !u64_at_nested, Z.add_0_r by lia.
    replace (lh_extra_offset local + 4 + 8) with (lh_extra_offset local + 12) by lia.
    destruct shape; [done|destruct Hs as (_ & Hs & _)..]; injection Hs as -> ->; by rewrite bool_decide_eq_false_2, bool_decide_eq_true_2 by done.
  - destruct shape; [done|by destruct Hs as ([? ?] & _)..].
Qed.

Lemma central_extra_passes : audit_zip64_central_extra s m e cdh = Ok ().
Proof using Hrel Hres Hread.
  pose proof central_extra_header as Hh. pose proof (er_values _ _ _ _ _ _ _ _ _ _ Hread) as Hv.
  pose proof (er_legacy _ _ _ _ _ _ _ _ _ _ Hread) as Hu.
  pose proof (represents_u64 _ _ (reliable_represents _ _ Hrel)).
  destruct (er_central _ _ _ _ _ _ _ _ _ _ Hread). unfold audit_zip64_central_extra. claims64.
  rewrite cr_comp0, cr_uncomp0, cr_offset0. unfold central_values64 in Hv.
  destruct cz as [d|]; cbn [extra_range64 option_map mkrange offset len].
  - rewrite bool_decide_eq_true_2 by done. destruct (Hh d eq_refl) as (Hp & Hin & _ & _ & _ & Hdata).
    destruct (resolve_zip64_central_values _ _ _ _) as [w|] eqn:Hw; [|done]. injection Hv as ->.
    pose proof (resolve_ok_reading _ _ _ _ _ Hu Hw) as Hrd. pose proof (length_reading _ _ _ Hrd) as Hlen.
    pose proof (reading_mask _ _ _ Hrd) as Hm.
    rewrite Hdata, length_range, Z2Nat.id in Hlen by lia.
    rewrite (proj2 (Z.eqb_neq _ 0)), (proj2 (Z.ltb_ge 7 _)), Hlen, Z.eqb_refl by lia. cbn [orb negb].
    rewrite (read_vec_complete s bs) by (done || lia). cbn [map_err].
    assert (Hreq : Z.lor (Z.lor (b2mask (c64_legacy_uncomp h =? u32_max) 0) (b2mask (c64_legacy_comp h =? u32_max) 1))
        (b2mask (c64_legacy_lfh_offset h =? u32_max) 2)
      = required_mask_from 0 [c64_legacy_uncomp h; c64_legacy_comp h; c64_legacy_lfh_offset h] 0)
      by (cbn [required_mask_from]; by rewrite Z.lor_0_l).
    rewrite Hreq, required_mask_required.
    rewrite (proj2 (Z.eqb_eq _ _)).
    2:{ apply mask_guard; [unfold presence_masks; rewrite !elem_of_cons, elem_of_nil; lia|apply Hrd]. }
    pose proof (candidates_resolve _ _ _ _ _ Hu Hw) as Hcand.
    rewrite Hdata, required_mask_required, Hlen in Hcand. unfold values_list, presence_masks in Hcand. rewrite Hcand.
    rewrite !Z.eqb_refl. done.
  - ok_steps Hv. injection Hv as <-. unfold has_sentinel64, ZIP64_U32_SENTINEL in Hs. breflect.
    rewrite bool_decide_eq_false_2 by (by intros [? ?]).
    rewrite !(proj2 (Z.eqb_neq _ u32_max)) by done. by rewrite bool_decide_eq_true_2 by done.
Qed.

Lemma extras_pass : audit_zip64_extras s m e lfh cdh = Ok ().
Proof using Hrel Hres Hread.
  unfold audit_zip64_extras. rewrite fields_pass, (proj1 sites_pass), (proj2 sites_pass), areas_pass, local_extra_passes.
  apply central_extra_passes.
Qed.

Lemma descriptor_passes : audit_zip64_descriptor s m e = Ok ().
Proof using Hrel Hres Hread.
  pose proof (represents_u64 _ _ (reliable_represents _ _ Hrel)).
  pose proof (er_record _ _ _ _ _ _ _ _ _ _ Hread) as Hr. cbv zeta in Hr.
  unfold audit_zip64_descriptor, streams. claims64. fold (uses_descriptor (c64_flags h)). unfold descriptor_range64.
  destruct (uses_descriptor (c64_flags h)); [|done]. cbn [negb].
  destruct Hr as [H0 -> Hin Hsig (Hcrc & Hcomp & Hun)].
  set (w := descriptor_width64 v (bool_decide (is_Some lz))) in *.
  set (p := lh_data_offset local + compressed_size v) in *. cbn [mkrange offset len].
  assert (Hw : p + 8 + 2 * value_bytes w - p = match w with Zip32 => 16 | Zip64 => 24 end) by (destruct w; simpl; lia).
  assert (Hw' : p + match w with Zip32 => 16 | Zip64 => 24 end <= Z.of_nat (length bs)) by lia.
  assert (H16 : 16 <= match w with Zip32 => 16 | Zip64 => 24 end) by (destruct w; lia).
  rewrite Hw, Z.eqb_refl. cbn [negb]. rewrite (read_vec_complete s bs) by (done || lia). cbn [map_err].
  rewrite !u32_at_nested, Z.add_0_r, Hsig, Hcrc, !Z.eqb_refl by lia. cbn [negb orb].
  replace (p + 4 + 4) with (p + 8) in * by lia.
  destruct w; cbn [value_bytes] in Hun; rewrite ?u32_at_nested, ?u64_at_nested by lia.
  - replace (p + 8 + 4) with (p + 12) in Hun by lia. by rewrite Hcomp, Hun, !Z.eqb_refl.
  - replace (p + 8 + 8) with (p + 16) in Hun by lia. by rewrite Hcomp, Hun, !Z.eqb_refl.
Qed.

(** The ranges, and the whole body of the loop. *)
Lemma record_end_bounds :
  0 <= compressed_size v /\ lh_data_offset local + compressed_size v <= record_end.
Proof using Hread.
  pose proof values_bounds64 as Hb. repeat apply Forall_cons in Hb as [? Hb].
  pose proof (er_record _ _ _ _ _ _ _ _ _ _ Hread) as Hr. cbv zeta in Hr. unfold is_u64 in *.
  split; [lia|]. destruct (uses_descriptor _); [|lia]. destruct Hr as [_ -> _ _ _].
  assert (0 < value_bytes (descriptor_width64 v (bool_decide (is_Some lz)))) by (by destruct (descriptor_width64 _ _)). lia.
Qed.

Lemma geometry_passes local_cover central_cover :
  start local_cover = 0 -> record_end <= end_ local_cover ->
  start central_cover <= at_ -> at_ + c64_end h 0 <= end_ central_cover ->
  audit_zip64_geometry local_cover central_cover m e
    (interval_of (local_header (ze_source_ranges (z_zip e)))) (interval_of (compressed_payload (ze_source_ranges (z_zip e))))
    (interval_of (central_header (ze_source_ranges (z_zip e)))) lfh cdh = Ok ().
Proof using Hread.
  intros L1 L2 C1 C2. pose proof record_end_bounds as [B1 B2].
  destruct (er_central _ _ _ _ _ _ _ _ _ _ Hread), (er_local _ _ _ _ _ _ _ _ _ _ Hread).
  unfold audit_zip64_geometry, contains. claims64. cbn [interval_of mkrange offset len start end_].
  unfold c64_end in *. use_reads. change bit with b2mask. rewrite !Z.eqb_refl. cbn [negb orb].
  rewrite !(proj2 (Z.eqb_eq _ _)), !(proj2 (Z.leb_le _ _)) by lia. done.
Qed.

Lemma interval64_ok r detail : range_nonneg r -> offset r + len r <= u64_max -> interval64 r detail = Ok (interval_of r).
Proof using. intros Hr Hl. unfold interval64. by rewrite (proj2 (checked_interval_ok _ _ _ Hr)) by done. Qed.

Lemma member_passes local_cover central_cover :
  start local_cover = 0 -> record_end <= end_ local_cover -> end_ local_cover <= Z.of_nat (length bs) ->
  start central_cover <= at_ -> at_ + c64_end h 0 <= end_ central_cover ->
  audit_zip64_member s local_cover central_cover pair_ m
  = Ok ({| start := local_header_offset v; end_ := record_end |}, {| start := at_; end_ := at_ + c64_end h 0 |}).
Proof using Hrel Hres Hread.
  intros L1 L2 L3 C1 C2. pose proof record_end_bounds as [B1 B2].
  pose proof (geometry_passes _ _ L1 L2 C1 C2) as Hg.
  pose proof common_passes as Hco. pose proof extras_pass as Hex. pose proof descriptor_passes as Hde.
  pose proof (represents_u64 _ _ (reliable_represents _ _ Hrel)).
  pose proof (er_record _ _ _ _ _ _ _ _ _ _ Hread) as Hr. cbv zeta in Hr.
  destruct (er_central _ _ _ _ _ _ _ _ _ _ Hread), (er_local _ _ _ _ _ _ _ _ _ _ Hread). unfold c64_end in *.
  unfold audit_zip64_member. cbn [zip64_evidence member64 planned ir_evidence ok_or]. fold m. fold e.
  assert (Hn : forall x, offset x = local_header_offset v /\ len x = lh_data_offset local - local_header_offset v
      \/ offset x = lh_data_offset local /\ len x = compressed_size v
      \/ offset x = at_ /\ len x = 46 + Z.of_nat (length (c64_name h)) + Z.of_nat (length (c64_extra h)) + Z.of_nat (length (c64_comment h))
      \/ offset x = lh_data_offset local + compressed_size v /\ len x = record_end - (lh_data_offset local + compressed_size v) ->
    forall detail, interval64 x detail = Ok (interval_of x))
    by (intros x Hx detail; apply interval64_ok; [split|]; lia).
  rewrite !Hn by (claims64; unfold c64_end; lia).
  assert (Hdesc : match data_descriptor (ze_source_ranges (z_zip e)) with
      | Some range => let? i := interval64 range "ZIP64 descriptor overflow" in Ok (Some i) | None => Ok None end
    = Ok (option_map interval_of (descriptor_range64 h (lh_data_offset local + compressed_size v) record_end))).
  { claims64. unfold descriptor_range64. destruct (uses_descriptor _); [|done]. rewrite Hn by (cbn [mkrange offset len]; lia). done. }
  rewrite Hdesc. clear Hdesc.
  change (offset (local_header (ze_source_ranges (z_zip e)))) with (local_header_offset v).
  change (offset (central_header (ze_source_ranges (z_zip e)))) with at_.
  change (len (local_header (ze_source_ranges (z_zip e)))) with (lh_data_offset local - local_header_offset v).
  change (len (central_header (ze_source_ranges (z_zip e)))) with (c64_end h 0). unfold c64_end at 1.
  rewrite !(proj2 (Z.ltb_ge _ _)) by lia. cbn [orb].
  rewrite !(reliable_read _ _ Hrel) by lia. cbn [map_err].
  rewrite Hg, Hco, Hex, Hde. unfold descriptor_range64, from_bounds. claims64. cbn [interval_of mkrange offset len start end_].
  unfold c64_end.
  destruct (uses_descriptor (c64_flags h)); cbn [option_map interval_of mkrange offset len start end_].
  - rewrite Z.eqb_refl, (proj2 (Z.ltb_ge _ _)) by lia. cbn [negb map_err]. repeat f_equal. lia.
  - rewrite (proj2 (Z.ltb_ge _ _)) by lia. cbn [map_err]. repeat f_equal. lia.
Qed.
End Passes.

(** ** The archive the reader accepts passes *)

Definition read_as64 (bs : list byte) (pair_ : bool) (z : ZipMember) : Prop :=
  exists at_ h v local shape cz lz record_end,
    entry_read64 bs pair_ at_ h v local shape cz lz record_end
    /\ z = built64 at_ h v local shape cz lz record_end.

Definition version_of (z : ZipMember) : Z :=
  from_option ev_central_version_needed 0 (zm_zip64_evidence z).
Definition max_version (ms : list ZipMember) : Z := foldr Z.max 0 (map version_of ms).

Lemma max_version_snoc ms z : 0 <= version_of z -> max_version (ms ++ [z]) = Z.max (max_version ms) (version_of z).
Proof.
  intros Hz. unfold max_version. induction ms as [|x ms IH]; simpl in *; [lia|]. rewrite IH. lia.
Qed.

Section Archive.
Context `{ALLOC : !Allocator} (s : SourceSnapshot) (bs : list byte).
Hypothesis Hrep : represents s bs.

Lemma zip64_member_read mm mb cd_offset cd_len pos pair_ h z n b :
  0 <= cd_offset -> 0 <= cd_len -> cd_offset + cd_len <= Z.of_nat (length bs) -> 0 <= pos ->
  central_header64 (range cd_offset cd_len bs) pos = Ok h ->
  zip64_member s mm mb cd_offset pos pair_ h = Some (Ok (z, n, b)) ->
  read_as64 bs pair_ z /\ version_of z = c64_version_needed h /\ 0 <= c64_version_needed h.
Proof using Hrep.
  intros Ho Hn Hl Hp Hh Hm.
  pose proof (central_header64_bounds _ _ _ Hp Hh) as [_ Hu].
  pose proof (central_header64_read _ _ _ _ _ Ho Hl Hn Hp Hh) as Hc.
  unfold zip64_member in Hm. ok_steps Hm. simplify_eq. breflect. units.
  repeat match goal with Hq : ok_or _ _ = Ok _ |- _ =>
    apply ok_or_ok, u64_checked_add_Some in Hq as [-> _] end.
  repeat match goal with Hq : classify_zip64_extra_fields _ _ _ _ _ = _ |- _ => apply classify_zip64_sound in Hq as [-> ?] end.
  match goal with Hq : central_values64 h ?cz = Ok ?v |- _ => pose proof (central_values64_bounds _ _ _ Hu Hq) as Hb end.
  repeat apply Forall_cons in Hb as [? Hb]. unfold is_u64 in *.
  match goal with Hq : map_err _ (parse_lfh_bounded s ?o ?l) = Ok _ |- _ =>
    destruct (parse_lfh_bounded s o l) as [local|] eqn:Hlf; [|done]; injection Hq as <-;
    apply (parse_lfh_read s bs) in Hlf; [|done|lia] end.
  assert (0 <= lh_data_offset local) by (destruct Hlf; lia).
  match goal with Hq : place_member64 _ _ _ _ _ _ _ _ _ _ = _ |- _ =>
    replace (cd_offset + (pos + 46 + Z.of_nat (length (c64_name h)))) with (cd_offset + pos + 46 + Z.of_nat (length (c64_name h))) in Hq by lia;
    apply (place_member64_read s bs) in Hq; [|done|lia|lia] end.
  match goal with Hq : exists _, _ |- _ => destruct Hq as (rend & -> & Hdir & _ & Hrec) end.
  split; [|split].
  - eexists _, _, _, _, _, _, _, _. split; [|reflexivity].
    match goal with Hq : bool_decide (lh_name _ = _) = true |- _ => apply bool_decide_eq_true_1 in Hq end. by split.
  - done.
  - rewrite <- (cr_version _ _ _ _ Hc). apply u16_at_range.
Qed.

Definition loop_read64 (pair_ : bool) (e : Zip64End) (st : Zip64State) : Prop :=
  directory_read (re_central_directory_offset (z64_end e)) (zs64_pos st) (length (z64_directory e)) (zs64_members st)
  /\ Forall (read_as64 bs pair_) (zs64_members st) /\ zs64_max_version st = max_version (zs64_members st).

Lemma zip64_step_read max_files max_metadata e st :
  let cd_offset := re_central_directory_offset (z64_end e) in
  let pair_ := bool_decide (is_Some (re_zip64_eocd (z64_end e))) in
  0 <= cd_offset -> cd_offset + Z.of_nat (length (z64_directory e)) <= Z.of_nat (length bs) ->
  z64_directory e = range cd_offset (Z.of_nat (length (z64_directory e))) bs ->
  loop_read64 pair_ e st ->
  (forall st', zip64_step s max_files max_metadata e st = Some (Ok (Continue st')) -> loop_read64 pair_ e st')
  /\ (forall st', zip64_step s max_files max_metadata e st = Some (Ok (Return st')) -> st' = st).
Proof using Hrep.
  intros cd_offset pair_ Ho Hl Hcd (Hd & Hf & Hv).
  pose proof (zip64_step_placed s max_files max_metadata e st Hd) as [Hc Hr]. split.
  - intros st' Hs. split; [by apply Hc|]. pose proof Hd as (Hp & _ & _).
    unfold zip64_step in Hs. cbv zeta in Hs. destruct (_ <=? _) in Hs; [done|]. ok_steps Hs. simplify_eq.
    cbn [zs64_members zs64_max_version].
    match goal with Hq : zip64_member _ _ _ _ _ _ _ = _, Hh : central_header64 _ _ = Ok _ |- _ =>
      rewrite Hcd in Hh; eapply zip64_member_read in Hq as (Hz & Hzv & Hz0); [|exact Ho| |exact Hl|apply Hp|exact Hh]; [|lia] end.
    split; [apply Forall_app; split; [done|by constructor]|]. by rewrite max_version_snoc, Hzv, Hv by lia.
  - intros st' Hs. by apply Hr in Hs as [? _].
Qed.

(** The directory's bytes, and the end records the reader resolved. *)
Definition classic_end (bs : list byte) (eocd_offset : Z) : ClassicEndFields :=
  {| ce_entries_on_disk := u16_at bs (eocd_offset + 8); ce_total_entries := u16_at bs (eocd_offset + 10);
     ce_central_directory_size := u32_at bs (eocd_offset + 12);
     ce_central_directory_offset := u32_at bs (eocd_offset + 16) |}.

Record end_read64 (e : Zip64End) : Prop := {
  en_eocd : last_eocd bs (z64_eocd_offset e) (z64_comment_len e);
  en_disks : u16_at bs (z64_eocd_offset e + 4) = 0 /\ u16_at bs (z64_eocd_offset e + 6) = 0;
  en_resolved : resolve_zip64_end_records s (z64_eocd_offset e) (classic_end bs (z64_eocd_offset e)) = Ok (z64_end e);
  en_directory : z64_directory e = range (re_central_directory_offset (z64_end e)) (re_central_directory_size (z64_end e)) bs;
  en_inside : 0 <= re_central_directory_offset (z64_end e)
    /\ 0 <= re_central_directory_size (z64_end e)
    /\ re_central_directory_offset (z64_end e) + re_central_directory_size (z64_end e) <= Z.of_nat (length bs)
}.

Lemma zip64_end_read max_files max_metadata e :
  zip64_end s max_files max_metadata = Ok e -> end_read64 e.
Proof using Hrep.
  intros He. unfold zip64_end in He. ok_steps He. simplify_eq. breflect.
  match goal with Hq : find_eocd s = Ok (?o, ?n) |- _ => apply (find_eocd_sound s bs) in Hq; [|done|rewrite (represents_len _ _ Hrep) in *; lia];
    pose proof Hq as [(Ho & Hl & Hn & _) _] end.
  match goal with Hq : src_read s ?o EOCD_MIN = Ok _ |- _ => apply (represents_read _ _ Hrep) in Hq as [_ ->]; [|done|done] end.
  unfold EOCD_MIN in *. rewrite !u16_at_nested, !u32_at_nested in * by lia.
  match goal with Hq : resolve_zip64_end_records _ _ _ = Ok _ |- _ =>
    pose proof Hq as Hnn; apply resolve_zip64_end_records_nonneg in Hnn as [Hon Hnn]; [|apply u32_at_range..] end.
  match goal with Hq : map_err _ (read_vec s ?o ?n) = Ok _ |- _ =>
    destruct (read_vec s o n) as [d|f] eqn:Hv; [|done]; injection Hq as <-;
    apply (read_vec_sound s bs) in Hv as [Hvl ->]; [|done|lia|lia] end.
  split; cbn [z64_eocd_offset z64_comment_len z64_end z64_directory]; try done.
Qed.

Lemma candidate_signature off n : eocd_candidate bs off n -> u32_at bs off = EOCD_SIG /\ u16_at bs (off + 20) = n.
Proof using.
  intros (_ & _ & Hn & Hs & Hc). unfold u32_at, u16_at. rewrite Hs, Hc.
  unfold u16_max in Hn. split; apply le_value_le_bytes; [done|lia].
Qed.

(** The end records against the reader's resolution of them. *)
Lemma classic_end_records_ok classic sentinel r :
  classic_end_records classic sentinel = Ok r ->
  sentinel = false /\ ce_entries_on_disk classic = ce_total_entries classic
  /\ r = {| re_total_entries := ce_total_entries classic;
            re_central_directory_size := ce_central_directory_size classic;
            re_central_directory_offset := ce_central_directory_offset classic;
            re_zip64_eocd := None; re_zip64_locator := None; re_zip64_version_needed := None |}.
Proof using. intros Hc. unfold classic_end_records in Hc. ok_steps Hc. breflect. by simplify_eq. Qed.

(** The parts an accepted archive's covering gives. *)
Definition parts_of (a : ZipArchive) : Zip64Parts :=
  {| zp_covering := zip64_covering a;
     zp_local := {| start := 0; end_ := za_cd_offset a |};
     zp_central := {| start := za_cd_offset a; end_ := za_cd_offset a + za_cd_size a |};
     zp_pair := match za_zip64_eocd a, za_zip64_locator a with
                | Some record, Some locator => Some (record, locator) | _, _ => None end |}.

(** The archive the reader builds from its end records and its members. *)
Definition archive64 (e : Zip64End) (ms : list ZipMember) (metadata : Z) : ZipArchive :=
  {| za_members := ms; za_cd_offset := re_central_directory_offset (z64_end e);
     za_cd_size := re_central_directory_size (z64_end e);
     za_eocd_offset := z64_eocd_offset e; za_comment_len := z64_comment_len e; za_metadata_bytes := metadata;
     za_zip64_eocd := re_zip64_eocd (z64_end e); za_zip64_locator := re_zip64_locator (z64_end e) |}.

Ltac parts64 := cbv zeta; cbn [parts_of zp_covering zp_local zp_central zp_pair zip64_covering from_parsed archive64
  z64_local_records z64_central_directory z64_eocd64 z64_locator z64_eocd z64_comment
  za_cd_offset za_cd_size za_eocd_offset za_comment_len za_zip64_eocd za_zip64_locator za_members mkrange offset len].

Lemma end_passes ir e ms metadata :
  reliable s bs -> end_read64 e -> Z.of_nat (length (members ir)) = re_total_entries (z64_end e) ->
  audit_zip64_end s ir (parts_of (archive64 e ms metadata)) = Ok (re_zip64_version_needed (z64_end e)).
Proof using Hrep.
  intros Hrel [Heocd [Hd1 Hd2] Hr Hdir Hin] Hcount. destruct Heocd as [Hcand _].
  pose proof (candidate_signature _ _ Hcand) as [Hsig Hcom]. destruct Hcand as (Ho & Hl & Hn & _). unfold EOCD_MIN in *.
  unfold audit_zip64_end. parts64. rewrite (reliable_read _ _ Hrel) by lia. cbn [map_err].
  rewrite !u16_at_nested, !u32_at_nested, Z.add_0_r by lia. rewrite Hsig, Hd1, Hd2, Hcom, !Z.eqb_refl, Hcount. cbn [negb orb].
  set (o := z64_eocd_offset e) in *.
  assert (Hclassic : forall b, classic_end_records (classic_end bs o) b = Ok (z64_end e) ->
    re_zip64_eocd (z64_end e) = None /\ re_zip64_version_needed (z64_end e) = None
    /\ u16_at bs (o + 8) = re_total_entries (z64_end e) /\ u16_at bs (o + 10) = re_total_entries (z64_end e)
    /\ u32_at bs (o + 12) = re_central_directory_size (z64_end e)
    /\ u32_at bs (o + 16) = re_central_directory_offset (z64_end e)).
  { intros b Hc. apply classic_end_records_ok in Hc as (_ & Hc & Hr').
    cbn [classic_end ce_entries_on_disk ce_total_entries ce_central_directory_size ce_central_directory_offset] in *. rewrite Hr'.
    split_and!; (done || lia). }
  unfold resolve_zip64_end_records in Hr. cbv zeta in Hr.
  destruct (Z.ltb_spec o 20) as [|H20].
  { apply Hclassic in Hr as (-> & -> & -> & -> & -> & ->). by rewrite !Z.eqb_refl. }
  ok_step Hr. destruct (negb (u32_at _ 0 =? ZIP64_LOCATOR_SIG)) eqn:Eloc.
  { apply Hclassic in Hr as (-> & -> & -> & -> & -> & ->). by rewrite !Z.eqb_refl. }
  clear Hclassic. ok_steps Hr. breflect. unfold zip64_end_record in Hr. ok_steps Hr. breflect.
  repeat match goal with Hq : bool_decide _ = true |- _ => apply bool_decide_eq_true_1, u64_checked_add_Some in Hq as [? ?] end.
  match goal with Hq : map_err _ (src_read s ?x 56) = Ok _ |- _ =>
    destruct (src_read s x 56) as [record|] eqn:Hrec; [|done]; injection Hq as -> end.
  injection Hr as Hr. rewrite <- Hr in Hcount |- *.
  cbn [re_zip64_eocd re_zip64_locator re_zip64_version_needed re_total_entries] in *.
  pose proof (u64_at_range a 8). pose proof (represents_u64 _ _ Hrep).
  unfold audit_zip64_pair. parts64. rewrite <- Hr. cbn [re_central_directory_size re_central_directory_offset]. rewrite Hcount.
  unfold checked_range_end. cbn [mkrange offset len]. rewrite !Z.eqb_refl. cbn [negb orb].
  rewrite u64_checked_add_le by lia. cbn [ok_or]. rewrite (proj2 (Z.eqb_eq _ _)) by lia. cbn [negb].
  rewrite u64_checked_add_le by lia. cbn [ok_or]. rewrite (proj2 (Z.eqb_eq _ _)) by lia. cbn [negb].
  rewrite Hrec, Hs. cbn [map_err]. rewrite !u16_at_nested, !u32_at_nested by lia.
  cbn [classic_end ce_entries_on_disk ce_total_entries ce_central_directory_size ce_central_directory_offset] in *.
  change canonical_end_u16 with canonical_zip64_end_u16. change canonical_end_u32 with canonical_zip64_end_u32.
  match goal with Hq : u64_at a0 24 = u64_at a0 32 |- _ => rewrite Hq in *; clear Hq end.
  repeat match goal with Hq : _ = true |- _ => rewrite Hq; clear Hq | Hq : u32_at _ _ = _ |- _ => rewrite Hq; clear Hq
    | Hq : u64_at _ _ = _ |- _ => rewrite Hq; clear Hq end.
  by rewrite !Z.eqb_refl.
Qed.

Lemma resolve_both o classic r :
  resolve_zip64_end_records s o classic = Ok r -> is_Some (re_zip64_eocd r) <-> is_Some (re_zip64_locator r).
Proof using.
  intros Hr.
  assert (Hclassic : forall b, classic_end_records classic b = Ok r -> is_Some (re_zip64_eocd r) <-> is_Some (re_zip64_locator r)).
  { intros b Hc. by apply classic_end_records_ok in Hc as (_ & _ & ->). }
  unfold resolve_zip64_end_records in Hr. cbv zeta in Hr.
  destruct (o <? 20); [by eapply Hclassic|]. ok_step Hr. destruct (negb (u32_at _ 0 =? _)); [by eapply Hclassic|].
  ok_steps Hr. unfold zip64_end_record in Hr. ok_steps Hr. simplify_eq. cbn [re_zip64_eocd re_zip64_locator].
  split; intros _; by eexists.
Qed.

(** A ZIP64 representation of the members the reader read. *)
Record says_zip64 (ir : ArchiveIR) (a : ZipArchive) : Prop := {
  s64_source : source_digest ir = digest s;
  s64_covering : evidence ir = ArZip64 (zip64_covering a);
  s64_members : Forall2 (fun m z => exists components actions, from_zip64_planned z components actions = Some m)
    (members ir) (za_members a)
}.

Lemma archive_passes ir a :
  archive_placed a (Z.of_nat (length bs)) -> (is_Some (za_zip64_eocd a) <-> is_Some (za_zip64_locator a)) ->
  says_zip64 ir a -> audit_zip64_archive s ir = Ok (parts_of a).
Proof using Hrep.
  intros [Ho _ _ Hd He] Hboth [Hs Hc _]. apply adjacent_le in Hd. pose proof (represents_u64 _ _ Hrep).
  assert (Hend : za_cd_offset a + za_cd_size a <= Z.of_nat (length bs)) by by apply adjacent_le in He.
  unfold audit_zip64_archive, format, archive_zip64_covering. rewrite Hs, Hc, !bool_decide_eq_true_2 by done. cbn [negb ok_or].
  rewrite !interval64_ok by (try split; parts64; lia). unfold checked_range_end. parts64. cbn [interval_of start end_ mkrange offset len].
  unfold end_records_placed, EOCD_MIN in He. rewrite (represents_len _ _ Hrep).
  unfold parts_of. destruct (za_zip64_eocd a) as [record|], (za_zip64_locator a) as [locator|].
  2: by destruct (proj1 Hboth) as [? ?]; [eexists|].
  2: by destruct (proj2 Hboth) as [? ?]; [eexists|].
  all: simpl in He.
  all: rewrite u64_checked_add_le by lia; cbn [ok_or]; rewrite u64_checked_add_le by lia; cbn [ok_or].
  all: rewrite !(proj2 (Z.eqb_eq _ _)) by lia; cbn [negb orb].
  all: unfold interval_of; cbn [mkrange offset len]; rewrite ?Z.add_0_l; done.
Qed.

Lemma members_pass pair_ a ms zs :
  reliable s bs -> (forall site n, try_reserve site n = true) ->
  archive_placed a (Z.of_nat (length bs)) ->
  Forall (fun z => z ∈ za_members a) zs -> Forall (read_as64 bs pair_) zs ->
  Forall2 (fun m z => exists components actions, from_zip64_planned z components actions = Some m) ms zs ->
  audit_zip64_members s (zp_local (parts_of a)) (zp_central (parts_of a)) pair_ ms
  = Ok (map record_interval zs, map (fun z => interval_of (central_header (zm_source_ranges z))) zs)
  /\ map z_central_version_needed (omap zip64_evidence ms) = map version_of zs.
Proof using Hrep.
  intros Hrel Hres Hpl Hin Hread Hms. pose proof Hpl as [Ho _ (ps & Hperm & Ht) Hd He].
  assert (Hend : za_cd_offset a + za_cd_size a <= Z.of_nat (length bs)) by by apply adjacent_le in He.
  apply adjacent_le in Hd as Hsz.
  induction Hms as [|m z ms zs (cs & acts & Hm) _ IH]; [done|].
  apply Forall_cons in Hin as [Hz Hin]. apply Forall_cons in Hread as [(at_ & h & v & local & shape & cz & lz & rend & Hr & ->) Hread].
  destruct (IH Hin Hread) as [IH1 IH2]. rewrite from_zip64_planned_built in Hm. injection Hm as <-.
  assert (Hrec : rend <= za_cd_offset a).
  { eapply end_to_end_bounds in Ht; [|apply (list_elem_of_fmap_2 record_interval); rewrite Hperm; exact Hz]. apply Ht. }
  assert (Hcen : za_cd_offset a <= at_ /\ at_ + c64_end h 0 <= za_cd_offset a + za_cd_size a).
  { apply (list_elem_of_fmap_2 (fun m => central_header (zm_source_ranges m))) in Hz.
    eapply adjacent_bounds in Hd; [|exact Hz]. exact Hd. }
  split.
  - cbn [audit_zip64_members]. rewrite (member_passes s bs pair_ _ _ _ _ _ _ _ _ _ _ Hrel Hres Hr) by (parts64; cbn [start end_]; lia).
    rewrite IH1. done.
  - cbn [omap list_omap]. cbn [zip64_evidence member64 planned ir_evidence map]. f_equal. exact IH2.
Qed.

(** What the reader promises of the archive it accepts. *)
Lemma parse_zip64_read max_files max_metadata a :
  parse_zip64_strict_ascii_v1 s max_files max_metadata = Some (Ok a) ->
  exists e metadata, end_read64 e /\ a = archive64 e (za_members a) metadata
    /\ Forall (read_as64 bs (bool_decide (is_Some (re_zip64_eocd (z64_end e))))) (za_members a)
    /\ Z.of_nat (length (za_members a)) = re_total_entries (z64_end e)
    /\ (default 45 (re_zip64_version_needed (z64_end e)) = 45
        \/ max_version (za_members a) <> 0
           /\ default 45 (re_zip64_version_needed (z64_end e)) = max_version (za_members a)).
Proof using Hrep.
  intros Hp. unfold parse_zip64_strict_ascii_v1 in Hp. ok_steps Hp. simplify_eq.
  match goal with Hq : zip64_end _ _ _ = Ok ?x |- _ => rename x into e; apply zip64_end_read in Hq as He end.
  match goal with Hq : run_loop _ _ _ = Some (Ok ?x) |- _ => rename x into st; rename Hq into Hrun end.
  match goal with Hq : zip64_finish _ _ = Ok _ |- _ => rename Hq into Hfin end.
  set (pair_ := bool_decide (is_Some (re_zip64_eocd (z64_end e)))).
  assert (Hd : loop_read64 pair_ e st).
  { pose proof He as [_ _ _ Hdir (Ho & Hn & Hl)].
    assert (Hlen : Z.of_nat (length (z64_directory e)) = re_central_directory_size (z64_end e))
      by (rewrite Hdir, length_range by lia; lia).
    assert (Hstep := fun st0 Hi => zip64_step_read max_files max_metadata e st0 Ho ltac:(rewrite Hlen; exact Hl)
      ltac:(rewrite Hlen; exact Hdir) Hi).
    revert Hrun. apply (run_loop_invariant _ (loop_read64 pair_ e) (loop_read64 pair_ e)).
    - intros st1 st2 Hi. by apply Hstep.
    - intros st1 st2 Hi Hret. by apply (Hstep _ Hi) in Hret as ->.
    - split_and!; [unfold directory_read; simpl; split_and!; try lia; constructor|constructor|done]. }
  destruct Hd as (_ & Hf & Hv). unfold zip64_finish in Hfin. ok_steps Hfin. simplify_eq. cbn [za_members].
  exists e, (zs64_metadata st). split_and!; try done; [by breflect|].
  rewrite <- Hv.
  match goal with Hq : negb (default 45 _ =? 45) && _ = false |- _ => rename Hq into Hver end.
  destruct (Z.eqb_spec (default 45 (re_zip64_version_needed (z64_end e))) 45) as [|Hne]; [by left|right]. cbn [negb andb] in Hver. breflect. done.
Qed.

(** The ZIP64 audit accepts every representation of an archive the ZIP64 reader
    accepts. *)
Lemma audit_zip64_passes max_files max_metadata a ir :
  reliable s bs -> (forall site n, try_reserve site n = true) ->
  parse_zip64_strict_ascii_v1 s max_files max_metadata = Some (Ok a) ->
  says_zip64 ir a -> audit_zip64_covering s ir = Ok ().
Proof using Hrep.
  intros Hrel Hres Hp Hsay. pose proof (parse_zip64_placed s bs _ _ _ Hrep Hp) as Hpl.
  apply parse_zip64_read in Hp as (e & metadata & He & Ha & Hread & Hcount & Hver).
  pose proof (s64_members _ _ Hsay) as Hms. pose proof (Forall2_length _ _ _ Hms) as Hlen.
  pose proof (resolve_both _ _ _ (en_resolved _ He)) as Hboth.
  assert (Hpair : bool_decide (is_Some (zp_pair (parts_of a))) = bool_decide (is_Some (re_zip64_eocd (z64_end e)))).
  { rewrite Ha. parts64. apply bool_decide_ext. destruct (re_zip64_eocd (z64_end e)), (re_zip64_locator (z64_end e)); try done.
    - by destruct (proj1 Hboth) as [? ?]; [eexists|]. }
  destruct (members_pass _ a (members ir) (za_members a) Hrel Hres Hpl ltac:(by apply Forall_forall) Hread Hms) as [Hmem Hvers].
  unfold audit_zip64_covering. rewrite (archive_passes ir a Hpl) by (done || (rewrite Ha; exact Hboth)).
  assert (Hend : audit_zip64_end s ir (parts_of a) = Ok (re_zip64_version_needed (z64_end e))).
  { rewrite Ha. apply end_passes; [done|done|]. by rewrite Hlen. }
  rewrite Hend, !Hres, Hpair, Hmem. cbn [negb].
  assert (Hv : audit_zip64_version ir (re_zip64_version_needed (z64_end e)) = Ok ()).
  { unfold audit_zip64_version. destruct (re_zip64_version_needed (z64_end e)) as [version|]; [|done].
    rewrite Hvers. fold (max_version (za_members a)). simpl in Hver.
    destruct Hver as [-> |[Hne E]]; [done|]. rewrite <- E in *. rewrite Z.eqb_refl, (proj2 (Z.eqb_neq _ _) Hne).
    by destruct (version =? 45). }
  rewrite Hv. clear Hend Hv Hvers Hmem Hpair Hver. pose proof Hpl as [Ho Hmp (ps & Hperm & Ht) Hdir _].
  apply adjacent_le in Hdir as Hsz.
  assert (W : Forall wf (map record_interval (za_members a))).
  { apply Forall_map, Forall_forall. intros z Hz. unfold wf.
    eapply end_to_end_bounds in Ht; [|apply (list_elem_of_fmap_2 record_interval); rewrite Hperm; exact Hz]. lia. }
  assert (Hnil : Forall (fun r => 0 < len r) (map (fun z => central_header (zm_source_ranges z)) (za_members a))).
  { apply Forall_map. eapply Forall_impl; [exact Hread|]. intros z (at_ & h & v & local & shape & cz & lz & rend & _ & ->).
    cbn [built64 zm_source_ranges central_header mkrange len]. unfold c64_end. lia. }
  assert (WD : Forall wf (map (fun z => interval_of (central_header (zm_source_ranges z))) (za_members a))).
  { apply Forall_map, Forall_forall. intros z Hz. rewrite Forall_map, Forall_forall in Hnil. specialize (Hnil z Hz).
    unfold wf. cbn [interval_of start end_]. lia. }
  assert (WL : wf (zp_local (parts_of a))) by (unfold wf; parts64; cbn [start end_]; lia).
  assert (WC : wf (zp_central (parts_of a))) by (unfold wf; parts64; cbn [start end_]; lia).
  rewrite (proj2 (validate_sorted_partition_iff _ _ _ _ _ WL W)).
  2:{ apply (tiles_perm _ (map record_interval ps)); [by rewrite Hperm|]. by apply end_to_end_tiles. }
  cbn [map_err]. rewrite (proj2 (validate_sorted_partition_iff _ _ _ _ _ WC WD)); [done|].
  rewrite <- (map_map (fun z => central_header (zm_source_ranges z)) interval_of).
  apply end_to_end_tiles. by apply adjacent_end_to_end.
Qed.
End Archive.

(** ** What the audit says of a representation it accepts *)

(** The claims of one member, as the bytes bear them out: its headers are at the
    claimed ranges with the claimed fields and name, its sizes and offset are
    what the central header says, through its ZIP64 field when there is one,
    and its descriptor repeats them. *)
Definition claimed_values (m : IrMember) (e : Zip64MemberEvidence) : Zip64CentralValues :=
  {| uncompressed_size := declared_uncomp_size m; compressed_size := ze_declared_comp_size (z_zip e);
     local_header_offset := offset (local_header (ze_source_ranges (z_zip e)));
     presence_mask := z_central_presence_mask e |}.

Record zip64_claim_true (bs : list byte) (m : IrMember) (e : Zip64MemberEvidence) : Prop := {
  ct_ranges : zip_ranges_ok bs (ze_source_ranges (z_zip e));
  ct_payload : len (compressed_payload (ze_source_ranges (z_zip e))) = ze_declared_comp_size (z_zip e);
  ct_local :
    let at_ := offset (local_header (ze_source_ranges (z_zip e))) in
    u16_at bs (at_ + 4) = z_local_version_needed e /\ u16_at bs (at_ + 6) = ze_flags (z_zip e)
    /\ u16_at bs (at_ + 8) = ze_method (z_zip e)
    /\ range (at_ + 30) (u16_at bs (at_ + 26)) bs = ir_raw_name_bytes m;
  ct_central :
    let at_ := offset (central_header (ze_source_ranges (z_zip e))) in
    u16_at bs (at_ + 6) = z_central_version_needed e /\ u16_at bs (at_ + 8) = ze_flags (z_zip e)
    /\ u16_at bs (at_ + 10) = ze_method (z_zip e) /\ u32_at bs (at_ + 16) = ze_declared_crc (z_zip e)
    /\ u32_at bs (at_ + 38) = ze_external_attributes (z_zip e)
    /\ range (at_ + 46) (u16_at bs (at_ + 28)) bs = ir_raw_name_bytes m;
  ct_values :
    let at_ := offset (central_header (ze_source_ranges (z_zip e))) in
    let legacy := [u32_at bs (at_ + 24); u32_at bs (at_ + 20); u32_at bs (at_ + 42)] in
    match z_central_zip64_extra e with
    | None => legacy = values_list (claimed_values m e)
    | Some field => central_reading (range (offset field) (len field) bs) legacy (claimed_values m e)
    end;
  ct_descriptor :
    match z_descriptor_width e, data_descriptor (ze_source_ranges (z_zip e)) with
    | None, None => True
    | Some w, Some d =>
        u32_at bs (offset d) = DATA_DESCRIPTOR_SIG
        /\ values_at w bs (offset d + 4) (ze_declared_crc (z_zip e)) (ze_declared_comp_size (z_zip e)) (declared_uncomp_size m)
    | _, _ => False
    end
}.

Record zip64_member_typed (e : Zip64MemberEvidence) : Prop := {
  mt_ranges : source_ranges_typed (ze_source_ranges (z_zip e));
  mt_central_extra : forall r, z_central_zip64_extra e = Some r -> range_nonneg r
}.

Definition ranges_of (e : Zip64MemberEvidence) : MemberSourceRanges := ze_source_ranges (z_zip e).

(** The representation is of these bytes: its ranges and end records partition
    them, every member's claims are true, and the members' records and central
    headers tile their parts. *)
Record zip64_covered (bs : list byte) (source : SourceDigest) (ir : ArchiveIR) (c : Zip64ArchiveCovering)
    (es : list Zip64MemberEvidence) : Prop := {
  zv_source : source_digest ir = source;
  zv_covering : archive_zip64_covering ir = Some c;
  zv_parts :
    adjacent 0 (z64_local_records c :: z64_central_directory c :: option_list (z64_eocd64 c)
      ++ option_list (z64_locator c) ++ [z64_eocd c; z64_comment c]) (Z.of_nat (length bs));
  zv_members : Forall2 (fun m e => zip64_evidence m = Some e /\ zip64_claim_true bs m e) (members ir) es;
  zv_local : tiles (interval_of (z64_local_records c)) (map (fun e => record_of (ranges_of e)) es);
  zv_central : tiles (interval_of (z64_central_directory c)) (map (fun e => interval_of (central_header (ranges_of e))) es)
}.

(** The claims are of unsigned ranges. *)
Record zip64_claims_typed (ir : ArchiveIR) : Prop := {
  z64t_covering : forall c, archive_zip64_covering ir = Some c ->
    Forall range_nonneg (z64_local_records c :: z64_central_directory c :: z64_eocd c :: z64_comment c
      :: option_list (z64_eocd64 c) ++ option_list (z64_locator c));
  z64t_members : Forall (fun m => forall e, zip64_evidence m = Some e -> zip64_member_typed e) (members ir)
}.

Section Sound.
Context `{ALLOC : !Allocator} (s : SourceSnapshot) (bs : list byte).
Hypothesis Hrep : represents s bs.

Lemma map_err_read off n (f : Finding -> Finding) out :
  0 <= off -> 0 <= n -> map_err f (src_read s off n) = Ok out -> off + n <= Z.of_nat (length bs) /\ out = range off n bs.
Proof using Hrep.
  intros Ho Hn Hr. destruct (src_read s off n) as [d|] eqn:E; [|done]. injection Hr as <-. by eapply represents_read.
Qed.
Lemma map_err_read_vec off n (f : Finding -> Finding) out :
  0 <= off -> 0 <= n -> map_err f (read_vec s off n) = Ok out -> off + n <= Z.of_nat (length bs) /\ out = range off n bs.
Proof using Hrep.
  intros Ho Hn Hr. destruct (read_vec s off n) as [d|] eqn:E; [|done]. injection Hr as <-. by eapply read_vec_sound.
Qed.

Lemma descriptor_sound m e :
  (forall d, data_descriptor (ze_source_ranges (z_zip e)) = Some d -> range_nonneg d) ->
  audit_zip64_descriptor s m e = Ok () ->
  match z_descriptor_width e, data_descriptor (ze_source_ranges (z_zip e)) with
  | None, None => True
  | Some w, Some d =>
      u32_at bs (offset d) = DATA_DESCRIPTOR_SIG
      /\ values_at w bs (offset d + 4) (ze_declared_crc (z_zip e)) (ze_declared_comp_size (z_zip e)) (declared_uncomp_size m)
  | _, _ => False
  end.
Proof using Hrep.
  intros Ht Hd. unfold audit_zip64_descriptor in Hd.
  destruct (z_descriptor_width e) as [w|], (data_descriptor _) as [d|]; try done.
  destruct (Ht d eq_refl) as [Ho Hn]. ok_steps Hd.
  match goal with Hq : map_err _ (read_vec _ _ _) = _ |- _ => apply map_err_read_vec in Hq as [Hl ->]; [|done|done] end.
  breflect. rewrite !u32_at_nested, Z.add_0_r in * by (destruct w; lia).
  split; [done|]. unfold values_at. replace (offset d + 4 + 4) with (offset d + 8) by lia.
  destruct w; cbn [value_bytes]; rewrite ?u32_at_nested, ?u64_at_nested in * by lia; split_and!; try done;
    match goal with Hq : _ = ?x |- _ = ?x => rewrite <- Hq; f_equal; lia end.
Qed.

(** The last mask the fold kept is a match. *)
Lemma unique_candidate data legacy resolved mask required cs n u :
  foldl (candidate_step data legacy resolved mask required) (0, 0) cs = (n, u) -> n <> 0 ->
  u ∈ cs /\ Z.land u required = required /\ candidate_values data u 0 0 legacy = Some resolved.
Proof using.
  assert (Hgen : forall cs st, st.1 = 0 \/ (Z.land st.2 required = required /\ candidate_values data st.2 0 0 legacy = Some resolved) ->
    let st' := foldl (candidate_step data legacy resolved mask required) st cs in
    st'.1 = 0 \/ (st'.2 ∈ cs \/ st' = st) /\ Z.land st'.2 required = required /\ candidate_values data st'.2 0 0 legacy = Some resolved).
  { clear. induction cs as [|c cs IH]; intros [k x] Hst; cbn [foldl].
    - destruct Hst as [?|?]; [by left|right]. split; [by right|done].
    - assert (Hstep : candidate_step data legacy resolved mask required (k, x) c = (k, x)
        \/ (Z.land c required = required /\ candidate_values data c 0 0 legacy = Some resolved
            /\ candidate_step data legacy resolved mask required (k, x) c = (Z.min u8_max (k + 1), c))).
      { unfold candidate_step. destruct (negb _ || _) eqn:Hg; [by left|]. case_bool_decide; [right|by left]. breflect. done. }
      destruct Hstep as [E|(Hreq & Hv & E)].
      + rewrite E. destruct (IH (k, x) Hst) as [?|([?|?] & ?)]; [by left|right; split; [left; by right|done]|right; split; [by right|done]].
      + rewrite E. destruct (IH (Z.min u8_max (k + 1), c)) as [?|([?| ->] & ?)]; [by right|by left| |].
        * right. split; [left; by right|done].
        * right. split; [left; by left|done]. }
  intros Hf Hn. destruct (Hgen cs (0, 0) (or_introl eq_refl)) as [H0|([Hin|Heq] & Hrest)]; rewrite Hf in *; [done|done|].
  injection Heq as -> _. done.
Qed.

Lemma central_extra_sound m e at_ :
  0 <= at_ -> (forall r, z_central_zip64_extra e = Some r -> range_nonneg r) ->
  audit_zip64_central_extra s m e (range at_ 46 bs) = Ok () ->
  let legacy := [u32_at bs (at_ + 24); u32_at bs (at_ + 20); u32_at bs (at_ + 42)] in
  match z_central_zip64_extra e with
  | None => legacy = values_list (claimed_values m e)
  | Some field => central_reading (range (offset field) (len field) bs) legacy (claimed_values m e)
  end.
Proof using Hrep.
  intros Ho Ht Hx. unfold audit_zip64_central_extra in Hx. rewrite !u32_at_nested in Hx by lia. cbv zeta.
  destruct (z_central_zip64_extra e) as [r|]; ok_steps Hx.
  - destruct (Ht r eq_refl) as [Hro Hrn].
    match goal with Hq : map_err _ (read_vec _ _ _) = _ |- _ => apply map_err_read_vec in Hq as [Hl ->]; [|done|done] end.
    match goal with Hq : foldl _ _ _ = _ |- _ => rename Hq into Hfold end. breflect. subst.
    apply (unique_candidate _ _ _ _ _ presence_masks) in Hfold as (Hm & Hreq & Hvals); [|lia].
    rewrite required_mask_required in Hreq.
    apply candidate_reading; try done.
    + repeat constructor; apply u32_at_range.
    + rewrite length_range by lia. cbn [claimed_values presence_mask]. lia.
  - breflect. by match goal with Hq : bool_decide _ = true |- _ => apply bool_decide_eq_true_1 in Hq end.
Qed.

Lemma interval64_Ok r detail i :
  range_nonneg r -> interval64 r detail = Ok i -> i = interval_of r.
Proof using.
  intros Hr Hi. unfold interval64 in Hi. destruct (checked_interval r detail) as [j|] eqn:E; [|done].
  injection Hi as ->. by apply checked_interval_ok in E as [_ ->].
Qed.

Lemma member_sound lc cc pair_ m i j :
  (forall e, zip64_evidence m = Some e -> zip64_member_typed e) ->
  audit_zip64_member s lc cc pair_ m = Ok (i, j) ->
  exists e, zip64_evidence m = Some e /\ zip64_claim_true bs m e
    /\ i = record_of (ze_source_ranges (z_zip e)) /\ j = interval_of (central_header (ze_source_ranges (z_zip e))).
Proof using Hrep.
  intros Hty Hm. unfold audit_zip64_member in Hm. destruct (zip64_evidence m) as [e|]; [|done].
  destruct (Hty e eq_refl) as [[[Tl1 Tl2] [Tp1 Tp2] Td [Tc1 Tc2]] Tx]. cbn [ok_or] in Hm. ok_steps Hm. units.
  exists e. split; [done|].
  repeat match goal with Hq : interval64 _ _ = Ok _ |- _ => apply interval64_Ok in Hq; [|by split]; subst end.
  repeat match goal with Hq : map_err _ (src_read s _ _) = Ok _ |- _ =>
    apply map_err_read in Hq as [? ->]; [|done|done] end.
  match goal with Hq : audit_zip64_descriptor _ _ _ = _ |- _ => apply descriptor_sound in Hq; [|done]; rename Hq into Hdesc end.
  match goal with Hq : audit_zip64_extras _ _ _ _ _ = _ |- _ => unfold audit_zip64_extras in Hq; ok_steps Hq; units;
    apply central_extra_sound in Hq; [|done|done]; rename Hq into Hvals end.
  match goal with Hq : audit_zip64_common_member _ _ _ _ _ _ = _ |- _ => unfold audit_zip64_common_member in Hq; ok_steps Hq; units end.
  match goal with Hq : audit_zip64_geometry _ _ _ _ _ _ _ _ _ = _ |- _ => unfold audit_zip64_geometry in Hq; ok_steps Hq; clear Hq end.
  match goal with Hq : audit_zip64_fixed _ _ _ _ = _ |- _ => unfold audit_zip64_fixed in Hq; ok_steps Hq; clear Hq end.
  match goal with Hq : audit_zip64_name _ _ _ _ _ = _ |- _ => unfold audit_zip64_name in Hq; ok_steps Hq; clear Hq end.
  repeat match goal with Hq : ok_or (u64_checked_add _ _) _ = Ok _ |- _ => apply ok_or_ok, u64_checked_add_Some in Hq as [-> _] end.
  repeat match goal with Hq : map_err _ (read_vec s _ _) = Ok _ |- _ =>
    apply map_err_read_vec in Hq as [_ ->]; [|lia|apply u16_at_range] end.
  match goal with Hq : map_err _ (from_bounds _ _) = Ok _ |- _ => unfold from_bounds in Hq end. breflect.
  repeat match goal with Hq : bool_decide (_ = ir_raw_name_bytes m) = true |- _ => apply bool_decide_eq_true_1 in Hq end.
  set (R := ze_source_ranges (z_zip e)) in *.
  repeat match goal with
  | Hq : context [u16_at (range _ _ bs) _] |- _ => rewrite !u16_at_nested in Hq by lia
  | Hq : context [u32_at (range _ _ bs) _] |- _ => rewrite !u32_at_nested in Hq by lia
  end. rewrite !Z.add_0_r in *.
  match goal with Hq : map_err _ (if _ then Err Reversed else _) = Ok _ |- _ => rename Hq into Hb end.
  match goal with Hq : _ = Ok a2 |- _ => rename Hq into Hd2 end. injection Hm as -> ->.
  assert (Ha2 : a2 = option_map interval_of (data_descriptor R)).
  { destruct (data_descriptor R) as [d|]; [|by injection Hd2 as <-]. ok_steps Hd2. injection Hd2 as <-.
    match goal with Hq : interval64 d _ = Ok _ |- _ => apply interval64_Ok in Hq as ->; [done|by apply Td] end. }
  subst a2. cbn [interval_of start end_] in *.
  assert (Hrec : i = record_of R).
  { unfold record_of. destruct (data_descriptor R); cbn [option_map interval_of start end_] in Hb;
      by destruct (_ <? _) in Hb; [|injection Hb as <-]. }
  assert (Hlaid : adjacent (offset (local_header R)) (zip_local_ranges R) (end_ (record_of R))).
  { unfold zip_local_ranges, record_of. clear Hvals Hdesc.
    destruct (data_descriptor R) as [d|] eqn:Ed; cbn [option_map interval_of start end_ option_list adjacent record_of] in *;
      [destruct (Td d eq_refl); breflect|]; simpl; split_and!; lia. }
  split; [|by split]. by split; [split|..].
Qed.

Lemma members_sound lc cc pair_ ms ls cs :
  Forall (fun m => forall e, zip64_evidence m = Some e -> zip64_member_typed e) ms ->
  audit_zip64_members s lc cc pair_ ms = Ok (ls, cs) ->
  exists es, Forall2 (fun m e => zip64_evidence m = Some e /\ zip64_claim_true bs m e) ms es
    /\ ls = map (fun e => record_of (ranges_of e)) es
    /\ cs = map (fun e => interval_of (central_header (ranges_of e))) es.
Proof using Hrep.
  intros Ht. revert ls cs. induction Ht as [|m ms Hm _ IH]; intros ls cs Hx; cbn [audit_zip64_members] in Hx.
  - injection Hx as <- <-. by exists [].
  - ok_steps Hx. injection Hx as <- <-.
    match goal with Hq : audit_zip64_member _ _ _ _ _ = _ |- _ => apply member_sound in Hq as (e & He & Htrue & -> & ->); [|done] end.
    destruct (IH _ _ eq_refl) as (es & Hf & -> & ->). exists (e :: es). by split_and!; [constructor| |].
Qed.

Lemma pair_sound ir parts eocd_ record locator version :
  audit_zip64_pair s ir parts eocd_ record locator = Ok version ->
  len record = 56 /\ len locator = 20 /\ offset record + 56 = offset locator
  /\ offset locator + 20 = offset (z64_eocd (zp_covering parts)).
Proof using.
  intros Hx. unfold audit_zip64_pair, checked_range_end in Hx. ok_steps Hx.
  repeat match goal with Hq : ok_or (u64_checked_add _ _) _ = Ok _ |- _ => apply ok_or_ok, u64_checked_add_Some in Hq as [-> _] end.
  breflect. lia.
Qed.

Lemma parts_sound ir parts version :
  zip64_claims_typed ir -> audit_zip64_archive s ir = Ok parts -> audit_zip64_end s ir parts = Ok version ->
  source_digest ir = digest s /\ archive_zip64_covering ir = Some (zp_covering parts)
  /\ zp_local parts = interval_of (z64_local_records (zp_covering parts))
  /\ zp_central parts = interval_of (z64_central_directory (zp_covering parts))
  /\ let c := zp_covering parts in
     adjacent 0 (z64_local_records c :: z64_central_directory c :: option_list (z64_eocd64 c)
       ++ option_list (z64_locator c) ++ [z64_eocd c; z64_comment c]) (Z.of_nat (length bs)).
Proof using Hrep.
  intros [Ht _] Ha He. unfold audit_zip64_archive in Ha. ok_steps Ha. simplify_eq.
  match goal with Hq : ok_or (archive_zip64_covering ir) _ = Ok ?c |- _ => apply ok_or_ok in Hq; specialize (Ht c Hq); rename c into cov end.
  apply Forall_cons in Ht as [[L1 L2] Ht]. apply Forall_cons in Ht as [[C1 C2] Ht].
  apply Forall_cons in Ht as [[E1 E2] Ht]. apply Forall_cons in Ht as [[M1 M2] Ht].
  repeat match goal with Hq : interval64 _ _ = Ok _ |- _ => apply interval64_Ok in Hq as ->; [|by split] end.
  unfold checked_range_end in *.
  repeat match goal with Hq : ok_or (u64_checked_add _ _) _ = Ok _ |- _ => apply ok_or_ok, u64_checked_add_Some in Hq as [-> _] end.
  rewrite (represents_len _ _ Hrep) in *. cbn [zp_covering zp_local zp_central interval_of start end_] in *.
  breflect. repeat match goal with Hq : bool_decide _ = true |- _ => apply bool_decide_eq_true_1 in Hq end.
  split_and!; try done.
  unfold audit_zip64_end in He. ok_steps He. cbn [zp_pair zp_covering] in He.
  destruct (z64_eocd64 cov) as [record|], (z64_locator cov) as [locator|]; try done; simplify_eq; simpl.
  - ok_steps He. match goal with Hq : audit_zip64_pair _ _ _ _ _ _ = _ |- _ => apply pair_sound in Hq as (? & ? & ? & ?) end.
    cbn [zp_covering] in *. split_and!; lia.
  - split_and!; lia.
Qed.

Lemma audit_zip64_sound ir :
  zip64_claims_typed ir -> audit_zip64_covering s ir = Ok () ->
  exists c es, zip64_covered bs (digest s) ir c es.
Proof using Hrep.
  intros Ht Hx. unfold audit_zip64_covering in Hx. ok_steps Hx. units.
  match goal with Ha : audit_zip64_archive _ _ = Ok _, He : audit_zip64_end _ _ _ = Ok _ |- _ =>
    destruct (parts_sound _ _ _ Ht Ha He) as (Hsd & Hc & Hl & Hcen & Hparts) end.
  match goal with Hq : audit_zip64_members _ _ _ _ _ = _ |- _ =>
    apply members_sound in Hq as (es & Hf & -> & ->); [|apply Ht] end.
  pose proof (z64t_covering _ Ht _ Hc) as Hty.
  apply Forall_cons in Hty as [[L1 L2] Hty]. apply Forall_cons in Hty as [[C1 C2] _].
  exists (zp_covering a), es. rewrite Hl, Hcen in *.
  assert (Hwf : Forall (fun e => wf (record_of (ranges_of e)) /\ wf (interval_of (central_header (ranges_of e)))) es).
  { apply Forall_forall. intros e [k Hk]%list_elem_of_lookup.
    destruct (Forall2_lookup_r _ _ _ _ _ Hf Hk) as (m & _ & _ & [[Hlaid _ Hcl _ _] _ _ _ _ _]).
    unfold ranges_of, wf. cbn [interval_of start end_]. split; [by apply adjacent_le in Hlaid|lia]. }
  split; try done.
  - match goal with Hq : map_err _ (validate_ordered_partition _ (sort_by_key start (map (fun e => record_of _) _)) ?x ?y ?z) = Ok _ |- _ =>
      apply (validate_sorted_partition_iff _ _ x y z) end.
    + unfold wf. cbn [interval_of start end_]. lia.
    + apply Forall_map. eapply Forall_impl; [exact Hwf|]. by intros e [? _].
    + match goal with |- ?v = _ => destruct v as [[]|]; done end.
  - match goal with Hq : map_err _ (validate_ordered_partition _ _ ?x ?y ?z) = Ok () |- _ =>
      apply (validate_sorted_partition_iff _ _ x y z) end.
    + unfold wf. cbn [interval_of start end_]. lia.
    + apply Forall_map. eapply Forall_impl; [exact Hwf|]. by intros e [_ ?].
    + match goal with |- ?v = _ => destruct v as [[]|]; done end.
Qed.
End Sound.

Lemma says_zip64_typed `{!Allocator} (s : SourceSnapshot) bs max_files max_metadata a ir :
  represents s bs -> parse_zip64_strict_ascii_v1 s max_files max_metadata = Some (Ok a) -> says_zip64 s ir a ->
  zip64_claims_typed ir.
Proof.
  intros Hrep Hp [_ Hc Hms]. pose proof (parse_zip64_placed s bs _ _ _ Hrep Hp) as [Ho _ _ Hd He].
  apply (parse_zip64_read s bs Hrep) in Hp as (e & metadata & _ & _ & Hread & _).
  apply adjacent_le in Hd. split.
  - unfold archive_zip64_covering. rewrite Hc. intros c [= <-]. unfold end_records_placed in He. cbn [zip64_covering from_parsed z64_local_records z64_central_directory z64_eocd64 z64_locator z64_eocd z64_comment].
    unfold range_nonneg. destruct (za_zip64_eocd a), (za_zip64_locator a); simpl in He;
      repeat constructor; simpl; lia.
  - apply Forall_forall. intros m [i Hi]%list_elem_of_lookup ev Hev.
    destruct (Forall2_lookup_l _ _ _ _ _ Hms Hi) as (z & Hz & components & actions & Hm).
    rewrite Forall_forall in Hread. apply list_elem_of_lookup_2 in Hz.
    destruct (Hread z Hz) as (at_ & h & v & local & shape & cz & lz & rend & Hr & ->).
    rewrite from_zip64_planned_built in Hm. injection Hm as <-. injection Hev as <-.
    pose proof (record_end_bounds _ _ _ _ _ _ _ _ _ _ Hr) as [B1 B2].
    pose proof (central_extra_header _ _ _ _ _ _ _ _ _ _ Hr) as Hx.
    destruct (er_central _ _ _ _ _ _ _ _ _ _ Hr), (er_local _ _ _ _ _ _ _ _ _ _ Hr).
    split; [split|]; unfold range_nonneg; claims64; unfold c64_end; try lia.
    + unfold descriptor_range64. intros d Hd'. destruct (uses_descriptor _); [|done]. injection Hd' as <-. simpl. lia.
    + intros r Hr'. destruct cz as [x|]; [|done]. injection Hr' as <-. destruct (Hx x eq_refl) as (? & _). simpl. lia.
Qed.

(** C18: On a snapshot that returns its bytes, the ZIP64 audit accepts only
    representations that are true of them - end records and covering partition
    the bytes, every member's fixed fields, name, sizes, offset and descriptor
    are what the headers say, its claimed values a reading of its ZIP64 field -
    and it accepts every representation of an archive the ZIP64 reader
    accepts. *)
Theorem audit_zip64_agrees `{!Allocator} (s : SourceSnapshot) bs ir :
  reliable s bs -> (forall site n, try_reserve site n = true) -> zip64_claims_typed ir ->
  (audit_zip64_covering s ir = Ok () -> exists c es, zip64_covered bs (digest s) ir c es)
  /\ forall max_files max_metadata a,
       parse_zip64_strict_ascii_v1 s max_files max_metadata = Some (Ok a) -> says_zip64 s ir a ->
       audit_zip64_covering s ir = Ok ().
Proof.
  intros Hrel Hres Ht. pose proof (reliable_represents _ _ Hrel) as Hrep.
  split; [by apply audit_zip64_sound|]. intros mf mm a. by apply audit_zip64_passes with (bs := bs).
Qed.

(** A representation whose members are all planned from what the reader read. *)
Lemma omap_all {A B} (f : A -> option B) l :
  length (omap f l) = length l -> Forall2 (fun b a => f a = Some b) (omap f l) l.
Proof.
  assert (Hle : forall l, (length (omap f l) <= length l)%nat).
  { clear. induction l as [|x l IH]; [done|]. cbn [omap list_omap]. unfold omap in *. destruct (f x); simpl; lia. }
  induction l as [|x l IH]; [constructor|]. pose proof (Hle l). cbn [omap list_omap]. unfold omap in *.
  destruct (f x) eqn:E; simpl in *; [|lia]. intros Hl. constructor; [done|]. apply IH. lia.
Qed.

Lemma says_zip64_planned (s : SourceSnapshot) ir a :
  source_digest ir = digest s -> evidence ir = ArZip64 (zip64_covering a) ->
  members ir = omap (fun z => from_zip64_planned z [zm_name z] []) (za_members a) ->
  length (members ir) = length (za_members a) -> says_zip64 s ir a.
Proof.
  intros Hs Hc Hm Hl. split; [done|done|]. rewrite Hm in *. eapply Forall2_impl; [by apply omap_all|].
  intros m z Hz. exists [zm_name z], []. exact Hz.
Qed.

(** The one-member archive: its representation passes, and what it claims is
    true of the bytes. *)
Definition example_zip64_source : SourceSnapshot := @borrowed null_sha256 None example_zip64.
Definition example_zip64_ir (a : ZipArchive) (ms : list IrMember) : ArchiveIR :=
  {| schema := ""; profile := ""; profile_digest := []; source_digest := digest example_zip64_source;
     evidence := ArZip64 (zip64_covering a); members := ms |}.

Lemma audit_zip64_agrees_witness :
  match @parse_zip64_strict_ascii_v1 _ SourceSnapshot_source always_reserves example_zip64_source 1 200 with
  | Some (Ok a) =>
      let ir := example_zip64_ir a (omap (fun z => from_zip64_planned z [zm_name z] []) (za_members a)) in
      length (members ir) = 1%nat /\ @audit_zip64_covering always_reserves example_zip64_source ir = Ok ()
      /\ exists c es, zip64_covered example_zip64 (digest example_zip64_source) ir c es
  | _ => False
  end.
Proof.
  assert (Hrel : reliable example_zip64_source example_zip64)
    by (apply borrowed_reliable; vm_compute; discriminate).
  destruct (parse_zip64_strict_ascii_v1 _ _ _) as [[a|f]|] eqn:E; [|exfalso; vm_compute in E; discriminate..].
  set (ir := example_zip64_ir a _). cbv zeta.
  assert (Hlen : length (members ir) = 1%nat /\ length (za_members a) = 1%nat)
    by (subst ir; vm_compute in E; by injection E as <-).
  destruct Hlen as [H1 H2].
  assert (Hsay : says_zip64 example_zip64_source ir a)
    by (apply says_zip64_planned; [reflexivity|reflexivity|reflexivity|by rewrite H1, H2]).
  clearbody ir.
  pose proof (says_zip64_typed _ _ _ _ _ _ (reliable_represents _ _ Hrel) E Hsay) as Ht.
  destruct (@audit_zip64_agrees always_reserves example_zip64_source example_zip64 ir Hrel (fun _ _ => eq_refl) Ht) as [Hsound Hcomplete].
  pose proof (Hcomplete 1 200 a E Hsay) as Hok. split_and!; [done|exact Hok|by apply Hsound].
Defined.
