(* ===== verification/CoveringPax.v ===== *)
(** * The PAX covering audit ([covering.rs])

    The audit walks the claimed extensions and members in source order, parses
    every extension payload again with its own record reader, replays the
    global and local overrides, and compares what each member claims. *)

From S2P Require Import Prelude Utf8 Findings Snapshot Ir TarFields Tar TarPax Evidence Covering AuditHeaders.
Local Open Scope Z_scope.
Local Open Scope rust_scope.

Definition PAX_BLOCK_LEN : Z := 512.
Definition PAX_MAX_EXTENSION_BYTES : Z := 64 * 1024.
Definition PAX_MAX_EXTENSIONS : Z := 1024.
Definition PAX_MAX_RECORD_LENGTH_DIGITS : Z := 20.
Definition PAX_MAX_KEYWORD_BYTES : Z := 16.
Definition PAX_MAX_EFFECTIVE_PATH_BYTES : Z := 8191.

#[export] Instance PaxValueSource_eq_dec : EqDecision PaxValueSource.
Proof. solve_decision. Defined.

(** ** Overrides *)

Record PaxAuditOverrides : Type := { ov_path : option PaxValueSource; ov_size : option PaxValueSource }.
(** [Default]. *)
Definition no_overrides : PaxAuditOverrides := {| ov_path := None; ov_size := None |}.

(** The loop of [from_extension]. *)
Fixpoint overrides_from (kind : PaxExtensionKind) (extension_index record_index : Z)
    (records : list PaxRecordEvidence) (state : PaxAuditOverrides) : result PaxAuditOverrides Finding :=
  match records with
  | [] => Ok state
  | record :: records =>
      reject u32_max <? record_index with fail "PAX record index does not fit u32" ;;
      let source := match kind with
                    | Global => FromGlobal extension_index record_index
                    | Local => FromLocal extension_index record_index
                    end in
      let state := match re_keyword record with
                   | Path => {| ov_path := Some source; ov_size := ov_size state |}
                   | Size => {| ov_path := ov_path state; ov_size := Some source |}
                   end in
      overrides_from kind extension_index (record_index + 1) records state
  end.
(** [PaxAuditOverrides::from_extension]. *)
Definition from_extension (extension : PaxExtensionEvidence) (extension_index : Z) :
    result PaxAuditOverrides Finding :=
  reject u32_max <? extension_index with fail "PAX extension index does not fit u32" ;;
  overrides_from (xe_kind extension) extension_index 0 (xe_records extension) no_overrides.
(** [PaxAuditOverrides::update_from]. *)
Definition update_from (self update : PaxAuditOverrides) : PaxAuditOverrides :=
  {| ov_path := match ov_path update with Some p => Some p | None => ov_path self end;
     ov_size := match ov_size update with Some s => Some s | None => ov_size self end |}.

(** [pax_source_record]. *)
Definition pax_source_record (extensions : list PaxExtensionEvidence) (source : PaxValueSource)
    (keyword : PaxKeyword) : option PaxRecordEvidence :=
  let lookup extension_index record_index expected_kind :=
    extension ← extensions !! Z.to_nat extension_index;
    if negb (bool_decide (xe_kind extension = expected_kind)) then None
    else
      record ← xe_records extension !! Z.to_nat record_index;
      if bool_decide (re_keyword record = keyword) then Some record else None in
  match source with
  | FromUstar => None
  | FromGlobal extension_index record_index => lookup extension_index record_index Global
  | FromLocal extension_index record_index => lookup extension_index record_index Local
  end.

(** ** Records *)

(** A cursor in the payload, the record index, and the keywords seen. *)
Record PaxRecordAudit : Type := { ra_cursor : Z; ra_index : nat; ra_saw_path : bool; ra_saw_size : bool }.

(** Strict text of a path value. *)
Definition pax_path_text (value : list byte) : bool :=
  negb (length value =? 0)%nat && (Z.of_nat (length value) <=? PAX_MAX_EFFECTIVE_PATH_BYTES)
  && negb (existsb is_zero_byte value) && negb (bool_decide (from_utf8 value = None)).

(** The [match] on the keyword: which one, and what it requires of the value. *)
Definition audit_pax_keyword (st : PaxRecordAudit) (evidence : PaxRecordEvidence)
    (keyword_bytes value : list byte) : result (PaxKeyword * (bool * bool)) Finding :=
  if bytes_eqb keyword_bytes (lit "path") then
    if ra_saw_path st then Err (fail "PAX extension repeats a keyword")
    else
      reject negb (pax_path_text value) with fail "PAX path value is outside the closed profile" ;;
      reject bool_decide (is_Some (re_parsed_size evidence))
        with fail "PAX path record carries parsed size evidence" ;;
      Ok (Path, (true, ra_saw_size st))
  else if bytes_eqb keyword_bytes (lit "size") then
    if ra_saw_size st then Err (fail "PAX extension repeats a keyword")
    else
      reject (length value =? 0)%nat || (PAX_MAX_RECORD_LENGTH_DIGITS <? Z.of_nat (length value))
             || negb (forallb is_ascii_digit value)
             || ((1 <? Z.of_nat (length value)) && bool_decide (head value = Some "0"%byte))
        with fail "PAX size value is not canonical unsigned decimal" ;;
      let? parsed := ok_or (parse_pax_decimal value) (fail "PAX size value overflowed u64") in
      reject negb (bool_decide (re_parsed_size evidence = Some parsed))
        with fail "PAX parsed size evidence disagrees with its raw value" ;;
      Ok (Size, (ra_saw_path st, true))
  else Err (fail "PAX record keyword is outside the closed profile").

(** The canonical length and its delimiter: the length, and where the body
    starts. *)
Definition audit_pax_length (payload : list byte) (record_start : Z) : result (Z * Z) Finding :=
  let rest := drop (Z.to_nat record_start) payload in
  let digits := Z.of_nat (digit_prefix rest) in
  reject PAX_MAX_RECORD_LENGTH_DIGITS <? digits with fail "PAX record length exceeds the closed digit cap" ;;
  let cursor := record_start + digits in
  reject (digits =? 0) || negb (bool_decide (rest !! Z.to_nat digits = Some " "%byte))
    with fail "PAX record lacks its canonical length delimiter" ;;
  let length_digits := take (Z.to_nat digits) rest in
  reject (1 <? digits) && bool_decide (head length_digits = Some "0"%byte)
    with fail "PAX record length has a leading zero" ;;
  let? record_len := ok_or (parse_pax_decimal length_digits) (fail "PAX record length overflowed u64") in
  Ok (record_len, cursor + 1).

(** One iteration of the loop of [audit_pax_records]. *)
Definition pax_record_step (payload : list byte) (payload_offset : Z) (records : list PaxRecordEvidence)
    (st : PaxRecordAudit) : exec (control PaxRecordAudit nat) Finding :=
  let payload_len := Z.of_nat (length payload) in
  if negb (ra_cursor st <? payload_len) then Some (Ok (Return (ra_index st)))
  else
    let* evidence := ok_or (records !! ra_index st)
      (fail "PAX payload contains more records than its evidence") in
    let record_start := ra_cursor st in
    let* (record_len, cursor) := audit_pax_length payload record_start in
    let* record_end := ok_or (u64_checked_add record_start record_len) (fail "PAX record end overflowed usize") in
    reject! (record_len =? 0) || (payload_len <? record_end)
            || negb (bool_decide (payload !! Z.to_nat (record_end - 1) = Some x0a))
      with fail "PAX record length or terminator is inconsistent" ;;
    reject! record_end - 1 <=? cursor with fail "PAX record has an empty key/value body" ;;
    let body := range cursor (record_end - 1 - cursor) payload in
    let* equals := ok_or (position (fun b => bool_decide (b = "="%byte)) body)
      (fail "PAX record lacks its keyword delimiter") in
    reject! (equals =? 0)%nat || (PAX_MAX_KEYWORD_BYTES <? Z.of_nat equals)
      with fail "PAX record keyword is outside the closed profile" ;;
    let keyword_bytes := take equals body in
    let value := drop (equals + 1) body in
    let value_start := cursor + (Z.of_nat equals + 1) in
    let* (keyword, saw) := audit_pax_keyword st evidence keyword_bytes value in
    let* absolute_record := ok_or (u64_checked_add payload_offset record_start)
      (fail "PAX absolute record offset overflowed u64") in
    let* absolute_value := ok_or (u64_checked_add payload_offset value_start)
      (fail "PAX absolute value offset overflowed u64") in
    reject! negb (bool_decide (re_record evidence = mkrange absolute_record record_len))
            || negb (bool_decide (re_value evidence = mkrange absolute_value (Z.of_nat (length value))))
            || negb (bool_decide (re_keyword evidence = keyword))
            || negb (bytes_eqb (re_raw_value_bytes evidence) value)
      with fail "PAX record evidence disagrees with exact source bytes" ;;
    Some (Ok (Continue {| ra_cursor := record_end; ra_index := S (ra_index st);
                          ra_saw_path := saw.1; ra_saw_size := saw.2 |})).

(** [audit_pax_records]; a keyword seen twice is refused, so the loop runs at
    most three times. *)
Definition audit_pax_records (payload : list byte) (payload_offset : Z) (records : list PaxRecordEvidence) :
    exec unit Finding :=
  reject! (length records =? 0)%nat || (2 <? length records)%nat
    with fail "PAX extension does not contain exactly one or two records" ;;
  let! index := run_loop (pax_record_step payload payload_offset records) 4
    {| ra_cursor := 0; ra_index := 0; ra_saw_path := false; ra_saw_size := false |} in
  reject! negb (index =? length records)%nat
    with fail "PAX record evidence does not exactly consume the payload" ;;
  Some (Ok ()).

Section Audit.
Context `{!Sha256, !Allocator}.

(** ** One extension, one member *)

(** [audit_one_pax_extension]: where the next record starts. *)
Definition audit_one_pax_extension (snapshot : SourceSnapshot) (extension : PaxExtensionEvidence)
    (expected_header covering_end : Z) : exec Z Finding :=
  let* header_end := checked_range_end (xe_header extension) "PAX extension header overflow" in
  let* payload_end := checked_range_end (xe_payload extension) "PAX extension payload overflow" in
  let* padding_end := checked_range_end (xe_padding extension) "PAX extension padding overflow" in
  let expected_padding := (PAX_BLOCK_LEN - len (xe_payload extension) mod PAX_BLOCK_LEN) mod PAX_BLOCK_LEN in
  reject! negb (offset (xe_header extension) =? expected_header)
          || negb (len (xe_header extension) =? PAX_BLOCK_LEN)
          || negb (offset (xe_payload extension) =? header_end)
          || (PAX_MAX_EXTENSION_BYTES <? len (xe_payload extension))
          || negb (offset (xe_padding extension) =? payload_end)
          || negb (len (xe_padding extension) =? expected_padding)
          || negb (padding_end mod PAX_BLOCK_LEN =? 0)
          || (covering_end <? padding_end)
    with fail "PAX extension ranges do not form one aligned record" ;;
  let* header := map_err (fun _ => fail "claimed PAX extension header is outside the snapshot")
    (src_read snapshot (offset (xe_header extension)) PAX_BLOCK_LEN) in
  let* facts := audit_pax_header header in
  let expected_typeflag := match xe_kind extension with Global => "g"%byte | Local => "x"%byte end in
  reject! negb (bool_decide (pf_typeflag facts = expected_typeflag))
          || negb (pf_size facts =? len (xe_payload extension))
          || negb (pf_mode facts =? xe_mode extension)
          || negb (pf_mtime facts =? xe_mtime extension)
          || negb (pf_checksum facts =? xe_header_checksum extension)
          || negb (pax_header_name_matches header (xe_raw_name_bytes extension))
          || negb (bytes_eqb (hex_sha256 header) (xe_header_sha256 extension))
    with fail "PAX extension header evidence disagrees with the snapshot" ;;
  let* payload := map_err (fun _ => fail "claimed PAX extension payload is outside the snapshot")
    (read_vec snapshot (offset (xe_payload extension)) (len (xe_payload extension))) in
  reject! negb (bytes_eqb (hex_sha256 payload) (xe_payload_sha256 extension))
    with fail "PAX extension payload digest disagrees with the snapshot" ;;
  let! _ := audit_pax_records payload (offset (xe_payload extension)) (xe_records extension) in
  let! _ := audit_zero_range snapshot (xe_padding extension)
    "claimed PAX extension padding contains nonzero bytes" in
  Some (Ok padding_end).

(** The effective name and size by the replayed sources. *)
Definition effective_name (extensions : list PaxExtensionEvidence) (evidence : TarPaxMemberEvidence)
    (member : str) (source : PaxValueSource) : result (list byte) Finding :=
  match source with
  | FromUstar => Ok (pe_base_name_bytes evidence)
  | _ =>
      let? record := ok_or (pax_source_record extensions source Path)
        (on (fail "PAX path source does not reference its replayed record") member) in
      Ok (re_raw_value_bytes record)
  end.
Definition effective_size (extensions : list PaxExtensionEvidence) (evidence : TarPaxMemberEvidence)
    (member : str) (source : PaxValueSource) : result Z Finding :=
  match source with
  | FromUstar => Ok (pe_base_size evidence)
  | _ =>
      ok_or (pax_source_record extensions source Size ≫= re_parsed_size)
        (on (fail "PAX size source does not reference its replayed record") member)
  end.
Definition override (get : PaxAuditOverrides -> option PaxValueSource) (globals : PaxAuditOverrides)
    (local : option PaxAuditOverrides) : PaxValueSource :=
  match local ≫= get with
  | Some source => source
  | None => default FromUstar (get globals)
  end.

(** [audit_one_pax_member]: where the next record starts. *)
Definition audit_one_pax_member (snapshot : SourceSnapshot) (member : IrMember)
    (extensions : list PaxExtensionEvidence) (globals : PaxAuditOverrides)
    (local : option PaxAuditOverrides) (expected_header covering_end : Z) : exec Z Finding :=
  let fail detail := on (fail detail) (decoded_name member) in
  reject! negb (bool_decide (member_format member ∈ [FormatTarPax; FormatTarGzipPax]))
    with fail "PAX member evidence variant does not match the archive format" ;;
  let* evidence := ok_or (tar_pax_evidence member) (fail "PAX member lacks PAX-specific evidence") in
  let tar := pe_tar evidence in
  let* header_end := checked_range_end (te_header tar) "PAX member header overflow" in
  let* payload_end := checked_range_end (te_payload tar) "PAX member payload overflow" in
  let* padding_end := checked_range_end (te_padding tar) "PAX member padding overflow" in
  let expected_padding := (PAX_BLOCK_LEN - len (te_payload tar) mod PAX_BLOCK_LEN) mod PAX_BLOCK_LEN in
  reject! negb (offset (te_header tar) =? expected_header)
          || negb (len (te_header tar) =? PAX_BLOCK_LEN)
          || negb (offset (te_payload tar) =? header_end)
          || negb (len (te_payload tar) =? declared_uncomp_size member)
          || negb (offset (te_padding tar) =? payload_end)
          || negb (len (te_padding tar) =? expected_padding)
          || negb (padding_end mod PAX_BLOCK_LEN =? 0)
          || (covering_end <? padding_end)
    with fail "PAX member ranges do not form one aligned record" ;;
  let* header := map_err (fun _ => fail "claimed PAX member header is outside the snapshot")
    (src_read snapshot (offset (te_header tar)) PAX_BLOCK_LEN) in
  let* facts := map_err (fun finding => on finding (decoded_name member)) (audit_pax_header header) in
  let source_is_directory := bool_decide (pf_typeflag facts = "5"%byte) in
  reject! negb (bool_decide (pf_typeflag facts ∈ [x00; "0"; "5"]%byte))
          || negb (eqb source_is_directory (bool_decide (ir_kind member = KindDirectory)))
          || (source_is_directory && negb (declared_uncomp_size member =? 0))
          || negb (pf_size facts =? pe_base_size evidence)
          || negb (pf_mode facts =? te_mode tar)
          || negb (pf_mtime facts =? te_mtime tar)
          || negb (pf_checksum facts =? te_header_checksum tar)
          || negb (pax_header_name_matches header (pe_base_name_bytes evidence))
          || negb (bytes_eqb (hex_sha256 header) (te_header_sha256 tar))
    with fail "PAX member header evidence disagrees with the snapshot" ;;
  let expected_path_source := override ov_path globals local in
  let expected_size_source := override ov_size globals local in
  reject! negb (bool_decide (pe_path_source evidence = expected_path_source))
          || negb (bool_decide (pe_size_source evidence = expected_size_source))
    with fail "PAX member override source evidence disagrees with replayed state" ;;
  let* effective_name := effective_name extensions evidence (decoded_name member) expected_path_source in
  let* effective_size := effective_size extensions evidence (decoded_name member) expected_size_source in
  reject! negb (pax_path_text effective_name)
          || negb (bytes_eqb (ir_raw_name_bytes member) effective_name)
          || negb (bytes_eqb (decoded_name member) effective_name)
          || negb (declared_uncomp_size member =? effective_size)
    with fail "PAX member effective name or size disagrees with replayed state" ;;
  let! _ := exec_map_err (fun finding => on finding (decoded_name member))
    (audit_zero_range snapshot (te_padding tar) "claimed PAX member padding contains nonzero bytes") in
  Some (Ok padding_end).

(** ** The replay *)

Record PaxAudit : Type := {
  pu_cursor : Z; pu_extension_index : nat; pu_member_index : nat;
  pu_globals : PaxAuditOverrides; pu_pending_local : option PaxAuditOverrides
}.

(** One iteration of the loop of [audit_tar_pax_covering]. *)
Definition pax_audit_step (snapshot : SourceSnapshot) (extensions : list PaxExtensionEvidence)
    (members : list IrMember) (member_end : Z) (st : PaxAudit) : exec (control PaxAudit PaxAudit) Finding :=
  if negb (pu_cursor st <? member_end) then Some (Ok (Return st))
  else
    let next_extension := extensions !! pu_extension_index st in
    let next_member := members !! pu_member_index st in
    let extension_here :=
      from_option (fun value => offset (xe_header value) =? pu_cursor st) false next_extension in
    let member_here :=
      from_option (fun value =>
        from_option (fun evidence => offset (te_header (pe_tar evidence)) =? pu_cursor st) false
          (tar_pax_evidence value)) false next_member in
    match extension_here, member_here, next_extension, next_member with
    | true, false, Some extension, _ =>
        reject! bool_decide (is_Some (pu_pending_local st))
          with fail "local PAX extension is not followed immediately by a member" ;;
        let! cursor := audit_one_pax_extension snapshot extension (pu_cursor st) member_end in
        let* update := from_extension extension (Z.of_nat (pu_extension_index st)) in
        Some (Ok (Continue
          {| pu_cursor := cursor; pu_extension_index := S (pu_extension_index st);
             pu_member_index := pu_member_index st;
             pu_globals := match xe_kind extension with
                           | Global => update_from (pu_globals st) update
                           | Local => pu_globals st
                           end;
             pu_pending_local := match xe_kind extension with
                                 | Global => pu_pending_local st
                                 | Local => Some update
                                 end |}))
    | false, true, _, Some member =>
        let! cursor := audit_one_pax_member snapshot member extensions (pu_globals st)
          (pu_pending_local st) (pu_cursor st) member_end in
        Some (Ok (Continue
          {| pu_cursor := cursor; pu_extension_index := pu_extension_index st;
             pu_member_index := S (pu_member_index st); pu_globals := pu_globals st;
             pu_pending_local := None |}))
    | true, true, _, _ => Some (Err (fail "PAX extension and member evidence claim the same header block"))
    | _, _, _, _ =>
        Some (Err (fail "PAX extension and member records do not form a source-ordered partition"))
    end.

(** The two [match]es on the format. *)
Definition audit_pax_identity (snapshot : SourceSnapshot) (ir : ArchiveIR) : result unit Finding :=
  match format ir with
  | FormatTarPax =>
      reject negb (bool_decide (source_digest ir = digest snapshot))
        with fail "source digest does not match the PAX snapshot" ;;
      Ok ()
  | FormatTarGzipPax =>
      let? gzip := ok_or (gzip_evidence ir) (fail "gzip-wrapped PAX IR has no wrapper evidence") in
      reject negb (gz_derived_output_len gzip =? src_len snapshot)
             || negb (bool_decide (digest_sha256 (digest snapshot) = Some (gz_derived_output_sha256 gzip)))
        with fail "derived PAX identity does not match its snapshot" ;;
      Ok ()
  | _ => Err (fail "PAX covering audit received a non-PAX IR")
  end.

(** [audit_tar_pax_covering]; every iteration takes an extension or a member. *)
Definition audit_tar_pax_covering (snapshot : SourceSnapshot) (ir : ArchiveIR) : exec unit Finding :=
  let* _ := audit_pax_identity snapshot ir in
  let* archive := ok_or (archive_pax_evidence ir) (fail "PAX IR has no PAX archive evidence") in
  let extension_count := Z.of_nat (length (pa_extensions archive)) in
  reject! (PAX_MAX_EXTENSIONS <? extension_count) || (u32_max <? extension_count)
    with fail "PAX extension evidence exceeds the closed profile cap" ;;
  let covering := pa_tar archive in
  let* member_end := checked_range_end (tc_member_records covering) "PAX member-record covering overflow" in
  let* terminator_end := checked_range_end (tc_terminator covering) "PAX terminator overflow" in
  let* trailing_end := checked_range_end (tc_trailing_zeros covering) "PAX trailing-zero range overflow" in
  reject! negb (offset (tc_member_records covering) =? 0)
          || negb (offset (tc_terminator covering) =? member_end)
          || negb (len (tc_terminator covering) =? PAX_BLOCK_LEN * 2)
          || negb (offset (tc_trailing_zeros covering) =? terminator_end)
          || negb (trailing_end =? src_len snapshot)
          || negb (src_len snapshot mod PAX_BLOCK_LEN =? 0)
    with fail "PAX top-level ranges do not exactly partition the snapshot" ;;
  let! st := run_loop (pax_audit_step snapshot (pa_extensions archive) (members ir) member_end)
    (2 + length (pa_extensions archive) + length (members ir))
    {| pu_cursor := 0; pu_extension_index := 0; pu_member_index := 0; pu_globals := no_overrides;
       pu_pending_local := None |} in
  reject! negb (pu_cursor st =? member_end)
          || negb (pu_extension_index st =? length (pa_extensions archive))%nat
          || negb (pu_member_index st =? length (members ir))%nat
    with fail "PAX extension and member records do not fill their covering" ;;
  reject! bool_decide (is_Some (pu_pending_local st))
    with fail "local PAX extension has no following member" ;;
  let! _ := audit_zero_range snapshot (tc_terminator covering)
    "claimed PAX terminator contains nonzero bytes" in
  audit_zero_range snapshot (tc_trailing_zeros covering)
    "claimed PAX trailing record padding contains nonzero bytes".
End Audit.
