(* ===== verification/Policy.v ===== *)
(** * Policies ([policy.rs])

    The caller's policy, the twelve schema versions with the formats each may
    authorise, compilation into typed controls, and the document form that is
    validated before use.  Serialisation belongs to [serde_json] and is a
    parameter. *)

From S2P Require Import Prelude Utf8 Findings.
Local Open Scope Z_scope.
Local Open Scope string_scope.

(** ** Data *)

Record Policy : Type := {
  pol_schema : string;
  pol_id : string;
  formats : list string;
  pol_max_archive_bytes : Z;
  pol_max_derived_archive_bytes : option Z;
  pol_max_files : Z;
  pol_max_member_bytes : Z;
  pol_max_total_bytes : Z;
  pol_max_ratio : option Z;
  pol_max_path_depth : Z;
  pol_max_metadata_bytes : Z;
  max_dict_bytes : Z;
  symlinks : string;
  hardlinks : string;
  overwrite : string;
  setuid : string;
  nested_depth : Z;
  ambiguity : string;
  case_fold_collision : string;
  magic_vs_extension : string;
  encrypted : string;
  atomic : bool;
  pol_directory_sync : bool
}.

Inductive Durability : Type := FlushOnly | MemberSync | DirectorySync.

Definition from_member_sync (member_sync : bool) : Durability :=
  if member_sync then MemberSync else FlushOnly.
Definition durability_member_sync (d : Durability) : bool :=
  match d with FlushOnly => false | MemberSync | DirectorySync => true end.
Definition durability_directory_sync (d : Durability) : bool :=
  match d with DirectorySync => true | _ => false end.

Record ResourceBudget : Type := {
  max_archive_bytes : Z;
  max_derived_archive_bytes : Z;
  max_files : Z;
  max_member_bytes : Z;
  max_total_bytes : Z;
  max_ratio : option Z;
  max_path_depth : Z;
  max_metadata_bytes : Z
}.

Inductive TargetModel : Type := PortableV1.
Inductive ConsumerProfile : Type := GenericArchive.
Record EffectPolicy : Type := { member_sync : bool; directory_sync : bool }.

Record CompiledControls : Type := {
  budget : ResourceBudget;
  target : TargetModel;
  consumer : ConsumerProfile;
  effect : EffectPolicy
}.

(** ** Durability *)

Definition durability (p : Policy) : Durability :=
  if pol_directory_sync p then DirectorySync else from_member_sync (atomic p).

Definition set_durability (p : Policy) (d : Durability) : Policy :=
  {| pol_schema := pol_schema p; pol_id := pol_id p; formats := formats p;
     pol_max_archive_bytes := pol_max_archive_bytes p;
     pol_max_derived_archive_bytes := pol_max_derived_archive_bytes p;
     pol_max_files := pol_max_files p; pol_max_member_bytes := pol_max_member_bytes p;
     pol_max_total_bytes := pol_max_total_bytes p; pol_max_ratio := pol_max_ratio p;
     pol_max_path_depth := pol_max_path_depth p;
     pol_max_metadata_bytes := pol_max_metadata_bytes p; max_dict_bytes := max_dict_bytes p;
     symlinks := symlinks p; hardlinks := hardlinks p; overwrite := overwrite p;
     setuid := setuid p; nested_depth := nested_depth p; ambiguity := ambiguity p;
     case_fold_collision := case_fold_collision p; magic_vs_extension := magic_vs_extension p;
     encrypted := encrypted p;
     atomic := durability_member_sync d; pol_directory_sync := durability_directory_sync d |}.
Definition with_durability (p : Policy) (d : Durability) : Policy := set_durability p d.

(** ** The default policies *)

Definition POLICY_FORMAT_ZIP := "zip".
Definition POLICY_FORMAT_ZIP64 := "zip64".
Definition POLICY_FORMAT_TAR_USTAR := "tar-ustar".
Definition POLICY_FORMAT_TAR_GZIP_USTAR := "tar-gzip-ustar".
Definition POLICY_FORMAT_TAR_PAX := "tar-pax".
Definition POLICY_FORMAT_TAR_GNU_LONGNAME := "tar-gnu-longname".
Definition POLICY_FORMAT_TAR_GZIP_PAX := "tar-gzip-pax".
Definition POLICY_FORMAT_TAR_GZIP_GNU_LONGNAME := "tar-gzip-gnu-longname".
Definition POLICY_FORMAT_TAR_ZSTD_USTAR := "tar-zstd-ustar".
Definition POLICY_FORMAT_TAR_XZ_USTAR := "tar-xz-ustar".
Definition POLICY_FORMAT_TAR_BZIP2_USTAR := "tar-bzip2-ustar".
Definition POLICY_FORMAT_SEVENZ_COPY := "7z-copy".

Definition default_v1 : Policy :=
  {| pol_schema := "sealr.policy.v1"; pol_id := "sealr:policy/default/v1";
     formats := [POLICY_FORMAT_ZIP];
     pol_max_archive_bytes := 512 * 1024 * 1024;
     pol_max_derived_archive_bytes := None;
     pol_max_files := 10000;
     pol_max_member_bytes := 1024 * 1024 * 1024;
     pol_max_total_bytes := 5 * 1024 * 1024 * 1024;
     pol_max_ratio := Some 100;
     pol_max_path_depth := 32;
     pol_max_metadata_bytes := 4 * 1024 * 1024;
     max_dict_bytes := 64 * 1024 * 1024;
     symlinks := "deny"; hardlinks := "deny"; overwrite := "refuse"; setuid := "strip";
     nested_depth := 1; ambiguity := "deny"; case_fold_collision := "deny";
     magic_vs_extension := "deny"; encrypted := "deny";
     atomic := false; pol_directory_sync := false |}.

(** [Self { schema, id, formats, ..base }]. *)
Definition based_on (base : Policy) (schema id : string) (fs : list string) : Policy :=
  {| pol_schema := schema; pol_id := id; formats := fs;
     pol_max_archive_bytes := pol_max_archive_bytes base;
     pol_max_derived_archive_bytes := pol_max_derived_archive_bytes base;
     pol_max_files := pol_max_files base; pol_max_member_bytes := pol_max_member_bytes base;
     pol_max_total_bytes := pol_max_total_bytes base; pol_max_ratio := pol_max_ratio base;
     pol_max_path_depth := pol_max_path_depth base;
     pol_max_metadata_bytes := pol_max_metadata_bytes base; max_dict_bytes := max_dict_bytes base;
     symlinks := symlinks base; hardlinks := hardlinks base; overwrite := overwrite base;
     setuid := setuid base; nested_depth := nested_depth base; ambiguity := ambiguity base;
     case_fold_collision := case_fold_collision base;
     magic_vs_extension := magic_vs_extension base; encrypted := encrypted base;
     atomic := atomic base; pol_directory_sync := pol_directory_sync base |}.
Definition with_derived_cap (p : Policy) (cap : Z) : Policy :=
  {| pol_schema := pol_schema p; pol_id := pol_id p; formats := formats p;
     pol_max_archive_bytes := pol_max_archive_bytes p;
     pol_max_derived_archive_bytes := Some cap;
     pol_max_files := pol_max_files p; pol_max_member_bytes := pol_max_member_bytes p;
     pol_max_total_bytes := pol_max_total_bytes p; pol_max_ratio := pol_max_ratio p;
     pol_max_path_depth := pol_max_path_depth p;
     pol_max_metadata_bytes := pol_max_metadata_bytes p; max_dict_bytes := max_dict_bytes p;
     symlinks := symlinks p; hardlinks := hardlinks p; overwrite := overwrite p;
     setuid := setuid p; nested_depth := nested_depth p; ambiguity := ambiguity p;
     case_fold_collision := case_fold_collision p; magic_vs_extension := magic_vs_extension p;
     encrypted := encrypted p; atomic := atomic p; pol_directory_sync := pol_directory_sync p |}.

(** The canonical order of the formats each schema may authorise. *)
Definition v2_formats := [POLICY_FORMAT_ZIP; POLICY_FORMAT_TAR_USTAR].
Definition v3_formats := [POLICY_FORMAT_ZIP; POLICY_FORMAT_ZIP64; POLICY_FORMAT_TAR_USTAR].
Definition v4_formats := (v3_formats ++ [POLICY_FORMAT_TAR_GZIP_USTAR])%list.
Definition v5_formats := (v4_formats ++ [POLICY_FORMAT_TAR_PAX])%list.
Definition v6_formats := (v5_formats ++ [POLICY_FORMAT_TAR_GNU_LONGNAME])%list.
Definition v7_formats :=
  (v6_formats ++ [POLICY_FORMAT_TAR_GZIP_PAX; POLICY_FORMAT_TAR_GZIP_GNU_LONGNAME])%list.
Definition v8_formats := (v7_formats ++ [POLICY_FORMAT_TAR_ZSTD_USTAR])%list.
Definition v9_formats := (v8_formats ++ [POLICY_FORMAT_TAR_XZ_USTAR])%list.
Definition v10_formats := (v9_formats ++ [POLICY_FORMAT_TAR_BZIP2_USTAR])%list.
Definition v11_formats := (v10_formats ++ [POLICY_FORMAT_SEVENZ_COPY])%list.

Definition default_v2 := based_on default_v1 "sealr.policy.v2" "sealr:policy/default/v2" v2_formats.
Definition default_v3 := based_on default_v1 "sealr.policy.v3" "sealr:policy/default/v3" v3_formats.
Definition default_v4 := with_derived_cap
  (based_on default_v1 "sealr.policy.v4" "sealr:policy/default/v4" v4_formats) (512 * 1024 * 1024).
Definition default_v5 := based_on default_v4 "sealr.policy.v5" "sealr:policy/default/v5" v5_formats.
Definition default_v6 := based_on default_v5 "sealr.policy.v6" "sealr:policy/default/v6" v6_formats.
Definition default_v7 := based_on default_v6 "sealr.policy.v7" "sealr:policy/default/v7" v7_formats.
Definition default_v8 := based_on default_v7 "sealr.policy.v8" "sealr:policy/default/v8" v8_formats.
Definition default_v9 := based_on default_v8 "sealr.policy.v9" "sealr:policy/default/v9" v9_formats.
Definition default_v10 :=
  based_on default_v9 "sealr.policy.v10" "sealr:policy/default/v10" v10_formats.
Definition default_v11 :=
  based_on default_v10 "sealr.policy.v11" "sealr:policy/default/v11" v11_formats.
Definition default_v12 :=
  based_on default_v11 "sealr.policy.v12" "sealr:policy/default/v12" (formats default_v11).

(** ** Format lists *)

(** [iter().position(..)]. *)
Fixpoint index_of (f : string) (l : list string) : option nat :=
  match l with
  | [] => None
  | x :: l => if String.eqb x f then Some O else option_map S (index_of f l)
  end.

(** The loop of [valid_canonical_subset], over the formats not yet passed. *)
Fixpoint in_canonical_order (fs canonical : list string) : bool :=
  match fs with
  | [] => true
  | f :: fs =>
      match index_of f canonical with
      | None => false
      | Some relative_index => in_canonical_order fs (drop (relative_index + 1) canonical)
      end
  end.
Definition valid_canonical_subset (fs canonical : list string) : bool :=
  match fs with [] => false | _ => in_canonical_order fs canonical end.

Definition valid_v2_formats fs := valid_canonical_subset fs v2_formats.
Definition valid_v3_formats fs := valid_canonical_subset fs v3_formats.
Definition valid_v4_formats fs := valid_canonical_subset fs v4_formats.
Definition valid_v5_formats fs := valid_canonical_subset fs v5_formats.
Definition valid_v6_formats fs := valid_canonical_subset fs v6_formats.
Definition valid_v7_formats fs := valid_canonical_subset fs v7_formats.
Definition valid_v8_formats fs := valid_canonical_subset fs v8_formats.
Definition valid_v9_formats fs := valid_canonical_subset fs v9_formats.
Definition valid_v10_formats fs := valid_canonical_subset fs v10_formats.
Definition valid_v11_formats fs := valid_canonical_subset fs v11_formats.

Definition allows_format (p : Policy) (magic : string) : bool :=
  existsb (fun f => String.eqb f magic) (formats p).

(** ** Compilation *)

(** The [Debug] form of a string, and the policy's JSON. *)
Class PolicyText : Type := {
  fmt_debug : string -> string;
  policy_json : Policy -> list byte
}.

Definition unsupported (detail : string) : Finding := error PolicyUnsupported detail.

Section Compile.
Context `{!PolicyText}.

Fixpoint join_comma (parts : list string) : string :=
  match parts with
  | [] => ""
  | [part] => part
  | part :: parts => part +++ ", " +++ join_comma parts
  end.
Definition fmt_debug_list (l : list string) : string :=
  "[" +++ join_comma (map fmt_debug l) +++ "]".
(** A plain name between double quotes. *)
Definition quoted (name : string) : string :=
  let quote := String (ascii_of_nat 34) EmptyString in quote +++ name +++ quote.
Definition name_list (l : list string) : string := "[" +++ join_comma (map quoted l) +++ "]".

Definition not_canonical_subset (fs canonical : list string) : Finding :=
  unsupported ("formats " +++ fmt_debug_list fs +++ " are not a canonical nonempty subset of "
               +++ name_list canonical).

(** The formats a schema other than the first may authorise. *)
Definition schema_formats (schema : string) : option (list string) :=
  if schema =? "sealr.policy.v2" then Some v2_formats
  else if schema =? "sealr.policy.v3" then Some v3_formats
  else if schema =? "sealr.policy.v4" then Some v4_formats
  else if schema =? "sealr.policy.v5" then Some v5_formats
  else if schema =? "sealr.policy.v6" then Some v6_formats
  else if schema =? "sealr.policy.v7" then Some v7_formats
  else if schema =? "sealr.policy.v8" then Some v8_formats
  else if schema =? "sealr.policy.v9" then Some v9_formats
  else if schema =? "sealr.policy.v11" then Some v11_formats
  else if schema =? "sealr.policy.v12" then Some v11_formats
  else if schema =? "sealr.policy.v10" then Some v10_formats
  else None.

(** The first [match] of [compile]. *)
Definition compile_formats (p : Policy) : result unit Finding :=
  if pol_schema p =? "sealr.policy.v1" then
    reject negb (bool_decide (formats p = [POLICY_FORMAT_ZIP]))
      with unsupported ("formats " +++ fmt_debug_list (formats p)
        +++ " are unsupported by sealr.policy.v1; only " +++ name_list ["zip"]
        +++ " is implemented") ;;
    Ok ()
  else
    match schema_formats (pol_schema p) with
    | Some canonical =>
        reject negb (valid_canonical_subset (formats p) canonical)
          with not_canonical_subset (formats p) canonical ;;
        Ok ()
    | None => Err (unsupported ("policy schema " +++ pol_schema p +++ " is unsupported"))
    end.

Definition check_reserved (name actual supported : string) : result unit Finding :=
  if actual =? supported then Ok ()
  else Err (unsupported (name +++ "=" +++ fmt_debug actual +++ " is unsupported; only "
                         +++ fmt_debug supported +++ " is implemented")).

(** [matches!(schema, v2 | .. | v12)] and the same from version four. *)
Definition from_v2 (schema : string) : bool :=
  existsb (String.eqb schema) ["sealr.policy.v2"; "sealr.policy.v3"; "sealr.policy.v4";
    "sealr.policy.v5"; "sealr.policy.v6"; "sealr.policy.v7"; "sealr.policy.v8"; "sealr.policy.v9";
    "sealr.policy.v10"; "sealr.policy.v11"; "sealr.policy.v12"].
Definition from_v4 (schema : string) : bool :=
  existsb (String.eqb schema) ["sealr.policy.v4"; "sealr.policy.v5"; "sealr.policy.v6";
    "sealr.policy.v7"; "sealr.policy.v8"; "sealr.policy.v9"; "sealr.policy.v10";
    "sealr.policy.v11"; "sealr.policy.v12"].

Definition compile_derived_cap (p : Policy) : result unit Finding :=
  match from_v4 (pol_schema p), pol_max_derived_archive_bytes p with
  | true, Some _ => Ok ()
  | true, None => Err (unsupported (pol_schema p
      +++ " requires an explicit max_derived_archive_bytes cap"))
  | false, None => Ok ()
  | false, Some value => Err (unsupported ("max_derived_archive_bytes=" +++ fmt_dec value
      +++ " is only supported by sealr.policy.v4 through sealr.policy.v12"))
  end.

(** [Policy::compile]. *)
Definition compile (p : Policy) : result CompiledControls Finding :=
  let? _ := compile_formats p in
  let defaults := default_v1 in
  let? _ := check_reserved "symlinks" (symlinks p) (symlinks defaults) in
  let? _ := check_reserved "hardlinks" (hardlinks p) (hardlinks defaults) in
  let? _ := check_reserved "overwrite" (overwrite p) (overwrite defaults) in
  let? _ := check_reserved "setuid" (setuid p) (setuid defaults) in
  let? _ := check_reserved "ambiguity" (ambiguity p) (ambiguity defaults) in
  let? _ := check_reserved "case_fold_collision" (case_fold_collision p)
              (case_fold_collision defaults) in
  let? _ := check_reserved "magic_vs_extension" (magic_vs_extension p)
              (magic_vs_extension defaults) in
  let? _ := check_reserved "encrypted" (encrypted p) (encrypted defaults) in
  reject negb (nested_depth p =? nested_depth defaults)%Z
    with unsupported ("nested_depth=" +++ fmt_dec (nested_depth p) +++ " is unsupported; only "
                      +++ fmt_dec (nested_depth defaults) +++ " is implemented") ;;
  reject negb (max_dict_bytes p =? max_dict_bytes defaults)%Z
    with unsupported ("max_dict_bytes=" +++ fmt_dec (max_dict_bytes p)
                      +++ " is unsupported; only " +++ fmt_dec (max_dict_bytes defaults)
                      +++ " is implemented") ;;
  reject from_v2 (pol_schema p) && (u32_max <? pol_max_files p)%Z
    with unsupported ("max_files=" +++ fmt_dec (pol_max_files p)
                      +++ " exceeds the u32 identity-encoding limit") ;;
  let? _ := compile_derived_cap p in
  reject pol_directory_sync p && negb (pol_schema p =? "sealr.policy.v12")
    with unsupported "directory_sync is only supported by sealr.policy.v12" ;;
  reject pol_directory_sync p && negb (atomic p)
    with unsupported "directory_sync requires member file sync" ;;
  Ok {| budget :=
          {| max_archive_bytes := pol_max_archive_bytes p;
             max_derived_archive_bytes := default 0 (pol_max_derived_archive_bytes p);
             max_files := pol_max_files p;
             max_member_bytes := pol_max_member_bytes p;
             max_total_bytes := pol_max_total_bytes p;
             max_ratio := pol_max_ratio p;
             max_path_depth := pol_max_path_depth p;
             max_metadata_bytes := pol_max_metadata_bytes p |};
        target := PortableV1;
        consumer := GenericArchive;
        effect := {| member_sync := atomic p; directory_sync := pol_directory_sync p |} |}.

Definition compile_for_format (p : Policy) (format : string) : result CompiledControls Finding :=
  let? controls := compile p in
  if allows_format p format then Ok controls
  else Err (unsupported ("selected format " +++ fmt_debug format
         +++ " is not authorized by policy formats " +++ fmt_debug_list (formats p))).

(** ** Documents *)

Record PolicyDocument : Type := {
  doc_schema : string;
  doc_id : string;
  doc_formats : list string;
  doc_max_archive_bytes : Z;
  doc_max_derived_archive_bytes : option Z;
  doc_max_files : Z;
  doc_max_member_bytes : Z;
  doc_max_total_bytes : Z;
  doc_max_ratio : option Z;
  doc_max_path_depth : Z;
  doc_max_metadata_bytes : Z;
  doc_max_dict_bytes : Z;
  doc_symlinks : string;
  doc_hardlinks : string;
  doc_overwrite : string;
  doc_setuid : string;
  doc_nested_depth : Z;
  doc_ambiguity : string;
  doc_case_fold_collision : string;
  doc_magic_vs_extension : string;
  doc_encrypted : string;
  doc_atomic : bool;
  doc_directory_sync : option bool
}.

Definition document_durability (d : PolicyDocument) : Durability :=
  match doc_directory_sync d with
  | Some true => DirectorySync
  | _ => from_member_sync (doc_atomic d)
  end.

(** 2^53 - 1. *)
Definition MAX_DOUBLE_SAFE_INTEGER : Z := 9007199254740991.

Definition KNOWN_POLICY_SCHEMAS : list string :=
  ["sealr.policy.v1"; "sealr.policy.v2"; "sealr.policy.v3"; "sealr.policy.v4"; "sealr.policy.v5";
   "sealr.policy.v6"; "sealr.policy.v7"; "sealr.policy.v8"; "sealr.policy.v9"; "sealr.policy.v10";
   "sealr.policy.v11"; "sealr.policy.v12"].

Definition static_schema (schema : string) : result string Finding :=
  ok_or (head (filter (fun known => known = schema) KNOWN_POLICY_SCHEMAS))
    (unsupported ("policy schema " +++ fmt_debug schema +++ " is not a known version")).

Definition denied_fields : list string :=
  ["symlinks"; "hardlinks"; "ambiguity"; "case_fold_collision"; "magic_vs_extension"; "encrypted"].
Definition static_vocabulary (field value : string) : result string Finding :=
  let token :=
    if existsb (String.eqb field) denied_fields && (value =? "deny") then Some "deny"
    else if (field =? "overwrite") && (value =? "refuse") then Some "refuse"
    else if (field =? "setuid") && (value =? "strip") then Some "strip"
    else None in
  ok_or token (unsupported ("policy " +++ field +++ " value " +++ fmt_debug value
                            +++ " is outside the supported vocabulary")).

Record ValidatedPolicy : Type := { vp_policy : Policy; vp_digest : str }.

(** The capped fields, in the order [ValidatedPolicy::new] checks them. *)
Definition capped_fields (p : Policy) : list (string * option Z) :=
  [("max_archive_bytes", Some (pol_max_archive_bytes p));
   ("max_derived_archive_bytes", pol_max_derived_archive_bytes p);
   ("max_files", Some (pol_max_files p));
   ("max_member_bytes", Some (pol_max_member_bytes p));
   ("max_total_bytes", Some (pol_max_total_bytes p));
   ("max_ratio", pol_max_ratio p);
   ("max_metadata_bytes", Some (pol_max_metadata_bytes p));
   ("max_dict_bytes", Some (max_dict_bytes p))].
Fixpoint check_double_safe (fields : list (string * option Z)) : result unit Finding :=
  match fields with
  | [] => Ok ()
  | (field, value) :: fields =>
      match value with
      | Some value =>
          reject (MAX_DOUBLE_SAFE_INTEGER <? value)%Z
            with unsupported ("policy " +++ field +++ " value " +++ fmt_dec value
                              +++ " exceeds the 2^53-1 double-safe ceiling") ;;
          check_double_safe fields
      | None => check_double_safe fields
      end
  end.

Section Digest.
Context `{!Sha256}.

Definition digest_hex (p : Policy) : str := hex_sha256 (policy_json p).

(** [ValidatedPolicy::new]. *)
Definition new_validated (p : Policy) : result ValidatedPolicy Finding :=
  let? _ := compile p in
  let? _ := check_double_safe (capped_fields p) in
  Ok {| vp_policy := p; vp_digest := digest_hex p |}.

(** [PolicyDocument::validate]. *)
Definition validate (d : PolicyDocument) : result ValidatedPolicy Finding :=
  let? schema := static_schema (doc_schema d) in
  let? directory_sync :=
    match doc_directory_sync d with
    | Some value =>
        if schema =? "sealr.policy.v12" then Ok value
        else Err (unsupported "directory_sync is only supported by sealr.policy.v12")
    | None => Ok false
    end in
  let? symlinks := static_vocabulary "symlinks" (doc_symlinks d) in
  let? hardlinks := static_vocabulary "hardlinks" (doc_hardlinks d) in
  let? overwrite := static_vocabulary "overwrite" (doc_overwrite d) in
  let? setuid := static_vocabulary "setuid" (doc_setuid d) in
  let? ambiguity := static_vocabulary "ambiguity" (doc_ambiguity d) in
  let? case_fold_collision :=
    static_vocabulary "case_fold_collision" (doc_case_fold_collision d) in
  let? magic_vs_extension := static_vocabulary "magic_vs_extension" (doc_magic_vs_extension d) in
  let? encrypted := static_vocabulary "encrypted" (doc_encrypted d) in
  new_validated
    {| pol_schema := schema; pol_id := doc_id d; formats := doc_formats d;
       pol_max_archive_bytes := doc_max_archive_bytes d;
       pol_max_derived_archive_bytes := doc_max_derived_archive_bytes d;
       pol_max_files := doc_max_files d; pol_max_member_bytes := doc_max_member_bytes d;
       pol_max_total_bytes := doc_max_total_bytes d; pol_max_ratio := doc_max_ratio d;
       pol_max_path_depth := doc_max_path_depth d;
       pol_max_metadata_bytes := doc_max_metadata_bytes d; max_dict_bytes := doc_max_dict_bytes d;
       Policy.symlinks := symlinks; Policy.hardlinks := hardlinks; Policy.overwrite := overwrite;
       Policy.setuid := setuid; nested_depth := doc_nested_depth d; Policy.ambiguity := ambiguity;
       Policy.case_fold_collision := case_fold_collision;
       Policy.magic_vs_extension := magic_vs_extension; Policy.encrypted := encrypted;
       atomic := doc_atomic d; pol_directory_sync := directory_sync |}.

(** ** What a supported policy is *)

(** The document a policy would be read back from. *)
Definition document_of (p : Policy) : PolicyDocument :=
  {| doc_schema := pol_schema p; doc_id := pol_id p; doc_formats := formats p;
     doc_max_archive_bytes := pol_max_archive_bytes p;
     doc_max_derived_archive_bytes := pol_max_derived_archive_bytes p;
     doc_max_files := pol_max_files p; doc_max_member_bytes := pol_max_member_bytes p;
     doc_max_total_bytes := pol_max_total_bytes p; doc_max_ratio := pol_max_ratio p;
     doc_max_path_depth := pol_max_path_depth p;
     doc_max_metadata_bytes := pol_max_metadata_bytes p; doc_max_dict_bytes := max_dict_bytes p;
     doc_symlinks := symlinks p; doc_hardlinks := hardlinks p; doc_overwrite := overwrite p;
     doc_setuid := setuid p; doc_nested_depth := nested_depth p; doc_ambiguity := ambiguity p;
     doc_case_fold_collision := case_fold_collision p;
     doc_magic_vs_extension := magic_vs_extension p; doc_encrypted := encrypted p;
     doc_atomic := atomic p;
     doc_directory_sync := if pol_directory_sync p then Some true else None |}.
End Digest.
End Compile.

(** The canonical formats of each of the twelve schemas, and whether it has
    the [u32] member-count limit and the derived-archive cap. *)
Definition schemas : list (string * list string * bool * bool) :=
  [("sealr.policy.v1", [POLICY_FORMAT_ZIP], false, false);
   ("sealr.policy.v2", v2_formats, true, false); ("sealr.policy.v3", v3_formats, true, false);
   ("sealr.policy.v4", v4_formats, true, true); ("sealr.policy.v5", v5_formats, true, true);
   ("sealr.policy.v6", v6_formats, true, true); ("sealr.policy.v7", v7_formats, true, true);
   ("sealr.policy.v8", v8_formats, true, true); ("sealr.policy.v9", v9_formats, true, true);
   ("sealr.policy.v10", v10_formats, true, true); ("sealr.policy.v11", v11_formats, true, true);
   ("sealr.policy.v12", v11_formats, true, true)].

Record reserved_defaults (p : Policy) : Prop := {
  rd_symlinks : symlinks p = "deny"; rd_hardlinks : hardlinks p = "deny";
  rd_overwrite : overwrite p = "refuse"; rd_setuid : setuid p = "strip";
  rd_ambiguity : ambiguity p = "deny"; rd_case_fold : case_fold_collision p = "deny";
  rd_magic : magic_vs_extension p = "deny"; rd_encrypted : encrypted p = "deny";
  rd_nested : nested_depth p = 1; rd_dict : max_dict_bytes p = 67108864
}.

Record supported_policy (p : Policy) : Prop := {
  sp_schema : exists canonical counted capped,
    (pol_schema p, canonical, counted, capped) ∈ schemas /\
    formats p <> [] /\ formats p `sublist_of` canonical /\
    (counted = true -> pol_max_files p <= u32_max) /\
    (is_Some (pol_max_derived_archive_bytes p) <-> capped = true);
  sp_reserved : reserved_defaults p;
  sp_directory_sync : pol_directory_sync p = true ->
    pol_schema p = "sealr.policy.v12" /\ atomic p = true
}.

Definition controls_of (p : Policy) : CompiledControls :=
  {| budget :=
       {| max_archive_bytes := pol_max_archive_bytes p;
          max_derived_archive_bytes := default 0 (pol_max_derived_archive_bytes p);
          max_files := pol_max_files p; max_member_bytes := pol_max_member_bytes p;
          max_total_bytes := pol_max_total_bytes p; max_ratio := pol_max_ratio p;
          max_path_depth := pol_max_path_depth p;
          max_metadata_bytes := pol_max_metadata_bytes p |};
     target := PortableV1; consumer := GenericArchive;
     effect := {| member_sync := atomic p; directory_sync := pol_directory_sync p |} |}.

(** ** Lemmas *)

Lemma index_of_Some f l n :
  index_of f l = Some n -> exists before after, l = (before ++ f :: after)%list
    /\ length before = n /\ (f ∉ before).
Proof.
  revert n. induction l as [|x l IH]; intros n; simpl; [done|].
  destruct (String.eqb_spec x f) as [->|Hx].
  - intros [= <-]. exists [], l. split_and!; [done|done|by apply not_elem_of_nil].
  - destruct (index_of f l) as [k|]; [|done]. intros [= <-].
    destruct (IH _ eq_refl) as (b & a & -> & Hb & Hn). exists (x :: b), a. simpl.
    split_and!; [done|lia|]. apply not_elem_of_cons. split; [done|done].
Qed.

Lemma index_of_None f l : index_of f l = None -> f ∉ l.
Proof.
  induction l as [|x l IH]; simpl; intros Hn; [by apply not_elem_of_nil|].
  destruct (String.eqb_spec x f) as [->|]; [done|]. destruct (index_of f l); [done|].
  apply not_elem_of_cons. auto.
Qed.

Lemma drop_after {A} (before : list A) x after :
  drop (length before + 1) (before ++ x :: after) = after.
Proof. rewrite drop_app_ge by lia. by replace (length before + 1 - length before)%nat with 1%nat by lia. Qed.

(** Taking the first match is no restriction: the greedy loop recognises
    exactly the subsequences. *)
Lemma in_canonical_order_iff fs canonical :
  in_canonical_order fs canonical = true <-> fs `sublist_of` canonical.
Proof.
  revert canonical. induction fs as [|f fs IH]; intros canonical; simpl.
  - split; [intros _; apply sublist_nil_l|done].
  - destruct (index_of f canonical) as [n|] eqn:Hi.
    + apply index_of_Some in Hi as (b & a & -> & <- & Hb). rewrite drop_after, IH. split.
      * intros Hs. apply sublist_inserts_l. by apply sublist_skip.
      * clear IH. intros Hs. induction b as [|x b IHb]; simpl in Hs.
        -- apply sublist_cons_r in Hs as [Hs|(l' & E & Hs)]; simplify_eq; [|done].
           by etrans; [apply sublist_cons|].
        -- apply not_elem_of_cons in Hb as [Hx Hb]. apply IHb; [done|].
           apply sublist_cons_r in Hs as [Hs|(l' & E & Hs)]; [done|simplify_eq].
    + apply index_of_None in Hi. split; [done|]. intros Hs. exfalso. apply Hi.
      apply sublist_cons_l in Hs as (k1 & k2 & -> & _). apply elem_of_app. right. apply elem_of_cons. by left.
Qed.

Lemma valid_canonical_subset_iff fs canonical :
  valid_canonical_subset fs canonical = true <-> fs <> [] /\ fs `sublist_of` canonical.
Proof. destruct fs; simpl; [split; [done|by intros [? _]]|]. rewrite <- in_canonical_order_iff. simpl. split; [by split|by intros [_ ?]]. Qed.

Section CompileLemmas.
Context `{!PolicyText}.

Lemma check_reserved_ok name actual supported :
  check_reserved name actual supported = Ok () <-> actual = supported.
Proof. unfold check_reserved. by destruct (String.eqb_spec actual supported). Qed.

(** The three checks that depend on the schema, against its row. *)
Definition schema_checks (p : Policy) : Prop :=
  compile_formats p = Ok () /\ from_v2 (pol_schema p) && (u32_max <? pol_max_files p)%Z = false
  /\ compile_derived_cap p = Ok ().

Definition row_allows (p : Policy) (canonical : list string) (counted capped : bool) : Prop :=
  formats p <> [] /\ formats p `sublist_of` canonical /\
  (counted = true -> pol_max_files p <= u32_max) /\
  (is_Some (pol_max_derived_archive_bytes p) <-> capped = true).

Lemma derived_cap_ok p :
  compile_derived_cap p = Ok () <->
  (is_Some (pol_max_derived_archive_bytes p) <-> from_v4 (pol_schema p) = true).
Proof.
  unfold compile_derived_cap.
  destruct (from_v4 _), (pol_max_derived_archive_bytes p) as [cap|]; split; intros Hc; try done.
  - by destruct (proj2 Hc eq_refl) as [? ?].
  - discriminate (proj1 Hc (mk_is_Some _ _ eq_refl)).
Qed.

Lemma counted_ok (b : bool) n : b && (u32_max <? n)%Z = false <-> (b = true -> n <= u32_max).
Proof. destruct b; simpl; [rewrite Z.ltb_ge; split; auto|done]. Qed.

Lemma zip_only_iff (fs : list string) :
  fs = [POLICY_FORMAT_ZIP] <-> fs <> [] /\ fs `sublist_of` [POLICY_FORMAT_ZIP].
Proof.
  rewrite <- valid_canonical_subset_iff. split; [intros ->; reflexivity|].
  destruct fs as [|f [|g fs]]; unfold valid_canonical_subset; cbn [in_canonical_order index_of].
  - done.
  - destruct (String.eqb_spec POLICY_FORMAT_ZIP f); simpl; naive_solver.
  - destruct (String.eqb_spec POLICY_FORMAT_ZIP f); simpl; naive_solver.
Qed.

Lemma formats_ok p canonical :
  (pol_schema p, canonical) ∈ map (fun row => (row.1.1.1, row.1.1.2)) schemas ->
  compile_formats p = Ok () <-> formats p <> [] /\ formats p `sublist_of` canonical.
Proof.
  intros Hrow. rewrite <- valid_canonical_subset_iff. unfold compile_formats.
  cbn [map schemas fst snd] in Hrow.
  repeat (apply elem_of_cons in Hrow as [Hrow|Hrow];
    [injection Hrow as -> ->; cbn [schema_formats String.eqb Ascii.eqb Bool.eqb andb];
     try (by destruct (valid_canonical_subset _ _))|]).
  - rewrite valid_canonical_subset_iff, <- zip_only_iff. by case_bool_decide.
  - by apply not_elem_of_nil in Hrow.
Qed.

Lemma row_flags p canonical counted capped :
  (pol_schema p, canonical, counted, capped) ∈ schemas ->
  from_v2 (pol_schema p) = counted /\ from_v4 (pol_schema p) = capped
  /\ (pol_schema p, canonical) ∈ map (fun row => (row.1.1.1, row.1.1.2)) schemas.
Proof.
  intros Hrow. split_and!; [| |by apply (list_elem_of_fmap_2 (fun row => (row.1.1.1, row.1.1.2))) in Hrow].
  all: cbn [schemas] in Hrow; repeat (apply elem_of_cons in Hrow as [Hrow|Hrow];
    [by injection Hrow as -> -> -> ->|]); by apply not_elem_of_nil in Hrow.
Qed.

Lemma known_schema p :
  compile_formats p = Ok () ->
  exists canonical counted capped, (pol_schema p, canonical, counted, capped) ∈ schemas.
Proof.
  unfold compile_formats, schema_formats.
  repeat (match goal with |- context [String.eqb (pol_schema p) ?v] =>
    destruct (String.eqb_spec (pol_schema p) v) as [->|_];
    [intros _; do 3 eexists; unfold schemas;
     repeat (apply elem_of_cons; first [left; reflexivity|right])|] end).
  simpl. done.
Qed.

Lemma schema_checks_iff p :
  schema_checks p <->
  exists canonical counted capped,
    (pol_schema p, canonical, counted, capped) ∈ schemas /\ row_allows p canonical counted capped.
Proof.
  unfold schema_checks, row_allows. split.
  - intros (Hf & Hn & Hd). destruct (known_schema p Hf) as (c & n & k & Hrow).
    destruct (row_flags _ _ _ _ Hrow) as (Hc & Hk & Hm). exists c, n, k. split; [done|].
    apply (formats_ok _ _ Hm) in Hf as [? ?]. rewrite counted_ok, Hc in Hn.
    rewrite derived_cap_ok, Hk in Hd. done.
  - intros (c & n & k & Hrow & Hf & Hs & Hn & Hd).
    destruct (row_flags _ _ _ _ Hrow) as (Hc & Hk & Hm). split_and!.
    + by apply (formats_ok _ _ Hm).
    + by rewrite counted_ok, Hc.
    + by rewrite derived_cap_ok, Hk.
Qed.

(** A policy compiles exactly when it is supported: its schema is one of
    the twelve, its formats are a nonempty subsequence of that schema's
    canonical list, the member-count limit and the derived-archive cap are those of the
    schema, every reserved field has its default, and directory sync is
    selected only under version twelve together with member sync.  The
    controls are the policy's own caps. *)
Theorem compile_accepts_iff p c :
  compile p = Ok c <-> supported_policy p /\ c = controls_of p.
Proof.
  split.
  - intros Hc. unfold compile in Hc. ok_steps Hc. units. simplify_eq.
    repeat match goal with H : check_reserved _ _ _ = Ok () |- _ => apply check_reserved_ok in H end.
    breflect. split; [|done]. split.
    + by apply schema_checks_iff.
    + by split.
    + intros Hd. rewrite Hd in *. simpl in *. breflect. split; [by apply String.eqb_eq|done].
  - intros [[Hs [] Hd] ->]. apply schema_checks_iff in Hs as (Hf & Hn & Hk).
    unfold compile. cbv zeta. rewrite Hf.
    rewrite !(fun n a s => proj2 (check_reserved_ok n a s)) by done. cbv iota.
    rewrite rd_nested0, rd_dict0, Hn, Hk. cbn [Z.eqb Pos.eqb negb nested_depth max_dict_bytes default_v1].
    destruct (pol_directory_sync p) eqn:Hds; cbn [andb].
    + destruct (Hd eq_refl) as [-> Ha]. rewrite Ha. unfold controls_of. by rewrite Ha, Hds.
    + unfold controls_of. by rewrite Hds.
Qed.

(** Authorisation is membership in the list. *)
Lemma allows_format_iff p f : allows_format p f = true <-> f ∈ formats p.
Proof.
  unfold allows_format. rewrite existsb_exists. setoid_rewrite <- list_elem_of_In. split.
  - by intros (x & Hx & ->%String.eqb_eq).
  - intros Hf. exists f. by rewrite String.eqb_refl.
Qed.

Lemma check_double_safe_ok fields :
  check_double_safe fields = Ok () <->
  Forall (fun f => forall v, snd f = Some v -> v <= MAX_DOUBLE_SAFE_INTEGER) fields.
Proof.
  induction fields as [|[f [v|]] fields IH]; simpl.
  - split; [constructor|done].
  - destruct (Z.ltb_spec MAX_DOUBLE_SAFE_INTEGER v).
    + split; [done|]. intros Hf. inversion Hf as [|? ? H1 _]; subst. specialize (H1 v eq_refl). lia.
    + rewrite IH. split; [|by inversion 1]. intros Hf. constructor; [|done]. intros w [= <-]. done.
  - rewrite IH. split; [|by inversion 1]. by constructor.
Qed.

Definition double_safe (p : Policy) : Prop :=
  Forall (fun f => forall v, snd f = Some v -> v <= MAX_DOUBLE_SAFE_INTEGER) (capped_fields p).

Lemma static_schema_ok schema v :
  static_schema schema = Ok v <-> v = schema /\ schema ∈ KNOWN_POLICY_SCHEMAS.
Proof.
  unfold static_schema. rewrite ok_or_ok. split.
  - intros Hh. destruct (filter _ _) as [|x l] eqn:E; [done|]. simplify_eq/=.
    assert (v ∈ filter (fun known => known = schema) KNOWN_POLICY_SCHEMAS) as Hv
      by (rewrite E; apply elem_of_cons; by left).
    apply list_elem_of_filter in Hv as [-> ?]. done.
  - intros [-> Hk]. destruct (filter _ _) as [|x l] eqn:E.
    + exfalso. apply (not_elem_of_nil schema). rewrite <- E. by apply list_elem_of_filter.
    + assert (x ∈ filter (fun known => known = schema) KNOWN_POLICY_SCHEMAS) as Hx
        by (rewrite E; apply elem_of_cons; by left).
      by apply list_elem_of_filter in Hx as [-> _].
Qed.

Lemma static_vocabulary_ok field value v :
  static_vocabulary field value = Ok v -> v = value.
Proof.
  unfold static_vocabulary. cbv zeta. intros H1. apply ok_or_ok in H1.
  repeat case_match; breflect; simplify_eq; symmetry; by apply String.eqb_eq.
Qed.

Section Validation.
Context `{!Sha256}.

Lemma new_validated_ok p vp :
  new_validated p = Ok vp <->
  supported_policy p /\ double_safe p /\ vp = {| vp_policy := p; vp_digest := digest_hex p |}.
Proof.
  unfold new_validated, double_safe. split.
  - intros H1. ok_steps H1. units. simplify_eq. apply compile_accepts_iff in Hs as [? _].
    by apply check_double_safe_ok in Hs0.
  - intros (Hs & Hd & ->). rewrite (proj2 (compile_accepts_iff p _) (conj Hs eq_refl)).
    apply check_double_safe_ok in Hd. by rewrite Hd.
Qed.

(** A document that spells a policy: directory sync may be left out when it is
    off, and written only under version twelve. *)
Record spells (d : PolicyDocument) (p : Policy) : Prop := {
  spells_fields : document_of p =
    {| doc_schema := doc_schema d; doc_id := doc_id d; doc_formats := doc_formats d;
       doc_max_archive_bytes := doc_max_archive_bytes d;
       doc_max_derived_archive_bytes := doc_max_derived_archive_bytes d;
       doc_max_files := doc_max_files d; doc_max_member_bytes := doc_max_member_bytes d;
       doc_max_total_bytes := doc_max_total_bytes d; doc_max_ratio := doc_max_ratio d;
       doc_max_path_depth := doc_max_path_depth d;
       doc_max_metadata_bytes := doc_max_metadata_bytes d; doc_max_dict_bytes := doc_max_dict_bytes d;
       doc_symlinks := doc_symlinks d; doc_hardlinks := doc_hardlinks d;
       doc_overwrite := doc_overwrite d; doc_setuid := doc_setuid d;
       doc_nested_depth := doc_nested_depth d; doc_ambiguity := doc_ambiguity d;
       doc_case_fold_collision := doc_case_fold_collision d;
       doc_magic_vs_extension := doc_magic_vs_extension d; doc_encrypted := doc_encrypted d;
       doc_atomic := doc_atomic d;
       doc_directory_sync := if pol_directory_sync p then Some true else None |};
  spells_directory_sync :
    doc_directory_sync d = None /\ pol_directory_sync p = false
    \/ doc_directory_sync d = Some (pol_directory_sync p) /\ pol_schema p = "sealr.policy.v12"
}.

Lemma supported_known p : supported_policy p -> pol_schema p ∈ KNOWN_POLICY_SCHEMAS.
Proof.
  intros [(c & n & k & Hrow & _) _ _].
  by apply (list_elem_of_fmap_2 (fun row => row.1.1.1)) in Hrow.
Qed.

(** C39: A document validates exactly to the policy it spells, provided that
    policy is supported and its caps are at most 2^53 - 1, and the digest that
    comes with it is the digest of that policy: validating what a policy is
    written as gives the policy back, and no document validates to another
    policy than its own. *)
Theorem validate_iff d vp :
  validate d = Ok vp <->
  spells d (vp_policy vp) /\ supported_policy (vp_policy vp) /\ double_safe (vp_policy vp)
  /\ vp_digest vp = digest_hex (vp_policy vp).
Proof.
  split.
  - intros H1. unfold validate in H1. ok_step H1. apply static_schema_ok in Hs as [-> _].
    ok_step H1. rename Hs into Hds. ok_steps H1. rename H1 into Hn.
    repeat match goal with H : static_vocabulary _ _ = Ok _ |- _ =>
      apply static_vocabulary_ok in H; subst end.
    apply new_validated_ok in Hn as (Hp & Hd & ->). split; [|done]. split; [done|]. simpl.
    destruct (doc_directory_sync d) as [v|]; simplify_eq; [|by left].
    destruct (String.eqb_spec (doc_schema d) "sealr.policy.v12") as [E|]; simplify_eq. by right.
  - destruct vp as [p h]. simpl. intros ([Hf Hds] & Hp & Hd & ->).
    pose proof (supported_known p Hp) as Hk. pose proof (sp_reserved p Hp) as [].
    destruct d; unfold document_of in Hf; simpl in *. injection Hf; intros; subst. clear Hf.
    unfold validate. simpl.
    rewrite (proj2 (static_schema_ok _ _) (conj eq_refl Hk)).
    assert (match doc_directory_sync0 with
      | Some value => if pol_schema p =? "sealr.policy.v12" then Ok value
          else Err (unsupported "directory_sync is only supported by sealr.policy.v12")
      | None => Ok false end = Ok (pol_directory_sync p)) as ->
      by (destruct Hds as [[-> ->]|[-> ->]]; [done|by rewrite String.eqb_refl]).
    rewrite rd_symlinks0, rd_hardlinks0, rd_overwrite0, rd_setuid0, rd_ambiguity0, rd_case_fold0,
      rd_magic0, rd_encrypted0.
    cbn. destruct p; simpl in *; subst. by apply new_validated_ok.
Qed.
End Validation.
End CompileLemmas.

(** The twelve default policies are supported, and each validates from the
    document it is written as. *)
Definition default_policies : list Policy :=
  [default_v1; default_v2; default_v3; default_v4; default_v5; default_v6; default_v7; default_v8;
   default_v9; default_v10; default_v11; default_v12].

Example default_policies_validate :
  let _ := {| fmt_debug := fun s => s; policy_json := fun _ => [] |} in
  let _ := null_sha256 in
  map (fun p => option_map vp_policy (ok (validate (document_of p)))) default_policies
  = map Some default_policies.
Proof. vm_compute. reflexivity. Qed.
