(* ===== verification/Protocol.v ===== *)
(** * The worker protocol ([sealr-protocol/src/lib.rs])

    [ProtocolError], the little-endian writers, and [Cursor], the bounded
    reader every decoder goes through.  [codec] is what a reader promises to
    its clients: it accepts exactly the encodings of its valid values, and
    stops right after them.  Then the start request and the worker result,
    their validators, and the bounded binary codec between them and their
    frames. *)

From S2P Require Import Prelude Utf8 Paths.
Local Open Scope Z_scope.

(** ** Errors *)

Inductive ProtocolErrorKind : Type :=
  | FrameTooLarge | Truncated | TrailingBytes | InvalidMagic | UnsupportedVersion
  | UnexpectedFrameKind | ReservedNonZero | LimitExceeded | CountInconsistent | InvalidEnum
  | CapabilityMismatch | CorrelationMismatch | RequestMismatch | InvalidUtf8 | InvalidString
  | InvalidSemanticState | NonCanonicalOrder | IntegerOverflow | AllocationFailed.
#[export] Instance ProtocolErrorKind_eq_dec : EqDecision ProtocolErrorKind.
Proof. solve_decision. Defined.

(** [usize] offsets, as [Z]. *)
Record ProtocolError : Type := { pe_kind : ProtocolErrorKind; pe_offset : Z; pe_detail : string }.
Definition new (kind : ProtocolErrorKind) (offset : Z) (detail : string) : ProtocolError :=
  {| pe_kind := kind; pe_offset := offset; pe_detail := detail |}.

Definition limit (offset : Z) (detail : string) : ProtocolError := new LimitExceeded offset detail.
Definition invalid_state (detail : string) : ProtocolError := new InvalidSemanticState 0 detail.
Definition request_mismatch (detail : string) : ProtocolError := new RequestMismatch 0 detail.
Definition overflow (detail : string) : ProtocolError := new IntegerOverflow 0 detail.

(** ** Writers *)

Definition push_u16 (output : list byte) (value : Z) : list byte := output ++ le_bytes 2 value.
Definition push_u32 (output : list byte) (value : Z) : list byte := output ++ le_bytes 4 value.
Definition push_u64 (output : list byte) (value : Z) : list byte := output ++ le_bytes 8 value.

(** ** The cursor *)

Record Cursor : Type := { input : list byte; position : Z; base : Z }.

Module Cursor.
Definition new (input : list byte) (base : Z) : Cursor :=
  {| input := input; position := 0; base := base |}.

Definition absolute (c : Cursor) : Z := u64_saturating_add (base c) (position c).
Definition remaining (c : Cursor) : Z :=
  u64_saturating_sub (Z.of_nat (length (input c))) (position c).
Definition error (c : Cursor) (kind : ProtocolErrorKind) (detail : string) : ProtocolError :=
  Protocol.new kind (absolute c) detail.

Definition advance (c : Cursor) (len : Z) : Cursor :=
  {| input := input c; position := position c + len; base := base c |}.

(** [Cursor::bytes]; [slice::get] is [None] beyond the end of the input. *)
Definition bytes (len : Z) (c : Cursor) : result (list byte * Cursor) ProtocolError :=
  let? end_ := ok_or (u64_checked_add (position c) len) (overflow "cursor length overflowed") in
  reject Z.of_nat (length (input c)) <? end_
    with error c Truncated "field extends past the declared payload" ;;
  Ok (range (position c) len (input c),
      {| input := input c; position := end_; base := base c |}).

Definition array (n : Z) (c : Cursor) : result (list byte * Cursor) ProtocolError := bytes n c.

Definition get_u8 (c : Cursor) : result (Z * Cursor) ProtocolError :=
  let? (b, c) := bytes 1 c in Ok (u8 (at_ b 0), c).
Definition get_u16 (c : Cursor) : result (Z * Cursor) ProtocolError :=
  let? (b, c) := array 2 c in Ok (le_value b, c).
Definition get_u32 (c : Cursor) : result (Z * Cursor) ProtocolError :=
  let? (b, c) := array 4 c in Ok (le_value b, c).
Definition get_u64 (c : Cursor) : result (Z * Cursor) ProtocolError :=
  let? (b, c) := array 8 c in Ok (le_value b, c).

Definition zeroes (len : Z) (detail : string) (c : Cursor) : result Cursor ProtocolError :=
  let? (b, c) := bytes len c in
  reject negb (all_zero b) with error c ReservedNonZero detail ;;
  Ok c.

Definition finish (c : Cursor) : result unit ProtocolError :=
  reject negb (position c =? Z.of_nat (length (input c)))
    with error c TrailingBytes "unconsumed bytes remain inside the payload" ;;
  Ok ().
End Cursor.

(** [decode_bool] and [require_zero]. *)
Definition decode_bool (value : Z) (cursor : Cursor) (detail : string) : result bool ProtocolError :=
  if value =? 0 then Ok false
  else if value =? 1 then Ok true
  else Err (Cursor.error cursor InvalidEnum detail).
Definition require_zero (value : Z) (cursor : Cursor) (detail : string) : result unit ProtocolError :=
  if value =? 0 then Ok () else Err (Cursor.error cursor ReservedNonZero detail).

(** ** The bytes not yet read *)

Definition rest (c : Cursor) : list byte := drop (Z.to_nat (position c)) (input c).
Record cursor_ok (c : Cursor) : Prop := {
  co_position : 0 <= position c <= Z.of_nat (length (input c));
  co_length : Z.of_nat (length (input c)) <= u64_max
}.

Lemma cursor_new_ok l b : Z.of_nat (length l) <= u64_max -> cursor_ok (Cursor.new l b).
Proof. split; simpl; lia. Qed.

Lemma rest_new l b : rest (Cursor.new l b) = l.
Proof. done. Qed.

Lemma remaining_rest c : cursor_ok c -> Cursor.remaining c = Z.of_nat (length (rest c)).
Proof.
  intros [Hp Hl]. unfold Cursor.remaining, u64_saturating_sub, rest. rewrite length_drop. lia.
Qed.

Lemma finish_ok c : cursor_ok c -> Cursor.finish c = Ok () <-> rest c = [].
Proof.
  intros [Hp Hl]. unfold Cursor.finish, rest.
  destruct (Z.eqb_spec (position c) (Z.of_nat (length (input c)))) as [E|E]; simpl; split; try done.
  - intros _. rewrite E, Nat2Z.id. apply drop_all.
  - intros Hd. apply (f_equal length) in Hd. rewrite length_drop in Hd. simpl in Hd. lia.
Qed.

Lemma bytes_ok c n x c' :
  cursor_ok c -> 0 <= n ->
  Cursor.bytes n c = Ok (x, c') <->
  rest c = x ++ rest c' /\ length x = Z.to_nat n /\ c' = Cursor.advance c n.
Proof.
  intros [Hp Hl] Hn. unfold Cursor.bytes, rest. split.
  - intros Hb. ok_steps Hb. breflect. simplify_eq. simpl.
    apply ok_or_ok, u64_checked_add_Some in Hs as [-> Hs]. split_and!.
    + unfold range. rewrite Z2Nat.inj_add, <- drop_drop by lia. by rewrite take_drop.
    + rewrite length_range by lia. lia.
    + done.
  - intros (Hr & Hx & ->). simpl in Hr.
    assert (Hlen : (Z.to_nat n <= length (input c) - Z.to_nat (position c))%nat).
    { apply (f_equal length) in Hr. rewrite length_app, length_drop in Hr. lia. }
    unfold u64_checked_add. rewrite (proj2 (Z.leb_le _ _)) by lia. simpl.
    rewrite (proj2 (Z.ltb_ge _ _)) by lia. do 3 f_equal.
    unfold range. rewrite Hr, <- Hx, take_app_length. done.
Qed.

(** ** What a reader promises *)

Definition codec {A} (p : Cursor -> result (A * Cursor) ProtocolError) (valid : A -> Prop)
    (enc : A -> list byte) : Prop :=
  forall c a c', cursor_ok c ->
  p c = Ok (a, c') <->
  valid a /\ rest c = enc a ++ rest c' /\ c' = Cursor.advance c (Z.of_nat (length (enc a))).

(** The moved cursor is again in bounds, and has read the encoding. *)
Lemma advance_ok c x r :
  cursor_ok c -> rest c = x ++ r ->
  cursor_ok (Cursor.advance c (Z.of_nat (length x)))
  /\ rest (Cursor.advance c (Z.of_nat (length x))) = r.
Proof.
  intros [Hp Hl] Hr. unfold rest in Hr. pose proof (f_equal length Hr) as Hlen.
  rewrite length_app, length_drop in Hlen. split; [split; simpl; lia|].
  unfold rest. simpl. rewrite Z2Nat.inj_add, <- drop_drop, Hr, Nat2Z.id by lia. apply drop_app_length.
Qed.

Lemma codec_complete {A} (p : Cursor -> result (A * Cursor) ProtocolError) valid enc c a r :
  codec p valid enc -> cursor_ok c -> valid a -> rest c = enc a ++ r ->
  exists c', p c = Ok (a, c') /\ cursor_ok c' /\ rest c' = r.
Proof.
  intros Hc Hok Hv Hr. destruct (advance_ok c (enc a) r Hok Hr) as [Hok' Hr'].
  eexists. split; [apply Hc; [done|]|by split]. by rewrite Hr'.
Qed.

Lemma codec_sound {A} (p : Cursor -> result (A * Cursor) ProtocolError) valid enc c a c' :
  codec p valid enc -> cursor_ok c -> p c = Ok (a, c') ->
  valid a /\ cursor_ok c' /\ rest c = enc a ++ rest c'.
Proof.
  intros Hc Hok Hp. apply Hc in Hp as (Hv & Hr & ->); [|done].
  destruct (advance_ok c (enc a) _ Hok Hr) as [Hok' _]. done.
Qed.

Lemma array_codec n : 0 <= n -> codec (Cursor.array n) (fun x => length x = Z.to_nat n) (fun x => x).
Proof.
  intros Hn c x c' Hok. unfold Cursor.array. rewrite bytes_ok by done. split.
  - intros (Hr & Hx & ->). rewrite Hx, Z2Nat.id by lia. done.
  - intros (Hx & Hr & ->). rewrite Hx, Z2Nat.id in * by lia. done.
Qed.

Lemma le_codec n (p : Cursor -> result (Z * Cursor) ProtocolError) :
  (forall c, p c = match Cursor.bytes (Z.of_nat n) c with Ok (b, c) => Ok (le_value b, c) | Err e => Err e end) ->
  codec p (fun v => 0 <= v < 256 ^ Z.of_nat n) (le_bytes n).
Proof.
  intros Hp c v c' Hok. rewrite Hp, length_le_bytes. split.
  - destruct (Cursor.bytes _ c) as [[b d]|] eqn:Hb; [|done]. intros [= <- <-].
    apply bytes_ok in Hb as (Hr & Hl & ->); [|done|lia]. rewrite Nat2Z.id in Hl.
    pose proof (le_value_range b). rewrite <- Hl at 2. rewrite le_bytes_le_value, Hl in *. done.
  - intros (Hv & Hr & ->). rewrite (proj2 (bytes_ok c (Z.of_nat n) (le_bytes n v) (Cursor.advance c (Z.of_nat n)) Hok ltac:(lia))).
    + by rewrite le_value_le_bytes.
    + by rewrite length_le_bytes, Nat2Z.id.
Qed.

Lemma u8_codec : codec Cursor.get_u8 (fun v => 0 <= v < 256 ^ 1) (le_bytes 1).
Proof.
  apply (le_codec 1). intros c. unfold Cursor.get_u8. change (Z.of_nat 1) with 1.
  destruct (Cursor.bytes 1 c) as [[b d]|] eqn:Hb; [|done].
  unfold Cursor.bytes in Hb. ok_steps Hb. simplify_eq. unfold range, at_.
  change (Z.to_nat 1) with 1%nat. destruct (drop _ (input c)) as [|x l]; simpl; [done|].
  by rewrite Z.add_0_r.
Qed.
Lemma u16_codec : codec Cursor.get_u16 (fun v => 0 <= v < 256 ^ 2) (le_bytes 2).
Proof. by apply (le_codec 2). Qed.
Lemma u32_codec : codec Cursor.get_u32 (fun v => 0 <= v < 256 ^ 4) (le_bytes 4).
Proof. by apply (le_codec 4). Qed.
Lemma u64_codec : codec Cursor.get_u64 (fun v => 0 <= v < 256 ^ 8) (le_bytes 8).
Proof. by apply (le_codec 8). Qed.

Lemma zeroes_ok n detail c c' :
  cursor_ok c -> 0 <= n ->
  Cursor.zeroes n detail c = Ok c' <->
  rest c = replicate (Z.to_nat n) x00 ++ rest c' /\ c' = Cursor.advance c n.
Proof.
  intros Hok Hn. unfold Cursor.zeroes. split.
  - intros Hz. ok_steps Hz. breflect. simplify_eq.
    apply bytes_ok in Hs as (Hr & Hl & ->); [|done..].
    apply all_zero_replicate in Hs0. rewrite Hl in Hs0. by rewrite <- Hs0.
  - intros [Hr ->].
    rewrite (proj2 (bytes_ok c n (replicate (Z.to_nat n) x00) (Cursor.advance c n) Hok Hn)) by (by rewrite length_replicate).
    replace (all_zero _) with true; [done|]. symmetry. apply all_zero_replicate.
    by rewrite length_replicate.
Qed.

Lemma require_zero_ok v c d : require_zero v c d = Ok () <-> v = 0.
Proof. unfold require_zero. destruct (Z.eqb_spec v 0); split; congruence. Qed.

Lemma decode_bool_ok v c d b : decode_bool v c d = Ok b <-> v = Z.b2z b.
Proof.
  unfold decode_bool. destruct (Z.eqb_spec v 0) as [->|]; [|destruct (Z.eqb_spec v 1) as [->|]];
    destruct b; simpl; split; intros; simplify_eq; try done; lia.
Qed.

(** ** Messages *)

Definition PROTOCOL_VERSION : Z := 1.
Definition FRAME_MAGIC : list byte := lit "SEALRIPC".
Definition FRAME_HEADER_BYTES : Z := 16.
Definition START_PAYLOAD_BYTES : Z := 196.
Definition START_FRAME_BYTES : Z := FRAME_HEADER_BYTES + START_PAYLOAD_BYTES.
Definition RESULT_FIXED_PAYLOAD_BYTES : Z := 124.
Definition MAX_FRAME_BYTES : Z := 4 * 1024 * 1024.
Definition MAX_CAPABILITIES : Z := 2.
Definition MAX_MANIFEST_MEMBERS : Z := 10000.
Definition MAX_FINDINGS : Z := 10000.
Definition MAX_PATH_BYTES : Z := 4 * 1024.
Definition MAX_FINDING_CODE_BYTES : Z := 128.
Definition MAX_FINDING_DETAIL_BYTES : Z := 1024.
Definition FRAME_KIND_START : Z := 1.
Definition FRAME_KIND_RESULT : Z := 2.
Definition NO_CAPABILITY_SLOT : Z := u16_max.
Definition MANIFEST_ENTRY_FIXED_BYTES : Z := 44.
Definition FINDING_FIXED_BYTES : Z := 8.

(** ** Data *)

Inductive ExecutionMode : Type := Inspect | Materialize.
#[export] Instance ExecutionMode_eq_dec : EqDecision ExecutionMode.
Proof. solve_decision. Defined.
Inductive InterpretationProfile : Type := StrictAsciiV1 | StrictAsciiV2.
#[export] Instance InterpretationProfile_eq_dec : EqDecision InterpretationProfile.
Proof. solve_decision. Defined.

Record ResourceLimits : Type := {
  max_archive_bytes : Z;
  max_files : Z;
  max_member_bytes : Z;
  max_total_bytes : Z;
  max_ratio : option Z;
  max_path_depth : Z;
  max_metadata_bytes : Z
}.

Record StartRequest : Type := {
  operation_id : list byte;
  mode : ExecutionMode;
  interpretation_profile : InterpretationProfile;
  member_sync : bool;
  capability_count : Z;
  source_capability : Z;
  stage_capability : option Z;
  source_len : Z;
  source_sha256 : list byte;
  interpretation_profile_sha256 : list byte;
  policy_sha256 : list byte;
  limits : ResourceLimits
}.

Inductive WorkerStatus : Type := Complete | Rejected | Failed.
#[export] Instance WorkerStatus_eq_dec : EqDecision WorkerStatus.
Proof. solve_decision. Defined.
Inductive ManifestKind : Type := File | Directory.
#[export] Instance ManifestKind_eq_dec : EqDecision ManifestKind.
Proof. solve_decision. Defined.

Record ManifestEntry : Type := {
  e_path : str;
  e_kind : ManifestKind;
  e_size : Z;
  e_sha256 : list byte
}.

Inductive FindingSeverity : Type := SevWarning | SevError.
#[export] Instance FindingSeverity_eq_dec : EqDecision FindingSeverity.
Proof. solve_decision. Defined.

Record ProtocolFinding : Type := {
  f_severity : FindingSeverity;
  f_code : str;
  f_detail : str;
  f_member_path : option str
}.

Record WorkerResult : Type := {
  r_operation_id : list byte;
  r_status : WorkerStatus;
  r_interpretation_profile_sha256 : list byte;
  r_layout_root : option (list byte);
  r_content_root : option (list byte);
  r_manifest : list ManifestEntry;
  r_findings : list ProtocolFinding
}.

Definition zero_bytes (n : nat) : list byte := replicate n x00.
Definition bytes_eqb (a b : list byte) : bool := bool_decide (a = b).

(** ** Strings *)

Inductive StringKind : Type := KPath | KFindingCode | KDetail.

Definition reserved_stems : list str :=
  map lit ["CON"; "PRN"; "AUX"; "NUL"; "COM1"; "COM2"; "COM3"; "COM4"; "COM5"; "COM6"; "COM7";
    "COM8"; "COM9"; "LPT1"; "LPT2"; "LPT3"; "LPT4"; "LPT5"; "LPT6"; "LPT7"; "LPT8"; "LPT9"]%string.

(** [valid_path_component]; the forbidden bytes are less-than, greater-than,
    double quote, bar, question mark and star. *)
Definition forbidden_bytes : list byte := [x3c; x3e; x22; x7c; x3f; x2a].
Definition valid_path_component (component : str) : bool :=
  if (length component =? 0)%nat
     || bytes_eqb component (lit ".")
     || bytes_eqb component (lit "..")
     || contains_byte ":" component
     || ends_with_byte "." component
     || ends_with_byte " " component
     || existsb (fun b => is_ascii_control b || contains_byte b forbidden_bytes) component
  then false
  else
    let stem := from_option id component (head (split_on "." component)) in
    negb (existsb (fun reserved => eq_ignore_ascii_case stem reserved) reserved_stems).

(** [validate_string]. *)
Definition valid_string (value : str) (kind : StringKind) : bool :=
  let len := Z.of_nat (length value) in
  match kind with
  | KPath =>
      negb (length value =? 0)%nat
      && (len <=? MAX_PATH_BYTES)
      && is_ascii value
      && negb (starts_with_byte "/" value)
      && negb (ends_with_byte "/" value)
      && negb (contains_byte x5c value)
      && forallb valid_path_component (split_on "/" value)
  | KFindingCode =>
      negb (length value =? 0)%nat
      && (len <=? MAX_FINDING_CODE_BYTES)
      && is_ascii_lowercase (at_ value 0)
      && forallb (fun b => is_ascii_lowercase b || is_ascii_digit b
                           || bool_decide (b = "."%byte) || bool_decide (b = "_"%byte)) value
  | KDetail =>
      (len <=? MAX_FINDING_DETAIL_BYTES)
      && negb (existsb char_is_control (from_option id [] (chars value)))
  end.
Definition validate_string (value : str) (kind : StringKind) : result unit ProtocolError :=
  if valid_string value kind then Ok ()
  else Err (new InvalidString 0
    match kind with
    | KPath => "path is not a bounded canonical relative path"
    | KFindingCode => "finding code is not in the wire language"
    | KDetail => "finding detail contains a control or exceeds its limit"
    end).

(** ** Validators *)

Definition validate_start (request : StartRequest) (received_capabilities : Z) :
    result unit ProtocolError :=
  let mismatch detail := new CapabilityMismatch 0 detail in
  reject bytes_eqb (operation_id request) (zero_bytes 16)
    with invalid_state "operation ID must be nonzero" ;;
  reject (MAX_CAPABILITIES <? capability_count request)
         || negb (capability_count request =? received_capabilities)
    with mismatch "declared and received capability counts do not match" ;;
  reject capability_count request <=? source_capability request
    with mismatch "source capability slot is unavailable" ;;
  let? _ :=
    match mode request with
    | Inspect =>
        reject negb (capability_count request =? 1)
               || bool_decide (is_Some (stage_capability request))
          with mismatch "inspect mode requires only the source capability" ;;
        Ok ()
    | Materialize =>
        let? stage := ok_or (stage_capability request)
          (mismatch "materialize mode requires a stage capability") in
        reject negb (capability_count request =? 2)
               || (capability_count request <=? stage)
               || (stage =? source_capability request)
          with mismatch "materialize capability slots are invalid" ;;
        Ok ()
    end in
  reject max_archive_bytes (limits request) <? source_len request
    with invalid_state "source length exceeds the transmitted archive limit" ;;
  Ok ().

(** [slice::binary_search_by]: halve until one candidate is left. *)
Fixpoint binary_search_loop {A} (fuel : nat) (f : A -> comparison) (l : list A)
    (base size : nat) : nat :=
  match fuel with
  | O => base
  | S fuel =>
      if (1 <? size)%nat then
        let half := (size / 2)%nat in
        let mid := (base + half)%nat in
        let base := match option_map f (l !! mid) with Some Gt => base | _ => mid end in
        binary_search_loop fuel f l base (size - half)
      else base
  end.
Definition binary_search_by {A} (f : A -> comparison) (l : list A) : option nat :=
  if (length l =? 0)%nat then None
  else
    let base := binary_search_loop (length l) f l 0 (length l) in
    match option_map f (l !! base) with Some Eq => Some base | _ => None end.

Definition file_ancestor (manifest : list ManifestEntry) (ancestor : str) : bool :=
  match binary_search_by (fun candidate => str_cmp (e_path candidate) ancestor) manifest with
  | Some index =>
      match manifest !! index with
      | Some entry => bool_decide (e_kind entry = File)
      | None => false
      end
  | None => false
  end.

Definition validate_manifest_topology (manifest : list ManifestEntry) : result unit ProtocolError :=
  reject existsb (fun entry => existsb (file_ancestor manifest) (ancestors (e_path entry))) manifest
    with invalid_state "manifest file is an ancestor of another object" ;;
  Ok ().

Definition directory_evidence (entry : ManifestEntry) : bool :=
  bool_decide (e_kind entry = Directory)
  && (negb (e_size entry =? 0) || negb (bytes_eqb (e_sha256 entry) (zero_bytes 32))).
(** [previous.is_some_and(|path| path >= next)]. *)
Definition out_of_order (previous : option str) (path : str) : bool :=
  match previous with Some previous => negb (bool_decide (str_lt previous path)) | None => false end.

(** The loop over the manifest in [validate_result]. *)
Fixpoint validate_entries (previous : option str) (manifest : list ManifestEntry) :
    result unit ProtocolError :=
  match manifest with
  | [] => Ok ()
  | entry :: manifest =>
      let? _ := validate_string (e_path entry) KPath in
      reject out_of_order previous (e_path entry)
        with new NonCanonicalOrder 0 "manifest paths are not strictly ordered" ;;
      reject directory_evidence entry
        with invalid_state "directory manifest entry carries file content evidence" ;;
      validate_entries (Some (e_path entry)) manifest
  end.

Fixpoint validate_findings (findings : list ProtocolFinding) : result unit ProtocolError :=
  match findings with
  | [] => Ok ()
  | finding :: findings =>
      let? _ := validate_string (f_code finding) KFindingCode in
      let? _ := validate_string (f_detail finding) KDetail in
      let? _ :=
        match f_member_path finding with
        | Some path => validate_string path KPath
        | None => Ok ()
        end in
      validate_findings findings
  end.

Definition has_error (findings : list ProtocolFinding) : bool :=
  existsb (fun finding => bool_decide (f_severity finding = SevError)) findings.

(** The [match result.status] of [validate_result]. *)
Definition validate_status (r : WorkerResult) : result unit ProtocolError :=
  match r_status r with
  | Complete =>
      reject bool_decide (r_layout_root r = None) || bool_decide (r_content_root r = None)
        with invalid_state "complete result requires both semantic roots" ;;
      reject has_error (r_findings r)
        with invalid_state "complete result cannot carry an error finding" ;;
      Ok ()
  | Rejected | Failed =>
      reject negb (length (r_manifest r) =? 0)%nat || bool_decide (is_Some (r_content_root r))
        with invalid_state "non-complete result cannot carry a manifest or content root" ;;
      reject negb (has_error (r_findings r))
        with invalid_state "non-complete result requires an error finding" ;;
      Ok ()
  end.

Definition validate_result (r : WorkerResult) : result unit ProtocolError :=
  reject bytes_eqb (r_operation_id r) (zero_bytes 16)
    with invalid_state "operation ID must be nonzero" ;;
  reject MAX_MANIFEST_MEMBERS <? Z.of_nat (length (r_manifest r))
    with limit 0 "manifest member count exceeds the limit" ;;
  reject MAX_FINDINGS <? Z.of_nat (length (r_findings r))
    with limit 0 "finding count exceeds the limit" ;;
  let? _ := validate_status r in
  let? _ := validate_entries None (r_manifest r) in
  let? _ := validate_manifest_topology (r_manifest r) in
  validate_findings (r_findings r).

(** The loop of [validate_result_for_request]. *)
Definition path_depth (path : str) : Z :=
  Z.of_nat (length (filter (fun b => b = "/"%byte) path)) + 1.
Fixpoint check_manifest_limits (lim : ResourceLimits) (total_file_bytes : Z)
    (manifest : list ManifestEntry) : result unit ProtocolError :=
  match manifest with
  | [] => Ok ()
  | entry :: manifest =>
      reject max_path_depth lim <? path_depth (e_path entry)
        with request_mismatch "manifest path exceeds the request depth limit" ;;
      if bool_decide (e_kind entry = File) then
        reject max_member_bytes lim <? e_size entry
          with request_mismatch "manifest file exceeds the request member-byte limit" ;;
        let? total := ok_or (u64_checked_add total_file_bytes (e_size entry))
          (overflow "manifest file-byte total overflowed") in
        reject max_total_bytes lim <? total
          with request_mismatch "manifest exceeds the request total-byte limit" ;;
        check_manifest_limits lim total manifest
      else check_manifest_limits lim total_file_bytes manifest
  end.

Definition validate_result_for_request (r : WorkerResult) (request : StartRequest) :
    result unit ProtocolError :=
  let? _ := validate_start request (capability_count request) in
  let? _ := validate_result r in
  reject negb (bytes_eqb (r_operation_id r) (operation_id request))
    with new CorrelationMismatch 0 "worker result operation ID does not match" ;;
  reject negb (bytes_eqb (r_interpretation_profile_sha256 r) (interpretation_profile_sha256 request))
    with new RequestMismatch 0
      "worker result interpretation identity does not match the request" ;;
  reject max_files (limits request) <? Z.of_nat (length (r_manifest r))
    with request_mismatch "worker manifest exceeds the request member limit" ;;
  check_manifest_limits (limits request) 0 (r_manifest r).

(** ** Frame headers *)

Definition decode_header (input : list byte) (expected_kind : Z) : result (list byte) ProtocolError :=
  let len := Z.of_nat (length input) in
  reject MAX_FRAME_BYTES <? len with new FrameTooLarge 0 "frame exceeds the wire limit" ;;
  reject len <? FRAME_HEADER_BYTES with new Truncated len "frame header is truncated" ;;
  reject negb (bytes_eqb (slice 0 8 input) FRAME_MAGIC)
    with new InvalidMagic 0 "frame magic does not match" ;;
  reject negb (le_value (slice 8 10 input) =? PROTOCOL_VERSION)
    with new UnsupportedVersion 8 "protocol version is unsupported" ;;
  reject negb (u8 (at_ input 10) =? expected_kind)
    with new UnexpectedFrameKind 10 "frame kind does not match the decoder" ;;
  reject negb (u8 (at_ input 11) =? 0)
    with new ReservedNonZero 11 "header reserved byte is nonzero" ;;
  let payload_len := le_value (slice 12 16 input) in
  let? expected_len := ok_or (u64_checked_add FRAME_HEADER_BYTES payload_len)
    (overflow "frame length overflowed") in
  reject len <? expected_len with new Truncated len "declared payload is truncated" ;;
  reject expected_len <? len with new TrailingBytes expected_len "bytes follow the declared payload" ;;
  Ok (drop 16 input).

Definition encode_header (output : list byte) (kind payload_len : Z) :
    result (list byte) ProtocolError :=
  reject u32_max <? payload_len with overflow "payload length does not fit the wire field" ;;
  let output := output ++ FRAME_MAGIC in
  let output := push_u16 output PROTOCOL_VERSION in
  let output := output ++ [of_u8 kind] in
  let output := output ++ [x00] in
  Ok (push_u32 output payload_len).
