(* ===== verification/ProtocolCodec.v ===== *)
(** * Encoding and decoding the worker frames ([sealr-protocol/src/lib.rs])

    [encode_start], [decode_start], [encode_result], [decode_result] and
    [decode_result_for_request], statement by statement. *)

From S2P Require Import Prelude Utf8 Paths Protocol.
Local Open Scope Z_scope.

Definition decode_optional_digest (present : bool) (bytes : list byte) (cursor : Cursor) :
    result (option (list byte)) ProtocolError :=
  if present then Ok (Some bytes)
  else if bytes_eqb bytes (zero_bytes 32) then Ok None
  else Err (Cursor.error cursor InvalidSemanticState "absent root has nonzero wire bytes").

Definition mode_byte (m : ExecutionMode) : Z := match m with Inspect => 0 | Materialize => 1 end.
Definition profile_byte (p : InterpretationProfile) : Z :=
  match p with StrictAsciiV1 => 1 | StrictAsciiV2 => 2 end.
Definition status_byte (s : WorkerStatus) : Z :=
  match s with Complete => 1 | Rejected => 2 | Failed => 3 end.
Definition kind_byte (k : ManifestKind) : Z := match k with File => 1 | Directory => 2 end.
Definition severity_byte (s : FindingSeverity) : Z :=
  match s with SevWarning => 1 | SevError => 2 end.

Definition decode_mode (v : Z) (cursor : Cursor) : result ExecutionMode ProtocolError :=
  if v =? 0 then Ok Inspect else if v =? 1 then Ok Materialize
  else Err (Cursor.error cursor InvalidEnum "unknown execution mode").
Definition decode_profile (v : Z) (cursor : Cursor) : result InterpretationProfile ProtocolError :=
  if v =? 1 then Ok StrictAsciiV1 else if v =? 2 then Ok StrictAsciiV2
  else Err (Cursor.error cursor InvalidEnum "unknown interpretation profile").
Definition decode_status (v : Z) (cursor : Cursor) : result WorkerStatus ProtocolError :=
  if v =? 1 then Ok Complete else if v =? 2 then Ok Rejected else if v =? 3 then Ok Failed
  else Err (Cursor.error cursor InvalidEnum "unknown worker status").
Definition decode_kind (v : Z) (cursor : Cursor) : result ManifestKind ProtocolError :=
  if v =? 1 then Ok File else if v =? 2 then Ok Directory
  else Err (Cursor.error cursor InvalidEnum "unknown manifest member kind").
Definition decode_severity (v : Z) (cursor : Cursor) : result FindingSeverity ProtocolError :=
  if v =? 1 then Ok SevWarning else if v =? 2 then Ok SevError
  else Err (Cursor.error cursor InvalidEnum "unknown finding severity").

(** [as u16] and [as u32]. *)
Definition as_u16 (v : Z) : Z := v mod 2 ^ 16.
Definition as_u32 (v : Z) : Z := v mod 2 ^ 32.
Definition len (l : list byte) : Z := Z.of_nat (length l).

(** [result_payload_len]. *)
Fixpoint add_entry_lens (total : Z) (manifest : list ManifestEntry) : result Z ProtocolError :=
  match manifest with
  | [] => Ok total
  | entry :: manifest =>
      let? total := ok_or
        (v ← u64_checked_add total MANIFEST_ENTRY_FIXED_BYTES; u64_checked_add v (len (e_path entry)))
        (overflow "manifest encoding length overflowed") in
      add_entry_lens total manifest
  end.
Fixpoint add_finding_lens (total : Z) (findings : list ProtocolFinding) : result Z ProtocolError :=
  match findings with
  | [] => Ok total
  | finding :: findings =>
      let? total := ok_or
        (v ← u64_checked_add total FINDING_FIXED_BYTES;
         v ← u64_checked_add v (len (f_code finding));
         v ← u64_checked_add v (len (f_detail finding));
         u64_checked_add v (from_option len 0 (f_member_path finding)))
        (overflow "finding encoding length overflowed") in
      add_finding_lens total findings
  end.
Definition result_payload_len (r : WorkerResult) : result Z ProtocolError :=
  let? total := add_entry_lens RESULT_FIXED_PAYLOAD_BYTES (r_manifest r) in
  add_finding_lens total (r_findings r).

Section Codec.
Context `{!Allocator}.

Definition allocate_frame (total_len : Z) : result (list byte) ProtocolError :=
  reject MAX_FRAME_BYTES <? total_len with limit 0 "frame exceeds the wire limit" ;;
  reject negb (try_reserve "bounded frame" total_len)
    with new AllocationFailed 0 "could not reserve the bounded frame" ;;
  Ok [].

(** [Cursor::bounded_string]. *)
Definition bounded_string (n : Z) (kind : StringKind) (c : Cursor) :
    result (str * Cursor) ProtocolError :=
  let offset := Cursor.absolute c in
  let? (bytes, c) := Cursor.bytes n c in
  let? borrowed := ok_or (from_utf8 bytes) (new InvalidUtf8 offset "wire string is not UTF-8") in
  let? _ := map_err (fun e => new (pe_kind e) offset (pe_detail e)) (validate_string borrowed kind) in
  reject negb (try_reserve "wire string" n)
    with new AllocationFailed offset "could not reserve a bounded wire string" ;;
  Ok (borrowed, c).

(** ** Start frames *)

Definition encode_start (request : StartRequest) : result (list byte) ProtocolError :=
  let? _ := validate_start request (capability_count request) in
  let? output := allocate_frame START_FRAME_BYTES in
  let? output := encode_header output FRAME_KIND_START START_PAYLOAD_BYTES in
  let output := output ++ operation_id request in
  let output := output ++ [of_u8 (mode_byte (mode request))] in
  let output := output ++ [of_u8 (profile_byte (interpretation_profile request))] in
  let output := output ++ [of_u8 (Z.b2z (member_sync request))] in
  let output := output ++ [x00] in
  let output := push_u16 output (capability_count request) in
  let output := push_u16 output (source_capability request) in
  let output := push_u16 output (from_option id NO_CAPABILITY_SLOT (stage_capability request)) in
  let output := push_u16 output 0 in
  let output := push_u64 output (source_len request) in
  let output := output ++ source_sha256 request in
  let output := output ++ interpretation_profile_sha256 request in
  let output := output ++ policy_sha256 request in
  let lim := limits request in
  let output := push_u64 output (max_archive_bytes lim) in
  let output := push_u64 output (max_files lim) in
  let output := push_u64 output (max_member_bytes lim) in
  let output := push_u64 output (max_total_bytes lim) in
  let output := output ++ [of_u8 (Z.b2z (bool_decide (is_Some (max_ratio lim))))] in
  let output := output ++ zero_bytes 7 in
  let output := push_u64 output (from_option id 0 (max_ratio lim)) in
  let output := push_u32 output (max_path_depth lim) in
  let output := push_u32 output 0 in
  let output := push_u64 output (max_metadata_bytes lim) in
  Ok output.

Definition decode_start (input : list byte) (received_capabilities : Z) :
    result StartRequest ProtocolError :=
  let? payload := decode_header input FRAME_KIND_START in
  reject negb (len payload =? START_PAYLOAD_BYTES)
    with new CountInconsistent FRAME_HEADER_BYTES "start payload has the wrong fixed length" ;;
  let c := Cursor.new payload FRAME_HEADER_BYTES in
  let? (operation_id, c) := Cursor.array 16 c in
  let? (v, c) := Cursor.get_u8 c in let? mode := decode_mode v c in
  let? (v, c) := Cursor.get_u8 c in let? profile := decode_profile v c in
  let? (v, c) := Cursor.get_u8 c in
  let? member_sync := decode_bool v c "invalid member-sync flag" in
  let? (v, c) := Cursor.get_u8 c in
  let? _ := require_zero v c "start reserved byte is nonzero" in
  let? (capability_count, c) := Cursor.get_u16 c in
  let? (source_capability, c) := Cursor.get_u16 c in
  let? (encoded_stage_capability, c) := Cursor.get_u16 c in
  let stage_capability :=
    if encoded_stage_capability =? NO_CAPABILITY_SLOT then None
    else Some encoded_stage_capability in
  let? (v, c) := Cursor.get_u16 c in
  let? _ := require_zero v c "start reserved field is nonzero" in
  let? (source_len, c) := Cursor.get_u64 c in
  let? (source_sha256, c) := Cursor.array 32 c in
  let? (profile_sha256, c) := Cursor.array 32 c in
  let? (policy_sha256, c) := Cursor.array 32 c in
  let? (max_archive_bytes, c) := Cursor.get_u64 c in
  let? (max_files, c) := Cursor.get_u64 c in
  let? (max_member_bytes, c) := Cursor.get_u64 c in
  let? (max_total_bytes, c) := Cursor.get_u64 c in
  let? (v, c) := Cursor.get_u8 c in
  let? max_ratio_present := decode_bool v c "invalid max-ratio presence flag" in
  let? c := Cursor.zeroes 7 "max-ratio reserved bytes are nonzero" c in
  let? (max_ratio_value, c) := Cursor.get_u64 c in
  let? (max_path_depth, c) := Cursor.get_u32 c in
  let? (v, c) := Cursor.get_u32 c in
  let? _ := require_zero v c "limits reserved field is nonzero" in
  let? (max_metadata_bytes, c) := Cursor.get_u64 c in
  let? _ := Cursor.finish c in
  let request :=
    {| operation_id := operation_id; mode := mode; interpretation_profile := profile;
       member_sync := member_sync; capability_count := capability_count;
       source_capability := source_capability; stage_capability := stage_capability;
       source_len := source_len; source_sha256 := source_sha256;
       interpretation_profile_sha256 := profile_sha256; policy_sha256 := policy_sha256;
       limits :=
         {| max_archive_bytes := max_archive_bytes; max_files := max_files;
            max_member_bytes := max_member_bytes; max_total_bytes := max_total_bytes;
            max_ratio := if max_ratio_present then Some max_ratio_value else None;
            max_path_depth := max_path_depth; max_metadata_bytes := max_metadata_bytes |} |} in
  reject negb max_ratio_present && negb (max_ratio_value =? 0)
    with new InvalidSemanticState (FRAME_HEADER_BYTES + 172)
      "absent max ratio has a nonzero value" ;;
  let? _ := validate_start request received_capabilities in
  Ok request.

(** ** Result frames *)

(** The body of the manifest loop of [encode_result], and its findings loop. *)
Definition encode_entry (output : list byte) (entry : ManifestEntry) : list byte :=
  let output := push_u16 output (as_u16 (len (e_path entry))) in
  let output := output ++ [of_u8 (kind_byte (e_kind entry))] in
  let output := output ++ [x00] in
  let output := push_u64 output (e_size entry) in
  let output := output ++ e_sha256 entry in
  output ++ e_path entry.

Definition encode_finding (output : list byte) (finding : ProtocolFinding) : list byte :=
  let output := push_u16 output (as_u16 (len (f_code finding))) in
  let output := push_u16 output (as_u16 (len (f_detail finding))) in
  let output := push_u16 output
    match f_member_path finding with
    | Some path => as_u16 (len path)
    | None => NO_CAPABILITY_SLOT
    end in
  let output := output ++ [of_u8 (severity_byte (f_severity finding))] in
  let output := output ++ [x00] in
  let output := output ++ f_code finding in
  let output := output ++ f_detail finding in
  match f_member_path finding with Some path => output ++ path | None => output end.

Definition encode_result (r : WorkerResult) : result (list byte) ProtocolError :=
  let? _ := validate_result r in
  let? payload_len := result_payload_len r in
  let? total_len := ok_or (u64_checked_add FRAME_HEADER_BYTES payload_len)
    (overflow "result frame length overflowed") in
  reject MAX_FRAME_BYTES <? total_len with limit 0 "result frame exceeds the wire limit" ;;
  let? output := allocate_frame total_len in
  let? output := encode_header output FRAME_KIND_RESULT payload_len in
  let output := output ++ r_operation_id r in
  let output := output ++ [of_u8 (status_byte (r_status r))] in
  let root_flags := Z.lor (Z.b2z (bool_decide (is_Some (r_layout_root r))))
    (Z.shiftl (Z.b2z (bool_decide (is_Some (r_content_root r)))) 1) in
  let output := output ++ [of_u8 root_flags] in
  let output := push_u16 output 0 in
  let output := push_u32 output (as_u32 (Z.of_nat (length (r_manifest r)))) in
  let output := push_u32 output (as_u32 (Z.of_nat (length (r_findings r)))) in
  let output := output ++ r_interpretation_profile_sha256 r in
  let output := output ++ from_option id (zero_bytes 32) (r_layout_root r) in
  let output := output ++ from_option id (zero_bytes 32) (r_content_root r) in
  let output := foldl encode_entry output (r_manifest r) in
  let output := foldl encode_finding output (r_findings r) in
  Ok output.

(** One iteration of the manifest loop of [decode_result]. *)
Definition decode_entry (manifest : list ManifestEntry) (c : Cursor) :
    result (ManifestEntry * Cursor) ProtocolError :=
  let? (path_len, c) := Cursor.get_u16 c in
  reject (path_len =? 0) || (MAX_PATH_BYTES <? path_len)
    with limit (Cursor.absolute c) "manifest path length is outside the limit" ;;
  let? (v, c) := Cursor.get_u8 c in let? kind := decode_kind v c in
  let? (v, c) := Cursor.get_u8 c in
  let? _ := require_zero v c "manifest reserved byte is nonzero" in
  let? (size, c) := Cursor.get_u64 c in
  let? (sha256, c) := Cursor.array 32 c in
  let? (path, c) := bounded_string path_len KPath c in
  reject out_of_order (option_map e_path (last manifest)) path
    with Cursor.error c NonCanonicalOrder "manifest paths are not strictly ordered" ;;
  let entry := {| e_path := path; e_kind := kind; e_size := size; e_sha256 := sha256 |} in
  reject directory_evidence entry
    with Cursor.error c InvalidSemanticState
      "directory manifest entry carries file content evidence" ;;
  Ok (entry, c).

Fixpoint decode_manifest (count : nat) (manifest : list ManifestEntry) (c : Cursor) :
    result (list ManifestEntry * Cursor) ProtocolError :=
  match count with
  | O => Ok (manifest, c)
  | S count =>
      let? (entry, c) := decode_entry manifest c in
      decode_manifest count (manifest ++ [entry]) c
  end.

(** One iteration of the findings loop of [decode_result]. *)
Definition decode_finding (c : Cursor) : result (ProtocolFinding * Cursor) ProtocolError :=
  let? (code_len, c) := Cursor.get_u16 c in
  let? (detail_len, c) := Cursor.get_u16 c in
  let? (encoded_path_len, c) := Cursor.get_u16 c in
  reject (code_len =? 0) || (MAX_FINDING_CODE_BYTES <? code_len)
    with limit (Cursor.absolute c) "finding code length is outside the limit" ;;
  reject MAX_FINDING_DETAIL_BYTES <? detail_len
    with limit (Cursor.absolute c) "finding detail length exceeds the limit" ;;
  reject negb (encoded_path_len =? NO_CAPABILITY_SLOT) && (MAX_PATH_BYTES <? encoded_path_len)
    with limit (Cursor.absolute c) "finding path length exceeds the limit" ;;
  let? (v, c) := Cursor.get_u8 c in let? severity := decode_severity v c in
  let? (v, c) := Cursor.get_u8 c in
  let? _ := require_zero v c "finding reserved byte is nonzero" in
  let? (code, c) := bounded_string code_len KFindingCode c in
  let? (detail, c) := bounded_string detail_len KDetail c in
  let? (member_path, c) :=
    if encoded_path_len =? NO_CAPABILITY_SLOT then Ok (None, c)
    else let? (path, c) := bounded_string encoded_path_len KPath c in Ok (Some path, c) in
  Ok ({| f_severity := severity; f_code := code; f_detail := detail;
         f_member_path := member_path |}, c).

Fixpoint decode_findings (count : nat) (findings : list ProtocolFinding) (c : Cursor) :
    result (list ProtocolFinding * Cursor) ProtocolError :=
  match count with
  | O => Ok (findings, c)
  | S count =>
      let? (finding, c) := decode_finding c in
      decode_findings count (findings ++ [finding]) c
  end.

Definition decode_result (input expected_operation_id : list byte) (received_capabilities : Z) :
    result WorkerResult ProtocolError :=
  reject negb (received_capabilities =? 0)
    with new CapabilityMismatch 0 "worker result must not carry capabilities" ;;
  let? payload := decode_header input FRAME_KIND_RESULT in
  reject len payload <? RESULT_FIXED_PAYLOAD_BYTES
    with new Truncated FRAME_HEADER_BYTES "result fixed payload is truncated" ;;
  let c := Cursor.new payload FRAME_HEADER_BYTES in
  let? (operation_id, c) := Cursor.array 16 c in
  reject negb (bytes_eqb operation_id expected_operation_id)
    with Cursor.error c CorrelationMismatch "worker result operation ID does not match" ;;
  let? (v, c) := Cursor.get_u8 c in let? status := decode_status v c in
  let? (root_flags, c) := Cursor.get_u8 c in
  reject negb (Z.land root_flags (255 - 3) =? 0)
    with Cursor.error c ReservedNonZero "result root flags contain reserved bits" ;;
  let? (v, c) := Cursor.get_u16 c in
  let? _ := require_zero v c "result reserved field is nonzero" in
  let? (member_count, c) := Cursor.get_u32 c in
  let? (finding_count, c) := Cursor.get_u32 c in
  reject MAX_MANIFEST_MEMBERS <? member_count
    with limit (Cursor.absolute c) "manifest member count exceeds the limit" ;;
  reject MAX_FINDINGS <? finding_count
    with limit (Cursor.absolute c) "finding count exceeds the limit" ;;
  let? (profile_sha256, c) := Cursor.array 32 c in
  let? (layout_bytes, c) := Cursor.array 32 c in
  let? (content_bytes, c) := Cursor.array 32 c in
  let? layout_root := decode_optional_digest (negb (Z.land root_flags 1 =? 0)) layout_bytes c in
  let? content_root := decode_optional_digest (negb (Z.land root_flags 2 =? 0)) content_bytes c in
  let? minimum_member_bytes := ok_or (u64_checked_mul member_count (MANIFEST_ENTRY_FIXED_BYTES + 1))
    (overflow "minimum manifest length overflowed") in
  reject Cursor.remaining c <? minimum_member_bytes
    with Cursor.error c CountInconsistent "manifest count cannot fit in the remaining payload" ;;
  reject negb (try_reserve "bounded manifest" member_count)
    with Cursor.error c AllocationFailed "could not reserve the bounded manifest" ;;
  let? (manifest, c) := decode_manifest (Z.to_nat member_count) [] c in
  let? minimum_finding_bytes := ok_or (u64_checked_mul finding_count (FINDING_FIXED_BYTES + 1))
    (overflow "minimum finding length overflowed") in
  reject Cursor.remaining c <? minimum_finding_bytes
    with Cursor.error c CountInconsistent "finding count cannot fit in the remaining payload" ;;
  reject negb (try_reserve "bounded findings" finding_count)
    with Cursor.error c AllocationFailed "could not reserve the bounded findings" ;;
  let? (findings, c) := decode_findings (Z.to_nat finding_count) [] c in
  let? _ := Cursor.finish c in
  let r :=
    {| r_operation_id := operation_id; r_status := status;
       r_interpretation_profile_sha256 := profile_sha256; r_layout_root := layout_root;
       r_content_root := content_root; r_manifest := manifest; r_findings := findings |} in
  let? _ := validate_result r in
  Ok r.

Definition decode_result_for_request (input : list byte) (request : StartRequest)
    (received_capabilities : Z) : result WorkerResult ProtocolError :=
  let? _ := validate_start request (capability_count request) in
  let? r := decode_result input (operation_id request) received_capabilities in
  let? _ := validate_result_for_request r request in
  Ok r.
End Codec.
