(* ===== verification/ProtocolValid.v ===== *)
(** * The protocol validators and the start frame ([sealr-protocol/src/lib.rs])

    Declarative readings of [validate_start], [validate_result],
    [validate_manifest_topology] and [validate_result_for_request], and the
    proofs that the validators accept exactly what these readings allow.
    [decode_start] accepts exactly the outputs of [encode_start], one input
    per request: the frame format is canonical. *)

From Stdlib Require Import Sorted.
From S2P Require Import Prelude Utf8 Paths Protocol ProtocolCodec.
Local Open Scope Z_scope.

(** ** Specification *)

(** [anc] is a proper ancestor directory of [path]. *)
Record manifest_coherent (m : list ManifestEntry) : Prop := {
  mc_paths : Forall (fun e => valid_string (e_path e) KPath = true) m;
  mc_sorted : StronglySorted str_lt (map e_path m);
  mc_directories : Forall (fun e => e_kind e = Directory ->
    e_size e = 0 /\ e_sha256 e = zero_bytes 32) m;
  mc_topology : forall f e, f ∈ m -> e ∈ m -> e_kind f = File -> ~ ancestor_of (e_path f) (e_path e)
}.

Definition finding_valid (f : ProtocolFinding) : Prop :=
  valid_string (f_code f) KFindingCode = true /\ valid_string (f_detail f) KDetail = true
  /\ (forall p, f_member_path f = Some p -> valid_string p KPath = true).
Definition reports_error (fs : list ProtocolFinding) : Prop :=
  exists f, f ∈ fs /\ f_severity f = SevError.

(** A complete result has both roots and no error; any other has an error,
    no manifest and no content root. *)
Definition status_coherent (r : WorkerResult) : Prop :=
  match r_status r with
  | Complete => is_Some (r_layout_root r) /\ is_Some (r_content_root r) /\ ~ reports_error (r_findings r)
  | Rejected | Failed => r_manifest r = [] /\ r_content_root r = None /\ reports_error (r_findings r)
  end.

Record result_coherent (r : WorkerResult) : Prop := {
  rc_operation : r_operation_id r <> zero_bytes 16;
  rc_members : Z.of_nat (length (r_manifest r)) <= MAX_MANIFEST_MEMBERS;
  rc_findings : Z.of_nat (length (r_findings r)) <= MAX_FINDINGS;
  rc_status : status_coherent r;
  rc_manifest : manifest_coherent (r_manifest r);
  rc_finding : Forall finding_valid (r_findings r)
}.

(** The capability slots of each mode: the source alone, or the source and
    the stage in the two distinct slots. *)
Definition slots_coherent (q : StartRequest) : Prop :=
  match mode q with
  | Inspect => capability_count q = 1 /\ stage_capability q = None /\ source_capability q < 1
  | Materialize => capability_count q = 2 /\ source_capability q < 2 /\
      exists stage, stage_capability q = Some stage /\ stage < 2 /\ stage <> source_capability q
  end.
Record start_coherent (q : StartRequest) : Prop := {
  sc_operation : operation_id q <> zero_bytes 16;
  sc_slots : slots_coherent q;
  sc_source : source_len q <= max_archive_bytes (limits q)
}.

Definition file_bytes (m : list ManifestEntry) : Z :=
  foldr Z.add 0 (map e_size (filter (fun e => e_kind e = File) m)).

Record within_request (q : StartRequest) (r : WorkerResult) : Prop := {
  wr_operation : r_operation_id r = operation_id q;
  wr_profile : r_interpretation_profile_sha256 r = interpretation_profile_sha256 q;
  wr_files : Z.of_nat (length (r_manifest r)) <= max_files (limits q);
  wr_depth : Forall (fun e => path_depth (e_path e) <= max_path_depth (limits q)) (r_manifest r);
  wr_member : Forall (fun e => e_kind e = File -> e_size e <= max_member_bytes (limits q)) (r_manifest r);
  wr_total : file_bytes (r_manifest r) <= max_total_bytes (limits q)
}.

(** ** Start requests *)


Lemma bytes_eqb_eq a b : bytes_eqb a b = true <-> a = b.
Proof. unfold bytes_eqb. apply bool_decide_eq_true. Qed.
Lemma bytes_eqb_ne a b : bytes_eqb a b = false <-> a <> b.
Proof. unfold bytes_eqb. apply bool_decide_eq_false. Qed.

Lemma validate_start_ok q n :
  validate_start q n = Ok () <-> start_coherent q /\ n = capability_count q.
Proof.
  unfold validate_start, slots_coherent. split.
  - intros Hv. ok_steps Hv. breflect. apply bytes_eqb_ne in Hs. split; [split; [done| |done]|done].
    unfold slots_coherent. destruct (mode q); ok_steps Hs2; breflect.
    + match goal with Hb : bool_decide _ = false |- _ => apply bool_decide_eq_false in Hb end.
      split_and!; [done| |lia]. destruct (stage_capability q) as [v|]; [|done].
      match goal with Hb : ~ is_Some _ |- _ => by destruct Hb end.
    + match goal with Hb : ok_or _ _ = Ok _ |- _ => apply ok_or_ok in Hb end. split_and!; [done|lia|]. eexists. split; [done|]. lia.
  - intros [[Ho Hsl Hsrc] ->]. unfold slots_coherent in Hsl.
    rewrite (proj2 (bytes_eqb_ne _ _)) by done. unfold MAX_CAPABILITIES.
    destruct (mode q).
    + destruct Hsl as (Hc & Hst & Hs). rewrite Hc, Hst, (proj2 (Z.leb_gt _ _)), (proj2 (Z.ltb_ge (max_archive_bytes _) _)) by lia.
      done.
    + destruct Hsl as (Hc & Hs & stage & -> & Hst & Hne). rewrite Hc. cbn [ok_or].
      rewrite !(proj2 (Z.leb_gt _ _)), (proj2 (Z.eqb_neq stage _)), (proj2 (Z.ltb_ge (max_archive_bytes _) _)) by lia.
      done.
Qed.

(** ** Binary search *)

Section BinarySearch.
Context {A} (f : A -> comparison) (l : list A) (k : nat) (x : A).
Context (Hk : l !! k = Some x) (Hx : f x = Eq).
Context (Hlt : forall i y, l !! i = Some y -> (i < k)%nat -> f y = Lt).
Context (Hgt : forall i y, l !! i = Some y -> (k < i)%nat -> f y = Gt).

Lemma binary_search_loop_finds fuel base size :
  (size <= fuel)%nat -> (base <= k < base + size)%nat -> (base + size <= length l)%nat ->
  binary_search_loop fuel f l base size = k.
Proof.
  revert base size. induction fuel as [|fuel IH]; intros base size Hf Hb Hl; [lia|].
  cbn [binary_search_loop]. destruct (Nat.ltb_spec 1 size); [|lia].
  pose proof (Nat.div_mod_eq size 2). pose proof (Nat.mod_upper_bound size 2 ltac:(lia)).
  destruct (lookup_lt_is_Some_2 l (base + size / 2)) as [y Hy]; [lia|]. rewrite Hy. cbn [option_map].
  destruct (Nat.lt_trichotomy (base + size / 2) k) as [Hlo|[Heq|Hhi]].
  - rewrite (Hlt _ _ Hy Hlo). apply IH; lia.
  - rewrite Heq, Hk in Hy. simplify_eq. rewrite Hx. apply IH; lia.
  - rewrite (Hgt _ _ Hy Hhi). apply IH; lia.
Qed.

Lemma binary_search_by_finds : binary_search_by f l = Some k.
Proof.
  pose proof (lookup_lt_Some _ _ _ Hk). unfold binary_search_by.
  rewrite (proj2 (Nat.eqb_neq _ _)) by lia.
  rewrite binary_search_loop_finds by lia. rewrite Hk. simpl. by rewrite Hx.
Qed.
End BinarySearch.

Lemma binary_search_by_eq {A} (f : A -> comparison) l i :
  binary_search_by f l = Some i -> exists x, l !! i = Some x /\ f x = Eq.
Proof.
  unfold binary_search_by. intros Hb. repeat case_match; simplify_eq.
  destruct (l !! _) as [x|] eqn:Hx; simpl in *; simplify_eq. eauto.
Qed.

Lemma StronglySorted_lookup {A} (R : A -> A -> Prop) l i j x y :
  StronglySorted R l -> l !! i = Some x -> l !! j = Some y -> (i < j)%nat -> R x y.
Proof.
  intros Hs. revert i j. induction Hs as [|a l Hs IH Ha]; intros [|i] [|j] Hi Hj Hij; simpl in *; try done; try lia.
  - simplify_eq. rewrite Forall_lookup in Ha. eauto.
  - eapply IH; [done..|lia].
Qed.

(** On a sorted manifest the search decides membership. *)
Lemma file_ancestor_spec m anc :
  StronglySorted str_lt (map e_path m) ->
  file_ancestor m anc = true <-> exists f, f ∈ m /\ e_path f = anc /\ e_kind f = File.
Proof.
  intros Hs. unfold file_ancestor. split.
  - destruct (binary_search_by _ m) as [i|] eqn:Hb; [|done].
    apply binary_search_by_eq in Hb as (e & He & Heq). rewrite He. intros Hk%bool_decide_eq_true.
    exists e. split; [by eapply list_elem_of_lookup_2|]. by apply str_cmp_eq in Heq.
  - intros (f & Hf & <- & Hk). apply list_elem_of_lookup in Hf as [i Hi].
    rewrite (binary_search_by_finds _ m i f Hi).
    + rewrite Hi. by apply bool_decide_eq_true.
    + by apply str_cmp_eq.
    + intros j e Hj Hij. eapply (StronglySorted_lookup str_lt); [exact Hs| |by rewrite list_lookup_fmap, Hi|done].
      by rewrite list_lookup_fmap, Hj.
    + intros j e Hj Hij. rewrite str_cmp_antisym.
      replace (str_cmp (e_path f) (e_path e)) with Lt; [done|]. symmetry.
      eapply (StronglySorted_lookup str_lt); [exact Hs|by rewrite list_lookup_fmap, Hi| |done].
      by rewrite list_lookup_fmap, Hj.
Qed.

Lemma existsb_elem_of {A} (f : A -> bool) l : existsb f l = true <-> exists x, x ∈ l /\ f x = true.
Proof.
  rewrite existsb_exists. split; intros (x & Hx & Hf); exists x; (split; [|done]); by apply list_elem_of_In.
Qed.

Lemma validate_manifest_topology_ok m :
  StronglySorted str_lt (map e_path m) ->
  validate_manifest_topology m = Ok () <->
  (forall f e, f ∈ m -> e ∈ m -> e_kind f = File -> ~ ancestor_of (e_path f) (e_path e)).
Proof.
  intros Hs. unfold validate_manifest_topology.
  destruct (existsb _ m) eqn:He; split; intros Hv; try done.
  - exfalso. apply existsb_elem_of in He as (e & Hin & He). apply existsb_elem_of in He as (a & Ha & He).
    apply file_ancestor_spec in He as (f & Hf & <- & Hk); [|done]. apply ancestors_spec in Ha.
    exact (Hv f e Hf Hin Hk Ha).
  - intros f e Hf Hin Hk Ha. apply ancestors_spec in Ha. apply not_true_iff_false in He. apply He.
    apply existsb_elem_of. exists e. split; [done|]. apply existsb_elem_of. exists (e_path f).
    split; [done|]. apply file_ancestor_spec; eauto.
Qed.

(** ** Results *)

Lemma validate_string_ok v k : validate_string v k = Ok () <-> valid_string v k = true.
Proof. unfold validate_string. destruct (valid_string v k); done. Qed.

Lemma directory_evidence_false e :
  directory_evidence e = false <-> (e_kind e = Directory -> e_size e = 0 /\ e_sha256 e = zero_bytes 32).
Proof.
  unfold directory_evidence. case_bool_decide as Hk; simpl; [|by split].
  rewrite orb_false_iff, !negb_false_iff, Z.eqb_eq, bytes_eqb_eq. tauto.
Qed.

Lemma out_of_order_false prev p :
  out_of_order prev p = false <-> (forall q, prev = Some q -> str_lt q p).
Proof.
  unfold out_of_order. destruct prev as [q|]; [|by split].
  rewrite negb_false_iff, bool_decide_eq_true. split; [by intros ? ? [= <-]|eauto].
Qed.

Definition entry_ok (e : ManifestEntry) : Prop :=
  valid_string (e_path e) KPath = true
  /\ (e_kind e = Directory -> e_size e = 0 /\ e_sha256 e = zero_bytes 32).

Lemma validate_entries_ok prev m :
  validate_entries prev m = Ok () <->
  Forall entry_ok m /\ StronglySorted str_lt (option_list prev ++ map e_path m).
Proof.
  revert prev. induction m as [|e m IH]; intros prev.
  - simpl. split; [|done]. intros _. split; [constructor|].
    destruct prev; simpl; repeat constructor.
  - cbn [validate_entries map]. rewrite Forall_cons. split.
    + intros Hv. ok_steps Hv. units. apply validate_string_ok in Hs.
      rewrite out_of_order_false in Hs0. rewrite directory_evidence_false in Hs1.
      apply IH in Hv as [Hf Hsorted]. simpl in Hsorted. split; [done|].
      destruct prev as [q|]; [|done]. simpl. constructor; [done|].
      specialize (Hs0 q eq_refl). apply StronglySorted_inv in Hsorted as [_ Hall].
      constructor; [done|]. eapply Forall_impl; [exact Hall|]. intros p Hp. by etrans.
    + intros [[[Hp Hd] Hf] Hsorted]. rewrite (proj2 (validate_string_ok _ _)) by done.
      rewrite (proj2 (directory_evidence_false e)) by done.
      assert (out_of_order prev (e_path e) = false) as ->.
      { apply out_of_order_false. intros q ->. simpl in Hsorted.
        apply StronglySorted_inv in Hsorted as [_ Hall]. by apply Forall_cons in Hall as [? _]. }
      apply IH. split; [done|]. simpl. destruct prev; [|done].
      by apply StronglySorted_inv in Hsorted as [? _].
Qed.

Lemma validate_findings_ok fs : validate_findings fs = Ok () <-> Forall finding_valid fs.
Proof.
  induction fs as [|f fs IH]; [by split; [constructor|]|]. cbn [validate_findings].
  rewrite Forall_cons, <- IH. unfold finding_valid. split.
  - intros Hv. ok_steps Hv. units.
    apply validate_string_ok in Hs, Hs0. split; [|done]. split; [done|]. split; [done|].
    intros p Hp. rewrite Hp in Hs1. by apply validate_string_ok in Hs1.
  - intros [(Hc & Hd & Hp) Hv]. rewrite !(proj2 (validate_string_ok _ _)) by done.
    destruct (f_member_path f) as [p|]; [|done].
    by rewrite (proj2 (validate_string_ok _ _)) by auto.
Qed.

Lemma has_error_spec fs : has_error fs = true <-> reports_error fs.
Proof.
  unfold has_error. rewrite existsb_elem_of. unfold reports_error.
  setoid_rewrite bool_decide_eq_true. done.
Qed.

Lemma validate_status_ok r : validate_status r = Ok () <-> status_coherent r.
Proof.
  unfold validate_status, status_coherent. pose proof (has_error_spec (r_findings r)) as Hh.
  destruct (r_status r).
  - destruct (r_layout_root r), (r_content_root r), (has_error (r_findings r)) eqn:E; simpl;
      (split; [intros Hv|intros (Hl & Hc & He)]); try done; try by destruct Hl; try by destruct Hc.
    all: try (exfalso; tauto). split_and!; [done..|]. intros Hr. apply Hh in Hr. congruence.
  - destruct (r_manifest r), (r_content_root r), (has_error (r_findings r)) eqn:E; simpl;
      (split; [intros Hv|intros (Hl & Hc & He)]); try done; try tauto.
    apply Hh in He. congruence.
  - destruct (r_manifest r), (r_content_root r), (has_error (r_findings r)) eqn:E; simpl;
      (split; [intros Hv|intros (Hl & Hc & He)]); try done; try tauto.
    apply Hh in He. congruence.
Qed.

Lemma manifest_coherent_iff m :
  manifest_coherent m <->
  validate_entries None m = Ok () /\ validate_manifest_topology m = Ok ().
Proof.
  rewrite validate_entries_ok. simpl. unfold entry_ok. rewrite Forall_and. split.
  - intros [Hp Hs Hd Ht]. split; [done|]. by apply validate_manifest_topology_ok.
  - intros [[[Hp Hd] Hs] Ht]. split; try done. by apply validate_manifest_topology_ok.
Qed.

Lemma validate_result_ok r : validate_result r = Ok () <-> result_coherent r.
Proof.
  unfold validate_result. split.
  - intros Hv. ok_steps Hv. units. breflect. apply bytes_eqb_ne in Hs.
    split; [done..| | |].
    + by apply validate_status_ok.
    + by apply manifest_coherent_iff.
    + by apply validate_findings_ok.
  - intros [Ho Hm Hf Hst [He Ht]%manifest_coherent_iff Hfs].
    rewrite (proj2 (bytes_eqb_ne _ _)) by done. rewrite !(proj2 (Z.ltb_ge _ _)) by done.
    rewrite (proj2 (validate_status_ok r)), He, Ht by done. by apply validate_findings_ok.
Qed.

(** ** Request limits *)

Lemma file_bytes_cons e m :
  file_bytes (e :: m) = (if bool_decide (e_kind e = File) then e_size e else 0) + file_bytes m.
Proof. unfold file_bytes. rewrite filter_cons. repeat case_decide || case_bool_decide; done || lia. Qed.

Lemma file_bytes_nonneg m : Forall (fun e => 0 <= e_size e) m -> 0 <= file_bytes m.
Proof.
  induction 1 as [|e m He _ IH]; [done|]. rewrite file_bytes_cons. case_bool_decide; lia.
Qed.

Lemma check_manifest_limits_ok lim total m :
  max_total_bytes lim <= u64_max -> Forall (fun e => 0 <= e_size e) m ->
  total <= max_total_bytes lim ->
  check_manifest_limits lim total m = Ok () <->
  Forall (fun e => path_depth (e_path e) <= max_path_depth lim) m
  /\ Forall (fun e => e_kind e = File -> e_size e <= max_member_bytes lim) m
  /\ total + file_bytes m <= max_total_bytes lim.
Proof.
  intros Hu Hm. revert total. induction Hm as [|e m He Hm IH]; intros total Ht.
  - split; [|done]. intros _. split_and!; [constructor..|]. unfold file_bytes. simpl. lia.
  - pose proof (file_bytes_nonneg m Hm). cbn [check_manifest_limits].
    rewrite !Forall_cons, file_bytes_cons.
    destruct (Z.ltb_spec (max_path_depth lim) (path_depth (e_path e))); [split; [done|lia]|].
    case_bool_decide as Hk; [|rewrite IH by done; split; [intros (? & ? & ?)|intros ((? & ?) & (? & ?) & ?)]; split_and!; done].
    destruct (Z.ltb_spec (max_member_bytes lim) (e_size e)); [split; [done|intros (_ & [Hf _] & _); specialize (Hf Hk); lia]|].
    destruct (u64_checked_add total (e_size e)) as [t|] eqn:Hadd; cbn [ok_or].
    + apply u64_checked_add_Some in Hadd as [-> Hadd].
      destruct (Z.ltb_spec (max_total_bytes lim) (total + e_size e)); [split; [done|lia]|].
      rewrite IH by lia. rewrite Z.add_assoc.
      split; [intros (? & ? & ?)|intros ((? & ?) & (? & ?) & ?)]; split_and!; done.
    + apply u64_checked_add_None in Hadd. split; [done|lia].
Qed.

Lemma validate_result_for_request_ok r q :
  0 <= max_total_bytes (limits q) <= u64_max -> Forall (fun e => 0 <= e_size e) (r_manifest r) ->
  validate_result_for_request r q = Ok () <->
  start_coherent q /\ result_coherent r /\ within_request q r.
Proof.
  intros Hu Hm. unfold validate_result_for_request. split.
  - intros Hv. ok_steps Hv. units. breflect. apply validate_start_ok in Hs as [Hs _].
    apply validate_result_ok in Hs0. apply bytes_eqb_eq in Hs1, Hs2.
    apply check_manifest_limits_ok in Hv as (Hd & Hf & Ht); [|lia|done|lia]. done.
  - intros (Hs & Hr & [Ho Hp Hf Hd Hmb Ht]).
    rewrite (proj2 (validate_start_ok q _)), (proj2 (validate_result_ok r)) by done.
    rewrite !(proj2 (bytes_eqb_eq _ _)), (proj2 (Z.ltb_ge _ _)) by done. cbn [negb].
    apply check_manifest_limits_ok; [lia|done|lia|]. by split_and!.
Qed.

(** ** Theorems *)

(** [validate_result] accepts exactly the coherent results: bounded counts, a
    status that matches the roots, the manifest and the findings, canonical
    paths in strict order, no content evidence on directories, no file that
    is an ancestor directory of another entry, and findings in the wire
    language. *)
Theorem validate_result_accepts_iff r : validate_result r = Ok () <-> result_coherent r.
Proof. apply validate_result_ok. Qed.

(** C35: A manifest accepted by [validate_result] is a file tree: no path occurs
    twice and nothing lives below a file. *)
Theorem validated_manifest_is_tree r :
  validate_result r = Ok () ->
  NoDup (map e_path (r_manifest r)) /\
  forall f e, f ∈ r_manifest r -> e ∈ r_manifest r -> e_kind f = File ->
    ~ ancestor_of (e_path f) (e_path e).
Proof.
  intros [_ _ _ _ [_ Hs _ Ht] _]%validate_result_ok. split; [|done].
  clear Ht. induction Hs as [|p ps _ IH Hp]; constructor; [|done].
  intros Hin. rewrite Forall_forall in Hp. specialize (Hp p Hin). by apply (irreflexivity str_lt p).
Qed.

Definition example_entry (path : string) (kind : ManifestKind) (size : Z) : ManifestEntry :=
  {| e_path := lit path; e_kind := kind; e_size := size; e_sha256 := zero_bytes 32 |}.
Definition example_result (manifest : list ManifestEntry) : WorkerResult :=
  {| r_operation_id := replicate 16 x07; r_status := Complete;
     r_interpretation_profile_sha256 := zero_bytes 32;
     r_layout_root := Some (replicate 32 x01); r_content_root := Some (replicate 32 x02);
     r_manifest := manifest;
     r_findings := [{| f_severity := SevWarning; f_code := lit "zip.comment";
                       f_detail := lit "ignored"; f_member_path := Some (lit "a/b.txt") |}] |}.
Definition example_tree : WorkerResult :=
  example_result [example_entry "a" Directory 0; example_entry "a/b.txt" File 5;
                  example_entry "c" File 7].

Lemma validated_manifest_is_tree_witness :
  NoDup (map e_path (r_manifest example_tree))
  /\ validate_result (example_result [example_entry "a" File 1; example_entry "a/b" File 2])
     = Err (invalid_state "manifest file is an ancestor of another object").
Proof.
  split; [|vm_compute; reflexivity].
  exact (proj1 (validated_manifest_is_tree example_tree ltac:(vm_compute; reflexivity))).
Defined.

(** ** Start frames: decoding inverts encoding *)

(** ** The ranges of the Rust types *)

Record limits_wf (lim : ResourceLimits) : Prop := {
  lw_archive : is_u64 (max_archive_bytes lim);
  lw_files : is_u64 (max_files lim);
  lw_member : is_u64 (max_member_bytes lim);
  lw_total : is_u64 (max_total_bytes lim);
  lw_ratio : forall v, max_ratio lim = Some v -> is_u64 v;
  lw_depth : is_u32 (max_path_depth lim);
  lw_metadata : is_u64 (max_metadata_bytes lim)
}.
Record start_wf (q : StartRequest) : Prop := {
  sw_operation : length (operation_id q) = 16%nat;
  sw_count : is_u16 (capability_count q);
  sw_source : is_u16 (source_capability q);
  sw_stage : forall v, stage_capability q = Some v -> is_u16 v;
  sw_len : is_u64 (source_len q);
  sw_source_sha : length (source_sha256 q) = 32%nat;
  sw_profile_sha : length (interpretation_profile_sha256 q) = 32%nat;
  sw_policy_sha : length (policy_sha256 q) = 32%nat;
  sw_limits : limits_wf (limits q)
}.

(** ** The wire layout *)

Definition frame_header (kind payload_len : Z) : list byte :=
  FRAME_MAGIC ++ le_bytes 2 PROTOCOL_VERSION ++ le_bytes 1 kind ++ [x00] ++ le_bytes 4 payload_len.

Definition start_payload (q : StartRequest) : list byte :=
  let lim := limits q in
  operation_id q ++ le_bytes 1 (mode_byte (mode q)) ++ le_bytes 1 (profile_byte (interpretation_profile q))
  ++ le_bytes 1 (Z.b2z (member_sync q)) ++ le_bytes 1 0 ++ le_bytes 2 (capability_count q)
  ++ le_bytes 2 (source_capability q)
  ++ le_bytes 2 (from_option id NO_CAPABILITY_SLOT (stage_capability q)) ++ le_bytes 2 0
  ++ le_bytes 8 (source_len q) ++ source_sha256 q ++ interpretation_profile_sha256 q ++ policy_sha256 q
  ++ le_bytes 8 (max_archive_bytes lim) ++ le_bytes 8 (max_files lim) ++ le_bytes 8 (max_member_bytes lim)
  ++ le_bytes 8 (max_total_bytes lim) ++ le_bytes 1 (Z.b2z (bool_decide (is_Some (max_ratio lim))))
  ++ replicate 7 x00 ++ le_bytes 8 (from_option id 0 (max_ratio lim)) ++ le_bytes 4 (max_path_depth lim)
  ++ le_bytes 4 0 ++ le_bytes 8 (max_metadata_bytes lim).

Lemma le_bytes_1 z : le_bytes 1 z = [of_u8 z].
Proof. simpl. unfold of_u8. by rewrite Z.mod_mod. Qed.

Lemma length_frame_header k n : length (frame_header k n) = 16%nat.
Proof. reflexivity. Qed.

Lemma decode_header_ok bs k payload :
  0 <= k <= 255 ->
  decode_header bs k = Ok payload <->
  bs = frame_header k (len payload) ++ payload /\ FRAME_HEADER_BYTES + len payload <= MAX_FRAME_BYTES.
Proof.
  intros Hk. unfold decode_header, len. split.
  - intros Hd. ok_steps Hd. breflect. apply ok_or_ok, u64_checked_add_Some in Hs5 as [-> _].
    unfold FRAME_HEADER_BYTES in *.
    apply bytes_eqb_eq in Hs1. assert (16 <= length bs)%nat by lia.
    assert (Hcut : bs = slice 0 8 bs ++ slice 8 10 bs ++ slice 10 11 bs ++ slice 11 12 bs
      ++ slice 12 16 bs ++ drop 16 bs).
    { rewrite <- (take_drop 16 bs) at 1. rewrite !app_assoc. f_equal.
      rewrite <- !slice_join by lia. unfold slice. by rewrite drop_0. }
    injection Hd as <-. split; [|rewrite length_drop; lia].
    rewrite Hcut at 1. unfold frame_header. rewrite Hs1, <- !app_assoc. f_equal.
    rewrite <- (le_bytes_le_value (slice 8 10 bs)), Hs2, length_slice by lia. f_equal.
    rewrite !slice_one by lia. rewrite le_bytes_1, <- Hs3, of_u8_u8. simpl. f_equal.
    rewrite (u8_inj (at_ bs 11) x00) by done. f_equal.
    rewrite <- (le_bytes_le_value (slice 12 16 bs)), length_slice by lia.
    replace (le_value (slice 12 16 bs)) with (Z.of_nat (length (drop 16 bs)));
      [done|rewrite length_drop; lia].
  - intros [-> Hmax]. unfold FRAME_HEADER_BYTES, MAX_FRAME_BYTES in *.
    pose proof (length_frame_header k (Z.of_nat (length payload))) as Hh.
    rewrite length_app, Hh, (proj2 (Z.ltb_ge _ _)), (proj2 (Z.ltb_ge _ 16)) by lia.
    unfold at_. rewrite !slice_app_l, !app_nth1 by lia. rewrite drop_app, drop_ge, Hh by lia.
    change (slice 0 8 (frame_header _ _)) with FRAME_MAGIC.
    change (slice 8 10 (frame_header _ _)) with (le_bytes 2 1).
    change (nth 10 (frame_header _ _) x00) with (of_u8 (k mod 256)).
    change (nth 11 (frame_header _ _) x00) with x00.
    replace (slice 12 16 (frame_header k (Z.of_nat (length payload))))
      with (le_bytes 4 (Z.of_nat (length payload))) by done.
    rewrite (le_value_le_bytes 2 1), (le_value_le_bytes 4) by (simpl; lia).
    rewrite Z.mod_small, u8_of_u8 by lia. change (1 =? PROTOCOL_VERSION) with true. cbn [negb].
    unfold u64_checked_add. rewrite (proj2 (Z.leb_le _ _)) by (unfold u64_max; lia). cbn [ok_or].
    rewrite !(proj2 (Z.ltb_ge _ _)) by lia. rewrite (Z.eqb_refl k). reflexivity.
Qed.

Lemma encode_header_ok kind payload_len output :
  0 <= payload_len <= u32_max ->
  encode_header output kind payload_len = Ok (output ++ frame_header kind payload_len).
Proof.
  intros Hp. unfold encode_header, push_u16, push_u32, frame_header.
  rewrite (proj2 (Z.ltb_ge _ _)), le_bytes_1 by lia. by rewrite <- !app_assoc.
Qed.

Lemma frame_header_inj k n m p1 p2 :
  frame_header k n ++ p1 = frame_header k m ++ p2 -> p1 = p2.
Proof. intros E. by apply (f_equal (drop 16)) in E. Qed.

(** ** Enumerations *)

Lemma decode_mode_ok v c m : decode_mode v c = Ok m <-> v = mode_byte m.
Proof.
  unfold decode_mode. destruct (Z.eqb_spec v 0); [|destruct (Z.eqb_spec v 1)];
    destruct m; simpl; split; intros; simplify_eq; done || lia.
Qed.
Lemma decode_profile_ok v c p : decode_profile v c = Ok p <-> v = profile_byte p.
Proof.
  unfold decode_profile. destruct (Z.eqb_spec v 1); [|destruct (Z.eqb_spec v 2)];
    destruct p; simpl; split; intros; simplify_eq; done || lia.
Qed.
Lemma decode_status_ok v c s : decode_status v c = Ok s <-> v = status_byte s.
Proof.
  unfold decode_status. destruct (Z.eqb_spec v 1); [|destruct (Z.eqb_spec v 2); [|destruct (Z.eqb_spec v 3)]];
    destruct s; simpl; split; intros; simplify_eq; done || lia.
Qed.
Lemma decode_kind_ok v c k : decode_kind v c = Ok k <-> v = kind_byte k.
Proof.
  unfold decode_kind. destruct (Z.eqb_spec v 1); [|destruct (Z.eqb_spec v 2)];
    destruct k; simpl; split; intros; simplify_eq; done || lia.
Qed.
Lemma decode_severity_ok v c s : decode_severity v c = Ok s <-> v = severity_byte s.
Proof.
  unfold decode_severity. destruct (Z.eqb_spec v 1); [|destruct (Z.eqb_spec v 2)];
    destruct s; simpl; split; intros; simplify_eq; done || lia.
Qed.

Lemma zeroes_sound n d c c' :
  cursor_ok c -> 0 <= n -> Cursor.zeroes n d c = Ok c' ->
  cursor_ok c' /\ rest c = replicate (Z.to_nat n) x00 ++ rest c'.
Proof.
  intros Hok Hn Hz. apply zeroes_ok in Hz as [Hr ->]; [|done..]. split; [|done].
  apply advance_ok in Hr as [Hr _]; [|done]. by rewrite length_replicate, Z2Nat.id in Hr.
Qed.

Lemma zeroes_complete n d c r :
  cursor_ok c -> 0 <= n -> rest c = replicate (Z.to_nat n) x00 ++ r ->
  exists c', Cursor.zeroes n d c = Ok c' /\ cursor_ok c' /\ rest c' = r.
Proof.
  intros Hok Hn Hr. destruct (advance_ok _ _ _ Hok Hr) as [Hok' Hr'].
  rewrite length_replicate, Z2Nat.id in * by lia. exists (Cursor.advance c n).
  split; [|done]. apply zeroes_ok; [done..|]. by rewrite Hr'.
Qed.

Lemma pow_u16 v : 0 <= v < 256 ^ 2 <-> is_u16 v.
Proof. unfold is_u16, u16_max. lia. Qed.
Lemma pow_u32 v : 0 <= v < 256 ^ 4 <-> is_u32 v.
Proof. unfold is_u32, u32_max. lia. Qed.
Lemma pow_u64 v : 0 <= v < 256 ^ 8 <-> is_u64 v.
Proof. unfold is_u64, u64_max. lia. Qed.

Lemma mode_byte_range m : 0 <= mode_byte m < 256 ^ 1.
Proof. destruct m; simpl; lia. Qed.
Lemma profile_byte_range p : 0 <= profile_byte p < 256 ^ 1.
Proof. destruct p; simpl; lia. Qed.
Lemma b2z_range b : 0 <= Z.b2z b < 256 ^ 1.
Proof. destruct b; simpl; lia. Qed.

Lemma status_byte_range s : 0 <= status_byte s < 256 ^ 1.
Proof. destruct s; simpl; lia. Qed.
Lemma kind_byte_range k : 0 <= kind_byte k < 256 ^ 1.
Proof. destruct k; simpl; lia. Qed.
Lemma severity_byte_range s : 0 <= severity_byte s < 256 ^ 1.
Proof. destruct s; simpl; lia. Qed.
Create HintDb wire.
#[export] Hint Resolve mode_byte_range profile_byte_range b2z_range status_byte_range
  kind_byte_range severity_byte_range : wire.

(** The range a codec asks of the value it is to read. *)
Ltac wire_range :=
  cbv beta; first [done | by auto with wire | by apply pow_u16 | by apply pow_u32 | by apply pow_u64
                  | simpl; lia].

Ltac ranges :=
  repeat match goal with
  | Hv : 0 <= _ < 256 ^ 2 |- _ => apply pow_u16 in Hv
  | Hv : 0 <= _ < 256 ^ 4 |- _ => apply pow_u32 in Hv
  | Hv : 0 <= _ < 256 ^ 8 |- _ => apply pow_u64 in Hv
  end.

(** ** Reading forwards and backwards *)

(** [reads codec v]: the next field of the known input holds [v]. *)
Ltac reads cd v :=
  let c' := fresh "c" in let Hok := fresh "Hok" in let Hr := fresh "Hr" in
  match goal with
  | Hok0 : cursor_ok ?c, Hr0 : rest ?c = _ |- _ =>
      destruct (codec_complete _ _ _ c v _ cd Hok0 ltac:(wire_range) Hr0)
        as (c' & -> & Hok & Hr); clear Hok0 Hr0
  end.
Ltac reads_zeroes :=
  let c' := fresh "c" in let Hok := fresh "Hok" in let Hr := fresh "Hr" in
  match goal with
  | Hok0 : cursor_ok ?c, Hr0 : rest ?c = replicate ?n x00 ++ ?r |- context [Cursor.zeroes ?k ?d ?c] =>
      destruct (zeroes_complete k d c r Hok0 ltac:(lia) Hr0) as (c' & -> & Hok & Hr); clear Hok0 Hr0
  end.
(** The converse: what a successful read says of the input. *)
Ltac read_fact cd :=
  match goal with
  | Hok0 : cursor_ok ?c, Hp : _ ?c = Ok (_, _) |- _ =>
      let Hv := fresh "Hv" in let Hok := fresh "Hok" in let Hr := fresh "Hr" in
      destruct (codec_sound _ _ _ c _ _ cd Hok0 Hp) as (Hv & Hok & Hr); clear Hok0 Hp
  end.
(** Spells the input out as the fields that were read. *)
Ltac rest_chain :=
  repeat match goal with Hr : rest ?c = _ |- context [rest ?c] => rewrite Hr; clear Hr end.
Ltac read_facts :=
  repeat match goal with
  | Hok0 : cursor_ok ?c, Hp : Cursor.get_u8 ?c = Ok (_, _) |- _ => read_fact u8_codec
  | Hok0 : cursor_ok ?c, Hp : Cursor.get_u16 ?c = Ok (_, _) |- _ => read_fact u16_codec
  | Hok0 : cursor_ok ?c, Hp : Cursor.get_u32 ?c = Ok (_, _) |- _ => read_fact u32_codec
  | Hok0 : cursor_ok ?c, Hp : Cursor.get_u64 ?c = Ok (_, _) |- _ => read_fact u64_codec
  | Hok0 : cursor_ok ?c, Hp : Cursor.array ?n ?c = Ok (_, _) |- _ => read_fact (array_codec n ltac:(lia))
  | Hok0 : cursor_ok ?c, Hp : Cursor.zeroes ?n _ ?c = Ok _ |- _ =>
      let Hr := fresh "Hr" in let Hok := fresh "Hok" in
      destruct (zeroes_sound n _ _ _ Hok0 ltac:(lia) Hp) as [Hok Hr]; clear Hok0 Hp
  end.

Section Start.
Context `{!Allocator}.

Lemma encode_start_ok q :
  (forall site n, try_reserve site n = true) -> start_coherent q ->
  encode_start q = Ok (frame_header FRAME_KIND_START START_PAYLOAD_BYTES ++ start_payload q).
Proof.
  intros Ha Hc. unfold encode_start. rewrite (proj2 (validate_start_ok q _)) by done.
  unfold allocate_frame. rewrite Ha. cbn [negb]. change (MAX_FRAME_BYTES <? START_FRAME_BYTES) with false.
  cbv beta iota. rewrite encode_header_ok by (vm_compute; split; discriminate).
  unfold push_u16, push_u32, push_u64, start_payload. rewrite !le_bytes_1. simpl app.
  by rewrite <- !app_assoc.
Qed.

Lemma decode_start_sound bs n q :
  decode_start bs n = Ok q ->
  start_wf q /\ start_coherent q /\ n = capability_count q
  /\ bs = frame_header FRAME_KIND_START START_PAYLOAD_BYTES ++ start_payload q.
Proof.
  unfold decode_start. intros Hd. ok_step Hd. rename Hs into Hhead.
  apply decode_header_ok in Hhead as [Hbs Hmax]; [|unfold FRAME_KIND_START; lia].
  ok_step Hd. breflect. rename Hs into Hlen. unfold len in *.
  assert (Hok : cursor_ok (Cursor.new a FRAME_HEADER_BYTES)).
  { apply cursor_new_ok. unfold MAX_FRAME_BYTES, FRAME_HEADER_BYTES, u64_max in *. lia. }
  pose proof (rest_new a FRAME_HEADER_BYTES) as Hrest.
  revert Hd. generalize dependent (Cursor.new a FRAME_HEADER_BYTES). intros c0 Hok Hrest Hd.
  ok_steps Hd. units. read_facts.
  repeat match goal with
  | Hz : require_zero _ _ _ = Ok () |- _ => apply require_zero_ok in Hz
  | Hz : decode_bool _ _ _ = Ok _ |- _ => apply decode_bool_ok in Hz
  | Hz : decode_mode _ _ = Ok _ |- _ => apply decode_mode_ok in Hz
  | Hz : decode_profile _ _ = Ok _ |- _ => apply decode_profile_ok in Hz
  | Hz : Cursor.finish _ = Ok () |- _ => apply finish_ok in Hz; [|done]
  | Hz : validate_start _ _ = Ok () |- _ => apply validate_start_ok in Hz as [? ->]
  end. injection Hd as <-. subst.
  split_and!; [|done|done|].
  - ranges. split; cbn; try done.
    + intros v. destruct (_ =? NO_CAPABILITY_SLOT); [done|]. by intros [= <-].
    + split; cbn; try done. intros v.
      match goal with |- context [if ?b then _ else _] => destruct b end; [|done]. by intros [= <-].
  - unfold len. rewrite Hlen. f_equal.
    rest_chain. rewrite app_nil_r. unfold start_payload. cbn -[le_bytes replicate mode_byte profile_byte Z.b2z].
    match goal with |- context [if ?z =? NO_CAPABILITY_SLOT then _ else _] =>
      destruct (Z.eqb_spec z NO_CAPABILITY_SLOT) as [->|] end;
    match goal with |- context [if ?b then Some _ else None] => destruct b end; simpl in Hs30; breflect; subst; reflexivity.
Qed.

Lemma length_start_payload q : start_wf q -> len (start_payload q) = START_PAYLOAD_BYTES.
Proof.
  intros [Ho _ _ _ _ Hs Hp Hy _]. unfold len, start_payload.
  rewrite !length_app, !length_le_bytes, length_replicate, Ho, Hs, Hp, Hy. reflexivity.
Qed.

Lemma decode_start_complete q :
  start_wf q -> start_coherent q ->
  decode_start (frame_header FRAME_KIND_START START_PAYLOAD_BYTES ++ start_payload q)
    (capability_count q) = Ok q.
Proof.
  intros Hw Hc. pose proof (length_start_payload q Hw) as Hlen. unfold decode_start.
  rewrite <- Hlen at 1. rewrite (proj2 (decode_header_ok _ FRAME_KIND_START (start_payload q) ltac:(done))).
  2:{ split; [done|]. rewrite Hlen. vm_compute. discriminate. }
  rewrite Hlen. change (START_PAYLOAD_BYTES =? START_PAYLOAD_BYTES) with true. cbn [negb]. cbv zeta.
  assert (Hok : cursor_ok (Cursor.new (start_payload q) FRAME_HEADER_BYTES)).
  { apply cursor_new_ok. unfold len in Hlen. rewrite Hlen. vm_compute. discriminate. }
  pose proof (rest_new (start_payload q) FRAME_HEADER_BYTES) as Hrest.
  generalize dependent (Cursor.new (start_payload q) FRAME_HEADER_BYTES). intros c0 Hok Hrest.
  unfold start_payload in Hrest. rewrite <- (app_nil_r (le_bytes 8 (max_metadata_bytes _))) in Hrest.
  destruct Hw as [Ho Hcc Hsrc Hstage Hsl Hs1 Hs2 Hs3 [Hl1 Hl2 Hl3 Hl4 Hl5 Hl6 Hl7]].
  assert (Hst : is_u16 (from_option id NO_CAPABILITY_SLOT (stage_capability q))).
  { destruct (stage_capability q) as [v|]; [by apply Hstage|done]. }
  assert (Hrt : is_u64 (from_option id 0 (max_ratio (limits q)))).
  { destruct (max_ratio (limits q)) as [v|]; [by apply Hl5|done]. }
  reads (array_codec 16 ltac:(lia)) (operation_id q).
  reads u8_codec (mode_byte (mode q)). rewrite (proj2 (decode_mode_ok _ _ _) eq_refl).
  reads u8_codec (profile_byte (interpretation_profile q)). rewrite (proj2 (decode_profile_ok _ _ _) eq_refl).
  reads u8_codec (Z.b2z (member_sync q)). rewrite (proj2 (decode_bool_ok _ _ _ _) eq_refl).
  reads u8_codec 0. rewrite (proj2 (require_zero_ok _ _ _) eq_refl).
  reads u16_codec (capability_count q). reads u16_codec (source_capability q).
  reads u16_codec (from_option id NO_CAPABILITY_SLOT (stage_capability q)).
  reads u16_codec 0. rewrite (proj2 (require_zero_ok _ _ _) eq_refl).
  reads u64_codec (source_len q). reads (array_codec 32 ltac:(lia)) (source_sha256 q).
  reads (array_codec 32 ltac:(lia)) (interpretation_profile_sha256 q).
  reads (array_codec 32 ltac:(lia)) (policy_sha256 q).
  reads u64_codec (max_archive_bytes (limits q)). reads u64_codec (max_files (limits q)).
  reads u64_codec (max_member_bytes (limits q)). reads u64_codec (max_total_bytes (limits q)).
  reads u8_codec (Z.b2z (bool_decide (is_Some (max_ratio (limits q))))).
  rewrite (proj2 (decode_bool_ok _ _ _ _) eq_refl). reads_zeroes.
  reads u64_codec (from_option id 0 (max_ratio (limits q))).
  reads u32_codec (max_path_depth (limits q)).
  reads u32_codec 0. rewrite (proj2 (require_zero_ok _ _ _) eq_refl).
  reads u64_codec (max_metadata_bytes (limits q)).
  rewrite (proj2 (finish_ok _ ltac:(done))) by done.
  assert ((if from_option id NO_CAPABILITY_SLOT (stage_capability q) =? NO_CAPABILITY_SLOT then None
    else Some (from_option id NO_CAPABILITY_SLOT (stage_capability q))) = stage_capability q) as ->.
  { destruct Hc as [_ Hslot _]. unfold slots_coherent in Hslot.
    destruct (stage_capability q) as [v|]; [|done]. simpl. rewrite (proj2 (Z.eqb_neq _ _)); [done|].
    unfold NO_CAPABILITY_SLOT, u16_max. destruct (mode q); [by destruct Hslot as (_ & ? & _)|].
    destruct Hslot as (_ & _ & st & [= ->] & ? & _). lia. }
  assert ((if bool_decide (is_Some (max_ratio (limits q))) then Some (from_option id 0 (max_ratio (limits q)))
    else None) = max_ratio (limits q)) as -> by (by destruct (max_ratio (limits q))).
  replace (negb _ && negb _) with false by (by destruct (max_ratio (limits q))).
  assert (forall x, x = q -> (let? _ := validate_start x (capability_count q) in Ok x) = Ok q) as Hend.
  { intros x ->. by rewrite (proj2 (validate_start_ok q _)). }
  apply Hend. clear. destruct q as [???????????[]]. reflexivity.
Qed.

Lemma encode_start_coherent q bs : encode_start q = Ok bs -> start_coherent q.
Proof.
  intros He. unfold encode_start in He. ok_step He. units. by apply validate_start_ok in Hs as [? _].
Qed.

(** ** Theorem *)

(** C34: When memory is available, [decode_start] accepts exactly the frames
    [encode_start] emits: an accepted input is the one encoding of the request
    it yields, received with the declared number of capabilities, and every
    encoded request is decoded back to itself.  A request is encoded exactly
    when its slots, identifier and source length are coherent, and its frame
    has the advertised fixed length. *)
Theorem start_frames_roundtrip q :
  (forall site n, try_reserve site n = true) ->
  (forall bs n, decode_start bs n = Ok q <->
     start_wf q /\ n = capability_count q /\ encode_start q = Ok bs)
  /\ (start_wf q -> start_coherent q <-> exists bs, encode_start q = Ok bs)
  /\ (forall bs, start_wf q -> encode_start q = Ok bs -> len bs = START_FRAME_BYTES).
Proof.
  intros Ha. split_and!.
  - intros bs n. split.
    + intros (Hw & Hc & -> & ->)%decode_start_sound. split_and!; [done|done|by apply encode_start_ok].
    + intros (Hw & -> & He). pose proof (encode_start_coherent _ _ He) as Hc.
      rewrite encode_start_ok in He by done. injection He as <-. by apply decode_start_complete.
  - intros Hw. split; [|by intros [bs He%encode_start_coherent]].
    intros Hc. eexists. by apply encode_start_ok.
  - intros bs Hw He. pose proof (encode_start_coherent _ _ He) as Hc.
    rewrite encode_start_ok in He by done.
    assert (bs = frame_header FRAME_KIND_START START_PAYLOAD_BYTES ++ start_payload q) as -> by congruence.
    unfold len. rewrite length_app, length_frame_header, Nat2Z.inj_add.
    pose proof (length_start_payload q Hw) as Hl. unfold len in Hl. by rewrite Hl.
Qed.
End Start.

Definition example_start : StartRequest :=
  {| operation_id := replicate 16 x07; mode := Materialize; interpretation_profile := StrictAsciiV2;
     member_sync := true; capability_count := 2; source_capability := 0; stage_capability := Some 1;
     source_len := 1000; source_sha256 := replicate 32 x01;
     interpretation_profile_sha256 := replicate 32 x02; policy_sha256 := replicate 32 x03;
     limits := {| max_archive_bytes := 4096; max_files := 10; max_member_bytes := 100;
                  max_total_bytes := 500; max_ratio := Some 20; max_path_depth := 5;
                  max_metadata_bytes := 1024 |} |}.

Lemma example_start_wf : start_wf example_start.
Proof.
  assert (Hlim : limits_wf (limits example_start)).
  { split; try (intros v [= <-]); unfold is_u64, is_u32, u64_max, u32_max; simpl; lia. }
  split; try exact Hlim; try (intros v [= <-]); unfold is_u64, is_u16, u64_max, u16_max; simpl; lia.
Qed.

Lemma start_frames_roundtrip_witness :
  exists bs, @encode_start always_reserves example_start = Ok bs
  /\ decode_start bs 2 = Ok example_start
  /\ decode_start bs 1 <> Ok example_start /\ len bs = 212.
Proof.
  destruct (@start_frames_roundtrip always_reserves example_start ltac:(done)) as (Hd & _ & Hl).
  eexists. split; [vm_compute; reflexivity|]. split; [|split].
  - apply Hd. split_and!; [exact example_start_wf|reflexivity|vm_compute; reflexivity].
  - intros (_ & Hn & _)%Hd. done.
  - apply Hl; [exact example_start_wf|vm_compute; reflexivity].
Defined.
