(* ===== verification/ProtocolResult.v ===== *)
(** * Result frames: decoding inverts encoding ([sealr-protocol/src/lib.rs])

    [decode_result] accepts exactly the outputs of [encode_result], and
    [decode_result_for_request] those whose manifest stays within the limits
    of the request it answers. *)

From Stdlib Require Import Sorted.
From S2P Require Import Prelude Utf8 Paths Protocol ProtocolCodec ProtocolValid.
Local Open Scope Z_scope.

(** ** The ranges of the Rust types *)

(** A [String] is valid UTF-8. *)
Definition is_text (s : str) : Prop := is_Some (chars s).
Record entry_wf (e : ManifestEntry) : Prop := {
  ew_path : is_text (e_path e);
  ew_size : is_u64 (e_size e);
  ew_sha : length (e_sha256 e) = 32%nat
}.
Record finding_wf (f : ProtocolFinding) : Prop := {
  fw_code : is_text (f_code f);
  fw_detail : is_text (f_detail f);
  fw_path : forall p, f_member_path f = Some p -> is_text p
}.
Record result_wf (r : WorkerResult) : Prop := {
  rw_operation : length (r_operation_id r) = 16%nat;
  rw_profile : length (r_interpretation_profile_sha256 r) = 32%nat;
  rw_layout : forall d, r_layout_root r = Some d -> length d = 32%nat;
  rw_content : forall d, r_content_root r = Some d -> length d = 32%nat;
  rw_manifest : Forall entry_wf (r_manifest r);
  rw_findings : Forall finding_wf (r_findings r)
}.

(** ** The wire layout *)

Definition entry_bytes (e : ManifestEntry) : list byte :=
  le_bytes 2 (len (e_path e)) ++ le_bytes 1 (kind_byte (e_kind e)) ++ le_bytes 1 0
  ++ le_bytes 8 (e_size e) ++ e_sha256 e ++ e_path e.
Definition path_length (p : option str) : Z := from_option len NO_CAPABILITY_SLOT p.
Definition finding_bytes (f : ProtocolFinding) : list byte :=
  le_bytes 2 (len (f_code f)) ++ le_bytes 2 (len (f_detail f))
  ++ le_bytes 2 (path_length (f_member_path f))
  ++ le_bytes 1 (severity_byte (f_severity f)) ++ le_bytes 1 0
  ++ f_code f ++ f_detail f ++ from_option id [] (f_member_path f).
Definition root_flags (r : WorkerResult) : Z :=
  Z.lor (Z.b2z (bool_decide (is_Some (r_layout_root r))))
    (Z.shiftl (Z.b2z (bool_decide (is_Some (r_content_root r)))) 1).
Definition result_payload (r : WorkerResult) : list byte :=
  r_operation_id r ++ le_bytes 1 (status_byte (r_status r)) ++ le_bytes 1 (root_flags r)
  ++ le_bytes 2 0 ++ le_bytes 4 (Z.of_nat (length (r_manifest r)))
  ++ le_bytes 4 (Z.of_nat (length (r_findings r))) ++ r_interpretation_profile_sha256 r
  ++ from_option id (zero_bytes 32) (r_layout_root r)
  ++ from_option id (zero_bytes 32) (r_content_root r)
  ++ concat (map entry_bytes (r_manifest r)) ++ concat (map finding_bytes (r_findings r)).

(** ** Strings of the wire languages fit their length fields *)

Lemma valid_path_length p : valid_string p KPath = true -> 0 < len p <= MAX_PATH_BYTES.
Proof.
  unfold valid_string, len. intros Hv. repeat (apply andb_true_iff in Hv as [Hv ?]).
  apply negb_true_iff, Nat.eqb_neq in Hv. breflect. lia.
Qed.
Lemma valid_code_length c : valid_string c KFindingCode = true -> 0 < len c <= MAX_FINDING_CODE_BYTES.
Proof.
  unfold valid_string, len. intros Hv. repeat (apply andb_true_iff in Hv as [Hv ?]).
  apply negb_true_iff, Nat.eqb_neq in Hv. breflect. lia.
Qed.
Lemma valid_detail_length d : valid_string d KDetail = true -> 0 <= len d <= MAX_FINDING_DETAIL_BYTES.
Proof. unfold valid_string, len. intros Hv. breflect. lia. Qed.

Lemma as_u16_small v : 0 <= v < 65536 -> as_u16 v = v.
Proof. intros. unfold as_u16. apply Z.mod_small. lia. Qed.
Lemma as_u32_small v : 0 <= v < 4294967296 -> as_u32 v = v.
Proof. intros. unfold as_u32. apply Z.mod_small. lia. Qed.

Lemma encode_entry_eq output e :
  valid_string (e_path e) KPath = true -> encode_entry output e = output ++ entry_bytes e.
Proof.
  intros Hv%valid_path_length. unfold MAX_PATH_BYTES in Hv. unfold encode_entry, entry_bytes, push_u16, push_u64.
  rewrite as_u16_small, !le_bytes_1 by lia. by rewrite <- !app_assoc.
Qed.

Lemma encode_finding_eq output f :
  finding_valid f -> encode_finding output f = output ++ finding_bytes f.
Proof.
  intros (Hc%valid_code_length & Hd%valid_detail_length & Hp).
  unfold MAX_FINDING_CODE_BYTES, MAX_FINDING_DETAIL_BYTES in *.
  unfold encode_finding, finding_bytes, push_u16. rewrite !as_u16_small, !le_bytes_1 by lia.
  destruct (f_member_path f) as [p|]; simpl.
  - specialize (Hp p eq_refl). apply valid_path_length in Hp. unfold MAX_PATH_BYTES in Hp.
    rewrite as_u16_small by lia. by rewrite <- !app_assoc.
  - by rewrite app_nil_r, <- !app_assoc.
Qed.

Lemma encode_entries_eq m output :
  Forall (fun e => valid_string (e_path e) KPath = true) m ->
  foldl encode_entry output m = output ++ concat (map entry_bytes m).
Proof.
  intros Hm. revert output. induction Hm as [|e m He _ IH]; intros output; cbn [foldl map concat]; [by rewrite app_nil_r|].
  by rewrite encode_entry_eq, IH, app_assoc.
Qed.
Lemma encode_findings_eq fs output :
  Forall finding_valid fs -> foldl encode_finding output fs = output ++ concat (map finding_bytes fs).
Proof.
  intros Hm. revert output. induction Hm as [|e m He _ IH]; intros output; cbn [foldl map concat]; [by rewrite app_nil_r|].
  by rewrite encode_finding_eq, IH, app_assoc.
Qed.

(** ** Lengths *)

Definition entry_size (e : ManifestEntry) : Z := MANIFEST_ENTRY_FIXED_BYTES + len (e_path e).
Definition finding_size (f : ProtocolFinding) : Z :=
  FINDING_FIXED_BYTES + len (f_code f) + len (f_detail f) + from_option len 0 (f_member_path f).
Definition sum (l : list Z) : Z := foldr Z.add 0 l.

Lemma sum_nonneg {A} (f : A -> Z) l : (forall x, 0 <= f x) -> 0 <= sum (map f l).
Proof. intros Hf. induction l as [|x l IH]; simpl; [done|]. specialize (Hf x). lia. Qed.
Lemma sum_lower {A} (f : A -> Z) k l :
  Forall (fun x => k <= f x) l -> Z.of_nat (length l) * k <= sum (map f l).
Proof.
  induction 1 as [|x l Hx _ IH]; [done|]. cbn [length map sum foldr]. fold (sum (map f l)). lia.
Qed.
Lemma entry_size_nonneg e : 0 <= entry_size e.
Proof. unfold entry_size, MANIFEST_ENTRY_FIXED_BYTES, len. lia. Qed.
Lemma finding_size_nonneg f : 0 <= finding_size f.
Proof. unfold finding_size, FINDING_FIXED_BYTES, len. destruct (f_member_path f); simpl; lia. Qed.

(** A checked sum succeeds exactly when the whole sum fits: the terms are not
    negative. *)
Ltac checked_sum :=
  repeat match goal with
  | |- context [u64_checked_add ?a ?b] =>
      let Ha := fresh "Ha" in let t := fresh "t" in
      destruct (u64_checked_add a b) as [t|] eqn:Ha; cbn [mbind option_bind ok_or];
      [apply u64_checked_add_Some in Ha as [-> Ha]|apply u64_checked_add_None in Ha]
  end.

Lemma add_entry_lens_ok m total t :
  0 <= total <= u64_max ->
  add_entry_lens total m = Ok t <-> t = total + sum (map entry_size m) /\ t <= u64_max.
Proof.
  revert total. induction m as [|e m IH]; intros total Ht; cbn [add_entry_lens map sum foldr].
  - split; [intros [= <-]; lia|intros [-> _]; f_equal; lia].
  - fold (sum (map entry_size m)). pose proof (sum_nonneg entry_size m entry_size_nonneg) as Hs.
    unfold entry_size at 1. unfold MANIFEST_ENTRY_FIXED_BYTES in *.
    assert (0 <= len (e_path e)) by (unfold len; lia). checked_sum.
    + rewrite IH by lia. split; intros [-> ?]; (split; [lia|done]).
    + split; [done|lia].
    + split; [done|lia].
Qed.

Lemma add_finding_lens_ok fs total t :
  0 <= total <= u64_max ->
  add_finding_lens total fs = Ok t <-> t = total + sum (map finding_size fs) /\ t <= u64_max.
Proof.
  revert total. induction fs as [|f fs IH]; intros total Ht; cbn [add_finding_lens map sum foldr].
  - split; [intros [= <-]; lia|intros [-> _]; f_equal; lia].
  - fold (sum (map finding_size fs)). pose proof (sum_nonneg finding_size fs finding_size_nonneg) as Hs.
    unfold finding_size at 1. unfold FINDING_FIXED_BYTES in *.
    assert (0 <= len (f_code f) /\ 0 <= len (f_detail f)) by (unfold len; lia).
    assert (0 <= from_option len 0 (f_member_path f)) by (destruct (f_member_path f); simpl; unfold len; lia).
    checked_sum; [rewrite IH by lia; split; intros [-> ?]; (split; [lia|done])|split; [done|lia]..].
Qed.

Lemma len_app a b : len (a ++ b) = len a + len b.
Proof. unfold len. rewrite length_app. lia. Qed.
Lemma len_concat {A} (f : A -> list byte) (g : A -> Z) l :
  Forall (fun x => len (f x) = g x) l -> len (concat (map f l)) = sum (map g l).
Proof.
  induction 1 as [|x l Hx _ IH]; [done|]. cbn [map concat]. rewrite len_app, Hx, IH. done.
Qed.

Lemma len_le_bytes n z : len (le_bytes n z) = Z.of_nat n.
Proof. unfold len. by rewrite length_le_bytes. Qed.

Lemma len_entry_bytes e : entry_wf e -> len (entry_bytes e) = entry_size e.
Proof.
  intros [_ _ Hs]. unfold entry_bytes. assert (len (e_sha256 e) = 32) by (unfold len; lia).
  rewrite !len_app, !len_le_bytes. unfold entry_size, MANIFEST_ENTRY_FIXED_BYTES. lia.
Qed.
Lemma len_finding_bytes f : len (finding_bytes f) = finding_size f.
Proof.
  unfold finding_bytes. rewrite !len_app, !len_le_bytes. unfold finding_size, FINDING_FIXED_BYTES.
  destruct (f_member_path f); cbn [from_option id]; [lia|]. change (len []) with 0. lia.
Qed.

(** What the counts announce is there: every entry takes 45 bytes or more,
    every finding 9. *)
Lemma manifest_fits c m r :
  cursor_ok c -> Forall entry_wf m -> Forall (fun e => valid_string (e_path e) KPath = true) m ->
  rest c = concat (map entry_bytes m) ++ r ->
  Z.of_nat (length m) * (MANIFEST_ENTRY_FIXED_BYTES + 1) <= Cursor.remaining c.
Proof.
  intros Hok Hw Hv Hr. rewrite remaining_rest, Hr by done. fold (len (concat (map entry_bytes m) ++ r)).
  rewrite len_app, (len_concat entry_bytes entry_size)
    by (eapply Forall_impl; [exact Hw|apply len_entry_bytes]).
  assert (0 <= len r) by (unfold len; lia).
  enough (Z.of_nat (length m) * (MANIFEST_ENTRY_FIXED_BYTES + 1) <= sum (map entry_size m)) by lia.
  apply sum_lower. eapply Forall_impl; [exact Hv|]. intros e He%valid_path_length. unfold entry_size. lia.
Qed.
Lemma findings_fit c fs r :
  cursor_ok c -> Forall finding_valid fs -> rest c = concat (map finding_bytes fs) ++ r ->
  Z.of_nat (length fs) * (FINDING_FIXED_BYTES + 1) <= Cursor.remaining c.
Proof.
  intros Hok Hv Hr. rewrite remaining_rest, Hr by done. fold (len (concat (map finding_bytes fs) ++ r)).
  rewrite len_app, (len_concat finding_bytes finding_size)
    by (apply Forall_true; intros; apply len_finding_bytes).
  assert (0 <= len r) by (unfold len; lia).
  enough (Z.of_nat (length fs) * (FINDING_FIXED_BYTES + 1) <= sum (map finding_size fs)) by lia.
  apply sum_lower. eapply Forall_impl; [exact Hv|]. intros f (Hc%valid_code_length & Hd%valid_detail_length & _).
  unfold finding_size, len in *. destruct (f_member_path f); simpl; unfold len; lia.
Qed.

Lemma len_result_payload r :
  result_wf r ->
  len (result_payload r) =
  RESULT_FIXED_PAYLOAD_BYTES + sum (map entry_size (r_manifest r)) + sum (map finding_size (r_findings r)).
Proof.
  intros [Ho Hp Hl Hc Hm Hf]. unfold result_payload. rewrite !len_app.
  rewrite (len_concat entry_bytes entry_size) by (eapply Forall_impl; [exact Hm|apply len_entry_bytes]).
  rewrite (len_concat finding_bytes finding_size) by (apply Forall_true; intros; apply len_finding_bytes).
  assert (H1 : len (from_option id (zero_bytes 32) (r_layout_root r)) = 32).
  { unfold len. destruct (r_layout_root r) as [d|]; simpl; [by rewrite (Hl d)|done]. }
  assert (H2 : len (from_option id (zero_bytes 32) (r_content_root r)) = 32).
  { unfold len. destruct (r_content_root r) as [d|]; simpl; [by rewrite (Hc d)|done]. }
  assert (H3 : len (r_operation_id r) = 16) by (unfold len; lia).
  assert (H4 : len (r_interpretation_profile_sha256 r) = 32) by (unfold len; lia).
  rewrite H1, H2, H3, H4, !len_le_bytes. unfold RESULT_FIXED_PAYLOAD_BYTES. lia.
Qed.

Lemma result_payload_len_ok r n :
  result_wf r -> result_payload_len r = Ok n <-> n = len (result_payload r) /\ n <= u64_max.
Proof.
  intros Hw. rewrite len_result_payload by done. unfold result_payload_len.
  pose proof (sum_nonneg entry_size (r_manifest r) entry_size_nonneg) as Hs.
  pose proof (sum_nonneg finding_size (r_findings r) finding_size_nonneg) as Hs'.
  unfold RESULT_FIXED_PAYLOAD_BYTES in *.
  pose proof (add_entry_lens_ok (r_manifest r) 124) as He.
  destruct (add_entry_lens 124 (r_manifest r)) as [t|].
  - destruct (proj1 (He t ltac:(unfold u64_max; lia)) eq_refl) as [-> Ht].
    rewrite add_finding_lens_ok by lia. done.
  - split; [done|]. intros [-> Hn].
    assert (Err e = Ok (124 + sum (map entry_size (r_manifest r)))) as E
      by (apply He; [unfold u64_max; lia|split; [done|lia]]). done.
Qed.

(** ** Field decoders *)

Section Decoders.
Context `{!Allocator}.

Lemma bounded_string_sound n k c s c' :
  cursor_ok c -> 0 <= n -> bounded_string n k c = Ok (s, c') ->
  is_text s /\ valid_string s k = true /\ len s = n /\ cursor_ok c' /\ rest c = s ++ rest c'.
Proof.
  intros Hok Hn Hb. unfold bounded_string in Hb. ok_steps Hb. units.
  match goal with Hx : Cursor.bytes _ _ = Ok _ |- _ => apply bytes_ok in Hx as (Hr & Hl & ->); [|done..] end.
  match goal with Hx : ok_or _ _ = Ok _ |- _ => apply ok_or_ok, from_utf8_Some in Hx as [-> [cs Hcs]] end.
  match goal with Hx : map_err _ _ = Ok _ |- _ =>
    destruct (validate_string _ k) as [[]|] eqn:Hv; [|done]; apply validate_string_ok in Hv end.
  simplify_eq. split_and!; [by exists cs|done|unfold len; lia| |done].
  destruct (advance_ok _ _ _ Hok Hr) as [Hok' _]. by rewrite Hl, Z2Nat.id in Hok'.
Qed.

Lemma bounded_string_complete k c s r :
  (forall site n, try_reserve site n = true) ->
  cursor_ok c -> is_text s -> valid_string s k = true -> rest c = s ++ r ->
  exists c', bounded_string (len s) k c = Ok (s, c') /\ cursor_ok c' /\ rest c' = r.
Proof.
  intros Ha Hok [cs Hcs] Hv Hr. destruct (advance_ok _ _ _ Hok Hr) as [Hok' Hr'].
  exists (Cursor.advance c (Z.of_nat (length s))). split; [|done]. unfold bounded_string.
  rewrite (proj2 (bytes_ok c (len s) s (Cursor.advance c (len s)) Hok ltac:(unfold len; lia))).
  - unfold from_utf8. rewrite Hcs. cbn [ok_or]. rewrite (proj2 (validate_string_ok s k) Hv), Ha. done.
  - unfold len. rewrite Nat2Z.id, Hr'. done.
Qed.

Ltac string_facts :=
  repeat match goal with
  | Hz : bounded_string ?n _ ?c = Ok (_, _), Hk : cursor_ok ?c |- _ =>
      let Ht := fresh "Ht" in let Hvs := fresh "Hvs" in let Hl := fresh "Hl" in
      let Hok := fresh "Hok" in let Hrs := fresh "Hrs" in
      apply bounded_string_sound in Hz as (Ht & Hvs & Hl & Hok & Hrs);
      [clear Hk|done|match goal with Hu : is_u16 n |- _ => unfold is_u16 in Hu; lia end]
  end.

Lemma decode_entry_sound ms c e c' :
  cursor_ok c -> decode_entry ms c = Ok (e, c') ->
  entry_wf e /\ cursor_ok c' /\ rest c = entry_bytes e ++ rest c'.
Proof.
  intros Hok Hd. unfold decode_entry in Hd. ok_steps Hd. units. read_facts. ranges.
  repeat match goal with
  | Hz : require_zero _ _ _ = Ok () |- _ => apply require_zero_ok in Hz
  | Hz : decode_kind _ _ = Ok _ |- _ => apply decode_kind_ok in Hz
  end.
  string_facts. injection Hd as <- <-. subst. split_and!; [split; simpl; done|done|]. rest_chain.
  unfold entry_bytes. cbn [e_path e_kind e_size e_sha256]. by rewrite <- !app_assoc.
Qed.

Lemma decode_entry_complete ms c e r :
  (forall site n, try_reserve site n = true) ->
  cursor_ok c -> entry_wf e -> entry_ok e ->
  out_of_order (option_map e_path (last ms)) (e_path e) = false ->
  rest c = entry_bytes e ++ r ->
  exists c', decode_entry ms c = Ok (e, c') /\ cursor_ok c' /\ rest c' = r.
Proof.
  intros Ha Hok [Ht Hs Hd] [Hv He] Ho Hr. pose proof (valid_path_length _ Hv) as Hlen.
  unfold MAX_PATH_BYTES in Hlen. unfold entry_bytes in Hr. rewrite <- !app_assoc in Hr.
  unfold decode_entry. reads u16_codec (len (e_path e)).
  rewrite (proj2 (Z.eqb_neq _ _)), (proj2 (Z.ltb_ge _ _)) by (unfold MAX_PATH_BYTES; lia). cbn [orb].
  reads u8_codec (kind_byte (e_kind e)). rewrite (proj2 (decode_kind_ok _ _ _) eq_refl).
  reads u8_codec 0. rewrite (proj2 (require_zero_ok _ _ _) eq_refl).
  reads u64_codec (e_size e). reads (array_codec 32 ltac:(lia)) (e_sha256 e).
  match goal with Hok0 : cursor_ok ?c, Hr0 : rest ?c = _ |- _ =>
    destruct (bounded_string_complete KPath c _ _ Ha Hok0 Ht Hv Hr0) as (c' & -> & Hok' & Hr') end.
  rewrite Ho. destruct e as [p k s d]. cbn [e_path e_kind e_size e_sha256] in *.
  rewrite (proj2 (directory_evidence_false {| e_path := p; e_kind := k; e_size := s; e_sha256 := d |}) He). eauto.
Qed.

Lemma decode_manifest_sound n ms c ms' c' :
  cursor_ok c -> decode_manifest n ms c = Ok (ms', c') ->
  exists es, ms' = ms ++ es /\ length es = n /\ Forall entry_wf es /\ cursor_ok c'
    /\ rest c = concat (map entry_bytes es) ++ rest c'.
Proof.
  revert ms c. induction n as [|n IH]; intros ms c Hok Hd; cbn [decode_manifest] in Hd.
  - injection Hd as <- <-. exists []. by rewrite app_nil_r.
  - ok_step Hd. ok_step Hd. apply decode_entry_sound in Hs as (He & Hok' & Hr); [|done].
    apply IH in Hd as (es & -> & Hn & Hes & Hok'' & Hr'); [|done].
    exists (m :: es). split_and!; [by rewrite <- app_assoc|simpl; lia|by constructor|done|].
    cbn [map concat]. by rewrite Hr, Hr', app_assoc.
Qed.

Lemma decode_manifest_complete es ms c r :
  (forall site n, try_reserve site n = true) -> cursor_ok c -> Forall entry_wf es ->
  Forall entry_ok es ->
  StronglySorted str_lt (option_list (option_map e_path (last ms)) ++ map e_path es) ->
  rest c = concat (map entry_bytes es) ++ r ->
  exists c', decode_manifest (length es) ms c = Ok (ms ++ es, c') /\ cursor_ok c' /\ rest c' = r.
Proof.
  intros Ha Hok Hw. revert ms c Hok. induction Hw as [|e es He Hes IH]; intros ms c Hok Hv Hsorted Hr.
  - exists c. by rewrite app_nil_r.
  - apply Forall_cons in Hv as [Hv Hvs]. cbn [map concat length decode_manifest] in *.
    rewrite <- app_assoc in Hr.
    assert (out_of_order (option_map e_path (last ms)) (e_path e) = false) as Ho.
    { apply out_of_order_false. intros q Hq. rewrite Hq in Hsorted. simpl in Hsorted.
      apply StronglySorted_inv in Hsorted as [_ Hall]. by apply Forall_cons in Hall as [? _]. }
    destruct (decode_entry_complete ms c e _ Ha Hok He Hv Ho Hr) as (c' & -> & Hok' & Hr').
    destruct (IH (ms ++ [e]) c' Hok' Hvs) as (c'' & -> & Hok'' & Hr''); [|done|].
    + rewrite last_snoc. simpl. destruct (option_map e_path (last ms)); [|done].
      by apply StronglySorted_inv in Hsorted as [? _].
    + exists c''. by rewrite <- app_assoc.
Qed.

Lemma decode_finding_sound c f c' :
  cursor_ok c -> decode_finding c = Ok (f, c') ->
  finding_wf f /\ cursor_ok c' /\ rest c = finding_bytes f ++ rest c'.
Proof.
  intros Hok Hd. unfold decode_finding in Hd. repeat ok_step Hd. units. read_facts. ranges.
  repeat match goal with
  | Hz : require_zero _ _ _ = Ok () |- _ => apply require_zero_ok in Hz
  | Hz : decode_severity _ _ = Ok _ |- _ => apply decode_severity_ok in Hz
  end. string_facts. injection Hd as <- <-. subst.
  match goal with Hm : (if ?z =? _ then _ else _) = Ok _ |- _ =>
    destruct (Z.eqb_spec z NO_CAPABILITY_SLOT) as [->|Hz]; [simplify_eq|repeat ok_step Hm; simplify_eq; string_facts; subst] end.
  - split_and!; [split; simpl; done|done|]. rest_chain.
    unfold finding_bytes. cbn -[le_bytes severity_byte]. by rewrite <- !app_assoc.
  - split_and!; [split; simpl; try done; by intros ? [= <-]|done|]. rest_chain.
    unfold finding_bytes. cbn -[le_bytes severity_byte len]. by rewrite <- !app_assoc.
Qed.

Lemma decode_finding_complete c f r :
  (forall site n, try_reserve site n = true) ->
  cursor_ok c -> finding_wf f -> finding_valid f -> rest c = finding_bytes f ++ r ->
  exists c', decode_finding c = Ok (f, c') /\ cursor_ok c' /\ rest c' = r.
Proof.
  intros Ha Hok [Hc Hd Hp] (Hvc & Hvd & Hvp) Hr.
  pose proof (valid_code_length _ Hvc) as Hlc. pose proof (valid_detail_length _ Hvd) as Hld.
  assert (Hlp : path_length (f_member_path f) = NO_CAPABILITY_SLOT \/ 0 < path_length (f_member_path f) <= MAX_PATH_BYTES).
  { unfold path_length. destruct (f_member_path f) as [p|]; [right|by left]. by apply valid_path_length, Hvp. }
  unfold MAX_FINDING_CODE_BYTES, MAX_FINDING_DETAIL_BYTES, MAX_PATH_BYTES, NO_CAPABILITY_SLOT, u16_max in *.
  unfold finding_bytes in Hr. rewrite <- !app_assoc in Hr. unfold decode_finding.
  reads u16_codec (len (f_code f)). reads u16_codec (len (f_detail f)).
  reads u16_codec (path_length (f_member_path f)).
  rewrite (proj2 (Z.eqb_neq (len (f_code f)) _)), (proj2 (Z.ltb_ge _ (len (f_code f)))),
    (proj2 (Z.ltb_ge _ (len (f_detail f)))) by (unfold MAX_FINDING_CODE_BYTES, MAX_FINDING_DETAIL_BYTES; lia).
  cbn [orb].
  replace (negb _ && _) with false.
  2:{ symmetry. destruct Hlp as [->|Hlp]; [done|].
      rewrite (proj2 (Z.ltb_ge _ _)) by (unfold MAX_PATH_BYTES; lia). apply andb_false_r. }
  reads u8_codec (severity_byte (f_severity f)). rewrite (proj2 (decode_severity_ok _ _ _) eq_refl).
  reads u8_codec 0. rewrite (proj2 (require_zero_ok _ _ _) eq_refl).
  do 2 match goal with Hok0 : cursor_ok ?c, Hr0 : rest ?c = ?s ++ ?r' |- context [bounded_string _ ?k ?c] =>
    let c' := fresh "c" in let Hk := fresh "Hok" in let Hr' := fresh "Hr" in
    destruct (bounded_string_complete k c s r' Ha Hok0 ltac:(done) ltac:(done) Hr0) as (c' & -> & Hk & Hr');
    clear Hok0 Hr0 end.
  destruct f as [sev code detail [p|]]; cbn [f_code f_detail f_member_path f_severity path_length from_option id] in *.
  - destruct Hlp as [Hlp|Hlp]; [exfalso; pose proof (valid_path_length p (Hvp p eq_refl)); unfold MAX_PATH_BYTES in *; lia|].
    rewrite (proj2 (Z.eqb_neq _ _)) by (unfold NO_CAPABILITY_SLOT, u16_max; lia).
    match goal with Hok0 : cursor_ok ?c, Hr0 : rest ?c = _ ++ _ |- _ =>
      destruct (bounded_string_complete KPath c _ _ Ha Hok0 (Hp p eq_refl) (Hvp p eq_refl) Hr0) as (c' & -> & Hk & Hr') end.
    eauto.
  - rewrite Z.eqb_refl. eauto.
Qed.

Lemma decode_findings_sound n fs c fs' c' :
  cursor_ok c -> decode_findings n fs c = Ok (fs', c') ->
  exists es, fs' = fs ++ es /\ length es = n /\ Forall finding_wf es /\ cursor_ok c'
    /\ rest c = concat (map finding_bytes es) ++ rest c'.
Proof.
  revert fs c. induction n as [|n IH]; intros fs c Hok Hd; cbn [decode_findings] in Hd.
  - injection Hd as <- <-. exists []. by rewrite app_nil_r.
  - ok_step Hd. ok_step Hd. apply decode_finding_sound in Hs as (He & Hok' & Hr); [|done].
    apply IH in Hd as (es & -> & Hn & Hes & Hok'' & Hr'); [|done].
    exists (p :: es). split_and!; [by rewrite <- app_assoc|simpl; lia|by constructor|done|].
    cbn [map concat]. by rewrite Hr, Hr', app_assoc.
Qed.

Lemma decode_findings_complete es fs c r :
  (forall site n, try_reserve site n = true) -> cursor_ok c -> Forall finding_wf es ->
  Forall finding_valid es -> rest c = concat (map finding_bytes es) ++ r ->
  exists c', decode_findings (length es) fs c = Ok (fs ++ es, c') /\ cursor_ok c' /\ rest c' = r.
Proof.
  intros Ha Hok Hw. revert fs c Hok. induction Hw as [|e es He Hes IH]; intros fs c Hok Hv Hr.
  - exists c. by rewrite app_nil_r.
  - apply Forall_cons in Hv as [Hv Hvs]. cbn [map concat length decode_findings] in *.
    rewrite <- app_assoc in Hr.
    destruct (decode_finding_complete c e _ Ha Hok He Hv Hr) as (c' & -> & Hok' & Hr').
    destruct (IH (fs ++ [e]) c' Hok' Hvs Hr') as (c'' & -> & Hok'' & Hr'').
    exists c''. by rewrite <- app_assoc.
Qed.
End Decoders.

(** ** Root flags and optional digests *)

Lemma flags_small v : 0 <= v < 256 -> Z.land v 252 = 0 -> v < 4.
Proof.
  intros Hv Hl. assert (Hm : v = Z.land v (Z.lor 252 3)).
  { change (Z.lor 252 3) with (Z.ones 8). rewrite Z.land_ones, Z.mod_small by lia. done. }
  rewrite Z.land_lor_distr_r, Hl, Z.lor_0_l in Hm. change 3 with (Z.ones 2) in Hm.
  rewrite Z.land_ones in Hm by lia. pose proof (Z.mod_pos_bound v (2 ^ 2)). lia.
Qed.

Lemma decode_optional_digest_ok present d c o :
  decode_optional_digest present d c = Ok o <->
  present = bool_decide (is_Some o) /\ d = from_option id (zero_bytes 32) o.
Proof.
  unfold decode_optional_digest. destruct present, o as [x|]; simpl.
  - split; [intros [= <-]; done|intros [_ ->]; done].
  - by split; [|intros []].
  - split; [by case_match|by intros []].
  - rewrite <- bytes_eqb_eq. destruct (bytes_eqb d (zero_bytes 32)); split; try done; by intros [].
Qed.

Lemma root_flags_bits r v :
  0 <= v < 256 -> Z.land v (255 - 3) = 0 ->
  negb (Z.land v 1 =? 0) = bool_decide (is_Some (r_layout_root r)) ->
  negb (Z.land v 2 =? 0) = bool_decide (is_Some (r_content_root r)) -> v = root_flags r.
Proof.
  intros Hv Hs Hl Hc. apply flags_small in Hs; [|done]. unfold root_flags. rewrite <- Hl, <- Hc.
  assert (v = 0 \/ v = 1 \/ v = 2 \/ v = 3) as Hcases by lia.
  destruct Hcases as [->|[->|[->| ->]]]; reflexivity.
Qed.

Lemma root_flags_facts r :
  0 <= root_flags r < 256 ^ 1 /\ Z.land (root_flags r) (255 - 3) = 0
  /\ negb (Z.land (root_flags r) 1 =? 0) = bool_decide (is_Some (r_layout_root r))
  /\ negb (Z.land (root_flags r) 2 =? 0) = bool_decide (is_Some (r_content_root r)).
Proof.
  unfold root_flags.
  destruct (bool_decide (is_Some (r_layout_root r))), (bool_decide (is_Some (r_content_root r)));
    vm_compute; split_and!; done.
Qed.

(** ** Result frames *)

Section Result.
Context `{!Allocator}.

Lemma encode_result_ok r :
  (forall site n, try_reserve site n = true) -> result_wf r -> result_coherent r ->
  FRAME_HEADER_BYTES + len (result_payload r) <= MAX_FRAME_BYTES ->
  encode_result r = Ok (frame_header FRAME_KIND_RESULT (len (result_payload r)) ++ result_payload r).
Proof.
  intros Ha Hw Hc Hmax. unfold encode_result. rewrite (proj2 (validate_result_ok r) Hc).
  assert (0 <= len (result_payload r)) by (unfold len; lia).
  unfold FRAME_HEADER_BYTES, MAX_FRAME_BYTES in *.
  rewrite (proj2 (result_payload_len_ok r (len (result_payload r)) Hw)) by (unfold u64_max; lia).
  unfold u64_checked_add. rewrite (proj2 (Z.leb_le _ _)) by (unfold u64_max; lia). cbn [ok_or].
  unfold allocate_frame, MAX_FRAME_BYTES. rewrite (proj2 (Z.ltb_ge _ _)), Ha by lia. cbn [negb].
  rewrite encode_header_ok by (unfold u32_max; lia). cbv zeta.
  destruct Hc as [_ Hn Hf _ [Hp _ _ _] Hv]. unfold MAX_MANIFEST_MEMBERS, MAX_FINDINGS in *.
  rewrite encode_findings_eq, encode_entries_eq by done.
  unfold push_u16, push_u32. rewrite !as_u32_small by lia.
  generalize (len (result_payload r)). intros n. unfold result_payload, root_flags. rewrite !le_bytes_1. by rewrite <- !app_assoc.
Qed.

Lemma decode_result_sound bs id n r :
  decode_result bs id n = Ok r ->
  n = 0 /\ r_operation_id r = id /\ result_wf r /\ result_coherent r
  /\ FRAME_HEADER_BYTES + len (result_payload r) <= MAX_FRAME_BYTES
  /\ bs = frame_header FRAME_KIND_RESULT (len (result_payload r)) ++ result_payload r.
Proof.
  unfold decode_result. intros Hd. ok_step Hd. rename Hs into Hn. ok_step Hd. rename Hs into Hhead.
  apply decode_header_ok in Hhead as [Hbs Hmax]; [|unfold FRAME_KIND_RESULT; lia].
  ok_step Hd. clear Hs.
  assert (Hok : cursor_ok (Cursor.new a FRAME_HEADER_BYTES)).
  { apply cursor_new_ok. unfold len, MAX_FRAME_BYTES, FRAME_HEADER_BYTES, u64_max in *. lia. }
  pose proof (rest_new a FRAME_HEADER_BYTES) as Hrest.
  revert Hd. generalize dependent (Cursor.new a FRAME_HEADER_BYTES). intros c0 Hok Hrest Hd.
  ok_steps Hd. units. read_facts. breflect.
  repeat match goal with
  | Hz : require_zero _ _ _ = Ok () |- _ => apply require_zero_ok in Hz
  | Hz : decode_status _ _ = Ok _ |- _ => apply decode_status_ok in Hz
  | Hz : decode_optional_digest _ _ _ = Ok _ |- _ => apply decode_optional_digest_ok in Hz as [? Hz]
  | Hz : bytes_eqb _ _ = true |- _ => apply bytes_eqb_eq in Hz
  | Hz : validate_result _ = Ok () |- _ => apply validate_result_ok in Hz
  | Hz : decode_manifest _ _ ?c = Ok _, Hk : cursor_ok ?c |- _ =>
      apply decode_manifest_sound in Hz as (es & -> & Hes & Hwf & Hok' & Hrs); [|done]; clear Hk
  | Hz : decode_findings _ _ ?c = Ok _, Hk : cursor_ok ?c |- _ =>
      apply decode_findings_sound in Hz as (fs & -> & Hfs & Hwf' & Hok'' & Hrs'); [|done]; clear Hk
  | Hz : Cursor.finish _ = Ok () |- _ => apply finish_ok in Hz; [|done]
  end.
  cbn [app] in *. injection Hd as <-. match goal with |- context [r_operation_id ?q] => set (r := q) in * end.
  assert (Hpay : a = result_payload r).
  { rewrite <- Hrest. rest_chain. rewrite app_nil_r. unfold result_payload, r at 1. cbn -[le_bytes root_flags].
    rewrite <- (root_flags_bits r z0) by (done || lia).
    replace (Z.of_nat (length es)) with z2 by lia. replace (Z.of_nat (length fs)) with z3 by lia.
    by subst. }
  subst bs. rewrite <- Hpay. split_and!; [done|done| |done|done|done].
  split; unfold r; cbn; try done.
  - intros d ->. by subst l1.
  - intros d ->. by subst l2.
Qed.

Lemma decode_result_complete r :
  (forall site n, try_reserve site n = true) -> result_wf r -> result_coherent r ->
  FRAME_HEADER_BYTES + len (result_payload r) <= MAX_FRAME_BYTES ->
  decode_result (frame_header FRAME_KIND_RESULT (len (result_payload r)) ++ result_payload r)
    (r_operation_id r) 0 = Ok r.
Proof.
  intros Ha Hw Hc Hmax. unfold decode_result.
  rewrite (proj2 (decode_header_ok _ FRAME_KIND_RESULT (result_payload r) ltac:(done))) by done.
  pose proof (len_result_payload r Hw) as Hlen.
  pose proof (sum_nonneg entry_size (r_manifest r) entry_size_nonneg) as Hs.
  pose proof (sum_nonneg finding_size (r_findings r) finding_size_nonneg) as Hs'.
  cbn [negb Z.eqb]. rewrite (proj2 (Z.ltb_ge _ _)) by lia. cbv zeta.
  assert (Hok : cursor_ok (Cursor.new (result_payload r) FRAME_HEADER_BYTES)).
  { apply cursor_new_ok. unfold len, MAX_FRAME_BYTES, FRAME_HEADER_BYTES, u64_max in *. lia. }
  pose proof (rest_new (result_payload r) FRAME_HEADER_BYTES) as Hrest.
  generalize dependent (Cursor.new (result_payload r) FRAME_HEADER_BYTES). intros c0 Hok Hrest.
  clear Hlen Hs Hs' Hmax. unfold result_payload in Hrest.
  rewrite <- (app_nil_r (concat (map finding_bytes (r_findings r)))) in Hrest.
  destruct (root_flags_facts r) as (Hfr & Hf0 & Hf1 & Hf2).
  pose proof Hw as [Ho Hp Hl Hct Hm Hfd].
  pose proof Hc as [Hop Hnm Hnf _ [Hpaths Hsorted Hdirs _] Hfv].
  unfold MAX_MANIFEST_MEMBERS, MAX_FINDINGS in *.
  reads (array_codec 16 ltac:(lia)) (r_operation_id r).
  rewrite (proj2 (bytes_eqb_eq _ _) eq_refl). cbn [negb].
  reads u8_codec (status_byte (r_status r)). rewrite (proj2 (decode_status_ok _ _ _) eq_refl).
  reads u8_codec (root_flags r). rewrite Hf0. cbn [negb Z.eqb].
  reads u16_codec 0. rewrite (proj2 (require_zero_ok _ _ _) eq_refl).
  reads u32_codec (Z.of_nat (length (r_manifest r))). reads u32_codec (Z.of_nat (length (r_findings r))).
  rewrite !(proj2 (Z.ltb_ge _ _)) by (unfold MAX_MANIFEST_MEMBERS, MAX_FINDINGS; lia).
  reads (array_codec 32 ltac:(lia)) (r_interpretation_profile_sha256 r).
  assert (Hl1 : length (from_option id (zero_bytes 32) (r_layout_root r)) = 32%nat)
    by (destruct (r_layout_root r) as [d|]; [by apply Hl|done]).
  assert (Hl2 : length (from_option id (zero_bytes 32) (r_content_root r)) = 32%nat)
    by (destruct (r_content_root r) as [d|]; [by apply Hct|done]).
  reads (array_codec 32 ltac:(lia)) (from_option id (zero_bytes 32) (r_layout_root r)).
  reads (array_codec 32 ltac:(lia)) (from_option id (zero_bytes 32) (r_content_root r)).
  rewrite (proj2 (decode_optional_digest_ok _ _ _ (r_layout_root r)) (conj Hf1 eq_refl)).
  rewrite (proj2 (decode_optional_digest_ok _ _ _ (r_content_root r)) (conj Hf2 eq_refl)).
  match goal with Hok0 : cursor_ok ?c, Hr0 : rest ?c = concat (map entry_bytes _) ++ ?s |- _ =>
    pose proof (manifest_fits _ _ _ Hok0 Hm Hpaths Hr0) as Hfit;
    destruct (decode_manifest_complete (r_manifest r) [] c s Ha Hok0 Hm) as (c' & He & Hok' & Hr');
    [rewrite Forall_forall in Hpaths, Hdirs |- *; by split; auto|done|done|] end.
  unfold u64_checked_mul, MANIFEST_ENTRY_FIXED_BYTES in *.
  rewrite (proj2 (Z.leb_le _ _)) by (unfold u64_max; lia). cbn [ok_or].
  rewrite (proj2 (Z.ltb_ge _ _)), Ha by done. cbn [negb]. rewrite Nat2Z.id, He.
  pose proof (findings_fit _ _ _ Hok' Hfv Hr') as Hfit'.
  destruct (decode_findings_complete (r_findings r) [] c' [] Ha Hok' Hfd Hfv Hr') as (c'' & Hfs & Hok'' & Hr'').
  unfold FINDING_FIXED_BYTES in *. rewrite (proj2 (Z.leb_le _ _)) by (unfold u64_max; lia). cbn [ok_or].
  rewrite (proj2 (Z.ltb_ge _ _)), Ha by done. cbn [negb]. rewrite Nat2Z.id, Hfs.
  rewrite (proj2 (finish_ok _ Hok'')) by done. cbn [app].
  assert (forall x, x = r -> (let? _ := validate_result x in Ok x) = Ok r) as Hend.
  { intros x ->. by rewrite (proj2 (validate_result_ok r) Hc). }
  apply Hend. clear. by destruct r.
Qed.
End Result.

(** ** Reservations never exceed the input *)

Definition agree_below (n : Z) (a1 a2 : Allocator) : Prop :=
  forall site k, 0 <= k <= n -> a1 site k = a2 site k.

Section Agree.
Context (a1 a2 : Allocator) (n : Z) (Hagree : agree_below n a1 a2).

(** A cursor in bounds over at most [n] bytes. *)
Definition within_input (c : Cursor) : Prop := cursor_ok c /\ Z.of_nat (length (input c)) <= n.

Lemma codec_within {A} (p : Cursor -> result (A * Cursor) ProtocolError) valid enc c a c' :
  codec p valid enc -> within_input c -> p c = Ok (a, c') -> within_input c' /\ valid a.
Proof.
  intros Hp [Hok Hn] Hr. pose proof Hr as Hr'. apply Hp in Hr' as (Hv & _ & ->); [|done].
  split; [|done]. split; [|done]. by eapply codec_sound.
Qed.

Lemma bounded_string_agree k m c :
  within_input c -> 0 <= m ->
  @bounded_string a1 m k c = @bounded_string a2 m k c
  /\ (forall s c', @bounded_string a1 m k c = Ok (s, c') -> within_input c').
Proof.
  intros [Hok Hn] Hm. unfold bounded_string.
  destruct (Cursor.bytes m c) as [[b d]|] eqn:Hb; [|done].
  apply bytes_ok in Hb as (Hr & Hl & ->); [|done..].
  assert (m <= n).
  { apply (f_equal length) in Hr. unfold rest in Hr. rewrite length_app, length_drop in Hr.
    destruct Hok. lia. }
  unfold try_reserve. rewrite (Hagree "wire string"%string m) by lia.
  split; [done|]. intros s c' Hs. ok_steps Hs. injection Hs as <- <-. split; [|done].
  destruct (advance_ok _ _ _ Hok Hr) as [Hok' _]. by rewrite Hl, Z2Nat.id in Hok'.
Qed.

(** Both sides read the same field, or fail together. *)
Ltac agree_read cd :=
  match goal with
  | Hw : within_input ?c |- _ =>
      match goal with
      | |- context [match ?p with Ok _ => _ | Err _ => _ end = _] =>
          let x := fresh "x" in let d := fresh "c" in let E := fresh "E" in
          destruct p as [[x d]|] eqn:E; [|done];
          apply (codec_within _ _ _ _ _ _ cd Hw) in E as [? ?]; clear Hw; cbv beta in *
      end
  end.

(** The strings both sides read. *)
Ltac agree_string :=
  match goal with
  | Hw : within_input ?c |- context [@bounded_string a1 ?m ?k ?c] =>
      let Heq := fresh "Heq" in let Hnext := fresh "Hnext" in
      destruct (bounded_string_agree k m c Hw) as [Heq Hnext]; [cbn in *; lia|];
      rewrite <- Heq; clear Heq;
      let s := fresh "s" in let d := fresh "c" in let E := fresh "E" in
      destruct (@bounded_string a1 m k c) as [[s d]|] eqn:E; [|done];
      specialize (Hnext s d eq_refl); clear Hw
  end.

Lemma decode_entry_agree ms c :
  within_input c ->
  @decode_entry a1 ms c = @decode_entry a2 ms c
  /\ (forall e c', @decode_entry a1 ms c = Ok (e, c') -> within_input c').
Proof.
  intros Hw. unfold decode_entry. agree_read u16_codec. case_match; [done|].
  agree_read u8_codec. destruct (decode_kind _ _); [|done].
  agree_read u8_codec. destruct (require_zero _ _ _); [|done].
  agree_read u64_codec. agree_read (array_codec 32 ltac:(lia)). agree_string.
  repeat (case_match; [done|]). split; [done|]. by intros ? ? [= _ <-].
Qed.

Lemma decode_manifest_agree k ms c :
  within_input c ->
  @decode_manifest a1 k ms c = @decode_manifest a2 k ms c
  /\ (forall l c', @decode_manifest a1 k ms c = Ok (l, c') -> within_input c').
Proof.
  revert ms c. induction k as [|k IH]; intros ms c Hw; cbn [decode_manifest].
  - split; [done|]. by intros ? ? [= _ <-].
  - destruct (decode_entry_agree ms c Hw) as [Heq Hnext]. rewrite <- Heq.
    destruct (decode_entry ms c) as [[e d]|]; [|done]. by apply IH, (Hnext e).
Qed.

Lemma decode_finding_agree c :
  within_input c ->
  @decode_finding a1 c = @decode_finding a2 c
  /\ (forall f c', @decode_finding a1 c = Ok (f, c') -> within_input c').
Proof.
  intros Hw. unfold decode_finding. do 3 agree_read u16_codec. do 3 (case_match; [done|]).
  agree_read u8_codec. destruct (decode_severity _ _); [|done].
  agree_read u8_codec. destruct (require_zero _ _ _); [|done].
  do 2 agree_string. destruct (_ =? NO_CAPABILITY_SLOT).
  - split; [done|]. by intros ? ? [= _ <-].
  - agree_string. split; [done|]. by intros ? ? [= _ <-].
Qed.

Lemma decode_findings_agree k fs c :
  within_input c ->
  @decode_findings a1 k fs c = @decode_findings a2 k fs c
  /\ (forall l c', @decode_findings a1 k fs c = Ok (l, c') -> within_input c').
Proof.
  revert fs c. induction k as [|k IH]; intros fs c Hw; cbn [decode_findings].
  - split; [done|]. by intros ? ? [= _ <-].
  - destruct (decode_finding_agree c Hw) as [Heq Hnext]. rewrite <- Heq.
    destruct (decode_finding c) as [[e d]|]; [|done]. by apply IH, (Hnext e).
Qed.

(** A count that passed its check against the remaining bytes. *)
Lemma count_within c count k total :
  within_input c -> 0 <= count -> (1 <=? k) = true ->
  u64_checked_mul count k = Some total -> (Cursor.remaining c <? total) = false -> count <= n.
Proof.
  intros [Hok Hn] Hc Hk%Z.leb_le [-> _]%u64_checked_mul_Some Hrem%Z.ltb_ge.
  rewrite remaining_rest in Hrem by done. unfold rest in Hrem. rewrite length_drop in Hrem. nia.
Qed.

Ltac agree_count :=
  match goal with
  | Hw : within_input ?c, Hc : (Cursor.remaining ?c <? ?t) = false, Hm : u64_checked_mul ?x ?k = Some ?t |- _ =>
      assert (x <= n) by (apply (count_within c x k t); [done|lia|done|done|done])
  end.

Lemma decode_result_agree bs id k :
  Z.of_nat (length bs) <= n -> @decode_result a1 bs id k = @decode_result a2 bs id k.
Proof.
  intros Hlen. unfold decode_result. case_match; [done|].
  destruct (decode_header bs FRAME_KIND_RESULT) as [payload|] eqn:Hh; [|done].
  apply decode_header_ok in Hh as [-> Hmax]; [|unfold FRAME_KIND_RESULT; lia].
  rewrite length_app in Hlen. case_match; [done|]. cbv zeta.
  assert (Hw : within_input (Cursor.new payload FRAME_HEADER_BYTES)).
  { split; [apply cursor_new_ok; unfold len, MAX_FRAME_BYTES, FRAME_HEADER_BYTES, u64_max in *; lia|simpl; lia]. }
  generalize dependent (Cursor.new payload FRAME_HEADER_BYTES). intros c Hw.
  agree_read (array_codec 16 ltac:(lia)). case_match; [done|].
  agree_read u8_codec. destruct (decode_status _ _); [|done]. agree_read u8_codec. case_match; [done|].
  agree_read u16_codec. destruct (require_zero _ _ _); [|done]. do 2 agree_read u32_codec.
  do 2 (case_match; [done|]). do 3 agree_read (array_codec 32 ltac:(lia)).
  do 2 (destruct (decode_optional_digest _ _ _); [|done]).
  match goal with |- context [u64_checked_mul ?x ?y] => destruct (u64_checked_mul x y) as [t|] eqn:Ht end; [|done].
  cbn [ok_or]. case_match; [done|].
  agree_count.
  unfold try_reserve at 1 3. rewrite (Hagree "bounded manifest"%string) by lia. case_match; [done|].
  match goal with Hw : within_input ?c |- context [@decode_manifest a1 ?k ?ms ?c] =>
    destruct (decode_manifest_agree k ms c Hw) as [Heq Hnext]; rewrite <- Heq;
    destruct (@decode_manifest a1 k ms c) as [[m d]|]; [|done]; specialize (Hnext m d eq_refl) end.
  match goal with |- context [u64_checked_mul ?x ?y] => destruct (u64_checked_mul x y) as [t'|] eqn:Ht' end; [|done].
  cbn [ok_or]. case_match; [done|].
  agree_count.
  unfold try_reserve. rewrite (Hagree "bounded findings"%string) by lia. case_match; [done|].
  by destruct (decode_findings_agree (Z.to_nat x4) [] d Hnext) as [<- _].
Qed.
End Agree.

(** ** Theorems *)

Lemma encode_result_coherent `{!Allocator} r bs :
  result_wf r -> encode_result r = Ok bs ->
  result_coherent r /\ FRAME_HEADER_BYTES + len (result_payload r) <= MAX_FRAME_BYTES.
Proof.
  intros Hw He. unfold encode_result in He. ok_steps He. units. breflect.
  match goal with Hv : validate_result _ = Ok () |- _ => apply validate_result_ok in Hv end.
  match goal with Hv : result_payload_len _ = Ok _ |- _ => apply result_payload_len_ok in Hv as [-> _]; [|done] end.
  match goal with Hv : ok_or _ _ = Ok _ |- _ => apply ok_or_ok, u64_checked_add_Some in Hv as [-> _] end.
  done.
Qed.

(** C36: When memory is available, [decode_result] accepts exactly the frames
    [encode_result] emits, for the operation they answer and without
    capabilities: an accepted input is the one encoding of the result it
    yields, and every encoded result is decoded back to itself.  A result is
    encoded exactly when it is coherent and its frame fits the wire limit, and
    the frame then has the computed length. *)
Theorem result_frames_roundtrip `{!Allocator} r :
  (forall site n, try_reserve site n = true) ->
  (forall bs id n, decode_result bs id n = Ok r <->
     result_wf r /\ n = 0 /\ r_operation_id r = id /\ encode_result r = Ok bs)
  /\ (result_wf r ->
      (result_coherent r /\ FRAME_HEADER_BYTES + len (result_payload r) <= MAX_FRAME_BYTES
       <-> exists bs, encode_result r = Ok bs)
      /\ forall bs, encode_result r = Ok bs -> len bs = FRAME_HEADER_BYTES + len (result_payload r)).
Proof.
  intros Ha. split.
  - intros bs id n. split.
    + intros (-> & <- & Hw & Hc & Hmax & ->)%decode_result_sound. split_and!; [done..|].
      by apply encode_result_ok.
    + intros (Hw & -> & <- & He). destruct (encode_result_coherent _ _ Hw He) as [Hc Hmax].
      rewrite encode_result_ok in He by done.
      assert (bs = frame_header FRAME_KIND_RESULT (len (result_payload r)) ++ result_payload r) as -> by congruence.
      by apply decode_result_complete.
  - intros Hw. split.
    + split; [|intros [bs He]; by apply (encode_result_coherent r bs)].
      intros [Hc Hmax]. eexists. by apply encode_result_ok.
    + intros bs He. destruct (encode_result_coherent _ _ Hw He) as [Hc Hmax].
      rewrite encode_result_ok in He by done.
      assert (bs = frame_header FRAME_KIND_RESULT (len (result_payload r)) ++ result_payload r) as -> by congruence.
      unfold len at 1. by rewrite length_app, length_frame_header, Nat2Z.inj_add.
Qed.

(** A result accepted for a request answers it: the same operation and
    interpretation identity, no more members, path levels or bytes than the
    request allows, counted without wrap-around, and a coherent manifest. *)
Theorem decode_result_for_request_bounds `{!Allocator} bs q r n :
  start_wf q -> decode_result_for_request bs q n = Ok r ->
  n = 0 /\ start_coherent q /\ result_coherent r /\ within_request q r.
Proof.
  intros Hq Hd. unfold decode_result_for_request in Hd. ok_steps Hd. units. injection Hd as <-.
  match goal with Hr : decode_result _ _ _ = Ok _ |- _ =>
    apply decode_result_sound in Hr as (-> & _ & Hw & Hc & _ & _) end.
  match goal with Hr : validate_result_for_request _ _ = Ok _ |- _ =>
    apply validate_result_for_request_ok in Hr as (Hs' & _ & Hin) end; [done| |].
  - destruct Hq as [_ _ _ _ _ _ _ _ [_ _ _ Ht _ _ _]]. exact Ht.
  - destruct Hw as [_ _ _ _ Hm _]. eapply Forall_impl; [exact Hm|]. intros e [_ [? _] _]. done.
Qed.

(** Every reservation [decode_result] makes is for at most as many elements
    as the input has bytes: allocators that agree up to that size cannot be
    told apart, whatever they do above it. *)
Theorem decode_result_reserves_within_input a1 a2 bs id n :
  agree_below (Z.of_nat (length bs)) a1 a2 ->
  @decode_result a1 bs id n = @decode_result a2 bs id n.
Proof. intros Ha. by apply (decode_result_agree a1 a2 (Z.of_nat (length bs)) Ha). Qed.

Definition example_frame : list byte :=
  match @encode_result always_reserves example_tree with Ok bs => bs | Err _ => [] end.

Lemma example_entry_wf path kind size :
  is_ascii (lit path) = true -> is_u64 size -> entry_wf (example_entry path kind size).
Proof. intros Hp Hs. split; [by eexists; apply chars_ascii|done|done]. Qed.

Lemma example_tree_wf : result_wf example_tree.
Proof.
  split; [done|done|by intros d [= <-]|by intros d [= <-]| |].
  - repeat (apply Forall_cons; split; [apply example_entry_wf; [done|unfold is_u64, u64_max; lia]|]).
    apply Forall_nil_2.
  - apply Forall_cons. split; [|apply Forall_nil_2].
    split; [by eexists; apply chars_ascii|by eexists; apply chars_ascii|].
    intros p [= <-]. by eexists; apply chars_ascii.
Qed.

Lemma result_frames_roundtrip_witness :
  @decode_result always_reserves example_frame (replicate 16 x07) 0 = Ok example_tree
  /\ @decode_result always_reserves example_frame (replicate 16 x08) 0 <> Ok example_tree
  /\ len example_frame = 314.
Proof.
  destruct (@result_frames_roundtrip always_reserves example_tree ltac:(done)) as [Hd He].
  split_and!.
  - apply Hd. split_and!; [exact example_tree_wf|done|done|vm_compute; reflexivity].
  - intros (_ & _ & Hid & _)%Hd. done.
  - destruct (He example_tree_wf) as [_ Hl]. rewrite (Hl example_frame) by (vm_compute; reflexivity).
    vm_compute. reflexivity.
Defined.

Definition small_request (max : Z) : StartRequest :=
  {| operation_id := replicate 16 x07; mode := Inspect; interpretation_profile := StrictAsciiV1;
     member_sync := false; capability_count := 1; source_capability := 0; stage_capability := None;
     source_len := 10; source_sha256 := zero_bytes 32;
     interpretation_profile_sha256 := zero_bytes 32; policy_sha256 := zero_bytes 32;
     limits := {| max_archive_bytes := 10; max_files := 3; max_member_bytes := 7;
                  max_total_bytes := max; max_ratio := None; max_path_depth := 2;
                  max_metadata_bytes := 0 |} |}.

Lemma small_request_wf max : is_u64 max -> start_wf (small_request max).
Proof.
  intros Hm. assert (Hlim : limits_wf (limits (small_request max))).
  { split; try (by intros v); unfold is_u64, is_u32, u64_max, u32_max in *; simpl; lia. }
  split; try exact Hlim; try (by intros v); unfold is_u64, is_u16, u64_max, u16_max; simpl; lia.
Qed.

Lemma decode_result_for_request_bounds_witness :
  file_bytes (r_manifest example_tree) <= 12
  /\ @decode_result_for_request always_reserves example_frame (small_request 11) 0
     = Err (request_mismatch "manifest exceeds the request total-byte limit").
Proof.
  split; [|vm_compute; reflexivity].
  destruct (@decode_result_for_request_bounds always_reserves example_frame (small_request 12)
    example_tree 0) as (_ & _ & _ & [_ _ _ _ _ Ht]).
  - apply small_request_wf. unfold is_u64, u64_max. lia.
  - vm_compute. reflexivity.
  - exact Ht.
Defined.

Lemma decode_result_reserves_within_input_witness :
  @decode_result (fun _ k => k <=? 314) example_frame (replicate 16 x07) 0 = Ok example_tree.
Proof.
  rewrite (decode_result_reserves_within_input _ always_reserves).
  - vm_compute. reflexivity.
  - intros site k Hk. unfold always_reserves. apply Z.leb_le.
    assert (E : Z.of_nat (length example_frame) = 314) by (vm_compute; reflexivity). lia.
Defined.
