(* ===== verification/Jail.v ===== *)
(** * The member-name jail ([jail.rs])

    A member name is split at slashes, dot components are dropped and recorded,
    every other component must satisfy the portable path grammar, and the
    result is joined under an absolute destination.  Unicode normalisation,
    general categories, case folding and the lower-case table are the crates'
    and the standard library's, taken as parameters. *)

From S2P Require Import Prelude Utf8 Findings Snapshot Ir.
Local Open Scope Z_scope.

(** ** Unicode *)

(** The general categories of the Unicode character database. *)
Inductive GeneralCategory : Type :=
  | UppercaseLetter | LowercaseLetter | TitlecaseLetter | ModifierLetter | OtherLetter
  | NonspacingMark | SpacingMark | EnclosingMark | DecimalNumber | LetterNumber | OtherNumber
  | ConnectorPunctuation | DashPunctuation | OpenPunctuation | ClosePunctuation
  | InitialPunctuation | FinalPunctuation | OtherPunctuation | MathSymbol | CurrencySymbol
  | ModifierSymbol | OtherSymbol | SpaceSeparator | LineSeparator | ParagraphSeparator
  | Control | Format | Surrogate | PrivateUse | Unassigned.
#[export] Instance GeneralCategory_eq_dec : EqDecision GeneralCategory.
Proof. solve_decision. Defined.

(** [unicode_normalization], [unicode_general_category], [caseless] and
    [char::to_lowercase], on scalar values. *)
Class Unicode : Type := {
  nfc : list Z -> list Z;
  get_general_category : Z -> GeneralCategory;
  default_case_fold : list Z -> list Z;
  to_lowercase : Z -> list Z
}.

(** [str::chars] of a valid string. *)
Definition str_chars (s : str) : list Z := default [] (chars s).

Definition is_ascii_char (c : Z) : bool := c <? 128.
(** [char::is_whitespace]: the property White_Space. *)
Definition char_is_whitespace (c : Z) : bool :=
  between 9 13 c || (c =? 32) || (c =? 133) || (c =? 160) || (c =? 5760) || between 8192 8202 c
  || (c =? 8232) || (c =? 8233) || (c =? 8239) || (c =? 8287) || (c =? 12288).

Definition is_legacy_bidi_control (c : Z) : bool :=
  (c =? 8206) || (c =? 8207) || between 8234 8238 c || between 8294 8297 c.
Definition is_unicode_16_white_space (c : Z) : bool :=
  (c =? 133) || (c =? 160) || (c =? 5760) || between 8192 8202 c || (c =? 8232) || (c =? 8233)
  || (c =? 8239) || (c =? 8287) || (c =? 12288).
Definition is_bidi_control (c : Z) : bool :=
  (c =? 1564) || (c =? 8206) || (c =? 8207) || between 8234 8238 c || between 8294 8297 c.

(** ** Data *)

Record JailedName : Type := { components : list str; actions : list NormalizationAction }.

Inductive JailNameError : Type :=
  | JailInvalid (code : FindingCode) (detail : string)
  | JailAllocationFailed.

Inductive ComponentDisposition : Type := DropDot | Keep.

Definition RESERVED : list str :=
  map lit ["CON"; "PRN"; "AUX"; "NUL"; "COM1"; "COM2"; "COM3"; "COM4"; "COM5"; "COM6"; "COM7";
    "COM8"; "COM9"; "LPT1"; "LPT2"; "LPT3"; "LPT4"; "LPT5"; "LPT6"; "LPT7"; "LPT8"; "LPT9"]%string.
(** Superscript one, two and three: U+00B9, U+00B2 and U+00B3. *)
Definition PORTABLE_ADDITIONAL_RESERVED : list str :=
  map (fun p => lit p.1 ++ encode_char p.2)
    [("COM", 185); ("COM", 178); ("COM", 179); ("LPT", 185); ("LPT", 178); ("LPT", 179)]%string.

Definition PORTABLE_NAME_MAX_COMPONENT_UTF8_BYTES : Z := 255.
Definition PORTABLE_NAME_MAX_COMPONENT_UTF16_UNITS : Z := 255.

(** ** The grammar of a component *)

Definition looks_like_drive (s : str) : bool :=
  (2 <=? Z.of_nat (length s)) && is_ascii_alphabetic (at_ s 0) && bool_decide (at_ s 1 = ":"%byte).

Definition is_reserved (part : str) (profile : ZipInterpretationProfile) : bool :=
  let stem := default part (head (split_on "." part)) in
  existsb (eq_ignore_ascii_case stem) RESERVED
  || (bool_decide (profile = PortableUtf8V1)
      && existsb (eq_ignore_ascii_case stem) PORTABLE_ADDITIONAL_RESERVED).

Section Jail.
Context `{!Unicode}.

Definition invalid_character_for_profile (c : Z) (profile : ZipInterpretationProfile) : bool :=
  if negb (bool_decide (profile = PortableUtf8V1)) then
    char_is_control c || (negb (is_ascii_char c) && char_is_whitespace c) || is_legacy_bidi_control c
  else
    bool_decide (get_general_category c = Control)
    || (negb (is_ascii_char c) && is_unicode_16_white_space c) || is_bidi_control c.

(** Less-than, greater-than, double quote, bar, question mark, star. *)
Definition illegal_characters : list Z := [60; 62; 34; 124; 63; 42].

Definition validate_component (part : str) (profile : ZipInterpretationProfile) :
    result ComponentDisposition JailNameError :=
  reject (length part =? 0)%nat with JailInvalid PathEmpty "empty path component" ;;
  if bool_decide (part = lit ".") then Ok DropDot
  else
    reject bool_decide (part = lit "..") with JailInvalid PathDotDot "parent component" ;;
    reject contains_byte ":" part with JailInvalid PathAds "colon in component" ;;
    reject existsb (fun c => invalid_character_for_profile c profile
                             || bool_decide (c ∈ illegal_characters)) (str_chars part)
      with JailInvalid PathInvalidChar "illegal character" ;;
    reject ends_with_byte "." part || ends_with_byte " " part
      with JailInvalid PathTrailing "trailing dot or space" ;;
    reject is_reserved part profile with JailInvalid PathReserved "Windows reserved name" ;;
    Ok Keep.

(** The loop of [validate_name] over the enumerated components; an index must
    fit [u32]. *)
Fixpoint count_components (profile : ZipInterpretationProfile) (component_index : Z)
    (parts : list str) (component_count action_count : Z) : result (Z * Z) JailNameError :=
  match parts with
  | [] => Ok (component_count, action_count)
  | part :: parts =>
      let? disposition := validate_component part profile in
      match disposition with
      | DropDot =>
          reject u32_max <? component_index with JailInvalid PathDepth "path too deep" ;;
          count_components profile (component_index + 1) parts component_count (action_count + 1)
      | Keep =>
          count_components profile (component_index + 1) parts (component_count + 1) action_count
      end
  end.

Definition validate_name (raw : str) (max_depth : Z) (profile : ZipInterpretationProfile) :
    result (Z * Z) JailNameError :=
  reject contains_byte x00 raw with JailInvalid PathNul "NUL in member name" ;;
  reject negb (bool_decide (nfc (str_chars raw) = str_chars raw))
    with JailInvalid PathUnicode "member name is not NFC-normalized" ;;
  reject contains_byte x5c raw
    with JailInvalid PathInvalidChar "backslash is not a portable ZIP path separator" ;;
  reject starts_with_byte "/" raw || looks_like_drive raw
    with JailInvalid PathAbsolute "absolute or drive path" ;;
  let? (component_count, action_count) := count_components profile 0 (split_on "/" raw) 0 0 in
  reject component_count =? 0 with JailInvalid PathEmpty "name empty after normalize" ;;
  reject (u32_max <? component_count) || (max_depth <? component_count)
    with JailInvalid PathDepth "path too deep" ;;
  Ok (component_count, action_count).

Section Alloc.
Context `{!Allocator}.

Definition reserve_exact (label : string) (count : Z) : result unit JailNameError :=
  if try_reserve label count then Ok () else Err JailAllocationFailed.

(** The second pass; [None] is the panic of its [expect]s. *)
Fixpoint collect_components (profile : ZipInterpretationProfile) (component_index : Z)
    (parts : list str) (out : JailedName) : exec JailedName JailNameError :=
  match parts with
  | [] => Some (Ok out)
  | part :: parts =>
      match validate_component part profile with
      | Err _ => None
      | Ok DropDot =>
          if u32_max <? component_index then None
          else collect_components profile (component_index + 1) parts
            {| components := components out;
               actions := actions out ++ [DropDotComponent component_index] |}
      | Ok Keep =>
          reject! negb (try_reserve "path component" (Z.of_nat (length part)))
            with JailAllocationFailed ;;
          collect_components profile (component_index + 1) parts
            {| components := components out ++ [part]; actions := actions out |}
      end
  end.

Definition jail_name_fallible_for_profile (raw : str) (max_depth : Z)
    (profile : ZipInterpretationProfile) : exec JailedName JailNameError :=
  let* (component_count, action_count) := validate_name raw max_depth profile in
  let* _ := reserve_exact "path components" component_count in
  let* _ := reserve_exact "path actions" action_count in
  collect_components profile 0 (split_on "/" raw) {| components := []; actions := [] |}.

(** [None] is also the panic on a failed reservation. *)
Definition jail_name_for_profile (raw : str) (max_depth : Z) (profile : ZipInterpretationProfile) :
    exec JailedName Finding :=
  match jail_name_fallible_for_profile raw max_depth profile with
  | Some (Ok jailed) => Some (Ok jailed)
  | Some (Err (JailInvalid code detail)) => Some (Err (on (error code detail) raw))
  | Some (Err JailAllocationFailed) | None => None
  end.
Definition jail_name_fallible (raw : str) (max_depth : Z) : exec JailedName JailNameError :=
  jail_name_fallible_for_profile raw max_depth StrictAsciiV1.
Definition jail_name (raw : str) (max_depth : Z) : exec JailedName Finding :=
  jail_name_for_profile raw max_depth StrictAsciiV1.
Definition jail_relative (raw : str) (max_depth : Z) : exec (list str) Finding :=
  let! jailed := jail_name raw max_depth in Some (Ok (components jailed)).
End Alloc.

(** ** Collision keys and the portable profile *)

Definition portable_unicode_case_fold (value : str) : str :=
  let folded := default_case_fold (str_chars value) in encode_chars (nfc folded).
Definition profile_case_fold (value : str) (profile : ZipInterpretationProfile) : str :=
  if bool_decide (profile = PortableUtf8V1) then portable_unicode_case_fold value
  else encode_chars (nfc (concat (map to_lowercase (str_chars value)))).

(** [str::encode_utf16]: one unit below U+10000, two above. *)
Definition utf16_units (s : str) : Z :=
  foldr Z.add 0 (map (fun c => if c <? 65536 then 1 else 2) (str_chars s)).

Definition not_public (c : Z) : bool :=
  match get_general_category c with
  | Unassigned | PrivateUse | Surrogate => true
  | _ => false
  end.

Definition portable_name_violation (jailed : JailedName) : option string :=
  if negb (length (actions jailed) =? 0)%nat
  then Some "portable UTF-8 paths may not contain dot components"%string
  else if existsb not_public (concat (map str_chars (components jailed)))
  then Some "portable UTF-8 paths require Unicode 16.0 public assigned scalars"%string
  else if existsb (fun c => PORTABLE_NAME_MAX_COMPONENT_UTF8_BYTES <? Z.of_nat (length c))
            (components jailed)
  then Some "portable UTF-8 path component exceeds 255 UTF-8 bytes"%string
  else if existsb (fun c => PORTABLE_NAME_MAX_COMPONENT_UTF16_UNITS <? utf16_units c)
            (components jailed)
  then Some "portable UTF-8 path component exceeds 255 UTF-16 code units"%string
  else None.
End Jail.

(** ** [std::path] on Unix *)

Inductive PathComponent : Type := RootDir | CurDir | ParentDir | Normal (name : str).
#[export] Instance PathComponent_eq_dec : EqDecision PathComponent.
Proof. solve_decision. Defined.

(** One separated piece: empty and dot pieces are skipped. *)
Definition path_component (piece : str) : list PathComponent :=
  if bool_decide (piece = []) || bool_decide (piece = lit ".") then []
  else if bool_decide (piece = lit "..") then [ParentDir]
  else [Normal piece].
(** [Path::components]: a leading dot is kept when there is no root. *)
Definition path_components (path : str) : list PathComponent :=
  (if starts_with_byte "/" path then [RootDir]
   else if bool_decide (head (split_on "/" path) = Some (lit ".")) then [CurDir] else [])
  ++ concat (map path_component (split_on "/" path)).

(** [PathBuf::push]. *)
Definition path_push (self path : str) : str :=
  if starts_with_byte "/" path then path
  else if negb (bool_decide (self = [])) && negb (ends_with_byte "/" self)
  then self ++ ["/"%byte] ++ path
  else self ++ path.

Definition is_strict_child_or_eq (root target : str) : bool :=
  let root_c := path_components root in
  bool_decide (take (length root_c) (path_components target) = root_c).

Definition join_under_dest (dest : str) (parts : list str) (raw : str) : result str Finding :=
  let target := foldl path_push dest parts in
  reject negb (is_strict_child_or_eq dest target)
    with on (error PathEscape "path escapes destination") raw ;;
  Ok target.
