(* ===== verification/JailSafe.v ===== *)
(** * What the jail guarantees ([jail.rs])

    A declarative grammar of the accepted names, the exactness of
    [jail_name_fallible_for_profile] against it, and the containment theorem:
    an accepted name, joined under an absolute destination, names a strict
    descendant of it, one path component per accepted component. *)

From S2P Require Import Prelude Utf8 Findings Ir Jail.
Local Open Scope Z_scope.

(** ** Specification *)

Section Grammar.
Context `{!Unicode}.

Record component_ok (profile : ZipInterpretationProfile) (part : str) : Prop := {
  cp_nonempty : part <> [];
  cp_dot : part <> lit ".";
  cp_dotdot : part <> lit "..";
  cp_colon : ":"%byte ∉ part;
  cp_chars : Forall (fun c => invalid_character_for_profile c profile = false
                              /\ c ∉ illegal_characters) (str_chars part);
  cp_trailing : last part <> Some "."%byte /\ last part <> Some " "%byte;
  cp_reserved : is_reserved part profile = false
}.

Definition kept (raw : str) : list str := filter (fun p => p <> lit ".") (split_on "/" raw).
(** The positions of the dot components. *)
Fixpoint dot_positions (i : Z) (parts : list str) : list Z :=
  match parts with
  | [] => []
  | p :: parts => (if bool_decide (p = lit ".") then [i] else []) ++ dot_positions (i + 1) parts
  end.
Definition jailed (raw : str) : JailedName :=
  {| components := kept raw; actions := map DropDotComponent (dot_positions 0 (split_on "/" raw)) |}.

Record name_ok (raw : str) (max_depth : Z) (profile : ZipInterpretationProfile) : Prop := {
  no_nul : x00 ∉ raw;
  no_nfc : nfc (str_chars raw) = str_chars raw;
  no_backslash : x5c ∉ raw;
  no_absolute : head raw <> Some "/"%byte;
  no_drive : looks_like_drive raw = false;
  no_parts : Forall (fun p => p = lit "." \/ component_ok profile p) (split_on "/" raw);
  no_indices : Forall (fun i => i <= u32_max) (dot_positions 0 (split_on "/" raw));
  no_depth : 0 < Z.of_nat (length (kept raw)) <= Z.min max_depth u32_max
}.
End Grammar.

(** ** Pieces between slashes *)

Lemma contains_byte_false b s : contains_byte b s = false <-> b ∉ s.
Proof.
  unfold contains_byte. rewrite <- not_true_iff_false, existsb_exists. split.
  - intros Hn Hin. apply Hn. exists b. split; [by apply list_elem_of_In|by apply bool_decide_eq_true].
  - intros Hn (x & Hx & ->%bool_decide_eq_true). by apply Hn, list_elem_of_In.
Qed.

Lemma split_on_pieces b s : Forall (fun p => b ∉ p) (split_on b s).
Proof.
  induction s as [|x s IH]; simpl; [by apply Forall_singleton; intros ?%elem_of_nil|].
  case_bool_decide as Hx; [constructor; [by intros ?%elem_of_nil|done]|].
  destruct (split_on b s) as [|p ps]; [apply Forall_singleton|apply Forall_cons in IH as [Hp IH]; constructor; [|done]].
  - by intros ->%list_elem_of_singleton.
  - by intros [->|?]%elem_of_cons.
Qed.

Lemma split_on_single b p : b ∉ p -> split_on b p = [p].
Proof.
  induction p as [|x p IH]; intros Hn; simpl; [done|]. rewrite not_elem_of_cons in Hn.
  destruct Hn as [Hx Hn]. rewrite bool_decide_eq_false_2 by congruence. by rewrite IH.
Qed.

Lemma split_on_app b s t : split_on b (s ++ b :: t) = split_on b s ++ split_on b t.
Proof.
  induction s as [|x s IH]; simpl; [by rewrite bool_decide_eq_true_2|].
  case_bool_decide; [by rewrite IH|]. rewrite IH.
  destruct (split_on b s) as [|p ps] eqn:E; [by apply split_on_nonempty in E|done].
Qed.

(** ** The validators *)

Section Validate.
Context `{!Unicode}.

Lemma validate_component_dot part profile :
  validate_component part profile = Ok DropDot <-> part = lit ".".
Proof.
  unfold validate_component. split.
  - intros Hv. destruct (decide (part = lit ".")) as [|Hne]; [done|].
    rewrite (bool_decide_eq_false_2 (part = lit ".")) in Hv by done. by repeat case_match.
  - intros ->. reflexivity.
Qed.

Lemma validate_component_keep part profile :
  validate_component part profile = Ok Keep <-> component_ok profile part.
Proof.
  unfold validate_component. split.
  - intros Hv. destruct (length part =? 0)%nat eqn:Hl; [done|]. apply Nat.eqb_neq in Hl.
    repeat (let E := fresh "E" in match type of Hv with (if ?b then _ else _) = _ => destruct b eqn:E; [done|] end).
    apply bool_decide_eq_false in E, E0. apply contains_byte_false in E1.
    apply orb_false_iff in E3 as [E3 E3']. unfold ends_with_byte in E3, E3'.
    apply bool_decide_eq_false in E3, E3'. split; try done; [by intros ->|].
    apply Forall_forall. intros c Hin.
    rewrite <- not_true_iff_false, existsb_exists in E2.
    destruct (invalid_character_for_profile c profile) eqn:Ei;
      [exfalso; apply E2; exists c; split; [by apply list_elem_of_In|by rewrite Ei]|].
    split; [done|]. intros Hill. apply E2. exists c. split; [by apply list_elem_of_In|].
    rewrite Ei. by apply bool_decide_eq_true.
  - intros [Hne Hd Hdd Hc Hch [Ht Ht'] Hr].
    rewrite (proj2 (Nat.eqb_neq _ _)) by (by destruct part).
    rewrite !bool_decide_eq_false_2 by done. rewrite (proj2 (contains_byte_false _ _)) by done.
    unfold ends_with_byte. rewrite !bool_decide_eq_false_2 by done. rewrite Hr. cbn [orb].
    replace (existsb _ (str_chars part)) with false; [done|]. symmetry. apply not_true_iff_false.
    rewrite existsb_exists. intros (c & Hin%list_elem_of_In & Hb).
    rewrite Forall_forall in Hch. destruct (Hch c Hin) as [H1 H2].
    rewrite H1, bool_decide_eq_false_2 in Hb by done. done.
Qed.

(** An accepted piece, and what the two passes make of it. *)
Definition piece_ok (profile : ZipInterpretationProfile) (p : str) : Prop :=
  p = lit "." \/ component_ok profile p.

Lemma piece_cases profile p d :
  validate_component p profile = Ok d ->
  (d = DropDot /\ p = lit ".") \/ (d = Keep /\ p <> lit "." /\ component_ok profile p).
Proof.
  destruct d; intros Hv.
  - left. by apply validate_component_dot in Hv.
  - right. apply validate_component_keep in Hv. split_and!; [done|by apply cp_dot in Hv|done].
Qed.

Lemma count_components_ok profile i parts cc ac r :
  count_components profile i parts cc ac = Ok r <->
  Forall (piece_ok profile) parts /\ Forall (fun i => i <= u32_max) (dot_positions i parts)
  /\ r = (cc + Z.of_nat (length (filter (fun p => p <> lit ".") parts)),
          ac + Z.of_nat (length (dot_positions i parts))).
Proof.
  revert i cc ac. induction parts as [|p parts IH]; intros i cc ac.
  - simpl. rewrite !Z.add_0_r. split; [intros [= <-]|intros (_ & _ & ->)]; by split_and?.
  - cbn [count_components dot_positions]. rewrite Forall_cons. split.
    + intros Hc. destruct (validate_component p profile) as [d|] eqn:Hv; [|done].
      apply piece_cases in Hv as [[-> ->]|(-> & Hne & Hok)].
      * ok_step Hc. breflect. apply IH in Hc as (Hp & Hi & ->).
        rewrite bool_decide_eq_true_2, filter_cons_False by (by try intros []). cbn [app length].
        split_and!; [by left|done|by constructor|]. apply f_equal2; unfold str in *; lia.
      * apply IH in Hc as (Hp & Hi & ->). rewrite bool_decide_eq_false_2, filter_cons_True by done.
        cbn [app length]. split_and!; [by right|done|done|]. apply f_equal2; unfold str in *; lia.
    + intros ([Hp Hps] & Hi & ->). destruct (decide (p = lit ".")) as [->|Hne].
      * rewrite (proj2 (validate_component_dot (lit ".") profile) eq_refl).
        rewrite bool_decide_eq_true_2, filter_cons_False in * by (by try intros []). cbn [app length] in *.
        apply Forall_cons in Hi as [Hi His]. rewrite (proj2 (Z.ltb_ge _ _)) by lia.
        apply IH. split_and!; [done..|]. apply f_equal2; unfold str in *; lia.
      * destruct Hp as [Hp|Hp]; [done|]. rewrite (proj2 (validate_component_keep p profile) Hp).
        rewrite bool_decide_eq_false_2, filter_cons_True in * by done. cbn [app length] in *.
        apply IH. split_and!; [done..|]. apply f_equal2; unfold str in *; lia.
Qed.

Lemma starts_with_false b s : starts_with_byte b s = false <-> head s <> Some b.
Proof. apply bool_decide_eq_false. Qed.

Lemma validate_name_ok raw max_depth profile r :
  validate_name raw max_depth profile = Ok r <->
  name_ok raw max_depth profile
  /\ r = (Z.of_nat (length (kept raw)), Z.of_nat (length (dot_positions 0 (split_on "/" raw)))).
Proof.
  unfold validate_name. split.
  - intros Hv. ok_step Hv. ok_step Hv. ok_step Hv. ok_step Hv. ok_step Hv. ok_step Hv.
    ok_step Hv. ok_step Hv. breflect.
    repeat match goal with Hx : contains_byte _ _ = false |- _ => apply contains_byte_false in Hx end.
    match goal with Hx : bool_decide _ = true |- _ => apply bool_decide_eq_true in Hx end.
    match goal with Hx : starts_with_byte _ _ = false |- _ => apply starts_with_false in Hx end.
    match goal with Hx : count_components _ _ _ _ _ = Ok _ |- _ =>
      apply count_components_ok in Hx as (Hp & Hi & [= -> ->]) end.
    rewrite !Z.add_0_l in *. injection Hv as <-. fold (kept raw) in *.
    split; [|done]. split; try done. lia.
  - intros [[H1 H2 H3 H4 H5 H6 H7 H8] ->].
    rewrite !(proj2 (contains_byte_false _ _)) by done. rewrite bool_decide_eq_true_2 by done.
    rewrite (proj2 (starts_with_false _ _)), H5 by done. cbn [negb orb].
    rewrite (proj2 (count_components_ok profile 0 (split_on "/" raw) 0 0
      (Z.of_nat (length (kept raw)), Z.of_nat (length (dot_positions 0 (split_on "/" raw)))))).
    + rewrite (proj2 (Z.eqb_neq _ _)), !(proj2 (Z.ltb_ge _ _)) by lia. done.
    + split_and!; [done|done|]. by rewrite !Z.add_0_l.
Qed.
End Validate.

Section Collect.
Context `{!Unicode} `{!Allocator}.

(** The second pass never panics where the first accepted, and without failed
    reservations yields the kept components and the dropped positions. *)
Lemma collect_components_ok profile i parts out :
  Forall (piece_ok profile) parts -> Forall (fun i => i <= u32_max) (dot_positions i parts) ->
  collect_components profile i parts out <> None
  /\ (forall j, collect_components profile i parts out = Some (Ok j) ->
      j = {| components := components out ++ filter (fun p => p <> lit ".") parts;
             actions := actions out ++ map DropDotComponent (dot_positions i parts) |})
  /\ ((forall site n, try_reserve site n = true) ->
      is_Some (collect_components profile i parts out ≫= ok)).
Proof.
  intros Hp. revert i out. induction Hp as [|p parts Hp Hps IH]; intros i out Hi.
  - cbn [collect_components filter dot_positions map]. rewrite !app_nil_r.
    split_and!; [done|by intros j [= <-]; destruct out|by intros _; eexists].
  - cbn [collect_components dot_positions] in *. destruct (decide (p = lit ".")) as [->|Hne].
    + rewrite (proj2 (validate_component_dot (lit ".") profile) eq_refl).
      rewrite bool_decide_eq_true_2, filter_cons_False in * by (by try intros []). cbn [app map] in *.
      apply Forall_cons in Hi as [Hi His]. rewrite (proj2 (Z.ltb_ge _ _)) by lia.
      destruct (IH (i + 1) {| components := components out;
        actions := actions out ++ [DropDotComponent i] |} His) as (H1 & H2 & H3).
      split_and!; [done| |done]. intros j Hj%H2. rewrite Hj. cbn [components actions].
      by rewrite <- app_assoc.
    + destruct Hp as [Hp|Hp]; [done|]. rewrite (proj2 (validate_component_keep p profile) Hp).
      rewrite bool_decide_eq_false_2, filter_cons_True in * by done. cbn [app map] in *.
      destruct (IH (i + 1) {| components := components out ++ [p]; actions := actions out |} Hi)
        as (H1 & H2 & H3).
      destruct (try_reserve _ _) eqn:Ha; cbn [negb].
      * split_and!; [done| |done]. intros j Hj%H2. rewrite Hj. cbn [components actions].
        by rewrite <- app_assoc.
      * split_and!; [done..|]. intros Hall. by rewrite Hall in Ha.
Qed.

(** Whatever the allocator does: no panic, and only the jailed name. *)
Lemma jail_name_fallible_sound raw max_depth profile :
  jail_name_fallible_for_profile raw max_depth profile <> None
  /\ forall j, jail_name_fallible_for_profile raw max_depth profile = Some (Ok j) ->
     name_ok raw max_depth profile /\ j = jailed raw.
Proof.
  unfold jail_name_fallible_for_profile.
  destruct (validate_name raw max_depth profile) as [[cc ac]|] eqn:Hv; [|done].
  apply validate_name_ok in Hv as [Hok [= -> ->]]. pose proof Hok as [_ _ _ _ _ Hp Hi _].
  destruct (collect_components_ok profile 0 _ {| components := []; actions := [] |} Hp Hi) as (H1 & H2 & _).
  unfold reserve_exact. do 2 (destruct (try_reserve _ _); [|done]). split; [done|].
  intros j Hj%H2. done.
Qed.

Lemma jail_name_fallible_complete raw max_depth profile :
  (forall site n, try_reserve site n = true) -> name_ok raw max_depth profile ->
  jail_name_fallible_for_profile raw max_depth profile = Some (Ok (jailed raw)).
Proof.
  intros Ha Hok. unfold jail_name_fallible_for_profile.
  rewrite (proj2 (validate_name_ok raw max_depth profile _) (conj Hok eq_refl)).
  unfold reserve_exact. rewrite !Ha. pose proof Hok as [_ _ _ _ _ Hp Hi _].
  destruct (collect_components_ok profile 0 _ {| components := []; actions := [] |} Hp Hi) as (H1 & H2 & H3).
  destruct (H3 Ha) as [j Hj]. destruct (collect_components _ _ _ _) as [[j'|]|]; simpl in Hj; simplify_eq.
  by rewrite (H2 j eq_refl).
Qed.
End Collect.

(** ** Joining under a destination *)

Lemma component_path profile p :
  forall `{!Unicode}, component_ok profile p -> path_component p = [Normal p].
Proof.
  intros ? [H1 H2 H3 _ _ _ _]. unfold path_component.
  by rewrite !bool_decide_eq_false_2 by done.
Qed.

Lemma last_Some_split {A} (l : list A) x : last l = Some x -> exists l', l = l' ++ [x].
Proof.
  destruct l as [|y l _] using rev_ind; [done|]. rewrite last_snoc. intros [= ->]. eauto.
Qed.

Lemma path_push_component d p :
  head d = Some "/"%byte -> "/"%byte ∉ p -> path_component p = [Normal p] ->
  head (path_push d p) = Some "/"%byte
  /\ path_components (path_push d p) = path_components d ++ [Normal p].
Proof.
  intros Hd Hp Hc. unfold path_push.
  assert (Hs : starts_with_byte "/" p = false).
  { apply starts_with_false. destruct p; [done|]. simpl. intros [= ->]. by apply Hp, elem_of_cons; left. }
  assert (Hstart : forall e, head e = Some "/"%byte -> starts_with_byte "/" e = true)
    by (intros e He; by apply bool_decide_eq_true).
  rewrite Hs, bool_decide_eq_false_2 by (by destruct d). cbn [negb andb].
  assert (Hhead : forall t, head (d ++ t) = Some "/"%byte) by (intros t; by destruct d).
  destruct (ends_with_byte "/" d) eqn:He; cbn [negb].
  - apply bool_decide_eq_true, last_Some_split in He as [d' ->]. split; [apply Hhead|].
    unfold path_components. rewrite !Hstart by done. rewrite <- app_assoc. cbn [app].
    rewrite !split_on_app, (split_on_single "/" p) by done.
    rewrite !map_app, !concat_app. simpl. rewrite Hc, !app_nil_r. done.
  - split; [apply Hhead|]. unfold path_components. rewrite !Hstart by done. cbn [app].
    rewrite split_on_app, (split_on_single "/" p) by done.
    rewrite map_app, concat_app. simpl. by rewrite Hc.
Qed.

Lemma path_push_components parts d :
  head d = Some "/"%byte ->
  Forall (fun p => ("/"%byte ∉ p) /\ path_component p = [Normal p]) parts ->
  path_components (foldl path_push d parts) = path_components d ++ map Normal parts.
Proof.
  intros Hd Hp. revert d Hd. induction Hp as [|p parts [Hs Hc] _ IH]; intros d Hd; simpl.
  - by rewrite app_nil_r.
  - destruct (path_push_component d p Hd Hs Hc) as [Hd' Hcs]. rewrite IH by done.
    by rewrite Hcs, <- app_assoc.
Qed.

Lemma kept_components `{!Unicode} raw max_depth profile :
  name_ok raw max_depth profile ->
  kept raw <> []
  /\ Forall (fun p => component_ok profile p /\ "/"%byte ∉ p) (kept raw).
Proof.
  intros [_ _ _ _ _ Hp _ Hd]. split; [by intros E; rewrite E in Hd; simpl in Hd; lia|].
  pose proof (split_on_pieces "/" raw) as Hs. unfold kept. apply Forall_forall. intros p Hin.
  apply list_elem_of_filter in Hin as [Hne Hin]. rewrite Forall_forall in Hp, Hs.
  destruct (Hp p Hin) as [?|Hok]; [done|]. split; [done|]. by apply Hs.
Qed.

Lemma jailed_join `{!Unicode} `{!Allocator} raw max_depth profile j dest :
  jail_name_for_profile raw max_depth profile = Some (Ok j) -> head dest = Some "/"%byte ->
  exists target, join_under_dest dest (components j) raw = Ok target
  /\ path_components target = path_components dest ++ map Normal (components j)
  /\ components j <> [] /\ Z.of_nat (length (components j)) <= max_depth
  /\ Forall (component_ok profile) (components j).
Proof.
  intros Hj Hd. unfold jail_name_for_profile in Hj.
  destruct (jail_name_fallible_sound raw max_depth profile) as [_ Hs].
  destruct (jail_name_fallible_for_profile raw max_depth profile) as [[j'|e]|]; [|by destruct e|done].
  injection Hj as ->. destruct (Hs j eq_refl) as [Hok ->]. clear Hs.
  destruct (kept_components _ _ _ Hok) as [Hne Hk].
  assert (Hpush : path_components (foldl path_push dest (kept raw))
    = path_components dest ++ map Normal (kept raw)).
  { apply path_push_components; [done|]. eapply Forall_impl; [exact Hk|]. intros p [Hp Hs].
    split; [done|]. by eapply component_path. }
  exists (foldl path_push dest (kept raw)). cbn [components jailed]. split_and!.
  - unfold join_under_dest, is_strict_child_or_eq. rewrite Hpush, take_app_length.
    by rewrite bool_decide_eq_true_2.
  - done.
  - done.
  - destruct Hok as [_ _ _ _ _ _ _ Hdepth]. lia.
  - eapply Forall_impl; [exact Hk|]. by intros p [? _].
Qed.

(** ** Theorems *)

(** C37: The jail accepts exactly the names of the portable grammar, and returns
    their components without the dots, which it records by position.  It
    never panics on the second pass, and a failed reservation can only
    refuse. *)
Theorem jail_accepts_iff `{!Unicode} `{!Allocator} raw max_depth profile :
  jail_name_fallible_for_profile raw max_depth profile <> None
  /\ (forall j, jail_name_fallible_for_profile raw max_depth profile = Some (Ok j) ->
      name_ok raw max_depth profile /\ j = jailed raw)
  /\ ((forall site n, try_reserve site n = true) -> name_ok raw max_depth profile ->
      jail_name_fallible_for_profile raw max_depth profile = Some (Ok (jailed raw))).
Proof.
  destruct (jail_name_fallible_sound raw max_depth profile) as [H1 H2].
  split_and!; [done|done|]. by apply jail_name_fallible_complete.
Qed.

(** C11: An accepted name stays inside: joined under any absolute destination it
    never escapes, and its path is the destination's components followed by
    the accepted ones, at least one, none of them a parent, a root or a
    dot. *)
Theorem jailed_name_stays_inside `{!Unicode} `{!Allocator} raw max_depth profile j dest :
  jail_name_for_profile raw max_depth profile = Some (Ok j) ->
  head dest = Some "/"%byte ->
  exists target, join_under_dest dest (components j) raw = Ok target
  /\ path_components target = path_components dest ++ map Normal (components j)
  /\ components j <> [] /\ Z.of_nat (length (components j)) <= max_depth
  /\ Forall (component_ok profile) (components j).
Proof. apply jailed_join. Qed.

(** Two accepted names are joined to the same place only when their
    components are the same: the jail creates no aliases. *)
Theorem jailed_names_do_not_alias `{!Unicode} `{!Allocator} raw1 raw2 d1 d2 p1 p2 j1 j2 dest target :
  jail_name_for_profile raw1 d1 p1 = Some (Ok j1) -> jail_name_for_profile raw2 d2 p2 = Some (Ok j2) ->
  head dest = Some "/"%byte ->
  join_under_dest dest (components j1) raw1 = Ok target ->
  join_under_dest dest (components j2) raw2 = Ok target ->
  components j1 = components j2.
Proof.
  intros H1 H2 Hd Ht1 Ht2. destruct (jailed_join _ _ _ _ _ H1 Hd) as (t1 & E1 & Hc1 & _).
  destruct (jailed_join _ _ _ _ _ H2 Hd) as (t2 & E2 & Hc2 & _).
  assert (t1 = t2) as -> by congruence. clear Ht1 Ht2 E1 E2.
  rewrite Hc1 in Hc2. apply app_inv_head in Hc2. revert Hc2. generalize (components j1), (components j2).
  intros l1. induction l1 as [|x l1 IH]; intros [|y l2] E; simpl in E; simplify_eq; [done|].
  f_equal. by apply IH.
Qed.

(** ** Witnesses: an ASCII reading of the Unicode tables *)

Definition ascii_unicode : Unicode :=
  {| nfc := fun cs => cs; default_case_fold := fun cs => cs; to_lowercase := fun c => [c];
     get_general_category := fun c => if char_is_control c then Control else LowercaseLetter |}.

Definition example_name : str := lit "a/./b.txt".
Definition example_jailed : JailedName :=
  {| components := [lit "a"; lit "b.txt"]; actions := [DropDotComponent 1] |}.

Lemma jailed_name_stays_inside_witness :
  (exists target, join_under_dest (lit "/out") [lit "a"; lit "b.txt"] example_name = Ok target
   /\ path_components target = [RootDir; Normal (lit "out"); Normal (lit "a"); Normal (lit "b.txt")])
  /\ @jail_name_for_profile ascii_unicode always_reserves (lit "a/../b") 32 StrictAsciiV1
     = Some (Err (on (error PathDotDot "parent component") (lit "a/../b"))).
Proof.
  split; [|vm_compute; reflexivity].
  destruct (@jailed_name_stays_inside ascii_unicode always_reserves example_name 32 StrictAsciiV1
    example_jailed (lit "/out") ltac:(vm_compute; reflexivity) eq_refl) as (t & Ht & Hc & _).
  exists t. split; [exact Ht|]. rewrite Hc. vm_compute. reflexivity.
Defined.

Lemma jailed_names_do_not_alias_witness :
  components example_jailed = [lit "a"; lit "b.txt"].
Proof.
  apply (@jailed_names_do_not_alias ascii_unicode always_reserves example_name (lit "a/b.txt") 32 32
    StrictAsciiV1 PortableUtf8V1 example_jailed {| components := [lit "a"; lit "b.txt"]; actions := [] |}
    (lit "/out") (lit "/out/a/b.txt")); vm_compute; reflexivity.
Defined.

Lemma jail_accepts_iff_witness :
  @name_ok ascii_unicode example_name 32 StrictAsciiV1 /\ example_jailed = jailed example_name.
Proof.
  destruct (@jail_accepts_iff ascii_unicode always_reserves example_name 32 StrictAsciiV1) as (_ & H & _).
  exact (H example_jailed ltac:(vm_compute; reflexivity)).
Defined.
