(* ===== verification/Transforms.v ===== *)
(** * Snapshot domains and transformations ([snapshot.rs])

    One operation keeps the original archive as domain zero and every derived
    byte stream as a further domain, with a record that binds each derived
    domain to the exact range and decoder it came from.  Appending is all or
    nothing; every pair of a set and a graph built that way validates. *)

From S2P Require Import Prelude Utf8 Findings Snapshot Streams ByteFields.
Local Open Scope Z_scope.
Local Open Scope rust_scope.

(** ** Domains *)

(** [SnapshotDomainId], a [u16]. *)
Definition SnapshotDomainId : Type := Z.
Definition ORIGINAL : SnapshotDomainId := 0.
Definition FIRST_DERIVED : SnapshotDomainId := 1.

Record DomainRange : Type := { dr_domain : SnapshotDomainId; dr_range : ByteRange }.
#[export] Instance DomainRange_eq_dec : EqDecision DomainRange.
Proof. solve_decision. Defined.

Definition original_range (range : ByteRange) : DomainRange :=
  {| dr_domain := ORIGINAL; dr_range := range |}.

(** [SnapshotSet]: the original and the derived domains; never empty. *)
Record SnapshotSet : Type := { original : SourceSnapshot; derived : list SourceSnapshot }.
Definition domains (set : SnapshotSet) : list SourceSnapshot := original set :: derived set.

Definition from_original (snapshot : SourceSnapshot) : SnapshotSet :=
  {| original := snapshot; derived := [] |}.
Definition set_len (set : SnapshotSet) : nat := length (domains set).
Definition domain (set : SnapshotSet) (id : SnapshotDomainId) : option SourceSnapshot :=
  domains set !! Z.to_nat id.

(** [SnapshotSet::reader]: the snapshot read, and the cursor. *)
Definition set_reader (set : SnapshotSet) (source : DomainRange) :
    result (SourceSnapshot * RangeReader) Finding :=
  let? snapshot := ok_or (domain set (dr_domain source))
    (error CoveringInconsistent "payload references an unavailable snapshot domain") in
  let? r := reader snapshot (offset (dr_range source)) (len (dr_range source)) in
  Ok (snapshot, r).

(** ** Decoder profiles *)

Inductive TransformProfile : Type :=
  | GzipRfc1952SingleMemberV1
  | ZstdRfc8878SingleFrameV1
  | XzSingleStreamV1
  | Bzip2SingleStreamV1.
#[export] Instance TransformProfile_eq_dec : EqDecision TransformProfile.
Proof. solve_decision. Defined.

Definition transform_id (p : TransformProfile) : string :=
  match p with
  | GzipRfc1952SingleMemberV1 => "sealr.transform.gzip.rfc1952-single-member.v1"
  | ZstdRfc8878SingleFrameV1 => "sealr.transform.zstd.rfc8878-single-frame.v1"
  | XzSingleStreamV1 => "sealr.transform.xz.xzfmt-single-stream.v1"
  | Bzip2SingleStreamV1 => "sealr.transform.bzip2.bzip2fmt-single-stream.v1"
  end.

Definition definition (p : TransformProfile) : string :=
  match p with
  | GzipRfc1952SingleMemberV1 => "algorithm=rfc1952-gzip;members=exactly-one;reserved-flags=zero;extra-fields=exact-subfield-framing-si2-nonzero-unique-ids;trailing-data=forbidden;header-crc=verify-when-present;data-crc32=verify;isize=verify;payload=rfc1951-deflate;output=bounded"
  | ZstdRfc8878SingleFrameV1 => "algorithm=rfc8878-zstd;frames=exactly-one;skippable-frames=forbidden;reserved-descriptor-bit=zero;unused-descriptor-bit=zero;dictionary=forbidden;window-size-max-bytes=8388608;frame-content-size=verify-when-present;content-checksum-xxh64=verify-when-present;trailing-data=forbidden;payload=rfc8878-blocks;output=bounded"
  | XzSingleStreamV1 => "algorithm=xz-file-format-1.2.1;streams=exactly-one;blocks=one-to-4096;filter-chain=exactly-lzma2;dictionary-max-bytes=8388608;checks=crc32-crc64-sha256-verified-twice;check-none=forbidden;declared-block-sizes=both-or-neither-verified;backward-size=verify;reserved-bits=zero;stream-padding=forbidden;trailing-data=forbidden;output=bounded"
  | Bzip2SingleStreamV1 => "algorithm=bzip2fmt-1.0.8;streams=exactly-one;blocks=one-to-65536;header-level=1-to-9;randomized-blocks=forbidden;block-magic-scan=chain-fold-verified;block-crcs=decoder-verified-single-block-verified-twice;combined-crc=extracted-and-verified;footer-padding-bits=zero;trailing-data=forbidden;output=bounded"
  end.

Definition transform_digest (p : TransformProfile) : string :=
  match p with
  | GzipRfc1952SingleMemberV1 => "795a124c278eacf1fb9b4fc3825a74240d6d0e89c29ffdfe6118ff6db53c0a45"
  | ZstdRfc8878SingleFrameV1 => "86745123584dc79e454f8f1bbf5a1bd1b75d1334902fd629e8eee8f251aa9d19"
  | XzSingleStreamV1 => "b3c323849a366141edc28e0c5ab0028253430d0f6a5bda2ebec728c3a6543667"
  | Bzip2SingleStreamV1 => "3520def23a770b24a29ae037ae31d3bfefeb3faf7132b07913ae71dbf028ece4"
  end.

Definition decoder_parameters (p : TransformProfile) : string :=
  match p with
  | GzipRfc1952SingleMemberV1 => "rfc1951-window-bits=15;preset-dictionary=none"
  | ZstdRfc8878SingleFrameV1 =>
      "rfc8878-max-window-bytes=8388608;dictionary=none;block-decoding=bounded-incremental"
  | XzSingleStreamV1 => "lzma2-dictionary-max-bytes=8388608;decoder-memory-limit-kib=8256;multiple-streams=denied;stream-decoding=bounded-incremental"
  | Bzip2SingleStreamV1 => "libbz2-rs-decompress-small=false;memory-ceiling-bytes=3700000;multiple-streams=denied;stream-decoding=bounded-incremental"
  end.

Definition decoder_parameters_digest (p : TransformProfile) : string :=
  match p with
  | GzipRfc1952SingleMemberV1 => "c835627b01c4b54041c627319fab4d5af294a203ac26fbe91cadb6d1f17cd5e1"
  | ZstdRfc8878SingleFrameV1 => "a4a46d31cf8acbbfe043745ba1df4f43b7a955efc28ee8913804a99bae79d503"
  | XzSingleStreamV1 => "ebdf4f3d9624cad6b245054d78f84ca50f8cea18a368e0025d2812dae8799032"
  | Bzip2SingleStreamV1 => "c5c288439edcf5710a640215400fa2481f06fb0a2381ec96db29f7e1ace36195"
  end.

(** [is_transform_profile_id], [is_sha256_hex]. *)
Definition is_transform_profile_id (value : str) : bool :=
  negb (length value =? 0)%nat && (Z.of_nat (length value) <=? 255)
  && forallb (fun b => between 97 122 (u8 b) || between 48 57 (u8 b)
                       || bool_decide (b ∈ ["."; "-"; "_"]%byte)) value.
Definition is_sha256_hex (value : str) : bool :=
  (length value =? 64)%nat
  && forallb (fun b => between 48 57 (u8 b) || between 97 102 (u8 b)) value.

(** [u64::to_be_bytes]. *)
Definition u64_be_bytes (v : Z) : list byte :=
  rev (le_bytes 8 v).

Record TransformRecord : Type := {
  tr_profile : TransformProfile;
  tr_profile_id : str;
  tr_profile_sha256 : str;
  tr_decoder_parameters_sha256 : str;
  tr_input : DomainRange;
  tr_input_sha256 : str;
  tr_output_domain : SnapshotDomainId;
  tr_output_len : Z;
  tr_output_sha256 : str
}.

(** [TransformGraph]. *)
Definition TransformGraph : Type := list TransformRecord.
Definition empty_graph : TransformGraph := [].

Section Graph.
Context `{!Sha256}.

(** [transform_profile_sha256]; the lengths of slices fit [u64]. *)
Definition transform_profile_sha256 (id definition : str) : str :=
  hex_sha256 (lit "sealr.transform-profile.v1" ++ [x00]
    ++ u64_be_bytes (Z.of_nat (length id)) ++ id
    ++ u64_be_bytes (Z.of_nat (length definition)) ++ definition).

(** [TransformProfile::validates]. *)
Definition profile_validates (p : TransformProfile) : bool :=
  is_transform_profile_id (lit (transform_id p))
  && negb (length (lit (definition p)) =? 0)%nat
  && is_sha256_hex (lit (transform_digest p))
  && bool_decide (transform_profile_sha256 (lit (transform_id p)) (lit (definition p))
                  = lit (transform_digest p))
  && is_sha256_hex (lit (decoder_parameters_digest p))
  && bool_decide (hex_sha256 (lit (decoder_parameters p)) = lit (decoder_parameters_digest p)).

(** [SnapshotSet::range_sha256]. *)
Definition range_sha256 (set : SnapshotSet) (source : DomainRange) : exec str Finding :=
  let* (snapshot, r) := set_reader set source in
  let _ := range_reader_instance snapshot in
  let! (_, (n, sha256)) := copy_bounded r () (len (dr_range source)) in
  reject! negb (n =? len (dr_range source))
    with error SourceIo ("snapshot range read " +++ fmt_dec n +++ " bytes; expected "
                         +++ fmt_dec (len (dr_range source))) ;;
  Some (Ok sha256).

(** The closure of [TransformGraph::validates], for the record at [index]. *)
Definition record_validates (set : SnapshotSet) (index : nat) (record : TransformRecord) : option bool :=
  let output_number := Z.of_nat index + 1 in
  let p := tr_profile record in
  if (u16_max <? output_number)
     || negb (profile_validates p)
     || negb (bool_decide (tr_profile_id record = lit (transform_id p)))
     || negb (is_sha256_hex (tr_profile_sha256 record))
     || negb (bool_decide (tr_profile_sha256 record = lit (transform_digest p)))
     || negb (is_sha256_hex (tr_decoder_parameters_sha256 record))
     || negb (bool_decide (tr_decoder_parameters_sha256 record = lit (decoder_parameters_digest p)))
     || negb (is_sha256_hex (tr_input_sha256 record))
     || negb (tr_output_domain record =? output_number)
     || (output_number <=? dr_domain (tr_input record))
  then Some false
  else
    match range_sha256 set (tr_input record) with
    | None => None
    | Some (Err _) => Some false
    | Some (Ok input_sha256) =>
        if negb (bool_decide (input_sha256 = tr_input_sha256 record)) then Some false
        else
          match domain set (tr_output_domain record) with
          | None => Some false
          | Some output =>
              Some ((src_len output =? tr_output_len record)
                    && bool_decide (digest_sha256 (digest output) = Some (tr_output_sha256 record))
                    && is_sha256_hex (tr_output_sha256 record))
          end
    end.

(** [iter().enumerate().all(..)]. *)
Fixpoint all_validate (set : SnapshotSet) (index : nat) (records : TransformGraph) : option bool :=
  match records with
  | [] => Some true
  | record :: records =>
      match record_validates set index record with
      | Some true => all_validate set (S index) records
      | r => r
      end
  end.

(** [TransformGraph::validates]. *)
Definition graph_validates (records : TransformGraph) (set : SnapshotSet) : option bool :=
  if negb (length records + 1 =? set_len set)%nat then Some false
  else all_validate set 0 records.

(** ** Appending a derived domain *)

(** [prepare_transform]. *)
Definition prepare_transform (set : SnapshotSet) (transforms : TransformGraph)
    (profile : TransformProfile) (input : DomainRange) : exec (SnapshotDomainId * str) Finding :=
  reject! negb (profile_validates profile)
    with error CoveringInconsistent
      "derived snapshot uses an invalid transformation profile identity" ;;
  match graph_validates transforms set with
  | None => None
  | Some false => Some (Err (error CoveringInconsistent
      "existing transformation graph does not match the retained snapshots"))
  | Some true =>
      let id := Z.of_nat (set_len set) in
      reject! u16_max <? id
        with error QuotaArchive "snapshot domain count exceeds the u16 identity space" ;;
      reject! id <=? dr_domain input
        with error CoveringInconsistent "transformation input must precede its output domain" ;;
      let! input_sha256 := range_sha256 set input in
      Some (Ok (id, input_sha256))
  end.

(** [append_prepared_transform]: the set and the graph after it. *)
Definition append_prepared_transform `{!Allocator} (set : SnapshotSet) (transforms : TransformGraph)
    (profile : TransformProfile) (input : DomainRange) (input_sha256 : str)
    (output_domain : SnapshotDomainId) (snapshot : SourceSnapshot) :
    result (SnapshotSet * TransformGraph * SnapshotDomainId) Finding :=
  reject negb (bool_decide (kind snapshot = PrivateFileKind)) || bool_decide (is_Some (snap_path snapshot))
    with error CoveringInconsistent "derived snapshot must be a private pathless file" ;;
  let? output_sha256 := ok_or (digest_sha256 (digest snapshot))
    (error CoveringInconsistent "derived snapshot digest is unavailable") in
  reject negb (try_reserve "domains" 1)
    with error SourceIo "could not reserve a derived snapshot domain: " ;;
  reject negb (try_reserve "records" 1)
    with error SourceIo "could not reserve a transformation record: " ;;
  let record :=
    {| tr_profile := profile; tr_profile_id := lit (transform_id profile);
       tr_profile_sha256 := lit (transform_digest profile);
       tr_decoder_parameters_sha256 := lit (decoder_parameters_digest profile);
       tr_input := input; tr_input_sha256 := input_sha256; tr_output_domain := output_domain;
       tr_output_len := src_len snapshot; tr_output_sha256 := output_sha256 |} in
  Ok ({| original := original set; derived := derived set ++ [snapshot] |},
      transforms ++ [record], output_domain).

(** [append_derived_snapshot]. *)
Definition append_derived_snapshot `{!Allocator} (set : SnapshotSet) (transforms : TransformGraph)
    (profile : TransformProfile) (input : DomainRange) (snapshot : SourceSnapshot) :
    exec (SnapshotSet * TransformGraph * SnapshotDomainId) Finding :=
  let! (output_domain, input_sha256) := prepare_transform set transforms profile input in
  Some (append_prepared_transform set transforms profile input input_sha256 output_domain snapshot).
End Graph.

(** ** The graph validates by construction *)

Section Built.
Context `{!Sha256, !Sha256Laws, !Allocator}.

(** The pairs one operation can hold: the original archive, and derived
    domains appended one at a time, each with the digest of its bytes. *)
Inductive built : SnapshotSet -> TransformGraph -> Prop :=
  | built_original s : built (from_original s) empty_graph
  | built_append set g p input snapshot bytes set' g' id :
      built set g -> digest snapshot = Available (hex_sha256 bytes) ->
      append_derived_snapshot set g p input snapshot = Some (Ok (set', g', id)) ->
      built set' g'.

Lemma hex_byte_hex b :
  forallb (fun b => between 48 57 (u8 b) || between 97 102 (u8 b)) (hex_byte b) = true.
Proof. by destruct b. Qed.

Lemma hex_sha256_is_hex bytes : is_sha256_hex (hex_sha256 bytes) = true.
Proof.
  unfold is_sha256_hex. rewrite length_hex_sha256. simpl. unfold hex_sha256.
  induction (sha256 bytes) as [|b l IH]; [done|]. cbn [map concat].
  by rewrite forallb_app, hex_byte_hex, IH.
Qed.

Lemma range_sha256_hex set source h :
  range_sha256 set source = Some (Ok h) -> is_sha256_hex h = true.
Proof.
  unfold range_sha256. intros Hx. ok_step Hx. destruct a as [snapshot r]. cbv zeta in Hx.
  destruct (@copy_bounded _ _ _ (range_reader_instance snapshot) _ r () _) as [[[[] [n h']]|]|] eqn:Hc; try done.
  case_match; simplify_eq. revert Hc. unfold copy_bounded.
  apply (run_loop_invariant _ (fun _ => True) (fun out => is_sha256_hex out.2.2 = true)); [done| |done].
  intros st [w [m k]] _ Hst. unfold copy_step in Hst. cbv zeta in Hst.
  repeat case_match; simplify_eq. apply hex_sha256_is_hex.
Qed.

Definition extend (set : SnapshotSet) (snapshot : SourceSnapshot) : SnapshotSet :=
  {| original := original set; derived := derived set ++ [snapshot] |}.

Lemma domain_extend set snapshot id :
  (Z.to_nat id < set_len set)%nat -> domain (extend set snapshot) id = domain set id.
Proof.
  intros Hid. unfold domain, domains, extend. simpl original. simpl derived.
  change (original set :: derived set ++ [snapshot]) with (domains set ++ [snapshot]).
  by apply lookup_app_l.
Qed.

Lemma range_sha256_extend set snapshot input :
  (Z.to_nat (dr_domain input) < set_len set)%nat ->
  range_sha256 (extend set snapshot) input = range_sha256 set input.
Proof. intros Hid. unfold range_sha256, set_reader. by rewrite domain_extend. Qed.

Lemma record_validates_extend set snapshot index record :
  (index + 1 < set_len set)%nat -> record_validates set index record = Some true ->
  record_validates (extend set snapshot) index record = Some true.
Proof.
  unfold record_validates. intros Hi Hr. cbv zeta in *. case_match eqn:Hg; [done|]. breflect.
  rewrite range_sha256_extend, domain_extend by lia. done.
Qed.

Lemma all_validate_extend set snapshot index records :
  (index + length records < set_len set)%nat ->
  all_validate set index records = Some true ->
  all_validate (extend set snapshot) index records = Some true.
Proof.
  revert index. induction records as [|r rs IH]; intros index Hl Ha; [done|]. simpl in *.
  destruct (record_validates set index r) as [[]|] eqn:Hr; [|done..].
  rewrite record_validates_extend by (done || lia). apply IH; [lia|done].
Qed.

Lemma all_validate_snoc set index records record :
  all_validate set index records = Some true ->
  record_validates set (index + length records) record = Some true ->
  all_validate set index (records ++ [record]) = Some true.
Proof.
  revert index. induction records as [|r rs IH]; intros index Ha Hr; simpl in *.
  - rewrite Nat.add_0_r in Hr. by rewrite Hr.
  - destruct (record_validates set index r) as [[]|]; [|done..]. apply IH; [done|].
    by replace (S index + length rs)%nat with (index + S (length rs))%nat by lia.
Qed.

Lemma domain_extended set snapshot id :
  id = Z.of_nat (set_len set) -> domain (extend set snapshot) id = Some snapshot.
Proof.
  intros ->. unfold domain, domains, extend. simpl original. simpl derived. rewrite Nat2Z.id.
  change (original set :: derived set ++ [snapshot]) with (domains set ++ [snapshot]).
  unfold set_len. by rewrite lookup_app_r, Nat.sub_diag by lia.
Qed.

Lemma transform_digest_hex p : is_sha256_hex (lit (transform_digest p)) = true.
Proof. by destruct p. Qed.
Lemma decoder_parameters_digest_hex p : is_sha256_hex (lit (decoder_parameters_digest p)) = true.
Proof. by destruct p. Qed.

Lemma all_validate_lookup set index records i record :
  all_validate set index records = Some true -> records !! i = Some record ->
  record_validates set (index + i) record = Some true.
Proof.
  revert index i. induction records as [|r rs IH]; intros index i Ha Hi; [done|]. simpl in Ha.
  destruct (record_validates set index r) as [[]|] eqn:Hr; [|done..].
  destruct i as [|i]; simplify_eq/=; [by rewrite Nat.add_0_r|].
  replace (index + S i)%nat with (S index + i)%nat by lia. by apply IH.
Qed.

Lemma append_validates set g p input snapshot bytes set' g' id :
  graph_validates g set = Some true -> digest snapshot = Available (hex_sha256 bytes) ->
  append_derived_snapshot set g p input snapshot = Some (Ok (set', g', id)) ->
  graph_validates g' set' = Some true.
Proof.
  intros Hg Hd Ha. unfold append_derived_snapshot in Ha. destruct (prepare_transform set g p input) as [[[out h]|]|] eqn:Hs; [|done..].
  unfold prepare_transform in Hs. rewrite Hg in Hs. cbv zeta in Hs.
  case_match eqn:Hp; [done|]. do 2 (case_match; [done|]).
  destruct (range_sha256 set input) as [[h'|]|] eqn:Hh; [|done..]. simplify_eq. breflect. unfold append_prepared_transform in Ha. case_match; [done|].
  rewrite Hd in Ha. simpl in Ha. do 2 (case_match; [done|]). simplify_eq.
  change {| original := original set; derived := derived set ++ [snapshot] |} with (extend set snapshot).
  unfold graph_validates in *. destruct (length g + 1 =? set_len set)%nat eqn:Hl; [|done].
  apply Nat.eqb_eq in Hl. cbn [negb] in Hg.
  assert (set_len (extend set snapshot) = S (set_len set)) as Hlen
    by (unfold set_len, domains, extend; simpl; rewrite length_app; simpl; lia).
  rewrite length_app, Hlen. cbn [length]. rewrite (proj2 (Nat.eqb_eq _ _)) by lia. cbn [negb].
  apply all_validate_snoc; [apply all_validate_extend; [lia|done]|]. simpl.
  unfold record_validates. cbn [tr_profile tr_profile_id tr_profile_sha256 tr_input tr_input_sha256
    tr_decoder_parameters_sha256 tr_output_domain tr_output_len tr_output_sha256]. cbv zeta.
  rewrite range_sha256_extend, domain_extended by lia.
  rewrite Hp, transform_digest_hex, decoder_parameters_digest_hex, (range_sha256_hex _ _ _ Hh), Hh.
  rewrite !bool_decide_eq_true_2, hex_sha256_is_hex by (done || by rewrite Hd). cbn [negb orb].
  rewrite (proj2 (Z.ltb_ge _ _)), (proj2 (Z.eqb_eq _ _)), (proj2 (Z.leb_gt _ _)) by lia.
  cbn [negb orb andb]. simpl src_len. by rewrite Z.eqb_refl.
Qed.

(** C40: Every set of domains and every graph built by appending validates: the
    records stay in step with the domains, each bound to an earlier domain,
    and adding a domain never invalidates a record made before it. *)
Theorem built_validates set g : built set g -> graph_validates g set = Some true.
Proof. induction 1 as [s|]; [done|by eapply append_validates]. Qed.

(** What a graph that validates says of contents the domains hold. *)
Lemma range_sha256_represents set source d bytes h :
  domain set (dr_domain source) = Some d -> represents d bytes ->
  0 <= offset (dr_range source) -> 0 <= len (dr_range source) ->
  range_sha256 set source = Some (Ok h) ->
  offset (dr_range source) + len (dr_range source) <= Z.of_nat (length bytes)
  /\ h = hex_sha256 (range (offset (dr_range source)) (len (dr_range source)) bytes).
Proof.
  intros Hd Hr Ho Hl Hx. unfold range_sha256, set_reader in Hx. rewrite Hd in Hx. cbn [ok_or] in Hx.
  destruct (reader d _ _) as [r|] eqn:Hrd; [|done]. cbv zeta in Hx.
  pose proof (reader_holds_start _ _ _ _ _ Hr Ho Hl Hrd) as Hh.
  unfold reader in Hrd. ok_steps Hrd. units. apply checked_range_ok in Hs as [_ Hin].
  rewrite (represents_len _ _ Hr) in Hin. split; [done|].
  destruct (@copy_bounded _ _ _ (range_reader_instance d) _ r () _) as [[[[] [n h']]|]|] eqn:Hc; try done.
  case_match; [done|]. simplify_eq.
  apply (@copy_bounded_sound _ _ _ (range_reader_instance d) _ (reader_holds bytes) (fun _ _ _ => True)
    _ _ _ _ _ _ _ (range_reader_holds d bytes Hr) sink_takes Hh) in Hc as (_ & -> & _);
    [done|apply range_reader_uninterrupted|done].
Qed.

(** A graph that validates binds every derived domain to where it came
    from: record [i] names the digest of the input range's bytes, taken from a
    domain before the one it produced, and the length and digest of domain
    [i + 1]. *)
Theorem graph_validates_binds set g contents :
  graph_validates g set = Some true ->
  Forall2 (fun d bytes => represents d bytes /\ digest d = Available (hex_sha256 bytes))
    (domains set) contents ->
  forall i record, g !! i = Some record -> 0 <= dr_domain (tr_input record) ->
  0 <= offset (dr_range (tr_input record)) -> 0 <= len (dr_range (tr_input record)) ->
  exists input output,
    (Z.to_nat (dr_domain (tr_input record)) <= i)%nat
    /\ contents !! Z.to_nat (dr_domain (tr_input record)) = Some input
    /\ contents !! S i = Some output
    /\ tr_input_sha256 record = hex_sha256 (range (offset (dr_range (tr_input record)))
         (len (dr_range (tr_input record))) input)
    /\ tr_output_len record = Z.of_nat (length output)
    /\ tr_output_sha256 record = hex_sha256 output.
Proof.
  intros Hg Hc i record Hi Hd Ho Hl. unfold graph_validates in Hg.
  case_match eqn:Hlen; [done|]. apply negb_false_iff, Nat.eqb_eq in Hlen.
  assert (record_validates set i record = Some true) as Hv.
  { apply (all_validate_lookup set 0 g) in Hi; done. }
  unfold record_validates in Hv. cbv zeta in Hv. case_match; [done|]. breflect.
  destruct (range_sha256 set (tr_input record)) as [[h|]|] eqn:Hh; [|done..].
  case_match; [done|]. breflect.
  destruct (domain set (tr_output_domain record)) as [d|] eqn:Hout; [|done].
  apply (inj Some) in Hv. breflect.
  repeat match goal with Hb : bool_decide _ = true |- _ => apply bool_decide_eq_true in Hb end.
  assert (is_Some (domain set (dr_domain (tr_input record)))) as [d0 Hin].
  { unfold range_sha256, set_reader in Hh. destruct (domain set _); [done|by cbn in Hh]. }
  destruct (Forall2_lookup_l _ _ _ _ _ Hc Hin) as (input & Hci & Hr0 & _).
  unfold domain in Hout. replace (Z.to_nat (tr_output_domain record)) with (S i) in Hout by lia.
  destruct (Forall2_lookup_l _ _ _ _ _ Hc Hout) as (output & Hco & Hr & Hdig).
  destruct (range_sha256_represents set _ _ _ _ Hin Hr0 Ho Hl Hh) as [_ ->].
  exists input, output. rewrite Hdig in *. simpl in *. simplify_eq.
  split_and!; [lia|done|done|done| |done]. rewrite <- (represents_len _ _ Hr). done.
Qed.
End Built.

(** ** A gzip-derived domain

    A digest function that answers the pinned digests on the pinned preimages,
    and thirty-two zero bytes elsewhere. *)

Definition hex_digit (b : byte) : Z := if u8 b <? 58 then u8 b - 48 else u8 b - 87.
Fixpoint unhex (s : list byte) : list byte :=
  match s with
  | high :: low :: s => of_u8 (16 * hex_digit high + hex_digit low) :: unhex s
  | _ => []
  end.
Definition pinned_sha256 : Sha256 := fun bytes =>
  let id := lit (transform_id GzipRfc1952SingleMemberV1) in
  let text := lit (definition GzipRfc1952SingleMemberV1) in
  if bool_decide (bytes = lit "sealr.transform-profile.v1" ++ [x00]
       ++ u64_be_bytes (Z.of_nat (length id)) ++ id ++ u64_be_bytes (Z.of_nat (length text)) ++ text)
  then unhex (lit (transform_digest GzipRfc1952SingleMemberV1))
  else if bool_decide (bytes = lit (decoder_parameters GzipRfc1952SingleMemberV1))
  then unhex (lit (decoder_parameters_digest GzipRfc1952SingleMemberV1))
  else replicate 32 x00.

Lemma pinned_sha256_length : @Sha256Laws pinned_sha256.
Proof.
  intros bytes. unfold sha256, pinned_sha256. cbv zeta.
  case_bool_decide; [reflexivity|]. case_bool_decide; reflexivity.
Qed.

Definition wrapped_source : SourceSnapshot := @borrowed pinned_sha256 None (lit "wrapped").
Definition unwrapped_source : SourceSnapshot :=
  let _ := pinned_sha256 in
  {| snap_path := None;
     backing := PrivateFile (Some (fun o n => Ok (range o n (lit "inner"))));
     snap_len := 5; digest := Available (hex_sha256 (lit "inner")) |}.
Definition whole_original : DomainRange := original_range (mkrange 0 7).

Definition unwrapped : option (SnapshotSet * TransformGraph * SnapshotDomainId) :=
  match @append_derived_snapshot pinned_sha256 always_reserves (from_original wrapped_source)
          empty_graph GzipRfc1952SingleMemberV1 whole_original unwrapped_source with
  | Some (Ok r) => Some r
  | _ => None
  end.

Lemma unwrapped_built :
  match unwrapped with
  | Some (set, g, id) => @built pinned_sha256 always_reserves set g /\ id = FIRST_DERIVED
  | None => False
  end.
Proof.
  unfold unwrapped. destruct (append_derived_snapshot _ _ _ _ _) as [[[[set g] id]|e]|] eqn:Ha.
  - split; [|vm_compute in Ha; by injection Ha].
    exact (@built_append pinned_sha256 always_reserves _ _ _ _
      unwrapped_source (lit "inner") _ _ _
      (@built_original pinned_sha256 always_reserves wrapped_source) eq_refl Ha).
  - vm_compute in Ha. discriminate Ha.
  - vm_compute in Ha. discriminate Ha.
Qed.

Lemma built_validates_witness :
  match unwrapped with
  | Some (set, g, _) => @graph_validates pinned_sha256 g set = Some true
  | None => False
  end.
Proof.
  pose proof unwrapped_built as Hb. destruct unwrapped as [[[set g] id]|]; [|exact Hb].
  exact (@built_validates pinned_sha256 pinned_sha256_length always_reserves set g (proj1 Hb)).
Defined.

Lemma unwrapped_represents :
  represents unwrapped_source (lit "inner").
Proof.
  split; [reflexivity|vm_compute; discriminate|]. intros off n out Ho Hn Hr.
  simpl in Hr. unfold read_exact_at in Hr.
  destruct (checked_range (snap_len unwrapped_source) off n) as [[]|] eqn:Hc; [|done].
  apply checked_range_ok in Hc as [_ Hin]. simpl in Hr. simplify_eq. done.
Qed.

Lemma graph_validates_binds_witness :
  match unwrapped with
  | Some (set, [record], _) =>
      tr_input_sha256 record = @hex_sha256 pinned_sha256 (lit "wrapped")
      /\ tr_output_len record = 5
  | _ => False
  end.
Proof.
  assert (match unwrapped with
    | Some (set, [record], _) => domains set = [wrapped_source; unwrapped_source]
        /\ tr_input record = whole_original
        /\ @graph_validates pinned_sha256 [record] set = Some true
    | _ => False end) as Hd by (vm_compute; by repeat split).
  destruct unwrapped as [[[set [|record [|? ?]]] id]|]; try exact Hd.
  destruct Hd as (Hd & Hi & Hv).
  destruct (@graph_validates_binds pinned_sha256 set [record] [lit "wrapped"; lit "inner"] Hv)
    with (i := 0%nat) (record := record) as (input & output & _ & Hin & Hout & H1 & H2 & _).
  - rewrite Hd. constructor; [split; [|reflexivity]|constructor; [split; [|reflexivity]|constructor]].
    + apply reliable_represents, borrowed_reliable. vm_compute. discriminate.
    + apply unwrapped_represents.
  - reflexivity.
  - rewrite Hi. vm_compute. discriminate.
  - rewrite Hi. vm_compute. discriminate.
  - rewrite Hi. vm_compute. discriminate.
  - rewrite Hi in Hin, H1. simpl in Hin, Hout, H1. simplify_eq. by split.
Defined.
