(* ===== verification/Verification.v ===== *)
(** * Bounded payload verification ([verification.rs], [deflate.rs])

    A payload plan says where a member's bytes are, how they are coded and
    what they must come to; [verify_payload] streams them through the decoder,
    the caps, the writer and the digests.  The Deflate decoder itself and the
    CRC-32 are libraries, taken as parameters. *)

From S2P Require Import Prelude Utf8 Findings Quota Snapshot Streams Transforms Ir ZipRecords Tar TarGnu TarPax Evidence Policy.
Local Open Scope Z_scope.
Local Open Scope rust_scope.

(** ** Payload plans *)

Inductive PayloadCodec : Type := CodecRaw | CodecDeflate | CodecUnsupported (method : Z).
Inductive PayloadIntegrity : Type := IntegrityNone | IntegrityCrc32 (crc : Z).
#[export] Instance PayloadCodec_eq_dec : EqDecision PayloadCodec.
Proof. solve_decision. Defined.
#[export] Instance PayloadIntegrity_eq_dec : EqDecision PayloadIntegrity.
Proof. solve_decision. Defined.

Record PayloadPlan : Type := {
  pp_source : DomainRange;
  pp_codec : PayloadCodec;
  pp_compressed_size : Z;
  pp_uncompressed_size : Z;
  pp_integrity : PayloadIntegrity
}.
#[export] Instance PayloadPlan_eq_dec : EqDecision PayloadPlan.
Proof. solve_decision. Defined.

Definition payload_codec_from_zip_method (method : Z) : PayloadCodec :=
  if method =? 0 then CodecRaw else if method =? 8 then CodecDeflate else CodecUnsupported method.

Definition first_derived (range : ByteRange) : DomainRange :=
  {| dr_domain := FIRST_DERIVED; dr_range := range |}.

(** The two shapes the constructors of [PayloadPlan] share: a ZIP payload, and
    raw bytes without a stored checksum. *)
Definition zip_payload (zip : ZipMemberEvidence) (size : Z) : PayloadPlan :=
  {| pp_source := original_range (compressed_payload (ze_source_ranges zip));
     pp_codec := payload_codec_from_zip_method (ze_method zip);
     pp_compressed_size := ze_declared_comp_size zip; pp_uncompressed_size := size;
     pp_integrity := IntegrityCrc32 (ze_declared_crc zip) |}.
Definition raw_payload (source : DomainRange) (size : Z) : PayloadPlan :=
  {| pp_source := source; pp_codec := CodecRaw; pp_compressed_size := len (dr_range source);
     pp_uncompressed_size := size; pp_integrity := IntegrityNone |}.

(** [PayloadPlan::from_ir]. *)
Definition from_ir (m : IrMember) : PayloadPlan :=
  let size := declared_uncomp_size m in
  match ir_evidence m with
  | EvZip zip => zip_payload zip size
  | EvZip64 zip64 => zip_payload (z_zip zip64) size
  | EvTar tar => raw_payload (original_range (te_payload tar)) size
  | EvTarGzip tar => raw_payload (first_derived (te_payload tar)) size
  | EvTarPax pax => raw_payload (original_range (te_payload (pe_tar pax))) size
  | EvTarGnuLongName gnu => raw_payload (original_range (te_payload (ne_tar gnu))) size
  | EvTarGzipPax pax => raw_payload (first_derived (te_payload (pe_tar pax))) size
  | EvTarGzipGnuLongName gnu => raw_payload (first_derived (te_payload (ne_tar gnu))) size
  | EvTarZstd tar => raw_payload (first_derived (te_payload tar)) size
  | EvTarXz tar => raw_payload (first_derived (te_payload tar)) size
  | EvTarBzip2 tar => raw_payload (first_derived (te_payload tar)) size
  | EvSevenZ sevenz =>
      {| pp_source := original_range (se_payload sevenz); pp_codec := CodecRaw;
         pp_compressed_size := len (se_payload sevenz); pp_uncompressed_size := size;
         pp_integrity := match se_declared_crc sevenz with
                         | Some crc => IntegrityCrc32 crc
                         | None => IntegrityNone
                         end |}
  end.

(** [from_zip], and the constructors of each TAR dialect. *)
Definition from_zip (m : ZipMember) : PayloadPlan :=
  {| pp_source := original_range (compressed_payload (zm_source_ranges m));
     pp_codec := payload_codec_from_zip_method (zm_method m);
     pp_compressed_size := zm_comp_size m; pp_uncompressed_size := zm_uncomp_size m;
     pp_integrity := IntegrityCrc32 (zm_crc m) |}.
Definition from_tar (m : TarMember) : PayloadPlan :=
  raw_payload (original_range (Tar.payload m)) (Tar.size m).
Definition from_tar_gzip (m : TarMember) : PayloadPlan :=
  raw_payload (first_derived (Tar.payload m)) (Tar.size m).
Definition from_tar_bzip2 (m : TarMember) : PayloadPlan :=
  raw_payload (first_derived (Tar.payload m)) (Tar.size m).
Definition from_tar_zstd (m : TarMember) : PayloadPlan :=
  raw_payload (first_derived (Tar.payload m)) (Tar.size m).
Definition from_tar_xz (m : TarMember) : PayloadPlan :=
  raw_payload (first_derived (Tar.payload m)) (Tar.size m).
Definition from_tar_pax (m : PaxMember) : PayloadPlan :=
  raw_payload (original_range (m_payload m)) (m_size m).
Definition from_tar_gnu_longname (m : GnuLongNameMember) : PayloadPlan :=
  raw_payload (original_range (g_payload m)) (g_size m).
Definition from_tar_gzip_pax (m : PaxMember) : PayloadPlan :=
  raw_payload (first_derived (m_payload m)) (m_size m).
Definition from_tar_gzip_gnu_longname (m : GnuLongNameMember) : PayloadPlan :=
  raw_payload (first_derived (g_payload m)) (g_size m).

Definition matches_member (plan : PayloadPlan) (m : IrMember) : bool :=
  bool_decide (plan = from_ir m).

(** [planned_payload_reader]. *)
Definition planned_payload_reader (snapshots : SnapshotSet) (plan : PayloadPlan) (member_name : str) :
    result (SourceSnapshot * RangeReader) Finding :=
  map_err (fun finding => on finding member_name) (set_reader snapshots (pp_source plan)).

(** ** The Deflate stream decoder *)

(** [crc32fast] over everything it was fed. *)
Class Crc32 : Type := crc32 : list byte -> Z.

(** [flate2::Decompress]: one call reports whether the stream ended, how much
    input it took and what it produced. *)
Class Inflate : Type := {
  Decompress : Type;
  inflate_new : Decompress;
  decompress : Decompress -> list byte -> Z -> Decompress * result (bool * Z * list byte) unit
}.

(** A call takes no more than it was given and fills no more than the buffer. *)
Class InflateLaws `{!Inflate} : Prop := {
  decompress_bounds : forall d input cap d' ended consumed out,
    decompress d input cap = (d', Ok (ended, consumed, out)) -> 0 <= cap ->
    0 <= consumed <= Z.of_nat (length input) /\ Z.of_nat (length out) <= cap
}.

Section Deflate.
Context `{!Inflate} {R : Type} `{BufRead R}.

(** [DeflateDecoder]; the totals are the library's running sums. *)
Record DeflateDecoder : Type := {
  dd_input : R;
  dd_decoder : Decompress;
  dd_total_in : Z;
  dd_total_out : Z;
  dd_ended : bool;
  dd_failed : bool
}.
Definition new_decoder (input : R) : DeflateDecoder :=
  {| dd_input := input; dd_decoder := inflate_new; dd_total_in := 0; dd_total_out := 0;
     dd_ended := false; dd_failed := false |}.

(** One iteration of the [loop] of [read]. *)
Definition deflate_step (n : Z) (d : DeflateDecoder) :
    exec (control DeflateDecoder (DeflateDecoder * result (list byte) io_error)) Finding :=
  let '(reader, filled) := fill_buf (dd_input d) in
  let with_reader r :=
    {| dd_input := r; dd_decoder := dd_decoder d; dd_total_in := dd_total_in d;
       dd_total_out := dd_total_out d; dd_ended := dd_ended d; dd_failed := dd_failed d |} in
  match filled with
  | Err ReadInterrupted => Some (Ok (Continue (with_reader reader)))
  | Err e => Some (Ok (Return (with_reader reader, Err e)))
  | Ok input =>
      let '(decoder, status) := decompress (dd_decoder d) input n in
      match status with
      | Err _ =>
          Some (Ok (Return
            ({| dd_input := reader; dd_decoder := decoder; dd_total_in := dd_total_in d;
                dd_total_out := dd_total_out d; dd_ended := dd_ended d; dd_failed := true |},
             Err (ReadOther "corrupt deflate stream"))))
      | Ok (ended, consumed, out) =>
          let d' :=
            {| dd_input := buf_consume reader consumed; dd_decoder := decoder;
               dd_total_in := dd_total_in d + consumed;
               dd_total_out := dd_total_out d + Z.of_nat (length out);
               dd_ended := ended; dd_failed := dd_failed d |} in
          if negb (length out =? 0)%nat || ended then Some (Ok (Return (d', Ok out)))
          else if consumed =? 0 then
            Some (Ok (Return
              ({| dd_input := dd_input d'; dd_decoder := decoder; dd_total_in := dd_total_in d';
                  dd_total_out := dd_total_out d'; dd_ended := ended; dd_failed := true |},
               Err (ReadOther "Deflate stream did not reach an explicit end"))))
          else Some (Ok (Continue d'))
      end
  end.

(** [Read for DeflateDecoder]; each iteration but the last takes input, so the
    input left bounds their number. *)
Definition deflate_read (fuel : nat) (d : DeflateDecoder) (n : Z) :
    exec (DeflateDecoder * result (list byte) io_error) Finding :=
  if (n =? 0) || dd_ended d then Some (Ok (d, Ok []))
  else if dd_failed d
  then Some (Ok (d, Err (ReadOther "Deflate decoder previously failed")))
  else run_loop (deflate_step n) fuel d.
End Deflate.
Arguments DeflateDecoder {_} R.

(** ** [verify_payload] *)

(** [format!("{crc:08x}")]. *)
Definition fmt_hex8 (z : Z) : string :=
  let digits := fmt_radix 16 z in
  string_of_list_byte (replicate (8 - String.length digits) x30) +++ digits.

Definition PAYLOAD_BUFFER : Z := 65536.

Section Verify.
Context `{!Sha256, !Crc32, !Inflate} {R W : Type} `{BufRead R} `{Write W}.

(** What the closure [consume] mutates: the count, the bytes both digests have
    been fed, the writer. *)
Record Consumed : Type := { cs_actual : QuotaState; cs_bytes : list byte; cs_writer : W }.
Definition start_consumed (writer : W) : Consumed :=
  {| cs_actual := Quota.new u64_max; cs_bytes := []; cs_writer := writer |}.

(** The closure [consume]; a failure carries the writer as it is then, and
    [None] is the panic of its [unreachable!]. *)
Definition consume_chunk (member : PayloadPlan) (budget : ResourceBudget) (remaining_total : Z)
    (st : Consumed) (chunk : list byte) : exec Consumed (W * Finding) :=
  let '(actual, r) := consume (cs_actual st) (Z.of_nat (length chunk)) in
  match r with
  | Err Overflow =>
      Some (Err (cs_writer st, error QuotaOverflow "actual member size overflowed u64"))
  | Err (Exceeded _ _) => None
  | Ok actual_bytes =>
      reject! pp_uncompressed_size member <? actual_bytes
        with (cs_writer st,
              error QuotaDeclaredLie "actual bytes exceeded the declared uncompressed size") ;;
      reject! max_member_bytes budget <? actual_bytes
        with (cs_writer st, error QuotaMember "actual bytes exceeded the member cap") ;;
      reject! remaining_total <? actual_bytes
        with (cs_writer st, error QuotaTotal "actual bytes exceeded the remaining archive cap") ;;
      reject! match max_ratio budget with
              | Some max_ratio => ratio_exceeds actual_bytes (pp_compressed_size member) max_ratio
              | None => false
              end
        with (cs_writer st,
              error QuotaRatio ("actual " +++ fmt_dec actual_bytes +++ ":"
                +++ fmt_dec (pp_compressed_size member) +++ " exceeded "
                +++ fmt_dec (default 0 (max_ratio budget)) +++ ":1")) ;;
      let '(writer, written) := write_all (cs_writer st) chunk in
      match written with
      | Err message => Some (Err (writer, error MaterializeIo ("write member: " +++ message)))
      | Ok _ =>
          Some (Ok {| cs_actual := actual; cs_bytes := cs_bytes st ++ chunk; cs_writer := writer |})
      end
  end.

(** One iteration of the raw loop. *)
Definition raw_step (member : PayloadPlan) (budget : ResourceBudget) (remaining_total : Z)
    (st : R * Consumed) : exec (control (R * Consumed) Consumed) (W * Finding) :=
  let '(payload, read) := io_read_into st.1 PAYLOAD_BUFFER in
  match read with
  | Err e =>
      Some (Err (cs_writer st.2,
        default (error SourceIo ("read stored member payload: " +++ fmt_io_error e))
          (finding_from_io e)))
  | Ok [] => Some (Ok (Return st.2))
  | Ok chunk =>
      let! consumed := consume_chunk member budget remaining_total st.2 chunk in
      Some (Ok (Continue (payload, consumed)))
  end.

(** One iteration of the Deflate loop. *)
Definition inflate_step (fuel : nat) (member : PayloadPlan) (budget : ResourceBudget)
    (remaining_total : Z) (st : DeflateDecoder R * Consumed) :
    exec (control (DeflateDecoder R * Consumed) (DeflateDecoder R * Consumed)) (W * Finding) :=
  match deflate_read fuel st.1 PAYLOAD_BUFFER with
  | None => None
  | Some (Err finding) => Some (Err (cs_writer st.2, finding))
  | Some (Ok (decoder, read)) =>
      match read with
      | Err e =>
          Some (Err (cs_writer st.2,
            default (error CodecDeflateInvalidStream ("deflate: " +++ fmt_io_error e))
              (finding_from_io e)))
      | Ok [] => Some (Ok (Return (decoder, st.2)))
      | Ok chunk =>
          let! consumed := consume_chunk member budget remaining_total st.2 chunk in
          Some (Ok (Continue (decoder, consumed)))
      end
  end.

(** The [match] on the codec.  A loop ends or consumes at least one byte per
    iteration, and no more than the declared size. *)
Definition run_codec (payload : R) (member : PayloadPlan) (budget : ResourceBudget)
    (remaining_total : Z) (writer : W) : exec Consumed (W * Finding) :=
  let fuel := S (S (Z.to_nat (pp_uncompressed_size member))) in
  match pp_codec member with
  | CodecRaw =>
      run_loop (raw_step member budget remaining_total) fuel (payload, start_consumed writer)
  | CodecDeflate =>
      let! (decoder, st) :=
        run_loop (inflate_step (S (S (Z.to_nat (len (dr_range (pp_source member))))))
                   member budget remaining_total) fuel
          (new_decoder payload, start_consumed writer) in
      let consumed := dd_total_in decoder in
      reject! negb (consumed =? pp_compressed_size member)
        with (cs_writer st,
              error CodecDeflateTrailingInput ("deflate consumed " +++ fmt_dec consumed +++ " of "
                +++ fmt_dec (pp_compressed_size member) +++ " declared compressed bytes")) ;;
      reject! negb (dd_total_out decoder =? used (cs_actual st))
        with (cs_writer st, error CodecDeflateInvalidStream
                "deflate output accounting disagreed with the verified byte count") ;;
      Some (Ok st)
  | CodecUnsupported method =>
      Some (Err (writer, error MethodUnsupported ("method " +++ fmt_dec method)))
  end.

(** [verify_payload]: the writer after it, and the size, CRC and SHA-256. *)
Definition verify_payload (payload : R) (member : PayloadPlan) (budget : ResourceBudget)
    (remaining_total : Z) (writer : W) : exec (W * (Z * Z * list byte)) (W * Finding) :=
  let! st := run_codec payload member budget remaining_total writer in
  let actual := used (cs_actual st) in
  reject! negb (actual =? pp_uncompressed_size member)
    with (cs_writer st,
          error QuotaDeclaredLie ("actual size " +++ fmt_dec actual +++ " != declared size "
            +++ fmt_dec (pp_uncompressed_size member))) ;;
  let crc := crc32 (cs_bytes st) in
  reject! match pp_integrity member with
          | IntegrityCrc32 expected => negb (crc =? expected)
          | IntegrityNone => false
          end
    with (cs_writer st,
          error CrcMismatch ("got " +++ fmt_hex8 crc +++ " want "
            +++ fmt_hex8 match pp_integrity member with IntegrityCrc32 e => e | IntegrityNone => 0 end)) ;;
  Some (Ok (cs_writer st, (actual, crc, sha256 (cs_bytes st)))).
End Verify.
Arguments Consumed : clear implicits.

(** [digest_hex]. *)
Definition digest_hex (digest : list byte) : str := concat (map hex_byte digest).

(** ** What a verified payload is *)

(** The caps a byte count must respect. *)
Definition within (member : PayloadPlan) (budget : ResourceBudget) (remaining_total n : Z) : Prop :=
  n <= pp_uncompressed_size member /\ n <= max_member_bytes budget /\ n <= remaining_total
  /\ forall r, max_ratio budget = Some r -> ratio_exceeds n (pp_compressed_size member) r = false.

(** The types of the caps. *)
Record caps_ok (member : PayloadPlan) (budget : ResourceBudget) (remaining_total : Z) : Prop := {
  co_uncompressed : is_u64 (pp_uncompressed_size member);
  co_compressed : 0 <= pp_compressed_size member;
  co_member : 0 <= max_member_bytes budget;
  co_remaining : 0 <= remaining_total;
  co_ratio : forall r, max_ratio budget = Some r -> 0 <= r
}.

Definition integrity_holds `{!Crc32} (member : PayloadPlan) (bytes : list byte) : Prop :=
  match pp_integrity member with
  | IntegrityCrc32 expected => crc32 bytes = expected
  | IntegrityNone => True
  end.

Lemma ratio_exceeds_mono n n' comp r :
  0 <= r -> 0 <= comp -> n' <= n -> ratio_exceeds n comp r = false -> ratio_exceeds n' comp r = false.
Proof.
  intros Hr Hc Hn. unfold ratio_exceeds. destruct (comp =? 0); rewrite !Z.ltb_ge; lia.
Qed.

Lemma within_mono member budget remaining n n' :
  caps_ok member budget remaining -> n' <= n ->
  within member budget remaining n -> within member budget remaining n'.
Proof.
  intros Hc Hn (H1 & H2 & H3 & H4). split_and!; [lia..|]. intros r Hr.
  eapply ratio_exceeds_mono; [by apply (co_ratio _ _ _ Hc)|apply (co_compressed _ _ _ Hc)|exact Hn|].
  by apply H4.
Qed.

Lemma within_zero member budget remaining :
  caps_ok member budget remaining -> within member budget remaining 0.
Proof.
  intros [[? ?] ? ? ? Hr]. split_and!; [done..|]. intros r H4. apply Hr in H4.
  unfold ratio_exceeds. destruct (_ =? 0); apply Z.ltb_ge; lia.
Qed.

Section VerifyLemmas.
Context `{!Sha256, !Crc32, !Inflate} {R W : Type} `{BufRead R} `{Write W}.
Context (holds : R -> list byte -> Prop) (took : W -> list byte -> W -> Prop).
Context (member : PayloadPlan) (budget : ResourceBudget) (remaining : Z).

(** The state of the closure after some bytes. *)
Record consumed_ok (w0 : W) (st : Consumed W) : Prop := {
  ck_actual : cs_actual st = {| used := Z.of_nat (length (cs_bytes st)); limit := u64_max |};
  ck_within : within member budget remaining (Z.of_nat (length (cs_bytes st)));
  ck_took : took w0 (cs_bytes st) (cs_writer st)
}.

Lemma consume_chunk_ok w0 st chunk st' :
  takes took -> consumed_ok w0 st ->
  consume_chunk member budget remaining st chunk = Some (Ok st') ->
  consumed_ok w0 st' /\ cs_bytes st' = cs_bytes st ++ chunk.
Proof.
  intros Hw [Ha _ Ht] Hc. unfold consume_chunk in Hc. rewrite Ha in Hc. unfold consume in Hc.
  cbn [used limit] in Hc.
  destruct (u64_checked_add _ _) as [n|] eqn:Hn; [|done].
  apply u64_checked_add_Some in Hn as [-> Hn].
  destruct (_ <? _) eqn:Hl in Hc; [by apply Z.ltb_lt in Hl; lia|].
  do 4 (case_match; [done|]). breflect.
  destruct (write_all _ _) as [w [[]|m]] eqn:Hwr; [|done]. simplify_eq. split; [|done].
  split; cbn [cs_actual cs_bytes cs_writer]; rewrite ?length_app, ?Nat2Z.inj_add; [done| |].
  - split_and!; [done..|]. intros r Hr. by rewrite Hr in *.
  - by eapply takes_more.
Qed.

Lemma consume_chunk_passes w0 st chunk :
  (forall w bytes, exists w', write_all w bytes = (w', Ok ())) -> consumed_ok w0 st ->
  caps_ok member budget remaining ->
  within member budget remaining (Z.of_nat (length (cs_bytes st ++ chunk))) ->
  exists st', consume_chunk member budget remaining st chunk = Some (Ok st').
Proof.
  intros Hwf [Ha _ _] [[? ?] _ _ _ _] (Hw1 & Hw2 & Hw3 & Hw4).
  rewrite length_app, Nat2Z.inj_add in *. unfold consume_chunk. rewrite Ha. unfold consume.
  cbn [used limit]. rewrite u64_checked_add_le by lia.
  rewrite !(proj2 (Z.ltb_ge _ _)) by lia.
  destruct (max_ratio budget) as [r|] eqn:Hr; [rewrite Hw4 by done|];
    destruct (Hwf (cs_writer st) chunk) as [w' ->]; eauto.
Qed.

Lemma consume_chunk_total w0 st chunk :
  consumed_ok w0 st -> exists r, consume_chunk member budget remaining st chunk = Some r.
Proof.
  intros [Ha _ _]. unfold consume_chunk. rewrite Ha. unfold consume. cbn [used limit].
  destruct (u64_checked_add _ _) as [n|] eqn:Hn; [|eauto].
  apply u64_checked_add_Some in Hn as [-> Hn].
  rewrite (proj2 (Z.ltb_ge _ _)) by lia. repeat (case_match; eauto).
Qed.

Lemma start_consumed_ok w :
  takes took -> caps_ok member budget remaining -> consumed_ok w (start_consumed w).
Proof. intros Hw Hc. split; [done|by apply within_zero|by apply takes_none]. Qed.

(** *** Raw payloads *)

Definition raw_ok (rest : list byte) (w0 : W) (st : R * Consumed W) : Prop :=
  exists rest', holds st.1 rest' /\ rest = cs_bytes st.2 ++ rest' /\ consumed_ok w0 st.2.

Lemma raw_step_ok rest w0 st st' :
  holds_with holds -> takes took -> raw_ok rest w0 st ->
  raw_step member budget remaining st = Some (Ok (Continue st')) ->
  raw_ok rest w0 st' /\ (length (cs_bytes st.2) < length (cs_bytes st'.2))%nat.
Proof.
  intros Hr Hw (rest' & Hh & -> & Hc) Hst. unfold raw_step in Hst.
  destruct (io_read_into st.1 PAYLOAD_BUFFER) as [payload [[|b chunk]|e]] eqn:Hrd; try done.
  apply (holds_read _ Hr _ rest') in Hrd as (rest'' & -> & Hh' & _ & _); [|done|done].
  destruct (consume_chunk _ _ _ _ _) as [[c|e]|] eqn:Hcc; [|done..]. simplify_eq. simpl.
  apply (consume_chunk_ok w0) in Hcc as [Hc' Hb]; [|done..]. rewrite Hb, length_app. simpl.
  split; [|lia]. exists rest''. simpl. by rewrite Hb, <- app_assoc.
Qed.

Lemma raw_run_sound fuel r rest w c :
  holds_with holds -> takes took -> caps_ok member budget remaining -> holds r rest ->
  run_loop (raw_step member budget remaining) fuel (r, start_consumed w) = Some (Ok c) ->
  cs_bytes c = rest /\ consumed_ok w c.
Proof.
  intros Hr Hw Hcaps Hh.
  apply (run_loop_invariant _ (raw_ok rest w) (fun c => cs_bytes c = rest /\ consumed_ok w c)).
  - intros st st' Hi Hst. by apply (raw_step_ok rest w st).
  - intros st c' (rest' & Hh' & -> & Hc) Hst. unfold raw_step in Hst.
    destruct (io_read_into st.1 PAYLOAD_BUFFER) as [payload [[|b chunk]|e]] eqn:Hrd; try done.
    + simplify_eq. apply (holds_read _ Hr _ rest') in Hrd as (rest'' & -> & _ & _ & Hnil); [|done|done].
      rewrite (Hnil eq_refl eq_refl), app_nil_r. done.
    + by destruct (consume_chunk _ _ _ _ _) as [[?|?]|].
  - exists rest. split_and!; [done|done|by apply start_consumed_ok].
Qed.

Lemma raw_run_total r rest w :
  holds_with holds -> takes took -> caps_ok member budget remaining -> holds r rest ->
  exists x, run_loop (raw_step member budget remaining)
    (S (S (Z.to_nat (pp_uncompressed_size member)))) (r, start_consumed w) = Some x.
Proof.
  intros Hr Hw Hcaps Hh.
  apply (run_loop_total _ (raw_ok rest w)
    (fun st => Z.to_nat (pp_uncompressed_size member - Z.of_nat (length (cs_bytes st.2))))).
  - intros st (rest' & _ & _ & Hc). unfold raw_step.
    destruct (io_read_into st.1 PAYLOAD_BUFFER) as [payload [[|b chunk]|e]]; try done.
    by destruct (consume_chunk_total w st.2 (b :: chunk) Hc) as [[?|?] ->].
  - intros st st' Hi Hst. pose proof Hi as (_ & _ & _ & [_ [Hu _] _]).
    apply (raw_step_ok rest w st) in Hst as [Hi' Hl]; [|done..]. split; [done|].
    destruct Hi' as (_ & _ & _ & [_ [Hu' _] _]). lia.
  - exists rest. split_and!; [done|done|by apply start_consumed_ok].
  - simpl. lia.
Qed.

Lemma verify_payload_tail payload w w' n crc sha :
  verify_payload payload member budget remaining w = Some (Ok (w', (n, crc, sha))) <->
  exists c, run_codec payload member budget remaining w = Some (Ok c)
    /\ used (cs_actual c) = pp_uncompressed_size member /\ integrity_holds member (cs_bytes c)
    /\ w' = cs_writer c /\ n = used (cs_actual c) /\ crc = crc32 (cs_bytes c)
    /\ sha = sha256 (cs_bytes c).
Proof.
  unfold verify_payload, integrity_holds. destruct (run_codec _ _ _ _ _) as [[c|e]|]; split.
  - intros Hx. cbv zeta in Hx. case_match eqn:Hu; [done|]. breflect.
    case_match eqn:Hi; [done|]. simplify_eq. exists c. split_and!; try done.
    destruct (pp_integrity member); [done|]. breflect. done.
  - intros (c' & Heq & Hu & Hi & -> & -> & -> & ->). simplify_eq. cbv zeta.
    rewrite (proj2 (Z.eqb_eq _ _) Hu). cbn [negb].
    destruct (pp_integrity member); [done|]. by rewrite (proj2 (Z.eqb_eq _ _) Hi).
  - done.
  - by intros (? & ? & _).
  - done.
  - by intros (? & ? & _).
Qed.

(** A raw payload, read from a reader that holds [rest]: whatever is accepted
    is all of [rest], of the declared size, within the caps, with the stored
    checksum, and the writer got exactly those bytes. *)
Lemma verify_raw_sound payload rest w w' n crc sha :
  holds_with holds -> takes took -> caps_ok member budget remaining -> holds payload rest ->
  pp_codec member = CodecRaw ->
  verify_payload payload member budget remaining w = Some (Ok (w', (n, crc, sha))) ->
  n = Z.of_nat (length rest) /\ n = pp_uncompressed_size member
  /\ within member budget remaining n /\ integrity_holds member rest
  /\ crc = crc32 rest /\ sha = sha256 rest /\ took w rest w'.
Proof.
  intros Hr Hw Hcaps Hh Hk Hv. apply verify_payload_tail in Hv as (c & Hc & Hu & Hi & -> & -> & -> & ->).
  unfold run_codec in Hc. rewrite Hk in Hc. cbv zeta in Hc.
  apply (raw_run_sound _ _ rest) in Hc as [Hb [Ha Hwi Ht]]; [|done..]. rewrite Ha in *. cbn [used] in *.
  rewrite Hb in *. done.
Qed.

Lemma verify_raw_complete payload rest w :
  holds_with holds -> infallible holds -> takes took ->
  (forall w bytes, exists w', write_all w bytes = (w', Ok ())) ->
  caps_ok member budget remaining -> holds payload rest -> pp_codec member = CodecRaw ->
  Z.of_nat (length rest) = pp_uncompressed_size member ->
  within member budget remaining (Z.of_nat (length rest)) -> integrity_holds member rest ->
  exists w', verify_payload payload member budget remaining w
    = Some (Ok (w', (Z.of_nat (length rest), crc32 rest, sha256 rest))).
Proof.
  intros Hr Hf Hw Hwf Hcaps Hh Hk Hlen Hwi Hi.
  destruct (raw_run_total payload rest w Hr Hw Hcaps Hh) as [[c|e] Hrun].
  - pose proof Hrun as Hc. apply (raw_run_sound _ _ rest) in Hc as [Hb [Ha _ Ht]]; [|done..].
    exists (cs_writer c). apply verify_payload_tail. exists c.
    unfold run_codec. rewrite Hk, Ha, Hb. cbv zeta. by rewrite Hrun.
  - exfalso. apply run_loop_steps in Hrun as (st & Hsteps & Hlast).
    assert (raw_ok rest w st) as (rest' & Hh' & -> & Hc).
    { revert Hsteps. apply (rtc_preserves _ (raw_ok rest w)).
      - intros x y Hx Hxy. by eapply (raw_step_ok rest w x y).
      - exists rest. split_and!; [done|done|by apply start_consumed_ok]. }
    unfold raw_step in Hlast. destruct (Hf st.1 rest' PAYLOAD_BUFFER Hh' ltac:(done)) as (r' & out & Hrd).
    rewrite Hrd in Hlast. destruct out as [|b out]; [done|].
    apply (holds_read _ Hr _ rest') in Hrd as (rest'' & -> & _ & _ & _); [|done|done].
    destruct (consume_chunk_passes w st.2 (b :: out)) as [c Hcc]; [done..| |by rewrite Hcc in Hlast].
    eapply within_mono; [done| |exact Hwi]. rewrite !length_app. lia.
Qed.

(** *** Deflated payloads *)

(** Calls of the decoder on successive pieces of [rest]: what they took, what
    they produced, and whether the last reported the end of the stream. *)
Inductive inflating (rest : list byte) :
    list byte -> Decompress -> list byte -> bool -> Prop :=
  | inflating_start : inflating rest [] inflate_new [] false
  | inflating_call fed d out input tail cap d' ended consumed chunk :
      inflating rest fed d out false -> rest = fed ++ input ++ tail ->
      decompress d input cap = (d', Ok (ended, consumed, chunk)) ->
      inflating rest (fed ++ take (Z.to_nat consumed) input) d' (out ++ chunk) ended.

(** The law of a buffered reader. *)
Definition fills : Prop :=
  forall r rest r' buffer, holds r rest -> fill_buf r = (r', Ok buffer) ->
    (exists tail, rest = buffer ++ tail) /\ (buffer = [] -> rest = []) /\
    forall n, 0 <= n <= Z.of_nat (length buffer) ->
      holds (buf_consume r' n) (drop (Z.to_nat n) rest).

Definition fills_uninterrupted : Prop :=
  forall r rest r', holds r rest -> fill_buf r = (r', Err ReadInterrupted) -> False.

(** The decoder has taken a prefix of [rest]. *)
Definition decoding (rest : list byte) (d : DeflateDecoder R) (out : list byte) : Prop :=
  exists fed rest', holds (dd_input d) rest' /\ rest = fed ++ rest'
    /\ dd_total_in d = Z.of_nat (length fed) /\ dd_total_out d = Z.of_nat (length out)
    /\ inflating rest fed (dd_decoder d) out (dd_ended d).

Lemma deflate_step_ok `{!InflateLaws} rest n out d x :
  fills -> fills_uninterrupted -> 0 <= n -> decoding rest d out -> dd_ended d = false ->
  deflate_step n d = Some (Ok x) ->
  match x with
  | Continue d' =>
      decoding rest d' out /\ dd_ended d' = false /\ dd_total_in d < dd_total_in d'
  | Return (d', Ok chunk) => decoding rest d' (out ++ chunk) /\ (chunk = [] -> dd_ended d' = true)
  | Return (_, Err _) => True
  end.
Proof.
  intros Hf Hni Hn (fed & rest' & Hh & -> & Hin & Hout & Hi) He Hst. unfold deflate_step in Hst.
  destruct (fill_buf (dd_input d)) as [r [buffer|[]]] eqn:Hfb; simplify_eq;
    [|done|by exfalso; eapply Hni|done].
  destruct (Hf _ _ _ _ Hh Hfb) as ([tail ->] & _ & Hcons).
  destruct (decompress (dd_decoder d) buffer n) as [dec [[[ended consumed] chunk]|]] eqn:Hd;
    [|by simplify_eq].
  destruct (decompress_bounds _ _ _ _ _ _ _ Hd Hn) as [Hbound _].
  assert (forall failed, decoding (fed ++ buffer ++ tail)
    {| dd_input := buf_consume r consumed; dd_decoder := dec;
       dd_total_in := dd_total_in d + consumed;
       dd_total_out := dd_total_out d + Z.of_nat (length chunk);
       dd_ended := ended; dd_failed := failed |} (out ++ chunk)) as Hd'.
  { intros failed. exists (fed ++ take (Z.to_nat consumed) buffer), (drop (Z.to_nat consumed) (buffer ++ tail)).
    cbn [dd_input dd_total_in dd_total_out dd_decoder dd_ended].
    rewrite !length_app, length_take. split_and!; [by apply Hcons| |lia|lia|].
    - rewrite <- app_assoc. f_equal. by rewrite drop_app_le, app_assoc, take_drop by lia.
    - rewrite He in Hi. by eapply inflating_call. }
  cbv zeta in Hst. case_match eqn:Hb.
  - simplify_eq. split; [done|]. intros ->. by simpl in Hb.
  - apply orb_false_iff in Hb as [Hb ->]. apply negb_false_iff, Nat.eqb_eq, nil_length_inv in Hb as ->.
    case_match eqn:Hz; simplify_eq; [done|]. rewrite app_nil_r in Hd'.
    split_and!; [done|done|]. breflect. simpl. lia.
Qed.

Lemma deflate_read_ok `{!InflateLaws} rest fuel n out d d' chunk :
  fills -> fills_uninterrupted -> 0 < n -> decoding rest d out ->
  deflate_read fuel d n = Some (Ok (d', Ok chunk)) ->
  decoding rest d' (out ++ chunk) /\ (chunk = [] -> dd_ended d' = true).
Proof.
  intros Hf Hni Hn Hd Hx. unfold deflate_read in Hx.
  rewrite (proj2 (Z.eqb_neq n 0)) in Hx by lia. cbn [orb] in Hx.
  destruct (dd_ended d) eqn:He; [simplify_eq; by rewrite app_nil_r|].
  destruct (dd_failed d); [done|]. revert Hx.
  apply (run_loop_invariant _ (fun d => decoding rest d out /\ dd_ended d = false)
    (fun r => match r with
              | (d', Ok chunk) => decoding rest d' (out ++ chunk) /\ (chunk = [] -> dd_ended d' = true)
              | (_, Err _) => True
              end)); [| |done].
  - intros x y [Hx Hex] Hst. apply (deflate_step_ok rest n out) in Hst as (? & ? & _); (done || lia).
  - intros x [y [c|e]] [Hx Hex] Hst; [|done]. apply (deflate_step_ok rest n out) in Hst; done || lia.
Qed.

Lemma decoding_bound rest d out : decoding rest d out -> 0 <= dd_total_in d <= Z.of_nat (length rest).
Proof. intros (fed & rest' & _ & -> & -> & _). rewrite length_app. lia. Qed.

Lemma deflate_read_total `{!InflateLaws} rest fuel n out d :
  fills -> fills_uninterrupted -> 0 <= n -> decoding rest d out -> (length rest < fuel)%nat ->
  exists r, deflate_read fuel d n = Some r.
Proof.
  intros Hf Hni Hn Hd Hfuel. unfold deflate_read. destruct (_ || _) eqn:Hend; [eauto|].
  apply orb_false_iff in Hend as [_ He].
  destruct (dd_failed d); [eauto|].
  apply (run_loop_total _ (fun d => decoding rest d out /\ dd_ended d = false)
    (fun d => (length rest - Z.to_nat (dd_total_in d))%nat)).
  - intros x _. unfold deflate_step. destruct (fill_buf _) as [r [b|[]]]; [|done..].
    destruct (decompress _ _ _) as [dec [[[ended consumed] chunk]|]]; [|done]. cbv zeta.
    by repeat case_match.
  - intros x y [Hx Hex] Hst. apply (deflate_step_ok rest n out) in Hst as (Hy & ? & ?); [|(done || lia)..].
    pose proof (decoding_bound _ _ _ Hx). pose proof (decoding_bound _ _ _ Hy). split; [done|lia].
  - done.
  - lia.
Qed.

Definition inflate_ok (rest : list byte) (w0 : W) (st : DeflateDecoder R * Consumed W) : Prop :=
  decoding rest st.1 (cs_bytes st.2) /\ consumed_ok w0 st.2.

Lemma inflate_step_ok `{!InflateLaws} fuel rest w0 st st' :
  fills -> fills_uninterrupted -> takes took -> inflate_ok rest w0 st ->
  inflate_step fuel member budget remaining st = Some (Ok (Continue st')) ->
  inflate_ok rest w0 st' /\ (length (cs_bytes st.2) < length (cs_bytes st'.2))%nat.
Proof.
  intros Hf Hni Hw [Hd Hc] Hst. unfold inflate_step in Hst.
  destruct (deflate_read fuel st.1 PAYLOAD_BUFFER) as [[[dec [[|b chunk]|e]]|]|] eqn:Hr; try done.
  apply (deflate_read_ok rest _ _ (cs_bytes st.2)) in Hr as [Hd' _]; [|done..].
  destruct (consume_chunk _ _ _ _ _) as [[c|e]|] eqn:Hcc; [|done..]. simplify_eq.
  apply (consume_chunk_ok w0) in Hcc as [Hc' Hb]; [|done..]. unfold inflate_ok. simpl.
  rewrite Hb, length_app. simpl. split; [done|lia].
Qed.

Lemma decoding_start rest r : holds r rest -> decoding rest (new_decoder r) [].
Proof. intros Hh. exists [], rest. by split_and!; [| | | |apply inflating_start]. Qed.

(** A deflated payload: whatever is accepted is the output of a decoder run
    that ended, took exactly the declared compressed size from the start of
    the reader, and has the declared size and checksum. *)
Lemma verify_deflate_sound `{!InflateLaws} payload rest w w' n crc sha :
  fills -> fills_uninterrupted -> takes took -> caps_ok member budget remaining ->
  holds payload rest -> pp_codec member = CodecDeflate ->
  verify_payload payload member budget remaining w = Some (Ok (w', (n, crc, sha))) ->
  exists fed d out,
    inflating rest fed d out true /\ Z.of_nat (length fed) = pp_compressed_size member
    /\ fed `prefix_of` rest
    /\ n = Z.of_nat (length out) /\ n = pp_uncompressed_size member
    /\ within member budget remaining n /\ integrity_holds member out
    /\ crc = crc32 out /\ sha = sha256 out /\ took w out w'.
Proof.
  intros Hf Hni Hw Hcaps Hh Hk Hv.
  apply verify_payload_tail in Hv as (c & Hc & Hu & Hi & -> & -> & -> & ->).
  unfold run_codec in Hc. rewrite Hk in Hc. cbv zeta in Hc.
  destruct (run_loop (inflate_step _ _ _ _) _ _) as [[[dec st]|]|] eqn:Hrun; [|done..].
  assert (inflate_ok rest w (dec, st) /\ dd_ended dec = true) as [[Hd Hok] He].
  { revert Hrun. apply (run_loop_invariant _ (inflate_ok rest w)
      (fun st => inflate_ok rest w st /\ dd_ended st.1 = true)).
    - intros x y Hx Hst. apply (inflate_step_ok _ rest w) in Hst as [? _]; done.
    - intros x y [Hd Hok] Hst. unfold inflate_step in Hst.
      destruct (deflate_read _ x.1 PAYLOAD_BUFFER) as [[[d' [[|b chunk]|e]]|]|] eqn:Hr; try done.
      + simplify_eq. apply (deflate_read_ok rest _ _ (cs_bytes x.2)) in Hr as [Hd' He]; [|done..].
        rewrite app_nil_r in Hd'. split; [by split|by apply He].
      + by destruct (consume_chunk _ _ _ _ _) as [[?|?]|].
    - split; [by apply decoding_start|by apply start_consumed_ok]. }
  do 2 (case_match; [done|]). simplify_eq. breflect.
  destruct Hd as (fed & rest' & _ & -> & Hin & Hout & Hinf). destruct Hok as [Ha Hwi Ht].
  simpl in *. rewrite He in Hinf. rewrite Ha in *. cbn [used] in *.
  exists fed, (dd_decoder dec), (cs_bytes c). split_and!; try done; try lia. by exists rest'.
Qed.

Lemma verify_payload_total `{!InflateLaws} payload rest w :
  holds_with holds -> fills -> fills_uninterrupted -> takes took ->
  caps_ok member budget remaining -> holds payload rest ->
  Z.of_nat (length rest) <= len (dr_range (pp_source member)) ->
  exists x, verify_payload payload member budget remaining w = Some x.
Proof.
  intros Hr Hf Hni Hw Hcaps Hh Hlen.
  enough (exists x, run_codec payload member budget remaining w = Some x) as [[c|e] Hx].
  { unfold verify_payload. rewrite Hx. repeat (case_match; eauto). }
  { unfold verify_payload. rewrite Hx. eauto. }
  unfold run_codec. destruct (pp_codec member); [by apply raw_run_total with rest| |eauto].
  cbv zeta.
  match goal with |- context [run_loop ?body ?fuel ?start] =>
    destruct (run_loop_total body (inflate_ok rest w)
      (fun st => Z.to_nat (pp_uncompressed_size member - Z.of_nat (length (cs_bytes st.2)))))
      with (n := fuel) (s := start) as [[[dec c]|e] ->] end; [| | | |repeat (case_match; eauto)|eauto].
  - intros st [Hd Hok]. unfold inflate_step.
    destruct (deflate_read_total rest (S (S (Z.to_nat (len (dr_range (pp_source member))))))
      PAYLOAD_BUFFER _ _ Hf Hni ltac:(done) Hd ltac:(lia)) as [[[d' [[|b chunk]|e]]|?] ->]; try done.
    by destruct (consume_chunk_total w st.2 (b :: chunk) Hok) as [[?|?] ->].
  - intros st st' Hi Hst. pose proof Hi as (_ & [_ [Hu _] _]).
    apply (inflate_step_ok _ rest w st) in Hst as [Hi' Hl]; [|done..]. split; [done|].
    destruct Hi' as (_ & [_ [Hu' _] _]). lia.
  - split; [by apply decoding_start|by apply start_consumed_ok].
  - simpl. lia.
Qed.
End VerifyLemmas.

(** ** Payloads of a snapshot

    The reader [execute_ready_archive] builds: a buffer of 64 KiB over the
    range reader of the plan's range. *)

Definition payload_reader (range : ByteRange) : BufReader :=
  buf_reader {| rr_offset := offset range; rr_remaining := len range |}.

Section SnapshotPayload.
Context `{!Sha256, !Crc32, !Inflate} {W : Type} `{Write W} (took : W -> list byte -> W -> Prop).
Context (s : SourceSnapshot) (bs : list byte).
#[local] Instance payload_bufread : BufRead BufReader := buf_reader_instance s PAYLOAD_BUFFER.

Lemma payload_reader_holds o n :
  0 <= o -> 0 <= n -> o + n <= Z.of_nat (length bs) ->
  br_holds bs (payload_reader (mkrange o n)) (range o n bs).
Proof. intros. exists (range o n bs). by repeat split. Qed.

Lemma payload_fills : represents s bs -> fills (br_holds bs).
Proof.
  intros Hs r rest r' buffer Hh Hf.
  apply (br_fill_holds s bs PAYLOAD_BUFFER r rest) in Hf as (Hh' & Hb & Hnil); [|done..].
  destruct Hh' as (tail & Ht & ->). rewrite Hb in *. split; [by exists tail|]. split; [done|].
  intros k Hk. exists tail. split; [done|]. simpl. rewrite Hb. by rewrite drop_app_le by lia.
Qed.

Lemma payload_fills_uninterrupted : fills_uninterrupted (br_holds bs).
Proof.
  intros r rest r' Hh Hf. cbn in Hf. unfold br_fill_buf in Hf. case_match; [|done].
  unfold range_reader_read in Hf. destruct (range_read _ _ _) as [? [?|?]]; simplify_eq/=.
Qed.

(** C12: On a snapshot that returns its bytes, with a writer that does not fail,
    a raw member is accepted exactly when its range has the declared size,
    respects the member, archive and ratio caps and matches its stored
    checksum; what is reported is the size, CRC-32 and SHA-256 of exactly
    those bytes. *)
Theorem verify_raw_iff member budget remaining w o n sz crc sha :
  reliable s bs -> takes took -> (forall w bytes, exists w', write_all w bytes = (w', Ok ())) ->
  caps_ok member budget remaining -> pp_codec member = CodecRaw ->
  0 <= o -> 0 <= n -> o + n <= Z.of_nat (length bs) ->
  (exists w', verify_payload (payload_reader (mkrange o n)) member budget remaining w
     = Some (Ok (w', (sz, crc, sha)))) <->
  n = pp_uncompressed_size member /\ within member budget remaining n
  /\ integrity_holds member (range o n bs)
  /\ sz = n /\ crc = crc32 (range o n bs) /\ sha = sha256 (range o n bs).
Proof.
  intros Hs Hw Hwf Hc Hk Ho Hn Hin. pose proof (reliable_represents _ _ Hs) as Hr.
  pose proof (payload_reader_holds o n Ho Hn Hin) as Hh.
  assert (Z.of_nat (length (range o n bs)) = n) as Hl by (rewrite length_range; lia).
  split.
  - intros [w' Hv]. apply (verify_raw_sound (br_holds bs) took _ _ _ _ (range o n bs)) in Hv
      as (-> & ? & ? & ? & -> & -> & _); [|by apply buf_reader_holds|done..]. by rewrite Hl in *.
  - intros (Hu & Hwi & Hi & -> & -> & ->).
    destruct (verify_raw_complete (br_holds bs) took member budget remaining
      (payload_reader (mkrange o n)) (range o n bs) w) as [w' Hv];
      [by apply buf_reader_holds|by apply buf_reader_infallible|done..|by rewrite Hl|by rewrite Hl|done|].
    exists w'. by rewrite Hv, Hl.
Qed.

(** C13: A deflated member is accepted only if the decoder, fed the range's bytes
    in order, reported the end of its stream having taken all of them and no
    more, and its output has the declared size, respects the caps and matches
    the stored checksum; the verification always returns, whatever the decoder
    does. *)
Theorem verify_deflate_exact `{!InflateLaws} member budget remaining w o n :
  represents s bs -> takes took -> caps_ok member budget remaining ->
  pp_codec member = CodecDeflate ->
  pp_source member = original_range (mkrange o n) -> pp_compressed_size member = n ->
  0 <= o -> 0 <= n -> o + n <= Z.of_nat (length bs) ->
  (exists r, verify_payload (payload_reader (mkrange o n)) member budget remaining w = Some r) /\
  forall w' sz crc sha,
  verify_payload (payload_reader (mkrange o n)) member budget remaining w
    = Some (Ok (w', (sz, crc, sha))) ->
  exists d out,
    inflating (range o n bs) (range o n bs) d out true
    /\ sz = Z.of_nat (length out) /\ sz = pp_uncompressed_size member
    /\ within member budget remaining sz /\ integrity_holds member out
    /\ crc = crc32 out /\ sha = sha256 out /\ took w out w'.
Proof.
  intros Hr Hw Hc Hk Hsrc Hcs Ho Hn Hin.
  pose proof (payload_reader_holds o n Ho Hn Hin) as Hh.
  assert (Z.of_nat (length (range o n bs)) = n) as Hl by (rewrite length_range; lia). split.
  - apply (verify_payload_total (br_holds bs) took) with (range o n bs); try done.
    + by apply buf_reader_holds.
    + by apply payload_fills.
    + apply payload_fills_uninterrupted.
    + rewrite Hsrc, Hl. done.
  - intros w' sz crc sha Hv.
    apply (verify_deflate_sound (br_holds bs) took _ _ _ _ (range o n bs)) in Hv
      as (fed & d & out & Hi & Hlen & Hpre & Hrest); try done.
    + destruct Hpre as [tail Htail]. assert (tail = []) as ->.
      { apply nil_length_inv. apply (f_equal length) in Htail. rewrite length_app in Htail. lia. }
      rewrite app_nil_r in Htail. exists d, out. rewrite Htail at 2. done.
    + by apply payload_fills.
    + apply payload_fills_uninterrupted.
Qed.
End SnapshotPayload.

(** ** Witnesses

    A decoder of literal bytes ended by NUL, and the length as checksum. *)

Definition literal_inflate : Inflate :=
  {| Decompress := unit; inflate_new := ();
     decompress _ input cap :=
       match input with
       | b :: _ => if cap <=? 0 then ((), Ok (false, 0, []))
                   else if bool_decide (b = x00) then ((), Ok (true, 1, []))
                   else ((), Ok (false, 1, [b]))
       | [] => ((), Ok (false, 0, []))
       end |}.
Lemma literal_inflate_laws : @InflateLaws literal_inflate.
Proof.
  split. intros [] [|b input] cap d' ended consumed out Hd Hcap; cbn in Hd.
  - injection Hd as _ <- <- <-. simpl. lia.
  - repeat case_match; injection Hd as _ <- <- <-; breflect; simpl; lia.
Qed.

Definition length_crc : Crc32 := fun bytes => Z.of_nat (length bytes).
Definition open_budget : ResourceBudget :=
  {| max_archive_bytes := 1000; max_derived_archive_bytes := 0; max_files := 10;
     max_member_bytes := 1000; max_total_bytes := 1000; max_ratio := Some 100;
     max_path_depth := 32; max_metadata_bytes := 1000 |}.

(** Eleven bytes; the first six are a payload, the last five code three more. *)
Definition payload_bytes : list byte := lit "stored" ++ lit "deep" ++ [x00].
Definition payload_snapshot : SourceSnapshot := @borrowed null_sha256 None payload_bytes.
Definition stored_plan : PayloadPlan :=
  {| pp_source := original_range (mkrange 0 6); pp_codec := CodecRaw; pp_compressed_size := 6;
     pp_uncompressed_size := 6; pp_integrity := IntegrityCrc32 6 |}.
Definition deflated_plan : PayloadPlan :=
  {| pp_source := original_range (mkrange 6 5); pp_codec := CodecDeflate; pp_compressed_size := 5;
     pp_uncompressed_size := 4; pp_integrity := IntegrityCrc32 4 |}.

Lemma payload_reliable : reliable payload_snapshot payload_bytes.
Proof. apply borrowed_reliable. vm_compute. discriminate. Qed.

Lemma open_caps plan : pp_uncompressed_size plan ∈ [4; 6] -> 0 <= pp_compressed_size plan ->
  caps_ok plan open_budget 100.
Proof.
  intros Hu Hc. split; [|done|by vm_compute|by vm_compute|].
  - set_unfold in Hu. unfold is_u64, u64_max. lia.
  - intros r Hr. injection Hr as <-. lia.
Qed.

Lemma verify_raw_iff_witness :
  exists w', @verify_payload null_sha256 length_crc literal_inflate _ unit
    (payload_bufread payload_snapshot) _ (payload_reader (mkrange 0 6)) stored_plan open_budget 100 ()
  = Some (Ok (w', (6, 6, replicate 32 x00))).
Proof.
  apply (@verify_raw_iff null_sha256 length_crc literal_inflate unit _ (fun _ _ _ => True)
    payload_snapshot payload_bytes stored_plan open_budget 100 () 0 6).
  - exact payload_reliable.
  - apply sink_takes.
  - intros w bytes. exists (). by destruct w.
  - apply open_caps; [set_solver|by vm_compute].
  - reflexivity.
  - lia.
  - lia.
  - vm_compute. discriminate.
  - unfold within. split_and!; try reflexivity; try (vm_compute; discriminate).
    intros r Hr. injection Hr as <-. reflexivity.
Defined.

Lemma verify_deflate_exact_witness :
  exists d out, @inflating literal_inflate (lit "deep" ++ [x00]) (lit "deep" ++ [x00]) d out true
  /\ 4 = Z.of_nat (length out) /\ @integrity_holds length_crc deflated_plan out.
Proof.
  destruct (@verify_deflate_exact null_sha256 length_crc literal_inflate unit _ (fun _ _ _ => True)
    payload_snapshot payload_bytes literal_inflate_laws deflated_plan open_budget 100 () 6 5)
    as [_ Hv].
  - apply reliable_represents, payload_reliable.
  - apply sink_takes.
  - apply open_caps; [set_solver|by vm_compute].
  - reflexivity.
  - reflexivity.
  - reflexivity.
  - lia.
  - lia.
  - vm_compute. discriminate.
  - destruct (Hv () 4 4 (replicate 32 x00)) as (d & out & H1 & H2 & _ & _ & H3 & _);
      [vm_compute; reflexivity|]. exists d, out. split; [exact H1|split; [exact H2|exact H3]].
Defined.
