(* ===== verification/WrapperAudit.v ===== *)
(** * The covering audits of the wrappers ([covering.rs])

    The range oracles of the four compression wrappers and of the Copy-only 7z
    container: each reads the wrapper's fixed fields, checksums and ranges
    back from the original snapshot and compares them with the recorded
    evidence, without a decompressor.

    The gzip and zstd audits determine the evidence: given the length and
    digest of the derived stream, one source has at most one evidence they
    accept.  The 7z audit makes every payload byte belong to exactly one
    member.  The xz audit leaves two facts to the parser, which is shown. *)

From S2P Require Import Prelude Utf8 Findings Interval Snapshot Ir Evidence Covering ZipFields Verification Layout ZipLayout ZipSearch ZipValues CoveringTar.
Local Open Scope Z_scope.
Local Open Scope rust_scope.

(** [value & mask != 0]. *)
Definition has_bits (value mask : Z) : bool := negb (Z.land value mask =? 0).
Definition byte_at (bytes : list byte) (i : Z) : Z := u8 (at_ bytes (Z.to_nat i)).

(** The shape test of a recorded derived-output digest, written out in each
    audit. *)
Definition derived_digest_shape (sha : str) : bool :=
  (length sha =? 64)%nat
  && forallb (fun b => between 48 57 (u8 b) || between 97 102 (u8 b)) sha.

Section Wrappers.
Context `{!Crc32, !Allocator}.

(** [read_exact_at] and [read_vec] under a constant failure. *)
Definition exact_or (snapshot : SourceSnapshot) (offset n : Z) (detail : string) : result (list byte) Finding :=
  map_err (fun _ => fail detail) (src_read snapshot offset n).
Definition vec_or (snapshot : SourceSnapshot) (offset n : Z) (detail : string) : result (list byte) Finding :=
  map_err (fun _ => fail detail) (read_vec snapshot offset n).

(** ** gzip *)

Definition GZIP_FLAG_HEADER_CRC : Z := 2.
Definition GZIP_FLAG_EXTRA : Z := 4.
Definition GZIP_FLAG_NAME : Z := 8.
Definition GZIP_FLAG_COMMENT : Z := 16.
Definition GZIP_FLAG_RESERVED : Z := 224.

Definition gzip_isize (len : Z) : Z := len mod (u32_max + 1).

(** The loop over the subfields: position, count and the identifiers seen (the
    bitmap of 65536 bits). *)
Record SubfieldState : Type := { sub_cursor : Z; sub_count : Z; sub_seen : list Z }.
Definition gzip_subfield_step (snapshot : SourceSnapshot) (extra_end : Z) (st : SubfieldState) :
    exec (control SubfieldState Z) Finding :=
  if negb (sub_cursor st <? extra_end) then Some (Ok (Return (sub_count st)))
  else
    reject! extra_end - sub_cursor st <? 4 with fail "gzip FEXTRA has an incomplete subfield header" ;;
    let* subfield := exact_or snapshot (sub_cursor st) 4
      "gzip FEXTRA subfield header is outside the snapshot" in
    reject! byte_at subfield 1 =? 0 with fail "gzip FEXTRA subfield uses reserved SI2 zero" ;;
    let id := u16_at subfield 0 in
    reject! bool_decide (id ∈ sub_seen st) with fail "gzip FEXTRA repeats a subfield ID" ;;
    let* subfield_end := ok_or
      (u64_checked_add (sub_cursor st) 4 ≫= fun value => u64_checked_add value (u16_at subfield 2))
      (fail "gzip FEXTRA subfield range overflow") in
    reject! extra_end <? subfield_end with fail "gzip FEXTRA subfield exceeds XLEN" ;;
    reject! u32_max <? sub_count st + 1 with fail "gzip FEXTRA subfield count overflow" ;;
    Some (Ok (Continue {| sub_cursor := subfield_end; sub_count := sub_count st + 1;
                          sub_seen := id :: sub_seen st |})).

(** The FEXTRA field: where the next field starts. *)
Definition audit_gzip_extra (snapshot : SourceSnapshot) (evidence : GzipWrapperEvidence) : exec Z Finding :=
  if has_bits (gz_flags evidence) GZIP_FLAG_EXTRA then
    let* extra := ok_or (gz_extra evidence) (fail "gzip FEXTRA flag has no range evidence") in
    reject! negb (offset extra =? 10) || (len extra <? 2) with fail "gzip FEXTRA range is not canonical" ;;
    let* xlen := exact_or snapshot 10 2 "gzip FEXTRA XLEN is outside the original snapshot" in
    reject! negb (u16_at xlen 0 + 2 =? len extra) with fail "gzip FEXTRA XLEN disagrees with its range" ;;
    let* extra_end := checked_range_end extra "gzip FEXTRA range overflow" in
    let! count := run_loop (gzip_subfield_step snapshot extra_end) (S (Z.to_nat (len extra)))
      {| sub_cursor := 12; sub_count := 0; sub_seen := [] |} in
    reject! negb (count =? gz_extra_subfield_count evidence)
      with fail "gzip FEXTRA subfield count disagrees with evidence" ;;
    Some (Ok extra_end)
  else
    reject! bool_decide (is_Some (gz_extra evidence)) || negb (gz_extra_subfield_count evidence =? 0)
      with fail "gzip FEXTRA evidence is present without its flag" ;;
    Some (Ok 10).

(** A zero-terminated field: nothing but its last byte is zero. *)
Definition audit_gzip_c_string (snapshot : SourceSnapshot) (cursor header_end : Z) (flagged : bool)
    (range : option ByteRange) (detail : string) : result Z Finding :=
  if negb flagged then
    match range with None => Ok cursor | Some _ => Err (fail detail) end
  else
    let? range := ok_or range (fail detail) in
    let? end_ := checked_range_end range detail in
    reject negb (offset range =? cursor) || (len range =? 0) || (header_end <? end_) with fail detail ;;
    let? bytes := vec_or snapshot (offset range) (len range) detail in
    reject negb (bool_decide (last bytes = Some x00)) || existsb is_zero_byte (removelast bytes)
      with fail detail ;;
    Ok end_.

(** The FHCRC field. *)
Definition audit_gzip_header_crc (snapshot : SourceSnapshot) (evidence : GzipWrapperEvidence) (cursor : Z) :
    result Z Finding :=
  if has_bits (gz_flags evidence) GZIP_FLAG_HEADER_CRC then
    let? range := ok_or (gz_header_crc16 evidence) (fail "gzip FHCRC flag has no range evidence") in
    reject negb (offset range =? cursor) || negb (len range =? 2)
      with fail "gzip FHCRC range is not canonical" ;;
    let? header_bytes := vec_or snapshot 0 cursor "gzip header bytes are outside the original snapshot" in
    let actual := crc32 header_bytes mod 65536 in
    let? declared := exact_or snapshot cursor 2 "gzip FHCRC is outside the original snapshot" in
    reject negb (u16_at declared 0 =? actual) with fail "gzip FHCRC disagrees with the original header" ;;
    Ok (cursor + 2)
  else
    reject bool_decide (is_Some (gz_header_crc16 evidence))
      with fail "gzip FHCRC evidence is present without its flag" ;;
    Ok cursor.

(** [audit_gzip_wrapper_covering]. *)
Definition audit_gzip_wrapper_covering (snapshot : SourceSnapshot) (evidence : GzipWrapperEvidence) :
    exec unit Finding :=
  let* header_end := checked_range_end (gz_header evidence) "gzip header range overflow" in
  let* payload_end := checked_range_end (gz_compressed_payload evidence)
    "gzip compressed payload range overflow" in
  let* trailer_end := checked_range_end (gz_trailer evidence) "gzip trailer range overflow" in
  reject! negb (offset (gz_header evidence) =? 0)
          || (len (gz_header evidence) <? 10)
          || negb (offset (gz_compressed_payload evidence) =? header_end)
          || negb (offset (gz_trailer evidence) =? payload_end)
          || negb (len (gz_trailer evidence) =? 8)
          || negb (trailer_end =? src_len snapshot)
    with fail "gzip ranges do not exactly partition the original snapshot" ;;
  let* fixed := exact_or snapshot 0 10 "gzip fixed header is outside the original snapshot" in
  reject! negb (bool_decide (take 3 fixed = [x1f; x8b; x08]))
          || has_bits (byte_at fixed 3) GZIP_FLAG_RESERVED
          || negb (byte_at fixed 3 =? gz_flags evidence)
          || negb (u32_at fixed 4 =? gz_modification_time evidence)
          || negb (byte_at fixed 8 =? gz_extra_flags evidence)
          || negb (byte_at fixed 9 =? gz_operating_system evidence)
    with fail "gzip fixed header disagrees with wrapper evidence" ;;
  let! cursor := audit_gzip_extra snapshot evidence in
  let* cursor := audit_gzip_c_string snapshot cursor header_end
    (has_bits (gz_flags evidence) GZIP_FLAG_NAME) (gz_original_name evidence)
    "gzip FNAME evidence is inconsistent" in
  let* cursor := audit_gzip_c_string snapshot cursor header_end
    (has_bits (gz_flags evidence) GZIP_FLAG_COMMENT) (gz_comment evidence)
    "gzip FCOMMENT evidence is inconsistent" in
  let* cursor := audit_gzip_header_crc snapshot evidence cursor in
  reject! negb (cursor =? header_end)
    with fail "gzip optional fields do not exactly fill the header range" ;;
  let* trailer := exact_or snapshot (offset (gz_trailer evidence)) 8
    "gzip trailer is outside the original snapshot" in
  reject! negb (u32_at trailer 0 =? gz_declared_crc32 evidence)
          || negb (u32_at trailer 4 =? gz_declared_isize evidence)
          || negb (gz_declared_isize evidence =? gzip_isize (gz_derived_output_len evidence))
          || negb (derived_digest_shape (gz_derived_output_sha256 evidence))
    with fail "gzip trailer or derived-output evidence is inconsistent" ;;
  Some (Ok ()).

(** ** zstd *)

Definition ZSTD_MAGIC : Z := 0xFD2FB528.
Definition ZSTD_MAX_WINDOW_BYTES : Z := 8 * 1024 * 1024.
Definition ZSTD_MIN_WINDOW_BYTES : Z := 1024.

(** The length of the content-size field by the descriptor's top two bits. *)
Definition zstd_fcs_len (descriptor : Z) (single_segment : bool) : Z :=
  match Z.shiftr descriptor 6, single_segment with
  | 0, false => 0
  | 0, true => 1
  | 1, _ => 2
  | 2, _ => 4
  | _, _ => 8
  end.
(** The content size, when the field is there. *)
Definition zstd_content_size (snapshot : SourceSnapshot) (cursor fcs_len : Z) : result (option Z) Finding :=
  if fcs_len =? 0 then Ok None
  else
    let? fcs_bytes := exact_or snapshot cursor fcs_len
      "zstd frame content size is outside the snapshot" in
    let value := le_value fcs_bytes in
    Ok (Some (if fcs_len =? 2 then value + 256 else value)).
Definition zstd_window_size (window : Z) : Z :=
  let window_base := Z.shiftl 1 (10 + Z.shiftr window 3) in
  window_base + window_base / 8 * Z.land window 7.

(** [audit_zstd_wrapper_covering]. *)
Definition audit_zstd_wrapper_covering (snapshot : SourceSnapshot) (evidence : ZstdWrapperEvidence) :
    result unit Finding :=
  let? header_end := checked_range_end (zs_header evidence) "zstd header overflow" in
  let? payload_end := checked_range_end (zs_compressed_payload evidence) "zstd payload overflow" in
  let? trailer_end := checked_range_end (zs_trailer evidence) "zstd trailer overflow" in
  reject negb (offset (zs_header evidence) =? 0)
         || negb (offset (zs_compressed_payload evidence) =? header_end)
         || negb (offset (zs_trailer evidence) =? payload_end)
         || negb (trailer_end =? src_len snapshot)
         || (len (zs_compressed_payload evidence) <? 3)
    with fail "zstd wrapper ranges do not exactly partition the snapshot" ;;
  let? fixed := exact_or snapshot 0 5 "zstd frame header is outside the original snapshot" in
  reject negb (u32_at fixed 0 =? ZSTD_MAGIC)
    with fail "recorded source does not begin with the zstd magic" ;;
  let descriptor := byte_at fixed 4 in
  reject negb (descriptor =? zs_descriptor evidence) || has_bits descriptor 24 || has_bits descriptor 3
    with fail "zstd frame descriptor disagrees with the evidence" ;;
  let single_segment := has_bits descriptor 32 in
  let checksum_flag := has_bits descriptor 4 in
  reject negb (eqb single_segment (zs_single_segment evidence))
         || negb (eqb checksum_flag (zs_checksum_flag evidence))
    with fail "zstd descriptor flags disagree with the evidence" ;;
  reject negb (len (zs_trailer evidence) =? if checksum_flag then 4 else 0)
    with fail "zstd trailer length disagrees with the checksum flag" ;;
  let? (window_descriptor, cursor) :=
    (if single_segment then Ok (None, 5)
     else
       let? window := exact_or snapshot 5 1 "zstd window descriptor is outside the snapshot" in
       Ok (Some (byte_at window 0), 6)) in
  reject negb (bool_decide (window_descriptor = zs_window_descriptor evidence))
    with fail "zstd window descriptor disagrees with the evidence" ;;
  let fcs_len := zstd_fcs_len descriptor single_segment in
  let? frame_content_size := zstd_content_size snapshot cursor fcs_len in
  reject negb (bool_decide (frame_content_size = zs_frame_content_size evidence))
         || negb (cursor + fcs_len =? len (zs_header evidence))
    with fail "zstd frame content size or header length disagrees with the evidence" ;;
  reject from_option (fun declared => negb (declared =? zs_derived_output_len evidence)) false frame_content_size
    with fail "zstd frame content size disagrees with the derived output length" ;;
  let? window_size :=
    match window_descriptor with
    | Some window => Ok (zstd_window_size window)
    | None => ok_or frame_content_size
                (fail "single-segment zstd frames must declare a content size")
    end in
  reject negb (window_size =? zs_window_size evidence) || (ZSTD_MAX_WINDOW_BYTES <? window_size)
         || (negb single_segment && (window_size <? ZSTD_MIN_WINDOW_BYTES))
    with fail "zstd window size is outside the audited bounds" ;;
  let? _ :=
    (if checksum_flag then
       let? trailer := exact_or snapshot (offset (zs_trailer evidence)) 4
         "zstd checksum trailer is outside the snapshot" in
       reject negb (bool_decide (Some (u32_at trailer 0) = zs_declared_checksum evidence))
         with fail "zstd checksum trailer disagrees with the evidence" ;;
       Ok ()
     else
       reject bool_decide (is_Some (zs_declared_checksum evidence))
         with fail "zstd evidence declares a checksum the frame lacks" ;;
       Ok ()) in
  reject negb (derived_digest_shape (zs_derived_output_sha256 evidence))
    with fail "zstd derived-output identity is malformed" ;;
  Ok ().

(** ** xz *)

Definition XZ_HEADER_MAGIC : list byte := [xfd] ++ lit "7zXZ" ++ [x00].
Definition XZ_FOOTER_MAGIC : list byte := lit "YZ".
Definition XZ_MAX_DICT_BYTES : Z := 8 * 1024 * 1024.
Definition XZ_MAX_BLOCKS : Z := 4096.

Definition xz_check_len (check_id : Z) : option Z :=
  if check_id =? 1 then Some 4 else if check_id =? 4 then Some 8 else if check_id =? 10 then Some 32 else None.

(** [bytes[..len - 4]] and the little-endian word after it; [None] is the
    panic of a slice too short. *)
Definition crc_tail (bytes : list byte) : option (list byte * Z) :=
  if Z.of_nat (length bytes) <? 4 then None
  else let body := take (length bytes - 4) bytes in
       Some (body, le_value (drop (length bytes - 4) bytes)).

Definition next_multiple_of_4 (n : Z) : Z := (n + 3) / 4 * 4.

(** One block: where the next one is expected, and the total so far. *)
Definition audit_xz_block (snapshot : SourceSnapshot) (expected_check_len : Z) (st : Z * Z)
    (block : XzBlockEvidence) : exec (Z * Z) Finding :=
  let '(expected_offset, uncompressed_total) := st in
  let header := xb_header block in
  let compressed := xb_compressed block in
  reject! negb (offset header =? expected_offset) || (len header <? 8) || negb (len header mod 4 =? 0)
    with fail "xz block header geometry disagrees with the evidence" ;;
  let* header_bytes := vec_or snapshot (offset header) (len header)
    "xz block header is outside the original snapshot" in
  reject! negb ((byte_at header_bytes 0 + 1) * 4 =? len header)
    with fail "xz block header size byte disagrees with its range" ;;
  match crc_tail header_bytes with
  | None => None
  | Some (body, stored) =>
  reject! negb (crc32 body =? stored) with fail "xz block header CRC32 disagrees with its bytes" ;;
  let flags := byte_at header_bytes 1 in
  reject! has_bits flags 60 || has_bits flags 3
    with fail "xz block flags are outside the restricted profile" ;;
  let declares_compressed := bool_decide (is_Some (xb_declared_compressed block)) in
  let declares_uncompressed := bool_decide (is_Some (xb_declared_uncompressed block)) in
  reject! negb (eqb (has_bits flags 64) declares_compressed)
          || negb (eqb (has_bits flags 128) declares_uncompressed)
          || negb (eqb declares_compressed declares_uncompressed)
    with fail "xz declared-size flags disagree with the evidence" ;;
  reject! match xb_declared_compressed block, xb_declared_uncompressed block with
          | Some c, Some u => negb (c =? len compressed) || negb (u =? xb_uncompressed_len block)
          | _, _ => false
          end
    with fail "xz declared sizes disagree with the evidence" ;;
  reject! XZ_MAX_DICT_BYTES <? xb_dict_size block
    with fail "xz dictionary evidence exceeds the profile ceiling" ;;
  let geometry := fail "xz block ranges do not exactly partition the block" in
  reject! negb (offset compressed =? offset header + len header) || (len compressed =? 0) with geometry ;;
  let* compressed_end := checked_range_end compressed "xz compressed overflow" in
  let unpadded := len header + len compressed in
  reject! negb (offset (xb_padding block) =? compressed_end)
          || negb (len (xb_padding block) =? next_multiple_of_4 unpadded - unpadded) with geometry ;;
  let* padding_end := checked_range_end (xb_padding block) "xz padding overflow" in
  reject! negb (offset (xb_check block) =? padding_end)
          || negb (len (xb_check block) =? expected_check_len)
          || negb (Z.of_nat (length (xb_check_value block)) =? expected_check_len) with geometry ;;
  let* padding := vec_or snapshot (offset (xb_padding block)) (len (xb_padding block))
    "xz block padding is outside the original snapshot" in
  reject! negb (all_zero padding) with fail "xz block padding is not zero" ;;
  let* check := vec_or snapshot (offset (xb_check block)) (len (xb_check block))
    "xz block check is outside the original snapshot" in
  reject! negb (bool_decide (check = xb_check_value block))
    with fail "xz block check bytes disagree with the evidence" ;;
  let* expected_offset := checked_range_end (xb_check block) "xz block overflow" in
  let* uncompressed_total := ok_or (u64_checked_add uncompressed_total (xb_uncompressed_len block))
    (fail "xz uncompressed totals overflowed u64") in
  Some (Ok (expected_offset, uncompressed_total))
  end.
Fixpoint audit_xz_blocks (snapshot : SourceSnapshot) (expected_check_len : Z) (st : Z * Z)
    (blocks : list XzBlockEvidence) : exec (Z * Z) Finding :=
  match blocks with
  | [] => Some (Ok st)
  | block :: blocks =>
      let! st := audit_xz_block snapshot expected_check_len st block in
      audit_xz_blocks snapshot expected_check_len st blocks
  end.

(** The stream header, the footer and the index. *)
Definition audit_xz_frame (snapshot : SourceSnapshot) (evidence : XzWrapperEvidence) : exec unit Finding :=
  reject! negb (bool_decide (xz_header evidence = mkrange 0 12))
    with fail "xz stream-header range is not the fixed prefix" ;;
  let* header := exact_or snapshot 0 12 "xz stream header is outside the original snapshot" in
  reject! negb (bool_decide (take 6 header = XZ_HEADER_MAGIC))
          || negb (byte_at header 6 =? 0)
          || negb (byte_at header 7 =? xz_check_id evidence)
          || negb (crc32 (range 6 2 header) =? u32_at header 8)
    with fail "xz stream header disagrees with the evidence" ;;
  let* footer_end := checked_range_end (xz_footer evidence) "xz footer overflow" in
  reject! negb (len (xz_footer evidence) =? 12) || negb (footer_end =? src_len snapshot)
    with fail "xz footer range is not the terminal twelve bytes" ;;
  let* footer := exact_or snapshot (offset (xz_footer evidence)) 12
    "xz stream footer is outside the original snapshot" in
  reject! negb (bool_decide (range 10 2 footer = XZ_FOOTER_MAGIC))
          || negb (byte_at footer 8 =? 0)
          || negb (byte_at footer 9 =? xz_check_id evidence)
          || negb (crc32 (range 4 6 footer) =? u32_at footer 0)
    with fail "xz stream footer disagrees with the evidence" ;;
  reject! negb ((u32_at footer 4 + 1) * 4 =? len (xz_index evidence))
    with fail "xz footer backward size disagrees with the recorded index" ;;
  let* index_end := checked_range_end (xz_index evidence) "xz index overflow" in
  reject! negb (index_end =? offset (xz_footer evidence))
    with fail "xz index range does not abut the footer" ;;
  let* index_bytes := vec_or snapshot (offset (xz_index evidence)) (len (xz_index evidence))
    "xz index is outside the original snapshot" in
  reject! negb (bool_decide (head index_bytes = Some x00)) with fail "xz index indicator is missing" ;;
  match crc_tail index_bytes with
  | None => None
  | Some (body, stored) =>
      reject! negb (crc32 body =? stored) with fail "xz index CRC32 disagrees with its bytes" ;;
      Some (Ok ())
  end.

(** [audit_xz_wrapper_covering]. *)
Definition audit_xz_wrapper_covering (snapshot : SourceSnapshot) (evidence : XzWrapperEvidence) :
    exec unit Finding :=
  let* expected_check_len := ok_or (xz_check_len (xz_check_id evidence))
    (fail "xz evidence carries a check id outside the profile") in
  let block_count := Z.of_nat (length (xz_blocks evidence)) in
  reject! (block_count =? 0) || (XZ_MAX_BLOCKS <? block_count)
    with fail "xz evidence block count is outside the profile" ;;
  let! _ := audit_xz_frame snapshot evidence in
  let! (expected_offset, uncompressed_total) :=
    audit_xz_blocks snapshot expected_check_len (12, 0) (xz_blocks evidence) in
  reject! negb (expected_offset =? offset (xz_index evidence))
    with fail "xz blocks do not exactly tile the block region" ;;
  reject! negb (uncompressed_total =? xz_derived_output_len evidence)
    with fail "xz uncompressed totals disagree with the derived output length" ;;
  reject! negb (derived_digest_shape (xz_derived_output_sha256 evidence))
    with fail "xz derived-output identity is malformed" ;;
  Some (Ok ()).

(** ** bzip2 *)

Definition BZIP2_BLOCK_MAGIC : Z := 0x314159265359.
Definition BZIP2_EOS_MAGIC : Z := 0x177245385090.
Definition BZIP2_MAX_BLOCKS : Z := 65536.
Definition MASK48 : Z := 0xFFFFFFFFFFFF.

(** [u64::checked_mul] of the length by eight, and a sum, compared as options. *)
Definition bzip2_geometry (snapshot : SourceSnapshot) (evidence : Bzip2WrapperEvidence) : bool :=
  bool_decide (u64_checked_add (bz_payload_bits evidence) (bz_padding_bits evidence)
               = u64_checked_mul (src_len snapshot) 8).

(** A big-endian value, and the end-of-stream magic below [pad] bits and the
    checksum. *)
Definition be_fold (bytes : list byte) : Z := foldl (fun v b => v * 256 + u8 b) 0 bytes.
Definition footer_matches (tail_value pad : Z) : bool :=
  Z.land (Z.shiftr tail_value (pad + 32)) MASK48 =? BZIP2_EOS_MAGIC.
Definition footer_pads (tail_value tail_len : Z) : list Z :=
  filter (fun pad => footer_matches tail_value pad = true)
    (filter (fun pad => pad + 80 <= tail_len * 8) [0; 1; 2; 3; 4; 5; 6; 7]).

(** The fixed prefix, the geometry and the footer; [None] is the underflow of
    the footer's start. *)
Definition audit_bzip2_frame (snapshot : SourceSnapshot) (evidence : Bzip2WrapperEvidence) : exec Z Finding :=
  reject! negb (bool_decide (bz_header evidence = mkrange 0 4))
    with fail "bzip2 stream-header range is not the fixed prefix" ;;
  reject! (bz_level evidence <? 1) || (9 <? bz_level evidence)
    with fail "bzip2 evidence level is outside the profile" ;;
  reject! 7 <? bz_padding_bits evidence with fail "bzip2 evidence padding exceeds seven bits" ;;
  reject! negb (bzip2_geometry snapshot evidence)
    with fail "bzip2 evidence bit geometry does not cover the original snapshot" ;;
  let block_count := length (bz_block_bit_offsets evidence) in
  reject! (block_count =? 0)%nat || (BZIP2_MAX_BLOCKS <? Z.of_nat block_count)
          || negb (block_count =? length (bz_block_crcs evidence))%nat
    with fail "bzip2 evidence block lists are outside the profile" ;;
  let* header := exact_or snapshot 0 4 "bzip2 stream header is outside the original snapshot" in
  reject! negb (bool_decide (take 3 header = lit "BZh"))
          || negb (byte_at header 3 =? bz_level evidence + 48)
    with fail "bzip2 stream header disagrees with the evidence" ;;
  let tail_len := Z.min (src_len snapshot) 16 in
  let* tail := vec_or snapshot (src_len snapshot - tail_len) tail_len
    "bzip2 stream footer is outside the original snapshot" in
  let tail_value := be_fold tail in
  reject! negb (length (footer_pads tail_value tail_len) =? 1)%nat
    with fail "bzip2 footer recovery is not unique" ;;
  let pad := bz_padding_bits evidence in
  reject! negb (footer_matches tail_value pad)
    with fail "bzip2 footer magic disagrees with the recorded padding" ;;
  reject! negb (Z.land (Z.shiftr tail_value pad) u32_max =? bz_combined_crc evidence)
    with fail "bzip2 combined CRC disagrees with the evidence" ;;
  reject! (0 <? pad) && has_bits tail_value (Z.shiftl 1 pad - 1)
    with fail "bzip2 footer padding bits are not zero" ;;
  if bz_payload_bits evidence <? 80 then None else Some (Ok (bz_payload_bits evidence - 80)).

(** The scan for block magics: the last 64 bits, the bytes seen and the starts
    found, oldest first. *)
Record MagicScan : Type := { ms_acc : Z; ms_position : Z; ms_scanned : list Z }.
Fixpoint scan_shifts (footer_magic_start : Z) (block_count : nat) (acc end_bits : Z) (shifts : list Z)
    (scanned : list Z) : result (list Z) Finding :=
  match shifts with
  | [] => Ok scanned
  | shift :: shifts =>
      let start := end_bits - shift - 48 in
      if (start <? 32) || (footer_magic_start <? start + 48)
      then scan_shifts footer_magic_start block_count acc end_bits shifts scanned
      else if Z.land (Z.shiftr acc shift) MASK48 =? BZIP2_BLOCK_MAGIC then
        let scanned := scanned ++ [start] in
        reject (block_count <? length scanned)%nat
          with fail "the bzip2 block-magic scan found more blocks than recorded" ;;
        scan_shifts footer_magic_start block_count acc end_bits shifts scanned
      else scan_shifts footer_magic_start block_count acc end_bits shifts scanned
  end.
Fixpoint scan_magics (footer_magic_start : Z) (block_count : nat) (st : MagicScan) (bytes : list byte) :
    result MagicScan Finding :=
  match bytes with
  | [] => Ok st
  | byte :: bytes =>
      let acc := Z.land (Z.lor (Z.shiftl (ms_acc st) 8) (u8 byte)) u64_max in
      let position := ms_position st + 1 in
      let end_bits := position * 8 in
      let? scanned :=
        (if end_bits <? 80 then Ok (ms_scanned st)
         else scan_shifts footer_magic_start block_count acc end_bits [7; 6; 5; 4; 3; 2; 1; 0] (ms_scanned st)) in
      scan_magics footer_magic_start block_count
        {| ms_acc := acc; ms_position := position; ms_scanned := scanned |} bytes
  end.
Definition bzip2_scan_step (snapshot : SourceSnapshot) (footer_magic_start : Z) (block_count : nat)
    (st : Z * MagicScan) : exec (control (Z * MagicScan) (list Z)) Finding :=
  let '(cursor, scan) := st in
  if negb (cursor <? src_len snapshot) then Some (Ok (Return (ms_scanned scan)))
  else
    let step := Z.min 65536 (src_len snapshot - cursor) in
    let* chunk := vec_or snapshot cursor step "bzip2 stream bytes are outside the original snapshot" in
    let* scan := scan_magics footer_magic_start block_count scan chunk in
    Some (Ok (Continue (cursor + step, scan))).

(** [fold_combined_crc]: a rotation by one bit and an exclusive or. *)
Definition fold_combined_crc (combined block_crc : Z) : Z :=
  Z.lxor (Z.lor (Z.land (Z.shiftl combined 1) u32_max) (Z.shiftr combined 31)) block_crc.

(** The chain of block checksums. *)
Fixpoint audit_bzip2_blocks (snapshot : SourceSnapshot) (footer_magic_start : Z) (fold : Z)
    (blocks : list (Z * Z)) : result Z Finding :=
  match blocks with
  | [] => Ok fold
  | (offset, expected_crc) :: blocks =>
      reject footer_magic_start <? offset + 81
        with fail "a bzip2 block frame overlaps the stream footer" ;;
      let crc_start := offset + 48 in
      let first_byte := crc_start / 8 in
      let? bytes := exact_or snapshot first_byte 6
        "a bzip2 block frame is outside the original snapshot" in
      let window := be_fold bytes in
      let lead := crc_start - first_byte * 8 in
      let crc := Z.land (Z.shiftr window (16 - lead)) u32_max in
      reject negb (crc =? expected_crc) with fail "a bzip2 block CRC disagrees with the evidence" ;;
      reject has_bits (Z.shiftr window (15 - lead)) 1
        with fail "a bzip2 block sets the deprecated randomised flag" ;;
      audit_bzip2_blocks snapshot footer_magic_start (fold_combined_crc fold crc) blocks
  end.

(** [audit_bzip2_wrapper_covering]. *)
Definition audit_bzip2_wrapper_covering (snapshot : SourceSnapshot) (evidence : Bzip2WrapperEvidence) :
    exec unit Finding :=
  let! footer_magic_start := audit_bzip2_frame snapshot evidence in
  let! scanned :=
    run_loop (bzip2_scan_step snapshot footer_magic_start (length (bz_block_bit_offsets evidence)))
      (2 + Z.to_nat (src_len snapshot / 65536))
      (0, {| ms_acc := 0; ms_position := 0; ms_scanned := [] |}) in
  reject! negb (bool_decide (scanned = bz_block_bit_offsets evidence))
    with fail "the bzip2 block-magic scan disagrees with the recorded offsets" ;;
  let* fold := audit_bzip2_blocks snapshot footer_magic_start 0
    (zip (bz_block_bit_offsets evidence) (bz_block_crcs evidence)) in
  reject! negb (fold =? bz_combined_crc evidence)
    with fail "the bzip2 block-CRC chain fold disagrees with the combined CRC" ;;
  reject! negb (derived_digest_shape (bz_derived_output_sha256 evidence))
    with fail "bzip2 derived-output identity is malformed" ;;
  Some (Ok ()).

(** ** Copy-only 7z *)

Definition SEVENZ_SIGNATURE : list byte := [x37; x7a; xbc; xaf; x27; x1c].

(** The signature header and the next header. *)
Definition audit_sevenz_headers (snapshot : SourceSnapshot) (sevenz : SevenZArchiveEvidence) :
    result unit Finding :=
  let? signature_header := exact_or snapshot 0 32 "7z signature header is outside the snapshot" in
  reject negb (bool_decide (take 6 signature_header = SEVENZ_SIGNATURE))
         || negb (byte_at signature_header 6 =? 0)
         || negb (byte_at signature_header 7 =? sa_version_minor sevenz)
    with fail "7z signature header disagrees with the evidence" ;;
  reject negb (crc32 (range 12 20 signature_header) =? u32_at signature_header 8)
    with fail "7z start-header CRC32 disagrees with its bytes" ;;
  let next_offset := u64_at signature_header 12 in
  let next_size := u64_at signature_header 20 in
  let next_crc := u32_at signature_header 28 in
  let? start := ok_or (u64_checked_add 32 next_offset) (fail "7z next-header offset overflowed u64") in
  reject negb (bool_decide (sa_next_header sevenz = mkrange start next_size))
         || negb (sa_next_header_crc sevenz =? next_crc)
    with fail "7z next-header geometry disagrees with the evidence" ;;
  let? header_end := checked_range_end (sa_next_header sevenz) "7z next-header overflow" in
  reject negb (header_end =? src_len snapshot)
    with fail "7z next header does not end at the end of the source" ;;
  let? header_bytes := vec_or snapshot (offset (sa_next_header sevenz)) (len (sa_next_header sevenz))
    "7z next header is outside the snapshot" in
  reject negb (crc32 header_bytes =? next_crc)
    with fail "7z next-header CRC32 disagrees with its bytes" ;;
  reject negb (bool_decide (head header_bytes = Some x01))
    with fail "7z next header is not a raw kHeader" ;;
  Ok ().

Fixpoint audit_sevenz_substreams (sub_cursor : Z) (substreams : list SevenZSubStreamEvidence) :
    result Z Finding :=
  match substreams with
  | [] => Ok sub_cursor
  | substream :: substreams =>
      reject negb (offset (ss_payload substream) =? sub_cursor) || (len (ss_payload substream) =? 0)
        with fail "7z substreams do not exactly tile their folder" ;;
      let? sub_cursor := checked_range_end (ss_payload substream) "7z substream overflow" in
      audit_sevenz_substreams sub_cursor substreams
  end.
Definition declared_crc_differs (declared : option Z) (bytes : list byte) : bool :=
  from_option (fun declared => negb (crc32 bytes =? declared)) false declared.
(** One folder: where the next one starts. *)
Definition audit_sevenz_folder (snapshot : SourceSnapshot) (cursor : Z) (folder : SevenZFolderEvidence) :
    result Z Finding :=
  let pack_stream := sf_pack_stream folder in
  reject negb (offset pack_stream =? cursor) with fail "7z pack streams are not contiguous" ;;
  reject negb (sf_unpack_size folder =? len pack_stream)
    with fail "a Copy folder's unpack size disagrees with its pack size" ;;
  let? cursor := checked_range_end pack_stream "7z pack-stream overflow" in
  let? sub_cursor := audit_sevenz_substreams (offset pack_stream) (sf_substreams folder) in
  reject negb (sub_cursor =? cursor) with fail "7z substreams do not exactly tile their folder" ;;
  let? folder_bytes := vec_or snapshot (offset pack_stream) (len pack_stream)
    "a 7z pack stream is outside the snapshot" in
  reject declared_crc_differs (sf_pack_crc folder) folder_bytes
    with fail "a 7z pack-stream CRC32 disagrees with its bytes" ;;
  reject declared_crc_differs (sf_folder_crc folder) folder_bytes
    with fail "a 7z folder CRC32 disagrees with its bytes" ;;
  Ok cursor.
Fixpoint audit_sevenz_folders (snapshot : SourceSnapshot) (cursor : Z) (folders : list SevenZFolderEvidence) :
    result Z Finding :=
  match folders with
  | [] => Ok cursor
  | folder :: folders =>
      let? cursor := audit_sevenz_folder snapshot cursor folder in
      audit_sevenz_folders snapshot cursor folders
  end.

(** The members against the substreams, in order; the substreams left over. *)
Fixpoint audit_sevenz_members (empty_offset : Z) (members : list IrMember)
    (substreams : list SevenZSubStreamEvidence) : result (list SevenZSubStreamEvidence) Finding :=
  match members with
  | [] => Ok substreams
  | member :: members =>
      match ir_evidence member with
      | EvSevenZ evidence =>
          let payload := se_payload evidence in
          if len payload =? 0 then
            reject negb (offset payload =? empty_offset) || bool_decide (is_Some (se_declared_crc evidence))
              with fail "a 7z empty member's payload range is not canonical" ;;
            audit_sevenz_members empty_offset members substreams
          else
            match substreams with
            | [] => Err (fail "7z members exceed the recorded substreams")
            | substream :: substreams =>
                reject negb (bool_decide (ss_payload substream = payload))
                       || negb (bool_decide (ss_declared_crc substream = se_declared_crc evidence))
                       || negb (declared_uncomp_size member =? len payload)
                  with fail "a 7z member disagrees with its recorded substream" ;;
                audit_sevenz_members empty_offset members substreams
            end
      | _ => Err (fail "7z IR carries a non-7z member evidence variant")
      end
  end.

(** [audit_sevenz_covering]. *)
Definition audit_sevenz_covering (snapshot : SourceSnapshot) (ir : ArchiveIR) : result unit Finding :=
  reject negb (bool_decide (format ir = SevenZCopy))
    with fail "7z covering audit received a non-7z IR" ;;
  let? sevenz := ok_or (sevenz_evidence ir) (fail "7z IR has no container evidence") in
  let? _ := audit_sevenz_headers snapshot sevenz in
  let next_offset := offset (sa_next_header sevenz) in
  reject negb (offset (sa_pack_region sevenz) =? 32) with fail "7z pack region does not tile the dense covering" ;;
  let? pack_end := checked_range_end (sa_pack_region sevenz) "7z pack-region overflow" in
  reject negb (pack_end =? next_offset) with fail "7z pack region does not tile the dense covering" ;;
  let? cursor := audit_sevenz_folders snapshot 32 (sa_folders sevenz) in
  reject negb (cursor =? next_offset)
    with fail "7z pack streams do not end where the next header begins" ;;
  let? left_over := audit_sevenz_members next_offset (members ir) (concat (map sf_substreams (sa_folders sevenz))) in
  reject negb (length left_over =? 0)%nat with fail "7z substreams exceed the recorded members" ;;
  Ok ().
End Wrappers.

(** ** What the audits establish *)

(** What the type of a range promises, of all the ranges of an evidence. *)
Definition opt_nonneg (r : option ByteRange) : Prop := forall x, r = Some x -> range_nonneg x.
Record gzip_typed (e : GzipWrapperEvidence) : Prop := {
  gt_header : range_nonneg (gz_header e); gt_payload : range_nonneg (gz_compressed_payload e);
  gt_trailer : range_nonneg (gz_trailer e); gt_extra : opt_nonneg (gz_extra e);
  gt_name : opt_nonneg (gz_original_name e); gt_comment : opt_nonneg (gz_comment e)
}.
Record zstd_typed (e : ZstdWrapperEvidence) : Prop := {
  zt_header : range_nonneg (zs_header e); zt_payload : range_nonneg (zs_compressed_payload e);
  zt_trailer : range_nonneg (zs_trailer e)
}.

Section Audit.
Context `{!Crc32, !Allocator} (s : SourceSnapshot) (bs : list byte).
Context (Hs : represents s bs).

Lemma exact_or_ok off n d out :
  0 <= off -> 0 <= n -> exact_or s off n d = Ok out -> out = range off n bs /\ off + n <= Z.of_nat (length bs).
Proof using Hs.
  intros Ho Hn Hr. apply map_err_ok in Hr. by apply (represents_read _ _ Hs) in Hr as [? ->].
Qed.
Lemma vec_or_ok off n d out :
  0 <= off -> 0 <= n -> vec_or s off n d = Ok out -> out = range off n bs /\ off + n <= Z.of_nat (length bs).
Proof using Hs.
  intros Ho Hn Hr. apply map_err_ok in Hr. by apply (read_vec_sound s bs) in Hr as [? ->].
Qed.

(** ** gzip *)

(** A zero-terminated field ends at its first zero byte. *)
Lemma zero_terminated_le cursor n m :
  bool_decide (last (range cursor n bs) = Some x00) = true ->
  0 <= cursor -> 0 <= n -> 0 <= m -> cursor + n <= Z.of_nat (length bs) -> cursor + m <= Z.of_nat (length bs) ->
  existsb is_zero_byte (removelast (range cursor m bs)) = false -> m <= n.
Proof using.
  clear. intros Hl%bool_decide_eq_true Hc Hn Hm Hin Him Hz. destruct (Z.leb_spec m n); [done|exfalso].
  apply existsb_zero in Hz. apply Hz.
  assert (range cursor m bs = range cursor n bs ++ range (cursor + n) (m - n) bs) as ->.
  { rewrite <- range_app by lia. f_equal. lia. }
  assert (range (cursor + n) (m - n) bs <> []) as Hne'.
  { intros Hnil%(f_equal length). rewrite length_range in Hnil by lia. simpl in Hnil. lia. }
  rewrite removelast_app by done. apply last_Some in Hl as [l ->]. set_solver.
Qed.

Lemma gzip_c_string_determined cursor flagged h1 h2 r1 r2 d e1 e2 :
  0 <= cursor -> opt_nonneg r1 -> opt_nonneg r2 ->
  audit_gzip_c_string s cursor h1 flagged r1 d = Ok e1 ->
  audit_gzip_c_string s cursor h2 flagged r2 d = Ok e2 ->
  r1 = r2 /\ e1 = e2 /\ cursor <= e1.
Proof using Hs.
  intros Hc Ht1 Ht2. unfold audit_gzip_c_string. destruct flagged; cbn [negb].
  2:{ destruct r1, r2; try done. intros. by simplify_eq. }
  intros E1 E2. ok_steps E1. ok_steps E2. breflect. simplify_eq.
  repeat match goal with
  | H : ok_or _ _ = Ok _ |- _ => apply ok_or_ok in H
  | H : checked_range_end _ _ = Ok _ |- _ => apply checked_range_end_ok in H as [-> _]
  end. subst.
  match goal with Ha : opt_nonneg (Some ?a), Hb : opt_nonneg (Some ?b) |- _ =>
    destruct (Ha _ eq_refl), (Hb _ eq_refl); destruct a as [o1 n1], b as [o2 n2] end.
  cbn [offset len] in *.
  repeat match goal with H : vec_or s _ _ _ = Ok _ |- _ => apply vec_or_ok in H as [-> ?]; [|lia..] end.
  subst. enough (n1 = n2) as -> by (split_and!; [done|done|lia]).
  match goal with
  | A : bool_decide (last (range _ n1 _) = _) = true, B : bool_decide (last (range _ n2 _) = _) = true,
    C : existsb _ (removelast (range _ n1 _)) = false, D : existsb _ (removelast (range _ n2 _)) = false |- _ =>
      apply (zero_terminated_le _ n1 n2) in A; [|lia..|exact D]; apply (zero_terminated_le _ n2 n1) in B; [|lia..|exact C]
  end. lia.
Qed.

Lemma gzip_extra_determined e1 e2 c1 c2 :
  gzip_typed e1 -> gzip_typed e2 -> gz_flags e1 = gz_flags e2 ->
  audit_gzip_extra s e1 = Some (Ok c1) -> audit_gzip_extra s e2 = Some (Ok c2) ->
  gz_extra e1 = gz_extra e2 /\ gz_extra_subfield_count e1 = gz_extra_subfield_count e2 /\ c1 = c2 /\ 10 <= c1.
Proof using Hs.
  intros T1 T2 Hf. unfold audit_gzip_extra. rewrite Hf. destruct (has_bits _ _).
  - intros E1 E2. ok_steps E1. ok_steps E2. breflect. simplify_eq.
    repeat match goal with
    | H : ok_or _ _ = Ok _ |- _ => apply ok_or_ok in H
    | H : checked_range_end _ _ = Ok _ |- _ => apply checked_range_end_ok in H as [-> _]
    | H : exact_or s _ _ _ = Ok _ |- _ => apply exact_or_ok in H as [-> _]; [|lia..]
    end.
    match goal with Ha : gz_extra e1 = Some ?a, Hb : gz_extra e2 = Some ?b |- _ =>
      destruct (gt_extra _ T1 _ Ha); destruct a as [o1 n1], b as [o2 n2] end.
    cbn [offset len] in *. subst.
    split_and!; [congruence|congruence|done|lia].
  - intros E1 E2. ok_steps E1. ok_steps E2. breflect. simplify_eq.
    repeat match goal with H : bool_decide (is_Some ?o) = false |- _ =>
      apply bool_decide_eq_false, eq_None_not_Some in H; rewrite H end.
    split_and!; [done|congruence|done|lia].
Qed.

Lemma gzip_header_crc_determined e1 e2 cursor c1 c2 :
  gz_flags e1 = gz_flags e2 ->
  audit_gzip_header_crc s e1 cursor = Ok c1 -> audit_gzip_header_crc s e2 cursor = Ok c2 ->
  gz_header_crc16 e1 = gz_header_crc16 e2 /\ c1 = c2.
Proof using.
  clear Hs. intros Hf. unfold audit_gzip_header_crc. rewrite Hf. destruct (has_bits _ _); intros E1 E2.
  - ok_steps E1. ok_steps E2. breflect. simplify_eq.
    repeat match goal with H : ok_or _ _ = Ok _ |- _ => apply ok_or_ok in H end.
    match goal with Ha : gz_header_crc16 e1 = Some ?a, Hb : gz_header_crc16 e2 = Some ?b |- _ =>
      rewrite Ha, Hb; destruct a as [o1 n1], b as [o2 n2] end. cbn [offset len] in *. by subst.
  - ok_steps E1. ok_steps E2. simplify_eq.
    repeat match goal with H : bool_decide (is_Some ?o) = false |- _ =>
      apply bool_decide_eq_false, eq_None_not_Some in H; rewrite H end. done.
Qed.

(** The three ranges of an accepted wrapper, and its fixed and trailing words. *)
Record gzip_words (e : GzipWrapperEvidence) : Prop := {
  gw_ranges : adjacent 0 [gz_header e; gz_compressed_payload e; gz_trailer e] (Z.of_nat (length bs));
  gw_trailer_len : len (gz_trailer e) = 8;
  gw_flags : gz_flags e = byte_at (range 0 10 bs) 3;
  gw_mtime : gz_modification_time e = u32_at (range 0 10 bs) 4;
  gw_extra_flags : gz_extra_flags e = byte_at (range 0 10 bs) 8;
  gw_system : gz_operating_system e = byte_at (range 0 10 bs) 9;
  gw_crc : gz_declared_crc32 e = u32_at (range (offset (gz_trailer e)) 8 bs) 0;
  gw_isize : gz_declared_isize e = u32_at (range (offset (gz_trailer e)) 8 bs) 4;
  gw_output : gz_declared_isize e = gzip_isize (gz_derived_output_len e)
}.
Lemma gzip_audit_words e :
  gzip_typed e -> audit_gzip_wrapper_covering s e = Some (Ok ()) ->
  gzip_words e /\
  exists c1 c2 c3, audit_gzip_extra s e = Some (Ok c1)
    /\ audit_gzip_c_string s c1 (len (gz_header e)) (has_bits (gz_flags e) GZIP_FLAG_NAME)
         (gz_original_name e) "gzip FNAME evidence is inconsistent" = Ok c2
    /\ audit_gzip_c_string s c2 (len (gz_header e)) (has_bits (gz_flags e) GZIP_FLAG_COMMENT)
         (gz_comment e) "gzip FCOMMENT evidence is inconsistent" = Ok c3
    /\ audit_gzip_header_crc s e c3 = Ok (len (gz_header e)).
Proof using Hs.
  intros T Ha. unfold audit_gzip_wrapper_covering in Ha. ok_steps Ha. breflect.
  repeat match goal with H : checked_range_end _ _ = Ok _ |- _ => apply checked_range_end_ok in H as [-> _] end.
  destruct (gt_header _ T), (gt_payload _ T), (gt_trailer _ T). pose proof (represents_len _ _ Hs) as Hlen.
  repeat match goal with H : exact_or s _ _ _ = Ok _ |- _ => apply exact_or_ok in H as [-> _]; [|lia..] end.
  match goal with H : offset (gz_header e) = 0 |- _ => rewrite H in * end. rewrite Z.add_0_l in *.
  subst. split; [split; simpl; (done || lia)|]. eauto 10.
Qed.

Lemma gzip_audit_determines e1 e2 :
  gzip_typed e1 -> gzip_typed e2 ->
  audit_gzip_wrapper_covering s e1 = Some (Ok ()) -> audit_gzip_wrapper_covering s e2 = Some (Ok ()) ->
  gz_derived_output_len e1 = gz_derived_output_len e2 ->
  gz_derived_output_sha256 e1 = gz_derived_output_sha256 e2 -> e1 = e2.
Proof using Hs.
  intros T1 T2 (W1 & a1 & a2 & a3 & A1 & A2 & A3 & A4)%gzip_audit_words
    (W2 & b1 & b2 & b3 & B1 & B2 & B3 & B4)%gzip_audit_words Hlen Hsha; [|done..].
  destruct W1 as [R1 N1 W1 W2' W3 W4 W5 W6 _], W2 as [R2 N2 V1 V2 V3 V4 V5 V6 _].
  assert (Hf : gz_flags e1 = gz_flags e2) by congruence.
  destruct (gzip_extra_determined _ _ _ _ T1 T2 Hf A1 B1) as (E1 & E2 & <- & Hge).
  rewrite <- Hf in *.
  destruct (gzip_c_string_determined a1 _ _ _ _ _ _ _ _ ltac:(lia) (gt_name _ T1) (gt_name _ T2) A2 B2) as (E3 & <- & ?).
  destruct (gzip_c_string_determined a2 _ _ _ _ _ _ _ _ ltac:(lia) (gt_comment _ T1) (gt_comment _ T2) A3 B3) as (E4 & <- & _).
  destruct (gzip_header_crc_determined _ _ _ _ _ Hf A4 B4) as [E5 E6].
  destruct e1 as [? ? ? ? [o1 n1] ? ? ? ? ? [o2 n2] [o3 n3] ? ? ? ?],
    e2 as [? ? ? ? [p1 m1] ? ? ? ? ? [p2 m2] [p3 m3] ? ? ? ?].
  cbn in *. destruct R1 as (-> & _ & -> & _ & -> & _ & R1), R2 as (-> & _ & -> & _ & -> & _ & R2).
  subst. assert (n2 = m2) as -> by lia. done.
Qed.

(** ** zstd *)

(** What an accepted frame's evidence reads, all from the bytes. *)
Definition zstd_cursor : Z := if has_bits (byte_at (range 0 5 bs) 4) 32 then 5 else 6.
Record zstd_words (e : ZstdWrapperEvidence) (size : option Z) : Prop := {
  zw_ranges : adjacent 0 [zs_header e; zs_compressed_payload e; zs_trailer e] (Z.of_nat (length bs));
  zw_descriptor : zs_descriptor e = byte_at (range 0 5 bs) 4;
  zw_single : zs_single_segment e = has_bits (byte_at (range 0 5 bs) 4) 32;
  zw_checksum : zs_checksum_flag e = has_bits (byte_at (range 0 5 bs) 4) 4;
  zw_trailer : len (zs_trailer e) = (if zs_checksum_flag e then 4 else 0);
  zw_window : zs_window_descriptor e = (if zs_single_segment e then None else Some (byte_at (range 5 1 bs) 0));
  zw_content : zstd_content_size s zstd_cursor (zstd_fcs_len (zs_descriptor e) (zs_single_segment e)) = Ok size;
  zw_size : zs_frame_content_size e = size;
  zw_header_len : len (zs_header e) = zstd_cursor + zstd_fcs_len (zs_descriptor e) (zs_single_segment e);
  zw_window_size : Some (zs_window_size e) =
    match zs_window_descriptor e with Some w => Some (zstd_window_size w) | None => size end;
  zw_declared : zs_declared_checksum e =
    (if zs_checksum_flag e then Some (u32_at (range (offset (zs_trailer e)) 4 bs) 0) else None)
}.
Lemma zstd_audit_words e :
  zstd_typed e -> audit_zstd_wrapper_covering s e = Ok () -> exists size, zstd_words e size.
Proof using Hs.
  intros T Ha. unfold audit_zstd_wrapper_covering in Ha. ok_steps Ha. breflect. clear Ha.
  repeat match goal with
  | H : checked_range_end _ _ = Ok _ |- _ => apply checked_range_end_ok in H as [-> _]
  | H : eqb _ _ = true |- _ => apply eqb_prop in H
  | H : bool_decide (_ = _) = true |- _ => apply bool_decide_eq_true in H
  end.
  destruct (zt_header _ T), (zt_payload _ T), (zt_trailer _ T). pose proof (represents_len _ _ Hs) as Hlen.
  match goal with H : exact_or s 0 5 _ = Ok _ |- _ => apply exact_or_ok in H as [-> _]; [|lia..] end.
  match goal with H : offset (zs_header e) = 0 |- _ => rewrite H in * end. rewrite Z.add_0_l in *. subst.
  match goal with H : zstd_content_size _ _ _ = Ok ?o |- _ => exists o; rename H into Hsize end.
  match goal with H : context [exact_or s 5 1] |- _ => rename H into Hwin end.
  match goal with H : context [exact_or s (offset (zs_trailer e)) 4] |- _ => rename H into Htrail end.
  match goal with H : has_bits _ 32 = _ |- _ => rename H into Hsingle; rewrite Hsingle in * end.
  match goal with H : has_bits _ 4 = _ |- _ => rename H into Hck; rewrite Hck in * end.
  assert (Hz : (zs_window_descriptor e, z) = (if zs_single_segment e then (None, 5)
    else (Some (byte_at (range 5 1 bs) 0), 6))).
  { destruct (zs_single_segment e); [by injection Hwin as <- <-|]. ok_step Hwin.
    match goal with H : exact_or s 5 1 _ = Ok _ |- _ => apply exact_or_ok in H as [-> _]; [|lia..] end.
    by injection Hwin as <- <-. }
  assert (Hd : zs_declared_checksum e = if zs_checksum_flag e
    then Some (u32_at (range (offset (zs_trailer e)) 4 bs) 0) else None).
  { destruct (zs_checksum_flag e); ok_steps Htrail.
    - match goal with H : exact_or s _ 4 _ = Ok _ |- _ => apply exact_or_ok in H as [-> _]; [|lia..] end.
      breflect. by match goal with H : bool_decide _ = true |- _ => apply bool_decide_eq_true in H end.
    - match goal with H : bool_decide (is_Some _) = false |- _ =>
        by apply bool_decide_eq_false, eq_None_not_Some in H end. }
  assert (z = zstd_cursor) as ->.
  { unfold zstd_cursor. rewrite Hsingle. by destruct (zs_single_segment e); simplify_eq. }
  assert (Hw : zs_window_descriptor e = if zs_single_segment e then None else Some (byte_at (range 5 1 bs) 0))
    by (destruct (zs_single_segment e); congruence).
  split; try congruence; try (simpl; split_and!; done || lia).
  match goal with H : match zs_window_descriptor e with _ => _ end = Ok _ |- _ => rename H into Hws end.
  destruct (zs_window_descriptor e); [by injection Hws as <-|by apply ok_or_ok in Hws].
Qed.

Lemma zstd_audit_determines e1 e2 :
  zstd_typed e1 -> zstd_typed e2 ->
  audit_zstd_wrapper_covering s e1 = Ok () -> audit_zstd_wrapper_covering s e2 = Ok () ->
  zs_derived_output_len e1 = zs_derived_output_len e2 ->
  zs_derived_output_sha256 e1 = zs_derived_output_sha256 e2 -> e1 = e2.
Proof using Hs.
  intros T1 T2 (n1 & W1)%zstd_audit_words (n2 & W2)%zstd_audit_words Hlen Hsha; [|done..].
  destruct W1 as [R1 D1 S1 C1 T1' W1 N1 Z1 L1 V1 K1], W2 as [R2 D2 S2 C2 T2' W2 N2 Z2 L2 V2 K2].
  destruct e1 as [? ? ? ? ? ? [o1 l1] [o2 l2] [o3 l3] ? ? ?], e2 as [? ? ? ? ? ? [p1 m1] [p2 m2] [p3 m3] ? ? ?].
  cbn in *. destruct R1 as (-> & _ & -> & _ & -> & _ & R1), R2 as (-> & _ & -> & _ & -> & _ & R2).
  rewrite <- D2 in D1. rewrite <- S2 in S1. rewrite <- C2 in C1. subst.
  rewrite N1 in N2. injection N2 as ->.
  match goal with H : Some ?a = match ?w with _ => _ end, H' : Some ?b = match ?w with _ => _ end |- _ =>
    rewrite <- H' in H; injection H as -> end.
  assert (l2 = m2) as -> by lia. done.
Qed.

(** *** The gzip audit always returns *)

Lemma gzip_subfields_return stop n st :
  (Z.to_nat (stop - sub_cursor st) < n)%nat ->
  exists r, run_loop (gzip_subfield_step s stop) n st = Some r.
Proof using.
  clear Hs. apply (run_loop_total _ (fun _ => True) (fun st => Z.to_nat (stop - sub_cursor st))); [| |done].
  - intros st' _ Hn. unfold gzip_subfield_step in Hn. repeat (case_match; try discriminate).
  - intros st1 st2 _ Hst. unfold gzip_subfield_step in Hst.
    destruct (sub_cursor st1 <? stop) eqn:Hlt; cbn [negb] in Hst; [|discriminate]. ok_steps Hst. breflect.
    match goal with H : ok_or _ _ = Ok _ |- _ => apply ok_or_ok in H; rename H into Hend end.
    destruct (u64_checked_add (sub_cursor st1) 4) as [x|] eqn:Hx; [|discriminate]. cbn in Hend.
    apply u64_checked_add_Some in Hx as [-> _], Hend as [-> _].
    match goal with |- context [sub_cursor st2] => injection Hst as <- end. cbn [sub_cursor].
    match goal with |- context [u16_at ?b 2] => pose proof (u16_at_range b 2) end. split; [done|lia].
Qed.
Lemma gzip_audit_returns e : gzip_typed e -> exists r, audit_gzip_wrapper_covering s e = Some r.
Proof using.
  clear Hs. intros T. unfold audit_gzip_wrapper_covering.
  do 3 (destruct (checked_range_end _ _); [|eauto]). case_match; [eauto|].
  destruct (exact_or s 0 10 _); [|eauto]. case_match; [eauto|].
  assert (exists r, audit_gzip_extra s e = Some r) as [[c|f] ->]; [|repeat (case_match; eauto)|eauto].
  unfold audit_gzip_extra. destruct (has_bits (gz_flags e) GZIP_FLAG_EXTRA); [|case_match; eauto].
  destruct (gz_extra e) as [x|] eqn:Hx; cbn [ok_or]; [|eauto]. destruct (gt_extra _ T _ Hx).
  case_match; [eauto|]. destruct (exact_or s 10 2 _); [|eauto]. case_match; [eauto|].
  destruct (checked_range_end x _) as [stop|] eqn:Hend; [|eauto]. apply checked_range_end_ok in Hend as [-> _].
  breflect. destruct (gzip_subfields_return (offset x + len x) (S (Z.to_nat (len x)))
    {| sub_cursor := 12; sub_count := 0; sub_seen := [] |}) as [[count|f] ->]; [|case_match; eauto|eauto].
  cbn [sub_cursor]. lia.
Qed.

(** ** Copy-only 7z *)

Definition sevenz_payloads (ms : list IrMember) : list ByteRange :=
  filter (fun r => len r <> 0)
    (omap (fun m => match ir_evidence m with EvSevenZ e => Some (se_payload e) | _ => None end) ms).
Definition sevenz_typed (e : SevenZArchiveEvidence) : Prop :=
  Forall (fun sub => range_nonneg (ss_payload sub)) (concat (map sf_substreams (sa_folders e))).

Lemma sevenz_substreams_adjacent c subs c' :
  Forall (fun sub => range_nonneg (ss_payload sub)) subs ->
  audit_sevenz_substreams c subs = Ok c' -> adjacent c (map ss_payload subs) c'.
Proof using.
  clear. intros Ht. revert c. induction Ht as [|sub subs [_ Hl] _ IH]; intros c Ha; simpl in Ha.
  - by simplify_eq.
  - ok_steps Ha. breflect. apply checked_range_end_ok in Hs0 as [-> _]. simpl.
    match goal with H : offset _ = c |- _ => rewrite H in * end. split_and!; [done|done|by apply IH].
Qed.
Lemma sevenz_folders_adjacent c folders c' :
  Forall (fun sub => range_nonneg (ss_payload sub)) (concat (map sf_substreams folders)) ->
  audit_sevenz_folders s c folders = Ok c' ->
  adjacent c (map ss_payload (concat (map sf_substreams folders))) c'.
Proof using.
  clear Hs. revert c. induction folders as [|f folders IH]; intros c Ht Ha; simpl in Ha |- *.
  - by simplify_eq.
  - apply Forall_app in Ht as [H1' H2']. ok_steps Ha. rewrite map_app. apply adjacent_app. 
    match goal with H : audit_sevenz_folder s c f = Ok ?a |- _ =>
      exists a; split; [|by apply IH]; unfold audit_sevenz_folder in H; ok_steps H; simplify_eq end.
    breflect. subst. by apply sevenz_substreams_adjacent.
Qed.
Lemma sevenz_members_payloads empty ms subs rest :
  Forall (fun sub => len (ss_payload sub) <> 0) subs ->
  audit_sevenz_members empty ms subs = Ok rest ->
  exists used, subs = used ++ rest /\ map ss_payload used = sevenz_payloads ms.
Proof using.
  clear. revert subs. induction ms as [|m ms IH]; intros subs Hne Ha; simpl in Ha.
  - simplify_eq. by exists [].
  - destruct (ir_evidence m) eqn:Hev; try discriminate. unfold sevenz_payloads. cbn [omap list_omap]. rewrite Hev.
    rewrite filter_cons. destruct (len (se_payload evidence) =? 0) eqn:Hl; breflect.
    + rewrite decide_False by (by intros []). ok_step Ha. by apply IH in Ha.
    + destruct subs as [|sub subs]; [discriminate|]. ok_step Ha. apply Forall_cons in Hne as [_ Hne].
      apply IH in Ha as (used & -> & Hused); [|done]. exists (sub :: used). split; [done|]. breflect.
      rewrite decide_True by done. simpl. rewrite Hused.
      match goal with H : bool_decide (ss_payload sub = _) = true |- _ => apply bool_decide_eq_true in H; by rewrite H end.
Qed.

Lemma sevenz_substreams_nonempty c subs c' :
  audit_sevenz_substreams c subs = Ok c' -> Forall (fun sub => len (ss_payload sub) <> 0) subs.
Proof using.
  clear. revert c. induction subs as [|sub subs IH]; intros c Ha; simpl in Ha; [done|].
  ok_steps Ha. breflect. constructor; [done|by eapply IH].
Qed.
Lemma sevenz_folders_nonempty c folders c' :
  audit_sevenz_folders s c folders = Ok c' ->
  Forall (fun sub => len (ss_payload sub) <> 0) (concat (map sf_substreams folders)).
Proof using.
  clear Hs. revert c. induction folders as [|f folders IH]; intros c Ha; simpl in Ha |- *; [done|].
  ok_steps Ha. apply Forall_app. split; [|by eapply IH].
  match goal with H : audit_sevenz_folder s c f = Ok _ |- _ => unfold audit_sevenz_folder in H; ok_steps H end.
  by eapply sevenz_substreams_nonempty.
Qed.
Lemma sevenz_headers_end e :
  audit_sevenz_headers s e = Ok () ->
  range_nonneg (sa_next_header e) /\ offset (sa_next_header e) + len (sa_next_header e) = Z.of_nat (length bs).
Proof using Hs.
  intros Ha. unfold audit_sevenz_headers in Ha. ok_steps Ha. breflect.
  repeat match goal with
  | H : bool_decide (sa_next_header e = _) = true |- _ => apply bool_decide_eq_true in H; rename H into Hn
  | H : ok_or _ _ = Ok _ |- _ => apply ok_or_ok, u64_checked_add_Some in H as [-> _]
  | H : checked_range_end _ _ = Ok _ |- _ => apply checked_range_end_ok in H as [-> _]
  end.
  rewrite Hn in *. pose proof (represents_len _ _ Hs). unfold range_nonneg. cbn [offset len mkrange] in *.
  match goal with H : 32 + u64_at ?b 12 + _ = _ |- _ =>
    pose proof (u64_at_range b 12); pose proof (u64_at_range b 20) end. lia.
Qed.

(** C31: The wrapper audits determine their evidence.  For one source, length
    and digest of the derived stream, the gzip audit (which always returns)
    accepts at most one evidence, and so does the zstd audit; in an accepted
    one the header, the compressed payload and the trailer lie end to end over
    the whole source. *)
Theorem wrapper_audits_determine_evidence :
  (forall e, gzip_typed e ->
     (exists r, audit_gzip_wrapper_covering s e = Some r) /\
     (audit_gzip_wrapper_covering s e = Some (Ok ()) ->
      adjacent 0 [gz_header e; gz_compressed_payload e; gz_trailer e] (Z.of_nat (length bs)) /\
      forall e', gzip_typed e' -> audit_gzip_wrapper_covering s e' = Some (Ok ()) ->
        gz_derived_output_len e' = gz_derived_output_len e ->
        gz_derived_output_sha256 e' = gz_derived_output_sha256 e -> e' = e)) /\
  (forall e, zstd_typed e -> audit_zstd_wrapper_covering s e = Ok () ->
      adjacent 0 [zs_header e; zs_compressed_payload e; zs_trailer e] (Z.of_nat (length bs)) /\
      forall e', zstd_typed e' -> audit_zstd_wrapper_covering s e' = Ok () ->
        zs_derived_output_len e' = zs_derived_output_len e ->
        zs_derived_output_sha256 e' = zs_derived_output_sha256 e -> e' = e).
Proof using Hs.
  split.
  - intros e T. split; [by apply gzip_audit_returns|]. intros Ha. split; [|intros; by apply gzip_audit_determines].
    destruct (gzip_audit_words e T Ha) as [W _]. apply (gw_ranges _ W).
  - intros e T Ha. split; [|intros; by apply zstd_audit_determines].
    destruct (zstd_audit_words e T Ha) as [n W]. apply (zw_ranges _ _ W).
Qed.

(** C32: In a representation the 7z audit accepts, every byte of the source
    belongs to exactly one part: the 32-byte signature header, then the
    payloads of the members that have one, in their order, then the next
    header up to the end. *)
Theorem audit_sevenz_tiles ir e :
  sevenz_evidence ir = Some e -> sevenz_typed e -> audit_sevenz_covering s ir = Ok () ->
  let parts := mkrange 0 32 :: sevenz_payloads (members ir) ++ [sa_next_header e] in
  adjacent 0 parts (Z.of_nat (length bs))
  /\ tiles {| start := 0; end_ := Z.of_nat (length bs) |} (intervals parts).
Proof using Hs.
  intros He Ht Ha. unfold audit_sevenz_covering in Ha. rewrite He in Ha. cbn [ok_or] in Ha.
  ok_steps Ha. units. breflect. cbv zeta in *.
  match goal with H : audit_sevenz_headers s e = Ok _ |- _ => apply sevenz_headers_end in H as [[Ho Hl] Hend] end.
  match goal with H : (length ?l =? 0)%nat = true |- _ => apply Nat.eqb_eq, nil_length_inv in H as -> end.
  match goal with H : audit_sevenz_folders s 32 _ = Ok _ |- _ =>
    pose proof (sevenz_folders_nonempty _ _ _ H) as Hne; apply sevenz_folders_adjacent in H as Hadj; [|done] end.
  match goal with H : audit_sevenz_members _ _ _ = Ok _ |- _ =>
    apply sevenz_members_payloads in H as (used & Hsubs & Hused); [|done] end.
  rewrite app_nil_r in Hsubs. rewrite Hsubs, Hused in Hadj. subst.
  assert (Hparts : adjacent 0 (mkrange 0 32 :: sevenz_payloads (members ir) ++ [sa_next_header e]) (Z.of_nat (length bs))).
  { split; [done|]. split; [done|]. apply adjacent_app. exists (offset (sa_next_header e)). split; [done|]. by repeat split. }
  split; [done|by apply adjacent_tiles].
Qed.
End Audit.

(** ** What the xz audit leaves open *)

(** A stream of one block whose checksums are the lengths. *)
Definition xz_demo_bytes : list byte :=
  XZ_HEADER_MAGIC ++ [x00; x01; x02; x00; x00; x00]
    ++ [x02; x00; x21; x01; x08; x00; x00; x00; x08; x00; x00; x00]
    ++ [x01; x00; x00; x00] ++ [x00; x00; x00; x00]
    ++ [x00; x01; x14; x00; x04; x00; x00; x00]
    ++ [x06; x00; x00; x00; x01; x00; x00; x00; x00; x01] ++ XZ_FOOTER_MAGIC.
Definition xz_demo (dict_size : Z) : XzWrapperEvidence :=
  {| xz_check_id := 1; xz_header := mkrange 0 12;
     xz_blocks := [{| xb_header := mkrange 12 12; xb_compressed := mkrange 24 4; xb_padding := mkrange 28 0;
                      xb_check := mkrange 28 4; xb_dict_size := dict_size; xb_declared_compressed := None;
                      xb_declared_uncompressed := None; xb_uncompressed_len := 0;
                      xb_check_value := [x00; x00; x00; x00] |}];
     xz_index := mkrange 32 8; xz_footer := mkrange 40 12; xz_derived_output_len := 0;
     xz_derived_output_sha256 := replicate 64 x30 |}.

(** The filter properties of the block header are not read: two evidences that
    differ in the dictionary size both pass over one source. *)
Theorem xz_audit_leaves_dictionary :
  let audit := @audit_xz_wrapper_covering length_crc always_reserves (@borrowed null_sha256 None xz_demo_bytes) in
  audit (xz_demo 4096) = Some (Ok ()) /\ audit (xz_demo 1048576) = Some (Ok ()) /\ xz_demo 4096 <> xz_demo 1048576.
Proof. split_and!; [vm_compute; reflexivity|vm_compute; reflexivity|discriminate]. Qed.

(** ** Witnesses *)

Definition gzip_demo_bytes : list byte :=
  [x1f; x8b; x08; x08; x00; x00; x00; x00; x00; x03; x61; x00] ++ [x01; x02; x03]
    ++ [x05; x00; x00; x00; x02; x00; x00; x00].
Definition gzip_demo (name : option ByteRange) : GzipWrapperEvidence :=
  {| gz_flags := 8; gz_modification_time := 0; gz_extra_flags := 0; gz_operating_system := 3;
     gz_header := mkrange 0 12; gz_extra := None; gz_extra_subfield_count := 0; gz_original_name := name;
     gz_comment := None; gz_header_crc16 := None; gz_compressed_payload := mkrange 12 3; gz_trailer := mkrange 15 8;
     gz_declared_crc32 := 5; gz_declared_isize := 2; gz_derived_output_len := 2;
     gz_derived_output_sha256 := replicate 64 x30 |}.
(** A single-segment frame of two bytes with a checksum. *)
Definition zstd_demo_bytes : list byte :=
  [x28; xb5; x2f; xfd; x24; x02] ++ [x11; x00; x00] ++ [x05; x00; x00; x00].
Definition zstd_demo (checksum : option Z) : ZstdWrapperEvidence :=
  {| zs_descriptor := 36; zs_single_segment := true; zs_checksum_flag := true; zs_window_descriptor := None;
     zs_window_size := 2; zs_frame_content_size := Some 2; zs_header := mkrange 0 6;
     zs_compressed_payload := mkrange 6 3; zs_trailer := mkrange 9 4; zs_declared_checksum := checksum;
     zs_derived_output_len := 2; zs_derived_output_sha256 := replicate 64 x30 |}.
Lemma wrapper_audits_determine_evidence_witness :
  let gzip_audit := @audit_gzip_wrapper_covering length_crc always_reserves (@borrowed null_sha256 None gzip_demo_bytes) in
  let zstd_audit := audit_zstd_wrapper_covering (@borrowed null_sha256 None zstd_demo_bytes) in
  adjacent 0 [mkrange 0 12; mkrange 12 3; mkrange 15 8] 23
  /\ gzip_audit (gzip_demo (Some (mkrange 10 1))) <> Some (Ok ())
  /\ adjacent 0 [mkrange 0 6; mkrange 6 3; mkrange 9 4] 13
  /\ zstd_audit (zstd_demo None) <> Ok ().
Proof.
  assert (represents (@borrowed null_sha256 None gzip_demo_bytes) gzip_demo_bytes) as Hr.
  { apply reliable_represents, borrowed_reliable. vm_compute. discriminate. }
  destruct (@wrapper_audits_determine_evidence length_crc always_reserves _ _ Hr) as [Hg _].
  assert (forall n, 0 <= n -> gzip_typed (gzip_demo (Some (mkrange 10 n)))) as Ht.
  { intros n Hn. split; try (split; vm_compute; discriminate); intros r [= <-]; by split. }
  destruct (Hg _ (Ht 2 ltac:(lia))) as [_ [Ha Hu]]; [vm_compute; reflexivity|]. split; [exact Ha|].
  split; [intros Hbad; specialize (Hu _ (Ht 1 ltac:(lia)) Hbad eq_refl eq_refl); discriminate Hu|].
  assert (represents (@borrowed null_sha256 None zstd_demo_bytes) zstd_demo_bytes) as Hrz.
  { apply reliable_represents, borrowed_reliable. vm_compute. discriminate. }
  destruct (@wrapper_audits_determine_evidence length_crc always_reserves _ _ Hrz) as [_ Hz].
  assert (forall c, zstd_typed (zstd_demo c)) as Hzt by (intros c; split; split; vm_compute; discriminate).
  destruct (Hz _ (Hzt (Some 5))) as [Hza Hzu]; [vm_compute; reflexivity|]. split; [exact Hza|].
  intros Hbad. specialize (Hzu _ (Hzt None) Hbad eq_refl eq_refl). discriminate Hzu.
Defined.

Definition sevenz_demo_bytes : list byte :=
  SEVENZ_SIGNATURE ++ [x00; x04; x14; x00; x00; x00] ++ [x03; x00; x00; x00; x00; x00; x00; x00]
    ++ [x02; x00; x00; x00; x00; x00; x00; x00] ++ [x02; x00; x00; x00] ++ lit "abc" ++ [x01; x00].
Definition sevenz_demo_evidence : SevenZArchiveEvidence :=
  {| sa_version_minor := 4; sa_pack_region := mkrange 32 3; sa_next_header := mkrange 35 2; sa_next_header_crc := 2;
     sa_folders := [{| sf_pack_stream := mkrange 32 3; sf_pack_crc := Some 3; sf_unpack_size := 3; sf_folder_crc := None;
                       sf_substreams := [{| ss_payload := mkrange 32 1; ss_declared_crc := None |};
                                         {| ss_payload := mkrange 33 2; ss_declared_crc := None |}] |}];
     sa_name_region_bytes := 0; sa_dummy_bytes := 0 |}.
Definition sevenz_demo_member (off size : Z) : IrMember :=
  from_sevenz_planned {| sm_raw_name_bytes := lit "a"; sm_name := lit "a"; sm_is_dir := false; Evidence.sm_size := size;
                         sm_payload := mkrange off size; sm_declared_crc := None; sm_attributes := None; sm_mtime := None |}
    [lit "a"] [].
Definition sevenz_demo : ArchiveIR :=
  {| schema := "sealr.archive-ir.sevenz-copy.v1"; profile := "sealr.profile.sevenz.copy.v1"; profile_digest := []; source_digest := DigestUnavailable;
     evidence := ArSevenZ sevenz_demo_evidence;
     members := [sevenz_demo_member 32 1; sevenz_demo_member 35 0; sevenz_demo_member 33 2] |}.
Lemma audit_sevenz_tiles_witness :
  adjacent 0 [mkrange 0 32; mkrange 32 1; mkrange 33 2; mkrange 35 2] 37.
Proof.
  assert (represents (@borrowed null_sha256 None sevenz_demo_bytes) sevenz_demo_bytes) as Hr.
  { apply reliable_represents, borrowed_reliable. vm_compute. discriminate. }
  apply (@audit_sevenz_tiles length_crc always_reserves _ _ Hr sevenz_demo sevenz_demo_evidence).
  - reflexivity.
  - repeat constructor; vm_compute; discriminate.
  - vm_compute. reflexivity.
Defined.
