(* ===== verification/Planning.v ===== *)
(** * Planning the members of an archive ([apply.rs])

    The loops that turn parsed members into destinations: the caps on a
    declared size, the declared total, the jail, and the two maps of the
    destinations seen so far, by exact path and by case-folded path.  The TAR,
    PAX, GNU and 7z loops and the ZIP loop are one loop with the member's view,
    its first refusals and its path rule. *)

From S2P Require Import Prelude Utf8 Paths Findings Quota Ir Jail ZipRecords Tar TarGnu TarPax Evidence Policy.
Local Open Scope Z_scope.
Local Open Scope rust_scope.

(** ** Destinations seen so far *)

Record SeenPaths : Type := { dest_seen : BTreeMap bool; fold_seen : BTreeMap bool }.
Definition nothing_seen : SeenPaths := {| dest_seen := []; fold_seen := [] |}.
Definition see (joined fold : str) (is_dir : bool) (a : SeenPaths) : SeenPaths :=
  {| dest_seen := btree_insert joined is_dir (dest_seen a);
     fold_seen := btree_insert fold is_dir (fold_seen a) |}.

(** A file among the ancestors, or, for a file, the first path below it. *)
Definition path_conflict (seen : BTreeMap bool) (path : str) (is_dir : bool) : option str :=
  match List.find (fun ancestor => bool_decide (btree_get seen ancestor = Some false)) (ancestors path) with
  | Some ancestor => Some ancestor
  | None =>
      if is_dir then None
      else
        let prefix := path ++ lit "/" in
        match first_from prefix seen with
        | Some (candidate, _) => if bool_decide (prefix `prefix_of` candidate) then Some candidate else None
        | None => None
        end
  end.

(** The checks every loop makes on a jailed path; only the finding of an exact
    duplicate differs. *)
Definition admit_destination (dup : Finding) (name joined fold : str) (is_dir : bool) (a : SeenPaths) :
    result SeenPaths Finding :=
  reject contains_key (dest_seen a) joined with on dup name ;;
  reject contains_key (fold_seen a) fold with on (error PathCaseFold "case-fold collision") name ;;
  match path_conflict (dest_seen a) joined is_dir with
  | Some conflict =>
      Err (on (error PathConflict ("file/directory conflict with " +++ string_of_list_byte conflict)) name)
  | None =>
      match path_conflict (fold_seen a) fold is_dir with
      | Some conflict =>
          Err (on (error PathCaseFold
                     ("case-fold topology conflict with " +++ string_of_list_byte conflict)) name)
      | None => Ok (see joined fold is_dir a)
      end
  end.

(** ** TAR names *)

Record PreparedTarName : Type := {
  pn_name : str; pn_actions : list NormalizationAction; pn_archive_root : bool }.

(** [strip_suffix('/')]. *)
Definition strip_suffix_slash (s : str) : option str :=
  if ends_with_byte "/" s then Some (removelast s) else None.
(** The loop that strips leading dot-slash pairs. *)
Fixpoint strip_dot_slashes (rest : str) : str :=
  match rest with
  | a :: (b :: rest') as tail =>
      if bool_decide (a = "."%byte) && bool_decide (b = "/"%byte) then strip_dot_slashes rest' else a :: tail
  | _ => rest
  end.

Definition prepare_tar_member_name (name : str) (is_dir : bool) : PreparedTarName :=
  let '(stripped, actions) :=
    if is_dir then
      match strip_suffix_slash name with
      | Some without => (without, [StripDirectoryTrailingSlash])
      | None => (name, [])
      end
    else (name, []) in
  let rest := strip_dot_slashes stripped in
  if is_dir && (bool_decide (rest = []) || bool_decide (rest = lit "."))
  then {| pn_name := []; pn_actions := actions; pn_archive_root := true |}
  else {| pn_name := rest; pn_actions := actions; pn_archive_root := false |}.

Definition duplicate_destination : Finding := error PathConflict "duplicate destination path".

Section Paths.
Context `{!Unicode, !Allocator}.

(** What a path rule returns: the components and the normalisations. *)
Definition Placed : Type := list str * list NormalizationAction.

Definition admit_tar_path (name : str) (is_dir : bool) (max_depth : Z) (a : SeenPaths) :
    exec (SeenPaths * Placed) Finding :=
  let prepared := prepare_tar_member_name name is_dir in
  if pn_archive_root prepared then
    reject! contains_key (dest_seen a) [] with on duplicate_destination name ;;
    reject! contains_key (fold_seen a) [] with on (error PathCaseFold "case-fold collision") name ;;
    Some (Ok (see [] [] true a, ([], pn_actions prepared)))
  else
    let! j := exec_map_err (fun finding => on finding name)
                (jail_name_for_profile (pn_name prepared) max_depth PortableUtf8V1) in
    match portable_name_violation j with
    | Some detail => Some (Err (on (error PathInvalidChar detail) name))
    | None =>
        let joined := join_slash (components j) in
        let fold := profile_case_fold joined PortableUtf8V1 in
        let* a := admit_destination duplicate_destination name joined fold is_dir a in
        Some (Ok (a, (components j, pn_actions prepared ++ actions j)))
    end.

(** The tail of the ZIP loop's body and of the 7z loop's. *)
Definition admit_jailed (dup : Finding) (profile : ZipInterpretationProfile) (name jailed_name : str)
    (stripped : list NormalizationAction) (is_dir : bool) (max_depth : Z) (a : SeenPaths) :
    exec (SeenPaths * Placed) Finding :=
  let! j := jail_name_for_profile jailed_name max_depth profile in
  reject! bool_decide (profile = WheelUtf8V1) && negb (length (actions j) =? 0)%nat
    with on (error PathInvalidChar "wheel UTF-8 paths may not contain dot components") name ;;
  match (if bool_decide (profile = PortableUtf8V1) then portable_name_violation j else None) with
  | Some detail => Some (Err (on (error PathInvalidChar detail) name))
  | None =>
      let joined := join_slash (components j) in
      let fold := profile_case_fold joined profile in
      let* a := admit_destination dup name joined fold is_dir a in
      Some (Ok (a, (components j, stripped ++ actions j)))
  end.

(** ZIP records the strip of every directory; its names end in a slash. *)
Definition admit_zip_path (profile : ZipInterpretationProfile) (name : str) (is_dir : bool) (max_depth : Z) :
    SeenPaths -> exec (SeenPaths * Placed) Finding :=
  admit_jailed (error ZipDiffB1Dup "duplicate dest path") profile name
    (if is_dir then default name (strip_suffix_slash name) else name)
    (if is_dir then [StripDirectoryTrailingSlash] else []) is_dir max_depth.
Definition admit_sevenz_path (name : str) (is_dir : bool) (max_depth : Z) :
    SeenPaths -> exec (SeenPaths * Placed) Finding :=
  let stripped := if is_dir then strip_suffix_slash name else None in
  admit_jailed duplicate_destination PortableUtf8V1 name
    (default name stripped)
    (match stripped with Some _ => [StripDirectoryTrailingSlash] | None => [] end) is_dir max_depth.
End Paths.

(** ** The loop *)

(** What the loop reads of a parsed member. *)
Class Declared (A : Type) : Type := {
  dc_name : A -> str;
  dc_is_dir : A -> bool;
  dc_size : A -> Z;
  dc_stored : A -> Z
}.
#[export] Instance TarMember_declared : Declared TarMember :=
  {| dc_name := Tar.name; dc_is_dir := Tar.is_dir; dc_size := Tar.size; dc_stored := Tar.size |}.
#[export] Instance PaxMember_declared : Declared PaxMember :=
  {| dc_name := m_name; dc_is_dir := m_is_dir; dc_size := m_size; dc_stored := m_size |}.
#[export] Instance GnuLongNameMember_declared : Declared GnuLongNameMember :=
  {| dc_name := g_name; dc_is_dir := g_is_dir; dc_size := g_size; dc_stored := g_size |}.
#[export] Instance SevenZMember_declared : Declared SevenZMember :=
  {| dc_name := sm_name; dc_is_dir := sm_is_dir; dc_size := sm_size; dc_stored := sm_size |}.
#[export] Instance ZipMember_declared : Declared ZipMember :=
  {| dc_name := zm_name; dc_is_dir := zm_is_dir; dc_size := zm_uncomp_size; dc_stored := zm_comp_size |}.

Section Loop.
Context {A : Type} `{!Declared A}.
(** The refusals before the caps, and the path rule. *)
Variable refuse : A -> option Finding.
Variable enrol : A -> SeenPaths -> exec (SeenPaths * Placed) Finding.
Variable budget : ResourceBudget.

Record PlanState : Type := {
  ps_findings : list Finding;
  ps_planned : list (A * list str * list NormalizationAction);
  ps_admitted : SeenPaths;
  ps_declared_total : QuotaState
}.
Definition plan_start : PlanState :=
  {| ps_findings := []; ps_planned := []; ps_admitted := nothing_seen;
     ps_declared_total := Quota.new (max_total_bytes budget) |}.
Definition push_finding (f : Finding) (st : PlanState) : PlanState :=
  {| ps_findings := ps_findings st ++ [f]; ps_planned := ps_planned st;
     ps_admitted := ps_admitted st; ps_declared_total := ps_declared_total st |}.
Definition charged (q : QuotaState) (st : PlanState) : PlanState :=
  {| ps_findings := ps_findings st; ps_planned := ps_planned st;
     ps_admitted := ps_admitted st; ps_declared_total := q |}.
Definition push_planned (m : A) (p : Placed) (a : SeenPaths) (st : PlanState) : PlanState :=
  {| ps_findings := ps_findings st; ps_planned := ps_planned st ++ [(m, p.1, p.2)];
     ps_admitted := a; ps_declared_total := ps_declared_total st |}.

(** [continue], or the end of the body, and [break]. *)
Inductive Flow : Type := Next (st : PlanState) | Break (st : PlanState).

Definition over_ratio (m : A) : option Finding :=
  match max_ratio budget with
  | Some r =>
      if ratio_exceeds (dc_size m) (dc_stored m) r
      then Some (error QuotaRatio ("declared " +++ fmt_dec (dc_size m) +++ ":" +++ fmt_dec (dc_stored m)
                                     +++ " exceeds " +++ fmt_dec r +++ ":1"))
      else None
  | None => None
  end.

Definition plan_step (st : PlanState) (m : A) : option Flow :=
  match refuse m with
  | Some f => Some (Next (push_finding (on f (dc_name m)) st))
  | None =>
      if max_member_bytes budget <? dc_size m
      then Some (Next (push_finding (on (error QuotaMember "declared member too large") (dc_name m)) st))
      else
        match over_ratio m with
        | Some f => Some (Next (push_finding (on f (dc_name m)) st))
        | None =>
            let '(q, r) := consume (ps_declared_total st) (dc_size m) in
            let st := charged q st in
            match r with
            | Err Overflow =>
                Some (Break (push_finding
                  (error QuotaOverflow "declared uncompressed total overflowed u64") st))
            | Err (Exceeded _ _) =>
                Some (Break (push_finding (error QuotaTotal "declared total too large") st))
            | Ok _ =>
                match enrol m (ps_admitted st) with
                | None => None
                | Some (Err f) => Some (Next (push_finding f st))
                | Some (Ok (a, placed)) => Some (Next (push_planned m placed a st))
                end
            end
        end
  end.

(** [None] is a panic of the path rule. *)
Fixpoint plan_loop (st : PlanState) (ms : list A) : option PlanState :=
  match ms with
  | [] => Some st
  | m :: ms =>
      match plan_step st m with
      | None => None
      | Some (Break st) => Some st
      | Some (Next st) => plan_loop st ms
      end
  end.
End Loop.
Arguments PlanState : clear implicits.

Definition ZIP_ENCRYPTION_FLAGS : Z := Z.lor (Z.shiftl 1 0) (Z.lor (Z.shiftl 1 6) (Z.shiftl 1 13)).
(** [format!("{:04x}")]. *)
Definition fmt_hex4 (z : Z) : string :=
  let digits := fmt_radix 16 z in
  string_of_list_byte (replicate (4 - String.length digits) x30) +++ digits.

Definition refuse_zip (m : ZipMember) : option Finding :=
  if negb (Z.land (zm_flags m) ZIP_ENCRYPTION_FLAGS =? 0)
  then Some (error ZipEncrypted
               ("encryption-related general-purpose flags 0x" +++ fmt_hex4 (zm_flags m)))
  else if negb (zm_method m =? 0) && negb (zm_method m =? 8)
  then Some (error MethodUnsupported ("method " +++ fmt_dec (zm_method m)))
  else None.
Definition refuse_none {A} (_ : A) : option Finding := None.

Section Loops.
Context `{!Unicode, !Allocator}.

(** The member loop of [plan_tar_domains], [plan_tar_pax],
    [plan_tar_gnu_longname]. *)
Definition plan_tar_members {A} `{!Declared A} (budget : ResourceBudget) (ms : list A) :
    option (PlanState A) :=
  plan_loop refuse_none (fun m => admit_tar_path (dc_name m) (dc_is_dir m) (max_path_depth budget))
    budget (plan_start budget) ms.
(** The member loop of [apply_sevenz_with_options]. *)
Definition plan_sevenz_members (budget : ResourceBudget) (ms : list SevenZMember) :
    option (PlanState SevenZMember) :=
  plan_loop refuse_none (fun m => admit_sevenz_path (dc_name m) (dc_is_dir m) (max_path_depth budget))
    budget (plan_start budget) ms.
(** The member loop of [plan_snapshot]. *)
Definition plan_zip_members (profile : ZipInterpretationProfile) (budget : ResourceBudget)
    (ms : list ZipMember) : option (PlanState ZipMember) :=
  plan_loop refuse_zip (fun m => admit_zip_path profile (dc_name m) (dc_is_dir m) (max_path_depth budget))
    budget (plan_start budget) ms.
End Loops.
