(* ===== verification/PlanSafe.v ===== *)
(** * What a plan guarantees ([apply.rs])

    A declarative account of the member plans the loops accept: every cap is
    respected, every name resolves, and the destinations, exact and folded,
    form a tree.  The loops are proved to accept exactly those. *)

From S2P Require Import Prelude Utf8 Paths Findings Quota Snapshot Ir Jail JailSafe ZipRecords Tar Evidence Policy Planning.
Local Open Scope Z_scope.
Local Open Scope rust_scope.

(** ** Trees of destinations *)

(** No path twice, and no file above another path. *)
Record is_tree (l : list (str * bool)) : Prop := {
  tree_unique : NoDup (map fst l);
  tree_topology : forall p q d, (p, false) ∈ l -> (q, d) ∈ l -> ~ ancestor_of p q
}.

Lemma is_tree_nil : is_tree [].
Proof. split; [constructor|]. by intros p q d ?%elem_of_nil. Qed.

(** What one more path must satisfy. *)
Record fits_tree (l : list (str * bool)) (p : str) (is_dir : bool) : Prop := {
  fits_new : p ∉ map fst l;
  fits_above : forall a, ancestor_of a p -> (a, false) ∉ l;
  fits_below : is_dir = false -> forall q d, (q, d) ∈ l -> ~ ancestor_of p q
}.

Lemma is_tree_snoc l p is_dir :
  is_tree (l ++ [(p, is_dir)]) <-> is_tree l /\ fits_tree l p is_dir.
Proof.
  split.
  - intros [Hu Ht]. rewrite map_app in Hu. apply NoDup_app in Hu as (Hu & Hd & _).
    assert (forall x, x ∈ l -> x ∈ l ++ [(p, is_dir)]) as Hl by (intros; apply elem_of_app; by left).
    assert ((p, is_dir) ∈ l ++ [(p, is_dir)]) as Hp by (apply elem_of_app; right; by apply list_elem_of_singleton).
    split; split; [done|by eauto| | |].
    + intros Hin. apply (Hd _ Hin). by apply list_elem_of_singleton.
    + intros a Ha Hin. eapply Ht; [by apply Hl|exact Hp|done].
    + intros -> q d Hq. eapply Ht; [exact Hp|by apply Hl].
  - intros [[Hu Ht] [Hn Ha Hb]]. split.
    + rewrite map_app. apply NoDup_app. split_and!; [done| |apply NoDup_singleton].
      by intros x Hx ->%list_elem_of_singleton.
    + intros q r d. rewrite !elem_of_app, !list_elem_of_singleton.
      intros [Hq|[= -> <-]] [Hr|[= -> ->]] Hanc; [by eapply Ht|by eapply Ha|by eapply Hb|].
      by eapply ancestor_of_irreflexive.
Qed.

(** ** The maps and the lists they stand for *)

Definition stands_for (m : BTreeMap bool) (l : list (str * bool)) : Prop :=
  btree_sorted m /\ forall e, e ∈ m <-> e ∈ l.

Lemma stands_for_nil : stands_for [] [].
Proof. split; [constructor|done]. Qed.

Lemma stands_for_contains m l p : stands_for m l -> contains_key m p = true <-> p ∈ map fst l.
Proof.
  intros [Hs He]. unfold contains_key. rewrite bool_decide_eq_true. split.
  - intros [d Hd]. apply btree_get_elem in Hd; [|done]. apply He in Hd. by apply (list_elem_of_fmap_2 fst) in Hd.
  - intros ([q d] & -> & Hq)%list_elem_of_fmap. apply He in Hq. exists d. by apply btree_get_elem.
Qed.

Lemma stands_for_insert m l p d :
  stands_for m l -> p ∉ map fst l -> stands_for (btree_insert p d m) (l ++ [(p, d)]).
Proof.
  intros [Hs He] Hn. split; [by apply btree_insert_sorted|]. intros e.
  rewrite (btree_insert_elem _ _ _ _ Hs), elem_of_app, list_elem_of_singleton, He. split.
  - intros [->|[? _]]; [by right|by left].
  - intros [Hin| ->]; [|by left]. right. split; [done|]. intros <-. apply Hn. by apply list_elem_of_fmap_2.
Qed.

Lemma path_conflict_none m l p is_dir :
  stands_for m l ->
  path_conflict m p is_dir = None <->
  (forall a, ancestor_of a p -> (a, false) ∉ l)
  /\ (is_dir = false -> forall q d, (q, d) ∈ l -> ~ ancestor_of p q).
Proof.
  intros [Hs He]. unfold path_conflict.
  destruct (List.find _ (ancestors p)) as [a|] eqn:Hf.
  - apply List.find_some in Hf as [Ha Hg]. apply bool_decide_eq_true in Hg.
    split; [done|]. intros [Habove _]. exfalso. apply (Habove a).
    + apply ancestors_spec. by apply list_elem_of_In.
    + apply He. by apply btree_get_elem.
  - assert (forall a, ancestor_of a p -> (a, false) ∉ l) as Habove.
    { intros a Ha Hin. apply ancestors_spec, list_elem_of_In in Ha.
      eapply List.find_none in Ha; [|exact Hf]. apply bool_decide_eq_false in Ha.
      apply Ha. apply btree_get_elem; [done|by apply He]. }
    destruct is_dir; [split; [by intros _|done]|].
    pose proof (first_from_spec (p ++ lit "/") m Hs) as Hff.
    assert ((exists e, e ∈ m /\ p ++ lit "/" `prefix_of` e.1) <-> exists q d, (q, d) ∈ l /\ ancestor_of p q) as Hex.
    { split.
      - intros ([q d] & Hin & Hp). exists q, d. split; [by apply He|by apply ancestor_of_prefix].
      - intros (q & d & Hin & Ha). exists (q, d). split; [by apply He|by apply ancestor_of_prefix]. }
    rewrite Hex in Hff. destruct (first_from _ m) as [[c d]|]; simpl.
    + case_bool_decide as Hp; (split; [|intros [_ Hbelow]; try done]).
      * done.
      * exfalso. destruct (proj1 Hff) as (q & d' & Hq & Ha); [by exists (c, d)|]. by eapply Hbelow.
      * intros _. split; [done|]. intros _ q d' Hq Ha.
        destruct (proj2 Hff) as (e & [= <-] & He'); [by eauto|]. done.
    + split; [|done]. intros _. split; [done|]. intros _ q d' Hq Ha.
      destruct (proj2 Hff) as (e & ? & _); [by eauto|]. done.
Qed.

(** The two maps of a loop. *)
Definition tracks (a : SeenPaths) (dests folds : list (str * bool)) : Prop :=
  stands_for (dest_seen a) dests /\ stands_for (fold_seen a) folds.

Lemma admit_destination_ok dup name joined fold is_dir a dests folds a' :
  tracks a dests folds ->
  admit_destination dup name joined fold is_dir a = Ok a' <->
  a' = see joined fold is_dir a /\ fits_tree dests joined is_dir /\ fits_tree folds fold is_dir.
Proof.
  intros [Hd Hf]. unfold admit_destination.
  pose proof (stands_for_contains _ _ joined Hd) as Hcd.
  pose proof (stands_for_contains _ _ fold Hf) as Hcf.
  pose proof (path_conflict_none _ _ joined is_dir Hd) as Hpd.
  pose proof (path_conflict_none _ _ fold is_dir Hf) as Hpf.
  destruct (contains_key (dest_seen a) joined).
  { split; [done|]. intros (_ & [Hn _ _] & _). destruct Hn. by apply Hcd. }
  destruct (contains_key (fold_seen a) fold).
  { split; [done|]. intros (_ & _ & [Hn _ _]). destruct Hn. by apply Hcf. }
  destruct (path_conflict (dest_seen a) joined is_dir).
  { split; [done|]. intros (_ & [_ Ha Hb] & _). discriminate (proj2 Hpd (conj Ha Hb)). }
  destruct (path_conflict (fold_seen a) fold is_dir).
  { split; [done|]. intros (_ & _ & [_ Ha Hb]). discriminate (proj2 Hpf (conj Ha Hb)). }
  destruct (proj1 Hpd eq_refl) as [Ha Hb]. destruct (proj1 Hpf eq_refl) as [Ha' Hb'].
  split; [|by intros [-> _]]. intros [= <-]. split_and!; [done| |].
  - split; [|done..]. intros Hin. by apply Hcd in Hin.
  - split; [|done..]. intros Hin. by apply Hcf in Hin.
Qed.

Lemma tracks_see joined fold is_dir a dests folds :
  tracks a dests folds -> joined ∉ map fst dests -> fold ∉ map fst folds ->
  tracks (see joined fold is_dir a) (dests ++ [(joined, is_dir)]) (folds ++ [(fold, is_dir)]).
Proof. intros [Hd Hf] Hn Hm. by split; apply stands_for_insert. Qed.

Lemma is_tree_app l1 l2 : is_tree (l1 ++ l2) -> is_tree l1.
Proof.
  intros [Hu Ht]. rewrite map_app in Hu. apply NoDup_app in Hu as (Hu & _ & _).
  split; [done|]. intros p q d Hp Hq. eapply Ht; apply elem_of_app; left; [exact Hp|exact Hq].
Qed.

(** ** Plans *)

Definition joined_of {A} (p : A * list str * list NormalizationAction) : str := join_slash p.1.2.

Section Plans.
Context {A : Type} `{!Declared A}.
Variable refuse : A -> option Finding.
(** Where a member's name leads, with its normalisations. *)
Variable resolves : A -> Placed -> Prop.
Variable fold_key : list str -> str.
Variable budget : ResourceBudget.

Local Abbreviation plan := (A * list str * list NormalizationAction)%type.

Definition dests (planned : list plan) : list (str * bool) :=
  map (fun p => (joined_of p, dc_is_dir p.1.1)) planned.
Definition folds (planned : list plan) : list (str * bool) :=
  map (fun p => (fold_key p.1.2, dc_is_dir p.1.1)) planned.
Definition declared_total (planned : list plan) : Z := foldr Z.add 0 (map (fun p => dc_size p.1.1) planned).

Record member_plan_ok (m : A) (p : plan) : Prop := {
  mp_member : p.1.1 = m;
  mp_accepted : refuse m = None;
  mp_size : dc_size m <= max_member_bytes budget;
  mp_ratio : forall r, max_ratio budget = Some r -> ratio_exceeds (dc_size m) (dc_stored m) r = false;
  mp_path : resolves m (p.1.2, p.2)
}.

Record plan_ok (ms : list A) (planned : list plan) : Prop := {
  po_members : Forall2 member_plan_ok ms planned;
  po_total : declared_total planned <= max_total_bytes budget;
  po_dests : is_tree (dests planned);
  po_folds : is_tree (folds planned)
}.

Lemma plan_ok_kept ms planned : plan_ok ms planned -> map (fun p => p.1.1) planned = ms.
Proof.
  intros [Hm _ _ _]. induction Hm as [|m p ms ps Hp _ IH]; simpl; [done|]. by rewrite IH, (mp_member _ _ Hp).
Qed.

Lemma declared_total_snoc planned p :
  declared_total (planned ++ [p]) = declared_total planned + dc_size p.1.1.
Proof.
  unfold declared_total. rewrite map_app, foldr_app. simpl. generalize (dc_size p.1.1). clear.
  intros z. induction planned as [|q planned IH]; simpl; [lia|]. rewrite IH. lia.
Qed.

(** What a path rule must satisfy: it resolves the name on its own, and adds
    the result to what was seen. *)
Variable enrol : A -> SeenPaths -> exec (SeenPaths * Placed) Finding.
Definition path_rule : Prop := forall m a a' (placed : Placed),
  enrol m a = Some (Ok (a', placed)) <->
  resolves m placed /\
  exists dup, admit_destination dup (dc_name m) (join_slash placed.1) (fold_key placed.1) (dc_is_dir m) a
              = Ok a'.

Hypothesis rule : path_rule.
Hypothesis cap : is_u64 (max_total_bytes budget).

(** The state after a run without a finding. *)
Record clean (st : PlanState A) (planned : list plan) : Prop := {
  cl_findings : ps_findings st = [];
  cl_planned : ps_planned st = planned;
  cl_seen : tracks (ps_admitted st) (dests planned) (folds planned);
  cl_total : ps_declared_total st
             = {| used := declared_total planned; limit := max_total_bytes budget |};
  cl_cap : declared_total planned <= max_total_bytes budget;
  cl_dests : is_tree (dests planned);
  cl_folds : is_tree (folds planned)
}.

Definition flow_state (f : Flow) : PlanState A := match f with Next st | Break st => st end.

Lemma declared_total_nonneg ms planned :
  Forall2 member_plan_ok ms planned -> Forall (fun m => 0 <= dc_size m) ms -> 0 <= declared_total planned.
Proof.
  unfold declared_total. induction 1 as [|m p ms planned [Hp _ _ _ _] _ IH]; intros Hs; simpl; [lia|].
  apply Forall_cons in Hs as [Hm Hs]. rewrite Hp. specialize (IH Hs). lia.
Qed.

Lemma over_ratio_none m :
  over_ratio budget m = None <->
  forall r, max_ratio budget = Some r -> ratio_exceeds (dc_size m) (dc_stored m) r = false.
Proof.
  unfold over_ratio. destruct (max_ratio budget) as [r|]; [|done].
  destruct (ratio_exceeds _ _ r) eqn:E; (split; [|try done]).
  - done.
  - intros Hr. by rewrite (Hr r eq_refl) in E.
  - by intros _ r' [= <-].
Qed.

Lemma push_finding_ne f (st : PlanState A) : ps_findings (push_finding f st) <> [].
Proof. simpl. by intros [_ ?]%app_nil. Qed.

(** One member accepted: what it needs, and the state it leaves. *)
Lemma clean_snoc st planned m p (placed : Placed) :
  clean st planned -> p = (m, placed.1, placed.2) ->
  declared_total (planned ++ [p]) <= max_total_bytes budget ->
  fits_tree (dests planned) (join_slash placed.1) (dc_is_dir m) ->
  fits_tree (folds planned) (fold_key placed.1) (dc_is_dir m) ->
  clean (push_planned m placed (see (join_slash placed.1) (fold_key placed.1) (dc_is_dir m) (ps_admitted st))
           (charged {| used := declared_total (planned ++ [p]); limit := max_total_bytes budget |} st))
    (planned ++ [p]).
Proof.
  intros [Hf Hp Hs _ _ Hd Hfd] -> Ht Hfit1 Hfit2. split; simpl; [done|by rewrite Hp| |done|done| |];
    unfold dests, folds; rewrite ?map_app; simpl.
  - apply tracks_see; [done|apply Hfit1|apply Hfit2].
  - by apply is_tree_snoc.
  - by apply is_tree_snoc.
Qed.

Lemma consume_total planned m p :
  p.1.1 = m -> declared_total planned <= max_total_bytes budget ->
  declared_total (planned ++ [p]) <= max_total_bytes budget ->
  consume {| used := declared_total planned; limit := max_total_bytes budget |} (dc_size m)
  = ({| used := declared_total (planned ++ [p]); limit := max_total_bytes budget |},
     Ok (declared_total (planned ++ [p]))).
Proof.
  intros <- Hle Hle'. rewrite declared_total_snoc in *. unfold consume. simpl.
  rewrite u64_checked_add_le by (unfold is_u64 in cap; lia).
  by rewrite (proj2 (Z.ltb_ge _ _)) by lia.
Qed.

Lemma plan_step_sound st planned m fl :
  clean st planned -> plan_step refuse enrol budget st m = Some fl -> ps_findings (flow_state fl) = [] ->
  exists p st', fl = Next st' /\ member_plan_ok m p /\ clean st' (planned ++ [p]).
Proof.
  intros Hst. pose proof Hst as [Hf Hp Hs Ht Hcap Hd Hfd]. unfold plan_step.
  destruct (refuse m) as [f|] eqn:Hr; [intros [= <-] E; by apply push_finding_ne in E|].
  destruct (Z.ltb_spec (max_member_bytes budget) (dc_size m)) as [_|Hsize];
    [intros [= <-] E; by apply push_finding_ne in E|].
  destruct (over_ratio budget m) as [f|] eqn:Hratio; [intros [= <-] E; by apply push_finding_ne in E|].
  rewrite Ht. unfold consume. simpl.
  destruct (u64_checked_add _ _) as [next|] eqn:Hadd;
    [|intros [= <-] E; by apply push_finding_ne in E].
  apply u64_checked_add_Some in Hadd as [-> _].
  destruct (Z.ltb_spec (max_total_bytes budget) (declared_total planned + dc_size m)) as [_|Htotal];
    [intros [= <-] E; by apply push_finding_ne in E|].
  destruct (enrol m (ps_admitted st)) as [[[a placed]|f]|] eqn:Hadm;
    [|intros [= <-] E; by apply push_finding_ne in E|done].
  intros [= <-] _. apply rule in Hadm as (Hres & dup & Hadm).
  apply (admit_destination_ok _ _ _ _ _ _ (dests planned) (folds planned)) in Hadm as (-> & Hf1 & Hf2); [|done].
  set (p := (m, placed.1, placed.2)).
  assert (declared_total planned + dc_size m = declared_total (planned ++ [p])) as E
    by (by rewrite declared_total_snoc).
  rewrite E in *. exists p. eexists. split_and!; [done| |by apply clean_snoc].
  split; [done..|by apply over_ratio_none|]. by destruct placed.
Qed.

Lemma plan_step_complete st planned m p :
  clean st planned -> member_plan_ok m p -> 0 <= dc_size m ->
  declared_total (planned ++ [p]) <= max_total_bytes budget ->
  is_tree (dests (planned ++ [p])) -> is_tree (folds (planned ++ [p])) ->
  exists st', plan_step refuse enrol budget st m = Some (Next st') /\ clean st' (planned ++ [p]).
Proof.
  intros Hst Hm Hsizes Htotal Htree1 Htree2. pose proof Hst as [Hf Hp Hs Ht Hcap Hd Hfd].
  destruct Hm as [Hpm Hr Hsize Hratio Hres]. pose proof (declared_total_snoc planned p) as E.
  unfold dests, folds in Htree1, Htree2. rewrite map_app in Htree1, Htree2.
  apply is_tree_snoc in Htree1 as [_ Hfit1]. apply is_tree_snoc in Htree2 as [_ Hfit2]. rewrite Hpm in *.
  unfold plan_step. rewrite Hr, (proj2 (Z.ltb_ge _ _) Hsize), (proj2 (over_ratio_none m) Hratio), Ht.
  rewrite (consume_total planned m p) by (done || lia).
  set (a' := see (join_slash p.1.2) (fold_key p.1.2) (dc_is_dir m) (ps_admitted st)).
  assert (enrol m (ps_admitted st) = Some (Ok (a', (p.1.2, p.2)))) as Hadm.
  { apply rule. split; [done|]. exists (error PathConflict ""). simpl.
    by apply (admit_destination_ok _ _ _ _ _ _ (dests planned) (folds planned)). }
  simpl. rewrite Hadm. eexists. split; [done|]. apply (clean_snoc st planned m p (p.1.2, p.2)); try done.
  destruct p as [[? ?] ?]. simpl in *. by subst.
Qed.

Lemma plan_loop_findings st ms st' :
  plan_loop refuse enrol budget st ms = Some st' -> ps_findings st' = [] -> ps_findings st = [].
Proof.
  revert st. induction ms as [|m ms IH]; intros st; simpl; [by intros [= ->]|].
  destruct (plan_step refuse enrol budget st m) as [[st1|st1]|] eqn:Hstep; [|intros [= ->] Hst'|done].
  - intros Hl Hst'. specialize (IH _ Hl Hst'). revert Hstep. unfold plan_step.
    repeat case_match; intros [= <-]; try (by apply push_finding_ne in IH); done.
  - revert Hstep. unfold plan_step.
    repeat case_match; intros [= <-]; by apply push_finding_ne in Hst'.
Qed.

Lemma plan_loop_sound st planned ms st' :
  clean st planned -> plan_loop refuse enrol budget st ms = Some st' -> ps_findings st' = [] ->
  exists new, Forall2 member_plan_ok ms new /\ clean st' (planned ++ new).
Proof.
  revert st planned. induction ms as [|m ms IH]; intros st planned Hst; simpl.
  - intros [= <-] _. exists []. by rewrite app_nil_r.
  - destruct (plan_step refuse enrol budget st m) as [fl|] eqn:Hstep; [|done]. intros Hl Hst'.
    assert (ps_findings (flow_state fl) = []) as Hfl.
    { destruct fl as [st1|st1]; simpl; [by eapply plan_loop_findings|by simplify_eq]. }
    destruct (plan_step_sound _ _ _ _ Hst Hstep Hfl) as (p & st1 & -> & Hm & Hst1).
    destruct (IH _ _ Hst1 Hl Hst') as (new & Hnew & Hcl). exists (p :: new).
    split; [by constructor|]. by rewrite <- app_assoc in Hcl.
Qed.

Lemma plan_loop_complete st planned ms new :
  clean st planned -> Forall2 member_plan_ok ms new -> Forall (fun m => 0 <= dc_size m) ms ->
  declared_total (planned ++ new) <= max_total_bytes budget ->
  is_tree (dests (planned ++ new)) -> is_tree (folds (planned ++ new)) ->
  exists st', plan_loop refuse enrol budget st ms = Some st' /\ clean st' (planned ++ new).
Proof.
  intros Hst Hnew. revert st planned Hst.
  induction Hnew as [|m p ms new Hm Hnew IH]; intros st planned Hst Hsizes Htot Hd Hf; simpl.
  - exists st. by rewrite app_nil_r.
  - apply Forall_cons in Hsizes as [Hsize Hsizes]. rewrite (cons_middle p planned new), app_assoc in *.
    destruct (plan_step_complete st planned m p Hst Hm Hsize) as (st1 & -> & Hst1).
    + revert Htot. unfold declared_total. rewrite (map_app _ (planned ++ [p])), foldr_app.
      pose proof (declared_total_nonneg _ _ Hnew Hsizes) as Hn. unfold declared_total in Hn. revert Hn.
      generalize (foldr Z.add 0 (map (fun q : plan => dc_size q.1.1) new)). intros z Hz.
      generalize (map (fun q : plan => dc_size q.1.1) (planned ++ [p])). intros l Hl.
      enough (foldr Z.add 0 l <= foldr Z.add z l) by lia. clear Hl. induction l; simpl; lia.
    + revert Hd. unfold dests. rewrite map_app. apply is_tree_app.
    + revert Hf. unfold folds. rewrite map_app. apply is_tree_app.
    + by apply IH.
Qed.

Lemma plan_start_clean : clean (plan_start budget) [].
Proof.
  split; try done; try apply is_tree_nil; [split; apply stands_for_nil|].
  unfold is_u64 in cap. unfold declared_total. simpl. lia.
Qed.

Lemma plan_loop_plan_ok ms st :
  plan_loop refuse enrol budget (plan_start budget) ms = Some st -> ps_findings st = [] ->
  plan_ok ms (ps_planned st).
Proof.
  intros Hl Hf. destruct (plan_loop_sound _ _ _ _ plan_start_clean Hl Hf) as (new & Hnew & Hcl).
  simpl in Hcl. destruct Hcl as [_ Hp _ _ Hcap Hd Hfd]. rewrite Hp. by split.
Qed.

Lemma plan_ok_plan_loop ms planned :
  Forall (fun m => 0 <= dc_size m) ms -> plan_ok ms planned ->
  exists st, plan_loop refuse enrol budget (plan_start budget) ms = Some st
             /\ ps_findings st = [] /\ ps_planned st = planned.
Proof.
  intros Hsizes [Hm Ht Hd Hf].
  destruct (plan_loop_complete _ [] ms planned plan_start_clean Hm Hsizes Ht Hd Hf) as (st & Hl & Hcl).
  exists st. split; [done|]. split; [by apply (cl_findings _ _ Hcl)|by apply (cl_planned _ _ Hcl)].
Qed.
End Plans.

Lemma plan_ok_impl {A} `{!Declared A} refuse (P Q : A -> Placed -> Prop) fold_key budget ms planned :
  (forall m p, P m p -> Q m p) ->
  plan_ok refuse P fold_key budget ms planned -> plan_ok refuse Q fold_key budget ms planned.
Proof.
  intros Himp [Hm Ht Hd Hf]. split; [|done..]. eapply Forall2_impl; [exact Hm|].
  intros m p [H1 H2 H3 H4 H5]. split; auto.
Qed.

(** ** The path rules *)

Section Rules.
Context `{!Unicode}.

(** The portable profile's own conditions. *)
Record portable_public (raw : str) : Prop := {
  pb_dots : dot_positions 0 (split_on "/" raw) = [];
  pb_public : Forall (fun c => not_public c = false) (concat (map str_chars (kept raw)));
  pb_utf8 : Forall (fun c => Z.of_nat (length c) <= PORTABLE_NAME_MAX_COMPONENT_UTF8_BYTES) (kept raw);
  pb_utf16 : Forall (fun c => utf16_units c <= PORTABLE_NAME_MAX_COMPONENT_UTF16_UNITS) (kept raw)
}.

Lemma existsb_false_Forall {X} (f : X -> bool) l : existsb f l = false <-> Forall (fun x => f x = false) l.
Proof.
  induction l as [|x l IH]; simpl; [by split; [constructor|]|].
  rewrite orb_false_iff, Forall_cons, IH. done.
Qed.

Lemma portable_name_violation_none raw :
  portable_name_violation (jailed raw) = None <-> portable_public raw.
Proof.
  unfold portable_name_violation, jailed. cbn [components actions]. rewrite length_map.
  split.
  - destruct (length _ =? 0)%nat eqn:Hd; simpl; [|done].
    destruct (existsb not_public _) eqn:Hp; [done|].
    destruct (existsb (fun c => PORTABLE_NAME_MAX_COMPONENT_UTF8_BYTES <? _) _) eqn:H8; [done|].
    destruct (existsb (fun c => PORTABLE_NAME_MAX_COMPONENT_UTF16_UNITS <? _) _) eqn:H16; [done|]. intros _.
    apply existsb_false_Forall in Hp, H8, H16. apply Nat.eqb_eq, nil_length_inv in Hd. split; [done..| |].
    + eapply Forall_impl; [exact H8|]. intros c Hc. by apply Z.ltb_ge.
    + eapply Forall_impl; [exact H16|]. intros c Hc. by apply Z.ltb_ge.
  - intros [-> Hp H8 H16]. simpl. rewrite (proj2 (existsb_false_Forall _ _) Hp).
    rewrite !(proj2 (existsb_false_Forall _ _)); [done| |].
    + eapply Forall_impl; [exact H16|]. intros c Hc. by apply Z.ltb_ge.
    + eapply Forall_impl; [exact H8|]. intros c Hc. by apply Z.ltb_ge.
Qed.

(** Where a TAR name leads. *)
Definition tar_placed (name : str) (is_dir : bool) (max_depth : Z) (placed : Placed) : Prop :=
  let prepared := prepare_tar_member_name name is_dir in
  if pn_archive_root prepared then placed = ([], pn_actions prepared)
  else name_ok (pn_name prepared) max_depth PortableUtf8V1 /\ portable_public (pn_name prepared)
       /\ placed = (kept (pn_name prepared), pn_actions prepared).
(** The archive root's key is the empty path. *)
Definition tar_fold_key (parts : list str) : str :=
  if bool_decide (parts = []) then [] else profile_case_fold (join_slash parts) PortableUtf8V1.

(** Where a ZIP or 7z name leads, from what the jail is given. *)
Definition jailed_placed (profile : ZipInterpretationProfile) (jailed_name : str)
    (stripped : list NormalizationAction) (max_depth : Z) (placed : Placed) : Prop :=
  name_ok jailed_name max_depth profile
  /\ (profile = WheelUtf8V1 -> dot_positions 0 (split_on "/" jailed_name) = [])
  /\ (profile = PortableUtf8V1 -> portable_public jailed_name)
  /\ placed = (kept jailed_name, stripped ++ actions (jailed jailed_name)).
Definition profile_fold_key (profile : ZipInterpretationProfile) (parts : list str) : str :=
  profile_case_fold (join_slash parts) profile.

Context `{!Allocator}.

Lemma jail_name_for_profile_ok raw max_depth profile j :
  jail_name_for_profile raw max_depth profile = Some (Ok j)
  <-> jail_name_fallible_for_profile raw max_depth profile = Some (Ok j).
Proof.
  unfold jail_name_for_profile. repeat case_match; split; intros; simplify_eq; done.
Qed.

Lemma jail_sound raw max_depth profile j :
  jail_name_for_profile raw max_depth profile = Some (Ok j) -> name_ok raw max_depth profile /\ j = jailed raw.
Proof. rewrite jail_name_for_profile_ok. apply jail_name_fallible_sound. Qed.

Lemma kept_nonempty raw max_depth profile : name_ok raw max_depth profile -> kept raw <> [].
Proof. intros [_ _ _ _ _ _ _ Hd] E. rewrite E in Hd. simpl in Hd. lia. Qed.

Lemma jail_complete raw max_depth profile :
  (forall site n, try_reserve site n = true) -> name_ok raw max_depth profile ->
  jail_name_for_profile raw max_depth profile = Some (Ok (jailed raw)).
Proof. intros Ha Hn. apply jail_name_for_profile_ok. by apply jail_name_fallible_complete. Qed.

(** *** TAR *)

Definition tar_resolved (name : str) (is_dir : bool) (max_depth : Z) (placed : Placed) : Prop :=
  let prepared := prepare_tar_member_name name is_dir in
  if pn_archive_root prepared then placed = ([], pn_actions prepared)
  else exists j, jail_name_for_profile (pn_name prepared) max_depth PortableUtf8V1 = Some (Ok j)
       /\ portable_name_violation j = None /\ placed = (components j, pn_actions prepared ++ actions j).

Lemma tar_resolved_placed name is_dir max_depth placed :
  tar_resolved name is_dir max_depth placed -> tar_placed name is_dir max_depth placed.
Proof.
  unfold tar_resolved, tar_placed. destruct (pn_archive_root _); [done|].
  intros (j & [Hn ->]%jail_sound & Hv%portable_name_violation_none & ->).
  split_and!; [done..|]. simpl. rewrite (pb_dots _ Hv). simpl. by rewrite app_nil_r.
Qed.

Lemma tar_placed_resolved name is_dir max_depth placed :
  (forall site n, try_reserve site n = true) ->
  tar_placed name is_dir max_depth placed -> tar_resolved name is_dir max_depth placed.
Proof.
  intros Ha. unfold tar_resolved, tar_placed. destruct (pn_archive_root _); [done|].
  intros (Hn & Hv & ->). exists (jailed (pn_name (prepare_tar_member_name name is_dir))).
  split_and!; [by apply jail_complete|by apply portable_name_violation_none|].
  simpl. rewrite (pb_dots _ Hv). simpl. by rewrite app_nil_r.
Qed.

Lemma archive_root_directory name is_dir :
  pn_archive_root (prepare_tar_member_name name is_dir) = true -> is_dir = true.
Proof. unfold prepare_tar_member_name. by destruct is_dir. Qed.

Lemma admit_root dup name a a' :
  admit_destination dup name [] [] true a = Ok a' <->
  contains_key (dest_seen a) [] = false /\ contains_key (fold_seen a) [] = false /\ a' = see [] [] true a.
Proof.
  unfold admit_destination. cbn [path_conflict ancestors ancestors_from List.find].
  destruct (contains_key (dest_seen a) []); [by split; [|intros [? _]]|].
  destruct (contains_key (fold_seen a) []); [by split; [|intros (_ & ? & _)]|].
  split; [by intros [= <-]|by intros (_ & _ & ->)].
Qed.

Lemma admit_destination_dup dup dup' name joined fold is_dir a a' :
  admit_destination dup name joined fold is_dir a = Ok a' ->
  admit_destination dup' name joined fold is_dir a = Ok a'.
Proof. unfold admit_destination. by repeat case_match. Qed.

Lemma tar_path_rule {A} `{!Declared A} max_depth :
  path_rule (fun m => tar_resolved (dc_name m) (dc_is_dir m) max_depth) tar_fold_key
    (fun m : A => admit_tar_path (dc_name m) (dc_is_dir m) max_depth).
Proof.
  intros m a a' placed. unfold admit_tar_path, tar_resolved.
  destruct (pn_archive_root _) eqn:Hroot.
  - rewrite (archive_root_directory _ _ Hroot). split.
    + repeat case_match; try done. intros [= <- <-]. split; [done|]. simpl.
      exists duplicate_destination. by apply admit_root.
    + intros [-> [dup (Hd & Hf & ->)%admit_root]]. by rewrite Hd, Hf.
  - split.
    + destruct (jail_name_for_profile _ _ _) as [[j|f]|] eqn:Hj; [|done|done]. simpl.
      destruct (portable_name_violation j) eqn:Hv; [done|].
      destruct (admit_destination _ _ _ _ _ _) eqn:Had; [|done]. intros [= <- <-].
      split; [by exists j|]. exists duplicate_destination. simpl. unfold tar_fold_key.
      apply jail_sound in Hj as [Hn ->]. by rewrite bool_decide_eq_false_2 by by eapply kept_nonempty.
    + intros [(j & Hj & Hv & ->) [dup Had]]. rewrite Hj. simpl. rewrite Hv. simpl in Had.
      unfold tar_fold_key in Had. pose proof (jail_sound _ _ _ _ Hj) as [Hn ->].
      rewrite bool_decide_eq_false_2 in Had by by eapply kept_nonempty.
      by rewrite (admit_destination_dup _ duplicate_destination _ _ _ _ _ _ Had).
Qed.

(** *** ZIP and 7z *)

Definition jailed_resolved (profile : ZipInterpretationProfile) (jailed_name : str)
    (stripped : list NormalizationAction) (max_depth : Z) (placed : Placed) : Prop :=
  exists j, jail_name_for_profile jailed_name max_depth profile = Some (Ok j)
    /\ (profile = WheelUtf8V1 -> actions j = [])
    /\ (profile = PortableUtf8V1 -> portable_name_violation j = None)
    /\ placed = (components j, stripped ++ actions j).

Lemma jailed_actions_nil raw : actions (jailed raw) = [] <-> dot_positions 0 (split_on "/" raw) = [].
Proof. unfold jailed. simpl. split; [apply fmap_nil_inv|by intros ->]. Qed.

Lemma jailed_resolved_placed profile name stripped max_depth placed :
  jailed_resolved profile name stripped max_depth placed -> jailed_placed profile name stripped max_depth placed.
Proof.
  intros (j & [Hn ->]%jail_sound & Hw & Hp & ->). split_and!; [done| | |done].
  - intros E. by apply jailed_actions_nil, Hw.
  - intros E. by apply portable_name_violation_none, Hp.
Qed.

Lemma jailed_placed_resolved profile name stripped max_depth placed :
  (forall site n, try_reserve site n = true) ->
  jailed_placed profile name stripped max_depth placed -> jailed_resolved profile name stripped max_depth placed.
Proof.
  intros Ha (Hn & Hw & Hp & ->). exists (jailed name). split_and!; [by apply jail_complete| | |done].
  - intros E. by apply jailed_actions_nil, Hw.
  - intros E. by apply portable_name_violation_none, Hp.
Qed.

Lemma jailed_path_rule {A} `{!Declared A} dup profile (view : A -> str) (stripped : A -> list NormalizationAction)
    max_depth :
  path_rule (fun m => jailed_resolved profile (view m) (stripped m) max_depth) (profile_fold_key profile)
    (fun m : A => admit_jailed dup profile (dc_name m) (view m) (stripped m) (dc_is_dir m) max_depth).
Proof.
  intros m a a' placed. unfold admit_jailed, jailed_resolved. split.
  - destruct (jail_name_for_profile _ _ _) as [[j|f]|] eqn:Hj; [|done|done]. simpl.
    destruct (bool_decide (profile = WheelUtf8V1) && _) eqn:Hw; [done|].
    destruct (if bool_decide (profile = PortableUtf8V1) then _ else _) eqn:Hv; [done|].
    destruct (admit_destination _ _ _ _ _ _) eqn:Had; [|done]. intros [= <- <-].
    split; [|by exists dup]. exists j. split_and!; [done| | |done].
    + intros ->. rewrite bool_decide_eq_true_2 in Hw by done. simpl in Hw.
      by apply nil_length_inv, Nat.eqb_eq, negb_false_iff.
    + intros ->. by rewrite bool_decide_eq_true_2 in Hv.
  - intros [(j & -> & Hw & Hp & ->) [dup' Had]]. simpl.
    replace (bool_decide (profile = WheelUtf8V1) && _) with false.
    2:{ case_bool_decide as E; [|done]. by rewrite (Hw E). }
    replace (if bool_decide (profile = PortableUtf8V1) then _ else _) with (@None string).
    2:{ case_bool_decide as E; [|done]. by rewrite (Hp E). }
    apply (admit_destination_dup _ dup) in Had. unfold profile_fold_key in Had. simpl in Had.
    by rewrite Had.
Qed.
End Rules.

(** ** Theorems *)

Section Theorems.
Context `{!Unicode, !Allocator}.

(** What the ZIP loop hands the jail. *)
Definition zip_view (m : ZipMember) : str :=
  if zm_is_dir m then default (zm_name m) (strip_suffix_slash (zm_name m)) else zm_name m.
Definition zip_stripped (m : ZipMember) : list NormalizationAction :=
  if zm_is_dir m then [StripDirectoryTrailingSlash] else [].
Definition tar_plan_ok {A} `{!Declared A} (budget : ResourceBudget) :
    list A -> list (A * list str * list NormalizationAction) -> Prop :=
  plan_ok refuse_none (fun m => tar_placed (dc_name m) (dc_is_dir m) (max_path_depth budget))
    tar_fold_key budget.
Definition zip_plan_ok (profile : ZipInterpretationProfile) (budget : ResourceBudget) :
    list ZipMember -> list (ZipMember * list str * list NormalizationAction) -> Prop :=
  plan_ok refuse_zip
    (fun m => jailed_placed profile (zip_view m) (zip_stripped m) (max_path_depth budget))
    (profile_fold_key profile) budget.

Lemma plan_tar_members_sound {A} `{!Declared A} budget (ms : list A) st :
  is_u64 (max_total_bytes budget) ->
  plan_tar_members budget ms = Some st -> ps_findings st = [] -> tar_plan_ok budget ms (ps_planned st).
Proof.
  intros Hcap Hl Hf. eapply plan_ok_impl; [|by eapply plan_loop_plan_ok; [apply tar_path_rule|..]].
  intros m p. apply tar_resolved_placed.
Qed.

Lemma plan_tar_members_complete {A} `{!Declared A} budget (ms : list A) planned :
  is_u64 (max_total_bytes budget) ->
  Forall (fun m => 0 <= dc_size m) ms -> (forall site n, try_reserve site n = true) ->
  tar_plan_ok budget ms planned ->
  exists st, plan_tar_members budget ms = Some st /\ ps_findings st = [] /\ ps_planned st = planned.
Proof.
  intros Hcap Hs Ha Hp. eapply plan_ok_plan_loop; [apply tar_path_rule|done..|].
  eapply plan_ok_impl; [|exact Hp]. intros m p. by apply tar_placed_resolved.
Qed.

(** C10: The TAR, PAX and GNU member loops raise no finding exactly for the
    members that fit: every declared size is below the member cap and the ratio,
    the declared total is below its cap, every name is the archive root or a
    public portable name within the depth, and the destinations, exact and
    case-folded, form a tree: no duplicate, and no file above another path.  A
    failing allocator can only refuse. *)
Theorem plan_tar_members_iff {A} `{!Declared A} budget (ms : list A) :
  is_u64 (max_total_bytes budget) ->
  (forall st, plan_tar_members budget ms = Some st -> ps_findings st = [] ->
     tar_plan_ok budget ms (ps_planned st))
  /\ (Forall (fun m => 0 <= dc_size m) ms -> (forall site n, try_reserve site n = true) ->
      forall planned, tar_plan_ok budget ms planned ->
      exists st, plan_tar_members budget ms = Some st /\ ps_findings st = [] /\ ps_planned st = planned).
Proof.
  intros Hcap. split; [intros st; by apply plan_tar_members_sound|].
  intros Hs Ha planned. by apply plan_tar_members_complete.
Qed.

Lemma zip_path_rule profile max_depth :
  path_rule (fun m => jailed_resolved profile (zip_view m) (zip_stripped m) max_depth) (profile_fold_key profile)
    (fun m => admit_zip_path profile (dc_name m) (dc_is_dir m) max_depth).
Proof.
  exact (jailed_path_rule (error ZipDiffB1Dup "duplicate dest path") profile zip_view zip_stripped max_depth).
Qed.

(** C9: The ZIP member loop raises no finding exactly when no member is
    encrypted, every method is stored or Deflate, the declared sizes, ratio and
    total are within their caps, every name satisfies the profile's grammar, and
    the destinations, exact and folded as the profile folds, form a tree. *)
Theorem plan_zip_members_iff profile budget ms :
  is_u64 (max_total_bytes budget) ->
  (forall st, plan_zip_members profile budget ms = Some st -> ps_findings st = [] ->
     zip_plan_ok profile budget ms (ps_planned st))
  /\ (Forall (fun m => 0 <= zm_uncomp_size m) ms -> (forall site n, try_reserve site n = true) ->
      forall planned, zip_plan_ok profile budget ms planned ->
      exists st, plan_zip_members profile budget ms = Some st /\ ps_findings st = []
                 /\ ps_planned st = planned).
Proof.
  intros Hcap. split.
  - intros st Hl Hf. eapply plan_ok_impl; [|by eapply plan_loop_plan_ok; [apply zip_path_rule|..]].
    intros m p. apply jailed_resolved_placed.
  - intros Hs Ha planned Hp. eapply plan_ok_plan_loop; [apply zip_path_rule|done..|].
    eapply plan_ok_impl; [|exact Hp]. intros m p. by apply jailed_placed_resolved.
Qed.
End Theorems.

(** ** Witnesses *)

Definition example_tar_member (raw : str) (is_dir : bool) (size : Z) : TarMember :=
  {| Tar.raw_name := raw; Tar.name := raw; Tar.size := size; Tar.mode := 420; Tar.mtime := 0;
     Tar.header_checksum := 0; Tar.header_sha256 := []; Tar.header := mkrange 0 512;
     Tar.payload := mkrange 512 size; Tar.padding := mkrange (512 + size) 0; Tar.is_dir := is_dir |}.
Definition example_budget : ResourceBudget :=
  {| max_archive_bytes := 1048576; max_derived_archive_bytes := 1048576; max_files := 10;
     max_member_bytes := 1000; max_total_bytes := 1500; max_ratio := Some 100; max_path_depth := 8;
     max_metadata_bytes := 65536 |}.
(** A directory, and a file below it given first. *)
Definition example_members : list TarMember :=
  [example_tar_member (lit "docs/a.txt") false 900; example_tar_member (lit "./docs/") true 0;
   example_tar_member (lit "./") true 0].
Definition example_planned : list (TarMember * list str * list NormalizationAction) :=
  [(example_tar_member (lit "docs/a.txt") false 900, [lit "docs"; lit "a.txt"], []);
   (example_tar_member (lit "./docs/") true 0, [lit "docs"], [StripDirectoryTrailingSlash]);
   (example_tar_member (lit "./") true 0, [], [StripDirectoryTrailingSlash])].

Lemma plan_tar_members_iff_witness :
  @tar_plan_ok ascii_unicode TarMember _ example_budget example_members example_planned
  /\ ~ exists planned, @tar_plan_ok ascii_unicode TarMember _ example_budget
         [example_tar_member (lit "a/b") false 1; example_tar_member (lit "a") false 1] planned.
Proof.
  assert (is_u64 (max_total_bytes example_budget)) as Hcap by (split; vm_compute; discriminate).
  split.
  - destruct (@plan_tar_members_iff ascii_unicode always_reserves TarMember _ example_budget
      example_members Hcap) as [Hs _].
    destruct (@plan_tar_members ascii_unicode always_reserves TarMember _ example_budget example_members)
      as [st|] eqn:Hst; [|vm_compute in Hst; discriminate].
    specialize (Hs st eq_refl). vm_compute in Hst. injection Hst as <-. exact (Hs eq_refl).
  - intros [planned Hp].
    destruct (@plan_tar_members_iff ascii_unicode always_reserves TarMember _ example_budget
      [example_tar_member (lit "a/b") false 1; example_tar_member (lit "a") false 1] Hcap) as [_ Hc].
    destruct (Hc ltac:(repeat constructor; vm_compute; discriminate) ltac:(done) planned Hp) as (st & Hst & Hf & _).
    vm_compute in Hst. injection Hst as <-. discriminate Hf.
Defined.

Definition example_zip_member (raw : str) (flags size : Z) : ZipMember :=
  {| zm_raw_name := raw; zm_name := raw; zm_method := 8; zm_flags := flags; zm_creator_system := 3;
     zm_external_attributes := 0; zm_crc := 0; zm_comp_size := 10; zm_uncomp_size := size;
     zm_lfh_offset := 0; zm_data_offset := 0; zm_record_end := 0; zm_is_dir := false;
     zm_extra_fields := [];
     zm_source_ranges := {| local_header := mkrange 0 0; compressed_payload := mkrange 0 0;
                            data_descriptor := None; central_header := mkrange 0 0 |};
     zm_zip64_evidence := None |}.

Lemma plan_zip_members_iff_witness :
  @zip_plan_ok ascii_unicode StrictAsciiV1 example_budget
    [example_zip_member (lit "x/./y") 0 900] [(example_zip_member (lit "x/./y") 0 900, [lit "x"; lit "y"], [DropDotComponent 1])]
  /\ ~ exists planned, @zip_plan_ok ascii_unicode StrictAsciiV1 example_budget
         [example_zip_member (lit "x") 1 900] planned.
Proof.
  assert (is_u64 (max_total_bytes example_budget)) as Hcap by (split; vm_compute; discriminate).
  split.
  - destruct (@plan_zip_members_iff ascii_unicode always_reserves StrictAsciiV1 example_budget
      [example_zip_member (lit "x/./y") 0 900] Hcap) as [Hs _].
    destruct (@plan_zip_members ascii_unicode always_reserves StrictAsciiV1 example_budget
      [example_zip_member (lit "x/./y") 0 900]) as [st|] eqn:Hst; [|vm_compute in Hst; discriminate].
    specialize (Hs st eq_refl). vm_compute in Hst. injection Hst as <-. exact (Hs eq_refl).
  - intros [planned Hp].
    destruct (@plan_zip_members_iff ascii_unicode always_reserves StrictAsciiV1 example_budget
      [example_zip_member (lit "x") 1 900] Hcap) as [_ Hc].
    destruct (Hc ltac:(repeat constructor; vm_compute; discriminate) ltac:(done) planned Hp) as (st & Hst & Hf & _).
    vm_compute in Hst. injection Hst as <-. discriminate Hf.
Defined.
