(* ===== verification/Outcome.v ===== *)
(** * Outcomes ([outcome.rs], and the evidence records of [apply.rs])

    The semantic axes of an outcome and the constructors every stop uses, the
    compatibility verdict and exit code computed from them, the mapping of a
    parser's finding to axes, and the view, receipt and outcome [finish]
    assembles. *)

From S2P Require Import Prelude Utf8 StageWitness Findings Snapshot Ir Evidence Identity Policy Verification.
Local Open Scope Z_scope.
Local Open Scope rust_scope.

(** ** Semantic axes *)

Inductive InterpretationStatus : Type := Interpreted | Malformed | Unsupported | Indeterminate.
Inductive AdmissionStatus : Type := AdmissionAdmitted | AdmissionDenied | NotEvaluated.
Inductive VerificationStatus : Type :=
  | StructureOnly
  | Partial (verified_members pending_members : Z)
  | Complete.
Inductive EffectStatus : Type := NotRequested | Committed | Failed.
Inductive StoppingPhase : Type := PhaseSource | PhaseStructure | PhaseAdmission | PhaseVerification | PhaseEffect.
Inductive ViewCompleteness : Type := ViewComplete | ViewPartial (phase : StoppingPhase) (cause : string).

Record SemanticAxes : Type := {
  ax_interpretation : InterpretationStatus;
  ax_admission : AdmissionStatus;
  ax_verification : VerificationStatus;
  ax_effect : EffectStatus;
  ax_view_completeness : ViewCompleteness
}.

Definition partial (phase : StoppingPhase) (finding : Finding) : ViewCompleteness :=
  ViewPartial phase (as_str (code finding)).

Definition inspect_complete : SemanticAxes :=
  {| ax_interpretation := Interpreted; ax_admission := AdmissionAdmitted; ax_verification := Complete;
     ax_effect := NotRequested; ax_view_completeness := ViewComplete |}.
Definition materialize_committed : SemanticAxes :=
  {| ax_interpretation := Interpreted; ax_admission := AdmissionAdmitted; ax_verification := Complete;
     ax_effect := Committed; ax_view_completeness := ViewComplete |}.
Definition source_failure (finding : Finding) (admission : AdmissionStatus) : SemanticAxes :=
  {| ax_interpretation := Indeterminate; ax_admission := admission; ax_verification := StructureOnly;
     ax_effect := NotRequested; ax_view_completeness := partial PhaseSource finding |}.
Definition structure_stop (interpretation : InterpretationStatus) (admission : AdmissionStatus)
    (finding : Finding) : SemanticAxes :=
  {| ax_interpretation := interpretation; ax_admission := admission; ax_verification := StructureOnly;
     ax_effect := NotRequested; ax_view_completeness := partial PhaseStructure finding |}.
Definition denied_at_admission (finding : Finding) : SemanticAxes :=
  {| ax_interpretation := Interpreted; ax_admission := AdmissionDenied; ax_verification := StructureOnly;
     ax_effect := NotRequested; ax_view_completeness := partial PhaseAdmission finding |}.
Definition admitted_setup_failed (finding : Finding) : SemanticAxes :=
  {| ax_interpretation := Interpreted; ax_admission := AdmissionAdmitted; ax_verification := StructureOnly;
     ax_effect := Failed; ax_view_completeness := partial PhaseEffect finding |}.
Definition admitted_verification_stop (verified_members pending_members : Z) (finding : Finding)
    (dest_requested : bool) : SemanticAxes :=
  let '(interpretation, admission) :=
    match code finding with
    | SourceIo => (Indeterminate, AdmissionAdmitted)
    | CodecDeflateInvalidStream | CodecDeflateTrailingInput | ZipDiffC4Offset =>
        (Malformed, NotEvaluated)
    | MaterializeIo | MaterializeUnsafeComponent | MaterializeCommit | MaterializeExists =>
        (Interpreted, AdmissionAdmitted)
    | _ => (Interpreted, AdmissionDenied)
    end in
  {| ax_interpretation := interpretation; ax_admission := admission;
     ax_verification := Partial verified_members pending_members;
     ax_effect := if dest_requested then Failed else NotRequested;
     ax_view_completeness := partial PhaseVerification finding |}.
Definition admitted_publication_failed : SemanticAxes :=
  {| ax_interpretation := Interpreted; ax_admission := AdmissionAdmitted; ax_verification := Complete;
     ax_effect := Failed; ax_view_completeness := ViewComplete |}.
Definition policy_compile_failed (finding : Finding) : SemanticAxes :=
  {| ax_interpretation := Indeterminate; ax_admission := AdmissionDenied;
     ax_verification := StructureOnly; ax_effect := NotRequested;
     ax_view_completeness := partial PhaseAdmission finding |}.

(** ** Verdict, exit code, and the axes of a parser's finding *)

Inductive Verdict : Type := Allowed (wrote : bool) | Rejected.

Definition compat_verdict (axes : SemanticAxes) : Verdict :=
  match ax_admission axes, ax_verification axes, ax_effect axes with
  | AdmissionAdmitted, Complete, Committed => Allowed true
  | AdmissionAdmitted, Complete, NotRequested => Allowed false
  | _, _, _ => Rejected
  end.

Definition compat_exit_code (admission : AdmissionStatus) (verification : VerificationStatus)
    (effect : EffectStatus) : Z :=
  match admission, verification, effect with
  | AdmissionAdmitted, _, Failed => 3
  | AdmissionAdmitted, Complete, (Committed | NotRequested) => 0
  | _, _, _ => 2
  end.

(** [None] is the panic when no finding is an error. *)
Definition first_error (findings : list Finding) : option Finding :=
  List.find (fun f => match severity f with SevError => true | _ => false end) findings.
Definition has_error (findings : list Finding) : bool :=
  existsb (fun f => match severity f with SevError => true | _ => false end) findings.

Definition parse_failure_axes (finding : Finding) : SemanticAxes :=
  let interpretation :=
    match code finding with
    | SourceIo => Indeterminate
    | FormatUnsupported | ZipDiffC5Zip64 | ZipEncoding | TarFeatureUnsupported => Unsupported
    | QuotaFiles | QuotaMetadata | QuotaOverflow => Interpreted
    | _ => Malformed
    end in
  let admission :=
    match code finding with
    | QuotaFiles | QuotaMetadata | QuotaOverflow => AdmissionDenied
    | _ => NotEvaluated
    end in
  structure_stop interpretation admission finding.

Definition is_zip64 (profile : ZipInterpretationProfile) : bool :=
  bool_decide (profile = Zip64StrictAsciiV1).
Definition parse_failure_axes_for_profile (finding : Finding) (profile : ZipInterpretationProfile) :
    SemanticAxes :=
  if is_zip64 profile && bool_decide (code finding = ZipDiffC5Zip64) then
    let interpretation :=
      if bool_decide (detail finding = "archive contains no ZIP64 construct"%string)
      then Unsupported else Malformed in
    structure_stop interpretation NotEvaluated finding
  else parse_failure_axes finding.

Definition tar_covering_failure_axes (wrapped : bool) (finding : Finding) : SemanticAxes :=
  if wrapped then structure_stop Indeterminate NotEvaluated finding
  else structure_stop Malformed AdmissionDenied finding.

(** ** Materialization report *)

Record WindowsMaterializationEvidence : Type := {
  we_storage_policy : string;
  we_filesystem : option str;
  we_device_scope : string;
  we_persistent_acls : option bool;
  we_read_only : option bool;
  we_stage_acl_policy : string;
  we_stage_acl : string
}.

(** The constants of a Linux build. *)
Definition stage_mode : string := "same-volume-random-128-mode-0700".
Definition stage_creation_primitive : string := "mkdirat-mode-0700-openat-nofollow-safe-parent".
Definition publication_primitive : string := "renameat2-noreplace".
Definition initial_windows_evidence : option WindowsMaterializationEvidence := None.

Record MaterializationMeta : Type := {
  mm_schema : string;
  mm_requested : bool;
  mm_backend : string;
  mm_stage_mode : string;
  mm_stage_creation_primitive : string;
  mm_member_resolution : string;
  mm_durability : string;
  mm_publication_primitive : string;
  mm_outcome : string;
  mm_cleanup : string;
  mm_windows : option WindowsMaterializationEvidence;
  mm_stage_retention : option StageRetention
}.

Definition MATERIALIZATION_SCHEMA : string := "sealr.materialization.v2".
Definition BACKEND : string := "cap-std-component-nofollow-v1".
Definition MEMBER_RESOLUTION : string := "component-handles-nofollow".

Definition durability_label (d : Durability) : string :=
  match d with
  | FlushOnly => "flush-only" | MemberSync => "member-sync" | DirectorySync => "directory-sync"
  end.

Definition not_started (requested : bool) (d : Durability) : MaterializationMeta :=
  if requested then
    {| mm_schema := MATERIALIZATION_SCHEMA; mm_requested := true; mm_backend := BACKEND;
       mm_stage_mode := stage_mode; mm_stage_creation_primitive := stage_creation_primitive;
       mm_member_resolution := MEMBER_RESOLUTION; mm_durability := durability_label d;
       mm_publication_primitive := publication_primitive; mm_outcome := "not-started";
       mm_cleanup := "not-created"; mm_windows := initial_windows_evidence;
       mm_stage_retention := None |}
  else
    {| mm_schema := MATERIALIZATION_SCHEMA; mm_requested := false; mm_backend := "none";
       mm_stage_mode := "none"; mm_stage_creation_primitive := "none";
       mm_member_resolution := "none"; mm_durability := "none"; mm_publication_primitive := "none";
       mm_outcome := "not-requested"; mm_cleanup := "not-applicable"; mm_windows := None;
       mm_stage_retention := None |}.

Definition setup_failed (d : Durability) (cleanup : string)
    (windows : option WindowsMaterializationEvidence) : MaterializationMeta :=
  let report := not_started true d in
  {| mm_schema := mm_schema report; mm_requested := mm_requested report; mm_backend := mm_backend report;
     mm_stage_mode := mm_stage_mode report;
     mm_stage_creation_primitive := mm_stage_creation_primitive report;
     mm_member_resolution := mm_member_resolution report; mm_durability := mm_durability report;
     mm_publication_primitive := mm_publication_primitive report; mm_outcome := "setup-failed";
     mm_cleanup := cleanup; mm_windows := windows; mm_stage_retention := mm_stage_retention report |}.
