(* ===== verification/FileSystem.v ===== *)
(** * Directory capabilities (the interface [materialize.rs] is written against)

    The stage is written and audited through the capability library
    ([cap_std], [cap_fs_ext]), [rustix] and the file system calls of the
    standard library.  None of that is code of this repository: [CapFs] lists
    the calls with their results, and [CapFsLaws] what a caller that nobody
    races relies on, over a store of inodes.  Computations on the file system
    are a state-and-error monad over the world. *)

From S2P Require Import Prelude Utf8 Jail.
Local Open Scope Z_scope.
Local Open Scope rust_scope.

(** ** Computations on a world *)

(** The world after a run, and how it ended; [None] is fuel that ran out. *)
Definition M (W A E : Type) : Type := W -> W * exec A E.

Section Monad.
Context {W : Type}.

Definition ret {A E} (a : A) : M W A E := fun w => (w, Some (Ok a)).
Definition throw {A E} (e : E) : M W A E := fun w => (w, Some (Err e)).
Definition spent {A E} : M W A E := fun w => (w, None).
Definition bind {A B E} (m : M W A E) (k : A -> M W B E) : M W B E := fun w =>
  match m w with
  | (w', Some (Ok a)) => k a w'
  | (w', Some (Err e)) => (w', Some (Err e))
  | (w', None) => (w', None)
  end.
Definition on_err {A E E'} (f : E -> E') (m : M W A E) : M W A E' := fun w =>
  let '(w', r) := m w in (w', exec_map_err f r).
(** The result of a run as a value, for a [match] on it. *)
Definition attempt {A E F} (m : M W A E) : M W (result A E) F := fun w =>
  let '(w', r) := m w in (w', option_map Ok r).
(** One call of the interface. *)
Definition call {A E} (op : W -> W * result A E) : M W A E := fun w =>
  let '(w', r) := op w in (w', Some r).
(** A computation that does not touch the world. *)
Definition pure_result {A E} (r : result A E) : M W A E := fun w => (w, Some r).
Definition pure_exec {A E} (r : exec A E) : M W A E := fun w => (w, r).
End Monad.

Notation "'let@' x ':=' c 'in' k" := (bind c (fun x => k))
  (at level 10, x pattern, c at level 100, k at level 200) : rust_scope.
(** Early return. *)
Notation "'reject@' b 'with' e ';;' k" :=
  (if b then throw e else k)
  (at level 10, b at level 99, e at level 99, k at level 200) : rust_scope.

(** ** Inversion of successful runs *)

Section Inversion.
Context {W : Type}.

Lemma ret_ok {A E} (a a' : A) (w w' : W) :
  ret (E:=E) a w = (w', Some (Ok a')) <-> w' = w /\ a' = a.
Proof. unfold ret. split; [by intros [= -> ->]|by intros [-> ->]]. Qed.

Lemma bind_ok {A B E} (m : M W A E) (k : A -> M W B E) w w' b :
  bind m k w = (w', Some (Ok b)) <->
  exists w1 a, m w = (w1, Some (Ok a)) /\ k a w1 = (w', Some (Ok b)).
Proof.
  unfold bind. split.
  - destruct (m w) as [w1 [[a|e]|]]; intros H; [by eauto|by simplify_eq..].
  - by intros (w1 & a & -> & ?).
Qed.

(** A run of a sequence stops in its first part or goes on to the second. *)
Lemma bind_run {A B E} (m : M W A E) (k : A -> M W B E) w w' res :
  bind m k w = (w', Some res) ->
  (exists e, m w = (w', Some (Err e)) /\ res = Err e)
  \/ exists w1 a, m w = (w1, Some (Ok a)) /\ k a w1 = (w', Some res).
Proof.
  unfold bind. destruct (m w) as [w1 [[a|e]|]]; intros Hr; simplify_eq; [right|left]; eauto.
Qed.

Lemma on_err_ok {A E E'} (f : E -> E') (m : M W A E) w w' a :
  on_err f m w = (w', Some (Ok a)) <-> m w = (w', Some (Ok a)).
Proof. unfold on_err. destruct (m w) as [w1 [[b|e]|]]; simpl; split; intros; by simplify_eq. Qed.

Lemma attempt_ok {A E F} (m : M W A E) w w' r :
  attempt (F:=F) m w = (w', Some (Ok r)) -> m w = (w', Some r).
Proof. unfold attempt. destruct (m w) as [w1 [b|]]; simpl; intros; by simplify_eq. Qed.

Lemma call_ok {A E} (op : W -> W * result A E) w w' r :
  call op w = (w', Some r) <-> op w = (w', r).
Proof. unfold call. destruct (op w). split; intros; by simplify_eq. Qed.

Lemma pure_result_ok {A E} (r : result A E) (w w' : W) r' :
  pure_result r w = (w', Some r') <-> w' = w /\ r = r'.
Proof. unfold pure_result. split; [by intros [= -> ->]|by intros [-> ->]]. Qed.

Lemma reject_ok {A E} (b : bool) (e : E) (k : M W A E) w w' a :
  (if b then throw e else k) w = (w', Some (Ok a)) <-> b = false /\ k w = (w', Some (Ok a)).
Proof. destruct b; split; [by intros [=]|by intros [? _]|done|by intros [_ ?]]. Qed.
End Inversion.

(** Takes a successful run apart, one equation per step. *)
Ltac run_ok H :=
  lazymatch type of H with
  | bind _ _ _ = (_, Some (Ok _)) =>
      let w := fresh "w" in let a := fresh "a" in let E := fresh "Hr" in
      apply bind_ok in H as (w & a & E & H); run_ok E; run_ok H
  | on_err _ _ _ = (_, Some (Ok _)) => apply on_err_ok in H; run_ok H
  | attempt _ _ = (_, Some (Ok _)) => apply attempt_ok in H
  | call _ _ = (_, Some _) => apply call_ok in H
  | pure_result _ _ = (_, Some _) =>
      let E := fresh "Hw" in apply pure_result_ok in H as [E H]; subst
  | ret _ _ = (_, Some (Ok _)) =>
      let E := fresh "Hw" in apply ret_ok in H as [E H]; subst
  | (if _ then throw _ else _) _ = (_, Some (Ok _)) =>
      let E := fresh "Hg" in apply reject_ok in H as [E H]; run_ok H
  | throw _ _ = (_, Some (Ok _)) => discriminate H
  | spent _ = (_, Some _) => discriminate H
  | _ => idtac
  end.

(** ** A relation every step of a computation respects *)

Section Keeps.
Context {W : Type} (P : W -> W -> Prop) `{!PreOrder P}.

Definition keeps {A E} (m : M W A E) : Prop := forall w, P w (m w).1.

Lemma keeps_ret {A E} (a : A) : keeps (E:=E) (ret a).
Proof. intros w. simpl. reflexivity. Qed.
Lemma keeps_throw {A E} (e : E) : keeps (A:=A) (throw e).
Proof. intros w. simpl. reflexivity. Qed.
Lemma keeps_spent {A E} : keeps (A:=A) (E:=E) spent.
Proof. intros w. simpl. reflexivity. Qed.
Lemma keeps_pure {A E} (r : result A E) : keeps (pure_result r).
Proof. intros w. simpl. reflexivity. Qed.
Lemma keeps_pure_exec {A E} (r : exec A E) : keeps (pure_exec r).
Proof. intros w. simpl. reflexivity. Qed.
Lemma keeps_bind {A B E} (m : M W A E) (k : A -> M W B E) :
  keeps m -> (forall a, keeps (k a)) -> keeps (bind m k).
Proof.
  intros Hm Hk w. unfold bind. specialize (Hm w). destruct (m w) as [w1 [[a|e]|]]; simpl in *; [|done..].
  etransitivity; [exact Hm|apply Hk].
Qed.
Lemma keeps_on_err {A E E'} (f : E -> E') (m : M W A E) : keeps m -> keeps (on_err f m).
Proof. intros Hm w. specialize (Hm w). unfold on_err. by destruct (m w). Qed.
Lemma keeps_attempt {A E F} (m : M W A E) : keeps m -> keeps (attempt (F:=F) m).
Proof. intros Hm w. specialize (Hm w). unfold attempt. by destruct (m w). Qed.
Lemma keeps_call {A E} (op : W -> W * result A E) : (forall w, P w (op w).1) -> keeps (call op).
Proof. intros Ho w. specialize (Ho w). unfold call. by destruct (op w). Qed.
Lemma keeps_if {A E} (b : bool) (m m' : M W A E) : keeps m -> keeps m' -> keeps (if b then m else m').
Proof. by destruct b. Qed.

Lemma keeps_run {A E} (m : M W A E) w w' r : keeps m -> m w = (w', r) -> P w w'.
Proof. intros Hm Hr. specialize (Hm w). by rewrite Hr in Hm. Qed.
End Keeps.

Create HintDb keeps.
#[export] Hint Resolve keeps_ret keeps_throw keeps_spent keeps_pure keeps_pure_exec keeps_on_err
  keeps_attempt keeps_if : keeps.

(** ** The calls *)

(** [io::ErrorKind], as far as the source looks at it, and [Display]. *)
Inductive ErrorKind : Type := NotFound | AlreadyExists | PermissionDenied | InvalidInput | InvalidData | OtherKind.
#[export] Instance ErrorKind_eq_dec : EqDecision ErrorKind.
Proof. solve_decision. Defined.
Record fs_error : Type := { kind : ErrorKind; message : string }.
(** [io::Error::new], [io::Error::other]. *)
Definition io_new (k : ErrorKind) (m : string) : fs_error := {| kind := k; message := m |}.
Definition io_other (m : string) : fs_error := io_new OtherKind m.

(** [cap_std::fs::Metadata] of a directory. *)
Record Metadata : Type := { md_dev : Z; md_ino : Z; md_uid : Z; md_mode : Z }.
Inductive FileType : Type := FtDir | FtFile | FtSymlink | FtSpecial.
#[export] Instance FileType_eq_dec : EqDecision FileType.
Proof. solve_decision. Defined.
Definition is_dir (t : FileType) : bool := bool_decide (t = FtDir).
Definition is_file (t : FileType) : bool := bool_decide (t = FtFile).
Definition is_symlink (t : FileType) : bool := bool_decide (t = FtSymlink).

(** A [Path], up to its equality. *)
Definition UnixPath : Type := list PathComponent.

(** World, directory capabilities, files.  A write that a signal interrupts is
    one that is made again. *)
Class CapFs (W D F : Type) : Type := {
  canonicalize : UnixPath -> W -> W * result UnixPath fs_error;
  open_ambient_dir : UnixPath -> W -> W * result D fs_error;
  remove_file : UnixPath -> W -> W * result unit fs_error;
  getrandom_fill : W -> W * result (list byte) string;
  geteuid : W -> Z;
  try_clone : D -> W -> W * result D fs_error;
  dir_metadata : D -> W -> W * result Metadata fs_error;
  symlink_metadata : D -> str -> W -> W * result FileType fs_error;
  entries : D -> W -> W * result (list (result (list byte) fs_error)) fs_error;
  create_dir : D -> str -> W -> W * result unit fs_error;
  create_dir_with : D -> str -> Z -> W -> W * result unit fs_error;
  open_dir_nofollow : D -> str -> W -> W * result D fs_error;
  (** [write(true).create_new(true).follow(No)] and [read(true).follow(No)]. *)
  open_new : D -> str -> W -> W * result F fs_error;
  open_read : D -> str -> W -> W * result F fs_error;
  remove_dir_all : D -> str -> W -> W * result unit fs_error;
  remove_open_dir_all : D -> W -> W * result unit fs_error;
  (** [renameat2] with [RENAME_NOREPLACE]. *)
  renameat_noreplace : D -> str -> D -> str -> W -> W * result unit fs_error;
  (** [openat(dir, ".", O_RDONLY | O_DIRECTORY | O_NOFOLLOW)], [fsync]. *)
  reopen_dot : D -> W -> W * result D fs_error;
  fsync_dir : D -> W -> W * result unit fs_error;
  fstat_nlink : F -> W -> W * result Z fs_error;
  file_metadata : F -> W -> W * result (FileType * Z) fs_error;
  file_read : F -> Z -> W -> W * result (list byte) fs_error;
  file_write : F -> list byte -> W -> W * result Z fs_error;
  file_flush : F -> W -> W * result unit fs_error;
  file_sync_all : F -> W -> W * result unit fs_error;
  fchmod : F -> Z -> W -> W * result unit fs_error
}.

(** ** The store *)

(** Device and inode. *)
Definition Ident : Type := Z * Z.
Inductive Inode : Type :=
  | IDir (children : list (str * Ident))
  | IFile (content : list byte) (links : Z)
  | ISymlink
  | ISpecial.
Definition inode_type (i : Inode) : FileType :=
  match i with IDir _ => FtDir | IFile _ _ => FtFile | ISymlink => FtSymlink | ISpecial => FtSpecial end.

Fixpoint child (name : str) (ch : list (str * Ident)) : option Ident :=
  match ch with
  | [] => None
  | (n, i) :: ch => if bool_decide (n = name) then Some i else child name ch
  end.

Lemma elem_child n i ch : child n ch = Some i -> (n, i) ∈ ch.
Proof.
  induction ch as [|[k j] ch IH]; [done|]. simpl. case_bool_decide as Hk.
  - intros [= ->]. subst k. left.
  - intros Hc. right. by apply IH.
Qed.

(** The entry a path leads to, through directories only. *)
Fixpoint resolve (st : Ident -> option Inode) (root : Ident) (path : list str) : option Ident :=
  match path with
  | [] => Some root
  | name :: path =>
      match st root with
      | Some (IDir ch) => next ← child name ch; resolve st next path
      | _ => None
      end
  end.

(** One name of one entry: not empty, no slash, not a dot. *)
Definition plain_name (name : str) : bool := bool_decide (path_components name = [Normal name]).
Definition is_dots (name : str) : bool := bool_decide (name = lit ".") || bool_decide (name = lit "..").

(** What a caller that nobody races relies on.  The calls that only look leave
    the store alone; a failed rename does too. *)
Class CapFsLaws (W D F : Type) `{!CapFs W D F} : Type := {
  store : W -> Ident -> option Inode;
  dir_id : D -> Ident;
  file_id : F -> Ident;
  (** What a file handle has yet to deliver. *)
  unread : W -> F -> list byte;
  quiet (w w' : W) : Prop := forall i, store w' i = store w i;

  quiet_canonicalize : forall p w, quiet w (canonicalize p w).1;
  quiet_open_ambient : forall p w, quiet w (open_ambient_dir p w).1;
  quiet_random : forall w, quiet w (getrandom_fill w).1;
  quiet_try_clone : forall d w, quiet w (try_clone d w).1;
  quiet_dir_metadata : forall d w, quiet w (dir_metadata d w).1;
  quiet_symlink_metadata : forall d n w, quiet w (symlink_metadata d n w).1;
  quiet_entries : forall d w, quiet w (entries d w).1;
  quiet_open_dir : forall d n w, quiet w (open_dir_nofollow d n w).1;
  quiet_open_read : forall d n w, quiet w (open_read d n w).1;
  quiet_reopen_dot : forall d w, quiet w (reopen_dot d w).1;
  quiet_fsync_dir : forall d w, quiet w (fsync_dir d w).1;
  quiet_fstat : forall f w, quiet w (fstat_nlink f w).1;
  quiet_read : forall f n w, quiet w (file_read f n w).1;

  law_try_clone : forall d w w' d', try_clone d w = (w', Ok d') -> dir_id d' = dir_id d;
  law_dir_metadata : forall d w w' m, dir_metadata d w = (w', Ok m) -> dir_id d = (md_dev m, md_ino m);
  law_symlink_metadata : forall d n w w' t, plain_name n = true ->
    symlink_metadata d n w = (w', Ok t) ->
    exists ch i x, store w (dir_id d) = Some (IDir ch) /\ child n ch = Some i
      /\ store w i = Some x /\ inode_type x = t;
  (** The iterator delivers every name once it has delivered no error. *)
  law_entries : forall d w w' es, entries d w = (w', Ok es) ->
    exists ch, store w (dir_id d) = Some (IDir ch)
      /\ (forall n, Ok n ∈ es -> is_dots n = false -> plain_name n = true /\ is_Some (child n ch))
      /\ (Forall (fun e => is_ok e = true) es ->
          forall n, is_Some (child n ch) -> Ok n ∈ es /\ is_dots n = false);
  law_open_dir : forall d n w w' d', plain_name n = true ->
    open_dir_nofollow d n w = (w', Ok d') ->
    exists ch ch', store w (dir_id d) = Some (IDir ch) /\ child n ch = Some (dir_id d')
      /\ store w (dir_id d') = Some (IDir ch');
  law_open_read : forall d n w w' f, plain_name n = true ->
    open_read d n w = (w', Ok f) ->
    exists ch, store w (dir_id d) = Some (IDir ch) /\ child n ch = Some (file_id f)
      /\ forall c l, store w (file_id f) = Some (IFile c l) -> unread w' f = c;
  law_fstat : forall f w w' n, fstat_nlink f w = (w', Ok n) ->
    unread w' f = unread w f /\ forall c l, store w (file_id f) = Some (IFile c l) -> l = n;
  law_read : forall f n w w' bytes, 0 <= n -> file_read f n w = (w', Ok bytes) ->
    (exists c l, store w (file_id f) = Some (IFile c l))
    /\ unread w f = bytes ++ unread w' f /\ Z.of_nat (length bytes) <= n
    /\ (0 < n -> bytes = [] -> unread w f = []);
  law_rename : forall d from to w w', plain_name from = true -> plain_name to = true ->
    renameat_noreplace d from d to w = (w', Ok ()) ->
    exists ch ch' i, store w (dir_id d) = Some (IDir ch) /\ child from ch = Some i
      /\ child to ch = None /\ store w' (dir_id d) = Some (IDir ch')
      /\ (forall n, child n ch' = if bool_decide (n = to) then Some i
                                  else if bool_decide (n = from) then None else child n ch)
      /\ (forall j, j <> dir_id d -> store w' j = store w j);
  law_rename_err : forall d from to w w' e,
    renameat_noreplace d from d to w = (w', Err e) -> quiet w w';
  law_remove_open : forall d w w',
    remove_open_dir_all d w = (w', Ok ()) -> store w' (dir_id d) = None
      /\ forall p ch, store w p = Some (IDir ch) ->
          (forall path, resolve (store w) (dir_id d) path <> Some p) ->
          exists ch', store w' p = Some (IDir ch')
            /\ forall n, child n ch' = if bool_decide (child n ch = Some (dir_id d)) then None
                                       else child n ch
}.

(** What a removal leaves that failed on the way: it may have emptied the tree
    below the directory, and left every other directory as it was, the entry
    for this one too; and no removal adds an entry. *)
Class RemovalLaws (W D F : Type) `{!CapFs W D F, !CapFsLaws W D F} : Prop := {
  law_remove_open_err : forall d w w' e,
    remove_open_dir_all d w = (w', Err e) ->
      forall p ch, store w p = Some (IDir ch) ->
        (forall path, resolve (store w) (dir_id d) path <> Some p) -> store w' p = Some (IDir ch);
  law_remove_open_only_loses : forall d w p ch n i,
    store (remove_open_dir_all d w).1 p = Some (IDir ch) -> child n ch = Some i ->
    exists ch0, store w p = Some (IDir ch0) /\ child n ch0 = Some i
}.

#[export] Hint Resolve quiet_canonicalize quiet_open_ambient quiet_random quiet_try_clone
  quiet_dir_metadata quiet_symlink_metadata quiet_entries quiet_open_dir quiet_open_read
  quiet_reopen_dot quiet_fsync_dir quiet_fstat quiet_read : keeps.

Section Quiet.
Context {W D F : Type} `{HL : CapFsLaws W D F}.

#[export] Instance quiet_preorder : PreOrder quiet.
Proof. split; [by intros w i|]. intros w1 w2 w3 H1 H2 i. by rewrite H2, H1. Qed.

Lemma quiet_resolve w w' root path :
  quiet w w' -> resolve (store w') root path = resolve (store w) root path.
Proof.
  intros Hq. revert root. induction path as [|n path IH]; intros root; [done|]. simpl. rewrite Hq.
  destruct (store w root) as [[ch| | |]|]; [|done..]. destruct (child n ch); [|done]. apply IH.
Qed.
End Quiet.

Lemma resolve_app st root p q :
  resolve st root (p ++ q) = resolve st root p ≫= fun i => resolve st i q.
Proof.
  revert root. induction p as [|n p IH]; intros root; [done|]. simpl.
  destruct (st root) as [[ch| | |]|]; [|done..]. destruct (child n ch); [|done]. apply IH.
Qed.
