(* ===== verification/MemFs.v ===== *)
(** * A file system in memory

    A concrete instance of the directory-capability interface of
    [FileSystem]: a finite map of inodes, the bytes every handle has yet to
    deliver, and counters that make a call fail.  The theorems on the
    materializer are about any file system with the laws; this one shows that
    the laws can hold, and is what their witnesses run on. *)

From stdpp Require Import gmap.
From S2P Require Import Prelude Jail FileSystem.
Local Open Scope Z_scope.
Local Open Scope rust_scope.

Record MemWorld : Type := {
  mw_nodes : gmap Ident Inode;
  mw_unread : gmap Z (list byte);
  mw_next : Z;
  (** How many of the next removals of an open tree fail, and whether a change
      of permissions does. *)
  mw_failing_removals : nat;
  mw_failing_chmod : bool
}.
Definition MemFile : Type := Ident * Z.

Definition with_nodes (nodes : gmap Ident Inode) (w : MemWorld) : MemWorld :=
  {| mw_nodes := nodes; mw_unread := mw_unread w; mw_next := mw_next w;
     mw_failing_removals := mw_failing_removals w; mw_failing_chmod := mw_failing_chmod w |}.
Definition with_unread (unread : gmap Z (list byte)) (w : MemWorld) : MemWorld :=
  {| mw_nodes := mw_nodes w; mw_unread := unread; mw_next := mw_next w;
     mw_failing_removals := mw_failing_removals w; mw_failing_chmod := mw_failing_chmod w |}.
Definition stepped (w : MemWorld) : MemWorld :=
  {| mw_nodes := mw_nodes w; mw_unread := mw_unread w; mw_next := mw_next w + 1;
     mw_failing_removals := mw_failing_removals w; mw_failing_chmod := mw_failing_chmod w |}.
Definition fewer_failures (w : MemWorld) : MemWorld :=
  {| mw_nodes := mw_nodes w; mw_unread := mw_unread w; mw_next := mw_next w;
     mw_failing_removals := pred (mw_failing_removals w); mw_failing_chmod := mw_failing_chmod w |}.

Definition mem_root : Ident := (1, 1).
Definition no_entry : fs_error := io_new NotFound "no such entry".
Definition not_a_directory : fs_error := io_other "not a directory".

Definition names_of (path : UnixPath) : option (list str) :=
  match path with
  | RootDir :: path => mapM (fun c => match c with Normal n => Some n | _ => None end) path
  | _ => None
  end.
Definition dir_children (d : Ident) (w : MemWorld) : result (list (str * Ident)) fs_error :=
  match mw_nodes w !! d with Some (IDir ch) => Ok ch | _ => Err not_a_directory end.
Definition named_child (d : Ident) (n : str) (w : MemWorld) : result Ident fs_error :=
  match dir_children d w with Ok ch => ok_or (child n ch) no_entry | Err e => Err e end.
Definition without_name (n : str) : list (str * Ident) -> list (str * Ident) :=
  List.filter (fun e => negb (bool_decide (e.1 = n))).
Definition without_ident (i : Ident) (ch : list (str * Ident)) : list (str * Ident) :=
  List.filter (fun e => negb (bool_decide (child e.1 ch = Some i))) ch.
Definition drop_links (i : Ident) (x : Inode) : Inode :=
  match x with IDir ch => IDir (without_ident i ch) | x => x end.
(** A directory disappears with every entry for it. *)
Definition remove_node (i : Ident) (w : MemWorld) : MemWorld :=
  with_nodes (delete i (drop_links i <$> mw_nodes w)) w.

(** A new inode under a name that is free. *)
Definition add_node (d : Ident) (n : str) (x : Inode) (w : MemWorld) : MemWorld * result Ident fs_error :=
  match dir_children d w with
  | Err e => (w, Err e)
  | Ok ch =>
      match child n ch with
      | Some _ => (w, Err (io_new AlreadyExists "the name is taken"))
      | None =>
          let i := (1, mw_next w) in
          (stepped (with_nodes (<[i := x]> (<[d := IDir ((n, i) :: ch)]> (mw_nodes w))) w), Ok i)
      end
  end.

#[export] Instance mem_fs : CapFs MemWorld Ident MemFile := {|
  canonicalize path w := (w, Ok path);
  open_ambient_dir path w :=
    (w, match names_of path ≫= resolve (fun i => mw_nodes w !! i) mem_root with
        | Some d => match dir_children d w with Ok _ => Ok d | Err e => Err e end
        | None => Err no_entry
        end);
  remove_file path w :=
    match names_of path with
    | None => (w, Err no_entry)
    | Some names =>
        match last names, resolve (fun i => mw_nodes w !! i) mem_root (removelast names) with
        | Some n, Some d =>
            match dir_children d w with
            | Ok ch => match child n ch with
                       | Some _ => (with_nodes (<[d := IDir (without_name n ch)]> (mw_nodes w)) w, Ok ())
                       | None => (w, Err no_entry)
                       end
            | Err e => (w, Err e)
            end
        | _, _ => (w, Err no_entry)
        end
    end;
  getrandom_fill w := (stepped w, Ok (repeat "007"%byte 16));
  geteuid w := 0;
  try_clone d w := (w, Ok d);
  dir_metadata d w := (w, Ok {| md_dev := d.1; md_ino := d.2; md_uid := 0; md_mode := 448 |});
  symlink_metadata d n w :=
    (w, match named_child d n w with
        | Err e => Err e
        | Ok i => match mw_nodes w !! i with Some x => Ok (inode_type x) | None => Err no_entry end
        end);
  entries d w :=
    (w, match dir_children d w with
        | Err e => Err e
        | Ok ch => if forallb (fun e => plain_name e.1 && negb (is_dots e.1)) ch
                   then Ok (map (fun e => Ok e.1) ch) else Err (io_other "a name that is not plain")
        end);
  create_dir d n w := let '(w, r) := add_node d n (IDir []) w in (w, match r with Ok _ => Ok () | Err e => Err e end);
  create_dir_with d n _ w :=
    let '(w, r) := add_node d n (IDir []) w in (w, match r with Ok _ => Ok () | Err e => Err e end);
  open_dir_nofollow d n w :=
    (w, match named_child d n w with
        | Err e => Err e
        | Ok i => match dir_children i w with Ok _ => Ok i | Err e => Err e end
        end);
  open_new d n w :=
    match add_node d n (IFile [] 1) w with
    | (w, Ok i) => (stepped w, Ok (i, mw_next w))
    | (w, Err e) => (w, Err e)
    end;
  open_read d n w :=
    match named_child d n w with
    | Err e => (w, Err e)
    | Ok i =>
        match mw_nodes w !! i with
        | Some (IFile c _) => (stepped (with_unread (<[mw_next w := c]> (mw_unread w)) w), Ok (i, mw_next w))
        | _ => (w, Err (io_other "not a file"))
        end
    end;
  remove_dir_all d n w :=
    match named_child d n w with Err e => (w, Err e) | Ok i => (remove_node i w, Ok ()) end;
  remove_open_dir_all d w :=
    match mw_failing_removals w with
    | O => (remove_node d w, Ok ())
    | S _ => (fewer_failures w, Err (io_new PermissionDenied "the tree is busy"))
    end;
  renameat_noreplace d from d' to w :=
    if negb (bool_decide (d = d')) then (w, Err (io_other "one directory"))
    else match dir_children d w with
         | Err e => (w, Err e)
         | Ok ch =>
             match child from ch, child to ch with
             | None, _ => (w, Err no_entry)
             | _, Some _ => (w, Err (io_new AlreadyExists "the name is taken"))
             | Some i, None => (with_nodes (<[d := IDir ((to, i) :: without_name from ch)]> (mw_nodes w)) w, Ok ())
             end
         end;
  reopen_dot d w := (w, Ok d);
  fsync_dir _ w := (w, Ok ());
  fstat_nlink f w := (w, match mw_nodes w !! f.1 with Some (IFile _ l) => Ok l | _ => Err no_entry end);
  file_metadata f w :=
    (w, match mw_nodes w !! f.1 with
        | Some (IFile c _) => Ok (FtFile, Z.of_nat (length c))
        | _ => Err no_entry
        end);
  file_read f n w :=
    match mw_nodes w !! f.1 with
    | Some (IFile _ _) =>
        let left_ := default [] (mw_unread w !! f.2) in
        (with_unread (<[f.2 := drop (Z.to_nat n) left_]> (mw_unread w)) w, Ok (take (Z.to_nat n) left_))
    | _ => (w, Err no_entry)
    end;
  file_write f bytes w :=
    match mw_nodes w !! f.1 with
    | Some (IFile c l) =>
        (with_nodes (<[f.1 := IFile (c ++ bytes) l]> (mw_nodes w)) w, Ok (Z.of_nat (length bytes)))
    | _ => (w, Err no_entry)
    end;
  file_flush _ w := (w, Ok ());
  file_sync_all _ w := (w, Ok ());
  fchmod _ _ w := (w, if mw_failing_chmod w then Err (io_other "permissions are fixed") else Ok ())
|}.

(** ** The laws *)

(** Entries kept by a condition on their names. *)
Lemma child_filter_names (keep : str -> bool) n ch :
  child n (List.filter (fun e => keep e.1) ch) = if keep n then child n ch else None.
Proof.
  induction ch as [|[k i] ch IH]; [by destruct (keep n)|]. simpl. destruct (decide (k = n)) as [->|Hk].
  - rewrite (bool_decide_eq_true_2 (n = n)) by done. destruct (keep n) eqn:Hn; simpl.
    + by rewrite bool_decide_eq_true_2.
    + by rewrite IH.
  - rewrite (bool_decide_eq_false_2 (k = n)) by done.
    destruct (keep k); simpl; [rewrite bool_decide_eq_false_2 by done|]; apply IH.
Qed.
Lemma child_without_name n m ch :
  child m (without_name n ch) = if bool_decide (m = n) then None else child m ch.
Proof.
  etransitivity; [exact (child_filter_names (fun k => negb (bool_decide (k = n))) m ch)|]. simpl.
  by case_bool_decide.
Qed.
Lemma child_without_ident n i ch :
  child n (without_ident i ch) = if bool_decide (child n ch = Some i) then None else child n ch.
Proof.
  etransitivity; [exact (child_filter_names (fun k => negb (bool_decide (child k ch = Some i))) n ch)|]. simpl.
  by case_bool_decide.
Qed.

Lemma child_elem n i ch : (n, i) ∈ ch -> is_Some (child n ch).
Proof.
  induction ch as [|[k j] ch IH]; [by intros ?%elem_of_nil|]. simpl. intros [Hn|Hn]%elem_of_cons.
  - injection Hn as <- <-. by rewrite bool_decide_eq_true_2.
  - case_bool_decide; [done|]. by apply IH.
Qed.

Lemma dir_children_ok d w ch : dir_children d w = Ok ch -> mw_nodes w !! d = Some (IDir ch).
Proof. unfold dir_children. by destruct (mw_nodes w !! d) as [[ ]|]; intros [= ->]. Qed.
Lemma named_child_ok d n w i :
  named_child d n w = Ok i -> exists ch, mw_nodes w !! d = Some (IDir ch) /\ child n ch = Some i.
Proof.
  unfold named_child. destruct (dir_children d w) as [ch|e] eqn:Hd; [|done].
  apply dir_children_ok in Hd. intros Hi. exists ch. split; [done|]. by destruct (child n ch); simplify_eq/=.
Qed.

Ltac look := intros; simpl; repeat case_match; simpl; done.

#[export] Program Instance mem_laws : CapFsLaws MemWorld Ident MemFile := {|
  store w i := mw_nodes w !! i;
  dir_id d := d;
  file_id f := f.1;
  unread w f := default [] (mw_unread w !! f.2)
|}.
Solve Obligations with (try look).
Next Obligation. by intros d w w' d' [= <- <-]. Qed.
Next Obligation. intros d w w' m [= <- <-]. by destruct d. Qed.
Next Obligation.
  intros d n w w' t _ [= <- Ht]. destruct (named_child d n w) as [i|] eqn:Hn; [|done].
  apply named_child_ok in Hn as (ch & Hd & Hi). simpl.
  destruct (mw_nodes w !! i) as [x|] eqn:Hx; [|done]. injection Ht as <-. by exists ch, i, x.
Qed.
Next Obligation.
  intros d w w' es [= <- He]. destruct (dir_children d w) as [ch|] eqn:Hd; [|done].
  apply dir_children_ok in Hd. exists ch. split; [done|].
  destruct (forallb _ ch) eqn:Hall; [|done]. injection He as <-. rewrite forallb_forall in Hall. split.
  - intros n (e & [= ->] & He)%list_elem_of_fmap _. destruct e as [k i]. simpl.
    split; [|by eapply child_elem]. apply list_elem_of_In, Hall in He. by apply andb_true_iff in He as [? _].
  - intros _ n [i Hi]. apply elem_child in Hi.
    assert (In (n, i) ch) as Hin by by apply list_elem_of_In.
    apply Hall, andb_true_iff in Hin as [_ Hdots]. split; [|by apply negb_true_iff in Hdots].
    apply list_elem_of_fmap. by exists (n, i).
Qed.
Next Obligation.
  intros d n w w' d' _ [= <- Ho]. destruct (named_child d n w) as [i|] eqn:Hn; [|done].
  apply named_child_ok in Hn as (ch & Hd & Hi). destruct (dir_children i w) as [ch'|] eqn:Hc; [|done].
  apply dir_children_ok in Hc. injection Ho as <-. by exists ch, ch'.
Qed.
Next Obligation.
  intros d n w w' f _. simpl. destruct (named_child d n w) as [i|] eqn:Hn; [|done].
  apply named_child_ok in Hn as (ch & Hd & Hi). destruct (mw_nodes w !! i) as [[|c l| |]|] eqn:Hx; [done| |done..].
  intros [= <- <-]. exists ch. split_and!; [done..|]. simpl. intros c' l'. rewrite Hx, lookup_insert_eq. by intros [= <- <-].
Qed.
Next Obligation.
  intros f w w' n [= <- Hn]. split; [done|]. intros c l Hx. rewrite Hx in Hn. by injection Hn.
Qed.
Next Obligation.
  intros f n w w' bytes Hn. simpl. destruct (mw_nodes w !! f.1) as [[|c l| |]|] eqn:Hx; [done| |done..].
  intros [= <- <-]. simpl. rewrite lookup_insert_eq. simpl. rewrite take_drop.
  split_and!; [by eauto|done|rewrite length_take; lia|].
  intros Hpos Ht. destruct (default [] (mw_unread w !! f.2)) as [|b rest]; [done|].
  destruct (Z.to_nat n) eqn:E; [lia|done].
Qed.
Next Obligation.
  intros d from to w w' _ _. simpl. rewrite bool_decide_eq_true_2 by done. simpl.
  destruct (dir_children d w) as [ch|] eqn:Hd; [|done]. apply dir_children_ok in Hd.
  destruct (child from ch) as [i|] eqn:Hf; [|done]. destruct (child to ch) eqn:Ht; [done|]. intros [= <-].
  exists ch, ((to, i) :: without_name from ch), i. simpl. rewrite lookup_insert_eq. split_and!; [done..| |].
  - intros n. destruct (decide (to = n)) as [->|Hne].
    + by rewrite !bool_decide_eq_true_2 by done.
    + by rewrite !(bool_decide_eq_false_2 (_ = _)) by done; rewrite child_without_name.
  - intros j Hj. by rewrite lookup_insert_ne.
Qed.
Next Obligation.
  intros d from to w w' e. simpl. rewrite bool_decide_eq_true_2 by done. simpl.
  repeat case_match; intros [= <-]; done.
Qed.
Next Obligation.
  intros d w w'. simpl. destruct (mw_failing_removals w); [|done]. intros [= <-]. simpl.
  rewrite lookup_delete_eq. split; [done|]. intros p ch Hp Hno.
  assert (p <> d) as Hne by (intros ->; by apply (Hno [])).
  exists (without_ident d ch). rewrite lookup_delete_ne by done. rewrite lookup_fmap, Hp. split; [done|].
  intros n. apply child_without_ident.
Qed.

#[export] Instance mem_removal_laws : RemovalLaws MemWorld Ident MemFile.
Proof.
  split.
  { intros d w w' e. simpl. destruct (mw_failing_removals w); [done|]. by intros [= <- _]. }
  intros d w p ch n i. simpl. destruct (mw_failing_removals w); simpl; intros Hp Hc; [|by exists ch].
  destruct (decide (p = d)) as [->|Hne]; [by rewrite lookup_delete_eq in Hp|].
  rewrite lookup_delete_ne, lookup_fmap in Hp by done.
  destruct (mw_nodes w !! p) as [[ch0| | |]|]; simplify_eq/=. exists ch0. split; [done|].
  rewrite child_without_ident in Hc. by case_bool_decide.
Qed.
