(* ===== verification/Materialize.v ===== *)
(** * The capability materializer ([materialize.rs])

    Creation of the private stage below the destination's parent, the
    directories and files written into it, the audit of the staged tree
    against the archive IR, its publication by one rename, its removal when
    anything fails, and the recovery of an abandoned stage.  The Linux build
    is modelled; the hooks the tests inject are not. *)

From S2P Require Import Prelude Utf8 StageWitness Findings Snapshot Streams Ir Jail Evidence Policy Transforms Verification Outcome FileSystem.
Local Open Scope Z_scope.
Local Open Scope rust_scope.

(** ** Texts and records outside this crate *)

(** [Debug for str]. *)
Class DebugStr : Type := debug_str : str -> string.
(** The serde encoding of the retention record. *)
Class RetentionCodec : Type := {
  retention_json : StageRetention -> list byte;
  retention_from_json : list byte -> result StageRetention string
}.

(** [Path::file_name], and [parent] with the filter for an empty one. *)
Definition file_name (p : UnixPath) : option str :=
  match last p with Some (Normal n) => Some n | _ => None end.
Definition parent_or_dot (p : UnixPath) : UnixPath :=
  match removelast p with [] => [CurDir] | parent => parent end.

(** ** State *)

Record MaterializationSetupError : Type := {
  se_findings : list Finding;
  se_cleanup : string;
  se_windows : option WindowsMaterializationEvidence
}.
Definition before_stage (finding : Finding) (windows : option WindowsMaterializationEvidence) :
    MaterializationSetupError :=
  {| se_findings := [finding]; se_cleanup := "not-created"; se_windows := windows |}.
(** [From<Finding>]. *)
Definition setup_from (finding : Finding) : MaterializationSetupError :=
  {| se_findings := [finding]; se_cleanup := "not-created"; se_windows := initial_windows_evidence |}.

Record CapabilityMaterializer {D : Type} : Type := {
  mz_parent : D;
  mz_root : option D;
  mz_stage_name : str;
  mz_final_name : str;
  mz_atomic : bool;
  mz_directory_sync : bool;
  mz_parent_sync_failed : bool;
  mz_parent_sync_error : option Finding;
  mz_outcome : string;
  mz_cleanup : string;
  mz_windows : option WindowsMaterializationEvidence;
  mz_witness : option StageWitness;
  mz_retention_file : option UnixPath;
  mz_retention_discard_error : option Finding
}.
Arguments CapabilityMaterializer : clear implicits.

Section Setters.
Context {D : Type}.
Local Abbreviation Mat := (CapabilityMaterializer D).

Definition with_sync (sync_dirs atomic failed : bool) (e : option Finding) (m : Mat) : Mat :=
  {| mz_parent := mz_parent m; mz_root := mz_root m; mz_stage_name := mz_stage_name m;
     mz_final_name := mz_final_name m; mz_atomic := atomic; mz_directory_sync := sync_dirs;
     mz_parent_sync_failed := failed; mz_parent_sync_error := e;
     mz_outcome := mz_outcome m; mz_cleanup := mz_cleanup m; mz_windows := mz_windows m;
     mz_witness := mz_witness m; mz_retention_file := mz_retention_file m;
     mz_retention_discard_error := mz_retention_discard_error m |}.
Definition with_stage (root : option D) (outcome cleanup : string) (witness : option StageWitness)
    (m : Mat) : Mat :=
  {| mz_parent := mz_parent m; mz_root := root; mz_stage_name := mz_stage_name m;
     mz_final_name := mz_final_name m; mz_atomic := mz_atomic m;
     mz_directory_sync := mz_directory_sync m;
     mz_parent_sync_failed := mz_parent_sync_failed m; mz_parent_sync_error := mz_parent_sync_error m;
     mz_outcome := outcome; mz_cleanup := cleanup; mz_windows := mz_windows m;
     mz_witness := witness; mz_retention_file := mz_retention_file m;
     mz_retention_discard_error := mz_retention_discard_error m |}.
Definition with_retention (file : option UnixPath) (e : option Finding) (m : Mat) : Mat :=
  {| mz_parent := mz_parent m; mz_root := mz_root m; mz_stage_name := mz_stage_name m;
     mz_final_name := mz_final_name m; mz_atomic := mz_atomic m;
     mz_directory_sync := mz_directory_sync m;
     mz_parent_sync_failed := mz_parent_sync_failed m; mz_parent_sync_error := mz_parent_sync_error m;
     mz_outcome := mz_outcome m; mz_cleanup := mz_cleanup m; mz_windows := mz_windows m;
     mz_witness := mz_witness m; mz_retention_file := file;
     mz_retention_discard_error := e |}.
Definition with_outcome (outcome : string) (m : Mat) : Mat :=
  with_stage (mz_root m) outcome (mz_cleanup m) (mz_witness m) m.

(** [enable_directory_sync], and the two errors that are taken once. *)
Definition enable_directory_sync (m : Mat) : Mat :=
  with_sync true true (mz_parent_sync_failed m) (mz_parent_sync_error m) m.
Definition take_retention_discard_error (m : Mat) : Mat * option Finding :=
  (with_retention (mz_retention_file m) None m, mz_retention_discard_error m).
Definition take_parent_directory_sync_error (m : Mat) : Mat * option Finding :=
  (with_sync (mz_directory_sync m) (mz_atomic m) (mz_parent_sync_failed m) None m,
   mz_parent_sync_error m).

Definition reported_durability (m : Mat) : string :=
  if mz_directory_sync m && negb (mz_parent_sync_failed m) then "directory-sync"
  else if mz_atomic m then "member-sync" else "flush-only".

(** [to_str] of the stage component cannot fail: it is ASCII. *)
Definition failed_stage_retention (m : Mat) : option StageRetention :=
  if negb (String.eqb (mz_cleanup m) "failed") then None
  else witness ← mz_witness m; component ← from_utf8 (mz_stage_name m); from_live component witness.

Definition report (m : Mat) : MaterializationMeta :=
  {| mm_schema := MATERIALIZATION_SCHEMA; mm_requested := true; mm_backend := BACKEND;
     mm_stage_mode := stage_mode; mm_stage_creation_primitive := stage_creation_primitive;
     mm_member_resolution := MEMBER_RESOLUTION; mm_durability := reported_durability m;
     mm_publication_primitive := publication_primitive; mm_outcome := mz_outcome m;
     mm_cleanup := mz_cleanup m; mm_windows := mz_windows m;
     mm_stage_retention := failed_stage_retention m |}.
End Setters.

(** ** Permissions *)

Definition unix_parent_mode_is_safe (owner effective_uid mode : Z) : bool :=
  let trusted_owner := (owner =? effective_uid) || (owner =? 0) in
  let externally_writable := negb (Z.land mode 18 =? 0) in
  let sticky := negb (Z.land mode 512 =? 0) in
  trusted_owner && (negb externally_writable || sticky).

(** [validate_component]. *)
Definition validate_component (component : str) : result unit Finding :=
  if plain_name component then Ok ()
  else Err (error MaterializeUnsafeComponent
              "invalid canonical path component: component is not one normal relative name").

Section Materialize.
Context {W D F : Type} `{!CapFs W D F, !Sha256, !DebugStr, !RetentionCodec}.
Local Abbreviation Mat := (CapabilityMaterializer D).
Local Abbreviation MW A := (M W A Finding).

(** A call whose failure becomes a finding. *)
Definition or_finding {A} (code : FindingCode) (what : string) (op : W -> W * result A fs_error) : MW A :=
  on_err (fun e => error code (what +++ message e)) (call op).

Definition ensure_parent_namespace_safe (parent : D) : MW unit :=
  let@ metadata :=
    on_err (fun _ => error MaterializeUnsafeParent
                       "destination parent security metadata could not be read")
      (call (dir_metadata parent)) in
  let owner := md_uid metadata in
  let@ effective_uid := (fun w => ret (geteuid w) w) in
  reject@ negb (owner =? effective_uid) && negb (owner =? 0)
    with error MaterializeUnsafeParent "destination parent is owned by an untrusted principal" ;;
  reject@ negb (unix_parent_mode_is_safe owner effective_uid (md_mode metadata))
    with error MaterializeUnsafeParent
           "destination parent permits cross-principal namespace mutation" ;;
  ret ().

Definition ensure_stage_namespace_safe (root : D) : MW unit :=
  let@ metadata :=
    on_err (fun _ => error MaterializeUnsafeParent
                       "staging directory security metadata could not be read")
      (call (dir_metadata root)) in
  let@ effective_uid := (fun w => ret (geteuid w) w) in
  reject@ negb (md_uid metadata =? effective_uid) || negb (Z.land (md_mode metadata) 63 =? 0)
    with error MaterializeUnsafeParent "staging directory ownership or permissions are unsafe" ;;
  ret ().

Definition retained_stage_witness (root : D) : M W (option StageWitness) fs_error :=
  let@ metadata := call (dir_metadata root) in
  ret (Some (unix_witness (md_dev metadata) (md_ino metadata))).

Definition ensure_stage_name_matches_root (parent root : D) (name : str) : M W unit fs_error :=
  let@ named := call (open_dir_nofollow parent name) in
  let@ named_metadata := call (dir_metadata named) in
  let@ root_metadata := call (dir_metadata root) in
  if (md_dev named_metadata =? md_dev root_metadata) && (md_ino named_metadata =? md_ino root_metadata)
  then ret ()
  else throw (io_new PermissionDenied "stage device and inode identity changed").

Definition capability_path_exists (dir : D) (path : str) : MW bool :=
  let@ r := attempt (call (symlink_metadata dir path)) in
  match r with
  | Ok _ => ret true
  | Err e =>
      if bool_decide (kind e = NotFound) then ret false
      else throw (error MaterializeIo ("inspect destination: " +++ message e))
  end.

(** ** Creation of the stage *)

(** [create_stage]: the error says whether the directory exists. *)
Definition create_stage (parent : D) (name : str) : M W D (fs_error * bool) :=
  let@ _ := on_err (fun e => (e, false)) (call (create_dir_with parent name 448)) in
  on_err (fun e => (e, true)) (call (open_dir_nofollow parent name)).

(** [after_stage], [after_stage_by_name]: one removal, one retry. *)
Definition remove_twice (first final : W -> W * result unit fs_error)
    (wording : string -> string -> string)
    (windows : option WindowsMaterializationEvidence) (finding : Finding) :
    MW MaterializationSetupError :=
  let@ r := attempt (call first) in
  match r with
  | Ok _ => ret {| se_findings := [finding]; se_cleanup := "removed"; se_windows := windows |}
  | Err first_error =>
      let@ r := attempt (call final) in
      match r with
      | Ok _ => ret {| se_findings := [finding]; se_cleanup := "removed"; se_windows := windows |}
      | Err final_error =>
          ret {| se_findings :=
                   [finding; error MaterializeCleanup (wording (message first_error) (message final_error))];
                 se_cleanup := "failed"; se_windows := windows |}
      end
  end.
Definition after_stage (parent root : D) (stage_name : str)
    (windows : option WindowsMaterializationEvidence) (finding : Finding) : MW MaterializationSetupError :=
  remove_twice (remove_open_dir_all root) (remove_dir_all parent stage_name)
    (fun a b => "remove staging tree after setup failure: retained handle: " +++ a
                  +++ "; parent-relative retry: " +++ b) windows finding.
Definition after_stage_by_name (parent : D) (stage_name : str)
    (windows : option WindowsMaterializationEvidence) (finding : Finding) : MW MaterializationSetupError :=
  remove_twice (remove_dir_all parent stage_name) (remove_dir_all parent stage_name)
    (fun a b => "remove staging tree after setup failure: first attempt: " +++ a
                  +++ "; retry: " +++ b) windows finding.

(** A failure after the stage exists removes it and reports. *)
Definition failing {A} (cleanup : MW MaterializationSetupError) : M W A MaterializationSetupError :=
  let@ e := on_err setup_from cleanup in throw e.

(** The stage is open: its permissions and its witness. *)
Definition adopt_stage (parent root : D) (stage_name final_name : str) (atomic : bool)
    (windows_report : option WindowsMaterializationEvidence) : M W Mat MaterializationSetupError :=
  let@ r := attempt (ensure_stage_namespace_safe root) in
  match r with
  | Err finding => failing (after_stage parent root stage_name windows_report finding)
  | Ok _ =>
      let@ r := attempt (retained_stage_witness root) in
      match r with
      | Err e =>
          failing (after_stage parent root stage_name windows_report
                     (error MaterializeIo ("record retained stage witness: " +++ message e)))
      | Ok witness =>
          ret {| mz_parent := parent; mz_root := Some root; mz_stage_name := stage_name;
                 mz_final_name := final_name; mz_atomic := atomic; mz_directory_sync := false;
                 mz_parent_sync_failed := false; mz_parent_sync_error := None;
                 mz_outcome := "staged"; mz_cleanup := "pending"; mz_windows := windows_report;
                 mz_witness := witness; mz_retention_file := None;
                 mz_retention_discard_error := None |}
      end
  end.

(** The loop over random names. *)
Fixpoint allocate_stage (attempts : nat) (parent : D) (final_name : str) (atomic : bool)
    (windows_report : option WindowsMaterializationEvidence) : M W Mat MaterializationSetupError :=
  match attempts with
  | O => throw (before_stage (error MaterializeIo "could not allocate a unique staging directory")
                  windows_report)
  | S attempts =>
      let@ random :=
        on_err (fun e => before_stage (error MaterializeIo ("generate staging name: " +++ e)) windows_report)
          (call getrandom_fill) in
      let stage_name := STAGE_PREFIX ++ concat (map hex_byte random) in
      let@ r := attempt (create_stage parent stage_name) in
      match r with
      | Ok root => adopt_stage parent root stage_name final_name atomic windows_report
      | Err (e, created) =>
          if negb created && bool_decide (kind e = AlreadyExists)
          then allocate_stage attempts parent final_name atomic windows_report
          else if created
          then failing (after_stage_by_name parent stage_name windows_report
                 (error MaterializeIo ("open staging capability without following links: " +++ message e)))
          else throw (before_stage
                 (error MaterializeIo ("create staging directory through capability: " +++ message e))
                 windows_report)
      end
  end.

Definition create (dest : UnixPath) (atomic : bool) : M W Mat MaterializationSetupError :=
  match file_name dest with
  | None => throw (setup_from (error MaterializeIo
                     "destination must name a directory below an existing root"))
  | Some final_name =>
      let@ parent_path :=
        on_err setup_from (or_finding MaterializeIo "resolve existing destination parent: "
                             (canonicalize (parent_or_dot dest))) in
      let@ parent :=
        on_err setup_from (or_finding MaterializeIo "open destination parent capability: "
                             (open_ambient_dir parent_path)) in
      let@ _ := on_err setup_from (ensure_parent_namespace_safe parent) in
      let windows_report := None in
      let@ found :=
        on_err (fun finding => before_stage finding windows_report)
          (capability_path_exists parent final_name) in
      reject@ found
        with before_stage (error MaterializeExists
               "destination already exists; replacement is not implemented") windows_report ;;
      allocate_stage 128 parent final_name atomic windows_report
  end.

(** ** Writing into the stage *)

Definition stage_root (m : Mat) : result D Finding :=
  ok_or (mz_root m) (error MaterializeIo "staging capability is unavailable").

(** The loop of [open_or_create_directories]. *)
Fixpoint descend_creating (current : D) (parts : list str) : MW D :=
  match parts with
  | [] => ret current
  | part :: parts =>
      let@ _ := pure_result (validate_component part) in
      let@ created := attempt (call (create_dir current part)) in
      let@ _ :=
        match created with
        | Ok _ => ret ()
        | Err e =>
            if bool_decide (kind e = AlreadyExists) then ret ()
            else throw (error MaterializeIo ("create directory component " +++ debug_str part
                          +++ ": " +++ message e))
        end in
      let@ next :=
        or_finding MaterializeUnsafeComponent
          ("open directory component " +++ debug_str part +++ " without following links: ")
          (open_dir_nofollow current part) in
      descend_creating next parts
  end.
Definition open_or_create_directories (root : D) (parts : list str) : MW D :=
  let@ current := or_finding MaterializeIo "clone staging capability: " (try_clone root) in
  descend_creating current parts.

(** [StageWriteRoot::create_directory], [create_file]. *)
Definition writer_create_directory (root : D) (parts : list str) (member : str) : MW unit :=
  on_err (fun finding => on finding member)
    (let@ _ := open_or_create_directories root parts in ret ()).
Definition writer_create_file (root : D) (parts : list str) : MW F :=
  match last parts with
  | None => throw (error MaterializeIo "canonical member has no path components")
  | Some leaf =>
      let@ _ := pure_result (validate_component leaf) in
      let@ parent := open_or_create_directories root (removelast parts) in
      or_finding MaterializeUnsafeComponent "create member without following links: "
        (open_new parent leaf)
  end.

(** [stage_writer]: a clone of the root. *)
Definition stage_writer (m : Mat) : MW D :=
  let@ root := pure_result (stage_root m) in
  or_finding MaterializeIo "clone staging capability: " (try_clone root).
Definition create_directory (m : Mat) (parts : list str) (member : str) : MW unit :=
  let@ writer := stage_writer m in writer_create_directory writer parts member.
Definition create_file (m : Mat) (parts : list str) : MW F :=
  let@ writer := stage_writer m in writer_create_file writer parts.

(** [RetainingWriter]: what the file took is what is captured; [write_all] is
    the standard library's loop over it. *)
Definition retaining_write (file : F) (st : W * option (list byte)) (bytes : list byte) :
    (W * option (list byte)) * result Z fs_error :=
  match file_write file bytes st.1 with
  | (w, Ok written) =>
      ((w, (fun capture => capture ++ take (Z.to_nat written) bytes) <$> st.2), Ok written)
  | (w, Err e) => ((w, st.2), Err e)
  end.
Fixpoint retaining_write_all (fuel : nat) (file : F) (st : W * option (list byte)) (bytes : list byte) :
    (W * option (list byte)) * result unit string :=
  match bytes, fuel with
  | [], _ => (st, Ok ())
  | _, O => (st, Ok ())
  | _, S fuel =>
      match retaining_write file st bytes with
      | (st, Ok written) =>
          if written =? 0 then (st, Err "failed to write whole buffer")
          else retaining_write_all fuel file st (drop (Z.to_nat written) bytes)
      | (st, Err e) => (st, Err (message e))
      end
  end.
Definition retaining_writer (file : F) : Write (W * option (list byte)) :=
  {| write_all st bytes := retaining_write_all (length bytes) file st bytes |}.

(** [process_member_to_file]: the capture after it, with the result. *)
Definition process_member_to_file `{!Crc32, !Inflate} {R} `{BufRead R} (payload : R)
    (member : PayloadPlan) (budget : ResourceBudget) (remaining_total : Z) (member_sync : bool)
    (capture : option (list byte)) (file : F) :
    M W (option (list byte) * (Z * Z * list byte)) Finding := fun w =>
  match @verify_payload _ _ _ _ _ _ (retaining_writer file) payload member budget remaining_total (w, capture) with
  | None => (w, None)
  | Some (Err ((w, _), finding)) => (w, Some (Err finding))
  | Some (Ok ((w, capture), result)) =>
      (let@ _ := or_finding MaterializeIo "flush member: " (file_flush file) in
       let@ _ := if member_sync then or_finding MaterializeIo "sync member: " (file_sync_all file)
                 else ret () in
       ret (capture, result)) w
  end.

(** ** The audit *)

(** [open_existing_directories]. *)
Fixpoint descend_existing (current : D) (parts : list str) : MW D :=
  match parts with
  | [] => ret current
  | part :: parts =>
      let@ _ := pure_result (validate_component part) in
      let@ next :=
        or_finding MaterializeAudit ("audit open directory " +++ debug_str part +++ ": ")
          (open_dir_nofollow current part) in
      descend_existing next parts
  end.
Definition open_existing_directories (m : Mat) (parts : list str) : MW D :=
  let@ root := pure_result (stage_root m) in
  let@ current := or_finding MaterializeIo "clone staging capability: " (try_clone root) in
  descend_existing current parts.

Definition ensure_single_link (file : F) : M W unit fs_error :=
  let@ links := call (fstat_nlink file) in
  if links =? 1 then ret ()
  else throw (io_new PermissionDenied ("expected link count 1, observed " +++ fmt_dec links)).

(** The loop of [hash_staged_file]: every pass but the last reads a byte, and
    it stops one byte past the expected size. *)
Definition HASH_BUFFER : Z := 65536.
Fixpoint hash_loop (fuel : nat) (file : F) (expected_size : Z) (seen : list byte) :
    M W (list byte) fs_error :=
  match fuel with
  | O => spent
  | S fuel =>
      let size := Z.of_nat (length seen) in
      let remaining := u64_saturating_sub expected_size size in
      let read_limit := Z.min (u64_saturating_add remaining 1) HASH_BUFFER in
      let@ read := call (file_read file read_limit) in
      match read with
      | [] => ret seen
      | _ =>
          match u64_checked_add size (Z.of_nat (length read)) with
          | None => throw (io_other "staged file size overflowed u64")
          | Some size =>
              if expected_size <? size then ret (seen ++ read)
              else hash_loop fuel file expected_size (seen ++ read)
          end
      end
  end.
Definition hash_staged_file (file : F) (expected_size : Z) : M W (Z * str) fs_error :=
  let@ bytes := hash_loop (S (S (Z.to_nat expected_size))) file expected_size [] in
  ret (Z.of_nat (length bytes), digest_hex (sha256 bytes)).

(** A [BTreeSet] of component lists, up to order and repetition. *)
Definition PathSet : Type := list (list str).
Definition set_eq (a b : PathSet) : bool :=
  forallb (fun p => bool_decide (p ∈ b)) a && forallb (fun p => bool_decide (p ∈ a)) b.

Definition audit_finding (detail : string) : Finding := error MaterializeAudit detail.

(** The entries of one directory of [collect_stage_tree]; [recurse] is the
    call on a child. *)
Fixpoint collect_entries (recurse : D -> list str -> PathSet * PathSet -> MW (PathSet * PathSet))
    (dir : D) (prefix : list str) (es : list (result (list byte) fs_error)) (acc : PathSet * PathSet) :
    MW (PathSet * PathSet) :=
  match es with
  | [] => ret acc
  | entry :: es =>
      let@ os_name :=
        pure_result (map_err (fun e => audit_finding ("audit read directory entry: " +++ message e)) entry) in
      let@ name := pure_result (ok_or (from_utf8 os_name) (audit_finding "staged name is not UTF-8")) in
      if is_dots name then collect_entries recurse dir prefix es acc
      else
        let@ file_type :=
          or_finding MaterializeAudit ("audit metadata for " +++ debug_str name +++ ": ")
            (symlink_metadata dir name) in
        reject@ is_symlink file_type
          with audit_finding ("staged tree contains a reparse point at " +++ debug_str name) ;;
        let path := prefix ++ [name] in
        if is_dir file_type then
          let@ child :=
            or_finding MaterializeAudit ("audit open staged directory " +++ debug_str name +++ ": ")
              (open_dir_nofollow dir name) in
          let@ acc := recurse child path (path :: acc.1, acc.2) in
          collect_entries recurse dir prefix es acc
        else if is_file file_type then
          collect_entries recurse dir prefix es (acc.1, path :: acc.2)
        else throw (audit_finding ("staged tree contains a non-file, non-directory entry at "
                      +++ debug_str name))
  end.
(** Fuel for the depth of the tree. *)
Fixpoint collect_stage_tree (depth : nat) (dir : D) (prefix : list str) (acc : PathSet * PathSet) :
    MW (PathSet * PathSet) :=
  match depth with
  | O => spent
  | S depth =>
      let@ es := or_finding MaterializeAudit "audit list directory: " (entries dir) in
      collect_entries (collect_stage_tree depth) dir prefix es acc
  end.

(** The proper prefixes of a path. *)
Definition parents_of (path : list str) : PathSet :=
  map (fun i => take i path) (seq 1 (length path - 1)).

(** What the audit reads of one file member. *)
Definition audit_file (m : Mat) (member : IrMember) : MW unit :=
  let named {A} := on_err (A:=A) (W:=W) (fun f : Finding => on f (decoded_name member)) in
  match content_sha256 member, actual_uncomp_size member, last (ir_components member) with
  | None, _, _ => throw (on (audit_finding "file member is missing a content digest") (decoded_name member))
  | _, None, _ => throw (on (audit_finding "file member is missing a verified size") (decoded_name member))
  | _, _, None => throw (on (audit_finding "file member has no path components") (decoded_name member))
  | Some expected_sha, Some expected_size, Some leaf =>
      let@ parent := open_existing_directories m (removelast (ir_components member)) in
      let@ file := named (or_finding MaterializeAudit "audit open file: " (open_read parent leaf)) in
      let@ _ := named (on_err (fun e => audit_finding ("audited file link state is unsafe: " +++ message e))
                         (ensure_single_link file)) in
      let@ (actual_size, actual_sha) :=
        named (on_err (fun e => audit_finding ("audit read file: " +++ message e))
                 (hash_staged_file file expected_size)) in
      reject@ negb (actual_size =? expected_size)
        with on (audit_finding "staged size does not match the admitted IR") (decoded_name member) ;;
      reject@ negb (bool_decide (actual_sha = expected_sha))
        with on (audit_finding "staged content does not match the admitted IR") (decoded_name member) ;;
      ret ()
  end.

(** The loop over the members, with the expected directories and files. *)
Fixpoint audit_members (m : Mat) (members : list IrMember) (expected : PathSet * PathSet) :
    MW (PathSet * PathSet) :=
  match members with
  | [] => ret expected
  | member :: members =>
      let components := ir_components member in
      match components, ir_kind member with
      | [], KindDirectory => audit_members m members expected
      | [], KindFile => throw (on (audit_finding "file member has no path components") (decoded_name member))
      | _, KindDirectory =>
          let@ _ := open_existing_directories m components in
          audit_members m members (parents_of components ++ components :: expected.1, expected.2)
      | _, KindFile =>
          let@ _ := audit_file m member in
          audit_members m members (parents_of components ++ expected.1, components :: expected.2)
      end
  end.

Definition audit_against (depth : nat) (m : Mat) (ir : ArchiveIR) : MW unit :=
  let@ root := pure_result (stage_root m) in
  let@ _ :=
    on_err (fun finding => audit_finding ("staging root security drifted before audit: " +++ detail finding))
      (ensure_stage_namespace_safe root) in
  let@ _ :=
    on_err (fun e => audit_finding ("staging name does not identify the retained root: " +++ message e))
      (ensure_stage_name_matches_root (mz_parent m) root (mz_stage_name m)) in
  let@ (expected_dirs, expected_files) := audit_members m (members ir) ([], []) in
  let@ (actual_dirs, actual_files) := collect_stage_tree depth root [] ([], []) in
  reject@ negb (set_eq actual_dirs expected_dirs) || negb (set_eq actual_files expected_files)
    with audit_finding "staged tree paths do not match the admitted IR" ;;
  ret ().

(** ** Publication *)

(** [sync_open_directory] on Linux. *)
Definition sync_directory (dir : D) : M W unit fs_error :=
  let@ reopened := call (reopen_dot dir) in call (fsync_dir reopened).

(** The entries of one directory of [sync_directory_tree]. *)
Fixpoint sync_entries (recurse : D -> M W unit fs_error) (dir : D)
    (es : list (result (list byte) fs_error)) : M W unit fs_error :=
  match es with
  | [] => ret ()
  | entry :: es =>
      let@ os_name := pure_result entry in
      let@ name := pure_result (ok_or (from_utf8 os_name) (io_new InvalidData "staged name is not UTF-8")) in
      if is_dots name then sync_entries recurse dir es
      else
        let@ file_type := call (symlink_metadata dir name) in
        reject@ is_symlink file_type
          with io_new PermissionDenied "staged directory sync found a reparse point" ;;
        let@ _ :=
          if is_dir file_type then let@ child := call (open_dir_nofollow dir name) in recurse child
          else reject@ negb (is_file file_type)
                 with io_new InvalidData "staged directory sync found a non-file, non-directory entry" ;;
               ret () in
        sync_entries recurse dir es
  end.
Fixpoint sync_directory_tree (depth : nat) (dir : D) : M W unit fs_error :=
  match depth with
  | O => spent
  | S depth =>
      let@ es := call (entries dir) in
      let@ _ := sync_entries (sync_directory_tree depth) dir es in
      sync_directory dir
  end.

(** [rename_noreplace] on Linux. *)
Definition rename_noreplace (parent : D) (from to : str) : M W unit fs_error :=
  call (renameat_noreplace parent from parent to).

(** [discard_stage_retention_file]: a failure keeps the path for another try. *)
Definition discard_stage_retention_file {E} (m : Mat) : M W (Mat * result unit Finding) E :=
  match mz_retention_file m with
  | None => ret (m, Ok ())
  | Some path =>
      let taken := with_retention None (mz_retention_discard_error m) m in
      let@ r := attempt (call (remove_file path)) in
      match r with
      | Ok _ => ret (taken, Ok ())
      | Err e =>
          if bool_decide (kind e = NotFound) then ret (taken, Ok ())
          else ret (m, Err (error MaterializeCleanup ("remove stage retention record: " +++ message e)))
      end
  end.

(** The checks of [commit] before anything is changed. *)
Definition check_witness (m : Mat) (root : D) : MW unit :=
  match mz_witness m with
  | None => ret ()
  | Some recorded =>
      let@ observed :=
        on_err (fun e => error MaterializeCommit ("reread retained stage witness: " +++ message e))
          (retained_stage_witness root) in
      if bool_decide (compare_witnesses (Some recorded) observed = SameObject) then ret ()
      else throw (error MaterializeCommit "retained stage witness does not match the staged directory")
  end.
Definition publication_failed (m : Mat) (code : FindingCode) (detail : string) : Mat * Finding :=
  (with_outcome "publication-failed" m, error code detail).

(** [commit]: a failure carries the materializer as it is then. *)
Definition commit (depth : nat) (m : Mat) : M W Mat (Mat * Finding) :=
  let unchanged {A} := on_err (A:=A) (W:=W) (fun f : Finding => (m, f)) in
  let@ root :=
    pure_result (ok_or (mz_root m)
      (m, error MaterializeCommit "staging capability is unavailable during publication")) in
  let@ _ :=
    unchanged (on_err (fun e => error MaterializeCommit
                         ("staging name no longer identifies the audited root: " +++ message e))
                 (ensure_stage_name_matches_root (mz_parent m) root (mz_stage_name m))) in
  let@ _ := unchanged (check_witness m root) in
  let@ _ :=
    if mz_directory_sync m then
      on_err (fun e => publication_failed m MaterializeCommit
                         ("sync staged directories before publication: " +++ message e))
        (sync_directory_tree depth root)
    else ret () in
  let@ _ :=
    on_err (fun e =>
        if bool_decide (kind e = AlreadyExists)
        then publication_failed m MaterializeExists "destination appeared while materializing"
        else publication_failed m MaterializeCommit ("publish staging directory: " +++ message e))
      (rename_noreplace (mz_parent m) (mz_stage_name m) (mz_final_name m)) in
  let published := with_stage None "committed" "not-applicable-after-commit" None m in
  let@ synced :=
    if mz_directory_sync m then
      let@ r := attempt (sync_directory (mz_parent m)) in
      match r with
      | Ok _ => ret published
      | Err e =>
          ret (with_sync true (mz_atomic m) true
                 (Some (error MaterializeCommit
                          ("sync destination parent after publication: " +++ message e))) published)
      end
    else ret published in
  let@ (discarded, r) := discard_stage_retention_file synced in
  match r with
  | Ok _ => ret discarded
  | Err finding => ret (with_retention (mz_retention_file discarded) (Some finding) discarded)
  end.

(** ** Removal *)

Definition abort {E} (m : Mat) : M W (Mat * result unit Finding) E :=
  if negb (String.eqb (mz_cleanup m) "pending" || String.eqb (mz_cleanup m) "failed")
  then ret (m, Ok ())
  else
    let@ r :=
      attempt (call match mz_root m with
                    | Some root => remove_open_dir_all root
                    | None => remove_dir_all (mz_parent m) (mz_stage_name m)
                    end) in
    let outcome := if String.eqb (mz_outcome m) "staged" then "aborted"%string else mz_outcome m in
    match r with
    | Ok _ => discard_stage_retention_file (with_stage None outcome "removed" None m)
    | Err e =>
        ret (with_stage None outcome "failed" (mz_witness m) m,
             Err (error MaterializeCleanup ("remove staging tree: " +++ message e)))
    end.

(** [abort_and_report] of [apply.rs]: one retry, then the report. *)
Definition abort_and_report {E} (stage : option Mat) (findings : list Finding)
    (fallback : MaterializationMeta) :
    M W (option Mat * list Finding * MaterializationMeta) E :=
  match stage with
  | None => ret (None, findings, fallback)
  | Some m =>
      let@ (m, r) := abort m in
      match r with
      | Ok _ => ret (Some m, findings, report m)
      | Err first_cleanup =>
          let findings := findings ++ [first_cleanup] in
          let@ (m, r) := abort m in
          match r with
          | Ok _ => ret (Some m, findings, report m)
          | Err final_cleanup => ret (Some m, findings ++ [final_cleanup], report m)
          end
      end
  end.

(** ** The retention record *)

Definition single_retention_file_name (path : UnixPath) : result str Finding :=
  match file_name path with
  | None => Err (error MaterializeIo "stage retention path must name a file")
  | Some name => Ok name
  end.

(** [persist_stage_retention] on Linux: the materializer after it. *)
Definition persist_stage_retention (m : Mat) (path : UnixPath) : MW Mat :=
  let@ witness :=
    pure_result (ok_or (mz_witness m) (error MaterializeIo
      "abandoned stage retention has no recorded file identifier on this platform")) in
  let@ component :=
    pure_result (ok_or (from_utf8 (mz_stage_name m))
      (error MaterializeUnsafeComponent "stage component is not unicode")) in
  let@ retention :=
    pure_result (ok_or (from_live component witness)
      (error MaterializeUnsafeComponent "stage component is not an exact recorded name")) in
  let@ name := pure_result (single_retention_file_name path) in
  let@ parent_path :=
    or_finding MaterializeIo "resolve stage retention parent: " (canonicalize (parent_or_dot path)) in
  let@ parent := or_finding MaterializeIo "open stage retention parent: " (open_ambient_dir parent_path) in
  let@ parent_metadata := or_finding MaterializeIo "read stage retention parent: " (dir_metadata parent) in
  let@ root := pure_result (stage_root m) in
  let@ root_metadata := or_finding MaterializeIo "read retained stage: " (dir_metadata root) in
  reject@ (md_dev parent_metadata =? md_dev root_metadata) && (md_ino parent_metadata =? md_ino root_metadata)
    with error MaterializeIo "stage retention record must not be written inside the stage" ;;
  let@ destination_metadata :=
    or_finding MaterializeIo "read destination parent: " (dir_metadata (mz_parent m)) in
  reject@ (md_dev parent_metadata =? md_dev destination_metadata)
          && (md_ino parent_metadata =? md_ino destination_metadata)
          && bool_decide (name = mz_stage_name m)
    with error MaterializeIo "stage retention record must not replace the stage directory" ;;
  let bytes := retention_json retention in
  let@ file :=
    or_finding MaterializeIo "create stage retention record without following links: "
      (open_new parent name) in
  let@ _ := or_finding MaterializeIo "restrict stage retention record: " (fchmod file 384) in
  let@ _ := (fun w =>
    let '((w, _), r) := write_all (Write:=retaining_writer file) (w, None) bytes in
    (w, Some (map_err (fun e => error MaterializeIo ("write stage retention record: " +++ e)) r))) in
  let@ _ := or_finding MaterializeIo "sync stage retention record: " (file_sync_all file) in
  ret (with_retention (Some (parent_path ++ [Normal name])) (mz_retention_discard_error m) m).

(** [take(4097)] and [read_to_end]: short reads until the end or the limit. *)
Fixpoint read_up_to (fuel : nat) (file : F) (limit : Z) (seen : list byte) : M W (list byte) fs_error :=
  match fuel with
  | O => ret seen
  | S fuel =>
      let left_ := limit - Z.of_nat (length seen) in
      if left_ <=? 0 then ret seen
      else
        let@ read := call (file_read file left_) in
        match read with [] => ret seen | _ => read_up_to fuel file limit (seen ++ read) end
  end.

Definition read_stage_retention (path : UnixPath) : MW StageRetention :=
  let too_large := error MaterializeIo
    "stage retention record must be a regular file of at most 4096 bytes" in
  let@ name := pure_result (single_retention_file_name path) in
  let@ parent_path :=
    or_finding MaterializeIo "resolve stage retention parent: " (canonicalize (parent_or_dot path)) in
  let@ parent := or_finding MaterializeIo "open stage retention parent: " (open_ambient_dir parent_path) in
  let@ file :=
    or_finding MaterializeIo "open stage retention record without following links: "
      (open_read parent name) in
  let@ (file_type, len) :=
    or_finding MaterializeIo "read stage retention record metadata: " (file_metadata file) in
  reject@ negb (is_file file_type) || (4096 <? len) with too_large ;;
  let@ bytes :=
    on_err (fun e => error MaterializeIo ("read stage retention record: " +++ message e))
      (read_up_to 4097 file 4097 []) in
  reject@ 4096 <? Z.of_nat (length bytes) with too_large ;;
  let@ retention :=
    pure_result (map_err (fun e => error MaterializeIo
        ("stage retention record is not sealr.stage-retention.v1: " +++ e)) (retention_from_json bytes)) in
  reject@ negb (validate_retention retention)
    with error MaterializeUnsafeComponent "stage retention record is not an exact recorded witness" ;;
  ret retention.

(** ** Recovery of an abandoned stage *)

Definition open_recovery_parent (parent : UnixPath) : MW D :=
  let@ parent_path := or_finding MaterializeIo "resolve destination parent: " (canonicalize parent) in
  or_finding MaterializeIo "open destination parent capability: " (open_ambient_dir parent_path).
Definition open_abandoned_stage (parent : D) (stage_component : str) : MW D :=
  or_finding MaterializeIo "open abandoned stage without following links: "
    (open_dir_nofollow parent stage_component).
Definition remove_matching_opened_stage (root : D) (retention : StageRetention) : MW unit :=
  let@ _ := ensure_stage_namespace_safe root in
  let@ observed :=
    on_err (fun e => error MaterializeIo ("read abandoned stage witness: " +++ message e))
      (retained_stage_witness root) in
  let@ presented :=
    pure_result (ok_or (from_record (sr_witness retention))
      (error MaterializeUnsafeComponent "abandoned stage retention is not an exact recorded witness")) in
  reject@ negb (bool_decide (compare_witnesses (Some presented) observed = SameObject))
    with audit_finding "abandoned stage witness does not match the opened directory" ;;
  or_finding MaterializeCleanup "remove abandoned stage: " (remove_open_dir_all root).

Definition recover_abandoned_stage (parent : UnixPath) (retention : StageRetention) : MW unit :=
  reject@ negb (validate_retention retention)
    with error MaterializeUnsafeComponent
           "abandoned stage retention is not an exact recorded witness" ;;
  reject@ negb (is_for_this_platform (sr_witness retention))
    with error MaterializeIo "abandoned stage witness does not match this platform" ;;
  let@ parent_dir := open_recovery_parent parent in
  let@ _ := ensure_parent_namespace_safe parent_dir in
  let@ root := open_abandoned_stage parent_dir (sr_stage_component retention) in
  remove_matching_opened_stage root retention.
End Materialize.
