(* ===== verification/MaterializeSafe.v ===== *)
(** * What the materializer publishes and removes

    The staged tree as a store sees it, the audit's meaning, publication as
    one rename of the audited tree, and recovery as the removal of exactly the
    directory a record names.  Everything is proved against the laws of the
    capability interface ([FileSystem]). *)

From S2P Require Import Prelude Utf8 StageWitness Findings Snapshot Streams Ir Jail JailSafe Evidence Policy Transforms Verification Outcome FileSystem Materialize.
Local Open Scope Z_scope.
Local Open Scope rust_scope.

Section Safe.
Context {W D F : Type} `{HL : CapFsLaws W D F} `{SHA : !Sha256, DBG : !DebugStr, RET : !RetentionCodec}.
Local Abbreviation Mat := (CapabilityMaterializer D).

(** ** Computations that only look *)

Lemma quiet_bind {A B E} (m : M W A E) (k : A -> M W B E) :
  keeps quiet m -> (forall a, keeps quiet (k a)) -> keeps quiet (bind m k).
Proof. apply keeps_bind, _. Qed.
Lemma quiet_call {A E} (op : W -> W * result A E) :
  (forall w, quiet w (op w).1) -> keeps quiet (call op).
Proof. apply keeps_call. Qed.
Lemma quiet_finding {A} code what (op : W -> W * result A fs_error) :
  (forall w, quiet w (op w).1) -> keeps quiet (or_finding code what op).
Proof. intros Hq. by apply keeps_on_err, quiet_call. Qed.

Ltac looks :=
  repeat first
    [ apply quiet_bind; [|intros ?]
    | apply keeps_on_err | apply keeps_attempt | apply quiet_finding | apply quiet_call
    | apply keeps_ret; apply _ | apply keeps_throw; apply _ | apply keeps_spent; apply _
    | apply keeps_pure; apply _
    | apply keeps_if
    | solve [eauto with keeps nocore]
    | match goal with |- keeps _ (match ?x with _ => _ end) => destruct x end ].

Lemma geteuid_quiet {E} : keeps (A:=Z) (E:=E) quiet (fun w => ret (geteuid w) w).
Proof. intros w. simpl. reflexivity. Qed.
Local Hint Resolve geteuid_quiet : keeps.

Lemma stage_safe_quiet root : keeps quiet (ensure_stage_namespace_safe root).
Proof. unfold ensure_stage_namespace_safe. looks. Qed.
Lemma parent_safe_quiet parent : keeps quiet (ensure_parent_namespace_safe parent).
Proof. unfold ensure_parent_namespace_safe. looks. Qed.
Lemma witness_quiet root : keeps quiet (retained_stage_witness root).
Proof. unfold retained_stage_witness. looks. Qed.
Lemma name_matches_quiet parent root name : keeps quiet (ensure_stage_name_matches_root parent root name).
Proof. unfold ensure_stage_name_matches_root. looks. Qed.
Local Hint Resolve stage_safe_quiet parent_safe_quiet witness_quiet name_matches_quiet : keeps.
Lemma check_witness_quiet (m : Mat) root : keeps quiet (check_witness m root).
Proof. unfold check_witness. looks. Qed.
Lemma descend_quiet parts current : keeps quiet (descend_existing current parts).
Proof. revert current. induction parts; intros current; simpl; looks. Qed.
Local Hint Resolve check_witness_quiet descend_quiet : keeps.
Lemma open_existing_quiet m parts : keeps quiet (open_existing_directories m parts).
Proof. unfold open_existing_directories. looks. Qed.
Lemma single_link_quiet f : keeps quiet (ensure_single_link f).
Proof. unfold ensure_single_link. looks. Qed.
Lemma hash_loop_quiet fuel f n seen : keeps quiet (hash_loop fuel f n seen).
Proof. revert seen. induction fuel; intros seen; simpl; looks. Qed.
Local Hint Resolve open_existing_quiet single_link_quiet hash_loop_quiet : keeps.
Lemma hash_file_quiet f n : keeps quiet (hash_staged_file f n).
Proof. unfold hash_staged_file. looks. Qed.
Local Hint Resolve hash_file_quiet : keeps.
Lemma audit_file_quiet m member : keeps quiet (audit_file m member).
Proof. unfold audit_file. looks. Qed.
Local Hint Resolve audit_file_quiet : keeps.
Lemma audit_members_quiet m members ex : keeps quiet (audit_members m members ex).
Proof. revert ex. induction members; intros ex; simpl; looks. Qed.
Lemma collect_entries_quiet recurse dir prefix es acc :
  (forall d p a, keeps quiet (recurse d p a)) -> keeps quiet (collect_entries recurse dir prefix es acc).
Proof. intros Hr. revert acc. induction es; intros acc; simpl; looks. Qed.
Lemma collect_quiet depth dir prefix acc : keeps quiet (collect_stage_tree depth dir prefix acc).
Proof. revert dir prefix acc. induction depth; intros; simpl; looks. by apply collect_entries_quiet. Qed.
Lemma sync_directory_quiet dir : keeps quiet (sync_directory dir).
Proof. unfold sync_directory. looks. Qed.
Local Hint Resolve audit_members_quiet collect_quiet sync_directory_quiet : keeps.
Lemma sync_entries_quiet recurse dir es :
  (forall d, keeps quiet (recurse d)) -> keeps quiet (sync_entries recurse dir es).
Proof. intros Hr. induction es; simpl; looks. Qed.
Lemma sync_tree_quiet depth dir : keeps quiet (sync_directory_tree depth dir).
Proof. revert dir. induction depth; intros; simpl; looks. by apply sync_entries_quiet. Qed.
Lemma audit_quiet depth m ir : keeps quiet (audit_against depth m ir).
Proof. unfold audit_against. looks. Qed.

(** ** What each look tells *)

Definition is_directory (st : Ident -> option Inode) (i : Ident) : Prop := exists ch, st i = Some (IDir ch).

Lemma quiet_store w w' : quiet w w' -> forall i, store w' i = store w i.
Proof. done. Qed.

Lemma name_matches_sound parent root name w w' :
  plain_name name = true ->
  ensure_stage_name_matches_root parent root name w = (w', Some (Ok ())) ->
  exists ch, store w (dir_id parent) = Some (IDir ch) /\ child name ch = Some (dir_id root)
    /\ is_directory (store w) (dir_id root).
Proof.
  intros Hn Hr. unfold ensure_stage_name_matches_root in Hr. run_ok Hr.
  apply law_open_dir in Hr0 as (ch & ch' & Hch & Hchild & Hdir); [|done].
  apply law_dir_metadata in Hr1. apply law_dir_metadata in Hr2.
  destruct (_ && _) eqn:He in Hr; [|done]. breflect.
  assert (dir_id root = dir_id a) as -> by congruence. exists ch. split_and!; [done..|by exists ch'].
Qed.

Lemma descend_sound parts current w w' d :
  descend_existing current parts w = (w', Some (Ok d)) ->
  resolve (store w) (dir_id current) parts = Some (dir_id d)
  /\ (parts = [] \/ is_directory (store w) (dir_id d)).
Proof.
  revert current w. induction parts as [|part parts IH]; intros current w Hr; simpl in Hr.
  { apply ret_ok in Hr as [_ ->]. auto. }
  run_ok Hr. unfold validate_component in Hr0.
  destruct (plain_name part) eqn:Hp; [|done].
  match goal with Ho : or_finding _ _ _ _ = _ |- _ => rename Ho into Hopen end.
  pose proof (keeps_run _ _ _ _ _ (quiet_finding _ _ _ (quiet_open_dir _ _)) Hopen) as Hq.
  unfold or_finding in Hopen. run_ok Hopen.
  apply law_open_dir in Hopen as (ch & ch' & Hch & Hchild & Hdir); [|done].
  destruct (IH _ _ Hr) as [Hres Hdir']. simpl. rewrite Hch, Hchild. simpl.
  split; [by rewrite <- Hres, (quiet_resolve _ _ _ _ Hq)|]. right.
  destruct Hdir' as [->|[c Hc]].
  - simpl in Hres. injection Hres as <-. by exists ch'.
  - exists c. by rewrite <- (Hq (dir_id d)).
Qed.

Lemma open_existing_sound (m : Mat) root parts w w' d :
  mz_root m = Some root ->
  open_existing_directories m parts w = (w', Some (Ok d)) ->
  resolve (store w) (dir_id root) parts = Some (dir_id d)
  /\ (parts = [] \/ is_directory (store w) (dir_id d)).
Proof.
  intros Hm Hr. unfold open_existing_directories, stage_root in Hr. rewrite Hm in Hr. run_ok Hr.
  simpl in Hr0. injection Hr0 as <-.
  match goal with Ho : or_finding _ _ _ _ = _ |- _ => rename Ho into Hc end.
  pose proof (keeps_run _ _ _ _ _ (quiet_finding _ _ _ (quiet_try_clone _)) Hc) as Hq.
  unfold or_finding in Hc. run_ok Hc. apply law_try_clone in Hc.
  apply descend_sound in Hr as [Hres Hdir]. rewrite Hc in Hres.
  split; [by rewrite <- Hres, (quiet_resolve _ _ _ _ Hq)|].
  destruct Hdir as [->|[c Hd]]; [auto|]. right. exists c. by rewrite <- (Hq (dir_id d)).
Qed.

(** What has been read is a prefix of what was there, and all of it when it
    does not exceed the expected size. *)
Lemma hash_loop_sound fuel f n seen w w' bytes :
  hash_loop fuel f n seen w = (w', Some (Ok bytes)) ->
  (exists c l, store w (file_id f) = Some (IFile c l))
  /\ exists rest, seen ++ unread w f = bytes ++ rest /\ (Z.of_nat (length bytes) <= n -> rest = []).
Proof.
  revert seen w. induction fuel as [|fuel IH]; intros seen w Hr; [done|]. simpl in Hr.
  apply bind_ok in Hr as (w1 & read & Hread & Hr).
  pose proof (keeps_run _ _ _ _ _ (quiet_call _ (quiet_read _ _)) Hread) as Hq. run_ok Hread.
  unfold u64_saturating_add, u64_saturating_sub, HASH_BUFFER, u64_max in *.
  apply law_read in Hread as (Hf & Hu & _ & Hend); [|lia]. split; [done|].
  destruct read as [|b read].
  - run_ok Hr. exists (unread w f). split; [by rewrite Hu|]. intros _. apply Hend; [lia|done].
  - destruct (u64_checked_add _ _) as [sz|] eqn:Hsz; [|done].
    apply u64_checked_add_Some in Hsz as [-> _].
    destruct (Z.ltb_spec n (Z.of_nat (length seen) + Z.of_nat (length (b :: read)))).
    + run_ok Hr. exists (unread w1 f). rewrite Hu, app_assoc. split; [done|].
      rewrite length_app. lia.
    + apply IH in Hr as (_ & rest & Heq & Hrest). exists rest.
      by rewrite <- Heq, Hu, app_assoc.
Qed.

(** ** The audit of one file *)

(** A path holds exactly one link to a file with the size and digest the IR
    says were verified. *)
Definition file_audited (st : Ident -> option Inode) (root : Ident) (member : IrMember) : Prop :=
  exists i content,
    resolve st root (ir_components member) = Some i /\ st i = Some (IFile content 1)
    /\ actual_uncomp_size member = Some (Z.of_nat (length content))
    /\ content_sha256 member = Some (digest_hex (sha256 content)).

Lemma hash_file_sound f n w w' size sha :
  hash_staged_file f n w = (w', Some (Ok (size, sha))) ->
  (exists c l, store w (file_id f) = Some (IFile c l))
  /\ (size = n -> size = Z.of_nat (length (unread w f)) /\ sha = digest_hex (sha256 (unread w f))).
Proof.
  intros Hr. unfold hash_staged_file in Hr. apply bind_ok in Hr as (w1 & bytes & Hb & Hr). run_ok Hr.
  injection Hr as -> ->. apply hash_loop_sound in Hb as (Hf & rest & Heq & Hrest).
  split; [done|]. intros Hn. rewrite Hrest, app_nil_r in Heq by lia. simpl in Heq. by subst.
Qed.

Lemma named_last (path : list str) leaf : last path = Some leaf -> path = removelast path ++ [leaf].
Proof.
  intros Hl. destruct path as [|p path _] using rev_ind; [done|].
  rewrite last_snoc in Hl. injection Hl as ->. by rewrite removelast_last.
Qed.

Lemma audit_file_sound (m : Mat) root member w w' :
  mz_root m = Some root -> plain_name (default [] (last (ir_components member))) = true ->
  audit_file m member w = (w', Some (Ok ())) -> file_audited (store w) (dir_id root) member.
Proof.
  intros Hm Hplain Hr. unfold audit_file in Hr.
  destruct (content_sha256 member) as [sha|] eqn:Hsha; [|done].
  destruct (actual_uncomp_size member) as [size|] eqn:Hsize; [|done].
  destruct (last (ir_components member)) as [leaf|] eqn:Hleaf; [|done]. simpl in Hplain.
  apply bind_ok in Hr as (w1 & parent & Hpar & Hr).
  pose proof (keeps_run _ _ _ _ _ (open_existing_quiet _ _) Hpar) as Hq1.
  apply (open_existing_sound _ _ _ _ _ _ Hm) in Hpar as [Hres _].
  apply bind_ok in Hr as (w2 & file & Hopen & Hr). apply on_err_ok in Hopen.
  pose proof (keeps_run _ _ _ _ _ (quiet_finding _ _ _ (quiet_open_read _ _)) Hopen) as Hq2.
  unfold or_finding in Hopen. run_ok Hopen.
  apply law_open_read in Hopen as (ch & Hch & Hchild & Hunread); [|done].
  apply bind_ok in Hr as (w3 & [] & Hlink & Hr). apply on_err_ok, on_err_ok in Hlink.
  pose proof (keeps_run _ _ _ _ _ (single_link_quiet _) Hlink) as Hq3.
  unfold ensure_single_link in Hlink. run_ok Hlink.
  match goal with Hn : fstat_nlink _ _ = _ |- _ => apply law_fstat in Hn as [Hsame Hlinks] end.
  destruct (Z.eqb_spec a 1) as [->|]; [|done]. apply ret_ok in Hlink as [-> _].
  apply bind_ok in Hr as (w4 & [asize asha] & Hhash & Hr). apply on_err_ok, on_err_ok in Hhash.
  apply hash_file_sound in Hhash as ((c & l & Hfile) & Hsound). run_ok Hr. breflect.
  apply bool_decide_eq_true in Hg0. subst.
  destruct (Hsound eq_refl) as [Hs1 Hs2].
  assert (store w1 (file_id file) = Some (IFile c l)) as Hf1 by by rewrite <- Hfile, Hq3, Hq2.
  assert (l = 1) as -> by (eapply Hlinks; by rewrite Hq2).
  rewrite Hsame, (Hunread _ _ Hf1) in Hs1, Hs2.
  exists (file_id file), c. split_and!.
  - rewrite (named_last _ _ Hleaf), resolve_app, Hres. simpl.
    by rewrite <- Hq1, Hch, Hchild.
  - by rewrite <- Hq1.
  - by rewrite Hsize, Hs1.
  - by rewrite Hsha, Hs2.
Qed.

(** ** The walk of the staged tree *)

Definition is_regular (st : Ident -> option Inode) (i : Ident) : Prop := exists c l, st i = Some (IFile c l).

(** The paths below a directory whose first name is covered by [through], by
    the kind of what they lead to. *)
Definition leads (st : Ident -> option Inode) (dir : Ident) (prefix : list str)
    (through : str -> Prop) (kind : Ident -> Prop) (p : list str) : Prop :=
  exists n q i, p = prefix ++ n :: q /\ through n /\ resolve st dir (n :: q) = Some i /\ kind i.

Record walked (st : Ident -> option Inode) (dir : Ident) (prefix : list str) (through : str -> Prop)
    (acc out : PathSet * PathSet) : Prop := {
  wk_dirs : forall p, p ∈ out.1 <-> p ∈ acc.1 \/ leads st dir prefix through (is_directory st) p;
  wk_files : forall p, p ∈ out.2 <-> p ∈ acc.2 \/ leads st dir prefix through (is_regular st) p;
  wk_kinds : forall n q i, through n -> resolve st dir (n :: q) = Some i ->
    is_directory st i \/ is_regular st i
}.

Lemma leads_iff st dir prefix (t t' : str -> Prop) k p :
  (forall n, t n <-> t' n) -> leads st dir prefix t k p <-> leads st dir prefix t' k p.
Proof. intros Ht. unfold leads. by setoid_rewrite Ht. Qed.

Lemma walked_iff st dir prefix (t t' : str -> Prop) acc out :
  (forall n, t n <-> t' n) -> walked st dir prefix t acc out -> walked st dir prefix t' acc out.
Proof.
  intros Ht [H1 H2 H3]. split.
  - intros p. rewrite H1. by rewrite (leads_iff st dir prefix t t').
  - intros p. rewrite H2. by rewrite (leads_iff st dir prefix t t').
  - intros n q i Hn. apply H3. by apply Ht.
Qed.

Lemma leads_or st dir prefix (t t' : str -> Prop) k p :
  leads st dir prefix (fun n => t n \/ t' n) k p <->
  leads st dir prefix t k p \/ leads st dir prefix t' k p.
Proof.
  split.
  - intros (n & q & i & -> & [Ht|Ht] & Hr); [left|right]; by exists n, q, i.
  - intros [(n & q & i & -> & Ht & Hr)|(n & q & i & -> & Ht & Hr)]; exists n, q, i; auto.
Qed.

Lemma walked_trans st dir prefix (t t' : str -> Prop) acc mid out :
  walked st dir prefix t acc mid -> walked st dir prefix t' mid out ->
  walked st dir prefix (fun n => t n \/ t' n) acc out.
Proof.
  intros [H1 H2 H3] [G1 G2 G3]. split.
  - intros p. rewrite G1, H1, leads_or. tauto.
  - intros p. rewrite G2, H2, leads_or. tauto.
  - intros n q i [Hn|Hn]; eauto.
Qed.

Lemma walked_none st dir prefix acc : walked st dir prefix (fun _ => False) acc acc.
Proof.
  split; [| |by intros ??? []]; intros p; (split; [by left|]); by intros [|(? & ? & ? & ? & [] & ?)].
Qed.

(** One entry: a file, or a directory with what is below it. *)
Lemma walked_file st dir ch prefix n i acc :
  st dir = Some (IDir ch) -> child n ch = Some i -> is_regular st i ->
  walked st dir prefix (fun x => x = n) acc (acc.1, (prefix ++ [n]) :: acc.2).
Proof.
  intros Hd Hc (c & l & Hi).
  assert (forall q j, resolve st dir (n :: q) = Some j -> q = [] /\ j = i) as Hres.
  { intros q j. simpl. rewrite Hd, Hc. simpl. destruct q; simpl; [by intros [= ->]|by rewrite Hi]. }
  split; simpl.
  - intros p. split; [by left|]. intros [|(x & q & j & -> & -> & Hr & ch' & Hj)]; [done|].
    apply Hres in Hr as [_ ->]. congruence.
  - intros p. rewrite elem_of_cons. split.
    + intros [->|]; [|by left]. right. exists n, [], i. split_and!; [done..| |by exists c, l].
      simpl. by rewrite Hd, Hc.
    + intros [|(x & q & j & -> & -> & Hr & _)]; [by right|]. apply Hres in Hr as [-> _]. by left.
  - intros x q j -> Hr. apply Hres in Hr as [_ ->]. right. by exists c, l.
Qed.

Lemma walked_dir st dir ch prefix n i acc out :
  st dir = Some (IDir ch) -> child n ch = Some i -> is_directory st i ->
  walked st i (prefix ++ [n]) (fun _ => True) ((prefix ++ [n]) :: acc.1, acc.2) out ->
  walked st dir prefix (fun x => x = n) acc out.
Proof.
  intros Hd Hc Hi [H1 H2 H3]. simpl in *.
  assert (forall q, resolve st dir (n :: q) = resolve st i q) as Hres by (intros q; simpl; by rewrite Hd, Hc).
  assert (forall k p, leads st i (prefix ++ [n]) (fun _ => True) k p ->
            leads st dir prefix (fun x => x = n) k p) as Hdown.
  { intros k p (x & q & j & -> & _ & Hr & Hk). exists n, (x :: q), j.
    rewrite <- app_assoc, Hres. done. }
  assert (forall k p, leads st dir prefix (fun x => x = n) k p ->
            (p = prefix ++ [n] /\ k i) \/ leads st i (prefix ++ [n]) (fun _ => True) k p) as Hup.
  { intros k p (x & q & j & -> & -> & Hr & Hk). rewrite Hres in Hr.
    destruct q as [|x q]; [injection Hr as ->; by left|]. right.
    exists x, q, j. by rewrite <- app_assoc. }
  split.
  - intros p. rewrite H1, elem_of_cons. split.
    + intros [[->|]|]; [right; exists n, [], i; by rewrite Hres|by left|right; by apply Hdown].
    + intros [|[[-> _]|]%Hup]; tauto.
  - intros p. rewrite H2. split; [intros [|]; [by left|right; by apply Hdown]|].
    intros [|[[-> (c & l & Hk)]|]%Hup]; [by left| |by right].
    destruct Hi as [ch' Hi]. congruence.
  - intros x q j -> Hr. rewrite Hres in Hr. destruct q as [|y q]; [injection Hr as <-; by left|by eapply H3].
Qed.

(** The names of a list of entries that are not the dots. *)
Definition listed (es : list (result (list byte) fs_error)) (n : str) : Prop :=
  Ok n ∈ es /\ is_dots n = false.

Lemma from_utf8_same bytes s : from_utf8 bytes = Some s -> s = bytes.
Proof. unfold from_utf8. destruct (chars bytes); [by intros [= <-]|done]. Qed.

Lemma walked_cons st dir prefix n es acc mid out :
  walked st dir prefix (fun x => x = n) acc mid -> is_dots n = false ->
  walked st dir prefix (listed es) mid out ->
  walked st dir prefix (listed (Ok n :: es)) acc out.
Proof.
  intros H1 Hn H2. eapply walked_iff; [|exact (walked_trans _ _ _ _ _ _ _ _ H1 H2)].
  intros x. unfold listed. rewrite elem_of_cons. split.
  - intros [->|[]]; [by split; [left|]|by split; [right|]].
  - intros [[[= ->]|] ?]; [by left|by right].
Qed.

Section Walk.
Context (w0 : W) (recurse : D -> list str -> PathSet * PathSet -> M W (PathSet * PathSet) Finding).
Context (Hquiet : forall d p a, keeps quiet (recurse d p a)).
Context (Hrec : forall d p a w w' out, quiet w0 w ->
  recurse d p a w = (w', Some (Ok out)) -> walked (store w0) (dir_id d) p (fun _ => True) a out).

Lemma collect_entries_sound dir ch prefix es acc w w' out :
  quiet w0 w -> store w0 (dir_id dir) = Some (IDir ch) ->
  (forall n, listed es n -> plain_name n = true) ->
  collect_entries recurse dir prefix es acc w = (w', Some (Ok out)) ->
  Forall (fun e => is_ok e = true) es /\ walked (store w0) (dir_id dir) prefix (listed es) acc out.
Proof.
  intros Hq Hd. revert acc w Hq. induction es as [|entry es IH]; intros acc w Hq Hplain Hr.
  { apply ret_ok in Hr as [_ ->]. split; [done|].
    eapply walked_iff; [|apply walked_none]. intros n. by split; [|intros [?%elem_of_nil _]]. }
  assert (forall n, listed es n -> plain_name n = true) as Hplain'.
  { intros n [Hn Hdots]. apply Hplain. by split; [right|]. }
  cbn [collect_entries] in Hr. apply bind_ok in Hr as (w1 & os & Hos & Hr). run_ok Hos.
  destruct entry as [os'|e]; [|done]. injection Hos as ->.
  apply bind_ok in Hr as (w2 & n & Hn & Hr). run_ok Hn. apply ok_or_ok, from_utf8_same in Hn as ->.
  rewrite Forall_cons.
  destruct (is_dots os) eqn:Hdots.
  { destruct (IH _ _ Hq Hplain' Hr) as [Hf Hw]. split; [done|]. eapply walked_iff; [|exact Hw].
    intros n. unfold listed. rewrite elem_of_cons. split; [tauto|].
    intros [[[= ->]|] ?]; [congruence|done]. }
  assert (plain_name os = true) as Hp by (apply Hplain; split; [by left|done]).
  apply bind_ok in Hr as (w3 & t & Ht & Hr).
  pose proof (keeps_run _ _ _ _ _ (quiet_finding _ _ _ (quiet_symlink_metadata _ _)) Ht) as Hq3.
  assert (quiet w0 w3) as Hq03 by by etransitivity.
  unfold or_finding in Ht. run_ok Ht.
  apply law_symlink_metadata in Ht as (ch' & i & x & Hch' & Hchild & Hx & <-); [|done].
  rewrite Hq in Hch', Hx. rewrite Hd in Hch'. injection Hch' as <-.
  apply reject_ok in Hr as [_ Hr].
  destruct x as [ch'|c l| |]; cbn in Hr; [| |done..].
  - apply bind_ok in Hr as (w4 & c & Hopen & Hr).
    pose proof (keeps_run _ _ _ _ _ (quiet_finding _ _ _ (quiet_open_dir _ _)) Hopen) as Hq4.
    unfold or_finding in Hopen. run_ok Hopen.
    apply law_open_dir in Hopen as (ch1 & ch2 & Hch1 & Hc & _); [|done].
    rewrite Hq03, Hd in Hch1. injection Hch1 as <-. rewrite Hchild in Hc. injection Hc as ->.
    apply bind_ok in Hr as (w5 & mid & Hrun & Hr).
    assert (quiet w0 w4) as Hq04 by by etransitivity.
    assert (quiet w0 w5) as Hq05.
    { etransitivity; [exact Hq04|]. exact (keeps_run _ _ _ _ _ (Hquiet _ _ _) Hrun). }
    destruct (IH _ _ Hq05 Hplain' Hr) as [Hf Hw]. split; [done|].
    eapply walked_cons; [|done|exact Hw].
    eapply walked_dir; [done..|by exists ch'|]. by eapply Hrec in Hrun.
  - destruct (IH _ _ Hq03 Hplain' Hr) as [Hf Hw]. split; [done|].
    eapply walked_cons; [|done|exact Hw]. eapply walked_file; [done..|by exists c, l].
Qed.
End Walk.

Lemma collect_sound depth dir prefix acc w0 w w' out :
  quiet w0 w -> collect_stage_tree depth dir prefix acc w = (w', Some (Ok out)) ->
  walked (store w0) (dir_id dir) prefix (fun _ => True) acc out.
Proof.
  revert dir prefix acc w w' out. induction depth as [|depth IH]; intros dir prefix acc w w' out Hq Hr; [done|].
  cbn [collect_stage_tree] in Hr. apply bind_ok in Hr as (w1 & es & Hes & Hr).
  pose proof (keeps_run _ _ _ _ _ (quiet_finding _ _ _ (quiet_entries _)) Hes) as Hq1.
  unfold or_finding in Hes. run_ok Hes. apply law_entries in Hes as (ch & Hch & Hsome & Hall).
  rewrite Hq in Hch. assert (quiet w0 w1) as Hq01 by by etransitivity.
  eapply (collect_entries_sound w0) in Hr as [Hf Hw]; [|by intros; apply collect_quiet| | |exact Hch|].
  - destruct Hw as [H1 H2 H3]. specialize (Hall Hf).
    assert (forall n q i, resolve (store w0) (dir_id dir) (n :: q) = Some i -> listed es n) as Hl.
    { intros n q i Hres. simpl in Hres. rewrite Hch in Hres. apply Hall.
      destruct (child n ch); [by eexists|done]. }
    assert (forall k p, leads (store w0) (dir_id dir) prefix (listed es) k p <->
              leads (store w0) (dir_id dir) prefix (fun _ => True) k p) as Hk.
    { intros k p. split; intros (n & q & i & -> & _ & Hres & Hk); exists n, q, i; eauto. }
    split; [intros p; by rewrite H1, Hk|intros p; by rewrite H2, Hk|]. intros n q i _ Hres. eauto.
  - intros d p a w2 w2' out2 Hq2 Hr2. by eapply IH.
  - done.
  - intros n [Hn Hdots]. by apply Hsome.
Qed.

(** ** The staged tree of an archive *)

(** The directories and files an archive's members call for. *)
Definition calls_for_dir (ms : list IrMember) (p : list str) : Prop :=
  p <> [] /\ exists m q, m ∈ ms /\ ir_components m = p ++ q /\ (q <> [] \/ ir_kind m = KindDirectory).
Definition calls_for_file (ms : list IrMember) (p : list str) : Prop :=
  exists m, m ∈ ms /\ ir_kind m = KindFile /\ ir_components m = p.

(** A store holds, below a directory, exactly an archive's directories and
    files, every file one link to the content that was verified. *)
Record staged (st : Ident -> option Inode) (root : Ident) (ir : ArchiveIR) : Prop := {
  st_dirs : forall p, p <> [] ->
    (exists i, resolve st root p = Some i /\ is_directory st i) <-> calls_for_dir (members ir) p;
  st_files : forall p, p <> [] ->
    (exists i, resolve st root p = Some i /\ is_regular st i) <-> calls_for_file (members ir) p;
  st_kinds : forall p i, p <> [] -> resolve st root p = Some i -> is_directory st i \/ is_regular st i;
  st_contents : Forall (fun m => ir_kind m = KindFile -> file_audited st root m) (members ir)
}.

(** The paths of an archive's members are components, none of them empty, and
    a file has at least one. *)
Definition components_plain (ir : ArchiveIR) : Prop :=
  Forall (fun m => Forall (fun c => plain_name c = true) (ir_components m)) (members ir).

Lemma elem_of_parents_of path p : p ∈ parents_of path <-> p <> [] /\ exists q, q <> [] /\ path = p ++ q.
Proof.
  unfold parents_of. rewrite list_elem_of_In, in_map_iff. setoid_rewrite in_seq. split.
  - intros (i & <- & Hi). split.
    + intros Ht%(f_equal length). rewrite length_take in Ht. simpl in Ht. lia.
    + exists (drop i path). split; [|by rewrite take_drop].
      intros Hd%(f_equal length). rewrite length_drop in Hd. simpl in Hd. lia.
  - intros [Hp (q & Hq & ->)]. exists (length p). rewrite take_app_length, length_app.
    split; [done|]. destruct p, q; try done. simpl. lia.
Qed.

Lemma calls_for_dir_cons x ms p :
  calls_for_dir (x :: ms) p <->
  (p <> [] /\ exists q, ir_components x = p ++ q /\ (q <> [] \/ ir_kind x = KindDirectory))
  \/ calls_for_dir ms p.
Proof.
  unfold calls_for_dir. split.
  - intros [Hp (y & q & [->|Hy]%elem_of_cons & H1 & H2)]; [by left; split; [|exists q]|].
    right. by split; [|exists y, q].
  - intros [[Hp (q & H1 & H2)]|[Hp (y & q & Hy & H1 & H2)]]; (split; [done|]);
      eexists _, _; rewrite elem_of_cons; eauto.
Qed.

Lemma calls_for_file_cons x ms p :
  calls_for_file (x :: ms) p <->
  (ir_kind x = KindFile /\ ir_components x = p) \/ calls_for_file ms p.
Proof.
  unfold calls_for_file. split.
  - intros (y & [->|Hy]%elem_of_cons & H1 & H2); [by left|]. right. by exists y.
  - intros [[H1 H2]|(y & Hy & H1 & H2)]; eexists _; rewrite elem_of_cons; eauto.
Qed.

(** The directories one member adds to the expected ones. *)
Lemma parents_of_file path p :
  p ∈ parents_of path <->
  p <> [] /\ exists q, path = p ++ q /\ (q <> [] \/ KindFile = KindDirectory).
Proof.
  rewrite elem_of_parents_of. split; intros [Hp (q & Hq)]; (split; [done|]); exists q; [tauto|].
  by destruct Hq as [? [?|?]].
Qed.
Lemma parents_of_dir path p :
  path <> [] ->
  p ∈ parents_of path \/ p = path <->
  p <> [] /\ exists q, path = p ++ q /\ (q <> [] \/ KindDirectory = KindDirectory).
Proof.
  intros Hne. rewrite elem_of_parents_of. split.
  - intros [[Hp (q & Hq & Heq)]| ->]; (split; [done|]); [by exists q; auto|].
    exists []. rewrite app_nil_r. auto.
  - intros [Hp (q & Heq & _)]. destruct q as [|y q]; [right; by rewrite Heq, app_nil_r|].
    left. split; [done|]. by exists (y :: q).
Qed.

Lemma file_audited_quiet w w1 root ms :
  quiet w w1 ->
  Forall (fun m => ir_kind m = KindFile -> file_audited (store w1) root m) ms ->
  Forall (fun m => ir_kind m = KindFile -> file_audited (store w) root m) ms.
Proof.
  intros Hq Hf. eapply Forall_impl; [exact Hf|]. intros y Hy Hfile.
  destruct (Hy Hfile) as (i & content & Hres & Hst & Hrest).
  exists i, content. by rewrite <- (quiet_resolve _ _ _ _ Hq), <- (Hq i).
Qed.

Lemma audit_members_sound (m : Mat) root ms expected w w' out :
  mz_root m = Some root ->
  Forall (fun m => Forall (fun c => plain_name c = true) (ir_components m)) ms ->
  audit_members m ms expected w = (w', Some (Ok out)) ->
  (forall p, p ∈ out.1 <-> p ∈ expected.1 \/ calls_for_dir ms p)
  /\ (forall p, p ∈ out.2 <-> p ∈ expected.2 \/ calls_for_file ms p)
  /\ Forall (fun m => ir_kind m = KindFile -> file_audited (store w) (dir_id root) m) ms.
Proof.
  intros Hm. revert expected w. induction ms as [|x ms IH]; intros expected w Hplain Hr.
  { apply ret_ok in Hr as [_ ->]. unfold calls_for_dir, calls_for_file. split_and!; [| |done];
      intros p; (split; [by left|]); (intros [|Hf]; [done|]); [destruct Hf as (_ & ? & ? & Hx & _)|
      destruct Hf as (? & Hx & _)]; by apply elem_of_nil in Hx. }
  apply Forall_cons in Hplain as [Hx Hplain].
  setoid_rewrite calls_for_dir_cons. setoid_rewrite calls_for_file_cons.
  cbn [audit_members] in Hr.
  destruct (ir_components x) as [|c cs] eqn:Hcs; destruct (ir_kind x) eqn:Hk; [done| | |].
  - destruct (IH _ _ Hplain Hr) as (H1 & H2 & H3). split_and!; [| |by constructor; [rewrite Hk|]].
    + intros p. rewrite H1. split; [tauto|]. intros [|[[Hp (q & Heq & _)]|]]; [tauto|by destruct p|tauto].
    + intros p. rewrite H2. split; [tauto|]. intros [|[[? _]|]]; [tauto|congruence|tauto].
  - apply bind_ok in Hr as (w1 & [] & Haudit & Hr).
    pose proof (keeps_run _ _ _ _ _ (audit_file_quiet _ _) Haudit) as Hq.
    destruct (IH _ _ Hplain Hr) as (H1 & H2 & H3). simpl in *. split_and!.
    + intros p. rewrite H1, elem_of_app, parents_of_file. tauto.
    + intros p. rewrite H2, elem_of_cons. split; [intros [[->|]|]; tauto|].
      intros [|[[_ Hp]|]]; [tauto|left; left; by symmetry|tauto].
    + constructor; [|by eapply file_audited_quiet].
      intros _. apply (audit_file_sound _ _ _ _ _ Hm) in Haudit; [done|].
      rewrite Hcs. destruct (last (c :: cs)) as [l|] eqn:Hl; [|by apply last_None in Hl].
      simpl. rewrite Forall_forall in Hx. apply Hx. apply last_Some in Hl as [l' Hl]. rewrite Hl.
      rewrite elem_of_app. right. by left.
  - apply bind_ok in Hr as (w1 & d & Hopen & Hr).
    pose proof (keeps_run _ _ _ _ _ (open_existing_quiet _ _) Hopen) as Hq.
    destruct (IH _ _ Hplain Hr) as (H1 & H2 & H3). simpl in *. split_and!.
    + intros p. rewrite H1, elem_of_app, elem_of_cons.
      pose proof (parents_of_dir (c :: cs) p ltac:(done)) as Hd. tauto.
    + intros p. rewrite H2. split; [tauto|]. intros [|[[? _]|]]; [tauto|congruence|tauto].
    + constructor; [by rewrite Hk|by eapply file_audited_quiet].
Qed.

(** ** The audit *)

Lemma set_eq_iff a b : set_eq a b = true <-> forall p, p ∈ a <-> p ∈ b.
Proof.
  unfold set_eq. rewrite andb_true_iff, !forallb_forall. setoid_rewrite bool_decide_eq_true.
  setoid_rewrite <- list_elem_of_In. split; [intros [H1 H2] p; split; auto|].
  intros Hp. split; intros p; apply Hp.
Qed.

(** An audit that passes changed nothing, and the stage is under its name and
    holds exactly the archive's tree. *)
Lemma audit_against_sound depth (m : Mat) root ir w w' :
  mz_root m = Some root -> plain_name (mz_stage_name m) = true -> components_plain ir ->
  audit_against depth m ir w = (w', Some (Ok ())) ->
  quiet w w' /\ staged (store w) (dir_id root) ir
  /\ exists ch, store w (dir_id (mz_parent m)) = Some (IDir ch)
       /\ child (mz_stage_name m) ch = Some (dir_id root).
Proof.
  intros Hm Hname Hplain Hr.
  pose proof (keeps_run _ _ _ _ _ (audit_quiet _ _ _) Hr) as Hq. split; [done|].
  unfold audit_against, stage_root in Hr. rewrite Hm in Hr.
  apply bind_ok in Hr as (w1 & r & Hroot & Hr). run_ok Hroot. injection Hroot as <-.
  apply bind_ok in Hr as (w2 & [] & Hsafe & Hr).
  pose proof (keeps_run _ _ _ _ _ (keeps_on_err _ _ _ (stage_safe_quiet _)) Hsafe) as Hq2.
  apply bind_ok in Hr as (w3 & [] & Hmatch & Hr).
  pose proof (keeps_run _ _ _ _ _ (keeps_on_err _ _ _ (name_matches_quiet _ _ _)) Hmatch) as Hq3.
  apply on_err_ok in Hmatch. apply name_matches_sound in Hmatch as (ch & Hch & Hchild & Hisdir); [|done].
  assert (quiet w w3) as Hq13 by by etransitivity.
  apply bind_ok in Hr as (w4 & [edirs efiles] & Hmem & Hr).
  pose proof (keeps_run _ _ _ _ _ (audit_members_quiet _ _ _) Hmem) as Hq4.
  apply (audit_members_sound _ _ _ _ _ _ _ Hm Hplain) in Hmem as (Hd & Hf & Hc).
  apply bind_ok in Hr as (w5 & [adirs afiles] & Hwalk & Hr).
  apply (collect_sound _ _ _ _ w) in Hwalk as [Wd Wf Wk]; [|by etransitivity]. run_ok Hr.
  apply orb_false_iff in Hg as [Hgd%negb_false_iff Hgf%negb_false_iff].
  rewrite set_eq_iff in Hgd, Hgf. simpl in *.
  assert (forall k p, p <> [] ->
      leads (store w) (dir_id root) [] (fun _ => True) k p <->
      exists i, resolve (store w) (dir_id root) p = Some i /\ k i) as Hl.
  { intros k p Hp. split; [intros (n & q & i & -> & _ & H1 & H2); by exists i|].
    intros (i & H1 & H2). destruct p as [|n q]; [done|]. by exists n, q, i. }
  split; [|exists ch; by rewrite <- Hq2]. split.
  - intros p Hp. rewrite <- Hl by done. specialize (Wd p). specialize (Hgd p). specialize (Hd p).
    pose proof (not_elem_of_nil p). tauto.
  - intros p Hp. rewrite <- Hl by done. specialize (Wf p). specialize (Hgf p). specialize (Hf p).
    pose proof (not_elem_of_nil p). tauto.
  - intros p i Hp Hres. destruct p as [|n q]; [done|]. by eapply Wk.
  - by eapply file_audited_quiet.
Qed.

(** ** Publication *)

Lemma calls_for_dir_bounded ms : exists n, forall p, calls_for_dir ms p -> (length p <= n)%nat.
Proof.
  induction ms as [|x ms [n IH]].
  - exists 0%nat. intros p (_ & ? & ? & Hx & _). by apply elem_of_nil in Hx.
  - exists (n + length (ir_components x))%nat. intros p [[_ (q & -> & _)]|Hp%IH]%calls_for_dir_cons;
      rewrite ?length_app; lia.
Qed.

Lemma resolve_repeat st root p k :
  resolve st root p = Some root -> resolve st root (concat (replicate k p)) = Some root.
Proof. intros Hp. induction k; [done|]. simpl. by rewrite resolve_app, Hp. Qed.

(** A staged tree has no way back to its root. *)
Lemma staged_acyclic st root ir p :
  staged st root ir -> is_directory st root -> p <> [] -> resolve st root p <> Some root.
Proof.
  intros [Hd _ _ _] Hroot Hp Hres. destruct (calls_for_dir_bounded (members ir)) as [n Hn].
  assert (forall k, length (concat (replicate k p)) = (k * length p)%nat) as Hlen.
  { induction k as [|k IH]; [done|]. simpl. rewrite length_app. lia. }
  assert (0 < length p)%nat as Hpos by (destruct p; [done|simpl; lia]).
  pose proof (Hlen (S n)) as Hl.
  assert (calls_for_dir (members ir) (concat (replicate (S n) p))) as Hc.
  { apply Hd; [|exists root; split; [by apply resolve_repeat|done]].
    intros Hnil. rewrite Hnil in Hl. simpl in Hl. lia. }
  apply Hn in Hc. nia.
Qed.

Lemma resolve_frame st st' a root p :
  (forall j, j <> a -> st' j = st j) -> (forall q, resolve st root q <> Some a) ->
  resolve st' root p = resolve st root p.
Proof.
  intros Hst. revert root. induction p as [|n p IH]; intros root Hno; [done|]. simpl.
  assert (root <> a) as Hr by (intros ->; by apply (Hno [])).
  rewrite Hst by done. destruct (st root) as [[ch| | |]|] eqn:Hch; [|done..].
  destruct (child n ch) as [i|] eqn:Hc; [|done]. simpl. apply IH. intros q Hq.
  apply (Hno (n :: q)). simpl. by rewrite Hch, Hc.
Qed.

Lemma staged_frame st st' a root ir :
  (forall j, j <> a -> st' j = st j) -> (forall q, resolve st root q <> Some a) ->
  staged st root ir -> staged st' root ir.
Proof.
  intros Hst Hno [Hd Hf Hk Hc].
  assert (forall p, resolve st' root p = resolve st root p) as Hres by (intros; by eapply resolve_frame).
  assert (forall p i, resolve st root p = Some i -> st' i = st i) as Hsame.
  { intros p i Hp. apply Hst. intros ->. by apply (Hno p). }
  assert (forall p, (exists i, resolve st' root p = Some i /\ is_directory st' i) <->
                    (exists i, resolve st root p = Some i /\ is_directory st i)) as Hdir.
  { intros p. unfold is_directory. rewrite Hres.
    split; intros (i & Hi & x & Hx); exists i; (split; [done|]); exists x; specialize (Hsame _ _ Hi); congruence. }
  assert (forall p, (exists i, resolve st' root p = Some i /\ is_regular st' i) <->
                    (exists i, resolve st root p = Some i /\ is_regular st i)) as Hreg.
  { intros p. unfold is_regular. rewrite Hres.
    split; intros (i & Hi & x & l & Hx); exists i; (split; [done|]); exists x, l; specialize (Hsame _ _ Hi); congruence. }
  split.
  - intros p Hp. rewrite Hdir. by apply Hd.
  - intros p Hp. rewrite Hreg. by apply Hf.
  - intros p i Hp Hi. rewrite Hres in Hi. unfold is_directory, is_regular.
    rewrite (Hsame _ _ Hi). by apply (Hk p).
  - eapply Forall_impl; [exact Hc|]. intros m Hm Hfile.
    destruct (Hm Hfile) as (i & content & Hi & Hx & Hrest). exists i, content.
    rewrite Hres, (Hsame _ _ Hi). done.
Qed.

(** The only changes a publication makes: the rename, and then the removal of
    the retention file, if there is one. *)
Lemma discard_sound {E} (m : Mat) w w' m' r :
  discard_stage_retention_file (E:=E) m w = (w', Some (Ok (m', r))) ->
  mz_root m' = mz_root m /\ mz_outcome m' = mz_outcome m /\ mz_cleanup m' = mz_cleanup m
  /\ mz_stage_name m' = mz_stage_name m /\ mz_witness m' = mz_witness m
  /\ (w' = w \/ exists path r', mz_retention_file m = Some path /\ remove_file path w = (w', r')).
Proof.
  unfold discard_stage_retention_file. intros Hr. destruct (mz_retention_file m) as [path|] eqn:Hf.
  - apply bind_ok in Hr as (w1 & r' & Hc & Hr). apply attempt_ok, call_ok in Hc.
    assert (w' = w1 /\ (m' = m \/ m' = with_retention None (mz_retention_discard_error m) m)) as [-> Hm].
    { destruct r' as [[]|e]; [|case_bool_decide]; apply ret_ok in Hr as [-> [= -> ->]]; auto. }
    destruct Hm as [-> | ->]; split_and!; eauto 10.
  - apply ret_ok in Hr as [-> [= -> ->]]. split_and!; auto.
Qed.

Lemma commit_sound depth (m : Mat) root w w' m' :
  mz_root m = Some root -> plain_name (mz_stage_name m) = true -> plain_name (mz_final_name m) = true ->
  commit depth m w = (w', Some (Ok m')) ->
  exists w1 w2 w3 ch,
    quiet w w1
    /\ store w (dir_id (mz_parent m)) = Some (IDir ch) /\ child (mz_stage_name m) ch = Some (dir_id root)
    /\ is_directory (store w) (dir_id root)
    /\ rename_noreplace (mz_parent m) (mz_stage_name m) (mz_final_name m) w1 = (w2, Some (Ok ()))
    /\ quiet w2 w3
    /\ (w' = w3 \/ exists path r, mz_retention_file m = Some path /\ remove_file path w3 = (w', r))
    /\ mz_root m' = None /\ mz_outcome m' = "committed"%string
    /\ mz_cleanup m' = "not-applicable-after-commit"%string.
Proof.
  intros Hm Hs Hf Hr. unfold commit in Hr. rewrite Hm in Hr.
  apply bind_ok in Hr as (w0 & r & Hroot & Hr). run_ok Hroot. injection Hroot as <-.
  apply bind_ok in Hr as (w2 & [] & Hname & Hr). apply on_err_ok, on_err_ok in Hname.
  pose proof (keeps_run _ _ _ _ _ (name_matches_quiet _ _ _) Hname) as Hq1.
  apply name_matches_sound in Hname as (ch & Hch & Hchild & Hisdir); [|done].
  apply bind_ok in Hr as (w3 & [] & Hwit & Hr). apply on_err_ok in Hwit.
  pose proof (keeps_run _ _ _ _ _ (check_witness_quiet _ _) Hwit) as Hq2.
  apply bind_ok in Hr as (w4 & [] & Hsync & Hr).
  assert (quiet w3 w4) as Hq3.
  { destruct (mz_directory_sync m); [|by run_ok Hsync; subst].
    apply on_err_ok in Hsync. exact (keeps_run _ _ _ _ _ (sync_tree_quiet _ _) Hsync). }
  apply bind_ok in Hr as (w5 & [] & Hren & Hr). apply on_err_ok in Hren.
  apply bind_ok in Hr as (w6 & synced & Hps & Hr).
  assert (quiet w5 w6 /\ mz_root synced = None /\ mz_outcome synced = "committed"%string
    /\ mz_cleanup synced = "not-applicable-after-commit"%string
    /\ mz_retention_file synced = mz_retention_file m) as (Hq4 & Hs1 & Hs2 & Hs3 & Hs4).
  { destruct (mz_directory_sync m); [|by run_ok Hps; subst].
    apply bind_ok in Hps as (w7 & r & Hsd & Hps). apply attempt_ok in Hsd.
    pose proof (keeps_run _ _ _ _ _ (sync_directory_quiet _) Hsd) as Hq.
    destruct r as [[]|e]; apply ret_ok in Hps as [-> ->]; by split_and!. }
  apply bind_ok in Hr as (w7 & [disc r] & Hdisc & Hr).
  apply discard_sound in Hdisc as (D1 & D2 & D3 & _ & _ & D4).
  assert (w' = w7 /\ mz_root m' = None /\ mz_outcome m' = "committed"%string
    /\ mz_cleanup m' = "not-applicable-after-commit"%string) as (-> & E1 & E2 & E3).
  { destruct r as [[]|e]; apply ret_ok in Hr as [-> ->]; simpl; split_and!; congruence. }
  exists w4, w5, w6, ch. rewrite Hs4 in D4. split_and!; try done.
  etransitivity; [exact Hq1|]. by etransitivity.
Qed.

(** What stands under the destination's name once a publication returned. *)
Record published (m : Mat) (root : D) (ir : ArchiveIR) (before after : W) : Prop := {
  pb_absent : exists ch, store before (dir_id (mz_parent m)) = Some (IDir ch)
    /\ child (mz_final_name m) ch = None;
  pb_present : exists ch, store after (dir_id (mz_parent m)) = Some (IDir ch)
    /\ child (mz_final_name m) ch = Some (dir_id root)
    /\ (mz_stage_name m <> mz_final_name m -> child (mz_stage_name m) ch = None);
  pb_staged : staged (store after) (dir_id root) ir;
  pb_frame : forall j, j <> dir_id (mz_parent m) -> store after j = store before j
}.

Lemma publish_audited depth depth' (m : Mat) root ir w w1 w' m' :
  mz_root m = Some root -> plain_name (mz_stage_name m) = true -> plain_name (mz_final_name m) = true ->
  components_plain ir ->
  audit_against depth m ir w = (w1, Some (Ok ())) -> commit depth' m w1 = (w', Some (Ok m')) ->
  mz_root m' = None /\ mz_outcome m' = "committed"%string
  /\ mz_cleanup m' = "not-applicable-after-commit"%string
  /\ exists w2, published m root ir w w2
    /\ (w' = w2 \/ exists path r, mz_retention_file m = Some path /\ remove_file path w2 = (w', r)).
Proof.
  intros Hm Hs Hf Hplain Ha Hc.
  apply (audit_against_sound _ _ _ _ _ _ Hm Hs Hplain) in Ha as (Hqa & Hst & _).
  apply (commit_sound _ _ _ _ _ _ Hm Hs Hf) in Hc
    as (w2 & w3 & w4 & ch & Hq1 & Hch & Hchild & Hdir & Hren & Hq2 & Hend & E1 & E2 & E3).
  split_and!; [done..|]. exists w4. split; [|done].
  unfold rename_noreplace in Hren. run_ok Hren.
  apply law_rename in Hren as (c & c' & i & Hc & Hfrom & Hto & Hc' & Hnames & Hframe); [|done..].
  assert (quiet w w2) as Hq02 by by etransitivity.
  assert (forall j, store w1 j = store w j) as Hsame by done.
  rewrite Hsame in Hch. rewrite Hq02, Hch in Hc. injection Hc as <-.
  rewrite Hchild in Hfrom. injection Hfrom as <-.
  assert (is_directory (store w) (dir_id root)) as Hd by (destruct Hdir as [x Hx]; exists x; by rewrite <- Hsame).
  assert (forall q, resolve (store w) (dir_id root) q <> Some (dir_id (mz_parent m))) as Hno.
  { intros q Hq. apply (staged_acyclic _ _ _ (q ++ [mz_stage_name m]) Hst Hd); [by destruct q|].
    rewrite resolve_app, Hq. simpl. by rewrite Hch, Hchild. }
  assert (forall j, j <> dir_id (mz_parent m) -> store w4 j = store w j) as Hall.
  { intros j Hj. by rewrite Hq2, Hframe, Hq02. }
  split.
  - by exists ch.
  - exists c'. rewrite Hq2, !Hnames, bool_decide_eq_true_2 by done. split_and!; [done..|].
    intros Hne. by rewrite bool_decide_eq_false_2, bool_decide_eq_true_2.
  - by eapply staged_frame.
  - done.
Qed.

(** ** Removal and recovery *)

(** A stage that could not be removed is reported with a record that names it:
    recovery accepts the record, and looks for the very witness. *)
Lemma failed_retention_valid (m : Mat) w r :
  mz_witness m = Some w -> witness_wf w ->
  failed_stage_retention m = Some r ->
  mz_cleanup m = "failed"%string /\ validate_retention r = true /\ from_record (sr_witness r) = Some w
  /\ sr_stage_component r = mz_stage_name m.
Proof.
  intros Hw Hwf Hr. unfold failed_stage_retention in Hr.
  destruct (String.eqb_spec (mz_cleanup m) "failed") as [Hc|]; [|done]. split; [done|]. simpl in Hr.
  rewrite Hw in Hr. simpl in Hr. destruct (from_utf8 (mz_stage_name m)) as [c|] eqn:Hu; [|done].
  apply from_utf8_same in Hu as ->. by apply from_live_valid.
Qed.

(** The directory a retention record names below a parent path. *)
Definition names_stage (parent : UnixPath) (r : StageRetention) (w : W) (dir root : D) : Prop :=
  validate_retention r = true
  /\ sr_witness r = UnixRecord (dir_id root).1 (dir_id root).2
  /\ (exists p w0 w1 w2, canonicalize parent w = (w0, Ok p) /\ quiet w w1
        /\ open_ambient_dir p w1 = (w2, Ok dir))
  /\ exists ch, store w (dir_id dir) = Some (IDir ch)
       /\ child (sr_stage_component r) ch = Some (dir_id root).

Lemma plain_name_intro name :
  "/"%byte ∉ name -> name <> [] -> name <> lit "." -> name <> lit ".." -> plain_name name = true.
Proof.
  intros Hs H0 H1 H2. unfold plain_name, path_components, path_component, starts_with_byte.
  rewrite split_on_single by done. cbn [map concat head].
  rewrite (bool_decide_eq_false_2 (head name = _)) by (intros Hh; destruct name; [done|]; simpl in Hh;
    injection Hh as ->; apply Hs; by left).
  rewrite (bool_decide_eq_false_2 (Some name = _)) by congruence.
  rewrite !(bool_decide_eq_false_2 (name = _)) by done. by rewrite bool_decide_eq_true_2.
Qed.

Lemma strip_prefix_app prefix s t : strip_prefix prefix s = Some t -> s = prefix ++ t.
Proof.
  revert s. induction prefix as [|p prefix IH]; intros s Hs; [by injection Hs as ->|].
  destruct s as [|b s]; [done|]. simpl in Hs. case_bool_decide as Hp; [|done]. subst. simpl. f_equal. by apply IH.
Qed.

Lemma exact_component_plain name : is_exact_stage_component name = true -> plain_name name = true.
Proof.
  unfold is_exact_stage_component. destruct (strip_prefix STAGE_PREFIX name) as [suffix|] eqn:Hs; [|done].
  apply strip_prefix_app in Hs as ->. intros [_ Hx]%andb_true_iff.
  apply plain_name_intro; [|done..]. rewrite elem_of_app. intros [Hp|Hp].
  - by repeat (apply elem_of_cons in Hp as [Hp|Hp]; [done|]); apply elem_of_nil in Hp.
  - rewrite forallb_forall in Hx. apply list_elem_of_In, Hx in Hp. done.
Qed.

Lemma witness_sound root w w' x :
  retained_stage_witness root w = (w', Some (Ok x)) ->
  x = Some (UnixWitness (dir_id root).1 (dir_id root).2).
Proof.
  intros Hr. unfold retained_stage_witness in Hr. run_ok Hr. apply law_dir_metadata in Hr0.
  subst. by rewrite Hr0.
Qed.

(** The end of a run that only looks so far: it failed, or went on. *)
Lemma look_run {A B E} (m : M W A E) (k : A -> M W B E) w0 w w' res :
  keeps quiet m -> quiet w0 w -> bind m k w = (w', Some res) ->
  (quiet w0 w' /\ is_ok res = false)
  \/ exists w1 a, quiet w0 w1 /\ m w = (w1, Some (Ok a)) /\ k a w1 = (w', Some res).
Proof.
  intros Hk Hq [(e & Hm & ->)|(w1 & a & Hm & Hr)]%bind_run;
    pose proof (keeps_run _ _ _ _ _ Hk Hm) as Hq'; [left|right].
  - split; [by etransitivity|done].
  - exists w1, a. split; [by etransitivity|done].
Qed.
Lemma reject_run {A E} (b : bool) (e : E) (k : M W A E) w0 w w' res :
  quiet w0 w -> (if b then throw e else k) w = (w', Some res) ->
  (quiet w0 w' /\ is_ok res = false) \/ (b = false /\ k w = (w', Some res)).
Proof. intros Hq. destruct b; [intros [= <- <-]; by left|by right]. Qed.
Lemma call_run {A} code what (op : W -> W * result A fs_error) w w' res :
  or_finding code what op w = (w', Some res) ->
  exists r, op w = (w', r) /\ is_ok r = is_ok res.
Proof.
  unfold or_finding, on_err, call. destruct (op w) as [w1 [a|e]]; intros [= <- <-]; eexists; eauto.
Qed.

Lemma matching_sound root retention w0 w w' res :
  quiet w0 w -> remove_matching_opened_stage root retention w = (w', Some res) ->
  quiet w0 w' /\ is_ok res = false
  \/ exists w1 r, quiet w0 w1
       /\ from_record (sr_witness retention) = Some (UnixWitness (dir_id root).1 (dir_id root).2)
       /\ remove_open_dir_all root w1 = (w', r) /\ is_ok r = is_ok res.
Proof.
  intros Hq Hr. unfold remove_matching_opened_stage in Hr.
  apply (look_run _ _ _ _ _ _ (stage_safe_quiet _) Hq) in Hr as [|(w1 & [] & Hq1 & _ & Hr)]; [by left|].
  apply (look_run _ _ _ _ _ _ (keeps_on_err _ _ _ (witness_quiet _)) Hq1) in Hr
    as [|(w2 & x & Hq2 & Hx & Hr)]; [by left|]. apply on_err_ok, witness_sound in Hx as ->.
  apply (look_run _ _ _ _ _ _ (keeps_pure _ _) Hq2) in Hr as [|(w3 & y & Hq3 & Hy & Hr)]; [by left|].
  run_ok Hy. apply ok_or_ok in Hy.
  apply (reject_run _ _ _ _ _ _ _ Hq2) in Hr as [|[Hg Hr]]; [by left|].
  apply negb_false_iff, bool_decide_eq_true in Hg. unfold compare_witnesses in Hg.
  case_bool_decide; [|done]. subst. apply call_run in Hr as (r & Hr & Hok). right. by exists w2, r.
Qed.

Lemma recover_sound parent retention w w' res :
  recover_abandoned_stage parent retention w = (w', Some res) ->
  quiet w w' /\ is_ok res = false
  \/ exists w1 dir root r, quiet w w1 /\ names_stage parent retention w dir root
       /\ remove_open_dir_all root w1 = (w', r) /\ is_ok r = is_ok res.
Proof.
  intros Hr. unfold recover_abandoned_stage in Hr. assert (quiet w w) as Hq by done.
  apply (reject_run _ _ _ _ _ _ _ Hq) in Hr as [|[Hg1 Hr]]; [by left|].
  apply (reject_run _ _ _ _ _ _ _ Hq) in Hr as [|[Hg2 Hr]]; [by left|].
  apply negb_false_iff in Hg1, Hg2.
  assert (keeps quiet (open_recovery_parent parent)) as Hk by (unfold open_recovery_parent; looks).
  apply (look_run _ _ _ _ _ _ Hk Hq) in Hr as [|(w1 & dir & Hq1 & Hopen & Hr)]; [by left|].
  apply (look_run _ _ _ _ _ _ (parent_safe_quiet _) Hq1) in Hr as [|(w2 & [] & Hq2 & _ & Hr)]; [by left|].
  apply (look_run _ _ _ _ _ _ (quiet_finding _ _ _ (quiet_open_dir _ _)) Hq2) in Hr
    as [|(w3 & root & Hq3 & Hroot & Hr)]; [by left|].
  apply matching_sound with (w0:=w) in Hr as [|(w4 & r & Hq4 & Hrec & Hrm & Hok)]; [by left| |done].
  right. exists w4, dir, root, r. split_and!; [done| |done..].
  unfold open_recovery_parent in Hopen. apply bind_ok in Hopen as (w5 & p & Hcan & Hopen).
  unfold or_finding in *. run_ok Hcan. run_ok Hopen. run_ok Hroot.
  assert (quiet w w5) as Hq5 by (pose proof (quiet_canonicalize parent w) as Hx; by rewrite Hcan in Hx).
  pose proof Hg1 as Hv. unfold validate_retention in Hv.
  apply andb_true_iff in Hv as [[_ Hexact]%andb_true_iff _].
  apply law_open_dir in Hroot as (ch & ch' & Hch & Hchild & _); [|by apply exact_component_plain].
  rewrite Hq2 in Hch. split_and!; [done| |by exists p, w5, w5, w1|by exists ch].
  by apply from_record_iff in Hrec as [-> _].
Qed.
End Safe.
