(* ===== verification/MaterializeTotal.v ===== *)
(** * The audit and the publication always return

    The two walks of the staged tree recurse on its depth, and the reading of a
    staged file on its size.  With more fuel than the tree is deep the model
    answers, and the loop over a file needs no assumption at all: it stops one
    byte past the expected size. *)

From S2P Require Import Prelude Utf8 Findings Ir Evidence StageWitness FileSystem Materialize MaterializeSafe.
Local Open Scope Z_scope.
Local Open Scope rust_scope.

(** No directory of a tree is [depth] names deep. *)
Fixpoint levels (depth : nat) (st : Ident -> option Inode) (i : Ident) : bool :=
  match st i with
  | Some (IDir ch) =>
      match depth with O => false | S depth => forallb (fun e => levels depth st e.2) ch end
  | _ => true
  end.

Section Total.
Context {W D F : Type} `{HL : CapFsLaws W D F} `{SHA : !Sha256, DBG : !DebugStr, RET : !RetentionCodec}.
Local Abbreviation Mat := (CapabilityMaterializer D).
Context (w0 : W).

(** A computation that ends, wherever it starts with the store of [w0]. *)
Definition returns {A E} (m : M W A E) : Prop :=
  forall w, quiet w0 w -> exists w' r, m w = (w', Some r).

Lemma returns_bind_ok {A B E} (m : M W A E) (k : A -> M W B E) :
  keeps quiet m -> returns m ->
  (forall a w w', quiet w0 w -> m w = (w', Some (Ok a)) -> returns (k a)) -> returns (bind m k).
Proof.
  intros Hq Hm Hk w Hw. destruct (Hm w Hw) as (w1 & r & Hr). unfold bind. rewrite Hr.
  destruct r as [a|e]; [|by eauto]. eapply Hk; [exact Hw|exact Hr|].
  etransitivity; [exact Hw|]. exact (keeps_run _ _ _ _ _ Hq Hr).
Qed.
Lemma returns_bind {A B E} (m : M W A E) (k : A -> M W B E) :
  keeps quiet m -> returns m -> (forall a, returns (k a)) -> returns (bind m k).
Proof. intros Hq Hm Hk. apply returns_bind_ok; eauto. Qed.
Lemma returns_last {A B E} (m : M W A E) (k : A -> M W B E) :
  (forall w, exists w' r, m w = (w', Some r)) -> (forall a w, exists w' r, k a w = (w', Some r)) ->
  forall w, exists w' r, bind m k w = (w', Some r).
Proof.
  intros Hm Hk w. destruct (Hm w) as (w1 & r & Hr). unfold bind. rewrite Hr.
  destruct r as [a|e]; [apply Hk|by eauto].
Qed.
Lemma returns_ret {A E} (a : A) : returns (E:=E) (ret a). Proof. intros w _. by do 2 eexists. Qed.
Lemma returns_throw {A E} (e : E) : returns (A:=A) (throw e). Proof. intros w _. by do 2 eexists. Qed.
Lemma returns_pure {A E} (r : result A E) : returns (pure_result r). Proof. intros w _. by do 2 eexists. Qed.
Lemma returns_call {A E} (op : W -> W * result A E) : returns (call op).
Proof. intros w _. unfold call. destruct (op w). by do 2 eexists. Qed.
Lemma returns_on_err {A E E'} (f : E -> E') (m : M W A E) : returns m -> returns (on_err f m).
Proof. intros Hm w Hw. destruct (Hm w Hw) as (w' & r & Hr). unfold on_err. rewrite Hr. by do 2 eexists. Qed.
Lemma returns_if {A E} (b : bool) (m m' : M W A E) : returns m -> returns m' -> returns (if b then m else m').
Proof. by destruct b. Qed.
Lemma returns_finding {A} code what (op : W -> W * result A fs_error) : returns (or_finding code what op).
Proof. apply returns_on_err, returns_call. Qed.
Lemma returns_geteuid {E} : returns (A:=Z) (E:=E) (fun w => ret (geteuid w) w).
Proof. intros w _. by do 2 eexists. Qed.

Ltac ends :=
  repeat first
    [ apply returns_ret | apply returns_throw | apply returns_pure | apply returns_call
    | apply returns_finding | apply returns_geteuid | apply returns_on_err | apply returns_if
    | solve [eauto with nocore]
    | apply returns_bind; [solve [eauto with keeps nocore]| |intros ?]
    | match goal with |- returns (match ?x with _ => _ end) => destruct x end ].

Local Hint Resolve stage_safe_quiet witness_quiet name_matches_quiet check_witness_quiet descend_quiet
  open_existing_quiet single_link_quiet hash_loop_quiet hash_file_quiet audit_file_quiet
  audit_members_quiet collect_quiet sync_directory_quiet geteuid_quiet quiet_finding quiet_call : keeps.
Local Hint Extern 5 (keeps _ (on_err _ _)) => apply keeps_on_err : keeps.
Local Hint Extern 5 (keeps _ (pure_result _)) => apply keeps_pure, _ : keeps.
Local Hint Extern 5 (keeps _ (ret _)) => apply keeps_ret, _ : keeps.

Lemma stage_safe_returns root : returns (ensure_stage_namespace_safe root).
Proof. unfold ensure_stage_namespace_safe. ends. Qed.
Lemma name_matches_returns parent root name : returns (ensure_stage_name_matches_root parent root name).
Proof. unfold ensure_stage_name_matches_root. ends. Qed.
Lemma check_witness_returns (m : Mat) root : returns (check_witness m root).
Proof. unfold check_witness, retained_stage_witness. ends. Qed.
Lemma descend_returns parts current : returns (descend_existing current parts).
Proof. revert current. induction parts; intros current; simpl; ends. Qed.
Lemma open_existing_returns (m : Mat) parts : returns (open_existing_directories m parts).
Proof. unfold open_existing_directories. ends. apply descend_returns. Qed.

(** Every pass but the last reads a byte, and the size never passes the
    expected one by more than it. *)
Lemma hash_loop_returns fuel f n seen :
  (Z.to_nat n + 1 < fuel + length seen)%nat -> (0 < fuel)%nat -> returns (hash_loop fuel f n seen).
Proof.
  revert seen. induction fuel as [|fuel IH]; intros seen Hf Hpos; [lia|]. simpl.
  apply returns_bind; [eauto with keeps|apply returns_call|]. intros [|b read]; [apply returns_ret|].
  unfold u64_checked_add. case_match; [|apply returns_throw].
  destruct (n <? _) eqn:Hlt; [apply returns_ret|].
  apply Z.ltb_ge in Hlt. case_match; simplify_eq.
  apply IH; rewrite ?length_app; simpl in *; lia.
Qed.
Lemma audit_file_returns (m : Mat) member : returns (audit_file m member).
Proof.
  assert (forall f n, returns (hash_staged_file f n)) as Hh.
  { intros f n. unfold hash_staged_file.
    apply returns_bind; [eauto with keeps|apply hash_loop_returns; simpl; lia|intros; apply returns_ret]. }
  assert (forall f, returns (ensure_single_link f)) as Hl by (intros f; unfold ensure_single_link; ends).
  pose proof (open_existing_returns m) as Ho. unfold audit_file. ends.
Qed.
Lemma audit_members_returns (m : Mat) members ex : returns (audit_members m members ex).
Proof.
  pose proof (open_existing_returns m) as Ho. pose proof (audit_file_returns m) as Hf.
  revert ex. induction members as [|x ms IH]; intros ex; simpl; ends.
Qed.

(** No directory below [i] is [depth] names or more away. *)
Definition shallow (i : Ident) (depth : nat) : Prop :=
  forall path x, resolve (store w0) i path = Some x -> is_directory (store w0) x -> (length path < depth)%nat.

Lemma shallow_child i n ch j depth :
  store w0 i = Some (IDir ch) -> child n ch = Some j -> shallow i (S depth) -> shallow j depth.
Proof.
  intros Hi Hj Hs path x Hp Hx. apply Nat.succ_lt_mono. apply (Hs (n :: path) x); [|done].
  simpl. by rewrite Hi, Hj.
Qed.
Lemma shallow_positive i depth : is_directory (store w0) i -> shallow i depth -> (0 < depth)%nat.
Proof. intros Hi Hs. by apply (Hs [] i). Qed.

Section Walk.
Context (depth : nat) (A : Type) (recurse : D -> A).
Context (good : A -> Prop).
Context (Hrec : forall d, shallow (dir_id d) depth -> is_directory (store w0) (dir_id d) -> good (recurse d)).

(** The child a walk opens is one level up the fuel. *)
Lemma opened_child dir n w w' d :
  shallow (dir_id dir) (S depth) -> plain_name n = true -> quiet w0 w ->
  open_dir_nofollow dir n w = (w', Ok d) -> good (recurse d).
Proof.
  intros Hs Hp Hq (ch & ch' & Hch & Hc & Hd)%law_open_dir; [|done]. rewrite Hq in Hch, Hd.
  apply Hrec; [exact (shallow_child _ _ _ _ _ Hch Hc Hs)|by exists ch'].
Qed.
End Walk.

Lemma collect_entries_returns depth (recurse : D -> list str -> PathSet * PathSet -> M W (PathSet * PathSet) Finding)
    dir prefix es acc :
  (forall d p a, keeps quiet (recurse d p a)) ->
  (forall d, shallow (dir_id d) depth -> is_directory (store w0) (dir_id d) -> forall p a, returns (recurse d p a)) ->
  shallow (dir_id dir) (S depth) -> (forall n, listed es n -> plain_name n = true) ->
  returns (collect_entries recurse dir prefix es acc).
Proof.
  intros Hq Hrec Hs. revert acc. induction es as [|entry es IH]; intros acc Hplain; [apply returns_ret|].
  assert (forall n, listed es n -> plain_name n = true) as Hplain'.
  { intros n [Hn Hdots]. apply Hplain. by split; [right|]. }
  cbn [collect_entries]. apply returns_bind_ok; [eauto with keeps|apply returns_pure|].
  intros os w w1 Hw Hos. run_ok Hos. destruct entry as [os'|]; [|done]. injection Hos as ->.
  apply returns_bind_ok; [eauto with keeps|apply returns_pure|].
  intros n w2 w3 Hw2 Hn. run_ok Hn. apply ok_or_ok, from_utf8_same in Hn as ->.
  destruct (is_dots os) eqn:Hdots; [by apply IH|].
  assert (plain_name os = true) as Hp by (apply Hplain; split; [by left|done]).
  apply returns_bind; [eauto with keeps|apply returns_finding|]. intros t.
  apply returns_if; [apply returns_throw|].
  destruct (is_dir t); [|destruct (is_file t); [by apply IH|apply returns_throw]].
  apply returns_bind_ok; [eauto with keeps|apply returns_finding|].
  intros c w4 w5 Hw4 Hopen. unfold or_finding in Hopen. run_ok Hopen.
  apply returns_bind; [apply Hq| |intros; by apply IH].
  eapply (opened_child depth _ (fun d => d) (fun d => forall p a, returns (recurse d p a))); eauto.
Qed.
Lemma collect_returns depth dir prefix acc :
  shallow (dir_id dir) depth -> (0 < depth)%nat -> returns (collect_stage_tree depth dir prefix acc).
Proof.
  revert dir prefix acc. induction depth as [|depth IH]; intros dir prefix acc Hs Hpos; [lia|].
  cbn [collect_stage_tree]. apply returns_bind_ok; [eauto with keeps|apply returns_finding|].
  intros es w w' Hw Hes. unfold or_finding in Hes. run_ok Hes. apply law_entries in Hes as (ch & _ & Hn & _).
  eapply collect_entries_returns; [intros; apply collect_quiet| |exact Hs|].
  - intros d Hd Hdir p a. apply IH; [done|]. by eapply shallow_positive.
  - intros n [Hl Hdots]. by apply Hn.
Qed.

Lemma sync_entries_returns depth (recurse : D -> M W unit fs_error) dir es :
  (forall d, keeps quiet (recurse d)) ->
  (forall d, shallow (dir_id d) depth -> is_directory (store w0) (dir_id d) -> returns (recurse d)) ->
  shallow (dir_id dir) (S depth) -> (forall n, listed es n -> plain_name n = true) ->
  returns (sync_entries recurse dir es).
Proof.
  intros Hq Hrec Hs. induction es as [|entry es IH]; intros Hplain; [apply returns_ret|].
  assert (forall n, listed es n -> plain_name n = true) as Hplain'.
  { intros n [Hn Hdots]. apply Hplain. by split; [right|]. }
  cbn [sync_entries]. apply returns_bind_ok; [eauto with keeps|apply returns_pure|].
  intros os w w1 Hw Hos. run_ok Hos.
  apply returns_bind_ok; [eauto with keeps|apply returns_pure|].
  intros n w2 w3 Hw2 Hn. run_ok Hn. apply ok_or_ok, from_utf8_same in Hn as ->.
  destruct (is_dots os) eqn:Hdots; [by apply IH|].
  assert (plain_name os = true) as Hp by (apply Hplain; split; [by left|done]).
  apply returns_bind; [apply quiet_call; eauto with keeps|apply returns_call|]. intros t.
  apply returns_if; [apply returns_throw|].
  apply returns_bind; [| |intros; by apply IH].
  - destruct (is_dir t).
    + apply quiet_bind; [apply quiet_call; eauto with keeps|intros; apply Hq].
    + apply keeps_if; [apply keeps_throw|apply keeps_ret]; apply _.
  - destruct (is_dir t); [|apply returns_if; [apply returns_throw|apply returns_ret]].
    apply returns_bind_ok; [apply quiet_call; eauto with keeps|apply returns_call|].
    intros c w4 w5 Hw4 Hopen. run_ok Hopen.
    eapply (opened_child depth _ (fun d => d) (fun d => returns (recurse d))); eauto.
Qed.
Lemma sync_tree_returns depth dir :
  shallow (dir_id dir) depth -> (0 < depth)%nat -> returns (sync_directory_tree depth dir).
Proof.
  revert dir. induction depth as [|depth IH]; intros dir Hs Hpos; [lia|].
  cbn [sync_directory_tree]. apply returns_bind_ok; [apply quiet_call; eauto with keeps|apply returns_call|].
  intros es w w' Hw Hes. run_ok Hes. apply law_entries in Hes as (ch & _ & Hn & _).
  apply returns_bind; [apply sync_entries_quiet; intros; apply sync_tree_quiet| |].
  - eapply sync_entries_returns; [intros; apply sync_tree_quiet| |exact Hs|].
    + intros d Hd Hdir. apply IH; [done|]. by eapply shallow_positive.
    + intros n [Hl Hdots]. by apply Hn.
  - intros _. unfold sync_directory. apply returns_bind; [apply quiet_call; eauto with keeps|apply returns_call|].
    intros; apply returns_call.
Qed.
Lemma audit_returns depth (m : Mat) root ir :
  mz_root m = Some root -> shallow (dir_id root) depth -> (0 < depth)%nat -> returns (audit_against depth m ir).
Proof.
  intros Hr Hs Hd. unfold audit_against, stage_root. rewrite Hr.
  apply returns_bind_ok; [eauto with keeps|apply returns_pure|]. intros root' w w' _ Hw. run_ok Hw.
  injection Hw as <-.
  apply returns_bind; [eauto with keeps|apply returns_on_err, stage_safe_returns|intros _].
  apply returns_bind; [eauto with keeps|apply returns_on_err, name_matches_returns|intros _].
  apply returns_bind; [eauto with keeps|apply audit_members_returns|intros [ds fs]].
  apply returns_bind; [eauto with keeps|by apply collect_returns|intros [ads afs]].
  apply returns_if; [apply returns_throw|apply returns_ret].
Qed.

(** What [commit] does before the rename. *)
Definition commit_checks (depth : nat) (m : Mat) (root : D) : M W unit (Mat * Finding) :=
  let@ _ := on_err (pair m) (on_err (fun e => error MaterializeCommit
      ("staging name no longer identifies the audited root: " +++ message e))
      (ensure_stage_name_matches_root (mz_parent m) root (mz_stage_name m))) in
  let@ _ := on_err (pair m) (check_witness m root) in
  if mz_directory_sync m then
    on_err (fun e => publication_failed m MaterializeCommit
                       ("sync staged directories before publication: " +++ message e))
      (sync_directory_tree depth root)
  else ret ().
Lemma commit_checks_quiet depth (m : Mat) root : keeps quiet (commit_checks depth m root).
Proof.
  unfold commit_checks. apply quiet_bind; [eauto with keeps|intros _].
  apply quiet_bind; [eauto with keeps|intros _].
  apply keeps_if; [apply keeps_on_err, sync_tree_quiet|eauto with keeps].
Qed.
Lemma commit_checks_returns depth (m : Mat) root :
  shallow (dir_id root) depth -> (0 < depth)%nat -> returns (commit_checks depth m root).
Proof.
  intros Hs Hd. unfold commit_checks.
  apply returns_bind; [eauto with keeps|apply returns_on_err, returns_on_err, name_matches_returns|intros _].
  apply returns_bind; [eauto with keeps|apply returns_on_err, check_witness_returns|intros _].
  apply returns_if; [by apply returns_on_err, sync_tree_returns|apply returns_ret].
Qed.
End Total.

Section Outcome.
Context {W D F : Type} `{HL : CapFsLaws W D F} `{SHA : !Sha256, DBG : !DebugStr, RET : !RetentionCodec}.
Local Abbreviation Mat := (CapabilityMaterializer D).

Lemma bind_assoc {A B C E} (m : M W A E) (k : A -> M W B E) (h : B -> M W C E) w :
  bind (bind m k) h w = bind m (fun a => bind (k a) h) w.
Proof. unfold bind. by destruct (m w) as [w1 [[a|e]|]]. Qed.
Lemma bind_congr {A B E} (m : M W A E) (k k' : A -> M W B E) w :
  (forall a w, k a w = k' a w) -> bind m k w = bind m k' w.
Proof. intros Hk. unfold bind. by destruct (m w) as [w1 [[a|e]|]]. Qed.

(** The directory sync after the rename: reported, never an error. *)
Definition parent_sync (m published : Mat) : M W Mat (Mat * Finding) :=
  if mz_directory_sync m then
    let@ r := attempt (sync_directory (mz_parent m)) in
    match r with
    | Ok _ => ret published
    | Err e =>
        ret (with_sync true (mz_atomic m) true
               (Some (error MaterializeCommit
                        ("sync destination parent after publication: " +++ message e))) published)
    end
  else ret published.
Lemma on_err_pair {X A E} (m m' : X) (c : M W A E) w w' f :
  on_err (pair m) c w = (w', Some (Err (m', f))) -> m' = m.
Proof. unfold on_err. destruct (c w) as [w1 [[a|e]|]]; intros Hr; by simplify_eq/=. Qed.
Lemma commit_checks_err depth (m m' : Mat) root w w' f :
  commit_checks depth m root w = (w', Some (Err (m', f))) ->
  mz_root m' = mz_root m /\ mz_cleanup m' = mz_cleanup m.
Proof.
  intros [(e & Hm & [= <-])|(w1 & [] & _ & Hr)]%bind_run; [by apply on_err_pair in Hm as ->|].
  apply bind_run in Hr as [(e & Hm & [= <-])|(w2 & [] & _ & Hr)]; [by apply on_err_pair in Hm as ->|].
  destruct (mz_directory_sync m); [|done]. unfold on_err in Hr.
  by destruct (sync_directory_tree depth root w2) as [? [[]|]]; simplify_eq/=.
Qed.

(** What [commit] does from the rename on. *)
Definition commit_rename (m : Mat) : M W Mat (Mat * Finding) :=
  let@ _ :=
    on_err (fun e =>
        if bool_decide (kind e = AlreadyExists)
        then publication_failed m MaterializeExists "destination appeared while materializing"
        else publication_failed m MaterializeCommit ("publish staging directory: " +++ message e))
      (rename_noreplace (mz_parent m) (mz_stage_name m) (mz_final_name m)) in
  let@ synced := parent_sync m (with_stage None "committed" "not-applicable-after-commit" None m) in
  let@ (discarded, r) := discard_stage_retention_file synced in
  match r with
  | Ok _ => ret discarded
  | Err finding => ret (with_retention (mz_retention_file discarded) (Some finding) discarded)
  end.

Lemma commit_split depth (m : Mat) root w :
  mz_root m = Some root ->
  commit depth m w = bind (commit_checks depth m root) (fun _ => commit_rename m) w.
Proof.
  intros Hr. unfold commit, commit_checks. rewrite Hr.
  unfold bind at 1, pure_result. cbn [ok_or].
  rewrite bind_assoc. apply bind_congr. intros _ w1. rewrite bind_assoc. apply bind_congr. intros _ w2.
  done.
Qed.

Lemma discard_outcome {E} (m : Mat) w :
  exists w' m' r, discard_stage_retention_file (E:=E) m w = (w', Some (Ok (m', r)))
    /\ mz_root m' = mz_root m /\ mz_outcome m' = mz_outcome m /\ mz_cleanup m' = mz_cleanup m.
Proof.
  unfold discard_stage_retention_file. destruct (mz_retention_file m) as [path|]; [|by do 3 eexists].
  unfold bind, attempt, call. destruct (remove_file path w) as [w1 [[]|e]]; [by do 3 eexists|].
  simpl. case_bool_decide; by do 3 eexists.
Qed.

Lemma parent_sync_outcome (m published : Mat) w :
  exists w' m', parent_sync m published w = (w', Some (Ok m'))
    /\ mz_root m' = mz_root published /\ mz_outcome m' = mz_outcome published
    /\ mz_cleanup m' = mz_cleanup published.
Proof.
  unfold parent_sync. destruct (mz_directory_sync m); [|by do 2 eexists].
  unfold sync_directory, bind, attempt, call. destruct (reopen_dot (mz_parent m) w) as [w2 [d|e]]; [|by do 2 eexists].
  simpl. destruct (fsync_dir d w2) as [w3 [[]|e]]; by do 2 eexists.
Qed.

(** The rename decides: it fails with nothing changed, or the call succeeds
    whatever happens after it. *)
Lemma commit_rename_outcome (m : Mat) w :
  exists w' r, commit_rename m w = (w', Some r) /\
  match r with
  | Ok m' => mz_root m' = None /\ mz_outcome m' = "committed"%string
             /\ mz_cleanup m' = "not-applicable-after-commit"%string
  | Err (m', _) => quiet w w' /\ mz_root m' = mz_root m /\ mz_cleanup m' = mz_cleanup m
                   /\ mz_outcome m' = "publication-failed"%string
  end.
Proof.
  unfold commit_rename, rename_noreplace, bind, on_err, call.
  destruct (renameat_noreplace _ _ _ _ w) as [w1 [[]|e]] eqn:Hr.
  - set (published := with_stage None "committed" "not-applicable-after-commit" None m).
    destruct (parent_sync_outcome m published w1) as (w2 & m2 & Hs & E1 & E2 & E3).
    destruct (discard_outcome (E:=Mat * Finding) m2 w2) as (w3 & m3 & r & Hd & F1 & F2 & F3).
    assert (mz_root m3 = None /\ mz_outcome m3 = "committed"%string
            /\ mz_cleanup m3 = "not-applicable-after-commit"%string) as Hm3
      by (split_and!; [by rewrite F1, E1|by rewrite F2, E2|by rewrite F3, E3]).
    unfold bind. fold published. rewrite Hs, Hd.
    destruct r as [[]|e]; do 2 eexists; by split.
  - apply law_rename_err in Hr.
    destruct (bool_decide (kind e = AlreadyExists)) eqn:Hk; do 2 eexists; (split; [done|]);
      simpl; rewrite Hk; by split_and!.
Qed.
Lemma levels_shallow depth w i : levels depth (store w) i = true -> shallow w i depth.
Proof.
  revert i. induction depth as [|depth IH]; intros i Hl path x Hp [c Hx].
  - exfalso. simpl in Hl. destruct path as [|n path]; simpl in Hp; [injection Hp as ->; by rewrite Hx in Hl|].
    destruct (store w i) as [[ch| | |]|]; done.
  - destruct path as [|n path]; [simpl; lia|]. simpl in Hl, Hp.
    destruct (store w i) as [[ch| | |]|]; [|done..]. destruct (child n ch) as [j|] eqn:Hj; [|done].
    apply elem_child, list_elem_of_In in Hj. rewrite forallb_forall in Hl. apply Hl in Hj. simpl in Hj.
    simpl. apply -> Nat.succ_lt_mono. apply (IH j Hj path x Hp). by exists c.
Qed.

(** C27: The audit and the publication always return, and a failed publication
    changed nothing.  When no directory of the staged tree is [depth] names
    deep, the audit ends (with or without a finding) and leaves the store as
    it was; and [commit] ends either with the stage installed, no handle kept
    and nothing left to clean up, or with a finding, the store untouched, and
    the materializer still holding the stage for the cleanup. *)
Theorem audit_and_commit_return depth (m : Mat) root ir w :
  mz_root m = Some root -> (0 < depth)%nat -> shallow w (dir_id root) depth ->
  (exists w' r, audit_against depth m ir w = (w', Some r) /\ quiet w w')
  /\ exists w' r, commit depth m w = (w', Some r) /\
     match r with
     | Ok m' => mz_root m' = None /\ mz_outcome m' = "committed"%string
                /\ mz_cleanup m' = "not-applicable-after-commit"%string
     | Err (m', _) => quiet w w' /\ mz_root m' = Some root /\ mz_cleanup m' = mz_cleanup m
     end.
Proof.
  intros Hr Hd Hs. assert (quiet w w) as Hw by done. split.
  - destruct (audit_returns w depth m root ir Hr Hs Hd w Hw) as (w' & r & Ha). exists w', r. split; [done|].
    exact (keeps_run _ _ _ _ _ (audit_quiet _ _ _) Ha).
  - rewrite (commit_split depth m root w Hr).
    destruct (commit_checks_returns w depth m root Hs Hd w Hw) as (w1 & r & Hc).
    pose proof (keeps_run _ _ _ _ _ (commit_checks_quiet depth m root) Hc) as Hq. unfold bind. rewrite Hc.
    destruct r as [[]|[m' f]].
    + destruct (commit_rename_outcome m w1) as (w2 & r & Hrun & Ho). exists w2, r. split; [done|].
      destruct r as [m'|[m' f]]; [done|]. destruct Ho as (Hq' & E1 & E2 & _). rewrite Hr in E1.
      split_and!; [by etransitivity|done..].
    + exists w1, (Err (m', f)). split; [done|].
      apply commit_checks_err in Hc as [E1 E2]. by rewrite E1, E2, Hr.
Qed.
End Outcome.
