(* ===== verification/Publication.v ===== *)
(** * The life of a stage (theorems on [materialize.rs])

    A stage that [create] opened carries plain names and the witness of the
    directory it opened, and keeps them through the calls before publication;
    what a commit after an audit publishes; what recovery removes; what a
    cleanup with one retry reports; and that a record that could not be
    written in full stays behind. *)

From S2P Require Import Prelude Utf8 Findings Ir Jail JailSafe Evidence Verification IdentityRoots StageWitness Outcome FileSystem MemFs Materialize MaterializeSafe MaterializeTotal.
Local Open Scope Z_scope.
Local Open Scope rust_scope.

(** ** Plain names *)

Lemma path_components_plain text n : Normal n ∈ path_components text -> plain_name n = true.
Proof.
  unfold path_components. rewrite elem_of_app. intros [Hn|Hn].
  - by repeat case_match; repeat (apply elem_of_cons in Hn as [Hn|Hn]; [done|]); apply elem_of_nil in Hn.
  - apply list_elem_of_In, in_concat in Hn as (l & (piece & <- & Hp)%in_map_iff & Hn).
    unfold path_component in Hn. repeat case_bool_decide; simpl in Hn; try done;
      destruct Hn as [Hn|[]]; [done|]. injection Hn as ->.
    apply list_elem_of_In in Hp.
    pose proof (split_on_pieces "/" text) as Hs. rewrite Forall_forall in Hs. apply Hs in Hp. by apply plain_name_intro.
Qed.
Lemma file_name_plain text n : file_name (path_components text) = Some n -> plain_name n = true.
Proof.
  unfold file_name. destruct (last (path_components text)) as [[| | |k]|] eqn:Hl; intros Hn; simplify_eq.
  apply (path_components_plain text). by apply last_Some_elem_of.
Qed.

Lemma hex_byte_no_slash b : "/"%byte ∉ hex_byte b.
Proof. apply (bool_decide_eq_true_1 _). destruct b; vm_compute; reflexivity. Qed.
Lemma stage_name_plain random : plain_name (STAGE_PREFIX ++ concat (map hex_byte random)) = true.
Proof.
  apply plain_name_intro; [|done..]. rewrite elem_of_app. intros [Hp|Hp].
  - by repeat (apply elem_of_cons in Hp as [Hp|Hp]; [done|]); apply elem_of_nil in Hp.
  - apply list_elem_of_In, in_concat in Hp as (l & (b & <- & _)%in_map_iff & Hp).
    by apply list_elem_of_In, hex_byte_no_slash in Hp.
Qed.

Section Publication.
Context {W D F : Type} `{HL : CapFsLaws W D F} `{SHA : !Sha256, DBG : !DebugStr, RET : !RetentionCodec}.
Local Abbreviation Mat := (CapabilityMaterializer D).

(** A materializer between [create] and its end. *)
Record opened (m : Mat) (root : D) : Prop := {
  op_root : mz_root m = Some root;
  op_stage : plain_name (mz_stage_name m) = true;
  op_final : plain_name (mz_final_name m) = true;
  op_witness : mz_witness m = Some (UnixWitness (dir_id root).1 (dir_id root).2);
  op_outcome : mz_outcome m = "staged"%string;
  op_cleanup : mz_cleanup m = "pending"%string
}.

Lemma sync_opened m root : opened m root -> opened (enable_directory_sync m) root.
Proof. intros []. by split. Qed.
Lemma retained_opened file e m root : opened m root -> opened (with_retention file e m) root.
Proof. intros []. by split. Qed.
Lemma persist_opened m root path w w' m' :
  opened m root -> persist_stage_retention m path w = (w', Some (Ok m')) -> opened m' root.
Proof.
  intros Hm Hp. unfold persist_stage_retention, or_finding in Hp. run_ok Hp.
  by apply retained_opened.
Qed.

(** What the two removals leave in the findings. *)
Definition cleanup_finding (r : result unit fs_error) : list Finding :=
  match r with
  | Ok _ => []
  | Err e => [error MaterializeCleanup ("remove staging tree: " +++ message e)]
  end.
Definition cleanup_findings (first second : result unit fs_error) : list Finding :=
  match first with Ok _ => [] | Err _ => cleanup_finding first ++ cleanup_finding second end.

Lemma failing_throws {A} (c : M W MaterializationSetupError Finding) w w' (a : A) :
  failing c w = (w', Some (Ok a)) -> False.
Proof. unfold failing. intros Hf. run_ok Hf. Qed.

Lemma adopt_opened parent root stage final atomic windows w w' m :
  plain_name stage = true -> plain_name final = true ->
  adopt_stage parent root stage final atomic windows w = (w', Some (Ok m)) ->
  opened m root /\ mz_retention_file m = None.
Proof.
  intros Hs Hf Ha. unfold adopt_stage in Ha. apply bind_ok in Ha as (w1 & r & _ & Ha).
  destruct r; [|by apply failing_throws in Ha].
  apply bind_ok in Ha as (w2 & x & Hx & Ha). destruct x as [x|]; [|by apply failing_throws in Ha].
  apply attempt_ok, witness_sound in Hx. subst x. run_ok Ha. by repeat split.
Qed.
Lemma allocate_opened n parent final atomic windows w w' m :
  plain_name final = true ->
  allocate_stage n parent final atomic windows w = (w', Some (Ok m)) ->
  exists root, opened m root /\ mz_retention_file m = None.
Proof.
  intros Hf. revert w. induction n as [|n IH]; intros w Ha; [done|]. simpl in Ha.
  apply bind_ok in Ha as (w1 & random & _ & Ha). apply bind_ok in Ha as (w2 & r & _ & Ha).
  destruct r as [root|[e created]].
  - exists root. eapply adopt_opened; [apply stage_name_plain|done|exact Ha].
  - destruct (negb created && _); [by apply IH in Ha|].
    destruct created; [by apply failing_throws in Ha|done].
Qed.
Lemma create_opened_fresh text atomic w w' m :
  create (path_components text) atomic w = (w', Some (Ok m)) ->
  exists root, opened m root /\ mz_retention_file m = None.
Proof.
  unfold create. destruct (file_name (path_components text)) as [final|] eqn:Hn; [|done].
  apply file_name_plain in Hn. intros Hc.
  apply bind_ok in Hc as (w1 & p & _ & Hc). apply bind_ok in Hc as (w2 & parent & _ & Hc).
  apply bind_ok in Hc as (w3 & [] & _ & Hc). apply bind_ok in Hc as (w4 & found & _ & Hc).
  apply reject_ok in Hc as [_ Hc]. by eapply allocate_opened.
Qed.
(** C26: A publication that returned installed the audited tree.  Take any run of
    the materializer's life: [create] opened a stage for a destination path,
    the audit against an archive succeeded in some later state, and [commit]
    on the audited stage succeeded.  Then the destination's name, which was
    free, now holds the very directory the audit read, the stage's own name is
    gone, nothing else changed, and that directory is exactly the archive's
    tree: every file member is there as a regular file whose size and SHA-256
    are the admitted ones, every directory member and every parent is there as
    a directory, and there is nothing else. *)
Theorem publication_is_the_audited_tree text atomic (sync : bool) depth depth' m0 ir w0 w1 w2 w3 w4 m' :
  let m := if sync then enable_directory_sync m0 else m0 in
  components_plain ir ->
  create (path_components text) atomic w0 = (w1, Some (Ok m0)) ->
  audit_against depth m ir w2 = (w3, Some (Ok ())) ->
  commit depth' m w3 = (w4, Some (Ok m')) ->
  exists root, published m root ir w2 w4 /\ mz_root m = Some root
    /\ mz_outcome m' = "committed"%string /\ mz_root m' = None
    /\ mz_cleanup m' = "not-applicable-after-commit"%string.
Proof.
  intros m Hir Hc Ha Hm. apply create_opened_fresh in Hc as (root & Ho & Hfile).
  assert (opened m root) as [Hr Hs Hf _ _ _] by (unfold m; by destruct sync; [apply sync_opened|]).
  assert (mz_retention_file m = None) as Hnone by (unfold m; by destruct sync).
  exists root. eapply (publish_audited depth depth' m root) in Hm as (E1 & E2 & E3 & w5 & Hp & Hw); [|done..].
  destruct Hw as [->|(p & r & Hp' & _)]; [done|congruence].
Qed.

(** C28: Recovery of an abandoned stage touches only what its record names.
    Either it fails and the store is as it was, or it got as far as the one
    removal it makes: of the directory that the recorded name stands for below
    the given parent and whose device and inode are the recorded ones, and it
    succeeds exactly when that removal does.  After a success that directory
    is gone, and every directory that is not in the tree below it lost exactly
    its entries for it.  After a removal that failed on the way, every
    directory outside that tree is as it was, and in both cases no directory
    of the store has an entry it did not have. *)
Theorem recovery_removes_only_the_recorded_stage `{!RemovalLaws W D F} parent retention w w' res :
  recover_abandoned_stage parent retention w = (w', Some res) ->
  (quiet w w' /\ is_ok res = false)
  \/ exists w1 dir root r, quiet w w1 /\ names_stage parent retention w dir root
       /\ remove_open_dir_all root w1 = (w', r) /\ is_ok r = is_ok res
       /\ (is_ok res = true -> store w' (dir_id root) = None)
       /\ (forall p ch, store w p = Some (IDir ch) ->
             (forall path, resolve (store w) (dir_id root) path <> Some p) ->
             exists ch', store w' p = Some (IDir ch')
               /\ (is_ok res = false -> ch' = ch)
               /\ (is_ok res = true ->
                    forall n, child n ch' = if bool_decide (child n ch = Some (dir_id root)) then None
                                            else child n ch))
       /\ (forall p ch n i, store w' p = Some (IDir ch) -> child n ch = Some i ->
             exists ch0, store w p = Some (IDir ch0) /\ child n ch0 = Some i).
Proof.
  intros [|(w1 & dir & root & r & Hq & Hn & Hr & Hok)]%recover_sound; [by left|right].
  exists w1, dir, root, r. rewrite <- Hok. split_and!; [done..| | |].
  - destruct r as [[]|]; [|done]. by apply law_remove_open in Hr as [Hgone _].
  - intros p ch Hp Hno. rewrite <- Hq in Hp.
    assert (forall path, resolve (store w1) (dir_id root) path <> Some p) as Hout
      by (intros path; by rewrite (quiet_resolve w w1)).
    destruct r as [[]|e]; simpl.
    + apply law_remove_open in Hr as [_ Hrest]. destruct (Hrest p ch Hp Hout) as (ch' & ? & ?). by exists ch'.
    + exists ch. split; [by eapply law_remove_open_err|done].
  - intros p ch n i Hp Hc. pose proof (law_remove_open_only_loses root w1 p ch n i) as Hl.
    rewrite Hr in Hl. destruct (Hl Hp Hc) as (ch0 & H0 & ?). exists ch0. by rewrite <- Hq.
Qed.

(** The discard of the record's file once the stage is gone, when a file was
    recorded; and the finding it leaves. *)
Definition record_discard (m : Mat) (removed : bool) (w : W) : option (W * result unit fs_error) :=
  if removed then (fun path => remove_file path w) <$> mz_retention_file m else None.
Definition discard_refusal (d : option (W * result unit fs_error)) : option fs_error :=
  match d with
  | Some (_, Err e) => if bool_decide (kind e = NotFound) then None else Some e
  | _ => None
  end.
Definition discard_findings (d : option (W * result unit fs_error)) : list Finding :=
  match discard_refusal d with
  | Some e => [error MaterializeCleanup ("remove stage retention record: " +++ message e)]
  | None => []
  end.

Lemma discard_run {E} (m : Mat) w :
  let d := record_discard m true w in
  discard_stage_retention_file (E:=E) m w
  = (from_option fst w d,
     Some (Ok (match discard_refusal d with Some _ => m | None => with_retention None (mz_retention_discard_error m) m end,
               match discard_findings d with [] => Ok () | f :: _ => Err f end))).
Proof.
  unfold discard_stage_retention_file, record_discard, discard_findings, discard_refusal, bind, attempt, call.
  destruct (mz_retention_file m) as [path|] eqn:Hf; simpl.
  - destruct (remove_file path w) as [w' [[]|e]]; simpl; [done|]. by case_bool_decide.
  - f_equal. f_equal. f_equal. f_equal. destruct m; simpl in *. by rewrite Hf.
Qed.

(** C29: Cleanup of a stage is tried twice and reported as it went.  The first try
    removes the tree through the retained handle, the second by name under the
    destination's parent; a first failure is one more finding, and if both
    fail the report says failed with both findings, the retention record's
    file is not touched, and the record the report carries is well formed and
    names this stage's name and witness.  If either succeeds the report says
    removed and offers no record, and the record's file, when one was
    recorded, is removed once: a file that is no longer there is forgotten
    like a removed one, and any other failure is one more finding and keeps
    the path. *)
Theorem cleanup_is_tried_twice m root findings fallback w w1 r1 :
  opened m root -> remove_open_dir_all root w = (w1, r1) ->
  let second := remove_dir_all (mz_parent m) (mz_stage_name m) w1 in
  let removed := is_ok r1 || is_ok second.2 in
  let after := if is_ok r1 then w1 else second.1 in
  let discard := record_discard m removed after in
  exists m', abort_and_report (E:=Finding) (Some m) findings fallback w
    = (from_option fst after discard,
       Some (Ok (Some m', findings ++ cleanup_findings r1 second.2 ++ discard_findings discard, report m')))
  /\ mz_outcome m' = "aborted"%string /\ mz_root m' = None
  /\ (if removed
      then mz_cleanup m' = "removed"%string /\ failed_stage_retention m' = None
           /\ mz_retention_file m' = (match discard_refusal discard with Some _ => mz_retention_file m | None => None end)
      else mz_cleanup m' = "failed"%string /\ length (cleanup_findings r1 second.2) = 2%nat
           /\ mz_retention_file m' = mz_retention_file m
           /\ forall r, failed_stage_retention m' = Some r ->
                validate_retention r = true /\ sr_stage_component r = mz_stage_name m
                /\ sr_witness r = UnixRecord (dir_id root).1 (dir_id root).2).
Proof.
  intros [Hr _ _ Hw Ho Hc] Hrm second removed after discard. unfold abort_and_report, abort.
  rewrite Hc, Ho, Hr. simpl. unfold bind, attempt, call. rewrite Hrm. subst removed.
  destruct r1 as [[]|e1]; simpl in *.
  - rewrite discard_run. change (record_discard (with_stage _ _ _ _ m) true w1) with discard.
    unfold discard_findings. destruct (discard_refusal discard);
      (eexists; split; [by simpl; rewrite ?app_nil_r|by split_and!]).
  - unfold abort, bind, attempt, call. simpl. subst second after.
    destruct (remove_dir_all (mz_parent m) (mz_stage_name m) w1) as [w2 [[]|e2]]; simpl in *.
    + rewrite discard_run. change (record_discard (with_stage _ _ _ _ (with_stage _ _ _ _ m)) true w2) with discard.
      unfold discard_findings.
      destruct (discard_refusal discard); (eexists; split; [by simpl; rewrite <- ?app_assoc|by split_and!]).
    + rewrite <- app_assoc. eexists. split; [done|]. split_and!; [done..|].
      intros r Hret. apply (failed_retention_valid _ (UnixWitness (dir_id root).1 (dir_id root).2)) in Hret
        as (_ & Hv & Hrec & Hs); [|done..]. split_and!; [done..|]. by apply from_record_iff in Hrec as [-> _].
Qed.
End Publication.

(** ** Witnesses *)

Definition quoted : DebugStr := fun s => "name".
Definition opaque_codec : RetentionCodec :=
  {| retention_json _ := lit "{}"; retention_from_json _ := Err "not a record" |}.
(** A digest that keeps the bytes. *)
Definition keeping_sha : Sha256 := fun bytes => bytes.
#[local] Existing Instances quoted opaque_codec keeping_sha.

Definition empty_disk (removals : nat) (chmod : bool) : MemWorld :=
  {| mw_nodes := {[ mem_root := IDir [] ]}; mw_unread := ∅; mw_next := 2;
     mw_failing_removals := removals; mw_failing_chmod := chmod |}.
Definition staged_member (components : list string) (k : MemberKind) (bytes : string) : IrMember :=
  let parts := map lit components in
  {| ir_raw_name_bytes := []; decoded_name := concat parts; canonical_path := concat parts;
     ir_components := parts; ir_kind := k; declared_uncomp_size := 5;
     ir_evidence := ir_evidence (example_member "a" 0);
     actual_uncomp_size := Some (Z.of_nat (length (lit bytes))); actual_crc := None;
     content_sha256 := Some (digest_hex (lit bytes)); verification := Verified;
     normalization_actions := [] |}.
Definition staged_archive : ArchiveIR :=
  example_archive [staged_member ["d"] KindDirectory ""; staged_member ["d"; "f"] KindFile "hello";
                   staged_member ["g"] KindFile ""].

(** The writes of [execute_ready_archive] for that archive. *)
Definition write_all_members (m : CapabilityMaterializer Ident) : M MemWorld unit Finding :=
  let@ _ := create_directory m [lit "d"] (lit "d") in
  let@ f := create_file m [lit "d"; lit "f"] in
  let@ _ := or_finding MaterializeIo "" (file_write f (lit "hello")) in
  let@ g := create_file m [lit "g"] in
  ret ().

Definition demo_opened : CapabilityMaterializer Ident :=
  {| mz_parent := mem_root; mz_root := Some (1, 3);
     mz_stage_name := STAGE_PREFIX ++ lit "07070707070707070707070707070707"; mz_final_name := lit "out";
     mz_atomic := true; mz_directory_sync := false; mz_parent_sync_failed := false;
     mz_parent_sync_error := None; mz_outcome := "staged"; mz_cleanup := "pending"; mz_windows := None;
     mz_witness := Some (UnixWitness 1 3); mz_retention_file := None; mz_retention_discard_error := None |}.
Definition demo_stage : CapabilityMaterializer Ident := enable_directory_sync demo_opened.
Definition demo_created : MemWorld := (create (path_components (lit "/out")) true (empty_disk 0 false)).1.
Definition demo_written : MemWorld := (write_all_members demo_stage demo_created).1.
Definition demo_audited : MemWorld := (audit_against 3 demo_stage staged_archive demo_written).1.
Definition demo_committed : MemWorld := (commit 3 demo_stage demo_audited).1.

Lemma publication_is_the_audited_tree_witness :
  write_all_members demo_stage demo_created = (demo_written, Some (Ok ()))
  /\ (exists root, published demo_stage root staged_archive demo_written demo_committed)
  /\ resolve (store demo_committed) mem_root [lit "out"; lit "d"; lit "f"] <> None.
Proof.
  split; [vm_compute; reflexivity|]. split; [|vm_compute; discriminate].
  destruct (@publication_is_the_audited_tree _ _ _ _ mem_laws keeping_sha quoted
    (lit "/out") true true 3 3 demo_opened staged_archive (empty_disk 0 false) demo_created demo_written
    demo_audited demo_committed (with_stage None "committed" "not-applicable-after-commit" None demo_stage))
    as (root & Hp & _); [repeat constructor|vm_compute; reflexivity..|].
  by exists root.
Defined.

Lemma audit_and_commit_return_witness :
  (exists w' r, audit_against 3 demo_stage staged_archive demo_written = (w', Some r) /\ quiet demo_written w')
  /\ exists w' m', commit 3 demo_stage demo_written = (w', Some (Ok m')) /\ mz_outcome m' = "committed"%string.
Proof.
  destruct (@audit_and_commit_return _ _ _ _ mem_laws keeping_sha quoted 3 demo_stage (1, 3) staged_archive
    demo_written) as [Ha (w' & r & Hc & Ho)]; [done|lia|apply levels_shallow; vm_compute; reflexivity|].
  split; [exact Ha|]. exists w'.
  assert (is_ok <$> (commit 3 demo_stage demo_written).2 = Some true) as Hok by (vm_compute; reflexivity).
  rewrite Hc in Hok. destruct r as [m'|]; [|done]. exists m'. split; [exact Hc|exact (proj1 (proj2 Ho))].
Defined.

Definition demo_record : StageRetention :=
  {| sr_schema := lit STAGE_RETENTION_SCHEMA; sr_stage_component := mz_stage_name demo_stage;
     sr_witness := UnixRecord 1 3 |}.
Definition demo_recovered : MemWorld := (recover_abandoned_stage [RootDir] demo_record demo_written).1.

Lemma recovery_removes_only_the_recorded_stage_witness :
  recover_abandoned_stage [RootDir] demo_record demo_written = (demo_recovered, Some (Ok ()))
  /\ store demo_recovered (1, 3) = None.
Proof.
  assert (recover_abandoned_stage [RootDir] demo_record demo_written = (demo_recovered, Some (Ok ()))) as Hr
    by (vm_compute; reflexivity).
  split; [exact Hr|].
  destruct (@recovery_removes_only_the_recorded_stage _ _ _ _ mem_laws mem_removal_laws [RootDir] demo_record demo_written
    demo_recovered (Ok ()) Hr) as [[_ Hno]|(w1 & dir & root & r & _ & (_ & Hw & _) & _ & _ & Hok)]; [done|].
  injection Hw as H1 H2. destruct Hok as [Hgone _]. specialize (Hgone eq_refl).
  assert (root = (1, 3)) as -> by (rewrite (surjective_pairing root); congruence). exact Hgone.
Defined.

Definition busy_stage : MemWorld := (create (path_components (lit "/out")) true (empty_disk 1 false)).1.

(** A stage whose record stands in the file [/record], and the same with a path
    at which nothing can be removed: below a file. *)
Definition record_path : UnixPath := path_components (lit "/record").
Definition recorded_stage : CapabilityMaterializer Ident := with_retention (Some record_path) None demo_opened.
Definition misplaced_stage : CapabilityMaterializer Ident :=
  with_retention (Some (record_path ++ [Normal (lit "x")])) None demo_opened.
Definition recorded_world : MemWorld := (persist_stage_retention demo_opened record_path busy_stage).1.
Definition swept_world : MemWorld := remove_node (1, 3) (fewer_failures recorded_world).
Lemma taken (b : bool) (P Q : Prop) : (if b then P else Q) -> b = true -> P.
Proof. by destruct b. Qed.

Definition busy : fs_error := io_new PermissionDenied "the tree is busy".

Lemma cleanup_is_tried_twice_witness :
  persist_stage_retention demo_opened record_path busy_stage = (recorded_world, Some (Ok recorded_stage))
  /\ remove_open_dir_all (1, 3) recorded_world = (fewer_failures recorded_world, Err busy)
  /\ (exists m', abort_and_report (E:=Finding) (Some recorded_stage) [] (report demo_opened) recorded_world
      = ((remove_file record_path swept_world).1,
         Some (Ok (Some m', [error MaterializeCleanup "remove staging tree: the tree is busy"], report m')))
      /\ mz_cleanup m' = "removed"%string /\ mz_retention_file m' = None)
  /\ exists m', abort_and_report (E:=Finding) (Some misplaced_stage) [] (report demo_opened) recorded_world
      = (swept_world,
         Some (Ok (Some m', [error MaterializeCleanup "remove staging tree: the tree is busy";
                             error MaterializeCleanup "remove stage retention record: not a directory"], report m')))
      /\ mz_cleanup m' = "removed"%string /\ mz_retention_file m' = mz_retention_file misplaced_stage.
Proof.
  split; [vm_compute; reflexivity|]. split; [vm_compute; reflexivity|]. split.
  - destruct (@cleanup_is_tried_twice _ _ _ _ mem_laws recorded_stage (1, 3) [] (report demo_opened)
      recorded_world (fewer_failures recorded_world) (Err busy)) as (m' & Hrun & _ & _ & Hc);
      [by split|vm_compute; reflexivity|].
    apply taken in Hc as (Hc & _ & Hf); [|vm_compute; reflexivity].
    exists m'. split.
    { rewrite Hrun. apply (f_equal2 (fun w fs => (w, Some (Ok (Some m', fs, report m'))))); vm_compute; reflexivity. }
    split; [exact Hc|]. rewrite Hf. vm_compute. reflexivity.
  - destruct (@cleanup_is_tried_twice _ _ _ _ mem_laws misplaced_stage (1, 3) [] (report demo_opened)
      recorded_world (fewer_failures recorded_world) (Err busy)) as (m' & Hrun & _ & _ & Hc);
      [by split|vm_compute; reflexivity|].
    apply taken in Hc as (Hc & _ & Hf); [|vm_compute; reflexivity].
    exists m'. split.
    { rewrite Hrun. apply (f_equal2 (fun w fs => (w, Some (Ok (Some m', fs, report m'))))); vm_compute; reflexivity. }
    split; [exact Hc|]. rewrite Hf. vm_compute. reflexivity.
Defined.

(** A record whose permissions cannot be restricted: the call fails, but the
    record's file has been created, the materializer does not know of it, and
    the cleanup that follows leaves it behind. *)
Theorem persist_failure_leaves_the_record :
  let w := (create (path_components (lit "/out")) true (empty_disk 0 true)).1 in
  let failed := persist_stage_retention demo_opened (path_components (lit "/record")) w in
  let after := (abort_and_report (E:=Finding) (Some demo_opened) [] (report demo_opened) failed.1).1 in
  is_ok <$> failed.2 = Some false
  /\ resolve (store failed.1) mem_root [lit "record"] <> None
  /\ store after (1, 3) = None
  /\ resolve (store after) mem_root [lit "record"] = resolve (store failed.1) mem_root [lit "record"].
Proof. vm_compute. repeat split; discriminate. Qed.
