(* ===== verification/Retention.v ===== *)
(** * Verified archives and the members they keep ([verified.rs])

    A retention plan is a bounded set of canonical paths; a build selects the
    members it can hold before verification and keeps their bytes as they are
    verified; a verified archive answers bounded reads, from what it kept or
    by verifying the recorded payload again. *)

From S2P Require Import Prelude Utf8 Paths Findings Quota Snapshot Streams Transforms Ir Jail ZipRecords Evidence Policy Verification.
Local Open Scope Z_scope.
Local Open Scope rust_scope.

(** ** Plans *)

Definition MAX_RETENTION_PATHS : Z := 64.
Definition MAX_RETENTION_PATH_BYTES : Z := 4096.
Definition MAX_RETENTION_TOTAL_PATH_BYTES : Z := 16384.

Inductive RetentionPlanErrorKind : Type := TooManyPaths | PathTooLong | TotalPathBytesExceeded | NonCanonicalPath.
Record RetentionPlanError : Type := { rpe_kind : RetentionPlanErrorKind; rpe_path : str; rpe_detail : string }.
Definition plan_error (k : RetentionPlanErrorKind) (path : str) (detail : string) : RetentionPlanError :=
  {| rpe_kind := k; rpe_path := path; rpe_detail := detail |}.

(** The [BTreeSet] of paths is the keys of a map. *)
Record RetentionPlan : Type := {
  rp_paths : BTreeMap unit;
  rp_path_bytes : Z;
  rp_max_member_bytes : Z;
  rp_max_total_bytes : Z
}.
Definition new_plan (max_member_bytes max_total_bytes : Z) : RetentionPlan :=
  {| rp_paths := []; rp_path_bytes := 0; rp_max_member_bytes := max_member_bytes;
     rp_max_total_bytes := max_total_bytes |}.
(** [RetentionPlan::paths]. *)
Definition plan_paths (plan : RetentionPlan) : list str := map fst (rp_paths plan).

Section Plan.
Context `{!Unicode, !Allocator}.

(** [None] is the panic of [jail_name] on a failed reservation. *)
Definition add_path (plan : RetentionPlan) (path : str) : exec RetentionPlan RetentionPlanError :=
  if contains_key (rp_paths plan) path then Some (Ok plan)
  else
    reject! MAX_RETENTION_PATHS <=? Z.of_nat (length (rp_paths plan))
      with plan_error TooManyPaths path "retention plan supports at most 64 paths" ;;
    reject! MAX_RETENTION_PATH_BYTES <? Z.of_nat (length path)
      with plan_error PathTooLong path "retention path exceeds 4096 bytes" ;;
    let* next_path_bytes :=
      ok_or (u64_checked_add (rp_path_bytes plan) (Z.of_nat (length path)))
        (plan_error TotalPathBytesExceeded path "retention path-byte counter overflowed") in
    reject! MAX_RETENTION_TOTAL_PATH_BYTES <? next_path_bytes
      with plan_error TotalPathBytesExceeded path "retention paths exceed 16384 total bytes" ;;
    let! jailed :=
      exec_map_err (fun finding =>
          plan_error NonCanonicalPath path (as_str (code finding) +++ ": " +++ detail finding))
        (jail_name path u32_max) in
    reject! negb (bool_decide (actions jailed = []))
            || negb (bool_decide (join_slash (components jailed) = path))
      with plan_error NonCanonicalPath path "retention path must already be in canonical form" ;;
    Some (Ok {| rp_paths := btree_insert path () (rp_paths plan); rp_path_bytes := next_path_bytes;
                rp_max_member_bytes := rp_max_member_bytes plan;
                rp_max_total_bytes := rp_max_total_bytes plan |}).

(** A chain of [with_path]. *)
Fixpoint with_paths (plan : RetentionPlan) (paths : list str) : exec RetentionPlan RetentionPlanError :=
  match paths with
  | [] => Some (Ok plan)
  | path :: paths => let! plan := add_path plan path in with_paths plan paths
  end.
End Plan.

(** ** Builds *)

Inductive RetentionStatus : Type :=
  | StNotRequested | StRetained | StNotFound | StNotFile | StMemberLimitExceeded
  | StTotalLimitExceeded | StPlatformLimit | StAllocationFailed | StIntegrityMismatch.
Inductive RetentionEntry : Type :=
  | Selected (expected_size : Z)
  | Retained (bytes : list byte)
  | EntryNotFound | EntryNotFile | MemberLimitExceeded | TotalLimitExceeded | EntryPlatformLimit
  | EntryAllocationFailed | EntryIntegrityMismatch.

(** [RetentionEntry::status]. *)
Definition entry_status (e : RetentionEntry) : RetentionStatus :=
  match e with
  | Selected _ => StIntegrityMismatch
  | Retained _ => StRetained
  | EntryNotFound => StNotFound
  | EntryNotFile => StNotFile
  | MemberLimitExceeded => StMemberLimitExceeded
  | TotalLimitExceeded => StTotalLimitExceeded
  | EntryPlatformLimit => StPlatformLimit
  | EntryAllocationFailed => StAllocationFailed
  | EntryIntegrityMismatch => StIntegrityMismatch
  end.

Definition RetentionBuild : Type := BTreeMap RetentionEntry.

(** [collect] of the members by path: a later one replaces an earlier one. *)
Definition by_path (ms : list IrMember) : BTreeMap IrMember :=
  foldl (fun acc m => btree_insert (canonical_path m) m acc) [] ms.

(** The [match] for one path, with the running total. *)
Definition select_entry (plan : RetentionPlan) (found : option IrMember) (total : QuotaState) :
    QuotaState * RetentionEntry :=
  match found with
  | None => (total, EntryNotFound)
  | Some m =>
      match ir_kind m with
      | KindDirectory => (total, EntryNotFile)
      | KindFile =>
          if rp_max_member_bytes plan <? declared_uncomp_size m then (total, MemberLimitExceeded)
          else
            match consume total (declared_uncomp_size m) with
            | (total, Ok _) => (total, Selected (declared_uncomp_size m))
            | (total, Err _) => (total, TotalLimitExceeded)
            end
      end
  end.
Fixpoint select_entries (plan : RetentionPlan) (ms : BTreeMap IrMember) (paths : list str)
    (total : QuotaState) (entries : RetentionBuild) : RetentionBuild :=
  match paths with
  | [] => entries
  | path :: paths =>
      let '(total, entry) := select_entry plan (btree_get ms path) total in
      select_entries plan ms paths total (btree_insert path entry entries)
  end.

(** [RetentionBuild::plan]. *)
Definition plan_build (plan : option RetentionPlan) (ir : ArchiveIR) : RetentionBuild :=
  match plan with
  | None => []
  | Some plan =>
      select_entries plan (by_path (members ir)) (plan_paths plan) (Quota.new (rp_max_total_bytes plan)) []
  end.

(** [begin_capture]: a [u64] fits the [usize] of the targets modelled. *)
Definition begin_capture `{!Allocator} (build : RetentionBuild) (path : str) :
    RetentionBuild * option (list byte) :=
  match btree_get build path with
  | Some (Selected expected_size) =>
      if try_reserve "retained member" expected_size then (build, Some [])
      else (btree_insert path EntryAllocationFailed build, None)
  | _ => (build, None)
  end.

Definition finish_capture (build : RetentionBuild) (path : str) (bytes : option (list byte)) :
    RetentionBuild :=
  match bytes with
  | None => build
  | Some bytes =>
      match btree_get build path with
      | Some (Selected expected_size) =>
          let entry := if Z.of_nat (length bytes) =? expected_size then Retained bytes
                       else EntryIntegrityMismatch in
          btree_insert path entry build
      | _ => build
      end
  end.

(** ** Verified archives *)

Inductive MemberReadErrorKind : Type :=
  | ReadNotFound | ReadNotFile | LimitExceeded | ReadPlatformLimit | ReadAllocationFailed
  | ReadSourceIo | ReadIntegrityMismatch.
#[export] Instance MemberReadErrorKind_eq_dec : EqDecision MemberReadErrorKind.
Proof. solve_decision. Defined.
Record MemberReadError : Type := { mre_kind : MemberReadErrorKind; mre_path : str; mre_detail : string }.
Definition read_error (k : MemberReadErrorKind) (path : str) (detail : string) : MemberReadError :=
  {| mre_kind := k; mre_path := path; mre_detail := detail |}.

(** The in-process backend; the supervised one is another process. *)
Record VerifiedArchive : Type := {
  va_snapshots : SnapshotSet;
  va_payloads : list PayloadPlan;
  va_ir : ArchiveIR;
  va_budget : ResourceBudget;
  va_members_by_path : BTreeMap nat;
  va_retention : RetentionBuild
}.

(** [SnapshotSet::into_owned]. *)
Definition set_into_owned (set : SnapshotSet) : SnapshotSet :=
  {| original := into_owned (original set); derived := map into_owned (derived set) |}.

Fixpoint index_members (index : nat) (ms : list IrMember) (acc : BTreeMap nat) : BTreeMap nat :=
  match ms with
  | [] => acc
  | m :: ms => index_members (S index) ms (btree_insert (canonical_path m) index acc)
  end.
(** [VerifiedArchive::new]; its authority is the check the caller made. *)
Definition new_archive (snapshots : SnapshotSet) (ir : ArchiveIR) (payloads : list PayloadPlan)
    (budget : ResourceBudget) (retention : RetentionBuild) : VerifiedArchive :=
  {| va_snapshots := set_into_owned snapshots; va_payloads := payloads; va_ir := ir;
     va_budget := budget; va_members_by_path := index_members 0 (members ir) [];
     va_retention := retention |}.

Definition retention_status (a : VerifiedArchive) (path : str) : RetentionStatus :=
  from_option entry_status StNotRequested (btree_get (va_retention a) path).
Definition retained_member (a : VerifiedArchive) (path : str) : option (list byte) :=
  match btree_get (va_retention a) path with Some (Retained bytes) => Some bytes | _ => None end.
Definition retained_bytes (a : VerifiedArchive) : Z :=
  foldr Z.add 0 (omap (fun e => match e.2 with Retained bytes => Some (Z.of_nat (length bytes)) | _ => None end)
                   (va_retention a)).
(** [VerifiedArchive::member]. *)
Definition archive_member (a : VerifiedArchive) (path : str) : option IrMember :=
  index ← btree_get (va_members_by_path a) path; members (va_ir a) !! index.

(** [matches!(member.verification, MemberVerification::Verified)]. *)
Definition is_verified (m : IrMember) : bool :=
  match verification m with Verified => true | _ => false end.

(** [verified_regular_member]; [None] is the panic of an index out of range. *)
Definition verified_regular_member (a : VerifiedArchive) (path : str) :
    exec (nat * IrMember * Z) MemberReadError :=
  match btree_get (va_members_by_path a) path with
  | None => Some (Err (read_error ReadNotFound path "verified member was not found"))
  | Some index =>
      match members (va_ir a) !! index with
      | None => None
      | Some m =>
          reject! bool_decide (ir_kind m = KindDirectory)
            with read_error ReadNotFile path "verified member is a directory" ;;
          reject! negb (is_verified m)
            with read_error ReadIntegrityMismatch path
                   "capability contains a member that is not fully verified" ;;
          match actual_uncomp_size m with
          | None => Some (Err (read_error ReadIntegrityMismatch path
                                 "verified member is missing its measured size"))
          | Some expected_size => Some (Ok (index, m, expected_size))
          end
      end
  end.

Definition member_read_error (path : str) (finding : Finding) : MemberReadError :=
  read_error (if bool_decide (code finding = SourceIo) then ReadSourceIo else ReadIntegrityMismatch)
    path (as_str (code finding) +++ ": " +++ detail finding).

(** [PrefixSink]. *)
Record PrefixSink : Type := { ps_retained : list byte; ps_cap : Z }.
#[export] Instance prefix_sink_write : Write PrefixSink := {|
  write_all sink buffer :=
    let room := ps_cap sink - Z.of_nat (length (ps_retained sink)) in
    let taken := if 0 <? room then take (Z.to_nat (Z.min room (Z.of_nat (length buffer)))) buffer else [] in
    ({| ps_retained := ps_retained sink ++ taken; ps_cap := ps_cap sink |}, Ok ())
|}.
(** [Vec<u8>]. *)
#[export] Instance vec_write : Write (list byte) := {| write_all bytes buffer := (bytes ++ buffer, Ok ()) |}.

Section Reads.
Context `{!Sha256, !Crc32, !Inflate, !Allocator}.

(** The recorded payload streamed again into a writer, and compared with the
    recorded evidence. *)
Definition reverify {X} `{Write X} (a : VerifiedArchive) (path : str) (index : nat) (m : IrMember)
    (expected_size : Z) (writer : X) : exec X MemberReadError :=
  match va_payloads a !! index with
  | None => None
  | Some payload_spec =>
      let* (snapshot, r) :=
        map_err (member_read_error path)
          (planned_payload_reader (va_snapshots a) payload_spec (decoded_name m)) in
      let _ := buf_reader_instance snapshot PAYLOAD_BUFFER in
      let! (writer, (actual, crc, sha256)) :=
        exec_map_err (fun e => member_read_error path e.2)
          (verify_payload (buf_reader r) payload_spec (va_budget a) expected_size writer) in
      reject! negb (actual =? expected_size)
              || negb (bool_decide (Some crc = actual_crc m))
              || negb (bool_decide (content_sha256 m = Some (digest_hex sha256)))
        with read_error ReadIntegrityMismatch path
               "member bytes disagree with the recorded verified evidence" ;;
      Some (Ok writer)
  end.

(** Less the allocator's own text. *)
Definition could_not_reserve (path : str) (n : Z) : MemberReadError :=
  read_error ReadAllocationFailed path ("could not reserve " +++ fmt_dec n +++ " bytes: ").
(** The branch of both reads for a member kept during verification. *)
Definition copy_retained (path : str) (expected_size : Z) (retained : list byte) (n : Z) :
    result (list byte) MemberReadError :=
  reject negb (Z.of_nat (length retained) =? expected_size)
    with read_error ReadIntegrityMismatch path "retained member size disagrees with verified evidence" ;;
  reject negb (try_reserve "member bytes" n)
    with could_not_reserve path n ;;
  Ok (take (Z.to_nat n) retained).

Definition read_member (a : VerifiedArchive) (path : str) (max_bytes : Z) :
    exec (list byte) MemberReadError :=
  let! (index, m, expected_size) := verified_regular_member a path in
  reject! max_bytes <? expected_size
    with read_error LimitExceeded path ("verified size " +++ fmt_dec expected_size
           +++ " exceeds caller limit " +++ fmt_dec max_bytes) ;;
  match retained_member a path with
  | Some retained => Some (copy_retained path expected_size retained expected_size)
  | None =>
      reject! negb (try_reserve "member bytes" expected_size)
        with could_not_reserve path expected_size ;;
      reverify a path index m expected_size ([] : list byte)
  end.

Definition read_member_prefix (a : VerifiedArchive) (path : str) (prefix_cap : Z) :
    exec (list byte) MemberReadError :=
  let! (index, m, expected_size) := verified_regular_member a path in
  let retain := Z.min expected_size prefix_cap in
  match retained_member a path with
  | Some retained => Some (copy_retained path expected_size retained retain)
  | None =>
      reject! negb (try_reserve "member bytes" retain)
        with could_not_reserve path retain ;;
      let! sink := reverify a path index m expected_size {| ps_retained := []; ps_cap := retain |} in
      Some (Ok (ps_retained sink))
  end.
End Reads.
