(* ===== verification/RetentionSafe.v ===== *)
(** * Bounded reads are of the verified bytes

    Whatever writer takes a verified payload took exactly the bytes whose size
    and digests are reported, so that what a verified archive hands out, whole
    or by prefix, kept or read again, is content the recorded evidence
    describes; and a retention plan stays within its bounds. *)

From S2P Require Import Prelude Utf8 Paths Findings Quota Snapshot Streams Transforms Ir Jail JailSafe ZipRecords Evidence IdentityRoots Policy Verification Retention.
From stdpp Require Import sorting.
Local Open Scope Z_scope.
Local Open Scope rust_scope.

(** ** The writer took what the digests describe *)

Section Took.
Context `{!Sha256, !Crc32, !Inflate} {R X : Type} `{BufRead R} `{Write X}.
Context (took : X -> list byte -> X -> Prop).
Context (member : PayloadPlan) (budget : ResourceBudget) (remaining : Z).

Record fed_ok (w0 : X) (st : Consumed X) : Prop := {
  fd_actual : cs_actual st = {| used := Z.of_nat (length (cs_bytes st)); limit := u64_max |};
  fd_took : took w0 (cs_bytes st) (cs_writer st)
}.

Lemma consume_chunk_fed w0 st chunk st' :
  takes took -> fed_ok w0 st -> consume_chunk member budget remaining st chunk = Some (Ok st') ->
  fed_ok w0 st'.
Proof.
  intros Hw [Ha Ht] Hc. unfold consume_chunk in Hc. rewrite Ha in Hc. unfold consume in Hc.
  cbn [used limit] in Hc. destruct (u64_checked_add _ _) as [n|] eqn:Hn; [|done].
  apply u64_checked_add_Some in Hn as [-> Hn].
  destruct (_ <? _) eqn:Hl in Hc; [by apply Z.ltb_lt in Hl; lia|].
  do 4 (case_match; [done|]).
  destruct (write_all _ _) as [w [[]|m]] eqn:Hwr; [|done]. simplify_eq.
  split; cbn [cs_actual cs_bytes cs_writer]; rewrite ?length_app, ?Nat2Z.inj_add; [done|].
  by eapply takes_more.
Qed.

Lemma run_codec_fed payload w c :
  takes took -> run_codec payload member budget remaining w = Some (Ok c) -> fed_ok w c.
Proof.
  intros Hw. assert (fed_ok w (start_consumed w)) as H0' by (split; [done|by apply takes_none]).
  unfold run_codec. destruct (pp_codec member); cbv zeta; [| |done].
  - apply (run_loop_invariant _ (fun st => fed_ok w st.2) (fed_ok w)); [| |done].
    + intros x y Hx Hst. unfold raw_step in Hst.
      destruct (io_read_into _ _) as [p [[|b chunk]|e]]; [done| |done].
      destruct (consume_chunk _ _ _ _ _) as [[c'|]|] eqn:Hc; [|done..]. simplify_eq. by eapply consume_chunk_fed.
    + intros x y Hx Hst. unfold raw_step in Hst.
      destruct (io_read_into _ _) as [p [[|b chunk]|e]]; [by simplify_eq| |done].
      by destruct (consume_chunk _ _ _ _ _) as [[c'|]|].
  - destruct (run_loop _ _ _) as [[[d st]|]|] eqn:Hrun; [|done..].
    intros Hc. do 2 (case_match; [done|]). simplify_eq. revert Hrun.
    apply (run_loop_invariant _ (fun st => fed_ok w st.2) (fun st => fed_ok w st.2)); [| |done].
    + intros x y Hx Hst. unfold inflate_step in Hst.
      destruct (deflate_read _ _ _) as [[[d' [[|b chunk]|e]]|]|]; [done| |done..].
      destruct (consume_chunk _ _ _ _ _) as [[c'|]|] eqn:Hc; [|done..]. simplify_eq. by eapply consume_chunk_fed.
    + intros x y Hx Hst. unfold inflate_step in Hst.
      destruct (deflate_read _ _ _) as [[[d' [[|b chunk]|e]]|]|]; [by simplify_eq| |done..].
      by destruct (consume_chunk _ _ _ _ _) as [[c'|]|].
Qed.

(** *** Where the bytes come from *)

(** The bytes a codec makes of what a reader delivers: all of them, or what the
    decoder produced up to the end it reported, having taken exactly the
    declared compressed size from the start. *)
Definition decoded_from (rest out : list byte) : Prop :=
  match pp_codec member with
  | CodecRaw => out = rest
  | CodecDeflate =>
      InflateLaws -> exists fed d, inflating rest fed d out true
        /\ Z.of_nat (length fed) = pp_compressed_size member /\ fed `prefix_of` rest
  | CodecUnsupported _ => False
  end.

(** A chunk that was accepted is appended. *)
Lemma consume_chunk_appends st chunk st' :
  consume_chunk member budget remaining st chunk = Some (Ok st') -> cs_bytes st' = cs_bytes st ++ chunk.
Proof.
  unfold consume_chunk. destruct (consume _ _) as [q [n|[|]]]; [|done..]. do 4 (case_match; [done|]).
  destruct (write_all _ _) as [w [[]|m]]; [|done]. by intros [= <-].
Qed.

Lemma raw_run_reads (holds : R -> list byte -> Prop) fuel payload rest w c :
  holds_with holds -> holds payload rest ->
  run_loop (raw_step member budget remaining) fuel (payload, start_consumed w) = Some (Ok c) ->
  cs_bytes c = rest.
Proof.
  intros Hr Hh. apply (run_loop_invariant _
    (fun st => exists rest', holds st.1 rest' /\ rest = cs_bytes st.2 ++ rest') (fun c => cs_bytes c = rest)).
  - intros st st' (rest' & Hh' & ->) Hst. unfold raw_step in Hst.
    destruct (io_read_into st.1 PAYLOAD_BUFFER) as [p [[|b chunk]|e]] eqn:Hrd; try done.
    apply (holds_read _ Hr _ rest') in Hrd as (rest'' & -> & Hh'' & _ & _); [|done|done].
    destruct (consume_chunk _ _ _ _ _) as [[c'|e]|] eqn:Hcc; [|done..]. simplify_eq. simpl.
    apply consume_chunk_appends in Hcc as ->. exists rest''. by rewrite <- app_assoc.
  - intros st c' (rest' & Hh' & ->) Hst. unfold raw_step in Hst.
    destruct (io_read_into st.1 PAYLOAD_BUFFER) as [p [[|b chunk]|e]] eqn:Hrd; try done.
    + simplify_eq. apply (holds_read _ Hr _ rest') in Hrd as (rest'' & -> & _ & _ & Hnil); [|done|done].
      by rewrite (Hnil eq_refl eq_refl), app_nil_r.
    + by destruct (consume_chunk _ _ _ _ _) as [[?|?]|].
  - by exists rest.
Qed.

Lemma inflate_run_reads `{!InflateLaws} (holds : R -> list byte -> Prop) fuel fuel' payload rest w d c :
  fills holds -> fills_uninterrupted holds -> holds payload rest ->
  run_loop (inflate_step fuel' member budget remaining) fuel (new_decoder payload, start_consumed w)
    = Some (Ok (d, c)) ->
  decoding holds rest d (cs_bytes c) /\ dd_ended d = true.
Proof.
  intros Hf Hni Hh. apply (run_loop_invariant _ (fun st => decoding holds rest st.1 (cs_bytes st.2))
    (fun st => decoding holds rest st.1 (cs_bytes st.2) /\ dd_ended st.1 = true)).
  - intros x y Hd Hst. unfold inflate_step in Hst.
    destruct (deflate_read _ x.1 PAYLOAD_BUFFER) as [[[d' [[|b chunk]|e]]|]|] eqn:Hr; try done.
    apply (deflate_read_ok holds rest _ _ (cs_bytes x.2)) in Hr as [Hd' _]; [|done..].
    destruct (consume_chunk _ _ _ _ _) as [[c'|e]|] eqn:Hcc; [|done..]. simplify_eq. simpl.
    by apply consume_chunk_appends in Hcc as ->.
  - intros x y Hd Hst. unfold inflate_step in Hst.
    destruct (deflate_read _ x.1 PAYLOAD_BUFFER) as [[[d' [[|b chunk]|e]]|]|] eqn:Hr; try done.
    + simplify_eq. apply (deflate_read_ok holds rest _ _ (cs_bytes x.2)) in Hr as [Hd' He]; [|done..].
      rewrite app_nil_r in Hd'. split; [done|by apply He].
    + by destruct (consume_chunk _ _ _ _ _) as [[?|?]|].
  - by apply decoding_start.
Qed.

Lemma run_codec_reads (holds : R -> list byte -> Prop) payload rest w c :
  holds_with holds -> fills holds -> fills_uninterrupted holds -> holds payload rest ->
  run_codec payload member budget remaining w = Some (Ok c) -> decoded_from rest (cs_bytes c).
Proof.
  intros Hr Hf Hni Hh. unfold run_codec, decoded_from. destruct (pp_codec member); cbv zeta; [| |done].
  - by apply (raw_run_reads holds).
  - destruct (run_loop _ _ _) as [[[d st]|]|] eqn:Hrun; [|done..]. intros Hc HL.
    do 2 (case_match; [done|]). simplify_eq. breflect.
    apply (inflate_run_reads holds _ _ _ rest) in Hrun as [(fed & rest' & _ & -> & Hin & _ & Hi) He]; [|done..].
    rewrite He in Hi. exists fed, (dd_decoder d). split_and!; [done|lia|by exists rest'].
Qed.

(** An accepted payload: what the writer took is what was measured, and what
    the codec makes of whatever the reader delivers. *)
Lemma verify_payload_streamed payload w w' n crc sha :
  takes took ->
  verify_payload payload member budget remaining w = Some (Ok (w', (n, crc, sha))) ->
  exists out, took w out w' /\ n = Z.of_nat (length out) /\ crc = crc32 out /\ sha = sha256 out
    /\ n = pp_uncompressed_size member /\ integrity_holds member out
    /\ forall (holds : R -> list byte -> Prop) rest,
         holds_with holds -> fills holds -> fills_uninterrupted holds -> holds payload rest ->
         decoded_from rest out.
Proof.
  intros Hw Hv. apply verify_payload_tail in Hv as (c & Hc & Hu & Hi & -> & -> & -> & ->).
  pose proof (run_codec_fed _ _ _ Hw Hc) as [Ha Ht]. exists (cs_bytes c).
  rewrite Ha in Hu |- *. simpl in *. split_and!; [done..|]. intros. by eapply run_codec_reads.
Qed.

Lemma verify_payload_took payload w w' n crc sha :
  takes took ->
  verify_payload payload member budget remaining w = Some (Ok (w', (n, crc, sha))) ->
  exists out, took w out w' /\ n = Z.of_nat (length out) /\ crc = crc32 out /\ sha = sha256 out
    /\ n = pp_uncompressed_size member /\ integrity_holds member out.
Proof. intros Hw (out & ? & ? & ? & ? & ? & ? & _)%verify_payload_streamed; [|done]. by exists out. Qed.
End Took.

Lemma vec_takes : takes (fun (w : list byte) out w' => w' = w ++ out).
Proof.
  split; [intros w; by rewrite app_nil_r|]. intros w done_ w1 bytes w2 -> [= <-]. by rewrite app_assoc.
Qed.

Lemma prefix_takes :
  takes (fun (w : PrefixSink) out w' =>
    ps_cap w' = ps_cap w /\ (Z.of_nat (length (ps_retained w)) <= ps_cap w ->
      ps_retained w' = take (Z.to_nat (ps_cap w)) (ps_retained w ++ out))).
Proof.
  split.
  - intros w. split; [done|]. intros Hl. rewrite app_nil_r, take_ge by lia. done.
  - intros w done_ w1 bytes w2 [Hc Hr] [= <-]. simpl. split; [done|]. intros Hl.
    rewrite (Hr Hl), Hc, app_assoc.
    set (pre := ps_retained w ++ done_). set (cap := ps_cap w). rewrite length_take.
    destruct (Z.ltb_spec 0 (cap - Z.of_nat (Z.to_nat cap `min` length pre))) as [Hroom|Hroom].
    + rewrite (take_ge pre) by lia. rewrite take_app, (take_ge pre) by lia. f_equal.
      rewrite Z.min_comm. destruct (Z.min_spec (Z.of_nat (length bytes)) (cap - Z.of_nat (Z.to_nat cap `min` length pre)))
        as [[Hm ->]|[Hm ->]].
      * rewrite !take_ge by lia. done.
      * f_equal. lia.
    + rewrite app_nil_r, take_app.
      replace (Z.to_nat cap - length pre)%nat with 0%nat by lia. by rewrite app_nil_r.
Qed.

(** ** Reads of a verified archive *)

(** The recorded evidence of a member describes these bytes. *)
Definition evidence_of `{!Sha256, !Crc32} (m : IrMember) (bytes : list byte) : Prop :=
  ir_kind m = KindFile /\ actual_uncomp_size m = Some (Z.of_nat (length bytes))
  /\ actual_crc m = Some (crc32 bytes) /\ content_sha256 m = Some (digest_hex (sha256 bytes)).

(** What the executor hands to [VerifiedArchive::new]: paths that do not
    repeat, and kept bytes that are their member's. *)
Record reads_ok `{!Sha256, !Crc32} (a : VerifiedArchive) : Prop := {
  ao_index : va_members_by_path a = index_members 0 (members (va_ir a)) [];
  ao_paths : NoDup (map canonical_path (members (va_ir a)));
  ao_kept : forall path bytes m, btree_get (va_retention a) path = Some (Retained bytes) ->
    m ∈ members (va_ir a) -> canonical_path m = path -> evidence_of m bytes
}.

Lemma index_members_get ms n acc path i :
  btree_sorted acc -> btree_get (index_members n ms acc) path = Some i ->
  btree_get acc path = Some i \/ exists k m, i = (n + k)%nat /\ ms !! k = Some m /\ canonical_path m = path.
Proof.
  revert n acc. induction ms as [|m ms IH]; intros n acc Hs Hg; [by left|]. simpl in Hg.
  apply IH in Hg as [Hg|(k & m' & -> & Hk & Hp)]; [| |by apply btree_insert_sorted].
  - rewrite btree_get_insert in Hg by done. case_bool_decide as Hp.
    + injection Hg as ->. right. exists 0%nat, m. split_and!; [lia|done|done].
    + by left.
  - right. exists (S k), m'. split_and!; [lia|done..].
Qed.

Lemma nodup_lookup {A} (f : A -> str) (l : list A) x y :
  NoDup (map f l) -> x ∈ l -> y ∈ l -> f x = f y -> x = y.
Proof.
  intros Hnd [i Hx]%list_elem_of_lookup [j Hy]%list_elem_of_lookup Hf.
  assert (i = j) as ->; [|congruence].
  eapply NoDup_lookup; [exact Hnd|..]; rewrite list_lookup_fmap; [by rewrite Hx|by rewrite Hy, Hf].
Qed.

Section Reading.
Context `{!Sha256, !Crc32, !Inflate, !Allocator}.

Lemma regular_member_sound a path i m size :
  reads_ok a -> verified_regular_member a path = Some (Ok (i, m, size)) ->
  members (va_ir a) !! i = Some m /\ canonical_path m = path /\ ir_kind m = KindFile
  /\ is_verified m = true /\ actual_uncomp_size m = Some size.
Proof.
  intros [Hi _ _] Hv. unfold verified_regular_member in Hv.
  destruct (btree_get _ path) as [index|] eqn:Hg; [|done].
  destruct (members (va_ir a) !! index) as [x|] eqn:Hx; [|done].
  case_bool_decide as Hk; [done|]. destruct (is_verified x) eqn:Hver; [|done].
  destruct (actual_uncomp_size x) as [n|] eqn:Hn; [|done]. simpl in Hv. simplify_eq.
  rewrite Hi in Hg. apply index_members_get in Hg as [Hg|(k & m' & -> & Hm & Hp)]; [done| |by constructor].
  simpl in *. rewrite Hx in Hm. injection Hm as <-. split_and!; try done. by destruct (ir_kind m).
Qed.

Lemma reverify_sound {X} `{Write X} (took : X -> list byte -> X -> Prop) a path i m size w w' :
  takes took -> ir_kind m = KindFile -> actual_uncomp_size m = Some size ->
  reverify a path i m size w = Some (Ok w') ->
  exists bytes, took w bytes w' /\ evidence_of m bytes /\ size = Z.of_nat (length bytes).
Proof.
  intros Hw Hk Hsize Hr. unfold reverify in Hr.
  destruct (va_payloads a !! i) as [spec|]; [|done].
  destruct (planned_payload_reader _ _ _) as [[snapshot r]|e]; [|done]. cbn [map_err] in Hr.
  destruct (verify_payload _ _ _ _ _) as [[[x [[n crc] sha]]|[x e]]|] eqn:Hv; [|done..].
  cbn [exec_map_err option_map map_err] in Hr.
  apply (verify_payload_took took) in Hv as (out & Ht & -> & -> & -> & _ & _); [|done].
  case_match eqn:Hg; [done|]. apply orb_false_iff in Hg as [Hg Hsha]. apply orb_false_iff in Hg as [Hn Hcrc].
  apply negb_false_iff, bool_decide_eq_true in Hsha, Hcrc. breflect. simplify_eq.
  exists out. by split_and!.
Qed.

Lemma copy_retained_sound path size retained n out :
  copy_retained path size retained n = Ok out ->
  size = Z.of_nat (length retained) /\ out = take (Z.to_nat n) retained.
Proof.
  unfold copy_retained. intros Hc. do 2 (case_match; [done|]). simplify_eq. by breflect.
Qed.

Lemma retained_evidence a path m retained :
  reads_ok a -> retained_member a path = Some retained -> m ∈ members (va_ir a) ->
  canonical_path m = path -> evidence_of m retained.
Proof.
  intros Ha Hr Hm Hp. unfold retained_member in Hr.
  destruct (btree_get (va_retention a) path) as [[]|] eqn:Hg; try done. simplify_eq. by eapply ao_kept.
Qed.

(** What a read hands out: a prefix of the content a member's evidence
    describes. *)
Definition released (a : VerifiedArchive) (path : str) (limit : Z) (out : list byte) : Prop :=
  exists m bytes, m ∈ members (va_ir a) /\ canonical_path m = path /\ evidence_of m bytes
    /\ out = take (Z.to_nat limit) bytes.

Lemma read_member_sound a path max_bytes out :
  reads_ok a -> read_member a path max_bytes = Some (Ok out) ->
  Z.of_nat (length out) <= max_bytes
  /\ exists m, m ∈ members (va_ir a) /\ canonical_path m = path /\ evidence_of m out.
Proof.
  intros Ha Hr. unfold read_member in Hr.
  destruct (verified_regular_member a path) as [[[[i m] size]|e]|] eqn:Hv; [|done..].
  apply (regular_member_sound _ _ _ _ _ Ha) in Hv as (Hi & Hp & Hk & _ & Hsize).
  destruct (Z.ltb_spec max_bytes size) as [|Hmax]; [done|].
  assert (m ∈ members (va_ir a)) as Hm by by eapply list_elem_of_lookup_2.
  enough (exists bytes, evidence_of m bytes /\ out = bytes) as (bytes & He & ->).
  { pose proof He as (_ & Hl & _). rewrite Hsize in Hl. injection Hl as ->. split; [done|]. by exists m. }
  destruct (retained_member a path) as [retained|] eqn:Hret.
  - injection Hr as Hr. apply copy_retained_sound in Hr as [-> ->]. exists retained.
    split; [by eapply retained_evidence|]. by rewrite Nat2Z.id, take_ge.
  - case_match; [done|].
    apply (reverify_sound (fun (w : list byte) out w' => w' = w ++ out)) in Hr as (bytes & -> & He & _);
      [|by apply vec_takes|done..]. by exists bytes.
Qed.

Lemma read_prefix_sound a path cap out :
  0 <= cap -> reads_ok a -> read_member_prefix a path cap = Some (Ok out) -> released a path cap out.
Proof.
  intros Hcap Ha Hr. unfold read_member_prefix in Hr.
  destruct (verified_regular_member a path) as [[[[i m] size]|e]|] eqn:Hv; [|done..].
  apply (regular_member_sound _ _ _ _ _ Ha) in Hv as (Hi & Hp & Hk & _ & Hsize).
  assert (m ∈ members (va_ir a)) as Hm by by eapply list_elem_of_lookup_2. cbv zeta in Hr.
  assert (forall bytes : list byte, size = Z.of_nat (length bytes) ->
    take (Z.to_nat (Z.min size cap)) bytes = take (Z.to_nat cap) bytes) as Hmin.
  { intros bytes ->. destruct (Z.min_spec (Z.of_nat (length bytes)) cap) as [[? ->]|[? ->]]; [|done].
    by rewrite !take_ge by lia. }
  enough (exists bytes, evidence_of m bytes /\ out = take (Z.to_nat cap) bytes) as (bytes & He & ->)
    by by exists m, bytes.
  destruct (retained_member a path) as [retained|] eqn:Hret.
  - injection Hr as Hr. apply copy_retained_sound in Hr as [Hs ->]. exists retained.
    split; [by eapply retained_evidence|]. by apply Hmin.
  - case_match; [done|]. destruct (reverify _ _ _ _ _ _) as [[sink|e]|] eqn:Hrev; [|done..].
    apply (reverify_sound _ _ _ _ _ _ _ _ prefix_takes) in Hrev as (bytes & [_ Ht] & He & Hs); [|done..].
    simpl in Hr. simplify_eq. exists bytes. split; [done|]. rewrite Ht by (simpl; lia). by apply Hmin.
Qed.
End Reading.

(** ** Plans and builds stay within their limits *)

(** The bytes an entry may hold. *)
Definition entry_weight (e : RetentionEntry) : Z :=
  match e with Selected n => n | Retained bytes => Z.of_nat (length bytes) | _ => 0 end.
Definition build_weight (build : RetentionBuild) : Z :=
  foldr (fun e acc => entry_weight e.2 + acc) 0 build.

(** Beginning and finishing captures, in any order. *)
Inductive capture_step `{!Allocator} : RetentionBuild -> RetentionBuild -> Prop :=
  | step_begin build path : capture_step build (begin_capture build path).1
  | step_finish build path bytes : capture_step build (finish_capture build path bytes).

Record build_ok (max_member max_total : Z) (build : RetentionBuild) : Prop := {
  bo_sorted : btree_sorted build;
  bo_members : forall path e, (path, e) ∈ build -> 0 <= entry_weight e <= max_member;
  bo_total : build_weight build <= max_total
}.

Lemma build_weight_insert path e build :
  btree_sorted build ->
  build_weight (btree_insert path e build)
  = build_weight build + entry_weight e - from_option entry_weight 0 (btree_get build path).
Proof.
  unfold btree_get. induction build as [|[k x] build IH]; intros Hs; simpl; [lia|].
  pose proof Hs as Hs'. apply btree_sorted_cons in Hs' as [Hs' Hlt]. simpl in Hlt.
  destruct (str_cmp path k) eqn:Hc; simpl.
  - apply str_cmp_eq in Hc as ->. rewrite bool_decide_eq_true_2 by done. simpl. lia.
  - rewrite bool_decide_eq_false_2 by (intros ->; by apply (irreflexivity str_lt path)).
    pose proof (proj2 (btree_get_None build path)) as Hnone. unfold btree_get in Hnone.
    rewrite Hnone; [simpl; lia|]. intros v Hv. rewrite Forall_forall in Hlt. specialize (Hlt _ Hv).
    simpl in Hlt. apply (irreflexivity str_lt path). by etransitivity.
  - rewrite bool_decide_eq_false_2 by (intros ->; by rewrite (proj2 (str_cmp_eq path path) eq_refl) in Hc).
    rewrite IH by done. simpl. lia.
Qed.

(** Writing an entry that weighs no more than the one it replaces. *)
Lemma build_ok_insert mm mt build path e old :
  build_ok mm mt build -> btree_get build path = Some old ->
  0 <= entry_weight e <= entry_weight old -> build_ok mm mt (btree_insert path e build).
Proof.
  intros [Hs Hm Ht] Hg He. pose proof (proj1 (btree_get_elem _ _ _ Hs) Hg) as Hin. split.
  - by apply btree_insert_sorted.
  - intros p x [[= -> ->]|[Hx _]]%btree_insert_elem; [|by eapply Hm|done].
    specialize (Hm _ _ Hin). lia.
  - rewrite build_weight_insert, Hg by done. simpl. lia.
Qed.

Lemma capture_step_ok `{!Allocator} mm mt build build' :
  capture_step build build' -> build_ok mm mt build -> build_ok mm mt build'.
Proof.
  intros [b path|b path bytes] Hok.
  - unfold begin_capture. destruct (btree_get b path) as [[n| | | | | | | |]|] eqn:Hg; try done.
    case_match; [done|]. eapply build_ok_insert; [done..|]. simpl.
    split; [done|]. apply (bo_members _ _ _ Hok path (Selected n)), btree_get_elem; [apply Hok|done].
  - unfold finish_capture. destruct bytes as [bytes|]; [|done].
    destruct (btree_get b path) as [[n| | | | | | | |]|] eqn:Hg; try done.
    pose proof (bo_members _ _ _ Hok path (Selected n)) as Hn. simpl in Hn.
    eapply build_ok_insert; [done..|]. destruct (Z.eqb_spec (Z.of_nat (length bytes)) n) as [<-|]; simpl; [lia|].
    split; [done|]. apply Hn, btree_get_elem; [apply Hok|done].
Qed.

Lemma by_path_sorted ms acc : btree_sorted acc ->
  btree_sorted (foldl (fun acc m => btree_insert (canonical_path m) m acc) acc ms).
Proof. revert acc. induction ms; intros acc Hs; [done|]. simpl. by apply IHms, btree_insert_sorted. Qed.
Lemma by_path_elem ms acc path m : btree_sorted acc ->
  btree_get (foldl (fun acc m => btree_insert (canonical_path m) m acc) acc ms) path = Some m ->
  m ∈ ms \/ btree_get acc path = Some m.
Proof.
  revert acc. induction ms as [|x ms IH]; intros acc Hs Hg; [by right|]. simpl in Hg.
  apply IH in Hg as [|Hg]; [left; by right| |by apply btree_insert_sorted].
  rewrite btree_get_insert in Hg by done. case_bool_decide; [|by right].
  injection Hg as ->. left. by left.
Qed.

(** The running total and what has been selected. *)
Lemma select_entries_ok plan ms paths total entries :
  0 <= rp_max_total_bytes plan -> 0 <= rp_max_member_bytes plan ->
  limit total = rp_max_total_bytes plan -> 0 <= used total <= limit total -> build_weight entries = used total ->
  btree_sorted entries -> NoDup paths -> (forall path, path ∈ paths -> btree_get entries path = None) ->
  (forall path e, (path, e) ∈ entries -> 0 <= entry_weight e <= rp_max_member_bytes plan) ->
  (forall path m, btree_get ms path = Some m -> 0 <= declared_uncomp_size m) ->
  build_ok (rp_max_member_bytes plan) (rp_max_total_bytes plan) (select_entries plan ms paths total entries).
Proof.
  intros Ht Hmm. revert total entries. induction paths as [|path paths IH];
    intros total entries Hl Hu Hw Hs Hnd Hfresh Hm Hdecl.
  { split; [done|done|]. simpl. lia. }
  apply NoDup_cons in Hnd as [Hnin Hnd]. simpl.
  destruct (select_entry plan (btree_get ms path) total) as [total' entry] eqn:Hsel.
  assert (limit total' = limit total /\ used total <= used total' <= limit total
    /\ entry_weight entry = used total' - used total /\ 0 <= entry_weight entry <= rp_max_member_bytes plan)
    as (Hl' & Hu' & Hwe & Hem).
  { unfold select_entry in Hsel. destruct (btree_get ms path) as [m|] eqn:Hg; [|simplify_eq/=; lia].
    apply Hdecl in Hg. destruct (ir_kind m); [|simplify_eq/=; lia].
    destruct (Z.ltb_spec (rp_max_member_bytes plan) (declared_uncomp_size m)); [simplify_eq/=; lia|].
    unfold consume in Hsel. destruct (u64_checked_add _ _) as [n|] eqn:Hn; [|simplify_eq/=; lia].
    apply u64_checked_add_Some in Hn as [-> _].
    destruct (Z.ltb_spec (limit total) (used total + declared_uncomp_size m)); simplify_eq/=; lia. }
  apply IH; [congruence|lia| |by apply btree_insert_sorted|done| | |done].
  - rewrite build_weight_insert, (Hfresh path) by (done || by left). simpl. lia.
  - intros p Hp. rewrite btree_get_insert by done. rewrite bool_decide_eq_false_2 by (intros ->; done).
    apply Hfresh. by right.
  - intros p x [[= -> ->]|[Hx _]]%btree_insert_elem; [lia|by eapply Hm|done].
Qed.

Section Plans.
Context `{!Unicode, !Allocator}.

(** The bounds every plan respects, and the paths it may name. *)
Record plan_within (plan : RetentionPlan) : Prop := {
  pw_sorted : btree_sorted (rp_paths plan);
  pw_count : Z.of_nat (length (plan_paths plan)) <= MAX_RETENTION_PATHS;
  pw_paths : Forall (fun p => Z.of_nat (length p) <= MAX_RETENTION_PATH_BYTES
      /\ name_ok p u32_max StrictAsciiV1 /\ join_slash (kept p) = p) (plan_paths plan);
  pw_bytes : rp_path_bytes plan = foldr (fun p acc => Z.of_nat (length p) + acc) 0 (plan_paths plan);
  pw_total : rp_path_bytes plan <= MAX_RETENTION_TOTAL_PATH_BYTES
}.

Lemma fresh_insert (m : BTreeMap unit) path :
  btree_get m path = None -> btree_sorted m ->
  map fst (btree_insert path () m) ≡ₚ path :: map fst m.
Proof.
  unfold btree_get. induction m as [|[k []] m IH]; intros Hg Hs; [done|]. simpl in *.
  case_bool_decide as Hk; [done|]. apply btree_sorted_cons in Hs as [Hs _].
  destruct (str_cmp path k) eqn:Hc; simpl; [|done|].
  - apply str_cmp_eq in Hc. by subst.
  - rewrite IH by done. apply Permutation_swap.
Qed.

Lemma sum_lengths_perm (l l' : list str) :
  l ≡ₚ l' -> foldr (fun p acc => Z.of_nat (length p) + acc) 0 l = foldr (fun p acc => Z.of_nat (length p) + acc) 0 l'.
Proof. induction 1; simpl; lia. Qed.

Lemma add_path_within plan path plan' :
  plan_within plan -> add_path plan path = Some (Ok plan') ->
  plan_within plan' /\ rp_max_member_bytes plan' = rp_max_member_bytes plan
  /\ rp_max_total_bytes plan' = rp_max_total_bytes plan.
Proof.
  intros Hp Ha. unfold add_path in Ha. unfold contains_key in Ha.
  case_bool_decide as Hc; [by simplify_eq|]. destruct Hp as [Hs Hn Hf Hb Ht].
  destruct (Z.leb_spec MAX_RETENTION_PATHS (Z.of_nat (length (rp_paths plan)))) as [|Hcount]; [done|].
  destruct (Z.ltb_spec MAX_RETENTION_PATH_BYTES (Z.of_nat (length path))) as [|Hlen]; [done|].
  destruct (u64_checked_add _ _) as [n|] eqn:Hadd; [|done]. cbn [ok_or] in Ha.
  apply u64_checked_add_Some in Hadd as [-> _].
  destruct (Z.ltb_spec MAX_RETENTION_TOTAL_PATH_BYTES (rp_path_bytes plan + Z.of_nat (length path))) as [|Htot]; [done|].
  destruct (jail_name path u32_max) as [[j|e]|] eqn:Hj; [|done..]. cbn [exec_map_err option_map map_err] in Ha.
  case_match eqn:Hg; [done|]. apply orb_false_iff in Hg as [_ Hg].
  apply negb_false_iff, bool_decide_eq_true in Hg. injection Ha as <-. cbn [rp_max_member_bytes rp_max_total_bytes].
  assert (btree_get (rp_paths plan) path = None) as Hfresh
    by (destruct (btree_get _ path) eqn:E; [destruct Hc; by eexists|done]).
  pose proof (fresh_insert _ _ Hfresh Hs) as Hperm.
  unfold jail_name, jail_name_for_profile in Hj.
  destruct (jail_name_fallible_for_profile _ _ _) as [[j'|[]]|] eqn:Hjail; try done. injection Hj as ->.
  apply (proj2 (jail_name_fallible_sound _ _ _)) in Hjail as [Hok ->].
  split; [|done]. split; unfold plan_paths; cbn [rp_paths rp_path_bytes].
  - by apply btree_insert_sorted.
  - rewrite Hperm. simpl. unfold plan_paths in Hn. rewrite length_map in Hn |- *. lia.
  - rewrite Hperm. constructor; [|done]. by split_and!.
  - rewrite (sum_lengths_perm _ _ Hperm). simpl. rewrite Hb. unfold plan_paths. lia.
  - done.
Qed.

Lemma with_paths_within plan paths plan' :
  plan_within plan -> with_paths plan paths = Some (Ok plan') ->
  plan_within plan' /\ rp_max_member_bytes plan' = rp_max_member_bytes plan
  /\ rp_max_total_bytes plan' = rp_max_total_bytes plan.
Proof.
  revert plan. induction paths as [|p paths IH]; intros plan Hp Hw; simpl in Hw; [by simplify_eq|].
  destruct (add_path plan p) as [[plan1|]|] eqn:Ha; [|done..].
  apply add_path_within in Ha as (H1 & H2 & H3); [|done]. apply IH in Hw as (G1 & G2 & G3); [|done].
  split_and!; congruence.
Qed.

Lemma sorted_nodup (l : list str) : StronglySorted str_lt l -> NoDup l.
Proof.
  induction 1 as [|x l Hs IH Hf]; constructor; [|done]. intros Hin.
  rewrite Forall_forall in Hf. apply Hf in Hin. by apply (irreflexivity str_lt x).
Qed.

(** C24: A plan built path by path never names more than 64 paths, each at most
    4096 bytes and already in the form the jail returns, nor more than 16384
    bytes of paths; and whatever captures are begun and finished on its build,
    no member keeps more than the member limit and all together no more than
    the total limit. *)
Theorem retention_stays_bounded max_member max_total paths plan ir build :
  0 <= max_member -> 0 <= max_total ->
  Forall (fun m => 0 <= declared_uncomp_size m) (members ir) ->
  with_paths (new_plan max_member max_total) paths = Some (Ok plan) ->
  rtc capture_step (plan_build (Some plan) ir) build ->
  plan_within plan
  /\ (forall path bytes, btree_get build path = Some (Retained bytes) -> Z.of_nat (length bytes) <= max_member)
  /\ build_weight build <= max_total.
Proof.
  intros Hm Ht Hdecl Hw Hsteps.
  apply with_paths_within in Hw as (Hp & Hm' & Ht'); [|split; simpl; by (constructor || done || lia)].
  split; [done|]. simpl in Hm', Ht'.
  assert (build_ok max_member max_total build) as Hb.
  { revert Hsteps. apply (rtc_preserves _ (build_ok max_member max_total)).
    { intros x y Hx Hxy. by eapply capture_step_ok. }
    rewrite <- Hm', <- Ht'. simpl. apply select_entries_ok; simpl; try (lia || done || by constructor).
    - apply sorted_nodup, Hp.
    - by intros path e ?%elem_of_nil.
    - intros path m Hg. apply by_path_elem in Hg as [Hg|Hg]; [|done|constructor].
      rewrite Forall_forall in Hdecl. by apply Hdecl. }
  split; [|apply Hb]. intros path bytes Hg.
  apply (bo_members _ _ _ Hb path (Retained bytes)), btree_get_elem; [apply Hb|done].
Qed.
End Plans.

(** C25: What a verified archive releases is what was verified: a whole read is
    within the caller's limit and is the content whose size, CRC-32 and
    SHA-256 are the member's recorded evidence, and a bounded read of the same
    member is its prefix, or SHA-256 collides; this whether the member was
    kept during verification or is read again, and whatever the source
    returns. *)
Theorem reads_release_evidence `{SHA : !Sha256, CRC : !Crc32, INF : !Inflate, AL : !Allocator} a path max_bytes cap whole prefix :
  reads_ok a -> 0 <= cap ->
  read_member a path max_bytes = Some (Ok whole) ->
  read_member_prefix a path cap = Some (Ok prefix) ->
  Z.of_nat (length whole) <= max_bytes
  /\ (exists m, m ∈ members (va_ir a) /\ canonical_path m = path /\ evidence_of m whole)
  /\ (prefix = take (Z.to_nat cap) whole \/ collision).
Proof.
  intros Ha Hcap Hw Hp. apply read_member_sound in Hw as [Hl (m & Hm & Hpath & He)]; [|done].
  apply read_prefix_sound in Hp as (m' & bytes & Hm' & Hpath' & He' & ->); [|done..].
  assert (m' = m) as -> by (eapply (nodup_lookup canonical_path); [apply Ha|done..|congruence]).
  split; [done|]. split; [by exists m|]. destruct He as (_ & _ & _ & He), He' as (_ & _ & _ & He').
  rewrite He in He'. injection He' as Hsha.
  destruct (digest_inj whole bytes Hsha) as [->|]; [by left|by right].
Qed.

(** *** Witnesses *)

Definition kept_member (path : string) : IrMember :=
  with_verification (example_member path 0) (Some 6) (Some 6) (Some example_sha) Verified.
Definition kept_archive : VerifiedArchive :=
  new_archive (from_original payload_snapshot) (example_archive [kept_member "a"; kept_member "b"])
    [stored_plan; stored_plan] open_budget [(lit "a", Retained (lit "stored"))].

Lemma kept_archive_ok : @reads_ok null_sha256 length_crc kept_archive.
Proof.
  split; [reflexivity| |].
  - apply (bool_decide_unpack _). vm_compute. exact I.
  - intros path bytes m Hg Hm Hp. simpl in Hm. unfold evidence_of.
    apply elem_of_cons in Hm as [->|Hm]; [|apply list_elem_of_singleton in Hm as ->]; subst path;
      vm_compute in Hg; [|discriminate]. injection Hg as <-. by vm_compute.
Qed.

Lemma reads_release_evidence_witness :
  let '(sha, crc, inf, al) := (null_sha256, length_crc, literal_inflate, always_reserves) in
  @read_member sha crc inf al kept_archive (lit "b") 10 = Some (Ok (lit "stored"))
  /\ (lit "sto" = take 3 (lit "stored") \/ @collision sha)
  /\ @read_member_prefix sha crc inf al kept_archive (lit "a") 3 = Some (Ok (lit "sto")).
Proof.
  split; [vm_compute; reflexivity|]. split; [|vm_compute; reflexivity].
  apply (@reads_release_evidence null_sha256 length_crc literal_inflate always_reserves kept_archive
    (lit "b") 10 3 (lit "stored") (lit "sto") kept_archive_ok); [done|vm_compute; reflexivity..].
Defined.

Lemma retention_stays_bounded_witness :
  exists plan, @with_paths ascii_unicode always_reserves (new_plan 8 12) [lit "b"; lit "a"] = Some (Ok plan)
  /\ plan_paths plan = [lit "a"; lit "b"]
  /\ let build := plan_build (Some plan) example_ab in
     build_weight (finish_capture (@begin_capture always_reserves build (lit "a")).1 (lit "a")
                     (Some (lit "five!"))) <= 12.
Proof.
  eexists. split; [vm_compute; reflexivity|]. split; [vm_compute; reflexivity|]. cbv zeta.
  refine (proj2 (proj2 (@retention_stays_bounded ascii_unicode always_reserves 8 12 [lit "b"; lit "a"] _
    example_ab _ _ _ _ eq_refl _))); [lia|lia| |].
  - repeat constructor; vm_compute; discriminate.
  - eapply rtc_l; [apply (@step_begin always_reserves _ (lit "a"))|]. apply rtc_once, (@step_finish always_reserves).
Defined.
