(* ===== verification/Composite.v ===== *)
(** * The checks of a ready archive ([apply.rs])

    Right before anything is verified or written, the operation checks again
    that the plan it holds is about the source it holds: identities, payload
    plans, formats, and for a wrapped archive the transformation record, the
    wrapper's audit, the inner audit and the wrapper's own checksum over the
    derived bytes. *)

From S2P Require Import Prelude Utf8 Paths Findings Snapshot Streams Transforms Ir ByteFields Evidence Crc Covering CoveringGnu CoveringPax Verification WrapperAudit Retention.
Local Open Scope Z_scope.
Local Open Scope rust_scope.

(** [twox_hash::XxHash64] with seed zero, over everything it was fed. *)
Class XxHash64 : Type := xxhash64 : list byte -> Z.

(** ** The check of an XZ block ([check_matches] of [xz.rs]) *)

Definition CHECK_CRC32 : Z := 1.
Definition CHECK_CRC64 : Z := 4.
Definition CHECK_SHA256 : Z := 10.
Definition check_matches `{!Sha256, !Crc32} (check_id : Z) (bytes expected : list byte) : bool :=
  if check_id =? CHECK_CRC32 then bool_decide (expected = le_bytes 4 (crc32 bytes))
  else if check_id =? CHECK_CRC64 then bool_decide (expected = le_bytes 8 (crc64_finalize (crc64_update crc64_new bytes)))
  else if check_id =? CHECK_SHA256 then bool_decide (expected = sha256 bytes)
  else false.

Definition ready_inconsistent (detail : string) : Finding := error CoveringInconsistent detail.

Section Ready.
Context `{!Sha256, !Crc32, !XxHash64, !Allocator}.

(** ** Wrapped archives *)

(** What the four audits check before the wrapper's own audit: two domains,
    one record, and that the record binds them.  [wrapper] is the length and
    digest the wrapper's evidence claims for the derived domain. *)
Definition composite_binding (name : string) (profile : TransformProfile) (snapshots : SnapshotSet)
    (transforms : TransformGraph) (wrapper : option (Z * str)) : exec SourceSnapshot Finding :=
  let shape := ready_inconsistent (name +++ "-wrapped TAR requires exactly two snapshots and one valid transform") in
  reject! negb (set_len snapshots =? 2)%nat || negb (length transforms =? 1)%nat with shape ;;
  match graph_validates transforms snapshots with
  | None => None
  | Some false => Some (Err shape)
  | Some true =>
      let original := original snapshots in
      let* derived := ok_or (domain snapshots FIRST_DERIVED)
        (ready_inconsistent (name +++ "-derived TAR snapshot is absent")) in
      let* (output_len, output_sha256) := ok_or wrapper
        (ready_inconsistent (name +++ "-wrapped TAR has no wrapper evidence")) in
      match transforms with
      | [] => None
      | record :: _ =>
          let* original_sha256 := ok_or (digest_sha256 (digest original))
            (ready_inconsistent ("original " +++ name +++ " snapshot digest is unavailable")) in
          reject! negb (bool_decide (tr_profile record = profile))
                  || negb (bool_decide (tr_input record = original_range (mkrange 0 (src_len original))))
                  || negb (bool_decide (tr_input_sha256 record = original_sha256))
                  || negb (tr_output_domain record =? FIRST_DERIVED)
                  || negb (tr_output_len record =? src_len derived)
                  || negb (tr_output_len record =? output_len)
                  || negb (bool_decide (digest_sha256 (digest derived) = Some (tr_output_sha256 record)))
                  || negb (bool_decide (tr_output_sha256 record = output_sha256))
            with ready_inconsistent (name +++ " transform graph does not exactly bind the outer and derived snapshots") ;;
          Some (Ok derived)
      end
  end.

(** The loop that feeds the derived bytes to a checksum. *)
Definition feed_step (name : string) (derived : SourceSnapshot) (st : RangeReader * list byte) :
    exec (control (RangeReader * list byte) (list byte)) Finding :=
  let '(r, read) := range_reader_read derived st.1 65536 in
  match read with
  | Err e =>
      Some (Err (default (ready_inconsistent ("could not audit " +++ name +++ "-derived TAR integrity: "
                   +++ fmt_io_error e)) (finding_from_io e)))
  | Ok [] => Some (Ok (Return st.2))
  | Ok chunk => Some (Ok (Continue (r, st.2 ++ chunk)))
  end.
Definition derived_bytes (name : string) (derived : SourceSnapshot) : exec (list byte) Finding :=
  let* r := reader derived 0 (src_len derived) in
  run_loop (feed_step name derived) (S (S (Z.to_nat (src_len derived)))) (r, []).

Definition audit_tar_gzip_composite (snapshots : SnapshotSet) (transforms : TransformGraph) (ir : ArchiveIR) :
    exec unit Finding :=
  let! derived := composite_binding "gzip" GzipRfc1952SingleMemberV1 snapshots transforms
    (option_map (fun w => (gz_derived_output_len w, gz_derived_output_sha256 w)) (gzip_evidence ir)) in
  match gzip_evidence ir with
  | None => None
  | Some wrapper =>
      let! _ := audit_gzip_wrapper_covering (original snapshots) wrapper in
      let! _ :=
        match format ir with
        | TarGzipUstar => audit_tar_covering derived ir
        | FormatTarGzipPax => audit_tar_pax_covering derived ir
        | FormatTarGzipGnuLongName => audit_tar_gnu_longname_covering derived ir
        | _ => Some (Err (ready_inconsistent "composite gzip audit received a non-gzip archive format"))
        end in
      let! bytes := derived_bytes "gzip" derived in
      reject! negb (crc32 bytes =? gz_declared_crc32 wrapper)
              || negb (gz_declared_isize wrapper =? gzip_isize (src_len derived))
        with ready_inconsistent "gzip trailer integrity does not match the terminal derived TAR snapshot" ;;
      Some (Ok ())
  end.

Definition audit_tar_zstd_composite (snapshots : SnapshotSet) (transforms : TransformGraph) (ir : ArchiveIR) :
    exec unit Finding :=
  let! derived := composite_binding "zstd" ZstdRfc8878SingleFrameV1 snapshots transforms
    (option_map (fun w => (zs_derived_output_len w, zs_derived_output_sha256 w)) (zstd_evidence ir)) in
  match zstd_evidence ir with
  | None => None
  | Some wrapper =>
      let* _ := audit_zstd_wrapper_covering (original snapshots) wrapper in
      let! _ := audit_tar_covering derived ir in
      reject! from_option (fun declared => negb (declared =? src_len derived)) false (zs_frame_content_size wrapper)
        with ready_inconsistent "zstd frame content size does not match the terminal derived TAR snapshot" ;;
      match zs_declared_checksum wrapper with
      | Some declared =>
          let! bytes := derived_bytes "zstd" derived in
          reject! negb (Z.land (xxhash64 bytes) u32_max =? declared)
            with ready_inconsistent "zstd content checksum does not match the terminal derived TAR snapshot" ;;
          Some (Ok ())
      | None =>
          reject! zs_checksum_flag wrapper
            with ready_inconsistent "zstd checksum flag is set without a declared checksum" ;;
          Some (Ok ())
      end
  end.

(** The loop over the blocks: where the next one starts in the derived bytes. *)
Fixpoint audit_xz_checks (derived : SourceSnapshot) (check_id : Z) (cursor : Z) (blocks : list XzBlockEvidence) :
    result Z Finding :=
  match blocks with
  | [] => Ok cursor
  | block :: blocks =>
      let? decoded := read_vec derived cursor (xb_uncompressed_len block) in
      reject negb (check_matches check_id decoded (xb_check_value block))
        with ready_inconsistent "an xz block check does not match the terminal derived TAR snapshot" ;;
      let? cursor := ok_or (u64_checked_add cursor (xb_uncompressed_len block))
        (ready_inconsistent "xz block totals overflowed u64") in
      audit_xz_checks derived check_id cursor blocks
  end.
Definition audit_tar_xz_composite (snapshots : SnapshotSet) (transforms : TransformGraph) (ir : ArchiveIR) :
    exec unit Finding :=
  let! derived := composite_binding "xz" XzSingleStreamV1 snapshots transforms
    (option_map (fun w => (xz_derived_output_len w, xz_derived_output_sha256 w)) (xz_evidence ir)) in
  match xz_evidence ir with
  | None => None
  | Some wrapper =>
      let! _ := audit_xz_wrapper_covering (original snapshots) wrapper in
      let! _ := audit_tar_covering derived ir in
      let* cursor := audit_xz_checks derived (xz_check_id wrapper) 0 (xz_blocks wrapper) in
      reject! negb (cursor =? src_len derived)
        with ready_inconsistent "xz block totals do not cover the terminal derived TAR snapshot" ;;
      Some (Ok ())
  end.

(** The chunks of the single-block hash. *)
Definition bzip2_hash_step (derived : SourceSnapshot) (st : Z * Z) : exec (control (Z * Z) Z) Finding :=
  let '(cursor, value) := st in
  if negb (cursor <? src_len derived) then Some (Ok (Return value))
  else
    let step := Z.min (64 * 1024) (src_len derived - cursor) in
    let* chunk := read_vec derived cursor step in
    Some (Ok (Continue (cursor + step, bzip2_update value chunk))).
Definition audit_tar_bzip2_composite (snapshots : SnapshotSet) (transforms : TransformGraph) (ir : ArchiveIR) :
    exec unit Finding :=
  let! derived := composite_binding "bzip2" Bzip2SingleStreamV1 snapshots transforms
    (option_map (fun w => (bz_derived_output_len w, bz_derived_output_sha256 w)) (bzip2_evidence ir)) in
  match bzip2_evidence ir with
  | None => None
  | Some wrapper =>
      let! _ := audit_bzip2_wrapper_covering (original snapshots) wrapper in
      let! _ := audit_tar_covering derived ir in
      if (length (bz_block_crcs wrapper) =? 1)%nat then
        let! value := run_loop (bzip2_hash_step derived) (2 + Z.to_nat (src_len derived / (64 * 1024))) (0, bzip2_new) in
        reject! negb (bzip2_finalize value =? bz_combined_crc wrapper)
          with ready_inconsistent "the single bzip2 block CRC does not match the terminal derived TAR snapshot" ;;
        Some (Ok ())
      else Some (Ok ())
  end.

(** ** The ready archive *)

Definition validate_ready_source_identity (snapshots : SnapshotSet) (ir : ArchiveIR) (source : SourceDigest) :
    result unit Finding :=
  reject negb (bool_decide (source = digest (original snapshots)))
         || negb (bool_decide (source = source_digest ir))
    with ready_inconsistent "ready receipt source identity does not match the original snapshot and archive IR" ;;
  Ok ().

(** The arm of the raw formats. *)
Definition raw_topology (snapshots : SnapshotSet) (transforms : TransformGraph) : exec unit Finding :=
  match graph_validates transforms snapshots with
  | None => None
  | Some valid =>
      reject! negb valid || negb (set_len snapshots =? 1)%nat || negb (length transforms =? 0)%nat
        with ready_inconsistent "raw archive unexpectedly contains a derived transform graph" ;;
      Some (Ok ())
  end.

(** [validate_ready_archive]; the authority it returns is that it passed. *)
Definition validate_ready_archive (snapshots : SnapshotSet) (transforms : TransformGraph) (ir : ArchiveIR)
    (payloads : list PayloadPlan) : exec unit Finding :=
  reject! negb (bool_decide (source_digest ir = digest (original snapshots)))
    with ready_inconsistent "archive IR source identity does not match the original snapshot" ;;
  reject! negb (length payloads =? length (members ir))%nat
          || existsb (fun pm => negb (matches_member pm.1 pm.2)) (combine payloads (members ir))
    with ready_inconsistent "ready payload plan disagrees with archive evidence" ;;
  reject! existsb (fun m => negb (bool_decide (member_format m = format ir))) (members ir)
    with ready_inconsistent "member evidence variant does not match the archive format" ;;
  match format ir with
  | FormatZip32 | FormatZip64 | TarUstar | FormatTarPax | FormatTarGnuLongName =>
      raw_topology snapshots transforms
  | TarGzipUstar | FormatTarGzipPax | FormatTarGzipGnuLongName =>
      audit_tar_gzip_composite snapshots transforms ir
  | TarZstdUstar => audit_tar_zstd_composite snapshots transforms ir
  | TarXzUstar => audit_tar_xz_composite snapshots transforms ir
  | TarBzip2Ustar => audit_tar_bzip2_composite snapshots transforms ir
  | SevenZCopy =>
      let! _ := raw_topology snapshots transforms in
      Some (audit_sevenz_covering (original snapshots) ir)
  end.
End Ready.

Definition format_is_transform_wrapped (f : ArchiveFormat) : bool :=
  match f with
  | TarGzipUstar | FormatTarGzipPax | FormatTarGzipGnuLongName | TarZstdUstar | TarXzUstar | TarBzip2Ustar => true
  | _ => false
  end.

(** The loop that collects the canonical paths: whether one comes twice. *)
Fixpoint repeats_path (ms : list IrMember) (index : nat) (by_path : BTreeMap nat) : bool :=
  match ms with
  | [] => false
  | m :: ms =>
      contains_key by_path (canonical_path m)
      || repeats_path ms (S index) (btree_insert (canonical_path m) index by_path)
  end.
Definition validate_verified_archive_authority (ir : ArchiveIR) : result unit Finding :=
  reject existsb (fun m => negb (is_verified m)) (members ir)
    with ready_inconsistent "verified archive authority contains an unverified member" ;;
  reject repeats_path (members ir) 0 []
    with ready_inconsistent "verified archive authority contains duplicate canonical paths" ;;
  Ok ().
