(* ===== verification/CompositeSafe.v ===== *)
(** * What a ready archive is bound to ([apply.rs])

    The checks of [Composite] on snapshots that return their bytes: a ready
    archive that passes them is a plan about exactly the bytes it holds, from
    the source's digest through the transformation record to the wrapper's own
    checksum over the derived bytes. *)

From S2P Require Import Prelude Utf8 Paths Findings Interval Snapshot Streams Transforms Ir ByteFields ZipFields ZipSearch Evidence Crc TarWrite TarRefine Covering CoveringTar CoveringGnu CoveringPax Verification WrapperAudit Composite.
Local Open Scope Z_scope.
Local Open Scope rust_scope.

(** ** Content and binding *)

(** Each snapshot returns its bytes and carries their digest. *)
Definition holds_content `{!Sha256} (d : SourceSnapshot) (bytes : list byte) : Prop :=
  represents d bytes /\ digest d = Available (hex_sha256 bytes).

(** The inner archive's audit, by the format. *)
Definition inner_audit `{!Sha256, !Allocator} (derived : SourceSnapshot) (ir : ArchiveIR) : exec unit Finding :=
  match format ir with
  | FormatTarGzipPax => audit_tar_pax_covering derived ir
  | FormatTarGzipGnuLongName => audit_tar_gnu_longname_covering derived ir
  | _ => audit_tar_covering derived ir
  end.

(** What the wrapper of [ir] says about the bytes it unwraps to: their length
    and digest, and its own integrity fields over them; the wrapper's
    fields are those of [source]. *)
Definition wrapper_binds `{!Sha256, !Crc32, !XxHash64, !Allocator}
    (source : SourceSnapshot) (ir : ArchiveIR) (out : list byte) : Prop :=
  match format ir with
  | TarGzipUstar | FormatTarGzipPax | FormatTarGzipGnuLongName =>
      exists w, gzip_evidence ir = Some w /\ audit_gzip_wrapper_covering source w = Some (Ok ())
        /\ gz_derived_output_len w = Z.of_nat (length out) /\ gz_derived_output_sha256 w = hex_sha256 out
        /\ gz_declared_crc32 w = crc32 out /\ gz_declared_isize w = Z.of_nat (length out) mod 2 ^ 32
  | TarZstdUstar =>
      exists w, zstd_evidence ir = Some w /\ audit_zstd_wrapper_covering source w = Ok ()
        /\ zs_derived_output_len w = Z.of_nat (length out) /\ zs_derived_output_sha256 w = hex_sha256 out
        /\ (forall n, zs_frame_content_size w = Some n -> n = Z.of_nat (length out))
        /\ (zs_checksum_flag w = true -> is_Some (zs_declared_checksum w))
        /\ (forall c, zs_declared_checksum w = Some c -> c = Z.land (xxhash64 out) u32_max)
  | TarXzUstar =>
      exists w chunks, xz_evidence ir = Some w /\ audit_xz_wrapper_covering source w = Some (Ok ())
        /\ xz_derived_output_len w = Z.of_nat (length out) /\ xz_derived_output_sha256 w = hex_sha256 out
        /\ concat chunks = out
        /\ Forall2 (fun block chunk => Z.of_nat (length chunk) = xb_uncompressed_len block
             /\ check_matches (xz_check_id w) chunk (xb_check_value block) = true) (xz_blocks w) chunks
  | TarBzip2Ustar =>
      exists w, bzip2_evidence ir = Some w /\ audit_bzip2_wrapper_covering source w = Some (Ok ())
        /\ bz_derived_output_len w = Z.of_nat (length out) /\ bz_derived_output_sha256 w = hex_sha256 out
        /\ (length (bz_block_crcs w) = 1%nat ->
            bz_combined_crc w = bzip2_finalize (bzip2_update bzip2_new out))
  | _ => False
  end.

(** The sizes of the evidence are unsigned. *)
Definition wrapper_typed (ir : ArchiveIR) : Prop :=
  forall w, xz_evidence ir = Some w -> Forall (fun block => 0 <= xb_uncompressed_len block) (xz_blocks w).

(** ** Reading the derived bytes *)

Lemma whole_range {A} (l : list A) : range 0 (Z.of_nat (length l)) l = l.
Proof. unfold range. by rewrite Nat2Z.id, firstn_all. Qed.

Section Derived.
Context (d : SourceSnapshot) (bytes : list byte) (Hd : represents d bytes).
#[local] Instance derived_read : Read RangeReader := range_reader_instance d.

Definition feeding (st : RangeReader * list byte) : Prop :=
  exists rest, reader_holds bytes st.1 rest /\ bytes = st.2 ++ rest.

Lemma feed_step_feeding name st st' :
  feeding st -> feed_step name d st = Some (Ok (Continue st')) ->
  feeding st' /\ (length st.2 < length st'.2)%nat.
Proof using Hd.
  intros (rest & Hh & Hb) Hs. unfold feed_step in Hs. destruct st as [r acc]. cbn [fst snd] in *.
  destruct (range_reader_read d r 65536) as [r' [[|b chunk]|e]] eqn:Hr; [done| |done].
  apply (holds_read _ (range_reader_holds d bytes Hd) _ rest) in Hr as (rest' & -> & Hh' & _ & _); [|done|lia].
  injection Hs as <-. split; [|simpl; rewrite length_app; simpl; lia].
  exists rest'. split; [done|]. simpl. by rewrite <- app_assoc.
Qed.

Lemma derived_reader r : reader d 0 (src_len d) = Ok r -> feeding (r, []).
Proof using Hd.
  intros Hr. pose proof (represents_len _ _ Hd) as Hl.
  apply (reader_holds_start d bytes 0 (src_len d)) in Hr; [|done|lia|lia].
  exists bytes. split; [|done]. rewrite Hl in Hr. by rewrite whole_range in Hr.
Qed.

(** The loop returns, and what it fed is the whole content. *)
Lemma derived_bytes_total name : exists r, derived_bytes name d = Some r.
Proof using Hd.
  unfold derived_bytes. destruct (reader d 0 (src_len d)) as [r|e] eqn:Hr; [|eauto].
  apply (run_loop_total _ feeding (fun st => (length bytes - length st.2)%nat)).
  - intros [r0 acc] _. unfold feed_step. by repeat case_match.
  - intros st st' Hf Hst. destruct (feed_step_feeding _ _ _ Hf Hst) as [Hf' Hl]. split; [done|].
    destruct Hf' as (rest & _ & Hb). apply (f_equal length) in Hb. rewrite length_app in Hb. lia.
  - by apply derived_reader.
  - rewrite (represents_len _ _ Hd). simpl. lia.
Qed.

Lemma derived_bytes_exact name out : derived_bytes name d = Some (Ok out) -> out = bytes.
Proof using Hd.
  unfold derived_bytes. intros Hx. destruct (reader d 0 (src_len d)) as [r|e] eqn:Hr; [|done].
  revert Hx. apply (run_loop_invariant _ feeding (fun out => out = bytes)).
  - intros st st' Hf Hst. by apply (feed_step_feeding _ _ _ Hf Hst).
  - intros [r0 acc] v (rest & Hh & Hb) Hst. unfold feed_step in Hst. cbn [fst snd] in *.
    destruct (range_reader_read d r0 65536) as [r' [[|b chunk]|e]] eqn:Hrd; [|done..].
    apply (holds_read _ (range_reader_holds d bytes Hd) _ rest) in Hrd as (rest' & E & _ & _ & Hn); [|done|lia].
    rewrite Hn in Hb by done. simplify_eq. by rewrite app_nil_r.
  - by apply derived_reader.
Qed.

(** ** The blocks of an XZ stream *)

Lemma audit_xz_checks_sound `{!Sha256, !Crc32, !Allocator} check_id cursor blocks cursor' :
  0 <= cursor <= Z.of_nat (length bytes) -> Forall (fun block => 0 <= xb_uncompressed_len block) blocks ->
  audit_xz_checks d check_id cursor blocks = Ok cursor' ->
  cursor <= cursor' <= Z.of_nat (length bytes) /\
  exists chunks, range cursor (cursor' - cursor) bytes = concat chunks
    /\ Forall2 (fun block chunk => Z.of_nat (length chunk) = xb_uncompressed_len block
         /\ check_matches check_id chunk (xb_check_value block) = true) blocks chunks.
Proof using Hd.
  revert cursor. induction blocks as [|block blocks IH]; intros cursor Hc Ht Hx; simpl in Hx.
  - simplify_eq. split; [lia|]. exists []. split; [|by constructor]. by rewrite Z.sub_diag, range_zero.
  - destruct (read_vec d cursor _) as [chunk|] eqn:Hr; [|done]. apply Forall_cons in Ht as [Hn Ht].
    apply (read_vec_sound d bytes) in Hr as [Hin ->]; [|done|lia|done].
    case_match eqn:Hm; [done|]. apply negb_false_iff in Hm.
    destruct (u64_checked_add _ _) as [next|] eqn:Ha; [|done]. apply u64_checked_add_Some in Ha as [-> _].
    apply IH in Hx as (Hle & chunks & Hcat & Hf); [|lia|done]. split; [lia|].
    eexists (_ :: chunks). split.
    + cbn [concat]. rewrite <- Hcat.
      replace (cursor' - cursor) with (xb_uncompressed_len block + (cursor' - (cursor + xb_uncompressed_len block))) by lia.
      by rewrite range_app by lia.
    + constructor; [|done]. split; [rewrite length_range; lia|done].
Qed.

(** ** The chunks of the bzip2 hash *)

Definition hashing (st : Z * Z) : Prop :=
  0 <= st.1 <= Z.of_nat (length bytes) /\ st.2 = bzip2_update bzip2_new (range 0 st.1 bytes).

Lemma bzip2_hash_exact `{!Allocator} fuel value :
  run_loop (bzip2_hash_step d) fuel (0, bzip2_new) = Some (Ok value) ->
  value = bzip2_update bzip2_new bytes.
Proof using Hd.
  pose proof (represents_len _ _ Hd) as Hl.
  apply (run_loop_invariant _ hashing (fun value => value = bzip2_update bzip2_new bytes)).
  - intros [c v] st' [Hc Hv] Hst. unfold bzip2_hash_step in Hst. cbn [fst snd] in *.
    case_match; [done|]. breflect. cbv zeta in Hst.
    destruct (read_vec d c _) as [chunk|] eqn:Hr; [|done]. injection Hst as <-.
    apply (read_vec_sound d bytes) in Hr as [Hin ->]; [|done|lia|lia].
    unfold hashing. cbn [fst snd]. change (snap_len d) with (src_len d). split; [lia|].
    rewrite range_app by lia. unfold bzip2_update. rewrite foldl_app. by rewrite Hv.
  - intros [c v] r [Hc Hv] Hst. unfold bzip2_hash_step in Hst. cbn [fst snd] in *.
    case_match; [|cbv zeta in Hst; by case_match]. breflect. injection Hst as <-.
    replace c with (Z.of_nat (length bytes)) in Hv by lia. by rewrite whole_range in Hv.
  - unfold hashing. cbn [fst snd]. split; [lia|by rewrite range_zero].
Qed.

Lemma bzip2_hash_total `{!Allocator} :
  exists r, run_loop (bzip2_hash_step d) (2 + Z.to_nat (src_len d / (64 * 1024))) (0, bzip2_new) = Some r.
Proof using Hd.
  pose proof (represents_len _ _ Hd) as Hl.
  apply (run_loop_total _ (fun st => 0 <= st.1 <= src_len d)
    (fun st => Z.to_nat ((src_len d - st.1 + 65535) / 65536))).
  - intros [c v] _. unfold bzip2_hash_step. cbv zeta. by repeat case_match.
  - intros [c v] st' Hc Hst. unfold bzip2_hash_step in Hst. cbn [fst snd] in *.
    case_match; [done|]. breflect. cbv zeta in Hst. case_match; [|done]. injection Hst as <-. cbn [fst snd] in *.
    change (snap_len d) with (src_len d). split; [lia|]. Z.div_mod_to_equations. lia.
  - cbn [fst]. lia.
  - cbn [fst]. rewrite Z.sub_0_r. Z.div_mod_to_equations. lia.
Qed.
End Derived.

(** ** The transformation record *)

Definition wrapper_profile (f : ArchiveFormat) : option TransformProfile :=
  match f with
  | TarGzipUstar | FormatTarGzipPax | FormatTarGzipGnuLongName => Some GzipRfc1952SingleMemberV1
  | TarZstdUstar => Some ZstdRfc8878SingleFrameV1
  | TarXzUstar => Some XzSingleStreamV1
  | TarBzip2Ustar => Some Bzip2SingleStreamV1
  | _ => None
  end.

Record record_binds `{!Sha256} (profile : TransformProfile) (record : TransformRecord) (input output : list byte) :
    Prop := {
  rb_profile : tr_profile record = profile;
  rb_input : tr_input record = original_range (mkrange 0 (Z.of_nat (length input)));
  rb_input_sha256 : tr_input_sha256 record = hex_sha256 input;
  rb_output_domain : tr_output_domain record = FIRST_DERIVED;
  rb_output_len : tr_output_len record = Z.of_nat (length output);
  rb_output_sha256 : tr_output_sha256 record = hex_sha256 output
}.

Section Bound.
Context `{!Sha256, !Crc32, !XxHash64, !Allocator}.
Implicit Types (set : SnapshotSet) (g : TransformGraph) (ir : ArchiveIR).

Lemma holds_len d bytes : holds_content d bytes -> src_len d = Z.of_nat (length bytes).
Proof. intros [Hr _]. apply (represents_len _ _ Hr). Qed.

Lemma composite_binding_sound name profile set g wrapper d contents :
  Forall2 holds_content (domains set) contents ->
  composite_binding name profile set g wrapper = Some (Ok d) ->
  exists input output record,
    contents = [input; output] /\ g = [record] /\ record_binds profile record input output
    /\ wrapper = Some (Z.of_nat (length output), hex_sha256 output) /\ holds_content d output.
Proof.
  intros Hc Hx. unfold composite_binding in Hx. cbv zeta in Hx.
  destruct (_ || _) eqn:Hshape in Hx; [done|]. apply orb_false_iff in Hshape as [Hset Hg].
  apply negb_false_iff, Nat.eqb_eq in Hset. apply negb_false_iff, Nat.eqb_eq in Hg.
  destruct (graph_validates g set) as [[]|]; [|done..].
  destruct set as [o [|d1 [|? ?]]]; try done. destruct g as [|record [|? ?]]; try done.
  cbn [original] in Hx. unfold domains in Hc. cbn [original derived] in Hc.
  apply Forall2_cons_inv_l in Hc as (input & cs & Ho & Hc & ->).
  apply Forall2_cons_inv_l in Hc as (output & cs' & Hd & Hc & ->). apply Forall2_nil_inv_l in Hc as ->.
  change (domain {| original := o; derived := [d1] |} FIRST_DERIVED) with (Some d1) in Hx. cbn [ok_or] in Hx.
  destruct wrapper as [[wl ws]|]; [|done]. cbn [ok_or] in Hx.
  pose proof (holds_len _ _ Ho) as Hol. pose proof (holds_len _ _ Hd) as Hdl.
  destruct Ho as [_ Hod], Hd as [Hdr Hdd]. rewrite Hod, Hdd in Hx. cbn [ok_or digest_sha256] in Hx.
  case_match eqn:Hb; [done|]. injection Hx as <-. breflect.
  repeat match goal with Hb : bool_decide _ = true |- _ => apply bool_decide_eq_true in Hb end.
  simplify_eq. exists input, output, record. split_and!; [done|done| | |by split].
  - split; [done| |done|done| |done]; [by rewrite <- Hol|by rewrite <- Hdl].
  - repeat f_equal; [by rewrite <- Hdl; lia|congruence].
Qed.

(** ** The four wrappers *)

(** One original, one derived domain, the record between them, and the audits
    passed over both. *)
Definition wrapped_ready set g ir contents : Prop :=
  exists input output record d,
    contents = [input; output] /\ g = [record] /\ holds_content d output
    /\ (exists profile, wrapper_profile (format ir) = Some profile /\ record_binds profile record input output)
    /\ wrapper_binds (original set) ir output /\ inner_audit d ir = Some (Ok ()).

Lemma audit_gzip_sound set g ir contents :
  Forall2 holds_content (domains set) contents ->
  wrapper_profile (format ir) = Some GzipRfc1952SingleMemberV1 ->
  audit_tar_gzip_composite set g ir = Some (Ok ()) -> wrapped_ready set g ir contents.
Proof.
  intros Hc Hf Hx. unfold audit_tar_gzip_composite in Hx.
  destruct (composite_binding _ _ _ _ _) as [[d|]|] eqn:Hb; [|done..].
  apply (composite_binding_sound _ _ _ _ _ _ _ Hc) in Hb as (input & output & record & -> & -> & Hr & Hw & Hd).
  destruct (gzip_evidence ir) as [w|] eqn:Hev; [|done]. injection Hw as Hwl Hws.
  destruct (audit_gzip_wrapper_covering _ _) as [[[]|]|] eqn:Hwa; [|done..].
  assert (Hi : inner_audit d ir = Some (Ok ())).
  { unfold inner_audit. destruct (format ir); try done; repeat case_match; by units. }
  exists input, output, record, d. split_and!; [done|done|done|by eexists| |done].
  assert (exists r, derived_bytes "gzip" d = Some (Ok r) /\ gz_declared_crc32 w = crc32 r
    /\ gz_declared_isize w = gzip_isize (src_len d)) as (r & Hdb & Hcrc & His).
  { destruct (match format ir with TarGzipUstar => _ | _ => _ end) as [[[]|]|]; [|done..].
    destruct (derived_bytes "gzip" d) as [[r|]|]; [|done..]. case_match eqn:Hg; [done|]. breflect.
    exists r. split_and!; [done|congruence|done]. }
  apply (derived_bytes_exact d output (proj1 Hd)) in Hdb as ->.
  unfold gzip_isize in His. rewrite (holds_len _ _ Hd) in His.
  unfold wrapper_binds. destruct (format ir); try done; by (exists w; split_and!).
Qed.

Lemma audit_zstd_sound set g ir contents :
  Forall2 holds_content (domains set) contents -> format ir = TarZstdUstar ->
  audit_tar_zstd_composite set g ir = Some (Ok ()) -> wrapped_ready set g ir contents.
Proof.
  intros Hc Hf Hx. unfold audit_tar_zstd_composite in Hx.
  destruct (composite_binding _ _ _ _ _) as [[d|]|] eqn:Hb; [|done..].
  apply (composite_binding_sound _ _ _ _ _ _ _ Hc) in Hb as (input & output & record & -> & -> & Hr & Hw & Hd).
  destruct (zstd_evidence ir) as [w|] eqn:Hev; [|done]. injection Hw as Hwl Hws.
  destruct (audit_zstd_wrapper_covering _ _) as [[]|] eqn:Hwa; [|done].
  destruct (audit_tar_covering d ir) as [[[]|]|] eqn:Hi; [|done..].
  case_match eqn:Hn; [done|].
  exists input, output, record, d. unfold wrapper_binds, inner_audit. rewrite Hf.
  split_and!; [done|done|done|by eexists| |done].
  exists w. split_and!; [done|done|done|done|..].
  - intros n E. rewrite E in Hn. simpl in Hn. breflect. by rewrite <- (holds_len _ _ Hd).
  - intros Hfl. rewrite Hfl in Hx. by destruct (zs_declared_checksum w).
  - intros c E. rewrite E in Hx. destruct (derived_bytes _ _) as [[r|]|] eqn:Hdb; [|done..].
    apply (derived_bytes_exact d output (proj1 Hd)) in Hdb as ->. case_match; [done|]. by breflect.
Qed.

Lemma audit_xz_sound set g ir contents :
  Forall2 holds_content (domains set) contents -> wrapper_typed ir -> format ir = TarXzUstar ->
  audit_tar_xz_composite set g ir = Some (Ok ()) -> wrapped_ready set g ir contents.
Proof.
  intros Hc Ht Hf Hx. unfold audit_tar_xz_composite in Hx.
  destruct (composite_binding _ _ _ _ _) as [[d|]|] eqn:Hb; [|done..].
  apply (composite_binding_sound _ _ _ _ _ _ _ Hc) in Hb as (input & output & record & -> & -> & Hr & Hw & Hd).
  destruct (xz_evidence ir) as [w|] eqn:Hev; [|done]. injection Hw as Hwl Hws.
  destruct (audit_xz_wrapper_covering _ _) as [[[]|]|] eqn:Hwa; [|done..].
  destruct (audit_tar_covering d ir) as [[[]|]|] eqn:Hi; [|done..].
  destruct (audit_xz_checks _ _ _ _) as [cursor|] eqn:Hck; [|done]. case_match; [done|]. breflect.
  apply (audit_xz_checks_sound d output (proj1 Hd)) in Hck as (_ & chunks & Hcat & Hch); [|lia|by apply Ht].
  rewrite Z.sub_0_r in Hcat. subst cursor. rewrite (holds_len _ _ Hd), whole_range in Hcat.
  exists input, output, record, d. unfold wrapper_binds, inner_audit. rewrite Hf.
  split_and!; [done|done|done|by eexists| |done]. by exists w, chunks; split_and!.
Qed.

Lemma audit_bzip2_sound set g ir contents :
  Forall2 holds_content (domains set) contents -> format ir = TarBzip2Ustar ->
  audit_tar_bzip2_composite set g ir = Some (Ok ()) -> wrapped_ready set g ir contents.
Proof.
  intros Hc Hf Hx. unfold audit_tar_bzip2_composite in Hx.
  destruct (composite_binding _ _ _ _ _) as [[d|]|] eqn:Hb; [|done..].
  apply (composite_binding_sound _ _ _ _ _ _ _ Hc) in Hb as (input & output & record & -> & -> & Hr & Hw & Hd).
  destruct (bzip2_evidence ir) as [w|] eqn:Hev; [|done]. injection Hw as Hwl Hws.
  destruct (audit_bzip2_wrapper_covering _ _) as [[[]|]|] eqn:Hwa; [|done..].
  destruct (audit_tar_covering d ir) as [[[]|]|] eqn:Hi; [|done..].
  exists input, output, record, d. unfold wrapper_binds, inner_audit. rewrite Hf.
  split_and!; [done|done|done|by eexists| |done]. exists w. split_and!; [done|done|done|done|].
  intros Hone. rewrite Hone in Hx. simpl Nat.eqb in Hx. cbv iota in Hx.
  destruct (run_loop _ _ _) as [[v|]|] eqn:Hrun; [|done..].
  apply (bzip2_hash_exact d output (proj1 Hd)) in Hrun as ->. case_match; [done|]. by breflect.
Qed.

Lemma raw_topology_sound set g contents :
  Forall2 holds_content (domains set) contents -> raw_topology set g = Some (Ok ()) ->
  exists input, contents = [input] /\ g = [].
Proof.
  intros Hc Hx. unfold raw_topology in Hx. destruct (graph_validates g set) as [[]|]; [|done..].
  case_match eqn:Hg; [done|]. apply orb_false_iff in Hg as [Hn Hg].
  apply negb_false_iff, Nat.eqb_eq in Hn. apply negb_false_iff, Nat.eqb_eq in Hg.
  destruct set as [o [|? ?]]; [|done]. destruct g; [|done].
  apply Forall2_cons_inv_l in Hc as (input & cs & Ho & Hc & ->). apply Forall2_nil_inv_l in Hc as ->. by exists input.
Qed.

(** ** The ready archive *)

(** What [validate_ready_archive] establishes. *)
Record ready_bound set g ir (payloads : list PayloadPlan) (contents : list (list byte)) : Prop := {
  bound_source : exists input, contents !! 0%nat = Some input /\ source_digest ir = Available (hex_sha256 input);
  bound_payloads : payloads = map from_ir (members ir);
  bound_formats : Forall (fun m => member_format m = format ir) (members ir);
  bound_topology :
    match wrapper_profile (format ir) with
    | Some _ => wrapped_ready set g ir contents
    | None => exists input, contents = [input] /\ g = []
    end;
  bound_sevenz : format ir = SevenZCopy -> audit_sevenz_covering (original set) ir = Ok ()
}.

Lemma matching_payloads payloads ms :
  length payloads = length ms ->
  existsb (fun pm => negb (matches_member pm.1 pm.2)) (combine payloads ms) = false ->
  payloads = map from_ir ms.
Proof.
  revert ms. induction payloads as [|p ps IH]; intros [|m ms] Hl He; try done. simpl in *.
  apply orb_false_iff in He as [Hm He]. apply negb_false_iff, bool_decide_eq_true in Hm as ->.
  f_equal. apply IH; [by injection Hl|done].
Qed.

Lemma validated_payloads set g ir payloads :
  validate_ready_archive set g ir payloads = Some (Ok ()) -> payloads = map from_ir (members ir).
Proof.
  intros Hx. unfold validate_ready_archive in Hx. case_match; [done|]. case_match eqn:Hpay; [done|].
  apply orb_false_iff in Hpay as [Hlen Hpay]. apply negb_false_iff, Nat.eqb_eq in Hlen. by apply matching_payloads.
Qed.

(** C8: A ready archive that passes the last check before verification is bound
    end to end: the plan's source digest is the original's, every payload plan
    and member format comes from the evidence, a raw archive has no derived
    domain, and a wrapped one has exactly one, whose record names the whole
    original, its digest and the digest and length of the derived bytes, over
    which the wrapper's own audit, the inner audit and the wrapper's integrity
    fields (CRC-32 and size modulo 2^32, declared size and XXH64, every block's
    check, the single block's CRC) all hold. *)
Theorem ready_archive_is_bound set g ir payloads contents :
  Forall2 holds_content (domains set) contents -> wrapper_typed ir ->
  validate_ready_archive set g ir payloads = Some (Ok ()) ->
  ready_bound set g ir payloads contents.
Proof.
  intros Hc Ht Hx. pose proof (validated_payloads _ _ _ _ Hx) as Hpay. unfold validate_ready_archive in Hx.
  case_match eqn:Hsrc; [done|]. case_match; [done|]. case_match eqn:Hform; [done|].
  apply negb_false_iff, bool_decide_eq_true in Hsrc.
  assert (exists input, contents !! 0%nat = Some input /\ source_digest ir = Available (hex_sha256 input)).
  { destruct (Forall2_lookup_l _ _ _ 0%nat _ Hc eq_refl) as (input & Hin & _ & Hd). exists input.
    split; [done|congruence]. }
  assert (Forall (fun m => member_format m = format ir) (members ir)).
  { apply Forall_forall. intros m Hm. destruct (decide (member_format m = format ir)) as [|Hn]; [done|].
    apply not_true_iff_false in Hform. destruct Hform. apply existsb_exists. exists m.
    split; [by apply list_elem_of_In|]. by rewrite bool_decide_eq_false_2. }
  split; [done|done|done| |].
  - destruct (format ir) eqn:Hf; cbn [wrapper_profile]; try by apply (raw_topology_sound set g).
    all: try (apply audit_gzip_sound; [done|by rewrite Hf|done]).
    + by apply audit_zstd_sound.
    + by apply audit_xz_sound.
    + by apply audit_bzip2_sound.
    + apply (raw_topology_sound set g); [done|]. by destruct (raw_topology set g) as [[[]|]|].
  - intros Hf. rewrite Hf in Hx. destruct (raw_topology set g) as [[[]|]|]; [|done..].
    injection Hx as Hx. done.
Qed.
End Bound.

(** ** A gzip-wrapped archive of one file *)

Definition zero_xxhash64 : XxHash64 := fun _ => 0.
Definition wrapped_tar_bytes : list byte :=
  [x1f; x8b; x08; x00; x00; x00; x00; x00; x00; x03] ++ [x01; x02; x03]
    ++ [x00; x08; x00; x00; x00; x08; x00; x00].
Definition wrapped_tar_evidence : GzipWrapperEvidence :=
  {| gz_flags := 0; gz_modification_time := 0; gz_extra_flags := 0; gz_operating_system := 3;
     gz_header := mkrange 0 10; gz_extra := None; gz_extra_subfield_count := 0; gz_original_name := None;
     gz_comment := None; gz_header_crc16 := None; gz_compressed_payload := mkrange 10 3; gz_trailer := mkrange 13 8;
     gz_declared_crc32 := 2048; gz_declared_isize := 2048; gz_derived_output_len := 2048;
     gz_derived_output_sha256 := @hex_sha256 pinned_sha256 canonical_fuzz_archive |}.
Definition wrapped_tar_ir : ArchiveIR :=
  let _ := pinned_sha256 in
  {| schema := "sealr.archive-ir.tar-gzip-ustar.v1"; profile := "sealr.profile.tar-gzip.ustar-portable.v1";
     profile_digest := []; source_digest := Available (hex_sha256 wrapped_tar_bytes);
     evidence := ArTarGzip wrapped_tar_evidence
       {| tc_member_records := Tar.member_records canonical_archive;
          tc_terminator := Tar.terminator canonical_archive;
          tc_trailing_zeros := Tar.trailing_zeros canonical_archive |};
     members := plan_members Gzip (map (fun m => (m, [Tar.name m], [])) (Tar.members canonical_archive)) |}.
Definition wrapped_tar_set : SnapshotSet :=
  let _ := pinned_sha256 in
  {| original := borrowed None wrapped_tar_bytes; derived := [borrowed None canonical_fuzz_archive] |}.
Definition wrapped_tar_record (output_len : Z) : TransformRecord :=
  let _ := pinned_sha256 in
  let p := GzipRfc1952SingleMemberV1 in
  {| tr_profile := p; tr_profile_id := lit (transform_id p); tr_profile_sha256 := lit (transform_digest p);
     tr_decoder_parameters_sha256 := lit (decoder_parameters_digest p);
     tr_input := original_range (mkrange 0 21); tr_input_sha256 := hex_sha256 wrapped_tar_bytes;
     tr_output_domain := FIRST_DERIVED; tr_output_len := output_len;
     tr_output_sha256 := hex_sha256 canonical_fuzz_archive |}.

Lemma wrapped_tar_holds :
  Forall2 (@holds_content pinned_sha256) (domains wrapped_tar_set) [wrapped_tar_bytes; canonical_fuzz_archive].
Proof.
  constructor; [|constructor; [|constructor]]; (split; [|reflexivity]);
    apply reliable_represents, borrowed_reliable; vm_compute; discriminate.
Qed.

(** The check accepts the plan with its one payload and refuses it without. *)
Lemma ready_archive_is_bound_witness :
  let validate := @validate_ready_archive pinned_sha256 length_crc zero_xxhash64 always_reserves
    wrapped_tar_set [wrapped_tar_record 2048] wrapped_tar_ir in
  @ready_bound pinned_sha256 length_crc zero_xxhash64 always_reserves wrapped_tar_set [wrapped_tar_record 2048]
    wrapped_tar_ir (map from_ir (members wrapped_tar_ir)) [wrapped_tar_bytes; canonical_fuzz_archive]
  /\ validate [] <> Some (Ok ()).
Proof.
  split.
  - apply (@ready_archive_is_bound pinned_sha256 length_crc zero_xxhash64 always_reserves).
    + exact wrapped_tar_holds.
    + intros w Hw. vm_compute in Hw. discriminate Hw.
    + vm_compute. reflexivity.
  - vm_compute. discriminate.
Defined.
