(* ===== verification/Receipt.v ===== *)
(** * Views, receipts and outcomes ([apply.rs], [identity.rs])

    The records an operation ends with and how [finish] assembles them: the
    verdict comes from the semantic axes, the view is digested as the JSON it
    serialises to, and the identities are recomputed from the archive the
    outcome carries. *)

From S2P Require Import Prelude Utf8 StageWitness Findings Snapshot Streams Transforms Ir Evidence Identity Policy Verification Outcome Retention.
Local Open Scope Z_scope.
Local Open Scope rust_scope.

(** ** The view *)

Record MemberView : Type := {
  mv_path : str;
  mv_kind : string;
  mv_comp_bytes : Z;
  mv_uncomp_bytes : Z;
  mv_method : string;
  mv_crc32 : string;
  mv_sha256 : str
}.

(** The method, compressed size and declared checksum of a member's evidence. *)
Definition view_method (m : IrMember) : string * Z * Z :=
  let zip_method zip : string := if ze_method zip =? 0 then "store" else "deflate" in
  match ir_evidence m with
  | EvZip zip => (zip_method zip, ze_declared_comp_size zip, ze_declared_crc zip)
  | EvZip64 zip64 =>
      (zip_method (z_zip zip64), ze_declared_comp_size (z_zip zip64), ze_declared_crc (z_zip zip64))
  | EvTar tar | EvTarGzip tar | EvTarZstd tar | EvTarXz tar | EvTarBzip2 tar =>
      ("raw"%string, len (te_payload tar), 0)
  | EvTarPax pax | EvTarGzipPax pax => ("raw"%string, len (te_payload (pe_tar pax)), 0)
  | EvTarGnuLongName gnu | EvTarGzipGnuLongName gnu => ("raw"%string, len (te_payload (ne_tar gnu)), 0)
  | EvSevenZ sevenz => ("copy"%string, len (se_payload sevenz), default 0 (se_declared_crc sevenz))
  end.
Definition member_view (m : IrMember) : MemberView :=
  let '(method, declared_comp_size, declared_crc) := view_method m in
  let directory := bool_decide (ir_kind m = KindDirectory) in
  {| mv_path := canonical_path m;
     mv_kind := if directory then "dir" else "file";
     mv_comp_bytes := if directory then 0 else declared_comp_size;
     mv_uncomp_bytes := default 0 (actual_uncomp_size m);
     mv_method := if directory then "store" else method;
     mv_crc32 := fmt_hex8 (default declared_crc (actual_crc m));
     mv_sha256 := default [] (content_sha256 m) |}.

Record SourceMeta : Type := { sm_path : option str; sm_digest : SourceDigest; sm_magic : string }.
Record PolicyMeta : Type := { pm_id : string; pm_digest : str }.

Record View : Type := {
  v_schema : string;
  v_source : SourceMeta;
  v_policy : PolicyMeta;
  v_interpretation : InterpretationStatus;
  v_admission : AdmissionStatus;
  v_verification : VerificationStatus;
  v_effect : EffectStatus;
  v_view_completeness : ViewCompleteness;
  v_verdict : string;
  v_wrote : bool;
  v_findings : list Finding;
  v_members : list MemberView
}.

(** ** The receipt and the outcome *)

Record InterpretationIdentity : Type := { ii_id : string; ii_digest : str }.
Record OutcomeIdentities : Type := {
  id_source : SourceDigest;
  id_interpretation : InterpretationIdentity;
  id_layout : TreeRoot;
  id_content : TreeRoot
}.
(** [OutcomeIdentities::unavailable_for_named]. *)
Definition unavailable_for_named (source : SourceDigest) (id : string) (digest : str) : OutcomeIdentities :=
  {| id_source := source; id_interpretation := {| ii_id := id; ii_digest := digest |};
     id_layout := RootUnavailable; id_content := RootUnavailable |}.

Record ToolMeta : Type := { tm_name : string; tm_version : string }.
Record EnvMeta : Type := { em_os : string; em_arch : string; em_kernel_jail : string }.

Record Receipt : Type := {
  rc_schema : string;
  rc_verdict : string;
  rc_wrote : bool;
  rc_interpretation : InterpretationStatus;
  rc_admission : AdmissionStatus;
  rc_verification : VerificationStatus;
  rc_effect : EffectStatus;
  rc_view_completeness : ViewCompleteness;
  rc_source : SourceDigest;
  rc_source_snapshot : SnapshotKind;
  rc_policy : PolicyMeta;
  rc_identities : OutcomeIdentities;
  rc_view_digest : str;
  rc_canonicalization : option string;
  rc_view_schema : option string;
  rc_tool : ToolMeta;
  rc_environment : EnvMeta;
  rc_materialization : MaterializationMeta;
  rc_signed : bool;
  rc_findings : list Finding
}.

Record Outcome : Type := {
  o_interpretation : InterpretationStatus;
  o_admission : AdmissionStatus;
  o_verification : VerificationStatus;
  o_effect : EffectStatus;
  o_view_completeness : ViewCompleteness;
  o_verdict : Verdict;
  o_receipt : Receipt;
  o_view : View;
  o_archive_ir : option ArchiveIR;
  o_verified_archive : option VerifiedArchive
}.
(** [Outcome::rejected], [Outcome::wrote]. *)
Definition rejected (o : Outcome) : bool := match o_verdict o with Rejected => true | _ => false end.
Definition wrote (o : Outcome) : bool := match o_verdict o with Allowed w => w | _ => false end.
(** [Outcome::archive_ir]. *)
Definition archive_ir (o : Outcome) : option ArchiveIR :=
  match o_verified_archive o with Some a => Some (va_ir a) | None => o_archive_ir o end.

(** The serde encoding of the view, and the constants of the build. *)
Class ViewCodec : Type := view_json : View -> list byte.
Class BuildEnv : Type := { cargo_pkg_version : string; consts_os : string; consts_arch : string }.

(** Path, digest and kind of the original snapshot. *)
Definition SourceFacts : Type := option str * SourceDigest * SnapshotKind.

Section Finish.
Context `{!Sha256, !PolicyText, !ViewCodec, !BuildEnv}.

(** [finish_with_jail]. *)
Definition finish_with_jail (source : SourceFacts) (magic : string) (policy : Policy) (findings : list Finding)
    (members : list MemberView) (materialization : MaterializationMeta) (axes : SemanticAxes)
    (identities : OutcomeIdentities) (kernel_jail : string) : Outcome :=
  let '(path, source_digest, source_snapshot) := source in
  let verdict := compat_verdict axes in
  let '(verdict_s, wrote) :=
    match verdict with Allowed wrote => ("allowed"%string, wrote) | Rejected => ("rejected"%string, false) end in
  let view :=
    {| v_schema := "sealr.view.v1";
       v_source := {| sm_path := path; sm_digest := source_digest; sm_magic := magic |};
       v_policy := {| pm_id := pol_id policy; pm_digest := Policy.digest_hex policy |};
       v_interpretation := ax_interpretation axes; v_admission := ax_admission axes;
       v_verification := ax_verification axes; v_effect := ax_effect axes;
       v_view_completeness := ax_view_completeness axes; v_verdict := verdict_s; v_wrote := wrote;
       v_findings := findings; v_members := members |} in
  let receipt :=
    {| rc_schema := "sealr.receipt.v2"; rc_verdict := verdict_s; rc_wrote := wrote;
       rc_interpretation := ax_interpretation axes; rc_admission := ax_admission axes;
       rc_verification := ax_verification axes; rc_effect := ax_effect axes;
       rc_view_completeness := ax_view_completeness axes; rc_source := source_digest;
       rc_source_snapshot := source_snapshot; rc_policy := v_policy view; rc_identities := identities;
       rc_view_digest := hex_sha256 (view_json view); rc_canonicalization := None; rc_view_schema := None;
       rc_tool := {| tm_name := "sealr"; tm_version := cargo_pkg_version |};
       rc_environment := {| em_os := consts_os; em_arch := consts_arch; em_kernel_jail := kernel_jail |};
       rc_materialization := materialization; rc_signed := false; rc_findings := findings |} in
  {| o_interpretation := ax_interpretation axes; o_admission := ax_admission axes;
     o_verification := ax_verification axes; o_effect := ax_effect axes;
     o_view_completeness := ax_view_completeness axes; o_verdict := verdict; o_receipt := receipt;
     o_view := view; o_archive_ir := None; o_verified_archive := None |}.

Definition finish (source : SourceFacts) (magic : string) (policy : Policy) (findings : list Finding)
    (members : list MemberView) (materialization : MaterializationMeta) (axes : SemanticAxes)
    (identities : OutcomeIdentities) : Outcome :=
  finish_with_jail source magic policy findings members materialization axes identities "unavailable".

(** [OutcomeIdentities::from_ir]; [None] is a panic of an encoder. *)
Definition identities_from_ir (ir : ArchiveIR) (verification_ : VerificationStatus) : option OutcomeIdentities :=
  layout ← layout_root ir;
  content ← (if match verification_ with Complete => true | _ => false end
               && forallb (fun m => match verification m with Verified => true | _ => false end) (members ir)
             then content_root ir else Some RootUnavailable);
  Some {| id_source := source_digest ir;
          id_interpretation := {| ii_id := profile ir; ii_digest := profile_digest ir |};
          id_layout := layout; id_content := content |}.

(** The outcome with other identities in its receipt. *)
Definition set_identities (o : Outcome) (identities : OutcomeIdentities) (ir : option ArchiveIR)
    (archive : option VerifiedArchive) : Outcome :=
  let r := o_receipt o in
  {| o_interpretation := o_interpretation o; o_admission := o_admission o; o_verification := o_verification o;
     o_effect := o_effect o; o_view_completeness := o_view_completeness o; o_verdict := o_verdict o;
     o_receipt :=
       {| rc_schema := rc_schema r; rc_verdict := rc_verdict r; rc_wrote := rc_wrote r;
          rc_interpretation := rc_interpretation r; rc_admission := rc_admission r;
          rc_verification := rc_verification r; rc_effect := rc_effect r;
          rc_view_completeness := rc_view_completeness r; rc_source := rc_source r;
          rc_source_snapshot := rc_source_snapshot r; rc_policy := rc_policy r; rc_identities := identities;
          rc_view_digest := rc_view_digest r; rc_canonicalization := rc_canonicalization r;
          rc_view_schema := rc_view_schema r; rc_tool := rc_tool r; rc_environment := rc_environment r;
          rc_materialization := rc_materialization r; rc_signed := rc_signed r; rc_findings := rc_findings r |};
     o_view := o_view o; o_archive_ir := ir; o_verified_archive := archive |}.
(** [with_ir], [with_verified_archive]. *)
Definition with_ir (o : Outcome) (ir : ArchiveIR) : option Outcome :=
  identities ← identities_from_ir ir (o_verification o);
  Some (set_identities o identities (Some ir) (o_verified_archive o)).
Definition with_verified_archive (o : Outcome) (archive : VerifiedArchive) : option Outcome :=
  identities ← identities_from_ir (va_ir archive) (o_verification o);
  Some (set_identities o identities (o_archive_ir o) (Some archive)).
End Finish.
