(* ===== verification/Profiles.v ===== *)
(** * Interpretation profiles and the representations they name ([ir.rs], [apply.rs])

    One profile names one closed container language.  An operation selects one;
    its identifier and the digest of its document are in the archive
    representation and in the identities of every outcome.  The documents
    themselves are constant data printed by serde: their text is a parameter. *)

From S2P Require Import Prelude Utf8 Findings Snapshot Ir Evidence Identity Policy Receipt.
Local Open Scope Z_scope.

(** ** The profiles *)

Inductive TarInterpretationProfile : Type := UstarPortableV1.
Inductive TarPaxInterpretationProfile : Type := PaxPortableV1.
Inductive TarGnuLongNameInterpretationProfile : Type := GnuLongNamePortableV1.
Inductive TarGzipInterpretationProfile : Type :=
  | GzipUstarPortableV1 | GzipPaxPortableV1 | GzipGnuLongNamePortableV1.
Inductive TarZstdInterpretationProfile : Type := ZstdUstarPortableV1.
Inductive TarXzInterpretationProfile : Type := XzUstarPortableV1.
Inductive TarBzip2InterpretationProfile : Type := Bzip2UstarPortableV1.
Inductive SevenZInterpretationProfile : Type := CopyPortableV1.

(** The methods every profile has: [id], [archive_format] and the format the
    policy must list. *)
Class Interpretation (P : Type) : Type := {
  interpretation_id : P -> string;
  archive_format : P -> ArchiveFormat;
  policy_format : P -> string
}.

#[export] Instance zip_interpretation : Interpretation ZipInterpretationProfile :=
  {| interpretation_id := profile_id;
     archive_format p := match p with Zip64StrictAsciiV1 => FormatZip64 | _ => FormatZip32 end;
     policy_format p := match p with Zip64StrictAsciiV1 => POLICY_FORMAT_ZIP64 | _ => POLICY_FORMAT_ZIP end |}.
#[export] Instance tar_interpretation : Interpretation TarInterpretationProfile :=
  {| interpretation_id _ := "sealr.profile.tar.ustar-portable.v1"%string;
     archive_format _ := TarUstar; policy_format _ := POLICY_FORMAT_TAR_USTAR |}.
#[export] Instance tar_pax_interpretation : Interpretation TarPaxInterpretationProfile :=
  {| interpretation_id _ := "sealr.profile.tar.pax-portable.v1"%string;
     archive_format _ := FormatTarPax; policy_format _ := POLICY_FORMAT_TAR_PAX |}.
#[export] Instance tar_gnu_longname_interpretation : Interpretation TarGnuLongNameInterpretationProfile :=
  {| interpretation_id _ := "sealr.profile.tar.gnu-longname-portable.v1"%string;
     archive_format _ := FormatTarGnuLongName; policy_format _ := POLICY_FORMAT_TAR_GNU_LONGNAME |}.
#[export] Instance tar_gzip_interpretation : Interpretation TarGzipInterpretationProfile :=
  {| interpretation_id p :=
       match p with
       | GzipUstarPortableV1 => "sealr.profile.tar-gzip.ustar-portable.v1"
       | GzipPaxPortableV1 => "sealr.profile.tar-gzip.pax-portable.v1"
       | GzipGnuLongNamePortableV1 => "sealr.profile.tar-gzip.gnu-longname-portable.v1"
       end%string;
     archive_format p :=
       match p with
       | GzipUstarPortableV1 => TarGzipUstar
       | GzipPaxPortableV1 => FormatTarGzipPax
       | GzipGnuLongNamePortableV1 => FormatTarGzipGnuLongName
       end;
     policy_format p :=
       match p with
       | GzipUstarPortableV1 => POLICY_FORMAT_TAR_GZIP_USTAR
       | GzipPaxPortableV1 => POLICY_FORMAT_TAR_GZIP_PAX
       | GzipGnuLongNamePortableV1 => POLICY_FORMAT_TAR_GZIP_GNU_LONGNAME
       end |}.
#[export] Instance tar_zstd_interpretation : Interpretation TarZstdInterpretationProfile :=
  {| interpretation_id _ := "sealr.profile.tar-zstd.ustar-portable.v1"%string;
     archive_format _ := TarZstdUstar; policy_format _ := POLICY_FORMAT_TAR_ZSTD_USTAR |}.
#[export] Instance tar_xz_interpretation : Interpretation TarXzInterpretationProfile :=
  {| interpretation_id _ := "sealr.profile.tar-xz.ustar-portable.v1"%string;
     archive_format _ := TarXzUstar; policy_format _ := POLICY_FORMAT_TAR_XZ_USTAR |}.
#[export] Instance tar_bzip2_interpretation : Interpretation TarBzip2InterpretationProfile :=
  {| interpretation_id _ := "sealr.profile.tar-bzip2.ustar-portable.v1"%string;
     archive_format _ := TarBzip2Ustar; policy_format _ := POLICY_FORMAT_TAR_BZIP2_USTAR |}.
#[export] Instance sevenz_interpretation : Interpretation SevenZInterpretationProfile :=
  {| interpretation_id _ := "sealr.profile.7z.copy-portable.v1"%string;
     archive_format _ := SevenZCopy; policy_format _ := POLICY_FORMAT_SEVENZ_COPY |}.

(** The serde text of the document with an identifier. *)
Class ProfileDocuments : Type := profile_json : string -> list byte.

(** ** The selection of an operation *)

Inductive ArchiveSelection : Type :=
  | SelectZip (profile : ZipInterpretationProfile)
  | SelectTarUstar (profile : TarInterpretationProfile)
  | SelectTarGzip (profile : TarGzipInterpretationProfile)
  | SelectTarPax (profile : TarPaxInterpretationProfile)
  | SelectTarGnuLongName (profile : TarGnuLongNameInterpretationProfile)
  | SelectTarZstd (profile : TarZstdInterpretationProfile)
  | SelectTarXz (profile : TarXzInterpretationProfile)
  | SelectTarBzip2 (profile : TarBzip2InterpretationProfile)
  | SelectSevenZ (profile : SevenZInterpretationProfile).

(** [ArchiveSelection::default]. *)
Definition default_selection : ArchiveSelection := SelectZip StrictAsciiV1.
(** [ApplyOptions::archive_format]. *)
Definition selected_format (selection : ArchiveSelection) : ArchiveFormat :=
  match selection with
  | SelectZip p => archive_format p
  | SelectTarUstar p => archive_format p
  | SelectTarGzip p => archive_format p
  | SelectTarPax p => archive_format p
  | SelectTarGnuLongName p => archive_format p
  | SelectTarZstd p => archive_format p
  | SelectTarXz p => archive_format p
  | SelectTarBzip2 p => archive_format p
  | SelectSevenZ p => archive_format p
  end.
(** [ApplyOptions::interpretation_profile]. *)
Definition selected_zip (selection : ArchiveSelection) : ZipInterpretationProfile :=
  match selection with SelectZip p => p | _ => StrictAsciiV1 end.

Section Representations.
Context `{!Sha256, !ProfileDocuments}.
(** The profile's [digest]. *)
Definition interpretation_digest {P} `{!Interpretation P} (p : P) : str :=
  hex_sha256 (profile_json (interpretation_id p)).

(** [OutcomeIdentities::unavailable_for] and its siblings. *)
Definition unavailable_for {P} `{!Interpretation P} (source : SourceDigest) (p : P) : OutcomeIdentities :=
  unavailable_for_named source (interpretation_id p) (interpretation_digest p).
(** [without_source_for]. *)
Definition without_source_for {P} `{!Interpretation P} (p : P) : OutcomeIdentities :=
  unavailable_for DigestUnavailable p.

(** ** The constructors of [ArchiveIR] *)

Definition with_profile {P} `{!Interpretation P} (schema_ : string) (p : P) (source : SourceDigest)
    (evidence_ : ArchiveEvidence) (ms : list IrMember) : ArchiveIR :=
  {| schema := schema_; profile := interpretation_id p; profile_digest := interpretation_digest p;
     source_digest := source; evidence := evidence_; members := ms |}.

Definition with_covering (p : ZipInterpretationProfile) source covering ms : ArchiveIR :=
  with_profile "sealr.archive-ir.v1" p source (ArZip covering) ms.
Definition with_zip64 (p : ZipInterpretationProfile) source covering ms : ArchiveIR :=
  with_profile "sealr.archive-ir.zip64.v1" p source (ArZip64 covering) ms.
Definition with_tar (p : TarInterpretationProfile) source covering ms : ArchiveIR :=
  with_profile "sealr.archive-ir.tar-ustar.v1" p source (ArTar covering) ms.
Definition with_tar_gzip (p : TarGzipInterpretationProfile) source gzip tar ms : ArchiveIR :=
  with_profile "sealr.archive-ir.tar-gzip-ustar.v1" p source (ArTarGzip gzip tar) ms.
Definition with_tar_zstd (p : TarZstdInterpretationProfile) source zstd tar ms : ArchiveIR :=
  with_profile "sealr.archive-ir.tar-zstd-ustar.v1" p source (ArTarZstd zstd tar) ms.
Definition with_tar_xz (p : TarXzInterpretationProfile) source xz tar ms : ArchiveIR :=
  with_profile "sealr.archive-ir.tar-xz-ustar.v1" p source (ArTarXz xz tar) ms.
Definition with_tar_bzip2 (p : TarBzip2InterpretationProfile) source bzip2 tar ms : ArchiveIR :=
  with_profile "sealr.archive-ir.tar-bzip2-ustar.v1" p source (ArTarBzip2 bzip2 tar) ms.
Definition with_sevenz (p : SevenZInterpretationProfile) source sevenz ms : ArchiveIR :=
  with_profile "sealr.archive-ir.7z-copy.v1" p source (ArSevenZ sevenz) ms.
Definition with_tar_pax (p : TarPaxInterpretationProfile) source tar extensions ms : ArchiveIR :=
  with_profile "sealr.archive-ir.tar-pax.v1" p source
    (ArTarPax {| pa_tar := tar; pa_extensions := extensions |}) ms.
Definition with_tar_gnu_longname (p : TarGnuLongNameInterpretationProfile) source tar carriers ms : ArchiveIR :=
  with_profile "sealr.archive-ir.tar-gnu-longname.v1" p source
    (ArTarGnuLongName {| na_tar := tar; na_carriers := carriers |}) ms.
Definition with_tar_gzip_pax (p : TarGzipInterpretationProfile) source gzip tar extensions ms : ArchiveIR :=
  with_profile "sealr.archive-ir.tar-gzip-pax.v1" p source
    (ArTarGzipPax gzip {| pa_tar := tar; pa_extensions := extensions |}) ms.
Definition with_tar_gzip_gnu_longname (p : TarGzipInterpretationProfile) source gzip tar carriers ms : ArchiveIR :=
  with_profile "sealr.archive-ir.tar-gzip-gnu-longname.v1" p source
    (ArTarGzipGnuLongName gzip {| na_tar := tar; na_carriers := carriers |}) ms.
End Representations.
