(* ===== verification/Execute.v ===== *)
(** * Execution of a ready archive ([apply.rs])

    [execute_ready_archive]: the last checks, the stage when a destination was
    asked for, the verification of every member in order, the authority over
    the verified archive, the audit of the staged tree, its publication and the
    outcome.  A panic is a run without a result. *)

From S2P Require Import Prelude Utf8 Sort StageWitness Findings Quota Snapshot Streams Transforms Ir Evidence Identity Policy Jail Verification Outcome FileSystem Materialize Retention Crc CoveringPax Composite Receipt Profiles.
Local Open Scope Z_scope.
Local Open Scope rust_scope.

(** ** Inputs *)

(** [Source] of [apply.rs]: the caller's bytes, with a display path. *)
Inductive RequestSource : Type :=
  | SourceBytes (path : option str) (data : list byte).
Record Request : Type := { req_source : RequestSource; req_policy : Policy; req_dest : option UnixPath }.
Record ApplyOptions : Type := {
  opt_retention : option RetentionPlan;
  opt_selection : ArchiveSelection;
  opt_stage_retention_path : option UnixPath
}.

Record ReadyArchive : Type := {
  ra_snapshots : SnapshotSet;
  ra_transforms : TransformGraph;
  ra_ir : ArchiveIR;
  ra_payloads : list PayloadPlan;
  ra_findings : list Finding;
  ra_budget : ResourceBudget;
  ra_member_sync : bool;
  ra_directory_sync : bool;
  ra_source_digest : SourceDigest;
  ra_identities_base : OutcomeIdentities;
  ra_magic : string
}.

(** [ir.members[index]] replaced. *)
Definition set_member (ir : ArchiveIR) (index : nat) (m : IrMember) : ArchiveIR :=
  {| schema := schema ir; profile := profile ir; profile_digest := profile_digest ir;
     source_digest := source_digest ir; evidence := evidence ir; members := <[index := m]> (members ir) |}.

(** The mutable variables of the loop over the members. *)
Record Executing : Type := {
  ex_ir : ArchiveIR;
  ex_retention : RetentionBuild;
  ex_members_view : list MemberView;
  ex_actual_total : QuotaState
}.

(** Why the loop stopped: a member that failed, with its index. *)
Record MemberStop : Type := { ms_state : Executing; ms_index : nat; ms_finding : Finding }.

Definition total_finding (e : QuotaError) : Finding :=
  match e with
  | Overflow => error QuotaOverflow "actual uncompressed total overflowed u64"
  | Exceeded _ _ => error QuotaTotal "actual uncompressed total exceeded the archive cap"
  end.

Section Execute.
Context {W D F : Type} `{!CapFs W D F, SHA : !Sha256, !Crc32, !Inflate, !XxHash64, !Allocator}.
Context `{!DebugStr, !RetentionCodec, !PolicyText, !ViewCodec, !BuildEnv}.
Local Abbreviation Mat := (CapabilityMaterializer D).
Context (req : Request) (options : ApplyOptions) (ready : ReadyArchive).

(** ** Members *)

Definition member_done (st : Executing) (index : nat) (m : IrMember) (retention : RetentionBuild)
    (total : QuotaState) : Executing :=
  {| ex_ir := set_member (ex_ir st) index m; ex_retention := retention;
     ex_members_view := ex_members_view st ++ [member_view m]; ex_actual_total := total |}.

Definition with_build (st : Executing) (retention : RetentionBuild) : Executing :=
  {| ex_ir := ex_ir st; ex_retention := retention; ex_members_view := ex_members_view st;
     ex_actual_total := ex_actual_total st |}.

(** The payload streamed into the staged file, the captured bytes or a sink:
    the capture after it and the result. *)
Definition process_payload (stage : option Mat) (m : IrMember) (payload_spec : PayloadPlan)
    (snapshot : SourceSnapshot) (r : RangeReader) (remaining : Z) (capture : option (list byte)) :
    M W (option (list byte) * (Z * Z * list byte)) Finding :=
  let _ := buf_reader_instance snapshot PAYLOAD_BUFFER in
  let payload := buf_reader r in
  match stage with
  | Some stage =>
      let@ file := create_file stage (ir_components m) in
      process_member_to_file payload payload_spec (ra_budget ready) remaining (ra_member_sync ready) capture file
  | None =>
      match capture with
      | Some bytes =>
          let@ (bytes, result) :=
            on_err snd (pure_exec (verify_payload payload payload_spec (ra_budget ready) remaining bytes)) in
          ret (Some bytes, result)
      | None =>
          let@ (_, result) :=
            on_err snd (pure_exec (verify_payload payload payload_spec (ra_budget ready) remaining ())) in
          ret (None, result)
      end
  end.

(** One iteration for a file member. *)
Definition execute_file (stage : option Mat) (index : nat) (m : IrMember) (payload_spec : PayloadPlan)
    (st : Executing) : M W Executing MemberStop :=
  let '(retention, capture) := begin_capture (ex_retention st) (canonical_path m) in
  let st := with_build st retention in
  let stop finding := {| ms_state := st; ms_index := index; ms_finding := finding |} in
  let@ (snapshot, r) :=
    pure_result (map_err stop (planned_payload_reader (ra_snapshots ready) payload_spec (decoded_name m))) in
  let@ remaining := pure_exec (option_map Ok (Quota.remaining (ex_actual_total st))) in
  let@ (capture, (actual, crc, sha)) :=
    on_err (fun finding : Finding => stop (on finding (decoded_name m)))
      (process_payload stage m payload_spec snapshot r remaining capture) in
  let '(total, consumed) := consume (ex_actual_total st) actual in
  match consumed with
  | Err e => throw (stop (on (total_finding e) (decoded_name m)))
  | Ok _ =>
      ret (member_done st index (mark_file_verified m actual crc (digest_hex sha))
             (finish_capture (ex_retention st) (canonical_path m) capture) total)
  end.

(** One iteration for a directory. *)
Definition execute_directory (stage : option Mat) (index : nat) (m : IrMember) (st : Executing) :
    M W Executing MemberStop :=
  let@ _ :=
    match stage with
    | Some stage =>
        on_err (fun finding => {| ms_state := st; ms_index := index; ms_finding := finding |})
          (create_directory stage (ir_components m) (decoded_name m))
    | None => ret ()
    end in
  ret (member_done st index (mark_directory_verified m) (ex_retention st) (ex_actual_total st)).

(** [for (index, payload_spec) in payloads.iter().copied().enumerate()]. *)
Fixpoint execute_members (stage : option Mat) (index : nat) (payloads : list PayloadPlan) (st : Executing) :
    M W Executing MemberStop :=
  match payloads with
  | [] => ret st
  | payload_spec :: payloads =>
      match members (ex_ir st) !! index with
      | None => spent
      | Some m =>
          let@ st :=
            match ir_kind m with
            | KindDirectory => execute_directory stage index m st
            | KindFile => execute_file stage index m payload_spec st
            end in
          execute_members stage (S index) payloads st
      end
  end.

(** ** Stops *)

Definition source_facts : SourceFacts :=
  (snap_path (original (ra_snapshots ready)), ra_source_digest ready, Snapshot.kind (original (ra_snapshots ready))).
Definition finished (findings : list Finding) (members_view : list MemberView)
    (materialization : MaterializationMeta) (axes : SemanticAxes) : Outcome :=
  finish source_facts (ra_magic ready) (req_policy req) findings members_view materialization axes
    (ra_identities_base ready).
(** A panic of an encoder, or of [first_error], ends the run. *)
Definition or_panic {A} (a : option A) : M W A unit := pure_exec (option_map Ok a).
Definition stop_with_ir (ir : ArchiveIR) (findings : list Finding) (members_view : list MemberView)
    (materialization : MaterializationMeta) (axes : SemanticAxes) : M W Outcome unit :=
  or_panic (with_ir (finished findings members_view materialization axes) ir).
Definition stop_with_archive (st : Executing) (payloads : list PayloadPlan) (findings : list Finding)
    (members_view : list MemberView) (materialization : MaterializationMeta) (axes : SemanticAxes) :
    M W Outcome unit :=
  or_panic (with_verified_archive (finished findings members_view materialization axes)
    (new_archive (ra_snapshots ready) (ex_ir st) payloads (ra_budget ready) (ex_retention st))).

(** The checks failed: nothing was tried. *)
Definition stop_ready (finding : Finding) (initial : MaterializationMeta) : M W Outcome unit :=
  let axes :=
    if format_is_transform_wrapped (format (ra_ir ready)) then structure_stop Indeterminate NotEvaluated finding
    else structure_stop Malformed AdmissionDenied finding in
  stop_with_ir (ra_ir ready) (ra_findings ready ++ [finding]) [] initial axes.

(** A member failed: the stage is removed. *)
Definition stop_member (stage : option Mat) (planned_count : Z) (materialization : MaterializationMeta)
    (stop : MemberStop) : M W Outcome unit :=
  let st := ms_state stop in
  match members (ex_ir st) !! ms_index stop with
  | None => spent
  | Some m =>
      let ir := set_member (ex_ir st) (ms_index stop) (mark_failed m (lit (as_str (code (ms_finding stop))))) in
      let@ (_, findings, materialization) :=
        abort_and_report stage (ra_findings ready ++ [ms_finding stop]) materialization in
      let@ cause := or_panic (first_error findings) in
      let verified := Z.of_nat (length (ex_members_view st)) in
      stop_with_ir ir findings (ex_members_view st) materialization
        (admitted_verification_stop verified (u64_saturating_sub planned_count verified) cause
           (bool_decide (is_Some stage)))
  end.

(** The authority over the archive was refused. *)
Definition stop_authority (stage : option Mat) (planned_count : Z) (materialization : MaterializationMeta)
    (st : Executing) (finding : Finding) : M W Outcome unit :=
  let@ (_, findings, materialization) :=
    abort_and_report stage (ra_findings ready ++ [finding]) materialization in
  stop_with_ir (ex_ir st) findings (ex_members_view st) materialization
    {| ax_interpretation := Indeterminate; ax_admission := AdmissionAdmitted;
       ax_verification := Partial planned_count 0;
       ax_effect := if bool_decide (is_Some stage) then Failed else NotRequested;
       ax_view_completeness := ViewPartial PhaseVerification (as_str (code finding)) |}.

(** The audit or the publication failed. *)
Definition stop_publication (stage : Mat) (materialization : MaterializationMeta) (st : Executing)
    (members_view : list MemberView) (finding : Finding) : M W Outcome unit :=
  let@ (_, findings, materialization) :=
    abort_and_report (Some stage) (ra_findings ready ++ [finding]) materialization in
  let@ _ := or_panic (first_error findings) in
  stop_with_archive st (ra_payloads ready) findings members_view materialization admitted_publication_failed.

(** ** The operation *)

(** The stage, or the outcome of a setup that failed. *)
Definition open_stage (initial : MaterializationMeta) :
    M W (result (option Mat * MaterializationMeta) Outcome) unit :=
  match req_dest req with
  | None => ret (Ok (None, initial))
  | Some dest =>
      let@ created := attempt (create dest (atomic (req_policy req))) in
      match created with
      | Err setup_error =>
          let findings := ra_findings ready ++ se_findings setup_error in
          let materialization :=
            setup_failed (durability (req_policy req)) (se_cleanup setup_error) (se_windows setup_error) in
          let@ cause := or_panic (first_error findings) in
          let@ o := stop_with_ir (ra_ir ready) findings [] materialization (admitted_setup_failed cause) in
          ret (Err o)
      | Ok stage =>
          let stage := if ra_directory_sync ready then enable_directory_sync stage else stage in
          let@ persisted :=
            match opt_stage_retention_path options with
            | Some path => attempt (persist_stage_retention stage path)
            | None => ret (Ok stage)
            end in
          match persisted with
          | Err finding =>
              let@ (_, findings, materialization) :=
                abort_and_report (Some stage) (ra_findings ready ++ [finding]) initial in
              let@ cause := or_panic (first_error findings) in
              let@ o := stop_with_ir (ra_ir ready) findings [] materialization (admitted_setup_failed cause) in
              ret (Err o)
          | Ok stage => ret (Ok (Some stage, report stage))
          end
      end
  end.

(** The errors of a publication that happened. *)
Definition late_findings (stage : Mat) : Mat * list Finding :=
  let '(stage, discard) := take_retention_discard_error stage in
  let '(stage, parent_sync) := take_parent_directory_sync_error stage in
  (stage, option_list discard ++ option_list parent_sync).

(** The staged tree audited and published: the findings and the report. *)
Definition publish (depth : nat) (stage : option Mat) (materialization : MaterializationMeta)
    (st : Executing) (members_view : list MemberView) :
    M W (result (list Finding * MaterializationMeta) Outcome) unit :=
  match stage with
  | None => ret (Ok (ra_findings ready, materialization))
  | Some stage =>
      let@ audited := attempt (audit_against depth stage (ex_ir st)) in
      match audited with
      | Err finding =>
          let@ o := stop_publication stage materialization st members_view finding in ret (Err o)
      | Ok _ =>
          let@ committed := attempt (commit depth stage) in
          match committed with
          | Err (stage, finding) =>
              let@ o := stop_publication stage materialization st members_view finding in ret (Err o)
          | Ok stage =>
              let '(stage, late) := late_findings stage in
              ret (Ok (ra_findings ready ++ late, report stage))
          end
      end
  end.

(** Everything after the checks. *)
Definition execute_checked (depth : nat) (initial : MaterializationMeta) : M W Outcome unit :=
  let retention := plan_build (opt_retention options) (ra_ir ready) in
  let planned_count := Z.of_nat (length (members (ra_ir ready))) in
  let@ opened := open_stage initial in
  match opened with
  | Err o => ret o
  | Ok (stage, materialization) =>
      let start :=
        {| ex_ir := ra_ir ready; ex_retention := retention; ex_members_view := [];
           ex_actual_total := Quota.new (max_total_bytes (ra_budget ready)) |} in
      let@ executed := attempt (execute_members stage 0 (ra_payloads ready) start) in
      match executed with
      | Err stop => stop_member stage planned_count materialization stop
      | Ok st =>
          match validate_verified_archive_authority (ex_ir st) with
          | Err finding => stop_authority stage planned_count materialization st finding
          | Ok _ =>
              let members_view := sort_by (fun a b => str_cmp (mv_path a) (mv_path b)) (ex_members_view st) in
              let@ published := publish depth stage materialization st members_view in
              match published with
              | Err o => ret o
              | Ok (findings, materialization) =>
                  stop_with_archive st (ra_payloads ready) findings members_view materialization
                    (if bool_decide (is_Some stage) then materialize_committed else inspect_complete)
              end
          end
      end
  end.

(** [execute_ready_archive]; the fuel bounds the depth of the staged tree. *)
Definition execute_ready_archive (depth : nat) (initial_materialization : MaterializationMeta) :
    M W Outcome unit :=
  let validation :=
    let* _ := validate_ready_source_identity (ra_snapshots ready) (ra_ir ready) (ra_source_digest ready) in
    validate_ready_archive (ra_snapshots ready) (ra_transforms ready) (ra_ir ready) (ra_payloads ready) in
  match validation with
  | None => spent
  | Some (Err finding) => stop_ready finding initial_materialization
  | Some (Ok _) => execute_checked depth initial_materialization
  end.
End Execute.
