(* ===== verification/ExecuteSafe.v ===== *)
(** * What an outcome of an executed archive guarantees ([apply.rs])

    An outcome that carries a verified archive, and so every allowed one, comes
    from a run in which the last checks passed and every member, in order, was
    streamed from the recorded range and measured; what was captured on the
    way is the measured content.  Without a destination the file system is
    never touched; with one, an allowed outcome means that the archive's tree
    stands under the destination's name. *)

From S2P Require Import Prelude Utf8 Paths Sort Findings Quota Interval Snapshot Streams Transforms Ir Evidence IdentityRoots Policy Jail Verification Outcome FileSystem Materialize MaterializeSafe Publication Retention RetentionSafe CoveringPax CoveringTar Composite CompositeSafe Receipt Profiles Execute TarWrite TarRefine MemFs.
Local Open Scope Z_scope.
Local Open Scope rust_scope.

(** ** What verification adds to a member *)

(** The bytes come from the range a plan names: whatever content the plan's own
    domain stands for, they are what the plan's codec makes of that range of
    it. *)
Definition streamed_from `{!Sha256, !Inflate} (set : SnapshotSet) (payload : PayloadPlan) (bytes : list byte) : Prop :=
  let r := dr_range (pp_source payload) in
  exists snapshot, domain set (dr_domain (pp_source payload)) = Some snapshot
    /\ offset r + len r <= src_len snapshot
    /\ forall content, represents snapshot content -> 0 <= offset r -> 0 <= len r ->
         decoded_from payload (range (offset r) (len r) content) bytes.

(** The content a member was measured on: nothing for a directory. *)
Definition verified_as `{!Sha256, !Crc32, !Inflate} (set : SnapshotSet) (payload : PayloadPlan)
    (m m' : IrMember) (bytes : list byte) : Prop :=
  match ir_kind m with
  | KindDirectory => m' = mark_directory_verified m /\ bytes = []
  | KindFile =>
      m' = mark_file_verified m (Z.of_nat (length bytes)) (crc32 bytes) (digest_hex (sha256 bytes))
      /\ Z.of_nat (length bytes) = pp_uncompressed_size payload /\ integrity_holds payload bytes
      /\ streamed_from set payload bytes
  end.

(** Member by member. *)
Inductive all_verified `{!Sha256, !Crc32, !Inflate} (set : SnapshotSet) :
    list PayloadPlan -> list IrMember -> list IrMember -> list (list byte) -> Prop :=
  | all_verified_nil : all_verified set [] [] [] []
  | all_verified_cons p ps m ms m' ms' bytes contents :
      verified_as set p m m' bytes -> all_verified set ps ms ms' contents ->
      all_verified set (p :: ps) (m :: ms) (m' :: ms') (bytes :: contents).

Definition total_length (contents : list (list byte)) : Z := Z.of_nat (length (concat contents)).

(** The archive an IR plans, with its members verified. *)
Definition same_archive (ir ir' : ArchiveIR) : Prop :=
  schema ir' = schema ir /\ profile ir' = profile ir /\ profile_digest ir' = profile_digest ir
  /\ source_digest ir' = source_digest ir /\ evidence ir' = evidence ir.

(** [Write for File]: a write takes some of what it was given. *)
Definition writes_within {W D F : Type} `{!CapFs W D F} : Prop :=
  forall f bytes w w' n, file_write f bytes w = (w', Ok n) -> 0 <= n <= Z.of_nat (length bytes).

(** ** The captured bytes are the measured ones *)

Definition captured {X : Type} (st : X * option (list byte)) (out : list byte) (st' : X * option (list byte)) : Prop :=
  st'.2 = (fun capture => capture ++ out) <$> st.2.

Section Capture.
Context {W D F : Type} `{CFS : !CapFs W D F, SHA : !Sha256, CRC : !Crc32, INF : !Inflate}.
Context (Hwrite : writes_within).

Lemma retaining_write_all_took fuel file (st st' : W * option (list byte)) bytes :
  (length bytes <= fuel)%nat -> retaining_write_all fuel file st bytes = (st', Ok ()) -> captured st bytes st'.
Proof using Hwrite.
  revert st bytes. induction fuel as [|fuel IH]; intros st bytes Hl Hw.
  - destruct bytes; [|simpl in Hl; lia]. simpl in Hw. injection Hw as <-. unfold captured.
    destruct st as [w [c|]]; simpl; [by rewrite app_nil_r|done].
  - destruct bytes as [|b bytes].
    { simpl in Hw. injection Hw as <-. unfold captured. destruct st as [w [c|]]; simpl; [by rewrite app_nil_r|done]. }
    cbn [retaining_write_all] in Hw. unfold retaining_write in Hw.
    destruct (file_write file (b :: bytes) st.1) as [w [n|e]] eqn:Hf; [|done]. apply Hwrite in Hf.
    destruct (Z.eqb_spec n 0) as [|Hn]; [done|].
    apply IH in Hw; [|rewrite length_drop; simpl in *; lia].
    unfold captured in *. rewrite Hw. destruct st as [w0 [c|]]; simpl; [|done].
    by rewrite <- app_assoc, take_drop.
Qed.

Lemma retaining_takes file : @takes _ (retaining_writer file) (captured (X:=W)).
Proof using Hwrite.
  split.
  - intros [w [c|]]; unfold captured; simpl; [by rewrite app_nil_r|done].
  - intros w done_ w1 bytes w2 Ht Hw. cbn in Hw. apply retaining_write_all_took in Hw; [|done].
    unfold captured in *. rewrite Hw, Ht. destruct w as [w0 [c|]]; simpl; [by rewrite app_assoc|done].
Qed.
End Capture.

(** ** One member *)

Section Members.
Context {W D F : Type} `{CFS : !CapFs W D F, SHA : !Sha256, CRC : !Crc32, INF : !Inflate, ALLOC : !Allocator}.
Context `{DBG : !DebugStr, RET : !RetentionCodec}.
Local Abbreviation Mat := (CapabilityMaterializer D).
Context (Hwrite : writes_within) (ready : ReadyArchive).

(** What a member's run measured: the bytes the reader delivered, decoded, and
    all of them captured. *)
Definition measured (payload : PayloadPlan) (snapshot : SourceSnapshot) (r : RangeReader)
    (capture capture' : option (list byte)) (res : Z * Z * list byte) (bytes : list byte) : Prop :=
  res = (Z.of_nat (length bytes), crc32 bytes, sha256 bytes)
  /\ Z.of_nat (length bytes) = pp_uncompressed_size payload /\ integrity_holds payload bytes
  /\ capture' = (fun c => c ++ bytes) <$> capture
  /\ forall content rest, represents snapshot content -> reader_holds content r rest ->
       decoded_from payload rest bytes.

(** Accepted by [verify_payload] over the buffered range reader. *)
Lemma payload_measured {X} `{Write X} (took : X -> list byte -> X -> Prop) payload snapshot r remaining x x' n crc sha :
  let _ := buf_reader_instance snapshot PAYLOAD_BUFFER in
  takes took ->
  verify_payload (buf_reader r) payload (ra_budget ready) remaining x = Some (Ok (x', (n, crc, sha))) ->
  exists bytes, took x bytes x' /\ forall capture,
    measured payload snapshot r capture ((fun c => c ++ bytes) <$> capture) (n, crc, sha) bytes.
Proof.
  intros buffered Hw Hv. apply (verify_payload_streamed took) in Hv as (out & Ht & -> & -> & -> & Hn & Hi & Hfrom); [|done].
  exists out. split; [done|]. intros capture. split_and!; [done..|]. intros content rest Hrep Hh.
  apply (Hfrom (br_holds content)).
  - by apply buf_reader_holds.
  - by apply payload_fills.
  - apply payload_fills_uninterrupted.
  - exists rest. by split.
Qed.

Lemma process_payload_sound (stage : option Mat) m payload snapshot r remaining capture w w' capture' res :
  process_payload ready stage m payload snapshot r remaining capture w = (w', Some (Ok (capture', res))) ->
  exists bytes, measured payload snapshot r capture capture' res bytes.
Proof using Hwrite.
  intros Hp. unfold process_payload in Hp. cbv zeta in Hp. destruct stage as [stage|].
  - apply bind_ok in Hp as (w1 & file & _ & Hp). unfold process_member_to_file in Hp.
    destruct (@verify_payload _ _ _ _ _ _ _ _ _ _ _ _) as [[[[wx cx] [[n crc] sha]]|[[wx cx] e]]|] eqn:Hv; [|done..].
    apply (payload_measured (H:=retaining_writer file) (captured (X:=W))) in Hv as (out & Ht & Hm); [|by apply retaining_takes].
    run_ok Hp. simplify_eq. unfold captured in Ht. simpl in Ht. exists out. rewrite Ht. apply Hm.
  - destruct capture as [bytes|].
    + run_ok Hp. unfold pure_exec in Hr. destruct (verify_payload _ _ _ _ _) as [[[b [[n crc] sha]]|[b e]]|] eqn:Hv; [|done..].
      apply (payload_measured (fun (w : list byte) out w' => w' = w ++ out)) in Hv as (out & -> & Hm); [|by apply vec_takes].
      destruct a as [b' res']. simplify_eq. run_ok Hp. simplify_eq. exists out. apply (Hm (Some bytes)).
    + run_ok Hp. unfold pure_exec in Hr. destruct (verify_payload _ _ _ _ _) as [[[[] [[n crc] sha]]|[b e]]|] eqn:Hv; [|done..].
      apply (payload_measured (fun (_ : unit) _ _ => True)) in Hv as (out & _ & Hm); [|by apply sink_takes].
      destruct a as [b' res']. simplify_eq. run_ok Hp. simplify_eq. exists out. apply (Hm None).
Qed.

(** The reader of a plan stands at the start of the plan's range. *)
Lemma planned_reader_streams payload name snapshot r bytes :
  planned_payload_reader (ra_snapshots ready) payload name = Ok (snapshot, r) ->
  (forall content rest, represents snapshot content -> reader_holds content r rest -> decoded_from payload rest bytes) ->
  streamed_from (ra_snapshots ready) payload bytes.
Proof.
  unfold planned_payload_reader, set_reader. intros Hp Hfrom.
  destruct (domain _ _) as [d|] eqn:Hd; [|done]. cbn [ok_or] in Hp.
  destruct (reader d _ _) as [r'|] eqn:Hr; [|done]. simpl in Hp. simplify_eq.
  exists snapshot. split; [done|]. pose proof Hr as Hin. unfold reader in Hin.
  destruct (checked_range _ _ _) as [[]|] eqn:Hc; [|done]. apply checked_range_ok in Hc as [_ Hc]. split; [done|].
  intros content Hrep Ho Hn. apply (Hfrom content); [done|]. by eapply reader_holds_start.
Qed.

(** ** The retained bytes *)

(** Whatever a build keeps is the content of one of the members done. *)
Record kept_ok (build : RetentionBuild) (ms : list IrMember) : Prop := {
  ko_sorted : btree_sorted build;
  ko_kept : forall path bytes, btree_get build path = Some (Retained bytes) ->
    exists m, m ∈ ms /\ canonical_path m = path /\ evidence_of m bytes
}.

Lemma kept_ok_more build ms ms' : kept_ok build ms -> (forall m, m ∈ ms -> m ∈ ms') -> kept_ok build ms'.
Proof.
  intros [Hs Hk] Hin. split; [done|]. intros path bytes Hg.
  destruct (Hk _ _ Hg) as (m & Hm & Hrest). exists m. split; [by apply Hin|done].
Qed.

Lemma kept_ok_insert build ms path e :
  kept_ok build ms ->
  (forall bytes, e = Retained bytes -> exists m, m ∈ ms /\ canonical_path m = path /\ evidence_of m bytes) ->
  kept_ok (btree_insert path e build) ms.
Proof.
  intros [Hs Hk] He. split; [by apply btree_insert_sorted|]. intros p bytes Hg.
  rewrite btree_get_insert in Hg by done. case_bool_decide as Hp; [|by apply Hk].
  subst p. apply He. by injection Hg.
Qed.

Lemma begin_capture_kept build ms path :
  kept_ok build ms -> kept_ok (begin_capture build path).1 ms
  /\ ((begin_capture build path).2 = None \/ (begin_capture build path).2 = Some []).
Proof.
  intros Hk. unfold begin_capture. destruct (btree_get build path) as [[]|]; try (split; [done|by left]).
  case_match; simpl; [split; [done|by right]|]. split; [|by left]. by apply kept_ok_insert.
Qed.

Lemma finish_capture_kept build ms path capture m bytes :
  kept_ok build ms -> m ∈ ms -> canonical_path m = path -> evidence_of m bytes ->
  (capture = None \/ capture = Some bytes) -> kept_ok (finish_capture build path capture) ms.
Proof.
  intros Hk Hm Hp He [-> | ->]; [done|]. unfold finish_capture.
  destruct (btree_get build path) as [[]|]; try done. cbv zeta. apply kept_ok_insert; [done|].
  intros b Hb. exists m. case_match; [|done]. injection Hb as <-. done.
Qed.

Lemma plan_build_kept plan ir : kept_ok (plan_build plan ir) [].
Proof.
  unfold plan_build. destruct plan as [plan|]; [|by split; [constructor|]].
  assert (Hb : kept_ok [] []) by (split; [constructor|done]). revert Hb.
  generalize (Quota.new (rp_max_total_bytes plan)), ([] : RetentionBuild).
  induction (plan_paths plan) as [|path paths IH]; intros total entries Hb; [done|]. cbn [select_entries].
  destruct (select_entry _ _ _) as [total' e] eqn:He. apply IH, kept_ok_insert; [done|].
  intros bytes ->. unfold select_entry in He. by repeat case_match.
Qed.

(** ** The loop *)

(** One iteration: the member at [index] is verified as [bytes]. *)
Record member_step (payload : PayloadPlan) (index : nat) (m : IrMember) (st st' : Executing) (m' : IrMember)
    (bytes : list byte) : Prop := {
  ms_verified : verified_as (ra_snapshots ready) payload m m' bytes;
  ms_ir : ex_ir st' = set_member (ex_ir st) index m';
  ms_kept : forall ms, kept_ok (ex_retention st) ms -> kept_ok (ex_retention st') (ms ++ [m']);
  ms_used : used (ex_actual_total st') = used (ex_actual_total st) + Z.of_nat (length bytes);
  ms_limit : limit (ex_actual_total st') = limit (ex_actual_total st);
  ms_within : used (ex_actual_total st) <= limit (ex_actual_total st) ->
    used (ex_actual_total st') <= limit (ex_actual_total st')
}.

Lemma verified_keeps set payload m m' bytes :
  verified_as set payload m m' bytes -> is_verified m' = true /\ canonical_path m' = canonical_path m
  /\ ir_kind m' = ir_kind m /\ ir_components m' = ir_components m.
Proof. unfold verified_as. destruct (ir_kind m) eqn:Hk; intros [-> _]; by repeat split. Qed.

Lemma execute_directory_sound (stage : option Mat) index m payload st w w' st' :
  ir_kind m = KindDirectory -> execute_directory stage index m st w = (w', Some (Ok st')) ->
  member_step payload index m st st' (mark_directory_verified m) [].
Proof.
  intros Hk He. unfold execute_directory in He. apply bind_ok in He as (w1 & [] & _ & He). run_ok He.
  split; simpl.
  - unfold verified_as. by rewrite Hk.
  - done.
  - intros ms Hb. eapply kept_ok_more; [exact Hb|]. intros x Hx. apply elem_of_app. by left.
  - simpl. lia.
  - done.
  - done.
Qed.

Lemma execute_file_sound (stage : option Mat) index m payload st w w' st' :
  ir_kind m = KindFile -> execute_file ready stage index m payload st w = (w', Some (Ok st')) ->
  exists m' bytes, member_step payload index m st st' m' bytes.
Proof using Hwrite.
  intros Hk He. unfold execute_file in He. destruct (begin_capture _ _) as [build capture] eqn:Hb. cbv zeta in He.
  apply bind_ok in He as (w1 & [snapshot r] & Hrd & He). apply bind_ok in He as (w2 & remaining & _ & He).
  assert (planned_payload_reader (ra_snapshots ready) payload (decoded_name m) = Ok (snapshot, r)) as Hplanned
    by (apply pure_result_ok in Hrd as [_ Hrd]; by destruct (planned_payload_reader _ _ _); simplify_eq/=).
  apply bind_ok in He as (w3 & [capture' [[n crc] sha]] & Hp & He). apply on_err_ok in Hp.
  apply (process_payload_sound stage) in Hp as (bytes & [= -> -> ->] & Hn & Hi & -> & Hfrom).
  apply (planned_reader_streams _ _ _ _ bytes) in Hplanned; [|done].
  cbn [ex_actual_total with_build] in He.
  destruct (consume (ex_actual_total st) _) as [total [t|e]] eqn:Hc; [|done]. run_ok He.
  unfold consume in Hc. destruct (u64_checked_add _ _) as [next|] eqn:Hadd; [|done].
  apply u64_checked_add_Some in Hadd as [-> _].
  destruct (Z.ltb_spec (limit (ex_actual_total st)) (used (ex_actual_total st) + Z.of_nat (length bytes)));
    [done|]. injection Hc as <- _.
  exists (mark_file_verified m (Z.of_nat (length bytes)) (crc32 bytes) (digest_hex (sha256 bytes))), bytes.
  split; simpl; [|done| |done|done|done].
  - unfold verified_as. by rewrite Hk.
  - intros ms Hko. pose proof (begin_capture_kept _ _ (canonical_path m) Hko) as [Hko' Hcap].
    rewrite Hb in Hko', Hcap. simpl in *.
    eapply (finish_capture_kept _ _ _ _ (mark_file_verified m _ _ _) bytes).
    + eapply kept_ok_more; [exact Hko'|]. intros x Hx. apply elem_of_app. by left.
    + apply elem_of_app. right. apply list_elem_of_singleton. reflexivity.
    + done.
    + by split_and!.
    + destruct Hcap as [-> | ->]; [by left|by right].
Qed.

Lemma set_member_split ir index m m' :
  members ir !! index = Some m ->
  take (S index) (members (set_member ir index m')) = take index (members ir) ++ [m']
  /\ drop (S index) (members (set_member ir index m')) = drop (S index) (members ir)
  /\ length (members (set_member ir index m')) = length (members ir) /\ same_archive ir (set_member ir index m').
Proof.
  intros Hm. pose proof (lookup_lt_Some _ _ _ Hm) as Hlt. simpl. split_and!.
  - erewrite take_S_r by (by apply list_lookup_insert_eq). by rewrite take_insert_ge by lia.
  - by rewrite drop_insert_lt by lia.
  - by rewrite length_insert.
  - by repeat split.
Qed.

Lemma execute_members_sound (stage : option Mat) payloads index st w w' st' :
  execute_members ready stage index payloads st w = (w', Some (Ok st')) ->
  (index + length payloads)%nat = length (members (ex_ir st)) ->
  kept_ok (ex_retention st) (take index (members (ex_ir st))) ->
  used (ex_actual_total st) <= limit (ex_actual_total st) ->
  exists ms' contents,
    members (ex_ir st') = take index (members (ex_ir st)) ++ ms'
    /\ all_verified (ra_snapshots ready) payloads (drop index (members (ex_ir st))) ms' contents
    /\ same_archive (ex_ir st) (ex_ir st') /\ kept_ok (ex_retention st') (members (ex_ir st'))
    /\ used (ex_actual_total st') = used (ex_actual_total st) + total_length contents
    /\ used (ex_actual_total st') <= limit (ex_actual_total st).
Proof using Hwrite.
  revert index st w. induction payloads as [|p payloads IH]; intros index st w He Hl Hk Hu; cbn [execute_members] in He.
  - run_ok He. simpl in Hl. exists [], []. rewrite take_ge, drop_ge, app_nil_r in * by lia.
    split_and!; [done|constructor|by repeat split|done|unfold total_length; simpl; lia|done].
  - destruct (members (ex_ir st) !! index) as [m|] eqn:Hm; [|done]. apply bind_ok in He as (w1 & st1 & Hs & He).
    assert (exists m' bytes, member_step p index m st st1 m' bytes) as (m' & bytes & [Hv Hir Hkept Hused Hlim Hwi]).
    { destruct (ir_kind m) eqn:Hkind; [by eapply execute_file_sound|].
      do 2 eexists. by eapply execute_directory_sound. }
    destruct (set_member_split _ _ _ m' Hm) as (Ht & Hd & Hlen & Hsame). rewrite <- Hir in Ht, Hd, Hlen, Hsame.
    apply IH in He as (ms' & contents & Hms & Hall & Hsame' & Hk' & Hu' & Hlim').
    + exists (m' :: ms'), (bytes :: contents). split_and!.
      * by rewrite Hms, Ht, <- app_assoc.
      * rewrite (drop_S _ _ _ Hm). constructor; [done|]. by rewrite <- Hd.
      * destruct Hsame as (?&?&?&?&?), Hsame' as (?&?&?&?&?). split_and!; congruence.
      * done.
      * rewrite Hu', Hused. unfold total_length. cbn [concat]. rewrite length_app. lia.
      * by rewrite <- Hlim.
    + rewrite Hlen, <- Hl. simpl. lia.
    + rewrite Ht. by apply Hkept.
    + by apply Hwi.
Qed.
End Members.

(** ** The authority *)

Lemma repeats_path_nodup ms index seen :
  btree_sorted seen -> repeats_path ms index seen = false ->
  NoDup (map canonical_path ms) /\ forall m, m ∈ ms -> btree_get seen (canonical_path m) = None.
Proof.
  revert index seen. induction ms as [|m ms IH]; intros index seen Hs Hr.
  - split; [constructor|]. intros m Hm. by apply elem_of_nil in Hm.
  - cbn [repeats_path] in Hr. apply orb_false_iff in Hr as [Hc Hr].
    assert (btree_get seen (canonical_path m) = None) as Hnone.
    { unfold contains_key in Hc. apply bool_decide_eq_false in Hc. by apply eq_None_not_Some. }
    apply IH in Hr as [Hnd Hfresh]; [|by apply btree_insert_sorted]. split.
    + cbn [map]. constructor; [|done]. intros Hin. apply list_elem_of_In, in_map_iff in Hin as (x & Hx & Hin).
      apply list_elem_of_In, Hfresh in Hin. by rewrite Hx, btree_get_insert, bool_decide_eq_true_2 in Hin by done.
    + intros x [-> |Hx]%elem_of_cons; [done|]. apply Hfresh in Hx.
      rewrite btree_get_insert in Hx by done. by case_bool_decide.
Qed.

Lemma authority_sound ir :
  validate_verified_archive_authority ir = Ok () ->
  Forall (fun m => is_verified m = true) (members ir) /\ NoDup (map canonical_path (members ir)).
Proof.
  unfold validate_verified_archive_authority. intros Hv. case_match eqn:Hver; [done|]. case_match eqn:Hrep; [done|].
  split; [|by apply (repeats_path_nodup _ 0 []); [constructor|]].
  apply Forall_forall. intros m Hm. apply not_true_iff_false in Hver. apply not_false_iff_true. intros Hf.
  apply Hver, existsb_exists. exists m. split; [by apply list_elem_of_In|by rewrite Hf].
Qed.

Lemma archive_reads_ok `{!Sha256, !Crc32} set ir payloads budget build :
  validate_verified_archive_authority ir = Ok () -> kept_ok build (members ir) ->
  reads_ok (new_archive set ir payloads budget build).
Proof.
  intros Hv [_ Hk]. apply authority_sound in Hv as [_ Hnd]. split; [done|done|].
  intros path bytes m Hg Hm Hp. destruct (Hk _ _ Hg) as (m0 & Hm0 & Hp0 & He).
  assert (m0 = m) as <-; [|done]. by eapply (nodup_lookup canonical_path); [exact Hnd|..|congruence].
Qed.

(** ** Outcomes *)

Section Outcomes.
Context {W D F : Type} `{CFS : !CapFs W D F, SHA : !Sha256, CRC : !Crc32, INF : !Inflate, XXH : !XxHash64, ALLOC : !Allocator}.
Context `{DBG : !DebugStr, RET : !RetentionCodec, POL : !PolicyText, VC : !ViewCodec, BE : !BuildEnv}.
Context (req : Request) (options : ApplyOptions) (ready : ReadyArchive).
Local Abbreviation Mat := (CapabilityMaterializer D).

(** No archive is handed out, and the verdict is a rejection. *)
Definition refused (o : Outcome) : Prop := o_verified_archive o = None /\ o_verdict o = Rejected.

(** The archive of a run that verified every member. *)
Definition archive_of (st : Executing) : VerifiedArchive :=
  new_archive (ra_snapshots ready) (ex_ir st) (ra_payloads ready) (ra_budget ready) (ex_retention st).

Lemma or_panic_ok {A} (a : option A) (w w' : W) r : or_panic a w = (w', Some r) -> w' = w /\ exists x, a = Some x /\ r = Ok x.
Proof. unfold or_panic, pure_exec. destruct a; [|done]. intros [= -> <-]. split; [done|by eexists]. Qed.

Lemma stop_with_ir_shape ir findings mvs mm axes (w w' : W) o :
  stop_with_ir req ready ir findings mvs mm axes w = (w', Some (Ok o)) ->
  w' = w /\ o_verified_archive o = None /\ o_verdict o = compat_verdict axes.
Proof.
  intros [-> (x & Hx & [= ->])]%or_panic_ok. unfold with_ir in Hx.
  destruct (identities_from_ir _ _); [|done]. simpl in Hx. injection Hx as <-.
  unfold finished, finish, finish_with_jail, source_facts. simpl. by destruct (compat_verdict axes).
Qed.

Lemma stop_with_archive_shape st findings mvs mm axes (w w' : W) o :
  stop_with_archive req ready st (ra_payloads ready) findings mvs mm axes w = (w', Some (Ok o)) ->
  w' = w /\ o_verified_archive o = Some (archive_of st) /\ o_verdict o = compat_verdict axes
  /\ identities_from_ir (ex_ir st) (ax_verification axes) = Some (rc_identities (o_receipt o)).
Proof.
  intros [-> (x & Hx & [= ->])]%or_panic_ok. unfold with_verified_archive in Hx.
  assert (o_verification (finished req ready findings mvs mm axes) = ax_verification axes) as Hver
    by (unfold finished, finish, finish_with_jail, source_facts; by destruct (compat_verdict axes)).
  rewrite Hver in Hx. cbn [va_ir new_archive] in Hx.
  destruct (identities_from_ir _ _) as [ids|] eqn:Hids; [|done]. simpl in Hx. injection Hx as <-.
  unfold finished, finish, finish_with_jail, source_facts. simpl. by destruct (compat_verdict axes).
Qed.

Lemma structure_stop_rejects i a f : compat_verdict (structure_stop i a f) = Rejected.
Proof. by destruct a. Qed.
Lemma verification_stop_rejects v p f d : compat_verdict (admitted_verification_stop v p f d) = Rejected.
Proof. unfold admitted_verification_stop. by destruct (code f), d. Qed.

Lemma stop_ready_refused finding mm (w w' : W) o :
  stop_ready req ready finding mm w = (w', Some (Ok o)) -> refused o.
Proof.
  unfold stop_ready. cbv zeta. intros (_ & Hn & Hv)%stop_with_ir_shape. split; [done|]. rewrite Hv.
  destruct (format_is_transform_wrapped _); apply structure_stop_rejects.
Qed.

Lemma open_stage_err initial (w w' : W) o :
  open_stage req options ready initial w = (w', Some (Ok (Err o))) -> refused o.
Proof.
  unfold open_stage. destruct (req_dest req) as [dest|]; [|by intros Hr; run_ok Hr].
  intros Hr. apply bind_ok in Hr as (w1 & created & _ & Hr). destruct created as [stage|e].
  - cbv zeta in Hr. apply bind_ok in Hr as (w2 & persisted & _ & Hr). destruct persisted as [st|f]; [by run_ok Hr|].
    apply bind_ok in Hr as (w3 & [[s fs] mm] & _ & Hr). apply bind_ok in Hr as (w4 & cause & _ & Hr).
    apply bind_ok in Hr as (w5 & x & Hx & Hr). apply ret_ok in Hr as [_ [= ->]].
    by apply stop_with_ir_shape in Hx as (_ & ? & ?).
  - cbv zeta in Hr. apply bind_ok in Hr as (w4 & cause & _ & Hr).
    apply bind_ok in Hr as (w5 & x & Hx & Hr). apply ret_ok in Hr as [_ [= ->]].
    by apply stop_with_ir_shape in Hx as (_ & ? & ?).
Qed.

Lemma stop_member_refused (stage : option Mat) n mm stop (w w' : W) o :
  stop_member req ready stage n mm stop w = (w', Some (Ok o)) -> refused o.
Proof.
  unfold stop_member. cbv zeta. destruct (members _ !! _) as [m|]; [|done]. intros Hr.
  apply bind_ok in Hr as (w3 & [[s fs] mm'] & _ & Hr). apply bind_ok in Hr as (w4 & cause & _ & Hr).
  apply stop_with_ir_shape in Hr as (_ & ? & Hv). split; [done|]. by rewrite Hv, verification_stop_rejects.
Qed.

Lemma stop_authority_refused (stage : option Mat) n mm st f (w w' : W) o :
  stop_authority req ready stage n mm st f w = (w', Some (Ok o)) -> refused o.
Proof.
  unfold stop_authority. intros Hr. apply bind_ok in Hr as (w3 & [[s fs] mm'] & _ & Hr).
  by apply stop_with_ir_shape in Hr as (_ & ? & Hv).
Qed.

Lemma publish_err depth (stage : option Mat) mm st mvs (w w' : W) o :
  publish req ready depth stage mm st mvs w = (w', Some (Ok (Err o))) ->
  o_verified_archive o = Some (archive_of st) /\ o_verdict o = Rejected.
Proof.
  assert (Hstop : forall s mm f (w w' : W), stop_publication req ready s mm st mvs f w = (w', Some (Ok o)) ->
    o_verified_archive o = Some (archive_of st) /\ o_verdict o = Rejected).
  { intros s mm0 f w0 w0' Hr. unfold stop_publication in Hr. apply bind_ok in Hr as (w3 & [[s' fs] mm'] & _ & Hr).
    apply bind_ok in Hr as (w4 & cause & _ & Hr). by apply stop_with_archive_shape in Hr as (_ & ? & ? & _). }
  unfold publish. destruct stage as [stage|]; [|by intros Hr; run_ok Hr]. intros Hr.
  apply bind_ok in Hr as (w1 & [u|f] & _ & Hr).
  - apply bind_ok in Hr as (w2 & [s|[s f]] & _ & Hr).
    + destruct (late_findings s). by run_ok Hr.
    + apply bind_ok in Hr as (w3 & x & Hx & Hr). apply ret_ok in Hr as [_ [= ->]]. by eapply Hstop.
  - apply bind_ok in Hr as (w3 & x & Hx & Hr). apply ret_ok in Hr as [_ [= ->]]. by eapply Hstop.
Qed.

Definition start_executing : Executing :=
  {| ex_ir := ra_ir ready; ex_retention := plan_build (opt_retention options) (ra_ir ready); ex_members_view := [];
     ex_actual_total := Quota.new (max_total_bytes (ra_budget ready)) |}.

(** A run up to the authority over the archive. *)
Record verified_run (initial : MaterializationMeta) (stage : option Mat) (mm : MaterializationMeta)
    (st : Executing) (w w1 w2 : W) : Prop := {
  vr_source : validate_ready_source_identity (ra_snapshots ready) (ra_ir ready) (ra_source_digest ready) = Ok ();
  vr_ready : validate_ready_archive (ra_snapshots ready) (ra_transforms ready) (ra_ir ready) (ra_payloads ready)
    = Some (Ok ());
  vr_stage : open_stage req options ready initial w = (w1, Some (Ok (Ok (stage, mm))));
  vr_members : execute_members ready stage 0 (ra_payloads ready) start_executing w1 = (w2, Some (Ok st));
  vr_authority : validate_verified_archive_authority (ex_ir st) = Ok ()
}.

(** Every outcome is a refusal, a verified run whose publication failed, or a
    verified run that finished. *)
Lemma execute_run depth initial (w w' : W) o :
  execute_ready_archive req options ready depth initial w = (w', Some (Ok o)) ->
  refused o \/ exists stage mm st w1 w2 mvs published w3,
    verified_run initial stage mm st w w1 w2
    /\ publish req ready depth stage mm st mvs w2 = (w3, Some (Ok published))
    /\ match published with
       | Err o' => o = o'
       | Ok (findings, mm') =>
           stop_with_archive req ready st (ra_payloads ready) findings mvs mm'
             (if bool_decide (is_Some stage) then materialize_committed else inspect_complete) w3
           = (w', Some (Ok o))
       end.
Proof.
  intros Hx. unfold execute_ready_archive in Hx. cbv zeta in Hx.
  destruct (validate_ready_source_identity _ _ _) as [[]|f] eqn:Hsrc; [|left; by apply stop_ready_refused in Hx].
  destruct (validate_ready_archive _ _ _ _) as [[[]|f]|] eqn:Hval; [|left; by apply stop_ready_refused in Hx|done].
  unfold execute_checked in Hx. cbv zeta in Hx. apply bind_ok in Hx as (w1 & opened & Hopen & Hx).
  destruct opened as [[stage mm]|o']; [|left; apply ret_ok in Hx as [_ <-]; by apply open_stage_err in Hopen].
  apply bind_ok in Hx as (w2 & executed & Hex & Hx). apply attempt_ok in Hex.
  destruct executed as [st|stop]; [|left; by apply stop_member_refused in Hx].
  destruct (validate_verified_archive_authority _) as [[]|f] eqn:Hauth; [|left; by apply stop_authority_refused in Hx].
  apply bind_ok in Hx as (w3 & published & Hpub & Hx). right.
  eexists stage, mm, st, w1, w2, _, published, w3. split_and!; [by split|exact Hpub|].
  destruct published as [[fs mm']|o']; [done|]. by apply ret_ok in Hx as [_ <-].
Qed.

Lemma open_stage_some initial (w w' : W) stage mm :
  open_stage req options ready initial w = (w', Some (Ok (Ok (stage, mm)))) ->
  is_Some stage <-> is_Some (req_dest req).
Proof.
  unfold open_stage. destruct (req_dest req) as [dest|].
  - intros Hr. apply bind_ok in Hr as (w1 & [created|e] & _ & Hr).
    + cbv zeta in Hr. apply bind_ok in Hr as (w2 & [s|f] & _ & Hr); [by apply ret_ok in Hr as [_ [= -> _]]|].
      apply bind_ok in Hr as (w3 & [[s fs] mm'] & _ & Hr). apply bind_ok in Hr as (w4 & cause & _ & Hr).
      apply bind_ok in Hr as (w5 & x & _ & Hr). by apply ret_ok in Hr as [_ ?].
    + cbv zeta in Hr. apply bind_ok in Hr as (w4 & cause & _ & Hr). apply bind_ok in Hr as (w5 & x & _ & Hr).
      by apply ret_ok in Hr as [_ ?].
  - intros Hr. apply ret_ok in Hr as [_ [= -> _]]. split; by intros [? ?].
Qed.

(** ** The file system of an inspection *)

Lemma keeps_or_panic {A} (a : option A) : keeps (W:=W) eq (or_panic a).
Proof. apply keeps_pure_exec, _. Qed.
Hint Resolve keeps_or_panic : keeps.
Lemma keeps_stop_ir ir fs mvs mm axes : keeps (W:=W) eq (stop_with_ir req ready ir fs mvs mm axes).
Proof. apply keeps_or_panic. Qed.
Lemma keeps_stop_archive st ps fs mvs mm axes : keeps (W:=W) eq (stop_with_archive req ready st ps fs mvs mm axes).
Proof. apply keeps_or_panic. Qed.

Ltac keep_step :=
  first [ apply keeps_or_panic | apply keeps_stop_ir | apply keeps_stop_archive
        | apply (keeps_ret eq) | apply (keeps_throw eq) | apply (keeps_spent eq) | apply (keeps_pure eq)
        | apply (keeps_pure_exec eq) | apply (keeps_on_err eq) | apply (keeps_attempt eq)
        | apply (keeps_bind eq); [|intros ?] ].

Lemma keeps_members index payloads st : keeps (W:=W) eq (execute_members ready (None : option Mat) index payloads st).
Proof.
  revert index st. induction payloads as [|p payloads IH]; intros index st; cbn [execute_members]; [keep_step|].
  destruct (_ !! _) as [m|]; [|keep_step]. apply (keeps_bind eq); [|intros; apply IH].
  destruct (ir_kind m); [|unfold execute_directory; by repeat keep_step].
  unfold execute_file. destruct (begin_capture _ _) as [b c]. cbv zeta. keep_step; [keep_step|].
  case_match. keep_step; [keep_step|]. keep_step.
  - keep_step. unfold process_payload. cbv zeta. destruct c; keep_step; repeat keep_step; case_match; keep_step.
  - match goal with |- context [let (_, _) := ?x in _] => destruct x as [c' [[n crc] sha]] end.
    destruct (consume _ _) as [t [?|?]]; keep_step.
Qed.

Lemma keeps_bind_ret {A B E} (a : A) (k : A -> M W B E) : keeps (W:=W) eq (k a) -> keeps eq (bind (ret a) k).
Proof. done. Qed.

(** Without a destination nothing is called. *)
Lemma inspection_keeps depth initial :
  req_dest req = None -> keeps (W:=W) eq (execute_ready_archive req options ready depth initial).
Proof.
  intros Hn. unfold execute_ready_archive. cbv zeta.
  destruct (match validate_ready_source_identity _ _ _ with Ok _ => _ | Err _ => _ end)
    as [[[]|f]|]; [|by unfold stop_ready; cbv zeta; keep_step|keep_step].
  unfold execute_checked, open_stage. rewrite Hn. cbv zeta. apply keeps_bind_ret. keep_step.
  - keep_step. apply keeps_members.
  - match goal with |- context [match ?x with Ok _ => _ | Err _ => _ end] => destruct x as [st|stop] end.
    + destruct (validate_verified_archive_authority _) as [[]|f]; [|by unfold stop_authority; apply keeps_bind_ret; keep_step].
      apply keeps_bind_ret. keep_step.
    + unfold stop_member. cbv zeta. destruct (members _ !! _); [|keep_step].
      apply keeps_bind_ret. by repeat keep_step.
Qed.

(** ** The archive an outcome carries *)

(** The archive is the ready one with every member verified: nothing of the
    plan changed, every content was streamed from its plan's range, the
    contents fit the total cap, and what it hands out is measured content. *)
Record executed (a : VerifiedArchive) : Prop := {
  xa_source : validate_ready_source_identity (ra_snapshots ready) (ra_ir ready) (ra_source_digest ready) = Ok ();
  xa_ready : validate_ready_archive (ra_snapshots ready) (ra_transforms ready) (ra_ir ready) (ra_payloads ready)
    = Some (Ok ());
  xa_same : same_archive (ra_ir ready) (va_ir a);
  xa_snapshots : va_snapshots a = set_into_owned (ra_snapshots ready) /\ va_payloads a = ra_payloads ready
    /\ va_budget a = ra_budget ready;
  xa_members : exists contents,
    all_verified (ra_snapshots ready) (map from_ir (members (ra_ir ready))) (members (ra_ir ready)) (members (va_ir a)) contents
    /\ total_length contents <= max_total_bytes (ra_budget ready);
  xa_reads : reads_ok a
}.

Lemma verified_run_executed initial (stage : option Mat) mm st (w w1 w2 : W) :
  writes_within -> 0 <= max_total_bytes (ra_budget ready) ->
  verified_run initial stage mm st w w1 w2 -> executed (archive_of st).
Proof.
  intros Hw Hmax [Hsrc Hval _ Hex Hauth]. pose proof (validated_payloads _ _ _ _ Hval) as Hp.
  apply (execute_members_sound Hw ready stage) in Hex as (ms' & contents & Hms & Hall & Hsame & Hk & Hu & Hlim).
  - simpl in Hms, Hall, Hsame, Hu, Hlim. rewrite drop_0 in Hall. rewrite Hu in Hlim.
    split; [done|done|done|done| |by apply archive_reads_ok].
    exists contents. cbn [archive_of new_archive va_ir]. rewrite Hms, <- Hp. by split.
  - simpl. by rewrite Hp, length_map.
  - apply plan_build_kept.
  - done.
Qed.
End Outcomes.

(** ** The stage an allowed outcome was published from *)

Section Published.
Context {W D F : Type} `{HL : CapFsLaws W D F}.
Context `{SHA : !Sha256, CRC : !Crc32, INF : !Inflate, XXH : !XxHash64, ALLOC : !Allocator}.
Context `{DBG : !DebugStr, RET : !RetentionCodec, POL : !PolicyText, VC : !ViewCodec, BE : !BuildEnv}.
Context (req : Request) (options : ApplyOptions) (ready : ReadyArchive).
Local Abbreviation Mat := (CapabilityMaterializer D).

Lemma adopt_final parent root stage final atomic windows w w' m :
  adopt_stage (F:=F) parent root stage final atomic windows w = (w', Some (Ok m)) -> mz_final_name m = final.
Proof.
  intros Ha. unfold adopt_stage in Ha. apply bind_ok in Ha as (w1 & r & _ & Ha).
  destruct r; [|by apply failing_throws in Ha].
  apply bind_ok in Ha as (w2 & x & Hx & Ha). destruct x as [x|]; [|by apply failing_throws in Ha]. by run_ok Ha.
Qed.
Lemma allocate_final n parent final atomic windows w w' m :
  allocate_stage (F:=F) n parent final atomic windows w = (w', Some (Ok m)) -> mz_final_name m = final.
Proof.
  revert w. induction n as [|n IH]; intros w Ha; [done|]. simpl in Ha.
  apply bind_ok in Ha as (w1 & random & _ & Ha). apply bind_ok in Ha as (w2 & r & _ & Ha).
  destruct r as [root|[e created]]; [by eapply adopt_final|].
  destruct (negb created && _); [by apply IH in Ha|]. destruct created; [by apply failing_throws in Ha|done].
Qed.
Lemma create_final dest atomic w w' m :
  create (F:=F) dest atomic w = (w', Some (Ok m)) -> file_name dest = Some (mz_final_name m).
Proof.
  unfold create. destruct (file_name dest) as [final|]; [|done]. intros Hc.
  apply bind_ok in Hc as (w1 & p & _ & Hc). apply bind_ok in Hc as (w2 & parent & _ & Hc).
  apply bind_ok in Hc as (w3 & [] & _ & Hc). apply bind_ok in Hc as (w4 & found & _ & Hc).
  apply reject_ok in Hc as [_ Hc]. by apply allocate_final in Hc as ->.
Qed.

(** The stage a run opened is open under the destination's name. *)
Lemma open_stage_opened initial text w w' m mm :
  req_dest req = Some (path_components text) ->
  open_stage req options ready initial w = (w', Some (Ok (Ok (Some m, mm)))) ->
  exists root, opened m root /\ file_name (path_components text) = Some (mz_final_name m)
    /\ (opt_stage_retention_path options = None -> mz_retention_file m = None).
Proof.
  intros Hd Hr. unfold open_stage in Hr. rewrite Hd in Hr. apply bind_ok in Hr as (w1 & [created|e] & Hc & Hr).
  2: { cbv zeta in Hr. apply bind_ok in Hr as (w4 & cause & _ & Hr). apply bind_ok in Hr as (w5 & x & _ & Hr).
    by apply ret_ok in Hr as [_ ?]. }
  apply attempt_ok in Hc. pose proof (create_final _ _ _ _ _ Hc) as Hname.
  apply create_opened_fresh in Hc as (root & Ho & Hf). cbv zeta in Hr.
  apply bind_ok in Hr as (w2 & [s|f] & Hp & Hr).
  2: { apply bind_ok in Hr as (w3 & [[s fs] mm'] & _ & Hr). apply bind_ok in Hr as (w4 & cause & _ & Hr).
    apply bind_ok in Hr as (w5 & x & _ & Hr). by apply ret_ok in Hr as [_ ?]. }
  apply ret_ok in Hr as [_ [= -> _]]. exists root. revert Hp.
  set (stage := if ra_directory_sync ready then enable_directory_sync created else created).
  assert (opened stage root /\ mz_final_name stage = mz_final_name created /\ mz_retention_file stage = None)
    as (Ho' & Hn' & Hf') by (unfold stage; destruct (ra_directory_sync ready); [split; [by apply sync_opened|done]|done]).
  destruct (opt_stage_retention_path options) as [path|]; intros Hp.
  - apply attempt_ok in Hp. pose proof (persist_opened _ _ _ _ _ _ Ho' Hp) as Hs. split_and!; [done| |done].
    rewrite Hname, <- Hn'. f_equal. unfold persist_stage_retention, or_finding in Hp. by run_ok Hp.
  - run_ok Hp. injection Hp as ->. split_and!; [done|by rewrite Hn'|done].
Qed.

Lemma verified_components set payloads ms ms' contents :
  all_verified set payloads ms ms' contents -> Forall2 (fun m m' => ir_components m' = ir_components m) ms ms'.
Proof. induction 1; constructor; [|done]. by apply (verified_keeps set p m m' bytes). Qed.

Lemma executed_plain a : components_plain (ra_ir ready) -> executed ready a -> components_plain (va_ir a).
Proof.
  intros Hp [_ _ _ _ (contents & Hall & _) _]. apply verified_components in Hall. unfold components_plain in *.
  revert Hp. induction Hall as [|m m' ms ms' Hc _ IH]; intros Hp; [constructor|].
  apply Forall_cons in Hp as [? ?]. constructor; [by rewrite Hc|by apply IH].
Qed.

(** C3: An outcome hands out a verified archive only after the whole run: the last
    checks passed, and every file member was streamed from the range its plan
    records, in the domain its plan records.  That range lies in the domain,
    and whatever content the domain stands for, a raw member's bytes are
    exactly that range of it, and a deflated member's are what the decoder
    made, up to the end it reported, of exactly the declared compressed bytes
    at the start of that range; no other codec gets here.  Those bytes have
    the declared size and any recorded checksum, and the member carries their
    size, CRC-32 and SHA-256.  All contents together fit the total cap, and
    whatever the archive releases later is measured content.  An allowed
    outcome carries such an archive and the identities recomputed from it, and
    says that something was written exactly when a destination was asked for.
    Without a destination the file system is untouched. *)
Theorem outcome_authority_is_earned depth initial (w w' : W) o :
  writes_within -> 0 <= max_total_bytes (ra_budget ready) ->
  execute_ready_archive req options ready depth initial w = (w', Some (Ok o)) ->
  (forall a, o_verified_archive o = Some a -> executed ready a) /\
  (forall wrote, o_verdict o = Allowed wrote ->
     (wrote = true <-> is_Some (req_dest req)) /\ exists a, o_verified_archive o = Some a
       /\ identities_from_ir (va_ir a) Complete = Some (rc_identities (o_receipt o)))
  /\ (req_dest req = None -> w' = w).
Proof.
  intros Hw Hmax Hx. split; [|split].
  3: { intros Hn. symmetry. eapply keeps_run; [|exact Hx]. by apply inspection_keeps. }
  all: apply execute_run in Hx as [[Hn Hv]|(stage & mm & st & w1 & w2 & mvs & published & w3 & Hrun & Hpub & Hend)].
  1,3: by intros; congruence.
  all: pose proof (verified_run_executed _ _ _ _ _ _ _ _ _ _ Hw Hmax Hrun) as Hex.
  - intros a Ha. destruct published as [[fs mm']|o'].
    + apply stop_with_archive_shape in Hend as (_ & Ha' & _). by simplify_eq.
    + subst o'. apply publish_err in Hpub as [Ha' _]. by simplify_eq.
  - intros wrote Hv. destruct published as [[fs mm']|o'].
    + apply stop_with_archive_shape in Hend as (_ & Ha & Hv' & Hids).
      destruct Hrun as [_ _ Hopen _ _]. apply open_stage_some in Hopen. rewrite Hv' in Hv.
      rewrite <- Hopen.
      case_bool_decide as Hs; injection Hv as <-; (split; [by split|by eexists]).
    + subst o'. apply publish_err in Hpub as [_ Hr]. congruence.
Qed.

(** C4: An allowed outcome with a destination means that the tree is there: under
    the destination's file name, which was free, stands the directory the run
    staged, holding exactly the members of the verified archive with their
    measured contents, and nothing but the parent directory changed in the
    publication (the stage's retention record is removed after it, when one
    was asked for). *)
Theorem allowed_outcome_is_published text depth initial (w w' : W) o wrote :
  writes_within -> 0 <= max_total_bytes (ra_budget ready) -> components_plain (ra_ir ready) ->
  req_dest req = Some (path_components text) ->
  execute_ready_archive req options ready depth initial w = (w', Some (Ok o)) ->
  o_verdict o = Allowed wrote ->
  exists a m root before after,
    o_verified_archive o = Some a /\ executed ready a
    /\ file_name (path_components text) = Some (mz_final_name m)
    /\ mz_root m = Some root /\ published m root (va_ir a) before after
    /\ (opt_stage_retention_path options = None -> w' = after).
Proof.
  intros Hw Hmax Hplain Hd Hx Hv.
  apply execute_run in Hx as [[_ Hr]|(stage & mm & st & w1 & w2 & mvs & published & w3 & Hrun & Hpub & Hend)];
    [congruence|].
  pose proof (verified_run_executed _ _ _ _ _ _ _ _ _ _ Hw Hmax Hrun) as Hex.
  destruct published as [[fs mm']|o']; [|subst o'; apply publish_err in Hpub as [_ Hr]; congruence].
  apply stop_with_archive_shape in Hend as (-> & Ha & _ & _). destruct Hrun as [_ _ Hopen _ _].
  destruct stage as [m|].
  2: { apply open_stage_some in Hopen. rewrite Hd in Hopen. destruct (proj2 Hopen) as [? ?]; [by eexists|done]. }
  apply (open_stage_opened _ _ _ _ _ _ Hd) in Hopen as (root & [Hroot Hs Hf _ _ _] & Hname & Hnone).
  unfold publish in Hpub. apply bind_ok in Hpub as (w4 & [u|f] & Haud & Hpub).
  2: { by apply bind_ok in Hpub as (w5 & x & _ & [_ ?]%ret_ok). }
  apply bind_ok in Hpub as (w5 & [s|[s f]] & Hcom & Hpub).
  2: { by apply bind_ok in Hpub as (w6 & x & _ & [_ ?]%ret_ok). }
  apply attempt_ok in Haud, Hcom. destruct u.
  pose proof (executed_plain _ Hplain Hex) as Hplain'. cbn [archive_of new_archive va_ir] in Hplain'.
  destruct (publish_audited depth depth m root _ _ _ _ _ Hroot Hs Hf Hplain' Haud Hcom) as (_ & _ & _ & after & Hp & Hafter).
  exists (archive_of ready st), m, root, w2, after. split_and!; try done.
  intros Hno. destruct (late_findings s). apply ret_ok in Hpub as [-> _].
  destruct Hafter as [|(p & r & Hp' & _)]; [done|]. by rewrite Hnone in Hp'.
Qed.
End Published.

(** ** An archive of one file, inspected and published *)

Definition plain_policy_text : PolicyText := {| fmt_debug s := s; policy_json _ := [] |}.
Definition plain_view_codec : ViewCodec := fun _ => [].
Definition plain_build : BuildEnv := {| cargo_pkg_version := "0"; consts_os := "linux"; consts_arch := "x86_64" |}.

Definition ready_tar : ReadyArchive :=
  let ir := canonical_ir (digest canonical_snapshot) in
  {| ra_snapshots := from_original canonical_snapshot; ra_transforms := empty_graph; ra_ir := ir;
     ra_payloads := map from_ir (members ir); ra_findings := []; ra_budget := open_budget;
     ra_member_sync := true; ra_directory_sync := true; ra_source_digest := digest canonical_snapshot;
     ra_identities_base := unavailable_for_named DigestUnavailable "sealr.profile.tar.ustar-portable.v1" [];
     ra_magic := "tar" |}.
Definition request_to (dest : option UnixPath) : Request := 
  {| req_source := SourceBytes None canonical_fuzz_archive; req_policy := default_v1; req_dest := dest |}.
Definition capturing : ApplyOptions :=
  {| opt_retention := Some {| rp_paths := [(lit "file.txt", ())]; rp_path_bytes := 8; rp_max_member_bytes := 10;
                              rp_max_total_bytes := 10 |};
     opt_selection := SelectTarUstar UstarPortableV1; opt_stage_retention_path := None |}.
Definition run_ready (dest : option UnixPath) : MemWorld -> MemWorld * exec Outcome unit :=
  @execute_ready_archive MemWorld Ident MemFile mem_fs null_sha256 length_crc literal_inflate zero_xxhash64
    always_reserves quoted opaque_codec plain_policy_text plain_view_codec plain_build
    (request_to dest) capturing ready_tar 3 (not_started (bool_decide (is_Some dest)) DirectorySync).
Definition out_path : UnixPath := path_components (lit "/out").
Definition run_world (dest : option UnixPath) : MemWorld := (run_ready dest (empty_disk 0 false)).1.
Definition run_verdict (dest : option UnixPath) : option (Verdict * option (list byte)) :=
  match (run_ready dest (empty_disk 0 false)).2 with
  | Some (Ok o) => Some (o_verdict o, o_verified_archive o ≫= (fun a => retained_member a (lit "file.txt")))
  | _ => None
  end.

Lemma mem_writes_within : @writes_within MemWorld Ident MemFile mem_fs.
Proof.
  intros f bytes w w' n Hw. cbn in Hw. destruct (mw_nodes w !! f.1) as [[]|]; simplify_eq; lia.
Qed.

Lemma run_ready_outcome dest v c :
  run_verdict dest = Some (v, c) -> exists o, run_ready dest (empty_disk 0 false) = (run_world dest, Some (Ok o))
    /\ o_verdict o = v /\ (o_verified_archive o ≫= (fun a => retained_member a (lit "file.txt"))) = c.
Proof.
  unfold run_verdict, run_world. destruct (run_ready dest (empty_disk 0 false)) as [w [[o|e]|]]; simpl; [|done..].
  intros [= <- <-]. by exists o.
Qed.

Lemma ready_tar_plain : components_plain (ra_ir ready_tar).
Proof.
  assert (map ir_components (members (ra_ir ready_tar)) = [[lit "file.txt"]]) as Hc by (vm_compute; reflexivity).
  unfold components_plain. apply Forall_forall. intros m Hm.
  apply list_elem_of_In, (in_map ir_components) in Hm. rewrite Hc in Hm. destruct Hm as [<-|[]].
  constructor; [vm_compute; reflexivity|constructor].
Qed.

(** Its one member can only have been streamed from byte 512. *)
Lemma ready_tar_streamed ms' contents :
  @all_verified null_sha256 length_crc literal_inflate (ra_snapshots ready_tar)
    (map from_ir (members (ra_ir ready_tar))) (members (ra_ir ready_tar)) ms' contents ->
  contents = [range 512 1 canonical_fuzz_archive].
Proof.
  assert (map from_ir (members (ra_ir ready_tar)) = [raw_payload (original_range (mkrange 512 1)) 1]) as ->
    by (vm_compute; reflexivity).
  assert (map ir_kind (members (ra_ir ready_tar)) = [KindFile]) as Hk by (vm_compute; reflexivity).
  revert Hk. generalize (members (ra_ir ready_tar)). intros ms Hk Hall.
  inversion Hall as [|? ? m ? ? ? bytes rest Hv Hnil]; subst. inversion Hnil; subst. f_equal.
  unfold verified_as in Hv. injection Hk as Hk. rewrite Hk in Hv. destruct Hv as (_ & _ & _ & snapshot & Hd & _ & Hs).
  injection Hd as <-. apply (Hs canonical_fuzz_archive); [|done..].
  apply reliable_represents, borrowed_reliable. vm_compute. discriminate.
Qed.

(** An inspection verifies the file, streams and keeps its one byte and touches
    nothing. *)
Lemma outcome_authority_is_earned_witness :
  exists o a, run_ready None (empty_disk 0 false) = (run_world None, Some (Ok o)) /\ o_verdict o = Allowed false
  /\ o_verified_archive o = Some a /\ retained_member a (lit "file.txt") = Some (lit "x")
  /\ run_world None = empty_disk 0 false
  /\ @all_verified null_sha256 length_crc literal_inflate (ra_snapshots ready_tar)
       (map from_ir (members (ra_ir ready_tar))) (members (ra_ir ready_tar)) (members (va_ir a))
       [range 512 1 canonical_fuzz_archive].
Proof.
  destruct (run_ready_outcome None (Allowed false) (Some (lit "x"))) as (o & Hr & Hv & Hc); [vm_compute; reflexivity|].
  destruct (@outcome_authority_is_earned MemWorld Ident MemFile mem_fs null_sha256 length_crc literal_inflate
    zero_xxhash64 always_reserves quoted opaque_codec plain_policy_text plain_view_codec plain_build
    (request_to None) capturing ready_tar 3 (not_started false DirectorySync) (empty_disk 0 false) (run_world None) o)
    as (Hx & Ha & Hw); [exact mem_writes_within|vm_compute; discriminate|exact Hr|].
  destruct (Ha false Hv) as (_ & a & Hoa & _). exists o, a. rewrite Hoa in Hc.
  split; [exact Hr|]. split; [exact Hv|]. split; [exact Hoa|]. split; [exact Hc|]. split; [apply Hw; reflexivity|].
  destruct (xa_members _ _ (Hx a Hoa)) as (contents & Hall & _).
  pose proof (ready_tar_streamed _ _ Hall) as Hcontents. rewrite Hcontents in Hall. exact Hall.
Defined.

(** With a destination the file stands below it afterwards. *)
Lemma allowed_outcome_is_published_witness :
  let _ := null_sha256 in
  exists a (m : CapabilityMaterializer Ident) (root : Ident) before, mz_final_name m = lit "out"
  /\ published (F:=MemFile) m root (va_ir a) before (run_world (Some out_path))
  /\ resolve (store (D:=Ident) (F:=MemFile) (run_world (Some out_path))) mem_root [lit "out"; lit "file.txt"] <> None.
Proof.
  destruct (run_ready_outcome (Some out_path) (Allowed true) (Some (lit "x"))) as (o & Hr & Hv & _); [vm_compute; reflexivity|].
  destruct (@allowed_outcome_is_published MemWorld Ident MemFile mem_fs mem_laws null_sha256 length_crc literal_inflate
    zero_xxhash64 always_reserves quoted opaque_codec plain_policy_text plain_view_codec plain_build
    (request_to (Some out_path)) capturing ready_tar (lit "/out") 3 (not_started true DirectorySync) (empty_disk 0 false)
    (run_world (Some out_path)) o true) as (a & m & root & before & after & _ & _ & Hn & _ & Hp & Hw).
  - exact mem_writes_within.
  - vm_compute. discriminate.
  - exact ready_tar_plain.
  - reflexivity.
  - exact Hr.
  - exact Hv.
  - exists a, m, root, before. split; [vm_compute in Hn; injection Hn as Hn; symmetry; exact Hn|].
    rewrite (Hw eq_refl). split; [exact Hp|]. rewrite <- (Hw eq_refl). vm_compute. discriminate.
Defined.
