(* ===== verification/ExecuteLive.v ===== *)
(** * A well-planned raw TAR archive is always allowed ([apply.rs])

    The other direction of [ExecuteSafe]: when the source returns its bytes, an
    inspection of a raw TAR archive whose plan names ranges of the source and
    respects the caps runs to the end and is allowed, with every member
    measured on its range. *)

From S2P Require Import Prelude Utf8 Paths Sort Findings Quota Interval Snapshot Streams Transforms Ir Evidence Identity IdentityTar Policy Jail Verification Outcome FileSystem Materialize Retention RetentionSafe CoveringPax Composite CompositeSafe Receipt Execute ExecuteSafe TarWrite TarRefine MemFs Publication.
Local Open Scope Z_scope.
Local Open Scope rust_scope.

(** ** Encoders that do not panic *)

Definition no_panic {A} (r : result A Stop) : Prop := r <> Err Panic.

Lemma no_panic_bind {A B} (r : result A Stop) (k : A -> result B Stop) :
  no_panic r -> (forall a, no_panic (k a)) -> no_panic (match r with Ok a => k a | Err e => Err e end).
Proof. destruct r as [a|[]]; unfold no_panic; auto. Qed.
Lemma no_panic_some {A} (o : option A) : no_panic (some o).
Proof. by destruct o. Qed.
Lemma no_panic_ok {A} (a : A) : no_panic (Ok a).
Proof. done. Qed.
Lemma no_panic_none {A} : no_panic (A:=A) (Err NoneReturned).
Proof. done. Qed.
Lemma no_panic_each {A} (encode : A -> result (list byte) Stop) l :
  (forall x, no_panic (encode x)) -> no_panic (encode_each encode l).
Proof.
  intros He. induction l as [|x l IH]; [done|]. simpl. apply no_panic_bind; [done|]. intros b.
  by apply no_panic_bind.
Qed.

Create HintDb no_panic.
#[export] Hint Resolve no_panic_some no_panic_ok no_panic_none : no_panic.
Ltac calm := repeat first [ solve [auto with no_panic] | apply no_panic_bind; [|intros ?] | case_decide ].

Lemma no_panic_tar_evidence e : no_panic (encode_tar_evidence e).
Proof. unfold encode_tar_evidence. calm. Qed.
#[export] Hint Resolve no_panic_tar_evidence : no_panic.

(** The raw TAR dialects. *)
Definition raw_tar (f : ArchiveFormat) : Prop := f = TarUstar \/ f = FormatTarPax \/ f = FormatTarGnuLongName.

Lemma layout_no_panic ir :
  raw_tar (format ir) -> Z.of_nat (length (members ir)) <= u32_max -> no_panic (layout_bytes ir).
Proof.
  intros Hf Hn. unfold layout_bytes. destruct Hf as [Hf|[Hf|Hf]]; rewrite Hf.
  - unfold encode_tar_layout, tar_layout_body. case_decide; [|calm]. apply no_panic_bind; [|calm].
    apply no_panic_bind; [calm|intros c]. apply no_panic_bind.
    + unfold sorted_members, u32_len. rewrite length_sort_by. by rewrite (proj2 (Z.leb_le _ _) Hn).
    + intros n. apply no_panic_bind; [|calm]. apply no_panic_each. intros m. unfold encode_tar_member. calm.
  - unfold encode_tar_pax_layout, tar_pax_layout_body. case_decide; [|calm].
    apply no_panic_bind; [|calm]. repeat (apply no_panic_bind; [first [calm|idtac]|intros ?]); [| |calm].
    + apply no_panic_each. intros x. unfold encode_pax_extension. calm.
    + apply no_panic_each. intros m. unfold encode_pax_member, encode_actions_checked. calm.
  - unfold encode_tar_gnu_longname_layout, tar_gnu_longname_layout_body. case_decide; [|calm].
    apply no_panic_bind; [|calm]. repeat (apply no_panic_bind; [first [calm|idtac]|intros ?]); [| |calm].
    + apply no_panic_each. intros x. unfold encode_gnu_carrier. calm.
    + apply no_panic_each. intros m. unfold encode_gnu_member, encode_actions_checked. calm.
Qed.

Lemma identities_exist `{!Sha256} ir v :
  raw_tar (format ir) -> Z.of_nat (length (members ir)) <= u32_max -> is_Some (identities_from_ir ir v).
Proof.
  intros Hf Hn. pose proof (layout_no_panic ir Hf Hn) as Hl. unfold identities_from_ir, layout_root.
  destruct (layout_bytes ir) as [b|[]]; [| |done]; simpl.
  all: assert (is_Some (content_root ir)) as [c Hc]
    by (unfold content_root; case_match; [|by eexists]; unfold encode_content, u32_len, sorted_members;
        rewrite length_sort_by, (proj2 (Z.leb_le _ _) Hn); by eexists).
  all: by case_match; simpl; rewrite ?Hc; eexists.
Qed.

(** ** Plans that respect the source and the caps *)

Definition payload_range (m : IrMember) : ByteRange := dr_range (pp_source (from_ir m)).
(** The content a plan names in the source. *)
Definition planned_bytes (bs : list byte) (m : IrMember) : list byte :=
  match ir_kind m with
  | KindDirectory => []
  | KindFile => range (offset (payload_range m)) (len (payload_range m)) bs
  end.
Definition measured_on `{!Sha256, !Crc32} (bs : list byte) (m : IrMember) : IrMember :=
  match ir_kind m with
  | KindDirectory => mark_directory_verified m
  | KindFile =>
      let out := planned_bytes bs m in
      mark_file_verified m (Z.of_nat (length out)) (crc32 out) (digest_hex (sha256 out))
  end.

Record member_planned (budget : ResourceBudget) (bs : list byte) (f : ArchiveFormat) (m : IrMember) : Prop := {
  mp_format : member_format m = f;
  mp_offset : 0 <= offset (payload_range m);
  mp_len : 0 <= len (payload_range m);
  mp_inside : offset (payload_range m) + len (payload_range m) <= Z.of_nat (length bs);
  mp_size : declared_uncomp_size m = len (payload_range m);
  mp_cap : len (payload_range m) <= max_member_bytes budget;
  mp_ratio : forall r, max_ratio budget = Some r ->
    ratio_exceeds (len (payload_range m)) (len (payload_range m)) r = false
}.

Record raw_tar_planned (ready : ReadyArchive) (s : SourceSnapshot) (bs : list byte) : Prop := {
  rp_snapshots : ra_snapshots ready = from_original s;
  rp_graph : ra_transforms ready = empty_graph;
  rp_source : ra_source_digest ready = digest s /\ source_digest (ra_ir ready) = digest s;
  rp_format : raw_tar (format (ra_ir ready));
  rp_payloads : ra_payloads ready = map from_ir (members (ra_ir ready));
  rp_members : Forall (member_planned (ra_budget ready) bs (format (ra_ir ready))) (members (ra_ir ready));
  rp_total : total_length (map (planned_bytes bs) (members (ra_ir ready))) <= max_total_bytes (ra_budget ready) <= u64_max;
  rp_ratio : forall r, max_ratio (ra_budget ready) = Some r -> 0 <= r;
  rp_count : Z.of_nat (length (members (ra_ir ready))) <= u32_max;
  rp_names : NoDup (map canonical_path (members (ra_ir ready)))
}.

(** The payload plan of a member of a raw TAR dialect. *)
Lemma raw_tar_plan m : raw_tar (member_format m) ->
  exists r, from_ir m = raw_payload (original_range r) (declared_uncomp_size m) /\ payload_range m = r.
Proof.
  unfold raw_tar, member_format, payload_range, from_ir.
  destruct (ir_evidence m); intros [?|[?|?]]; try done; by eexists.
Qed.

Section Live.
Context {W D F : Type} `{CFS : !CapFs W D F, SHA : !Sha256, CRC : !Crc32, INF : !Inflate, XXH : !XxHash64, ALLOC : !Allocator}.
Context `{DBG : !DebugStr, RET : !RetentionCodec, POL : !PolicyText, VC : !ViewCodec, BE : !BuildEnv}.
Context (ready : ReadyArchive) (s : SourceSnapshot) (bs : list byte).
Context (Hs : reliable s bs) (Hplan : raw_tar_planned ready s bs).
Local Abbreviation Mat := (CapabilityMaterializer D).

Lemma raw_tar_validates :
  validate_ready_source_identity (ra_snapshots ready) (ra_ir ready) (ra_source_digest ready) = Ok ()
  /\ validate_ready_archive (ra_snapshots ready) (ra_transforms ready) (ra_ir ready) (ra_payloads ready) = Some (Ok ()).
Proof using Hplan.
  destruct Hplan as [Hsn Hg [Hsd Hid] Hf Hp Hm _ _ _ _]. split.
  - unfold validate_ready_source_identity. rewrite Hsd, Hid, Hsn. by rewrite !bool_decide_eq_true_2 by done.
  - unfold validate_ready_archive. rewrite Hid, Hsn, Hg, Hp. rewrite bool_decide_eq_true_2 by done.
    rewrite length_map, Nat.eqb_refl. cbn [negb orb].
    assert (existsb (fun pm => negb (matches_member pm.1 pm.2))
      (combine (map from_ir (members (ra_ir ready))) (members (ra_ir ready))) = false) as ->.
    { generalize (members (ra_ir ready)). intros ms. induction ms as [|m ms IH]; [done|]. simpl.
      unfold matches_member at 1. simpl. by rewrite bool_decide_eq_true_2, IH. }
    assert (existsb (fun m => negb (bool_decide (member_format m = format (ra_ir ready)))) (members (ra_ir ready)) = false) as ->.
    { clear Hp. induction Hm as [|m ms [Hfm _ _ _ _ _ _] _ IH]; [done|]. simpl. rewrite bool_decide_eq_true_2 by done. done. }
    assert (raw_topology (from_original s) empty_graph = Some (Ok ())) as Ht by done.
    by destruct Hf as [-> |[-> | ->]].
Qed.

(** One file: read, measured, and within every cap. *)
Lemma process_live m (r : RangeReader) remaining capture (w : W) :
  member_planned (ra_budget ready) bs (format (ra_ir ready)) m -> ir_kind m = KindFile ->
  reader_holds bs r (planned_bytes bs m) -> Z.of_nat (length (planned_bytes bs m)) <= remaining ->
  exists capture', process_payload ready (None : option Mat) m (from_ir m) s r remaining capture w
    = (w, Some (Ok (capture', (Z.of_nat (length (planned_bytes bs m)), crc32 (planned_bytes bs m), sha256 (planned_bytes bs m))))).
Proof using Hs Hplan.
  intros Hm Hk Hr Hrem. pose proof (reliable_represents _ _ Hs) as Hrep.
  destruct Hm as [Hf Ho Hn Hin Hsz Hcap Hrat]. destruct (raw_tar_plan m) as (pr & Hfrom & Hpr); [rewrite Hf; apply Hplan|].
  assert (Z.of_nat (length (planned_bytes bs m)) = len pr) as Hl
    by (unfold planned_bytes; rewrite Hk, length_range; rewrite <- ?Hpr; lia).
  assert (Hcaps : caps_ok (from_ir m) (ra_budget ready) remaining).
  { rewrite Hfrom. split; simpl; rewrite ?Hsz, ?Hpr in *; try lia.
    - unfold is_u64. pose proof (represents_u64 _ _ Hrep). lia.
    - intros x Hx. pose proof (rp_ratio _ _ _ Hplan x Hx). lia. }
  assert (Hwi : within (from_ir m) (ra_budget ready) remaining (Z.of_nat (length (planned_bytes bs m)))).
  { rewrite Hfrom. unfold within. simpl. rewrite Hsz, Hpr in *. split_and!; try lia.
    intros x Hx. rewrite Hl. by apply Hrat. }
  assert (Hh : br_holds bs (buf_reader r) (planned_bytes bs m)) by (exists (planned_bytes bs m); by split).
  assert (Hgo : forall {X} `{Write X} (took : X -> list byte -> X -> Prop) (x : X), takes took ->
    (forall x bytes, exists x', write_all x bytes = (x', Ok ())) ->
    exists x', @verify_payload _ _ _ _ _ (buf_reader_instance s PAYLOAD_BUFFER) _ (buf_reader r) (from_ir m)
      (ra_budget ready) remaining x
    = Some (Ok (x', (Z.of_nat (length (planned_bytes bs m)), crc32 (planned_bytes bs m), sha256 (planned_bytes bs m))))).
  { intros X HX took x Hto Hwf.
    apply (@verify_raw_complete _ _ _ _ _ (buf_reader_instance s PAYLOAD_BUFFER) _ (br_holds bs) took); try done.
    - by apply buf_reader_holds.
    - by apply buf_reader_infallible.
    - by rewrite Hfrom.
    - rewrite Hl, Hfrom. simpl. by rewrite Hsz, Hpr.
    - by rewrite Hfrom. }
  unfold process_payload. cbv zeta. destruct capture as [c|].
  - destruct (Hgo _ _ (fun (w : list byte) out w' => w' = w ++ out) c) as [x' Hx']; [apply vec_takes|by eexists|].
    eexists. unfold bind, on_err, pure_exec. by rewrite Hx'.
  - destruct (Hgo _ _ (fun (_ : unit) _ _ => True) ()) as [x' Hx']; [apply sink_takes|by eexists|].
    eexists. unfold bind, on_err, pure_exec. by rewrite Hx'.
Qed.

Lemma reader_live m :
  member_planned (ra_budget ready) bs (format (ra_ir ready)) m -> ir_kind m = KindFile ->
  exists r, planned_payload_reader (ra_snapshots ready) (from_ir m) (decoded_name m) = Ok (s, r)
    /\ reader_holds bs r (planned_bytes bs m).
Proof using Hs Hplan.
  intros [Hf Ho Hn Hin Hsz Hcap _] Hk. pose proof (reliable_represents _ _ Hs) as Hrep.
  destruct (raw_tar_plan m) as (pr & Hfrom & Hpr); [rewrite Hf; apply Hplan|].
  exists {| rr_offset := offset pr; rr_remaining := len pr |}.
  assert (reader s (offset pr) (len pr) = Ok {| rr_offset := offset pr; rr_remaining := len pr |}) as Hrd.
  { unfold reader. rewrite (proj2 (checked_range_ok _ _ _)); [done|].
    rewrite (represents_len _ _ Hrep). pose proof (represents_u64 _ _ Hrep). rewrite Hpr in *. lia. }
  split.
  - unfold planned_payload_reader, set_reader. rewrite (rp_snapshots _ _ _ Hplan), Hfrom.
    unfold raw_payload, original_range. cbn [pp_source dr_domain dr_range].
    change (domain (from_original s) ORIGINAL) with (Some s). cbn [ok_or]. by rewrite Hrd.
  - unfold planned_bytes. rewrite Hk, Hpr in *. by apply (reader_holds_start s bs).
Qed.

(** A member's share of the total. *)
Definition share (m : IrMember) : Z := Z.of_nat (length (planned_bytes bs m)).

Lemma step_live index m st (w : W) :
  member_planned (ra_budget ready) bs (format (ra_ir ready)) m ->
  0 <= used (ex_actual_total st) -> used (ex_actual_total st) + share m <= limit (ex_actual_total st) <= u64_max ->
  exists st', match ir_kind m with
      | KindDirectory => execute_directory (None : option Mat) index m st w
      | KindFile => execute_file ready (None : option Mat) index m (from_ir m) st w
      end = (w, Some (Ok st'))
    /\ ex_ir st' = set_member (ex_ir st) index (measured_on bs m)
    /\ used (ex_actual_total st') = used (ex_actual_total st) + share m
    /\ limit (ex_actual_total st') = limit (ex_actual_total st).
Proof using Hs Hplan.
  intros Hm Hu Hl. unfold share, measured_on in *. destruct (ir_kind m) eqn:Hk.
  - destruct (reader_live m Hm Hk) as (r & Hrd & Hh). unfold execute_file.
    destruct (begin_capture _ _) as [build capture]. cbv zeta.
    destruct (process_live m r (limit (ex_actual_total st) - used (ex_actual_total st)) capture w Hm Hk Hh)
      as [capture' Hp]; [lia|].
    unfold bind. unfold pure_result at 1. rewrite Hrd. cbn [map_err]. unfold pure_exec at 1.
    cbn [ex_actual_total with_build]. unfold Quota.remaining. rewrite (proj2 (Z.ltb_ge _ _)) by lia. cbn [option_map].
    unfold on_err at 1. rewrite Hp. cbn [exec_map_err option_map map_err].
    unfold consume. rewrite u64_checked_add_le by lia. rewrite (proj2 (Z.ltb_ge _ _)) by lia.
    eexists. split; [done|]. by split_and!.
  - eexists. unfold execute_directory, bind. simpl. split; [done|]. unfold planned_bytes. rewrite Hk. simpl.
    split_and!; [done|lia|done].
Qed.

Lemma loop_live index done_ todo st (w : W) :
  members (ex_ir st) = done_ ++ todo -> length done_ = index ->
  Forall (member_planned (ra_budget ready) bs (format (ra_ir ready))) todo ->
  0 <= used (ex_actual_total st) ->
  used (ex_actual_total st) + total_length (map (planned_bytes bs) todo) <= limit (ex_actual_total st) <= u64_max ->
  exists st', execute_members ready (None : option Mat) index (map from_ir todo) st w = (w, Some (Ok st'))
    /\ members (ex_ir st') = done_ ++ map (measured_on bs) todo /\ same_archive (ex_ir st) (ex_ir st').
Proof using Hs Hplan.
  revert index done_ st. induction todo as [|m todo IH]; intros index done_ st Hms Hi Hf Hu Hl.
  - exists st. cbn. by split_and!.
  - apply Forall_cons in Hf as [Hm Hf].
    assert (total_length (map (planned_bytes bs) (m :: todo)) = share m + total_length (map (planned_bytes bs) todo)) as Ht
      by (unfold total_length, share; cbn [map concat]; rewrite length_app; lia).
    rewrite Ht in Hl. assert (0 <= total_length (map (planned_bytes bs) todo)) by (unfold total_length; lia).
    destruct (step_live index m st w Hm Hu) as (st1 & Hs1 & Hir & Hu1 & Hl1); [lia|].
    assert (members (ex_ir st1) = (done_ ++ [measured_on bs m]) ++ todo) as Hms1.
    { rewrite Hir. cbn [members set_member]. rewrite Hms, <- Hi, insert_app_r_alt, Nat.sub_diag by lia.
      by rewrite <- app_assoc. }
    destruct (IH (S index) (done_ ++ [measured_on bs m]) st1) as (st' & Hr & Hms' & Hsame).
    + done.
    + rewrite length_app. simpl. lia.
    + done.
    + unfold share in *. lia.
    + rewrite Hu1, Hl1. lia.
    + exists st'. cbn [map execute_members]. rewrite Hms, lookup_app_r, <- Hi, Nat.sub_diag by lia. cbn [lookup list_lookup].
      subst index. split_and!.
      * unfold bind. destruct (ir_kind m); rewrite Hs1; exact Hr.
      * rewrite Hms'. cbn [map]. by rewrite <- app_assoc.
      * destruct Hsame as (?&?&?&?&?). rewrite Hir in *. by split_and!.
Qed.

Lemma measured_keeps m : canonical_path (measured_on bs m) = canonical_path m /\ is_verified (measured_on bs m) = true.
Proof. unfold measured_on. by destruct (ir_kind m). Qed.

Lemma nodup_repeats ms index seen :
  NoDup (map canonical_path ms) -> btree_sorted seen ->
  (forall m, m ∈ ms -> btree_get seen (canonical_path m) = None) -> repeats_path ms index seen = false.
Proof.
  revert index seen. induction ms as [|m ms IH]; intros index seen Hn Hso Hf; [done|]. cbn [map] in Hn.
  apply NoDup_cons in Hn as [Hni Hn]. cbn [repeats_path]. unfold contains_key.
  rewrite bool_decide_eq_false_2 by (rewrite Hf by (by left); by intros [? ?]). simpl. apply IH; [done| |].
  - by apply btree_insert_sorted.
  - intros x Hx. rewrite btree_get_insert by done. rewrite bool_decide_eq_false_2; [by apply Hf; right|].
    intros He. apply Hni. rewrite <- He. by apply list_elem_of_In, in_map, list_elem_of_In.
Qed.

Lemma authority_live ir :
  members ir = map (measured_on bs) (members (ra_ir ready)) -> validate_verified_archive_authority ir = Ok ().
Proof using Hplan.
  intros Hm. unfold validate_verified_archive_authority. rewrite Hm.
  assert (existsb (fun m => negb (is_verified m)) (map (measured_on bs) (members (ra_ir ready))) = false) as ->.
  { clear Hm. induction (members (ra_ir ready)) as [|m ms IH]; [done|]. cbn [map existsb].
    by rewrite (proj2 (measured_keeps m)), IH. }
  rewrite nodup_repeats; [done| |constructor|done]. rewrite map_map.
  rewrite (map_ext (fun m => canonical_path (measured_on bs m)) canonical_path) by (intros m; apply measured_keeps).
  apply Hplan.
Qed.

(** On a source that returns its bytes, inspecting a raw TAR archive whose plan
    names ranges of the source, with sizes within the member cap and a sum
    within the total cap, under any ratio cap, and with distinct names, always
    ends, never panics, changes nothing outside, and is allowed; every file
    member is measured on exactly the bytes of its range. *)
Lemma planned_inspection_is_allowed (req : Request) options depth initial (w : W) :
  req_dest req = None ->
  exists o a, execute_ready_archive req options ready depth initial w = (w, Some (Ok o))
    /\ o_verdict o = Allowed false /\ o_verified_archive o = Some a
    /\ same_archive (ra_ir ready) (va_ir a)
    /\ members (va_ir a) = map (measured_on bs) (members (ra_ir ready)).
Proof using Hs Hplan.
  intros Hd. destruct raw_tar_validates as [Hsrc Hval].
  destruct (loop_live 0 [] (members (ra_ir ready)) (start_executing options ready) w) as (st & Hrun & Hms & Hsame);
    [done|done|apply Hplan|done|apply Hplan|]. cbn [app] in Hms.
  destruct Hsame as (Hsc & Hpr & Hpd & Hsd & Hev).
  destruct (identities_exist (ex_ir st) Complete) as [ids Hids].
  { unfold format. rewrite Hev. apply (rp_format _ _ _ Hplan). }
  { rewrite Hms, length_map. apply (rp_count _ _ _ Hplan). }
  unfold execute_ready_archive. cbv zeta. rewrite Hsrc, Hval. unfold execute_checked, open_stage. rewrite Hd. cbv zeta.
  unfold bind at 1. unfold ret at 1. unfold bind at 1. unfold attempt. rewrite (rp_payloads _ _ _ Hplan).
  unfold start_executing in Hrun. rewrite Hrun. cbn [option_map]. rewrite (authority_live _ Hms).
  cbn [publish]. unfold bind, ret. rewrite bool_decide_eq_false_2 by (by intros [? ?]).
  unfold stop_with_archive, or_panic, pure_exec, with_verified_archive. cbn [va_ir new_archive].
  change (o_verification (finished req ready _ _ _ inspect_complete)) with Complete.
  rewrite Hids. cbn. do 2 eexists. split; [done|]. by split_and!.
Qed.
End Live.

(** ** The archive of one file *)

Definition member_facts (m : IrMember) : ArchiveFormat * ByteRange * Z * str :=
  (member_format m, payload_range m, declared_uncomp_size m, canonical_path m).

Lemma ready_tar_planned : raw_tar_planned ready_tar canonical_snapshot canonical_fuzz_archive.
Proof.
  assert (map member_facts (members (ra_ir ready_tar)) = [(TarUstar, mkrange 512 1, 1, lit "file.txt")]) as Hm
    by (vm_compute; reflexivity).
  split.
  - reflexivity.
  - reflexivity.
  - split; reflexivity.
  - left. reflexivity.
  - reflexivity.
  - apply Forall_forall. intros m Hin. apply list_elem_of_In, (in_map member_facts) in Hin. rewrite Hm in Hin.
    destruct Hin as [Hf|[]]. unfold member_facts in Hf. injection Hf as Hf Hr Hsz _.
    split; rewrite <- ?Hr, <- ?Hf, <- ?Hsz; [vm_compute; done..|]. intros r [= <-]. reflexivity.
  - split; vm_compute; discriminate.
  - intros r Hr. injection Hr as <-. lia.
  - vm_compute. discriminate.
  - assert (map canonical_path (members (ra_ir ready_tar)) = [lit "file.txt"]) as -> by (vm_compute; reflexivity).
    apply NoDup_singleton.
Qed.

Lemma planned_inspection_is_allowed_witness :
  exists o a, run_ready None (empty_disk 0 false) = (empty_disk 0 false, Some (Ok o))
    /\ o_verdict o = Allowed false /\ o_verified_archive o = Some a
    /\ map actual_uncomp_size (members (va_ir a)) = [Some 1].
Proof.
  destruct (@planned_inspection_is_allowed MemWorld Ident MemFile mem_fs null_sha256 length_crc literal_inflate
    zero_xxhash64 always_reserves quoted opaque_codec plain_policy_text plain_view_codec plain_build
    ready_tar canonical_snapshot canonical_fuzz_archive canonical_reliable ready_tar_planned
    (request_to None) capturing 3 (not_started false DirectorySync) (empty_disk 0 false) eq_refl)
    as (o & a & Hr & Hv & Ha & _ & Hms).
  exists o, a. split; [exact Hr|]. split; [exact Hv|]. split; [exact Ha|]. rewrite Hms. vm_compute. reflexivity.
Defined.
