(* ===== verification/Refusals.v ===== *)
(** * The planner and the audits decide, and refuse with errors
      ([apply.rs], [jail.rs], [covering.rs])

    When reservations succeed the jail never panics, so the member loops end on
    every list of members; and whatever they refuse, they refuse with an
    error: a plan without an error is a plan without a finding.  So do the
    audits, by a small calculus over the code's early returns. *)

From S2P Require Import Prelude Utf8 Paths Findings Quota Ir Jail JailSafe ZipRecords Tar TarGnu TarPax Evidence Policy Planning Outcome PlanSafe Snapshot Covering CoveringTar AuditHeaders CoveringGnu CoveringPax.
Local Open Scope Z_scope.
Local Open Scope rust_scope.

Section Total.
Context `{!Unicode, !Allocator}.

(** ** The jail *)

Lemma count_components_invalid profile i parts cc ac :
  count_components profile i parts cc ac <> Err JailAllocationFailed.
Proof.
  revert i cc ac. induction parts as [|part parts IH]; intros i cc ac; [done|]. simpl.
  destruct (validate_component part profile) as [[]|e] eqn:Hv.
  1,2: repeat case_match; (done || apply IH).
  intros [= ->]. revert Hv. unfold validate_component. by repeat case_match.
Qed.

Lemma validate_name_invalid raw max_depth profile :
  validate_name raw max_depth profile <> Err JailAllocationFailed.
Proof.
  unfold validate_name. do 4 (case_match; [done|]).
  destruct (count_components _ _ _ _ _) as [[cc ac]|e] eqn:Hc.
  - by repeat case_match.
  - intros [= ->]. by eapply count_components_invalid.
Qed.

Lemma jail_name_total raw max_depth profile :
  (forall site n, try_reserve site n = true) -> is_Some (jail_name_for_profile raw max_depth profile).
Proof.
  intros Ha. unfold jail_name_for_profile.
  destruct (validate_name raw max_depth profile) as [r|e] eqn:Hv.
  - apply validate_name_ok in Hv as [Hok _]. rewrite jail_name_fallible_complete by done. by eexists.
  - unfold jail_name_fallible_for_profile. rewrite Hv.
    destruct e; [by eexists|]. by apply validate_name_invalid in Hv.
Qed.

(** ** Refusals are errors *)

Definition is_error (f : Finding) : Prop := severity f = SevError.

Lemma jail_name_error raw max_depth profile f :
  jail_name_for_profile raw max_depth profile = Some (Err f) -> is_error f.
Proof. unfold jail_name_for_profile. repeat case_match; intros; by simplify_eq. Qed.

Lemma admit_destination_error dup name joined fold is_dir a f :
  is_error dup -> admit_destination dup name joined fold is_dir a = Err f -> is_error f.
Proof. unfold admit_destination. intros Hd. repeat case_match; intros; by simplify_eq. Qed.

(** A path rule that always decides, and refuses with errors. *)
Definition decides {A} (enrol : A -> SeenPaths -> exec (SeenPaths * Placed) Finding) : Prop :=
  forall m a, (forall f, enrol m a = Some (Err f) -> is_error f)
    /\ ((forall site n, try_reserve site n = true) -> is_Some (enrol m a)).

Lemma admit_tar_path_decides {A} `{!Declared A} max_depth :
  decides (fun m : A => admit_tar_path (dc_name m) (dc_is_dir m) max_depth).
Proof.
  intros m a. unfold admit_tar_path. destruct (pn_archive_root _).
  - split; [intros f|intros _]; repeat case_match; try (by eexists); intros; by simplify_eq.
  - split.
    + intros f. destruct (jail_name_for_profile _ _ _) as [[j|e]|] eqn:Hj; simpl; [| |done].
      * destruct (portable_name_violation j); [by intros [= <-]|].
        destruct (admit_destination _ _ _ _ _ _) eqn:Had; [done|]. intros [= <-].
        by eapply admit_destination_error in Had.
      * intros [= <-]. by apply jail_name_error in Hj.
    + intros Ha. destruct (jail_name_total (pn_name (prepare_tar_member_name (dc_name m) (dc_is_dir m))) max_depth
        PortableUtf8V1 Ha) as [[j|e] Hj]; rewrite Hj; simpl; [|by eexists].
      repeat case_match; by eexists.
Qed.

Lemma admit_jailed_decides {A} `{!Declared A} dup profile (view : A -> str)
    (stripped : A -> list NormalizationAction) max_depth :
  is_error dup ->
  decides (fun m : A => admit_jailed dup profile (dc_name m) (view m) (stripped m) (dc_is_dir m) max_depth).
Proof.
  intros Hdup m a. unfold admit_jailed. split.
  - intros f. destruct (jail_name_for_profile _ _ _) as [[j|e]|] eqn:Hj; simpl; [| |done].
    + case_match; [by intros [= <-]|]. case_match; [by intros [= <-]|].
      destruct (admit_destination _ _ _ _ _ _) eqn:Had; [done|]. intros [= <-].
      by eapply admit_destination_error in Had.
    + intros [= <-]. by apply jail_name_error in Hj.
  - intros Ha. destruct (jail_name_total (view m) max_depth profile Ha) as [[j|e] Hj];
      rewrite Hj; simpl; [|by eexists].
    repeat case_match; by eexists.
Qed.

(** ** The loop *)

Section Loop.
Context {A : Type} `{!Declared A} (refuse : A -> option Finding).
Context (enrol : A -> SeenPaths -> exec (SeenPaths * Placed) Finding) (budget : ResourceBudget).
Hypothesis Henrol : decides enrol.
Hypothesis Hrefuse : forall m f, refuse m = Some f -> is_error f.

Lemma plan_step_errors st m fl :
  plan_step refuse enrol budget st m = Some fl -> Forall is_error (ps_findings st) ->
  Forall is_error (ps_findings (flow_state fl)).
Proof using Henrol Hrefuse.
  unfold plan_step. intros Hs Hst.
  assert (Hpush : forall f (st' : PlanState A), is_error f -> ps_findings st' = ps_findings st ->
    Forall is_error (ps_findings (push_finding f st'))).
  { intros f st' Hf Heq. simpl. rewrite Heq. apply Forall_app. split; [done|by constructor]. }
  destruct (refuse m) as [f|] eqn:Hr; [simplify_eq; apply Hpush; [by apply (Hrefuse _ _ Hr)|done]|].
  case_match; [simplify_eq; by apply Hpush|].
  destruct (over_ratio budget m) as [f|] eqn:Ho.
  { simplify_eq. apply Hpush; [|done]. revert Ho. unfold over_ratio. repeat case_match; by intros [= <-]. }
  destruct (consume _ _) as [q r]. destruct r as [|[]]; [|simplify_eq; by apply Hpush..].
  destruct (enrol m _) as [[[a' placed]|f]|] eqn:He; [| |done]; simplify_eq; [done|].
  apply Hpush; [|done]. by apply (proj1 (Henrol _ _)) in He.
Qed.

Lemma plan_loop_errors ms st st' :
  plan_loop refuse enrol budget st ms = Some st' -> Forall is_error (ps_findings st) ->
  Forall is_error (ps_findings st').
Proof using Henrol Hrefuse.
  revert st. induction ms as [|m ms IH]; intros st Hl Hst; simpl in Hl; [by simplify_eq|].
  destruct (plan_step refuse enrol budget st m) as [fl|] eqn:Hs; [|done].
  apply plan_step_errors in Hs; [|done]. destruct fl; simplify_eq/=; [by eapply IH|done].
Qed.

Lemma plan_loop_total ms st :
  (forall site n, try_reserve site n = true) -> is_Some (plan_loop refuse enrol budget st ms).
Proof using Henrol.
  intros Ha. revert st. induction ms as [|m ms IH]; intros st; simpl; [by eexists|].
  assert (is_Some (plan_step refuse enrol budget st m)) as [fl ->].
  { unfold plan_step. case_match; [by eexists|]. case_match; [by eexists|]. case_match; [by eexists|].
    destruct (consume _ _) as [q r]. destruct r as [|[]]; [|by eexists..].
    destruct (proj2 (Henrol m (ps_admitted (charged q st))) Ha) as [[[]|] ->]; by eexists. }
  destruct fl; [apply IH|by eexists].
Qed.
End Loop.

(** ** The member loops *)

Lemma has_error_errors fs : Forall is_error fs -> has_error fs = bool_decide (fs <> []).
Proof.
  destruct 1 as [|f fs Hf _]; [done|]. unfold has_error. simpl. by rewrite Hf.
Qed.
Lemma first_error_errors fs : Forall is_error fs -> fs <> [] -> is_Some (first_error fs).
Proof. destruct 1 as [|f fs Hf _]; [done|]. intros _. unfold first_error. simpl. rewrite Hf. by eexists. Qed.

Lemma plan_tar_members_errors {A} `{!Declared A} budget (ms : list A) st :
  plan_tar_members budget ms = Some st -> Forall is_error (ps_findings st).
Proof.
  intros Hl. eapply (plan_loop_errors refuse_none); [|by intros m f|exact Hl|constructor].
  apply admit_tar_path_decides.
Qed.

Lemma plan_tar_members_total {A} `{!Declared A} budget (ms : list A) :
  (forall site n, try_reserve site n = true) -> is_Some (plan_tar_members budget ms).
Proof. apply plan_loop_total, admit_tar_path_decides. Qed.

Lemma refuse_zip_error m f : refuse_zip m = Some f -> is_error f.
Proof. unfold refuse_zip. repeat case_match; by intros [= <-]. Qed.

Lemma plan_zip_members_errors profile budget ms st :
  plan_zip_members profile budget ms = Some st -> Forall is_error (ps_findings st).
Proof.
  intros Hl. eapply (plan_loop_errors refuse_zip); [|apply refuse_zip_error|exact Hl|constructor].
  by apply (admit_jailed_decides (error ZipDiffB1Dup "duplicate dest path") profile
    (fun m : ZipMember => if dc_is_dir m then default (dc_name m) (strip_suffix_slash (dc_name m)) else dc_name m)
    (fun m => if dc_is_dir m then [StripDirectoryTrailingSlash] else [])).
Qed.

Lemma plan_zip_members_total profile budget ms :
  (forall site n, try_reserve site n = true) -> is_Some (plan_zip_members profile budget ms).
Proof.
  apply plan_loop_total.
  by apply (admit_jailed_decides (error ZipDiffB1Dup "duplicate dest path") profile
    (fun m : ZipMember => if dc_is_dir m then default (dc_name m) (strip_suffix_slash (dc_name m)) else dc_name m)
    (fun m => if dc_is_dir m then [StripDirectoryTrailingSlash] else [])).
Qed.
End Total.

(** ** The calculus *)

Create HintDb errs.
Lemma fail_error d : is_error (fail d). Proof. done. Qed.
Lemma error_error c d : is_error (error c d). Proof. done. Qed.
Lemma on_error f n : is_error f -> is_error (on f n). Proof. done. Qed.
#[export] Hint Resolve fail_error error_error on_error : errs.

Definition refuses {A} (r : result A Finding) : Prop := forall f, r = Err f -> is_error f.
Definition refuses_exec {A} (r : exec A Finding) : Prop := forall f, r = Some (Err f) -> is_error f.

Lemma refuses_ok_or {A} (o : option A) e : is_error e -> refuses (ok_or o e).
Proof. intros He f. destruct o; simpl; intros; by simplify_eq. Qed.
Lemma refuses_map_err {A E} (g : E -> Finding) (r : result A E) :
  (forall e, is_error (g e)) -> refuses (map_err g r).
Proof. intros Hg f. destruct r; simpl; intros; by simplify_eq. Qed.
Lemma refuses_exec_map_err {A} (g : Finding -> Finding) (r : exec A Finding) :
  (forall e, is_error e -> is_error (g e)) -> refuses_exec r -> refuses_exec (exec_map_err g r).
Proof. intros Hg Hr f. destruct r as [[a|e]|]; simpl; intros; simplify_eq. by apply Hg, Hr. Qed.
Lemma refuses_run_loop {St R} (body : St -> exec (control St R) Finding) n s :
  (forall s, refuses_exec (body s)) -> refuses_exec (run_loop body n s).
Proof.
  intros Hb. revert s. induction n as [|n IH]; intros s f H; [done|].
  rewrite run_loop_unfold in H. destruct (body s) as [[[s'|r]|e]|] eqn:E; [exact (IH s' f H)|done| |done].
  injection H as <-. by apply (Hb s).
Qed.
#[export] Hint Resolve refuses_ok_or refuses_map_err refuses_exec_map_err : errs.

(** Case analysis on the code, down to the sub-operation that refused. *)
Ltac refuses_step :=
  cbv beta zeta;
  match goal with
  | |- refuses (Ok _) => let f := fresh in intros f; discriminate
  | |- refuses_exec (Some (Ok _)) => let f := fresh in intros f; discriminate
  | |- refuses_exec None => let f := fresh in intros f; discriminate
  | |- refuses (Err _) => let f := fresh in let H := fresh in intros f H; injection H as <-
  | |- refuses_exec (Some (Err _)) => let f := fresh in let H := fresh in intros f H; injection H as <-
  | H : ?c = Err ?f |- is_error ?f => refine ((_ : refuses c) f H); clear H
  | H : ?c = Some (Err ?f) |- is_error ?f => refine ((_ : refuses_exec c) f H); clear H
  | |- refuses_exec (run_loop _ _ _) => apply refuses_run_loop; intros ?
  | |- refuses (match ?c with _ => _ end) => tryif is_var c then destruct c else destruct c eqn:?
  | |- refuses_exec (match ?c with _ => _ end) => tryif is_var c then destruct c else destruct c eqn:?
  | |- _ => solve [auto with errs]
  end.
Ltac refuses := repeat refuses_step.

(** A source whose failed reads are errors, as every in-memory one. *)
Definition reads_refuse {S} `{!Source S} (s : S) : Prop := forall offset n, refuses (src_read s offset n).

Lemma borrowed_reads_refuse `{!Sha256} path bytes : reads_refuse (borrowed path bytes).
Proof. intros o n. cbn [src_read SourceSnapshot_source]. unfold read_exact_at, checked_range. cbn [backing borrowed]. refuses. Qed.

(** ** The audits *)

Section Audits.
Context `{SHA : !Sha256, ALLOC : !Allocator} (s : SourceSnapshot) (Hread : reads_refuse s).

Lemma refuses_checked_range_end range detail : refuses (checked_range_end range detail).
Proof. unfold checked_range_end. refuses. Qed.
#[local] Hint Resolve refuses_checked_range_end : errs.

Lemma refuses_audit_zero_range range detail : refuses_exec (audit_zero_range s range detail).
Proof using Hread. unfold audit_zero_range, zero_scan_step. refuses. Qed.
#[local] Hint Resolve refuses_audit_zero_range : errs.

Lemma refuses_read_vec offset len : refuses (read_vec s offset len).
Proof using Hread. unfold read_vec, checked_range. refuses. Qed.
#[local] Hint Resolve refuses_read_vec : errs.

Lemma refuses_audit_gnu_header header : refuses (audit_gnu_header header).
Proof. unfold audit_gnu_header, audit_checksum. refuses. Qed.
#[local] Hint Resolve refuses_audit_gnu_header : errs.

Lemma refuses_gnu_audit_step carriers ms stop st : refuses_exec (gnu_audit_step s carriers ms stop st).
Proof using Hread.
  unfold gnu_audit_step, gnu_record_geometry, audit_gnu_carrier, audit_gnu_member, gnu_effective_name, gnu_slash_consistent.
  refuses.
Qed.
#[local] Hint Resolve refuses_gnu_audit_step : errs.

Lemma refuses_audit_gnu ir : refuses_exec (audit_tar_gnu_longname_covering s ir).
Proof using Hread. unfold audit_tar_gnu_longname_covering, audit_gnu_identity. refuses. Qed.
End Audits.
