(* ===== verification/Dispatch.v ===== *)
(** * From a request to a ready TAR archive ([apply.rs])

    The operation on a selected TAR dialect: the policy is compiled for the
    format, the source is acquired, the domain that holds the TAR is parsed,
    its members are planned, the representation is built and audited, and the
    ready archive is executed.  The three planners ([plan_tar_domains],
    [plan_tar_pax], [plan_tar_gnu_longname]) take the domain and the wrapper's
    evidence as arguments: a raw archive is its own domain. *)

From S2P Require Import Prelude Utf8 Findings Hints Quota Snapshot Streams Transforms Ir Tar TarGnu TarPax Evidence Identity Policy Jail Planning Verification Outcome FileSystem Materialize Retention Crc Covering CoveringGnu CoveringPax Composite Receipt Profiles Execute.
Local Open Scope Z_scope.
Local Open Scope rust_scope.

(** ** The source *)

Record SourceFailure : Type := {
  sf_path : option str;
  sf_digest : SourceDigest;
  sf_finding : Finding;
  sf_snapshot_kind : SnapshotKind
}.

(** [read_source]. *)
Definition read_source `{!Sha256} (src : RequestSource) (b : ResourceBudget) : result SourceSnapshot SourceFailure :=
  match src with
  | SourceBytes path data =>
      let size := Z.of_nat (length data) in
      if max_archive_bytes b <? size
      then Err {| sf_path := path; sf_digest := Available (hex_sha256 data);
                  sf_finding := error QuotaArchive
                    ("archive is " +++ fmt_dec size +++ " bytes; cap is " +++ fmt_dec (max_archive_bytes b));
                  sf_snapshot_kind := MemoryBorrowed |}
      else Ok (borrowed path data)
  end.

(** ** What a decoded domain is charged *)

Record DerivedTarCharge : Type := { ch_codec : string; ch_decoded_len : Z; ch_compressed_len : Z }.

Definition bzip2_compressed_payload_len (block_count padding_bits source_len : Z) : option Z :=
  blocks ← u64_checked_mul 81 block_count;
  bits ← u64_checked_add 32 blocks;
  bits ← u64_checked_add bits 80;
  metadata_bits ← u64_checked_add bits padding_bits;
  if div_ceil metadata_bits 8 <=? source_len then Some (source_len - div_ceil metadata_bits 8) else None.

Definition charge_gzip (w : GzipWrapperEvidence) : DerivedTarCharge :=
  {| ch_codec := "gzip"; ch_decoded_len := gz_derived_output_len w;
     ch_compressed_len := len (gz_compressed_payload w) |}.
Definition charge_zstd (w : ZstdWrapperEvidence) : DerivedTarCharge :=
  {| ch_codec := "zstd"; ch_decoded_len := zs_derived_output_len w;
     ch_compressed_len := len (zs_compressed_payload w) |}.
Definition charge_xz (w : XzWrapperEvidence) : result DerivedTarCharge Finding :=
  let? compressed_len :=
    ok_or (foldl (fun total block => total ≫= fun t => u64_checked_add t (len (xb_compressed block)))
             (Some 0) (xz_blocks w))
      (error QuotaOverflow "xz compressed total overflowed u64") in
  Ok {| ch_codec := "xz"; ch_decoded_len := xz_derived_output_len w; ch_compressed_len := compressed_len |}.
Definition charge_bzip2 (w : Bzip2WrapperEvidence) (source_len : Z) : result DerivedTarCharge Finding :=
  let? compressed_len :=
    ok_or (bzip2_compressed_payload_len (Z.of_nat (length (bz_block_bit_offsets w))) (bz_padding_bits w) source_len)
      (error QuotaOverflow "bzip2 compressed payload length overflowed u64") in
  Ok {| ch_codec := "bzip2"; ch_decoded_len := bz_derived_output_len w; ch_compressed_len := compressed_len |}.

Inductive TarPlanProfile : Type :=
  | PlanRaw (profile : TarInterpretationProfile)
  | PlanGzip (profile : TarGzipInterpretationProfile) (wrapper : GzipWrapperEvidence)
  | PlanZstd (profile : TarZstdInterpretationProfile) (wrapper : ZstdWrapperEvidence)
  | PlanXz (profile : TarXzInterpretationProfile) (wrapper : XzWrapperEvidence)
  | PlanBzip2 (profile : TarBzip2InterpretationProfile) (wrapper : Bzip2WrapperEvidence).
Inductive PaxPlanProfile : Type :=
  | PaxRaw (profile : TarPaxInterpretationProfile)
  | PaxGzip (profile : TarGzipInterpretationProfile) (wrapper : GzipWrapperEvidence).
Inductive GnuLongNamePlanProfile : Type :=
  | GnuRaw (profile : TarGnuLongNameInterpretationProfile)
  | GnuGzip (profile : TarGzipInterpretationProfile) (wrapper : GzipWrapperEvidence).

Definition ustar_derived_charge (profile : TarPlanProfile) (source_len : Z) :
    result (option DerivedTarCharge) Finding :=
  match profile with
  | PlanRaw _ => Ok None
  | PlanGzip _ w => Ok (Some (charge_gzip w))
  | PlanZstd _ w => Ok (Some (charge_zstd w))
  | PlanXz _ w => let? c := charge_xz w in Ok (Some c)
  | PlanBzip2 _ w => let? c := charge_bzip2 w source_len in Ok (Some c)
  end.
Definition pax_derived_charge (profile : PaxPlanProfile) : option DerivedTarCharge :=
  match profile with PaxRaw _ => None | PaxGzip _ w => Some (charge_gzip w) end.
Definition gnu_derived_charge (profile : GnuLongNamePlanProfile) : option DerivedTarCharge :=
  match profile with GnuRaw _ => None | GnuGzip _ w => Some (charge_gzip w) end.
Definition ustar_wrapper_class (profile : TarPlanProfile) : TarWrapperClass :=
  match profile with
  | PlanRaw _ => RawClass | PlanGzip _ _ => GzipClass | PlanZstd _ _ => ZstdClass
  | PlanXz _ _ => XzClass | PlanBzip2 _ _ => Bzip2Class
  end.

(** The covering the parser found, or the one the framing alone supports. *)
Definition derived_numerator `{!Sha256} (decoded_len : Z) (covering : option TarArchiveCovering)
    (tar_snapshot : SourceSnapshot) : option Z :=
  match covering with
  | Some c =>
      Some (derived_tar_ratio_numerator decoded_len (offset (tc_terminator c)) (len (tc_terminator c))
              (offset (tc_trailing_zeros c)) (len (tc_trailing_zeros c)))
  | None =>
      ratio ← verified_ratio_covering tar_snapshot;
      Some match ratio with
           | Some r =>
               derived_tar_ratio_numerator decoded_len (offset (rc_terminator r)) (len (rc_terminator r))
                 (offset (rc_trailing_zeros r)) (len (rc_trailing_zeros r))
           | None => decoded_len
           end
  end.

(** ** Hints *)

Definition tar_dialect_hint (snapshot : SourceSnapshot) (class : TarWrapperClass) : option FindingHint :=
  if src_len snapshot <? 265 then None
  else match src_read snapshot 257 8 with
       | Ok magic => hint_for_tar_dialect class magic
       | Err _ => None
       end.

Definition set_hint (f : Finding) (h : option FindingHint) : Finding :=
  {| code := code f; severity := severity f; member := member f; detail := detail f; hint := h |}.

Definition enrich_container_hint (f : Finding) (snapshot : SourceSnapshot) (class : TarWrapperClass) : Finding :=
  let f :=
    if bool_decide (code f = TarDialect) && bool_decide (hint f = None)
    then set_hint f (tar_dialect_hint snapshot class) else f in
  match hint f with
  | None => f
  | Some h =>
      if negb (bool_decide (Findings.formats h = [])) then f
      else if negb (String.eqb (observed h) "PAX extended header")
              && negb (String.eqb (observed h) "PAX global header") then f
      else
        match class with
        | RawClass => set_hint f (Some (new_hint (observed h) ["tar-pax"%string]))
        | GzipClass => set_hint f (Some (new_hint (observed h) ["tar-gzip-pax"%string]))
        | ZstdClass | XzClass | Bzip2Class => f
        end
  end.

(** ** Evidence of what a parser read *)

Definition pax_record_evidence (r : PaxRecord) : PaxRecordEvidence :=
  {| re_record := TarPax.record r; re_value := value_range r; re_keyword := keyword r;
     re_raw_value_bytes := raw_value_bytes r;
     re_parsed_size := match value r with PathValue _ => None | SizeValue size => Some size end |}.
Definition pax_extension_evidence (x : PaxExtension) : PaxExtensionEvidence :=
  {| xe_raw_name_bytes := x_raw_name x; xe_kind := x_kind x; xe_header := x_header x;
     xe_payload := x_payload x; xe_padding := x_padding x; xe_mode := x_mode x; xe_mtime := x_mtime x;
     xe_header_checksum := x_header_checksum x; xe_header_sha256 := x_header_sha256 x;
     xe_payload_sha256 := x_payload_sha256 x; xe_records := map pax_record_evidence (x_records x) |}.
Definition gnu_carrier_evidence (c : GnuLongNameCarrier) : GnuLongNameCarrierEvidence :=
  {| ge_raw_name_bytes := c_raw_name c; ge_path_bytes := c_path_bytes c; ge_header := c_header c;
     ge_payload := c_payload c; ge_path := c_path c; ge_padding := c_padding c; ge_mode := c_mode c;
     ge_mtime := c_mtime c; ge_header_checksum := c_header_checksum c;
     ge_header_sha256 := c_header_sha256 c; ge_payload_sha256 := c_payload_sha256 c |}.
(** The member a PAX member plans as: its effective name and size. *)
Definition pax_planned_member (wrapped : bool) (p : PaxMember * list str * list NormalizationAction) : IrMember :=
  let '(m, components, actions) := p in
  let tar_member : TarMember :=
    {| Tar.raw_name := m_raw_name m; Tar.name := m_name m; Tar.size := m_size m; Tar.mode := m_mode m;
       Tar.mtime := m_mtime m; Tar.header_checksum := m_header_checksum m;
       Tar.header_sha256 := m_header_sha256 m; Tar.header := m_header m; Tar.payload := m_payload m;
       Tar.padding := m_padding m; Tar.is_dir := m_is_dir m |} in
  from_tar_pax_planned_for_format tar_member (m_header_size m) (m_name m) (m_name m) components actions
    (src_path (m_sources m)) (src_size (m_sources m)) wrapped.

(** ** The planners *)

Section Planners.
Context {W D F : Type} `{!CapFs W D F, SHA : !Sha256, !Crc32, !Inflate, !XxHash64, !Allocator, !Unicode}.
Context `{!DebugStr, !RetentionCodec, !PolicyText, !ViewCodec, !BuildEnv, !ProfileDocuments}.
Context (req : Request) (options : ApplyOptions) (depth : nat).

(** What a planner is given beside its domain. *)
Record PlanInputs : Type := {
  pi_snapshots : SnapshotSet;
  pi_transforms : TransformGraph;
  pi_domain : SnapshotDomainId;
  pi_controls : CompiledControls;
  pi_metadata_budget : Z;
  pi_source_digest : SourceDigest;
  pi_identities_base : OutcomeIdentities;
  pi_materialization : MaterializationMeta
}.
Context (inputs : PlanInputs).
Local Abbreviation caps := (budget (pi_controls inputs)).

(** An outcome about the original snapshot, without a representation. *)
Definition stop_planning (magic : string) (findings : list Finding) (axes : SemanticAxes) : Outcome :=
  let source := original (pi_snapshots inputs) in
  finish (snap_path source, pi_source_digest inputs, Snapshot.kind source) magic (req_policy req) findings []
    (pi_materialization inputs) axes (pi_identities_base inputs).

Definition denied_quota (magic : string) (finding : Finding) : Outcome :=
  stop_planning magic [finding] (structure_stop Interpreted AdmissionDenied finding).

(** [Some (Some _)] is a refusal; [None] is fuel that ran out. *)
Definition derived_ratio_stop (charge : result (option DerivedTarCharge) Finding)
    (covering : option TarArchiveCovering) (tar_snapshot : SourceSnapshot) (magic : string) :
    option (option Outcome) :=
  match charge with
  | Ok None => Some None
  | Err finding => Some (Some (denied_quota magic finding))
  | Ok (Some charge) =>
      match max_ratio caps with
      | None => Some None
      | Some cap =>
          numerator ← derived_numerator (ch_decoded_len charge) covering tar_snapshot;
          Some (if ratio_exceeds numerator (ch_compressed_len charge) cap
                then Some (denied_quota magic (error QuotaRatio
                       ("derived " +++ ch_codec charge +++ " output " +++ fmt_dec numerator +++ ":"
                          +++ fmt_dec (ch_compressed_len charge) +++ " exceeds " +++ fmt_dec cap +++ ":1")))
                else None)
      end
  end.

(** The parser refused: the ratio is the first reason, then the finding. *)
Definition refuse_parse (charge : result (option DerivedTarCharge) Finding) (class : TarWrapperClass)
    (tar_snapshot : SourceSnapshot) (magic observed_magic : string) (finding : Finding) : M W Outcome unit :=
  match derived_ratio_stop charge None tar_snapshot magic with
  | None => spent
  | Some (Some outcome) => ret outcome
  | Some None =>
      let finding := enrich_container_hint finding tar_snapshot class in
      ret (stop_planning observed_magic [finding] (parse_failure_axes finding))
  end.

(** The ready archive of a plan without an error. *)
Definition ready_archive (magic : string) (ir : ArchiveIR) (payloads : list PayloadPlan)
    (findings : list Finding) : ReadyArchive :=
  {| ra_snapshots := pi_snapshots inputs; ra_transforms := pi_transforms inputs; ra_ir := ir;
     ra_payloads := payloads; ra_findings := findings; ra_budget := caps;
     ra_member_sync := member_sync (effect (pi_controls inputs));
     ra_directory_sync := directory_sync (effect (pi_controls inputs));
     ra_source_digest := pi_source_digest inputs; ra_identities_base := pi_identities_base inputs;
     ra_magic := magic |}.

(** What the three planners do with the members a parser returned: the loop,
    the representation, its audit, and the execution. *)
Definition plan_parsed {A} `{!Declared A} (wrapped : bool) (magic : string) (tar_snapshot : SourceSnapshot)
    (payload : A -> PayloadPlan) (plan : A * list str * list NormalizationAction -> IrMember)
    (represent : list IrMember -> ArchiveIR) (audit : SourceSnapshot -> ArchiveIR -> exec unit Finding)
    (parsed : list A) : M W Outcome unit :=
  match plan_tar_members caps parsed with
  | None => spent
  | Some st =>
      let findings := ps_findings st in
      if has_error findings then
        let@ cause := or_panic (first_error findings) in
        ret (stop_planning magic findings (denied_at_admission cause))
      else
        let payloads := map (fun p => payload p.1.1) (ps_planned st) in
        let ir := represent (map plan (ps_planned st)) in
        match audit tar_snapshot ir with
        | None => spent
        | Some (Err finding) =>
            let findings := findings ++ [finding] in
            let@ cause := or_panic (first_error findings) in
            or_panic (with_ir (stop_planning magic findings (tar_covering_failure_axes wrapped cause)) ir)
        | Some (Ok _) =>
            execute_ready_archive req options (ready_archive magic ir payloads findings) depth
              (pi_materialization inputs)
        end
  end.

Definition covering_of_ustar (a : TarArchive) : TarArchiveCovering :=
  {| tc_member_records := Tar.member_records a; tc_terminator := Tar.terminator a;
     tc_trailing_zeros := Tar.trailing_zeros a |}.
Definition covering_of_pax (a : PaxArchive) : TarArchiveCovering :=
  {| tc_member_records := x_member_records a; tc_terminator := x_terminator a;
     tc_trailing_zeros := x_trailing_zeros a |}.
Definition covering_of_gnu (a : GnuLongNameArchive) : TarArchiveCovering :=
  {| tc_member_records := g_member_records a; tc_terminator := g_terminator a;
     tc_trailing_zeros := g_trailing_zeros a |}.

(** The profile's payload plan, planned member and representation. *)
Definition ustar_payload (profile : TarPlanProfile) : TarMember -> PayloadPlan :=
  match profile with
  | PlanRaw _ => from_tar | PlanGzip _ _ => from_tar_gzip | PlanZstd _ _ => from_tar_zstd
  | PlanXz _ _ => from_tar_xz | PlanBzip2 _ _ => from_tar_bzip2
  end.
Definition ustar_member (profile : TarPlanProfile) (p : TarMember * list str * list NormalizationAction) : IrMember :=
  let '(m, components, actions) := p in
  match profile with
  | PlanRaw _ => from_tar_planned m components actions
  | PlanGzip _ _ => from_tar_gzip_planned m components actions
  | PlanZstd _ _ => from_tar_zstd_planned m components actions
  | PlanXz _ _ => from_tar_xz_planned m components actions
  | PlanBzip2 _ _ => from_tar_bzip2_planned m components actions
  end.
Definition ustar_ir (profile : TarPlanProfile) (source : SourceDigest) (covering : TarArchiveCovering)
    (ms : list IrMember) : ArchiveIR :=
  match profile with
  | PlanRaw p => with_tar p source covering ms
  | PlanGzip p w => with_tar_gzip p source w covering ms
  | PlanZstd p w => with_tar_zstd p source w covering ms
  | PlanXz p w => with_tar_xz p source w covering ms
  | PlanBzip2 p w => with_tar_bzip2 p source w covering ms
  end.
Definition ustar_wrapped (profile : TarPlanProfile) : bool :=
  match profile with PlanRaw _ => false | _ => true end.
Definition ustar_magic_label (profile : TarPlanProfile) : string :=
  match profile with
  | PlanRaw _ => "tar" | PlanGzip _ _ => "gz" | PlanZstd _ _ => "zst" | PlanXz _ _ => "xz"
  | PlanBzip2 _ _ => "bz2"
  end.

(** [plan_tar_domains]. *)
Definition plan_tar_domains (profile : TarPlanProfile) : M W Outcome unit :=
  let magic := ustar_magic_label profile in
  match domain (pi_snapshots inputs) (pi_domain inputs) with
  | None => spent
  | Some tar_snapshot =>
      let observed_magic :=
        if ustar_wrapped profile then magic
        else if recognizes_ustar tar_snapshot then magic else "unknown"%string in
      let charge := ustar_derived_charge profile (src_len (original (pi_snapshots inputs))) in
      match parse_ustar_portable_v1 tar_snapshot (max_files caps) (pi_metadata_budget inputs) with
      | None => spent
      | Some (Err finding) =>
          refuse_parse charge (ustar_wrapper_class profile) tar_snapshot magic observed_magic finding
      | Some (Ok parsed) =>
          let covering := covering_of_ustar parsed in
          match derived_ratio_stop charge (Some covering) tar_snapshot magic with
          | None => spent
          | Some (Some outcome) => ret outcome
          | Some None =>
              plan_parsed (ustar_wrapped profile) magic tar_snapshot (ustar_payload profile)
                (ustar_member profile) (ustar_ir profile (pi_source_digest inputs) covering)
                audit_tar_covering (Tar.members parsed)
          end
      end
  end.

(** [plan_tar_pax]. *)
Definition pax_ir (profile : PaxPlanProfile) (source : SourceDigest) (a : PaxArchive) (ms : list IrMember) :
    ArchiveIR :=
  let extensions := map pax_extension_evidence (x_extensions a) in
  match profile with
  | PaxRaw p => with_tar_pax p source (covering_of_pax a) extensions ms
  | PaxGzip p w => with_tar_gzip_pax p source w (covering_of_pax a) extensions ms
  end.
Definition plan_tar_pax (profile : PaxPlanProfile) : M W Outcome unit :=
  let wrapped := match profile with PaxRaw _ => false | PaxGzip _ _ => true end in
  let magic := (if wrapped then "gz" else "tar")%string in
  match domain (pi_snapshots inputs) (pi_domain inputs) with
  | None => spent
  | Some tar_snapshot =>
      let observed_magic :=
        if wrapped || recognizes_ustar tar_snapshot then magic else "unknown"%string in
      let charge := Ok (pax_derived_charge profile) in
      match parse_pax_portable_v1 tar_snapshot (max_files caps) (pi_metadata_budget inputs) with
      | None => spent
      | Some (Err finding) =>
          refuse_parse charge (if wrapped then GzipClass else RawClass) tar_snapshot magic observed_magic finding
      | Some (Ok parsed) =>
          match derived_ratio_stop charge (Some (covering_of_pax parsed)) tar_snapshot magic with
          | None => spent
          | Some (Some outcome) => ret outcome
          | Some None =>
              plan_parsed wrapped magic tar_snapshot (if wrapped then from_tar_gzip_pax else from_tar_pax)
                (pax_planned_member wrapped) (pax_ir profile (pi_source_digest inputs) parsed)
                audit_tar_pax_covering (x_members parsed)
          end
      end
  end.

(** [plan_tar_gnu_longname]. *)
Definition gnu_ir (profile : GnuLongNamePlanProfile) (source : SourceDigest) (a : GnuLongNameArchive)
    (ms : list IrMember) : ArchiveIR :=
  let carriers := map gnu_carrier_evidence (g_carriers a) in
  match profile with
  | GnuRaw p => with_tar_gnu_longname p source (covering_of_gnu a) carriers ms
  | GnuGzip p w => with_tar_gzip_gnu_longname p source w (covering_of_gnu a) carriers ms
  end.
Definition gnu_planned_member (wrapped : bool) (p : GnuLongNameMember * list str * list NormalizationAction) :
    IrMember :=
  let '(m, components, actions) := p in from_tar_gnu_longname_planned_for_format m components actions wrapped.
Definition plan_tar_gnu_longname (profile : GnuLongNamePlanProfile) : M W Outcome unit :=
  let wrapped := match profile with GnuRaw _ => false | GnuGzip _ _ => true end in
  let magic := (if wrapped then "gz" else "tar")%string in
  match domain (pi_snapshots inputs) (pi_domain inputs) with
  | None => spent
  | Some tar_snapshot =>
      let observed_magic :=
        if wrapped || recognizes_oldgnu tar_snapshot then magic else "unknown"%string in
      let charge := Ok (gnu_derived_charge profile) in
      match parse_gnu_longname_portable_v1 tar_snapshot (max_files caps) (pi_metadata_budget inputs) with
      | None => spent
      | Some (Err finding) =>
          refuse_parse charge (if wrapped then GzipClass else RawClass) tar_snapshot magic observed_magic finding
      | Some (Ok parsed) =>
          match derived_ratio_stop charge (Some (covering_of_gnu parsed)) tar_snapshot magic with
          | None => spent
          | Some (Some outcome) => ret outcome
          | Some None =>
              plan_parsed wrapped magic tar_snapshot
                (if wrapped then from_tar_gzip_gnu_longname else from_tar_gnu_longname)
                (gnu_planned_member wrapped) (gnu_ir profile (pi_source_digest inputs) parsed)
                audit_tar_gnu_longname_covering (g_members parsed)
          end
      end
  end.
End Planners.

(** ** The entry points of the raw dialects *)

Section Entries.
Context {W D F : Type} `{!CapFs W D F, SHA : !Sha256, !Crc32, !Inflate, !XxHash64, !Allocator, !Unicode}.
Context `{!DebugStr, !RetentionCodec, !PolicyText, !ViewCodec, !BuildEnv, !ProfileDocuments}.
Context (req : Request) (options : ApplyOptions) (depth : nat).

Definition initial_materialization : MaterializationMeta :=
  not_started (bool_decide (is_Some (req_dest req))) (durability (req_policy req)).

Definition reject_only (path : option str) (source : SourceDigest) (findings : list Finding)
    (magic : option string) (materialization : MaterializationMeta) (axes : SemanticAxes)
    (source_snapshot : SnapshotKind) (identities : OutcomeIdentities) : Outcome :=
  finish (path, source, source_snapshot) (default "unknown"%string magic) (req_policy req) findings []
    materialization axes identities.

(** The policy does not compile for the format. *)
Definition policy_refused (finding : Finding) (identities : OutcomeIdentities) : Outcome :=
  reject_only None DigestUnavailable [finding] None initial_materialization (policy_compile_failed finding)
    Unavailable identities.
(** The source was not acquired. *)
Definition source_refused (failure : SourceFailure) (identities : OutcomeIdentities) : Outcome :=
  let finding := sf_finding failure in
  let admission := if bool_decide (code finding = QuotaArchive) then AdmissionDenied else NotEvaluated in
  reject_only (sf_path failure) (sf_digest failure) [finding] None initial_materialization
    (source_failure finding admission) (sf_snapshot_kind failure) identities.

(** What the entry points of the three raw dialects have in common. *)
Definition apply_raw_tar {P} `{!Interpretation P} (profile : P) (plan : PlanInputs -> M W Outcome unit) :
    M W Outcome unit :=
  match compile_for_format (req_policy req) (policy_format profile) with
  | Err finding => ret (policy_refused finding (unavailable_for DigestUnavailable profile))
  | Ok controls =>
      match read_source (req_source req) (budget controls) with
      | Err failure => ret (source_refused failure (unavailable_for (sf_digest failure) profile))
      | Ok snapshot =>
          plan {| pi_snapshots := from_original snapshot; pi_transforms := empty_graph; pi_domain := ORIGINAL;
                  pi_controls := controls; pi_metadata_budget := max_metadata_bytes (budget controls);
                  pi_source_digest := digest snapshot;
                  pi_identities_base := unavailable_for (digest snapshot) profile;
                  pi_materialization := initial_materialization |}
      end
  end.

Definition apply_tar_with_options (profile : TarInterpretationProfile) : M W Outcome unit :=
  apply_raw_tar profile (fun inputs => plan_tar_domains req options depth inputs (PlanRaw profile)).
Definition apply_tar_pax_with_options (profile : TarPaxInterpretationProfile) : M W Outcome unit :=
  apply_raw_tar profile (fun inputs => plan_tar_pax req options depth inputs (PaxRaw profile)).
Definition apply_tar_gnu_longname_with_options (profile : TarGnuLongNameInterpretationProfile) : M W Outcome unit :=
  apply_raw_tar profile (fun inputs => plan_tar_gnu_longname req options depth inputs (GnuRaw profile)).
End Entries.
