(* ===== verification/CoveringPaxAgree.v ===== *)
(** * The PAX audit accepts what the PAX reader accepts ([covering.rs], [tar_pax.rs])

    The audit reads every header, payload and record again with its own code
    and replays the overrides.  On an archive of the grammar its replay follows
    the reader's run, so the representation the planner makes of the reader's
    result always passes. *)

From S2P Require Import Prelude Utf8 Findings Interval Snapshot Ir Layout ZipSearch TarFields Tar TarPax TarPaxRecords TarPaxProvenance Evidence Verification Profiles Covering AuditHeaders CoveringTar CoveringPax Dispatch.
Local Open Scope Z_scope.
Local Open Scope rust_scope.

(** ** Records *)

Lemma dec_no_leading_zero n :
  0 <= n <= u64_max ->
  (1 <? Z.of_nat (length (lit (fmt_dec n)))) && bool_decide (head (lit (fmt_dec n)) = Some "0"%byte) = false.
Proof.
  intros Hn. destruct (fmt_dec_digits n Hn) as (Hne & _ & _ & _ & Hz). cbv zeta in *.
  set (l := lit (fmt_dec n)) in *. apply andb_false_iff.
  destruct (bool_decide_reflect (head l = Some "0"%byte)) as [E|]; [left|by right].
  apply Z.ltb_ge. rewrite Hz; [lia|]. destruct l; [done|]. by injection E as ->.
Qed.

Section Record.
Context (payload : list byte) (base : Z) (evidence : list PaxRecordEvidence).

Definition record_audit (rs : list PaxRecord) (pos : nat) : PaxRecordAudit :=
  {| ra_cursor := Z.of_nat pos; ra_index := length rs;
     ra_saw_path := bool_decide (Path ∈ map keyword rs); ra_saw_size := bool_decide (Size ∈ map keyword rs) |}.

Lemma audit_pax_keyword_complete st k raw v pos rec :
  record_value k raw v -> (match k with Path => ra_saw_path st | Size => ra_saw_size st end) = false ->
  audit_pax_keyword st (pax_record_evidence (record_at base pos k raw rec v)) (keyword_bytes k) raw
  = Ok (k, (flag_after k Path (ra_saw_path st), flag_after k Size (ra_saw_size st))).
Proof.
  intros Hv Hs. unfold audit_pax_keyword. cbn [pax_record_evidence re_parsed_size record_at value].
  destruct Hv as [raw Hne Hlen Hnul [cs Hcs]|n Hn]; cbn in Hs; rewrite Hs.
  - rewrite (proj2 (bytes_eqb_iff _ _)) by done. unfold pax_path_text, from_utf8. rewrite Hcs.
    rewrite (proj2 (existsb_zero raw)) by done. rewrite (proj2 (Z.leb_le _ _)) by exact Hlen.
    rewrite bool_decide_eq_false_2 by done. destruct raw; [done|]. cbn. by destruct (ra_saw_size st).
  - change (bytes_eqb (keyword_bytes Size) (lit "path")) with false. cbv iota.
    rewrite (proj2 (bytes_eqb_iff _ _)) by done.
    destruct (fmt_dec_digits n Hn) as (Hne & Hd & Hval & Hlen & Hz). cbv zeta in *.
    set (l := lit (fmt_dec n)) in *.
    assert (Hl0 : (length l =? 0)%nat = false) by (destruct l; done).
    rewrite Hl0. unfold l. rewrite (dec_no_leading_zero n Hn). fold l. rewrite (proj2 (Z.ltb_ge _ _)) by (unfold PAX_MAX_RECORD_LENGTH_DIGITS; lia).
    change (forallb is_ascii_digit l) with (forallb (is_digit_of 10) l). rewrite Hd. cbn [negb orb].
    unfold parse_pax_decimal. rewrite fold_digits_exact by (done || (unfold u64_max; lia)).
    rewrite Hval, (proj2 (Z.leb_le _ _)) by lia. cbn [ok_or].
    rewrite bool_decide_eq_true_2 by done. cbn [negb]. by destruct (ra_saw_path st).
Qed.

Lemma audit_pax_length_complete pos n tail :
  drop pos payload = lit (fmt_dec n) ++ x20 :: tail -> 0 <= n <= u64_max ->
  audit_pax_length payload (Z.of_nat pos) = Ok (n, Z.of_nat pos + Z.of_nat (length (lit (fmt_dec n))) + 1).
Proof.
  intros Hdrop Hn. destruct (fmt_dec_digits n Hn) as (Hne & Hd & Hval & Hlen & Hz).
  cbv zeta in *. set (l := lit (fmt_dec n)) in *. unfold audit_pax_length. rewrite Nat2Z.id, Hdrop.
  assert (digit_prefix (l ++ x20 :: tail) = length l) as -> by by apply digit_prefix_app.
  rewrite (proj2 (Z.ltb_ge _ _)) by (unfold PAX_MAX_RECORD_LENGTH_DIGITS; lia). rewrite Nat2Z.id.
  assert (Hl0 : (0 < length l)%nat) by (destruct l; [done|simpl; lia]).
  rewrite (proj2 (Z.eqb_neq _ _)) by lia.
  rewrite lookup_app_r, Nat.sub_diag by lia. rewrite bool_decide_eq_true_2 by done. cbn [negb orb].
  rewrite take_app_length.
  unfold l. rewrite (dec_no_leading_zero n Hn). fold l. unfold parse_pax_decimal. rewrite fold_digits_exact by (done || (unfold u64_max; lia)).
  by rewrite Hval, (proj2 (Z.leb_le _ _)) by lia.
Qed.

Lemma pax_record_step_complete bytes rs k raw rec v tail :
  payload = bytes ++ rec ++ tail -> base + Z.of_nat (length payload) <= u64_max -> 0 <= base ->
  pax_records base bytes rs -> k ∉ map keyword rs -> is_record k raw rec -> record_value k raw v ->
  evidence !! length rs = Some (pax_record_evidence (record_at base (Z.of_nat (length bytes)) k raw rec v)) ->
  pax_record_step payload base evidence (record_audit rs (length bytes)) =
    Some (Ok (Continue (record_audit
      (rs ++ [record_at base (Z.of_nat (length bytes)) k raw rec v]) (length (bytes ++ rec))))).
Proof.
  intros Hpay Hu Hb Hrs Hk Hrec Hval Hev.
  set (pos := length bytes) in *. set (n := Z.of_nat (length rec)).
  unfold is_record in Hrec. fold n in Hrec.
  assert (Hlen : length rec = (length (lit (fmt_dec n)) + (7 + length raw))%nat)
    by (rewrite Hrec at 1; by rewrite length_app, length_record_body).
  assert (Hpl : length payload = (pos + (length rec + length tail))%nat)
    by (rewrite Hpay, !length_app; lia).
  set (dig := lit (fmt_dec n)) in *.
  assert (Hdrop : drop pos payload = dig ++ x20 :: (keyword_bytes k ++ [x3d] ++ raw ++ [x0a]) ++ tail).
  { rewrite Hpay. unfold pos. rewrite drop_app_length, Hrec. by rewrite <- app_assoc. }
  unfold pax_record_step. cbn [ra_cursor ra_index record_audit].
  rewrite (proj2 (Z.ltb_lt _ _)) by lia. cbn [negb]. rewrite Hev. cbn [ok_or].
  rewrite (audit_pax_length_complete pos n _ Hdrop) by lia. fold dig.
  rewrite u64_checked_add_le by lia. cbn [ok_or].
  rewrite (proj2 (Z.eqb_neq _ _)), (proj2 (Z.ltb_ge _ _)) by lia. cbn [orb].
  set (mid := keyword_bytes k ++ [x3d] ++ raw).
  assert (Hmid : length mid = (5 + length raw)%nat)
    by (unfold mid; rewrite !length_app, length_keyword; simpl; lia).
  assert (Hrec' : rec = (dig ++ [x20]) ++ mid ++ [x0a])
    by (rewrite Hrec; unfold record_body, mid; by rewrite <- !app_assoc).
  assert (Hpay' : payload = (bytes ++ dig ++ [x20]) ++ mid ++ [x0a] ++ tail).
  { rewrite Hpay, Hrec'. by rewrite <- !app_assoc. }
  assert (Hhead : length (bytes ++ dig ++ [x20]) = (pos + length dig + 1)%nat)
    by (rewrite !length_app; simpl; fold pos; lia).
  assert (Hlf : payload !! Z.to_nat (Z.of_nat pos + n - 1) = Some x0a).
  { rewrite Hpay', lookup_app_r by lia. rewrite lookup_app_r by lia.
    by replace (Z.to_nat (Z.of_nat pos + n - 1) - length (bytes ++ dig ++ [x20]) - length mid)%nat with 0%nat by lia. }
  rewrite Hlf, bool_decide_eq_true_2 by done. cbn [negb].
  rewrite (proj2 (Z.leb_gt _ _)) by lia.
  assert (Hbody : range (Z.of_nat pos + Z.of_nat (length dig) + 1)
    (Z.of_nat pos + n - 1 - (Z.of_nat pos + Z.of_nat (length dig) + 1)) payload = mid).
  { unfold range. rewrite Hpay'.
    replace (Z.to_nat (Z.of_nat pos + Z.of_nat (length dig) + 1)) with (length (bytes ++ dig ++ [x20])) by lia.
    rewrite drop_app_length.
    replace (Z.to_nat _) with (length mid) by lia. apply take_app_length. }
  rewrite Hbody.
  assert (position (fun b => bool_decide (b = "="%byte)) mid = Some 4%nat) as -> by (by destruct k).
  cbn [ok_or Nat.eqb]. change (PAX_MAX_KEYWORD_BYTES <? Z.of_nat 4) with false. cbn [orb].
  assert (take 4 mid = keyword_bytes k) as -> by (by destruct k).
  assert (drop (4 + 1) mid = raw) as -> by (by destruct k).
  rewrite audit_pax_keyword_complete by
    (first [done | destruct k; by apply bool_decide_eq_false]).
  rewrite !u64_checked_add_le by lia. cbn [ok_or].
  cbn [pax_record_evidence record_at re_record re_value re_keyword re_raw_value_bytes TarPax.record value_range
    keyword raw_value_bytes fst snd].
  rewrite (proj2 (bytes_eqb_iff _ _)) by done. rewrite !bool_decide_eq_true_2 by (done || (f_equal; lia)). cbn [negb orb].
  do 3 f_equal. unfold record_audit. cbn [ra_saw_path ra_saw_size]. rewrite !length_app. f_equal.
  - fold pos. lia.
  - cbn. lia.
  - by apply flag_after_snoc.
  - by apply flag_after_snoc.
Qed.
End Record.

Definition seen (saw : bool * bool) : nat := ((if saw.1 then 1 else 0) + (if saw.2 then 1 else 0))%nat.

Lemma keyword_seen_once st ev kb v k saw :
  audit_pax_keyword st ev kb v = Ok (k, saw) -> (seen (ra_saw_path st, ra_saw_size st) < seen (saw.1, saw.2) <= 2)%nat.
Proof.
  unfold audit_pax_keyword. destruct st as [c i [] []]; cbn [ra_saw_path ra_saw_size]; intros H;
    repeat (case_match; try discriminate H); injection H as <- <-; vm_compute; lia.
Qed.

(** A keyword is seen at most once, so the loop runs at most three times. *)
Lemma pax_record_loop_total payload base evidence st :
  exists r, run_loop (pax_record_step payload base evidence) 4 st = Some r.
Proof.
  apply (run_loop_total _ (fun _ => True) (fun st => (2 - seen (ra_saw_path st, ra_saw_size st))%nat)).
  - intros st' _. unfold pax_record_step. by repeat case_match.
  - intros st' st'' _ Hs. split; [done|]. unfold pax_record_step in Hs. destruct (negb _); [by simplify_eq|].
    ok_steps Hs. simplify_eq. cbn [ra_saw_path ra_saw_size].
    match goal with H : audit_pax_keyword _ _ _ _ = Ok _ |- _ => apply keyword_seen_once in H end. lia.
  - done.
  - lia.
Qed.

Lemma pax_records_two base bytes rs : pax_records base bytes rs -> (length rs <= 2)%nat.
Proof.
  intros Hrs. rewrite <- (length_map keyword). apply pax_records_nodup in Hrs.
  destruct (map keyword rs) as [|k ks]; [simpl; lia|].
  apply NoDup_cons in Hrs as [Hk Hnd]. pose proof (keywords_fresh k ks Hnd Hk). simpl. lia.
Qed.

Lemma audit_pax_records_complete base payload rs :
  0 <= base -> base + Z.of_nat (length payload) <= u64_max ->
  pax_records base payload rs -> rs <> [] ->
  audit_pax_records payload base (map pax_record_evidence rs) = Some (Ok ()).
Proof.
  intros Hb Hu Hrs Hne. set (ev := map pax_record_evidence rs).
  assert (Hreach : forall bytes rs' tail rest, pax_records base bytes rs' -> payload = bytes ++ tail -> rs = rs' ++ rest ->
    rtc (loop_step (pax_record_step payload base ev)) (record_audit [] 0) (record_audit rs' (length bytes))).
  { intros bytes rs' tail rest Hr. revert tail rest.
    induction Hr as [|bytes rs' k raw rec v Hr IH Hk Hrec Hv]; intros tail rest Hpay Hrest; [apply rtc_refl|].
    rewrite <- app_assoc in Hpay, Hrest. eapply rtc_r; [by eapply IH|].
    eapply pax_record_step_complete; try done. unfold ev. rewrite Hrest, map_app, lookup_app_r, length_map, Nat.sub_diag by
      (rewrite length_map; lia). done. }
  unfold audit_pax_records. fold ev.
  assert (length ev = length rs) as Hlen by apply length_map.
  pose proof (pax_records_two _ _ _ Hrs) as Hcap.
  rewrite Hlen, (proj2 (Nat.eqb_neq _ _)), (proj2 (Nat.ltb_ge _ _)) by (done || (destruct rs; simpl in *; (done || lia))).
  cbn [orb].
  rewrite (run_loop_reaches _ 4 _ (record_audit rs (length payload)) (Ok (length rs))).
  - by rewrite Nat.eqb_refl.
  - apply pax_record_loop_total.
  - apply (Hreach payload rs [] []); [done|by rewrite app_nil_r|by rewrite app_nil_r].
  - unfold pax_record_step. cbn [ra_cursor record_audit ra_index]. by rewrite Z.ltb_irrefl.
Qed.

(** ** Overrides: the audit's sources are the reader's state *)

Definition source_of {T} (kind : PaxExtensionKind) (v : StateValue T) : PaxValueSource :=
  match kind with
  | Global => FromGlobal (sv_extension_index v) (sv_record_index v)
  | Local => FromLocal (sv_extension_index v) (sv_record_index v)
  end.
Definition overrides_of (kind : PaxExtensionKind) (st : OverrideState) : PaxAuditOverrides :=
  {| ov_path := option_map (source_of kind) (os_path st); ov_size := option_map (source_of kind) (os_size st) |}.

Lemma overrides_of_update kind g u :
  overrides_of kind (TarPax.update_from g u) = CoveringPax.update_from (overrides_of kind g) (overrides_of kind u).
Proof.
  unfold overrides_of, CoveringPax.update_from, TarPax.update_from. cbn [os_path os_size ov_path ov_size].
  by destruct (os_path u), (os_size u).
Qed.

(** The keyword of a record is that of its value, and its raw bytes say it. *)
Definition faithful (r : PaxRecord) : Prop := record_value (keyword r) (raw_value_bytes r) (value r).
Lemma pax_records_faithful base bytes rs : pax_records base bytes rs -> Forall faithful rs.
Proof. intros Hr. induction Hr; [constructor|]. apply Forall_app. split; [done|]. by constructor. Qed.

Lemma overrides_from_records kind e rs r st :
  Forall faithful rs -> r + Z.of_nat (length rs) <= u32_max ->
  overrides_from kind e r (map pax_record_evidence rs) (overrides_of kind st)
  = Ok (overrides_of kind (override_records rs e r st)).
Proof.
  intros Hf. revert r st. induction Hf as [|x rs Hx _ IH]; intros r st Hr; [done|].
  cbn [length] in Hr. cbn [map overrides_from override_records].
  rewrite (proj2 (Z.ltb_ge _ _)) by lia. rewrite <- IH by lia. f_equal.
  unfold faithful in Hx. cbn [pax_record_evidence re_keyword].
  destruct Hx; unfold overrides_of; by destruct kind.
Qed.

Lemma from_extension_records `{!Sha256} bs h off kind rs n :
  Forall faithful rs -> (length rs <= 2)%nat -> Z.of_nat n <= MAX_EXTENSIONS ->
  from_extension (pax_extension_evidence (extension_at bs h off kind rs)) (Z.of_nat n)
  = Ok (overrides_of kind (from_records rs (Z.of_nat n))).
Proof.
  intros Hf Hl Hn. unfold from_extension, from_records. unfold MAX_EXTENSIONS in Hn.
  rewrite (proj2 (Z.ltb_ge _ _)) by (unfold u32_max; lia).
  cbn [pax_extension_evidence xe_kind xe_records extension_at x_kind x_records].
  rewrite <- overrides_from_records; [by destruct kind|done|unfold u32_max; lia].
Qed.

(** Where the reader took a value from is where the audit says. *)
Lemma resolve_path_source raw g p name s :
  resolve_path raw g p = Ok (name, s) ->
  override ov_path (overrides_of Global g) (option_map (overrides_of Local) p) = s.
Proof.
  unfold resolve_path, override. intros Hr. ok_steps Hr. simplify_eq. destruct p as [u|]; cbn in *.
  - destruct (os_path u); cbn in *; [by simplify_eq|]. destruct (os_path g); cbn in *; [by simplify_eq|].
    by destruct (from_utf8 raw); simplify_eq/=.
  - destruct (os_path g); cbn in *; [by simplify_eq|]. by destruct (from_utf8 raw); simplify_eq/=.
Qed.
Lemma resolve_size_source hs g p n s :
  resolve_size hs g p = (n, s) -> override ov_size (overrides_of Global g) (option_map (overrides_of Local) p) = s.
Proof.
  unfold resolve_size, override. intros Hr. destruct p as [u|]; cbn in *.
  - destruct (os_size u); cbn in *; [by simplify_eq|]. by destruct (os_size g); simplify_eq.
  - by destruct (os_size g); simplify_eq.
Qed.

(** A source that has provenance names a record of the claimed extensions. *)
Lemma provenance_record es rest o k s v own :
  provenance es o k s v own -> s <> FromUstar ->
  exists rec, pax_source_record (map pax_extension_evidence (es ++ rest)) s k = Some (pax_record_evidence rec)
    /\ (exists e, e ∈ es /\ rec ∈ x_records e) /\ value rec = v.
Proof.
  intros Hp Hs. assert (Hsome : exists e i r kind, (s = FromLocal i r /\ kind = Local \/ s = FromGlobal i r /\ kind = Global)
    /\ 0 <= i /\ es !! Z.to_nat i = Some e /\ x_kind e = kind /\ defines_at e r k v).
  { destruct s as [|i r|i r]; [done| |].
    - destruct Hp as [(e & Hi & He & [Hk _] & Hd) _]. exists e, i, r, Global. eauto 10.
    - destruct Hp as (e & Hi & He & [Hk _] & Hd). exists e, i, r, Local. eauto 10. }
  destruct Hsome as (e & i & r & kind & Hsrc & Hi & He & Hk & Hr & rec & Hrec & Hkw & Hv).
  exists rec. split; [|split; [|done]].
  2:{ exists e. split; by eapply list_elem_of_lookup_2. }
  assert (Hl : map pax_extension_evidence (es ++ rest) !! Z.to_nat i = Some (pax_extension_evidence e)).
  { rewrite map_app, lookup_app_l; [by rewrite list_lookup_fmap, He|].
    rewrite length_map. by eapply lookup_lt_Some. }
  assert (Hl2 : xe_records (pax_extension_evidence e) !! Z.to_nat r = Some (pax_record_evidence rec)).
  { cbn [xe_records pax_extension_evidence]. by rewrite list_lookup_fmap, Hrec. }
  destruct Hsrc as [[-> Hkind]|[-> Hkind]]; unfold pax_source_record; rewrite Hl; cbn [mbind option_bind];
    change (xe_kind (pax_extension_evidence e)) with (x_kind e); rewrite Hk, Hkind, bool_decide_eq_true_2 by done;
    cbn [negb]; rewrite Hl2; cbn [mbind option_bind pax_record_evidence re_keyword]; by rewrite Hkw, bool_decide_eq_true_2.
Qed.

(** ** One record *)

Section Replay.
Context `{SHA : !Sha256, ALLOC : !Allocator} (s : SourceSnapshot) (bs : list byte).
Context (Hs : reliable s bs) (Halloc : forall site n, try_reserve site n = true).

(** What the audit reads of an accepted header. *)
Lemma pax_header_audited off h :
  header_at bs off h -> 0 <= off -> off + BLOCK_LEN <= Z.of_nat (length bs) ->
  let hdr := range off BLOCK_LEN bs in
  audit_pax_header hdr = Ok {| pf_typeflag := at_ hdr 156; pf_size := h_size h; pf_mode := h_mode h;
                               pf_mtime := h_mtime h; pf_checksum := h_header_checksum h |}
  /\ pax_header_name_matches hdr (h_raw_name h) = true
  /\ h_header_sha256 h = hex_sha256 hdr /\ h_header h = mkrange off BLOCK_LEN
  /\ h_kind h = pax_kind_of (at_ hdr 156) /\ at_ hdr 156 ∈ [x00; "0"; "5"; "g"; "x"]%byte.
Proof using.
  clear. intros Hh Ho Hl hdr. unfold header_at in Hh. fold hdr in Hh.
  assert (length hdr = 512%nat) as H512 by (unfold hdr; rewrite length_range; unfold BLOCK_LEN in *; lia).
  apply parse_pax_fields in Hh as (mode & size & mtime & checksum & name & prefix & Hf & Hfr & Hk & Hn & Hp & _ & ->).
  cbn. split_and!; try done.
  - apply audit_pax_fields; [done|]. eauto 10.
  - apply pax_header_name_iff. eauto.
Qed.

Lemma extension_typeflag typeflag kind :
  extension_kind (pax_kind_of typeflag) = Some kind ->
  bool_decide (typeflag = match kind with Global => "g"%byte | Local => "x"%byte end) = true.
Proof using.
  clear. destruct kind; unfold pax_kind_of; by repeat case_bool_decide.
Qed.

Lemma audit_extension_complete off h kind rs stop :
  0 <= off -> off mod 512 = 0 -> pax_record_at bs off h (h_size h) -> extension_kind (h_kind h) = Some kind ->
  h_size h <= MAX_EXTENSION_BYTES -> pax_records (off + BLOCK_LEN) (range (off + BLOCK_LEN) (h_size h) bs) rs ->
  rs <> [] -> record_stop off (h_size h) <= stop ->
  audit_one_pax_extension s (pax_extension_evidence (extension_at bs h off kind rs)) off stop
  = Some (Ok (record_stop off (h_size h))).
Proof using Hs Halloc.
  intros Ho Hmod [Hh Hsz Hf Hz] Hk Hcap Hrs Hne Hstop.
  pose proof (padded_spec (h_size h) ltac:(lia)) as [Hpad Hmod']. unfold record_stop, BLOCK_LEN in *.
  pose proof (represents_u64 _ _ (reliable_represents _ _ Hs)) as Hu.
  destruct (pax_header_audited off h Hh Ho ltac:(unfold BLOCK_LEN; lia)) as (Ha & Hname & Hsha & Hrange & Hkind & _).
  unfold BLOCK_LEN in *. rewrite Hkind in Hk. apply extension_typeflag in Hk.
  unfold audit_one_pax_extension. cbn [pax_extension_evidence extension_at xe_header xe_payload xe_padding xe_kind
    xe_mode xe_mtime xe_header_checksum xe_raw_name_bytes xe_header_sha256 xe_payload_sha256 xe_records
    x_raw_name x_kind x_header x_payload x_padding x_mode x_mtime x_header_checksum x_header_sha256 x_payload_sha256 x_records].
  rewrite Hrange. unfold checked_range_end, BLOCK_LEN. cbn [offset len mkrange].
  rewrite !u64_checked_add_le by lia. cbn [ok_or]. unfold PAX_BLOCK_LEN.
  rewrite expected_padding_eq by lia. unfold PAX_MAX_EXTENSION_BYTES, MAX_EXTENSION_BYTES in *.
  replace (off + 512 + h_size h + (padded (h_size h) - h_size h)) with (off + 512 + padded (h_size h)) by lia.
  assert ((off + 512 + padded (h_size h)) mod 512 = 0) as -> by (Z.div_mod_to_equations; lia).
  rewrite !Z.eqb_refl, !(proj2 (Z.ltb_ge _ _)) by lia. cbn [negb orb].
  rewrite (reliable_read _ _ Hs) by lia. cbn [map_err]. rewrite Ha. cbn [pf_typeflag pf_size pf_mode pf_mtime pf_checksum].
  rewrite Hk, !Z.eqb_refl, Hname, Hsha, !(proj2 (bytes_eqb_iff _ _) eq_refl). cbn [negb orb].
  rewrite (read_vec_complete s bs) by (done || lia). cbn [map_err].
  rewrite !(proj2 (bytes_eqb_iff _ _) eq_refl). cbn [negb].
  rewrite audit_pax_records_complete by (done || rewrite ?length_range; lia).
  by rewrite (audit_zero_range_pass s bs) by (done || lia).
Qed.

(** What a planned member must say of a member the reader returned. *)
Definition pax_member_evidence (m : PaxMember) : TarPaxMemberEvidence :=
  {| pe_tar := {| te_header := m_header m; te_payload := m_payload m; te_padding := m_padding m;
                  te_mode := m_mode m; te_mtime := m_mtime m; te_header_checksum := m_header_checksum m;
                  te_header_sha256 := m_header_sha256 m |};
     pe_base_name_bytes := m_raw_name m; pe_base_size := m_header_size m;
     pe_path_source := src_path (m_sources m); pe_size_source := src_size (m_sources m) |}.
Record says_pax (m : PaxMember) (im : IrMember) : Prop := {
  sx_format : member_format im ∈ [FormatTarPax; FormatTarGzipPax];
  sx_evidence : tar_pax_evidence im = Some (pax_member_evidence m);
  sx_kind : ir_kind im = kind_of (m_is_dir m);
  sx_size : declared_uncomp_size im = m_size m;
  sx_raw : ir_raw_name_bytes im = m_name m;
  sx_name : decoded_name im = m_name m
}.

Lemma pax_run_faithful ms es g p off e rec :
  pax_run bs ms es g p off -> e ∈ es -> rec ∈ x_records e -> faithful rec.
Proof using.
  clear. intros Hr He Hrec. induction Hr as [|ms es g off h kind rs Hr IH _ _ _ _ Hpay _ u|ms es g p off h name psrc n ssrc Hr IH _ _ _ _ _].
  - by apply not_elem_of_nil in He.
  - apply elem_of_app in He as [He| ->%list_elem_of_singleton]; [by apply IH|].
    apply pax_records_faithful in Hpay. by eapply Forall_forall in Hpay.
  - by apply IH.
Qed.

Lemma path_text_ok name :
  validate_effective_path name = Ok () -> is_Some (from_utf8 name) -> pax_path_text name = true.
Proof using.
  clear. intros (Hne & Hl & Hz)%validate_path_bytes_ok [d Hd]. unfold pax_path_text.
  rewrite Hd, (proj2 (existsb_zero name)) by done. rewrite (proj2 (Z.leb_le _ _)) by exact Hl.
  rewrite bool_decide_eq_false_2 by done. by destruct name.
Qed.

Section Member.
Context (ms : list PaxMember) (es rest : list PaxExtension) (g : OverrideState) (p : option OverrideState) (off : Z).
Context (Hrun : pax_run bs ms es g p off).

Lemma effective_name_replayed raw name psrc member ev :
  resolve_path raw g p = Ok (name, psrc) -> pe_base_name_bytes ev = raw ->
  effective_name (map pax_extension_evidence (es ++ rest)) ev member psrc = Ok name /\ pax_path_text name = true.
Proof using Hrun.
  intros Hr Hev. pose proof (resolved_provenance _ _ _ _ _ _ _ _ _ (pax_run_ok _ _ _ _ _ _ Hrun) (resolve_path_resolved _ _ _ _ _ Hr)) as Hp.
  assert (validate_effective_path name = Ok ()) as Hv.
  { unfold resolve_path in Hr. ok_steps Hr. simplify_eq. by units. }
  destruct (decide (psrc = FromUstar)) as [->|Hsrc].
  - destruct Hp as [[= ->] _]. cbn [effective_name]. rewrite Hev. split; [done|]. apply path_text_ok; [done|].
    unfold resolve_path in Hr. ok_steps Hr. simplify_eq. destruct (p ≫= os_path); [done|].
    destruct (os_path g); [done|]. destruct (from_utf8 (pe_base_name_bytes ev)); [by eexists|done].
  - destruct (provenance_record es rest off Path psrc (PathValue name) (PathValue raw) Hp Hsrc) as (rec & Hrec & (e & He & Hin) & Hval).
    pose proof (pax_run_faithful _ _ _ _ _ _ _ Hrun He Hin) as Hf. unfold faithful in Hf. rewrite Hval in Hf.
    inversion Hf as [r Hne Hl Hz Hc Hk Hraw|]; subst. split.
    + unfold effective_name. rewrite Hrec. cbn [ok_or pax_record_evidence re_raw_value_bytes]. by destruct psrc.
    + apply path_text_ok; [done|]. unfold from_utf8. destruct Hc as [cs ->]. by eexists.
Qed.

Lemma effective_size_replayed hs n ssrc member ev :
  resolve_size hs g p = (n, ssrc) -> pe_base_size ev = hs ->
  effective_size (map pax_extension_evidence (es ++ rest)) ev member ssrc = Ok n.
Proof using Hrun.
  intros Hr Hev. pose proof (resolved_provenance _ _ _ _ _ _ _ _ _ (pax_run_ok _ _ _ _ _ _ Hrun) (resolve_size_resolved _ _ _ _ _ Hr)) as Hp.
  destruct (decide (ssrc = FromUstar)) as [->|Hsrc].
  - destruct Hp as [[= ->] _]. cbn [effective_size]. by rewrite Hev.
  - destruct (provenance_record es rest off Size ssrc (SizeValue n) (SizeValue hs) Hp Hsrc) as (rec & Hrec & _ & Hval).
    unfold effective_size. rewrite Hrec. cbn [mbind option_bind ok_or pax_record_evidence re_parsed_size]. rewrite Hval. by destruct ssrc.
Qed.
End Member.

Lemma member_typeflag typeflag :
  typeflag ∈ [x00; "0"; "5"; "g"; "x"]%byte -> extension_kind (pax_kind_of typeflag) = None ->
  bool_decide (typeflag ∈ [x00; "0"; "5"]%byte) = true.
Proof using.
  clear. intros Hin Hk. apply (bool_decide_eq_true_2 _) in Hin.
  destruct typeflag; first [reflexivity|discriminate Hin|discriminate Hk].
Qed.

Lemma audit_member_complete ms es rest g p off h name psrc n ssrc im stop :
  pax_run bs ms es g p off -> 0 <= off -> off mod 512 = 0 -> extension_kind (h_kind h) = None ->
  resolve_path (h_raw_name h) g p = Ok (name, psrc) -> resolve_size (h_size h) g p = (n, ssrc) ->
  (h_kind h = Directory -> n = 0) -> pax_record_at bs off h n ->
  says_pax (member_at h off name n {| src_path := psrc; src_size := ssrc |}) im -> record_stop off n <= stop ->
  audit_one_pax_member s im (map pax_extension_evidence (es ++ rest)) (overrides_of Global g)
    (option_map (overrides_of Local) p) off stop = Some (Ok (record_stop off n)).
Proof using Hs Halloc.
  intros Hrun Ho Hmod Hk Hpath Hsize Hdir [Hh Hsz Hf Hz] [Hfmt Hev Hkd Hds Hraw Hdn] Hstop.
  pose proof (padded_spec n ltac:(lia)) as [Hpad Hmod']. unfold record_stop, BLOCK_LEN in *.
  pose proof (represents_u64 _ _ (reliable_represents _ _ Hs)) as Hu.
  destruct (pax_header_audited off h Hh Ho ltac:(unfold BLOCK_LEN; lia)) as (Ha & Hname & Hsha & Hrange & Hkind & Htf).
  rewrite Hkind in Hk. pose proof (member_typeflag _ Htf Hk) as Htype.
  destruct (effective_name_replayed ms es rest g p off Hrun _ _ _ (decoded_name im) (pax_member_evidence
    (member_at h off name n {| src_path := psrc; src_size := ssrc |})) Hpath eq_refl) as [Heff Htext].
  pose proof (effective_size_replayed ms es rest g p off Hrun _ _ _ (decoded_name im) (pax_member_evidence
    (member_at h off name n {| src_path := psrc; src_size := ssrc |})) Hsize eq_refl) as Hsz'.
  unfold audit_one_pax_member. rewrite bool_decide_eq_true_2 by done. rewrite Hev. cbn [negb ok_or].
  rewrite Hds, Hkd, Hraw, Hdn. cbn [m_size m_is_dir m_name member_at].
  rewrite (resolve_path_source _ _ _ _ _ Hpath), (resolve_size_source _ _ _ _ _ Hsize).
  rewrite Hdn in Heff, Hsz'. cbn [m_name member_at] in Heff, Hsz'. rewrite Heff, Hsz'.
  cbn [pax_member_evidence pe_tar pe_base_name_bytes pe_base_size pe_path_source pe_size_source te_header te_payload
    te_padding te_mode te_mtime te_header_checksum te_header_sha256 member_at m_header m_payload m_padding m_mode m_mtime
    m_header_checksum m_header_sha256 m_raw_name m_header_size m_sources src_path src_size].
  rewrite Hrange, Hkind, pax_directory_iff. unfold checked_range_end, BLOCK_LEN in *. cbn [offset len mkrange].
  rewrite !u64_checked_add_le by lia. cbn [ok_or]. unfold PAX_BLOCK_LEN.
  rewrite expected_padding_eq by lia.
  replace (off + 512 + n + (padded n - n)) with (off + 512 + padded n) by lia.
  assert ((off + 512 + padded n) mod 512 = 0) as -> by (Z.div_mod_to_equations; lia).
  rewrite !Z.eqb_refl, !(proj2 (Z.ltb_ge _ _)) by lia. cbn [negb orb].
  rewrite (reliable_read _ _ Hs) by lia. cbn [map_err]. rewrite Ha.
  cbn [map_err pf_typeflag pf_size pf_mode pf_mtime pf_checksum].
  rewrite Htype, !Z.eqb_refl, Hsha. rewrite Hname.
  rewrite !(proj2 (bytes_eqb_iff _ _) eq_refl), Htext.
  rewrite (bool_decide_eq_true_2 (psrc = psrc)), (bool_decide_eq_true_2 (ssrc = ssrc)) by done.
  assert (eqb (bool_decide (at_ (range off 512 bs) 156 = "5"%byte))
    (bool_decide (kind_of (bool_decide (at_ (range off 512 bs) 156 = "5"%byte)) = KindDirectory)) = true) as ->
    by (by destruct (bool_decide (at_ (range off 512 bs) 156 = "5"%byte))).
  assert (bool_decide (at_ (range off 512 bs) 156 = "5"%byte) && negb (n =? 0) = false) as ->.
  { apply andb_false_iff. destruct (bool_decide_reflect (at_ (range off 512 bs) 156 = "5"%byte)) as [E|]; [right|by left].
    rewrite Hdir; [done|]. by rewrite Hkind, E. }
  cbn [negb orb]. by rewrite (audit_zero_range_pass s bs) by (done || lia).
Qed.

(** ** The replay *)

Definition audit_at (ms : list PaxMember) (es : list PaxExtension) (g : OverrideState)
    (p : option OverrideState) (off : Z) : PaxAudit :=
  {| pu_cursor := off; pu_extension_index := length es; pu_member_index := length ms;
     pu_globals := overrides_of Global g; pu_pending_local := option_map (overrides_of Local) p |}.

Lemma pax_run_aligned ms es g p off : pax_run bs ms es g p off -> off mod 512 = 0.
Proof using.
  clear. intros Hr. induction Hr as [|ms es g off h kind rs Hr IH Hrec _ _ _ _ _ u|ms es g p off h name psrc n ssrc Hr IH _ _ _ _ Hrec];
    [done| |]; destruct Hrec as [_ Hsz _ _];
    [pose proof (padded_spec (h_size h) ltac:(lia))|pose proof (padded_spec n ltac:(lia))];
    unfold record_stop, BLOCK_LEN; Z.div_mod_to_equations; lia.
Qed.

Section Reach.
Context (all_ms : list PaxMember) (all_es : list PaxExtension) (irs : list IrMember) (stop : Z).
Context (Hsays : Forall2 says_pax all_ms irs).
Local Abbreviation step := (pax_audit_step s (map pax_extension_evidence all_es) irs stop).

(** What the reader has not read yet lies further on. *)
Definition later (off : Z) (ms : list PaxMember) (es : list PaxExtension) : Prop :=
  (forall m, m ∈ ms -> off <= offset (m_header m)) /\ (forall e, e ∈ es -> off <= offset (x_header e)).

Lemma member_elsewhere ms rest off :
  all_ms = ms ++ rest -> (forall m, m ∈ rest -> off < offset (m_header m)) ->
  from_option (fun value => from_option (fun e => offset (te_header (pe_tar e)) =? off) false (tar_pax_evidence value))
    false (irs !! length ms) = false.
Proof using Hsays.
  intros Hall Hl. destruct (irs !! length ms) as [im|] eqn:Him; [|done].
  destruct (Forall2_lookup_r _ _ _ _ _ Hsays Him) as (m & Hm & Hs'). rewrite Hall, lookup_app_r, Nat.sub_diag in Hm by lia.
  cbn. rewrite (sx_evidence _ _ Hs'). cbn. apply Z.eqb_neq. apply list_elem_of_lookup_2, Hl in Hm. lia.
Qed.
Lemma extension_elsewhere es rest off :
  all_es = es ++ rest -> (forall e, e ∈ rest -> off < offset (x_header e)) ->
  from_option (fun value => offset (xe_header value) =? off) false (map pax_extension_evidence all_es !! length es) = false.
Proof using.
  clear. intros -> Hl. rewrite list_lookup_fmap, lookup_app_r, Nat.sub_diag by lia.
  destruct rest as [|e rest]; [done|]. cbn. apply Z.eqb_neq. specialize (Hl e ltac:(by left)). lia.
Qed.

Lemma extension_step ms es g off h kind rs rms res :
  pax_run bs ms es g None off -> 0 <= off -> pax_record_at bs off h (h_size h) ->
  extension_kind (h_kind h) = Some kind ->
  h_size h <= MAX_EXTENSION_BYTES -> Z.of_nat (length es) < MAX_EXTENSIONS ->
  pax_records (off + BLOCK_LEN) (range (off + BLOCK_LEN) (h_size h) bs) rs -> rs <> [] ->
  all_ms = ms ++ rms -> all_es = (es ++ [extension_at bs h off kind rs]) ++ res ->
  later (record_stop off (h_size h)) rms res -> record_stop off (h_size h) <= stop ->
  let u := from_records rs (Z.of_nat (length es)) in
  loop_step step (audit_at ms es g None off)
    (audit_at ms (es ++ [extension_at bs h off kind rs]) (globals_after kind g u) (pending_after kind u)
       (record_stop off (h_size h))).
Proof using Hs Halloc Hsays.
  intros Hrun Ho Hrec Hk Hcap Hcount Hrs Hne Hms Hes [Hlm Hle] Hst u.
  pose proof Hrec as [Hh Hsz Hf Hz]. pose proof (padded_spec (h_size h) ltac:(lia)) as [Hpad _].
  assert (Hadv : off < record_stop off (h_size h)) by (unfold record_stop, BLOCK_LEN; lia).
  assert (Hat : map pax_extension_evidence all_es !! length es = Some (pax_extension_evidence (extension_at bs h off kind rs))).
  { rewrite Hes, list_lookup_fmap, <- app_assoc, lookup_app_r, Nat.sub_diag by lia. done. }
  unfold loop_step, pax_audit_step. cbn [pu_cursor pu_extension_index pu_member_index pu_globals pu_pending_local audit_at option_map].
  rewrite (proj2 (Z.ltb_lt _ _)) by lia. cbn [negb]. rewrite Hat.
  rewrite (member_elsewhere ms rms off Hms) by (intros m Hm; apply Hlm in Hm; lia).
  assert (Hhd : offset (x_header (extension_at bs h off kind rs)) = off)
    by (cbn; by rewrite (pax_parse_header_range _ _ _ Hh)).
  cbn [from_option]. change (xe_header (pax_extension_evidence ?e)) with (x_header e). rewrite Hhd, Z.eqb_refl.
  rewrite bool_decide_eq_false_2 by (by intros []).
  rewrite (audit_extension_complete off h kind rs stop) by (done || by eapply pax_run_aligned).
  rewrite (from_extension_records bs h off kind rs (length es)); [|by eapply pax_records_faithful|by eapply pax_records_two|lia].
  cbn [pax_extension_evidence xe_kind extension_at x_kind]. fold u. do 3 f_equal. unfold audit_at. rewrite length_app, Nat.add_1_r.
  f_equal; destruct kind; cbn [globals_after pending_after option_map]; by rewrite ?overrides_of_update.
Qed.

Lemma member_step ms es g p off h name psrc n ssrc rms res :
  pax_run bs ms es g p off -> 0 <= off -> extension_kind (h_kind h) = None ->
  resolve_path (h_raw_name h) g p = Ok (name, psrc) -> resolve_size (h_size h) g p = (n, ssrc) ->
  (h_kind h = Directory -> n = 0) -> pax_record_at bs off h n ->
  let m := member_at h off name n {| src_path := psrc; src_size := ssrc |} in
  all_ms = (ms ++ [m]) ++ rms -> all_es = es ++ res ->
  later (record_stop off n) rms res -> record_stop off n <= stop ->
  loop_step step (audit_at ms es g p off) (audit_at (ms ++ [m]) es g None (record_stop off n)).
Proof using Hs Halloc Hsays.
  intros Hrun Ho Hk Hpath Hsize Hdir Hrec m Hms Hes [Hlm Hle] Hst.
  pose proof Hrec as [Hh Hsz Hf Hz]. pose proof (padded_spec n ltac:(lia)) as [Hpad _].
  assert (Hadv : off < record_stop off n) by (unfold record_stop, BLOCK_LEN; lia).
  assert (Hat : exists im, irs !! length ms = Some im /\ says_pax m im).
  { destruct (Forall2_lookup_l _ _ _ (length ms) m Hsays) as (im & Him & Hi); [|by exists im].
    rewrite Hms, <- app_assoc, lookup_app_r, Nat.sub_diag by lia. done. }
  destruct Hat as (im & Him & Hi).
  unfold loop_step, pax_audit_step. cbn [pu_cursor pu_extension_index pu_member_index pu_globals pu_pending_local audit_at].
  rewrite (proj2 (Z.ltb_lt _ _)) by lia. cbn [negb].
  rewrite (extension_elsewhere es res off Hes) by (intros e He; apply Hle in He; lia). rewrite Him.
  cbn [from_option]. rewrite (sx_evidence _ _ Hi). cbn [from_option pax_member_evidence pe_tar te_header].
  assert (Hhd : offset (m_header m) = off) by (cbn; by rewrite (pax_parse_header_range _ _ _ Hh)).
  rewrite Hhd, Z.eqb_refl. rewrite Hes.
  rewrite (audit_member_complete ms es res g p off h name psrc n ssrc im stop) by (done || by eapply pax_run_aligned).
  do 3 f_equal. unfold audit_at. by rewrite length_app, Nat.add_1_r.
Qed.

Lemma later_weaken off off' ms es : off' <= off -> later off ms es -> later off' ms es.
Proof using. clear. intros Ho [H1 H2]. split; [intros m Hm; apply H1 in Hm|intros e He; apply H2 in He]; lia. Qed.

Lemma pax_audit_reaches ms es g p off :
  pax_run bs ms es g p off -> forall rms res, all_ms = ms ++ rms -> all_es = es ++ res -> later off rms res -> off <= stop ->
  rtc (loop_step step) (audit_at [] [] default_state None 0) (audit_at ms es g p off).
Proof using Hs Halloc Hsays.
  intros Hr. induction Hr as [|ms es g off h kind rs Hr IH Hrec Hk Hcap Hcount Hpay Hne u
    |ms es g p off h name psrc n ssrc Hr IH Hk Hpath Hsize Hdir Hrec]; intros rms res Hms Hes Hl Hst; [apply rtc_refl|..].
  - pose proof (pax_run_bound _ _ _ _ _ _ Hr) as [Hb _]. pose proof Hrec as [Hh Hsz _ _].
    pose proof (padded_spec (h_size h) ltac:(lia)) as [Hpad _].
    assert (Hadv : off < record_stop off (h_size h)) by (unfold record_stop, BLOCK_LEN; lia).
    eapply rtc_r; [apply (IH rms (extension_at bs h off kind rs :: res)); [done|by rewrite Hes, <- app_assoc| |lia]|].
    + destruct Hl as [Hl1 Hl2]. split; [intros m Hm; apply Hl1 in Hm; lia|].
      intros e [->|He]%elem_of_cons; [|apply Hl2 in He; lia]. cbn. rewrite (pax_parse_header_range _ _ _ Hh). cbn. lia.
    + by eapply extension_step; [exact Hr|lia|..].
  - pose proof (pax_run_bound _ _ _ _ _ _ Hr) as [Hb _]. pose proof Hrec as [Hh Hsz _ _].
    pose proof (padded_spec n ltac:(lia)) as [Hpad _].
    assert (Hadv : off < record_stop off n) by (unfold record_stop, BLOCK_LEN; lia).
    set (m := member_at h off name n _) in *.
    eapply rtc_r; [apply (IH (m :: rms) res); [by rewrite Hms, <- app_assoc|done| |lia]|].
    + destruct Hl as [Hl1 Hl2]. split; [|intros e He; apply Hl2 in He; lia].
      intros m' [->|Hm]%elem_of_cons; [|apply Hl1 in Hm; lia]. cbn. rewrite (pax_parse_header_range _ _ _ Hh). cbn. lia.
    + by eapply member_step; [exact Hr|lia|..].
Qed.
End Reach.

(** Each iteration takes an extension or a member. *)
Lemma pax_audit_advances extensions irs stop st1 st2 :
  loop_step (pax_audit_step s extensions irs stop) st1 st2 ->
  let left st := ((length extensions - pu_extension_index st) + (length irs - pu_member_index st))%nat in
  (left st2 < left st1)%nat.
Proof using.
  clear. unfold loop_step, pax_audit_step. intros H.
  destruct (negb _); [done|]. cbv zeta in H.
  destruct (from_option _ false (extensions !! _)), (from_option _ false (irs !! _)); try done;
    [destruct (extensions !! pu_extension_index st1) eqn:He|destruct (irs !! pu_member_index st1) eqn:Hi];
    try (by repeat case_match);
    ok_steps H; simplify_eq; cbn; [apply lookup_lt_Some in He|apply lookup_lt_Some in Hi]; lia.
Qed.

Lemma pax_extensions_capped ms es g p off : pax_run bs ms es g p off -> Z.of_nat (length es) <= MAX_EXTENSIONS.
Proof using. clear. intros Hr. induction Hr; [done| |done]. rewrite length_app. simpl. lia. Qed.

(** What a representation must say of the archive. *)
Record says_pax_archive (ir : ArchiveIR) (a : PaxArchive) : Prop := {
  sp_covering : archive_pax_evidence ir = Some
    {| pa_tar := covering_of_pax a; pa_extensions := map pax_extension_evidence (x_extensions a) |};
  sp_members : Forall2 says_pax (x_members a) (members ir)
}.

Lemma audit_pax_complete ir a :
  audit_pax_identity s ir = Ok () -> pax_archive bs a -> says_pax_archive ir a ->
  audit_tar_pax_covering s ir = Some (Ok ()).
Proof using Hs Halloc.
  intros Hid [Hblocks [g Hrun] Hlay Hfit Hz] [Hcov Hms]. cbv zeta in Hlay, Hz.
  set (stop := len (x_member_records a)) in *.
  pose proof (represents_len _ _ (reliable_represents _ _ Hs)) as Hlen.
  pose proof (represents_u64 _ _ (reliable_represents _ _ Hs)) as Hu.
  pose proof (pax_extensions_capped _ _ _ _ _ Hrun) as Hcap. pose proof (pax_run_bound _ _ _ _ _ _ Hrun) as [Hb _].
  replace (Z.of_nat (length bs) - stop) with (1024 + (Z.of_nat (length bs) - (stop + 1024))) in Hz by lia.
  unfold BLOCK_LEN in *. rewrite range_app, all_zero_app in Hz by lia. apply andb_true_iff in Hz as [Hz1 Hz2].
  assert (Hparts : covering_of_pax a = {| tc_member_records := mkrange 0 stop; tc_terminator := mkrange stop 1024;
    tc_trailing_zeros := mkrange (stop + 1024) (Z.of_nat (length bs) - (stop + 1024)) |}).
  { unfold covering_of_pax. rewrite Hlay. done. }
  unfold audit_tar_pax_covering. rewrite Hid, Hcov, Hparts. cbn [ok_or pa_tar pa_extensions tc_member_records tc_terminator tc_trailing_zeros].
  rewrite length_map. unfold PAX_MAX_EXTENSIONS, MAX_EXTENSIONS in *.
  rewrite !(proj2 (Z.ltb_ge _ _)) by (unfold u32_max; lia). cbn [orb].
  unfold checked_range_end, PAX_BLOCK_LEN. cbn [offset len mkrange].
  rewrite !u64_checked_add_le by lia. cbn [ok_or]. rewrite Z.add_0_l, Hlen.
  replace (stop + 1024 + (Z.of_nat (length bs) - (stop + 1024))) with (Z.of_nat (length bs)) by lia.
  rewrite !Z.eqb_refl, Hblocks. cbn [negb orb]. change (512 * 2) with 1024. rewrite ?Z.eqb_refl. cbn [negb orb].
  rewrite (run_loop_measured _ (fun st => ((length (map pax_extension_evidence (x_extensions a)) - pu_extension_index st)
      + (length (members ir) - pu_member_index st))%nat) _ (audit_at (x_members a) (x_extensions a) g None stop)
      (Ok (audit_at (x_members a) (x_extensions a) g None stop))).
  - cbn [pu_cursor pu_extension_index pu_member_index pu_pending_local audit_at option_map].
    rewrite Z.eqb_refl, <- (Forall2_length _ _ _ Hms), !Nat.eqb_refl, bool_decide_eq_false_2 by (by intros []). cbn [negb orb].
    rewrite (audit_zero_range_pass s bs) by (done || lia). apply audit_zero_range_pass with bs; done || lia.
  - intros st1 st2. apply pax_audit_advances.
  - apply (pax_audit_reaches (x_members a) (x_extensions a) (members ir) stop Hms _ _ _ _ _ Hrun [] []);
      [by rewrite app_nil_r|by rewrite app_nil_r|split; by intros ? ?%not_elem_of_nil|done].
  - unfold pax_audit_step. cbn [pu_cursor audit_at]. by rewrite Z.ltb_irrefl.
  - cbn [pu_extension_index pu_member_index]. rewrite length_map. lia.
Qed.
End Replay.
