(* ===== verification/DispatchSafe.v ===== *)
(** * A raw TAR operation decides its bytes ([apply.rs])

    The whole operation on a raw TAR dialect, from the caller's bytes to the
    outcome: it always ends, and an inspection is allowed exactly for the
    bytes that are an archive of the dialect's grammar within the policy's
    caps and whose members the planner places.  A dialect is a record of what
    its planner uses, with laws its parser, its planner and its audit
    discharge; the theorems are proved once against the laws. *)

From S2P Require Import Prelude Utf8 Paths Sort Findings Hints Quota Snapshot Streams Transforms Ir TarFields Tar TarGnu TarPax Evidence Identity Policy Jail Planning PlanSafe Refusals Verification Outcome FileSystem Materialize Retention Crc Covering CoveringTar TarGnuRefine CoveringGnu CoveringGnuAgree CoveringPax Composite Receipt Profiles Execute ExecuteSafe ExecuteLive Dispatch TarWrite TarRefine MemFs Publication.
Local Open Scope Z_scope.
Local Open Scope rust_scope.

(** ** Dialects *)

Record RawDialect : Type := {
  rd_archive : Type;
  rd_member : Type;
  rd_declared : Declared rd_member;
  rd_parse : SourceSnapshot -> Z -> Z -> exec rd_archive Finding;
  rd_members : rd_archive -> list rd_member;
  rd_metadata : rd_archive -> Z;
  rd_observes : SourceSnapshot -> bool;
  rd_payload : rd_member -> PayloadPlan;
  rd_plan : rd_member * list str * list NormalizationAction -> IrMember;
  rd_represent : SourceDigest -> rd_archive -> list IrMember -> ArchiveIR;
  rd_audit : SourceSnapshot -> ArchiveIR -> exec unit Finding;
  (** The archives the bytes can be, and the plans the audit stands behind. *)
  rd_grammar : list byte -> rd_archive -> Prop;
  rd_stands : rd_member * list str * list NormalizationAction -> bool
}.
#[export] Existing Instance rd_declared.

(** The payload of a member is [size] bytes of the source. *)
Definition payload_inside (bs : list byte) (payload : PayloadPlan) (size : Z) : Prop :=
  exists r, payload = raw_payload (original_range r) size /\ 0 <= offset r /\ 0 <= size /\ len r = size
    /\ offset r + size <= Z.of_nat (length bs).

Section Laws.
Context `{SHA : !Sha256, ALLOC : !Allocator, UNI : !Unicode}.

Record DialectLaws (d : RawDialect) : Prop := {
  dl_parse : forall s bs max_files max_metadata,
    reliable s bs -> (forall site n, try_reserve site n = true) -> 0 <= max_files -> 0 <= max_metadata ->
    is_Some (rd_parse d s max_files max_metadata) /\
    forall x, rd_parse d s max_files max_metadata = Some (Ok x) <->
      rd_grammar d bs x /\ Z.of_nat (length (rd_members d x)) <= max_files /\ rd_metadata d x <= max_metadata;
  dl_members : forall s bs x m, reliable s bs -> rd_grammar d bs x -> m ∈ rd_members d x ->
    payload_inside bs (rd_payload d m) (dc_size m);
  dl_stored : forall m : rd_member d, dc_stored m = dc_size m;
  dl_plan : forall m components actions,
    from_ir (rd_plan d (m, components, actions)) = rd_payload d m
    /\ declared_uncomp_size (rd_plan d (m, components, actions)) = dc_size m
    /\ canonical_path (rd_plan d (m, components, actions)) = join_slash components;
  dl_represent : forall source x ms,
    source_digest (rd_represent d source x ms) = source /\ members (rd_represent d source x ms) = ms
    /\ raw_tar (format (rd_represent d source x ms))
    /\ forall p, member_format (rd_plan d p) = format (rd_represent d source x ms);
  dl_audit : forall s bs x b planned,
    reliable s bs -> reads_refuse s -> (exists sha, digest s = Available sha) ->
    (forall site n, try_reserve site n = true) -> rd_grammar d bs x ->
    tar_plan_ok b (rd_members d x) planned ->
    exists r, rd_audit d s (rd_represent d (digest s) x (map (rd_plan d) planned)) = Some r
      /\ (r = Ok () <-> forallb (rd_stands d) planned = true) /\ refuses r
}.

(** ** What an operation accepts *)

(** The caps the arithmetic relies on; they are unsigned in the source. *)
Record policy_typed (p : Policy) : Prop := {
  pt_files : 0 <= pol_max_files p;
  pt_total : is_u64 (pol_max_total_bytes p);
  pt_metadata : 0 <= pol_max_metadata_bytes p;
  pt_ratio : forall r, pol_max_ratio p = Some r -> 0 <= r
}.

(** The bytes are an archive of the dialect, the policy authorises the format,
    every cap holds, every member has its place, and the audit stands behind
    the plan. *)
Record admissible `{!PolicyText} (d : RawDialect) (fmt : string) (p : Policy) (data : list byte) (controls : CompiledControls)
    (x : rd_archive d) (planned : list (rd_member d * list str * list NormalizationAction)) : Prop := {
  ad_policy : compile_for_format p fmt = Ok controls;
  ad_size : Z.of_nat (length data) <= max_archive_bytes (budget controls);
  ad_grammar : rd_grammar d data x;
  ad_files : Z.of_nat (length (rd_members d x)) <= max_files (budget controls);
  ad_metadata : rd_metadata d x <= max_metadata_bytes (budget controls);
  ad_plan : tar_plan_ok (budget controls) (rd_members d x) planned;
  ad_stands : forallb (rd_stands d) planned = true
}.
End Laws.

(** The controls are the policy's caps, and a TAR format counts its members in
    32 bits. *)
Lemma tar_policy_compiled `{POL : !PolicyText} p fmt c :
  compile_for_format p fmt = Ok c -> fmt <> POLICY_FORMAT_ZIP ->
  c = controls_of p /\ pol_max_files p <= u32_max.
Proof.
  intros Hc Hf. unfold compile_for_format in Hc. ok_step Hc. case_match eqn:Hal; [|done].
  injection Hc as <-. apply compile_accepts_iff in Hs as [[(can & counted & capped & Hin & _ & Hsub & Hn & _) _ _] ->].
  split; [done|]. apply Hn. destruct counted; [done|]. exfalso. apply allows_format_iff in Hal.
  apply (elem_of_sublist _ _ _ Hal) in Hsub. unfold schemas in Hin.
  repeat (apply elem_of_cons in Hin as [Hin|Hin]; [simplify_eq; by apply list_elem_of_singleton in Hsub|]).
  by apply not_elem_of_nil in Hin.
Qed.

Section Planned.
Context `{SHA : !Sha256, ALLOC : !Allocator, UNI : !Unicode}.
Context (d : RawDialect) (Hd : DialectLaws d).

Lemma join_slash_dests (planned : list (rd_member d * list str * list NormalizationAction)) :
  map canonical_path (map (rd_plan d) planned) = map fst (dests planned).
Proof using Hd.
  unfold dests. rewrite !map_map. apply map_ext. intros [[m c] a]. simpl.
  by destruct (dl_plan _ Hd m c a) as (_ & _ & ->).
Qed.

Lemma total_length_planned bs b ms planned :
  Forall2 (member_plan_ok refuse_none (fun m => tar_placed (dc_name m) (dc_is_dir m) (max_path_depth b)) b) ms planned ->
  (forall m, m ∈ ms -> payload_inside bs (rd_payload d m) (dc_size m)) ->
  total_length (map (planned_bytes bs) (map (rd_plan d) planned)) <= declared_total planned.
Proof using Hd.
  intros Hp. induction Hp as [|m [[m' c] a] ms planned Hm _ IH]; intros Hin; [done|].
  unfold total_length, declared_total in *. cbn [map concat foldr fst]. rewrite length_app, Nat2Z.inj_add.
  destruct Hm as [Heq _ _ _ _]. simpl in Heq. subst m'.
  destruct (Hin m ltac:(by left)) as (r & Hr & Ho & Hs & Hl & Hle).
  specialize (IH ltac:(intros m' Hm'; apply Hin; by right)).
  enough (Z.of_nat (length (planned_bytes bs (rd_plan d (m, c, a)))) <= dc_size m) by lia.
  unfold planned_bytes, payload_range. destruct (dl_plan _ Hd m c a) as (Hfrom & _).
  rewrite Hfrom, Hr. cbn [pp_source dr_range raw_payload original_range].
  destruct (ir_kind _); [rewrite length_range; lia|simpl; lia].
Qed.
End Planned.

(** ** The run *)

Section Run.
Context {W D F : Type} `{CFS : !CapFs W D F, SHA : !Sha256, CRC : !Crc32, INF : !Inflate, XXH : !XxHash64, ALLOC : !Allocator, UNI : !Unicode}.
Context `{DBG : !DebugStr, RET : !RetentionCodec, POL : !PolicyText, VC : !ViewCodec, BE : !BuildEnv, DOC : !ProfileDocuments}.
Context (req : Request) (options : ApplyOptions) (depth : nat).

(** The planner of a raw dialect, from its record. *)
Definition plan_raw (d : RawDialect) (inputs : PlanInputs) : M W Outcome unit :=
  match domain (pi_snapshots inputs) (pi_domain inputs) with
  | None => spent
  | Some s =>
      match rd_parse d s (max_files (budget (pi_controls inputs))) (pi_metadata_budget inputs) with
      | None => spent
      | Some (Err finding) =>
          refuse_parse req inputs (Ok None) RawClass s "tar" (if rd_observes d s then "tar" else "unknown") finding
      | Some (Ok x) =>
          plan_parsed req options depth inputs false "tar" s (rd_payload d) (rd_plan d)
            (rd_represent d (pi_source_digest inputs) x) (rd_audit d) (rd_members d x)
      end
  end.

Lemma finish_shape facts magic p findings ms mm axes ids :
  o_verdict (finish facts magic p findings ms mm axes ids) = compat_verdict axes
  /\ o_verified_archive (finish facts magic p findings ms mm axes ids) = None.
Proof. destruct facts as [[path dg] k]. unfold finish, finish_with_jail. by destruct (compat_verdict axes). Qed.

Lemma structure_rejected i a f : compat_verdict (structure_stop i a f) = Rejected.
Proof. by destruct a. Qed.

(** An allowed inspection and a refused one. *)
Definition inspected (d : RawDialect) (data : list byte)
    (planned : list (rd_member d * list str * list NormalizationAction)) (o : Outcome) : Prop :=
  o_verdict o = Allowed false /\ exists a, o_verified_archive o = Some a
    /\ source_digest (va_ir a) = Available (hex_sha256 data)
    /\ members (va_ir a) = map (measured_on data) (map (rd_plan d) planned).
Definition decided (d : RawDialect) (fmt : string) (data : list byte) (o : Outcome) : Prop :=
  (exists controls x planned, admissible d fmt (req_policy req) data controls x planned /\ inspected d data planned o)
  \/ (refused o /\ forall controls x planned, ~ admissible d fmt (req_policy req) data controls x planned).

Context (d : RawDialect) (Hd : DialectLaws d) (fmt : string) (Hfmt : fmt <> POLICY_FORMAT_ZIP).
Context (data : list byte) (Hdata : Z.of_nat (length data) <= u64_max).
Context (Hp : policy_typed (req_policy req)) (Hres : forall site n, try_reserve site n = true).
Context (Hdest : req_dest req = None).

Lemma raw_ready_planned inputs path x planned :
  pi_snapshots inputs = from_original (borrowed path data) -> pi_transforms inputs = empty_graph ->
  pi_source_digest inputs = digest (borrowed path data) ->
  admissible d fmt (req_policy req) data (pi_controls inputs) x planned ->
  raw_tar_planned (ready_archive inputs "tar" (rd_represent d (pi_source_digest inputs) x (map (rd_plan d) planned))
    (map (fun p => rd_payload d p.1.1) planned) []) (borrowed path data) data.
Proof using Hd Hdata Hp Hfmt.
  intros Hsn Hg Hdg [Hpol Hsize Hgr Hfiles _ Hplan _]. pose proof (borrowed_reliable path data Hdata) as Hs.
  pose proof (tar_policy_compiled _ _ _ Hpol Hfmt) as [Hc Hcount].
  destruct (dl_represent _ Hd (pi_source_digest inputs) x (map (rd_plan d) planned)) as (Hsd & Hms & Hraw & Hf).
  pose proof (plan_ok_kept _ _ _ _ _ _ Hplan) as Hkept. destruct Hplan as [Hmem Htot Hdst _].
  pose proof (fun m => dl_members _ Hd _ _ _ m Hs Hgr) as Hin.
  split; cbn [ra_snapshots ra_transforms ra_ir ra_payloads ra_budget ra_source_digest ready_archive]; rewrite ?Hms.
  - done.
  - done.
  - by rewrite Hsd.
  - done.
  - rewrite map_map. apply map_ext. intros [[m c] a]. by destruct (dl_plan _ Hd m c a) as [-> _].
  - apply Forall_forall. intros im Him. apply list_elem_of_In, in_map_iff in Him as (p & <- & Hpin).
    apply list_elem_of_In, list_elem_of_lookup in Hpin as [i Hi].
    destruct (Forall2_lookup_r _ _ _ _ _ Hmem Hi) as (m & Hmi & Hok). apply list_elem_of_lookup_2 in Hmi as Hmin.
    destruct p as [[m' c] a], Hok as [Heq _ Hcap Hrat _]. simpl in Heq. subst m'.
    destruct (Hin m Hmin) as (r & Hr & Ho & Hn & Hl & Hle).
    destruct (dl_plan _ Hd m c a) as (Hfrom & Hsz & _).
    assert (payload_range (rd_plan d (m, c, a)) = r) as Hpr by (unfold payload_range; by rewrite Hfrom, Hr).
    split; rewrite ?Hpr, ?Hl; try done; try lia.
    intros r' Hr'. rewrite <- (dl_stored _ Hd m) at 2. by apply Hrat.
  - split; [|rewrite Hc; apply Hp]. etransitivity; [|exact Htot].
    by apply (total_length_planned d Hd data (budget (pi_controls inputs)) (rd_members d x)).
  - intros r Hr. rewrite Hc in Hr. by apply (pt_ratio _ Hp).
  - rewrite length_map. rewrite <- Hkept, length_map in Hfiles. rewrite Hc in Hfiles. simpl in Hfiles. lia.
  - rewrite (join_slash_dests d Hd). by destruct Hdst.
Qed.
(** A plan whose inputs are those of an acquired source. *)
Record acquired (inputs : PlanInputs) (path : option str) : Prop := {
  aq_snapshots : pi_snapshots inputs = from_original (borrowed path data);
  aq_transforms : pi_transforms inputs = empty_graph;
  aq_domain : pi_domain inputs = ORIGINAL;
  aq_digest : pi_source_digest inputs = digest (borrowed path data);
  aq_metadata : pi_metadata_budget inputs = max_metadata_bytes (budget (pi_controls inputs));
  aq_policy : compile_for_format (req_policy req) fmt = Ok (pi_controls inputs);
  aq_size : Z.of_nat (length data) <= max_archive_bytes (budget (pi_controls inputs))
}.

Lemma refused_stop inputs magic findings i a f :
  refused (stop_planning req inputs magic findings (structure_stop i a f)).
Proof.
  unfold stop_planning, refused. destruct (finish_shape (snap_path (original (pi_snapshots inputs)),
    pi_source_digest inputs, Snapshot.kind (original (pi_snapshots inputs))) magic (req_policy req) findings []
    (pi_materialization inputs) (structure_stop i a f) (pi_identities_base inputs)) as [-> ->].
  by rewrite structure_rejected.
Qed.
Lemma refused_admission inputs magic findings f :
  refused (stop_planning req inputs magic findings (denied_at_admission f)).
Proof. exact (refused_stop inputs magic findings Interpreted AdmissionDenied f). Qed.

(** The audit does not stand behind the plan. *)
Lemma refused_by_audit inputs x planned f (w : W) :
  compile_for_format (req_policy req) fmt = Ok (pi_controls inputs) ->
  Z.of_nat (length (rd_members d x)) <= max_files (budget (pi_controls inputs)) ->
  map (fun p => p.1.1) planned = rd_members d x -> is_error f ->
  exists o, (let@ cause := or_panic (first_error ([] ++ [f])) in
     or_panic (with_ir (stop_planning req inputs "tar" ([] ++ [f]) (tar_covering_failure_axes false cause))
       (rd_represent d (pi_source_digest inputs) x (map (rd_plan d) planned)))) w = (w, Some (Ok o)) /\ refused o.
Proof using Hd Hfmt data.
  intros Hpol Hf Hkept He. pose proof (tar_policy_compiled _ _ _ Hpol Hfmt) as [Hc Hcount].
  destruct (dl_represent _ Hd (pi_source_digest inputs) x (map (rd_plan d) planned)) as (_ & Hms & Hraw & _).
  cbn [app first_error List.find]. rewrite He. unfold bind, with_ir.
  destruct (identities_exist _ (o_verification (stop_planning req inputs "tar" [f] (tar_covering_failure_axes false f)))
    Hraw) as [ids Hids].
  { rewrite Hms, length_map. rewrite <- Hkept, length_map, Hc in Hf. simpl in Hf. lia. }
  unfold bind, or_panic, pure_exec. cbv beta iota. cbn [option_map ok]. rewrite Hids. eexists. split; [done|].
  destruct (refused_stop inputs "tar" [f] Malformed AdmissionDenied f) as [Hv Ha]. by split.
Qed.

(** The planner is a function: a plan that fits is the plan it makes. *)
Lemma plan_unique inputs path x st planned :
  pi_snapshots inputs = from_original (borrowed path data) ->
  is_u64 (max_total_bytes (budget (pi_controls inputs))) -> rd_grammar d data x ->
  plan_tar_members (budget (pi_controls inputs)) (rd_members d x) = Some st ->
  tar_plan_ok (budget (pi_controls inputs)) (rd_members d x) planned ->
  ps_planned st = planned /\ ps_findings st = [].
Proof using Hd Hdata Hres.
  intros Hsn Hu Hg Hst Hplan. pose proof (borrowed_reliable path data Hdata) as Hs.
  destruct (plan_tar_members_complete (budget (pi_controls inputs)) (rd_members d x) planned) as (st' & Hst' & Hnil & Hpl);
    [done| |done|done|].
  { apply Forall_forall. intros m Hin. by destruct (dl_members _ Hd _ _ _ m Hs Hg Hin) as (? & _ & _ & ? & _). }
  rewrite Hst in Hst'. by injection Hst' as <-.
Qed.

Lemma plan_raw_decides inputs path (w : W) :
  acquired inputs path ->
  exists o, plan_raw d inputs w = (w, Some (Ok o)) /\ decided d fmt data o.
Proof using Hd Hdata Hp Hfmt Hres Hdest.
  intros [Hsn Htr Hdom Hdg Hmeta Hpol Hsize]. pose proof (borrowed_reliable path data Hdata) as Hs.
  pose proof (tar_policy_compiled _ _ _ Hpol Hfmt) as [Hc _].
  assert (Hu : is_u64 (max_total_bytes (budget (pi_controls inputs)))) by (rewrite Hc; apply Hp).
  destruct (dl_parse _ Hd _ data (max_files (budget (pi_controls inputs))) (pi_metadata_budget inputs) Hs Hres) as [[r Hr] Hok];
    [rewrite Hc; apply Hp|rewrite Hmeta, Hc; apply Hp|].
  assert (Hadm : forall controls x planned, admissible d fmt (req_policy req) data controls x planned ->
    controls = pi_controls inputs /\ r = Ok x).
  { intros controls x planned [Hpol' _ Hg Hf Hm _ _]. rewrite Hpol in Hpol'. injection Hpol' as <-. split; [done|].
    rewrite Hmeta in *. rewrite (proj2 (Hok x)) in Hr by done. by injection Hr as <-. }
  unfold plan_raw. rewrite Hsn, Hdom. change (domain (from_original (borrowed path data)) ORIGINAL) with (Some (borrowed path data)).
  cbv iota. rewrite Hr. destruct r as [x|f].
  - pose proof (proj1 (Hok x) Hr) as (Hg & Hf & Hm). unfold plan_parsed.
    destruct (plan_tar_members_total (budget (pi_controls inputs)) (rd_members d x) Hres) as [st Hst].
    pose proof (plan_tar_members_errors _ _ _ Hst) as Herr. rewrite Hst, (has_error_errors _ Herr).
    case_bool_decide as Hno.
    + destruct (first_error_errors _ Herr Hno) as [cause Hcause]. rewrite Hcause.
      eexists. split; [unfold bind, or_panic, pure_exec, ret; simpl; done|]. right.
      split; [apply refused_admission|]. intros controls x' planned Ha. pose proof (Hadm _ _ _ Ha) as [-> [= <-]].
      destruct Ha as [_ _ _ _ _ Hplan _].
      by destruct (plan_unique inputs path x st planned Hsn Hu Hg Hst Hplan) as [_ ?].
    + pose proof (plan_tar_members_sound _ _ _ Hu Hst Hno) as Hplan.
      destruct (dl_audit _ Hd _ data x _ _ Hs (borrowed_reads_refuse path data) (ex_intro _ _ eq_refl) Hres Hg Hplan) as (r & Hrun & Hiff & Herrs).
      rewrite Hdg, Hrun, Hno. destruct r as [[]|f].
      2:{ destruct (refused_by_audit inputs x (ps_planned st) f w Hpol Hf (plan_ok_kept _ _ _ _ _ _ Hplan)
            (Herrs _ eq_refl)) as (o & Ho & Href).
          exists o. rewrite Hdg in Ho. split; [exact Ho|]. right. split; [done|]. intros controls x' planned Ha.
          pose proof (Hadm _ _ _ Ha) as [-> [= <-]]. destruct Ha as [_ _ _ _ _ Hplan' Hstands].
          destruct (plan_unique inputs path x st planned Hsn Hu Hg Hst Hplan') as [<- _]. by apply Hiff in Hstands. }
      assert (Ha : admissible d fmt (req_policy req) data (pi_controls inputs) x (ps_planned st)).
      { split; try done; [by rewrite <- Hmeta|by apply Hiff]. }
      rewrite <- Hdg.
      destruct (planned_inspection_is_allowed _ _ _ Hs (raw_ready_planned inputs path x (ps_planned st) Hsn Htr Hdg Ha)
        req options depth (pi_materialization inputs) w Hdest) as (o & a & Hgo & Hv & Hoa & Hsame & Hms).
      exists o. split; [exact Hgo|]. left. exists (pi_controls inputs), x, (ps_planned st). split; [done|].
      split; [done|]. exists a. split; [done|].
      destruct (dl_represent _ Hd (pi_source_digest inputs) x (map (rd_plan d) (ps_planned st))) as (Hsd & Hms' & _).
      cbn [ra_ir ready_archive] in *. destruct Hsame as (_ & _ & _ & Hsd' & _). split.
      * by rewrite Hsd', Hsd, Hdg.
      * by rewrite Hms, Hms'.
  - unfold refuse_parse. cbn [derived_ratio_stop]. eexists. split; [done|]. right. split.
    + unfold parse_failure_axes. apply refused_stop.
    + by intros controls x planned [_ ?]%Hadm.
Qed.

(** The policy or the source is refused before anything is planned. *)
Lemma refused_finish facts magic findings mm axes ids :
  ax_verification axes = StructureOnly -> refused (finish facts magic (req_policy req) findings [] mm axes ids).
Proof.
  intros Hv. destruct (finish_shape facts magic (req_policy req) findings [] mm axes ids) as [Hverdict Ha].
  split; [done|]. rewrite Hverdict. unfold compat_verdict. rewrite Hv. by destruct (ax_admission axes).
Qed.

Lemma apply_raw_tar_decides {P} `{!Interpretation P} (profile : P) plan path (w : W) :
  req_source req = SourceBytes path data -> policy_format profile = fmt ->
  (forall inputs, plan inputs = plan_raw d inputs) ->
  exists o, apply_raw_tar req profile plan w = (w, Some (Ok o)) /\ decided d fmt data o.
Proof using Hd Hdata Hp Hfmt Hres Hdest.
  intros Hsrc Hpf Hplan. unfold apply_raw_tar. rewrite Hpf, Hsrc. cbn [read_source].
  destruct (compile_for_format (req_policy req) fmt) as [controls|f] eqn:Hc.
  - destruct (Z.ltb_spec (max_archive_bytes (budget controls)) (Z.of_nat (length data))) as [Hlt|Hle].
    + eexists. split; [done|]. right. split; [by apply refused_finish|].
      intros controls' x planned [Hc' Hsz _ _ _ _ _]. rewrite Hc in Hc'. injection Hc' as <-. lia.
    + rewrite Hplan. by eapply plan_raw_decides.
  - eexists. split; [done|]. right. split; [by apply refused_finish|].
    intros controls' x planned [Hc' _ _ _ _ _ _]. congruence.
Qed.
End Run.
