(* ===== verification/DispatchDialects.v ===== *)
(** * The raw dialects ([apply.rs], [covering.rs])

    The three raw dialects and their audits.  The ustar and the PAX audits
    stand behind every plan the planner makes; the old-GNU one refuses a
    directory the planner moved (a leading dot-slash in its name).  Each
    instance discharges the laws of a dialect, and the decision of the whole
    operation follows. *)

From S2P Require Import Prelude Utf8 Paths Sort Findings Hints Quota Snapshot Streams Transforms Ir TarFields Tar TarGnu TarPax Evidence Identity Policy Jail JailSafe Planning PlanSafe Refusals Verification Outcome FileSystem Materialize Retention Crc Covering CoveringTar TarPaxRecords TarPaxProvenance TarGnuRefine CoveringGnu CoveringGnuAgree AuditHeaders TarWrite RetentionSafe Composite CompositeSafe Receipt Profiles Execute ExecuteSafe ExecuteLive CoveringPax Dispatch CoveringPaxAgree DispatchSafe TarRefine MemFs Publication.
Local Open Scope Z_scope.
Local Open Scope rust_scope.

(** ** The portable ustar dialect *)

Section Ustar.
Context `{SHA : !Sha256, ALLOC : !Allocator, UNI : !Unicode, DOC : !ProfileDocuments} (p : TarInterpretationProfile).

Definition ustar_dialect : RawDialect :=
  {| rd_archive := TarArchive; rd_member := TarMember; rd_declared := TarMember_declared;
     rd_parse := parse_ustar_portable_v1; rd_members := Tar.members; rd_metadata := Tar.metadata_bytes;
     rd_observes := recognizes_ustar; rd_payload := from_tar; rd_plan := ustar_member (PlanRaw p);
     rd_represent := fun source a => ustar_ir (PlanRaw p) source (covering_of_ustar a);
     rd_audit := audit_tar_covering; rd_grammar := ustar_archive; rd_stands := fun _ => true |}.

Lemma ustar_members_inside bs off ms stop m :
  0 <= off -> ustar_records bs off ms stop -> m ∈ ms -> payload_inside bs (from_tar m) (Tar.size m).
Proof.
  intros Ho Hr. induction Hr as [|off ms mid m' Hr IH Hm]; intros Hin; [by apply not_elem_of_nil in Hin|].
  apply elem_of_app in Hin as [Hin| ->%list_elem_of_singleton]; [by apply IH|].
  pose proof (records_bound _ _ _ _ Ho Hr) as [Hb _]. pose proof (record_size _ _ _ Hm) as Hsz.
  pose proof (padded_spec (Tar.size m') ltac:(lia)). destruct Hm as [(m0 & _ & E) Hf _].
  exists (mkrange (mid + BLOCK_LEN) (Tar.size m')). unfold BLOCK_LEN in *. cbn [offset len mkrange].
  split_and!; try lia; try done. rewrite E. done.
Qed.

Lemma ustar_laws : DialectLaws ustar_dialect.
Proof.
  split; cbn [ustar_dialect rd_archive rd_member rd_declared rd_parse rd_members rd_metadata rd_grammar rd_payload rd_plan rd_represent rd_audit rd_stands].
  - intros s bs mf mm Hs _ Hf Hm. pose proof (reliable_represents _ _ Hs) as Hr.
    assert (Hlen : 0 <= src_len s) by (rewrite (represents_len _ _ Hr); apply Nat2Z.is_nonneg).
    split; [destruct (parse_ustar_total s mf mm Hlen) as [r ->]; by eexists|].
    intros a. split.
    + intros (Ha & Hn & Hmm)%(parse_ustar_sound s bs); [|done]. split_and!; [done|lia|done].
    + intros (Ha & Hn & Hmm). destruct (ustar_run_archive s bs mf mm a Hs Ha Hf Hm) as [dt ->].
      by rewrite (proj2 (Z.ltb_ge _ _)), (proj2 (Z.ltb_ge _ _)).
  - intros s bs a m _ Ha. by eapply ustar_members_inside, archive_records.
  - done.
  - done.
  - intros source a ms. split_and!; [done..|by left|]. by intros [[m c] acts].
  - intros s bs a b planned Hs Hrf [sha Hdg] Hres Ha Hplan. exists (Ok ()). split; [|split; [|done]].
    + eapply (plans_ustar_audited s bs Raw a planned); [done..| |].
      * split; try done; [by eapply plan_ok_kept|]. cbn. unfold plan_members. apply map_ext. by intros [[m c] acts].
      * unfold audit_tar_identity. change (format _) with TarUstar. cbv iota.
        rewrite bool_decide_eq_true_2 by done. done.
    + split; [|done]. intros _. clear. by induction planned.
Qed.
End Ustar.

(** ** The old-GNU dialect *)

(** A directory keeps the name it has in the archive, less one trailing slash. *)
Definition gnu_in_place (p : GnuLongNameMember * list str * list NormalizationAction) : bool :=
  negb (g_is_dir p.1.1)
  || bytes_eqb (join_slash p.1.2) (default (g_name p.1.1) (Planning.strip_suffix_slash (g_name p.1.1))).

Section Gnu.
Context `{SHA : !Sha256, ALLOC : !Allocator, UNI : !Unicode, DOC : !ProfileDocuments} (p : TarGnuLongNameInterpretationProfile).

Definition gnu_dialect : RawDialect :=
  {| rd_archive := GnuLongNameArchive; rd_member := GnuLongNameMember; rd_declared := GnuLongNameMember_declared;
     rd_parse := parse_gnu_longname_portable_v1; rd_members := g_members; rd_metadata := g_metadata_bytes;
     rd_observes := recognizes_oldgnu; rd_payload := from_tar_gnu_longname; rd_plan := gnu_planned_member false;
     rd_represent := gnu_ir (GnuRaw p); rd_audit := audit_tar_gnu_longname_covering;
     rd_grammar := gnu_archive; rd_stands := gnu_in_place |}.

Lemma gnu_members_inside bs ms cs pend off m :
  gnu_records bs ms cs pend off -> m ∈ ms -> payload_inside bs (from_tar_gnu_longname m) (g_size m).
Proof.
  assert (Hat : forall off h name index, 0 <= off -> record_at bs off h ->
    payload_inside bs (from_tar_gnu_longname (member_at h off name index)) (g_size (member_at h off name index))).
  { intros o h name index Ho [Hh Hf _]. pose proof (gnu_parse_header_size _ _ _ Hh).
    pose proof (padded_spec (p_size h) ltac:(lia)). exists (mkrange (o + BLOCK_LEN) (p_size h)).
    unfold BLOCK_LEN in *. cbn [offset len mkrange member_at g_size]. split_and!; try lia; done. }
  induction 1 as [|ms cs off h path Hr IH Hat' _ _ _ _|ms cs off h Hr IH Hat' _ _|ms cs off h q Hr IH Hat' _]; intros Hin.
  - by apply not_elem_of_nil in Hin.
  - by apply IH.
  - pose proof (gnu_records_bound _ _ _ _ _ Hr) as [Hb _].
    apply elem_of_app in Hin as [Hin| ->%list_elem_of_singleton]; [by apply IH|apply Hat; [lia|done]].
  - pose proof (gnu_records_bound _ _ _ _ _ Hr) as [Hb _].
    apply elem_of_app in Hin as [Hin| ->%list_elem_of_singleton]; [by apply IH|apply Hat; [lia|done]].
Qed.

Lemma gnu_slash_placed m depth c a :
  tar_placed (g_name m) (g_is_dir m) depth (c, a) ->
  gnu_slash_consistent (gnu_planned_member false (m, c, a)) = Ok () <-> gnu_in_place (m, c, a) = true.
Proof.
  intros Hp. assert (a = pn_actions (prepare_tar_member_name (g_name m) (g_is_dir m))) as ->.
  { unfold tar_placed in Hp. destruct (pn_archive_root _); [by simplify_eq|]. destruct Hp as (_ & _ & ?). by simplify_eq. }
  unfold gnu_slash_consistent, gnu_in_place, strip_actions, prepare_tar_member_name.
  cbn [gnu_planned_member from_tar_gnu_longname_planned_for_format planned ir_kind decoded_name canonical_path
    normalization_actions fst snd].
  change CoveringGnu.strip_suffix_slash with Planning.strip_suffix_slash.
  destruct (g_is_dir m); cbn [kind_of negb orb].
  - rewrite bool_decide_eq_true_2 by done.
    destruct (Planning.strip_suffix_slash (g_name m)) as [w|]; cbn [andb default];
      match goal with |- context [pn_actions (if ?b then _ else _)] => destruct b end; cbn;
      by destruct (bytes_eqb _ _).
  - by rewrite bool_decide_eq_false_2.
Qed.

Lemma gnu_stands_iff b ms planned :
  tar_plan_ok b ms planned ->
  Forall (fun q => gnu_slash_consistent (gnu_planned_member false q) = Ok ()) planned <-> forallb gnu_in_place planned = true.
Proof.
  intros Hp. assert (Hq : forall q, q ∈ planned ->
    gnu_slash_consistent (gnu_planned_member false q) = Ok () <-> gnu_in_place q = true).
  { intros q [i Hi]%list_elem_of_lookup. destruct (Forall2_lookup_r _ _ _ _ _ (po_members _ _ _ _ _ _ Hp) Hi) as (m & _ & Hm).
    destruct q as [[m' c] a], Hm as [Heq _ _ _ Hpath]. simpl in *. subst m'. by eapply gnu_slash_placed. }
  rewrite forallb_forall, Forall_forall. split; intros H q Hin.
  - apply Hq; [by apply list_elem_of_In|]. by apply H, list_elem_of_In.
  - by apply Hq; [|apply H, list_elem_of_In].
Qed.

Lemma gnu_says s x b planned :
  tar_plan_ok b (g_members x) planned -> forallb gnu_in_place planned = true ->
  says_gnu (gnu_ir (GnuRaw p) s x (map (gnu_planned_member false) planned)) x.
Proof.
  intros Hplan Hst. split; [done|]. cbn [members gnu_ir with_tar_gnu_longname with_profile].
  rewrite <- (plan_ok_kept _ _ _ _ _ _ Hplan). apply (gnu_stands_iff b _ _ Hplan) in Hst. clear Hplan.
  induction Hst as [|[[m c] a] planned Hq _ IH]; [constructor|]. constructor; [|exact IH].
  split; try done. by left.
Qed.

Lemma gnu_laws : DialectLaws gnu_dialect.
Proof.
  split; cbn [gnu_dialect rd_archive rd_member rd_declared rd_parse rd_members rd_metadata rd_grammar rd_payload rd_plan
    rd_represent rd_audit rd_stands].
  - intros s bs mf mm Hs Hres Hf Hm. pose proof (reliable_represents _ _ Hs) as Hr.
    split; [destruct (parse_gnu_total s bs mf mm Hr) as [r ->]; by eexists|]. intros a. split.
    + intros (Ha & Hn & Hmm)%(parse_gnu_sound s bs); [|done]. split_and!; [done|lia|done].
    + intros (Ha & Hn & Hmm). by apply (parse_gnu_complete s bs).
  - intros s bs a m _ Ha. by eapply gnu_members_inside, ga_records.
  - done.
  - done.
  - intros source a ms. split_and!; [done..|by right; right|]. by intros [[m c] acts].
  - intros s bs x b planned Hs Hrf [sha Hdg] Hres Hg Hplan.
    assert (Ht : archive_ranges_typed (gnu_ir (GnuRaw p) (digest s) x (map (gnu_planned_member false) planned))).
    { intros e He. assert (e = CoveringGnuAgree.covering_of x) as -> by (by injection He as <-).
      pose proof (gnu_records_bound _ _ _ _ _ (ga_records _ _ Hg)) as [Hb _]. pose proof (ga_fits _ _ Hg).
      rewrite (ga_layout _ _ Hg). unfold range_nonneg, BLOCK_LEN in *. cbn. lia. }
    destruct (audit_gnu_total s bs Hs Hres _ Ht) as [r Hr]. exists r. split; [exact Hr|].
    split; [|intros f ->; exact (refuses_audit_gnu s Hrf _ f Hr)]. split.
    + intros ->. apply (audit_gnu_sound s bs Hs Hres _ Ht (ga_blocks _ _ Hg)) in Hr as (_ & a & _ & [_ Hms]).
      apply (gnu_stands_iff b _ _ Hplan). apply Forall_forall. intros q Hq.
      apply (list_elem_of_fmap_2 (gnu_planned_member false)), list_elem_of_lookup in Hq as [i Hi].
      by destruct (Forall2_lookup_r _ _ _ _ _ Hms Hi) as (g & _ & []).
    + intros Hst. rewrite (audit_gnu_complete s bs Hs Hres _ x) in Hr; [by injection Hr as <-| |done|by eapply gnu_says|done].
      unfold audit_gnu_identity. change (format _) with FormatTarGnuLongName. cbv iota.
      rewrite bool_decide_eq_true_2 by done. done.
Qed.
End Gnu.

(** ** The PAX dialect *)

Section Pax.
Context `{SHA : !Sha256, ALLOC : !Allocator, UNI : !Unicode, DOC : !ProfileDocuments} (p : TarPaxInterpretationProfile).

Definition pax_dialect : RawDialect :=
  {| rd_archive := PaxArchive; rd_member := PaxMember; rd_declared := PaxMember_declared;
     rd_parse := parse_pax_portable_v1; rd_members := x_members; rd_metadata := x_metadata_bytes;
     rd_observes := recognizes_ustar; rd_payload := from_tar_pax; rd_plan := pax_planned_member false;
     rd_represent := pax_ir (PaxRaw p); rd_audit := audit_tar_pax_covering;
     rd_grammar := pax_archive; rd_stands := fun _ => true |}.

Lemma pax_members_inside bs ms es g pend off m :
  pax_run bs ms es g pend off -> m ∈ ms -> payload_inside bs (from_tar_pax m) (m_size m).
Proof.
  intros Hr Hin. induction Hr as [|ms es g off h kind rs Hr IH _ _ _ _ _ _ u|ms es g pend off h name psrc n ssrc Hr IH _ _ _ _ Hrec].
  - by apply not_elem_of_nil in Hin.
  - by apply IH.
  - apply elem_of_app in Hin as [Hin| ->%list_elem_of_singleton]; [by apply IH|].
    pose proof (pax_run_bound _ _ _ _ _ _ Hr) as [Hb _]. destruct Hrec as [_ Hn Hf _].
    pose proof (padded_spec n ltac:(lia)). exists (mkrange (off + BLOCK_LEN) n).
    unfold BLOCK_LEN in *. cbn [offset len mkrange TarPaxProvenance.member_at m_size]. split_and!; try lia; done.
Qed.

Lemma pax_says source a planned :
  map (fun q => q.1.1) planned = x_members a ->
  says_pax_archive (pax_ir (PaxRaw p) source a (map (pax_planned_member false) planned)) a.
Proof.
  intros Hkept. split; [done|]. cbn [members pax_ir with_tar_pax with_profile]. rewrite <- Hkept. clear Hkept.
  induction planned as [|[[m c] acts] planned IH]; [constructor|]. constructor; [|exact IH].
  split; try done. by left.
Qed.

Lemma pax_laws : DialectLaws pax_dialect.
Proof.
  split; cbn [pax_dialect rd_archive rd_member rd_declared rd_parse rd_members rd_metadata rd_grammar rd_payload rd_plan
    rd_represent rd_audit rd_stands].
  - intros s bs mf mm Hs Hres Hf Hm. pose proof (reliable_represents _ _ Hs) as Hr.
    split; [destruct (parse_pax_total s bs mf mm Hr) as [r ->]; by eexists|]. intros a. split.
    + intros (Ha & Hn & Hmm)%(parse_pax_sound s bs); [|done]. split_and!; [done|lia|done].
    + intros (Ha & Hn & Hmm). by apply (parse_pax_complete s bs).
  - intros s bs a m _ Ha. destruct (xa_records _ _ Ha) as [g Hg]. by eapply pax_members_inside.
  - done.
  - done.
  - intros source a ms. split_and!; [done..|by right; left|]. by intros [[m c] acts].
  - intros s bs x b planned Hs Hrf [sha Hdg] Hres Hg Hplan. exists (Ok ()). split; [|split; [|done]].
    + apply (audit_pax_complete s bs Hs Hres _ x); [|done|apply pax_says; by eapply plan_ok_kept].
      unfold audit_pax_identity. change (format _) with FormatTarPax. cbv iota. by rewrite bool_decide_eq_true_2.
    + split; [|done]. intros _. clear. by induction planned.
Qed.
End Pax.

(** ** The operations *)

Section Operations.
Context {W D F : Type} `{CFS : !CapFs W D F, SHA : !Sha256, CRC : !Crc32, INF : !Inflate, XXH : !XxHash64, ALLOC : !Allocator, UNI : !Unicode}.
Context `{DBG : !DebugStr, RET : !RetentionCodec, POL : !PolicyText, VC : !ViewCodec, BE : !BuildEnv, DOC : !ProfileDocuments}.

(** C5: An inspection of caller bytes as a portable-ustar archive always ends
    without touching the file system.  It is allowed exactly when the policy
    authorises the format and the bytes are an archive of the ustar grammar,
    within every cap, whose members the planner can place; the verified
    archive then says of every member the digest and checksum of the range
    the parser found.  Otherwise it is refused and carries no archive. *)
Theorem tar_inspection_decides (req : Request) options depth (profile : TarInterpretationProfile) path data (w : W) :
  req_source req = SourceBytes path data -> req_dest req = None -> Z.of_nat (length data) <= u64_max ->
  policy_typed (req_policy req) -> (forall site n, try_reserve site n = true) ->
  exists o, apply_tar_with_options req options depth profile w = (w, Some (Ok o))
    /\ decided req (ustar_dialect profile) (policy_format profile) data o.
Proof.
  intros Hsrc Hdest Hdata Hp Hres. unfold apply_tar_with_options.
  eapply apply_raw_tar_decides; [apply ustar_laws|done..|].
  intros inputs. unfold plan_tar_domains, plan_raw. done.
Qed.

(** C7: An inspection of caller bytes as an old-GNU archive always ends without
    touching the file system.  It is allowed exactly when the policy authorises
    the format and the bytes are an archive of the carrier grammar, within
    every cap, whose members the planner can place and whose directories stay
    where their names say; a directory the planner moved, as it moves a name
    with a leading dot-slash, is refused by the audit. *)
Theorem gnu_inspection_decides (req : Request) options depth (profile : TarGnuLongNameInterpretationProfile) path data (w : W) :
  req_source req = SourceBytes path data -> req_dest req = None -> Z.of_nat (length data) <= u64_max ->
  policy_typed (req_policy req) -> (forall site n, try_reserve site n = true) ->
  exists o, apply_tar_gnu_longname_with_options req options depth profile w = (w, Some (Ok o))
    /\ decided req (gnu_dialect profile) (policy_format profile) data o.
Proof.
  intros Hsrc Hdest Hdata Hp Hres. unfold apply_tar_gnu_longname_with_options.
  eapply apply_raw_tar_decides; [apply gnu_laws|done..].
Qed.

(** C6: An inspection of caller bytes as a PAX archive always ends without
    touching the file system.  It is allowed exactly when the policy authorises
    the format and the bytes are an archive of the extension grammar, global
    and local values applied, within every cap, whose members the planner can
    place: the audit's own replay never refuses what the reader accepted. *)
Theorem pax_inspection_decides (req : Request) options depth (profile : TarPaxInterpretationProfile) path data (w : W) :
  req_source req = SourceBytes path data -> req_dest req = None -> Z.of_nat (length data) <= u64_max ->
  policy_typed (req_policy req) -> (forall site n, try_reserve site n = true) ->
  exists o, apply_tar_pax_with_options req options depth profile w = (w, Some (Ok o))
    /\ decided req (pax_dialect profile) (policy_format profile) data o.
Proof.
  intros Hsrc Hdest Hdata Hp Hres. unfold apply_tar_pax_with_options.
  eapply apply_raw_tar_decides; [apply pax_laws|done..].
Qed.
End Operations.

(** ** Runs *)

Definition no_documents : ProfileDocuments := fun _ => [].
Definition inspecting (policy : Policy) (data : list byte) : Request :=
  {| req_source := SourceBytes None data; req_policy := policy; req_dest := None |}.
Definition run_ustar (policy : Policy) (data : list byte) : MemWorld -> MemWorld * exec Outcome unit :=
  @apply_tar_with_options MemWorld Ident MemFile mem_fs null_sha256 length_crc literal_inflate zero_xxhash64
    always_reserves ascii_unicode quoted opaque_codec plain_policy_text plain_view_codec plain_build no_documents
    (inspecting policy data) capturing 3 UstarPortableV1.
Definition run_gnu (policy : Policy) (data : list byte) : MemWorld -> MemWorld * exec Outcome unit :=
  @apply_tar_gnu_longname_with_options MemWorld Ident MemFile mem_fs null_sha256 length_crc literal_inflate zero_xxhash64
    always_reserves ascii_unicode quoted opaque_codec plain_policy_text plain_view_codec plain_build no_documents
    (inspecting policy data) capturing 3 GnuLongNamePortableV1.
Definition run_pax (policy : Policy) (data : list byte) : MemWorld -> MemWorld * exec Outcome unit :=
  @apply_tar_pax_with_options MemWorld Ident MemFile mem_fs null_sha256 length_crc literal_inflate zero_xxhash64
    always_reserves ascii_unicode quoted opaque_codec plain_policy_text plain_view_codec plain_build no_documents
    (inspecting policy data) capturing 3 PaxPortableV1.
Definition verdict_of (r : exec Outcome unit) : option Verdict :=
  match r with Some (Ok o) => Some (o_verdict o) | _ => None end.

(** A directory and the same directory behind a dot-slash, in old-GNU framing. *)
Definition gnu_directory (name : str) : list byte :=
  append_fuzz_record [] (fuzz_header name 0 "5"%byte) [] ++ replicate 1024 x00.

Example run_ustar_canonical :
  verdict_of (run_ustar default_v2 canonical_fuzz_archive (empty_disk 0 false)).2 = Some (Allowed false).
Proof. vm_compute. reflexivity. Qed.
Example run_gnu_canonical :
  verdict_of (run_gnu default_v6 gnu_canonical_fuzz_archive (empty_disk 0 false)).2 = Some (Allowed false).
Proof. vm_compute. reflexivity. Qed.
Example run_pax_example :
  verdict_of (run_pax default_v6 example_pax_bytes (empty_disk 0 false)).2 = Some (Allowed false).
Proof. vm_compute. reflexivity. Qed.
Example run_gnu_directory :
  verdict_of (run_gnu default_v6 (gnu_directory (lit "d/")) (empty_disk 0 false)).2 = Some (Allowed false)
  /\ verdict_of (run_gnu default_v6 (gnu_directory (lit "./d/")) (empty_disk 0 false)).2 = Some Rejected.
Proof. vm_compute. split; reflexivity. Qed.

Lemma default_v2_typed : policy_typed default_v2.
Proof. split; [by vm_compute..|]. intros r H. by (injection H as <-). Qed.
Lemma default_v6_typed : policy_typed default_v6.
Proof. split; [by vm_compute..|]. intros r H. by (injection H as <-). Qed.

Lemma tar_inspection_decides_witness :
  exists o, run_ustar default_v2 canonical_fuzz_archive (empty_disk 0 false) = (empty_disk 0 false, Some (Ok o))
    /\ @decided null_sha256 length_crc ascii_unicode plain_policy_text (inspecting default_v2 canonical_fuzz_archive)
         (@ustar_dialect null_sha256 no_documents UstarPortableV1) POLICY_FORMAT_TAR_USTAR canonical_fuzz_archive o.
Proof.
  apply (@tar_inspection_decides MemWorld Ident MemFile mem_fs null_sha256 length_crc literal_inflate zero_xxhash64
    always_reserves ascii_unicode quoted opaque_codec plain_policy_text plain_view_codec plain_build no_documents
    (inspecting default_v2 canonical_fuzz_archive) capturing 3 UstarPortableV1 None canonical_fuzz_archive (empty_disk 0 false)
    eq_refl eq_refl).
  - vm_compute. discriminate.
  - apply default_v2_typed.
  - done.
Defined.

Lemma gnu_inspection_decides_witness :
  exists o, run_gnu default_v6 (gnu_directory (lit "./d/")) (empty_disk 0 false) = (empty_disk 0 false, Some (Ok o))
    /\ @decided null_sha256 length_crc ascii_unicode plain_policy_text (inspecting default_v6 (gnu_directory (lit "./d/")))
         (@gnu_dialect null_sha256 always_reserves no_documents GnuLongNamePortableV1) POLICY_FORMAT_TAR_GNU_LONGNAME
         (gnu_directory (lit "./d/")) o.
Proof.
  apply (@gnu_inspection_decides MemWorld Ident MemFile mem_fs null_sha256 length_crc literal_inflate zero_xxhash64
    always_reserves ascii_unicode quoted opaque_codec plain_policy_text plain_view_codec plain_build no_documents
    (inspecting default_v6 (gnu_directory (lit "./d/"))) capturing 3 GnuLongNamePortableV1 None (gnu_directory (lit "./d/"))
    (empty_disk 0 false) eq_refl eq_refl).
  - vm_compute. discriminate.
  - apply default_v6_typed.
  - done.
Defined.

Lemma pax_inspection_decides_witness :
  exists o, run_pax default_v6 example_pax_bytes (empty_disk 0 false) = (empty_disk 0 false, Some (Ok o))
    /\ @decided null_sha256 length_crc ascii_unicode plain_policy_text (inspecting default_v6 example_pax_bytes)
         (@pax_dialect null_sha256 always_reserves no_documents PaxPortableV1) POLICY_FORMAT_TAR_PAX example_pax_bytes o.
Proof.
  apply (@pax_inspection_decides MemWorld Ident MemFile mem_fs null_sha256 length_crc literal_inflate zero_xxhash64
    always_reserves ascii_unicode quoted opaque_codec plain_policy_text plain_view_codec plain_build no_documents
    (inspecting default_v6 example_pax_bytes) capturing 3 PaxPortableV1 None example_pax_bytes
    (empty_disk 0 false) eq_refl eq_refl).
  - vm_compute. discriminate.
  - apply default_v6_typed.
  - done.
Defined.
